(* ===== verification/_CoqProject ===== *)
-Q . S2P
Prelude.v
Str.v
Time.v
CoreId.v
Capabilities.v
CoreError.v
Classify.v
Retry.v
Binding.v
Health.v
Quota.v
Explain.v
Telemetry.v
Registration.v
Registry.v
QuotaTable.v
Evaluate.v
Choose.v
Fairness.v
Select.v
Invariant.v
SelectFacts.v
System.v
Recovery.v
Bytes.v
Sse.v
Connect.v
Stream.v
Drain.v
RouteMatch.v
RouteFacts.v
Cache.v
CacheFacts.v
Lifecycle.v
Pricing.v
Json.v
JsonFacts.v
Extensions.v
Events.v
Body.v
Store.v
StoreOps.v
StoreInv.v
StoreSystem.v
Dialect.v
Catalog.v
CatalogMerge.v
CatalogPatterns.v
CatalogSpec.v
CatalogFacts.v
CatalogService.v
CatalogConfigFacts.v
Watch.v
Loader.v
LoaderFacts.v
Presets.v
PresetFacts.v
Resolve.v
ResolveOrigins.v
Request.v
Redact.v
RedactText.v
RedactScan.v
RedactWriter.v
Metrics.v
Exposition.v
Decisions.v
Management.v
Codec.v
SerdeModel.v
Anthropic.v
AnthropicFacts.v
AnthropicUsage.v
AnthropicRoundtrip.v
AnthropicUnary.v
OpenAiChat.v
OpenAiChatRequest.v
OpenAiChatFacts.v
OpenAiChatRoundtrip.v
OpenAiChatRequestFacts.v
