(* ===== verification/Prelude.v ===== *)
(** Verification of the Pooler gateway.

    Pooler is a gateway in front of model providers: it matches a request to a
    route, selects a provider credential by policy, forwards the request, decides
    about retries when an attempt fails, and keeps health, quota, affinity and
    cache state shared by all requests.  This library models the components that
    take these decisions and proves what they promise.  The sources are Rust
    crates under src/crates/; every file below names the ones it models.

    * The program and the files

    Values and classification (crates/pooler-core)
    - Str, Time, Bytes: what the sources use of [str], [std::time] and byte slices;
      UTF-8 validation; the interface of an incremental decoder.
    - CoreId (id.rs), Capabilities (capabilities.rs, capability sets on a 64-bit
      word), CoreError (error.rs, limits.rs, mode.rs).

    Policy (crates/pooler-policy)
    - Classify, Retry, Health, Explain (lib.rs): classification of failures with
      recovery hints; commitment and replay safety, the retry decision, and the
      turns of the request loop that act on it (wait_for_policy_retry and its
      callers in pooler-http/src/proxy.rs and pool.rs); scoped cooldowns; the redacted explanation of a decision.
    - Quota (quota.rs): provider observations, snapshots, persistence records.
    - Binding, Registration, Telemetry, Registry, QuotaTable
      (selection.rs): binding identities, registration builders, rolling
      telemetry, the registry's tables and the operations that change them.
    - Evaluate, Choose, Select (selection.rs): the filters, the six strategies and
      adaptive ranking, selection with affinity and reservation, release, quota
      recovery.  Evaluate, Choose, Fairness, SelectFacts also hold their
      properties, Invariant the invariant of the tables, System the histories of a
      registry with its live leases, Recovery the recovery of a failed lease.

    Routing (crates/pooler-config)
    - RouteMatch, RouteFacts (route_match.rs and the route table of lib.rs):
      matching a request, compiling a matcher, conflicts and precedence.
    - Pricing (pricing.rs): price books and exact estimates.
    - Watch (watch.rs): the configuration watcher, with its import scan.
    - Loader, Presets, Resolve (loader.rs): YAML documents, the merge of overlays and
      the origins of declarations; the built-in presets; the resolution of imports
      and loading, with which files are read.  LoaderFacts says what merging does to
      values and to documents, PresetFacts what a preset expands to, ResolveOrigins
      where declarations are from.

    Transport and runtime (crates/pooler-http, pooler-protocol, pooler-server)
    - Sse (pooler-http/src/sse.rs): the event stream codec.
    - Connect (pooler-protocol/src/connect.rs, adapter-devin/src/connect.rs): the
      envelope codec, and the stream of frames an adapter makes of chunks.
    - Stream (stream.rs): the commitment of one response stream.
    - Drain (drain.rs, resources.rs): admission, release and drain.
    - Cache, CacheFacts (cache.rs): the bounded response cache with
      single-flight fetches.
    - Lifecycle (pooler-server/src/lifecycle.rs): start-up and shutdown.
    - Body (pooler-http/src/body.rs): the limits on bodies and frames.

    Semantic protocol (crates/pooler-protocol)
    - Json, JsonFacts (json.rs): documents that keep their bytes, JSON pointers and
      bounded patches.
    - Extensions (extensions.rs, conversion.rs): opaque extensions
      and the accounting of conversion losses.
    - Events (events.rs): stream events and their validator.
    - Request (model.rs): the protocol-neutral request, with the conversions between
      the two widths of its floating point numbers.

    State (crates/pooler-store)
    - Store, StoreOps (lib.rs, usage.rs): the records of the store with their
      validation and retention, and the operations of the in-memory store.
      StoreInv holds the invariant of its tables, what the mutations do to
      credential rows and the activation of a configuration, StoreSystem the
      histories of a store.

    Models (crates/pooler-model-catalog)
    - Dialect (pooler-core/src/dialect.rs): the facts about an upstream model.
    - Catalog, CatalogMerge (lib.rs, overrides.rs): the configuration of discovery
      sources and overrides, the merge of what the sources return, and the service
      that refreshes a snapshot.  CatalogPatterns is about model patterns,
      CatalogSpec and CatalogFacts state what merging means, that it does and that
      order does not matter, CatalogService holds the histories of the service,
      CatalogConfigFacts the compiler.

    Observability (crates/pooler-observe)
    - Redact (lib.rs): the redaction of JSON values, headers and free text, and the
      log writer, with the properties of structured values; RedactText and
      RedactScan are about free text, RedactWriter about the writer.
    - Metrics (lib.rs): the metrics registry and its histories.
    - Exposition (lib.rs): the snapshot and its text form.
    - Decisions (lib.rs, and from_selection of pooler-store/src/lib.rs): the stored
      and the observed record of a selection.

    Control plane (crates/pooler-server)
    - Management (management_state.rs, and the control-plane records
      of pooler-store/src/lib.rs): sessions, drafts, histories and OAuth flows kept
      without a persistent store.

    Dialects (crates/adapter-anthropic, crates/pooler-protocol)
    - Codec: the monad of the codecs' methods and the members of JSON values.
    - Anthropic (stream.rs): the decoder and the encoder of Anthropic event streams.
      AnthropicFacts shows the decoder's streams well formed, AnthropicUsage is about
      the objects that are written, AnthropicRoundtrip about reading what was written.
    - AnthropicUnary (stream.rs): whole messages.
    - OpenAiChat (openai_chat.rs): the decoder and the encoder of OpenAI Chat chunks.
      OpenAiChatFacts shows the decoder's streams well formed, OpenAiChatRoundtrip is
      about what is understood of the chunks that were written.
    - OpenAiChatRequest (openai_chat.rs): the decoder and the encoder of OpenAI Chat
      requests.  OpenAiChatRequestFacts shows that a decoded request is encoded
      without loss to a body that is decoded to the same request.
    - SerdeModel: what the round trips assume of serde_json, and that it can hold.

    * How the code is modelled

    A method on [&mut self] or on a state behind a lock is a function from the
    state to its result and the next state; [Result] and [?] are [Result] and
    [let?].  Unsigned integers are [N] with the maximum of their width written out
    wherever an operation saturates, wraps or is checked; [i64] and instants are
    [Z].  Maps and sets are [gmap] and [gset], sorted where the source iterates a
    B-tree.  A registry shared by several handles is a cell of a store, an [Arc]
    of a flight a cell of a heap.  Where several tasks act at once, each locked
    section or atomic access is one step of an inductive relation, and invariants
    are proved by induction over its histories.  Time is an argument of every
    operation that reads a clock.

    Code outside the sources is a parameter with named hypotheses on what the
    sources rely on: SHA-256 ([Digest], [DigestSpec]), the gzip streams ([Flate2],
    [Flate2Spec]), the http crate ([Http]), the serde_json parser, printer and
    pointers ([SerdeJson], [SerdePointer]), the YAML parser, the file system and
    the loader as the watcher sees them ([YamlImports], [World]), and the operating
    system, the YAML parser with the types it deserialises, the texts of the presets
    and the provider catalog as the loader sees them ([ConfigFs], [ConfigSyntax],
    [MappingRemove]), and the sink of the log writer ([InnerWriter]).  The round trips
    of the dialects assume that serde_json reads back what it writes, within its
    recursion limit, for values without floating point numbers ([SerdeExact]) or with
    ones that it reads back one by one ([SerdeReads], which also assumes that the parser
    returns only values of the Rust types within that limit).

    Loops are recursive on what they consume; some carry fuel: alias resolution
    (the size of the alias table plus two), the Connect decoder (the length of the
    chunk), cache eviction (the length of the eviction order), the three evictions
    of the store (the size of their table), the pattern matcher (a bound on its
    backtracking, quadratic in the value), the import scan (the number of files),
    the resolution of imports (the depth the loader allows, plus two), the search of
    free text (its length) and the lines of the log writer (the length of what is
    pending).
    The theorems show that each fuel is enough.

    * What the theorems show

    Selection is sound (a chosen candidate passed every filter in the best tier
    and holds a counted lease), complete (it fails only when nothing is eligible)
    and keeps a session on its binding while the table remembers it; each strategy optimises what it names,
    round robin and smooth weighting are fair; counters of leases are exact and
    the tables consistent in every history; recovery retries within its rules.
    In the request loop the attempts and the waits are bounded by the policy, and a
    retry never follows a visible response, in the policy and in the stream state
    machine.  Health and quota updates are
    monotone, order independent and survive persistence.  A request gets the
    route its table calls for, and a table without reported conflicts is
    unambiguous.  The codecs are inverse, bounded in memory and independent of
    chunk boundaries, except that these decide how many of the items before an error
    a consumer has when the error comes.  The cache is bounded, fetches a key once at a time, wakes
    every follower, and shares a response only between equivalent requests, except
    for the ambiguity of empty header values that cache_key_collision shows.
    Drain and shutdown account for every request and are final.  A body limit is
    exact and otherwise invisible; a JSON patch changes what its pointer selects
    and nothing else; the stream validator accepts exactly the well-formed streams;
    no conversion loses a field without a warning or against the route's policy.
    The tables of the in-memory store stay bounded and refer to credentials that
    exist, a revision identifies the row a caller has seen, and activating a
    configuration happens as a whole or not at all.  The model catalog publishes
    exactly what its sources expose, in whatever order they answer, replaces a
    snapshot only by a complete one, when a refresh ends in time and without an error,
    and respects the operator's selections; its
    patterns mean what they say, except for identifiers that contain a star.  The
    watcher reports a lasting change once, after a quiet period and however often it
    polls, except for an edit
    between loading a candidate and accepting it.  An overlay changes what it mentions
    and nothing else, section by section; loading ends, depends on exactly the files
    its imports reach and reads no file but the root that others can write; an origin
    names a declaration that exists and the file or imported preset that declares it; a preset stays
    under its alias.  What is recorded does not depend on values under sensitive keys or
    in headers that may not be recorded; every value a marker announces in free text is
    replaced, the text around the replaced ranges is kept, and the log writer sanitises
    line by line however its input is cut, except for the quoted keys that
    json_log_field_kept shows.  The metrics count every request once and distribute every
    measured value, within the bound on series, and their text form can be read back whatever the labels hold.  The
    control-plane tables stay bounded, an OAuth state is consumed at most once and a
    revoked session stays revoked.  The Anthropic decoder emits streams that the
    validator accepts; a client reads from the encoder's bytes what the events said;
    and a whole message passes through the semantic events unchanged, except for the
    stop reasons that stop_told renames.  The same is shown of the
    chunks of OpenAI Chat, and a request of that dialect is forwarded in it without loss,
    except for what file_data_unreported and schema_unreported show.

    * Not modelled

    Poisoned locks; the state of a parser or decoder after it returned an error;
    the two locks that unregistering takes are one step; the asynchronous waits of
    tokio, cancellation tokens beyond a flag, and the body wrapper of drain; the
    JSON schema of the configuration and the parts of its compiler outside the route
    table and the catalog; the permission checks of the loader on Windows; the provider
    adapters and dialect bodies except for the responses of Anthropic, the streams and
    the requests of OpenAI Chat and the frames of Devin (translations of serde_json
    values and generated protobuf code), OAuth and keyring access, the SQLite
    store (statements of a database outside the sources), the HTTP proxy and its
    connection pool beyond the policy they call, the management API beyond the state it
    keeps in memory, the command line, the set-up of tracing, trace records and audit
    events, extensions, and the test kit.

    This file holds what the others share: [Result] and its notation, machine
    integers, options, orderings and their closure properties, iterators, sorting,
    and maps. *)
From stdpp Require Export base tactics numbers list list_numbers sorting strings gmap fin_maps.
From Stdlib Require Export ZArith Lia.


Declare Scope pooler_scope.
Delimit Scope pooler_scope with pooler.
Open Scope pooler_scope.
Open Scope N_scope.

(** * Rust's [Result] and [?] *)

Inductive Result (A E : Type) : Type :=
| Ok (a : A)
| Err (e : E).
Arguments Ok {A E} a.
Arguments Err {A E} e.

Definition result_bind {A B E} (r : Result A E) (k : A -> Result B E) : Result B E :=
  match r with Ok a => k a | Err e => Err e end.

Notation "'let?' x ':=' r 'in' k" := (result_bind r (fun x => k))
  (at level 10, x pattern, r at level 100, k at level 200) : pooler_scope.

Lemma result_bind_Ok {A B E} (r : Result A E) (k : A -> Result B E) b :
  result_bind r k = Ok b <-> exists a, r = Ok a /\ k a = Ok b.
Proof. destruct r as [a|e]; simpl; [|naive_solver]. split; [eauto|]. by intros (? & [= <-] & ?). Qed.

Definition map_err {A E F} (f : E -> F) (r : Result A E) : Result A F :=
  match r with Ok a => Ok a | Err e => Err (f e) end.

Lemma map_err_Ok {A E F} (f : E -> F) (r : Result A E) a : map_err f r = Ok a <-> r = Ok a.
Proof. destruct r; simpl; naive_solver. Qed.

Definition ok_or {A E} (o : option A) (e : E) : Result A E :=
  match o with Some a => Ok a | None => Err e end.

(** * Machine integers

    Unsigned integers are [N] with the width's maximum written out wherever an
    operation of the source saturates; [i64] is [Z]. *)

Definition U8_MAX : N := 255.
Definition U16_MAX : N := 65535.
Definition U32_MAX : N := 4294967295.
Definition U64_MAX : N := 18446744073709551615.
Definition USIZE_MAX : N := U64_MAX.
Definition I64_MAX : Z := 9223372036854775807%Z.
Definition I64_MIN : Z := (-9223372036854775808)%Z.

(** [a.saturating_add(b)] and [a.saturating_mul(b)] at the width whose maximum is [m]. *)
Definition sat_add (m a b : N) : N := N.min m (a + b).
Definition sat_mul (m a b : N) : N := N.min m (a * b).
(** [a.saturating_sub(b)]: subtraction of [N] truncates at zero. *)
Definition sat_sub (a b : N) : N := a - b.

Definition clamp_i64 (x : Z) : Z := Z.max I64_MIN (Z.min I64_MAX x).
Definition sat_add_i64 (a b : Z) : Z := clamp_i64 (a + b).
Definition sat_sub_i64 (a b : Z) : Z := clamp_i64 (a - b).

(** * Options *)

Definition is_some {A} (o : option A) : bool := match o with Some _ => true | None => false end.
Definition is_none {A} (o : option A) : bool := negb (is_some o).
Definition is_some_and {A} (o : option A) (p : A -> bool) : bool :=
  match o with Some a => p a | None => false end.
Definition is_none_or {A} (o : option A) (p : A -> bool) : bool :=
  match o with Some a => p a | None => true end.
Definition opt_filter {A} (o : option A) (p : A -> bool) : option A :=
  match o with Some a => if p a then Some a else None | None => None end.
Definition or_else {A} (o d : option A) : option A :=
  match o with Some a => Some a | None => d end.
Definition opt_zip {A B} (a : option A) (b : option B) : option (A * B) :=
  match a, b with Some x, Some y => Some (x, y) | _, _ => None end.

Abbreviation beq x y := (bool_decide (x = y)).

(** * [std::cmp::Ordering] *)

(** [Ordering::then_with]. *)
Definition then_with (a b : comparison) : comparison :=
  match a with Eq => b | _ => a end.
Infix "<|>" := then_with (at level 61, left associativity) : pooler_scope.

Definition bool_cmp (a b : bool) : comparison :=
  match a, b with
  | false, true => Lt | true, false => Gt | _, _ => Eq
  end.

(** [None] sorts below every [Some]. *)
Definition option_cmp {A} (c : A -> A -> comparison) (a b : option A) : comparison :=
  match a, b with
  | None, None => Eq | None, Some _ => Lt | Some _, None => Gt
  | Some x, Some y => c x y
  end.

(** A comparison function that is a total preorder: what [Iterator::max_by],
    [Iterator::min_by] and [slice::sort_by] ask of their argument. *)
Class PreCmp {A} (c : A -> A -> comparison) : Prop := {
  pre_opp : forall x y, c y x = CompOpp (c x y);
  pre_trans : forall x y z, c x y <> Gt -> c y z <> Gt -> c x z <> Gt;
}.

(** A comparison function whose [Eq] is equality: a derived [Ord]. *)
Class OrdCmp {A} (c : A -> A -> comparison) : Prop := {
  #[global] ord_pre :: PreCmp c;
  ord_eq : forall x y, c x y = Eq -> x = y;
}.
Arguments pre_opp {A} c {_} x y.
Arguments pre_trans {A} c {_} x y z _ _.
Arguments ord_eq {A} c {_} x y _.

Section pre_cmp.
Context {A} (c : A -> A -> comparison) `{!PreCmp c}.

Lemma pre_refl x : c x x = Eq.
Proof. pose proof (pre_opp c x x) as H. destruct (c x x); done. Qed.

Lemma pre_flip_le x y : c x y <> Gt <-> c y x <> Lt.
Proof. rewrite (pre_opp c x y). destruct (c x y); simpl; naive_solver. Qed.

Lemma pre_eq_l x y z : c x y = Eq -> c x z = c y z.
Proof.
  intros Hxy.
  assert (Hyx : c y x = Eq) by (rewrite (pre_opp c x y), Hxy; done).
  pose proof (pre_trans c x y z) as H1. pose proof (pre_trans c y x z) as H2.
  pose proof (pre_trans c z x y) as H3. pose proof (pre_trans c z y x) as H4.
  rewrite (pre_opp c x z), (pre_opp c y z) in H3. rewrite (pre_opp c x z), (pre_opp c y z) in H4.
  rewrite Hxy in *. rewrite Hyx in *.
  destruct (c x z), (c y z); simpl in *; try reflexivity; exfalso; intuition congruence.
Qed.

Lemma pre_lt_trans x y z : c x y = Lt -> c y z <> Gt -> c x z = Lt.
Proof.
  intros H1 H2. destruct (c x z) eqn:E; [|done|].
  - rewrite (pre_eq_l x z y E) in H1. rewrite (pre_opp c z y) in H2. rewrite H1 in H2. done.
  - exfalso. apply (pre_trans c x y z); congruence.
Qed.
End pre_cmp.

(** Closure of the preorders under the combinators the source composes them with. *)
Lemma pre_then {A} (c d : A -> A -> comparison) :
  PreCmp c -> PreCmp d -> PreCmp (fun x y => c x y <|> d x y).
Proof.
  intros Hc Hd. split.
  - intros x y. rewrite (pre_opp c x y), (pre_opp d x y).
    destruct (c x y); done.
  - intros x y z H1 H2.
    destruct (c x y) eqn:E1; simpl in H1; [| |done].
    + rewrite (pre_eq_l c x y z E1). destruct (c y z) eqn:E2; simpl in *; [|done|done].
      by apply (pre_trans d x y z).
    + rewrite (pre_lt_trans c x y z E1); [done|]. by destruct (c y z).
Qed.

Lemma pre_key {A B} (f : A -> B) (c : B -> B -> comparison) :
  PreCmp c -> PreCmp (fun x y => c (f x) (f y)).
Proof.
  intros H. split.
  - intros x y. by apply pre_opp.
  - intros x y z. exact (pre_trans c _ _ _).
Qed.

Lemma pre_rev {A} (c : A -> A -> comparison) :
  PreCmp c -> PreCmp (fun x y => c y x).
Proof.
  intros H. split.
  - intros x y. by apply pre_opp.
  - intros x y z H1 H2. by apply (pre_trans c z y x).
Qed.

Lemma pre_const {A} : PreCmp (fun _ _ : A => Eq).
Proof. by split. Qed.

Create HintDb orders.
#[export] Hint Resolve pre_then pre_key pre_rev pre_const : orders.

(** Boolean tests of the source as propositions. *)
Create HintDb bool_props.
#[export] Hint Rewrite andb_true_iff orb_true_iff negb_true_iff andb_false_iff orb_false_iff negb_false_iff
  N.eqb_eq N.eqb_neq N.ltb_lt N.ltb_ge N.leb_le N.leb_gt Nat.eqb_eq Z.eqb_eq String.eqb_eq
  bool_decide_eq_true bool_decide_eq_false : bool_props.
Ltac bool_props := autorewrite with bool_props in *.

#[export] Instance ord_N : OrdCmp N.compare.
Proof.
  split; [split|].
  - intros x y. apply N.compare_antisym.
  - intros x y z. rewrite !N.compare_le_iff. lia.
  - intros x y. apply N.compare_eq_iff.
Qed.

#[export] Instance ord_nat : OrdCmp Nat.compare.
Proof.
  split; [split|].
  - intros x y. apply Nat.compare_antisym.
  - intros x y z. rewrite !Nat.compare_le_iff. lia.
  - intros x y. apply Nat.compare_eq_iff.
Qed.

#[export] Instance ord_Z : OrdCmp Z.compare.
Proof.
  split; [split|].
  - intros x y. apply Z.compare_antisym.
  - intros x y z. rewrite !Z.compare_le_iff. lia.
  - intros x y. apply Z.compare_eq_iff.
Qed.

#[export] Instance ord_bool : OrdCmp bool_cmp.
Proof.
  split; [split|].
  - by intros [] [].
  - intros [] [] []; simpl; intros; congruence.
  - by intros [] [].
Qed.

#[export] Instance ord_string : OrdCmp String.compare.
Proof.
  split; [split|].
  - intros x y. by rewrite String.compare_antisym.
  - assert (Hle : forall a b, String.compare a b <> Gt <-> String.leb a b = true).
    { intros a b. unfold String.leb. destruct (String.compare a b); naive_solver. }
    intros x y z. rewrite !Hle. intros H1 H2.
    apply Is_true_eq_true.
    trans y; by apply Is_true_eq_left.
  - intros x y. apply String.compare_eq_iff.
Qed.

#[export] Instance ord_option {A} (c : A -> A -> comparison) : OrdCmp c -> OrdCmp (option_cmp c).
Proof.
  intros H. split; [split|].
  - intros [x|] [y|]; simpl; try done. exact (pre_opp c x y).
  - intros [x|] [y|] [z|]; simpl; try done. exact (pre_trans c _ _ _).
  - intros [x|] [y|]; simpl; try done. intros Heq. by rewrite (ord_eq c x y).
Qed.

(** * Iterators and slices *)

(** [Iterator::max_by]: the last of the maximal elements. *)
Definition max_by {A} (c : A -> A -> comparison) (l : list A) : option A :=
  match l with
  | [] => None
  | x :: l => Some (foldl (fun acc y => match c acc y with Gt => acc | _ => y end) x l)
  end.

(** [Iterator::min_by]: the first of the minimal elements. *)
Definition min_by {A} (c : A -> A -> comparison) (l : list A) : option A :=
  match l with
  | [] => None
  | x :: l => Some (foldl (fun acc y => match c acc y with Gt => y | _ => acc end) x l)
  end.

(** [Iterator::min] at the numeric types. *)
Definition min_N : list N -> option N := min_by N.compare.
Definition min_Z : list Z -> option Z := min_by Z.compare.

(** [Iterator::position]. *)
Fixpoint position {A} (p : A -> bool) (l : list A) : option nat :=
  match l with
  | [] => None
  | x :: l => if p x then Some 0%nat else S <$> position p l
  end.

(** [.position(..).unwrap_or(usize::MAX)]. *)
Definition position_or_max {A} (p : A -> bool) (l : list A) : N :=
  default USIZE_MAX (N.of_nat <$> position p l).

(** [slice::sort_by], a stable sort. *)
Fixpoint sort_insert {A} (c : A -> A -> comparison) (x : A) (l : list A) : list A :=
  match l with
  | [] => [x]
  | y :: l' => match c x y with Gt => y :: sort_insert c x l' | _ => x :: l end
  end.
Definition sort_by {A} (c : A -> A -> comparison) (l : list A) : list A :=
  foldr (sort_insert c) [] l.

Section folds_elem.
Context {A} (c : A -> A -> comparison).

Lemma max_by_elem l x : max_by c l = Some x -> x ∈ l.
Proof.
  destruct l as [|a l]; simpl; [done|]. intros [= <-]. revert a.
  induction l as [|b l IH]; intros a; simpl; [set_solver|].
  destruct (c a b); rewrite !elem_of_cons;
    [pose proof (IH b) as Hb|pose proof (IH b) as Hb|pose proof (IH a) as Hb];
    rewrite elem_of_cons in Hb; tauto.
Qed.

Lemma min_by_elem l x : min_by c l = Some x -> x ∈ l.
Proof.
  destruct l as [|a l]; simpl; [done|]. intros [= <-]. revert a.
  induction l as [|b l IH]; intros a; simpl; [set_solver|].
  destruct (c a b); rewrite !elem_of_cons;
    [pose proof (IH a) as Hb|pose proof (IH a) as Hb|pose proof (IH b) as Hb];
    rewrite elem_of_cons in Hb; tauto.
Qed.

End folds_elem.

Section folds.
Context {A} (c : A -> A -> comparison) `{!PreCmp c}.

Lemma max_by_max l x y : max_by c l = Some x -> y ∈ l -> c y x <> Gt.
Proof.
  destruct l as [|a l]; simpl; [done|]. intros [= <-].
  assert (Hgen : forall l a, (forall z, c z a <> Gt ->
      c z (foldl (fun acc w => match c acc w with Gt => acc | _ => w end) a l) <> Gt)
    /\ (forall z, z ∈ l ->
      c z (foldl (fun acc w => match c acc w with Gt => acc | _ => w end) a l) <> Gt)).
  { clear a l. intros l. induction l as [|b l IH]; intros a; simpl; [split; [done|set_solver]|].
    destruct (IH a) as [IHa1 IHa2]. destruct (IH b) as [IHb1 IHb2].
    destruct (c a b) eqn:E; split.
    - intros z Hz. apply IHb1. apply (pre_trans c z a b); congruence.
    - intros z [->|Hz]%elem_of_cons; [|by apply IHb2]. apply IHb1. by rewrite (pre_refl c).
    - intros z Hz. apply IHb1. apply (pre_trans c z a b); congruence.
    - intros z [->|Hz]%elem_of_cons; [|by apply IHb2]. apply IHb1. by rewrite (pre_refl c).
    - done.
    - intros z [->|Hz]%elem_of_cons; [|by apply IHa2]. apply IHa1.
      rewrite (pre_opp c a b), E. done. }
  intros [->|Hy]%elem_of_cons; [|by apply (proj2 (Hgen l a))].
  apply (proj1 (Hgen l a)). by rewrite (pre_refl c).
Qed.
End folds.

Lemma min_by_min {A} (c : A -> A -> comparison) `{!PreCmp c} l x y :
  min_by c l = Some x -> y ∈ l -> c x y <> Gt.
Proof.
  destruct l as [|a l]; simpl; [done|]. intros [= <-].
  assert (Hgen : forall l a, (forall z, c a z <> Gt ->
      c (foldl (fun acc w => match c acc w with Gt => w | _ => acc end) a l) z <> Gt)
    /\ (forall z, z ∈ l ->
      c (foldl (fun acc w => match c acc w with Gt => w | _ => acc end) a l) z <> Gt)).
  { clear a l. intros l. induction l as [|b l IH]; intros a; simpl; [split; [done|set_solver]|].
    destruct (IH a) as [IHa1 IHa2]. destruct (IH b) as [IHb1 IHb2].
    destruct (c a b) eqn:E; split; try done.
    - intros z [->|Hz]%elem_of_cons; [|by apply IHa2]. apply IHa1. congruence.
    - intros z [->|Hz]%elem_of_cons; [|by apply IHa2]. apply IHa1. congruence.
    - intros z Hz. apply IHb1. apply (pre_trans c b a z); [|done].
      rewrite (pre_opp c a b), E. done.
    - intros z [->|Hz]%elem_of_cons; [|by apply IHb2]. apply IHb1. by rewrite (pre_refl c). }
  intros [->|Hy]%elem_of_cons; [|by apply (proj2 (Hgen l a))].
  apply (proj1 (Hgen l a)). by rewrite (pre_refl c).
Qed.

Lemma max_by_is_Some {A} (c : A -> A -> comparison) l : l <> [] -> is_Some (max_by c l).
Proof. destruct l; [done|]. simpl. eauto. Qed.

Lemma min_by_is_Some {A} (c : A -> A -> comparison) l : l <> [] -> is_Some (min_by c l).
Proof. destruct l; [done|]. simpl. eauto. Qed.

Lemma sort_insert_perm {A} (c : A -> A -> comparison) x l : sort_insert c x l ≡ₚ x :: l.
Proof.
  induction l as [|y l IH]; simpl; [done|].
  destruct (c x y); [done..|]. rewrite IH. constructor.
Qed.

Lemma sort_by_perm {A} (c : A -> A -> comparison) l : sort_by c l ≡ₚ l.
Proof.
  induction l as [|x l IH]; simpl; [done|]. by rewrite sort_insert_perm, IH.
Qed.

Section sorted.
Context {A} (c : A -> A -> comparison) `{!PreCmp c}.

Lemma sort_by_sorted l : StronglySorted (fun x y => c x y <> Gt) (sort_by c l).
Proof.
  induction l as [|x l IH]; simpl; [constructor|].
  induction IH as [|y l' Hl IHl Hall]; simpl; [repeat constructor|].
  destruct (c x y) eqn:E; constructor; try (by constructor).
  - constructor; [congruence|]. eapply Forall_impl; [done|]. intros z Hz.
    apply (pre_trans c x y z); congruence.
  - constructor; [congruence|]. eapply Forall_impl; [done|]. intros z Hz.
    apply (pre_trans c x y z); congruence.
  - done.
  - rewrite sort_insert_perm. constructor; [|done].
    rewrite (pre_opp c x y), E. done.
Qed.

(** Sorting a list that is sorted by the same comparison changes nothing. *)
Lemma sort_by_id l : StronglySorted (fun x y => c x y <> Gt) l -> sort_by c l = l.
Proof.
  induction 1 as [|x l Hl IH Hall]; simpl; [done|]. rewrite IH.
  destruct l as [|y l]; simpl; [done|].
  apply Forall_cons in Hall as [Hxy _]. by destruct (c x y).
Qed.

(** The order of the elements does not matter when no two of them compare equal. *)
Lemma sort_by_unique l k :
  l ≡ₚ k -> (forall x y, x ∈ l -> y ∈ l -> c x y = Eq -> x = y) -> sort_by c l = sort_by c k.
Proof.
  intros Hp Heq.
  assert (Hpl := sort_by_perm c l). assert (Hpk := sort_by_perm c k).
  apply (StronglySorted_unique_strong (fun x y => c x y <> Gt)); try apply sort_by_sorted.
  - intros x y Hx Hy Hxy Hyx. rewrite Hpl in Hx. rewrite Hpk, <- Hp in Hy.
    apply Heq; [done..|]. rewrite (pre_opp c x y) in Hyx. by destruct (c x y).
  - by rewrite Hpl, Hpk.
Qed.
End sorted.

(** Sorting commutes with a map that respects the comparisons. *)
Lemma sort_by_map {A B} (f : A -> B) (c : A -> A -> comparison) (d : B -> B -> comparison) l :
  (forall x y, d (f x) (f y) = c x y) -> sort_by d (map f l) = map f (sort_by c l).
Proof.
  intros Hcd. unfold sort_by. induction l as [|x l IH]; simpl; [done|]. rewrite IH.
  clear IH. generalize (foldr (sort_insert c) [] l) as k.
  induction k as [|y k IHk]; simpl; [done|]. rewrite Hcd. destruct (c x y); simpl; by rewrite ?IHk.
Qed.

(** * B-tree and hash maps

    [BTreeMap], [BTreeSet] and [HashMap] are [gmap] and [gset]; where the source
    depends on the iteration order of a B-tree, the model sorts by the key. *)

Definition btree_list {K V} `{Countable K} (c : K -> K -> comparison) (m : gmap K V)
  : list (K * V) := sort_by (fun a b => c a.1 b.1) (map_to_list m).
Definition btree_values {K V} `{Countable K} (c : K -> K -> comparison) (m : gmap K V)
  : list V := (btree_list c m).*2.
Definition btree_keys {K V} `{Countable K} (c : K -> K -> comparison) (m : gmap K V)
  : list K := (btree_list c m).*1.
Definition btree_elements {K} `{Countable K} (c : K -> K -> comparison) (s : gset K)
  : list K := sort_by c (elements s).

Lemma elem_of_btree_list {K V} `{Countable K} (c : K -> K -> comparison) (m : gmap K V) k v :
  (k, v) ∈ btree_list c m <-> m !! k = Some v.
Proof. unfold btree_list. rewrite sort_by_perm. apply elem_of_map_to_list. Qed.

Lemma elem_of_btree_values {K V} `{Countable K} (c : K -> K -> comparison) (m : gmap K V) v :
  v ∈ btree_values c m <-> exists k, m !! k = Some v.
Proof.
  unfold btree_values. rewrite list_elem_of_fmap. split.
  - intros [[k w] [-> Hin]]. exists k. by apply elem_of_btree_list in Hin.
  - intros [k Hk]. exists (k, v). split; [done|]. by apply elem_of_btree_list.
Qed.

Lemma elem_of_btree_elements {K} `{Countable K} (c : K -> K -> comparison) (s : gset K) k :
  k ∈ btree_elements c s <-> k ∈ s.
Proof. unfold btree_elements. rewrite sort_by_perm. apply elem_of_elements. Qed.

(** [map.retain(|k, v| p(k, v))]. *)
Definition retain {K V} `{Countable K} (p : K -> V -> bool) (m : gmap K V) : gmap K V :=
  filter (fun kv => p kv.1 kv.2 = true) m.

Lemma lookup_retain {K V} `{Countable K} (p : K -> V -> bool) (m : gmap K V) k :
  retain p m !! k = opt_filter (m !! k) (p k).
Proof.
  unfold retain. rewrite map_lookup_filter. destruct (m !! k) as [v|]; simpl; [|done].
  destruct (p k v) eqn:E; [by rewrite option_guard_True|by rewrite option_guard_False].
Qed.

Lemma lookup_retain_Some {K V} `{Countable K} (p : K -> V -> bool) (m : gmap K V) k v :
  retain p m !! k = Some v <-> m !! k = Some v /\ p k v = true.
Proof.
  rewrite lookup_retain. destruct (m !! k) as [w|]; simpl; [|split; [done|by intros [? _]]].
  destruct (p k w) eqn:E; split; try done.
  - by intros [= ->].
  - by intros [[= ->] _].
  - intros [[= ->] Hp]. congruence.
Qed.

Lemma size_retain {K V} `{Countable K} (p : K -> V -> bool) (m : gmap K V) :
  (size (retain p m) <= size m)%nat.
Proof. apply map_size_filter. Qed.

Lemma size_retain_filter {K V} `{Countable K} (p : K -> V -> bool) (m : gmap K V) :
  size (retain p m) = length (List.filter (fun kv => p kv.1 kv.2) (map_to_list m)).
Proof.
  unfold retain. rewrite map_filter_alt.
  assert (Hf : forall l : list (K * V), filter (fun kv => p kv.1 kv.2 = true) l =
    List.filter (fun kv => p kv.1 kv.2) l).
  { induction l as [|[k v] l IH]; [done|]. rewrite filter_cons. simpl.
    destruct (p k v); by rewrite IH. }
  rewrite <- Hf, <- length_map_to_list, map_to_list_to_map; [done|].
  apply (NoDup_fmap_fst).
  - intros k v w Hv Hw. apply list_elem_of_filter in Hv as [_ Hv]. apply list_elem_of_filter in Hw as [_ Hw].
    apply elem_of_map_to_list in Hv. apply elem_of_map_to_list in Hw. congruence.
  - apply NoDup_filter, NoDup_map_to_list.
Qed.

Lemma size_alter {K V} `{Countable K} (f : V -> V) (k : K) (m : gmap K V) :
  size (alter f k m) = size m.
Proof. by rewrite <- !(size_dom (D := gset K)), dom_alter_L. Qed.

(** [map.iter().any(|(k, v)| p(k, v))]. *)
Definition map_any {K V} `{Countable K} (p : K -> V -> bool) (m : gmap K V) : bool :=
  existsb (fun kv => p kv.1 kv.2) (map_to_list m).

Lemma map_any_true {K V} `{Countable K} (p : K -> V -> bool) (m : gmap K V) :
  map_any p m = true <-> exists k v, m !! k = Some v /\ p k v = true.
Proof.
  unfold map_any. rewrite existsb_exists. split.
  - intros [[k v] [Hin Hp]]. exists k, v. split; [|done].
    by apply elem_of_map_to_list, list_elem_of_In.
  - intros [k [v [Hm Hp]]]. exists (k, v). split; [|done].
    by apply list_elem_of_In, elem_of_map_to_list.
Qed.

Lemma map_any_false {K V} `{Countable K} (p : K -> V -> bool) (m : gmap K V) :
  map_any p m = false <-> forall k v, m !! k = Some v -> p k v = false.
Proof.
  rewrite <- not_true_iff_false, map_any_true. split.
  - intros Hn k v Hm. apply not_true_iff_false. intros Hp. apply Hn. eauto.
  - intros Hall (k & v & Hm & Hp). rewrite (Hall k v Hm) in Hp. done.
Qed.
