(* ===== verification/Str.v ===== *)
(** Rust strings: a [str] is the [string] of its UTF-8 bytes, and the functions
    below are the [str] and [char] methods of the standard library that the
    source calls.  SHA-256 (the [ring] crate) is a parameter, the class
    [Digest]; [digest_label] is the source's redaction of a value by it. *)
From S2P Require Import Prelude.

Open Scope N_scope.

(** * Bytes and characters *)

Definition bytes_of (s : string) : list N := map Ascii.N_of_ascii (String.list_ascii_of_string s).
Definition of_bytes (l : list N) : string := String.string_of_list_ascii (map Ascii.ascii_of_N l).

(** [str::len]: the number of bytes. *)
Definition str_len (s : string) : N := N.of_nat (String.length s).
Definition str_is_empty (s : string) : bool := match s with EmptyString => true | _ => false end.

(** The characters of a UTF-8 string, each with the bytes that encode it. *)
Fixpoint char_spans (l : list N) : list (N * list N) :=
  match l with
  | [] => []
  | b0 :: r0 =>
    if b0 <? 0x80 then (b0, [b0]) :: char_spans r0
    else match r0 with
    | [] => []
    | b1 :: r1 =>
      let c1 := N.land b1 0x3F in
      if b0 <? 0xE0
      then (N.lor (N.shiftl (N.land b0 0x1F) 6) c1, [b0; b1]) :: char_spans r1
      else match r1 with
      | [] => []
      | b2 :: r2 =>
        let c2 := N.land b2 0x3F in
        if b0 <? 0xF0
        then (N.lor (N.shiftl (N.land b0 0x0F) 12) (N.lor (N.shiftl c1 6) c2), [b0; b1; b2])
             :: char_spans r2
        else match r2 with
        | [] => []
        | b3 :: r3 =>
          (N.lor (N.shiftl (N.land b0 0x07) 18)
             (N.lor (N.shiftl c1 12) (N.lor (N.shiftl c2 6) (N.land b3 0x3F))),
           [b0; b1; b2; b3]) :: char_spans r3
        end
      end
    end
  end.

(** [str::chars]. *)
Definition chars (s : string) : list N := (char_spans (bytes_of s)).*1.

Definition in_range (c lo hi : N) : bool := (lo <=? c) && (c <=? hi).

(** [char::is_whitespace]: the code points with Unicode property [White_Space]. *)
Definition char_is_whitespace (c : N) : bool :=
  in_range c 0x9 0xD || (c =? 0x20) || (c =? 0x85) || (c =? 0xA0) || (c =? 0x1680)
  || in_range c 0x2000 0x200A || (c =? 0x2028) || (c =? 0x2029) || (c =? 0x202F)
  || (c =? 0x205F) || (c =? 0x3000).

(** [char::is_control]: general category [Cc]. *)
Definition char_is_control (c : N) : bool := (c <=? 0x1F) || in_range c 0x7F 0x9F.

Definition char_is_ascii_digit (c : N) : bool := in_range c 0x30 0x39.
Definition char_is_ascii_alphanumeric (c : N) : bool :=
  char_is_ascii_digit c || in_range c 0x41 0x5A || in_range c 0x61 0x7A.
Definition char_is_ascii_hexdigit (c : N) : bool :=
  char_is_ascii_digit c || in_range c 0x41 0x46 || in_range c 0x61 0x66.
Definition is_underscore_or_dash (c : N) : bool := (c =? 0x5F) || (c =? 0x2D).

Fixpoint drop_while {A} (p : A -> bool) (l : list A) : list A :=
  match l with [] => [] | x :: l' => if p x then drop_while p l' else l end.

(** [str::trim]. *)
Definition trim (s : string) : string :=
  let p := fun cs : N * list N => char_is_whitespace cs.1 in
  of_bytes (concat (rev (drop_while p (rev (drop_while p (char_spans (bytes_of s)))))).*2).

(** [str::to_ascii_lowercase], byte by byte. *)
Definition byte_lower (b : N) : N := if in_range b 0x41 0x5A then b + 0x20 else b.
Definition to_ascii_lowercase (s : string) : string := of_bytes (map byte_lower (bytes_of s)).

(** [str::eq_ignore_ascii_case]. *)
Definition eq_ignore_ascii_case (a b : string) : bool :=
  beq (to_ascii_lowercase a) (to_ascii_lowercase b).

(** [str::starts_with] and [str::contains]. *)
Definition starts_with (s p : string) : bool := String.prefix p s.
Fixpoint str_contains (s needle : string) : bool :=
  String.prefix needle s || match s with EmptyString => false | String _ s' => str_contains s' needle end.

Fixpoint str_skip (n : nat) (s : string) : string :=
  match n, s with
  | O, _ => s
  | S n', String _ s' => str_skip n' s'
  | S _, EmptyString => EmptyString
  end.

(** The separators ['.'] and ['/']. *)
Definition DOT : Ascii.ascii := Ascii.ascii_of_N 0x2E.
Definition SLASH : Ascii.ascii := Ascii.ascii_of_N 0x2F.

(** [str::rsplit_once], keeping only the part after the last separator. *)
Fixpoint after_last (sep : Ascii.ascii) (s : string) : option string :=
  match s with
  | EmptyString => None
  | String a s' =>
    match after_last sep s' with
    | Some t => Some t
    | None => if Ascii.eqb a sep then Some s' else None
    end
  end.

(** [str::split] on a single byte. *)
Fixpoint split_on (sep : Ascii.ascii) (s : string) : list string :=
  match s with
  | EmptyString => [EmptyString]
  | String a s' =>
    match split_on sep s' with
    | [] => [EmptyString]
    | seg :: rest => if Ascii.eqb a sep then EmptyString :: seg :: rest else String a seg :: rest
    end
  end.

(** [str::strip_prefix] and [str::strip_suffix]. *)
Definition strip_prefix (s p : string) : option string :=
  if String.prefix p s then Some (str_skip (String.length p) s) else None.
Fixpoint strip_suffix (s p : string) : option string :=
  if String.eqb s p then Some EmptyString
  else match s with
       | EmptyString => None
       | String a s' => match strip_suffix s' p with Some t => Some (String a t) | None => None end
       end.

(** The methods that take one ASCII character: [split_once], [starts_with],
    [ends_with], [contains], [trim_end_matches] and [matches(_).count()]. *)
Fixpoint str_split_once (sep : Ascii.ascii) (s : string) : option (string * string) :=
  match s with
  | EmptyString => None
  | String a s' =>
    if Ascii.eqb a sep then Some (EmptyString, s')
    else match str_split_once sep s' with Some (x, y) => Some (String a x, y) | None => None end
  end.
Definition starts_with_char (s : string) (c : Ascii.ascii) : bool :=
  match s with EmptyString => false | String a _ => Ascii.eqb a c end.
Fixpoint ends_with_char (s : string) (c : Ascii.ascii) : bool :=
  match s with
  | EmptyString => false
  | String a EmptyString => Ascii.eqb a c
  | String _ s' => ends_with_char s' c
  end.
Fixpoint contains_char (s : string) (c : Ascii.ascii) : bool :=
  match s with EmptyString => false | String a s' => Ascii.eqb a c || contains_char s' c end.
Fixpoint trim_end_char (s : string) (c : Ascii.ascii) : string :=
  match s with
  | EmptyString => EmptyString
  | String a s' =>
    match trim_end_char s' c with
    | EmptyString => if Ascii.eqb a c then EmptyString else String a EmptyString
    | t => String a t
    end
  end.
Fixpoint count_char (s : string) (c : Ascii.ascii) : nat :=
  match s with EmptyString => 0 | String a s' => (if Ascii.eqb a c then 1 else 0) + count_char s' c end.

(** [str::to_ascii_uppercase], byte by byte. *)
Definition byte_upper (b : N) : N := if in_range b 0x61 0x7A then b - 0x20 else b.
Definition to_ascii_uppercase (s : string) : string := of_bytes (map byte_upper (bytes_of s)).

Definition PLUS : Ascii.ascii := Ascii.ascii_of_N 0x2B.
(** [str::parse::<usize>]: an optional plus sign, then digits that fit. *)
Fixpoint dec_digits (acc : N) (s : string) : option N :=
  match s with
  | EmptyString => Some acc
  | String c s =>
    let d := Ascii.N_of_ascii c in
    if char_is_ascii_digit d then dec_digits (acc * 10 + (d - 0x30)) s else None
  end.
Definition parse_usize (s : string) : option N :=
  let digits := match s with String c r => if Ascii.eqb c PLUS then r else s | _ => s end in
  match digits with
  | EmptyString => None
  | _ => opt_filter (dec_digits 0 digits) (fun n => n <=? USIZE_MAX)
  end.

(** * SHA-256 labels *)

(** The [ring] crate's [digest(&SHA256, _)]: bytes in, 32 bytes out. *)
Class Digest := sha256 : list N -> list N.

Definition hex_digit (n : N) : Ascii.ascii := Ascii.ascii_of_N (if n <? 10 then 0x30 + n else 0x57 + n).
(** [{byte:02x}]. *)
Definition hex_byte (b : N) : string :=
  String (hex_digit (b / 16)) (String (hex_digit (b mod 16)) EmptyString).

Definition hex_bytes (l : list N) : string := String.concat "" (map hex_byte l).

(** [digest_label] of selection.rs and quota.rs (the two are the same text). *)
Definition digest_label `{Digest} (prefix : string) (value : string) : string :=
  (prefix +:+ "-" +:+ hex_bytes (take 16 (sha256 (bytes_of value))))%string.

(** [valid_digest_label] of quota.rs. *)
Definition valid_digest_label (prefix value : string) : bool :=
  (str_len value =? str_len prefix + 1 + 32)
  && starts_with value prefix
  && beq (bytes_of value !! String.length prefix) (Some 0x2D)
  && forallb char_is_ascii_hexdigit (chars (str_skip (String.length prefix + 1) value)).

(** * Lemmas *)

Lemma length_str_app (a b : string) :
  (String.length (a +:+ b) = String.length a + String.length b)%nat.
Proof. induction a as [|c a IH]; simpl; [done|]. by rewrite IH. Qed.

Lemma str_app_assoc (a b c : string) : ((a +:+ b) +:+ c = a +:+ (b +:+ c))%string.
Proof. induction a as [|x a IH]; [done|]. exact (f_equal (String x) IH). Qed.

Lemma prefix_app (a b : string) : String.prefix a (a +:+ b) = true.
Proof.
  induction a as [|c a IH]; [by destruct b|]. simpl.
  destruct (Ascii.ascii_dec c c); [done|congruence].
Qed.

Lemma str_skip_app (a b : string) n : str_skip (String.length a + n) (a +:+ b) = str_skip n b.
Proof. induction a as [|c a IH]; simpl; done. Qed.

Lemma bytes_of_app (a b : string) : bytes_of (a +:+ b) = bytes_of a ++ bytes_of b.
Proof. induction a as [|c a IH]; [done|]. unfold bytes_of in *. simpl. by rewrite IH. Qed.

Lemma length_bytes_of (s : string) : length (bytes_of s) = String.length s.
Proof. unfold bytes_of. rewrite length_map. induction s; simpl; auto. Qed.

Lemma after_last_app (sep : Ascii.ascii) (a b : string) :
  after_last sep b = None -> after_last sep (a +:+ String sep b)%string = Some b.
Proof.
  intros Hb. induction a as [|c a IH]; simpl.
  - by rewrite Hb, Ascii.eqb_refl.
  - by rewrite IH.
Qed.

(** ** What the source relies on of SHA-256: 32 bytes, whatever the input. *)
Class DigestSpec `{Digest} : Prop := {
  sha256_length : forall l, length (sha256 l) = 32%nat;
  sha256_bytes : forall l, Forall (fun b => b < 256) (sha256 l);
}.

Lemma of_bytes_of (s : string) : of_bytes (bytes_of s) = s.
Proof.
  unfold of_bytes, bytes_of. rewrite map_map. induction s as [|c s IH]; simpl; [done|].
  by rewrite Ascii.ascii_N_embedding, IH.
Qed.

Lemma chars_ascii (s : string) : Forall (fun b => b < 0x80) (bytes_of s) -> chars s = bytes_of s.
Proof.
  unfold chars. induction 1 as [|b l Hb _ IH]; [done|]. cbn [char_spans].
  destruct (N.ltb_spec b 0x80); [|lia]. rewrite fmap_cons, IH. done.
Qed.

Definition lower_hex (b : N) : Prop := 0x30 <= b <= 0x39 \/ 0x61 <= b <= 0x66.

Lemma hex_digit_lower n : n < 16 -> lower_hex (Ascii.N_of_ascii (hex_digit n)).
Proof.
  intros Hn. unfold hex_digit, lower_hex. destruct (N.ltb_spec n 10);
    rewrite Ascii.N_ascii_embedding; lia.
Qed.

Lemma bytes_of_hex_bytes l :
  Forall (fun b => b < 256) l -> Forall lower_hex (bytes_of (hex_bytes l)).
Proof.
  unfold hex_bytes. induction 1 as [|b l Hb Hl IH]; [constructor|].
  assert (Hhb : Forall lower_hex (bytes_of (hex_byte b))).
  { unfold hex_byte, bytes_of. simpl. rewrite !Forall_cons.
    split; [apply hex_digit_lower, N.Div0.div_lt_upper_bound; lia|].
    split; [apply hex_digit_lower, N.mod_lt; lia|done]. }
  simpl. destruct (map hex_byte l) as [|x rest] eqn:E; [done|].
  rewrite !bytes_of_app, !Forall_app. split; [done|]. split; [constructor|done].
Qed.

Lemma length_hex_bytes l : String.length (hex_bytes l) = (2 * length l)%nat.
Proof.
  unfold hex_bytes. induction l as [|b l IH]; [done|]. cbn [map].
  destruct l as [|c l]; [done|].
  change (String.concat "" (hex_byte b :: map hex_byte (c :: l)))
    with (hex_byte b +:+ "" +:+ String.concat "" (map hex_byte (c :: l))).
  rewrite !length_str_app, IH. simpl. lia.
Qed.

Lemma bytes_of_lt (s : string) : Forall (fun b => b < 256) (bytes_of s).
Proof. unfold bytes_of. apply Forall_map, Forall_true. intros a. apply Ascii.N_ascii_bounded. Qed.

Lemma bytes_of_of (l : list N) : Forall (fun b => b < 256) l -> bytes_of (of_bytes l) = l.
Proof.
  unfold bytes_of, of_bytes. rewrite String.list_ascii_of_string_of_list_ascii, map_map.
  induction 1 as [|b l Hb _ IH]; simpl; [done|]. by rewrite IH, Ascii.N_ascii_embedding.
Qed.

Lemma byte_lower_lt l : Forall (fun b => b < 256) l -> Forall (fun b => b < 256) (map byte_lower l).
Proof.
  intros H. apply Forall_map. eapply Forall_impl; [done|]. intros b Hb. simpl.
  unfold byte_lower, in_range. destruct (_ && _) eqn:E; [|done].
  apply andb_true_iff in E as [?%N.leb_le ?%N.leb_le]. lia.
Qed.

Section labels.
Context `{DigestSpec}.

Lemma label_hex (v : string) : Forall lower_hex (bytes_of (hex_bytes (take 16 (sha256 (bytes_of v))))).
Proof. apply bytes_of_hex_bytes, Forall_take, sha256_bytes. Qed.

Lemma valid_digest_label_of prefix v : valid_digest_label prefix (digest_label prefix v) = true.
Proof.
  unfold valid_digest_label, digest_label.
  set (h := hex_bytes (take 16 (sha256 (bytes_of v)))).
  assert (Hlen : String.length h = 32%nat).
  { unfold h. rewrite length_hex_bytes, length_take, sha256_length. done. }
  rewrite !andb_true_iff. repeat split.
  - apply N.eqb_eq. unfold str_len. rewrite !length_str_app, Hlen. cbn [String.length].
    rewrite !Nat2N.inj_add. lia.
  - apply prefix_app.
  - apply bool_decide_eq_true. rewrite !bytes_of_app, lookup_app_r
      by (rewrite length_bytes_of; apply Nat.le_refl).
    rewrite length_bytes_of, Nat.sub_diag. done.
  - rewrite str_skip_app. simpl str_skip.
    assert (Hhex : Forall lower_hex (bytes_of h)) by apply label_hex.
    rewrite chars_ascii by (eapply Forall_impl; [done|]; unfold lower_hex; lia).
    apply forallb_forall. intros b Hb. apply list_elem_of_In in Hb.
    rewrite Forall_forall in Hhex. specialize (Hhex b Hb).
    unfold char_is_ascii_hexdigit, char_is_ascii_digit, in_range. unfold lower_hex in Hhex.
    rewrite !orb_true_iff, !andb_true_iff, !N.leb_le. lia.
Qed.

Lemma lowercase_digest_label prefix v :
  to_ascii_lowercase prefix = prefix ->
  to_ascii_lowercase (digest_label prefix v) = digest_label prefix v.
Proof.
  intros Hp. unfold digest_label.
  set (h := hex_bytes (take 16 (sha256 (bytes_of v)))).
  assert (Hh : map byte_lower (bytes_of h) = bytes_of h).
  { assert (Hhex : Forall lower_hex (bytes_of h)) by apply label_hex.
    induction Hhex as [|b l Hb _ IH]; simpl; [done|]. rewrite IH. f_equal.
    unfold byte_lower, in_range. unfold lower_hex in Hb.
    destruct (_ && _) eqn:E; [|done].
    apply andb_true_iff in E as [?%N.leb_le ?%N.leb_le]. lia. }
  assert (Hpb : map byte_lower (bytes_of prefix) = bytes_of prefix).
  { apply (f_equal bytes_of) in Hp. unfold to_ascii_lowercase in Hp.
    revert Hp. generalize (bytes_of_lt prefix). intros Hlt.
    rewrite bytes_of_of; [done|]. by apply byte_lower_lt. }
  unfold to_ascii_lowercase. rewrite !bytes_of_app, !map_app, Hh, Hpb.
  rewrite <- (of_bytes_of (prefix +:+ "-" +:+ h)), !bytes_of_app. done.
Qed.
End labels.

(** * Lemmas on strings that several components share: splitting at a separator and
      joining, prefixes and suffixes, occurrences of a character, trimming. *)

(** * Strings as segments *)

Fixpoint join (sep : Ascii.ascii) (segments : list string) : string :=
  match segments with
  | [] => EmptyString
  | [s] => s
  | s :: rest => (s +:+ String sep (join sep rest))%string
  end.

Lemma split_on_cons sep s : exists seg rest, split_on sep s = seg :: rest.
Proof.
  induction s as [|a s (seg & rest & E)]; simpl; [eauto|]. rewrite E. destruct (Ascii.eqb a sep); eauto.
Qed.

Lemma split_on_app sep q r :
  split_on sep (q +:+ String sep r)%string = split_on sep q ++ split_on sep r.
Proof.
  induction q as [|a q IH]; simpl.
  - rewrite Ascii.eqb_refl. by destruct (split_on_cons sep r) as (seg & rest & ->).
  - rewrite IH. destruct (split_on_cons sep q) as (seg & rest & ->). simpl.
    by destruct (Ascii.eqb a sep).
Qed.

Lemma join_cons_string sep a seg rest : join sep (String a seg :: rest) = String a (join sep (seg :: rest)).
Proof. by destruct rest. Qed.

Lemma join_split sep s : join sep (split_on sep s) = s.
Proof.
  induction s as [|a s IH]; [done|]. simpl.
  destruct (split_on_cons sep s) as (seg & rest & E). rewrite E in *.
  destruct (Ascii.eqb_spec a sep) as [->|].
  - change (join sep ("" :: seg :: rest)%string) with (String sep (join sep (seg :: rest))). by rewrite IH.
  - by rewrite join_cons_string, IH.
Qed.

Lemma join_app sep a b : a <> [] -> b <> [] -> join sep (a ++ b) = (join sep a +:+ String sep (join sep b))%string.
Proof.
  intros Ha Hb. induction a as [|x a IH]; [done|]. destruct a as [|y a].
  - simpl. by destruct b.
  - change (join sep ((x :: y :: a) ++ b)) with (x +:+ String sep (join sep ((y :: a) ++ b)))%string.
    rewrite IH by done. change (join sep (x :: y :: a)) with (x +:+ String sep (join sep (y :: a)))%string.
    by rewrite str_app_assoc.
Qed.

Lemma split_on_inj sep a b : split_on sep a = split_on sep b -> a = b.
Proof. intros E. by rewrite <- (join_split sep a), E, join_split. Qed.

(** The segments of [path] continue those of [q] exactly when a separator follows. *)
Lemma split_on_extends sep q path rest :
  rest <> [] -> split_on sep path = split_on sep q ++ rest ->
  path = (q +:+ String sep (join sep rest))%string.
Proof.
  intros Hr E. destruct (split_on_cons sep q) as (s & k & Eq).
  rewrite <- (join_split sep path), E, join_app, join_split; [done|congruence|done].
Qed.

Lemma starts_with_spec s p : starts_with s p = true <-> exists r, s = (p +:+ r)%string.
Proof.
  unfold starts_with. split.
  - revert s. induction p as [|a p IH]; intros s; simpl; [by exists s|].
    destruct s as [|b s]; [done|]. simpl. destruct (Ascii.ascii_dec a b) as [->|]; [|done].
    intros [r ->]%IH. by exists r.
  - intros [r ->]. apply prefix_app.
Qed.

Lemma strip_prefix_spec s p r : strip_prefix s p = Some r <-> s = (p +:+ r)%string.
Proof.
  unfold strip_prefix. split.
  - destruct (String.prefix p s) eqn:E; [|done]. apply starts_with_spec in E as [t ->].
    pose proof (str_skip_app p t 0) as Hs. rewrite Nat.add_0_r in Hs. rewrite Hs. by intros [= ->].
  - intros ->. rewrite prefix_app. pose proof (str_skip_app p r 0) as Hs. rewrite Nat.add_0_r in Hs. by rewrite Hs.
Qed.

Lemma ends_with_char_spec s c : ends_with_char s c = true <-> exists q, s = (q +:+ String c EmptyString)%string.
Proof.
  split.
  - induction s as [|a s IH]; [done|]. destruct s as [|b s].
    + simpl. intros ->%Ascii.eqb_eq. by exists EmptyString.
    + intros [q E]%IH. exists (String a q). simpl. by rewrite E.
  - intros [q ->]. induction q as [|a q IH]; simpl; [apply Ascii.eqb_refl|].
    destruct (q +:+ String c "")%string eqn:E; [by destruct q|]. done.
Qed.

(** * Occurrences of a character *)

Lemma contains_char_split_on sep s : contains_char s sep = false -> split_on sep s = [s].
Proof.
  induction s as [|a s IH]; simpl; [done|]. intros [Ha Hs]%orb_false_iff. by rewrite IH, Ha.
Qed.

Lemma contains_char_app s t c : contains_char (s +:+ t)%string c = contains_char s c || contains_char t c.
Proof. induction s as [|a s IH]; simpl; [done|]. rewrite IH. by destruct (Ascii.eqb a c). Qed.

Lemma contains_char_bytes s c :
  contains_char s c = true <-> Ascii.N_of_ascii c ∈ bytes_of s.
Proof.
  induction s as [|a s IH]; [split; [done|set_solver]|]. cbn [contains_char].
  rewrite orb_true_iff, Ascii.eqb_eq, IH. unfold bytes_of. simpl. rewrite elem_of_cons.
  split; (intros [E|?]; [left|by right]).
  - by rewrite E.
  - apply (f_equal Ascii.ascii_of_N) in E. by rewrite !Ascii.ascii_N_embedding in E.
Qed.

Lemma str_split_once_spec sep s x y :
  str_split_once sep s = Some (x, y) -> s = (x +:+ String sep y)%string /\ contains_char x sep = false.
Proof.
  revert x y. induction s as [|a s IH]; intros x y; simpl; [done|].
  destruct (Ascii.eqb_spec a sep) as [->|Hne]; [by intros [= <- <-]|].
  destruct (str_split_once sep s) as [[x' y']|]; [|done]. intros [= <- <-].
  destruct (IH x' y' eq_refl) as [-> Hx]. split; [done|]. simpl. rewrite Hx.
  by destruct (Ascii.eqb_spec a sep).
Qed.

Lemma str_split_once_app sep x y :
  contains_char x sep = false -> str_split_once sep (x +:+ String sep y)%string = Some (x, y).
Proof.
  induction x as [|a x IH]; simpl; [by rewrite Ascii.eqb_refl|]. intros [-> Hx]%orb_false_iff. by rewrite IH.
Qed.

Lemma count_char_zero s c : count_char s c = 0%nat -> contains_char s c = false.
Proof. induction s as [|a s IH]; simpl; [done|]. destruct (Ascii.eqb a c); [done|]. exact IH. Qed.

Lemma count_char_app s t c : count_char (s +:+ t)%string c = (count_char s c + count_char t c)%nat.
Proof. induction s as [|a s IH]; simpl; [done|]. rewrite IH. lia. Qed.

Lemma char_spans_ascii l : Forall (fun b => b < 0x80) l -> char_spans l = map (fun b => (b, [b])) l.
Proof.
  induction 1 as [|b l Hb _ IH]; [done|]. cbn [char_spans map]. destruct (N.ltb_spec b 0x80); [|lia]. by rewrite IH.
Qed.

Lemma drop_while_none {A} (p : A -> bool) l : Forall (fun x => p x = false) l -> drop_while p l = l.
Proof. destruct 1 as [|x l Hx _]; simpl; [done|]. by rewrite Hx. Qed.

(** Text without white space is trimmed already. *)
Lemma trim_ascii s :
  Forall (fun b => b < 0x80 /\ char_is_whitespace b = false) (bytes_of s) -> trim s = s.
Proof.
  intros Hs. unfold trim. rewrite char_spans_ascii by (eapply Forall_impl; [done|]; by intros ? [? _]).
  set (p := fun cs : N * list N => char_is_whitespace cs.1).
  assert (Hp : Forall (fun x => p x = false) (map (fun b => (b, [b])) (bytes_of s))).
  { apply Forall_map. eapply Forall_impl; [done|]. by intros ? [_ ?]. }
  rewrite (drop_while_none p _ Hp).
  rewrite drop_while_none by by apply Forall_rev.
  rewrite rev_involutive. rewrite <- (of_bytes_of s) at 2. f_equal.
  clear. induction (bytes_of s) as [|b l IH]; [done|]. exact (f_equal (cons b) IH).
Qed.

Lemma str_app_nil_r (s : string) : (s +:+ "" = s)%string.
Proof. induction s as [|c s IH]; [done|]. exact (f_equal (String c) IH). Qed.

(** No segment holds the separator. *)
Lemma split_on_segments sep s : Forall (fun seg => contains_char seg sep = false) (split_on sep s).
Proof.
  induction s as [|c s IH]; simpl; [by repeat constructor|].
  destruct (split_on_cons sep s) as (seg & rest & E). rewrite E in *.
  destruct (Ascii.eqb_spec c sep) as [_|Hc]; [by constructor|].
  apply Forall_cons in IH as [H1 H2]. constructor; [|done]. simpl.
  by rewrite H1, (proj2 (Ascii.eqb_neq c sep)).
Qed.

Lemma split_join sep l :
  l <> [] -> Forall (fun seg => contains_char seg sep = false) l -> split_on sep (join sep l) = l.
Proof.
  intros Hne Hl. induction Hl as [|s l Hs Hl IH]; [done|]. destruct l as [|u l].
  - by apply contains_char_split_on.
  - change (join sep (s :: u :: l)) with (s +:+ String sep (join sep (u :: l)))%string.
    by rewrite split_on_app, IH, contains_char_split_on.
Qed.
