(* ===== verification/Time.v ===== *)
(** [std::time]: a [Duration] is its number of nanoseconds, an [Instant] the
    nanoseconds of its [timespec] (a signed 64-bit number of seconds and a
    nanosecond part, as on Linux), so that the checked and saturating
    operations of the source are bounded exactly where the library's are. *)
From S2P Require Import Prelude.

Open Scope N_scope.

Abbreviation Duration := N.
Abbreviation Instant := Z.

Definition NANOS : N := 1000000000.
(** [Duration::MAX]: [u64::MAX] seconds and 999_999_999 nanoseconds. *)
Definition DURATION_MAX : Duration := U64_MAX * NANOS + 999999999.
Definition DURATION_ZERO : Duration := 0.
Definition from_secs (s : N) : Duration := s * NANOS.
Definition from_millis (ms : N) : Duration := ms * 1000000.
Definition as_secs (d : Duration) : N := d / NANOS.
Definition subsec_nanos (d : Duration) : N := d mod NANOS.
Definition is_zero (d : Duration) : bool := d =? 0.
Definition dur_add (a b : Duration) : Duration := sat_add DURATION_MAX a b.
Definition dur_mul (a : Duration) (k : N) : Duration := sat_mul DURATION_MAX a k.

(** The instants a [timespec] with 64-bit seconds represents. *)
Definition INSTANT_MAX : Instant := (9223372036854775807 * 1000000000 + 999999999)%Z.
Definition INSTANT_MIN : Instant := (-9223372036854775808 * 1000000000)%Z.

(** [Instant::checked_add] and [Instant::checked_sub]. *)
Definition checked_add (t : Instant) (d : Duration) : option Instant :=
  if (t + Z.of_N d <=? INSTANT_MAX)%Z then Some (t + Z.of_N d)%Z else None.
Definition checked_sub (t : Instant) (d : Duration) : option Instant :=
  if (INSTANT_MIN <=? t - Z.of_N d)%Z then Some (t - Z.of_N d)%Z else None.

(** [later.saturating_duration_since(earlier)]. *)
Definition duration_since (later earlier : Instant) : Duration := Z.to_N (later - earlier).

Lemma checked_add_Some t d u : checked_add t d = Some u -> u = (t + Z.of_N d)%Z.
Proof. unfold checked_add. case_match; congruence. Qed.

Lemma checked_add_ok t d : (t + Z.of_N d <= INSTANT_MAX)%Z -> checked_add t d = Some (t + Z.of_N d)%Z.
Proof. intros H. unfold checked_add. apply Z.leb_le in H. by rewrite H. Qed.

Lemma checked_sub_ok t d : (INSTANT_MIN <= t - Z.of_N d)%Z -> checked_sub t d = Some (t - Z.of_N d)%Z.
Proof. intros H. unfold checked_sub. apply Z.leb_le in H. by rewrite H. Qed.

Lemma duration_since_ge later earlier :
  (earlier <= later)%Z -> (earlier + Z.of_N (duration_since later earlier) = later)%Z.
Proof. intros H. unfold duration_since. lia. Qed.
