(* ===== verification/CoreId.v ===== *)
(** Validated identifiers (crates/pooler-core/src/id.rs): the named and
    component identifiers, the model/target composite and the configuration
    generation. *)
From S2P Require Import Prelude Str.

Open Scope N_scope.

Definition MAX_IDENTIFIER_LENGTH : N := 256.

Inductive IdentifierError :=
| IdEmpty
| IdTooLong (max : N)
| IdInvalidCharacter (character : N)
| IdInvalidComponent (segment : string).

#[export] Instance IdentifierError_eq_dec : EqDecision IdentifierError.
Proof. solve_decision. Defined.

(** The first character [for character in value.chars()] stops at, if any. *)
Fixpoint first_invalid (cs : list N) : option N :=
  match cs with
  | [] => None
  | c :: cs => if char_is_control c || char_is_whitespace c then Some c else first_invalid cs
  end.

Definition validate_named (value : string) : Result unit IdentifierError :=
  if str_is_empty value then Err IdEmpty
  else if MAX_IDENTIFIER_LENGTH <? str_len value then Err (IdTooLong MAX_IDENTIFIER_LENGTH)
  else match first_invalid (chars value) with
       | Some c => Err (IdInvalidCharacter c)
       | None => Ok tt
       end.

Definition component_segment_ok (segment : string) : bool :=
  negb (str_is_empty segment)
  && forallb (fun c => char_is_ascii_alphanumeric c || is_underscore_or_dash c) (chars segment).

Fixpoint first_bad_segment (segments : list string) : option string :=
  match segments with
  | [] => None
  | s :: rest => if component_segment_ok s then first_bad_segment rest else Some s
  end.

Definition validate_component (value : string) : Result unit IdentifierError :=
  let? _ := validate_named value in
  match first_bad_segment (split_on DOT value) with
  | Some segment => Err (IdInvalidComponent segment)
  | None => Ok tt
  end.

(** The [named_identifier!] types. *)
Record RouteId := MkRouteId { route_str : string }.
Record ListenerId := MkListenerId { listener_str : string }.
Record ProviderId := MkProviderId { provider_str : string }.
Record CredentialId := MkCredentialId { credential_str : string }.
Record ModelId := MkModelId { model_str : string }.
Record SessionId := MkSessionId { session_str : string }.
Record TargetId := MkTargetId { target_str : string }.
Record ComponentId := MkComponentId { component_str : string }.

#[export] Instance RouteId_eq_dec : EqDecision RouteId. Proof. solve_decision. Defined.
#[export] Instance ProviderId_eq_dec : EqDecision ProviderId. Proof. solve_decision. Defined.
#[export] Instance CredentialId_eq_dec : EqDecision CredentialId. Proof. solve_decision. Defined.
#[export] Instance ModelId_eq_dec : EqDecision ModelId. Proof. solve_decision. Defined.
#[export] Instance TargetId_eq_dec : EqDecision TargetId. Proof. solve_decision. Defined.

#[export] Instance RouteId_countable : Countable RouteId.
Proof. by refine (inj_countable' route_str MkRouteId _); intros []. Defined.
#[export] Instance ProviderId_countable : Countable ProviderId.
Proof. by refine (inj_countable' provider_str MkProviderId _); intros []. Defined.
#[export] Instance CredentialId_countable : Countable CredentialId.
Proof. by refine (inj_countable' credential_str MkCredentialId _); intros []. Defined.
#[export] Instance ModelId_countable : Countable ModelId.
Proof. by refine (inj_countable' model_str MkModelId _); intros []. Defined.
#[export] Instance TargetId_countable : Countable TargetId.
Proof. by refine (inj_countable' target_str MkTargetId _); intros []. Defined.

(** The derived [Ord] of a newtype over [String]. *)
Definition credential_cmp (a b : CredentialId) : comparison :=
  String.compare (credential_str a) (credential_str b).
Definition target_cmp (a b : TargetId) : comparison :=
  String.compare (target_str a) (target_str b).
Definition model_cmp (a b : ModelId) : comparison :=
  String.compare (model_str a) (model_str b).

Lemma ord_newtype {A} (f : A -> string) :
  (forall x y, f x = f y -> x = y) -> OrdCmp (fun x y => String.compare (f x) (f y)).
Proof.
  intros Hinj. split.
  - apply (pre_key f String.compare), _.
  - intros x y H. apply Hinj. by apply (ord_eq String.compare).
Qed.

#[export] Instance ord_credential : OrdCmp credential_cmp.
Proof. apply ord_newtype. intros [] []. simpl. congruence. Qed.
#[export] Instance ord_target : OrdCmp target_cmp.
Proof. apply ord_newtype. intros [] []. simpl. congruence. Qed.
#[export] Instance ord_model : OrdCmp model_cmp.
Proof. apply ord_newtype. intros [] []. simpl. congruence. Qed.

(** [$name::new] of the macro. *)
Definition named_new {A} (mk : string -> A) (value : string) : Result A IdentifierError :=
  let? _ := validate_named value in Ok (mk value).
Definition component_new (value : string) : Result ComponentId IdentifierError :=
  let? _ := validate_component value in Ok (MkComponentId value).

(** ** [TargetBindingId] *)

Record TargetBindingId := MkTargetBindingId { tb_model : ModelId; tb_target : TargetId }.

Definition target_binding_new (model target : string) : Result TargetBindingId IdentifierError :=
  let? m := named_new MkModelId model in
  let? t := named_new MkTargetId target in
  Ok (MkTargetBindingId m t).

Definition target_binding_as_str (b : TargetBindingId) : string :=
  (model_str (tb_model b) +:+ "/" +:+ target_str (tb_target b))%string.

(** ** [ConfigGeneration] *)

Record ConfigGeneration := MkGeneration { generation_value : N }.
Definition INITIAL : ConfigGeneration := MkGeneration 0.
Definition generation_next (g : ConfigGeneration) : ConfigGeneration :=
  MkGeneration (sat_add U64_MAX (generation_value g) 1).
Definition generation_is_initial (g : ConfigGeneration) : bool := generation_value g =? 0.

#[export] Instance ConfigGeneration_eq_dec : EqDecision ConfigGeneration.
Proof. solve_decision. Defined.

(** * Properties *)

Lemma first_invalid_None cs :
  first_invalid cs = None <->
  Forall (fun c => char_is_control c = false /\ char_is_whitespace c = false) cs.
Proof.
  induction cs as [|c cs IH]; simpl; [by split|]. rewrite Forall_cons, <- IH.
  destruct (char_is_control c), (char_is_whitespace c); simpl; intuition congruence.
Qed.

Lemma validate_named_ok value :
  validate_named value = Ok tt <->
  value <> EmptyString /\ str_len value <= MAX_IDENTIFIER_LENGTH /\
  Forall (fun c => char_is_control c = false /\ char_is_whitespace c = false) (chars value).
Proof.
  unfold validate_named. rewrite <- first_invalid_None.
  destruct value as [|a s]; simpl str_is_empty; cbv iota; [by split; [|intros [? _]]|].
  destruct (N.ltb_spec MAX_IDENTIFIER_LENGTH (str_len (String a s))).
  - split; [done|]. lia.
  - destruct (first_invalid _); split; try done; intros (_ & _ & ?); congruence.
Qed.

Lemma named_new_ok {A} (mk : string -> A) value x :
  named_new mk value = Ok x -> validate_named value = Ok tt /\ x = mk value.
Proof.
  unfold named_new. destruct (validate_named value) as [[]|e]; simpl; [|done].
  by intros [= <-].
Qed.

Lemma after_last_slash_free target :
  after_last SLASH target = None ->
  forall model, after_last SLASH (model +:+ "/" +:+ target)%string = Some target.
Proof. intros H model. by apply (after_last_app SLASH). Qed.

Lemma str_app_inj_r (a b c : string) : (a +:+ c)%string = (b +:+ c)%string -> a = b.
Proof.
  intros H. assert (Hlen : String.length a = String.length b).
  { apply (f_equal String.length) in H. rewrite !length_str_app in H. lia. }
  revert b Hlen H. induction a as [|x a IH]; intros [|y b]; simpl; try done.
  intros [= Hlen] [= -> H]. by rewrite (IH b).
Qed.

(** The persisted form [model/target] of a target binding determines both
    components as long as the targets contain no slash, so two such bindings
    never share a persisted key. *)
Theorem target_binding_as_str_inj a b :
  after_last SLASH (target_str (tb_target a)) = None ->
  after_last SLASH (target_str (tb_target b)) = None ->
  target_binding_as_str a = target_binding_as_str b -> a = b.
Proof.
  destruct a as [[ma] [ta]], b as [[mb] [tb]]. unfold target_binding_as_str. simpl.
  intros Ha Hb Heq.
  assert (ta = tb) as ->.
  { pose proof (after_last_slash_free ta Ha ma) as H1.
    pose proof (after_last_slash_free tb Hb mb) as H2. congruence. }
  apply str_app_inj_r in Heq. by subst.
Qed.

Lemma target_binding_as_str_inj_witness :
  let a := MkTargetBindingId (MkModelId "acme/large") (MkTargetId "primary") in
  a = MkTargetBindingId (MkModelId "acme/large") (MkTargetId "primary").
Proof.
  intros a. apply (target_binding_as_str_inj a); reflexivity.
Defined.

(** Without that restriction the persisted form is ambiguous: both
    components of these two bindings pass validation, the bindings differ, and
    their persisted forms are equal. *)
Theorem target_binding_as_str_ambiguous :
  exists a b,
    target_binding_new "acme/large" "primary" = Ok a /\
    target_binding_new "acme" "large/primary" = Ok b /\
    a <> b /\ target_binding_as_str a = target_binding_as_str b.
Proof.
  eexists _, _. split; [vm_compute; reflexivity|]. split; [vm_compute; reflexivity|].
  split; [discriminate|]. reflexivity.
Qed.
