(* ===== verification/Capabilities.v ===== *)
(** Capability sets (crates/pooler-core/src/capabilities.rs): the enum, the
    64-bit set, its operations, and their reading as finite sets. *)
From S2P Require Import Prelude.

Open Scope N_scope.

Inductive Capability :=
| Text | Images | Audio | Files | Tools | Reasoning | Streaming | Usage
| StructuredOutput | JsonSchema | FunctionCalling | ToolChoice | CacheHints
| Continuation | ResponseMetadata | EncryptedReasoning | Refusal | ErrorEvents
| InputAudio | OutputAudio | CodeExecution | ComputerUse | Batch | Embeddings
| Sse | WebSocket | ConnectRpc | Protobuf | ImageGeneration.

#[export] Instance Capability_eq_dec : EqDecision Capability.
Proof. solve_decision. Defined.

(** [Capability::ALL], in declaration order. *)
Definition ALL : list Capability :=
  [Text; Images; Audio; Files; Tools; Reasoning; Streaming; Usage;
   StructuredOutput; JsonSchema; FunctionCalling; ToolChoice; CacheHints;
   Continuation; ResponseMetadata; EncryptedReasoning; Refusal; ErrorEvents;
   InputAudio; OutputAudio; CodeExecution; ComputerUse; Batch; Embeddings;
   Sse; WebSocket; ConnectRpc; Protobuf; ImageGeneration].

(** The discriminant [self as u8]. *)
Definition discriminant (c : Capability) : N :=
  match c with
  | Text => 0 | Images => 1 | Audio => 2 | Files => 3 | Tools => 4 | Reasoning => 5
  | Streaming => 6 | Usage => 7 | StructuredOutput => 8 | JsonSchema => 9
  | FunctionCalling => 10 | ToolChoice => 11 | CacheHints => 12 | Continuation => 13
  | ResponseMetadata => 14 | EncryptedReasoning => 15 | Refusal => 16 | ErrorEvents => 17
  | InputAudio => 18 | OutputAudio => 19 | CodeExecution => 20 | ComputerUse => 21
  | Batch => 22 | Embeddings => 23 | Sse => 24 | WebSocket => 25 | ConnectRpc => 26
  | Protobuf => 27 | ImageGeneration => 28
  end.

Definition bit (c : Capability) : N := N.shiftl 1 (discriminant c).

Definition capability_str (c : Capability) : string :=
  match c with
  | Text => "text" | Images => "images" | Audio => "audio" | Files => "files"
  | Tools => "tools" | Reasoning => "reasoning" | Streaming => "streaming"
  | Usage => "usage" | StructuredOutput => "structured_output"
  | JsonSchema => "json_schema" | FunctionCalling => "function_calling"
  | ToolChoice => "tool_choice" | CacheHints => "cache_hints"
  | Continuation => "continuation" | ResponseMetadata => "response_metadata"
  | EncryptedReasoning => "encrypted_reasoning" | Refusal => "refusal"
  | ErrorEvents => "error_events" | InputAudio => "input_audio"
  | OutputAudio => "output_audio" | CodeExecution => "code_execution"
  | ComputerUse => "computer_use" | Batch => "batch" | Embeddings => "embeddings"
  | Sse => "sse" | WebSocket => "web_socket" | ConnectRpc => "connect_rpc"
  | Protobuf => "protobuf" | ImageGeneration => "image_generation"
  end.

Module CapabilitySet.

Record t := Mk { bits : N }.

Definition KNOWN_BITS : N := N.shiftl 1 (N.of_nat (length ALL)) - 1.

Definition empty : t := Mk 0.
Definition all : t := Mk KNOWN_BITS.
(** [bits & !KNOWN_BITS] is [N.ldiff]. *)
Definition try_from_bits (b : N) : Result t N :=
if N.ldiff b KNOWN_BITS =? 0 then Ok (Mk b) else Err (N.ldiff b KNOWN_BITS).
Definition is_empty (s : t) : bool := bits s =? 0.
Definition contains (s : t) (c : Capability) : bool := negb (N.land (bits s) (bit c) =? 0).
Definition contains_all (s required : t) : bool :=
N.land (bits s) (bits required) =? bits required.
Definition contains_any (s candidates : t) : bool :=
negb (N.land (bits s) (bits candidates) =? 0).
(** [with] and [insert] set the same bit. *)
Definition with_ (s : t) (c : Capability) : t := Mk (N.lor (bits s) (bit c)).
Definition remove (s : t) (c : Capability) : t := Mk (N.ldiff (bits s) (bit c)).
Definition union (a b : t) : t := Mk (N.lor (bits a) (bits b)).
Definition intersection (a b : t) : t := Mk (N.land (bits a) (bits b)).
Definition difference (a b : t) : t := Mk (N.ldiff (bits a) (bits b)).
Definition iter (s : t) : list Capability := List.filter (contains s) ALL.
Definition extend (s : t) (l : list Capability) : t := foldl with_ s l.
Definition from_iter (l : list Capability) : t := extend empty l.

#[global] Instance eq_dec : EqDecision t.
Proof. solve_decision. Defined.

(** Sets built through the public interface hold known bits only. *)
Definition wf (s : t) : Prop := N.ldiff (bits s) KNOWN_BITS = 0.

Lemma testbit_bit c n : N.testbit (bit c) n = bool_decide (n = discriminant c).
Proof.
unfold bit. destruct (decide (n = discriminant c)) as [->|Hne].
- rewrite bool_decide_eq_true_2 by done.
  rewrite N.shiftl_spec_high' by lia. by rewrite N.sub_diag.
- rewrite bool_decide_eq_false_2 by done.
  rewrite N.shiftl_1_l. by apply N.pow2_bits_false.
Qed.

Lemma contains_testbit s c : contains s c = N.testbit (bits s) (discriminant c).
Proof.
unfold contains. destruct (N.testbit (bits s) (discriminant c)) eqn:E.
- apply negb_true_iff, N.eqb_neq. intros H.
  apply (f_equal (fun x => N.testbit x (discriminant c))) in H.
  rewrite N.land_spec, testbit_bit, E, bool_decide_eq_true_2, N.bits_0 in H by done. done.
- apply negb_false_iff, N.eqb_eq, N.bits_inj. intros n.
  rewrite N.land_spec, testbit_bit, N.bits_0.
  case_bool_decide; subst; [by rewrite E|apply andb_false_r].
Qed.

Lemma discriminant_inj c d : discriminant c = discriminant d -> c = d.
Proof. by destruct c, d. Qed.

(** The lemmas below read each operation as a set operation. *)
Lemma contains_empty c : contains empty c = false.
Proof. rewrite contains_testbit. apply N.bits_0. Qed.
Lemma contains_with s c d : contains (with_ s c) d = bool_decide (c = d) || contains s d.
Proof.
rewrite !contains_testbit. unfold with_. simpl. rewrite N.lor_spec, testbit_bit.
rewrite orb_comm. f_equal. apply bool_decide_ext. split; [|by intros ->].
intros H. symmetry. by apply discriminant_inj.
Qed.
Lemma contains_difference a b c :
contains (difference a b) c = contains a c && negb (contains b c).
Proof. rewrite !contains_testbit. unfold difference. simpl. by rewrite N.ldiff_spec. Qed.
Lemma contains_union a b c : contains (union a b) c = contains a c || contains b c.
Proof. rewrite !contains_testbit. unfold union. simpl. by rewrite N.lor_spec. Qed.
Lemma contains_intersection a b c :
contains (intersection a b) c = contains a c && contains b c.
Proof. rewrite !contains_testbit. unfold intersection. simpl. by rewrite N.land_spec. Qed.

Lemma elem_of_ALL c : c ∈ ALL.
Proof. apply list_elem_of_In. destruct c; simpl; tauto. Qed.

Lemma elem_of_iter s c : c ∈ iter s <-> contains s c = true.
Proof.
unfold iter. rewrite list_elem_of_In, filter_In, <- list_elem_of_In.
split; [by intros [_ ?]|]. intros H. split; [apply elem_of_ALL|done].
Qed.

Lemma discriminant_lt c : discriminant c < 29.
Proof. destruct c; simpl; lia. Qed.

Lemma bit_of_index n : n < 29 -> exists c, discriminant c = n.
Proof.
intros H. destruct (ALL !! N.to_nat n) as [c|] eqn:E.
- exists c. assert (Hn : exists k, N.to_nat n = k) by eauto. destruct Hn as [k Hk].
  rewrite Hk in E. assert (n = N.of_nat k) as -> by lia.
  do 29 (destruct k as [|k]; [injection E as <-; reflexivity|]). lia.
- apply lookup_ge_None in E. simpl in E. lia.
Qed.

Lemma testbit_known n : N.testbit KNOWN_BITS n = (n <? 29).
Proof.
change KNOWN_BITS with (N.ones 29). apply eq_true_iff_eq. rewrite N.ltb_lt.
destruct (N.lt_ge_cases n 29).
- rewrite N.ones_spec_low by done. done.
- rewrite N.ones_spec_high by done. split; [done|lia].
Qed.

(** Well-formed sets with the same members are equal: the bitset is extensional. *)
Lemma set_ext a b : wf a -> wf b -> (forall c, contains a c = contains b c) -> a = b.
Proof.
destruct a as [a], b as [b]. unfold wf. simpl. intros Ha Hb Hext. f_equal.
apply N.bits_inj. intros n. destruct (N.lt_ge_cases n 29) as [Hn|Hn].
- destruct (bit_of_index n Hn) as [c <-]. specialize (Hext c).
  by rewrite !contains_testbit in Hext.
- apply (f_equal (fun x => N.testbit x n)) in Ha, Hb.
  rewrite N.ldiff_spec, testbit_known, N.bits_0 in Ha, Hb.
  apply N.ltb_ge in Hn. rewrite Hn in Ha, Hb. simpl in Ha, Hb.
  rewrite andb_true_r in Ha, Hb. congruence.
Qed.

Lemma wf_with s c : wf s -> wf (with_ s c).
Proof.
unfold wf, with_. simpl. intros H. apply N.bits_inj. intros n.
apply (f_equal (fun x => N.testbit x n)) in H. rewrite N.bits_0, N.ldiff_spec in *.
rewrite testbit_known in *. rewrite N.lor_spec, testbit_bit.
case_bool_decide as Hn; [subst n|].
- pose proof (discriminant_lt c) as Hlt. apply N.ltb_lt in Hlt. rewrite Hlt. by rewrite andb_false_r.
- by rewrite orb_false_r.
Qed.

Lemma wf_extend s l : wf s -> wf (extend s l).
Proof. revert s. induction l as [|c l IH]; intros s H; simpl; [done|]. apply IH, wf_with, H. Qed.

Lemma contains_extend s l c : contains (extend s l) c = bool_decide (c ∈ l) || contains s c.
Proof.
revert s. induction l as [|d l IH]; intros s; simpl; [done|].
rewrite IH, contains_with, orb_assoc. f_equal.
apply eq_true_iff_eq. rewrite orb_true_iff, !bool_decide_eq_true, elem_of_cons.
split; [intros [?|?]|intros [?|?]]; auto.
Qed.

(** Capability matching is a set inclusion: [required.difference(offered)]
  is empty exactly when every required capability is offered, which is also
  what [contains_all] decides, and the reported missing capabilities are
  exactly the required ones that are not offered. *)
Theorem capability_matching required offered :
wf required ->
(iter (difference required offered) = [] <-> contains_all offered required = true) /\
(forall c, c ∈ iter (difference required offered) <->
   contains required c = true /\ contains offered c = false).
Proof.
intros Hwf.
assert (Helem : forall c, c ∈ iter (difference required offered) <->
  contains required c = true /\ contains offered c = false).
{ intros c. by rewrite elem_of_iter, contains_difference, andb_true_iff, negb_true_iff. }
split; [|done]. unfold contains_all. rewrite N.eqb_eq. split.
- intros Hnil. pose proof (set_ext (intersection offered required) required) as Hext.
  enough (intersection offered required = required) as Heq by (by rewrite <- Heq at 2).
  apply Hext; [|done|].
  + unfold wf in *. simpl. apply N.bits_inj. intros n.
    apply (f_equal (fun x => N.testbit x n)) in Hwf.
    rewrite N.ldiff_spec, N.bits_0 in *. rewrite N.land_spec, <- andb_assoc, Hwf.
    apply andb_false_r.
  + intros c. rewrite contains_intersection. specialize (Helem c). rewrite Hnil in Helem.
    destruct (contains required c), (contains offered c); simpl; try done.
    exfalso. eapply not_elem_of_nil, Helem. done.
- intros Hsub. apply elem_of_nil_inv. intros c [Hr Ho]%Helem.
  rewrite contains_testbit in Hr, Ho.
  apply (f_equal (fun x => N.testbit x (discriminant c))) in Hsub.
  rewrite N.land_spec, Hr, Ho in Hsub. done.
Qed.

Lemma capability_matching_witness :
iter (difference (from_iter [Text; Tools]) (from_iter [Text; Images])) <> [] /\
(iter (difference (from_iter [Text; Tools]) (from_iter [Text; Images])) = [] <->
 contains_all (from_iter [Text; Images]) (from_iter [Text; Tools]) = true).
Proof.
split; [vm_compute; discriminate|].
apply (capability_matching (from_iter [Text; Tools]) (from_iter [Text; Images])).
vm_compute. reflexivity.
Defined.

(** Serializing a set as its member list and collecting the list again
  gives the set back, and decoding raw bits accepts exactly the bit patterns
  whose members are all known to this version. *)
Theorem capability_roundtrip s :
(wf s -> from_iter (iter s) = s) /\
(forall b, try_from_bits b = Ok s <-> bits s = b /\ wf s).
Proof.
split.
- intros Hwf. apply set_ext; [apply wf_extend; reflexivity|done|].
  intros c. unfold from_iter. rewrite contains_extend, contains_empty, orb_false_r.
  apply eq_true_iff_eq. by rewrite bool_decide_eq_true, elem_of_iter.
- intros b. unfold try_from_bits, wf. destruct (N.eqb_spec (N.ldiff b KNOWN_BITS) 0) as [E|E].
  + split; [by intros [= <-]|]. intros [<- _]. by destruct s.
  + split; [done|]. intros [<- ?]. done.
Qed.

Lemma capability_roundtrip_witness :
from_iter (iter (from_iter [Batch; Text])) = from_iter [Batch; Text].
Proof. apply (proj1 (capability_roundtrip (from_iter [Batch; Text]))). vm_compute. reflexivity. Defined.

End CapabilitySet.
