(* ===== verification/CoreError.v ===== *)
(** Failure classification contracts, route limits and body modes
    (crates/pooler-core/src/error.rs, limits.rs, mode.rs). *)
From S2P Require Import Prelude Time.

Open Scope N_scope.

(** * error.rs *)

Inductive ErrorClass :=
| DownstreamAuthentication | InvalidRequest | UnsupportedConversion
| ProviderAuthentication | CredentialQuotaExhausted | ModelQuotaExhausted
| ProviderRateLimited | ProviderUnavailable | Network | Timeout
| InvalidUpstreamResponse | IncompleteStream | InternalInvariant
| DownstreamDisconnected.

Inductive ErrorScope :=
| ScopeDownstream | ScopeCredential | ScopeModel | ScopeProvider | ScopeRoute | ScopeInternal.

Inductive Retryability := Never | BeforeCommit.

Inductive ReplaySafety := NotReplayable | Replayable | RequiresIdempotencyKey.

#[export] Instance ErrorClass_eq_dec : EqDecision ErrorClass. Proof. solve_decision. Defined.
#[export] Instance ErrorScope_eq_dec : EqDecision ErrorScope. Proof. solve_decision. Defined.
#[export] Instance Retryability_eq_dec : EqDecision Retryability. Proof. solve_decision. Defined.
#[export] Instance ReplaySafety_eq_dec : EqDecision ReplaySafety. Proof. solve_decision. Defined.

Record ErrorClassification := MkErrorClassification {
  ec_class : ErrorClass;
  ec_scope : ErrorScope;
  ec_retryability : Retryability;
  ec_replay_safety : ReplaySafety;
  ec_recovery_after : option Duration;
}.

Definition error_classification_new (class : ErrorClass) (scope : ErrorScope)
    (r : Retryability) (s : ReplaySafety) : ErrorClassification :=
  MkErrorClassification class scope r s None.

Definition ec_with_recovery_after (c : ErrorClassification) (d : Duration) : ErrorClassification :=
  MkErrorClassification (ec_class c) (ec_scope c) (ec_retryability c) (ec_replay_safety c) (Some d).

Definition can_retry_before_commit (c : ErrorClassification) : bool :=
  beq (ec_retryability c) BeforeCommit && negb (beq (ec_replay_safety c) NotReplayable).

(** * limits.rs *)

Inductive LimitResource :=
| RequestBody | ResponseBody | HeaderCount | HeaderBytes | Frame | Event
| BootstrapBytes | BootstrapEvents | QueueBytes | QueueItems.

Definition limit_resource_str (r : LimitResource) : string :=
  match r with
  | RequestBody => "request body" | ResponseBody => "response body"
  | HeaderCount => "header count" | HeaderBytes => "header bytes"
  | Frame => "frame" | Event => "event"
  | BootstrapBytes => "bootstrap bytes" | BootstrapEvents => "bootstrap events"
  | QueueBytes => "queue bytes" | QueueItems => "queue items"
  end.

Inductive TimeoutResource := RequestTimeout | ConnectTimeout.

Definition timeout_resource_str (r : TimeoutResource) : string :=
  match r with RequestTimeout => "request" | ConnectTimeout => "connect" end.

Inductive LimitValidationError :=
| LimitZero (resource : LimitResource)
| LimitZeroTimeout (resource : TimeoutResource).

Definition limit_validation_error_str (e : LimitValidationError) : string :=
  match e with
  | LimitZero r => limit_resource_str r +:+ " limit must be greater than zero"
  | LimitZeroTimeout r => timeout_resource_str r +:+ " timeout must be greater than zero"
  end%string.

Inductive PoolerError :=
| PInvalidConfiguration (message : string)
| PInvalidRequest (message : string)
| PUnsupportedConversion (message : string)
| PDownstreamAuthentication
| PProviderAuthentication
| PProvider (classification : ErrorClassification) (message : string)
| PNetwork (message : string)
| PTimeout (stage : string)
| PInvalidUpstreamResponse (message : string)
| PIncompleteStream (message : string)
| PDownstreamDisconnected
| PCancelled
| PLimitExceeded (resource : LimitResource) (limit observed : N)
| PInternalInvariant (message : string).

(** [PoolerError::classification]. *)
Definition classification (e : PoolerError) : ErrorClassification :=
  let new := error_classification_new in
  match e with
  | PInvalidConfiguration _ => new InternalInvariant ScopeInternal Never NotReplayable
  | PInvalidRequest _ => new InvalidRequest ScopeDownstream Never NotReplayable
  | PUnsupportedConversion _ => new UnsupportedConversion ScopeRoute Never NotReplayable
  | PDownstreamAuthentication => new DownstreamAuthentication ScopeDownstream Never NotReplayable
  | PProviderAuthentication => new ProviderAuthentication ScopeCredential Never NotReplayable
  | PProvider c _ => c
  | PNetwork _ => new Network ScopeProvider BeforeCommit Replayable
  | PTimeout _ => new Timeout ScopeProvider BeforeCommit Replayable
  | PInvalidUpstreamResponse _ => new InvalidUpstreamResponse ScopeProvider Never NotReplayable
  | PIncompleteStream _ => new IncompleteStream ScopeProvider BeforeCommit Replayable
  | PDownstreamDisconnected => new DownstreamDisconnected ScopeDownstream Never NotReplayable
  | PCancelled => new DownstreamDisconnected ScopeDownstream Never NotReplayable
  | PLimitExceeded _ _ _ => new InvalidRequest ScopeRoute Never NotReplayable
  | PInternalInvariant _ => new InternalInvariant ScopeInternal Never NotReplayable
  end.

Definition pooler_error_can_retry (e : PoolerError) : bool :=
  can_retry_before_commit (classification e).

Record RouteLimits := MkRouteLimits {
  max_request_body_bytes : N;
  max_response_body_bytes : N;
  max_header_count : N;
  max_header_bytes : N;
  max_frame_bytes : N;
  max_event_bytes : N;
  max_bootstrap_bytes : N;
  max_bootstrap_events : N;
  max_queue_bytes : N;
  max_queue_items : N;
  request_timeout : option Duration;
  connect_timeout : option Duration;
}.

Definition route_limits_default : RouteLimits := {|
  max_request_body_bytes := 16 * 1024 * 1024;
  max_response_body_bytes := 16 * 1024 * 1024;
  max_header_count := 128;
  max_header_bytes := 64 * 1024;
  max_frame_bytes := 16 * 1024 * 1024;
  max_event_bytes := 16 * 1024 * 1024;
  max_bootstrap_bytes := 64 * 1024;
  max_bootstrap_events := 1;
  max_queue_bytes := 4 * 1024 * 1024;
  max_queue_items := 256;
  request_timeout := Some (from_secs (30 * 60));
  connect_timeout := Some (from_secs 5);
|}.

Definition limit_resources (l : RouteLimits) : list (N * LimitResource) :=
  [(max_request_body_bytes l, RequestBody); (max_response_body_bytes l, ResponseBody);
   (max_header_count l, HeaderCount); (max_header_bytes l, HeaderBytes);
   (max_frame_bytes l, Frame); (max_event_bytes l, Event);
   (max_bootstrap_bytes l, BootstrapBytes); (max_bootstrap_events l, BootstrapEvents);
   (max_queue_bytes l, QueueBytes); (max_queue_items l, QueueItems)].

Fixpoint first_zero (l : list (N * LimitResource)) : option LimitResource :=
  match l with
  | [] => None
  | (v, r) :: l => if v =? 0 then Some r else first_zero l
  end.

Definition limits_validate (l : RouteLimits) : Result unit LimitValidationError :=
  match first_zero (limit_resources l) with
  | Some r => Err (LimitZero r)
  | None =>
    if is_some_and (request_timeout l) is_zero then Err (LimitZeroTimeout RequestTimeout)
    else if is_some_and (connect_timeout l) is_zero then Err (LimitZeroTimeout ConnectTimeout)
    else Ok tt
  end.

Definition validate_result (l : RouteLimits) : Result unit PoolerError :=
  map_err (fun e => PInvalidConfiguration (limit_validation_error_str e)) (limits_validate l).

Definition check (resource : LimitResource) (observed limit : N) : Result unit PoolerError :=
  if limit <? observed then Err (PLimitExceeded resource limit observed) else Ok tt.

Definition check_request_body (l : RouteLimits) (observed : N) :=
  check RequestBody observed (max_request_body_bytes l).
Definition check_response_body (l : RouteLimits) (observed : N) :=
  check ResponseBody observed (max_response_body_bytes l).
Definition check_frame (l : RouteLimits) (observed : N) := check Frame observed (max_frame_bytes l).
Definition check_event (l : RouteLimits) (observed : N) := check Event observed (max_event_bytes l).
Definition check_headers (l : RouteLimits) (count bytes : N) : Result unit PoolerError :=
  let? _ := check HeaderCount count (max_header_count l) in
  check HeaderBytes bytes (max_header_bytes l).
Definition check_bootstrap (l : RouteLimits) (bytes events : N) : Result unit PoolerError :=
  let? _ := check BootstrapBytes bytes (max_bootstrap_bytes l) in
  check BootstrapEvents events (max_bootstrap_events l).
Definition check_queue (l : RouteLimits) (bytes items : N) : Result unit PoolerError :=
  let? _ := check QueueBytes bytes (max_queue_bytes l) in
  check QueueItems items (max_queue_items l).

(** * mode.rs *)

Inductive BodyMode := Opaque_ | Inspect | Patch | Semantic.
Definition is_semantic (m : BodyMode) : bool := match m with Semantic => true | _ => false end.
Definition preserves_original (m : BodyMode) : bool :=
  match m with Opaque_ | Inspect => true | _ => false end.
Definition can_patch (m : BodyMode) : bool := match m with Patch => true | _ => false end.

Inductive LossPolicy := Reject | Preserve | Degrade.
Definition rejects_unsupported (p : LossPolicy) : bool := match p with Reject => true | _ => false end.
Definition preserves_extensions (p : LossPolicy) : bool := match p with Preserve => true | _ => false end.
Definition allows_degradation (p : LossPolicy) : bool := match p with Degrade => true | _ => false end.

(** * Properties *)

Lemma check_ok r o l : check r o l = Ok tt <-> o <= l.
Proof. unfold check. destruct (N.ltb_spec l o); split; try done; lia. Qed.

Lemma first_zero_spec l :
  match first_zero l with
  | Some r => exists p q, l = p ++ (0, r) :: q /\ Forall (fun x => 0 < x.1) p
  | None => Forall (fun x => 0 < x.1) l
  end.
Proof.
  induction l as [|[v r] l IH]; simpl; [constructor|].
  destruct (N.eqb_spec v 0) as [->|Hv].
  - exists [], l. by split; [|constructor].
  - destruct (first_zero l) as [r'|].
    + destruct IH as (p & q & -> & Hp). exists ((v, r) :: p), q.
      split; [done|]. constructor; [simpl; lia|done].
    + constructor; [simpl; lia|done].
Qed.

(** Route limits validate exactly when every bound is positive and no
    configured timeout is zero, the default limits among them, and the first
    zero bound in declaration order is the one reported. *)
Theorem limits_validate_correct l :
  (limits_validate l = Ok tt <->
     Forall (fun x => 0 < x.1) (limit_resources l) /\
     request_timeout l <> Some 0 /\ connect_timeout l <> Some 0) /\
  limits_validate route_limits_default = Ok tt /\
  (forall r, limits_validate l = Err (LimitZero r) <->
     exists p q, limit_resources l = p ++ (0, r) :: q /\ Forall (fun x => 0 < x.1) p).
Proof.
  assert (Hz : forall o : option N, is_some_and o is_zero = true <-> o = Some 0).
  { intros [d|]; simpl; [|done]. unfold is_zero. rewrite N.eqb_eq. by split; [intros ->|intros [=]]. }
  unfold limits_validate. pose proof (first_zero_spec (limit_resources l)) as Hfz.
  split; [|split; [reflexivity|]].
  - destruct (first_zero (limit_resources l)) as [r|].
    + destruct Hfz as (p & q & Heq & _). split; [done|]. intros [Hall _].
      rewrite Heq, Forall_app, Forall_cons in Hall. simpl in Hall. lia.
    + pose proof (Hz (request_timeout l)) as H1. pose proof (Hz (connect_timeout l)) as H2.
      destruct (is_some_and (request_timeout l) is_zero), (is_some_and (connect_timeout l) is_zero);
        intuition congruence.
  - intros r. split.
    + destruct (first_zero (limit_resources l)) as [r'|]; [by intros [= <-]|].
      by destruct (is_some_and (request_timeout l) is_zero), (is_some_and (connect_timeout l) is_zero).
    + intros (p & q & Heq & Hp). rewrite Heq. clear -Hp.
      assert (first_zero (p ++ (0, r) :: q) = Some r) as ->; [|done].
      induction Hp as [|[v r'] p Hv _ IH]; simpl; [done|]. simpl in Hv.
      destruct (N.eqb_spec v 0); [lia|done].
Qed.
