(* ===== verification/Classify.v ===== *)
(** Failure classification (crates/pooler-policy/src/lib.rs, "Classification"):
    observations, classifications and the provider classifier. *)
From S2P Require Import Prelude Str Time CoreError.

Open Scope N_scope.

Inductive FailureSource := SrcDownstream | SrcUpstream | SrcTransport | SrcInternal.

Record ObservedFailure := MkObservedFailure {
  of_source : FailureSource;
  of_status : option N;
  of_provider_code : option string;
  of_message : option string;
  of_retry_after : option Duration;
}.

Definition observed_failure_new (source : FailureSource) (status : option N) : ObservedFailure :=
  MkObservedFailure source status None None None.
Definition of_with_provider_code (f : ObservedFailure) (code : string) : ObservedFailure :=
  MkObservedFailure (of_source f) (of_status f) (Some code) (of_message f) (of_retry_after f).
Definition of_with_message (f : ObservedFailure) (m : string) : ObservedFailure :=
  MkObservedFailure (of_source f) (of_status f) (of_provider_code f) (Some m) (of_retry_after f).
Definition of_with_retry_after (f : ObservedFailure) (d : Duration) : ObservedFailure :=
  MkObservedFailure (of_source f) (of_status f) (of_provider_code f) (of_message f) (Some d).

Record PublicResponse := MkPublicResponse {
  pr_status : N; pr_code : string; pr_message : string;
}.

Record RedactedEvidence := MkRedactedEvidence {
  re_status : option N; re_provider_code : option string; re_summary : option string;
}.
Definition redacted_evidence_default : RedactedEvidence := MkRedactedEvidence None None None.

Inductive CredentialCausation := CausationUnknown | CausationProven.

Inductive CooldownScopeKind :=
| KCredential | KCredentialModel | KModel | KProvider | KProviderModel | KRoute.

#[export] Instance CredentialCausation_eq_dec : EqDecision CredentialCausation.
Proof. solve_decision. Defined.
#[export] Instance CooldownScopeKind_eq_dec : EqDecision CooldownScopeKind.
Proof. solve_decision. Defined.

Record CooldownSpec := MkCooldownSpec { cs_scope : CooldownScopeKind; cs_duration : Duration }.

Definition cooldown_credential := MkCooldownSpec KCredential.
Definition cooldown_credential_model := MkCooldownSpec KCredentialModel.
Definition cooldown_model := MkCooldownSpec KModel.
Definition cooldown_provider := MkCooldownSpec KProvider.
Definition cooldown_provider_model := MkCooldownSpec KProviderModel.
Definition cooldown_route := MkCooldownSpec KRoute.

Record FailureClassification := MkFailureClassification {
  fc_classification : ErrorClassification;
  fc_response : PublicResponse;
  fc_evidence : RedactedEvidence;
  fc_cooldown : option CooldownSpec;
  fc_causation : CredentialCausation;
}.

Definition failure_classification_new (c : ErrorClassification) (r : PublicResponse)
    (e : RedactedEvidence) : FailureClassification :=
  MkFailureClassification c r e None CausationUnknown.

Definition for_class (class : ErrorClass) : FailureClassification :=
  let '(scope, retryability, replay_safety, response) :=
    match class with
    | DownstreamAuthentication =>
      (ScopeDownstream, Never, NotReplayable,
       MkPublicResponse 401 "downstream_authentication" "downstream authentication failed")
    | InvalidRequest =>
      (ScopeDownstream, Never, NotReplayable,
       MkPublicResponse 400 "invalid_request" "the downstream request is invalid")
    | UnsupportedConversion =>
      (ScopeRoute, Never, NotReplayable,
       MkPublicResponse 422 "unsupported_conversion" "the requested conversion is unsupported")
    | ProviderAuthentication =>
      (ScopeCredential, BeforeCommit, Replayable,
       MkPublicResponse 401 "provider_authentication" "provider authentication failed")
    | CredentialQuotaExhausted =>
      (ScopeCredential, BeforeCommit, Replayable,
       MkPublicResponse 429 "credential_quota_exhausted" "credential quota is exhausted")
    | ModelQuotaExhausted =>
      (ScopeModel, BeforeCommit, Replayable,
       MkPublicResponse 429 "model_quota_exhausted" "model quota is exhausted")
    | ProviderRateLimited =>
      (ScopeProvider, BeforeCommit, Replayable,
       MkPublicResponse 429 "provider_rate_limited" "provider rate limited the request")
    | ProviderUnavailable =>
      (ScopeProvider, BeforeCommit, Replayable,
       MkPublicResponse 503 "provider_unavailable" "provider is unavailable")
    | Network | Timeout =>
      (ScopeProvider, BeforeCommit, Replayable,
       MkPublicResponse 503 "upstream_unavailable" "the upstream operation failed")
    | InvalidUpstreamResponse =>
      (ScopeProvider, Never, NotReplayable,
       MkPublicResponse 502 "invalid_upstream_response" "upstream response was invalid")
    | IncompleteStream =>
      (ScopeProvider, BeforeCommit, Replayable,
       MkPublicResponse 502 "incomplete_upstream_stream" "upstream stream ended unexpectedly")
    | InternalInvariant =>
      (ScopeInternal, Never, NotReplayable,
       MkPublicResponse 500 "internal_invariant" "an internal invariant failed")
    | DownstreamDisconnected =>
      (ScopeDownstream, Never, NotReplayable,
       MkPublicResponse 499 "downstream_disconnected" "downstream client disconnected")
    end in
  failure_classification_new
    (error_classification_new class scope retryability replay_safety) response
    redacted_evidence_default.

Definition fc_with_recovery_after (f : FailureClassification) (d : Duration) : FailureClassification :=
  MkFailureClassification (ec_with_recovery_after (fc_classification f) d)
    (fc_response f) (fc_evidence f) (fc_cooldown f) (fc_causation f).
Definition fc_with_cooldown (f : FailureClassification) (s : CooldownSpec) : FailureClassification :=
  MkFailureClassification (fc_classification f) (fc_response f) (fc_evidence f)
    (Some s) (fc_causation f).
Definition fc_with_causation (f : FailureClassification) (c : CredentialCausation)
  : FailureClassification :=
  MkFailureClassification (fc_classification f) (fc_response f) (fc_evidence f) (fc_cooldown f) c.
Definition fc_with_evidence (f : FailureClassification) (e : RedactedEvidence)
  : FailureClassification :=
  MkFailureClassification (fc_classification f) (fc_response f) e (fc_cooldown f) (fc_causation f).

Definition is_request_invalid (f : FailureClassification) : bool :=
  match ec_class (fc_classification f) with
  | InvalidRequest | UnsupportedConversion => true
  | _ => false
  end.

(** [provider_hint]: the lower-cased code and message, separated by a space. *)
Definition provider_hint (f : ObservedFailure) : string :=
  let hint := match of_provider_code f with
              | Some code => to_ascii_lowercase code | None => ""%string end in
  match of_message f with
  | Some m => ((if str_is_empty hint then hint else hint +:+ " ") +:+ to_ascii_lowercase m)%string
  | None => hint
  end.

Definition has_any (value : string) (needles : list string) : bool :=
  existsb (str_contains value) needles.

Definition INVALID_HINTS : list string :=
  ["invalid_request"; "invalid_argument"; "bad_request"; "malformed"; "validation_error"]%string.
Definition QUOTA_HINTS : list string :=
  ["insufficient_quota"; "quota_exceeded"; "billing_hard_limit"; "resource_exhausted"; "quota";
   "daily_limit"; "monthly_limit"; "credit_exhausted"]%string.
Definition MODEL_QUOTA_HINTS : list string :=
  ["model_quota"; "model_limit"; "model_capacity"]%string.
Definition AUTH_HINTS : list string :=
  ["invalid_api_key"; "invalid_auth"; "authentication"; "unauthorized"]%string.
Definition RATE_HINTS : list string :=
  ["rate_limit"; "too_many_requests"; "throttl"; "overload"; "temporarily_unavailable"]%string.

Definition status_is (o : option N) (p : N -> bool) : bool := is_some_and o p.
Definition is_401_or_403 (s : N) : bool := (s =? 401) || (s =? 403).

Definition classify_upstream_class (f : ObservedFailure) : ErrorClass :=
  let hint := provider_hint f in
  if has_any hint INVALID_HINTS then InvalidRequest
  else if has_any hint QUOTA_HINTS then
    if has_any hint MODEL_QUOTA_HINTS then ModelQuotaExhausted else CredentialQuotaExhausted
  else if has_any hint AUTH_HINTS
       || (status_is (of_status f) is_401_or_403
           && negb (has_any hint ["invalid_request"; "invalid_argument"]%string))
  then ProviderAuthentication
  else if status_is (of_status f) (N.eqb 429) || has_any hint RATE_HINTS
  then ProviderRateLimited
  else match of_status f with
       | Some s =>
         if (s =? 408) || ((500 <=? s) && (s <=? 599)) then ProviderUnavailable
         else if (400 <=? s) && (s <=? 499) then InvalidRequest
         else InvalidUpstreamResponse
       | None => InvalidUpstreamResponse
       end.

Definition DEFAULT_PROVIDER_AUTH_RECOVERY : Duration := from_secs 30.
Definition DEFAULT_QUOTA_RECOVERY : Duration := from_secs 60.
Definition DEFAULT_RATE_LIMIT_RECOVERY : Duration := from_secs 1.
Definition DEFAULT_PROVIDER_UNAVAILABLE_RECOVERY : Duration := from_secs 1.

Definition default_recovery_for (class : ErrorClass) : Duration :=
  match class with
  | ProviderAuthentication => DEFAULT_PROVIDER_AUTH_RECOVERY
  | CredentialQuotaExhausted | ModelQuotaExhausted => DEFAULT_QUOTA_RECOVERY
  | ProviderRateLimited => DEFAULT_RATE_LIMIT_RECOVERY
  | ProviderUnavailable => DEFAULT_PROVIDER_UNAVAILABLE_RECOVERY
  | _ => DURATION_ZERO
  end.

Definition allows_recovery_hint (class : ErrorClass) : bool :=
  match class with
  | ProviderAuthentication | CredentialQuotaExhausted | ModelQuotaExhausted
  | ProviderRateLimited | ProviderUnavailable => true
  | _ => false
  end.

Definition cooldown_scope_for (class : ErrorClass) : option CooldownScopeKind :=
  match class with
  | ProviderAuthentication | CredentialQuotaExhausted => Some KCredential
  | ModelQuotaExhausted => Some KModel
  | ProviderRateLimited | ProviderUnavailable => Some KProvider
  | _ => None
  end.

Definition observed_class (f : ObservedFailure) : ErrorClass :=
  match of_source f with
  | SrcDownstream =>
    if status_is (of_status f) is_401_or_403 then DownstreamAuthentication else InvalidRequest
  | SrcTransport => Network
  | SrcInternal => InternalInvariant
  | SrcUpstream => classify_upstream_class f
  end.

Definition classify_provider_failure (f : ObservedFailure) : FailureClassification :=
  let class := observed_class f in
  let result := fc_with_evidence (for_class class)
    (MkRedactedEvidence (of_status f) (of_provider_code f) (of_message f)) in
  let recovery := default (default_recovery_for class) (of_retry_after f) in
  if (0 <? recovery) && allows_recovery_hint class then
    let result := fc_with_recovery_after result recovery in
    match cooldown_scope_for class with
    | Some scope => fc_with_cooldown result (MkCooldownSpec scope recovery)
    | None => result
    end
  else result.

(** * Properties *)

(** The abstract owner a cooldown kind charges, as an error scope. *)
Definition kind_scope (k : CooldownScopeKind) : ErrorScope :=
  match k with
  | KCredential | KCredentialModel => ScopeCredential
  | KModel => ScopeModel
  | KProvider | KProviderModel => ScopeProvider
  | KRoute => ScopeRoute
  end.

Lemma classify_class f : ec_class (fc_classification (classify_provider_failure f)) = observed_class f.
Proof.
  unfold classify_provider_failure. destruct (_ && _); [destruct (cooldown_scope_for _)|];
    simpl; by destruct (observed_class f).
Qed.

(** What the provider classifier may ask for: a cooldown carries a positive
    duration that is also the recovery hint, charges the scope the failure is
    attributed to, and is asked only of a failure that may be retried before
    commitment; a request-local failure (malformed request, unsupported
    conversion, downstream authentication, internal fault) never asks for one and
    is never retryable; the response, class and evidence are those of the
    observation. *)
Theorem classify_cooldown_sound f :
  let r := classify_provider_failure f in
  (forall s, fc_cooldown r = Some s ->
     0 < cs_duration s /\
     ec_recovery_after (fc_classification r) = Some (cs_duration s) /\
     kind_scope (cs_scope s) = ec_scope (fc_classification r) /\
     can_retry_before_commit (fc_classification r) = true /\
     of_source f = SrcUpstream) /\
  (can_retry_before_commit (fc_classification r) = false ->
     fc_cooldown r = None /\ ec_recovery_after (fc_classification r) = None) /\
  (is_request_invalid r = true -> can_retry_before_commit (fc_classification r) = false) /\
  fc_evidence r = MkRedactedEvidence (of_status f) (of_provider_code f) (of_message f) /\
  fc_response r = fc_response (for_class (observed_class f)).
Proof.
  simpl. unfold is_request_invalid. rewrite classify_class.
  assert (Hsrc : forall c, observed_class f = c -> allows_recovery_hint c = true ->
    of_source f = SrcUpstream).
  { intros c <-. unfold observed_class. destruct (of_source f); [|done..].
    by destruct (status_is _ _). }
  specialize (Hsrc _ eq_refl).
  unfold classify_provider_failure.
  set (d := default _ _). destruct (0 <? d) eqn:Hd; simpl.
  - apply N.ltb_lt in Hd.
    destruct (observed_class f); simpl in *; repeat split; intros; simplify_eq; auto; done.
  - destruct (observed_class f); simpl in *; repeat split; intros; simplify_eq; auto; done.
Qed.

Lemma classify_cooldown_sound_witness :
  let f := of_with_retry_after
    (of_with_provider_code (observed_failure_new SrcUpstream (Some 429)) "model_quota") (from_secs 9) in
  fc_cooldown (classify_provider_failure f) = Some (MkCooldownSpec KModel (from_secs 9)) /\
  kind_scope KModel = ec_scope (fc_classification (classify_provider_failure f)).
Proof.
  intros f. split; [vm_compute; reflexivity|].
  apply (proj1 (classify_cooldown_sound f) (MkCooldownSpec KModel (from_secs 9))).
  vm_compute. reflexivity.
Defined.
