(* ===== verification/Retry.v ===== *)
(** Retry policy (crates/pooler-policy/src/lib.rs, "Retry", and what the
    request loop of crates/pooler-http/src/proxy.rs does with its decisions). *)
From S2P Require Import Prelude Time CoreError Classify.

Open Scope N_scope.

(** * Commitment *)

Inductive CommitmentState := Uncommitted | HeadersSent | Committed.

#[export] Instance CommitmentState_eq_dec : EqDecision CommitmentState.
Proof. solve_decision. Defined.

Definition is_committed (s : CommitmentState) : bool :=
  match s with Uncommitted => false | _ => true end.

(** The operations of [Commitment]. *)
Definition mark_headers_sent (s : CommitmentState) : CommitmentState :=
  match s with Uncommitted => HeadersSent | _ => s end.
Definition mark_committed (s : CommitmentState) : CommitmentState := Committed.

(** * Replay checks and retry contexts *)

Record ReplayCheck := MkReplayCheck {
  body_replayable : bool;
  operation_replayable : bool;
  no_nonrepeatable_side_effect : bool;
  session_allows_replay : bool;
}.

Definition replay_safe : ReplayCheck := MkReplayCheck true true true true.

Definition idempotent_method (method : string) : bool :=
  existsb (String.eqb method) ["GET"; "HEAD"; "OPTIONS"; "PUT"; "DELETE"; "TRACE"]%string.

Definition for_http_method (method : string) (idempotency_key_present : bool) : ReplayCheck :=
  MkReplayCheck true (idempotent_method method || idempotency_key_present) true true.

Definition is_safe (r : ReplayCheck) : bool :=
  body_replayable r && operation_replayable r && no_nonrepeatable_side_effect r
  && session_allows_replay r.

Inductive RetryTargetChange := SameTarget | DifferentCredential | DifferentProvider.

(** [RetryTargetChange::avoids]. *)
Definition avoids (t : RetryTargetChange) (s : ErrorScope) : bool :=
  match t, s with
  | (DifferentCredential | DifferentProvider), ScopeCredential => true
  | DifferentProvider, ScopeProvider => true
  | _, _ => false
  end.

Record RetryContext := MkRetryContext {
  rc_attempt : N;
  rc_commitment : CommitmentState;
  rc_replay : ReplayCheck;
  rc_elapsed_retry_delay : Duration;
  rc_elapsed : Duration;
  rc_credentials_used : N;
  rc_providers_used : N;
  rc_elapsed_recovery_wait : Duration;
  rc_idempotency_key_present : bool;
  rc_target_change : RetryTargetChange;
}.

Definition retry_context_new (attempt : N) (c : CommitmentState) (r : ReplayCheck) : RetryContext :=
  MkRetryContext attempt c r 0 0 1 1 0 false SameTarget.

Definition with_target_change (c : RetryContext) (t : RetryTargetChange) : RetryContext :=
  MkRetryContext (rc_attempt c) (rc_commitment c) (rc_replay c) (rc_elapsed_retry_delay c)
    (rc_elapsed c) (rc_credentials_used c) (rc_providers_used c)
    (rc_elapsed_recovery_wait c) (rc_idempotency_key_present c) t.

Inductive RetryStopReason :=
| DownstreamCommitted | NotReplaySafe | ClassificationNotRetryable | StopRequiresIdempotencyKey
| AttemptsExhausted | CredentialsExhausted | ProvidersExhausted | RecoveryWaitExhausted
| RetryBudgetExhausted | NoAlternateTarget.

Inductive RetryReason := ReplaySafeBeforeCommit | AlternateCredential | AlternateProvider.

Inductive RetryDecision :=
| Retry (delay retry_delay recovery_wait : Duration) (reason : RetryReason)
| DoNotRetry (reason : RetryStopReason).

Definition is_retry (d : RetryDecision) : bool :=
  match d with Retry _ _ _ _ => true | DoNotRetry _ => false end.
Definition decision_delay (d : RetryDecision) : Duration :=
  match d with Retry x _ _ _ => x | DoNotRetry _ => 0 end.
Definition decision_retry_delay (d : RetryDecision) : Duration :=
  match d with Retry _ x _ _ => x | DoNotRetry _ => 0 end.
Definition decision_recovery_wait (d : RetryDecision) : Duration :=
  match d with Retry _ _ x _ => x | DoNotRetry _ => 0 end.

(** * The policy *)

Record RetryPolicy := MkRetryPolicy {
  max_attempts : N;
  max_credentials : N;
  max_providers : N;
  base_delay : Duration;
  max_delay : Duration;
  max_total_delay : Duration;
  max_elapsed : option Duration;
  max_recovery_wait : Duration;
}.

Inductive PolicyError := InvalidRetryBudget.

Definition retry_policy_default : RetryPolicy := {|
  max_attempts := 2; max_credentials := 2; max_providers := 2;
  base_delay := from_millis 100; max_delay := from_secs 30;
  max_total_delay := from_secs 60; max_elapsed := Some (from_secs 60);
  max_recovery_wait := from_secs 60;
|}.

Definition retry_policy_new (attempts : N) (base max total : Duration)
  : Result RetryPolicy PolicyError :=
  if (attempts =? 0) || (max <? base) then Err InvalidRetryBudget
  else Ok (MkRetryPolicy attempts attempts attempts base max total (Some total) total).

Definition retry_policy_with_bounds (attempts credentials providers : N)
    (base max total recovery : Duration) : Result RetryPolicy PolicyError :=
  if (attempts =? 0) || (credentials =? 0) || (providers =? 0) || (max <? base)
  then Err InvalidRetryBudget
  else Ok (MkRetryPolicy attempts credentials providers base max total (Some total) recovery).

Definition with_max_elapsed (p : RetryPolicy) (e : option Duration) : RetryPolicy :=
  MkRetryPolicy (max_attempts p) (max_credentials p) (max_providers p) (base_delay p)
    (max_delay p) (max_total_delay p) e (max_recovery_wait p).

(** [delay_components]: [1_u32 << attempt.saturating_sub(1).min(31)] times the base. *)
Definition delay_components (p : RetryPolicy) (f : FailureClassification) (attempt : N)
    (avoids_failed_scope : bool) : Duration * Duration :=
  if avoids_failed_scope then (0, 0)
  else
    let multiplier := N.shiftl 1 (N.min (sat_sub attempt 1) 31) in
    let retry_delay := N.min (dur_mul (base_delay p) multiplier) (max_delay p) in
    let recovery_wait := default 0 (ec_recovery_after (fc_classification f)) in
    (retry_delay, recovery_wait).

Definition retry_reason (t : RetryTargetChange) : RetryReason :=
  match t with
  | SameTarget => ReplaySafeBeforeCommit
  | DifferentCredential => AlternateCredential
  | DifferentProvider => AlternateProvider
  end.

Definition retry_decide (p : RetryPolicy) (f : FailureClassification) (c : RetryContext)
  : RetryDecision :=
  let ec := fc_classification f in
  if is_committed (rc_commitment c) then DoNotRetry DownstreamCommitted
  else if is_some_and (max_elapsed p) (fun limit => limit <? rc_elapsed c)
  then DoNotRetry RetryBudgetExhausted
  else if negb (beq (ec_retryability ec) BeforeCommit) || beq (ec_replay_safety ec) NotReplayable
  then DoNotRetry ClassificationNotRetryable
  else if negb (is_safe (rc_replay c)) then DoNotRetry NotReplaySafe
  else if beq (ec_replay_safety ec) RequiresIdempotencyKey && negb (rc_idempotency_key_present c)
  then DoNotRetry StopRequiresIdempotencyKey
  else if (rc_attempt c =? 0) || (max_attempts p <=? rc_attempt c)
  then DoNotRetry AttemptsExhausted
  else if beq (ec_scope ec) ScopeCredential && (max_credentials p <=? rc_credentials_used c)
  then DoNotRetry CredentialsExhausted
  else if beq (ec_scope ec) ScopeProvider && (max_providers p <=? rc_providers_used c)
  then DoNotRetry ProvidersExhausted
  else
    let '(retry_delay, recovery_wait) :=
      delay_components p f (rc_attempt c) (avoids (rc_target_change c) (ec_scope ec)) in
    let delay := N.max retry_delay recovery_wait in
    if is_some_and (max_elapsed p) (fun limit => limit <? dur_add (rc_elapsed c) delay)
    then DoNotRetry RetryBudgetExhausted
    else if max_recovery_wait p <? dur_add (rc_elapsed_recovery_wait c) recovery_wait
    then DoNotRetry RecoveryWaitExhausted
    else if max_total_delay p <? dur_add (rc_elapsed_retry_delay c) retry_delay
    then DoNotRetry RetryBudgetExhausted
    else Retry delay retry_delay recovery_wait (retry_reason (rc_target_change c)).

Definition should_retry (p : RetryPolicy) (f : FailureClassification) (c : RetryContext) : bool :=
  is_retry (retry_decide p f c).

(** ** What the executor does with a decision

    [wait_for_policy_retry]: the two waits that are charged when the wait is over; [None] is
    the timeout of a wait that does not fit or is cancelled. *)
Definition wait_for_policy_retry (d : RetryDecision) (remaining : Duration) (cancelled : bool)
    (waits : Duration * Duration) : option (Duration * Duration) :=
  if remaining <? decision_delay d then None
  else if cancelled then None
  else Some (dur_add waits.1 (decision_retry_delay d), dur_add waits.2 (decision_recovery_wait d)).

(** [attempt = attempt.saturating_add(1)] of the request loop. *)
Definition next_attempt (attempt : N) : N := sat_add U32_MAX attempt 1.

(** Another attempt without a failure to classify, under a policy. *)
Definition additional_attempt_allowed (p : RetryPolicy) (attempt : N) (now deadline : Instant) : bool :=
  (now <? deadline)%Z && (attempt <? max_attempts p).

(** The policy that decides about an account that must log in again: an attempt that was not
    sent does not count. *)
Definition reauth_policy (p : RetryPolicy) (outbound_attempt_consumed : bool) : RetryPolicy :=
  if outbound_attempt_consumed then p
  else MkRetryPolicy (sat_add U32_MAX (max_attempts p) 1) (max_credentials p) (max_providers p) (base_delay p)
         (max_delay p) (max_total_delay p) (max_elapsed p) (max_recovery_wait p).

(** * Properties *)

(** The conditions under which the policy allows a retry, without the order of
    the checks. *)
Definition retry_allowed (p : RetryPolicy) (f : FailureClassification) (c : RetryContext)
    (retry_delay recovery_wait : Duration) : Prop :=
  let ec := fc_classification f in
  rc_commitment c = Uncommitted /\
  can_retry_before_commit ec = true /\
  is_safe (rc_replay c) = true /\
  (ec_replay_safety ec = RequiresIdempotencyKey -> rc_idempotency_key_present c = true) /\
  1 <= rc_attempt c < max_attempts p /\
  (ec_scope ec = ScopeCredential -> rc_credentials_used c < max_credentials p) /\
  (ec_scope ec = ScopeProvider -> rc_providers_used c < max_providers p) /\
  (retry_delay, recovery_wait) =
    delay_components p f (rc_attempt c) (avoids (rc_target_change c) (ec_scope ec)) /\
  (forall limit, max_elapsed p = Some limit ->
     rc_elapsed c <= limit /\ dur_add (rc_elapsed c) (N.max retry_delay recovery_wait) <= limit) /\
  dur_add (rc_elapsed_recovery_wait c) recovery_wait <= max_recovery_wait p /\
  dur_add (rc_elapsed_retry_delay c) retry_delay <= max_total_delay p.

Lemma if_stop (b : bool) r k x y z w :
  (if b then DoNotRetry r else k) = Retry x y z w <-> b = false /\ k = Retry x y z w.
Proof. destruct b; [|tauto]. split; [done|by intros [? _]]. Qed.

Lemma some_above (o : option Duration) (x : Duration) :
  is_some_and o (fun limit => limit <? x) = false <-> (forall l, o = Some l -> x <= l).
Proof.
  destruct o as [l|]; simpl; [|split; [done|done]].
  rewrite N.ltb_ge. split; [by intros ? ? [= <-]|]. intros H. by apply H.
Qed.

Lemma retry_decide_spec p f c delay rd rw r :
  retry_decide p f c = Retry delay rd rw r <->
  retry_allowed p f c rd rw /\ delay = N.max rd rw /\ r = retry_reason (rc_target_change c).
Proof.
  unfold retry_decide, retry_allowed. rewrite !if_stop, !some_above.
  rewrite orb_false_iff, negb_false_iff, negb_false_iff, bool_decide_eq_true, bool_decide_eq_false.
  rewrite !andb_false_iff, !bool_decide_eq_false, negb_false_iff, orb_false_iff.
  rewrite N.eqb_neq, !N.leb_gt.
  unfold can_retry_before_commit.
  rewrite andb_true_iff, negb_true_iff, bool_decide_eq_true, bool_decide_eq_false.
  destruct (delay_components p f (rc_attempt c) _) as [a b].
  rewrite !if_stop, some_above, !N.ltb_ge.
  assert (Hcm : is_committed (rc_commitment c) = false <-> rc_commitment c = Uncommitted)
    by (by destruct (rc_commitment c)).
  rewrite Hcm.
  assert (Hscope : forall (s s' : ErrorScope) (P : Prop), (s <> s' \/ P) <-> (s = s' -> P)).
  { intros s s' P. destruct (decide (s = s')); tauto. }
  assert (Hkey : forall (s s' : ReplaySafety) (P : Prop), (s <> s' \/ P) <-> (s = s' -> P)).
  { intros s s' P. destruct (decide (s = s')); tauto. }
  rewrite !Hscope, Hkey. split.
  - intros (H1 & H2 & H3 & H4 & H5 & H6 & H7 & H8 & H9 & H10 & H11 & [= <- <- <- <-]).
    repeat split; try tauto; try lia.
    + by apply H2.
    + by apply H9.
  - intros ((H1 & H2 & H3 & H4 & H5 & H6 & H7 & [= <- <-] & H9 & H10 & H11) & -> & ->).
    repeat split; try tauto; try lia.
    + intros l Hl. by apply H9.
    + intros l Hl. by apply H9.
Qed.

(** The retry decision, in full: the policy retries exactly when nothing has
    been sent downstream, the failure and the request are replayable (with an
    idempotency key where one is required), an attempt, a credential and a
    provider are left in the budget, and neither wait overruns its budget or the
    wall-clock window; the delay is then the larger of the two waits. *)
Theorem decide_retry_iff p f c delay rd rw r :
  retry_decide p f c = Retry delay rd rw r <->
  retry_allowed p f c rd rw /\ delay = N.max rd rw /\ r = retry_reason (rc_target_change c).
Proof. apply retry_decide_spec. Qed.

(** ** Runs of one request

    The request loop of the proxy goes round again in three ways: after a failed attempt that
    was sent, when the policy says so; after a credential turned out to need a new login before
    anything was sent, when the policy says so, which does not count as an attempt; and after a
    refreshed authorization or a fall back to another transport, which does.  Everything else
    of the context (elapsed time, targets used, replay facts, commitment, target change), the
    failures and the time that is left may change freely from turn to turn. *)
Inductive Turn := TurnRetry (d : RetryDecision) | TurnReauth (d : RetryDecision) | TurnAgain.

Definition waits_of (c : RetryContext) : Duration * Duration := (rc_elapsed_retry_delay c, rc_elapsed_recovery_wait c).

Inductive turn_step (p : RetryPolicy) (c : RetryContext) : Turn -> RetryContext -> Prop :=
| step_retry f d remaining c' :
    retry_decide p f c = d -> is_retry d = true ->
    wait_for_policy_retry d remaining false (waits_of c) = Some (waits_of c') ->
    rc_attempt c' = next_attempt (rc_attempt c) -> turn_step p c (TurnRetry d) c'
| step_reauth f d remaining c' :
    retry_decide (reauth_policy p false) f c = d -> is_retry d = true ->
    wait_for_policy_retry d remaining false (waits_of c) = Some (waits_of c') ->
    rc_attempt c' = rc_attempt c -> turn_step p c (TurnReauth d) c'
| step_again now deadline c' :
    additional_attempt_allowed p (rc_attempt c) now deadline = true ->
    waits_of c' = waits_of c -> rc_attempt c' = next_attempt (rc_attempt c) -> turn_step p c TurnAgain c'.

Inductive turns (p : RetryPolicy) : RetryContext -> list Turn -> RetryContext -> Prop :=
| turns_nil c : turns p c [] c
| turns_cons c t c1 ts c2 : turn_step p c t c1 -> turns p c1 ts c2 -> turns p c (t :: ts) c2.

(** The turns that follow an attempt that was sent. *)
Definition sent (t : Turn) : bool := match t with TurnReauth _ => false | _ => true end.
Definition turn_wait (f : RetryDecision -> Duration) (t : Turn) : Duration :=
  match t with TurnRetry d | TurnReauth d => f d | TurnAgain => 0 end.
Definition total (f : RetryDecision -> Duration) (ts : list Turn) : Duration :=
  foldr (fun t acc => turn_wait f t + acc) 0 ts.

Lemma dur_add_exact a b m : dur_add a b <= m -> m < DURATION_MAX -> dur_add a b = a + b.
Proof. unfold dur_add, sat_add. lia. Qed.

Lemma retry_step p f c d :
  retry_decide p f c = d -> is_retry d = true ->
  1 <= rc_attempt c < max_attempts p /\
  dur_add (rc_elapsed_retry_delay c) (decision_retry_delay d) <= max_total_delay p /\
  dur_add (rc_elapsed_recovery_wait c) (decision_recovery_wait d) <= max_recovery_wait p.
Proof.
  intros Hd Hr. destruct d as [delay rd rw r|]; [|done].
  apply retry_decide_spec in Hd. destruct Hd as [Hd _]. unfold retry_allowed in Hd. simpl. tauto.
Qed.

Lemma charged d remaining c c' :
  wait_for_policy_retry d remaining false (waits_of c) = Some (waits_of c') ->
  rc_elapsed_retry_delay c' = dur_add (rc_elapsed_retry_delay c) (decision_retry_delay d) /\
  rc_elapsed_recovery_wait c' = dur_add (rc_elapsed_recovery_wait c) (decision_recovery_wait d).
Proof. unfold wait_for_policy_retry. destruct (_ <? _); [done|]. by intros [= -> ->]. Qed.

(** One turn: what it charges, and the attempt it uses. *)
Lemma turn_charges p c t c' :
  turn_step p c t c' -> max_attempts p <= U32_MAX -> max_total_delay p < DURATION_MAX -> max_recovery_wait p < DURATION_MAX ->
  rc_elapsed_retry_delay c <= max_total_delay p -> rc_elapsed_recovery_wait c <= max_recovery_wait p ->
  rc_elapsed_retry_delay c' = rc_elapsed_retry_delay c + turn_wait decision_retry_delay t /\
  rc_elapsed_retry_delay c' <= max_total_delay p /\
  rc_elapsed_recovery_wait c' = rc_elapsed_recovery_wait c + turn_wait decision_recovery_wait t /\
  rc_elapsed_recovery_wait c' <= max_recovery_wait p /\
  (if sent t then rc_attempt c < max_attempts p /\ rc_attempt c' = rc_attempt c + 1 else rc_attempt c' = rc_attempt c).
Proof.
  intros Hs Hu Ht Hw He1 He2. destruct Hs as [f d remaining c' Hd Hr Hc Ha|f d remaining c' Hd Hr Hc Ha|now deadline c' Hal Hc Ha]; simpl.
  - apply (retry_step p f c d Hd) in Hr as (Hatt & Hrd & Hrw). apply charged in Hc as [-> ->].
    pose proof (dur_add_exact _ _ _ Hrd Ht). pose proof (dur_add_exact _ _ _ Hrw Hw). unfold next_attempt, sat_add in Ha. lia.
  - apply (retry_step (reauth_policy p false) f c d Hd) in Hr as (_ & Hrd & Hrw). apply charged in Hc as [-> ->]. simpl in Hrd, Hrw.
    pose proof (dur_add_exact _ _ _ Hrd Ht). pose proof (dur_add_exact _ _ _ Hrw Hw). lia.
  - apply andb_true_iff in Hal as [_ Hal%N.ltb_lt]. injection Hc as -> ->. unfold next_attempt, sat_add in Ha. lia.
Qed.

(** [C3] Under a retry policy a request is sent again at most [max_attempts - attempt] times,
    whatever fails and whatever else happens between the turns of the request loop: retries the
    policy decided, refreshed authorizations and transport fallbacks all count.  A turn to
    another account before anything was sent does not count as an attempt, but its wait does:
    the waits of all turns together stay within the two budgets of the policy. *)
Theorem retries_bounded p c ts c' :
  turns p c ts c' ->
  max_attempts p <= U32_MAX ->
  max_total_delay p < DURATION_MAX -> max_recovery_wait p < DURATION_MAX ->
  rc_elapsed_retry_delay c <= max_total_delay p ->
  rc_elapsed_recovery_wait c <= max_recovery_wait p ->
  N.of_nat (length (List.filter sent ts)) <= max_attempts p - rc_attempt c /\
  rc_elapsed_retry_delay c + total decision_retry_delay ts <= max_total_delay p /\
  rc_elapsed_recovery_wait c + total decision_recovery_wait ts <= max_recovery_wait p.
Proof.
  intros Hrun Hu Ht Hw. induction Hrun as [c|c t c1 ts c2 Hstep _ IH]; intros He1 He2; simpl; [lia|].
  destruct (turn_charges p c t c1 Hstep Hu Ht Hw He1 He2) as (Hd & Hd' & Hr & Hr' & Ha).
  specialize (IH Hd' Hr'). destruct (sent t); simpl; lia.
Qed.

Definition example_failure : FailureClassification :=
  fc_with_recovery_after (for_class ProviderRateLimited) (from_secs 1).
Definition example_reauth : FailureClassification := for_class ProviderAuthentication.

(** A turn to another account, then a retry. *)
Lemma retries_bounded_witness :
  let c := with_target_change (retry_context_new 1 Uncommitted replay_safe) DifferentCredential in
  let c1 := retry_context_new 1 Uncommitted replay_safe in
  let d := Retry (from_secs 1) (from_millis 100) (from_secs 1) ReplaySafeBeforeCommit in
  let c2 := MkRetryContext 2 Uncommitted replay_safe (from_millis 100) (from_secs 1) 1 1
              (from_secs 1) false SameTarget in
  let ts := [TurnReauth (Retry 0 0 0 AlternateCredential); TurnRetry d] in
  turns retry_policy_default c ts c2 /\ N.of_nat (length (List.filter sent ts)) <= 2 - 1.
Proof.
  intros c c1 d c2 ts.
  assert (Hrun : turns retry_policy_default c ts c2).
  { apply (turns_cons _ c _ c1); [|apply (turns_cons _ c1 _ c2); [|apply turns_nil]].
    - apply (step_reauth _ c example_reauth _ (from_secs 60)); vm_compute; reflexivity.
    - apply (step_retry _ c1 example_failure _ (from_secs 60)); vm_compute; reflexivity. }
  split; [exact Hrun|].
  apply (retries_bounded retry_policy_default c ts c2 Hrun); vm_compute; congruence.
Defined.

(** The marks a streaming executor makes on its commitment. *)
Inductive Mark := MarkHeadersSent | MarkCommitted.
Definition apply_mark (s : CommitmentState) (m : Mark) : CommitmentState :=
  match m with MarkHeadersSent => mark_headers_sent s | MarkCommitted => mark_committed s end.

Lemma apply_mark_committed s m : is_committed (apply_mark s m) = true.
Proof. by destruct s, m. Qed.

Lemma marks_committed s ms :
  is_committed s = true -> is_committed (foldl apply_mark s ms) = true.
Proof.
  revert s. induction ms as [|m ms IH]; intros s Hs; simpl; [done|].
  apply IH, apply_mark_committed.
Qed.

(** Commitment is permanent: after the first header or body byte is marked
    visible, whatever further marks follow, every failure is refused a retry with
    the committed reason, under every policy. *)
Theorem committed_never_retried p f c m ms :
  rc_commitment c = foldl apply_mark Uncommitted (m :: ms) ->
  retry_decide p f c = DoNotRetry DownstreamCommitted.
Proof.
  intros Hc. unfold retry_decide. rewrite Hc. simpl.
  rewrite marks_committed; [done|]. apply apply_mark_committed.
Qed.

Lemma committed_never_retried_witness :
  retry_decide retry_policy_default example_failure
    (retry_context_new 1 HeadersSent replay_safe) = DoNotRetry DownstreamCommitted.
Proof.
  apply (committed_never_retried _ _ (retry_context_new 1 HeadersSent replay_safe)
           MarkHeadersSent []). reflexivity.
Defined.

(** Exponential backoff: unless the next target avoids the failed scope, the
    ordinary delay is the base times [2^(attempt-1)], capped by the maximum delay
    (and by 2^31 and [Duration::MAX]), so it is bounded by the maximum delay and
    grows with the attempt number; the recovery wait is the provider's hint. *)
Theorem backoff_delay p f a :
  1 <= a ->
  delay_components p f a false =
    (N.min (N.min DURATION_MAX (base_delay p * 2 ^ N.min (a - 1) 31)) (max_delay p),
     default 0 (ec_recovery_after (fc_classification f))) /\
  (delay_components p f a false).1 <= max_delay p /\
  (delay_components p f a false).1 <= (delay_components p f (a + 1) false).1 /\
  delay_components p f a true = (0, 0).
Proof.
  intros Ha. unfold delay_components, dur_mul, sat_mul, sat_sub. simpl.
  rewrite !N.shiftl_1_l. repeat split; [lia|].
  assert (2 ^ N.min (a - 1) 31 <= 2 ^ N.min (a + 1 - 1) 31) by (apply N.pow_le_mono_r; lia).
  assert (base_delay p * 2 ^ N.min (a - 1) 31 <= base_delay p * 2 ^ N.min (a + 1 - 1) 31)
    by (apply N.mul_le_mono_l; done).
  lia.
Qed.

Lemma backoff_delay_witness :
  (delay_components retry_policy_default example_failure 3 false).1
    <= (delay_components retry_policy_default example_failure (3 + 1) false).1.
Proof. apply (backoff_delay retry_policy_default example_failure 3). lia. Defined.

(** The policies the validating constructors build. *)
Definition policy_wf (p : RetryPolicy) : Prop :=
  1 <= max_attempts p /\ 1 <= max_credentials p /\ 1 <= max_providers p /\
  base_delay p <= max_delay p.

Lemma retry_policy_new_spec a b m t :
  match retry_policy_new a b m t with
  | Ok p => policy_wf p /\ max_attempts p = a /\ max_elapsed p = Some t
  | Err InvalidRetryBudget => a = 0 \/ m < b
  end.
Proof.
  unfold retry_policy_new, policy_wf.
  destruct (N.eqb_spec a 0); simpl; [auto|]. destruct (N.ltb_spec m b); simpl; [auto|].
  repeat split; lia.
Qed.

Lemma retry_policy_with_bounds_spec a c p b m t r :
  match retry_policy_with_bounds a c p b m t r with
  | Ok q => policy_wf q
  | Err InvalidRetryBudget => a = 0 \/ c = 0 \/ p = 0 \/ m < b
  end.
Proof.
  unfold retry_policy_with_bounds, policy_wf.
  destruct (N.eqb_spec a 0); simpl; [auto|]. destruct (N.eqb_spec c 0); simpl; [auto|].
  destruct (N.eqb_spec p 0); simpl; [auto|]. destruct (N.ltb_spec m b); simpl; [auto|].
  repeat split; lia.
Qed.
