(* ===== verification/Binding.v ===== *)
(** Composite identities of selection (crates/pooler-policy/src/selection.rs):
    the target/account binding key and the redacted affinity key. *)
From S2P Require Import Prelude Str CoreId.

Open Scope N_scope.

Record BindingKey := MkBindingKey {
  bk_target_id : TargetId;
  bk_account_id : CredentialId;
  bk_account_fingerprint : string;
}.

#[export] Instance BindingKey_eq_dec : EqDecision BindingKey.
Proof. solve_decision. Defined.
#[export] Instance BindingKey_countable : Countable BindingKey.
Proof.
  by refine (inj_countable'
    (fun b => (bk_target_id b, bk_account_id b, bk_account_fingerprint b))
    (fun t => MkBindingKey t.1.1 t.1.2 t.2) _); intros [].
Defined.

(** The derived lexicographic [Ord]. *)
Definition binding_cmp (a b : BindingKey) : comparison :=
  target_cmp (bk_target_id a) (bk_target_id b)
  <|> credential_cmp (bk_account_id a) (bk_account_id b)
  <|> String.compare (bk_account_fingerprint a) (bk_account_fingerprint b).

#[export] Instance ord_binding : OrdCmp binding_cmp.
Proof.
  split.
  - apply pre_then; [apply pre_then|].
    + apply (pre_key bk_target_id target_cmp), _.
    + apply (pre_key bk_account_id credential_cmp), _.
    + apply (pre_key bk_account_fingerprint String.compare), _.
  - intros [t a f] [t' a' f']. unfold binding_cmp. simpl.
    destruct (target_cmp t t') eqn:E1; simpl; try done.
    destruct (credential_cmp a a') eqn:E2; simpl; try done. intros E3.
    apply (ord_eq target_cmp) in E1. apply (ord_eq credential_cmp) in E2.
    apply (ord_eq String.compare) in E3. by subst.
Qed.

(** [Display for BindingKey]. *)
Definition binding_to_string (b : BindingKey) : string :=
  (target_str (bk_target_id b) +:+ "/" +:+ credential_str (bk_account_id b) +:+ "/"
   +:+ bk_account_fingerprint b)%string.

(** The byte [\0] that [BindingKey::legacy] separates its source with. *)
Definition NUL : string := of_bytes [0].

Section digest.
Context `{Digest}.

Definition binding_pseudonym (b : BindingKey) : string :=
  digest_label "binding" (binding_to_string b).

(** [pseudonym] of a credential identifier. *)
Definition pseudonym (value : string) : string := digest_label "cred" value.

Definition binding_legacy (account : CredentialId) (provider : ProviderId) (model : ModelId)
  : BindingKey :=
  let source := (credential_str account +:+ NUL +:+ provider_str provider +:+ NUL
                 +:+ model_str model)%string in
  MkBindingKey (MkTargetId ("legacy-" +:+ digest_label "binding" source)%string)
    account (digest_label "account" source).
End digest.

(** ** Affinity keys *)

Record AffinityKey := MkAffinityKey { affinity_str : string }.

#[export] Instance AffinityKey_eq_dec : EqDecision AffinityKey.
Proof. solve_decision. Defined.
#[export] Instance AffinityKey_countable : Countable AffinityKey.
Proof. by refine (inj_countable' affinity_str MkAffinityKey _); intros []. Defined.

Definition affinity_cmp (a b : AffinityKey) : comparison :=
  String.compare (affinity_str a) (affinity_str b).

#[export] Instance ord_affinity : OrdCmp affinity_cmp.
Proof. apply ord_newtype. intros [] []. simpl. congruence. Qed.
