(* ===== verification/Health.v ===== *)
(** Health and cooldowns (crates/pooler-policy/src/lib.rs, "Health and
    cooldowns"): scopes, subjects and the mutable registry of cooldowns. *)
From S2P Require Import Prelude Time CoreId CoreError Classify Binding.

Open Scope N_scope.

(** * Scopes and subjects *)

Inductive CooldownScope :=
| CdCredential (credential : CredentialId)
| CdCredentialModel (credential : CredentialId) (model : ModelId)
| CdBinding (binding : BindingKey)
| CdBindingModel (binding : BindingKey) (model : ModelId)
| CdModel (model : ModelId)
| CdProvider (provider : ProviderId)
| CdProviderModel (provider : ProviderId) (model : ModelId)
| CdRoute (route : RouteId).

#[export] Instance CooldownScope_eq_dec : EqDecision CooldownScope.
Proof. solve_decision. Defined.
#[export] Instance CooldownScope_countable : Countable CooldownScope.
Proof.
  refine (inj_countable'
    (fun s => match s with
     | CdCredential c => inl (inl (inl c))
     | CdCredentialModel c m => inl (inl (inr (c, m)))
     | CdBinding b => inl (inr (inl b))
     | CdBindingModel b m => inl (inr (inr (b, m)))
     | CdModel m => inr (inl (inl m))
     | CdProvider p => inr (inl (inr p))
     | CdProviderModel p m => inr (inr (inl (p, m)))
     | CdRoute r => inr (inr (inr r))
     end)
    (fun x => match x with
     | inl (inl (inl c)) => CdCredential c
     | inl (inl (inr (c, m))) => CdCredentialModel c m
     | inl (inr (inl b)) => CdBinding b
     | inl (inr (inr (b, m))) => CdBindingModel b m
     | inr (inl (inl m)) => CdModel m
     | inr (inl (inr p)) => CdProvider p
     | inr (inr (inl (p, m))) => CdProviderModel p m
     | inr (inr (inr r)) => CdRoute r
     end) _); by intros [].
Defined.

Definition scope_kind (s : CooldownScope) : CooldownScopeKind :=
  match s with
  | CdCredential _ => KCredential
  | CdCredentialModel _ _ => KCredentialModel
  | CdBinding _ => KCredential
  | CdBindingModel _ _ => KCredentialModel
  | CdModel _ => KModel
  | CdProvider _ => KProvider
  | CdProviderModel _ _ => KProviderModel
  | CdRoute _ => KRoute
  end.

Definition scope_credential (s : CooldownScope) : option CredentialId :=
  match s with
  | CdCredential id | CdCredentialModel id _ => Some id
  | CdBinding b | CdBindingModel b _ => Some (bk_account_id b)
  | _ => None
  end.

Definition scope_binding (s : CooldownScope) : option BindingKey :=
  match s with CdBinding b | CdBindingModel b _ => Some b | _ => None end.

Record HealthSubject := MkHealthSubject {
  hs_credential : option CredentialId;
  hs_model : option ModelId;
  hs_provider : option ProviderId;
  hs_route : option RouteId;
  hs_binding : option BindingKey;
}.

Definition health_subject_new (p : ProviderId) (m : ModelId) (c : CredentialId) (r : RouteId)
  : HealthSubject := MkHealthSubject (Some c) (Some m) (Some p) (Some r) None.

Definition hs_with_binding (s : HealthSubject) (b : BindingKey) : HealthSubject :=
  MkHealthSubject (Some (bk_account_id b)) (hs_model s) (hs_provider s) (hs_route s) (Some b).

Definition resolve (s : HealthSubject) (kind : CooldownScopeKind) : option CooldownScope :=
  match kind with
  | KCredential =>
    match hs_binding s with
    | None => CdCredential <$> hs_credential s
    | Some b => Some (CdBinding b)
    end
  | KCredentialModel =>
    match hs_binding s with
    | None => (fun cm => CdCredentialModel cm.1 cm.2) <$> opt_zip (hs_credential s) (hs_model s)
    | Some b => CdBindingModel b <$> hs_model s
    end
  | KModel => CdModel <$> hs_model s
  | KProvider => CdProvider <$> hs_provider s
  | KProviderModel =>
    (fun pm => CdProviderModel pm.1 pm.2) <$> opt_zip (hs_provider s) (hs_model s)
  | KRoute => CdRoute <$> hs_route s
  end.

(** * The registry *)

Inductive CredentialStatus := Healthy | CoolingDown | Disabled.

#[export] Instance CredentialStatus_eq_dec : EqDecision CredentialStatus.
Proof. solve_decision. Defined.

Inductive HealthMutationReason :=
| NoCooldownRequested | InvalidRequestCannotCooldownCredential | MissingCooldownTarget
| ZeroCooldown | CredentialDisabled | CredentialDisableNotPersisted
| CredentialGenerationChanged | CredentialUnavailable_.

Inductive HealthMutation :=
| NoChange (reason : HealthMutationReason)
| CooldownApplied (scope : CooldownScope) (until : Instant).

Definition mutation_applied (m : HealthMutation) : bool :=
  match m with CooldownApplied _ _ => true | NoChange _ => false end.

Record CredentialHealth := MkCredentialHealth {
  ch_status : CredentialStatus;
  ch_cooldown_until : option Instant;
}.

Definition credential_health_default : CredentialHealth := MkCredentialHealth Healthy None.

Record HealthRegistry := MkHealthRegistry {
  hr_cooldowns : gmap CooldownScope Instant;
  hr_credentials : gmap CredentialId CredentialHealth;
  hr_bindings : gmap BindingKey CredentialHealth;
}.

Definition health_registry_new : HealthRegistry := MkHealthRegistry ∅ ∅ ∅.

Definition set_cooling_down (h : CredentialHealth) (until : Instant) : CredentialHealth :=
  if beq (ch_status h) Disabled then h else MkCredentialHealth CoolingDown (Some until).

Definition clear_cooling_down (h : CredentialHealth) : CredentialHealth :=
  if beq (ch_status h) CoolingDown then credential_health_default else h.

(** [*map.entry(k).or_default()] passed to an update. *)
Definition upsert {K} `{Countable K} (f : CredentialHealth -> CredentialHealth) (k : K)
    (m : gmap K CredentialHealth) : gmap K CredentialHealth :=
  <[k := f (default credential_health_default (m !! k))]> m.

(** The credential or binding health that a cooldown of [scope] marks. *)
Definition mark_cooling (scope : CooldownScope) (until : Instant) (r : HealthRegistry)
  : HealthRegistry :=
  match scope with
  | CdCredential id =>
    MkHealthRegistry (hr_cooldowns r)
      (upsert (fun h => set_cooling_down h until) id (hr_credentials r)) (hr_bindings r)
  | CdBinding b | CdBindingModel b _ =>
    MkHealthRegistry (hr_cooldowns r) (hr_credentials r)
      (upsert (fun h => set_cooling_down h until) b (hr_bindings r))
  | _ => r
  end.

Definition restore_cooldown (scope : CooldownScope) (until : Instant) (r : HealthRegistry)
  : HealthRegistry :=
  let stored := match hr_cooldowns r !! scope with
                | Some old => Z.max old until | None => until end in
  mark_cooling scope until
    (MkHealthRegistry (<[scope := stored]> (hr_cooldowns r)) (hr_credentials r) (hr_bindings r)).

Definition status_is_disabled (h : option CredentialHealth) : bool :=
  is_some_and h (fun h => beq (ch_status h) Disabled).

Definition scope_disabled (r : HealthRegistry) (scope : CooldownScope) : bool :=
  match scope with
  | CdBinding b | CdBindingModel b _ => status_is_disabled (hr_bindings r !! b)
  | _ => is_some_and (scope_credential scope)
           (fun id => status_is_disabled (hr_credentials r !! id))
  end.

Definition DAY : Duration := from_secs (60 * 60 * 24).

(** [apply_failure].  The fallback deadline [now + 24h] is computed eagerly, so
    the whole call panics ([None]) when that sum is not an [Instant]. *)
Definition apply_failure (f : FailureClassification) (subject : HealthSubject) (now : Instant)
    (r : HealthRegistry) : option (HealthMutation * HealthRegistry) :=
  match fc_cooldown f with
  | None => Some (NoChange NoCooldownRequested, r)
  | Some spec =>
    if is_request_invalid f && negb (beq (fc_causation f) CausationProven)
       && (beq (cs_scope spec) KCredential || beq (cs_scope spec) KCredentialModel)
    then Some (NoChange InvalidRequestCannotCooldownCredential, r)
    else if is_zero (cs_duration spec) then Some (NoChange ZeroCooldown, r)
    else match resolve subject (cs_scope spec) with
    | None => Some (NoChange MissingCooldownTarget, r)
    | Some scope =>
      if scope_disabled r scope then Some (NoChange CredentialDisabled, r)
      else match checked_add now DAY with
      | None => None
      | Some fallback =>
        let until := default fallback (checked_add now (cs_duration spec)) in
        let until := match hr_cooldowns r !! scope with
                     | Some old => Z.max old until | None => until end in
        Some (CooldownApplied scope until,
          mark_cooling scope until
            (MkHealthRegistry (<[scope := until]> (hr_cooldowns r))
               (hr_credentials r) (hr_bindings r)))
      end
    end
  end.

Definition cooldown_until (r : HealthRegistry) (scope : CooldownScope) (now : Instant)
  : option Instant :=
  opt_filter (hr_cooldowns r !! scope) (fun until => (now <? until)%Z).

Definition is_cooling_down (r : HealthRegistry) (scope : CooldownScope) (now : Instant) : bool :=
  is_some (cooldown_until r scope now).

Definition SCOPE_KINDS : list CooldownScopeKind :=
  [KCredential; KCredentialModel; KModel; KProvider; KProviderModel; KRoute].

Definition target_cooldown_scopes (r : HealthRegistry) (subject : HealthSubject) (now : Instant)
  : list CooldownScopeKind :=
  map scope_kind
    (List.filter (fun scope => is_cooling_down r scope now)
       (omap (resolve subject) SCOPE_KINDS)).

Definition target_is_cooling_down (r : HealthRegistry) (subject : HealthSubject) (now : Instant)
  : bool := is_some (head (target_cooldown_scopes r subject now)).

Definition target_recovery_until (r : HealthRegistry) (subject : HealthSubject) (now : Instant)
  : option Instant :=
  min_Z (omap (fun scope => cooldown_until r scope now) (omap (resolve subject) SCOPE_KINDS)).

Definition target_recovery_after (r : HealthRegistry) (subject : HealthSubject) (now : Instant)
  : option Duration :=
  (fun until => duration_since until now) <$> target_recovery_until r subject now.

Definition disable_credential (id : CredentialId) (r : HealthRegistry) : HealthRegistry :=
  MkHealthRegistry (hr_cooldowns r)
    (<[id := MkCredentialHealth Disabled None]> (hr_credentials r)) (hr_bindings r).

Definition disable_binding (b : BindingKey) (r : HealthRegistry) : HealthRegistry :=
  MkHealthRegistry (hr_cooldowns r) (hr_credentials r)
    (<[b := MkCredentialHealth Disabled None]> (hr_bindings r)).

Definition reenable (h : CredentialHealth) : CredentialHealth :=
  if beq (ch_status h) Disabled then credential_health_default else h.

Definition enable_credential (id : CredentialId) (r : HealthRegistry) : HealthRegistry :=
  MkHealthRegistry (hr_cooldowns r) (upsert reenable id (hr_credentials r)) (hr_bindings r).

Definition enable_binding (b : BindingKey) (r : HealthRegistry) : HealthRegistry :=
  MkHealthRegistry (hr_cooldowns r) (hr_credentials r) (upsert reenable b (hr_bindings r)).

Definition scope_is_binding (b : BindingKey) (s : CooldownScope) : bool :=
  match s with CdBinding c | CdBindingModel c _ => beq c b | _ => false end.

Definition remove_binding (b : BindingKey) (r : HealthRegistry) : HealthRegistry :=
  MkHealthRegistry (retain (fun s _ => negb (scope_is_binding b s)) (hr_cooldowns r))
    (hr_credentials r) (delete b (hr_bindings r)).

Definition expire_scope (r : HealthRegistry) (scope : CooldownScope) : HealthRegistry :=
  let cooldowns := delete scope (hr_cooldowns r) in
  match scope with
  | CdCredential id =>
    MkHealthRegistry cooldowns (alter clear_cooling_down id (hr_credentials r)) (hr_bindings r)
  | CdBinding b | CdBindingModel b _ =>
    MkHealthRegistry cooldowns (hr_credentials r) (alter clear_cooling_down b (hr_bindings r))
  | _ => MkHealthRegistry cooldowns (hr_credentials r) (hr_bindings r)
  end.

Definition expired_scopes (r : HealthRegistry) (now : Instant) : list CooldownScope :=
  (List.filter (fun kv => (kv.2 <=? now)%Z) (map_to_list (hr_cooldowns r))).*1.

(** [clear_expired]; the order in which a hash map lists its expired scopes is
    left to [map_to_list], and no result depends on it. *)
Definition clear_expired (now : Instant) (r : HealthRegistry) : nat * HealthRegistry :=
  let expired := expired_scopes r now in
  (length expired, foldl expire_scope r expired).

(** * Properties *)

Lemma mark_cooling_cooldowns s u r : hr_cooldowns (mark_cooling s u r) = hr_cooldowns r.
Proof. by destruct s. Qed.

Lemma cooldown_until_Some r s now u :
  cooldown_until r s now = Some u <-> hr_cooldowns r !! s = Some u /\ (now < u)%Z.
Proof.
  unfold cooldown_until. destruct (hr_cooldowns r !! s) as [v|]; simpl; [|split; [done|by intros [? _]]].
  destruct (Z.ltb_spec now v); split; try done.
  - by intros [= <-].
  - by intros [[= <-] _].
  - intros [[= <-] ?]. lia.
Qed.

(** The cooldown deadline a successful [apply_failure] requests, before merging
    it with the one already recorded. *)
Definition requested_until (now : Instant) (d : Duration) : Instant :=
  default (now + Z.of_N DAY)%Z (checked_add now d).

Lemma apply_failure_cases f subject now r m r' :
  apply_failure f subject now r = Some (m, r') ->
  (exists reason, m = NoChange reason /\ r' = r) \/
  (exists spec scope,
     fc_cooldown f = Some spec /\ 0 < cs_duration spec /\
     resolve subject (cs_scope spec) = Some scope /\ scope_disabled r scope = false /\
     let until := match hr_cooldowns r !! scope with
                  | Some old => Z.max old (requested_until now (cs_duration spec))
                  | None => requested_until now (cs_duration spec) end in
     m = CooldownApplied scope until /\
     r' = mark_cooling scope until
            (MkHealthRegistry (<[scope := until]> (hr_cooldowns r))
               (hr_credentials r) (hr_bindings r))).
Proof.
  unfold apply_failure. destruct (fc_cooldown f) as [spec|] eqn:Hf; [|by intros [= <- <-]; eauto].
  destruct (_ && _ && _); [by intros [= <- <-]; eauto|].
  unfold is_zero. destruct (N.eqb_spec (cs_duration spec) 0); [by intros [= <- <-]; eauto|].
  destruct (resolve subject (cs_scope spec)) as [scope|] eqn:Hr; [|by intros [= <- <-]; eauto].
  destruct (scope_disabled r scope) eqn:Hd; [by intros [= <- <-]; eauto|].
  destruct (checked_add now DAY) as [fb|] eqn:Hfb; [|done].
  apply checked_add_Some in Hfb as ->.
  intros [= <- <-]. right. exists spec, scope. repeat split; try done. lia.
Qed.

(** Applying a classified failure never shortens a cooldown and touches at
    most one scope: either nothing changes, or exactly the scope resolved from
    the request's subject is written, with the later of the recorded and the
    requested deadline, and a disabled credential or binding is left disabled. *)
Theorem apply_failure_monotone f subject now r m r' :
  apply_failure f subject now r = Some (m, r') ->
  (forall s u, hr_cooldowns r !! s = Some u ->
     exists v, hr_cooldowns r' !! s = Some v /\ (u <= v)%Z) /\
  match m with
  | NoChange _ => r' = r
  | CooldownApplied scope until =>
    (exists spec, fc_cooldown f = Some spec /\ resolve subject (cs_scope spec) = Some scope /\
       (requested_until now (cs_duration spec) <= until)%Z) /\
    hr_cooldowns r' = <[scope := until]> (hr_cooldowns r) /\
    (forall id, status_is_disabled (hr_credentials r !! id) = true ->
       hr_credentials r' !! id = hr_credentials r !! id) /\
    (forall b, status_is_disabled (hr_bindings r !! b) = true ->
       hr_bindings r' !! b = hr_bindings r !! b)
  end.
Proof.
  intros H.
  destruct (apply_failure_cases _ _ _ _ _ _ H) as [(reason & -> & ->)|
    (spec & scope & Hf & Hpos & Hr & Hd & Hm)]; [by split; eauto with lia|].
  simpl in Hm. destruct Hm as [-> ->].
  set (until := match hr_cooldowns r !! scope with
                | Some old => Z.max old (requested_until now (cs_duration spec))
                | None => requested_until now (cs_duration spec) end).
  rewrite mark_cooling_cooldowns. simpl.
  assert (Hge : (requested_until now (cs_duration spec) <= until)%Z)
    by (unfold until; destruct (hr_cooldowns r !! scope); lia).
  split.
  { intros s u Hs. destruct (decide (s = scope)) as [->|Hne].
    - exists until. rewrite lookup_insert_eq. split; [done|]. unfold until. rewrite Hs. lia.
    - exists u. rewrite lookup_insert_ne by done. split; [done|lia]. }
  split; [eauto|]. split; [done|].
  assert (Hkeep : forall h, status_is_disabled (Some h) = true -> set_cooling_down h until = h).
  { intros h Hh. unfold set_cooling_down. simpl in Hh. by rewrite Hh. }
  split.
  - intros id Hid. destruct scope as [c| | | | | | |]; simpl; try done. unfold upsert.
    destruct (decide (c = id)) as [->|Hne]; [|by rewrite lookup_insert_ne].
    destruct (hr_credentials r !! id) as [h|] eqn:E; [|done].
    rewrite lookup_insert_eq. simpl. by rewrite Hkeep.
  - intros b Hb. destruct scope as [| |c|c m| | | |]; simpl; try done; unfold upsert;
      (destruct (decide (c = b)) as [->|Hne]; [|by rewrite lookup_insert_ne]);
      (destruct (hr_bindings r !! b) as [h|] eqn:E; [|done]);
      rewrite lookup_insert_eq; simpl; by rewrite Hkeep.
Qed.

Lemma apply_failure_monotone_witness :
  let account := MkCredentialId "work" in
  let subject := MkHealthSubject (Some account) None None None None in
  let f := fc_with_cooldown (for_class ProviderAuthentication) (cooldown_credential (from_secs 5)) in
  let r := restore_cooldown (CdCredential account) (Z.of_N (from_secs 9)) health_registry_new in
  exists v, hr_cooldowns r !! CdCredential account = Some v /\ (Z.of_N (from_secs 9) <= v)%Z.
Proof.
  intros account subject f r.
  refine (proj1 (apply_failure_monotone f subject 0%Z r
    (CooldownApplied (CdCredential account) (Z.of_N (from_secs 9))) r _) _ _ _);
    vm_compute; reflexivity.
Defined.

(** ** Invariant of the registry *)

(** A recorded credential (or binding) cooldown is backed by a scope entry that
    lasts at least as long, and no other status carries a deadline. *)
Definition health_backed (P : CooldownScope -> Prop) (cooldowns : gmap CooldownScope Instant)
    (h : CredentialHealth) : Prop :=
  match ch_status h with
  | CoolingDown => exists u s v, ch_cooldown_until h = Some u /\ P s /\
                     cooldowns !! s = Some v /\ (u <= v)%Z
  | Healthy | Disabled => ch_cooldown_until h = None
  end.

Definition health_inv (r : HealthRegistry) : Prop :=
  (forall id h, hr_credentials r !! id = Some h ->
     health_backed (fun s => s = CdCredential id) (hr_cooldowns r) h) /\
  (forall b h, hr_bindings r !! b = Some h ->
     health_backed (fun s => scope_binding s = Some b) (hr_cooldowns r) h).

Lemma health_backed_mono (P : CooldownScope -> Prop) m m' h :
  (forall s u, P s -> m !! s = Some u -> exists v, m' !! s = Some v /\ (u <= v)%Z) ->
  health_backed P m h -> health_backed P m' h.
Proof.
  unfold health_backed. destruct (ch_status h); [done| |done].
  intros Hmono (u & s & v & Hu & Hs & Hm & Hle).
  destruct (Hmono s v Hs Hm) as (w & Hw & ?). exists u, s, w. repeat split; auto. lia.
Qed.

(** Recording a deadline for [scope] and marking its owner keeps the invariant,
    as long as the recorded deadline covers the marked one. *)
Lemma mark_cooling_inv r scope stored until :
  health_inv r -> (until <= stored)%Z ->
  (forall u, hr_cooldowns r !! scope = Some u -> (u <= stored)%Z) ->
  health_inv (mark_cooling scope until
    (MkHealthRegistry (<[scope := stored]> (hr_cooldowns r)) (hr_credentials r) (hr_bindings r))).
Proof.
  intros [Hc Hb] Hle Hold.
  assert (Hmono : forall s u, hr_cooldowns r !! s = Some u ->
    exists v, <[scope := stored]> (hr_cooldowns r) !! s = Some v /\ (u <= v)%Z).
  { intros s u Hs. destruct (decide (scope = s)) as [->|Hne].
    - exists stored. rewrite lookup_insert_eq. auto.
    - exists u. rewrite lookup_insert_ne by done. split; [done|lia]. }
  assert (Hset : forall (P : CooldownScope -> Prop) h, P scope ->
    health_backed P (<[scope := stored]> (hr_cooldowns r)) h ->
    health_backed P (<[scope := stored]> (hr_cooldowns r)) (set_cooling_down h until)).
  { intros P h HP Hh. unfold set_cooling_down. case_bool_decide; [done|].
    unfold health_backed. simpl. exists until, scope, stored.
    repeat split; auto. by rewrite lookup_insert_eq. }
  split.
  - intros id h. rewrite mark_cooling_cooldowns. simpl.
    assert (Hbase : forall id h, hr_credentials r !! id = Some h -> health_backed
      (fun s => s = CdCredential id) (<[scope:=stored]> (hr_cooldowns r)) h).
    { intros i h' Hi. eapply health_backed_mono; [|by apply Hc]. eauto. }
    destruct scope as [c| | | | | | |]; simpl; try by apply Hbase.
    unfold upsert. intros Hlk. apply lookup_insert_Some in Hlk as [[-> <-]|[_ ?]]; [|by apply Hbase].
    apply Hset; [done|]. destruct (hr_credentials r !! id) eqn:E; simpl; [by apply Hbase|done].
  - intros b h. rewrite mark_cooling_cooldowns. simpl.
    assert (Hbase : forall b h, hr_bindings r !! b = Some h -> health_backed
      (fun s => scope_binding s = Some b) (<[scope:=stored]> (hr_cooldowns r)) h).
    { intros i h' Hi. eapply health_backed_mono; [|by apply Hb]. eauto. }
    destruct scope as [| |c|c m| | | |]; simpl; try (by apply Hbase);
      unfold upsert; intros Hlk;
      (apply lookup_insert_Some in Hlk as [[-> <-]|[_ ?]]; [|by apply Hbase]);
      (apply Hset; [done|]); (destruct (hr_bindings r !! b) eqn:E; simpl; [by apply Hbase|done]).
Qed.

Lemma restore_cooldown_inv s u r : health_inv r -> health_inv (restore_cooldown s u r).
Proof.
  intros H. unfold restore_cooldown. apply mark_cooling_inv; [done| |].
  - destruct (hr_cooldowns r !! s); lia.
  - intros v ->. lia.
Qed.

Lemma apply_failure_inv f subject now r m r' :
  apply_failure f subject now r = Some (m, r') -> health_inv r -> health_inv r'.
Proof.
  intros H Hinv.
  destruct (apply_failure_cases _ _ _ _ _ _ H) as [(reason & -> & ->)|
    (spec & scope & _ & _ & _ & _ & -> & ->)]; [done|].
  apply mark_cooling_inv; [done|lia|]. intros u ->. lia.
Qed.

Lemma set_health_inv r (c : gmap CredentialId CredentialHealth) (b : gmap BindingKey CredentialHealth) :
  (forall id h, c !! id = Some h -> hr_credentials r !! id = Some h \/
     (ch_status h <> CoolingDown /\ ch_cooldown_until h = None)) ->
  (forall id h, b !! id = Some h -> hr_bindings r !! id = Some h \/
     (ch_status h <> CoolingDown /\ ch_cooldown_until h = None)) ->
  health_inv r -> health_inv (MkHealthRegistry (hr_cooldowns r) c b).
Proof.
  intros H1 H2 [Hc Hb]. split; simpl.
  - intros id h Hh. destruct (H1 id h Hh) as [?|[? ?]]; [by apply Hc|].
    unfold health_backed. by destruct (ch_status h).
  - intros id h Hh. destruct (H2 id h Hh) as [?|[? ?]]; [by apply Hb|].
    unfold health_backed. by destruct (ch_status h).
Qed.

Lemma reenable_upsert {K} `{Countable K} (k k' : K) (m : gmap K CredentialHealth) h :
  upsert reenable k m !! k' = Some h ->
  m !! k' = Some h \/ (ch_status h <> CoolingDown /\ ch_cooldown_until h = None).
Proof.
  unfold upsert. intros [[-> <-]|[_ ?]]%lookup_insert_Some; [|by left].
  destruct (m !! k') as [h'|]; simpl; unfold reenable; [|by right].
  case_bool_decide; [by right|by left].
Qed.

Lemma remove_binding_inv b r : health_inv r -> health_inv (remove_binding b r).
Proof.
  intros [Hc Hb]. split; simpl.
  - intros id h Hh. eapply health_backed_mono; [|by apply Hc]. intros s u -> Hu. exists u.
    split; [|lia]. by apply lookup_retain_Some.
  - intros c h [Hne Hh]%lookup_delete_Some. eapply health_backed_mono; [|by apply Hb].
    intros s u Hs Hu. exists u. split; [|lia]. apply lookup_retain_Some. split; [done|].
    destruct s; simplify_eq/=; rewrite bool_decide_eq_false_2 by congruence; done.
Qed.

Lemma clear_cooling_down_inv P m s h :
  health_backed P m h -> health_backed P (delete s m) (clear_cooling_down h).
Proof.
  unfold clear_cooling_down, health_backed.
  destruct (ch_status h) eqn:E; case_bool_decide; try congruence; try done; by rewrite E.
Qed.

Lemma health_backed_delete (P : CooldownScope -> Prop) m s h :
  ~ P s -> health_backed P m h -> health_backed P (delete s m) h.
Proof.
  intros Hs. apply health_backed_mono. intros s' u Hs' Hu. exists u. split; [|lia].
  rewrite lookup_delete_ne; [done|]. by intros ->.
Qed.

Lemma expire_scope_inv r s : health_inv r -> health_inv (expire_scope r s).
Proof.
  intros [Hc Hb]. destruct s as [c| |b|b m| | | |]; split; simpl; intros k h Hh.
  all: try (apply health_backed_delete; [done|]; by eauto).
  1: destruct (decide (k = c)) as [->|Hne].
  3: destruct (decide (k = b)) as [->|Hne].
  5: destruct (decide (k = b)) as [->|Hne].
  all: first [rewrite lookup_alter_eq in Hh | rewrite lookup_alter_ne in Hh by done].
  all: try (apply fmap_Some in Hh as (h' & Hh' & ->); apply clear_cooling_down_inv; by eauto).
  all: apply health_backed_delete; [simpl; congruence|]; by eauto.
Qed.

Lemma clear_expired_inv now r : health_inv r -> health_inv (clear_expired now r).2.
Proof.
  unfold clear_expired. simpl. generalize (expired_scopes r now). intros l. revert r.
  induction l as [|s l IH]; intros r Hr; simpl; [done|]. by apply IH, expire_scope_inv.
Qed.

(** *** Histories *)

(** The mutating operations of [HealthRegistry]. *)
Inductive HealthOp :=
| OpRestore (scope : CooldownScope) (until : Instant)
| OpFailure (f : FailureClassification) (subject : HealthSubject) (now : Instant)
| OpDisableCredential (id : CredentialId)
| OpEnableCredential (id : CredentialId)
| OpDisableBinding (b : BindingKey)
| OpEnableBinding (b : BindingKey)
| OpRemoveBinding (b : BindingKey)
| OpClearExpired (now : Instant).

(** One operation; a step that panics has no successor. *)
Inductive health_step : HealthRegistry -> HealthOp -> HealthRegistry -> Prop :=
| hstep_restore r s u : health_step r (OpRestore s u) (restore_cooldown s u r)
| hstep_failure r f subject now m r' :
    apply_failure f subject now r = Some (m, r') -> health_step r (OpFailure f subject now) r'
| hstep_disable_credential r id : health_step r (OpDisableCredential id) (disable_credential id r)
| hstep_enable_credential r id : health_step r (OpEnableCredential id) (enable_credential id r)
| hstep_disable_binding r b : health_step r (OpDisableBinding b) (disable_binding b r)
| hstep_enable_binding r b : health_step r (OpEnableBinding b) (enable_binding b r)
| hstep_remove_binding r b : health_step r (OpRemoveBinding b) (remove_binding b r)
| hstep_clear_expired r now : health_step r (OpClearExpired now) (clear_expired now r).2.

Inductive health_steps : HealthRegistry -> list HealthOp -> HealthRegistry -> Prop :=
| hsteps_nil r : health_steps r [] r
| hsteps_cons r1 op r2 ops r3 :
    health_step r1 op r2 -> health_steps r2 ops r3 -> health_steps r1 (op :: ops) r3.

Lemma health_step_inv r op r' : health_step r op r' -> health_inv r -> health_inv r'.
Proof.
  intros [] Hr.
  - by apply restore_cooldown_inv.
  - by eapply apply_failure_inv.
  - apply set_health_inv; [|by left|done]. intros k h [[-> <-]|[_ ?]]%lookup_insert_Some; auto.
  - apply set_health_inv; [|by left|done]. intros k h. apply reenable_upsert.
  - apply set_health_inv; [by left| |done]. intros k h [[-> <-]|[_ ?]]%lookup_insert_Some; auto.
  - apply set_health_inv; [by left| |done]. intros k h. apply reenable_upsert.
  - by apply remove_binding_inv.
  - by apply clear_expired_inv.
Qed.

Lemma health_steps_inv r ops r' : health_steps r ops r' -> health_inv r -> health_inv r'.
Proof. induction 1; [done|]. eauto using health_step_inv. Qed.

(** In every registry a history of operations can reach from the empty one,
    a credential marked cooling down carries a deadline that an entry of its own
    credential scope covers, a binding marked cooling down is covered by one of
    its own binding scopes, and no healthy or disabled one carries a deadline. *)
Theorem health_reachable_inv ops r :
  health_steps health_registry_new ops r -> health_inv r.
Proof. intros H. by apply (health_steps_inv _ _ _ H). Qed.

Lemma health_reachable_inv_witness :
  health_inv (clear_expired 8 (restore_cooldown (CdCredential (MkCredentialId "work")) 7
    health_registry_new)).2.
Proof.
  apply (health_reachable_inv
    [OpRestore (CdCredential (MkCredentialId "work")) 7; OpClearExpired 8]).
  repeat econstructor.
Defined.

(** ** Disabling *)

Definition credential_disabled (r : HealthRegistry) (id : CredentialId) : bool :=
  status_is_disabled (hr_credentials r !! id).
Definition binding_disabled (r : HealthRegistry) (b : BindingKey) : bool :=
  status_is_disabled (hr_bindings r !! b).

Section disabled.
Context {K} `{Countable K} (k : K).
Implicit Type m : gmap K CredentialHealth.

Lemma disabled_upsert (f : CredentialHealth -> CredentialHealth) k' m :
  (k' = k -> forall h, ch_status h = Disabled -> ch_status (f h) = Disabled) ->
  status_is_disabled (m !! k) = true -> status_is_disabled (upsert f k' m !! k) = true.
Proof.
  intros Hf Hm. unfold upsert. destruct (decide (k' = k)) as [->|?];
    [|by rewrite lookup_insert_ne].
  rewrite lookup_insert_eq. destruct (m !! k) as [h|]; [|done]. simpl in *.
  apply bool_decide_eq_true in Hm. by apply bool_decide_eq_true, Hf.
Qed.

Lemma disabled_insert k' m :
  status_is_disabled (m !! k) = true ->
  status_is_disabled (<[k' := MkCredentialHealth Disabled None]> m !! k) = true.
Proof.
  intros Hm. destruct (decide (k' = k)) as [->|?]; [by rewrite lookup_insert_eq|].
  by rewrite lookup_insert_ne.
Qed.

Lemma disabled_alter_clear k' m :
  status_is_disabled (m !! k) = true ->
  status_is_disabled (alter clear_cooling_down k' m !! k) = true.
Proof.
  intros Hm. destruct (decide (k' = k)) as [->|?]; [|by rewrite lookup_alter_ne].
  rewrite lookup_alter_eq. destruct (m !! k) as [h|]; [|done]. simpl in *.
  by destruct h as [[] u].
Qed.
End disabled.

Lemma set_cooling_down_disabled h u :
  ch_status h = Disabled -> ch_status (set_cooling_down h u) = Disabled.
Proof. intros E. unfold set_cooling_down. by rewrite bool_decide_eq_true_2. Qed.

Lemma mark_cooling_disabled s u r c :
  let r' := mark_cooling s u (MkHealthRegistry c (hr_credentials r) (hr_bindings r)) in
  (forall id, credential_disabled r id = true -> credential_disabled r' id = true) /\
  (forall b, binding_disabled r b = true -> binding_disabled r' b = true).
Proof.
  unfold credential_disabled, binding_disabled.
  destruct s; simpl; split; intros k Hk; try done;
    apply disabled_upsert; auto using set_cooling_down_disabled.
Qed.

Lemma clear_expired_disabled now r :
  (forall id, credential_disabled r id = true -> credential_disabled (clear_expired now r).2 id = true) /\
  (forall b, binding_disabled r b = true -> binding_disabled (clear_expired now r).2 b = true).
Proof.
  unfold clear_expired. simpl. generalize (expired_scopes r now). intros l.
  assert (Hone : forall r s,
    (forall id, credential_disabled r id = true -> credential_disabled (expire_scope r s) id = true) /\
    (forall b, binding_disabled r b = true -> binding_disabled (expire_scope r s) b = true)).
  { unfold credential_disabled, binding_disabled. intros r' []; simpl; split; intros k Hk;
      try done; by apply disabled_alter_clear. }
  revert r. induction l as [|s l IH]; intros r; simpl; [done|].
  destruct (Hone r s), (IH (expire_scope r s)). split; auto.
Qed.

Definition op_enables_credential (id : CredentialId) (op : HealthOp) : bool :=
  match op with OpEnableCredential i => beq i id | _ => false end.
Definition op_enables_binding (b : BindingKey) (op : HealthOp) : bool :=
  match op with OpEnableBinding c | OpRemoveBinding c => beq c b | _ => false end.

Lemma apply_failure_disabled f subject now r m r' :
  apply_failure f subject now r = Some (m, r') ->
  (forall id, credential_disabled r id = true -> credential_disabled r' id = true) /\
  (forall b, binding_disabled r b = true -> binding_disabled r' b = true).
Proof.
  intros H. destruct (apply_failure_cases _ _ _ _ _ _ H) as [(reason & -> & ->)|
    (spec & scope & _ & _ & _ & _ & -> & ->)]; [done|]. apply mark_cooling_disabled.
Qed.

Lemma step_credential_disabled r op r' id :
  health_step r op r' -> op_enables_credential id op = false ->
  credential_disabled r id = true -> credential_disabled r' id = true.
Proof.
  intros [] Hop Hd; simpl in Hop; try exact Hd.
  - by apply mark_cooling_disabled.
  - by eapply apply_failure_disabled.
  - by apply disabled_insert.
  - apply disabled_upsert; [|done]. by apply bool_decide_eq_false in Hop.
  - by apply clear_expired_disabled.
Qed.

Lemma step_binding_disabled r op r' b :
  health_step r op r' -> op_enables_binding b op = false ->
  binding_disabled r b = true -> binding_disabled r' b = true.
Proof.
  intros [] Hop Hd; simpl in Hop; try exact Hd.
  - by apply mark_cooling_disabled.
  - by eapply apply_failure_disabled.
  - by apply disabled_insert.
  - apply disabled_upsert; [|done]. by apply bool_decide_eq_false in Hop.
  - unfold binding_disabled. simpl. apply bool_decide_eq_false in Hop. by rewrite lookup_delete_ne.
  - by apply clear_expired_disabled.
Qed.

(** Disabling is sticky: through any history that neither re-enables the
    credential nor re-enables or unregisters the binding, whatever failures,
    restored cooldowns and expiries it contains, a disabled credential stays
    disabled and so does a disabled binding. *)
Theorem disabled_until_enabled r ops r' id b :
  health_steps r ops r' ->
  (forallb (fun op => negb (op_enables_credential id op)) ops = true ->
   credential_disabled r id = true -> credential_disabled r' id = true) /\
  (forallb (fun op => negb (op_enables_binding b op)) ops = true ->
   binding_disabled r b = true -> binding_disabled r' b = true).
Proof.
  induction 1 as [|r1 op r2 ops r3 Hstep _ [IHc IHb]]; [done|]. simpl.
  split; intros [Hop Hops]%andb_true_iff Hd; apply negb_true_iff in Hop.
  - apply IHc; [done|]. by eapply step_credential_disabled.
  - apply IHb; [done|]. by eapply step_binding_disabled.
Qed.

Lemma disabled_until_enabled_witness :
  let id := MkCredentialId "work" in
  let r := disable_credential id health_registry_new in
  credential_disabled (restore_cooldown (CdCredential id) 7 r) id = true.
Proof.
  intros id r.
  refine (proj1 (disabled_until_enabled r [OpRestore (CdCredential id) 7] _ id
    (MkBindingKey (MkTargetId "t") id "") _) _ _); [repeat econstructor|reflexivity|reflexivity].
Defined.

(** ** Expiry *)

Lemma expire_scope_cooldowns r s : hr_cooldowns (expire_scope r s) = delete s (hr_cooldowns r).
Proof. by destruct s. Qed.

Lemma foldl_expire_cooldowns l r s :
  hr_cooldowns (foldl expire_scope r l) !! s =
  if bool_decide (s ∈ l) then None else hr_cooldowns r !! s.
Proof.
  revert r. induction l as [|x l IH]; intros r; cbn [foldl].
  { case_bool_decide as Hin; [|done]. by apply elem_of_nil in Hin. }
  rewrite IH, expire_scope_cooldowns. destruct (decide (s = x)) as [->|Hne].
  - rewrite lookup_delete_eq, (bool_decide_eq_true_2 (x ∈ x :: l)) by constructor.
    by case_bool_decide.
  - rewrite lookup_delete_ne by done.
    rewrite (bool_decide_ext (s ∈ x :: l) (s ∈ l)); [done|]. rewrite elem_of_cons. tauto.
Qed.

Lemma elem_of_expired r now s :
  s ∈ expired_scopes r now <-> exists u, hr_cooldowns r !! s = Some u /\ (u <= now)%Z.
Proof.
  unfold expired_scopes. rewrite list_elem_of_fmap. split.
  - intros [[s' u] [-> Hin]]. apply list_elem_of_In, filter_In in Hin as [Hin Hle].
    exists u. split; [by apply elem_of_map_to_list, list_elem_of_In|]. simpl in Hle. lia.
  - intros (u & Hs & Hle). exists (s, u). split; [done|]. apply list_elem_of_In, filter_In.
    split; [by apply list_elem_of_In, elem_of_map_to_list|]. simpl. lia.
Qed.

Lemma clear_expired_cooldowns now r :
  hr_cooldowns (clear_expired now r).2 = retain (fun _ u => (now <? u)%Z) (hr_cooldowns r).
Proof.
  apply map_eq. intros s. unfold clear_expired. simpl.
  rewrite foldl_expire_cooldowns, lookup_retain.
  destruct (hr_cooldowns r !! s) as [u|] eqn:E; simpl.
  - destruct (Z.ltb_spec now u).
    + rewrite bool_decide_eq_false_2; [done|]. rewrite elem_of_expired. intros (v & ? & ?).
      simplify_eq. lia.
    + rewrite bool_decide_eq_true_2; [done|]. apply elem_of_expired. eauto.
  - by case_bool_decide.
Qed.

Lemma length_expired r now :
  (length (expired_scopes r now) + size (retain (fun _ u => (now <? u)%Z) (hr_cooldowns r)) =
   size (hr_cooldowns r))%nat.
Proof.
  unfold expired_scopes. rewrite length_fmap.
  rewrite size_retain_filter, <- (length_map_to_list (hr_cooldowns r)).
  induction (map_to_list (hr_cooldowns r)) as [|[s u] l IH]; simpl; [done|].
  destruct (Z.leb_spec u now), (Z.ltb_spec now u); simpl; lia.
Qed.

(** Cleaning up is unobservable: it removes exactly the scopes whose deadline
    is not after [now] and reports their number, and no query made at [now] or
    later can tell the cleaned registry from the original. *)
Theorem clear_expired_unobservable now r :
  let '(removed, r') := clear_expired now r in
  hr_cooldowns r' = retain (fun _ u => (now <? u)%Z) (hr_cooldowns r) /\
  (removed + size (hr_cooldowns r') = size (hr_cooldowns r))%nat /\
  forall later, (now <= later)%Z ->
    (forall s, cooldown_until r' s later = cooldown_until r s later) /\
    (forall subject, target_cooldown_scopes r' subject later = target_cooldown_scopes r subject later /\
       target_recovery_until r' subject later = target_recovery_until r subject later).
Proof.
  destruct (clear_expired now r) as [removed r'] eqn:E.
  assert (Hc : hr_cooldowns r' = retain (fun _ u => (now <? u)%Z) (hr_cooldowns r))
    by (rewrite <- (clear_expired_cooldowns now r), E; done).
  split; [done|]. split.
  { rewrite Hc. assert (removed = length (expired_scopes r now)) as -> by
      (unfold clear_expired in E; congruence). apply length_expired. }
  intros later Hlater.
  assert (Hs : forall s, cooldown_until r' s later = cooldown_until r s later).
  { intros s. unfold cooldown_until. rewrite Hc, lookup_retain.
    destruct (hr_cooldowns r !! s) as [u|]; simpl; [|done].
    destruct (Z.ltb_spec now u); simpl; [done|]. destruct (Z.ltb_spec later u); [lia|done]. }
  split; [done|]. intros subject. split.
  - unfold target_cooldown_scopes. f_equal. apply filter_ext. intros s. unfold is_cooling_down.
    by rewrite Hs.
  - unfold target_recovery_until. f_equal. apply list_omap_ext, Forall2_same_length_lookup.
    split; [done|]. intros. by simplify_eq.
Qed.

(** ** Recovery *)

(** [scope] is one of the scopes that can hold the subject back. *)
Definition applies_to (subject : HealthSubject) (scope : CooldownScope) : Prop :=
  exists kind, resolve subject kind = Some scope.

Lemma elem_of_subject_scopes subject scope :
  scope ∈ omap (resolve subject) SCOPE_KINDS <-> applies_to subject scope.
Proof.
  rewrite list_elem_of_omap. unfold applies_to. split; [intros (k & _ & ?); by exists k|].
  intros [k Hk]. exists k. split; [|done]. unfold SCOPE_KINDS.
  rewrite !elem_of_cons. destruct k; tauto.
Qed.

Lemma min_Z_spec l :
  match min_Z l with
  | None => l = []
  | Some x => x ∈ l /\ forall y, y ∈ l -> (x <= y)%Z
  end.
Proof.
  destruct (min_Z l) as [x|] eqn:E; unfold min_Z in *.
  - split; [by apply (min_by_elem Z.compare)|]. intros y Hy.
    apply Z.compare_le_iff. by apply (min_by_min Z.compare l).
  - destruct l; [done|]. by destruct (min_by_is_Some Z.compare (z :: l)) as [? ?]; [|congruence].
Qed.

(** The recovery deadline a target reports is the earliest deadline, after
    [now], of a cooldown that applies to it; there is one exactly when the target
    is cooling down, the delay reported for it is positive and ends at that
    deadline, and until then the target stays cooling down. *)
Theorem target_recovery_correct r subject now :
  is_some (target_recovery_until r subject now) = target_is_cooling_down r subject now /\
  match target_recovery_until r subject now with
  | None => target_recovery_after r subject now = None /\
      forall s, applies_to subject s -> cooldown_until r s now = None
  | Some until =>
      (exists s, applies_to subject s /\ hr_cooldowns r !! s = Some until) /\
      (forall s u, applies_to subject s -> cooldown_until r s now = Some u -> (until <= u)%Z) /\
      (exists d, target_recovery_after r subject now = Some d /\ 0 < d /\ (now + Z.of_N d = until)%Z) /\
      (forall t, (now <= t < until)%Z -> target_is_cooling_down r subject t = true)
  end.
Proof.
  assert (Hcool : forall t, target_is_cooling_down r subject t = true <->
    exists s u, applies_to subject s /\ cooldown_until r s t = Some u).
  { intros t. unfold target_is_cooling_down, target_cooldown_scopes. split.
    - destruct (List.filter _ _) as [|s l] eqn:E; [done|]. intros _.
      assert (Hin : In s (s :: l)) by by left. rewrite <- E in Hin.
      apply filter_In in Hin as [Hin Hs]. unfold is_cooling_down in Hs.
      destruct (cooldown_until r s t) as [u|] eqn:Eu; [|done]. exists s, u.
      split; [|done]. by apply elem_of_subject_scopes, list_elem_of_In.
    - intros (s & u & Happ & Hu).
      assert (Hin : In s (List.filter (fun scope => is_cooling_down r scope t)
        (omap (resolve subject) SCOPE_KINDS))).
      { apply filter_In. split; [by apply list_elem_of_In, elem_of_subject_scopes|].
        unfold is_cooling_down. by rewrite Hu. }
      destruct (List.filter _ _); [done|]. done. }
  unfold target_recovery_after, target_recovery_until.
  set (l := omap (fun scope => cooldown_until r scope now) (omap (resolve subject) SCOPE_KINDS)).
  assert (Hl : forall u, u ∈ l <-> exists s, applies_to subject s /\ cooldown_until r s now = Some u).
  { intros u. unfold l. rewrite list_elem_of_omap. split.
    - intros (s & Hs%elem_of_subject_scopes & ?). eauto.
    - intros (s & Hs & ?). exists s. by split; [apply elem_of_subject_scopes|]. }
  pose proof (min_Z_spec l) as Hmin. destruct (min_Z l) as [until|]; simpl.
  - destruct Hmin as [Hin Hle]. apply Hl in Hin as (s & Happ & Hs).
    split; [symmetry; apply Hcool; eauto|].
    apply cooldown_until_Some in Hs as Hs'. destruct Hs' as [Hm Hlt].
    split; [eauto|]. split; [intros s' u ? ?; apply Hle, Hl; eauto|]. split.
    + eexists. split; [done|]. unfold duration_since. lia.
    + intros t Ht. apply Hcool. exists s, until. split; [done|]. apply cooldown_until_Some. split; [done|lia].
  - assert (Hnone : forall s, applies_to subject s -> cooldown_until r s now = None).
    { intros s Hs. destruct (cooldown_until r s now) as [u|] eqn:E; [|done].
      assert (Hu : u ∈ l) by (apply Hl; eauto). rewrite Hmin in Hu. by apply elem_of_nil in Hu. }
    split; [|done]. symmetry. apply not_true_iff_false. rewrite Hcool.
    intros (s & u & Hs & Hu). rewrite Hnone in Hu; done.
Qed.

(** ** Where binding status is coarser than the scopes *)

(** The registry after a failure was applied. *)
Definition after_failure (f : FailureClassification) (subject : HealthSubject) (now : Instant)
    (r : HealthRegistry) : HealthRegistry :=
  match apply_failure f subject now r with Some (_, r') => r' | None => r end.

(** A model-scoped failure of a binding marks the whole binding as cooling
    down although only the binding's model scope is recorded, and expiring that
    model scope marks the binding healthy while a cooldown of the whole binding
    is still running. *)
Theorem binding_model_cooldown_marks_binding :
  let b := MkBindingKey (MkTargetId "t") (MkCredentialId "work") "fp" in
  let model := MkModelId "large" in
  let subject := hs_with_binding (MkHealthSubject None (Some model) None None None) b in
  let narrow := fc_with_cooldown (for_class ProviderRateLimited)
    (cooldown_credential_model (from_secs 1)) in
  let wide := fc_with_cooldown (for_class ProviderRateLimited) (cooldown_credential (from_secs 60)) in
  let r1 := after_failure narrow subject 0 health_registry_new in
  let r2 := (clear_expired 1000000000 (after_failure wide subject 0 r1)).2 in
  map_to_list (hr_cooldowns r1) = [(CdBindingModel b model, 1000000000%Z)] /\
  ch_status <$> hr_bindings r1 !! b = Some CoolingDown /\
  is_cooling_down r2 (CdBinding b) 1000000000 = true /\
  ch_status <$> hr_bindings r2 !! b = Some Healthy.
Proof. repeat apply conj; vm_compute; reflexivity. Qed.
