(* ===== verification/Quota.v ===== *)
(** Quota observations and persistence records (crates/pooler-policy/src/quota.rs).
    Provider adapters hand over a [QuotaObservation]; the classifier turns it
    into a monotonic [QuotaSnapshot] and, for a rejected request, a failure
    classification; [PersistedQuotaSnapshot] carries a window across processes
    on the wall clock. *)
From S2P Require Import Prelude Str Time CoreId CoreError Classify.

Open Scope N_scope.

Definition QUOTA_STATE_SCHEMA_VERSION : N := 2.
Definition DEFAULT_EXHAUSTION_RECOVERY : Duration := from_secs 60.
Definition DEFAULT_RATE_LIMIT_RECOVERY_ : Duration := from_secs 1.

Inductive QuotaScope :=
| QsCredential | QsCredentialModel | QsProject | QsProjectModel | QsProvider | QsProviderModel.
Inductive QuotaUnit := Requests | Tokens | InputTokens | OutputTokens | Credits | Compute_.
Inductive QuotaState := QUnknown | QAvailable | QExhausted.

#[export] Instance QuotaScope_eq_dec : EqDecision QuotaScope. Proof. solve_decision. Defined.
#[export] Instance QuotaUnit_eq_dec : EqDecision QuotaUnit. Proof. solve_decision. Defined.
#[export] Instance QuotaState_eq_dec : EqDecision QuotaState. Proof. solve_decision. Defined.

(** The derived [Ord] of [QuotaUnit]: by discriminant. *)
Definition quota_unit_index (u : QuotaUnit) : N :=
  match u with
  | Requests => 0 | Tokens => 1 | InputTokens => 2 | OutputTokens => 3 | Credits => 4 | Compute_ => 5
  end.
Definition quota_unit_of_index (n : N) : QuotaUnit :=
  match n with
  | 0 => Requests | 1 => Tokens | 2 => InputTokens | 3 => OutputTokens | 4 => Credits | _ => Compute_
  end.

#[export] Instance QuotaUnit_countable : Countable QuotaUnit.
Proof. by refine (inj_countable' quota_unit_index quota_unit_of_index _); intros []. Defined.

(** * Keys *)

Record QuotaProjectKey := MkQuotaProjectKey { project_str : string }.
Record QuotaCredentialKey := MkQuotaCredentialKey { quota_credential_str : string }.

#[export] Instance QuotaProjectKey_eq_dec : EqDecision QuotaProjectKey.
Proof. solve_decision. Defined.
#[export] Instance QuotaProjectKey_countable : Countable QuotaProjectKey.
Proof. by refine (inj_countable' project_str MkQuotaProjectKey _); intros []. Defined.
#[export] Instance QuotaCredentialKey_eq_dec : EqDecision QuotaCredentialKey.
Proof. solve_decision. Defined.

Inductive QuotaError :=
| EmptyProjectKey | InvalidProjectKey | UnsupportedSchemaVersion (version : N) | DeadlineOutOfRange.

#[export] Instance QuotaError_eq_dec : EqDecision QuotaError.
Proof. solve_decision. Defined.

(** [from_redacted], also the [Deserialize] of a project key. *)
Definition project_from_redacted (value : string) : Result QuotaProjectKey QuotaError :=
  if valid_digest_label "project" value then Ok (MkQuotaProjectKey (to_ascii_lowercase value))
  else Err InvalidProjectKey.

(** The [Deserialize] of a credential key; its error carries only a message. *)
Definition quota_credential_deserialize (value : string) : option QuotaCredentialKey :=
  if valid_digest_label "quota-credential" value
  then Some (MkQuotaCredentialKey (to_ascii_lowercase value)) else None.

Section keys.
Context `{Digest}.

Definition project_new (value : string) : Result QuotaProjectKey QuotaError :=
  if str_is_empty value then Err EmptyProjectKey
  else Ok (MkQuotaProjectKey (digest_label "project" value)).

Definition quota_credential_new (credential : CredentialId) : QuotaCredentialKey :=
  MkQuotaCredentialKey (digest_label "quota-credential" (credential_str credential)).

Definition quota_credential_matches (key : QuotaCredentialKey) (credential : CredentialId) : bool :=
  beq key (quota_credential_new credential).
End keys.

(** * Subjects *)

Inductive QuotaSubject :=
| SubjCredential (credential : CredentialId)
| SubjCredentialModel (credential : CredentialId) (model : ModelId)
| SubjProject (provider : ProviderId) (project : QuotaProjectKey)
| SubjProjectModel (provider : ProviderId) (project : QuotaProjectKey) (model : ModelId)
| SubjProvider (provider : ProviderId)
| SubjProviderModel (provider : ProviderId) (model : ModelId).

#[export] Instance QuotaSubject_eq_dec : EqDecision QuotaSubject.
Proof. solve_decision. Defined.
#[export] Instance QuotaSubject_countable : Countable QuotaSubject.
Proof.
  refine (inj_countable'
    (fun s => match s with
     | SubjCredential c => inl (inl c)
     | SubjCredentialModel c m => inl (inr (inl (c, m)))
     | SubjProject p k => inl (inr (inr (p, k)))
     | SubjProjectModel p k m => inr (inl (inl (p, k, m)))
     | SubjProvider p => inr (inl (inr p))
     | SubjProviderModel p m => inr (inr (p, m))
     end)
    (fun x => match x with
     | inl (inl c) => SubjCredential c
     | inl (inr (inl (c, m))) => SubjCredentialModel c m
     | inl (inr (inr (p, k))) => SubjProject p k
     | inr (inl (inl (p, k, m))) => SubjProjectModel p k m
     | inr (inl (inr p)) => SubjProvider p
     | inr (inr (p, m)) => SubjProviderModel p m
     end) _); by intros [].
Defined.

(** The derived [Ord]: discriminant, then the fields in declaration order. *)
Definition subject_key (s : QuotaSubject) : N * string * string * string :=
  match s with
  | SubjCredential c => (0, credential_str c, "", "")
  | SubjCredentialModel c m => (1, credential_str c, model_str m, "")
  | SubjProject p k => (2, provider_str p, project_str k, "")
  | SubjProjectModel p k m => (3, provider_str p, project_str k, model_str m)
  | SubjProvider p => (4, provider_str p, "", "")
  | SubjProviderModel p m => (5, provider_str p, model_str m, "")
  end%string.

Definition subject_cmp (a b : QuotaSubject) : comparison :=
  let '(i, x, y, z) := subject_key a in
  let '(i', x', y', z') := subject_key b in
  N.compare i i' <|> String.compare x x' <|> String.compare y y' <|> String.compare z z'.

Inductive QuotaPersistenceIdentity :=
| PidCredential (credential : QuotaCredentialKey)
| PidCredentialModel (credential : QuotaCredentialKey) (model : ModelId)
| PidProject (provider : ProviderId) (project : QuotaProjectKey)
| PidProjectModel (provider : ProviderId) (project : QuotaProjectKey) (model : ModelId)
| PidProvider (provider : ProviderId)
| PidProviderModel (provider : ProviderId) (model : ModelId).

Definition identity_scope (i : QuotaPersistenceIdentity) : QuotaScope :=
  match i with
  | PidCredential _ => QsCredential
  | PidCredentialModel _ _ => QsCredentialModel
  | PidProject _ _ => QsProject
  | PidProjectModel _ _ _ => QsProjectModel
  | PidProvider _ => QsProvider
  | PidProviderModel _ _ => QsProviderModel
  end.

Definition identity_from_subject `{Digest} (s : QuotaSubject) : QuotaPersistenceIdentity :=
  match s with
  | SubjCredential c => PidCredential (quota_credential_new c)
  | SubjCredentialModel c m => PidCredentialModel (quota_credential_new c) m
  | SubjProject p k => PidProject p k
  | SubjProjectModel p k m => PidProjectModel p k m
  | SubjProvider p => PidProvider p
  | SubjProviderModel p m => PidProviderModel p m
  end.

(** * Runtime windows *)

Record QuotaSnapshot := MkQuotaSnapshot {
  q_scope : QuotaScope;
  q_unit : QuotaUnit;
  q_state : QuotaState;
  q_limit : option N;
  q_remaining : option N;
  q_reset_at : option Instant;
  q_observed_at : Instant;
}.

#[export] Instance QuotaSnapshot_eq_dec : EqDecision QuotaSnapshot.
Proof. solve_decision. Defined.

Definition quota_snapshot_new (scope : QuotaScope) (unit : QuotaUnit) (state : QuotaState)
    (observed_at : Instant) : QuotaSnapshot :=
  MkQuotaSnapshot scope unit state None None None observed_at.

(** [unlimited], with the [Instant::now()] it reads passed in. *)
Definition quota_unlimited (now : Instant) : QuotaSnapshot :=
  quota_snapshot_new QsCredential Requests QAvailable now.

Definition q_with_window (s : QuotaSnapshot) (limit remaining : option N) : QuotaSnapshot :=
  MkQuotaSnapshot (q_scope s) (q_unit s) (q_state s) limit remaining (q_reset_at s) (q_observed_at s).
Definition q_with_reset_at (s : QuotaSnapshot) (reset_at : option Instant) : QuotaSnapshot :=
  MkQuotaSnapshot (q_scope s) (q_unit s) (q_state s) (q_limit s) (q_remaining s) reset_at
    (q_observed_at s).

Definition expired_at (s : QuotaSnapshot) (now : Instant) : bool :=
  is_some_and (q_reset_at s) (fun reset_at => (reset_at <=? now)%Z).

Definition exhausted (s : QuotaSnapshot) (now : Instant) : bool :=
  if is_some_and (q_reset_at s) (fun reset_at => (reset_at <=? now)%Z) then false
  else beq (q_state s) QExhausted || beq (q_remaining s) (Some 0).

Definition recovery_after (s : QuotaSnapshot) (now : Instant) : option Duration :=
  (fun reset_at => duration_since reset_at now)
    <$> opt_filter (q_reset_at s) (fun reset_at => (now <? reset_at)%Z).

(** * Persistence *)

(** [duration_millis]: whole milliseconds, rounded up. *)
Definition duration_millis (d : Duration) : N :=
  let whole := sat_mul U64_MAX (as_secs d) 1000 in
  let fractional := (subsec_nanos d + 999999) / 1000000 in
  sat_add U64_MAX whole fractional.

Record PersistedQuotaSnapshot := MkPersistedQuotaSnapshot {
  pq_schema_version : N;
  pq_identity : QuotaPersistenceIdentity;
  pq_unit : QuotaUnit;
  pq_state : QuotaState;
  pq_limit : option N;
  pq_remaining : option N;
  pq_reset_at_unix_ms : option N;
  pq_observed_at_unix_ms : N;
}.

Definition from_runtime `{Digest} (subject : QuotaSubject) (s : QuotaSnapshot) (now : Instant)
    (now_unix_ms : N) : PersistedQuotaSnapshot :=
  let observed_age := duration_since now (q_observed_at s) in
  let observed_at_unix_ms := sat_sub now_unix_ms (duration_millis observed_age) in
  let reset_at_unix_ms :=
    (fun reset_at => sat_add U64_MAX now_unix_ms (duration_millis (duration_since reset_at now)))
      <$> q_reset_at s in
  MkPersistedQuotaSnapshot QUOTA_STATE_SCHEMA_VERSION (identity_from_subject subject)
    (q_unit s) (q_state s) (q_limit s) (q_remaining s) reset_at_unix_ms observed_at_unix_ms.

Definition to_runtime (p : PersistedQuotaSnapshot) (now : Instant) (now_unix_ms : N)
  : Result (option QuotaSnapshot) QuotaError :=
  if negb (pq_schema_version p =? QUOTA_STATE_SCHEMA_VERSION)
  then Err (UnsupportedSchemaVersion (pq_schema_version p))
  else if is_some_and (pq_reset_at_unix_ms p) (fun reset_at => reset_at <=? now_unix_ms)
  then Ok None
  else
    let observed_age := from_millis (sat_sub now_unix_ms (pq_observed_at_unix_ms p)) in
    let observed_at := default now (checked_sub now observed_age) in
    let? reset_at :=
      match pq_reset_at_unix_ms p with
      | None => Ok None
      | Some reset_at =>
        let? deadline := ok_or (checked_add now (from_millis (sat_sub reset_at now_unix_ms)))
                           DeadlineOutOfRange in
        Ok (Some deadline)
      end in
    Ok (Some (q_with_reset_at
      (q_with_window
        (quota_snapshot_new (identity_scope (pq_identity p)) (pq_unit p) (pq_state p) observed_at)
        (pq_limit p) (pq_remaining p)) reset_at)).

(** * Observations and their classification *)

Inductive QuotaSignal := SigSnapshot | SigExhausted | SigRateLimited | SigRecovered.

#[export] Instance QuotaSignal_eq_dec : EqDecision QuotaSignal. Proof. solve_decision. Defined.

Record QuotaObservation := MkQuotaObservation {
  o_signal : QuotaSignal;
  o_scope : QuotaScope;
  o_unit : QuotaUnit;
  o_limit : option N;
  o_remaining : option N;
  o_retry_after : option Duration;
  o_reset_after : option Duration;
  o_provider_code : option string;
}.

Definition bounded_provider_code (value : string) : option string :=
  let value := trim value in
  if negb (str_is_empty value) && (str_len value <=? 64)
     && forallb (fun c => char_is_ascii_alphanumeric c || is_underscore_or_dash c) (chars value)
  then Some (to_ascii_lowercase value) else None.

Definition quota_observation_new (signal : QuotaSignal) (scope : QuotaScope) (unit : QuotaUnit)
  : QuotaObservation := MkQuotaObservation signal scope unit None None None None None.
Definition o_with_window (o : QuotaObservation) (limit remaining : option N) : QuotaObservation :=
  MkQuotaObservation (o_signal o) (o_scope o) (o_unit o) limit remaining (o_retry_after o)
    (o_reset_after o) (o_provider_code o).
Definition o_with_retry_after (o : QuotaObservation) (d : Duration) : QuotaObservation :=
  MkQuotaObservation (o_signal o) (o_scope o) (o_unit o) (o_limit o) (o_remaining o) (Some d)
    (o_reset_after o) (o_provider_code o).
Definition o_with_reset_after (o : QuotaObservation) (d : Duration) : QuotaObservation :=
  MkQuotaObservation (o_signal o) (o_scope o) (o_unit o) (o_limit o) (o_remaining o)
    (o_retry_after o) (Some d) (o_provider_code o).
Definition o_with_provider_code (o : QuotaObservation) (code : string) : QuotaObservation :=
  MkQuotaObservation (o_signal o) (o_scope o) (o_unit o) (o_limit o) (o_remaining o)
    (o_retry_after o) (o_reset_after o) (bounded_provider_code code).

Record QuotaClassification := MkQuotaClassification {
  qc_signal : QuotaSignal;
  qc_snapshot : QuotaSnapshot;
  qc_failure : option FailureClassification;
}.

Definition quota_classification_exhausted (c : QuotaClassification) (now : Instant) : bool :=
  exhausted (qc_snapshot c) now.

Definition quota_failure (o : QuotaObservation) (recovery : option Duration)
  : FailureClassification :=
  let '(class, error_scope, cooldown, causation, public_code, public_message) :=
    match o_scope o with
    | QsCredential =>
      (CredentialQuotaExhausted, ScopeCredential, cooldown_credential <$> recovery,
       CausationProven, "credential_quota_exhausted"%string, "credential quota is exhausted"%string)
    | QsCredentialModel =>
      (ModelQuotaExhausted, ScopeCredential, cooldown_credential_model <$> recovery,
       CausationProven, "credential_model_quota_exhausted"%string,
       "credential quota for the requested model is exhausted"%string)
    | QsProject | QsProjectModel =>
      (CredentialQuotaExhausted, ScopeCredential, None,
       CausationProven, "project_quota_exhausted"%string, "upstream project quota is exhausted"%string)
    | QsProvider =>
      (ProviderRateLimited, ScopeProvider, cooldown_provider <$> recovery,
       CausationUnknown, "provider_rate_limited"%string, "provider rate limited the request"%string)
    | QsProviderModel =>
      (ProviderRateLimited, ScopeProvider, cooldown_provider_model <$> recovery,
       CausationUnknown, "provider_model_rate_limited"%string,
       "provider rate limited the requested model"%string)
    end in
  let failure :=
    fc_with_causation
      (failure_classification_new
        (error_classification_new class error_scope BeforeCommit Replayable)
        (MkPublicResponse 429 public_code public_message)
        (MkRedactedEvidence (Some 429) (o_provider_code o) (Some public_code)))
      causation in
  let failure := match opt_filter recovery (fun d => negb (is_zero d)) with
                 | Some d => fc_with_recovery_after failure d | None => failure end in
  match opt_filter cooldown (fun c => negb (is_zero (cs_duration c))) with
  | Some c => fc_with_cooldown failure c | None => failure end.

Record ProviderNeutralQuotaClassifier := MkQuotaClassifier {
  default_exhaustion_recovery : Duration;
  default_rate_limit_recovery : Duration;
}.

Definition quota_classifier_default : ProviderNeutralQuotaClassifier :=
  MkQuotaClassifier DEFAULT_EXHAUSTION_RECOVERY DEFAULT_RATE_LIMIT_RECOVERY_.

(** [[reset_after, retry_after].into_iter().flatten().max()]. *)
Definition max_delay (a b : option Duration) : option Duration :=
  match a, b with
  | Some x, Some y => Some (N.max x y)
  | Some x, None => Some x
  | None, y => y
  end.

Definition quota_signal (o : QuotaObservation) : QuotaSignal :=
  if beq (o_signal o) SigRecovered && beq (o_remaining o) (Some 0) then SigExhausted
  else o_signal o.

Definition signal_exhausted (signal : QuotaSignal) (o : QuotaObservation) : bool :=
  match signal with
  | SigExhausted | SigRateLimited => true
  | SigSnapshot => beq (o_remaining o) (Some 0)
  | SigRecovered => false
  end.

Definition quota_recovery (c : ProviderNeutralQuotaClassifier) (o : QuotaObservation)
  : option Duration :=
  let signal := quota_signal o in
  let fallback := match signal with
                  | SigExhausted => default_exhaustion_recovery c
                  | SigRateLimited => default_rate_limit_recovery c
                  | SigSnapshot | SigRecovered => DURATION_ZERO
                  end in
  or_else (max_delay (o_reset_after o) (o_retry_after o))
    (if signal_exhausted signal o && negb (is_zero fallback) then Some fallback else None).

Definition quota_classify (c : ProviderNeutralQuotaClassifier) (o : QuotaObservation) (now : Instant)
  : QuotaClassification :=
  let signal := quota_signal o in
  let exhausted := signal_exhausted signal o in
  let state := if beq signal SigRecovered then QAvailable
               else if exhausted then QExhausted
               else if is_some (o_remaining o) then QAvailable else QUnknown in
  let recovery := quota_recovery c o in
  let reset_at := recovery ≫= checked_add now in
  let snapshot := q_with_reset_at
    (q_with_window (quota_snapshot_new (o_scope o) (o_unit o) state now)
       (o_limit o) (o_remaining o)) reset_at in
  MkQuotaClassification signal snapshot
    (if exhausted then Some (quota_failure o recovery) else None).

(** * Properties of the classifier *)

(** The observations that reject: an explicit rejection, or nothing remaining. *)
Definition rejects (o : QuotaObservation) : Prop :=
  o_signal o = SigExhausted \/ o_signal o = SigRateLimited \/ o_remaining o = Some 0.

Lemma signal_exhausted_iff o : signal_exhausted (quota_signal o) o = true <-> rejects o.
Proof.
  unfold signal_exhausted, quota_signal, rejects.
  destruct (o_signal o) eqn:E; simpl; repeat case_bool_decide; intuition congruence.
Qed.

Lemma quota_recovered_not_rejecting o :
  quota_signal o = SigRecovered -> signal_exhausted (quota_signal o) o = false.
Proof. by intros ->. Qed.

Lemma quota_remaining_zero o :
  o_remaining o = Some 0 -> signal_exhausted (quota_signal o) o = true.
Proof. intros H. apply signal_exhausted_iff. by right; right. Qed.

Lemma quota_failure_cooldown o recovery spec :
  fc_cooldown (quota_failure o recovery) = Some spec ->
  recovery = Some (cs_duration spec) /\ 0 < cs_duration spec /\
  cs_scope spec = match o_scope o with
                  | QsCredential => KCredential | QsCredentialModel => KCredentialModel
                  | QsProvider => KProvider | _ => KProviderModel end /\
  o_scope o <> QsProject /\ o_scope o <> QsProjectModel.
Proof.
  unfold quota_failure.
  destruct recovery as [d|]; simpl; [|destruct (o_scope o); done].
  unfold is_zero. destruct (o_scope o); simpl; destruct (N.eqb_spec d 0); simpl; try done;
    intros [= <-]; simpl; repeat split; try done; lia.
Qed.

Lemma quota_failure_retryable o recovery :
  can_retry_before_commit (fc_classification (quota_failure o recovery)) = true.
Proof.
  unfold quota_failure. destruct (o_scope o); destruct recovery as [d|]; simpl;
    unfold is_zero; try destruct (d =? 0); done.
Qed.

(** The deadline has already passed at the observation exactly for a zero delay. *)
Lemma quota_reset_reached (recovery : option Duration) (now : Instant) :
  (now <= INSTANT_MAX)%Z ->
  is_some_and (recovery ≫= checked_add now) (fun reset_at => (reset_at <=? now)%Z)
  = beq recovery (Some 0).
Proof.
  intros Hnow. destruct recovery as [d|]; simpl; [|done]. unfold checked_add.
  destruct (decide (d = 0)) as [->|Hd].
  - rewrite bool_decide_eq_true_2 by done.
    destruct (Z.leb_spec (now + Z.of_N 0) INSTANT_MAX); simpl; lia.
  - rewrite bool_decide_eq_false_2 by congruence.
    destruct (_ <=? INSTANT_MAX)%Z; simpl; [|done]. lia.
Qed.

(** The quota classifier.  A window is classified exhausted, and a failure
    is reported, exactly for an explicit rejection or a window with nothing
    remaining, so an explicit recovery that still reports zero remaining does
    not clear it; the window then blocks selection at the observation instant
    unless the reset delay is zero; the deadline lies the reported (or fallback)
    delay ahead; and the failure is retryable before commitment and cools down
    only the owner of the window's scope, never a project's credential. *)
Theorem quota_classify_correct c o now :
  (now <= INSTANT_MAX)%Z ->
  let r := quota_classify c o now in
  let s := qc_snapshot r in
  (is_some (qc_failure r) = true <-> rejects o) /\
  (q_state s = QExhausted <-> rejects o) /\
  (exhausted s now = true <-> rejects o /\ quota_recovery c o <> Some 0) /\
  (forall t, q_reset_at s = Some t ->
     exists d, quota_recovery c o = Some d /\ t = (now + Z.of_N d)%Z) /\
  (forall f, qc_failure r = Some f ->
     can_retry_before_commit (fc_classification f) = true /\
     forall spec, fc_cooldown f = Some spec ->
       quota_recovery c o = Some (cs_duration spec) /\ 0 < cs_duration spec /\
       cs_scope spec = match o_scope o with
                       | QsCredential => KCredential | QsCredentialModel => KCredentialModel
                       | QsProvider => KProvider | _ => KProviderModel end /\
       o_scope o <> QsProject /\ o_scope o <> QsProjectModel).
Proof.
  intros Hnow. simpl. rewrite <- signal_exhausted_iff.
  assert (Hreset : forall t, quota_recovery c o ≫= checked_add now = Some t ->
    exists d, quota_recovery c o = Some d /\ t = (now + Z.of_N d)%Z).
  { intros t Ht. destruct (quota_recovery c o) as [d|]; [|done]. apply checked_add_Some in Ht. eauto. }
  destruct (signal_exhausted (quota_signal o) o) eqn:E.
  - assert (Hsig : quota_signal o <> SigRecovered)
      by (intros H; apply quota_recovered_not_rejecting in H; congruence).
    rewrite bool_decide_eq_false_2 by done.
    split; [done|]. split; [done|]. split; [|split; [done|]].
    + unfold exhausted. simpl. rewrite quota_reset_reached by done.
      destruct (decide (quota_recovery c o = Some 0)) as [Hr|Hr];
        [rewrite bool_decide_eq_true_2 by done|rewrite bool_decide_eq_false_2 by done]; simpl; intuition done.
    + intros f [= <-]. split; [apply quota_failure_retryable|]. apply quota_failure_cooldown.
  - assert (Hrem : o_remaining o <> Some 0)
      by (intros H; apply quota_remaining_zero in H; congruence).
    assert (Hst : (if beq (quota_signal o) SigRecovered then QAvailable
              else if is_some (o_remaining o) then QAvailable else QUnknown) <> QExhausted)
      by (case_bool_decide; destruct (o_remaining o); done).
    split; [done|]. split; [done|]. split; [|done].
    unfold exhausted. simpl. rewrite (bool_decide_eq_false_2 _ Hst), (bool_decide_eq_false_2 _ Hrem).
    destruct (is_some_and _ _); simpl; intuition done.
Qed.

Lemma quota_classify_correct_witness :
  let o := o_with_window (quota_observation_new SigRecovered QsCredential Tokens) None (Some 0) in
  exhausted (qc_snapshot (quota_classify quota_classifier_default o 5)) 5 = true.
Proof.
  intros o. apply (quota_classify_correct quota_classifier_default o 5).
  - vm_compute. discriminate.
  - split; [by right; right|]. vm_compute. discriminate.
Defined.

(** * Properties of persistence *)

(** Below saturation, [duration_millis] is the duration rounded up to a millisecond. *)
Lemma duration_millis_ceil d :
  duration_millis d < U64_MAX ->
  d <= from_millis (duration_millis d) /\ from_millis (duration_millis d) < d + from_millis 1.
Proof.
  unfold duration_millis, from_millis, sat_mul, sat_add, as_secs, subsec_nanos, NANOS.
  intros Hlt.
  pose proof (N.div_mod' d 1000000000) as Hd.
  assert (Hm : d mod 1000000000 < 1000000000) by (apply N.mod_lt; lia).
  set (q := d / 1000000000) in *. set (r := d mod 1000000000) in *.
  set (c := (r + 999999) / 1000000) in *.
  assert (Hq : N.min U64_MAX (N.min U64_MAX (q * 1000) + c) = q * 1000 + c) by lia.
  rewrite Hq.
  pose proof (N.div_mod' (r + 999999) 1000000) as Hr.
  assert (Hr' : (r + 999999) mod 1000000 < 1000000) by (apply N.mod_lt; lia).
  fold c in Hr. generalize dependent ((r + 999999) mod 1000000). intros m Hr Hm'.
  clearbody c. clearbody q r. clear Hlt Hq. lia.
Qed.

Section roundtrip.
Context `{Digest}.
Variables (subject : QuotaSubject) (s : QuotaSnapshot) (now : Instant) (ms delta : N).
(** Restored [delta] milliseconds later, on both clocks. *)
Let now' : Instant := (now + Z.of_N (from_millis delta))%Z.
Let ms' : N := ms + delta.

Hypothesis Hscope : identity_scope (identity_from_subject subject) = q_scope s.
Hypothesis Hobserved : (q_observed_at s <= now)%Z.
Hypothesis Hage : duration_millis (duration_since now (q_observed_at s)) <= ms.
Hypothesis Hms : ms < U64_MAX.
Hypothesis Hlow : (INSTANT_MIN + Z.of_N (from_millis 1) <= q_observed_at s)%Z.
Hypothesis Hreset : forall t, q_reset_at s = Some t ->
  ms + duration_millis (duration_since t now) < U64_MAX /\
  (t + Z.of_N (from_millis 1) <= INSTANT_MAX)%Z.

Lemma restored_observed_at :
  exists t, checked_sub now' (from_millis (ms' - (ms - duration_millis (duration_since now (q_observed_at s)))))
    = Some t /\ (t <= q_observed_at s < t + Z.of_N (from_millis 1))%Z.
Proof.
  set (age := duration_since now (q_observed_at s)) in *.
  destruct (duration_millis_ceil age) as [H1 H2]; [lia|].
  assert (Hq : (q_observed_at s + Z.of_N age = now)%Z) by (by apply duration_since_ge).
  assert (Hms' : ms' - (ms - duration_millis age) = delta + duration_millis age)
    by (unfold ms'; lia).
  rewrite Hms'.
  assert (Hadd : from_millis (delta + duration_millis age) =
    from_millis delta + from_millis (duration_millis age)) by (unfold from_millis; lia).
  rewrite checked_sub_ok; rewrite Hadd; unfold now'; [eexists; split; [done|]|]; lia.
Qed.

Lemma restored_reset_at t :
  q_reset_at s = Some t ->
  let reset_ms := sat_add U64_MAX ms (duration_millis (duration_since t now)) in
  if reset_ms <=? ms' then (t <= now')%Z
  else exists t', checked_add now' (from_millis (reset_ms - ms')) = Some t' /\
         (t <= t' < t + Z.of_N (from_millis 1))%Z.
Proof.
  intros Ht. destruct (Hreset t Ht) as [Hsat Hmax].
  set (d := duration_since t now) in *. destruct (duration_millis_ceil d) as [H1 H2]; [lia|].
  unfold sat_add. rewrite N.min_r by lia. unfold ms', now'.
  destruct (N.leb_spec (ms + duration_millis d) (ms + delta)) as [Hle|Hgt].
  - unfold d, duration_since in *. unfold from_millis in *. lia.
  - assert (Hpos : (now < t)%Z).
    { unfold d, duration_since in *. destruct (Z.ltb_spec now t); [done|]. exfalso.
      replace (Z.to_N (t - now)) with 0 in Hgt by lia. vm_compute (duration_millis 0) in Hgt. lia. }
    assert (Hd : (now + Z.of_N d = t)%Z) by (apply duration_since_ge; lia).
    assert (Hsub : from_millis (ms + duration_millis d - (ms + delta)) =
      from_millis (duration_millis d) - from_millis delta) by (unfold from_millis; lia).
    assert (Hle : from_millis delta <= from_millis (duration_millis d)) by (unfold from_millis; lia).
    rewrite checked_add_ok; rewrite Hsub; [eexists; split; [done|]|]; lia.
Qed.

(** A quota window that is persisted and restored [delta] milliseconds
    later keeps its scope, unit, state, limit and remaining allowance.  Its
    reset deadline moves later by less than a millisecond, never earlier, and
    its observation time earlier by less than a millisecond; it is dropped
    only when it has reset by then, so a window that still blocks selection at
    the moment of the restore blocks it after the restore too. *)
Theorem quota_persist_roundtrip :
  match to_runtime (from_runtime subject s now ms) now' ms' with
  | Err _ => False
  | Ok None => exists t, q_reset_at s = Some t /\ (t <= now')%Z
  | Ok (Some s') =>
      q_scope s' = q_scope s /\ q_unit s' = q_unit s /\ q_state s' = q_state s /\
      q_limit s' = q_limit s /\ q_remaining s' = q_remaining s /\
      (q_observed_at s' <= q_observed_at s < q_observed_at s' + Z.of_N (from_millis 1))%Z /\
      (exhausted s now' = true -> exhausted s' now' = true) /\
      match q_reset_at s, q_reset_at s' with
      | None, None => True
      | Some t, Some t' => (t <= t' < t + Z.of_N (from_millis 1))%Z
      | _, _ => False
      end
  end.
Proof.
  unfold to_runtime, from_runtime. simpl. unfold sat_sub.
  destruct restored_observed_at as (obs & Hobs & Hbound).
  pose proof restored_reset_at as Hres.
  case_eq (q_reset_at s); [intros t Et|intros Et]; simpl.
  - specialize (Hres t Et) as Hr. simpl in Hr.
    destruct (_ <=? ms'); simpl; [by eauto|].
    destruct Hr as (t' & Ht' & Htb). rewrite Ht'. simpl. rewrite Hobs. simpl.
    do 6 (split; [done|]). split; [|done].
    unfold exhausted. simpl. rewrite Et. simpl.
    destruct (Z.leb_spec t now'); [done|]. destruct (Z.leb_spec t' now'); [lia|done].
  - rewrite Hobs. simpl. do 6 (split; [done|]). split; [|done].
    unfold exhausted. simpl. by rewrite Et.
Qed.
End roundtrip.

Lemma quota_persist_roundtrip_witness :
  let H : Digest := fun _ => replicate 32 0 in
  let s := q_with_reset_at (quota_snapshot_new QsProvider Tokens QExhausted 1500000)
             (Some 9000001%Z) in
  match to_runtime (from_runtime (SubjProvider (MkProviderId "p")) s 2000000 70) 4000000 72 with
  | Ok (Some s') => exhausted s' 4000000 = true
  | _ => False
  end.
Proof.
  intros H s.
  assert (P := quota_persist_roundtrip (SubjProvider (MkProviderId "p")) s 2000000 70 2
    eq_refl ltac:(done) ltac:(done) ltac:(done) ltac:(done)
    ltac:(intros t [= <-]; split; [reflexivity|done])).
  change (2000000 + Z.of_N (from_millis 2))%Z with 4000000%Z in P. change (70 + 2) with 72 in P.
  destruct (to_runtime _ _ _) as [[s'|]|]; [|by destruct P as (t & [= <-] & ?)|done].
  by apply P.
Defined.

(** * Properties of the redacted keys *)

(** Redacted keys survive persistence: a project key or credential key that
    is written out and read back is accepted and is the same key, so records
    restored after a restart still name the accounts they were written for. *)
Theorem redacted_keys_roundtrip `{DigestSpec} :
  (forall value key, project_new value = Ok key -> project_from_redacted (project_str key) = Ok key) /\
  (forall credential,
     quota_credential_deserialize (quota_credential_str (quota_credential_new credential)) =
       Some (quota_credential_new credential) /\
     quota_credential_matches (quota_credential_new credential) credential = true).
Proof.
  split.
  - intros value key. unfold project_new, project_from_redacted.
    destruct (str_is_empty value); [done|]. intros [= <-]. simpl project_str.
    by rewrite valid_digest_label_of, lowercase_digest_label.
  - intros c. split.
    + unfold quota_credential_deserialize, quota_credential_new. simpl quota_credential_str.
      by rewrite valid_digest_label_of, lowercase_digest_label.
    + by apply bool_decide_eq_true.
Qed.

Lemma redacted_keys_roundtrip_witness :
  let H : Digest := fun _ => replicate 32 171 in
  project_from_redacted "project-abababababababababababababababab" =
  Ok (MkQuotaProjectKey "project-abababababababababababababababab").
Proof.
  intros H. assert (HS : DigestSpec).
  { split; intros l; [reflexivity|]. repeat constructor. }
  exact (proj1 (redacted_keys_roundtrip (H0 := HS)) "acme"%string _ eq_refl).
Defined.
