(* ===== verification/Explain.v ===== *)
(** The redacted decision record (crates/pooler-policy/src/lib.rs, "Selection
    explanation").  Scores are IEEE binary64 numbers, the [spec_float] of the
    standard library at precision 53 and exponent bound 1024. *)
From S2P Require Import Prelude Str CoreId Binding.
From Stdlib Require Import SpecFloat.

Open Scope N_scope.

(** * [f64] *)

Definition f64 : Type := spec_float.
(** [n as f64], exact or rounded to nearest even. *)
Definition f64_of_N (n : N) : f64 := binary_normalize 53 1024 (Z.of_N n) 0 false.
Definition f64_div : f64 -> f64 -> f64 := SFdiv 53 1024.

(** * Records *)

Record CredentialPseudonym := MkPseudonym { pseudonym_str : string }.

Record SelectionTarget := MkSelectionTarget {
  st_provider : ProviderId;
  st_model : ModelId;
  st_credential_pseudonym : CredentialPseudonym;
  st_target_id : option TargetId;
  st_binding_pseudonym : option string;
  st_priority : option N;
  st_pool_id : option string;
}.

Definition selection_target_new (p : ProviderId) (m : ModelId) (c : CredentialPseudonym)
  : SelectionTarget := MkSelectionTarget p m c None None None None.

Definition selection_target_structured (p : ProviderId) (m : ModelId) (c : CredentialPseudonym)
    (target_id : TargetId) (binding_pseudonym : string) (priority : N) (pool_id : option string)
  : SelectionTarget :=
  MkSelectionTarget p m c (Some target_id) (Some binding_pseudonym) (Some priority) pool_id.

Inductive FilterReason :=
| ModelMismatch
| MissingCapability (capability : string)
| CodecUnavailable (codec : string)
| ProviderNotAllowed | ProviderDenied
| TargetNotAllowed | TargetDenied
| FallbackDisabled
| MissingParameter (parameter : string)
| UnknownParameters
| MissingContext | UnknownContext
| MissingQuantization (quantization : string)
| UnknownQuantization
| PrivacyMismatch | UnknownPrivacy
| ZdrRequired | UnknownZdr
| DataPolicyMismatch | UnknownDataPolicy
| RegionMismatch | UnknownRegion
| PriceExceeded | UnknownPrice
| StaleTelemetry | UnknownTelemetry
| CredentialUnavailable
| CredentialCooldown | CredentialModelCooldown | ModelCooldown
| ProviderCooldown | ProviderModelCooldown | RouteCooldown
| ConcurrencyLimit
| RoutePolicy
| SessionAffinity
| LossPolicy_
| QuotaExhausted
| Disabled_.

Record CandidateExplanation := MkCandidateExplanation {
  ce_target : SelectionTarget;
  ce_score : option f64;
  ce_filter_reasons : list FilterReason;
}.

Definition candidate_eligible (t : SelectionTarget) (score : f64) : CandidateExplanation :=
  MkCandidateExplanation t (Some score) [].
Definition candidate_filtered (t : SelectionTarget) (reason : FilterReason) : CandidateExplanation :=
  MkCandidateExplanation t None [reason].
Definition candidate_is_eligible (c : CandidateExplanation) : bool :=
  match ce_filter_reasons c with [] => true | _ => false end.

Inductive AffinityDecision :=
| NotRequested
| NoMatch (key_pseudonym : string)
| Matched (key_pseudonym : string) (target : SelectionTarget)
| Rebound (key_pseudonym : string) (previous_provider : ProviderId) (target : SelectionTarget)
| Unavailable (key_pseudonym : string) (target : SelectionTarget).

Record ModelAliasResolution := MkModelAliasResolution {
  mar_requested : ModelId;
  mar_resolved : ModelId;
  mar_alias_used : bool;
}.

Definition alias_exact (m : ModelId) : ModelAliasResolution := MkModelAliasResolution m m false.
Definition alias_alias (requested resolved : ModelId) : ModelAliasResolution :=
  MkModelAliasResolution requested resolved true.

Record SelectionExplanation := MkSelectionExplanation {
  se_candidates : list CandidateExplanation;
  se_affinity : AffinityDecision;
  se_selected : option SelectionTarget;
  se_selected_score : option f64;
  se_selected_priority : option N;
  se_model_alias_resolution : ModelAliasResolution;
  se_attempt : N;
  se_configuration_generation : ConfigGeneration;
}.

Definition explanation_new (m : ModelAliasResolution) (attempt : N) (g : ConfigGeneration)
  : SelectionExplanation := MkSelectionExplanation [] NotRequested None None None m attempt g.

Definition push_candidate (c : CandidateExplanation) (e : SelectionExplanation)
  : SelectionExplanation :=
  MkSelectionExplanation (se_candidates e ++ [c]) (se_affinity e) (se_selected e)
    (se_selected_score e) (se_selected_priority e) (se_model_alias_resolution e)
    (se_attempt e) (se_configuration_generation e).

Definition set_affinity (a : AffinityDecision) (e : SelectionExplanation) : SelectionExplanation :=
  MkSelectionExplanation (se_candidates e) a (se_selected e)
    (se_selected_score e) (se_selected_priority e) (se_model_alias_resolution e)
    (se_attempt e) (se_configuration_generation e).

Definition set_selected (t : SelectionTarget) (score : option f64) (e : SelectionExplanation)
  : SelectionExplanation :=
  MkSelectionExplanation (se_candidates e) (se_affinity e) (Some t) score (st_priority t)
    (se_model_alias_resolution e) (se_attempt e) (se_configuration_generation e).

Definition selected_provider (e : SelectionExplanation) : option ProviderId :=
  st_provider <$> se_selected e.
Definition selected_credential_pseudonym (e : SelectionExplanation) : option CredentialPseudonym :=
  st_credential_pseudonym <$> se_selected e.

Lemma push_candidates_fold (l : list CandidateExplanation) (e : SelectionExplanation) :
  foldl (fun e c => push_candidate c e) e l =
  MkSelectionExplanation (se_candidates e ++ l) (se_affinity e) (se_selected e)
    (se_selected_score e) (se_selected_priority e) (se_model_alias_resolution e)
    (se_attempt e) (se_configuration_generation e).
Proof.
  revert e. induction l as [|c l IH]; intros e; simpl.
  - rewrite app_nil_r. by destruct e.
  - rewrite IH. simpl. by rewrite <- app_assoc.
Qed.
