(* ===== verification/Telemetry.v ===== *)
(** Routing facts, requirements and telemetry
    (crates/pooler-policy/src/selection.rs, top).  The shared
    [RwLock<BTreeMap<..>>] of [RoutingTelemetry] is the map it protects. *)
From S2P Require Import Prelude Str CoreId Capabilities Binding.

Open Scope N_scope.

Definition MAX_ROUTING_TELEMETRY_BINDINGS : N := 4096.

(** * Facts *)

Inductive RoutingFact (A : Type) : Type :=
| Verified (value : A)
| OperatorDeclared (value : A)
| Unknown.
Arguments Verified {A} value.
Arguments OperatorDeclared {A} value.
Arguments Unknown {A}.

#[export] Instance RoutingFact_eq_dec {A} `{EqDecision A} : EqDecision (RoutingFact A).
Proof. solve_decision. Defined.

Definition is_known {A} (f : RoutingFact A) : bool :=
  match f with Unknown => false | _ => true end.
Definition fact_value {A} (f : RoutingFact A) : option A :=
  match f with Verified v | OperatorDeclared v => Some v | Unknown => None end.

Record CandidateFacts := MkCandidateFacts {
  cf_parameters : RoutingFact (gset string);
  cf_capabilities : RoutingFact CapabilitySet.t;
  cf_context_window : RoutingFact N;
  cf_quantization : RoutingFact (gset string);
  cf_privacy : RoutingFact string;
  cf_zdr : RoutingFact bool;
  cf_data_policy : RoutingFact string;
  cf_region : RoutingFact string;
  cf_price : RoutingFact N;
}.

Definition candidate_facts_default : CandidateFacts :=
  MkCandidateFacts Unknown Unknown Unknown Unknown Unknown Unknown Unknown Unknown Unknown.

Definition operator_capabilities (c : CapabilitySet.t) : CandidateFacts :=
  MkCandidateFacts Unknown (OperatorDeclared c) Unknown Unknown Unknown Unknown Unknown Unknown
    Unknown.

Definition cf_with_parameters (f : CandidateFacts) (values : list string) : CandidateFacts :=
  MkCandidateFacts (OperatorDeclared (list_to_set values)) (cf_capabilities f) (cf_context_window f)
    (cf_quantization f) (cf_privacy f) (cf_zdr f) (cf_data_policy f) (cf_region f) (cf_price f).
Definition cf_with_context_window (f : CandidateFacts) (v : N) : CandidateFacts :=
  MkCandidateFacts (cf_parameters f) (cf_capabilities f) (OperatorDeclared v)
    (cf_quantization f) (cf_privacy f) (cf_zdr f) (cf_data_policy f) (cf_region f) (cf_price f).
Definition cf_with_quantization (f : CandidateFacts) (values : list string) : CandidateFacts :=
  MkCandidateFacts (cf_parameters f) (cf_capabilities f) (cf_context_window f)
    (OperatorDeclared (list_to_set values)) (cf_privacy f) (cf_zdr f) (cf_data_policy f)
    (cf_region f) (cf_price f).
Definition cf_with_privacy (f : CandidateFacts) (v : string) : CandidateFacts :=
  MkCandidateFacts (cf_parameters f) (cf_capabilities f) (cf_context_window f)
    (cf_quantization f) (OperatorDeclared v) (cf_zdr f) (cf_data_policy f) (cf_region f) (cf_price f).
Definition cf_with_zdr (f : CandidateFacts) (v : bool) : CandidateFacts :=
  MkCandidateFacts (cf_parameters f) (cf_capabilities f) (cf_context_window f)
    (cf_quantization f) (cf_privacy f) (OperatorDeclared v) (cf_data_policy f) (cf_region f)
    (cf_price f).
Definition cf_with_data_policy (f : CandidateFacts) (v : string) : CandidateFacts :=
  MkCandidateFacts (cf_parameters f) (cf_capabilities f) (cf_context_window f)
    (cf_quantization f) (cf_privacy f) (cf_zdr f) (OperatorDeclared v) (cf_region f) (cf_price f).
Definition cf_with_region (f : CandidateFacts) (v : string) : CandidateFacts :=
  MkCandidateFacts (cf_parameters f) (cf_capabilities f) (cf_context_window f)
    (cf_quantization f) (cf_privacy f) (cf_zdr f) (cf_data_policy f) (OperatorDeclared v) (cf_price f).
Definition cf_with_price (f : CandidateFacts) (v : N) : CandidateFacts :=
  MkCandidateFacts (cf_parameters f) (cf_capabilities f) (cf_context_window f)
    (cf_quantization f) (cf_privacy f) (cf_zdr f) (cf_data_policy f) (cf_region f)
    (OperatorDeclared v).

(** * Requirements *)

Record RoutingRequirements := MkRoutingRequirements {
  rr_provider_order : list string;
  rr_provider_allow : gset string;
  rr_provider_deny : gset string;
  rr_target_order : list string;
  rr_target_allow : gset string;
  rr_target_deny : gset string;
  rr_allow_fallbacks : bool;
  rr_required_parameters : gset string;
  rr_required_capabilities : CapabilitySet.t;
  rr_minimum_context : option N;
  rr_quantization : gset string;
  rr_privacy : option string;
  rr_require_zdr : bool;
  rr_data_policy : option string;
  rr_region : option string;
  rr_max_price : option N;
  rr_prefer_price : bool;
  rr_prefer_latency : bool;
  rr_prefer_throughput : bool;
  rr_max_latency_ms : option N;
  rr_min_throughput : option N;
  rr_min_samples : N;
  rr_stale_after_ms : N;
}.

Definition routing_requirements_default : RoutingRequirements := {|
  rr_provider_order := []; rr_provider_allow := ∅; rr_provider_deny := ∅;
  rr_target_order := []; rr_target_allow := ∅; rr_target_deny := ∅;
  rr_allow_fallbacks := true; rr_required_parameters := ∅;
  rr_required_capabilities := CapabilitySet.empty; rr_minimum_context := None;
  rr_quantization := ∅; rr_privacy := None; rr_require_zdr := false;
  rr_data_policy := None; rr_region := None; rr_max_price := None;
  rr_prefer_price := false; rr_prefer_latency := false; rr_prefer_throughput := false;
  rr_max_latency_ms := None; rr_min_throughput := None; rr_min_samples := 1;
  rr_stale_after_ms := 5 * 60 * 1000;
|}.

Definition adaptive (r : RoutingRequirements) : bool :=
  rr_prefer_price r || rr_prefer_latency r || rr_prefer_throughput r.

(** * Telemetry *)

Record TelemetrySample := MkTelemetrySample {
  ts_observed_at_ms : N;
  ts_sample_count : N;
  ts_rolling_window_ms : N;
  ts_stale_after_ms : N;
  ts_latency_ms : option N;
  ts_ttft_ms : option N;
  ts_throughput_per_second : option N;
}.

Definition fresh_at (s : TelemetrySample) (now_ms min_samples stale_after_ms : N) : bool :=
  (min_samples <=? ts_sample_count s)
  && (sat_sub now_ms (ts_observed_at_ms s)
      <=? N.min stale_after_ms (N.max (ts_stale_after_ms s) 1)).

Abbreviation Telemetry := (gmap BindingKey TelemetrySample).

Definition average (left right total : N) (old new : option N) : option N :=
  match old, new with
  | Some old, Some new =>
    Some (sat_add U64_MAX (sat_mul U64_MAX old left) (sat_mul U64_MAX new right) / N.max total 1)
  | None, v => v
  | v, None => v
  end.

Definition fold_sample (previous sample : TelemetrySample) : TelemetrySample :=
  let left := N.max (ts_sample_count previous) 1 in
  let right := N.max (ts_sample_count sample) 1 in
  let total := N.min (sat_add U64_MAX left right) U32_MAX in
  MkTelemetrySample
    (N.max (ts_observed_at_ms previous) (ts_observed_at_ms sample))
    total
    (N.max (ts_rolling_window_ms sample) (ts_rolling_window_ms previous))
    (N.max (ts_stale_after_ms sample) (ts_stale_after_ms previous))
    (average left right total (ts_latency_ms previous) (ts_latency_ms sample))
    (average left right total (ts_ttft_ms previous) (ts_ttft_ms sample))
    (average left right total (ts_throughput_per_second previous) (ts_throughput_per_second sample)).

Definition within_window (previous sample : TelemetrySample) : bool :=
  sat_sub (ts_observed_at_ms sample) (ts_observed_at_ms previous)
    <=? N.max (ts_rolling_window_ms sample) 1.

(** The order of eviction: oldest observation first, then the smaller key. *)
Definition telemetry_age_cmp (a b : BindingKey * TelemetrySample) : comparison :=
  N.compare (ts_observed_at_ms a.2) (ts_observed_at_ms b.2) <|> binding_cmp a.1 b.1.

Definition oldest_sample (values : Telemetry) : option BindingKey :=
  fst <$> min_by telemetry_age_cmp (btree_list binding_cmp values).

Definition telemetry_evict (binding : BindingKey) (values : Telemetry) : Telemetry :=
  if (MAX_ROUTING_TELEMETRY_BINDINGS <=? N.of_nat (size values)) && negb (is_some (values !! binding))
  then match oldest_sample values with
       | Some oldest => delete oldest values
       | None => values
       end
  else values.

(** [RoutingTelemetry::record]. *)
Definition telemetry_record (binding : BindingKey) (sample : TelemetrySample) (values : Telemetry)
  : Telemetry :=
  match values !! binding with
  | Some previous =>
    if within_window previous sample then <[binding := fold_sample previous sample]> values
    else <[binding := sample]> (telemetry_evict binding values)
  | None => <[binding := sample]> (telemetry_evict binding values)
  end.

(** * Properties *)

#[export] Instance pre_telemetry_age : PreCmp telemetry_age_cmp.
Proof.
  apply pre_then.
  - apply (pre_key (fun a : BindingKey * TelemetrySample => ts_observed_at_ms a.2) N.compare), _.
  - apply (pre_key fst binding_cmp), _.
Qed.

Definition opt_le (bound : N) (o : option N) : Prop := forall v, o = Some v -> v <= bound.

(** The fields of a sample at the widths of the source. *)
Definition sample_wf (s : TelemetrySample) : Prop :=
  ts_observed_at_ms s <= U64_MAX /\ ts_sample_count s <= U32_MAX /\
  ts_rolling_window_ms s <= U64_MAX /\ ts_stale_after_ms s <= U64_MAX /\
  opt_le U64_MAX (ts_latency_ms s) /\ opt_le U64_MAX (ts_ttft_ms s) /\
  opt_le U64_MAX (ts_throughput_per_second s).

Lemma average_le l r t old new :
  opt_le U64_MAX old -> opt_le U64_MAX new -> opt_le U64_MAX (average l r t old new).
Proof.
  destruct old as [o|], new as [n|]; simpl; auto. intros _ _ v [= <-].
  unfold sat_add. etrans; [apply N.Div0.div_le_upper_bound with (q := N.min U64_MAX
    (sat_mul U64_MAX o l + sat_mul U64_MAX n r))|]; [nia|lia].
Qed.

Lemma fold_sample_wf a b : sample_wf a -> sample_wf b -> sample_wf (fold_sample a b).
Proof.
  intros (? & ? & ? & ? & ? & ? & ?) (? & ? & ? & ? & ? & ? & ?). unfold sample_wf, fold_sample. simpl.
  repeat split; try (by apply average_le); lia.
Qed.

Lemma oldest_sample_elem values k : oldest_sample values = Some k -> is_Some (values !! k).
Proof.
  unfold oldest_sample. destruct (min_by _ _) as [[k' s]|] eqn:E; [|done]. intros [= <-].
  apply (min_by_elem telemetry_age_cmp), (elem_of_btree_list binding_cmp) in E. simpl. eauto.
Qed.

Lemma oldest_sample_is_Some values : values <> ∅ -> is_Some (oldest_sample values).
Proof.
  intros Hne. unfold oldest_sample.
  destruct (min_by_is_Some telemetry_age_cmp (btree_list binding_cmp values)) as [x ->]; [|by eauto].
  intros Hnil. apply Hne, map_empty. intros k. destruct (values !! k) as [v|] eqn:E; [|done].
  apply (elem_of_btree_list binding_cmp) in E. rewrite Hnil in E. by apply elem_of_nil in E.
Qed.

Lemma telemetry_evict_room binding values :
  N.of_nat (size values) <= MAX_ROUTING_TELEMETRY_BINDINGS ->
  N.of_nat (size (<[binding := tt]> ((fun _ => tt) <$> telemetry_evict binding values))) <= MAX_ROUTING_TELEMETRY_BINDINGS.
Proof.
  intros Hsz. unfold telemetry_evict.
  destruct (N.leb_spec MAX_ROUTING_TELEMETRY_BINDINGS (N.of_nat (size values))) as [Hfull|Hroom]; simpl.
  - destruct (values !! binding) as [v|] eqn:E; simpl.
    + rewrite map_size_insert_Some; [by rewrite map_size_fmap|]. by rewrite lookup_fmap, E.
    + destruct (oldest_sample_is_Some values) as [k Hk].
      { intros ->. rewrite map_size_empty in Hfull. unfold MAX_ROUTING_TELEMETRY_BINDINGS in Hfull. lia. }
      rewrite Hk. destruct (oldest_sample_elem _ _ Hk) as [w Hw].
      rewrite map_size_insert_None, map_size_fmap, map_size_delete_Some; [|by eauto|].
      * assert (size values <> 0)%nat; [|lia]. rewrite map_size_ne_0_lookup. eauto.
      * rewrite lookup_fmap, lookup_delete. destruct (decide _); [done|]. by rewrite E.
  - rewrite map_size_insert. destruct (_ !! binding); rewrite map_size_fmap; unfold id; lia.
Qed.

Definition telemetry_inv (values : Telemetry) : Prop :=
  N.of_nat (size values) <= MAX_ROUTING_TELEMETRY_BINDINGS /\ map_Forall (fun _ s => sample_wf s) values.

Lemma telemetry_evict_subseteq binding values : telemetry_evict binding values ⊆ values.
Proof.
  unfold telemetry_evict. destruct (_ && _); [|done].
  destruct (oldest_sample values); [apply delete_subseteq|done].
Qed.

Lemma size_insert_tt {V} (k : BindingKey) (v : V) (m : gmap BindingKey V) :
  size (<[k := v]> m) = size (<[k := tt]> ((fun _ => tt) <$> m)).
Proof.
  rewrite !map_size_insert, lookup_fmap. by destruct (m !! k); simpl; rewrite map_size_fmap.
Qed.

Lemma telemetry_insert_fresh_inv binding sample values :
  telemetry_inv values -> sample_wf sample ->
  telemetry_inv (<[binding := sample]> (telemetry_evict binding values)).
Proof.
  intros [Hsz Hwf] Hs. split.
  - rewrite size_insert_tt. by apply telemetry_evict_room.
  - apply map_Forall_insert_2; [done|].
    intros k v Hk. eapply Hwf, lookup_weaken; [done|]. apply telemetry_evict_subseteq.
Qed.

Lemma telemetry_record_inv binding sample values :
  telemetry_inv values -> sample_wf sample -> telemetry_inv (telemetry_record binding sample values).
Proof.
  intros Hinv Hs. unfold telemetry_record.
  destruct (values !! binding) as [previous|] eqn:E; [|by apply telemetry_insert_fresh_inv].
  destruct (within_window previous sample); [|by apply telemetry_insert_fresh_inv].
  destruct Hinv as [Hsz Hwf]. split.
  - by rewrite map_size_insert_Some by eauto.
  - apply map_Forall_insert_2; [|done]. apply fold_sample_wf; [|done]. by eapply Hwf.
Qed.

(** The telemetry table stays bounded and well formed whatever is recorded:
    after any sequence of observations whose fields fit their widths, it holds
    at most 4,096 bindings, every folded field still fits its width, and the
    binding recorded last is present. *)
Theorem telemetry_bounded (history : list (BindingKey * TelemetrySample)) :
  Forall (fun e => sample_wf e.2) history ->
  let table := foldl (fun t e => telemetry_record e.1 e.2 t) ∅ history in
  telemetry_inv table /\
  forall e, last history = Some e -> is_Some (table !! e.1).
Proof.
  intros Hall. simpl. split.
  - assert (Hgen : forall l t, telemetry_inv t -> Forall (fun e => sample_wf e.2) l ->
      telemetry_inv (foldl (fun t (e : BindingKey * TelemetrySample) => telemetry_record e.1 e.2 t) t l)).
    { induction l as [|e l IH]; intros t Ht Hl; simpl; [done|]. apply Forall_cons in Hl as [He Hl].
      apply IH; [|done]. by apply telemetry_record_inv. }
    apply Hgen; [|done]. split; [rewrite map_size_empty; done|apply map_Forall_empty].
  - intros e He. apply last_Some in He as [l ->]. rewrite foldl_app. simpl.
    unfold telemetry_record. repeat case_match; rewrite lookup_insert_eq; eauto.
Qed.

Lemma telemetry_bounded_witness :
  let b := MkBindingKey (MkTargetId "t") (MkCredentialId "a") "f" in
  let s := MkTelemetrySample 10 U32_MAX 1000 1000 (Some U64_MAX) None (Some 3) in
  telemetry_inv (foldl (fun t e => telemetry_record e.1 e.2 t) ∅ [(b, s); (b, s)]).
Proof.
  intros b s. apply (telemetry_bounded [(b, s); (b, s)]).
  assert (Hs : sample_wf s).
  { unfold sample_wf, opt_le, s, U64_MAX, U32_MAX. simpl.
    do 4 (split; [lia|]). split; [intros v [= <-]; lia|]. split; [done|]. intros v [= <-]. lia. }
  constructor; [exact Hs|]. constructor; [exact Hs|constructor].
Defined.
