(* ===== verification/Registration.v ===== *)
(** Registrations, requests and errors of the selector
    (crates/pooler-policy/src/selection.rs): the metadata of a target/account
    binding, the request-local inputs, and the errors of both. *)
From S2P Require Import Prelude Str Time CoreId Capabilities Binding Quota Explain Telemetry.

Open Scope N_scope.

Definition DEFAULT_AFFINITY_TTL : Duration := from_secs (30 * 60).

(** * Errors *)

Inductive SelectionError :=
| EmptyAffinityKey
| EmptyAccountFingerprint
| AccountFingerprintTooLong
| EmptyPoolId
| EmptyCodec
| ZeroAffinityTtl
| ZeroWeight
| ZeroTargetWeight
| ZeroPriority
| ZeroConcurrencyLimit
| ModelAliasCycle
| MissingQuotaProject
| QuotaNotExhausted
| InvalidQuotaState (e : QuotaError)
| ForeignLease
| StaleLease
| StaleQuotaObservation
| InvalidIdentifier (e : IdentifierError)
| LockPoisoned
| NoEligible (model : ModelId) (explanation : SelectionExplanation).

(** * Validating constructors of the identities *)

Definition binding_new (target_id account_id account_fingerprint : string)
  : Result BindingKey SelectionError :=
  if str_is_empty (trim account_fingerprint) then Err EmptyAccountFingerprint
  else if MAX_IDENTIFIER_LENGTH <? str_len account_fingerprint then Err AccountFingerprintTooLong
  else
    let? t := map_err InvalidIdentifier (named_new MkTargetId target_id) in
    let? a := map_err InvalidIdentifier (named_new MkCredentialId account_id) in
    Ok (MkBindingKey t a account_fingerprint).

Definition affinity_new `{Digest} (value : string) : Result AffinityKey SelectionError :=
  if str_is_empty value then Err EmptyAffinityKey
  else Ok (MkAffinityKey (digest_label "session" value)).

Definition affinity_from_redacted (value : string) : Result AffinityKey SelectionError :=
  if (str_len value =? 40) && starts_with value "session-"
     && forallb char_is_ascii_hexdigit (chars (str_skip 8 value))
  then Ok (MkAffinityKey value) else Err EmptyAffinityKey.

(** * Registrations *)

Record CredentialRegistration := MkRegistration {
  reg_binding : BindingKey;
  reg_credential : CredentialId;
  reg_provider : ProviderId;
  reg_model : ModelId;
  reg_capabilities : CapabilitySet.t;
  reg_facts : CandidateFacts;
  reg_codecs : gset string;
  reg_weight : N;
  reg_target_weight : N;
  reg_priority : N;
  reg_pool_id : option string;
  reg_max_in_flight : option N;
  reg_quota_project : option QuotaProjectKey;
}.

#[export] Instance CandidateFacts_eq_dec : EqDecision CandidateFacts.
Proof. solve_decision. Defined.
#[export] Instance CredentialRegistration_eq_dec : EqDecision CredentialRegistration.
Proof. solve_decision. Defined.

(** [with_binding]; the source's [Result] is always [Ok]. *)
Definition registration_with_binding (b : BindingKey) (p : ProviderId) (m : ModelId)
    (c : CapabilitySet.t) : Result CredentialRegistration SelectionError :=
  Ok (MkRegistration b (bk_account_id b) p m c (operator_capabilities c) ∅ 1 1 1 None None None).

Definition registration_new `{Digest} (credential : CredentialId) (p : ProviderId) (m : ModelId)
    (c : CapabilitySet.t) : CredentialRegistration :=
  let b := binding_legacy credential p m in
  MkRegistration b (bk_account_id b) p m c (operator_capabilities c) ∅ 1 1 1 None None None.

Definition registration_from_strings `{Digest} (credential provider model : string)
    (c : CapabilitySet.t) : Result CredentialRegistration SelectionError :=
  let? cr := map_err InvalidIdentifier (named_new MkCredentialId credential) in
  let? p := map_err InvalidIdentifier (named_new MkProviderId provider) in
  let? m := map_err InvalidIdentifier (named_new MkModelId model) in
  Ok (registration_new cr p m c).

Definition reg_target_id (r : CredentialRegistration) : TargetId := bk_target_id (reg_binding r).

Definition effective_weight (r : CredentialRegistration) : N :=
  N.max (sat_mul U32_MAX (reg_weight r) (reg_target_weight r)) 1.

Definition with_facts (r : CredentialRegistration) (f : CandidateFacts) : CredentialRegistration :=
  MkRegistration (reg_binding r) (reg_credential r) (reg_provider r) (reg_model r)
    (reg_capabilities r) f (reg_codecs r) (reg_weight r) (reg_target_weight r) (reg_priority r)
    (reg_pool_id r) (reg_max_in_flight r) (reg_quota_project r).

Definition with_weight (r : CredentialRegistration) (w : N)
  : Result CredentialRegistration SelectionError :=
  if w =? 0 then Err ZeroWeight
  else Ok (MkRegistration (reg_binding r) (reg_credential r) (reg_provider r) (reg_model r)
    (reg_capabilities r) (reg_facts r) (reg_codecs r) w (reg_target_weight r) (reg_priority r)
    (reg_pool_id r) (reg_max_in_flight r) (reg_quota_project r)).

Definition with_target_weight (r : CredentialRegistration) (w : N)
  : Result CredentialRegistration SelectionError :=
  if w =? 0 then Err ZeroTargetWeight
  else Ok (MkRegistration (reg_binding r) (reg_credential r) (reg_provider r) (reg_model r)
    (reg_capabilities r) (reg_facts r) (reg_codecs r) (reg_weight r) w (reg_priority r)
    (reg_pool_id r) (reg_max_in_flight r) (reg_quota_project r)).

Definition with_priority (r : CredentialRegistration) (p : N)
  : Result CredentialRegistration SelectionError :=
  if p =? 0 then Err ZeroPriority
  else Ok (MkRegistration (reg_binding r) (reg_credential r) (reg_provider r) (reg_model r)
    (reg_capabilities r) (reg_facts r) (reg_codecs r) (reg_weight r) (reg_target_weight r) p
    (reg_pool_id r) (reg_max_in_flight r) (reg_quota_project r)).

Definition with_pool_id (r : CredentialRegistration) (pool : string)
  : Result CredentialRegistration SelectionError :=
  if str_is_empty (trim pool) then Err EmptyPoolId
  else Ok (MkRegistration (reg_binding r) (reg_credential r) (reg_provider r) (reg_model r)
    (reg_capabilities r) (reg_facts r) (reg_codecs r) (reg_weight r) (reg_target_weight r)
    (reg_priority r) (Some pool) (reg_max_in_flight r) (reg_quota_project r)).

Definition with_binding_key (r : CredentialRegistration) (b : BindingKey) : CredentialRegistration :=
  MkRegistration b (bk_account_id b) (reg_provider r) (reg_model r)
    (reg_capabilities r) (reg_facts r) (reg_codecs r) (reg_weight r) (reg_target_weight r)
    (reg_priority r) (reg_pool_id r) (reg_max_in_flight r) (reg_quota_project r).

Definition with_max_in_flight (r : CredentialRegistration) (max : N)
  : Result CredentialRegistration SelectionError :=
  if max =? 0 then Err ZeroConcurrencyLimit
  else Ok (MkRegistration (reg_binding r) (reg_credential r) (reg_provider r) (reg_model r)
    (reg_capabilities r) (reg_facts r) (reg_codecs r) (reg_weight r) (reg_target_weight r)
    (reg_priority r) (reg_pool_id r) (Some max) (reg_quota_project r)).

Definition with_quota_project (r : CredentialRegistration) (project : QuotaProjectKey)
  : CredentialRegistration :=
  MkRegistration (reg_binding r) (reg_credential r) (reg_provider r) (reg_model r)
    (reg_capabilities r) (reg_facts r) (reg_codecs r) (reg_weight r) (reg_target_weight r)
    (reg_priority r) (reg_pool_id r) (reg_max_in_flight r) (Some project).

Definition with_codec (r : CredentialRegistration) (codec : string)
  : Result CredentialRegistration SelectionError :=
  if str_is_empty (trim codec) then Err EmptyCodec
  else Ok (MkRegistration (reg_binding r) (reg_credential r) (reg_provider r) (reg_model r)
    (reg_capabilities r) (reg_facts r) ({[codec]} ∪ reg_codecs r) (reg_weight r)
    (reg_target_weight r) (reg_priority r) (reg_pool_id r) (reg_max_in_flight r)
    (reg_quota_project r)).

Fixpoint with_codecs (r : CredentialRegistration) (codecs : list string)
  : Result CredentialRegistration SelectionError :=
  match codecs with
  | [] => Ok r
  | codec :: rest => let? r' := with_codec r codec in with_codecs r' rest
  end.

Definition selection_target `{Digest} (r : CredentialRegistration) : SelectionTarget :=
  selection_target_structured (reg_provider r) (reg_model r)
    (MkPseudonym (pseudonym (credential_str (reg_credential r))))
    (reg_target_id r) (binding_pseudonym (reg_binding r)) (reg_priority r) (reg_pool_id r).

(** * Requests *)

Inductive SelectionStrategy :=
| RoundRobin | SmoothWeightedRoundRobin | FillFirst | LeastInFlight | HealthWeighted | OrderedFallback.

Record SelectionRequest := MkSelectionRequest {
  sr_model : ModelId;
  sr_allowed_credentials : option (gset CredentialId);
  sr_allowed_bindings : option (gset BindingKey);
  sr_ordered_credentials : list CredentialId;
  sr_ordered_bindings : list BindingKey;
  sr_excluded_credentials : gset CredentialId;
  sr_excluded_bindings : gset BindingKey;
  sr_required_capabilities : CapabilitySet.t;
  sr_codec : option string;
  sr_strategy : SelectionStrategy;
  sr_affinity_key : option AffinityKey;
  sr_affinity_ttl : Duration;
  sr_affinity_rebind : bool;
  sr_pool_id : option string;
  sr_routing : option RoutingRequirements;
  sr_telemetry : Telemetry;
  sr_telemetry_now_ms : N;
  sr_route : option RouteId;
  sr_attempt : N;
  sr_configuration_generation : ConfigGeneration;
  sr_now : Instant;
}.

(** [SelectionRequest::new], with the [Instant::now()] it reads passed in. *)
Definition request_new (model : ModelId) (now : Instant) : SelectionRequest := {|
  sr_model := model; sr_allowed_credentials := None; sr_allowed_bindings := None;
  sr_ordered_credentials := []; sr_ordered_bindings := [];
  sr_excluded_credentials := ∅; sr_excluded_bindings := ∅;
  sr_required_capabilities := CapabilitySet.empty; sr_codec := None;
  sr_strategy := HealthWeighted; sr_affinity_key := None;
  sr_affinity_ttl := DEFAULT_AFFINITY_TTL; sr_affinity_rebind := true; sr_pool_id := None;
  sr_routing := None; sr_telemetry := ∅; sr_telemetry_now_ms := 0; sr_route := None;
  sr_attempt := 1; sr_configuration_generation := INITIAL; sr_now := now;
|}.

(** The functional update [SelectionRequest { model, ..request }]. *)
Definition sr_with_model (r : SelectionRequest) (m : ModelId) : SelectionRequest :=
    MkSelectionRequest m (sr_allowed_credentials r) (sr_allowed_bindings r)
      (sr_ordered_credentials r) (sr_ordered_bindings r) (sr_excluded_credentials r)
      (sr_excluded_bindings r) (sr_required_capabilities r) (sr_codec r) (sr_strategy r)
      (sr_affinity_key r) (sr_affinity_ttl r) (sr_affinity_rebind r) (sr_pool_id r)
      (sr_routing r) (sr_telemetry r) (sr_telemetry_now_ms r) (sr_route r) (sr_attempt r)
      (sr_configuration_generation r) (sr_now r).

Definition with_allowed_credentials (r : SelectionRequest) (l : list CredentialId) : SelectionRequest :=
    MkSelectionRequest (sr_model r) (Some (list_to_set l)) (sr_allowed_bindings r) l
      (sr_ordered_bindings r) (sr_excluded_credentials r) (sr_excluded_bindings r)
      (sr_required_capabilities r) (sr_codec r) (sr_strategy r) (sr_affinity_key r)
      (sr_affinity_ttl r) (sr_affinity_rebind r) (sr_pool_id r) (sr_routing r) (sr_telemetry r)
      (sr_telemetry_now_ms r) (sr_route r) (sr_attempt r) (sr_configuration_generation r)
      (sr_now r).

Definition with_allowed_bindings (r : SelectionRequest) (l : list BindingKey) : SelectionRequest :=
    MkSelectionRequest (sr_model r) (sr_allowed_credentials r) (Some (list_to_set l))
      (sr_ordered_credentials r) l (sr_excluded_credentials r) (sr_excluded_bindings r)
      (sr_required_capabilities r) (sr_codec r) (sr_strategy r) (sr_affinity_key r)
      (sr_affinity_ttl r) (sr_affinity_rebind r) (sr_pool_id r) (sr_routing r) (sr_telemetry r)
      (sr_telemetry_now_ms r) (sr_route r) (sr_attempt r) (sr_configuration_generation r)
      (sr_now r).

Definition with_excluded_credentials (r : SelectionRequest) (l : list CredentialId) : SelectionRequest :=
    MkSelectionRequest (sr_model r) (sr_allowed_credentials r) (sr_allowed_bindings r)
      (sr_ordered_credentials r) (sr_ordered_bindings r)
      (sr_excluded_credentials r ∪ list_to_set l) (sr_excluded_bindings r)
      (sr_required_capabilities r) (sr_codec r) (sr_strategy r) (sr_affinity_key r)
      (sr_affinity_ttl r) (sr_affinity_rebind r) (sr_pool_id r) (sr_routing r) (sr_telemetry r)
      (sr_telemetry_now_ms r) (sr_route r) (sr_attempt r) (sr_configuration_generation r)
      (sr_now r).

Definition with_excluded_bindings (r : SelectionRequest) (l : list BindingKey) : SelectionRequest :=
    MkSelectionRequest (sr_model r) (sr_allowed_credentials r) (sr_allowed_bindings r)
      (sr_ordered_credentials r) (sr_ordered_bindings r) (sr_excluded_credentials r)
      (sr_excluded_bindings r ∪ list_to_set l) (sr_required_capabilities r) (sr_codec r)
      (sr_strategy r) (sr_affinity_key r) (sr_affinity_ttl r) (sr_affinity_rebind r)
      (sr_pool_id r) (sr_routing r) (sr_telemetry r) (sr_telemetry_now_ms r) (sr_route r)
      (sr_attempt r) (sr_configuration_generation r) (sr_now r).

Definition sr_with_pool_id (r : SelectionRequest) (pool : string)
  : Result SelectionRequest SelectionError :=
  if str_is_empty (trim pool) then Err EmptyPoolId
  else Ok (
    MkSelectionRequest (sr_model r) (sr_allowed_credentials r) (sr_allowed_bindings r)
      (sr_ordered_credentials r) (sr_ordered_bindings r) (sr_excluded_credentials r)
      (sr_excluded_bindings r) (sr_required_capabilities r) (sr_codec r) (sr_strategy r)
      (sr_affinity_key r) (sr_affinity_ttl r) (sr_affinity_rebind r) (Some pool) (sr_routing r)
      (sr_telemetry r) (sr_telemetry_now_ms r) (sr_route r) (sr_attempt r)
      (sr_configuration_generation r) (sr_now r)).

Definition with_capabilities (r : SelectionRequest) (c : CapabilitySet.t) : SelectionRequest :=
    MkSelectionRequest (sr_model r) (sr_allowed_credentials r) (sr_allowed_bindings r)
      (sr_ordered_credentials r) (sr_ordered_bindings r) (sr_excluded_credentials r)
      (sr_excluded_bindings r) c (sr_codec r) (sr_strategy r) (sr_affinity_key r)
      (sr_affinity_ttl r) (sr_affinity_rebind r) (sr_pool_id r) (sr_routing r) (sr_telemetry r)
      (sr_telemetry_now_ms r) (sr_route r) (sr_attempt r) (sr_configuration_generation r)
      (sr_now r).

Definition with_routing (r : SelectionRequest) (q : RoutingRequirements) : SelectionRequest :=
    MkSelectionRequest (sr_model r) (sr_allowed_credentials r) (sr_allowed_bindings r)
      (sr_ordered_credentials r) (sr_ordered_bindings r) (sr_excluded_credentials r)
      (sr_excluded_bindings r) (sr_required_capabilities r) (sr_codec r) (sr_strategy r)
      (sr_affinity_key r) (sr_affinity_ttl r) (sr_affinity_rebind r) (sr_pool_id r) (Some q)
      (sr_telemetry r) (sr_telemetry_now_ms r) (sr_route r) (sr_attempt r)
      (sr_configuration_generation r) (sr_now r).

Definition with_telemetry (r : SelectionRequest) (t : Telemetry) (now_ms : N) : SelectionRequest :=
    MkSelectionRequest (sr_model r) (sr_allowed_credentials r) (sr_allowed_bindings r)
      (sr_ordered_credentials r) (sr_ordered_bindings r) (sr_excluded_credentials r)
      (sr_excluded_bindings r) (sr_required_capabilities r) (sr_codec r) (sr_strategy r)
      (sr_affinity_key r) (sr_affinity_ttl r) (sr_affinity_rebind r) (sr_pool_id r)
      (sr_routing r) t now_ms (sr_route r) (sr_attempt r) (sr_configuration_generation r)
      (sr_now r).

Definition sr_with_codec (r : SelectionRequest) (codec : string)
  : Result SelectionRequest SelectionError :=
  if str_is_empty (trim codec) then Err EmptyCodec
  else Ok (
    MkSelectionRequest (sr_model r) (sr_allowed_credentials r) (sr_allowed_bindings r)
      (sr_ordered_credentials r) (sr_ordered_bindings r) (sr_excluded_credentials r)
      (sr_excluded_bindings r) (sr_required_capabilities r) (Some codec) (sr_strategy r)
      (sr_affinity_key r) (sr_affinity_ttl r) (sr_affinity_rebind r) (sr_pool_id r)
      (sr_routing r) (sr_telemetry r) (sr_telemetry_now_ms r) (sr_route r) (sr_attempt r)
      (sr_configuration_generation r) (sr_now r)).

Definition with_strategy (r : SelectionRequest) (s : SelectionStrategy) : SelectionRequest :=
    MkSelectionRequest (sr_model r) (sr_allowed_credentials r) (sr_allowed_bindings r)
      (sr_ordered_credentials r) (sr_ordered_bindings r) (sr_excluded_credentials r)
      (sr_excluded_bindings r) (sr_required_capabilities r) (sr_codec r) s (sr_affinity_key r)
      (sr_affinity_ttl r) (sr_affinity_rebind r) (sr_pool_id r) (sr_routing r) (sr_telemetry r)
      (sr_telemetry_now_ms r) (sr_route r) (sr_attempt r) (sr_configuration_generation r)
      (sr_now r).

Definition with_hashed_affinity_key (r : SelectionRequest) (key : AffinityKey) (ttl : Duration)
  : Result SelectionRequest SelectionError :=
  if is_zero ttl then Err ZeroAffinityTtl
  else Ok (
    MkSelectionRequest (sr_model r) (sr_allowed_credentials r) (sr_allowed_bindings r)
      (sr_ordered_credentials r) (sr_ordered_bindings r) (sr_excluded_credentials r)
      (sr_excluded_bindings r) (sr_required_capabilities r) (sr_codec r) (sr_strategy r)
      (Some key) ttl (sr_affinity_rebind r) (sr_pool_id r) (sr_routing r) (sr_telemetry r)
      (sr_telemetry_now_ms r) (sr_route r) (sr_attempt r) (sr_configuration_generation r)
      (sr_now r)).

Definition with_affinity_key `{Digest} (r : SelectionRequest) (key : string) (ttl : Duration)
  : Result SelectionRequest SelectionError :=
  if is_zero ttl then Err ZeroAffinityTtl
  else
    let? k := affinity_new key in
    Ok (
    MkSelectionRequest (sr_model r) (sr_allowed_credentials r) (sr_allowed_bindings r)
      (sr_ordered_credentials r) (sr_ordered_bindings r) (sr_excluded_credentials r)
      (sr_excluded_bindings r) (sr_required_capabilities r) (sr_codec r) (sr_strategy r)
      (Some k) ttl (sr_affinity_rebind r) (sr_pool_id r) (sr_routing r) (sr_telemetry r)
      (sr_telemetry_now_ms r) (sr_route r) (sr_attempt r) (sr_configuration_generation r)
      (sr_now r)).

Definition with_affinity_rebind (r : SelectionRequest) (rebind : bool) : SelectionRequest :=
    MkSelectionRequest (sr_model r) (sr_allowed_credentials r) (sr_allowed_bindings r)
      (sr_ordered_credentials r) (sr_ordered_bindings r) (sr_excluded_credentials r)
      (sr_excluded_bindings r) (sr_required_capabilities r) (sr_codec r) (sr_strategy r)
      (sr_affinity_key r) (sr_affinity_ttl r) rebind (sr_pool_id r) (sr_routing r)
      (sr_telemetry r) (sr_telemetry_now_ms r) (sr_route r) (sr_attempt r)
      (sr_configuration_generation r) (sr_now r).

Definition with_route (r : SelectionRequest) (route : RouteId) : SelectionRequest :=
    MkSelectionRequest (sr_model r) (sr_allowed_credentials r) (sr_allowed_bindings r)
      (sr_ordered_credentials r) (sr_ordered_bindings r) (sr_excluded_credentials r)
      (sr_excluded_bindings r) (sr_required_capabilities r) (sr_codec r) (sr_strategy r)
      (sr_affinity_key r) (sr_affinity_ttl r) (sr_affinity_rebind r) (sr_pool_id r)
      (sr_routing r) (sr_telemetry r) (sr_telemetry_now_ms r) (Some route) (sr_attempt r)
      (sr_configuration_generation r) (sr_now r).

Definition with_attempt (r : SelectionRequest) (attempt : N) : SelectionRequest :=
    MkSelectionRequest (sr_model r) (sr_allowed_credentials r) (sr_allowed_bindings r)
      (sr_ordered_credentials r) (sr_ordered_bindings r) (sr_excluded_credentials r)
      (sr_excluded_bindings r) (sr_required_capabilities r) (sr_codec r) (sr_strategy r)
      (sr_affinity_key r) (sr_affinity_ttl r) (sr_affinity_rebind r) (sr_pool_id r)
      (sr_routing r) (sr_telemetry r) (sr_telemetry_now_ms r) (sr_route r) attempt
      (sr_configuration_generation r) (sr_now r).

Definition with_generation (r : SelectionRequest) (g : ConfigGeneration) : SelectionRequest :=
    MkSelectionRequest (sr_model r) (sr_allowed_credentials r) (sr_allowed_bindings r)
      (sr_ordered_credentials r) (sr_ordered_bindings r) (sr_excluded_credentials r)
      (sr_excluded_bindings r) (sr_required_capabilities r) (sr_codec r) (sr_strategy r)
      (sr_affinity_key r) (sr_affinity_ttl r) (sr_affinity_rebind r) (sr_pool_id r)
      (sr_routing r) (sr_telemetry r) (sr_telemetry_now_ms r) (sr_route r) (sr_attempt r) g
      (sr_now r).

Definition at_ (r : SelectionRequest) (now : Instant) : SelectionRequest :=
    MkSelectionRequest (sr_model r) (sr_allowed_credentials r) (sr_allowed_bindings r)
      (sr_ordered_credentials r) (sr_ordered_bindings r) (sr_excluded_credentials r)
      (sr_excluded_bindings r) (sr_required_capabilities r) (sr_codec r) (sr_strategy r)
      (sr_affinity_key r) (sr_affinity_ttl r) (sr_affinity_rebind r) (sr_pool_id r)
      (sr_routing r) (sr_telemetry r) (sr_telemetry_now_ms r) (sr_route r) (sr_attempt r)
      (sr_configuration_generation r) now.

(** * Properties *)

(** The registrations the public interface can build: a constructor followed by
    any builders, with [u32] arguments. *)
Inductive built : CredentialRegistration -> Prop :=
| built_binding b p m c r : registration_with_binding b p m c = Ok r -> built r
| built_legacy (D : Digest) a p m c : built (registration_new a p m c)
| built_facts r f : built r -> built (with_facts r f)
| built_weight r w r' : built r -> w <= U32_MAX -> with_weight r w = Ok r' -> built r'
| built_target_weight r w r' : built r -> w <= U32_MAX -> with_target_weight r w = Ok r' -> built r'
| built_priority r p r' : built r -> p <= U32_MAX -> with_priority r p = Ok r' -> built r'
| built_pool r p r' : built r -> with_pool_id r p = Ok r' -> built r'
| built_binding_key r b : built r -> built (with_binding_key r b)
| built_max r m r' : built r -> m <= U32_MAX -> with_max_in_flight r m = Ok r' -> built r'
| built_project r p : built r -> built (with_quota_project r p)
| built_codec r c r' : built r -> with_codec r c = Ok r' -> built r'.

(** What the selector relies on of a registration. *)
Record reg_wf (r : CredentialRegistration) : Prop := {
  wf_credential : reg_credential r = bk_account_id (reg_binding r);
  wf_weight : 0 < reg_weight r <= U32_MAX;
  wf_target_weight : 0 < reg_target_weight r <= U32_MAX;
  wf_priority : 0 < reg_priority r <= U32_MAX;
  wf_max_in_flight : forall m, reg_max_in_flight r = Some m -> 0 < m <= U32_MAX;
  wf_codecs : "" ∉ reg_codecs r;
}.

Lemma nonzero_guard {A} (w : N) (e : SelectionError) (x r' : A) :
  (if w =? 0 then Err e else Ok x) = Ok r' -> 0 < w /\ x = r'.
Proof. destruct (N.eqb_spec w 0); [done|]. intros [= ->]. split; [lia|done]. Qed.

Lemma nonblank_guard {A} (s : string) (e : SelectionError) (x r' : A) :
  (if str_is_empty (trim s) then Err e else Ok x) = Ok r' -> s <> ""%string /\ x = r'.
Proof.
  destruct (str_is_empty (trim s)) eqn:E; [done|]. intros [= ->]. split; [|done].
  intros ->. done.
Qed.

Lemma effective_weight_bounds r : 1 <= effective_weight r <= U32_MAX.
Proof. unfold effective_weight, sat_mul, U32_MAX. lia. Qed.

(** Every registration the public interface can build names its binding's
    account as its credential, has a positive weight, target weight and priority
    tier that fit [u32], a positive concurrency ceiling if it has one, and no
    blank codec; its combined weight is between 1 and [u32::MAX], so the
    strategies never see a zero weight. *)
Theorem registration_built_wf r :
  built r -> reg_wf r /\ 1 <= effective_weight r <= U32_MAX.
Proof.
  intros Hb. split; [|apply effective_weight_bounds].
  induction Hb as [b p m c r [= <-]| | | r w r' _ IH Hw H | r w r' _ IH Hw H | r p r' _ IH Hw H
    | r p r' _ IH H | | r m r' _ IH Hw H | | r c r' _ IH H].
  all: try (apply nonzero_guard in H as [? <-]).
  all: try (apply nonblank_guard in H as [? <-]).
  all: try destruct IH as [? ? ? ? ? ?]; try destruct IHHb as [? ? ? ? ? ?].
  all: split; simpl; try done; try (unfold U32_MAX; lia).
  - intros m' [= <-]. done.
  - rewrite elem_of_union, elem_of_singleton. intros [?|?]; [congruence|done].
Qed.

Lemma registration_built_wf_witness :
  let b := MkBindingKey (MkTargetId "t") (MkCredentialId "work") "fp" in
  exists r, registration_with_binding b (MkProviderId "p") (MkModelId "m") CapabilitySet.empty = Ok r
    /\ reg_wf r.
Proof.
  intros b. eexists. split; [reflexivity|].
  refine (proj1 (registration_built_wf _ _)). by eapply built_binding.
Defined.

(** Session affinity keys are bounded and survive persistence: hashing a
    non-empty caller value gives a 40-byte label, which is read back as the same
    key without being hashed again, and only an empty value is refused. *)
Theorem affinity_key_roundtrip `{DigestSpec} value :
  match affinity_new value with
  | Ok key => str_len (affinity_str key) = 40 /\ affinity_from_redacted (affinity_str key) = Ok key
  | Err e => value = ""%string /\ e = EmptyAffinityKey
  end.
Proof.
  unfold affinity_new. destruct (str_is_empty value) eqn:E; [by destruct value|].
  simpl. pose proof (valid_digest_label_of "session" value) as Hv.
  unfold valid_digest_label in Hv. rewrite !andb_true_iff in Hv.
  destruct Hv as [[[Hlen _] _] Hhex]. apply N.eqb_eq in Hlen.
  change (str_len "session" + 1 + 32) with 40 in Hlen. split; [done|].
  unfold affinity_from_redacted. rewrite Hlen.
  change (String.length "session" + 1)%nat with 8%nat in Hhex. rewrite Hhex.
  assert (Hpre : starts_with (digest_label "session" value) "session-" = true)
    by apply (prefix_app "session-").
  by rewrite Hpre.
Qed.

Lemma affinity_key_roundtrip_witness :
  let H : Digest := fun _ => replicate 32 171 in
  str_len (digest_label "session" "conversation-1") = 40.
Proof.
  intros H. assert (HS : DigestSpec).
  { split; intros l; [reflexivity|]. repeat constructor. }
  exact (proj1 (affinity_key_roundtrip (H0 := HS) "conversation-1")).
Defined.
