(* ===== verification/Registry.v ===== *)
(** The registry state and its operations
    (crates/pooler-policy/src/selection.rs, [RegistryState] and the methods of
    [CredentialRegistry] that do not select).

    The two [RwLock]s of [RegistryInner] are the two components of the record
    [RegistryInner] here; an operation is a function on that record, run while
    it holds the locks it takes.  A poisoned lock ([LockPoisoned]) needs a panic
    under the lock and is not modelled.  Every [Instant::now()] an operation
    reads is an argument. *)
From S2P Require Import Prelude Str Time CoreId Classify Binding Health Quota Registration.

Open Scope N_scope.

Definition MAX_AFFINITY_BINDINGS : N := 4096.

(** * State *)

Record AffinityBinding := MkAffinityBinding {
  ab_binding : BindingKey;
  ab_provider : ProviderId;
  ab_model : ModelId;
  ab_last_used_at : Instant;
  ab_expires_at : Instant;
}.

Definition ab_expired_at (b : AffinityBinding) (now : Instant) : bool := (ab_expires_at b <=? now)%Z.

Record RegistryEntry := MkEntry {
  e_registration : CredentialRegistration;
  e_enabled : bool;
  e_in_flight : N;
  e_order : N;
}.

Abbreviation CursorKey := (ModelId * option string * gset BindingKey)%type.
Abbreviation SmoothKey := (ModelId * option string)%type.

Record RegistryState := MkState {
  rs_entries : gmap BindingKey RegistryEntry;
  rs_aliases : gmap ModelId ModelId;
  rs_next_order : N;
  rs_round_robin : gmap CursorKey N;
  rs_smooth_current : gmap SmoothKey (gmap BindingKey Z);
  rs_affinity : gmap AffinityKey AffinityBinding;
  rs_quotas : gmap (QuotaSubject * QuotaUnit) QuotaSnapshot;
  rs_binding_quotas : gmap (BindingKey * QuotaUnit) QuotaSnapshot;
}.

Definition state_new : RegistryState := MkState ∅ ∅ 0 ∅ ∅ ∅ ∅ ∅.

Record RegistryInner := MkInner { ri_state : RegistryState; ri_health : HealthRegistry }.
Definition registry_new : RegistryInner := MkInner state_new health_registry_new.

(** Assignments to one field. *)
Definition set_entries (m : gmap BindingKey RegistryEntry) (s : RegistryState) : RegistryState :=
  MkState m (rs_aliases s) (rs_next_order s) (rs_round_robin s) (rs_smooth_current s)
    (rs_affinity s) (rs_quotas s) (rs_binding_quotas s).
Definition set_aliases (m : gmap ModelId ModelId) (s : RegistryState) : RegistryState :=
  MkState (rs_entries s) m (rs_next_order s) (rs_round_robin s) (rs_smooth_current s)
    (rs_affinity s) (rs_quotas s) (rs_binding_quotas s).
Definition set_next_order (n : N) (s : RegistryState) : RegistryState :=
  MkState (rs_entries s) (rs_aliases s) n (rs_round_robin s) (rs_smooth_current s)
    (rs_affinity s) (rs_quotas s) (rs_binding_quotas s).
Definition set_round_robin (m : gmap CursorKey N) (s : RegistryState) : RegistryState :=
  MkState (rs_entries s) (rs_aliases s) (rs_next_order s) m (rs_smooth_current s)
    (rs_affinity s) (rs_quotas s) (rs_binding_quotas s).
Definition set_smooth (m : gmap SmoothKey (gmap BindingKey Z)) (s : RegistryState) : RegistryState :=
  MkState (rs_entries s) (rs_aliases s) (rs_next_order s) (rs_round_robin s) m
    (rs_affinity s) (rs_quotas s) (rs_binding_quotas s).
Definition set_affinity_map (m : gmap AffinityKey AffinityBinding) (s : RegistryState) : RegistryState :=
  MkState (rs_entries s) (rs_aliases s) (rs_next_order s) (rs_round_robin s) (rs_smooth_current s)
    m (rs_quotas s) (rs_binding_quotas s).
Definition set_quotas (m : gmap (QuotaSubject * QuotaUnit) QuotaSnapshot) (s : RegistryState)
  : RegistryState :=
  MkState (rs_entries s) (rs_aliases s) (rs_next_order s) (rs_round_robin s) (rs_smooth_current s)
    (rs_affinity s) m (rs_binding_quotas s).
Definition set_binding_quotas (m : gmap (BindingKey * QuotaUnit) QuotaSnapshot) (s : RegistryState)
  : RegistryState :=
  MkState (rs_entries s) (rs_aliases s) (rs_next_order s) (rs_round_robin s) (rs_smooth_current s)
    (rs_affinity s) (rs_quotas s) m.
Definition with_state (s : RegistryState) (r : RegistryInner) : RegistryInner := MkInner s (ri_health r).
Definition with_health (h : HealthRegistry) (r : RegistryInner) : RegistryInner := MkInner (ri_state r) h.

Definition entry_set_registration (r : CredentialRegistration) (e : RegistryEntry) : RegistryEntry :=
  MkEntry r (e_enabled e) (e_in_flight e) (e_order e).
Definition entry_set_enabled (b : bool) (e : RegistryEntry) : RegistryEntry :=
  MkEntry (e_registration e) b (e_in_flight e) (e_order e).
Definition entry_set_in_flight (n : N) (e : RegistryEntry) : RegistryEntry :=
  MkEntry (e_registration e) (e_enabled e) n (e_order e).

(** [entries.values()], in the order of the B-tree. *)
Definition entry_values (s : RegistryState) : list RegistryEntry := btree_values binding_cmp (rs_entries s).

Definition entry_cmp (a b : RegistryEntry) : comparison :=
  N.compare (e_order a) (e_order b)
  <|> binding_cmp (reg_binding (e_registration a)) (reg_binding (e_registration b)).

Definition sorted_entries (s : RegistryState) : list RegistryEntry := sort_by entry_cmp (entry_values s).

Definition registrations (s : RegistryState) : list CredentialRegistration :=
  map e_registration (sorted_entries s).

(** * Model aliases *)

(** The loop of [resolve_alias].  Every turn adds a model to [seen], and all but
    the last model are keys of the table, so [size aliases + 2] turns suffice
    ([resolve_loop_total]); the outer [None] is running out of them. *)
Fixpoint resolve_loop (fuel : nat) (aliases : gmap ModelId ModelId) (seen : gset ModelId)
    (current : ModelId) : option (option ModelId) :=
  match fuel with
  | O => None
  | S fuel =>
    if bool_decide (current ∈ seen) then Some None
    else match aliases !! current with
         | None => Some (Some current)
         | Some next => resolve_loop fuel aliases ({[current]} ∪ seen) next
         end
  end.

Definition resolve_alias (aliases : gmap ModelId ModelId) (model : ModelId) : option ModelId :=
  default None (resolve_loop (size aliases + 2) aliases ∅ model).

Definition register_model_alias (alias resolved : ModelId) (s : RegistryState)
  : Result unit SelectionError * RegistryState :=
  let previous := rs_aliases s !! alias in
  let aliases := <[alias := resolved]> (rs_aliases s) in
  match resolve_alias aliases alias with
  | Some _ => (Ok tt, set_aliases aliases s)
  | None =>
    (Err ModelAliasCycle,
     set_aliases (match previous with
                  | Some p => <[alias := p]> aliases
                  | None => delete alias aliases
                  end) s)
  end.

Definition resolve_model (model : ModelId) (s : RegistryState) : ModelId :=
  default model (resolve_alias (rs_aliases s) model).

(** * Quota windows *)

Definition quota_subject (r : CredentialRegistration) (scope : QuotaScope)
  : Result QuotaSubject SelectionError :=
  match scope with
  | QsCredential => Ok (SubjCredential (reg_credential r))
  | QsCredentialModel => Ok (SubjCredentialModel (reg_credential r) (reg_model r))
  | QsProject =>
    let? project := ok_or (reg_quota_project r) MissingQuotaProject in
    Ok (SubjProject (reg_provider r) project)
  | QsProjectModel =>
    let? project := ok_or (reg_quota_project r) MissingQuotaProject in
    Ok (SubjProjectModel (reg_provider r) project (reg_model r))
  | QsProvider => Ok (SubjProvider (reg_provider r))
  | QsProviderModel => Ok (SubjProviderModel (reg_provider r) (reg_model r))
  end.

Definition subject_matches (subject : QuotaSubject) (r : CredentialRegistration) : bool :=
  match subject with
  | SubjCredential c => beq c (reg_credential r)
  | SubjCredentialModel c m => beq c (reg_credential r) && beq m (reg_model r)
  | SubjProject p k => beq p (reg_provider r) && beq (reg_quota_project r) (Some k)
  | SubjProjectModel p k m =>
    beq p (reg_provider r) && beq (reg_quota_project r) (Some k) && beq m (reg_model r)
  | SubjProvider p => beq p (reg_provider r)
  | SubjProviderModel p m => beq p (reg_provider r) && beq m (reg_model r)
  end.

Definition quota_state_priority (s : QuotaSnapshot) : N :=
  if beq (q_state s) QExhausted || beq (q_remaining s) (Some 0) then 2
  else if beq (q_state s) QUnknown then 1 else 0.

Definition later_deadline (left right : option Instant) : comparison :=
  match left, right with
  | None, None => Eq
  | None, Some _ => Gt
  | Some _, None => Lt
  | Some l, Some r => Z.compare l r
  end.

Definition lower_value (left right : option N) : comparison :=
  match left, right with
  | None, None => Eq
  | None, Some _ => Lt
  | Some _, None => Gt
  | Some l, Some r => N.compare r l
  end.

Definition quota_precedence (left right : QuotaSnapshot) : comparison :=
  N.compare (quota_state_priority left) (quota_state_priority right)
  <|> later_deadline (q_reset_at left) (q_reset_at right)
  <|> lower_value (q_remaining left) (q_remaining right)
  <|> lower_value (q_limit left) (q_limit right).

(** The [replace] both insertions compute. *)
Definition quota_replaces (snapshot current : QuotaSnapshot) : bool :=
  (q_observed_at current <? q_observed_at snapshot)%Z
  || (beq (q_observed_at snapshot) (q_observed_at current)
      && match quota_precedence snapshot current with Gt => true | _ => false end).

Definition insert_binding_quota (binding : BindingKey) (snapshot : QuotaSnapshot) (s : RegistryState)
  : bool * RegistryState :=
  let key := (binding, q_unit snapshot) in
  match rs_binding_quotas s !! key with
  | None => (true, set_binding_quotas (<[key := snapshot]> (rs_binding_quotas s)) s)
  | Some current =>
    if quota_replaces snapshot current
    then (true, set_binding_quotas (<[key := snapshot]> (rs_binding_quotas s)) s)
    else (false, s)
  end.

Definition insert_quota_subject (subject : QuotaSubject) (snapshot : QuotaSnapshot) (s : RegistryState)
  : bool * RegistryState :=
  let key := (subject, q_unit snapshot) in
  match rs_quotas s !! key with
  | None => (true, set_quotas (<[key := snapshot]> (rs_quotas s)) s)
  | Some current =>
    if quota_replaces snapshot current
    then (true, set_quotas (<[key := snapshot]> (rs_quotas s)) s)
    else (false, s)
  end.

Definition insert_quota (r : CredentialRegistration) (snapshot : QuotaSnapshot) (s : RegistryState)
  : Result bool SelectionError * RegistryState :=
  match quota_subject r (q_scope snapshot) with
  | Err e => (Err e, s)
  | Ok subject => let '(b, s') := insert_quota_subject subject snapshot s in (Ok b, s')
  end.

Definition insert_quota_for_binding (binding : BindingKey) (r : CredentialRegistration)
    (snapshot : QuotaSnapshot) (s : RegistryState) : Result bool SelectionError * RegistryState :=
  match q_scope snapshot with
  | QsCredential | QsCredentialModel =>
    let '(b, s') := insert_binding_quota binding snapshot s in (Ok b, s')
  | QsProject | QsProjectModel | QsProvider | QsProviderModel => insert_quota r snapshot s
  end.

Definition subject_is_registered (s : RegistryState) (subject : QuotaSubject) : bool :=
  existsb (fun e => subject_matches subject (e_registration e)) (entry_values s).

Definition prune_orphan_quotas (s : RegistryState) : RegistryState :=
  set_binding_quotas
    (retain (fun k _ => is_some (rs_entries s !! k.1)) (rs_binding_quotas s))
    (set_quotas (retain (fun k _ => subject_is_registered s k.1) (rs_quotas s)) s).

Definition recover_quotas (now : Instant) (s : RegistryState) : RegistryState :=
  set_binding_quotas (retain (fun _ q => negb (expired_at q now)) (rs_binding_quotas s))
    (set_quotas (retain (fun _ q => negb (expired_at q now)) (rs_quotas s)) s).

Definition persisted_subject `{Digest} (s : RegistryState) (identity : QuotaPersistenceIdentity)
  : option QuotaSubject :=
  let subject :=
    match identity with
    | PidCredential key =>
      (fun e => SubjCredential (reg_credential (e_registration e)))
        <$> List.find (fun e => quota_credential_matches key (reg_credential (e_registration e)))
              (entry_values s)
    | PidCredentialModel key model =>
      (fun e => SubjCredentialModel (reg_credential (e_registration e)) model)
        <$> List.find (fun e => quota_credential_matches key (reg_credential (e_registration e))
                          && beq model (reg_model (e_registration e)))
              (entry_values s)
    | PidProject p k => Some (SubjProject p k)
    | PidProjectModel p k m => Some (SubjProjectModel p k m)
    | PidProvider p => Some (SubjProvider p)
    | PidProviderModel p m => Some (SubjProviderModel p m)
    end in
  match subject with
  | Some subject => if subject_is_registered s subject then Some subject else None
  | None => None
  end.

(** * Affinity *)

Definition affinity_age_cmp (a b : AffinityKey * AffinityBinding) : comparison :=
  Z.compare (ab_last_used_at a.2) (ab_last_used_at b.2) <|> affinity_cmp a.1 b.1.

Definition oldest_affinity (m : gmap AffinityKey AffinityBinding) : option AffinityKey :=
  fst <$> min_by affinity_age_cmp (btree_list affinity_cmp m).

Definition insert_bounded_affinity (key : AffinityKey) (b : AffinityBinding) (s : RegistryState)
  : option AffinityKey * RegistryState :=
  let m := rs_affinity s in
  if negb (is_some (m !! key)) && (MAX_AFFINITY_BINDINGS <=? N.of_nat (size m)) then
    match oldest_affinity m with
    | Some oldest => (Some oldest, set_affinity_map (<[key := b]> (delete oldest m)) s)
    | None => (None, set_affinity_map (<[key := b]> m) s)
    end
  else (None, set_affinity_map (<[key := b]> m) s).

Definition purge_expired_affinity (now : Instant) (s : RegistryState) : RegistryState :=
  set_affinity_map (retain (fun _ b => negb (ab_expired_at b now)) (rs_affinity s)) s.

(** * Operations of [CredentialRegistry] *)

Definition register (registration : CredentialRegistration) (s : RegistryState) : RegistryState :=
  let binding := reg_binding registration in
  let old := rs_entries s !! binding in
  let '(order, s) :=
    match old with
    | Some entry => (e_order entry, s)
    | None => (rs_next_order s, set_next_order (sat_add U64_MAX (rs_next_order s) 1) s)
    end in
  let enabled := is_none_or old e_enabled in
  let in_flight := match old with Some entry => e_in_flight entry | None => 0 end in
  prune_orphan_quotas
    (set_entries (<[binding := MkEntry registration enabled in_flight order]> (rs_entries s)) s).

(** The state part of removing a list of bindings. *)
Definition remove_bindings (bindings : list BindingKey) (s : RegistryState) : RegistryState :=
  let gone := fun b => bool_decide (b ∈ bindings) in
  let s := set_entries (retain (fun b _ => negb (gone b)) (rs_entries s)) s in
  let s := set_binding_quotas (retain (fun k _ => negb (gone k.1)) (rs_binding_quotas s)) s in
  let s := set_affinity_map (retain (fun _ a => negb (gone (ab_binding a))) (rs_affinity s)) s in
  let s := set_smooth ((retain (fun b _ => negb (gone b))) <$> rs_smooth_current s) s in
  let s := set_round_robin
             (retain (fun k _ => negb (existsb (fun b => bool_decide (b ∈ k.2)) bindings))
                (rs_round_robin s)) s in
  prune_orphan_quotas s.

Definition unregister (credential : CredentialId) (r : RegistryInner) : bool * RegistryInner :=
  let s := ri_state r in
  let bindings := List.filter (fun b => beq (bk_account_id b) credential)
                    (btree_keys binding_cmp (rs_entries s)) in
  match bindings with
  | [] => (false, r)
  | _ => (true, MkInner (remove_bindings bindings s)
                  (foldl (fun h b => remove_binding b h) (ri_health r) bindings))
  end.

Definition unregister_binding (binding : BindingKey) (r : RegistryInner) : bool * RegistryInner :=
  match rs_entries (ri_state r) !! binding with
  | None => (false, r)
  | Some _ => (true, MkInner (remove_bindings [binding] (ri_state r))
                       (remove_binding binding (ri_health r)))
  end.

Definition owned_by (credential : CredentialId) (e : RegistryEntry) : bool :=
  beq (reg_credential (e_registration e)) credential.

Definition set_enabled (credential : CredentialId) (enabled : bool) (s : RegistryState)
  : bool * RegistryState :=
  (map_any (fun _ e => owned_by credential e) (rs_entries s),
   set_entries ((fun e => if owned_by credential e then entry_set_enabled enabled e else e)
                  <$> rs_entries s) s).

(** [set_credentials_enabled]: both locks are held over the whole loop. *)
Fixpoint set_credentials_enabled (changes : list (CredentialId * bool)) (r : RegistryInner)
  : bool * RegistryInner :=
  match changes with
  | [] => (false, r)
  | (credential, enabled) :: rest =>
    let '(c, s) := set_enabled credential enabled (ri_state r) in
    let h := if enabled then enable_credential credential (ri_health r)
             else disable_credential credential (ri_health r) in
    let '(c', r') := set_credentials_enabled rest (MkInner s h) in
    (c || c', r')
  end.

Definition set_binding_enabled (binding : BindingKey) (enabled : bool) (s : RegistryState)
  : bool * RegistryState :=
  match rs_entries s !! binding with
  | None => (false, s)
  | Some e => (true, set_entries (<[binding := entry_set_enabled enabled e]> (rs_entries s)) s)
  end.

Definition disable (credential : CredentialId) (r : RegistryInner) : bool * RegistryInner :=
  let '(c, s) := set_enabled credential false (ri_state r) in
  (c, MkInner s (disable_credential credential (ri_health r))).

Definition registry_disable_binding (b : BindingKey) (r : RegistryInner) : bool * RegistryInner :=
  let '(c, s) := set_binding_enabled b false (ri_state r) in
  (c, MkInner s (disable_binding b (ri_health r))).

Definition enable (credential : CredentialId) (r : RegistryInner) : bool * RegistryInner :=
  let '(c, s) := set_enabled credential true (ri_state r) in
  (c, MkInner s (enable_credential credential (ri_health r))).

Definition registry_enable_binding (b : BindingKey) (r : RegistryInner) : bool * RegistryInner :=
  let '(c, s) := set_binding_enabled b true (ri_state r) in
  (c, MkInner s (enable_binding b (ri_health r))).

(** The loop of [set_quota_snapshot]; an error keeps what earlier registrations
    of the credential already stored. *)
Fixpoint set_quota_loop (l : list CredentialRegistration) (snapshot : QuotaSnapshot) (changed : bool)
    (s : RegistryState) : Result bool SelectionError * RegistryState :=
  match l with
  | [] => (Ok changed, s)
  | r :: rest =>
    match insert_quota_for_binding (reg_binding r) r snapshot s with
    | (Err e, s') => (Err e, s')
    | (Ok b, s') => set_quota_loop rest snapshot (changed || b) s'
    end
  end.

Definition set_quota_snapshot (credential : CredentialId) (snapshot : QuotaSnapshot)
    (s : RegistryState) : Result bool SelectionError * RegistryState :=
  let l := map e_registration (List.filter (owned_by credential) (entry_values s)) in
  match l with
  | [] => (Ok false, s)
  | _ => set_quota_loop l snapshot false s
  end.

Definition set_quota (credential : CredentialId) (remaining : option N) (reset_at : option Instant)
    (now : Instant) (s : RegistryState) : Result bool SelectionError * RegistryState :=
  let state := if beq remaining (Some 0) then QExhausted
               else if is_some remaining then QAvailable else QUnknown in
  set_quota_snapshot credential
    (q_with_reset_at
      (q_with_window (quota_snapshot_new QsCredential Requests state now) None remaining) reset_at) s.

Definition set_binding_quota_snapshot (binding : BindingKey) (snapshot : QuotaSnapshot)
    (s : RegistryState) : Result bool SelectionError * RegistryState :=
  match rs_entries s !! binding with
  | None => (Ok false, s)
  | Some e => insert_quota_for_binding binding (e_registration e) snapshot s
  end.

Definition apply_quota_classification (credential : CredentialId) (c : QuotaClassification)
    (s : RegistryState) : Result bool SelectionError * RegistryState :=
  set_quota_snapshot credential (qc_snapshot c) s.

Definition apply_binding_quota_classification (binding : BindingKey) (c : QuotaClassification)
    (s : RegistryState) : Result bool SelectionError * RegistryState :=
  set_binding_quota_snapshot binding (qc_snapshot c) s.

Definition mark_quota_exhausted (credential : CredentialId) (reset_at : option Instant)
    (now : Instant) (s : RegistryState) : Result bool SelectionError * RegistryState :=
  set_quota credential (Some 0) reset_at now s.

Definition mark_binding_quota_exhausted (binding : BindingKey) (reset_at : option Instant)
    (now : Instant) (s : RegistryState) : Result bool SelectionError * RegistryState :=
  set_binding_quota_snapshot binding
    (q_with_reset_at
      (q_with_window (quota_snapshot_new QsCredential Requests QExhausted now) None (Some 0))
      reset_at) s.

(** The derived orders of the two quota tables' keys. *)
Definition quota_key_cmp (a b : QuotaSubject * QuotaUnit) : comparison :=
  subject_cmp a.1 b.1 <|> N.compare (quota_unit_index a.2) (quota_unit_index b.2).
Definition binding_quota_key_cmp (a b : BindingKey * QuotaUnit) : comparison :=
  binding_cmp a.1 b.1 <|> N.compare (quota_unit_index a.2) (quota_unit_index b.2).

Definition quota_snapshots (credential : CredentialId) (now : Instant) (s : RegistryState)
  : list QuotaSnapshot :=
  let owned := List.filter (owned_by credential) (entry_values s) in
  let bindings := map (fun e => reg_binding (e_registration e)) owned in
  match bindings with
  | [] => []
  | _ =>
    (List.filter
      (fun kv => existsb (fun e => subject_matches kv.1.1 (e_registration e)) owned
                 && negb (expired_at kv.2 now))
      (btree_list quota_key_cmp (rs_quotas s))).*2
    ++ (List.filter
         (fun kv => bool_decide (kv.1.1 ∈ bindings) && negb (expired_at kv.2 now))
         (btree_list binding_quota_key_cmp (rs_binding_quotas s))).*2
  end.

Definition binding_quota_snapshots (binding : BindingKey) (now : Instant) (s : RegistryState)
  : list QuotaSnapshot :=
  (List.filter (fun kv => beq kv.1.1 binding && negb (expired_at kv.2 now))
     (btree_list binding_quota_key_cmp (rs_binding_quotas s))).*2.

Definition quota_state_records `{Digest} (now : Instant) (now_unix_ms : N) (s : RegistryState)
  : list PersistedQuotaSnapshot * RegistryState :=
  let s := recover_quotas now s in
  (map (fun kv => from_runtime kv.1.1 kv.2 now now_unix_ms)
     (btree_list quota_key_cmp (rs_quotas s)), s).

(** The loop of [binding_quota_state_records]. *)
Fixpoint binding_records_loop `{Digest} (l : list ((BindingKey * QuotaUnit) * QuotaSnapshot))
    (now : Instant) (now_unix_ms : N) (s : RegistryState)
  : Result (list (BindingKey * PersistedQuotaSnapshot)) SelectionError :=
  match l with
  | [] => Ok []
  | ((binding, _), snapshot) :: rest =>
    match rs_entries s !! binding with
    | None => binding_records_loop rest now now_unix_ms s
    | Some e =>
      let? subject := quota_subject (e_registration e) (q_scope snapshot) in
      let? records := binding_records_loop rest now now_unix_ms s in
      Ok ((binding, from_runtime subject snapshot now now_unix_ms) :: records)
    end
  end.

Definition binding_quota_state_records `{Digest} (now : Instant) (now_unix_ms : N) (s : RegistryState)
  : Result (list (BindingKey * PersistedQuotaSnapshot)) SelectionError * RegistryState :=
  let s := recover_quotas now s in
  (binding_records_loop (btree_list binding_quota_key_cmp (rs_binding_quotas s)) now now_unix_ms s, s).

Definition restore_quota_state `{Digest} (record : PersistedQuotaSnapshot) (now : Instant)
    (now_unix_ms : N) (s : RegistryState) : Result bool SelectionError * RegistryState :=
  match to_runtime record now now_unix_ms with
  | Err e => (Err (InvalidQuotaState e), s)
  | Ok None => (Ok false, s)
  | Ok (Some snapshot) =>
    match persisted_subject s (pq_identity record) with
    | None => (Ok false, s)
    | Some subject => let '(b, s') := insert_quota_subject subject snapshot s in (Ok b, s')
    end
  end.

Definition restore_binding_quota_state (binding : BindingKey) (record : PersistedQuotaSnapshot)
    (now : Instant) (now_unix_ms : N) (s : RegistryState)
  : Result bool SelectionError * RegistryState :=
  match to_runtime record now now_unix_ms with
  | Err e => (Err (InvalidQuotaState e), s)
  | Ok None => (Ok false, s)
  | Ok (Some snapshot) =>
    match rs_entries s !! binding with
    | None => (Ok false, s)
    | Some e => insert_quota_for_binding binding (e_registration e) snapshot s
    end
  end.

(** [in_flight]; the outer [None] is the overflow of the [u32] sum, which an
    overflow-checked build panics on. *)
Definition in_flight (credential : CredentialId) (s : RegistryState) : option (option N) :=
  match List.filter (owned_by credential) (entry_values s) with
  | [] => Some None
  | owned =>
    let total := foldl (fun acc e => acc + e_in_flight e) 0 owned in
    if total <=? U32_MAX then Some (Some total) else None
  end.

Definition binding_in_flight (binding : BindingKey) (s : RegistryState) : option N :=
  e_in_flight <$> rs_entries s !! binding.

Definition registry_apply_failure (f : FailureClassification) (subject : HealthSubject)
    (now : Instant) (r : RegistryInner) : option (HealthMutation * RegistryInner) :=
  match apply_failure f subject now (ri_health r) with
  | None => None
  | Some (m, h) => Some (m, with_health h r)
  end.

Definition registry_restore_cooldown (scope : CooldownScope) (until : Instant) (r : RegistryInner)
  : RegistryInner := with_health (restore_cooldown scope until (ri_health r)) r.

Definition restore_affinity (key : AffinityKey) (credential : CredentialId) (provider : ProviderId)
    (model : ModelId) (last_used_at expires_at now : Instant) (s : RegistryState)
  : option AffinityKey * RegistryState :=
  match List.find (owned_by credential) (entry_values s) with
  | None => (None, s)
  | Some e =>
    insert_bounded_affinity key
      (MkAffinityBinding (reg_binding (e_registration e)) provider model last_used_at expires_at)
      (purge_expired_affinity now s)
  end.

Definition restore_affinity_binding (key : AffinityKey) (binding : BindingKey) (provider : ProviderId)
    (model : ModelId) (last_used_at expires_at now : Instant) (s : RegistryState)
  : option AffinityKey * RegistryState :=
  match rs_entries s !! binding with
  | None => (None, s)
  | Some _ =>
    insert_bounded_affinity key (MkAffinityBinding binding provider model last_used_at expires_at)
      (purge_expired_affinity now s)
  end.

Definition affinity_len (now : Instant) (s : RegistryState) : nat * RegistryState :=
  let s := purge_expired_affinity now s in (size (rs_affinity s), s).

(** * Model alias resolution: the loop terminates, computes the end of the alias
      chain, and registration keeps every chain finite. *)

Section path.
Context (aliases : gmap ModelId ModelId).

(** [m] leads to [r], which is not itself an alias. *)
Inductive alias_path : ModelId -> ModelId -> Prop :=
| path_end m : aliases !! m = None -> alias_path m m
| path_step m n r : aliases !! m = Some n -> alias_path n r -> alias_path m r.

Lemma alias_path_end m r : alias_path m r -> aliases !! r = None.
Proof. induction 1; done. Qed.

Lemma alias_path_inj m r r' : alias_path m r -> alias_path m r' -> r = r'.
Proof.
  intros H. revert r'. induction H as [m Hm|m n r Hm _ IH]; intros r' H'.
  - inversion H'; congruence.
  - inversion H'; simplify_eq. by apply IH.
Qed.

(** A model on its own chain leads nowhere: the chain's length would be less
    than itself. *)
Inductive alias_path_n : nat -> ModelId -> ModelId -> Prop :=
| pathn_end m : aliases !! m = None -> alias_path_n 0 m m
| pathn_step k m n r : aliases !! m = Some n -> alias_path_n k n r -> alias_path_n (S k) m r.

Lemma alias_path_has_length m r : alias_path m r -> exists k, alias_path_n k m r.
Proof. induction 1 as [|m n r Hm _ [k Hk]]; [exists 0%nat|exists (S k)]; by econstructor. Qed.

Lemma alias_path_n_inj k k' m r r' : alias_path_n k m r -> alias_path_n k' m r' -> k = k'.
Proof.
  intros H. revert k' r'. induction H as [m Hm|k m n r Hm _ IH]; intros k' r' H'.
  - inversion H'; congruence.
  - inversion H' as [|k1 ? n1 ? Hm' Hp]; simplify_eq. f_equal. by eapply IH.
Qed.
End path.

(** [x] reaches [y] in [k] steps. *)
Inductive steps_to (aliases : gmap ModelId ModelId) : nat -> ModelId -> ModelId -> Prop :=
| steps_refl m : steps_to aliases 0 m m
| steps_next k m n y : aliases !! m = Some n -> steps_to aliases k n y -> steps_to aliases (S k) m y.

Lemma steps_to_snoc aliases k x y z :
  steps_to aliases k x y -> aliases !! y = Some z -> steps_to aliases (S k) x z.
Proof. induction 1; intros; repeat (econstructor; eauto). Qed.

Lemma steps_to_path aliases k x y r n :
  steps_to aliases k x y -> alias_path_n aliases n x r -> exists n', (n = k + n')%nat /\ alias_path_n aliases n' y r.
Proof.
  intros H. revert n. induction H as [m|k m n y Hm _ IH]; intros j Hj; [by exists j|].
  inversion Hj as [|j' ? n' ? Hm' Hp]; simplify_eq.
  destruct (IH _ Hp) as (i & -> & Hi). by exists i.
Qed.

Lemma cycle_no_path aliases k x r : steps_to aliases (S k) x x -> ~ alias_path aliases x r.
Proof.
  intros Hc [n Hn]%alias_path_has_length.
  destruct (steps_to_path _ _ _ _ _ _ Hc Hn) as (n' & Heq & Hn').
  pose proof (alias_path_n_inj _ _ _ _ _ _ Hn Hn'). lia.
Qed.

Section loop.
Context (aliases : gmap ModelId ModelId).

Lemma seen_step (seen : gset ModelId) current next :
  aliases !! current = Some next ->
  (forall x, x ∈ seen -> is_Some (aliases !! x) /\ exists k, steps_to aliases (S k) x current) ->
  forall x, x ∈ ({[current]} ∪ seen : gset ModelId) ->
    is_Some (aliases !! x) /\ exists k, steps_to aliases (S k) x next.
Proof.
  intros E Hseen x [->%elem_of_singleton|Hx]%elem_of_union.
  - split; [eauto|]. exists 0%nat. econstructor; [done|]. constructor.
  - destruct (Hseen x Hx) as [? [k Hk]]. split; [done|]. exists (S k). by eapply steps_to_snoc.
Qed.

(** The loop with its invariant: [seen] are aliases, each of which reaches
    [current] in at least one step. *)
Lemma resolve_loop_spec fuel seen current :
  (forall x, x ∈ seen -> is_Some (aliases !! x) /\ exists k, steps_to aliases (S k) x current) ->
  (size aliases + 1 < fuel + size seen)%nat ->
  match resolve_loop fuel aliases seen current with
  | None => False
  | Some (Some r) => alias_path aliases current r
  | Some None => forall r, ~ alias_path aliases current r
  end.
Proof.
  revert seen current. induction fuel as [|fuel IH]; intros seen current Hseen Hfuel.
  - assert (Hsub : (size seen <= size aliases)%nat).
    { rewrite <- (size_dom aliases). apply subseteq_size. intros x Hx.
      apply elem_of_dom. by apply Hseen. }
    lia.
  - simpl. case_bool_decide as Hin.
    + intros r. destruct (Hseen _ Hin) as [_ [k Hk]]. by apply (cycle_no_path aliases k).
    + destruct (aliases !! current) as [next|] eqn:E; [|by constructor].
      assert (Hsz : (size aliases + 1 < fuel + size ({[current]} ∪ seen))%nat).
      { rewrite size_union, size_singleton by set_solver +Hin. lia. }
      specialize (IH ({[current]} ∪ seen) next (seen_step _ _ _ E Hseen) Hsz).
      destruct (resolve_loop fuel aliases ({[current]} ∪ seen) next) as [[r|]|]; [|intros r Hr|done].
      * by econstructor.
      * inversion Hr; simplify_eq. by eapply IH.
Qed.

Lemma resolve_alias_path m :
  match resolve_alias aliases m with
  | Some r => alias_path aliases m r
  | None => forall r, ~ alias_path aliases m r
  end.
Proof.
  pose proof (resolve_loop_spec (size aliases + 2) ∅ m) as H. unfold resolve_alias.
  destruct (resolve_loop _ _ _ _) as [[r|]|]; simpl; [apply H..|exfalso; apply H];
    first [intros x Hx; by apply elem_of_empty in Hx|rewrite size_empty; lia].
Qed.
End loop.

(** Alias resolution is total and exact: the loop never runs out of turns,
    and it returns the unique model at the end of the alias chain, which is not
    itself an alias, when the chain ends, and [None] exactly when it does not. *)
Theorem resolve_alias_correct aliases m :
  is_Some (resolve_loop (size aliases + 2) aliases ∅ m) /\
  (forall r, resolve_alias aliases m = Some r <-> alias_path aliases m r) /\
  (resolve_alias aliases m = None <-> forall r, ~ alias_path aliases m r) /\
  (forall r, resolve_alias aliases m = Some r -> aliases !! r = None).
Proof.
  pose proof (resolve_alias_path aliases m) as Hp. split.
  - pose proof (resolve_loop_spec aliases (size aliases + 2) ∅ m) as H.
    destruct (resolve_loop _ _ _ _); [eauto|]. exfalso. apply H; [|rewrite size_empty; lia].
    intros x Hx. by apply elem_of_empty in Hx.
  - destruct (resolve_alias aliases m) as [r|]; split_and!.
    + intros r'. split; [by intros [= <-]|]. intros H'. by rewrite (alias_path_inj _ _ _ _ Hp H').
    + split; [done|]. intros Hn. by destruct (Hn r).
    + intros r' [= <-]. by eapply alias_path_end.
    + intros r. split; [done|]. intros Hr. by destruct (Hp r).
    + done.
    + done.
Qed.

(** Every model resolves. *)
Definition aliases_acyclic (aliases : gmap ModelId ModelId) : Prop :=
  forall m, exists r, alias_path aliases m r.

Lemma insert_alias_acyclic aliases alias resolved r :
  aliases_acyclic aliases -> alias_path (<[alias := resolved]> aliases) alias r ->
  aliases_acyclic (<[alias := resolved]> aliases).
Proof.
  intros Hac Hr m. destruct (Hac m) as [x Hx].
  induction Hx as [m Hm|m n x Hm _ [y Hy]]; (destruct (decide (m = alias)) as [->|Hne]; [by eauto|]).
  - exists m. constructor. by rewrite lookup_insert_ne.
  - exists y. econstructor; [|done]. by rewrite lookup_insert_ne.
Qed.

Lemma undo_alias (aliases : gmap ModelId ModelId) alias resolved :
  match aliases !! alias with
  | Some p => <[alias := p]> (<[alias := resolved]> aliases)
  | None => delete alias (<[alias := resolved]> aliases)
  end = aliases.
Proof.
  destruct (aliases !! alias) as [p|] eqn:E.
  - by rewrite insert_insert_eq, insert_id.
  - by rewrite delete_insert_id.
Qed.

(** Registering an alias keeps every chain finite: an accepted alias leaves
    a table in which every model still resolves, the alias to the end of its
    target's chain; an alias is refused exactly when it would close a cycle, and
    a refusal leaves the registry as it was. *)
Theorem register_model_alias_safe alias resolved s :
  aliases_acyclic (rs_aliases s) ->
  match register_model_alias alias resolved s with
  | (Ok _, s') =>
      rs_aliases s' = <[alias := resolved]> (rs_aliases s) /\ aliases_acyclic (rs_aliases s') /\
      resolve_model alias s' = resolve_model resolved s'
  | (Err e, s') =>
      e = ModelAliasCycle /\ s' = s /\
      forall r, ~ alias_path (<[alias := resolved]> (rs_aliases s)) alias r
  end.
Proof.
  intros Hac. unfold register_model_alias.
  set (aliases := <[alias := resolved]> (rs_aliases s)).
  pose proof (resolve_alias_path aliases alias) as Hp.
  destruct (resolve_alias aliases alias) as [r|] eqn:E.
  - split; [done|]. split; [by eapply insert_alias_acyclic|].
    unfold resolve_model. simpl. rewrite E. simpl.
    inversion Hp as [m Hm|m n r' Hm Hpath]; subst;
      unfold aliases in Hm; rewrite lookup_insert_eq in Hm; simplify_eq.
    pose proof (resolve_alias_path aliases n) as Hn.
    destruct (resolve_alias aliases n) as [r'|]; simpl.
    + by eapply alias_path_inj.
    + by destruct (Hn r).
  - split; [done|]. split; [|done]. unfold aliases. rewrite undo_alias. by destruct s.
Qed.

Lemma register_model_alias_safe_witness :
  aliases_acyclic (rs_aliases (register_model_alias (MkModelId "fast") (MkModelId "small") state_new).2).
Proof.
  assert (H : aliases_acyclic (rs_aliases state_new)).
  { intros m. exists m. constructor. reflexivity. }
  pose proof (register_model_alias_safe (MkModelId "fast") (MkModelId "small") state_new H) as P.
  change (register_model_alias (MkModelId "fast") (MkModelId "small") state_new)
    with (Ok (E := SelectionError) tt,
          set_aliases (<[MkModelId "fast" := MkModelId "small"]> ∅) state_new) in *.
  apply P.
Defined.
