(* ===== verification/QuotaTable.v ===== *)
(** Quota windows in the registry: precedence of concurrent observations, and
    independence of the order in which they arrive. *)
From S2P Require Import Prelude Str Time CoreId Binding Quota Registration Registry.

Open Scope N_scope.

(** The order both insertions decide by: the later observation, then precedence. *)
Definition quota_cmp (a b : QuotaSnapshot) : comparison :=
  Z.compare (q_observed_at a) (q_observed_at b) <|> quota_precedence a b.

Lemma quota_replaces_cmp a b : quota_replaces a b = true <-> quota_cmp a b = Gt.
Proof.
  unfold quota_replaces, quota_cmp.
  destruct (Z.compare_spec (q_observed_at a) (q_observed_at b)) as [E|E|E]; simpl.
  - rewrite E, Z.ltb_irrefl, bool_decide_eq_true_2 by done. simpl.
    by destruct (quota_precedence a b).
  - rewrite bool_decide_eq_false_2 by lia. simpl. rewrite orb_false_r. split; [lia|done].
  - split; [done|]. intros _. destruct (Z.ltb_spec (q_observed_at b) (q_observed_at a)); [done|lia].
Qed.

#[export] Instance pre_later_deadline : PreCmp later_deadline.
Proof.
  split.
  - intros [x|] [y|]; simpl; try done. apply Z.compare_antisym.
  - intros [x|] [y|] [z|]; simpl; try done. rewrite !Z.compare_le_iff. lia.
Qed.

#[export] Instance pre_lower_value : PreCmp lower_value.
Proof.
  split.
  - intros [x|] [y|]; simpl; try done. apply N.compare_antisym.
  - intros [x|] [y|] [z|]; simpl; try done. rewrite !N.compare_le_iff. lia.
Qed.

#[export] Instance pre_quota_cmp : PreCmp quota_cmp.
Proof.
  apply pre_then; [apply (pre_key q_observed_at Z.compare), _|].
  unfold quota_precedence. repeat apply pre_then.
  - apply (pre_key quota_state_priority N.compare), _.
  - apply (pre_key q_reset_at later_deadline), _.
  - apply (pre_key q_remaining lower_value), _.
  - apply (pre_key q_limit lower_value), _.
Qed.

(** Windows the precedence does not distinguish agree on everything selection
    and recovery read of them. *)
Definition same_window (a b : QuotaSnapshot) : Prop :=
  q_observed_at a = q_observed_at b /\ q_reset_at a = q_reset_at b /\
  q_remaining a = q_remaining b /\ q_limit a = q_limit b /\
  forall now, exhausted a now = exhausted b now.

Lemma exhausted_priority s now :
  exhausted s now = negb (expired_at s now) && (quota_state_priority s =? 2).
Proof.
  unfold exhausted, expired_at, quota_state_priority. destruct (is_some_and _ _); simpl; [done|].
  destruct (_ || _); [done|]. by case_bool_decide.
Qed.

Lemma quota_cmp_eq a b : quota_cmp a b = Eq -> same_window a b.
Proof.
  unfold quota_cmp, quota_precedence. intros H.
  destruct (Z.compare_spec (q_observed_at a) (q_observed_at b)) as [E1|?|?]; simpl in H; try done.
  destruct (N.compare_spec (quota_state_priority a) (quota_state_priority b)) as [E2|?|?];
    simpl in H; try done.
  assert (Hd : forall x y, later_deadline x y = Eq -> x = y).
  { intros [x|] [y|]; simpl; try done. intros ?%Z.compare_eq. by subst. }
  assert (Hl : forall x y, lower_value x y = Eq -> x = y).
  { intros [x|] [y|]; simpl; try done. intros ?%N.compare_eq. by subst. }
  destruct (later_deadline _ _) eqn:E3; simpl in H; try done.
  destruct (lower_value (q_remaining a) _) eqn:E4; simpl in H; try done.
  apply Hd in E3. apply Hl in E4, H. repeat split; try done.
  intros now. rewrite !exhausted_priority. unfold expired_at. by rewrite E2, E3.
Qed.

(** ** Inserting a batch of observations into one window *)

(** The window a subject holds for a unit after a batch of observations. *)
Definition insert_batch (subject : QuotaSubject) (l : list QuotaSnapshot) (s : RegistryState)
  : RegistryState := foldl (fun s q => (insert_quota_subject subject q s).2) s l.

Lemma insert_quota_lookup subject q s unit :
  rs_quotas (insert_quota_subject subject q s).2 !! (subject, unit) =
  if beq unit (q_unit q) then
    match rs_quotas s !! (subject, unit) with
    | None => Some q
    | Some c => Some (match quota_cmp q c with Gt => q | _ => c end)
    end
  else rs_quotas s !! (subject, unit).
Proof.
  unfold insert_quota_subject. case_bool_decide as Hu.
  - subst unit. destruct (rs_quotas s !! (subject, q_unit q)) as [c|] eqn:E; simpl.
    + pose proof (quota_replaces_cmp q c) as Hr. destruct (quota_replaces q c); simpl.
      * rewrite lookup_insert_eq. rewrite (proj1 Hr eq_refl). done.
      * rewrite E. destruct (quota_cmp q c); try done. by specialize (proj2 Hr eq_refl).
    + by rewrite lookup_insert_eq.
  - destruct (rs_quotas s !! (subject, q_unit q)) as [c|]; simpl; [destruct (quota_replaces q c)|];
      simpl; rewrite ?lookup_insert_ne by congruence; done.
Qed.

Lemma insert_batch_max subject unit l s :
  let before := option_list (rs_quotas s !! (subject, unit)) in
  let inserted := List.filter (fun q => beq (q_unit q) unit) l in
  match rs_quotas (insert_batch subject l s) !! (subject, unit) with
  | None => before ++ inserted = []
  | Some w => w ∈ before ++ inserted /\ forall q, q ∈ before ++ inserted -> quota_cmp q w <> Gt
  end.
Proof.
  unfold insert_batch. revert s. induction l as [|q l IH]; intros s; simpl.
  - rewrite app_nil_r. destruct (rs_quotas s !! _) as [w|]; simpl; [|done].
    split; [by apply list_elem_of_singleton|]. intros q ->%list_elem_of_singleton.
    by rewrite (pre_refl quota_cmp).
  - specialize (IH (insert_quota_subject subject q s).2). simpl in IH.
    rewrite insert_quota_lookup in IH.
    rewrite (bool_decide_ext (q_unit q = unit) (unit = q_unit q)) by done.
    case_bool_decide as Hu; [|done].
    destruct (rs_quotas s !! (subject, unit)) as [c|] eqn:Ec; simpl in *; [|done].
    destruct (rs_quotas (foldl _ _ l) !! (subject, unit)) as [w|]; [|done].
    destruct IH as [Hin Hmax].
    assert (Hm : quota_cmp (match quota_cmp q c with Gt => q | _ => c end) w <> Gt)
      by (apply Hmax; left).
    split.
    + rewrite !elem_of_cons in *. destruct Hin as [->|?]; [|tauto]. destruct (quota_cmp q c); tauto.
    + intros x. rewrite !elem_of_cons. intros [->|[->|Hx]].
      * destruct (quota_cmp q c) eqn:E; [done..|]. eapply pre_trans; [apply _| |done].
        rewrite (pre_opp quota_cmp q c), E. done.
      * destruct (quota_cmp q c) eqn:E; [| |done]; (eapply pre_trans; [apply _| |done]; congruence).
      * apply Hmax. by right.
Qed.

(** The quota windows do not depend on the order in which observations are
    delivered: inserting the same observations in any order leaves, for every
    unit, windows with the same observation time, deadline, remaining allowance,
    limit and exhaustion at every instant; and the window kept is one of the
    observations, or the one that was there, that no other outranks. *)
Theorem quota_insert_order_independent subject l l' s unit :
  l ≡ₚ l' ->
  match rs_quotas (insert_batch subject l s) !! (subject, unit),
        rs_quotas (insert_batch subject l' s) !! (subject, unit) with
  | Some w, Some w' =>
      same_window w w' /\
      (rs_quotas s !! (subject, unit) = Some w \/ (w ∈ l /\ q_unit w = unit)) /\
      (forall q, q ∈ l -> q_unit q = unit -> quota_cmp q w <> Gt)
  | None, None => forall q, q ∈ l -> q_unit q <> unit
  | _, _ => False
  end.
Proof.
  intros Hperm.
  pose proof (insert_batch_max subject unit l s) as H. pose proof (insert_batch_max subject unit l' s) as H'.
  simpl in *.
  assert (Hf : forall q k, q ∈ List.filter (fun q => beq (q_unit q) unit) k <-> q ∈ k /\ q_unit q = unit).
  { intros q k. rewrite !list_elem_of_In, filter_In. by rewrite bool_decide_eq_true. }
  assert (Hmem : forall q, q ∈ option_list (rs_quotas s !! (subject, unit)) ++
      List.filter (fun q => beq (q_unit q) unit) l <->
      q ∈ option_list (rs_quotas s !! (subject, unit)) ++
      List.filter (fun q => beq (q_unit q) unit) l').
  { intros q. rewrite !elem_of_app, !Hf. by rewrite Hperm. }
  destruct (rs_quotas (insert_batch subject l s) !! _) as [w|];
    destruct (rs_quotas (insert_batch subject l' s) !! _) as [w'|].
  - destruct H as [Hin Hmax], H' as [Hin' Hmax']. split; [|split].
    + apply quota_cmp_eq. pose proof (Hmax' w (proj1 (Hmem w) Hin)) as H1.
      pose proof (Hmax w' (proj2 (Hmem w') Hin')) as H2.
      rewrite (pre_opp quota_cmp w w') in H2. by destruct (quota_cmp w w').
    + rewrite elem_of_app, Hf in Hin. destruct Hin as [Hin|?]; [|by right]. left.
      destruct (rs_quotas s !! _); simpl in Hin; [|by apply elem_of_nil in Hin].
      by apply list_elem_of_singleton in Hin as ->.
    + intros q Hq Hu. apply Hmax, elem_of_app. right. by apply Hf.
  - destruct H as [Hin _]. rewrite Hmem, H' in Hin. by apply elem_of_nil in Hin.
  - destruct H' as [Hin' _]. rewrite <- Hmem, H in Hin'. by apply elem_of_nil in Hin'.
  - intros q Hq Hu. assert (Hin : q ∈ option_list (rs_quotas s !! (subject, unit)) ++
      List.filter (fun q => beq (q_unit q) unit) l) by (apply elem_of_app; right; by apply Hf).
    rewrite H in Hin. by apply elem_of_nil in Hin.
Qed.

Lemma quota_insert_order_independent_witness :
  let p := SubjProvider (MkProviderId "p") in
  let a := quota_snapshot_new QsProvider Tokens QAvailable 5 in
  let b := quota_snapshot_new QsProvider Tokens QExhausted 5 in
  match rs_quotas (insert_batch p [a; b] state_new) !! (p, Tokens),
        rs_quotas (insert_batch p [b; a] state_new) !! (p, Tokens) with
  | Some w, Some w' => exhausted w 9 = exhausted w' 9
  | _, _ => False
  end.
Proof.
  intros p a b.
  assert (Hp : [a; b] ≡ₚ [b; a]) by constructor.
  pose proof (quota_insert_order_independent p [a; b] [b; a] state_new Tokens Hp) as P.
  destruct (rs_quotas (insert_batch p [a; b] state_new) !! _) as [w|];
    destruct (rs_quotas (insert_batch p [b; a] state_new) !! _) as [w'|]; try done.
  - apply P.
  - apply (P a); [by left|done].
Defined.
