(* ===== verification/Evaluate.v ===== *)
(** Candidate evaluation (crates/pooler-policy/src/selection.rs,
    [evaluate_candidates] and its helpers): the hard filters, in the order the
    source pushes their reasons, and the ranking metrics. *)
From S2P Require Import Prelude Str Time CoreId Capabilities Classify Binding Health Quota Explain Telemetry Registration Registry.

Open Scope N_scope.

Record RoutingMetric := MkRoutingMetric {
  rm_known : bool;
  rm_meets_threshold : bool;
  rm_value : N;
  rm_lower_is_better : bool;
}.

Record CandidateEvaluation := MkEvaluation {
  ev_entry : RegistryEntry;
  ev_reasons : list FilterReason;
  ev_metrics : list RoutingMetric;
}.

Definition ev_registration (e : CandidateEvaluation) : CredentialRegistration :=
  e_registration (ev_entry e).

Definition score (e : CandidateEvaluation) (strategy : SelectionStrategy) : f64 :=
  match strategy with
  | HealthWeighted =>
    f64_div (f64_of_N (effective_weight (ev_registration e)))
      (f64_of_N (sat_add U32_MAX (e_in_flight (ev_entry e)) 1))
  | SmoothWeightedRoundRobin => f64_of_N (effective_weight (ev_registration e))
  | LeastInFlight => f64_div (f64_of_N 1) (f64_of_N (sat_add U32_MAX (e_in_flight (ev_entry e)) 1))
  | RoundRobin | FillFirst | OrderedFallback => f64_of_N 0
  end.

(** * Helpers *)

Definition target_matches_registration (target : string) (r : CredentialRegistration) : bool :=
  let identity := target_str (reg_target_id r) in
  beq target identity
  || is_some_and (after_last SLASH identity) (fun stable_target => beq target stable_target).

Definition set_is_empty (s : gset string) : bool := bool_decide (s = ∅).
Definition set_contains (s : gset string) (x : string) : bool := bool_decide (x ∈ s).
(** [set.iter().any(|target| target_matches_registration(target, registration))]. *)
Definition any_target (s : gset string) (r : CredentialRegistration) : bool :=
  existsb (fun target => target_matches_registration target r) (btree_elements String.compare s).

Definition routing_config_allows (r : CredentialRegistration) (q : RoutingRequirements) : bool :=
  let provider := provider_str (reg_provider r) in
  (set_is_empty (rr_provider_allow q) || set_contains (rr_provider_allow q) provider)
  && negb (set_contains (rr_provider_deny q) provider)
  && (set_is_empty (rr_target_allow q) || any_target (rr_target_allow q) r)
  && negb (any_target (rr_target_deny q) r).

Definition fact_metric (value threshold : option N) (lower_is_better : bool) : RoutingMetric :=
  MkRoutingMetric (is_some value)
    (is_some_and value (fun v => is_none_or threshold (fun limit => v <=? limit)))
    (default U64_MAX value) lower_is_better.

Definition routing_metrics (r : CredentialRegistration) (request : SelectionRequest)
  : list RoutingMetric :=
  match sr_routing request with
  | None => []
  | Some q =>
    let sample := sr_telemetry request !! reg_binding r in
    let fresh := is_some_and sample (fun s =>
      fresh_at s (sr_telemetry_now_ms request) (rr_min_samples q) (rr_stale_after_ms q)) in
    (if rr_prefer_price q
     then [fact_metric (fact_value (cf_price (reg_facts r))) (rr_max_price q) true] else [])
    ++ (if rr_prefer_latency q then
          let value := if fresh then sample ≫= ts_latency_ms else None in
          [MkRoutingMetric (is_some value)
             (is_some_and value (fun v => is_none_or (rr_max_latency_ms q) (fun limit => v <=? limit)))
             (default U64_MAX value) true]
        else [])
    ++ (if rr_prefer_throughput q then
          let value := if fresh then sample ≫= ts_throughput_per_second else None in
          [MkRoutingMetric (is_some value)
             (is_some_and value (fun v => is_none_or (rr_min_throughput q) (fun minimum => minimum <=? v)))
             (default 0 value) false]
        else [])
  end.

Definition cooldown_filter_reason (k : CooldownScopeKind) : FilterReason :=
  match k with
  | KCredential => CredentialCooldown
  | KCredentialModel => CredentialModelCooldown
  | KModel => ModelCooldown
  | KProvider => ProviderCooldown
  | KProviderModel => ProviderModelCooldown
  | KRoute => RouteCooldown
  end.

(** * Filters *)

(** [if cond { reasons.push(reason) }]. *)
Definition when (cond : bool) (reason : FilterReason) : list FilterReason :=
  if cond then [reason] else [].

(** The reasons pushed so far, or those of an early [return]. *)
Inductive Flow := Continue (reasons : list FilterReason) | Return (reasons : list FilterReason).
Definition flow_reasons (f : Flow) : list FilterReason :=
  match f with Continue l | Return l => l end.
Definition and_then (f : Flow) (k : unit -> Flow) : Flow :=
  match f with
  | Return l => Return l
  | Continue l => match k tt with Return l' => Return (l ++ l') | Continue l' => Continue (l ++ l') end
  end.

(** Provider and target lists and the fallback tier. *)
Definition routing_lists (q : RoutingRequirements) (fallback_priority : option N)
    (r : CredentialRegistration) (model : ModelId) : list FilterReason :=
  let provider := provider_str (reg_provider r) in
  when (negb (set_is_empty (rr_provider_allow q)) && negb (set_contains (rr_provider_allow q) provider))
    ProviderNotAllowed
  ++ when (set_contains (rr_provider_deny q) provider) ProviderDenied
  ++ when (negb (set_is_empty (rr_target_allow q)) && negb (any_target (rr_target_allow q) r))
       TargetNotAllowed
  ++ when (any_target (rr_target_deny q) r) TargetDenied
  ++ when (negb (rr_allow_fallbacks q)
           && is_some_and fallback_priority (fun p => (p <? reg_priority r) && beq (reg_model r) model))
       FallbackDisabled.

Definition routing_parameters (q : RoutingRequirements) (f : CandidateFacts) : Flow :=
  if set_is_empty (rr_required_parameters q) then Continue []
  else match fact_value (cf_parameters f) with
  | None => Return [UnknownParameters]
  | Some parameters =>
    Continue (map MissingParameter
      (List.filter (fun p => negb (set_contains parameters p))
         (btree_elements String.compare (rr_required_parameters q))))
  end.

Definition missing_capabilities (required available : CapabilitySet.t) : list FilterReason :=
  map (fun c => MissingCapability (capability_str c))
    (CapabilitySet.iter (CapabilitySet.difference required available)).

Definition routing_capabilities (q : RoutingRequirements) (f : CandidateFacts) : Flow :=
  if CapabilitySet.is_empty (rr_required_capabilities q) then Continue []
  else match fact_value (cf_capabilities f) with
  | None => Return [MissingCapability "unknown"]
  | Some available => Continue (missing_capabilities (rr_required_capabilities q) available)
  end.

Definition routing_context (q : RoutingRequirements) (f : CandidateFacts) : list FilterReason :=
  match rr_minimum_context q with
  | None => []
  | Some minimum =>
    match fact_value (cf_context_window f) with
    | Some v => if minimum <=? v then [] else [MissingContext]
    | None => [UnknownContext]
    end
  end.

Definition routing_quantization (q : RoutingRequirements) (f : CandidateFacts) : Flow :=
  if set_is_empty (rr_quantization q) then Continue []
  else match fact_value (cf_quantization f) with
  | None => Return [UnknownQuantization]
  | Some values =>
    Continue (map MissingQuantization
      (List.filter (fun p => negb (set_contains values p))
         (btree_elements String.compare (rr_quantization q))))
  end.

(** A label that must be matched up to ASCII case. *)
Definition routing_label (required : option string) (fact : RoutingFact string)
    (mismatch unknown : FilterReason) : list FilterReason :=
  match required with
  | None => []
  | Some required =>
    match fact_value fact with
    | Some v => if eq_ignore_ascii_case v required then [] else [mismatch]
    | None => [unknown]
    end
  end.

Definition routing_zdr (q : RoutingRequirements) (f : CandidateFacts) : list FilterReason :=
  if rr_require_zdr q then
    match fact_value (cf_zdr f) with
    | Some true => []
    | Some false => [ZdrRequired]
    | None => [UnknownZdr]
    end
  else [].

Definition routing_price (q : RoutingRequirements) (f : CandidateFacts) : list FilterReason :=
  match rr_max_price q with
  | None => []
  | Some max_price =>
    match fact_value (cf_price f) with
    | Some v => if v <=? max_price then [] else [PriceExceeded]
    | None => [UnknownPrice]
    end
  end.

(** The [if let Some(routing)] block. *)
Definition routing_reasons (q : RoutingRequirements) (fallback_priority : option N)
    (r : CredentialRegistration) (model : ModelId) : Flow :=
  let f := reg_facts r in
  and_then (Continue (routing_lists q fallback_priority r model)) (fun _ =>
  and_then (routing_parameters q f) (fun _ =>
  and_then (routing_capabilities q f) (fun _ =>
  and_then (Continue (routing_context q f)) (fun _ =>
  and_then (routing_quantization q f) (fun _ =>
  Continue
    (routing_label (rr_privacy q) (cf_privacy f) PrivacyMismatch UnknownPrivacy
     ++ routing_zdr q f
     ++ routing_label (rr_data_policy q) (cf_data_policy f) DataPolicyMismatch UnknownDataPolicy
     ++ routing_label (rr_region q) (cf_region f) RegionMismatch UnknownRegion
     ++ routing_price q f)))))).

(** Allow lists, exclusions, pool, model, capabilities and codec of the request. *)
Definition request_reasons (r : CredentialRegistration) (request : SelectionRequest)
  : list FilterReason :=
  when (is_some_and (sr_allowed_credentials request) (fun a => negb (bool_decide (reg_credential r ∈ a)))
        || is_some_and (sr_allowed_bindings request) (fun a => negb (bool_decide (reg_binding r ∈ a))))
    RoutePolicy
  ++ when (bool_decide (reg_credential r ∈ sr_excluded_credentials request)
           || bool_decide (reg_binding r ∈ sr_excluded_bindings request)) RoutePolicy
  ++ when (is_some_and (sr_pool_id request) (fun pool => negb (beq (reg_pool_id r) (Some pool))))
       RoutePolicy
  ++ when (negb (beq (reg_model r) (sr_model request))) ModelMismatch
  ++ missing_capabilities (sr_required_capabilities request) (reg_capabilities r)
  ++ match sr_codec request with
     | Some codec => when (negb (set_contains (reg_codecs r) codec)) (CodecUnavailable codec)
     | None => []
     end.

Definition candidate_subject (r : CredentialRegistration) (request : SelectionRequest)
  : HealthSubject :=
  MkHealthSubject (Some (reg_credential r)) (Some (reg_model r)) (Some (reg_provider r))
    (sr_route request) (Some (reg_binding r)).

Definition disabled_in_health (h : HealthRegistry) (r : CredentialRegistration) : bool :=
  status_is_disabled (hr_credentials h !! reg_credential r)
  || status_is_disabled (hr_bindings h !! reg_binding r).

Definition health_reasons (h : HealthRegistry) (r : CredentialRegistration) (request : SelectionRequest)
  : list FilterReason :=
  if disabled_in_health h r then [Disabled_]
  else map cooldown_filter_reason
         (target_cooldown_scopes h (candidate_subject r request) (sr_now request)).

Definition at_capacity (e : RegistryEntry) : bool :=
  is_some_and (reg_max_in_flight (e_registration e)) (fun limit => limit <=? e_in_flight e).

Definition quota_blocked (s : RegistryState) (r : CredentialRegistration) (now : Instant) : bool :=
  map_any (fun k q => subject_matches k.1 r && exhausted q now) (rs_quotas s)
  || map_any (fun k q => beq k.1 (reg_binding r) && exhausted q now) (rs_binding_quotas s).

(** The filters after the routing block. *)
Definition candidate_reasons (s : RegistryState) (h : HealthRegistry) (request : SelectionRequest)
    (e : RegistryEntry) : list FilterReason :=
  let r := e_registration e in
  request_reasons r request
  ++ when (negb (e_enabled e)) CredentialUnavailable
  ++ health_reasons h r request
  ++ when (at_capacity e) ConcurrencyLimit
  ++ when (quota_blocked s r (sr_now request)) QuotaExhausted.

Definition evaluate_entry (s : RegistryState) (h : HealthRegistry) (request : SelectionRequest)
    (fallback_priority : option N) (e : RegistryEntry) : CandidateEvaluation :=
  let r := e_registration e in
  let routing := match sr_routing request with
                 | Some q => routing_reasons q fallback_priority r (sr_model request)
                 | None => Continue []
                 end in
  MkEvaluation e
    (flow_reasons (and_then routing (fun _ => Continue (candidate_reasons s h request e))))
    (routing_metrics r request).

Definition fallback_priority (entries : list RegistryEntry) (request : SelectionRequest) : option N :=
  sr_routing request ≫= fun q =>
    min_N (map (fun e => reg_priority (e_registration e))
      (List.filter (fun e => beq (reg_model (e_registration e)) (sr_model request)
                             && routing_config_allows (e_registration e) q) entries)).

Definition evaluate_candidates (s : RegistryState) (h : HealthRegistry) (request : SelectionRequest)
  : list CandidateEvaluation :=
  let entries := sort_by (fun a b => N.compare (e_order a) (e_order b)) (sorted_entries s) in
  map (evaluate_entry s h request (fallback_priority entries request)) entries.

(** * What the filters decide: a candidate has no filter reason exactly when it
      meets every hard requirement of the request, the registry and its health. *)

(** * The specification *)

(** A required set of labels is covered by a known fact. *)
Definition labels_covered (required : gset string) (fact : RoutingFact (gset string)) : Prop :=
  required = ∅ \/ exists known, fact_value fact = Some known /\ required ⊆ known.

(** A required value is met by a known fact. *)
Definition fact_meets {A B} (P : A -> B -> Prop) (required : option A) (fact : RoutingFact B) : Prop :=
  forall req, required = Some req -> exists v, fact_value fact = Some v /\ P req v.

Definition covers (offered required : CapabilitySet.t) : Prop :=
  forall c, CapabilitySet.contains required c = true -> CapabilitySet.contains offered c = true.

Record routing_met (q : RoutingRequirements) (fallback : option N) (r : CredentialRegistration)
    (model : ModelId) : Prop := {
  met_provider_allow :
    rr_provider_allow q = ∅ \/ provider_str (reg_provider r) ∈ rr_provider_allow q;
  met_provider_deny : provider_str (reg_provider r) ∉ rr_provider_deny q;
  met_target_allow : rr_target_allow q = ∅ \/
    exists t, t ∈ rr_target_allow q /\ target_matches_registration t r = true;
  met_target_deny : forall t, t ∈ rr_target_deny q -> target_matches_registration t r = false;
  met_fallback : rr_allow_fallbacks q = true \/
    forall p, fallback = Some p -> reg_model r = model -> reg_priority r <= p;
  met_parameters : labels_covered (rr_required_parameters q) (cf_parameters (reg_facts r));
  met_capabilities : CapabilitySet.is_empty (rr_required_capabilities q) = true \/
    exists offered, fact_value (cf_capabilities (reg_facts r)) = Some offered /\
      covers offered (rr_required_capabilities q);
  met_context : fact_meets N.le (rr_minimum_context q) (cf_context_window (reg_facts r));
  met_quantization : labels_covered (rr_quantization q) (cf_quantization (reg_facts r));
  met_privacy : fact_meets (fun a b => eq_ignore_ascii_case b a = true) (rr_privacy q)
    (cf_privacy (reg_facts r));
  met_zdr : rr_require_zdr q = true -> fact_value (cf_zdr (reg_facts r)) = Some true;
  met_data_policy : fact_meets (fun a b => eq_ignore_ascii_case b a = true) (rr_data_policy q)
    (cf_data_policy (reg_facts r));
  met_region : fact_meets (fun a b => eq_ignore_ascii_case b a = true) (rr_region q)
    (cf_region (reg_facts r));
  met_price : fact_meets (fun a b => b <= a) (rr_max_price q) (cf_price (reg_facts r));
}.

Record request_met (r : CredentialRegistration) (request : SelectionRequest) : Prop := {
  met_allowed_credentials : forall a, sr_allowed_credentials request = Some a -> reg_credential r ∈ a;
  met_allowed_bindings : forall a, sr_allowed_bindings request = Some a -> reg_binding r ∈ a;
  met_excluded_credentials : reg_credential r ∉ sr_excluded_credentials request;
  met_excluded_bindings : reg_binding r ∉ sr_excluded_bindings request;
  met_pool : forall pool, sr_pool_id request = Some pool -> reg_pool_id r = Some pool;
  met_model : reg_model r = sr_model request;
  met_required_capabilities : covers (reg_capabilities r) (sr_required_capabilities request);
  met_codec : forall codec, sr_codec request = Some codec -> codec ∈ reg_codecs r;
}.

Record runtime_met (s : RegistryState) (h : HealthRegistry) (request : SelectionRequest)
    (e : RegistryEntry) : Prop := {
  met_enabled : e_enabled e = true;
  met_credential_health :
    status_is_disabled (hr_credentials h !! reg_credential (e_registration e)) = false;
  met_binding_health :
    status_is_disabled (hr_bindings h !! reg_binding (e_registration e)) = false;
  met_cooldown : forall scope, applies_to (candidate_subject (e_registration e) request) scope ->
    is_cooling_down h scope (sr_now request) = false;
  met_concurrency : forall limit, reg_max_in_flight (e_registration e) = Some limit ->
    e_in_flight e < limit;
  met_quota : forall subject u q, rs_quotas s !! (subject, u) = Some q ->
    subject_matches subject (e_registration e) = true -> exhausted q (sr_now request) = false;
  met_binding_quota : forall u q,
    rs_binding_quotas s !! (reg_binding (e_registration e), u) = Some q ->
    exhausted q (sr_now request) = false;
}.

Definition hard_requirements (s : RegistryState) (h : HealthRegistry) (request : SelectionRequest)
    (fallback : option N) (e : RegistryEntry) : Prop :=
  (forall q, sr_routing request = Some q ->
     routing_met q fallback (e_registration e) (sr_model request)) /\
  request_met (e_registration e) request /\
  runtime_met s h request e.

(** * Each filter *)

Lemma app_nil {A} (l k : list A) : l ++ k = [] <-> l = [] /\ k = [].
Proof. split; [apply app_eq_nil|by intros [-> ->]]. Qed.

Lemma when_nil c r : when c r = [] <-> c = false.
Proof. by destruct c. Qed.

Lemma map_filter_nil {A B} (f : A -> B) (p : A -> bool) (l : list A) :
  map f (List.filter p l) = [] <-> forall x, x ∈ l -> p x = false.
Proof.
  split.
  - intros H%map_eq_nil x Hx. apply not_true_iff_false. intros Hp.
    assert (Hin : In x (List.filter p l)) by (apply filter_In; split; [by apply list_elem_of_In|done]).
    by rewrite H in Hin.
  - intros H. destruct (List.filter p l) as [|x rest] eqn:E; [done|].
    assert (Hin : In x (x :: rest)) by by left. rewrite <- E in Hin.
    apply filter_In in Hin as [Hin Hp]. rewrite H in Hp; [done|]. by apply list_elem_of_In.
Qed.

Lemma any_target_false s r :
  any_target s r = false <-> forall t, t ∈ s -> target_matches_registration t r = false.
Proof.
  unfold any_target. rewrite <- not_true_iff_false, existsb_exists. split.
  - intros H t Ht. apply not_true_iff_false. intros Hm. apply H. exists t. split; [|done].
    by apply list_elem_of_In, elem_of_btree_elements.
  - intros H (t & Hin & Hm). apply list_elem_of_In, elem_of_btree_elements in Hin.
    rewrite H in Hm; done.
Qed.

Lemma any_target_true s r :
  any_target s r = true <-> exists t, t ∈ s /\ target_matches_registration t r = true.
Proof.
  unfold any_target. rewrite existsb_exists. split; intros (t & Ht & ?); exists t; (split; [|done]).
  - by apply list_elem_of_In, elem_of_btree_elements in Ht.
  - by apply list_elem_of_In, elem_of_btree_elements.
Qed.

Lemma missing_capabilities_nil required offered :
  missing_capabilities required offered = [] <-> covers offered required.
Proof.
  unfold missing_capabilities, covers. split.
  - intros H%map_eq_nil c Hc. destruct (CapabilitySet.contains offered c) eqn:E; [done|].
    assert (Hin : c ∈ CapabilitySet.iter (CapabilitySet.difference required offered)).
    { apply CapabilitySet.elem_of_iter. by rewrite CapabilitySet.contains_difference, Hc, E. }
    rewrite H in Hin. by apply elem_of_nil in Hin.
  - intros H. destruct (CapabilitySet.iter _) as [|c l] eqn:E; [done|].
    assert (Hin : c ∈ CapabilitySet.iter (CapabilitySet.difference required offered))
      by (rewrite E; left).
    apply CapabilitySet.elem_of_iter in Hin. rewrite CapabilitySet.contains_difference in Hin.
    apply andb_true_iff in Hin as [Hr Ho]. rewrite H in Ho; done.
Qed.

Lemma labels_nil (required known : gset string) (f : string -> FilterReason) :
  map f (List.filter (fun p => negb (set_contains known p)) (btree_elements String.compare required))
    = [] <-> required ⊆ known.
Proof.
  rewrite map_filter_nil. unfold set_contains. split.
  - intros H x Hx. specialize (H x). rewrite elem_of_btree_elements in H. specialize (H Hx).
    apply negb_false_iff, bool_decide_eq_true in H. done.
  - intros H x Hx%elem_of_btree_elements. apply negb_false_iff, bool_decide_eq_true. by apply H.
Qed.

Lemma label_nil required fact a b :
  routing_label required fact a b = [] <->
  fact_meets (fun x y => eq_ignore_ascii_case y x = true) required fact.
Proof.
  unfold routing_label, fact_meets. destruct required as [req|]; [|by split].
  destruct (fact_value fact) as [v|].
  - destruct (eq_ignore_ascii_case v req) eqn:E; split; try done.
    + intros _ x [= <-]. eauto.
    + intros H. destruct (H req eq_refl) as (y & [= <-] & ?). congruence.
  - split; [done|]. intros H. by destruct (H req eq_refl) as (y & ? & ?).
Qed.

Lemma bound_nil {A} (required : option N) (fact : RoutingFact N) (ok : N -> N -> bool)
    (P : N -> N -> Prop) (a b : A) :
  (forall x y, ok x y = true <-> P x y) ->
  match required with
  | None => []
  | Some x => match fact_value fact with
              | Some v => if ok x v then [] else [a] | None => [b] end
  end = [] <-> fact_meets P required fact.
Proof.
  intros Hok. unfold fact_meets. destruct required as [x|]; [|by split].
  destruct (fact_value fact) as [v|].
  - specialize (Hok x v). destruct (ok x v); split; try done.
    + intros _ y [= <-]. exists v. split; [done|]. by apply Hok.
    + intros H. destruct (H x eq_refl) as (y & [= <-] & HP). by apply Hok in HP.
  - split; [done|]. intros H. by destruct (H x eq_refl) as (y & ? & ?).
Qed.

(** The reasons of a flow that does not return early. *)
Lemma and_then_nil f k :
  flow_reasons (and_then f k) = [] <-> match f with
  | Continue l => l = [] /\ flow_reasons (k tt) = []
  | Return l => l = []
  end.
Proof.
  destruct f as [l|l]; simpl; [|done]. destruct (k tt); simpl; apply app_nil.
Qed.

Lemma routing_lists_nil q fb r model :
  routing_lists q fb r model = [] <->
  (rr_provider_allow q = ∅ \/ provider_str (reg_provider r) ∈ rr_provider_allow q) /\
  (provider_str (reg_provider r) ∉ rr_provider_deny q) /\
  (rr_target_allow q = ∅ \/ exists t, t ∈ rr_target_allow q /\ target_matches_registration t r = true) /\
  (forall t, t ∈ rr_target_deny q -> target_matches_registration t r = false) /\
  (rr_allow_fallbacks q = true \/
   forall p, fb = Some p -> reg_model r = model -> reg_priority r <= p).
Proof.
  unfold routing_lists. rewrite !app_nil, !when_nil.
  rewrite !andb_false_iff, !negb_false_iff, any_target_true, any_target_false.
  unfold set_is_empty, set_contains. rewrite !bool_decide_eq_true, bool_decide_eq_false.
  assert (Hfb : is_some_and fb (fun p => (p <? reg_priority r) && beq (reg_model r) model) = false <->
    forall p, fb = Some p -> reg_model r = model -> reg_priority r <= p).
  { destruct fb as [p|]; simpl; [|by split].
    rewrite andb_false_iff, N.ltb_ge, bool_decide_eq_false. split.
    - intros [H|H] p' [= <-] Hm; [done|by destruct H].
    - intros H. destruct (decide (reg_model r = model)); [left; by apply H|by right]. }
  rewrite Hfb. tauto.
Qed.

Lemma routing_capabilities_nil q f :
  match routing_capabilities q f with Continue l => l = [] | Return _ => False end <->
  (CapabilitySet.is_empty (rr_required_capabilities q) = true \/
   exists offered, fact_value (cf_capabilities f) = Some offered /\
     covers offered (rr_required_capabilities q)).
Proof.
  unfold routing_capabilities. destruct (CapabilitySet.is_empty _); [by split; [left|]|].
  destruct (fact_value _) as [offered|].
  - rewrite missing_capabilities_nil. split; [by eauto|]. by intros [?|(o & [= <-] & ?)].
  - split; [done|]. by intros [?|(o & ? & ?)].
Qed.

Lemma labels_flow (required : gset string) (fact : RoutingFact (gset string)) f e :
  match (if set_is_empty required then Continue []
         else match fact_value fact with
              | None => Return [e]
              | Some known => Continue (map f (List.filter (fun p => negb (set_contains known p))
                                (btree_elements String.compare required)))
              end) with Continue l => l = [] | Return _ => False end <->
  labels_covered required fact.
Proof.
  unfold set_is_empty, labels_covered. case_bool_decide; [by split; [left|]|].
  destruct (fact_value fact) as [known|].
  - rewrite labels_nil. split; [by eauto|]. by intros [?|(k & [= <-] & ?)].
  - split; [done|]. by intros [?|(k & ? & ?)].
Qed.

(** Early returns carry a reason. *)
Lemma and_then_nil' f k :
  (forall l, f = Return l -> l <> []) ->
  flow_reasons (and_then f k) = [] <->
  match f with Continue l => l = [] | Return _ => False end /\ flow_reasons (k tt) = [].
Proof.
  intros Hne. rewrite and_then_nil. destruct f as [l|l]; [done|].
  specialize (Hne l eq_refl). tauto.
Qed.

Lemma routing_zdr_nil q f :
  routing_zdr q f = [] <-> (rr_require_zdr q = true -> fact_value (cf_zdr f) = Some true).
Proof.
  unfold routing_zdr. destruct (rr_require_zdr q); [|by split].
  destruct (fact_value (cf_zdr f)) as [[]|]; split; intros H; try done; by specialize (H eq_refl).
Qed.

Lemma routing_reasons_nil q fb r model :
  flow_reasons (routing_reasons q fb r model) = [] <-> routing_met q fb r model.
Proof.
  unfold routing_reasons.
  rewrite and_then_nil' by done. rewrite routing_lists_nil.
  rewrite and_then_nil' by (intros l; unfold routing_parameters; repeat case_match; congruence).
  rewrite and_then_nil' by (intros l; unfold routing_capabilities; repeat case_match; congruence).
  rewrite and_then_nil' by done.
  rewrite and_then_nil' by (intros l; unfold routing_quantization; repeat case_match; congruence).
  simpl flow_reasons. rewrite !app_nil, !label_nil, routing_zdr_nil, routing_capabilities_nil.
  unfold routing_parameters, routing_quantization. rewrite !labels_flow.
  unfold routing_context, routing_price.
  rewrite (bound_nil _ _ N.leb N.le) by apply N.leb_le.
  rewrite (bound_nil _ _ (fun x v => v <=? x) (fun a b => b <= a)) by (intros; apply N.leb_le).
  split; [intros; split; tauto|intros []; tauto].
Qed.

Lemma request_reasons_nil r request : request_reasons r request = [] <-> request_met r request.
Proof.
  unfold request_reasons. rewrite !app_nil, !when_nil, !orb_false_iff, missing_capabilities_nil.
  rewrite negb_false_iff, !bool_decide_eq_false, bool_decide_eq_true.
  assert (Hallow : forall {K} `{Countable K} (o : option (gset K)) x,
    is_some_and o (fun a => negb (bool_decide (x ∈ a))) = false <-> forall a, o = Some a -> x ∈ a).
  { intros K ? ? o x. destruct o as [a|]; simpl; [|by split].
    rewrite negb_false_iff, bool_decide_eq_true. split; [by intros ? ? [= <-]|by intros H1; apply H1]. }
  rewrite !Hallow.
  assert (Hpool : is_some_and (sr_pool_id request) (fun pool => negb (beq (reg_pool_id r) (Some pool)))
    = false <-> forall pool, sr_pool_id request = Some pool -> reg_pool_id r = Some pool).
  { destruct (sr_pool_id request) as [p|]; simpl; [|by split].
    rewrite negb_false_iff, bool_decide_eq_true. split; [by intros ? ? [= <-]|by intros H1; apply H1]. }
  rewrite Hpool.
  assert (Hcodec : match sr_codec request with
      | Some codec => when (negb (set_contains (reg_codecs r) codec)) (CodecUnavailable codec)
      | None => [] end = [] <-> forall codec, sr_codec request = Some codec -> codec ∈ reg_codecs r).
  { destruct (sr_codec request) as [c|]; [|by split]. unfold set_contains.
    rewrite when_nil, negb_false_iff, bool_decide_eq_true.
    split; [by intros ? ? [= <-]|by intros H1; apply H1]. }
  rewrite Hcodec.
  split; [intros; split; tauto|intros []; tauto].
Qed.

Lemma target_cooldown_scopes_nil h subject now :
  target_cooldown_scopes h subject now = [] <->
  forall scope, applies_to subject scope -> is_cooling_down h scope now = false.
Proof.
  unfold target_cooldown_scopes. rewrite map_filter_nil.
  split; intros H s Hs; apply H; by apply elem_of_subject_scopes.
Qed.

Lemma quota_blocked_false s r now :
  quota_blocked s r now = false <->
  (forall subject u q, rs_quotas s !! (subject, u) = Some q ->
     subject_matches subject r = true -> exhausted q now = false) /\
  (forall u q, rs_binding_quotas s !! (reg_binding r, u) = Some q -> exhausted q now = false).
Proof.
  unfold quota_blocked. rewrite orb_false_iff, !map_any_false. split; intros [H1 H2]; split.
  - intros subject u q Hq Hm. specialize (H1 _ _ Hq). simpl in H1. by rewrite Hm in H1.
  - intros u q Hq. specialize (H2 _ _ Hq). simpl in H2. by rewrite bool_decide_eq_true_2 in H2.
  - intros [subject u] q Hq. simpl. destruct (subject_matches subject r) eqn:E; simpl; [|done].
    by eapply H1.
  - intros [b u] q Hq. simpl. case_bool_decide as Hb; simpl; [|done]. subst b. by eapply H2.
Qed.

Lemma runtime_reasons_nil s h request e :
  when (negb (e_enabled e)) CredentialUnavailable
  ++ health_reasons h (e_registration e) request
  ++ when (at_capacity e) ConcurrencyLimit
  ++ when (quota_blocked s (e_registration e) (sr_now request)) QuotaExhausted = [] <->
  runtime_met s h request e.
Proof.
  rewrite !app_nil, !when_nil, negb_false_iff, quota_blocked_false.
  assert (Hcap : at_capacity e = false <->
    forall limit, reg_max_in_flight (e_registration e) = Some limit -> e_in_flight e < limit).
  { unfold at_capacity. destruct (reg_max_in_flight _) as [m|]; simpl; [|by split].
    rewrite N.leb_gt. split; [by intros ? ? [= <-]|by intros H; apply H]. }
  assert (Hh : health_reasons h (e_registration e) request = [] <->
    status_is_disabled (hr_credentials h !! reg_credential (e_registration e)) = false /\
    status_is_disabled (hr_bindings h !! reg_binding (e_registration e)) = false /\
    forall scope, applies_to (candidate_subject (e_registration e) request) scope ->
      is_cooling_down h scope (sr_now request) = false).
  { unfold health_reasons, disabled_in_health. rewrite <- target_cooldown_scopes_nil.
    destruct (status_is_disabled (hr_credentials h !! _)), (status_is_disabled (hr_bindings h !! _));
      simpl; try (split; [done|intros (? & ? & ?); done]).
    split; [intros H%map_eq_nil; done|intros (_ & _ & ->); done]. }
  rewrite Hh, Hcap. split; [intros; split; tauto|intros []; tauto].
Qed.

Lemma and_then_return f k l :
  and_then f k = Return l ->
  (f = Return l) \/ (exists l1 l2, f = Continue l1 /\ k tt = Return l2 /\ l = l1 ++ l2).
Proof.
  destruct f as [l1|l1]; simpl; [|by left]. destruct (k tt) as [l2|l2]; [done|].
  intros [= <-]. right. eauto.
Qed.

(** Whoever returns early has pushed a reason. *)
Lemma routing_reasons_return q fb r model : routing_reasons q fb r model <> Return [].
Proof.
  assert (Hstep : forall f k, f <> Return [] -> k tt <> Return [] -> and_then f k <> Return []).
  { intros f k Hf Hk H. apply and_then_return in H as [->|(l1 & l2 & -> & Hl & Happ)]; [done|].
    symmetry in Happ. apply app_nil in Happ as [-> ->]. done. }
  unfold routing_reasons. repeat apply Hstep; try done;
    unfold routing_parameters, routing_capabilities, routing_quantization; repeat case_match; done.
Qed.

Lemma evaluate_entry_eligible s h request fb e :
  ev_reasons (evaluate_entry s h request fb e) = [] <-> hard_requirements s h request fb e.
Proof.
  unfold evaluate_entry, hard_requirements. simpl.
  assert (Hc : candidate_reasons s h request e = [] <->
    request_met (e_registration e) request /\ runtime_met s h request e).
  { unfold candidate_reasons. rewrite app_nil, request_reasons_nil, runtime_reasons_nil. done. }
  destruct (sr_routing request) as [q|].
  - assert (Hmet : (forall q0, Some q = Some q0 -> routing_met q0 fb (e_registration e) (sr_model request)) <->
      routing_met q fb (e_registration e) (sr_model request)).
    { split; [intros H; by apply H|]. by intros H ? [= <-]. }
    rewrite Hmet, <- routing_reasons_nil, <- Hc.
    destruct (routing_reasons q fb (e_registration e) (sr_model request)) as [l|l] eqn:E; simpl.
    + by rewrite app_nil.
    + split; [|by intros [? _]]. intros ->. exfalso.
      by eapply routing_reasons_return in E.
  - rewrite Hc. split; [|by intros [_ ?]]. by intros.
Qed.

(** * The list of candidates *)

#[export] Instance pre_entry_cmp : PreCmp entry_cmp.
Proof.
  apply pre_then; [apply (pre_key e_order N.compare), _|].
  apply (pre_key (fun e => reg_binding (e_registration e)) binding_cmp), _.
Qed.

Lemma evaluated_entries s :
  sort_by (fun a b => N.compare (e_order a) (e_order b)) (sorted_entries s) = sorted_entries s.
Proof.
  apply (sort_by_id (fun a b => N.compare (e_order a) (e_order b))).
  unfold sorted_entries. pose proof (sort_by_sorted entry_cmp (entry_values s)) as H.
  induction H as [|x l Hl IH Hall]; constructor; [done|].
  eapply Forall_impl; [done|]. intros y Hy. unfold entry_cmp in Hy. simpl in *.
  by destruct (N.compare (e_order x) (e_order y)).
Qed.

Lemma evaluate_candidates_eq s h request :
  evaluate_candidates s h request =
  map (evaluate_entry s h request (fallback_priority (sorted_entries s) request)) (sorted_entries s).
Proof. unfold evaluate_candidates. by rewrite evaluated_entries. Qed.

Lemma elem_of_sorted_entries s e :
  e ∈ sorted_entries s <-> exists b, rs_entries s !! b = Some e.
Proof. unfold sorted_entries, entry_values. rewrite sort_by_perm. apply elem_of_btree_values. Qed.

Lemma elem_of_candidates s h request ev :
  ev ∈ evaluate_candidates s h request <->
  exists b e, rs_entries s !! b = Some e /\
    ev = evaluate_entry s h request (fallback_priority (sorted_entries s) request) e.
Proof.
  rewrite evaluate_candidates_eq, list_elem_of_In, in_map_iff. split.
  - intros (e & <- & Hin). apply list_elem_of_In, elem_of_sorted_entries in Hin as [b Hb]. eauto.
  - intros (b & e & Hb & ->). exists e. split; [done|].
    apply list_elem_of_In, elem_of_sorted_entries. eauto.
Qed.

(** [C10] The filters are exact: evaluation considers every registered entry and
    nothing else, and an entry has no filter reason if and only if it meets
    every hard requirement: the provider, target and fallback lists, every
    required parameter, capability, context, quantization, privacy, retention,
    data-policy, region and price fact (an unknown fact never satisfies one),
    the request's allow lists, exclusions, pool, model, capabilities and codec,
    and, at the request's instant, enablement, health, every applicable
    cooldown, the concurrency ceiling and every applicable quota window. *)
Theorem candidate_filter_exact s h request :
  (forall b e, rs_entries s !! b = Some e ->
     exists ev, ev ∈ evaluate_candidates s h request /\ ev_entry ev = e) /\
  (forall ev, ev ∈ evaluate_candidates s h request ->
     (exists b, rs_entries s !! b = Some (ev_entry ev)) /\
     (ev_reasons ev = [] <->
      hard_requirements s h request (fallback_priority (sorted_entries s) request) (ev_entry ev))).
Proof.
  split.
  - intros b e He. eexists. split; [apply elem_of_candidates; eauto|done].
  - intros ev (b & e & He & ->)%elem_of_candidates. split; [by exists b|].
    apply evaluate_entry_eligible.
Qed.
