(* ===== verification/Choose.v ===== *)
(** Choosing among the eligible candidates of the best tier
    (crates/pooler-policy/src/selection.rs, [choose_index] and the comparisons it
    uses).  The source passes indices into the evaluation list; an index is used
    for nothing but its evaluation, so the model passes the evaluations. *)
From S2P Require Import Prelude Str Time CoreId Capabilities Binding Quota Explain Telemetry Registration Registry Evaluate.

Open Scope N_scope.

(** * Configured order *)

Definition ordered_fallback_position (r : CredentialRegistration) (request : SelectionRequest) : N :=
  match position (fun configured => beq configured (reg_binding r)) (sr_ordered_bindings request) with
  | Some i => N.of_nat i
  | None => position_or_max (fun configured => beq configured (reg_credential r))
              (sr_ordered_credentials request)
  end.

Definition provider_position (routing : option RoutingRequirements) (r : CredentialRegistration) : N :=
  match routing with
  | Some q => position_or_max (fun p => beq p (provider_str (reg_provider r))) (rr_provider_order q)
  | None => USIZE_MAX
  end.

Definition target_position (routing : option RoutingRequirements) (r : CredentialRegistration) : N :=
  match routing with
  | Some q => position_or_max (fun t => target_matches_registration t r) (rr_target_order q)
  | None => USIZE_MAX
  end.

Definition has_explicit_order (routing : option RoutingRequirements) : bool :=
  is_some_and routing (fun q =>
    negb (beq (rr_provider_order q) []) || negb (beq (rr_target_order q) [])).

Definition compare_configured_order (left right : CredentialRegistration) (request : SelectionRequest)
  : comparison :=
  let routing := sr_routing request in
  if has_explicit_order routing then
    N.compare (provider_position routing left) (provider_position routing right)
    <|> N.compare (target_position routing left) (target_position routing right)
    <|> binding_cmp (reg_binding left) (reg_binding right)
  else Eq.

(** * Adaptive ranking *)

Definition metric_cmp (left right : RoutingMetric) : comparison :=
  bool_cmp (rm_known left) (rm_known right)
  <|> bool_cmp (rm_meets_threshold left) (rm_meets_threshold right)
  <|> (if rm_lower_is_better left then N.compare (rm_value right) (rm_value left)
       else N.compare (rm_value left) (rm_value right)).

(** The [for] loop over the zipped metrics: the first that differs decides. *)
Fixpoint metrics_cmp (ls rs : list RoutingMetric) : comparison :=
  match ls, rs with
  | l :: ls, r :: rs => metric_cmp l r <|> metrics_cmp ls rs
  | _, _ => Eq
  end.

Definition compare_candidates (left right : CandidateEvaluation) (request : SelectionRequest)
  : comparison :=
  let routing := sr_routing request in
  metrics_cmp (ev_metrics left) (ev_metrics right)
  <|> N.compare (provider_position routing (ev_registration right))
        (provider_position routing (ev_registration left))
  <|> N.compare (target_position routing (ev_registration right))
        (target_position routing (ev_registration left))
  <|> N.compare (e_order (ev_entry right)) (e_order (ev_entry left))
  <|> binding_cmp (reg_binding (ev_registration right)) (reg_binding (ev_registration left)).

(** * Strategies *)

Definition ordered_fallback_cmp (request : SelectionRequest) (left right : CandidateEvaluation)
  : comparison :=
  N.compare (ordered_fallback_position (ev_registration left) request)
    (ordered_fallback_position (ev_registration right) request)
  <|> compare_configured_order (ev_registration left) (ev_registration right) request
  <|> N.compare (e_order (ev_entry left)) (e_order (ev_entry right)).

Definition least_in_flight_cmp (request : SelectionRequest) (left right : CandidateEvaluation)
  : comparison :=
  N.compare (e_in_flight (ev_entry left)) (e_in_flight (ev_entry right))
  <|> N.compare (e_order (ev_entry left)) (e_order (ev_entry right))
  <|> compare_configured_order (ev_registration left) (ev_registration right) request
  <|> binding_cmp (reg_binding (ev_registration left)) (reg_binding (ev_registration right)).

(** [left_score] of the health-weighted strategy: the left weight times the
    right load. *)
Definition cross_score (left right : CandidateEvaluation) : N :=
  sat_mul U64_MAX (effective_weight (ev_registration left))
    (sat_add U32_MAX (e_in_flight (ev_entry right)) 1).

Definition health_weighted_cmp (request : SelectionRequest) (left right : CandidateEvaluation)
  : comparison :=
  N.compare (cross_score left right) (cross_score right left)
  <|> N.compare (e_order (ev_entry right)) (e_order (ev_entry left))
  <|> compare_configured_order (ev_registration right) (ev_registration left) request
  <|> binding_cmp (reg_binding (ev_registration right)) (reg_binding (ev_registration left)).

(** One turn of the loop that adds every candidate's weight. *)
Definition smooth_add (acc : Z * gmap BindingKey Z) (e : CandidateEvaluation) : Z * gmap BindingKey Z :=
  let '(total, current) := acc in
  let weight := Z.of_N (effective_weight (ev_registration e)) in
  let b := reg_binding (ev_registration e) in
  (sat_add_i64 total weight,
   <[b := sat_add_i64 (default 0%Z (current !! b)) weight]> current).

Definition smooth_cmp (current : gmap BindingKey Z) (request : SelectionRequest)
    (left right : CandidateEvaluation) : comparison :=
  option_cmp Z.compare (current !! reg_binding (ev_registration left))
    (current !! reg_binding (ev_registration right))
  <|> N.compare (e_order (ev_entry right)) (e_order (ev_entry left))
  <|> compare_configured_order (ev_registration right) (ev_registration left) request.

(** The smooth weighted round-robin step on the counters of one pool. *)
Definition smooth_step (current : gmap BindingKey Z) (eligible : list CandidateEvaluation)
    (request : SelectionRequest) : option (CandidateEvaluation * gmap BindingKey Z) :=
  let '(total, current) := foldl smooth_add (0%Z, current) eligible in
  match max_by (smooth_cmp current request) eligible with
  | None => None
  | Some selected =>
    let b := reg_binding (ev_registration selected) in
    Some (selected, alter (fun value => sat_sub_i64 value total) b current)
  end.

Definition binding_scope (eligible : list CandidateEvaluation) : gset BindingKey :=
  list_to_set ((fun e => reg_binding (ev_registration e)) <$> eligible).

(** [choose_index]; [None] is the panic of an empty [eligible], which the caller
    rules out. *)
Definition choose_index (s : RegistryState) (eligible : list CandidateEvaluation)
    (request : SelectionRequest) : option (CandidateEvaluation * RegistryState) :=
  if is_some_and (sr_routing request) adaptive then
    (fun e => (e, s)) <$> max_by (fun l r => compare_candidates l r request) eligible
  else
    match sr_strategy request with
    | RoundRobin =>
      let key := (sr_model request, sr_pool_id request, binding_scope eligible) in
      let cursor := default 0 (rs_round_robin s !! key) in
      (fun e => (e, set_round_robin (<[key := sat_add USIZE_MAX cursor 1]> (rs_round_robin s)) s))
        <$> eligible !! N.to_nat (cursor mod N.of_nat (length eligible))
    | SmoothWeightedRoundRobin =>
      let key := (sr_model request, sr_pool_id request) in
      let current := default ∅ (rs_smooth_current s !! key) in
      (fun ec => (ec.1, set_smooth (<[key := ec.2]> (rs_smooth_current s)) s))
        <$> smooth_step current eligible request
    | FillFirst => (fun e => (e, s)) <$> head eligible
    | OrderedFallback =>
      (fun e => (e, s)) <$> or_else (min_by (ordered_fallback_cmp request) eligible) (head eligible)
    | LeastInFlight => (fun e => (e, s)) <$> min_by (least_in_flight_cmp request) eligible
    | HealthWeighted => (fun e => (e, s)) <$> max_by (health_weighted_cmp request) eligible
    end.

(** * What each strategy chooses: membership and totality for all of them, and the
      optimality of the comparison-based ones. *)

(** * The comparisons are total preorders *)

#[export] Instance pre_configured request :
  PreCmp (fun l r => compare_configured_order l r request).
Proof.
  unfold compare_configured_order. destruct (has_explicit_order _); [|apply pre_const].
  apply pre_then; [apply pre_then|].
  - apply (pre_key (provider_position (sr_routing request)) N.compare), _.
  - apply (pre_key (target_position (sr_routing request)) N.compare), _.
  - apply (pre_key reg_binding binding_cmp), _.
Qed.

#[export] Instance pre_ordered_fallback request : PreCmp (ordered_fallback_cmp request).
Proof.
  unfold ordered_fallback_cmp. apply pre_then; [apply pre_then|].
  - apply (pre_key (fun e => ordered_fallback_position (ev_registration e) request) N.compare), _.
  - apply (pre_key ev_registration (fun l r => compare_configured_order l r request)), _.
  - apply (pre_key (fun e => e_order (ev_entry e)) N.compare), _.
Qed.

#[export] Instance pre_least_in_flight request : PreCmp (least_in_flight_cmp request).
Proof.
  unfold least_in_flight_cmp. apply pre_then; [apply pre_then; [apply pre_then|]|].
  - apply (pre_key (fun e => e_in_flight (ev_entry e)) N.compare), _.
  - apply (pre_key (fun e => e_order (ev_entry e)) N.compare), _.
  - apply (pre_key ev_registration (fun l r => compare_configured_order l r request)), _.
  - apply (pre_key (fun e => reg_binding (ev_registration e)) binding_cmp), _.
Qed.

(** The load a candidate would have with one more request, at its width. *)
Definition load (e : CandidateEvaluation) : N := sat_add U32_MAX (e_in_flight (ev_entry e)) 1.
Definition weight (e : CandidateEvaluation) : N := effective_weight (ev_registration e).

Lemma cross_score_exact l r : cross_score l r = weight l * load r.
Proof.
  unfold cross_score, sat_mul, weight, load. rewrite N.min_r; [done|].
  pose proof (effective_weight_bounds (ev_registration l)) as [_ Hw].
  unfold sat_add, U64_MAX, U32_MAX in *. nia.
Qed.

Lemma load_pos e : 0 < load e.
Proof. unfold load, sat_add, U32_MAX. lia. Qed.

(** Comparing two fractions by cross multiplication. *)
Lemma pre_fraction {A} (num den : A -> N) :
  (forall x, 0 < den x) -> PreCmp (fun x y => N.compare (num x * den y) (num y * den x)).
Proof.
  intros Hpos. split.
  - intros x y. apply N.compare_antisym.
  - intros x y z. rewrite !N.compare_le_iff. intros H1 H2.
    pose proof (Hpos x). pose proof (Hpos y). pose proof (Hpos z).
    apply (N.mul_le_mono_pos_l _ _ (den y)); [done|]. nia.
Qed.

#[export] Instance pre_health_weighted request : PreCmp (health_weighted_cmp request).
Proof.
  unfold health_weighted_cmp. apply pre_then; [apply pre_then; [apply pre_then|]|].
  - pose proof (pre_fraction weight load load_pos) as [Hopp Htr].
    split; [intros x y|intros x y z]; rewrite !cross_score_exact; [apply Hopp|apply Htr].
  - apply (pre_rev (fun l r => N.compare (e_order (ev_entry l)) (e_order (ev_entry r)))).
    apply (pre_key (fun e => e_order (ev_entry e)) N.compare), _.
  - apply (pre_rev (fun l r => compare_configured_order (ev_registration l) (ev_registration r) request)).
    apply (pre_key ev_registration (fun l r => compare_configured_order l r request)), _.
  - apply (pre_rev (fun l r => binding_cmp (reg_binding (ev_registration l)) (reg_binding (ev_registration r)))).
    apply (pre_key (fun e => reg_binding (ev_registration e)) binding_cmp), _.
Qed.

#[export] Instance pre_smooth current request : PreCmp (smooth_cmp current request).
Proof.
  unfold smooth_cmp. apply pre_then; [apply pre_then|].
  - apply (pre_key (fun e => current !! reg_binding (ev_registration e)) (option_cmp Z.compare)), _.
  - apply (pre_rev (fun l r => N.compare (e_order (ev_entry l)) (e_order (ev_entry r)))).
    apply (pre_key (fun e => e_order (ev_entry e)) N.compare), _.
  - apply (pre_rev (fun l r => compare_configured_order (ev_registration l) (ev_registration r) request)).
    apply (pre_key ev_registration (fun l r => compare_configured_order l r request)), _.
Qed.

(** * Totality *)

Lemma smooth_step_elem current eligible request e c :
  smooth_step current eligible request = Some (e, c) -> e ∈ eligible.
Proof.
  unfold smooth_step. destruct (foldl _ _ _) as [t cur].
  destruct (max_by _ _) as [x|] eqn:E; [|done]. intros [= <- <-]. exact (max_by_elem _ _ _ E).
Qed.

Lemma smooth_step_total current eligible request :
  eligible <> [] -> is_Some (smooth_step current eligible request).
Proof.
  intros Hne. unfold smooth_step. destruct (foldl _ _ _) as [t cur].
  destruct (max_by_is_Some (smooth_cmp cur request) eligible Hne) as [x ->]. eauto.
Qed.

(** A step only adds counters for its candidates. *)
Lemma smooth_step_dom current eligible request e c b :
  smooth_step current eligible request = Some (e, c) -> is_Some (c !! b) ->
  is_Some (current !! b) \/ b ∈ binding_scope eligible.
Proof.
  unfold smooth_step, binding_scope.
  assert (Hfold : forall l t cur, is_Some ((foldl smooth_add (t, cur) l).2 !! b) ->
    is_Some (cur !! b) \/ b ∈ (fun e => reg_binding (ev_registration e)) <$> l).
  { induction l as [|x l IH]; intros t cur Hb; simpl in *; [by left|].
    apply IH in Hb as [Hb|Hb]; [|by right; right].
    apply lookup_insert_is_Some in Hb as [<-|[_ Hb]]; [by right; left|by left]. }
  specialize (Hfold eligible 0%Z current).
  destruct (foldl smooth_add (0%Z, current) eligible) as [t cur]. simpl in Hfold.
  destruct (max_by _ _) as [x|]; [|done]. intros [= <- <-] Hb.
  apply lookup_alter_is_Some in Hb. rewrite elem_of_list_to_set. by apply Hfold.
Qed.

(** Only the strategy state changes. *)
Definition same_but_cursors (s s' : RegistryState) : Prop :=
  rs_entries s' = rs_entries s /\ rs_aliases s' = rs_aliases s /\ rs_next_order s' = rs_next_order s /\
  rs_affinity s' = rs_affinity s /\ rs_quotas s' = rs_quotas s /\
  rs_binding_quotas s' = rs_binding_quotas s.

Lemma choose_index_elem s eligible request e s' :
  choose_index s eligible request = Some (e, s') -> e ∈ eligible /\ same_but_cursors s s'.
Proof.
  assert (Hs : same_but_cursors s s) by by repeat split.
  unfold choose_index. destruct (is_some_and _ _).
  { destruct (max_by _ _) as [x|] eqn:E; [|done]. intros [= <- <-]. split; [exact (max_by_elem _ _ _ E)|done]. }
  destruct (sr_strategy request).
  - destruct (eligible !! _) as [x|] eqn:E; [|done]. intros [= <- <-].
    apply list_elem_of_lookup_2 in E. by repeat split.
  - destruct (smooth_step _ _ _) as [[x c]|] eqn:E; [|done]. intros [= <- <-].
    apply smooth_step_elem in E. by repeat split.
  - destruct eligible; [done|]. intros [= <- <-]. split; [left|done].
  - destruct (min_by _ _) as [x|] eqn:E; [|done]. intros [= <- <-]. split; [exact (min_by_elem _ _ _ E)|done].
  - destruct (max_by _ _) as [x|] eqn:E; [|done]. intros [= <- <-]. split; [exact (max_by_elem _ _ _ E)|done].
  - destruct (min_by _ _) as [x|] eqn:E; simpl.
    + intros [= <- <-]. split; [exact (min_by_elem _ _ _ E)|done].
    + destruct eligible; [done|]. intros [= <- <-]. split; [left|done].
Qed.

Lemma choose_index_total s eligible request :
  eligible <> [] -> is_Some (choose_index s eligible request).
Proof.
  intros Hne. unfold choose_index. destruct (is_some_and _ _).
  { destruct (max_by_is_Some (fun l r => compare_candidates l r request) _ Hne) as [x ->]. eauto. }
  destruct (sr_strategy request).
  - destruct (eligible !! _) as [x|] eqn:E; [by eauto|]. exfalso. apply lookup_ge_None in E.
    assert (Hl : (0 < length eligible)%nat) by (destruct eligible; [done|simpl; lia]).
    assert (Hmod : default 0 (rs_round_robin s !! (sr_model request, sr_pool_id request,
      binding_scope eligible)) mod N.of_nat (length eligible) < N.of_nat (length eligible))
      by (apply N.mod_lt; lia).
    lia.
  - destruct (smooth_step_total (default ∅ (rs_smooth_current s !! (sr_model request, sr_pool_id request)))
      eligible request Hne) as [x ->]. eauto.
  - destruct eligible; [done|]. simpl. eauto.
  - destruct (min_by_is_Some (least_in_flight_cmp request) _ Hne) as [x ->]. eauto.
  - destruct (max_by_is_Some (health_weighted_cmp request) _ Hne) as [x ->]. eauto.
  - destruct (min_by_is_Some (ordered_fallback_cmp request) _ Hne) as [x ->]. simpl. eauto.
Qed.

(** * Optimality *)

Lemma then_with_le a b : a <|> b <> Gt -> a <> Gt.
Proof. by destruct a. Qed.

Lemma then_with_tie a b : a <|> b <> Gt -> a = Eq -> b <> Gt.
Proof. by intros H ->. Qed.

(** Both comparisons that use it sort by registration order second. *)
Lemma min_order_spec {A} (key ord : A -> N) (rest : A -> A -> comparison) x y :
  N.compare (key x) (key y) <|> N.compare (ord x) (ord y) <|> rest x y <> Gt ->
  key x <= key y /\ (key x = key y -> ord x <= ord y).
Proof.
  intros H. apply then_with_le in H. split.
  - apply then_with_le in H. by apply N.compare_le_iff.
  - intros Heq. apply then_with_tie in H; [|by apply N.compare_eq_iff]. by apply N.compare_le_iff.
Qed.

(** The strategies without state optimise what they promise.  Least in
    flight: no candidate has fewer requests in flight, and ties go to the earlier
    registration.  Health weighted: no candidate has a larger weight per request
    it would then carry (an exact comparison of fractions, without overflow),
    ties again to the earlier registration.  Ordered fallback: no candidate comes
    earlier in the configured order.  Fill first: the first eligible
    registration.  None of them changes the state. *)
Theorem strategy_optimal s eligible request e s' :
  is_some_and (sr_routing request) adaptive = false ->
  choose_index s eligible request = Some (e, s') ->
  match sr_strategy request with
  | LeastInFlight => s' = s /\ forall y, y ∈ eligible ->
      e_in_flight (ev_entry e) <= e_in_flight (ev_entry y) /\
      (e_in_flight (ev_entry e) = e_in_flight (ev_entry y) ->
       e_order (ev_entry e) <= e_order (ev_entry y))
  | HealthWeighted => s' = s /\ forall y, y ∈ eligible ->
      weight y * load e <= weight e * load y /\
      (weight y * load e = weight e * load y -> e_order (ev_entry e) <= e_order (ev_entry y))
  | OrderedFallback => s' = s /\ forall y, y ∈ eligible ->
      ordered_fallback_position (ev_registration e) request <=
      ordered_fallback_position (ev_registration y) request
  | FillFirst => s' = s /\ head eligible = Some e
  | RoundRobin | SmoothWeightedRoundRobin => e ∈ eligible
  end.
Proof.
  intros Hna H. destruct (choose_index_elem _ _ _ _ _ H) as [Helem _].
  unfold choose_index in H. rewrite Hna in H. destruct (sr_strategy request); try done.
  - destruct eligible; [done|]. by injection H as <- <-.
  - destruct (min_by _ _) as [x|] eqn:E; [|done]. injection H as <- <-. split; [done|].
    intros y Hy. pose proof (min_by_min (least_in_flight_cmp request) _ _ _ E Hy) as Hle.
    unfold least_in_flight_cmp in Hle. apply then_with_le in Hle.
    exact (min_order_spec (fun e => e_in_flight (ev_entry e)) (fun e => e_order (ev_entry e))
      (fun l r => compare_configured_order (ev_registration l) (ev_registration r) request) x y Hle).
  - destruct (max_by _ _) as [x|] eqn:E; [|done]. injection H as <- <-. split; [done|].
    intros y Hy. pose proof (max_by_max (health_weighted_cmp request) _ _ _ E Hy) as Hle.
    unfold health_weighted_cmp in Hle. rewrite !cross_score_exact in Hle.
    apply then_with_le, then_with_le in Hle. split.
    + apply then_with_le in Hle. by apply N.compare_le_iff.
    + intros Heq. apply then_with_tie in Hle; [|by apply N.compare_eq_iff]. by apply N.compare_le_iff.
  - destruct (min_by _ _) as [x|] eqn:E; simpl in H; [|by destruct eligible].
    injection H as <- <-. split; [done|].
    intros y Hy. pose proof (min_by_min (ordered_fallback_cmp request) _ _ _ E Hy) as Hle.
    unfold ordered_fallback_cmp in Hle. do 2 apply then_with_le in Hle. by apply N.compare_le_iff.
Qed.

(** ** Adaptive ranking *)

Lemma max_by_ext {A} (c d : A -> A -> comparison) l :
  (forall x y, x ∈ l -> y ∈ l -> c x y = d x y) -> max_by c l = max_by d l.
Proof.
  destruct l as [|a l]; [done|]. simpl. intros H. f_equal.
  assert (Hgen : forall k b, (forall x, x ∈ b :: k -> x ∈ a :: l) ->
    foldl (fun acc y => match c acc y with Gt => acc | _ => y end) b k =
    foldl (fun acc y => match d acc y with Gt => acc | _ => y end) b k).
  { induction k as [|x k IH]; intros b Hin; simpl; [done|].
    rewrite (H b x) by (apply Hin; set_solver +).
    apply IH. intros y Hy. apply Hin. rewrite !elem_of_cons in *.
    destruct (d b x); tauto. }
  apply Hgen. done.
Qed.

Lemma pre_metric {A} (f : A -> RoutingMetric) (lower : bool) :
  (forall x, rm_lower_is_better (f x) = lower) -> PreCmp (fun x y => metric_cmp (f x) (f y)).
Proof.
  intros Hl. unfold metric_cmp. apply pre_then; [apply pre_then|].
  - apply (pre_key (fun x => rm_known (f x)) bool_cmp), _.
  - apply (pre_key (fun x => rm_meets_threshold (f x)) bool_cmp), _.
  - destruct lower.
    + assert (Hp : PreCmp (fun x y => N.compare (rm_value (f y)) (rm_value (f x)))).
      { apply (pre_rev (fun x y => N.compare (rm_value (f x)) (rm_value (f y)))).
        apply (pre_key (fun x => rm_value (f x)) N.compare), _. }
      destruct Hp as [Hopp Htr]. split; [intros x y|intros x y z]; rewrite !Hl; [apply Hopp|apply Htr].
    + pose proof (pre_key (fun x => rm_value (f x)) N.compare _) as [Hopp Htr].
      split; [intros x y|intros x y z]; rewrite !Hl; [apply Hopp|apply Htr].
Qed.

Lemma pre_metrics_app {A} (f : A -> RoutingMetric) (g : A -> list RoutingMetric) (b lower : bool) :
  (forall x, rm_lower_is_better (f x) = lower) ->
  PreCmp (fun x y => metrics_cmp (g x) (g y)) ->
  PreCmp (fun x y => metrics_cmp ((if b then [f x] else []) ++ g x) ((if b then [f y] else []) ++ g y)).
Proof.
  intros Hl Hg. destruct b; simpl; [|done]. apply pre_then; [by eapply pre_metric|done].
Qed.

Lemma metrics_cmp_nil_r l : metrics_cmp l [] = Eq.
Proof. by destruct l. Qed.

Lemma pre_routing_metrics request :
  PreCmp (fun x y => metrics_cmp (routing_metrics x request) (routing_metrics y request)).
Proof.
  unfold routing_metrics. destruct (sr_routing request) as [q|]; [|apply pre_const].
  apply pre_metrics_app with (lower := true); [done|].
  apply pre_metrics_app with (lower := true); [done|].
  destruct (rr_prefer_throughput q); simpl; [|apply pre_const].
  apply pre_then; [by apply pre_metric with (lower := false)|apply pre_const].
Qed.

(** [compare_candidates] where the metrics are those of the request. *)
Definition ranked_cmp (request : SelectionRequest) (left right : CandidateEvaluation) : comparison :=
  let routing := sr_routing request in
  metrics_cmp (routing_metrics (ev_registration left) request)
    (routing_metrics (ev_registration right) request)
  <|> N.compare (provider_position routing (ev_registration right))
        (provider_position routing (ev_registration left))
  <|> N.compare (target_position routing (ev_registration right))
        (target_position routing (ev_registration left))
  <|> N.compare (e_order (ev_entry right)) (e_order (ev_entry left))
  <|> binding_cmp (reg_binding (ev_registration right)) (reg_binding (ev_registration left)).

#[export] Instance pre_ranked request : PreCmp (ranked_cmp request).
Proof.
  unfold ranked_cmp. apply pre_then; [apply pre_then; [apply pre_then; [apply pre_then|]|]|].
  - apply (pre_key ev_registration (fun x y => metrics_cmp (routing_metrics x request)
      (routing_metrics y request))), pre_routing_metrics.
  - apply (pre_rev (fun l r => N.compare (provider_position (sr_routing request) (ev_registration l))
      (provider_position (sr_routing request) (ev_registration r)))).
    apply (pre_key (fun e => provider_position (sr_routing request) (ev_registration e)) N.compare), _.
  - apply (pre_rev (fun l r => N.compare (target_position (sr_routing request) (ev_registration l))
      (target_position (sr_routing request) (ev_registration r)))).
    apply (pre_key (fun e => target_position (sr_routing request) (ev_registration e)) N.compare), _.
  - apply (pre_rev (fun l r => N.compare (e_order (ev_entry l)) (e_order (ev_entry r)))).
    apply (pre_key (fun e => e_order (ev_entry e)) N.compare), _.
  - apply (pre_rev (fun l r => binding_cmp (reg_binding (ev_registration l)) (reg_binding (ev_registration r)))).
    apply (pre_key (fun e => reg_binding (ev_registration e)) binding_cmp), _.
Qed.

(** Adaptive ranking picks a best candidate: among candidates carrying the
    metrics of the request, no other beats the selected one in the first metric
    in which they differ (known before unknown, within the threshold before
    beyond it, then the cheaper, faster or higher-throughput one); among equals
    the configured provider order decides. *)
Theorem adaptive_choice_optimal s eligible request e s' :
  is_some_and (sr_routing request) adaptive = true ->
  (forall x, x ∈ eligible -> ev_metrics x = routing_metrics (ev_registration x) request) ->
  choose_index s eligible request = Some (e, s') ->
  s' = s /\ e ∈ eligible /\
  forall y, y ∈ eligible ->
    metrics_cmp (ev_metrics y) (ev_metrics e) <> Gt /\
    (metrics_cmp (ev_metrics y) (ev_metrics e) = Eq ->
     provider_position (sr_routing request) (ev_registration e) <=
     provider_position (sr_routing request) (ev_registration y)).
Proof.
  intros Ha Hmet H. destruct (choose_index_elem _ _ _ _ _ H) as [Helem _].
  unfold choose_index in H. rewrite Ha in H.
  destruct (max_by _ _) as [x|] eqn:E; [|done]. injection H as <- <-. split; [done|]. split; [done|].
  rewrite (max_by_ext _ (ranked_cmp request)) in E.
  - intros y Hy. pose proof (max_by_max (ranked_cmp request) _ _ _ E Hy) as Hle.
    unfold ranked_cmp in Hle. do 3 apply then_with_le in Hle.
    rewrite <- !Hmet in Hle by done. split; [by apply then_with_le in Hle|].
    intros Heq. apply then_with_tie in Hle; [|done]. by apply N.compare_le_iff.
  - intros a b Ha' Hb'. unfold compare_candidates, ranked_cmp. by rewrite !Hmet.
Qed.

(** * Examples *)

Definition example_registration (target : string) (w : N) : CredentialRegistration :=
  MkRegistration (MkBindingKey (MkTargetId target) (MkCredentialId "work") "fp")
    (MkCredentialId "work") (MkProviderId "p") (MkModelId "m") CapabilitySet.empty
    (cf_with_price (operator_capabilities CapabilitySet.empty) w) ∅ w 1 1 None None None.

Definition example_evaluation (request : SelectionRequest) (target : string) (w load order : N)
  : CandidateEvaluation :=
  MkEvaluation (MkEntry (example_registration target w) true load order) []
    (routing_metrics (example_registration target w) request).

Definition example_request : SelectionRequest := request_new (MkModelId "m") 0.
Definition example_routing : RoutingRequirements :=
  MkRoutingRequirements [] ∅ ∅ [] ∅ ∅ true ∅ CapabilitySet.empty None ∅ None false None None None
    true false false None None 1 1000.

Lemma strategy_optimal_witness :
  let a := example_evaluation example_request "a" 3 2 0 in
  let b := example_evaluation example_request "b" 2 0 1 in
  weight a * load b <= weight b * load a.
Proof.
  intros a b.
  refine (proj1 (proj2 (strategy_optimal state_new [a; b] example_request b state_new _ _) a _));
    [reflexivity|vm_compute; reflexivity|left].
Defined.

Lemma adaptive_choice_optimal_witness :
  let request := with_routing example_request example_routing in
  let a := example_evaluation request "a" 3 2 0 in
  let b := example_evaluation request "b" 2 0 1 in
  metrics_cmp (ev_metrics a) (ev_metrics b) <> Gt.
Proof.
  intros request a b.
  refine (proj1 (proj2 (proj2 (adaptive_choice_optimal state_new [a; b] request b state_new _ _ _)) a _));
    [reflexivity| |vm_compute; reflexivity|left].
  intros x Hx. rewrite !elem_of_cons, elem_of_nil in Hx. by destruct Hx as [->|[->|[]]].
Defined.
