(* ===== verification/Fairness.v ===== *)
(** Fairness of the stateful strategies: round robin visits every candidate once
    per cycle, and smooth weighted round robin gives every candidate exactly its
    weight's share of every cycle, within a bounded drift in between. *)
From S2P Require Import Prelude Str Time CoreId Capabilities Binding Quota Explain Telemetry.
From S2P Require Import Registration Registry Evaluate Choose.

Open Scope N_scope.

(** * Rounds *)

Abbreviation Round := (list CandidateEvaluation * SelectionRequest)%type.

(** Consecutive choices, each from its own evaluation of the candidates. *)
Fixpoint choose_run (s : RegistryState) (rounds : list Round)
  : option (list BindingKey * RegistryState) :=
  match rounds with
  | [] => Some ([], s)
  | (eligible, request) :: rest =>
    match choose_index s eligible request with
    | None => None
    | Some (e, s1) =>
      match choose_run s1 rest with
      | None => None
      | Some (picks, s2) => Some (reg_binding (ev_registration e) :: picks, s2)
      end
    end
  end.

(** How often a binding was picked. *)
Definition picked (b : BindingKey) (picks : list BindingKey) : nat :=
  length (List.filter (fun x => beq x b) picks).

Definition bindings_of (l : list CandidateEvaluation) : list BindingKey :=
  (fun e => reg_binding (ev_registration e)) <$> l.

Lemma choose_run_app s r1 r2 :
  choose_run s (r1 ++ r2) =
  match choose_run s r1 with
  | None => None
  | Some (p1, s1) => match choose_run s1 r2 with
                     | None => None | Some (p2, s2) => Some (p1 ++ p2, s2) end
  end.
Proof.
  revert s. induction r1 as [|[l rq] r1 IH]; intros s; simpl.
  - destruct (choose_run s r2) as [[p2 s2]|]; done.
  - destruct (choose_index s l rq) as [[e s1]|]; [|done]. rewrite IH.
    destruct (choose_run s1 r1) as [[p1 s1']|]; [|done].
    by destruct (choose_run s1' r2) as [[p2 s2]|].
Qed.

Lemma picked_app b p1 p2 : picked b (p1 ++ p2) = (picked b p1 + picked b p2)%nat.
Proof. unfold picked. by rewrite List.filter_app, length_app. Qed.

Lemma picked_perm b p1 p2 : p1 ≡ₚ p2 -> picked b p1 = picked b p2.
Proof.
  unfold picked. induction 1; simpl; try done; try congruence.
  - case_bool_decide; simpl; congruence.
  - repeat case_bool_decide; done.
Qed.

Lemma picked_NoDup b l : NoDup l -> b ∈ l -> picked b l = 1%nat.
Proof.
  unfold picked. induction 1 as [|x l Hx Hl IH]; intros Hb; [by apply elem_of_nil in Hb|].
  simpl. case_bool_decide as E.
  - subst x. simpl. f_equal. clear -Hx. induction l as [|y l IH]; simpl; [done|].
    apply not_elem_of_cons in Hx as [? ?]. rewrite bool_decide_eq_false_2 by done. by apply IH.
  - apply elem_of_cons in Hb as [->|Hb]; [done|]. by apply IH.
Qed.

(** * Round robin *)

Definition rr_key (model : ModelId) (pool : option string) (bs : list BindingKey) : CursorKey :=
  (model, pool, list_to_set bs).

(** A round of round robin over the bindings [bs] of one model and pool. *)
Definition rr_round (model : ModelId) (pool : option string) (bs : list BindingKey) (round : Round)
  : Prop :=
  let '(eligible, request) := round in
  bindings_of eligible = bs /\ sr_strategy request = RoundRobin /\
  is_some_and (sr_routing request) adaptive = false /\
  sr_model request = model /\ sr_pool_id request = pool.

Definition cursor (s : RegistryState) (key : CursorKey) : N := default 0 (rs_round_robin s !! key).

Lemma rr_choose s model pool bs eligible request :
  rr_round model pool bs (eligible, request) -> bs <> [] ->
  exists e s',
    choose_index s eligible request = Some (e, s') /\
    bs !! N.to_nat (cursor s (rr_key model pool bs) mod N.of_nat (length bs))
      = Some (reg_binding (ev_registration e)) /\
    cursor s' (rr_key model pool bs) = sat_add USIZE_MAX (cursor s (rr_key model pool bs)) 1.
Proof.
  intros (Hbs & Hst & Hna & Hm & Hp) Hne.
  assert (Hel : eligible <> []) by (intros ->; by rewrite <- Hbs in Hne).
  destruct (choose_index_total s eligible request Hel) as [[e s'] Hc].
  exists e, s'. split; [done|]. unfold choose_index in Hc. rewrite Hna, Hst in Hc.
  assert (Hkey : (sr_model request, sr_pool_id request, binding_scope eligible) = rr_key model pool bs).
  { unfold rr_key, binding_scope. by rewrite Hm, Hp, <- Hbs. }
  rewrite Hkey in Hc. fold (cursor s (rr_key model pool bs)) in Hc.
  assert (Hlen : length bs = length eligible) by (rewrite <- Hbs; apply length_fmap).
  destruct (eligible !! _) as [x|] eqn:E; [|done]. injection Hc as <- <-.
  split.
  - rewrite Hlen. generalize dependent (N.to_nat (cursor s (rr_key model pool bs) mod N.of_nat (length eligible))).
    intros i E. rewrite <- Hbs. unfold bindings_of. by rewrite list_lookup_fmap, E.
  - unfold cursor at 1. simpl. by rewrite lookup_insert_eq.
Qed.

Lemma rr_run s model pool bs rounds :
  bs <> [] -> Forall (rr_round model pool bs) rounds ->
  cursor s (rr_key model pool bs) + N.of_nat (length rounds) <= USIZE_MAX ->
  exists picks s', choose_run s rounds = Some (picks, s') /\ length picks = length rounds /\
    cursor s' (rr_key model pool bs) = cursor s (rr_key model pool bs) + N.of_nat (length rounds) /\
    forall i, (i < length rounds)%nat ->
      picks !! i = bs !! N.to_nat ((cursor s (rr_key model pool bs) + N.of_nat i) mod N.of_nat (length bs)).
Proof.
  intros Hne Hall. revert s. induction Hall as [|[l rq] rounds Hr _ IH]; intros s Hcap.
  - exists [], s. split; [done|]. split; [done|]. split; [simpl; lia|]. intros i Hi. simpl in Hi. lia.
  - destruct (rr_choose s model pool bs l rq Hr Hne) as (e & s1 & Hc & Hb & Hcur).
    set (c := cursor s (rr_key model pool bs)) in *.
    assert (Hcur' : cursor s1 (rr_key model pool bs) = c + 1).
    { rewrite Hcur. unfold sat_add. simpl length in Hcap. lia. }
    destruct (IH s1) as (picks & s2 & Hrun & Hlen & Hend & Hat).
    { rewrite Hcur'. simpl length in Hcap. lia. }
    exists (reg_binding (ev_registration e) :: picks), s2. simpl. rewrite Hc, Hrun.
    split; [done|]. split; [by rewrite Hlen|]. split; [rewrite Hend, Hcur'; lia|].
    intros [|i] Hi; simpl.
    + rewrite N.add_0_r. done.
    + rewrite Hat by lia. rewrite Hcur'. do 3 f_equal. lia.
Qed.

(** One full cycle is a rotation of the candidates. *)
Lemma rr_cycle (bs picks : list BindingKey) (c : N) :
  bs <> [] -> length picks = length bs ->
  (forall i, (i < length bs)%nat -> picks !! i = bs !! N.to_nat ((c + N.of_nat i) mod N.of_nat (length bs))) ->
  picks ≡ₚ bs.
Proof.
  intros Hne Hlen Hat.
  assert (Hn : (0 < length bs)%nat) by (destruct bs; [done|simpl; lia]).
  set (n := length bs) in *.
  set (k := N.to_nat (c mod N.of_nat n)).
  assert (Hk : (k < n)%nat).
  { unfold k. pose proof (N.mod_lt c (N.of_nat n)). lia. }
  assert (Hrot : picks = drop k bs ++ take k bs).
  { apply list_eq_same_length with n.
    - by rewrite length_app, length_drop, length_take; fold n; lia.
    - done.
    - intros i x y Hi. rewrite Hat by done.
      assert (Hmod : N.to_nat ((c + N.of_nat i) mod N.of_nat n) =
        (if (k + i <? n)%nat then k + i else k + i - n)%nat).
      { rewrite <- N.Div0.add_mod_idemp_l.
        assert (Hck : c mod N.of_nat n = N.of_nat k) by (unfold k; lia). rewrite Hck.
        destruct (Nat.ltb_spec (k + i) n).
        - rewrite N.mod_small by lia. lia.
        - replace (N.of_nat k + N.of_nat i) with (N.of_nat (k + i - n) + 1 * N.of_nat n) by lia.
          rewrite N.Div0.mod_add, N.mod_small by lia. lia. }
      rewrite Hmod. destruct (Nat.ltb_spec (k + i) n).
      + rewrite lookup_app_l by (rewrite length_drop; fold n; lia). rewrite lookup_drop. congruence.
      + rewrite lookup_app_r by (rewrite length_drop; fold n; lia). rewrite length_drop. fold n.
        rewrite lookup_take_lt by lia. replace (i - (n - k))%nat with (k + i - n)%nat by lia. congruence. }
  rewrite Hrot, Permutation_app_comm. by rewrite take_drop.
Qed.

Lemma rr_cycles (bs picks : list BindingKey) (c : N) (k : nat) b :
  NoDup bs -> b ∈ bs -> length picks = (k * length bs)%nat ->
  (forall i, (i < k * length bs)%nat ->
     picks !! i = bs !! N.to_nat ((c + N.of_nat i) mod N.of_nat (length bs))) ->
  picked b picks = k.
Proof.
  intros Hnd Hb. assert (Hne : bs <> []) by (intros ->; by apply elem_of_nil in Hb).
  revert picks c. induction k as [|k IH]; intros picks c Hlen Hat.
  - simpl in Hlen. apply length_zero_iff_nil in Hlen as ->. done.
  - rewrite <- (take_drop (length bs) picks), picked_app.
    assert (Hcycle : take (length bs) picks ≡ₚ bs).
    { apply (rr_cycle bs _ c Hne); [rewrite length_take; simpl in Hlen; lia|].
      intros i Hi. rewrite lookup_take_lt by done. apply Hat. simpl. lia. }
    rewrite (picked_perm b _ bs Hcycle), (picked_NoDup b bs) by done.
    rewrite (IH _ (c + N.of_nat (length bs))); [done| |].
    + rewrite length_drop, Hlen. simpl. lia.
    + intros i Hi. rewrite lookup_drop, Hat by (simpl; lia). do 3 f_equal. lia.
Qed.

(** Round robin is fair: as long as the same candidates stay eligible for a
    model and pool, whatever else the requests and loads are, any [k] full cycles
    of choices pick every candidate exactly [k] times, from any cursor that does
    not reach [usize::MAX] meanwhile. *)
Theorem round_robin_fair s model pool bs rounds k :
  NoDup bs -> bs <> [] -> Forall (rr_round model pool bs) rounds ->
  length rounds = (k * length bs)%nat ->
  cursor s (rr_key model pool bs) + N.of_nat (length rounds) <= USIZE_MAX ->
  exists picks s', choose_run s rounds = Some (picks, s') /\ length picks = length rounds /\
    forall b, b ∈ bs -> picked b picks = k.
Proof.
  intros Hnd Hne Hall Hlen Hcap.
  destruct (rr_run s model pool bs rounds Hne Hall Hcap) as (picks & s' & Hrun & Hpl & _ & Hat).
  exists picks, s'. split; [done|]. split; [done|]. intros b Hb.
  eapply rr_cycles; [done|done|congruence|]. rewrite <- Hlen. exact Hat.
Qed.

Lemma round_robin_fair_witness :
  let rq := with_strategy example_request RoundRobin in
  let a := example_evaluation rq "a" 1 0 0 in
  let b := example_evaluation rq "b" 1 0 1 in
  exists picks s', choose_run state_new [([a; b], rq); ([a; b], rq)] = Some (picks, s') /\
    picked (reg_binding (ev_registration a)) picks = 1%nat.
Proof.
  intros rq a b.
  edestruct (round_robin_fair state_new (MkModelId "m") None (bindings_of [a; b])
    [([a; b], rq); ([a; b], rq)] 1) as (picks & s' & Hrun & _ & Hp).
  - apply (bool_decide_unpack _). vm_compute. exact I.
  - done.
  - by repeat constructor.
  - reflexivity.
  - vm_compute. discriminate.
  - exists picks, s'. split; [exact Hrun|]. apply Hp. left.
Defined.

(** * Smooth weighted round robin *)

(** A pool: the bindings with their combined weights. *)
Abbreviation Pool := (list (BindingKey * N)).

Definition pool_of (l : list CandidateEvaluation) : Pool :=
  (fun e => (reg_binding (ev_registration e), weight e)) <$> l.

Definition zsum (f : BindingKey * N -> Z) (pool : Pool) : Z := foldr (fun p acc => (f p + acc)%Z) 0%Z pool.
Definition total_weight (pool : Pool) : Z := zsum (fun p => Z.of_N p.2) pool.
Definition counter (current : gmap BindingKey Z) (b : BindingKey) : Z := default 0%Z (current !! b).

Section sums.
Implicit Types (f g : BindingKey * N -> Z) (pool : Pool).

Lemma zsum_ext f g pool : (forall p, p ∈ pool -> f p = g p) -> zsum f pool = zsum g pool.
Proof.
  induction pool as [|p pool IH]; intros H; simpl; [done|].
  rewrite (H p) by left. rewrite IH; [done|]. intros q Hq. apply H. by right.
Qed.

Lemma zsum_add f g pool : zsum (fun p => (f p + g p)%Z) pool = (zsum f pool + zsum g pool)%Z.
Proof. induction pool as [|p pool IH]; simpl; [done|]. rewrite IH. lia. Qed.

Lemma zsum_indicator b (t : Z) pool :
  NoDup pool.*1 -> b ∈ pool.*1 -> zsum (fun p => if beq p.1 b then t else 0%Z) pool = t.
Proof.
  induction pool as [|[x w] pool IH]; simpl; [by intros _ H; apply elem_of_nil in H|].
  intros Hnd Hin. apply NoDup_cons in Hnd as [Hx Hnd].
  assert (Hz : forall q : Pool, (b ∉ q.*1) -> zsum (fun p => if beq p.1 b then t else 0%Z) q = 0%Z).
  { induction q as [|[y v] q IHq]; simpl; [done|]. intros Hy. apply not_elem_of_cons in Hy as [? ?].
    rewrite bool_decide_eq_false_2 by done. by rewrite IHq. }
  case_bool_decide as E.
  - subst x. rewrite Hz by done. lia.
  - apply elem_of_cons in Hin as [?|Hin]; [done|]. by rewrite IH.
Qed.

Lemma zsum_lower f (t : Z) pool :
  (forall p, p ∈ pool -> (- t < f p)%Z) -> (- (Z.of_nat (length pool) * t) <= zsum f pool)%Z.
Proof.
  induction pool as [|p pool IH]; intros H; simpl; [lia|].
  pose proof (H p ltac:(left)). assert (- (Z.of_nat (length pool) * t) <= zsum f pool)%Z; [|lia].
  apply IH. intros q Hq. apply H. by right.
Qed.

Lemma zsum_elem f (t : Z) pool p :
  (0 <= t)%Z -> (forall p, p ∈ pool -> (- t < f p)%Z) -> p ∈ pool ->
  (f p <= zsum f pool + Z.of_nat (length pool) * t)%Z.
Proof.
  intros Ht. induction pool as [|q pool IH]; intros H Hp; [by apply elem_of_nil in Hp|].
  pose proof (H q ltac:(left)) as Hq.
  assert (Hrest : forall p, p ∈ pool -> (- t < f p)%Z) by (intros; apply H; by right).
  apply elem_of_cons in Hp as [->|Hp]; simpl length; cbn [zsum foldr].
  - pose proof (zsum_lower f t pool Hrest). unfold zsum in *. lia.
  - pose proof (IH Hrest Hp). unfold zsum in *. lia.
Qed.

Lemma zsum_zero_nonneg f pool :
  zsum f pool = 0%Z -> (forall p, p ∈ pool -> (0 <= f p)%Z) -> forall p, p ∈ pool -> f p = 0%Z.
Proof.
  intros Hsum Hpos.
  assert (Hgen : forall q : Pool, (forall p, p ∈ q -> (0 <= f p)%Z) ->
    (0 <= zsum f q)%Z /\ forall p, p ∈ q -> (f p <= zsum f q)%Z).
  { induction q as [|x q IH]; intros Hq; [split; [done|]; intros p Hp; by apply elem_of_nil in Hp|].
    destruct IH as [IH1 IH2]; [intros p Hp; apply Hq; by right|].
    pose proof (Hq x ltac:(left)). cbn [zsum foldr]. unfold zsum in *. split; [lia|].
    intros p [->|Hp]%elem_of_cons; [lia|]. specialize (IH2 p Hp). lia. }
  intros p Hp. pose proof (Hpos p Hp). destruct (Hgen pool Hpos) as [_ Hle].
  specialize (Hle p Hp). lia.
Qed.

Lemma zsum_max f (m : Z) pool :
  (forall p, p ∈ pool -> (f p <= m)%Z) -> (zsum f pool <= Z.of_nat (length pool) * m)%Z.
Proof.
  induction pool as [|p pool IH]; intros H; simpl; [lia|].
  pose proof (H p ltac:(left)). assert (zsum f pool <= Z.of_nat (length pool) * m)%Z; [|lia].
  apply IH. intros q Hq. apply H. by right.
Qed.
End sums.

Lemma clamp_id x : (I64_MIN <= x <= I64_MAX)%Z -> clamp_i64 x = x.
Proof. unfold clamp_i64. lia. Qed.

(** Adding the weights, without saturation. *)
Lemma smooth_add_fold l t current :
  NoDup (pool_of l).*1 ->
  (0 <= t)%Z -> (t + total_weight (pool_of l) <= I64_MAX)%Z ->
  (forall p, p ∈ pool_of l ->
     (I64_MIN <= counter current p.1 /\ counter current p.1 + Z.of_N p.2 <= I64_MAX)%Z) ->
  exists current',
    foldl smooth_add (t, current) l = ((t + total_weight (pool_of l))%Z, current') /\
    (forall p, p ∈ pool_of l -> current' !! p.1 = Some (counter current p.1 + Z.of_N p.2)%Z) /\
    (forall b, b ∉ (pool_of l).*1 -> current' !! b = current !! b).
Proof.
  revert t current. induction l as [|e l IH]; intros t current Hnd Ht Hmax Hbound.
  - exists current. split; [simpl; unfold total_weight; simpl; f_equal; lia|].
    split; [intros p Hp; by apply elem_of_nil in Hp|done].
  - set (b := reg_binding (ev_registration e)) in *. set (w := weight e) in *.
    change (pool_of (e :: l)) with ((b, w) :: pool_of l) in *.
    change (((b, w) :: pool_of l).*1) with (b :: (pool_of l).*1) in *.
    apply NoDup_cons in Hnd as [Hb Hnd].
    change (total_weight ((b, w) :: pool_of l)) with (Z.of_N w + total_weight (pool_of l))%Z in *.
    assert (Htw : (0 <= total_weight (pool_of l))%Z).
    { unfold total_weight. clear. induction (pool_of l); simpl; [done|]. unfold zsum in *. lia. }
    destruct (Hbound (b, w) ltac:(left)) as [Hlo Hhi]. simpl in Hlo, Hhi.
    assert (Hc : sat_add_i64 (default 0%Z (current !! b)) (Z.of_N w) = (counter current b + Z.of_N w)%Z).
    { unfold sat_add_i64. apply clamp_id. fold (counter current b). lia. }
    assert (Ht' : sat_add_i64 t (Z.of_N w) = (t + Z.of_N w)%Z).
    { unfold sat_add_i64. apply clamp_id. unfold I64_MIN. lia. }
    cbn [foldl]. change (smooth_add (t, current) e) with
      (sat_add_i64 t (Z.of_N w), <[b := sat_add_i64 (default 0%Z (current !! b)) (Z.of_N w)]> current).
    rewrite Hc, Ht'.
    assert (Hother : forall b', b' <> b ->
      counter (<[b := (counter current b + Z.of_N w)%Z]> current) b' = counter current b').
    { intros b' Hne. unfold counter. by rewrite lookup_insert_ne. }
    destruct (IH (t + Z.of_N w)%Z (<[b := (counter current b + Z.of_N w)%Z]> current))
      as (current' & Hf & Hin & Hout); [done|lia|lia| |].
    { intros p Hp. rewrite Hother; [by apply Hbound; right|].
      intros Heq. apply Hb. rewrite <- Heq. by apply list_elem_of_fmap_2. }
    exists current'. split; [rewrite Hf; f_equal; lia|]. split.
    + intros p [->|Hp]%elem_of_cons; simpl.
      * rewrite Hout by done. by rewrite lookup_insert_eq.
      * rewrite Hin by done. rewrite Hother; [done|]. intros Heq. apply Hb. rewrite <- Heq. by apply list_elem_of_fmap_2.
    + intros b' Hb'. apply not_elem_of_cons in Hb' as [Hne Hb'].
      rewrite Hout by done. by rewrite lookup_insert_ne.
Qed.

(** Between rounds the counters of a pool add up to zero and none is a whole
    total behind. *)
Definition smooth_inv (pool : Pool) (current : gmap BindingKey Z) : Prop :=
  zsum (fun p => counter current p.1) pool = 0%Z /\
  forall p, p ∈ pool -> (- total_weight pool < counter current p.1)%Z.

(** The pools the strategy handles without saturating [i64]. *)
Definition pool_ok (pool : Pool) : Prop :=
  NoDup pool.*1 /\ pool <> [] /\ (forall p, p ∈ pool -> 0 < p.2) /\
  ((Z.of_nat (length pool) + 1) * total_weight pool <= I64_MAX)%Z.

Lemma total_weight_elem pool p : p ∈ pool -> (Z.of_N p.2 <= total_weight pool)%Z.
Proof.
  unfold total_weight. induction pool as [|q pool IH]; intros Hp; [by apply elem_of_nil in Hp|].
  assert (H0 : (0 <= zsum (fun p => Z.of_N p.2) pool)%Z).
  { clear. induction pool; simpl; [done|]. unfold zsum in *. lia. }
  simpl. apply elem_of_cons in Hp as [->|Hp]; [|specialize (IH Hp)]; unfold zsum in *; lia.
Qed.

Lemma total_weight_pos pool : pool_ok pool -> (0 < total_weight pool)%Z.
Proof.
  intros (_ & Hne & Hw & _). destruct pool as [|p pool]; [done|].
  pose proof (total_weight_elem (p :: pool) p ltac:(left)). pose proof (Hw p ltac:(left)). lia.
Qed.

Lemma smooth_inv_upper pool current p :
  smooth_inv pool current -> (0 <= total_weight pool)%Z -> p ∈ pool ->
  (counter current p.1 <= Z.of_nat (length pool) * total_weight pool)%Z.
Proof.
  intros [Hsum Hlow] Ht Hp.
  pose proof (zsum_elem (fun p => counter current p.1) (total_weight pool) pool p Ht Hlow Hp). lia.
Qed.

Lemma pool_weight_inj (pool : Pool) b w w' :
  NoDup pool.*1 -> (b, w) ∈ pool -> (b, w') ∈ pool -> w = w'.
Proof.
  intros Hnd [i Hi]%list_elem_of_lookup [j Hj]%list_elem_of_lookup.
  assert (i = j) as ->; [|congruence].
  eapply NoDup_lookup; [done|rewrite list_lookup_fmap, Hi; done|by rewrite list_lookup_fmap, Hj].
Qed.

Definition pool_entry (e : CandidateEvaluation) : BindingKey * N :=
  (reg_binding (ev_registration e), weight e).

(** The selected candidate has the largest raised counter. *)
Lemma smooth_selected l request (cur1 : gmap BindingKey Z) (v : BindingKey * N -> Z) :
  l <> [] -> (forall p, p ∈ pool_of l -> cur1 !! p.1 = Some (v p)) ->
  exists e, max_by (smooth_cmp cur1 request) l = Some e /\ e ∈ l /\ pool_entry e ∈ pool_of l /\
    forall p, p ∈ pool_of l -> (v p <= v (pool_entry e))%Z.
Proof.
  intros Hl Hin. destruct (max_by_is_Some (smooth_cmp cur1 request) l Hl) as [e He].
  pose proof (max_by_elem _ _ _ He) as Hel.
  assert (Hpe : forall y, y ∈ l -> pool_entry y ∈ pool_of l) by (intros y Hy; by apply list_elem_of_fmap_2).
  exists e. do 2 (split; [done|]). split; [by apply Hpe|]. intros p Hp.
  apply list_elem_of_fmap in Hp as (y & -> & Hy). fold (pool_entry y).
  pose proof (max_by_max (smooth_cmp cur1 request) _ _ _ He Hy) as Hle.
  unfold smooth_cmp in Hle. do 2 apply then_with_le in Hle.
  change (reg_binding (ev_registration y)) with (pool_entry y).1 in Hle.
  change (reg_binding (ev_registration e)) with (pool_entry e).1 in Hle.
  rewrite (Hin _ (Hpe y Hy)), (Hin _ (Hpe e Hel)) in Hle. by apply Z.compare_le_iff.
Qed.

(** The counters of a pool stay far from the limits of [i64]. *)
Lemma smooth_inv_range pool current p :
  pool_ok pool -> smooth_inv pool current -> p ∈ pool ->
  (I64_MIN <= counter current p.1 /\ counter current p.1 + Z.of_N p.2 <= I64_MAX)%Z.
Proof.
  intros Hok Hinv Hp. pose proof (total_weight_pos _ Hok) as HT.
  destruct Hok as (_ & Hne & _ & Hmax).
  assert (Hn : (1 <= Z.of_nat (length pool))%Z) by (destruct pool; [done|simpl; lia]).
  pose proof (smooth_inv_upper pool current p Hinv ltac:(lia) Hp) as Hup.
  pose proof (total_weight_elem pool p Hp) as Hwp. pose proof (proj2 Hinv p Hp) as Hlp.
  unfold I64_MIN, I64_MAX in *. nia.
Qed.

(** The raised counters add up to the total, so the largest is positive. *)
Lemma smooth_best_pos pool current (best : BindingKey * N) :
  pool_ok pool -> smooth_inv pool current ->
  (forall p, p ∈ pool -> (counter current p.1 + Z.of_N p.2
     <= counter current best.1 + Z.of_N best.2)%Z) ->
  (0 < counter current best.1 + Z.of_N best.2)%Z.
Proof.
  intros Hok [Hsum _] Hbest. pose proof (total_weight_pos _ Hok) as HT.
  pose proof (zsum_max (fun p => (counter current p.1 + Z.of_N p.2)%Z) _ pool Hbest) as Hs.
  rewrite zsum_add, Hsum in Hs. fold (total_weight pool) in Hs. nia.
Qed.

(** The arithmetic of one step: raising every counter by its weight and lowering
    the largest by the total keeps the invariant. *)
Lemma smooth_inv_step pool current current' (best : BindingKey * N) :
  pool_ok pool -> smooth_inv pool current -> best ∈ pool ->
  (0 < counter current best.1 + Z.of_N best.2)%Z ->
  (forall p, p ∈ pool -> counter current' p.1 =
     (counter current p.1 + Z.of_N p.2 - if beq p.1 best.1 then total_weight pool else 0)%Z) ->
  smooth_inv pool current'.
Proof.
  intros (Hnd & _ & Hw & _) [Hsum Hlow] Hb Hpos Hcount. split.
  - rewrite (zsum_ext _ (fun p => (counter current p.1 + Z.of_N p.2)
      + (if beq p.1 best.1 then - total_weight pool else 0))%Z)
      by (intros p Hp; rewrite Hcount by done; destruct (beq p.1 best.1); lia).
    rewrite !zsum_add, Hsum, zsum_indicator by (try done; by apply (list_elem_of_fmap_2 fst)).
    fold (total_weight pool). lia.
  - intros p Hp. rewrite Hcount by done. pose proof (Hlow p Hp). pose proof (Hw p Hp).
    case_bool_decide as E; [|lia].
    assert (p.2 = best.2) as ->; [|rewrite E; lia].
    destruct p as [pb pw], best as [bb bw]. simpl in *. subst pb. by eapply pool_weight_inj.
Qed.

Lemma smooth_step_spec l request current :
  pool_ok (pool_of l) -> smooth_inv (pool_of l) current ->
  exists e current', smooth_step current l request = Some (e, current') /\ e ∈ l /\
    smooth_inv (pool_of l) current' /\
    forall p, p ∈ pool_of l -> counter current' p.1 =
      (counter current p.1 + Z.of_N p.2
       - if beq p.1 (reg_binding (ev_registration e)) then total_weight (pool_of l) else 0)%Z.
Proof.
  intros Hok Hinv. pose proof (total_weight_pos _ Hok) as HT.
  assert (Hbound := fun p => smooth_inv_range _ current p Hok Hinv).
  pose proof Hok as (Hnd & Hne & Hw & Hmax). set (pool := pool_of l) in *. set (T := total_weight pool) in *.
  assert (HTmax : (T <= I64_MAX)%Z) by (destruct pool; [done|simpl length in Hmax; nia]).
  destruct (smooth_add_fold l 0%Z current) as (cur1 & Hf & Hin & Hout); fold pool; fold T;
    [done|lia|lia|done|].
  fold pool in Hf, Hin, Hout. fold T in Hf. change (0 + T)%Z with T in Hf.
  assert (Hl : l <> []) by (intros ->; done).
  destruct (smooth_selected l request cur1 _ Hl Hin) as (e & He & Hel & Hpe & Hbest).
  fold pool in Hpe, Hbest. set (best := pool_entry e) in *.
  set (current' := alter (fun value => sat_sub_i64 value T) best.1 cur1).
  exists e, current'. split; [unfold smooth_step; by rewrite Hf, He|]. split; [done|].
  pose proof (smooth_best_pos pool current best Hok Hinv Hbest) as Hpos.
  assert (Hcount : forall p, p ∈ pool -> counter current' p.1 =
    (counter current p.1 + Z.of_N p.2 - if beq p.1 best.1 then T else 0)%Z).
  { intros p Hp. unfold counter at 1, current'. case_bool_decide as E.
    - rewrite E, lookup_alter_eq, (Hin _ Hpe).
      change (sat_sub_i64 (counter current best.1 + Z.of_N best.2) T =
        counter current best.1 + Z.of_N p.2 - T)%Z.
      unfold sat_sub_i64. destruct (Hbound best Hpe) as [Hlo Hhi].
      rewrite clamp_id by (unfold I64_MIN, I64_MAX in *; lia).
      destruct p as [pb pw]. simpl in E. subst pb.
      by rewrite (pool_weight_inj pool best.1 pw best.2 Hnd Hp Hpe).
    - rewrite lookup_alter_ne by done. rewrite (Hin p Hp). simpl. lia. }
  split; [|exact Hcount]. by apply (smooth_inv_step pool current current' best).
Qed.

(** A round of the strategy over one pool of one model. *)
Definition smooth_round (key : SmoothKey) (pool : Pool) (round : Round) : Prop :=
  let '(eligible, request) := round in
  pool_of eligible = pool /\ sr_strategy request = SmoothWeightedRoundRobin /\
  is_some_and (sr_routing request) adaptive = false /\
  (sr_model request, sr_pool_id request) = key.

Definition smooth_counters (s : RegistryState) (key : SmoothKey) : gmap BindingKey Z :=
  default ∅ (rs_smooth_current s !! key).

Lemma smooth_run s key pool rounds :
  pool_ok pool -> Forall (smooth_round key pool) rounds ->
  smooth_inv pool (smooth_counters s key) ->
  exists picks s', choose_run s rounds = Some (picks, s') /\ length picks = length rounds /\
    smooth_inv pool (smooth_counters s' key) /\
    forall p, p ∈ pool -> counter (smooth_counters s' key) p.1 =
      (counter (smooth_counters s key) p.1 + Z.of_nat (length rounds) * Z.of_N p.2
       - total_weight pool * Z.of_nat (picked p.1 picks))%Z.
Proof.
  intros Hok Hall. revert s.
  induction Hall as [|[l rq] rounds (Hpool & Hst & Hna & Hkey) _ IH]; intros s Hinv.
  - exists [], s. split; [done|]. split; [done|]. split; [done|]. intros p Hp. unfold picked. simpl. lia.
  - destruct (smooth_step_spec l rq (smooth_counters s key)) as (e & cur & Hstep & Hel & Hinv' & Hcount);
      [by rewrite Hpool..|].
    set (s1 := set_smooth (<[key := cur]> (rs_smooth_current s)) s).
    assert (Hc : choose_index s l rq = Some (e, s1)).
    { unfold choose_index. rewrite Hna, Hst, Hkey. fold (smooth_counters s key). by rewrite Hstep. }
    assert (Hs1 : smooth_counters s1 key = cur)
      by (unfold smooth_counters, s1; simpl; by rewrite lookup_insert_eq).
    rewrite Hpool in Hinv', Hcount.
    destruct (IH s1) as (picks & s' & Hrun & Hlen & Hinv'' & Hc'); [by rewrite Hs1|].
    exists (reg_binding (ev_registration e) :: picks), s'. cbn [choose_run]. rewrite Hc, Hrun.
    split; [done|]. split; [by simpl; rewrite Hlen|]. split; [done|].
    intros p Hp. rewrite Hc', Hs1, Hcount by done. unfold picked. cbn [List.filter].
    rewrite (bool_decide_ext (reg_binding (ev_registration e) = p.1)
      (p.1 = reg_binding (ev_registration e))) by done.
    case_bool_decide; cbn [length]; lia.
Qed.

(** [C6] Smooth weighted round robin is proportional: from fresh counters, while
    the same pool of candidates stays eligible, [m] times the total weight of
    choices pick every candidate exactly [m] times its weight; and after any
    number of choices in between, no candidate is a full round of the pool ahead
    of its share or more than the pool's size times that behind it.  No counter
    saturates for a pool whose size plus one, times its total weight, fits
    [i64]. *)
Theorem smooth_wrr_proportional s key pool rounds :
  pool_ok pool -> Forall (smooth_round key pool) rounds ->
  rs_smooth_current s !! key = None ->
  exists picks s', choose_run s rounds = Some (picks, s') /\ length picks = length rounds /\
    forall b w, (b, w) ∈ pool ->
      let drift := (Z.of_nat (length rounds) * Z.of_N w
                    - total_weight pool * Z.of_nat (picked b picks))%Z in
      (- total_weight pool < drift <= Z.of_nat (length pool) * total_weight pool)%Z /\
      forall m, (Z.of_nat (length rounds) = m * total_weight pool)%Z ->
        Z.of_nat (picked b picks) = (m * Z.of_N w)%Z.
Proof.
  intros Hok Hall Hfresh. pose proof (total_weight_pos _ Hok) as HT.
  assert (Hzero : forall p : BindingKey * N, counter (smooth_counters s key) p.1 = 0%Z).
  { intros p. unfold smooth_counters, counter. by rewrite Hfresh. }
  assert (Hinv : smooth_inv pool (smooth_counters s key)).
  { split; [|intros p _; rewrite Hzero; lia].
    rewrite (zsum_ext _ (fun _ => 0%Z)) by (intros; apply Hzero). clear. by induction pool. }
  destruct (smooth_run s key pool rounds Hok Hall Hinv) as (picks & s' & Hrun & Hlen & Hinv' & Hc).
  exists picks, s'. split; [done|]. split; [done|]. intros b w Hp.
  pose proof (Hc _ Hp) as Hcp. rewrite Hzero in Hcp. simpl in Hcp.
  pose proof (smooth_inv_upper pool _ _ Hinv' ltac:(lia) Hp) as Hup.
  pose proof (proj2 Hinv' _ Hp) as Hlow. simpl in Hup, Hlow.
  split; [simpl; lia|]. intros m Hm.
  assert (Hall0 : forall p, p ∈ pool -> counter (smooth_counters s' key) p.1 = 0%Z).
  { apply zsum_zero_nonneg; [exact (proj1 Hinv')|]. intros p' Hp'.
    pose proof (Hc _ Hp') as Hcp'. rewrite Hzero, Hm in Hcp'. simpl in Hcp'.
    pose proof (proj2 Hinv' _ Hp') as Hl'.
    set (k := (m * Z.of_N p'.2 - Z.of_nat (picked p'.1 picks))%Z).
    assert (Hk : counter (smooth_counters s' key) p'.1 = (total_weight pool * k)%Z) by (unfold k; lia).
    rewrite Hk in *. assert (-1 < k)%Z by nia. nia. }
  pose proof (Hall0 _ Hp) as H0. simpl in H0. rewrite H0, Hm in Hcp.
  assert (Hz : (total_weight pool * (m * Z.of_N w - Z.of_nat (picked b picks)) = 0)%Z) by lia.
  apply Z.mul_eq_0 in Hz as [?|?]; lia.
Qed.

Lemma smooth_wrr_proportional_witness :
  let rq := with_strategy example_request SmoothWeightedRoundRobin in
  let a := example_evaluation rq "a" 2 0 0 in
  let b := example_evaluation rq "b" 1 0 1 in
  exists picks s', choose_run state_new [([a; b], rq); ([a; b], rq); ([a; b], rq)] = Some (picks, s') /\
    Z.of_nat (picked (reg_binding (ev_registration a)) picks) = 2%Z.
Proof.
  intros rq a b.
  edestruct (smooth_wrr_proportional state_new (MkModelId "m", None) (pool_of [a; b])
    [([a; b], rq); ([a; b], rq); ([a; b], rq)]) as (picks & s' & Hrun & _ & Hp).
  - split; [apply (bool_decide_unpack _); vm_compute; exact I|]. split; [done|]. split.
    + intros p (y & -> & Hy)%list_elem_of_fmap. rewrite !elem_of_cons, elem_of_nil in Hy.
      by destruct Hy as [->|[->|[]]].
    + vm_compute. discriminate.
  - by repeat constructor.
  - reflexivity.
  - exists picks, s'. split; [exact Hrun|].
    apply (proj2 (Hp _ 2 ltac:(left)) 1%Z). reflexivity.
Defined.
