(* ===== verification/Select.v ===== *)
(** Selection, leases and quota recovery
    (crates/pooler-policy/src/selection.rs, [select_from_state], the lease types
    and [recover_quota]).

    A reservation holds an [Arc] to the registry it came from; the model gives
    every registry an identifier and keeps the registries in a store, so that
    [Arc::ptr_eq] is equality of identifiers and dropping a lease acts on the
    registry that issued it. *)
From S2P Require Import Prelude Str Time CoreId Capabilities CoreError Classify Retry Binding.
From S2P Require Import Health Quota Explain Telemetry Registration Registry Evaluate Choose.

Open Scope N_scope.

(** * Leases *)

Record SelectionReservation := MkReservation {
  res_binding : BindingKey;
  res_credential : CredentialId;
  res_registration_order : N;
  res_inner : N;
  res_released : bool;
}.

Record SelectionLease := MkLease {
  lease_registration : CredentialRegistration;
  lease_explanation : SelectionExplanation;
  lease_reservation : SelectionReservation;
}.

(** [release_from]: the decrement is fenced by the registration order. *)
Definition release_from (r : SelectionReservation) (s : RegistryState)
  : SelectionReservation * RegistryState :=
  if res_released r then (r, s)
  else
    let s := match rs_entries s !! res_binding r with
             | Some entry =>
               if e_order entry =? res_registration_order r
               then set_entries (<[res_binding r :=
                      entry_set_in_flight (sat_sub (e_in_flight entry) 1) entry]> (rs_entries s)) s
               else s
             | None => s
             end in
    (MkReservation (res_binding r) (res_credential r) (res_registration_order r) (res_inner r) true, s).

(** * Selection *)

Section select.
Context `{Digest}.

Definition explain_evaluation (strategy : SelectionStrategy) (ev : CandidateEvaluation)
  : CandidateExplanation :=
  let target := selection_target (ev_registration ev) in
  match ev_reasons ev with
  | [] => candidate_eligible target (score ev strategy)
  | reasons => MkCandidateExplanation target None reasons
  end.

Definition no_reasons (ev : CandidateEvaluation) : bool :=
  match ev_reasons ev with [] => true | _ => false end.

(** [best_priority] and [best_tier]. *)
Definition best_priority (eligible : list CandidateEvaluation) : option N :=
  min_N (map (fun ev => reg_priority (ev_registration ev)) eligible).
Definition tier (priority : N) (eligible : list CandidateEvaluation) : list CandidateEvaluation :=
  List.filter (fun ev => reg_priority (ev_registration ev) =? priority) eligible.

Definition affinity_matches (a : AffinityBinding) (ev : CandidateEvaluation) : bool :=
  beq (reg_binding (ev_registration ev)) (ab_binding a)
  && beq (reg_provider (ev_registration ev)) (ab_provider a)
  && beq (reg_model (ev_registration ev)) (ab_model a).

(** [now.checked_add(ttl).unwrap_or(now)]. *)
Definition affinity_deadline (request : SelectionRequest) : Instant :=
  default (sr_now request) (checked_add (sr_now request) (sr_affinity_ttl request)).

Definition touch_affinity (request : SelectionRequest) (a : AffinityBinding) : AffinityBinding :=
  MkAffinityBinding (ab_binding a) (ab_provider a) (ab_model a) (sr_now request)
    (affinity_deadline request).

Definition unavailable_target (a : AffinityBinding) : SelectionTarget :=
  MkSelectionTarget (ab_provider a) (ab_model a)
    (MkPseudonym (pseudonym (credential_str (bk_account_id (ab_binding a)))))
    (Some (bk_target_id (ab_binding a))) (Some (binding_pseudonym (ab_binding a))) None None.

(** The affinity block: a match is used, a missing target is refused, or the
    strategy chooses (remembering the provider it rebinds from). *)
Inductive AffinityOutcome :=
| AffSelect (ev : CandidateEvaluation) (s : RegistryState) (ex : SelectionExplanation)
| AffRefuse (ex : SelectionExplanation)
| AffChoose (rebound : option ProviderId) (ex : SelectionExplanation).

Definition affinity_phase (request : SelectionRequest) (evaluations best_tier : list CandidateEvaluation)
    (best : N) (ex : SelectionExplanation) (s : RegistryState) : AffinityOutcome :=
  match sr_affinity_key request with
  | None => AffChoose None ex
  | Some key =>
    match rs_affinity s !! key with
    | None => AffChoose None (set_affinity (NoMatch (affinity_str key)) ex)
    | Some a =>
      match List.find (affinity_matches a) best_tier with
      | Some ev =>
        AffSelect ev (set_affinity_map (alter (touch_affinity request) key (rs_affinity s)) s)
          (set_affinity (Matched (affinity_str key) (selection_target (ev_registration ev))) ex)
      | None =>
        let binding_is_lower_tier := existsb (fun ev =>
          beq (reg_binding (ev_registration ev)) (ab_binding a)
          && (best <? reg_priority (ev_registration ev))) evaluations in
        if negb (sr_affinity_rebind request) && negb binding_is_lower_tier
        then AffRefuse (set_affinity (Unavailable (affinity_str key) (unavailable_target a)) ex)
        else AffChoose (Some (ab_provider a)) ex
      end
    end
  end.

(** The end of [select_from_state]: reserve a slot, record the decision, bind
    the affinity key. *)
Definition reserve (binding : BindingKey) (s : RegistryState) : RegistryState :=
  match rs_entries s !! binding with
  | Some entry =>
    set_entries (<[binding := entry_set_in_flight (sat_add U32_MAX (e_in_flight entry) 1) entry]>
                   (rs_entries s)) s
  | None => s
  end.

Definition finish_selection (inner : N) (request : SelectionRequest) (selected : CandidateEvaluation)
    (rebound : option ProviderId) (ex : SelectionExplanation) (s : RegistryState)
  : SelectionLease * RegistryState :=
  let r := ev_registration selected in
  let s := reserve (reg_binding r) s in
  let ex := set_selected (selection_target r) (Some (score selected (sr_strategy request))) ex in
  let '(ex, s) :=
    match sr_affinity_key request with
    | None => (ex, s)
    | Some key =>
      (match rebound with
       | Some previous => set_affinity (Rebound (affinity_str key) previous (selection_target r)) ex
       | None => ex
       end,
       (insert_bounded_affinity key
         (MkAffinityBinding (reg_binding r) (reg_provider r) (reg_model r) (sr_now request)
            (affinity_deadline request)) s).2)
    end in
  (MkLease r ex (MkReservation (reg_binding r) (reg_credential r) (e_order (ev_entry selected))
                   inner false), s).

(** [select_from_state] of the registry [inner]; the outer [None] is a panic. *)
Definition select_from_state (inner : N) (h : HealthRegistry) (request : SelectionRequest)
    (s : RegistryState) : option (Result SelectionLease SelectionError * RegistryState) :=
  if is_zero (sr_affinity_ttl request) then Some (Err ZeroAffinityTtl, s)
  else
    let s := recover_quotas (sr_now request) (purge_expired_affinity (sr_now request) s) in
    let requested_model := sr_model request in
    let resolved_model := default requested_model (resolve_alias (rs_aliases s) requested_model) in
    let resolved_request := sr_with_model request resolved_model in
    let evaluations := evaluate_candidates s h resolved_request in
    let resolution := if beq resolved_model requested_model then alias_exact requested_model
                      else alias_alias requested_model resolved_model in
    let ex := foldl (fun ex ev => push_candidate (explain_evaluation (sr_strategy request) ev) ex)
                (explanation_new resolution (sr_attempt request) (sr_configuration_generation request))
                evaluations in
    let eligible := List.filter no_reasons evaluations in
    match best_priority eligible with
    | None => Some (Err (NoEligible requested_model ex), s)
    | Some best =>
      let best_tier := tier best eligible in
      match affinity_phase request evaluations best_tier best ex s with
      | AffRefuse ex => Some (Err (NoEligible requested_model ex), s)
      | AffSelect ev s ex =>
        let '(lease, s) := finish_selection inner request ev None ex s in Some (Ok lease, s)
      | AffChoose rebound ex =>
        match choose_index s best_tier resolved_request with
        | None => None
        | Some (ev, s) =>
          let '(lease, s) := finish_selection inner request ev rebound ex s in Some (Ok lease, s)
        end
      end
    end.
End select.

(** * The registries and their leases *)

Abbreviation Store := (gmap N RegistryInner).

(** [Drop for SelectionReservation]: releases in the registry that issued it. *)
Definition drop_reservation (r : SelectionReservation) (store : Store) : Store :=
  if res_released r then store
  else alter (fun inner => with_state (release_from r (ri_state inner)).2 inner) (res_inner r) store.

Definition drop_lease (l : SelectionLease) (store : Store) : Store :=
  drop_reservation (lease_reservation l) store.

Definition select `{Digest} (id : N) (request : SelectionRequest) (r : RegistryInner)
  : option (Result SelectionLease SelectionError * RegistryInner) :=
  match select_from_state id (ri_health r) request (ri_state r) with
  | None => None
  | Some (result, s) => Some (result, with_state s r)
  end.

Definition select_with_health `{Digest} (id : N) (request : SelectionRequest) (h : HealthRegistry)
    (r : RegistryInner) : option (Result SelectionLease SelectionError * RegistryInner) :=
  match select_from_state id h request (ri_state r) with
  | None => None
  | Some (result, s) => Some (result, with_state s r)
  end.

(** * Quota recovery *)

Record QuotaRecovery := MkQuotaRecovery {
  qr_health_mutation : HealthMutation;
  qr_retry_decision : RetryDecision;
  qr_selection : option SelectionLease;
  qr_no_eligible : option SelectionExplanation;
}.

Definition recovery_target_change (scope : QuotaScope) : RetryTargetChange :=
  match scope with
  | QsProvider | QsProviderModel => DifferentProvider
  | QsCredential | QsCredentialModel | QsProject | QsProjectModel => DifferentCredential
  end.

Definition exclude_binding (request : SelectionRequest) (b : BindingKey) : SelectionRequest :=
  with_excluded_bindings request [b].

(** [entry.order == registration_order && entry.registration == failed_registration]. *)
Definition owns_current_entry (res : SelectionReservation) (failed : CredentialRegistration)
    (s : RegistryState) : bool :=
  is_some_and (rs_entries s !! res_binding res) (fun entry =>
    (e_order entry =? res_registration_order res) && beq (e_registration entry) failed).

(** The part of [recover_quota] that runs under both locks of the registry [id]. *)
Definition recover_locked `{Digest} (id : N) (failed : SelectionLease) (c : QuotaClassification)
    (failure : FailureClassification) (request : SelectionRequest) (policy : RetryPolicy)
    (context : RetryContext) (r : RegistryInner)
  : option (Result QuotaRecovery SelectionError * RegistryInner) :=
  let registration := lease_registration failed in
  let res := lease_reservation failed in
  let owns := owns_current_entry res registration (ri_state r) in
  let s := (release_from res (ri_state r)).2 in
  if negb owns then Some (Err StaleLease, with_state s r)
  else
    let s := recover_quotas (sr_now request) (purge_expired_affinity (sr_now request) s) in
    match insert_quota_for_binding (res_binding res) registration (qc_snapshot c) s with
    | (Err e, s) => Some (Err e, with_state s r)
    | (Ok false, s) => Some (Err StaleQuotaObservation, with_state s r)
    | (Ok true, s) =>
      let subject := MkHealthSubject (Some (reg_credential registration)) (Some (reg_model registration))
                       (Some (reg_provider registration)) (sr_route request) (Some (res_binding res)) in
      match apply_failure failure subject (sr_now request) (ri_health r) with
      | None => None
      | Some (mutation, h) =>
        let decision := retry_decide policy failure context in
        if negb (is_retry decision)
        then Some (Ok (MkQuotaRecovery mutation decision None None), MkInner s h)
        else match select_from_state id h request s with
        | None => None
        | Some (Ok lease, s) =>
          Some (Ok (MkQuotaRecovery mutation decision (Some lease) None), MkInner s h)
        | Some (Err (NoEligible _ ex), s) =>
          Some (Ok (MkQuotaRecovery mutation (DoNotRetry NoAlternateTarget) None (Some ex)), MkInner s h)
        | Some (Err e, s) => Some (Err e, MkInner s h)
        end
      end
    end.

Definition recover_quota `{Digest} (id : N) (failed : SelectionLease) (c : QuotaClassification)
    (request : SelectionRequest) (policy : RetryPolicy) (context : RetryContext) (store : Store)
  : option (Result QuotaRecovery SelectionError * Store) :=
  match qc_failure c with
  | None => Some (Err QuotaNotExhausted, drop_lease failed store)
  | Some failure =>
    if negb (quota_classification_exhausted c (sr_now request))
    then Some (Err QuotaNotExhausted, drop_lease failed store)
    else if negb (res_inner (lease_reservation failed) =? id)
    then Some (Err ForeignLease, drop_lease failed store)
    else
      let request := exclude_binding request (res_binding (lease_reservation failed)) in
      let context := with_target_change context (recovery_target_change (q_scope (qc_snapshot c))) in
      match store !! id with
      | None => None
      | Some r =>
        match recover_locked id failed c failure request policy context r with
        | None => None
        | Some (result, r') => Some (result, <[id := r']> store)
        end
      end
  end.
