(* ===== verification/Invariant.v ===== *)
(** The invariant of the registry's tables and its preservation by every
    operation: nothing refers to a binding that is not registered, orders are
    unique, the affinity table is bounded and every alias chain ends. *)
From S2P Require Import Prelude Str Time CoreId Capabilities Classify Binding Health Quota.
From S2P Require Import Explain Telemetry Registration Registry QuotaTable Evaluate.
From S2P Require Import Evaluate Choose.

Open Scope N_scope.

(** What the tables may depend on of an entry: its metadata and its order. *)
Definition entry_view (e : RegistryEntry) : CredentialRegistration * N := (e_registration e, e_order e).
Definition view (s : RegistryState) : gmap BindingKey (CredentialRegistration * N) :=
  entry_view <$> rs_entries s.

Definition registered (s : RegistryState) (b : BindingKey) : Prop := is_Some (rs_entries s !! b).

Record tables_inv (v : gmap BindingKey (CredentialRegistration * N)) (s : RegistryState) : Prop := {
  inv_key : forall b r o, v !! b = Some (r, o) ->
    reg_binding r = b /\ reg_credential r = bk_account_id b;
  inv_order_lt : forall b r o, v !! b = Some (r, o) -> o < rs_next_order s;
  inv_order_inj : forall b b' r r' o, v !! b = Some (r, o) -> v !! b' = Some (r', o) -> b = b';
  inv_affinity_size : N.of_nat (size (rs_affinity s)) <= MAX_AFFINITY_BINDINGS;
  inv_affinity : forall k a, rs_affinity s !! k = Some a -> is_Some (v !! ab_binding a);
  inv_smooth : forall k c b, rs_smooth_current s !! k = Some c -> is_Some (c !! b) -> is_Some (v !! b);
  inv_round_robin : forall k c b, rs_round_robin s !! k = Some c -> b ∈ k.2 -> is_Some (v !! b);
  inv_quotas : forall subject u q, rs_quotas s !! (subject, u) = Some q ->
    exists b r o, v !! b = Some (r, o) /\ subject_matches subject r = true;
  inv_binding_quotas : forall b u q, rs_binding_quotas s !! (b, u) = Some q ->
    is_Some (v !! b) /\ (q_scope q = QsCredential \/ q_scope q = QsCredentialModel);
  inv_aliases : aliases_acyclic (rs_aliases s);
}.

Definition state_inv (s : RegistryState) : Prop := tables_inv (view s) s.

(** A state that differs only in what the invariant does not read. *)
Definition tables_eq (s s' : RegistryState) : Prop :=
  view s' = view s /\ rs_next_order s' = rs_next_order s /\ rs_aliases s' = rs_aliases s /\
  rs_affinity s' = rs_affinity s /\ rs_smooth_current s' = rs_smooth_current s /\
  rs_round_robin s' = rs_round_robin s /\ rs_quotas s' = rs_quotas s /\
  rs_binding_quotas s' = rs_binding_quotas s.

Lemma tables_eq_inv s s' : tables_eq s s' -> state_inv s -> state_inv s'.
Proof.
  unfold state_inv. intros (Hv & H1 & H2 & H3 & H4 & H5 & H6 & H7) []. rewrite Hv.
  split; rewrite ?H1, ?H2, ?H3, ?H4, ?H5, ?H6, ?H7; done.
Qed.

Lemma lookup_view s b : view s !! b = entry_view <$> rs_entries s !! b.
Proof. apply lookup_fmap. Qed.

Lemma view_Some s b r o :
  view s !! b = Some (r, o) <->
  exists e, rs_entries s !! b = Some e /\ e_registration e = r /\ e_order e = o.
Proof.
  rewrite lookup_view. destruct (rs_entries s !! b) as [e|]; simpl.
  - unfold entry_view. split; [intros [= <- <-]; eauto|]. by intros (? & [= <-] & <- & <-).
  - split; [done|]. by intros (? & ? & _).
Qed.

Lemma view_registered s b : is_Some (view s !! b) <-> registered s b.
Proof. rewrite lookup_view. unfold registered. apply fmap_is_Some. Qed.

Lemma state_new_inv : state_inv state_new.
Proof.
  assert (Hv : view state_new = ∅) by apply fmap_empty. unfold state_inv. rewrite Hv.
  split; simpl; intros; try (by rewrite lookup_empty in *); try done.
  - intros m. exists m. constructor. apply lookup_empty.
Qed.

(** * Writes that keep the view *)

Lemma set_view_same s m : entry_view <$> m = view s -> tables_eq s (set_entries m s).
Proof. intros H. by repeat split. Qed.

Lemma view_insert_same s b e e' :
  rs_entries s !! b = Some e -> entry_view e' = entry_view e ->
  entry_view <$> <[b := e']> (rs_entries s) = view s.
Proof.
  intros Hb He. rewrite fmap_insert, He. apply insert_id. by rewrite lookup_view, Hb.
Qed.

Lemma set_enabled_eq c enabled s : tables_eq s (set_enabled c enabled s).2.
Proof.
  apply set_view_same. unfold view. rewrite <- map_fmap_compose. apply map_fmap_ext.
  intros b e _. simpl. by destruct (owned_by c e).
Qed.

Lemma set_binding_enabled_eq b enabled s : tables_eq s (set_binding_enabled b enabled s).2.
Proof.
  unfold set_binding_enabled. destruct (rs_entries s !! b) as [e|] eqn:E; [|by repeat split].
  apply set_view_same. by eapply view_insert_same.
Qed.

Lemma set_credentials_enabled_inv changes r :
  state_inv (ri_state r) -> state_inv (ri_state (set_credentials_enabled changes r).2).
Proof.
  revert r. induction changes as [|[c en] changes IH]; intros r Hr; simpl; [done|].
  specialize (IH (MkInner (set_enabled c en (ri_state r)).2
    (if en then enable_credential c (ri_health r) else disable_credential c (ri_health r)))).
  destruct (set_credentials_enabled changes _) as [c' r'] eqn:E. simpl in *. apply IH.
  eapply tables_eq_inv; [apply set_enabled_eq|done].
Qed.

(** * Affinity *)

#[export] Instance pre_affinity_age : PreCmp affinity_age_cmp.
Proof.
  apply pre_then.
  - apply (pre_key (fun a : AffinityKey * AffinityBinding => ab_last_used_at a.2) Z.compare), _.
  - apply (pre_key fst affinity_cmp), _.
Qed.

Lemma oldest_affinity_elem m k : oldest_affinity m = Some k -> is_Some (m !! k).
Proof.
  unfold oldest_affinity. destruct (min_by _ _) as [[k' a]|] eqn:E; [|done]. intros [= <-].
  apply (min_by_elem affinity_age_cmp), (elem_of_btree_list affinity_cmp) in E. simpl. eauto.
Qed.

Lemma oldest_affinity_is_Some m : m <> ∅ -> is_Some (oldest_affinity m).
Proof.
  intros Hne. unfold oldest_affinity.
  destruct (min_by_is_Some affinity_age_cmp (btree_list affinity_cmp m)) as [x ->]; [|by eauto].
  intros Hnil. apply Hne, map_empty. intros k. destruct (m !! k) as [v|] eqn:E; [|done].
  apply (elem_of_btree_list affinity_cmp) in E. rewrite Hnil in E. by apply elem_of_nil in E.
Qed.

(** Insertion writes only the affinity table, which stays bounded; the key is
    bound, and every other binding of the result was there before. *)
Lemma insert_bounded_affinity_spec key a s :
  N.of_nat (size (rs_affinity s)) <= MAX_AFFINITY_BINDINGS ->
  let s' := (insert_bounded_affinity key a s).2 in
  (exists m, s' = set_affinity_map m s) /\
  N.of_nat (size (rs_affinity s')) <= MAX_AFFINITY_BINDINGS /\
  rs_affinity s' !! key = Some a /\
  (forall k b, k <> key -> rs_affinity s' !! k = Some b -> rs_affinity s !! k = Some b) /\
  (forall k, (insert_bounded_affinity key a s).1 = Some k ->
     N.of_nat (size (rs_affinity s)) = MAX_AFFINITY_BINDINGS /\ rs_affinity s !! key = None /\
     oldest_affinity (rs_affinity s) = Some k).
Proof.
  intros Hsz. unfold insert_bounded_affinity. set (m := rs_affinity s) in *.
  destruct (m !! key) as [old|] eqn:E; simpl.
  { split; [eexists; reflexivity|]. split; [by rewrite map_size_insert_Some by eauto|].
    split; [apply lookup_insert_eq|]. split; [|done]. intros k b Hk. by rewrite lookup_insert_ne. }
  destruct (N.leb_spec MAX_AFFINITY_BINDINGS (N.of_nat (size m))) as [Hfull|Hroom]; simpl.
  - destruct (oldest_affinity_is_Some m) as [k Hk].
    { intros ->. rewrite map_size_empty in Hfull. unfold MAX_AFFINITY_BINDINGS in Hfull. lia. }
    rewrite Hk. simpl. destruct (oldest_affinity_elem _ _ Hk) as [w Hw].
    assert (Hne : key <> k) by congruence.
    split; [eexists; reflexivity|]. split.
    { rewrite map_size_insert_None by (by rewrite lookup_delete_ne).
      rewrite map_size_delete_Some by (by exists w).
      assert (size m <> 0)%nat; [|lia]. rewrite map_size_ne_0_lookup. by exists k, w. }
    split; [apply lookup_insert_eq|]. split.
    + intros k' b Hk'. rewrite lookup_insert_ne by done. intros Hd.
      by apply lookup_delete_Some in Hd as [_ ?].
    + intros k' [= <-]. split; [lia|done].
  - split; [eexists; reflexivity|]. split; [rewrite map_size_insert_None by done; lia|].
    split; [apply lookup_insert_eq|]. split; [|done]. intros k b Hk. by rewrite lookup_insert_ne.
Qed.

Lemma insert_bounded_affinity_inv key a s :
  state_inv s -> registered s (ab_binding a) -> state_inv (insert_bounded_affinity key a s).2.
Proof.
  intros Hinv Ha. pose proof Hinv as [].
  destruct (insert_bounded_affinity_spec key a s) as ([m Hm] & Hsz & Hkey & Hother & _); [done|].
  rewrite Hm in *. simpl in *. split; simpl; try done.
  intros k b Hk. destruct (decide (k = key)) as [->|Hne]; [|by eauto].
  rewrite Hkey in Hk. injection Hk as <-. by apply view_registered.
Qed.

Lemma purge_expired_affinity_inv now s : state_inv s -> state_inv (purge_expired_affinity now s).
Proof.
  intros []. split; simpl; try done.
  - pose proof (size_retain (fun _ b => negb (ab_expired_at b now)) (rs_affinity s)). lia.
  - intros k a [? _]%lookup_retain_Some. eauto.
Qed.

Lemma restore_affinity_inv key c p m t1 t2 now s :
  state_inv s -> state_inv (restore_affinity key c p m t1 t2 now s).2.
Proof.
  intros Hs. unfold restore_affinity. destruct (List.find _ _) as [e|] eqn:E; [|done].
  apply find_some in E as [Hin Ho]. apply list_elem_of_In in Hin.
  apply (elem_of_btree_values binding_cmp) in Hin as [b Hb].
  apply insert_bounded_affinity_inv; [by apply purge_expired_affinity_inv|]. simpl.
  destruct (inv_key _ _ Hs b (e_registration e) (e_order e)) as [-> _]; [|by exists e].
  apply view_Some. by exists e.
Qed.

Lemma restore_affinity_binding_inv key b p m t1 t2 now s :
  state_inv s -> state_inv (restore_affinity_binding key b p m t1 t2 now s).2.
Proof.
  intros Hs. unfold restore_affinity_binding. destruct (rs_entries s !! b) as [e|] eqn:E; [|done].
  apply insert_bounded_affinity_inv; [by apply purge_expired_affinity_inv|]. by exists e.
Qed.

(** * Quotas *)

Lemma recover_quotas_inv now s : state_inv s -> state_inv (recover_quotas now s).
Proof.
  intros []. split; simpl; try done.
  - intros subject u q [? _]%lookup_retain_Some. eauto.
  - intros b u q [? _]%lookup_retain_Some. eauto.
Qed.

Lemma insert_binding_quota_inv b q s :
  state_inv s -> registered s b -> (q_scope q = QsCredential \/ q_scope q = QsCredentialModel) ->
  state_inv (insert_binding_quota b q s).2.
Proof.
  intros Hs Hb Hq. unfold insert_binding_quota.
  assert (Hins : state_inv (set_binding_quotas (<[(b, q_unit q) := q]> (rs_binding_quotas s)) s)).
  { destruct Hs. split; simpl; try done.
    intros b' u q' [[[= <- <-] <-]|[_ ?]]%lookup_insert_Some; [|by eauto].
    split; [by apply view_registered|done]. }
  destruct (rs_binding_quotas s !! _); [destruct (quota_replaces _ _)|]; done.
Qed.

Lemma insert_quota_subject_inv subject q s :
  state_inv s -> (exists b r o, view s !! b = Some (r, o) /\ subject_matches subject r = true) ->
  state_inv (insert_quota_subject subject q s).2.
Proof.
  intros Hs Hsub. unfold insert_quota_subject.
  assert (Hins : state_inv (set_quotas (<[(subject, q_unit q) := q]> (rs_quotas s)) s)).
  { destruct Hs. split; simpl; try done.
    intros sub' u q' [[[= <- <-] <-]|[_ ?]]%lookup_insert_Some; by eauto. }
  destruct (rs_quotas s !! _); [destruct (quota_replaces _ _)|]; done.
Qed.

Lemma quota_subject_matches r scope subject :
  quota_subject r scope = Ok subject -> subject_matches subject r = true.
Proof.
  destruct scope; simpl; try destruct (reg_quota_project r) as [k|] eqn:E; simpl; intros [= <-];
    simpl; rewrite ?E, ?bool_decide_eq_true_2 by done; done.
Qed.

Lemma insert_quota_for_binding_inv b r q s :
  state_inv s -> (exists o, view s !! b = Some (r, o)) ->
  state_inv (insert_quota_for_binding b r q s).2.
Proof.
  intros Hs [o Ho]. assert (Hreg : registered s b) by (apply view_registered; eauto).
  assert (Hq : state_inv (insert_quota r q s).2).
  { unfold insert_quota. destruct (quota_subject r (q_scope q)) as [subject|] eqn:E; [|done].
    pose proof (insert_quota_subject_inv subject q s Hs) as Hi.
    destruct (insert_quota_subject subject q s). apply Hi.
    exists b, r, o. split; [done|]. by eapply quota_subject_matches. }
  unfold insert_quota_for_binding.
  destruct (q_scope q) eqn:E; try done;
    pose proof (insert_binding_quota_inv b q s Hs Hreg) as Hi; rewrite E in Hi;
    destruct (insert_binding_quota b q s); apply Hi; auto.
Qed.

Lemma insert_quota_for_binding_entries b r q s :
  rs_entries (insert_quota_for_binding b r q s).2 = rs_entries s /\
  rs_next_order (insert_quota_for_binding b r q s).2 = rs_next_order s.
Proof.
  assert (Hq : rs_entries (insert_quota r q s).2 = rs_entries s /\
    rs_next_order (insert_quota r q s).2 = rs_next_order s).
  { unfold insert_quota, insert_quota_subject. repeat case_match; simplify_eq; done. }
  assert (Hb : rs_entries (insert_binding_quota b q s).2 = rs_entries s /\
    rs_next_order (insert_binding_quota b q s).2 = rs_next_order s).
  { unfold insert_binding_quota. repeat case_match; simplify_eq; done. }
  unfold insert_quota_for_binding. destruct (q_scope q); try done;
    by destruct (insert_binding_quota b q s).
Qed.

Lemma set_quota_loop_spec l q changed s :
  (forall r, r ∈ l -> exists o, view s !! reg_binding r = Some (r, o)) -> state_inv s ->
  state_inv (set_quota_loop l q changed s).2 /\
  rs_entries (set_quota_loop l q changed s).2 = rs_entries s /\
  rs_next_order (set_quota_loop l q changed s).2 = rs_next_order s.
Proof.
  revert changed s. induction l as [|r l IH]; intros changed s Hl Hs; simpl; [done|].
  pose proof (insert_quota_for_binding_inv (reg_binding r) r q s Hs (Hl r ltac:(left))) as Hi.
  destruct (insert_quota_for_binding_entries (reg_binding r) r q s) as [He Hn].
  destruct (insert_quota_for_binding (reg_binding r) r q s) as [[c|err] s']; simpl in *; [|done].
  assert (Hv : view s' = view s) by (unfold view; by rewrite He).
  destruct (IH (changed || c) s') as (H1 & H2 & H3); [|done|].
  - intros r' Hr'. rewrite Hv. apply Hl. by right.
  - rewrite H2, H3, He, Hn. done.
Qed.

Lemma owned_registrations s c r :
  state_inv s -> r ∈ map e_registration (List.filter (owned_by c) (entry_values s)) ->
  exists o, view s !! reg_binding r = Some (r, o).
Proof.
  intros Hs Hr. apply list_elem_of_In, in_map_iff in Hr as (e & <- & Hin).
  apply filter_In in Hin as [Hin _]. apply list_elem_of_In, (elem_of_btree_values binding_cmp) in Hin as [b Hb].
  assert (Hv : view s !! b = Some (e_registration e, e_order e)) by (apply view_Some; by exists e).
  destruct (inv_key _ _ Hs _ _ _ Hv) as [-> _]. by exists (e_order e).
Qed.

Lemma set_quota_snapshot_spec c q s :
  state_inv s ->
  state_inv (set_quota_snapshot c q s).2 /\
  rs_entries (set_quota_snapshot c q s).2 = rs_entries s /\
  rs_next_order (set_quota_snapshot c q s).2 = rs_next_order s.
Proof.
  intros Hs. unfold set_quota_snapshot.
  pose proof (set_quota_loop_spec (map e_registration (List.filter (owned_by c) (entry_values s))) q false s
    (fun r => owned_registrations s c r Hs) Hs) as H.
  by destruct (map _ _).
Qed.

Lemma set_binding_quota_snapshot_spec b q s :
  state_inv s ->
  state_inv (set_binding_quota_snapshot b q s).2 /\
  rs_entries (set_binding_quota_snapshot b q s).2 = rs_entries s /\
  rs_next_order (set_binding_quota_snapshot b q s).2 = rs_next_order s.
Proof.
  intros Hs. unfold set_binding_quota_snapshot. destruct (rs_entries s !! b) as [e|] eqn:E; [|done].
  split; [|apply insert_quota_for_binding_entries].
  apply insert_quota_for_binding_inv; [done|]. exists (e_order e). apply view_Some. by exists e.
Qed.

Lemma subject_is_registered_view s subject :
  subject_is_registered s subject = true <->
  exists b r o, view s !! b = Some (r, o) /\ subject_matches subject r = true.
Proof.
  unfold subject_is_registered. rewrite existsb_exists. split.
  - intros (e & Hin & Hm). apply list_elem_of_In, (elem_of_btree_values binding_cmp) in Hin as [b Hb].
    exists b, (e_registration e), (e_order e). split; [|done]. apply view_Some. by exists e.
  - intros (b & r & o & (e & Hb & <- & <-)%view_Some & Hm). exists e. split; [|done].
    apply list_elem_of_In, (elem_of_btree_values binding_cmp). by exists b.
Qed.

Lemma restore_quota_state_spec `{Digest} record now ms s :
  state_inv s ->
  state_inv (restore_quota_state record now ms s).2 /\
  rs_entries (restore_quota_state record now ms s).2 = rs_entries s /\
  rs_next_order (restore_quota_state record now ms s).2 = rs_next_order s.
Proof.
  intros Hs. unfold restore_quota_state. destruct (to_runtime _ _ _) as [[q|]|]; try done.
  destruct (persisted_subject s _) as [subject|] eqn:E; [|done].
  assert (Hreg : subject_is_registered s subject = true).
  { unfold persisted_subject in E. repeat case_match; simplify_eq; done. }
  apply subject_is_registered_view in Hreg.
  pose proof (insert_quota_subject_inv subject q s Hs Hreg) as Hi.
  assert (He : rs_entries (insert_quota_subject subject q s).2 = rs_entries s /\
    rs_next_order (insert_quota_subject subject q s).2 = rs_next_order s).
  { unfold insert_quota_subject. repeat case_match; done. }
  by destruct (insert_quota_subject subject q s).
Qed.

Lemma restore_binding_quota_state_spec b record now ms s :
  state_inv s ->
  state_inv (restore_binding_quota_state b record now ms s).2 /\
  rs_entries (restore_binding_quota_state b record now ms s).2 = rs_entries s /\
  rs_next_order (restore_binding_quota_state b record now ms s).2 = rs_next_order s.
Proof.
  intros Hs. unfold restore_binding_quota_state. destruct (to_runtime _ _ _) as [[q|]|]; try done.
  destruct (rs_entries s !! b) as [e|] eqn:E; [|done].
  split; [|apply insert_quota_for_binding_entries].
  apply insert_quota_for_binding_inv; [done|]. exists (e_order e). apply view_Some. by exists e.
Qed.

(** * Registering *)

(** Pruning establishes the quota part of the invariant. *)
Lemma prune_inv s :
  (forall b u q, rs_binding_quotas s !! (b, u) = Some q ->
     q_scope q = QsCredential \/ q_scope q = QsCredentialModel) ->
  tables_inv (view s) (set_quotas ∅ (set_binding_quotas ∅ s)) -> state_inv (prune_orphan_quotas s).
Proof.
  intros Hscope []. split; simpl in *; try done.
  - intros subject u q [_ Hr]%lookup_retain_Some. by apply subject_is_registered_view in Hr.
  - intros b u q [Hq Hr]%lookup_retain_Some. simpl in Hr. split; [|by eapply Hscope].
    apply (view_registered (prune_orphan_quotas s)). unfold registered. simpl.
    destruct (rs_entries s !! b); [by eexists|done].
Qed.

(** Writing one entry, new or replaced, under an order no other entry has. *)
Lemma insert_view_inv v s s' r o :
  tables_inv v s -> reg_credential r = bk_account_id (reg_binding r) ->
  rs_next_order s <= rs_next_order s' -> o < rs_next_order s' ->
  (forall b' r', v !! b' = Some (r', o) -> b' = reg_binding r) ->
  (rs_affinity s', rs_smooth_current s', rs_round_robin s', rs_aliases s') =
    (rs_affinity s, rs_smooth_current s, rs_round_robin s, rs_aliases s) ->
  rs_quotas s' = ∅ -> rs_binding_quotas s' = ∅ ->
  tables_inv (<[reg_binding r := (r, o)]> v) s'.
Proof.
  intros [] Hr Hnext Ho Huniq [= Ha Hsm Hrr Hal] Hq Hbq.
  assert (Hkeep : forall b, is_Some (v !! b) -> is_Some (<[reg_binding r := (r, o)]> v !! b)).
  { intros b Hb. rewrite lookup_insert_is_Some. destruct (decide (reg_binding r = b)); auto. }
  split; rewrite ?Ha, ?Hsm, ?Hrr, ?Hal, ?Hq, ?Hbq; try (by eauto);
    try (by intros ? ? ? Hl; rewrite lookup_empty in Hl).
  - intros b r' o' [[<- [= <- <-]]|[_ ?]]%lookup_insert_Some; by eauto.
  - intros b r' o' [[<- [= <- <-]]|[_ Hb]]%lookup_insert_Some; [done|].
    eapply N.lt_le_trans; [by eapply inv_order_lt0|done].
  - intros b b' r1 r2 o' [[<- [= <- <-]]|[? H1]]%lookup_insert_Some
      [[<- H2]|[? H2]]%lookup_insert_Some; try done.
    + symmetry. by eapply Huniq.
    + injection H2 as <- <-. by eapply Huniq.
    + by eauto.
Qed.

Lemma register_inv r s :
  state_inv s -> reg_credential r = bk_account_id (reg_binding r) -> rs_next_order s < U64_MAX ->
  state_inv (register r s).
Proof.
  intros Hs Hr Hmax. unfold register.
  assert (Hscope := fun b u q Hq => proj2 (inv_binding_quotas _ _ Hs b u q Hq)).
  destruct (rs_entries s !! reg_binding r) as [e|] eqn:E; simpl; apply prune_inv; simpl; try done;
    unfold view; simpl; rewrite fmap_insert; fold (view s).
  - assert (Hold : view s !! reg_binding r = Some (e_registration e, e_order e))
      by (apply view_Some; by exists e).
    apply (insert_view_inv _ s _ r (e_order e)); [done|done|done| | |done..].
    + exact (inv_order_lt _ _ Hs _ _ _ Hold).
    + intros b' r' Hb'. exact (inv_order_inj _ _ Hs _ _ _ _ _ Hb' Hold).
  - assert (Hnext : sat_add U64_MAX (rs_next_order s) 1 = rs_next_order s + 1) by (unfold sat_add; lia).
    apply (insert_view_inv _ s _ r (rs_next_order s)); simpl; [done|done|lia|lia| |done..].
    intros b' r' Hb'. apply (inv_order_lt _ _ Hs) in Hb'. lia.
Qed.

(** * Unregistering *)

Lemma remove_bindings_entries bs s b :
  rs_entries (remove_bindings bs s) !! b =
  if bool_decide (b ∈ bs) then None else rs_entries s !! b.
Proof.
  unfold remove_bindings. simpl. rewrite lookup_retain.
  destruct (rs_entries s !! b); simpl; by case_bool_decide.
Qed.

Lemma remove_bindings_view bs s b r o :
  view (remove_bindings bs s) !! b = Some (r, o) <-> view s !! b = Some (r, o) /\ b ∉ bs.
Proof.
  rewrite !lookup_view, remove_bindings_entries. case_bool_decide; simpl; [|tauto].
  split; [done|]. by intros [_ ?].
Qed.

Lemma remove_bindings_kept bs s b :
  is_Some (view s !! b) -> b ∉ bs -> is_Some (view (remove_bindings bs s) !! b).
Proof.
  intros [[r o] Hb] Hn. exists (r, o). by apply remove_bindings_view.
Qed.

Lemma remove_bindings_inv bs s : state_inv s -> state_inv (remove_bindings bs s).
Proof.
  intros Hs. pose proof Hs as [].
  assert (Hv : forall b r o, view (remove_bindings bs s) !! b = Some (r, o) -> view s !! b = Some (r, o))
    by (intros b r o H; by apply remove_bindings_view in H as [? _]).
  assert (Hk := remove_bindings_kept bs s).
  unfold remove_bindings. apply prune_inv.
  - simpl. intros b u q [Hq _]%lookup_retain_Some. by eapply inv_binding_quotas0.
  - split; simpl; try (by eauto); try (by intros ? ? ? Hl; rewrite lookup_empty in Hl).
    + match goal with |- context [size (retain ?p ?m)] => pose proof (size_retain p m) end. lia.
    + intros k a [Ha Hn]%lookup_retain_Some. apply negb_true_iff, bool_decide_eq_false in Hn.
      apply Hk; [by eauto|done].
    + intros k c b Hc Hb. rewrite lookup_fmap in Hc.
      destruct (rs_smooth_current s !! k) as [c'|] eqn:Ek; simplify_eq/=.
      destruct Hb as [z [Hz Hn]%lookup_retain_Some]. apply negb_true_iff, bool_decide_eq_false in Hn.
      apply Hk; [by eauto|done].
    + intros k c b [Hc Hn]%lookup_retain_Some Hb. apply Hk; [by eauto|].
      intros Hin. apply negb_true_iff, not_true_iff_false in Hn. apply Hn, existsb_exists.
      exists b. split; [by apply list_elem_of_In|]. by apply bool_decide_eq_true.
Qed.

Lemma unregister_inv c r :
  state_inv (ri_state r) -> state_inv (ri_state (unregister c r).2).
Proof.
  intros Hr. unfold unregister. destruct (List.filter _ _); [done|]. by apply remove_bindings_inv.
Qed.

Lemma unregister_binding_inv b r :
  state_inv (ri_state r) -> state_inv (ri_state (unregister_binding b r).2).
Proof.
  intros Hr. unfold unregister_binding. destruct (rs_entries _ !! b); [|done].
  by apply remove_bindings_inv.
Qed.

Lemma register_model_alias_inv alias resolved s :
  state_inv s -> state_inv (register_model_alias alias resolved s).2.
Proof.
  intros Hs. unfold register_model_alias.
  pose proof (resolve_alias_path (<[alias := resolved]> (rs_aliases s)) alias) as Hp.
  destruct (resolve_alias _ alias) as [r|]; simpl.
  - destruct Hs. split; simpl; try done. by eapply insert_alias_acyclic.
  - rewrite undo_alias. by destruct s.
Qed.

(** * Choosing *)

Lemma choose_index_inv s eligible request e s' :
  state_inv s -> (forall x, x ∈ eligible -> registered s (reg_binding (ev_registration x))) ->
  choose_index s eligible request = Some (e, s') -> state_inv s'.
Proof.
  intros Hs Hreg H.
  assert (Hscope : forall b, b ∈ binding_scope eligible -> is_Some (view s !! b)).
  { intros b Hb. unfold binding_scope in Hb. apply elem_of_list_to_set, list_elem_of_fmap in Hb
      as (x & -> & Hx). by apply view_registered, Hreg. }
  assert (Hrr : forall key c, key.2 = binding_scope eligible ->
    state_inv (set_round_robin (<[key := c]> (rs_round_robin s)) s)).
  { intros key c Hkey. destruct Hs. split; simpl; try done.
    intros k c' b [[<- <-]|[_ ?]]%lookup_insert_Some Hb; [|by eauto]. apply Hscope. by rewrite <- Hkey. }
  assert (Hsm : forall key cur, (forall b, is_Some (cur !! b) -> is_Some (view s !! b)) ->
    state_inv (set_smooth (<[key := cur]> (rs_smooth_current s)) s)).
  { intros key cur Hcur. destruct Hs. split; simpl; try done.
    intros k c' b [[<- <-]|[_ ?]]%lookup_insert_Some Hb; by eauto. }
  unfold choose_index in H. destruct (is_some_and _ _); [by destruct (max_by _ _); simplify_eq/=|].
  destruct (sr_strategy request).
  - destruct (eligible !! _); simplify_eq/=. by apply Hrr.
  - destruct (smooth_step _ _ _) as [[x cur]|] eqn:E; simplify_eq/=. apply Hsm. intros b Hb.
    apply smooth_step_dom with (b := b) in E; [|done]. destruct E as [Hold|Hin].
    + destruct (rs_smooth_current s !! _) as [c|] eqn:Ec; simpl in Hold; [by eapply inv_smooth|].
      rewrite lookup_empty in Hold. by destruct Hold.
    + apply Hscope. done.
  - by destruct eligible; simplify_eq/=.
  - by destruct (min_by _ _); simplify_eq/=.
  - by destruct (max_by _ _); simplify_eq/=.
  - by destruct (or_else _ _); simplify_eq/=.
Qed.
