(* ===== verification/SelectFacts.v ===== *)
(** What a selection guarantees: it never panics, returns only a candidate that
    meets every hard requirement in the best priority tier, refuses only when it
    must, keeps sessions on their target, and reserves exactly one slot. *)
From S2P Require Import Prelude Str Time CoreId Capabilities Classify Binding Health Quota.
From S2P Require Import Explain Telemetry Registration Registry QuotaTable Evaluate.
From S2P Require Import CoreError Retry Evaluate Choose Select Invariant.

Open Scope N_scope.

(** * The phases of a selection *)

(** The state the candidates are evaluated in. *)
Definition selection_state (request : SelectionRequest) (s : RegistryState) : RegistryState :=
  recover_quotas (sr_now request) (purge_expired_affinity (sr_now request) s).

(** The request with its model resolved. *)
Definition resolved_request (request : SelectionRequest) (s : RegistryState) : SelectionRequest :=
  sr_with_model request (resolve_model (sr_model request) s).

Definition selection_candidates (h : HealthRegistry) (request : SelectionRequest) (s : RegistryState)
  : list CandidateEvaluation :=
  evaluate_candidates (selection_state request s) h (resolved_request request s).

(** An entry the request could be sent to. *)
Definition eligible_entry (h : HealthRegistry) (request : SelectionRequest) (s : RegistryState)
    (e : RegistryEntry) : Prop :=
  (exists b, rs_entries s !! b = Some e) /\
  hard_requirements (selection_state request s) h (resolved_request request s)
    (fallback_priority (sorted_entries s) (resolved_request request s)) e.

Lemma sorted_entries_same s s' : rs_entries s = rs_entries s' -> sorted_entries s = sorted_entries s'.
Proof. intros H. unfold sorted_entries, entry_values. by rewrite H. Qed.

Lemma elem_of_eligible h request s ev :
  ev ∈ List.filter no_reasons (selection_candidates h request s) <->
  ev ∈ selection_candidates h request s /\ eligible_entry h request s (ev_entry ev).
Proof.
  rewrite list_elem_of_In, filter_In, <- list_elem_of_In. unfold eligible_entry.
  assert (Hs : sorted_entries (selection_state request s) = sorted_entries s) by by apply sorted_entries_same.
  assert (Hno : no_reasons ev = true <-> ev_reasons ev = [])
    by (unfold no_reasons; by destruct (ev_reasons ev)).
  rewrite Hno. split.
  - intros [Hin Hr]. split; [done|]. pose proof Hin as Hin'. unfold selection_candidates in Hin'.
    apply elem_of_candidates in Hin' as (b & e & Hb & ->). rewrite evaluate_entry_eligible in Hr.
    simpl. split; [by exists b|]. rewrite <- Hs. done.
  - intros [Hin [_ Hr]]. split; [done|]. pose proof Hin as Hin'. unfold selection_candidates in Hin'.
    apply elem_of_candidates in Hin' as (b & e & Hb & ->). simpl in Hr.
    apply evaluate_entry_eligible. by rewrite Hs.
Qed.

Lemma eligible_has_evaluation h request s e :
  eligible_entry h request s e ->
  exists ev, ev ∈ List.filter no_reasons (selection_candidates h request s) /\ ev_entry ev = e.
Proof.
  intros He. pose proof He as [[b Hb] _].
  set (ev := evaluate_entry (selection_state request s) h (resolved_request request s)
    (fallback_priority (sorted_entries (selection_state request s)) (resolved_request request s)) e).
  exists ev. split; [|done]. apply elem_of_eligible. split; [|done].
  apply elem_of_candidates. by exists b, e.
Qed.

Lemma best_priority_spec eligible :
  match best_priority eligible with
  | None => eligible = []
  | Some p => tier p eligible <> [] /\
      (forall ev, ev ∈ tier p eligible -> ev ∈ eligible /\ reg_priority (ev_registration ev) = p) /\
      (forall ev, ev ∈ eligible -> p <= reg_priority (ev_registration ev)) /\
      (forall ev, ev ∈ eligible -> reg_priority (ev_registration ev) = p -> ev ∈ tier p eligible)
  end.
Proof.
  unfold best_priority, min_N, tier.
  set (l := map (fun ev => reg_priority (ev_registration ev)) eligible).
  assert (Htier : forall p ev, ev ∈ List.filter (fun ev => reg_priority (ev_registration ev) =? p) eligible
    <-> ev ∈ eligible /\ reg_priority (ev_registration ev) = p).
  { intros p ev. by rewrite !list_elem_of_In, filter_In, N.eqb_eq. }
  destruct (min_by N.compare l) as [p|] eqn:E.
  - pose proof (min_by_elem _ _ _ E) as Hin. apply list_elem_of_In, in_map_iff in Hin as (ev & Hp & Hev).
    split; [|split; [|split]].
    + intros Hnil. assert (Hx : ev ∈ List.filter (fun ev => reg_priority (ev_registration ev) =? p) eligible)
        by (apply Htier; split; [by apply list_elem_of_In|done]).
      rewrite Hnil in Hx. by apply elem_of_nil in Hx.
    + intros x Hx. by apply Htier.
    + intros x Hx. apply N.compare_le_iff. apply (min_by_min N.compare l); [done|].
      apply list_elem_of_In, in_map_iff. exists x. split; [done|]. by apply list_elem_of_In.
    + intros x Hx Hp'. by apply Htier.
  - destruct eligible as [|x eligible]; [done|].
    destruct (min_by_is_Some N.compare l) as [? ?]; [done|congruence].
Qed.

(** * The result *)

Section facts.
Context `{Digest}.

(** The entry table after a reservation. *)
Definition reserved (b : BindingKey) (s : RegistryState) : gmap BindingKey RegistryEntry :=
  alter (fun e => entry_set_in_flight (sat_add U32_MAX (e_in_flight e) 1) e) b (rs_entries s).

Lemma reserve_entries b s :
  rs_entries (reserve b s) = reserved b s /\ rs_next_order (reserve b s) = rs_next_order s /\
  rs_affinity (reserve b s) = rs_affinity s.
Proof.
  unfold reserve, reserved. destruct (rs_entries s !! b) as [e|] eqn:E.
  - split; [|done]. simpl. apply map_eq. intros b'.
    destruct (decide (b = b')) as [<-|Hne].
    + by rewrite lookup_insert_eq, lookup_alter_eq, E.
    + by rewrite lookup_insert_ne, lookup_alter_ne by done.
  - split; [|done]. symmetry. apply map_eq. intros b'. destruct (decide (b = b')) as [<-|Hne].
    + by rewrite lookup_alter_eq, E.
    + by rewrite lookup_alter_ne.
Qed.

Lemma insert_bounded_affinity_frame key a s :
  rs_entries (insert_bounded_affinity key a s).2 = rs_entries s /\
  rs_next_order (insert_bounded_affinity key a s).2 = rs_next_order s.
Proof. unfold insert_bounded_affinity. repeat case_match; done. Qed.

Lemma finish_selection_spec inner request ev rebound ex s :
  let '(lease, s') := finish_selection inner request ev rebound ex s in
  lease_registration lease = ev_registration ev /\
  lease_reservation lease = MkReservation (reg_binding (ev_registration ev))
    (reg_credential (ev_registration ev)) (e_order (ev_entry ev)) inner false /\
  se_selected (lease_explanation lease) = Some (selection_target (ev_registration ev)) /\
  se_candidates (lease_explanation lease) = se_candidates ex /\
  rs_entries s' = reserved (reg_binding (ev_registration ev)) s /\
  rs_next_order s' = rs_next_order s /\
  match sr_affinity_key request with
  | None => rs_affinity s' = rs_affinity s
  | Some key => s' = (insert_bounded_affinity key
        (MkAffinityBinding (reg_binding (ev_registration ev)) (reg_provider (ev_registration ev))
           (reg_model (ev_registration ev)) (sr_now request) (affinity_deadline request))
        (reserve (reg_binding (ev_registration ev)) s)).2
  end.
Proof.
  unfold finish_selection.
  destruct (reserve_entries (reg_binding (ev_registration ev)) s) as (He & Hn & Ha).
  destruct (sr_affinity_key request) as [key|]; simpl.
  - destruct (insert_bounded_affinity_frame key
      (MkAffinityBinding (reg_binding (ev_registration ev)) (reg_provider (ev_registration ev))
         (reg_model (ev_registration ev)) (sr_now request) (affinity_deadline request))
      (reserve (reg_binding (ev_registration ev)) s)) as [Hie Hin].
    rewrite Hie, Hin. by destruct rebound.
  - done.
Qed.

(** The candidates a lease's explanation lists. *)
Lemma explained_candidates strategy evs ex :
  foldl (fun ex ev => push_candidate (explain_evaluation strategy ev) ex) ex evs =
  foldl (fun ex c => push_candidate c ex) ex (map (explain_evaluation strategy) evs).
Proof. revert ex. induction evs as [|ev evs IH]; intros ex; simpl; [done|]. apply IH. Qed.

(** The candidate a selection settles on: by affinity or by strategy. *)
Definition chosen (h : HealthRegistry) (request : SelectionRequest) (s : RegistryState)
    (p : N) (ev : CandidateEvaluation) (s1 : RegistryState) : Prop :=
  let best_tier := tier p (List.filter no_reasons (selection_candidates h request s)) in
  let s0 := selection_state request s in
  (exists key a, sr_affinity_key request = Some key /\ rs_affinity s0 !! key = Some a /\
     List.find (affinity_matches a) best_tier = Some ev /\
     s1 = set_affinity_map (alter (touch_affinity request) key (rs_affinity s0)) s0) \/
  ((forall key a, sr_affinity_key request = Some key -> rs_affinity s0 !! key = Some a ->
     List.find (affinity_matches a) best_tier = None) /\
   choose_index s0 best_tier (resolved_request request s) = Some (ev, s1)).

Lemma select_spec inner h request s :
  sr_affinity_ttl request <> 0 ->
  let eligible := List.filter no_reasons (selection_candidates h request s) in
  exists result s', select_from_state inner h request s = Some (result, s') /\
  match best_priority eligible with
  | None => s' = selection_state request s /\ exists ex, result = Err (NoEligible (sr_model request) ex)
  | Some p =>
    (s' = selection_state request s /\ exists ex key a,
       result = Err (NoEligible (sr_model request) ex) /\
       sr_affinity_key request = Some key /\ rs_affinity s' !! key = Some a /\
       sr_affinity_rebind request = false /\
       List.find (affinity_matches a) (tier p eligible) = None) \/
    (exists ev s1 rebound ex, chosen h request s p ev s1 /\
       (let '(lease, s2) := finish_selection inner request ev rebound ex s1 in
        result = Ok lease /\ s' = s2) /\
       se_candidates ex = map (explain_evaluation (sr_strategy request)) (selection_candidates h request s))
  end.
Proof.
  intros Httl. simpl. unfold select_from_state.
  assert (Hz : is_zero (sr_affinity_ttl request) = false) by (by apply N.eqb_neq). rewrite Hz.
  fold (selection_state request s).
  change (sr_with_model request (default (sr_model request)
    (resolve_alias (rs_aliases (selection_state request s)) (sr_model request))))
    with (resolved_request request s).
  fold (selection_candidates h request s).
  set (eligible := List.filter no_reasons (selection_candidates h request s)).
  rewrite explained_candidates, push_candidates_fold. simpl app.
  set (ex0 := MkSelectionExplanation _ _ _ _ _ _ _ _).
  pose proof (best_priority_spec eligible) as Hbest.
  destruct (best_priority eligible) as [p|].
  2: { eexists _, _. split; [reflexivity|]. split; [done|]. eexists. reflexivity. }
  destruct Hbest as (Hne & _ & _ & _).
  destruct (choose_index_total (selection_state request s) (tier p eligible)
    (resolved_request request s) Hne) as [[ev s1] Hc].
  unfold affinity_phase.
  destruct (sr_affinity_key request) as [key|] eqn:Ek.
  2: { rewrite Hc. destruct (finish_selection inner request ev None ex0 s1) as [lease s2] eqn:Ef.
       eexists _, _. split; [done|]. right. exists ev, s1, None, ex0.
       split; [|by rewrite Ef]. right. split; [|exact Hc]. intros k a' Hk. congruence. }
  destruct (rs_affinity (selection_state request s) !! key) as [a|] eqn:Ea.
  2: { rewrite Hc. set (ex1 := set_affinity _ ex0).
       destruct (finish_selection inner request ev None ex1 s1) as [lease s2] eqn:Ef.
       eexists _, _. split; [done|]. right. exists ev, s1, None, ex1. split; [|by rewrite Ef].
       right. split; [|done]. intros k a' Hk Ha'. rewrite Ek in Hk. by simplify_eq. }
  destruct (List.find (affinity_matches a) (tier p eligible)) as [ev'|] eqn:Efind.
  - set (ex1 := set_affinity _ ex0). set (s1' := set_affinity_map _ _).
    destruct (finish_selection inner request ev' None ex1 s1') as [lease s2] eqn:Ef.
    eexists _, _. split; [done|]. right. exists ev', s1', None, ex1. split; [|by rewrite Ef].
    left. by exists key, a.
  - destruct (negb (sr_affinity_rebind request) && _) eqn:Erb.
    + apply andb_true_iff in Erb as [Erb _]. apply negb_true_iff in Erb.
      eexists _, _. split; [done|]. left. split; [done|]. by eexists _, key, a.
    + rewrite Hc. destruct (finish_selection inner request ev (Some (ab_provider a)) ex0 s1)
        as [lease s2] eqn:Ef.
      eexists _, _. split; [done|]. right. exists ev, s1, (Some (ab_provider a)), ex0.
      split; [|by rewrite Ef]. right. split; [|done]. intros k a' Hk Ha'. rewrite Ek in Hk. by simplify_eq.
Qed.

Lemma chosen_elem h request s p ev s1 :
  chosen h request s p ev s1 ->
  ev ∈ tier p (List.filter no_reasons (selection_candidates h request s)) /\
  rs_entries s1 = rs_entries s /\ rs_next_order s1 = rs_next_order s.
Proof.
  intros [(key & a & _ & _ & Hf & ->)|[_ Hc]].
  - apply find_some in Hf as [Hin _]. split; [by apply list_elem_of_In|done].
  - apply choose_index_elem in Hc as (Hin & He & _ & Hn & _). split; [done|]. by rewrite He, Hn.
Qed.

(** Everything a successful selection guarantees about its lease. *)
Lemma select_ok inner h request s lease s' :
  select_from_state inner h request s = Some (Ok lease, s') ->
  exists ev s1 rebound ex p,
    chosen h request s p ev s1 /\
    best_priority (List.filter no_reasons (selection_candidates h request s)) = Some p /\
    finish_selection inner request ev rebound ex s1 = (lease, s') /\
    se_candidates ex = map (explain_evaluation (sr_strategy request)) (selection_candidates h request s).
Proof.
  intros Hsel. destruct (decide (sr_affinity_ttl request = 0)) as [Hz|Hnz].
  { unfold select_from_state in Hsel. rewrite Hz in Hsel. done. }
  destruct (select_spec inner h request s Hnz) as (res & s2 & Hsel' & Hres).
  rewrite Hsel in Hsel'. injection Hsel' as <- <-.
  destruct (best_priority _) as [p|]; [|by destruct Hres as [_ [? ?]]].
  destruct Hres as [(_ & ? & ? & ? & ? & _)|(ev & s1 & rebound & ex & Hch & Hfin & Hex)]; [done|].
  exists ev, s1, rebound, ex, p. split; [done|]. split; [done|]. split; [|done].
  destruct (finish_selection inner request ev rebound ex s1). by destruct Hfin as [[= ->] ->].
Qed.

(** The decision record goes through the entries, each once. *)
Lemma selection_entries h request s : map ev_entry (selection_candidates h request s) ≡ₚ (map_to_list (rs_entries s)).*2.
Proof.
  unfold selection_candidates. rewrite evaluate_candidates_eq, map_map. cbn [evaluate_entry ev_entry]. rewrite map_id.
  unfold sorted_entries, entry_values, btree_values, btree_list. rewrite sort_by_perm. simpl.
  by apply fmap_Permutation, sort_by_perm.
Qed.
Lemma explained_reasons strategy ev :
  ce_filter_reasons (explain_evaluation strategy ev) = ev_reasons ev /\
  (is_Some (ce_score (explain_evaluation strategy ev)) <-> ev_reasons ev = []).
Proof. unfold explain_evaluation. destruct (ev_reasons ev); simpl; rewrite is_Some_alt; done. Qed.
Lemma candidates_listed h request s :
  exists listed : list (RegistryEntry * CandidateExplanation),
    map (explain_evaluation (sr_strategy request)) (selection_candidates h request s) = listed.*2 /\
    listed.*1 ≡ₚ (map_to_list (rs_entries s)).*2 /\
    forall e c, (e, c) ∈ listed ->
      ce_target c = selection_target (e_registration e) /\
      (ce_filter_reasons c = [] <-> eligible_entry h request s e) /\
      (is_Some (ce_score c) <-> eligible_entry h request s e).
Proof.
  exists (map (fun ev => (ev_entry ev, explain_evaluation (sr_strategy request) ev)) (selection_candidates h request s)).
  split; [by rewrite <- list_fmap_compose|]. split; [rewrite <- selection_entries; by rewrite <- list_fmap_compose|].
  intros e c Hin. apply list_elem_of_In, in_map_iff in Hin as (ev & [= <- <-] & Hev%list_elem_of_In).
  destruct (explained_reasons (sr_strategy request) ev) as [-> ->].
  assert (Hel : ev_reasons ev = [] <-> eligible_entry h request s (ev_entry ev)).
  { pose proof (elem_of_eligible h request s ev) as He. rewrite list_elem_of_In, filter_In, <- list_elem_of_In in He.
    unfold no_reasons in He. destruct (ev_reasons ev); intuition congruence. }
  split; [by unfold explain_evaluation; destruct (ev_reasons ev)|done].
Qed.

(** [C1] Selection is sound: the lease is for a registered entry that meets
    every hard requirement at the request's instant, no eligible entry has a
    better priority tier, the reservation names that entry's binding, account
    and order, exactly one in-flight slot of that entry and nothing else in the
    entry table is taken, the concurrency ceiling is respected, and the
    decision record names the one selected and lists every entry exactly once,
    under its own target, with no filter reason exactly when the entry is
    eligible and with a score exactly then. *)
Theorem select_sound inner h request s lease s' :
  state_inv s -> select_from_state inner h request s = Some (Ok lease, s') ->
  let b := reg_binding (lease_registration lease) in
  exists e,
    rs_entries s !! b = Some e /\ e_registration e = lease_registration lease /\
    eligible_entry h request s e /\
    (forall e', eligible_entry h request s e' ->
       reg_priority (e_registration e) <= reg_priority (e_registration e')) /\
    lease_reservation lease = MkReservation b (bk_account_id b) (e_order e) inner false /\
    rs_entries s' =
      <[b := entry_set_in_flight (sat_add U32_MAX (e_in_flight e) 1) e]> (rs_entries s) /\
    (forall limit, reg_max_in_flight (e_registration e) = Some limit -> e_in_flight e + 1 <= limit) /\
    se_selected (lease_explanation lease) = Some (selection_target (lease_registration lease)) /\
    exists listed : list (RegistryEntry * CandidateExplanation),
      se_candidates (lease_explanation lease) = listed.*2 /\ listed.*1 ≡ₚ (map_to_list (rs_entries s)).*2 /\
      forall e' c, (e', c) ∈ listed ->
        ce_target c = selection_target (e_registration e') /\
        (ce_filter_reasons c = [] <-> eligible_entry h request s e') /\
        (is_Some (ce_score c) <-> eligible_entry h request s e').
Proof.
  intros Hinv Hsel. apply select_ok in Hsel as (ev & s1 & rebound & ex & p & Hch & Hbest & Hfin & Hex).
  destruct (chosen_elem _ _ _ _ _ _ Hch) as (Htier & He1 & _).
  pose proof (best_priority_spec (List.filter no_reasons (selection_candidates h request s))) as Hp.
  rewrite Hbest in Hp. destruct Hp as (_ & Hin & Hmin & _). destruct (Hin _ Htier) as [Hel Hpri].
  apply elem_of_eligible in Hel as [Hcand Helig].
  pose proof (finish_selection_spec inner request ev rebound ex s1) as Hspec. rewrite Hfin in Hspec.
  destruct Hspec as (Hreg & Hres & Hexp & Hec & Hent & _ & _). simpl. rewrite Hreg.
  pose proof Helig as [[b Hb] Hhard].
  assert (Hv : view s !! b = Some (ev_registration ev, e_order (ev_entry ev)))
    by (apply view_Some; by exists (ev_entry ev)).
  destruct (inv_key _ _ Hinv _ _ _ Hv) as [Hkey Hacc]. rewrite Hkey in *.
  exists (ev_entry ev). split; [done|]. split; [done|]. split; [done|]. split; [|split; [|split; [|split; [|split]]]].
  - intros e' He'. destruct (eligible_has_evaluation _ _ _ _ He') as (ev' & Hev' & <-).
    fold (ev_registration ev'). fold (ev_registration ev). rewrite Hpri. by apply Hmin.
  - by rewrite Hres, Hacc.
  - rewrite Hent. unfold reserved. rewrite He1. symmetry. apply map_eq. intros b'.
    destruct (decide (b = b')) as [<-|Hne].
    + by rewrite lookup_insert_eq, lookup_alter_eq, Hb.
    + by rewrite lookup_insert_ne, lookup_alter_ne by done.
  - intros limit Hl. destruct Hhard as (_ & _ & Hrun).
    pose proof (met_concurrency _ _ _ _ Hrun limit Hl). lia.
  - done.
  - rewrite Hec, Hex. apply candidates_listed.
Qed.

(** An eligible entry of the best priority is in the best tier. *)
Lemma best_tier_elem h request s e :
  eligible_entry h request s e ->
  (forall e', eligible_entry h request s e' ->
     reg_priority (e_registration e) <= reg_priority (e_registration e')) ->
  exists p ev, best_priority (List.filter no_reasons (selection_candidates h request s)) = Some p /\
    ev ∈ tier p (List.filter no_reasons (selection_candidates h request s)) /\ ev_entry ev = e.
Proof.
  intros Helig Hbest. destruct (eligible_has_evaluation _ _ _ _ Helig) as (ev & Hev & <-).
  pose proof (best_priority_spec (List.filter no_reasons (selection_candidates h request s))) as Hp.
  destruct (best_priority _) as [p|]; [|rewrite Hp in Hev; by apply elem_of_nil in Hev].
  destruct Hp as (Hne & Hin & Hmin & Hall). exists p, ev. split; [done|]. split; [|done].
  apply Hall; [done|]. pose proof (Hmin _ Hev) as H1.
  destruct (tier p _) as [|x l]; [done|]. destruct (Hin x ltac:(left)) as [Hx Hxp].
  apply elem_of_eligible in Hx as [_ Hx]. pose proof (Hbest _ Hx) as H2.
  unfold ev_registration in *. lia.
Qed.

Lemma find_matching_absent a l ev :
  List.find (affinity_matches a) l = None -> ev ∈ l ->
  ~ (reg_binding (ev_registration ev) = ab_binding a /\ reg_provider (ev_registration ev) = ab_provider a /\
     reg_model (ev_registration ev) = ab_model a).
Proof.
  intros Hnone Hev (H1 & H2 & H3). apply (find_none _ _) with (x := ev) in Hnone;
    [|by apply list_elem_of_In].
  unfold affinity_matches in Hnone. by rewrite H1, H2, H3, !bool_decide_eq_true_2 in Hnone.
Qed.

(** The entry a lease was issued for. *)
Lemma select_ok_eligible inner h request s lease s' :
  select_from_state inner h request s = Some (Ok lease, s') ->
  exists e, eligible_entry h request s e /\ e_registration e = lease_registration lease.
Proof.
  intros Hsel. apply select_ok in Hsel as (ev & s1 & rebound & ex & p & Hch & Hbest & Hfin & _).
  destruct (chosen_elem _ _ _ _ _ _ Hch) as (Htier & _ & _).
  pose proof (best_priority_spec (List.filter no_reasons (selection_candidates h request s))) as Hp.
  rewrite Hbest in Hp. destruct Hp as (_ & Hin & _). apply Hin in Htier as [Hel _].
  apply elem_of_eligible in Hel as [_ Hel]. exists (ev_entry ev). split; [done|].
  pose proof (finish_selection_spec inner request ev rebound ex s1) as Hspec. rewrite Hfin in Hspec.
  by destruct Hspec as (-> & _).
Qed.

(** [C7] Selection is complete: with a positive affinity lifetime it always
    returns, without panicking; it fails only with [NoEligible], and then
    either no registered entry is eligible, or the request forbids rebinding
    and its session is bound to a target that is none of the eligible entries
    of the best priority. So a request without affinity, or that allows
    rebinding, is served whenever any entry meets the requirements. *)
Theorem select_complete inner h request s :
  sr_affinity_ttl request <> 0 ->
  exists result s', select_from_state inner h request s = Some (result, s') /\
  match result with
  | Ok _ => exists e, eligible_entry h request s e
  | Err err =>
      (exists ex, err = NoEligible (sr_model request) ex) /\ rs_entries s' = rs_entries s /\
      ((forall e, ~ eligible_entry h request s e) \/
       (sr_affinity_rebind request = false /\
        exists key a, sr_affinity_key request = Some key /\ rs_affinity s' !! key = Some a /\
          forall e, eligible_entry h request s e ->
            (forall e', eligible_entry h request s e' ->
               reg_priority (e_registration e) <= reg_priority (e_registration e')) ->
            ~ (reg_binding (e_registration e) = ab_binding a /\
               reg_provider (e_registration e) = ab_provider a /\
               reg_model (e_registration e) = ab_model a)))
  end.
Proof.
  intros Httl. destruct (select_spec inner h request s Httl) as (res & s' & Hsel & Hres).
  exists res, s'. split; [done|].
  pose proof (best_priority_spec (List.filter no_reasons (selection_candidates h request s))) as Hp.
  pose proof (best_tier_elem h request s) as Htop.
  destruct (best_priority _) as [p|].
  - destruct Hres as [(-> & ex & key & a & -> & Hk & Ha & Hr & Hnone)|(ev & s1 & rebound & ex & Hch & Hfin & _)].
    + split; [by eexists|]. split; [done|]. right. split; [done|]. exists key, a.
      split; [done|]. split; [done|]. intros e He Hmin Hm.
      destruct (Htop e He Hmin) as (? & ev & [= <-] & Hev & <-).
      by apply (find_matching_absent _ _ _ Hnone Hev).
    + destruct (finish_selection _ _ _ _ _ _) as [lease s2]. destruct Hfin as [-> ->].
      apply chosen_elem in Hch as (Ht & _ & _). destruct Hp as (_ & Hin & _).
      apply Hin in Ht as [Ht _]. apply elem_of_eligible in Ht as [_ ?]. eauto.
  - destruct Hres as [-> [ex ->]]. split; [by eexists|]. split; [done|]. left. intros e He.
    apply eligible_has_evaluation in He as (ev & Hev & _). rewrite Hp in Hev. by apply elem_of_nil in Hev.
Qed.

(** A selection with an affinity key leaves the key bound to its lease. *)
Lemma select_binds_affinity inner h request s lease s' key :
  state_inv s -> sr_affinity_key request = Some key ->
  select_from_state inner h request s = Some (Ok lease, s') ->
  rs_affinity s' !! key = Some (MkAffinityBinding (reg_binding (lease_registration lease))
    (reg_provider (lease_registration lease)) (reg_model (lease_registration lease))
    (sr_now request) (affinity_deadline request)).
Proof.
  intros Hinv Hk Hsel. apply select_ok in Hsel as (ev & s1 & rebound & ex & p & Hch & _ & Hfin & _).
  pose proof (finish_selection_spec inner request ev rebound ex s1) as Hspec. rewrite Hfin, Hk in Hspec.
  destruct Hspec as (-> & _ & _ & _ & _ & _ & ->).
  destruct (reserve_entries (reg_binding (ev_registration ev)) s1) as (_ & _ & Ha).
  apply insert_bounded_affinity_spec. rewrite Ha.
  assert (Hsz : N.of_nat (size (rs_affinity (selection_state request s))) <= MAX_AFFINITY_BINDINGS).
  { apply (inv_affinity_size _ _ (recover_quotas_inv (sr_now request) _
      (purge_expired_affinity_inv (sr_now request) _ Hinv))). }
  destruct Hch as [(k & a & _ & _ & _ & ->)|[_ Hc]].
  - simpl. rewrite size_alter. done.
  - apply choose_index_elem in Hc as (_ & _ & _ & _ & -> & _). done.
Qed.

(** [C11] Sessions stick to their target: once a selection with an affinity key
    succeeded, a later selection with the same key returns the same binding and
    renews its deadline, in any later state of the registry in which the
    affinity table still has what that selection wrote under the key (it was not
    evicted, unregistered or bound again), before the deadline, as long as the
    binding still serves the same provider and model, is eligible and no
    eligible entry has a better priority; nothing else need be as it was. *)
Theorem session_affinity inner h1 r1 s lease1 s1 h2 r2 s2 key e :
  state_inv s -> sr_affinity_key r1 = Some key ->
  select_from_state inner h1 r1 s = Some (Ok lease1, s1) ->
  state_inv s2 -> rs_affinity s2 !! key = rs_affinity s1 !! key ->
  sr_affinity_key r2 = Some key -> sr_affinity_ttl r2 <> 0 ->
  (sr_now r2 < affinity_deadline r1)%Z ->
  rs_entries s2 !! reg_binding (lease_registration lease1) = Some e ->
  reg_provider (e_registration e) = reg_provider (lease_registration lease1) ->
  reg_model (e_registration e) = reg_model (lease_registration lease1) ->
  eligible_entry h2 r2 s2 e ->
  (forall e', eligible_entry h2 r2 s2 e' ->
     reg_priority (e_registration e) <= reg_priority (e_registration e')) ->
  exists lease2 s3, select_from_state inner h2 r2 s2 = Some (Ok lease2, s3) /\
    reg_binding (lease_registration lease2) = reg_binding (lease_registration lease1) /\
    exists a, rs_affinity s3 !! key = Some a /\
      ab_binding a = reg_binding (lease_registration lease1) /\
      ab_expires_at a = affinity_deadline r2.
Proof.
  intros Hinv1 Hk1 Hsel1 Hinv2 Hsame Hk2 Httl Hlive He Hprov Hmodel Helig Hbestp.
  pose proof (select_binds_affinity _ _ _ _ _ _ _ Hinv1 Hk1 Hsel1) as Hbound.
  rewrite <- Hsame in Hbound. set (a := MkAffinityBinding _ _ _ _ _) in Hbound.
  assert (Hs0 : rs_affinity (selection_state r2 s2) !! key = Some a).
  { simpl. apply lookup_retain_Some. split; [done|]. unfold ab_expired_at. simpl.
    destruct (Z.leb_spec (affinity_deadline r1) (sr_now r2)); [lia|done]. }
  destruct (select_spec inner h2 r2 s2 Httl) as (res & s3 & Hsel2 & Hres).
  destruct (best_tier_elem h2 r2 s2 e Helig Hbestp) as (p & ev0 & Hp & Hev0 & Hent0).
  rewrite Hp in Hres.
  assert (Hkey : reg_binding (e_registration e) = reg_binding (lease_registration lease1)).
  { apply (inv_key _ _ Hinv2 _ _ (e_order e)). apply view_Some. by exists e. }
  assert (Hfind : List.find (affinity_matches a)
    (tier p (List.filter no_reasons (selection_candidates h2 r2 s2))) <> None).
  { intros Hnone. apply (find_matching_absent _ _ _ Hnone Hev0).
    unfold ev_registration. by rewrite Hent0. }
  destruct Hres as [(-> & ex & key' & a' & _ & Hk' & Ha' & _ & Hf')|
    (ev & s1' & rebound & ex & Hch & Hfin & _)].
  { rewrite Hk2 in Hk'. injection Hk' as <-. rewrite Hs0 in Ha'. injection Ha' as <-. done. }
  destruct (finish_selection inner r2 ev rebound ex s1') as [lease2 s3'] eqn:Ef.
  destruct Hfin as [-> ->].
  pose proof (finish_selection_spec inner r2 ev rebound ex s1') as Hspec. rewrite Ef in Hspec.
  destruct Hspec as (Hreg2 & _).
  assert (Hb2 : reg_binding (ev_registration ev) = reg_binding (lease_registration lease1)).
  { destruct Hch as [(key' & a' & Hk' & Ha' & Hf' & _)|[Hnone _]].
    - rewrite Hk2 in Hk'. injection Hk' as <-. rewrite Hs0 in Ha'. injection Ha' as <-.
      apply find_some in Hf' as [_ Hm]. unfold affinity_matches in Hm. rewrite !andb_true_iff in Hm.
      destruct Hm as [[Hm _] _]. by apply bool_decide_eq_true in Hm.
    - by destruct (Hfind (Hnone key a Hk2 Hs0)). }
  exists lease2, s3'. split; [done|]. rewrite Hreg2. split; [done|].
  eexists. split; [by apply (select_binds_affinity _ _ _ _ _ _ _ Hinv2 Hk2 Hsel2)|].
  by rewrite Hreg2.
Qed.
End facts.

(** * Selection and release preserve the table invariant *)

Section preserve.
Context `{Digest}.

Lemma alter_in_flight_view (f : RegistryEntry -> N) b (m : gmap BindingKey RegistryEntry) :
  entry_view <$> alter (fun e => entry_set_in_flight (f e) e) b m = entry_view <$> m.
Proof.
  apply map_eq. intros b'. rewrite !lookup_fmap. destruct (decide (b = b')) as [<-|Hne].
  - rewrite lookup_alter_eq. by destruct (m !! b).
  - by rewrite lookup_alter_ne.
Qed.

Lemma reserve_tables b s : tables_eq s (reserve b s).
Proof.
  unfold reserve. destruct (rs_entries s !! b) as [e|] eqn:E; [|by repeat split].
  apply set_view_same. by eapply view_insert_same.
Qed.

Lemma release_tables r s : tables_eq s (release_from r s).2.
Proof.
  unfold release_from. destruct (res_released r); [by repeat split|]. simpl.
  destruct (rs_entries s !! res_binding r) as [e|] eqn:E; [|by repeat split].
  destruct (_ =? _); [|by repeat split]. apply set_view_same. by eapply view_insert_same.
Qed.

Lemma selection_state_inv request s : state_inv s -> state_inv (selection_state request s).
Proof. intros Hs. by apply recover_quotas_inv, purge_expired_affinity_inv. Qed.

Lemma touch_affinity_inv request key s :
  state_inv s -> state_inv (set_affinity_map (alter (touch_affinity request) key (rs_affinity s)) s).
Proof.
  intros []. split; simpl; try done.
  - by rewrite size_alter.
  - intros k a Hk. destruct (decide (key = k)) as [<-|Hne].
    + rewrite lookup_alter_eq in Hk. apply fmap_Some in Hk as (a' & Ha' & ->). simpl. by eauto.
    + rewrite lookup_alter_ne in Hk by done. by eauto.
Qed.

Lemma select_inv inner h request s result s' :
  state_inv s -> select_from_state inner h request s = Some (result, s') -> state_inv s'.
Proof.
  intros Hinv Hsel. destruct result as [lease|err].
  - apply select_ok in Hsel as (ev & s1 & rebound & ex & p & Hch & Hbest & Hfin & _).
    destruct (chosen_elem _ _ _ _ _ _ Hch) as (Htier & He1 & _).
    pose proof (best_priority_spec (List.filter no_reasons (selection_candidates h request s))) as Hp.
    rewrite Hbest in Hp. destruct Hp as (_ & Hin & _).
    assert (Hreg : forall x, x ∈ tier p (List.filter no_reasons (selection_candidates h request s)) ->
      registered s (reg_binding (ev_registration x))).
    { intros x Hx. apply Hin in Hx as [Hx _]. apply elem_of_eligible in Hx as [_ [[b Hb] _]].
      destruct (inv_key _ _ Hinv b (ev_registration x) (e_order (ev_entry x))) as [-> _];
        [apply view_Some; by exists (ev_entry x)|by eexists]. }
    assert (Hs1 : state_inv s1).
    { destruct Hch as [(key & a & _ & _ & _ & ->)|[_ Hc]].
      - by apply touch_affinity_inv, selection_state_inv.
      - eapply choose_index_inv; [by apply selection_state_inv| |exact Hc]. exact Hreg. }
    pose proof (finish_selection_spec inner request ev rebound ex s1) as Hspec. rewrite Hfin in Hspec.
    destruct Hspec as (_ & _ & _ & _ & _ & _ & Haff).
    assert (Hrs : state_inv (reserve (reg_binding (ev_registration ev)) s1))
      by (eapply tables_eq_inv; [apply reserve_tables|done]).
    destruct (sr_affinity_key request) as [key|] eqn:Ek.
    + rewrite Haff. apply insert_bounded_affinity_inv; [done|]. simpl.
      destruct (reserve_entries (reg_binding (ev_registration ev)) s1) as (He & _ & _).
      unfold registered. rewrite He. unfold reserved. rewrite He1, lookup_alter_eq, fmap_is_Some.
      by apply Hreg.
    + unfold finish_selection in Hfin. rewrite Ek in Hfin. by injection Hfin as _ <-.
  - destruct (decide (sr_affinity_ttl request = 0)) as [Hz|Hnz].
    { unfold select_from_state in Hsel. rewrite Hz in Hsel. by injection Hsel as <- <-. }
    destruct (select_spec inner h request s Hnz) as (res & s2 & Hsel' & Hres).
    rewrite Hsel in Hsel'. injection Hsel' as <- <-.
    destruct (best_priority _) as [p|].
    + destruct Hres as [(-> & _)|(ev & s1 & rebound & ex & _ & Hfin & _)];
        [by apply selection_state_inv|].
      destruct (finish_selection _ _ _ _ _ _). by destruct Hfin.
    + destruct Hres as [-> _]. by apply selection_state_inv.
Qed.

Lemma select_err_entries inner h request s err s' :
  select_from_state inner h request s = Some (Err err, s') ->
  rs_entries s' = rs_entries s /\ rs_next_order s' = rs_next_order s.
Proof.
  intros Hsel. destruct (decide (sr_affinity_ttl request = 0)) as [Hz|Hnz].
  { unfold select_from_state in Hsel. rewrite Hz in Hsel. by injection Hsel as <- <-. }
  destruct (select_spec inner h request s Hnz) as (res & s2 & Hsel' & Hres).
  rewrite Hsel in Hsel'. injection Hsel' as <- <-.
  destruct (best_priority _) as [p|]; [|by destruct Hres as [-> _]].
  destruct Hres as [(-> & _)|(ev & s1 & rebound & ex & _ & Hfin & _)]; [done|].
  destruct (finish_selection _ _ _ _ _ _). by destruct Hfin.
Qed.

(** The entry a successful selection reserves. *)
Lemma select_ok_entries inner h request s lease s' :
  state_inv s -> select_from_state inner h request s = Some (Ok lease, s') ->
  exists b e, rs_entries s !! b = Some e /\
    res_binding (lease_reservation lease) = b /\ res_registration_order (lease_reservation lease) = e_order e /\
    res_inner (lease_reservation lease) = inner /\ res_released (lease_reservation lease) = false /\
    rs_entries s' = alter (fun e => entry_set_in_flight (sat_add U32_MAX (e_in_flight e) 1) e) b (rs_entries s) /\
    rs_next_order s' = rs_next_order s.
Proof.
  intros Hinv Hsel. apply select_ok in Hsel as (ev & s1 & rebound & ex & p & Hch & Hbest & Hfin & _).
  destruct (chosen_elem _ _ _ _ _ _ Hch) as (Htier & He1 & Hn1).
  pose proof (best_priority_spec (List.filter no_reasons (selection_candidates h request s))) as Hp.
  rewrite Hbest in Hp. destruct Hp as (_ & Hin & _).
  apply Hin in Htier as [Hel _]. apply elem_of_eligible in Hel as [_ [[b Hb] _]].
  destruct (inv_key _ _ Hinv b (ev_registration ev) (e_order (ev_entry ev))) as [Hkey _];
    [apply view_Some; by exists (ev_entry ev)|].
  pose proof (finish_selection_spec inner request ev rebound ex s1) as Hspec. rewrite Hfin in Hspec.
  destruct Hspec as (_ & Hres & _ & _ & Hent & Hn & _). rewrite Hres, Hent, Hn. simpl.
  exists b, (ev_entry ev). unfold reserved. rewrite Hkey, He1, Hn1. done.
Qed.
End preserve.

(** * Witnesses: two registrations of one model *)

Definition example_digest : Digest := fun _ => replicate 32 0.
Definition example_state : RegistryState :=
  register (example_registration "b" 2) (register (example_registration "a" 3) state_new).
Definition example_session : SelectionRequest :=
  match @with_affinity_key example_digest (request_new (MkModelId "m") 0) "session" (from_secs 5) with
  | Ok request => request
  | Err _ => request_new (MkModelId "m") 0
  end.

Lemma example_state_inv : state_inv example_state.
Proof. repeat (apply register_inv; [|done|done]). apply state_new_inv. Qed.

(** A decidable form of eligibility, to evaluate it on the example. *)
Lemma eligible_by_evaluation h request s b e :
  rs_entries s !! b = Some e ->
  ev_reasons (evaluate_entry (selection_state request s) h (resolved_request request s)
    (fallback_priority (sorted_entries s) (resolved_request request s)) e) = [] ->
  eligible_entry h request s e.
Proof. intros Hb Hr. split; [by exists b|]. by apply evaluate_entry_eligible. Qed.

Lemma select_sound_witness :
  exists lease s', @select_from_state example_digest 0 health_registry_new example_session example_state = Some (Ok lease, s') /\
  exists e, rs_entries example_state !! reg_binding (lease_registration lease) = Some e /\
    eligible_entry health_registry_new example_session example_state e.
Proof.
  destruct (@select_from_state example_digest 0 health_registry_new example_session example_state)
    as [[[lease|err] s']|] eqn:E; [|vm_compute in E; discriminate..].
  exists lease, s'. split; [reflexivity|].
  destruct (@select_sound example_digest 0 health_registry_new example_session example_state lease s'
    example_state_inv E) as (e & He & _ & Hel & _). exists e. split; [exact He|exact Hel].
Defined.

Lemma select_complete_witness :
  exists result s', @select_from_state example_digest 0 health_registry_new example_session example_state = Some (result, s') /\
  exists lease, result = Ok lease.
Proof.
  destruct (@select_complete example_digest 0 health_registry_new example_session example_state ltac:(done))
    as (result & s' & Hsel & _).
  exists result, s'. split; [exact Hsel|]. destruct result as [lease|err]; [exists lease; reflexivity|].
  vm_compute in Hsel. discriminate.
Defined.

(** What the witness of the session property evaluates on the state after the
    first selection: the priorities of all entries and the second evaluation. *)
Definition example_second (s1 : RegistryState) (b : BindingKey) : bool :=
  let request := at_ example_session (Z.of_N (from_secs 2)) in
  bool_decide (map_Forall (fun _ e => reg_priority (e_registration e) = 1) (rs_entries s1)) &&
  match rs_entries s1 !! b with
  | Some e =>
    beq (reg_provider (e_registration e)) (MkProviderId "p") && beq (reg_model (e_registration e)) (MkModelId "m") &&
    no_reasons (evaluate_entry (selection_state request s1) health_registry_new (resolved_request request s1)
      (fallback_priority (sorted_entries s1) (resolved_request request s1)) e)
  | None => false
  end.

Lemma session_affinity_witness :
  exists lease1 s1 lease2 s2,
    @select_from_state example_digest 0 health_registry_new example_session example_state = Some (Ok lease1, s1) /\
    @select_from_state example_digest 0 health_registry_new (at_ example_session (Z.of_N (from_secs 2))) s1
      = Some (Ok lease2, s2) /\
    reg_binding (lease_registration lease2) = reg_binding (lease_registration lease1).
Proof.
  assert (Hc : match @select_from_state example_digest 0 health_registry_new example_session example_state with
    | Some (Ok lease, s1) => example_second s1 (reg_binding (lease_registration lease)) &&
        beq (reg_provider (lease_registration lease)) (MkProviderId "p") &&
        beq (reg_model (lease_registration lease)) (MkModelId "m")
    | _ => false end = true) by (vm_compute; reflexivity).
  destruct (@select_from_state example_digest 0 health_registry_new example_session example_state)
    as [[[lease1|err] s1]|] eqn:E; [|discriminate Hc..].
  apply andb_true_iff in Hc as [[Hc Hlp%bool_decide_eq_true]%andb_true_iff Hlm%bool_decide_eq_true].
  unfold example_second in Hc. apply andb_true_iff in Hc as [Hp%bool_decide_eq_true Hc].
  destruct (rs_entries s1 !! reg_binding (lease_registration lease1)) as [e|] eqn:He; [|discriminate Hc].
  apply andb_true_iff in Hc as [[Hep%bool_decide_eq_true Hem%bool_decide_eq_true]%andb_true_iff Hr].
  exists lease1, s1.
  destruct (@session_affinity example_digest 0 health_registry_new example_session example_state lease1 s1
    health_registry_new (at_ example_session (Z.of_N (from_secs 2))) s1
    (MkAffinityKey "session-00000000000000000000000000000000") e example_state_inv eq_refl E
    (@select_inv example_digest _ _ _ _ _ _ example_state_inv E) eq_refl eq_refl ltac:(discriminate)
    ltac:(reflexivity) He) as (lease2 & s2 & Hsel & Hb & _).
  - rewrite Hep, Hlp. reflexivity.
  - rewrite Hem, Hlm. reflexivity.
  - eapply eligible_by_evaluation; [exact He|]. unfold no_reasons in Hr. destruct (ev_reasons _); [reflexivity|discriminate].
  - intros e' [[b' Hb'] _]. rewrite (Hp _ _ He), (Hp _ _ Hb'). apply N.le_refl.
  - exists lease2, s2. split; [reflexivity|]. split; [exact Hsel|exact Hb].
Defined.
