(* ===== verification/System.v ===== *)
(** Histories of a registry and the leases it has issued: every operation of the
    registry, the issue and the drop of leases as steps of one relation, with the
    invariant of the tables and the exactness of the in-flight counters by
    induction over the steps. *)
From S2P Require Import Prelude Str Time CoreId Capabilities CoreError Classify Retry Binding.
From S2P Require Import Health Quota Explain Telemetry Registration Registry QuotaTable.
From S2P Require Import Evaluate Choose Select Invariant SelectFacts.

Open Scope N_scope.

(** * Steps *)

Record System := MkSystem { sys_registry : RegistryInner; sys_live : list SelectionReservation }.

Section system.
Context `{Digest}.
(** The identifier of the registry the history is about. *)
Variable id : N.

(** Operations that neither add nor remove entries nor touch reservations. *)
Inductive quiet_step : RegistryInner -> RegistryInner -> Prop :=
| quiet_alias r a m :
    quiet_step r (with_state (register_model_alias a m (ri_state r)).2 r)
| quiet_set_enabled r c en : quiet_step r (with_state (set_enabled c en (ri_state r)).2 r)
| quiet_set_credentials_enabled r l : quiet_step r (set_credentials_enabled l r).2
| quiet_set_binding_enabled r b en :
    quiet_step r (with_state (set_binding_enabled b en (ri_state r)).2 r)
| quiet_disable r c : quiet_step r (disable c r).2
| quiet_enable r c : quiet_step r (enable c r).2
| quiet_disable_binding r b : quiet_step r (registry_disable_binding b r).2
| quiet_enable_binding r b : quiet_step r (registry_enable_binding b r).2
| quiet_set_quota r c remaining reset now :
    quiet_step r (with_state (set_quota c remaining reset now (ri_state r)).2 r)
| quiet_set_quota_snapshot r c q :
    quiet_step r (with_state (set_quota_snapshot c q (ri_state r)).2 r)
| quiet_set_binding_quota r b q :
    quiet_step r (with_state (set_binding_quota_snapshot b q (ri_state r)).2 r)
| quiet_mark_binding_exhausted r b reset now :
    quiet_step r (with_state (mark_binding_quota_exhausted b reset now (ri_state r)).2 r)
| quiet_quota_records r now ms :
    quiet_step r (with_state (quota_state_records now ms (ri_state r)).2 r)
| quiet_binding_quota_records r now ms :
    quiet_step r (with_state (binding_quota_state_records now ms (ri_state r)).2 r)
| quiet_restore_quota r p now ms :
    quiet_step r (with_state (restore_quota_state p now ms (ri_state r)).2 r)
| quiet_restore_binding_quota r b p now ms :
    quiet_step r (with_state (restore_binding_quota_state b p now ms (ri_state r)).2 r)
| quiet_apply_failure r f subject now m r' :
    registry_apply_failure f subject now r = Some (m, r') -> quiet_step r r'
| quiet_restore_cooldown r scope until : quiet_step r (registry_restore_cooldown scope until r)
| quiet_restore_affinity r k c p m t1 t2 now :
    quiet_step r (with_state (restore_affinity k c p m t1 t2 now (ri_state r)).2 r)
| quiet_restore_affinity_binding r k b p m t1 t2 now :
    quiet_step r (with_state (restore_affinity_binding k b p m t1 t2 now (ri_state r)).2 r)
| quiet_affinity_len r now : quiet_step r (with_state (affinity_len now (ri_state r)).2 r).

(** The lease a recovery hands back, as live reservations. *)
Definition recovered_live (result : Result QuotaRecovery SelectionError) : list SelectionReservation :=
  match result with
  | Ok qr => match qr_selection qr with Some l => [lease_reservation l] | None => [] end
  | Err _ => []
  end.

(** One step of a history.  The side conditions are the registration bound
    [next_order < u64::MAX] and fewer than [u32::MAX] leases at a time. *)
Inductive sys_step : System -> System -> Prop :=
| sys_quiet r r' live : quiet_step r r' -> sys_step (MkSystem r live) (MkSystem r' live)
| sys_register r live reg :
    reg_credential reg = bk_account_id (reg_binding reg) ->
    rs_next_order (ri_state r) < U64_MAX ->
    sys_step (MkSystem r live) (MkSystem (with_state (register reg (ri_state r)) r) live)
| sys_unregister r live c : sys_step (MkSystem r live) (MkSystem (unregister c r).2 live)
| sys_unregister_binding r live b :
    sys_step (MkSystem r live) (MkSystem (unregister_binding b r).2 live)
| sys_select r live request h result s' :
    N.of_nat (length live) < U32_MAX ->
    select_from_state id h request (ri_state r) = Some (result, s') ->
    sys_step (MkSystem r live)
      (MkSystem (with_state s' r)
         (match result with Ok lease => lease_reservation lease :: live | Err _ => live end))
| sys_drop r live res live' :
    live ≡ₚ res :: live' ->
    sys_step (MkSystem r live) (MkSystem (with_state (release_from res (ri_state r)).2 r) live')
| sys_recover r live failed live' c request policy context result store r' :
    N.of_nat (length live) < U32_MAX ->
    live ≡ₚ lease_reservation failed :: live' ->
    recover_quota id failed c request policy context {[ id := r ]} = Some (result, store) ->
    store !! id = Some r' ->
    sys_step (MkSystem r live) (MkSystem r' (recovered_live result ++ live')).

Inductive sys_reachable : System -> Prop :=
| sys_init : sys_reachable (MkSystem registry_new [])
| sys_next x y : sys_reachable x -> sys_step x y -> sys_reachable y.

(** * The invariant *)

Definition holds (b : BindingKey) (order : N) (r : SelectionReservation) : bool :=
  beq (res_binding r) b && (res_registration_order r =? order).

(** Live leases of one registration of a binding. *)
Definition leases (b : BindingKey) (order : N) (live : list SelectionReservation) : N :=
  N.of_nat (length (List.filter (holds b order) live)).

Definition live_ok (s : RegistryState) (r : SelectionReservation) : Prop :=
  res_released r = false /\ res_inner r = id /\ res_registration_order r < rs_next_order s.

Record sys_inv (r : RegistryInner) (live : list SelectionReservation) : Prop := {
  sys_tables : state_inv (ri_state r);
  sys_live_ok : Forall (live_ok (ri_state r)) live;
  sys_in_flight : forall b e, rs_entries (ri_state r) !! b = Some e ->
    e_in_flight e = leases b (e_order e) live;
}.

Lemma leases_cons b o r live :
  leases b o (r :: live) = (if holds b o r then 1 else 0) + leases b o live.
Proof. unfold leases. simpl. destruct (holds b o r); simpl; lia. Qed.

Lemma leases_perm b o l l' : l ≡ₚ l' -> leases b o l = leases b o l'.
Proof.
  unfold leases. induction 1; simpl; try done; try congruence.
  - destruct (holds b o x); simpl; lia.
  - by destruct (holds b o x), (holds b o y).
Qed.

Lemma leases_le b o live : leases b o live <= N.of_nat (length live).
Proof.
  unfold leases. induction live as [|r live IH]; simpl; [lia|].
  destruct (holds b o r); simpl; lia.
Qed.

(** Steps that keep every entry's counter and order. *)
Definition flight (s : RegistryState) : gmap BindingKey (N * N) :=
  (fun e => (e_in_flight e, e_order e)) <$> rs_entries s.

Lemma flight_inv r r' live :
  sys_inv r live -> state_inv (ri_state r') -> flight (ri_state r') = flight (ri_state r) ->
  rs_next_order (ri_state r') = rs_next_order (ri_state r) -> sys_inv r' live.
Proof.
  intros [Ht Hl Hf] Hs' Hfl Hn. split; [done| |].
  - eapply Forall_impl; [done|]. intros x. unfold live_ok. by rewrite Hn.
  - intros b e Hb. assert (Hfb : flight (ri_state r') !! b = Some (e_in_flight e, e_order e))
      by (unfold flight; by rewrite lookup_fmap, Hb).
    rewrite Hfl in Hfb. unfold flight in Hfb. rewrite lookup_fmap in Hfb.
    destruct (rs_entries (ri_state r) !! b) as [e'|] eqn:E; [|done].
    injection Hfb as <- <-. by apply Hf.
Qed.

Lemma set_enabled_flight c en s :
  flight (set_enabled c en s).2 = flight s /\ rs_next_order (set_enabled c en s).2 = rs_next_order s.
Proof.
  split; [|done]. unfold flight. simpl. rewrite <- map_fmap_compose. apply map_fmap_ext.
  intros b e _. simpl. by destruct (owned_by c e).
Qed.

Lemma set_binding_enabled_flight b en s :
  flight (set_binding_enabled b en s).2 = flight s /\
  rs_next_order (set_binding_enabled b en s).2 = rs_next_order s.
Proof.
  unfold set_binding_enabled. destruct (rs_entries s !! b) as [e|] eqn:E; [|done].
  split; [|done]. unfold flight. simpl. rewrite fmap_insert. apply insert_id.
  by rewrite lookup_fmap, E.
Qed.

Lemma set_credentials_enabled_flight l r :
  flight (ri_state (set_credentials_enabled l r).2) = flight (ri_state r) /\
  rs_next_order (ri_state (set_credentials_enabled l r).2) = rs_next_order (ri_state r).
Proof.
  revert r. induction l as [|[c en] l IH]; intros r; simpl; [done|].
  destruct (set_enabled_flight c en (ri_state r)) as [H1 H2].
  specialize (IH (MkInner (set_enabled c en (ri_state r)).2
    (if en then enable_credential c (ri_health r) else disable_credential c (ri_health r)))).
  destruct (set_credentials_enabled l _) as [c' r']. cbn [snd ri_state fst] in *.
  by rewrite H1, H2 in IH.
Qed.

Lemma entries_flight s s' : rs_entries s' = rs_entries s -> flight s' = flight s.
Proof. intros E. unfold flight. by rewrite E. Qed.

(** What a quiet step keeps. *)
Definition keeps (s s' : RegistryState) : Prop :=
  state_inv s' /\ flight s' = flight s /\ rs_next_order s' = rs_next_order s.

Lemma keeps_entries s s' :
  state_inv s' /\ rs_entries s' = rs_entries s /\ rs_next_order s' = rs_next_order s -> keeps s s'.
Proof. intros (? & He & ?). split; [done|]. split; [by apply entries_flight|done]. Qed.

Lemma keeps_enabled c en s : state_inv s -> keeps s (set_enabled c en s).2.
Proof.
  intros Hs. split; [|apply set_enabled_flight]. eapply tables_eq_inv; [apply set_enabled_eq|done].
Qed.

Lemma keeps_binding_enabled b en s : state_inv s -> keeps s (set_binding_enabled b en s).2.
Proof.
  intros Hs. split; [|apply set_binding_enabled_flight].
  eapply tables_eq_inv; [apply set_binding_enabled_eq|done].
Qed.

Local Ltac rewrite_frame :=
  match goal with
  | |- context [insert_bounded_affinity ?k ?a ?s] =>
      destruct (insert_bounded_affinity_frame k a s) as [-> ->]; done
  end.

Lemma quiet_keeps r r' : quiet_step r r' -> state_inv (ri_state r) -> keeps (ri_state r) (ri_state r').
Proof.
  intros Hq Hs. destruct Hq as [r a m|r c en|r l|r b en|r c|r c|r b|r b|r c rem reset now|r c q|r b q
    |r b reset now|r now ms|r now ms|r p now ms|r b p now ms|r f subject now m r' Hf|r scope until
    |r k c p m t1 t2 now|r k b p m t1 t2 now|r now]; simpl.
  - apply keeps_entries. split; [by apply register_model_alias_inv|].
    unfold register_model_alias. by destruct (resolve_alias _ _).
  - by apply keeps_enabled.
  - split; [by apply set_credentials_enabled_inv|apply set_credentials_enabled_flight].
  - by apply keeps_binding_enabled.
  - by apply (keeps_enabled c false).
  - by apply (keeps_enabled c true).
  - unfold registry_disable_binding. pose proof (keeps_binding_enabled b false _ Hs) as Hk.
    by destruct (set_binding_enabled b false (ri_state r)).
  - unfold registry_enable_binding. pose proof (keeps_binding_enabled b true _ Hs) as Hk.
    by destruct (set_binding_enabled b true (ri_state r)).
  - by apply keeps_entries, set_quota_snapshot_spec.
  - by apply keeps_entries, set_quota_snapshot_spec.
  - by apply keeps_entries, set_binding_quota_snapshot_spec.
  - by apply keeps_entries, set_binding_quota_snapshot_spec.
  - apply keeps_entries. split; [by apply recover_quotas_inv|done].
  - apply keeps_entries. split; [by apply recover_quotas_inv|done].
  - by apply keeps_entries, restore_quota_state_spec.
  - by apply keeps_entries, restore_binding_quota_state_spec.
  - unfold registry_apply_failure in Hf. destruct (apply_failure _ _ _ _) as [[m' h]|]; simplify_eq/=.
    by apply keeps_entries.
  - by apply keeps_entries.
  - apply keeps_entries. split; [by apply restore_affinity_inv|].
    unfold restore_affinity. destruct (List.find _ _); [|done]. rewrite_frame.
  - apply keeps_entries. split; [by apply restore_affinity_binding_inv|].
    unfold restore_affinity_binding. destruct (rs_entries (ri_state r) !! b); [|done].
    rewrite_frame.
  - apply keeps_entries. split; [by apply purge_expired_affinity_inv|done].
Qed.

Lemma quiet_sys_inv r r' live : quiet_step r r' -> sys_inv r live -> sys_inv r' live.
Proof.
  intros Hq Hinv. destruct (quiet_keeps r r' Hq (sys_tables _ _ Hinv)) as (H1 & H2 & H3).
  by eapply flight_inv.
Qed.

(** ** Registering and unregistering *)

Lemma leases_fresh s b o live :
  Forall (live_ok s) live -> rs_next_order s <= o -> leases b o live = 0.
Proof.
  intros Hl Ho. unfold leases. induction Hl as [|r live (_ & _ & Hr) _ IH]; simpl; [done|].
  unfold holds at 1. destruct (N.eqb_spec (res_registration_order r) o); [lia|].
  by rewrite andb_false_r.
Qed.

Lemma register_sys_inv r live reg :
  reg_credential reg = bk_account_id (reg_binding reg) -> rs_next_order (ri_state r) < U64_MAX ->
  sys_inv r live -> sys_inv (with_state (register reg (ri_state r)) r) live.
Proof.
  intros Hacc Hmax [Ht Hl Hf]. split; simpl; [by apply register_inv| |].
  - eapply Forall_impl; [exact Hl|]. intros x (? & ? & Hx). split; [done|]. split; [done|].
    unfold register. destruct (rs_entries (ri_state r) !! _); simpl; [done|].
    unfold sat_add. lia.
  - intros b e. unfold register.
    destruct (rs_entries (ri_state r) !! reg_binding reg) as [old|] eqn:E; simpl;
      intros [[<- <-]|[_ Hb]]%lookup_insert_Some; simpl; try (by apply Hf).
    symmetry. by apply (leases_fresh (ri_state r)).
Qed.

Lemma remove_sys_inv r h bs live :
  sys_inv r live -> sys_inv (MkInner (remove_bindings bs (ri_state r)) h) live.
Proof.
  intros [Ht Hl Hf]. split; simpl; [by apply remove_bindings_inv|done|].
  intros b e Hb. rewrite <- (Hf b e); [done|].
  change (rs_entries (remove_bindings bs (ri_state r)) !! b = Some e) in Hb.
  rewrite remove_bindings_entries in Hb. by case_bool_decide.
Qed.

(** ** Reserving and releasing *)

Lemma reserve_sys_inv r live request h lease s' :
  N.of_nat (length live) < U32_MAX -> sys_inv r live ->
  select_from_state id h request (ri_state r) = Some (Ok lease, s') ->
  forall h', sys_inv (MkInner s' h') (lease_reservation lease :: live).
Proof.
  intros Hlen [Ht Hl Hf] Hsel h'. pose proof (select_inv _ _ _ _ _ _ Ht Hsel) as Ht'.
  destruct (select_ok_entries _ _ _ _ _ _ Ht Hsel) as (b & e & Hb & Hrb & Hro & Hri & Hrr & He & Hn).
  split; simpl; [done| |].
  - constructor.
    + split; [done|]. split; [done|]. rewrite Hn, Hro. apply (inv_order_lt _ _ Ht b (e_registration e)).
      apply view_Some. by exists e.
    + eapply Forall_impl; [exact Hl|]. intros x. unfold live_ok. by rewrite Hn.
  - intros b' e' Hb'. rewrite He in Hb'. rewrite leases_cons. unfold holds. rewrite Hrb, Hro.
    destruct (decide (b = b')) as [<-|Hne].
    + rewrite lookup_alter_eq, Hb in Hb'. injection Hb' as <-. simpl.
      rewrite bool_decide_eq_true_2, N.eqb_refl by done. simpl.
      pose proof (leases_le b (e_order e) live). rewrite (Hf b e Hb). unfold sat_add. lia.
    + rewrite lookup_alter_ne in Hb' by done. rewrite bool_decide_eq_false_2 by done. simpl.
      by apply Hf.
Qed.

Lemma select_err_sys_inv r live request h err s' :
  sys_inv r live -> select_from_state id h request (ri_state r) = Some (Err err, s') ->
  forall h', sys_inv (MkInner s' h') live.
Proof.
  intros Hinv Hsel h'. pose proof (select_inv _ _ _ _ _ _ (sys_tables _ _ Hinv) Hsel) as Ht'.
  destruct (select_err_entries _ _ _ _ _ _ Hsel) as [He Hn].
  eapply flight_inv; [exact Hinv|done|by apply entries_flight|done].
Qed.

Lemma release_sys_inv r live res live' :
  live ≡ₚ res :: live' -> sys_inv r live ->
  sys_inv (with_state (release_from res (ri_state r)).2 r) live'.
Proof.
  intros Hperm [Ht Hl Hf]. rewrite Hperm in Hl. apply Forall_cons in Hl as [(Hrel & _ & Hord) Hl].
  assert (Hn : rs_next_order (release_from res (ri_state r)).2 = rs_next_order (ri_state r))
    by apply release_tables.
  split; simpl.
  - eapply tables_eq_inv; [apply release_tables|done].
  - eapply Forall_impl; [exact Hl|]. intros x. unfold live_ok. by rewrite Hn.
  - intros b e He.
    assert (Hc : forall e0, rs_entries (ri_state r) !! b = Some e0 ->
      e_in_flight e0 = (if holds b (e_order e0) res then 1 else 0) + leases b (e_order e0) live').
    { intros e0 He0. rewrite (Hf b e0 He0), (leases_perm _ _ _ _ Hperm). apply leases_cons. }
    unfold release_from in He. rewrite Hrel in He. simpl in He.
    destruct (rs_entries (ri_state r) !! res_binding res) as [old|] eqn:Eold.
    2: { rewrite (Hc e He). unfold holds. rewrite bool_decide_eq_false_2 by congruence. simpl. lia. }
    destruct (N.eqb_spec (e_order old) (res_registration_order res)) as [Heq|Hneq].
    + simpl in He. apply lookup_insert_Some in He as [[<- <-]|[Hne He]].
      * simpl. rewrite (Hc old Eold). unfold holds. rewrite bool_decide_eq_true_2 by done.
        rewrite Heq, N.eqb_refl. simpl. unfold sat_sub. lia.
      * rewrite (Hc e He). unfold holds. rewrite bool_decide_eq_false_2 by done. simpl. lia.
    + rewrite (Hc e He). unfold holds. case_bool_decide as Eb; simpl; [|lia].
      subst b. rewrite Eold in He. injection He as <-.
      destruct (N.eqb_spec (res_registration_order res) (e_order old)); [congruence|]. lia.
Qed.

(** ** Quota recovery *)

Lemma sys_inv_state r r' live : ri_state r' = ri_state r -> sys_inv r live -> sys_inv r' live.
Proof. intros E [H1 H2 H3]. split; by rewrite E. Qed.

Lemma keeps_sys_inv r s' h live : keeps (ri_state r) s' -> sys_inv r live -> sys_inv (MkInner s' h) live.
Proof. intros (H1 & H2 & H3) Hinv. by eapply flight_inv. Qed.

(** The quota observation recorded for the entry the failed lease still owns. *)
Lemma recovery_quota_keeps res registration now q s :
  owns_current_entry res registration s = true -> state_inv s ->
  let s1 := recover_quotas now (purge_expired_affinity now (release_from res s).2) in
  keeps (release_from res s).2 (insert_quota_for_binding (res_binding res) registration q s1).2.
Proof.
  intros Hown Hs s1. assert (Hrel : state_inv (release_from res s).2)
    by (eapply tables_eq_inv; [apply release_tables|done]).
  assert (Hs1 : state_inv s1) by by apply recover_quotas_inv, purge_expired_affinity_inv.
  apply keeps_entries. split; [|apply (insert_quota_for_binding_entries _ _ _ s1)].
  apply insert_quota_for_binding_inv; [done|]. unfold owns_current_entry, is_some_and in Hown.
  destruct (rs_entries s !! res_binding res) as [e|] eqn:E; [|done].
  apply andb_true_iff in Hown as [_ Hreg%bool_decide_eq_true]. exists (e_order e).
  change (view s1) with (view (release_from res s).2).
  destruct (release_tables res s) as [-> _]. apply view_Some. by exists e.
Qed.

Lemma recover_locked_sys_inv r live live' failed c failure request policy context result r' :
  N.of_nat (length live) < U32_MAX -> live ≡ₚ lease_reservation failed :: live' -> sys_inv r live ->
  recover_locked id failed c failure request policy context r = Some (result, r') ->
  sys_inv r' (recovered_live result ++ live').
Proof.
  intros Hlen Hperm Hinv Hrec. pose proof (release_sys_inv _ _ _ _ Hperm Hinv) as Hrel.
  assert (Hlen' : N.of_nat (length live') < U32_MAX)
    by (rewrite (Permutation_length Hperm) in Hlen; simpl in Hlen; lia).
  unfold recover_locked in Hrec.
  destruct (owns_current_entry _ _ _) eqn:Hown; [|by injection Hrec as <- <-]. cbn [negb] in Hrec.
  pose proof (recovery_quota_keeps _ _ (sr_now request) (qc_snapshot c) _ Hown (sys_tables _ _ Hinv)) as Hk.
  cbv zeta in Hk. destruct (insert_quota_for_binding _ _ _ _) as [[[|]|err] s3]; simpl in Hk;
    [|injection Hrec as <- <-; exact (keeps_sys_inv (with_state _ r) _ _ _ Hk Hrel)..].
  destruct (apply_failure _ _ _ _) as [[mutation h]|]; [|done].
  assert (Hinv3 : sys_inv (MkInner s3 h) live') by exact (keeps_sys_inv (with_state _ r) _ _ _ Hk Hrel).
  destruct (is_retry _); [|by injection Hrec as <- <-]. cbn [negb] in Hrec.
  destruct (select_from_state id h request s3) as [[[lease|err] s4]|] eqn:Hsel; [| |done].
  - injection Hrec as <- <-. by eapply (reserve_sys_inv (MkInner s3 h)).
  - pose proof (select_err_sys_inv (MkInner s3 h) _ _ _ _ _ Hinv3 Hsel h) as Hfin.
    by destruct err; injection Hrec as <- <-.
Qed.

Lemma drop_sys_inv r live res live' r' :
  live ≡ₚ res :: live' -> sys_inv r live ->
  drop_reservation res {[ id := r ]} !! id = Some r' -> sys_inv r' live'.
Proof.
  intros Hperm Hinv Hd. pose proof (sys_live_ok _ _ Hinv) as Hl. rewrite Hperm in Hl.
  apply Forall_cons in Hl as [(Hrel & Hin & _) _].
  unfold drop_reservation in Hd. rewrite Hrel, Hin, lookup_alter_eq, lookup_singleton_eq in Hd.
  injection Hd as <-. by eapply release_sys_inv.
Qed.

Lemma recover_sys_inv r live live' failed c request policy context result store r' :
  N.of_nat (length live) < U32_MAX -> live ≡ₚ lease_reservation failed :: live' -> sys_inv r live ->
  recover_quota id failed c request policy context {[ id := r ]} = Some (result, store) ->
  store !! id = Some r' -> sys_inv r' (recovered_live result ++ live').
Proof.
  intros Hlen Hperm Hinv Hrec Hst. unfold recover_quota in Hrec.
  destruct (qc_failure c) as [failure|]; [|injection Hrec as <- <-; by eapply drop_sys_inv].
  destruct (negb _); [injection Hrec as <- <-; by eapply drop_sys_inv|].
  destruct (negb _); [injection Hrec as <- <-; by eapply drop_sys_inv|].
  rewrite lookup_singleton_eq in Hrec.
  destruct (recover_locked _ _ _ _ _ _ _ _) as [[res r1]|] eqn:E; [|done].
  injection Hrec as <- <-. rewrite lookup_insert_eq in Hst. injection Hst as <-.
  by eapply recover_locked_sys_inv.
Qed.

Lemma unregister_sys_inv c r live : sys_inv r live -> sys_inv (unregister c r).2 live.
Proof. intros Hinv. unfold unregister. destruct (List.filter _ _); [done|]. by apply remove_sys_inv. Qed.

Lemma unregister_binding_sys_inv b r live : sys_inv r live -> sys_inv (unregister_binding b r).2 live.
Proof. intros Hinv. unfold unregister_binding. destruct (rs_entries _ !! b); [|done]. by apply remove_sys_inv. Qed.

(** One preservation lemma per kind of step. *)
Create HintDb registry_steps.
#[local] Hint Resolve quiet_sys_inv register_sys_inv unregister_sys_inv unregister_binding_sys_inv
  release_sys_inv recover_sys_inv : registry_steps.

Lemma step_sys_inv x y :
  sys_step x y -> sys_inv (sys_registry x) (sys_live x) -> sys_inv (sys_registry y) (sys_live y).
Proof.
  intros Hstep Hinv. destruct Hstep; simpl in *; try by eauto with registry_steps.
  destruct result as [lease|err]; [by eapply reserve_sys_inv|by eapply select_err_sys_inv].
Qed.

Lemma reachable_sys_inv x : sys_reachable x -> sys_inv (sys_registry x) (sys_live x).
Proof.
  induction 1 as [|x y _ IH Hstep]; [|by eapply step_sys_inv].
  split; simpl; [apply state_new_inv|constructor|]. intros b e Hb. by rewrite lookup_empty in Hb.
Qed.
(** [C2] In-flight accounting is exact: in every history of a registry, whatever
    the order of registrations, replacements, removals, selections, recoveries
    and lease drops, the counter of an entry equals the number of live leases
    issued for that very registration, so a slot is neither leaked nor released
    twice, a lease that outlives its entry never touches a later registration of
    the same binding, and with no live lease every counter is zero. *)
Theorem in_flight_exact x :
  sys_reachable x ->
  (forall b e, rs_entries (ri_state (sys_registry x)) !! b = Some e ->
     e_in_flight e = leases b (e_order e) (sys_live x)) /\
  (sys_live x = [] -> forall b n, binding_in_flight b (ri_state (sys_registry x)) = Some n -> n = 0).
Proof.
  intros Hx. apply reachable_sys_inv in Hx as [_ _ Hf]. split; [exact Hf|].
  intros Hnil b n Hb. unfold binding_in_flight in Hb. apply fmap_Some in Hb as (e & He & ->).
  by rewrite (Hf _ _ He), Hnil.
Qed.

(** [C9] The tables of a registry stay consistent in every history: every entry
    is stored under its own binding and account, registration orders are unique,
    the affinity table holds at most 4096 sessions, and sessions, scheduler
    state, quotas and binding quotas only refer to bindings that are registered
    at that moment; every model alias resolves. *)
Theorem registry_tables_consistent x :
  sys_reachable x ->
  let s := ri_state (sys_registry x) in
  (forall b e, rs_entries s !! b = Some e ->
     reg_binding (e_registration e) = b /\ reg_credential (e_registration e) = bk_account_id b) /\
  (forall b b' e e', rs_entries s !! b = Some e -> rs_entries s !! b' = Some e' ->
     e_order e = e_order e' -> b = b') /\
  N.of_nat (size (rs_affinity s)) <= MAX_AFFINITY_BINDINGS /\
  (forall k a, rs_affinity s !! k = Some a -> registered s (ab_binding a)) /\
  (forall k c b, rs_smooth_current s !! k = Some c -> is_Some (c !! b) -> registered s b) /\
  (forall k c b, rs_round_robin s !! k = Some c -> b ∈ k.2 -> registered s b) /\
  (forall subject u q, rs_quotas s !! (subject, u) = Some q ->
     exists b e, rs_entries s !! b = Some e /\ subject_matches subject (e_registration e) = true) /\
  (forall b u q, rs_binding_quotas s !! (b, u) = Some q -> registered s b) /\
  (forall m, is_Some (resolve_alias (rs_aliases s) m)).
Proof.
  intros Hx s. apply reachable_sys_inv in Hx as [Hs _ _]. fold s in Hs.
  pose proof (fun b => proj1 (view_registered s b)) as Hview.
  split; [|split; [|split; [apply Hs|split; [|split; [|split; [|split; [|split]]]]]]].
  - intros b e He. apply (inv_key _ _ Hs b (e_registration e) (e_order e)), view_Some. by exists e.
  - intros b b' e e' He He' Ho. apply (inv_order_inj _ _ Hs b b' (e_registration e) (e_registration e') (e_order e));
      apply view_Some; [by exists e|by exists e'].
  - intros k a Ha. by eapply Hview, inv_affinity.
  - intros k c b Hc Hb. by eapply Hview, inv_smooth.
  - intros k c b Hc Hb. by eapply Hview, inv_round_robin.
  - intros subject u q Hq. destruct (inv_quotas _ _ Hs _ _ _ Hq) as (b & r & o & Hv & Hm).
    apply view_Some in Hv as (e & He & <- & _). by exists b, e.
  - intros b u q Hq. by eapply Hview, (inv_binding_quotas _ _ Hs _ _ _ Hq).
  - intros m. destruct (inv_aliases _ _ Hs m) as [r Hr]. 
    pose proof (resolve_alias_path (rs_aliases s) m) as Hp.
    destruct (resolve_alias _ m); [by eexists|by destruct (Hp r)].
Qed.

(** Unregistering a binding leaves no trace of it: the entry, its sessions,
    its scheduler state, its quotas and its health record are gone, every other
    entry is as before, and releasing a lease of it later changes nothing. *)
Theorem unregister_leaves_no_trace x b :
  sys_reachable x ->
  let r := (unregister_binding b (sys_registry x)).2 in
  let s := ri_state r in
  ~ registered s b /\
  (forall b', b' <> b -> rs_entries s !! b' = rs_entries (ri_state (sys_registry x)) !! b') /\
  (forall k a, rs_affinity s !! k = Some a -> ab_binding a <> b) /\
  (forall k c, rs_smooth_current s !! k = Some c -> c !! b = None) /\
  (forall k c, rs_round_robin s !! k = Some c -> b ∉ k.2) /\
  (forall u, rs_binding_quotas s !! (b, u) = None) /\
  (registered (ri_state (sys_registry x)) b -> hr_bindings (ri_health r) !! b = None) /\
  (forall res, res_binding res = b -> (release_from res s).2 = s).
Proof.
  intros Hx r s. assert (Hinv : state_inv s).
  { apply unregister_binding_inv. by apply reachable_sys_inv in Hx as [Hs _ _]. }
  assert (He : forall b', rs_entries s !! b' =
    if bool_decide (b' = b) then None else rs_entries (ri_state (sys_registry x)) !! b').
  { intros b'. unfold s, r, unregister_binding. case_bool_decide as Hb.
    - subst b'. destruct (rs_entries (ri_state (sys_registry x)) !! b) eqn:E; [|done].
      cbn [snd ri_state]. rewrite remove_bindings_entries, bool_decide_eq_true_2; [done|by left].
    - destruct (rs_entries (ri_state (sys_registry x)) !! b) eqn:E; [|done].
      cbn [snd ri_state]. rewrite remove_bindings_entries, bool_decide_eq_false_2; [done|].
      by rewrite elem_of_cons, elem_of_nil; intros [|[]]. }
  assert (Hgone : ~ registered s b).
  { unfold registered. rewrite He, bool_decide_eq_true_2 by done. by intros []. }
  pose proof (fun b => proj1 (view_registered s b)) as Hview.
  split; [done|]. split; [|split; [|split; [|split; [|split; [|split]]]]].
  - intros b' Hb'. by rewrite He, bool_decide_eq_false_2.
  - intros k a Ha <-. by eapply Hgone, Hview, inv_affinity.
  - intros k c Hc. destruct (c !! b) eqn:E; [|done]. exfalso.
    eapply Hgone, Hview, inv_smooth; eauto.
  - intros k c Hc Hb. by eapply Hgone, Hview, inv_round_robin.
  - intros u. destruct (rs_binding_quotas s !! (b, u)) eqn:E; [|done]. exfalso.
    by eapply Hgone, Hview, (inv_binding_quotas _ _ Hinv _ _ _ E).
  - intros [e Hb]. unfold r, unregister_binding. rewrite Hb. simpl. by rewrite lookup_delete_eq.
  - intros res Hres. unfold release_from. destruct (res_released res); [done|]. rewrite Hres, He.
    by rewrite bool_decide_eq_true_2.
Qed.
End system.

(** * Witnesses: a history with two registrations and one live lease *)

Definition example_lease : option (SelectionLease * RegistryState) :=
  match @select_from_state example_digest 0 health_registry_new example_session example_state with
  | Some (Ok lease, s) => Some (lease, s)
  | _ => None
  end.

Lemma example_reachable :
  exists lease s, example_lease = Some (lease, s) /\
    @sys_reachable example_digest 0 (MkSystem (MkInner s health_registry_new) [lease_reservation lease]).
Proof.
  unfold example_lease.
  assert (Hr : @sys_reachable example_digest 0 (MkSystem (MkInner example_state health_registry_new) [])).
  { eapply sys_next; [eapply sys_next; [apply sys_init|]|].
    - apply (@sys_register example_digest 0 registry_new [] (example_registration "a" 3)); [done|done].
    - apply (@sys_register example_digest 0
        (MkInner (register (example_registration "a" 3) state_new) health_registry_new) []
        (example_registration "b" 2)); [done|done]. }
  destruct (@select_from_state example_digest 0 health_registry_new example_session example_state)
    as [[[lease|err] s]|] eqn:E; [|vm_compute in E; discriminate..].
  exists lease, s. split; [reflexivity|]. eapply sys_next; [exact Hr|].
  exact (@sys_select example_digest 0 (MkInner example_state health_registry_new) [] example_session
    health_registry_new (Ok lease) s eq_refl E).
Qed.

Lemma in_flight_exact_witness :
  exists x b e, @sys_reachable example_digest 0 x /\ rs_entries (ri_state (sys_registry x)) !! b = Some e /\
    e_in_flight e = 1 /\ leases b (e_order e) (sys_live x) = 1.
Proof.
  assert (Hc : is_some_and example_lease (fun ls =>
    is_some_and (rs_entries ls.2 !! res_binding (lease_reservation ls.1)) (fun e => e_in_flight e =? 1)) = true)
    by (vm_compute; reflexivity).
  destruct example_reachable as (lease & s & E & Hr). rewrite E in Hc. unfold is_some_and in Hc. cbn [fst snd] in Hc.
  destruct (rs_entries s !! res_binding (lease_reservation lease)) as [e|] eqn:He; [|discriminate Hc].
  apply N.eqb_eq in Hc.
  exists (MkSystem (MkInner s health_registry_new) [lease_reservation lease]),
    (res_binding (lease_reservation lease)), e.
  split; [exact Hr|]. split; [exact He|]. split; [exact Hc|].
  rewrite <- (proj1 (@in_flight_exact example_digest 0 _ Hr) _ _ He). exact Hc.
Defined.

Lemma registry_tables_consistent_witness :
  exists x, @sys_reachable example_digest 0 x /\ sys_live x <> [] /\
    forall k a, rs_affinity (ri_state (sys_registry x)) !! k = Some a ->
      registered (ri_state (sys_registry x)) (ab_binding a).
Proof.
  destruct example_reachable as (lease & s & E & Hr).
  exists (MkSystem (MkInner s health_registry_new) [lease_reservation lease]).
  split; [exact Hr|]. split; [discriminate|].
  destruct (@registry_tables_consistent example_digest 0 _ Hr) as (_ & _ & _ & Ha & _). exact Ha.
Defined.

Lemma unregister_leaves_no_trace_witness :
  exists x b, @sys_reachable example_digest 0 x /\
    ~ registered (ri_state (unregister_binding b (sys_registry x)).2) b.
Proof.
  destruct example_reachable as (lease & s & E & Hr).
  exists (MkSystem (MkInner s health_registry_new) [lease_reservation lease]),
    (res_binding (lease_reservation lease)).
  split; [exact Hr|]. exact (proj1 (@unregister_leaves_no_trace example_digest 0 _ _ Hr)).
Defined.
