(* ===== verification/Recovery.v ===== *)
(** Quota recovery: a lease whose request ran out of quota is exchanged for a
    lease on another binding, or the retry is refused; in every case the failed
    slot is given back exactly once. *)
From S2P Require Import Prelude Str Time CoreId Capabilities CoreError Classify Retry Binding.
From S2P Require Import Health Quota Explain Telemetry Registration Registry QuotaTable.
From S2P Require Import Evaluate Choose Select Invariant SelectFacts.

Open Scope N_scope.

Section recovery.
Context `{Digest}.

(** A selection never hands out an excluded binding. *)
Lemma select_respects_exclusion inner h request s lease s' :
  select_from_state inner h request s = Some (Ok lease, s') ->
  reg_binding (lease_registration lease) ∉ sr_excluded_bindings request.
Proof.
  intros Hsel. apply select_ok_eligible in Hsel as (e & (_ & _ & Hreq & _) & <-).
  exact (met_excluded_bindings _ _ Hreq).
Qed.

Lemma select_total inner h request s : is_Some (select_from_state inner h request s).
Proof.
  destruct (decide (sr_affinity_ttl request = 0)) as [Hz|Hnz].
  - unfold select_from_state. rewrite Hz. by eexists.
  - destruct (select_spec inner h request s Hnz) as (res & s' & -> & _). by eexists.
Qed.

Lemma apply_failure_total f subject now h :
  is_Some (checked_add now DAY) -> is_Some (apply_failure f subject now h).
Proof. intros [t Ht]. unfold apply_failure. rewrite Ht. repeat case_match; by eexists. Qed.

(** The outcome of a recovery that returned a value: the policy's decision, unless it was to
    retry and no target was left. *)
Definition recovered (failed : SelectionLease) (request : SelectionRequest) (decided : RetryDecision)
    (qr : QuotaRecovery) : Prop :=
  (if is_retry decided then
     (qr_retry_decision qr = decided /\ is_Some (qr_selection qr) /\ qr_no_eligible qr = None) \/
     (qr_retry_decision qr = DoNotRetry NoAlternateTarget /\ qr_selection qr = None /\ is_Some (qr_no_eligible qr))
   else qr_retry_decision qr = decided /\ qr_selection qr = None /\ qr_no_eligible qr = None) /\
  (forall lease, qr_selection qr = Some lease ->
     reg_binding (lease_registration lease) <> res_binding (lease_reservation failed) /\
     reg_binding (lease_registration lease) ∉ sr_excluded_bindings request).

Lemma excluded_both request b l : l ∉ sr_excluded_bindings (exclude_binding request b) ->
  l <> b /\ l ∉ sr_excluded_bindings request.
Proof. simpl. rewrite !elem_of_union, elem_of_singleton. tauto. Qed.

Lemma select_error_cases inner h request s err s' :
  select_from_state inner h request s = Some (Err err, s') ->
  (exists ex, err = NoEligible (sr_model request) ex) \/
  (err = ZeroAffinityTtl /\ sr_affinity_ttl request = 0).
Proof.
  intros Hsel. destruct (decide (sr_affinity_ttl request = 0)) as [Hz|Hnz].
  { unfold select_from_state in Hsel. rewrite Hz in Hsel. injection Hsel as <- _. by right. }
  destruct (select_spec inner h request s Hnz) as (res & s2 & Hsel' & Hres).
  rewrite Hsel in Hsel'. injection Hsel' as <- <-. left.
  destruct (best_priority _) as [p|]; [|by destruct Hres as [_ [ex [= ->]]]; eauto].
  destruct Hres as [(_ & ex & ? & ? & [= ->] & _)|(ev & s1 & rebound & ex & _ & Hfin & _)]; [by eauto|].
  destruct (finish_selection _ _ _ _ _ _). by destruct Hfin.
Qed.

(** The window in which an observation of a registration is kept. *)
Definition recorded_window (b : BindingKey) (registration : CredentialRegistration) (q : QuotaSnapshot)
    (s : RegistryState) : option QuotaSnapshot :=
  match q_scope q with
  | QsCredential | QsCredentialModel => rs_binding_quotas s !! (b, q_unit q)
  | scope => match quota_subject registration scope with Ok subject => rs_quotas s !! (subject, q_unit q) | Err _ => None end
  end.
Definition project_scope (scope : QuotaScope) : bool := match scope with QsProject | QsProjectModel => true | _ => false end.

(** An insertion fails for lack of a project, and does nothing when a window ranks as high. *)
Lemma insert_quota_refused b registration q s :
  match insert_quota_for_binding b registration q s with
  | (Err e, _) => e = MissingQuotaProject /\ project_scope (q_scope q) = true /\ reg_quota_project registration = None
  | (Ok false, _) => exists current, recorded_window b registration q s = Some current /\ quota_cmp q current <> Gt
  | (Ok true, _) => True
  end.
Proof.
  assert (Hsub : forall subject s', insert_quota_subject subject q s = (false, s') ->
    exists current, rs_quotas s !! (subject, q_unit q) = Some current /\ quota_cmp q current <> Gt).
  { intros subject s'. unfold insert_quota_subject. destruct (rs_quotas s !! _) as [current|]; [|done].
    destruct (quota_replaces q current) eqn:E; [done|]. intros _. exists current. split; [done|].
    intros Hgt%quota_replaces_cmp. congruence. }
  assert (Hbind : forall s', insert_binding_quota b q s = (false, s') ->
    exists current, rs_binding_quotas s !! (b, q_unit q) = Some current /\ quota_cmp q current <> Gt).
  { intros s'. unfold insert_binding_quota. destruct (rs_binding_quotas s !! _) as [current|]; [|done].
    destruct (quota_replaces q current) eqn:E; [done|]. intros _. exists current. split; [done|].
    intros Hgt%quota_replaces_cmp. congruence. }
  unfold insert_quota_for_binding, insert_quota, recorded_window, quota_subject.
  destruct (q_scope q); cbn [project_scope];
    try (destruct (insert_binding_quota b q s) as [[] s'] eqn:E; [done|by eapply Hbind]);
    try (destruct (reg_quota_project registration) as [project|]; cbn [ok_or result_bind]; [|done]);
    (match goal with |- context [insert_quota_subject ?subject q s] => destruct (insert_quota_subject subject q s) as [[] s'] eqn:E end;
     [done|by eapply Hsub]).
Qed.

(** The state in which the observation of the failure is recorded: expired windows are gone. *)
Definition release_state (failed : SelectionLease) (now : Instant) (s : RegistryState) : RegistryState :=
  recover_quotas now (purge_expired_affinity now (release_from (lease_reservation failed) s).2).
Lemma released_window b registration q failed now s current :
  recorded_window b registration q (release_state failed now s) = Some current ->
  recorded_window b registration q s = Some current /\ expired_at current now = false.
Proof.
  unfold recorded_window, release_state. cbn [recover_quotas purge_expired_affinity rs_quotas rs_binding_quotas set_binding_quotas set_quotas set_affinity_map].
  assert (rs_quotas (release_from (lease_reservation failed) s).2 = rs_quotas s /\
    rs_binding_quotas (release_from (lease_reservation failed) s).2 = rs_binding_quotas s) as [-> ->].
  { unfold release_from. repeat case_match; done. }
  destruct (q_scope q) eqn:Es; rewrite <- ?Es; try (destruct (quota_subject registration (q_scope q)); [|done]); by intros [? ?%negb_true_iff]%lookup_retain_Some.
Qed.

(** The errors of a recovery, each with its cause. *)
Definition recovery_error (id : N) (failed : SelectionLease) (c : QuotaClassification)
    (request : SelectionRequest) (r : RegistryInner) (e : SelectionError) : Prop :=
  let res := lease_reservation failed in
  let registration := lease_registration failed in
  let proven := exists failure, qc_failure c = Some failure /\
    quota_classification_exhausted c (sr_now request) = true in
  match e with
  | QuotaNotExhausted => ~ proven
  | ForeignLease => res_inner res <> id
  | StaleLease => owns_current_entry res registration (ri_state r) = false
  | MissingQuotaProject => project_scope (q_scope (qc_snapshot c)) = true /\ reg_quota_project registration = None
  | StaleQuotaObservation => exists current,
      recorded_window (res_binding res) registration (qc_snapshot c) (ri_state r) = Some current /\
      expired_at current (sr_now request) = false /\ quota_cmp (qc_snapshot c) current <> Gt
  | ZeroAffinityTtl => sr_affinity_ttl request = 0
  | _ => False
  end.

Lemma recover_locked_cases id failed c failure request policy context r :
  is_Some (checked_add (sr_now request) DAY) ->
  exists result r',
  recover_locked id failed c failure (exclude_binding request (res_binding (lease_reservation failed)))
    policy context r = Some (result, r') /\
  match result with
  | Ok qr =>
      owns_current_entry (lease_reservation failed) (lease_registration failed) (ri_state r) = true /\
      recovered failed request (retry_decide policy failure context) qr
  | Err e => recovery_error id failed c request r e
  end.
Proof.
  intros Hday. unfold recover_locked, recovery_error, recovered.
  set (request' := exclude_binding request _).
  destruct (owns_current_entry _ _ _) eqn:Hown; simpl negb; cbv iota.
  2: { eexists _, _. split; [reflexivity|]. done. }
  change (recover_quotas _ _) with (release_state failed (sr_now request) (ri_state r)).
  pose proof (insert_quota_refused (res_binding (lease_reservation failed)) (lease_registration failed) (qc_snapshot c)
    (release_state failed (sr_now request) (ri_state r))) as Hq.
  destruct (insert_quota_for_binding _ _ _ _) as [[[|]|e] s3].
  2: { destruct Hq as (current & [Hw Hx]%released_window & Hc). eexists _, _. split; [reflexivity|]. by exists current. }
  2: { destruct Hq as [-> Hq]. eexists _, _. split; [reflexivity|]. done. }
  match goal with |- context [apply_failure failure ?subject _ _] =>
    destruct (apply_failure_total failure subject (sr_now request') (ri_health r) Hday) as [[m h] ->] end.
  destruct (retry_decide policy failure context) as [d rd rw reason|reason] eqn:Hd; simpl negb; cbv iota.
  2: { eexists _, _. split; [reflexivity|]. simpl. split_and!; done. }
  destruct (select_total id h request' s3) as [[result s4] Hsel]. rewrite Hsel.
  destruct result as [lease|err].
  - eexists _, _. split; [reflexivity|]. simpl. split; [done|]. split; [left; split_and!; [done|by eexists|done]|].
    intros ? [= <-]. by apply excluded_both, (select_respects_exclusion _ _ _ _ _ _ Hsel).
  - destruct (select_error_cases _ _ _ _ _ _ Hsel) as [[ex ->]|[-> Hz]].
    + eexists _, _. split; [reflexivity|]. simpl. split; [done|]. split; [right; split_and!; [done|done|by eexists]|done].
    + eexists _, _. split; [reflexivity|]. done.
Qed.

(** [C8] Quota recovery is correct and total: at any instant that is at least a day before the
    last one the clock can show (a cooldown may last that long) it returns without panicking.
    A value is returned only for a proven exhaustion of a lease this registry issued and whose
    registration is still current.  When the policy refuses the retry, that refusal is the
    decision and there is neither a lease nor a record; when the policy retries, either its
    decision stands and a replacement lease is handed out, or no target was left, the decision
    says so and the record of the search is there.  The replacement is never the failed binding
    nor one the caller excluded.  Every error is one of six and has its cause: the exhaustion is
    not proven, the lease is of another registry, its registration was replaced or removed, a
    project's quota is exhausted and the account has no project, a window that has not expired ranks at
    least as high as the observation, or the request's affinity has no duration. *)
Theorem recover_quota_correct id failed c request policy context (store : Store) r :
  store !! id = Some r -> is_Some (checked_add (sr_now request) DAY) ->
  exists result store', recover_quota id failed c request policy context store = Some (result, store') /\
  match result with
  | Ok qr => exists failure,
      qc_failure c = Some failure /\ quota_classification_exhausted c (sr_now request) = true /\
      res_inner (lease_reservation failed) = id /\
      owns_current_entry (lease_reservation failed) (lease_registration failed) (ri_state r) = true /\
      recovered failed request
        (retry_decide policy failure
          (with_target_change context (recovery_target_change (q_scope (qc_snapshot c))))) qr
  | Err e => recovery_error id failed c request r e
  end.
Proof.
  intros Hr Hday. unfold recover_quota. destruct (qc_failure c) as [failure|] eqn:Hf.
  2: { eexists _, _. split; [reflexivity|]. simpl. rewrite Hf. by intros (? & ? & _). }
  destruct (quota_classification_exhausted c (sr_now request)) eqn:He; simpl negb; cbv iota.
  2: { eexists _, _. split; [reflexivity|]. simpl. rewrite He. by intros (? & _ & ?). }
  destruct (N.eqb_spec (res_inner (lease_reservation failed)) id) as [Hid|Hid]; simpl negb; cbv iota.
  2: { eexists _, _. split; [reflexivity|]. done. }
  rewrite Hr.
  destruct (recover_locked_cases id failed c failure request policy
    (with_target_change context (recovery_target_change (q_scope (qc_snapshot c)))) r Hday)
    as (result & r' & -> & Hres).
  eexists _, _. split; [reflexivity|]. destruct result as [qr|e]; [|done].
  destruct Hres as [Hown Hrec]. by exists failure.
Qed.
End recovery.

(** * Witness: the only live lease runs out of quota, the other binding replaces it *)

Definition example_exhausted : QuotaClassification :=
  quota_classify quota_classifier_default
    (quota_observation_new SigExhausted QsCredential Tokens) 1.

Definition example_issue : option (SelectionLease * RegistryState) :=
  match @select_from_state example_digest 0 health_registry_new example_session example_state with
  | Some (Ok lease, s) => Some (lease, s)
  | _ => None
  end.

Lemma recover_quota_correct_witness :
  exists failed s qr store',
    example_issue = Some (failed, s) /\
    @recover_quota example_digest 0 failed example_exhausted (at_ example_session 1) retry_policy_default
      (retry_context_new 1 Uncommitted replay_safe) {[ 0 := MkInner s health_registry_new ]}
      = Some (Ok qr, store') /\
    exists lease, qr_selection qr = Some lease /\
      reg_binding (lease_registration lease) <> res_binding (lease_reservation failed).
Proof.
  assert (Hc : is_some_and example_issue (fun ls =>
    match @recover_quota example_digest 0 ls.1 example_exhausted (at_ example_session 1) retry_policy_default
      (retry_context_new 1 Uncommitted replay_safe) {[ 0 := MkInner ls.2 health_registry_new ]} with
    | Some (Ok qr, _) => is_some (qr_selection qr)
    | _ => false
    end) = true) by (vm_compute; reflexivity).
  destruct example_issue as [[failed s]|]; [|discriminate Hc]. unfold is_some_and in Hc. cbn [fst snd] in Hc.
  destruct (@recover_quota_correct example_digest 0 failed example_exhausted (at_ example_session 1)
    retry_policy_default (retry_context_new 1 Uncommitted replay_safe)
    {[ 0 := MkInner s health_registry_new ]} (MkInner s health_registry_new))
    as (result & store' & Hrec & Hres);
    [apply lookup_singleton_eq|vm_compute; eexists; reflexivity|].
  rewrite Hrec in Hc. destruct result as [qr|]; [|discriminate Hc].
  destruct (qr_selection qr) as [lease|] eqn:Hsel; [|discriminate Hc].
  exists failed, s, qr, store'. split; [reflexivity|]. split; [exact Hrec|]. exists lease. split; [exact Hsel|].
  destruct Hres as (failure & _ & _ & _ & _ & _ & Hlease). exact (proj1 (Hlease lease Hsel)).
Defined.
