(* ===== verification/Bytes.v ===== *)
(** Byte sequences of the wire codecs: UTF-8 validation as the byte automaton of
    [str::from_utf8], the [str] functions the codecs use on ASCII separators, and
    the interface of an incremental decoder with what follows from its laws. *)
From S2P Require Import Prelude Str.

Open Scope N_scope.

Abbreviation bytes := (list N).

Definition blen (l : bytes) : N := N.of_nat (length l).

Definition LF : N := 0x0A.
Definition CR : N := 0x0D.
Definition SPACE : N := 0x20.
Definition COLON : N := 0x3A.

(** * UTF-8 *)

(** What the validator expects next: nothing ([U0]), that many continuation
    bytes, or a restricted second byte after E0, ED, F0 and F4. *)
Inductive Utf8State := U0 | U1 | U2 | U3 | UE0 | UED | UF0 | UF4.

Definition utf8_lead (b : N) : option Utf8State :=
  if b <? 0x80 then Some U0
  else if in_range b 0xC2 0xDF then Some U1
  else if b =? 0xE0 then Some UE0
  else if b =? 0xED then Some UED
  else if in_range b 0xE1 0xEF then Some U2
  else if b =? 0xF0 then Some UF0
  else if in_range b 0xF1 0xF3 then Some U3
  else if b =? 0xF4 then Some UF4
  else None.

Definition utf8_step (s : Utf8State) (b : N) : option Utf8State :=
  match s with
  | U0 => utf8_lead b
  | U1 => if in_range b 0x80 0xBF then Some U0 else None
  | U2 => if in_range b 0x80 0xBF then Some U1 else None
  | U3 => if in_range b 0x80 0xBF then Some U2 else None
  | UE0 => if in_range b 0xA0 0xBF then Some U1 else None
  | UED => if in_range b 0x80 0x9F then Some U1 else None
  | UF0 => if in_range b 0x90 0xBF then Some U2 else None
  | UF4 => if in_range b 0x80 0x8F then Some U2 else None
  end.

Fixpoint utf8_run (s : Utf8State) (l : bytes) : option Utf8State :=
  match l with
  | [] => Some s
  | b :: l => match utf8_step s b with Some s => utf8_run s l | None => None end
  end.

Definition utf8_valid (l : bytes) : bool :=
  match utf8_run U0 l with Some U0 => true | _ => false end.

Lemma utf8_run_app s l k :
  utf8_run s (l ++ k) = match utf8_run s l with Some s => utf8_run s k | None => None end.
Proof. revert s. induction l as [|b l IH]; intros s; simpl; [done|]. by destruct (utf8_step s b). Qed.

Lemma utf8_step_ascii s b s' : b < 0x80 -> utf8_step s b = Some s' -> s = U0 /\ s' = U0.
Proof.
  intros Hb. destruct s; simpl; unfold utf8_lead.
  1: { destruct (N.ltb_spec b 0x80); [by intros [= <-]|lia]. }
  all: unfold in_range; case_match; [|done]; rewrite andb_true_iff, !N.leb_le in *; lia.
Qed.

Lemma utf8_valid_app l k : utf8_valid l = true -> utf8_valid k = true -> utf8_valid (l ++ k) = true.
Proof.
  unfold utf8_valid. rewrite utf8_run_app. destruct (utf8_run U0 l) as [[]|]; done.
Qed.

(** An ASCII byte separates valid text. *)
Lemma utf8_valid_split l b k :
  b < 0x80 -> utf8_valid (l ++ b :: k) = true -> utf8_valid l = true /\ utf8_valid k = true.
Proof.
  intros Hb. unfold utf8_valid. rewrite utf8_run_app. destruct (utf8_run U0 l) as [s|]; [|done]. simpl.
  destruct (utf8_step s b) as [s'|] eqn:E; [|done].
  by apply utf8_step_ascii in E as [-> ->].
Qed.

Lemma utf8_valid_ascii l : Forall (fun b => b < 0x80) l -> utf8_valid l = true.
Proof.
  unfold utf8_valid. induction 1 as [|b l Hb _ IH]; simpl; [done|].
  unfold utf8_lead. destruct (N.ltb_spec b 0x80); [done|lia].
Qed.

(** A string of the source: its bytes are UTF-8. *)
Definition is_str (s : string) : Prop := utf8_valid (bytes_of s) = true.

Lemma lor_ge_l a b : 0x80 <= a -> 0x80 <= N.lor a b.
Proof.
  intros H. apply N.le_ngt. intros Hlt. assert (E : N.shiftr (N.lor a b) 7 = 0)
    by (rewrite N.shiftr_div_pow2; by apply N.div_small).
  rewrite N.shiftr_lor in E. apply N.lor_eq_0_iff in E as [Ea _].
  rewrite N.shiftr_div_pow2 in Ea. apply N.div_small_iff in Ea; [|done].
  change (2 ^ 7) with 0x80 in Ea. lia.
Qed.

Lemma lor_ge_r a b : 0x80 <= b -> 0x80 <= N.lor a b.
Proof. rewrite N.lor_comm. apply lor_ge_l. Qed.

(** The payload bits of a byte, shifted. *)
Lemma payload_ge b n k m : m <= b mod 2 ^ n -> 0x80 <= m * 2 ^ k -> 0x80 <= N.shiftl (N.land b (N.ones n)) k.
Proof. intros H1 H2. rewrite N.land_ones, N.shiftl_mul_pow2. nia. Qed.

Lemma in_range_true c lo hi : in_range c lo hi = true -> lo <= c <= hi.
Proof. unfold in_range. by intros [?%N.leb_le ?%N.leb_le]%andb_true_iff. Qed.

(** The lead bytes of multi-byte characters. *)
Lemma utf8_lead_multi b s :
  0x80 <= b -> utf8_lead b = Some s ->
  (s = U1 /\ 0xC2 <= b <= 0xDF) \/ (s = UE0 /\ b = 0xE0) \/ ((s = UED \/ s = U2) /\ 0xE1 <= b <= 0xEF) \/
  (s = UF0 /\ b = 0xF0) \/ ((s = U3 \/ s = UF4) /\ 0xF1 <= b <= 0xF4).
Proof.
  intros Hb. unfold utf8_lead. destruct (N.ltb_spec b 0x80); [lia|].
  destruct (in_range b 0xC2 0xDF) eqn:E1; [apply in_range_true in E1; intros [= <-]; tauto|].
  destruct (N.eqb_spec b 0xE0); [intros [= <-]; tauto|].
  destruct (N.eqb_spec b 0xED); [intros [= <-]; assert (0xE1 <= b <= 0xEF) by lia; tauto|].
  destruct (in_range b 0xE1 0xEF) eqn:E2; [apply in_range_true in E2; intros [= <-]; tauto|].
  destruct (N.eqb_spec b 0xF0); [intros [= <-]; tauto|].
  destruct (in_range b 0xF1 0xF3) eqn:E3.
  { apply in_range_true in E3. intros [= <-]. assert (0xF1 <= b <= 0xF4) by lia. tauto. }
  destruct (N.eqb_spec b 0xF4); [intros [= <-]; assert (0xF1 <= b <= 0xF4) by lia; tauto|done].
Qed.

Lemma utf8_run_cont s l :
  utf8_run s l = Some U0 -> s <> U0 ->
  exists b l' s', l = b :: l' /\ utf8_step s b = Some s' /\ utf8_run s' l' = Some U0.
Proof.
  destruct l as [|b l]; simpl; [by intros [= ->]|]. destruct (utf8_step s b) as [s'|] eqn:E; [|done]. eauto 6.
Qed.

Lemma mod_ge b d lo hi : d <> 0 -> lo / d = hi / d -> lo <= b <= hi -> lo mod d <= b mod d.
Proof.
  intros Hd Hq [H1 H2]. pose proof (N.Div0.div_le_mono _ _ d H1). pose proof (N.Div0.div_le_mono _ _ d H2).
  pose proof (N.div_mod b d Hd). pose proof (N.div_mod lo d Hd).
  assert (b / d = lo / d) as Hb by lia. rewrite Hb in *. lia.
Qed.

(** A multi-byte character of valid text is not ASCII. *)
Lemma multi_byte_char b r :
  0x80 <= b -> utf8_valid (b :: r) = true -> exists c cs, char_spans (b :: r) = c :: cs /\ 0x80 <= c.1.
Proof.
  intros Hb Hv. unfold utf8_valid in Hv. cbn [utf8_run utf8_step] in Hv.
  destruct (utf8_lead b) as [s|] eqn:El; [|done].
  assert (Hr : utf8_run s r = Some U0) by (destruct (utf8_run s r) as [[]|]; done). clear Hv.
  apply utf8_lead_multi in El; [|done]. cbn [char_spans]. destruct (N.ltb_spec b 0x80); [lia|].
  change 0x1F with (N.ones 5). change 0x0F with (N.ones 4). change 0x07 with (N.ones 3). change 0x3F with (N.ones 6).
  destruct El as [[-> Hrng]|[[-> ->]|[[Hs Hrng]|[[-> ->]|[Hs Hrng]]]]].
  - apply utf8_run_cont in Hr as (b1 & r1 & s1 & -> & _ & _); [|done].
    destruct (N.ltb_spec b 0xE0); [|lia]. eexists _, _. split; [reflexivity|]. apply lor_ge_l.
    apply (payload_ge _ _ _ 2); [|done]. by apply (mod_ge b 32 0xC2 0xDF).
  - apply utf8_run_cont in Hr as (b1 & r1 & s1 & -> & E1 & Hr); [|done]. simpl in E1.
    destruct (in_range b1 0xA0 0xBF) eqn:E; [|done]. apply in_range_true in E. injection E1 as <-.
    apply utf8_run_cont in Hr as (b2 & r2 & s2 & -> & _ & _); [|done].
    eexists _, _. split; [reflexivity|]. apply lor_ge_r, lor_ge_l.
    apply (payload_ge _ _ _ 32); [|done]. by apply (mod_ge b1 64 0xA0 0xBF).
  - apply utf8_run_cont in Hr as (b1 & r1 & s1 & -> & E1 & Hr); [|by destruct Hs as [-> | ->]].
    assert (Hs1 : s1 = U1) by (destruct Hs as [-> | ->]; simpl in E1; case_match; congruence).
    subst s1. apply utf8_run_cont in Hr as (b2 & r2 & s2 & -> & _ & _); [|done].
    destruct (N.ltb_spec b 0xE0); [lia|]. destruct (N.ltb_spec b 0xF0); [|lia].
    eexists _, _. split; [reflexivity|]. apply lor_ge_l.
    apply (payload_ge _ _ _ 1); [|done]. by apply (mod_ge b 16 0xE1 0xEF).
  - apply utf8_run_cont in Hr as (b1 & r1 & s1 & -> & E1 & Hr); [|done]. simpl in E1.
    destruct (in_range b1 0x90 0xBF) eqn:E; [|done]. apply in_range_true in E. injection E1 as <-.
    apply utf8_run_cont in Hr as (b2 & r2 & s2 & -> & E2 & Hr); [|done].
    assert (Hs2 : s2 = U1) by (simpl in E2; case_match; congruence). subst s2.
    apply utf8_run_cont in Hr as (b3 & r3 & s3 & -> & _ & _); [|done].
    eexists _, _. split; [reflexivity|]. apply lor_ge_r, lor_ge_l.
    apply (payload_ge _ _ _ 16); [|done]. by apply (mod_ge b1 64 0x90 0xBF).
  - apply utf8_run_cont in Hr as (b1 & r1 & s1 & -> & E1 & Hr); [|by destruct Hs as [-> | ->]].
    assert (Hs1 : s1 = U2) by (destruct Hs as [-> | ->]; simpl in E1; case_match; congruence).
    subst s1. apply utf8_run_cont in Hr as (b2 & r2 & s2 & -> & E2 & Hr); [|done].
    assert (Hs2 : s2 = U1) by (simpl in E2; case_match; congruence). subst s2.
    apply utf8_run_cont in Hr as (b3 & r3 & s3 & -> & _ & _); [|done].
    destruct (N.ltb_spec b 0xE0); [lia|]. destruct (N.ltb_spec b 0xF0); [lia|].
    eexists _, _. split; [reflexivity|]. apply lor_ge_l.
    apply (payload_ge _ _ _ 1); [|done]. by apply (mod_ge b 8 0xF1 0xF4).
Qed.

(** Text whose characters are all ASCII has only ASCII bytes. *)
Lemma ascii_bytes l :
  utf8_valid l = true -> Forall (fun c => c < 0x80) (char_spans l).*1 -> Forall (fun b => b < 0x80) l.
Proof.
  induction l as [|b l IH]; [constructor|]. intros Hv Hc. destruct (N.lt_ge_cases b 0x80) as [Hb|Hb].
  - constructor; [done|]. apply IH.
    + by apply (utf8_valid_split [] b l) in Hv as [_ ?].
    + cbn [char_spans] in Hc. destruct (N.ltb_spec b 0x80); [|lia]. by apply Forall_cons in Hc as [_ ?].
  - destruct (multi_byte_char b l Hb Hv) as (c & cs & E & Hge). rewrite E in Hc.
    apply Forall_cons in Hc as [Hc _]. lia.
Qed.

(** * Functions of [str] at an ASCII separator *)

(** [split_once]. *)
Fixpoint split_once (sep : N) (l : bytes) : option (bytes * bytes) :=
  match l with
  | [] => None
  | b :: l =>
    if b =? sep then Some ([], l)
    else match split_once sep l with Some (x, y) => Some (b :: x, y) | None => None end
  end.

(** [strip_prefix] of one byte, or the text itself. *)
Definition strip_byte (c : N) (l : bytes) : bytes :=
  match l with b :: l' => if b =? c then l' else l | [] => [] end.

(** [strip_suffix] of one byte. *)
Definition strip_last (c : N) (l : bytes) : option bytes :=
  match last l with Some b => if b =? c then Some (removelast l) else None | None => None end.

Definition has_byte (c : N) (l : bytes) : bool := existsb (fun b => b =? c) l.

Lemma split_once_app sep l k :
  has_byte sep l = false -> split_once sep (l ++ sep :: k) = Some (l, k).
Proof.
  induction l as [|b l IH]; simpl; [by rewrite N.eqb_refl|].
  intros [-> H]%orb_false_iff. by rewrite IH.
Qed.

Lemma strip_last_snoc c l : strip_last c (l ++ [c]) = Some l.
Proof. unfold strip_last. by rewrite last_snoc, N.eqb_refl, removelast_last. Qed.

Lemma has_byte_app c l k : has_byte c (l ++ k) = has_byte c l || has_byte c k.
Proof. apply existsb_app. Qed.

Lemma blen_app l k : blen (l ++ k) = blen l + blen k.
Proof. unfold blen. rewrite length_app. lia. Qed.

(** * Incremental decoders *)

(** A decoder is fed the chunks of a transport in order and returns the items
    each chunk completes. *)
Class IncrementalDecoder (St Item Er : Type) :=
  feed : St -> bytes -> Result (list Item * St) Er.

(** What a decoder promises of its reachable states ([ok]): the transport's chunk
    boundaries do not matter. *)
Class DecoderLaws {St Item Er} `(D : IncrementalDecoder St Item Er) (ok : St -> Prop) : Prop := {
  feed_nil : forall s, ok s -> feed s [] = Ok ([], s);
  feed_ok : forall s a xs s', ok s -> feed s a = Ok (xs, s') -> ok s';
  feed_app : forall s a b, ok s -> feed s (a ++ b) =
    let? (xs, s1) := feed s a in let? (ys, s2) := feed s1 b in Ok (xs ++ ys, s2);
}.

Section decoder.
Context {St Item Er : Type} `{D : IncrementalDecoder St Item Er}.

(** The chunks of a transport fed one after the other: all items and the state after
    them, or the error of the first chunk that fails.  The items of the chunks before
    that one, which a consumer already has then, are not part of the error. *)
Fixpoint feed_chunks (s : St) (chunks : list bytes) : Result (list Item * St) Er :=
  match chunks with
  | [] => Ok ([], s)
  | c :: chunks => let? (xs, s) := feed s c in let? (ys, s) := feed_chunks s chunks in Ok (xs ++ ys, s)
  end.

Context {ok : St -> Prop} {L : DecoderLaws D ok}.

Lemma feed_chunks_concat s chunks : ok s -> feed_chunks s chunks = feed s (concat chunks).
Proof.
  revert s. induction chunks as [|c chunks IH]; intros s Hs; simpl; [by rewrite feed_nil|].
  rewrite feed_app by done. destruct (feed s c) as [[xs s1]|e] eqn:E; simpl; [|done].
  rewrite IH; [done|]. by eapply feed_ok.
Qed.
End decoder.
