(* ===== verification/Sse.v ===== *)
(** Server-sent events framing (crates/pooler-http/src/sse.rs): the incremental
    parser and the encoder.

    A [String] or [Vec<u8>] is its list of bytes.  An error of the parser ends
    the stream: the state it leaves behind is not part of the model. *)
From S2P Require Import Prelude Str Bytes.

Open Scope N_scope.

(** * Data *)

Record SseLimits := MkSseLimits { max_line_bytes : N; max_event_bytes : N }.

Definition DEFAULT_SSE_MAX_LINE_BYTES : N := 64 * 1024.
Definition DEFAULT_SSE_MAX_EVENT_BYTES : N := 16 * 1024 * 1024.
Definition sse_limits_default : SseLimits :=
  MkSseLimits DEFAULT_SSE_MAX_LINE_BYTES DEFAULT_SSE_MAX_EVENT_BYTES.

Record SseEvent := MkSseEvent { sse_event : option bytes; sse_data : bytes; sse_id : option bytes }.

Definition sse_event_new (data : bytes) : SseEvent := MkSseEvent None data None.
Definition sse_with_event (e : SseEvent) (event : bytes) : SseEvent :=
  MkSseEvent (Some event) (sse_data e) (sse_id e).
Definition sse_with_id (e : SseEvent) (id : bytes) : SseEvent :=
  MkSseEvent (sse_event e) (sse_data e) (Some id).
Definition sse_is_done (e : SseEvent) : bool :=
  is_none (sse_event e) && beq (sse_data e) (bytes_of "[DONE]").

Inductive SseError :=
| LineTooLarge (limit observed : N)
| EventTooLarge (limit observed : N)
| InvalidUtf8
| Incomplete (pending : N)
| InvalidField (field : string).

Record SseParser := MkSseParser {
  sp_limits : SseLimits;
  sp_line : bytes;
  sp_pending_cr : bool;
  sp_event_name : option bytes;
  sp_data : bytes;
  sp_has_data : bool;
  sp_last_event_id : option bytes;
  sp_event_bytes : N;
}.

Definition sse_parser_with_limits (limits : SseLimits) : SseParser :=
  MkSseParser limits [] false None [] false None 0.
Definition sse_parser_new : SseParser := sse_parser_with_limits sse_limits_default.

(** * Parser *)

Definition set_pending_cr (cr : bool) (p : SseParser) : SseParser :=
  MkSseParser (sp_limits p) (sp_line p) cr (sp_event_name p) (sp_data p) (sp_has_data p)
    (sp_last_event_id p) (sp_event_bytes p).

Definition push_line_byte (byte : N) (p : SseParser) : Result SseParser SseError :=
  let observed := sat_add USIZE_MAX (blen (sp_line p)) 1 in
  if max_line_bytes (sp_limits p) <? observed
  then Err (LineTooLarge (max_line_bytes (sp_limits p)) observed)
  else Ok (MkSseParser (sp_limits p) (sp_line p ++ [byte]) (sp_pending_cr p) (sp_event_name p)
             (sp_data p) (sp_has_data p) (sp_last_event_id p) (sp_event_bytes p)).

(** [process_line] on a non-empty line that is not a comment. *)
Definition process_field (field value : bytes) (p : SseParser) : SseParser :=
  if beq field (bytes_of "event") then
    MkSseParser (sp_limits p) (sp_line p) (sp_pending_cr p) (Some value) (sp_data p) (sp_has_data p)
      (sp_last_event_id p) (sp_event_bytes p)
  else if beq field (bytes_of "data") then
    MkSseParser (sp_limits p) (sp_line p) (sp_pending_cr p) (sp_event_name p)
      (sp_data p ++ value ++ [LF]) true (sp_last_event_id p) (sp_event_bytes p)
  else if beq field (bytes_of "id") then
    if has_byte 0 value then p
    else MkSseParser (sp_limits p) (sp_line p) (sp_pending_cr p) (sp_event_name p) (sp_data p)
           (sp_has_data p) (Some value) (sp_event_bytes p)
  else p.

Definition starts_with_colon (line : bytes) : bool :=
  match line with b :: _ => b =? COLON | [] => false end.

Definition is_empty_bytes (l : bytes) : bool := match l with [] => true | _ => false end.

Definition process_line (line : bytes) (p : SseParser) : list SseEvent * SseParser :=
  match line with
  | [] =>
    let events :=
      if sp_has_data p then
        [MkSseEvent (opt_filter (sp_event_name p) (fun e => negb (is_empty_bytes e)))
           (default [] (strip_last LF (sp_data p))) (sp_last_event_id p)]
      else [] in
    (events, MkSseParser (sp_limits p) (sp_line p) (sp_pending_cr p) None [] false
               (sp_last_event_id p) 0)
  | _ =>
    if starts_with_colon line then ([], p)
    else
      let '(field, value) := default (line, []) (split_once COLON line) in
      ([], process_field field (strip_byte SPACE value) p)
  end.

Definition add_event_bytes (n : N) (p : SseParser) : Result SseParser SseError :=
  let total := sat_add USIZE_MAX (sp_event_bytes p) n in
  if max_event_bytes (sp_limits p) <? total
  then Err (EventTooLarge (max_event_bytes (sp_limits p)) total)
  else Ok (MkSseParser (sp_limits p) (sp_line p) (sp_pending_cr p) (sp_event_name p) (sp_data p)
             (sp_has_data p) (sp_last_event_id p) total).

Definition clear_line (p : SseParser) : SseParser :=
  MkSseParser (sp_limits p) [] (sp_pending_cr p) (sp_event_name p) (sp_data p) (sp_has_data p)
    (sp_last_event_id p) (sp_event_bytes p).

Definition finish_line (line_ending_bytes : N) (p : SseParser)
  : Result (list SseEvent * SseParser) SseError :=
  if negb (utf8_valid (sp_line p)) then Err InvalidUtf8
  else
    let? p :=
      if starts_with_colon (sp_line p) then Ok p
      else add_event_bytes (sat_add USIZE_MAX (blen (sp_line p)) line_ending_bytes) p in
    let '(events, p) := process_line (sp_line p) p in
    Ok (events, clear_line p).

(** The [match byte] of the loop. *)
Definition accept_byte (byte : N) (p : SseParser) : Result (list SseEvent * SseParser) SseError :=
  if byte =? CR then Ok ([], set_pending_cr true p)
  else if byte =? LF then finish_line 1 p
  else let? p := push_line_byte byte p in Ok ([], p).

(** One turn of the loop of [feed]. *)
Definition feed_byte (byte : N) (p : SseParser) : Result (list SseEvent * SseParser) SseError :=
  if sp_pending_cr p then
    let? (events, p) := finish_line (if byte =? LF then 2 else 1) (set_pending_cr false p) in
    if byte =? LF then Ok (events, p)
    else let? (more, p) := accept_byte byte p in Ok (events ++ more, p)
  else accept_byte byte p.

Fixpoint sse_feed (p : SseParser) (chunk : bytes) : Result (list SseEvent * SseParser) SseError :=
  match chunk with
  | [] => Ok ([], p)
  | byte :: chunk =>
    let? (events, p) := feed_byte byte p in
    let? (more, p) := sse_feed p chunk in
    Ok (events ++ more, p)
  end.

Definition pending_bytes (p : SseParser) : N :=
  sat_add USIZE_MAX (sat_add USIZE_MAX (blen (sp_line p)) (blen (sp_data p))) (sp_event_bytes p).

Definition sse_finish (p : SseParser) : Result (list SseEvent * SseParser) SseError :=
  let? (events, p) :=
    if sp_pending_cr p then finish_line 1 (set_pending_cr false p) else Ok ([], p) in
  if negb (is_empty_bytes (sp_line p)) then Err (Incomplete (pending_bytes p))
  else if sp_has_data p || is_some (sp_event_name p) || negb (sp_event_bytes p =? 0)
  then Err (Incomplete (pending_bytes p))
  else Ok (events, p).

#[export] Instance sse_decoder : IncrementalDecoder SseParser SseEvent SseError := sse_feed.

(** * Encoder *)

Definition push_line (output line : bytes) (limits : SseLimits) : Result bytes SseError :=
  if max_line_bytes limits <? blen line
  then Err (LineTooLarge (max_line_bytes limits) (blen line))
  else
    let observed := sat_add USIZE_MAX (sat_add USIZE_MAX (blen output) (blen line)) 1 in
    if max_event_bytes limits <? observed
    then Err (EventTooLarge (max_event_bytes limits) observed)
    else Ok (output ++ line ++ [LF]).

(** An extra space before a value that starts with one. *)
Definition guard_space (value : bytes) : bytes :=
  match value with b :: _ => if b =? SPACE then [SPACE] else [] | [] => [] end.

Definition push_field (output : bytes) (field : string) (value : bytes) (limits : SseLimits)
  : Result bytes SseError :=
  if has_byte CR value || has_byte LF value then Err (InvalidField field)
  else push_line output (bytes_of field ++ [COLON] ++ guard_space value ++ value) limits.

Definition push_data_line (output data : bytes) (limits : SseLimits) : Result bytes SseError :=
  push_line output (bytes_of "data:" ++ guard_space data ++ data) limits.

(** The loop of [push_data_lines]: [start] holds the bytes since the last line
    break, [rest] those still to read. *)
Fixpoint push_data_lines_from (output start rest : bytes) (limits : SseLimits)
  : Result bytes SseError :=
  match rest with
  | [] => push_data_line output start limits
  | b :: rest =>
    if b =? CR then
      let? output := push_data_line output start limits in
      match rest with
      | c :: rest' =>
        if c =? LF then push_data_lines_from output [] rest' limits
        else push_data_lines_from output [] rest limits
      | [] => push_data_lines_from output [] rest limits
      end
    else if b =? LF then
      let? output := push_data_line output start limits in
      push_data_lines_from output [] rest limits
    else push_data_lines_from output (start ++ [b]) rest limits
  end.

Definition push_data_lines (output data : bytes) (limits : SseLimits) : Result bytes SseError :=
  push_data_lines_from output [] data limits.

Definition push_optional (output : bytes) (field : string) (value : option bytes) (limits : SseLimits)
  : Result bytes SseError :=
  match value with Some v => push_field output field v limits | None => Ok output end.

Definition sse_encode (limits : SseLimits) (event : SseEvent) : Result bytes SseError :=
  let? output := push_optional [] "event" (sse_event event) limits in
  let? output := push_optional output "id" (sse_id event) limits in
  let? output := push_data_lines output (sse_data event) limits in
  push_line output [] limits.

(** * What the server-sent events codec guarantees: chunk boundaries do not matter,
      encoded events are parsed back, and the parser's memory is bounded. *)

(** * Chunk boundaries *)

#[export] Instance sse_laws : DecoderLaws sse_decoder (fun _ => True).
Proof.
  split; [done|done|]. intros p a b _. revert p. unfold feed, sse_decoder.
  induction a as [|byte a IH]; intros p; simpl.
  - destruct (sse_feed p b) as [[ys p2]|e]; done.
  - destruct (feed_byte byte p) as [[xs p1]|e]; simpl; [|done]. rewrite IH.
    destruct (sse_feed p1 a) as [[ys p2]|e]; simpl; [|done].
    destruct (sse_feed p2 b) as [[zs p3]|e]; simpl; [|done]. by rewrite app_assoc.
Qed.

(** * Round trip *)

(** What the parser recovers of the data: every line ending becomes a newline. *)
Fixpoint normalize_newlines (l : bytes) : bytes :=
  match l with
  | [] => []
  | b :: l =>
    if b =? CR then
      match l with
      | c :: l' => if c =? LF then LF :: normalize_newlines l' else LF :: normalize_newlines l
      | [] => [LF]
      end
    else b :: normalize_newlines l
  end.

(** The identifier in effect after an event. *)
Definition next_id (last : option bytes) (e : SseEvent) : option bytes :=
  match sse_id e with
  | Some id => if has_byte 0 id then last else Some id
  | None => last
  end.

Definition decoded (last : option bytes) (e : SseEvent) : SseEvent :=
  MkSseEvent (opt_filter (sse_event e) (fun n => negb (is_empty_bytes n)))
    (normalize_newlines (sse_data e)) (next_id last e).

Fixpoint decoded_stream (last : option bytes) (events : list SseEvent) : list SseEvent :=
  match events with
  | [] => []
  | e :: events => decoded last e :: decoded_stream (next_id last e) events
  end.

Fixpoint encode_stream (limits : SseLimits) (events : list SseEvent) : Result bytes SseError :=
  match events with
  | [] => Ok []
  | e :: events =>
    let? out := sse_encode limits e in
    let? rest := encode_stream limits events in
    Ok (out ++ rest)
  end.

(** The fields of an event are Rust strings. *)
Definition event_utf8 (e : SseEvent) : Prop :=
  utf8_valid (sse_data e) = true /\
  (forall n, sse_event e = Some n -> utf8_valid n = true) /\
  (forall i, sse_id e = Some i -> utf8_valid i = true).

(** A parser between two lines of a record of which [out] was read. *)
Definition between (limits : SseLimits) (name : option bytes) (data : bytes) (has : bool)
    (id : option bytes) (out : bytes) : SseParser :=
  MkSseParser limits [] false name data has id (N.min USIZE_MAX (blen out)).

Definition plain_line (l : bytes) : Prop := Forall (fun b => b <> CR /\ b <> LF) l.

Ltac solve_plain := repeat constructor; unfold CR, LF, SPACE, COLON; discriminate.

Lemma plain_line_has l : has_byte CR l || has_byte LF l = false -> plain_line l.
Proof.
  intros [H1 H2]%orb_false_iff. apply Forall_forall. intros b Hb.
  split; intros ->.
  - rewrite <- not_true_iff_false in H1. apply H1, existsb_exists. exists CR. split; [|done].
    by apply list_elem_of_In.
  - rewrite <- not_true_iff_false in H2. apply H2, existsb_exists. exists LF. split; [|done].
    by apply list_elem_of_In.
Qed.

Definition with_line (l : bytes) (p : SseParser) : SseParser :=
  MkSseParser (sp_limits p) l (sp_pending_cr p) (sp_event_name p) (sp_data p) (sp_has_data p)
    (sp_last_event_id p) (sp_event_bytes p).

(** The bytes of one line, without its ending, are only collected. *)
Lemma feed_plain p line :
  plain_line line -> sp_pending_cr p = false ->
  blen (sp_line p) + blen line <= max_line_bytes (sp_limits p) ->
  sse_feed p line = Ok ([], with_line (sp_line p ++ line) p).
Proof.
  intros Hl. revert p. induction Hl as [|b line [Hcr Hlf] _ IH]; intros p Hp Hlen; simpl.
  - rewrite app_nil_r. by destruct p.
  - unfold feed_byte. rewrite Hp. unfold accept_byte.
    rewrite (proj2 (N.eqb_neq _ _) Hcr), (proj2 (N.eqb_neq _ _) Hlf). unfold push_line_byte.
    unfold blen in Hlen. simpl length in Hlen.
    destruct (N.ltb_spec (max_line_bytes (sp_limits p)) (sat_add USIZE_MAX (blen (sp_line p)) 1)) as [H|H].
    { unfold sat_add, blen in H. lia. }
    simpl. rewrite IH; simpl; [by rewrite <- app_assoc|done|].
    rewrite blen_app. unfold blen. simpl. lia.
Qed.

(** A line of the encoder, with its newline. *)
Lemma feed_line limits name data has id out line out' :
  push_line out line limits = Ok out' -> plain_line line -> utf8_valid line = true ->
  starts_with_colon line = false ->
  out' = out ++ line ++ [LF] /\
  sse_feed (between limits name data has id out) (line ++ [LF]) =
    let '(events, p) := process_line line
      (MkSseParser limits line false name data has id (N.min USIZE_MAX (blen out'))) in
    Ok (events, clear_line p).
Proof.
  unfold push_line. intros Hpush Hplain Hutf Hcolon.
  destruct (N.ltb_spec (max_line_bytes limits) (blen line)) as [|Hline]; [done|].
  destruct (N.ltb_spec (max_event_bytes limits)
    (sat_add USIZE_MAX (sat_add USIZE_MAX (blen out) (blen line)) 1)) as [|Hevent]; [done|].
  injection Hpush as <-. split; [done|].
  pose proof (feed_app (between limits name data has id out) line [LF] I) as Happ.
  unfold feed, sse_decoder in Happ. rewrite Happ, feed_plain by done. clear Happ. simpl.
  unfold feed_byte, accept_byte. simpl. unfold finish_line. simpl. rewrite Hutf, Hcolon. simpl.
  unfold add_event_bytes. simpl.
  assert (Htot : sat_add USIZE_MAX (N.min USIZE_MAX (blen out)) (sat_add USIZE_MAX (blen line) 1) =
    N.min USIZE_MAX (blen (out ++ line ++ [LF]))).
  { rewrite !blen_app. unfold sat_add. change (blen [LF]) with 1. lia. }
  rewrite Htot.
  destruct (N.ltb_spec (max_event_bytes limits) (N.min USIZE_MAX (blen (out ++ line ++ [LF])))) as [H|H].
  { rewrite !blen_app in H. unfold sat_add in Hevent. change (blen [LF]) with 1 in H. lia. }
  simpl. destruct (process_line line _) as [events p]. simpl. by rewrite app_nil_r.
Qed.

(** [out] was read from the start of a record, without dispatching. *)
Definition reads (limits : SseLimits) (last : option bytes) (out : bytes) (p : SseParser) : Prop :=
  sse_feed (between limits None [] false last []) out = Ok ([], p).

Lemma reads_app limits last out p more events p' :
  reads limits last out p -> sse_feed p more = Ok (events, p') ->
  sse_feed (between limits None [] false last []) (out ++ more) = Ok (events, p').
Proof.
  intros Hr Hm. pose proof (feed_app (between limits None [] false last []) out more I) as Happ.
  unfold feed, sse_decoder in Happ. unfold reads in Hr. rewrite Hr in Happ. simpl in Happ.
  rewrite Hm in Happ. exact Happ.
Qed.

Lemma strip_guard v : strip_byte SPACE (guard_space v ++ v) = v.
Proof.
  destruct v as [|b v]; [done|]. unfold guard_space. destruct (N.eqb_spec b SPACE) as [->|Hne]; simpl; [done|].
  by rewrite (proj2 (N.eqb_neq _ _) Hne).
Qed.

Lemma guard_plain v : plain_line v -> plain_line (guard_space v ++ v).
Proof.
  intros H. apply Forall_app. split; [|done]. destruct v as [|b v]; simpl; [constructor|].
  destruct (b =? SPACE); solve_plain.
Qed.

Lemma guard_utf8 v : utf8_valid v = true -> utf8_valid (guard_space v ++ v) = true.
Proof.
  intros H. apply utf8_valid_app; [|done]. destruct v as [|b v]; simpl; [done|]. by destruct (b =? SPACE).
Qed.

(** A line [field ":" value] of the encoder. *)
Definition field_line (field : string) (v : bytes) : bytes := bytes_of field ++ [COLON] ++ guard_space v ++ v.

Definition field_name (field : string) : Prop :=
  plain_line (bytes_of field) /\ utf8_valid (bytes_of field) = true /\
  has_byte COLON (bytes_of field) = false /\ bytes_of field <> [].

Lemma process_field_line field v p :
  field_name field -> process_line (field_line field v) p = ([], process_field (bytes_of field) v p).
Proof.
  intros (_ & _ & Hcolon & Hne). unfold field_line, process_line.
  destruct (bytes_of field) as [|b f] eqn:E; [done|]. simpl in Hcolon |- *.
  apply orb_false_iff in Hcolon as [Hb Hf]. rewrite Hb.
  change (f ++ COLON :: guard_space v ++ v) with (f ++ COLON :: (guard_space v ++ v)).
  rewrite split_once_app by done. simpl. by rewrite strip_guard.
Qed.

Lemma field_line_ok field v :
  field_name field -> plain_line v -> utf8_valid v = true ->
  plain_line (field_line field v) /\ utf8_valid (field_line field v) = true /\
  starts_with_colon (field_line field v) = false.
Proof.
  intros (Hp & Hu & Hcolon & Hne) Hv Huv. split; [|split].
  - apply Forall_app. split; [done|]. apply Forall_app. split; [|by apply guard_plain].
    solve_plain.
  - apply utf8_valid_app; [done|]. apply utf8_valid_app; [done|]. by apply guard_utf8.
  - unfold field_line. destruct (bytes_of field) as [|b f]; [done|]. simpl in *.
    by apply orb_false_iff in Hcolon as [-> _].
Qed.

Lemma name_event : field_name "event".
Proof. repeat split; try done. solve_plain. Qed.
Lemma name_id : field_name "id".
Proof. repeat split; try done. solve_plain. Qed.
Lemma name_data : field_name "data".
Proof. repeat split; try done. solve_plain. Qed.

(** Reading on by one line. *)
Lemma reads_line limits last out name data has id line out' p :
  reads limits last out (between limits name data has id out) ->
  push_line out line limits = Ok out' -> plain_line line -> utf8_valid line = true ->
  starts_with_colon line = false ->
  process_line line (MkSseParser limits line false name data has id (N.min USIZE_MAX (blen out'))) = ([], p) ->
  reads limits last out' (clear_line p).
Proof.
  intros Hr Hpush Hp Hu Hc Hproc. destruct (feed_line limits name data has id _ _ _ Hpush Hp Hu Hc) as [-> Hf].
  rewrite Hproc in Hf. unfold reads. by eapply reads_app.
Qed.

Lemma reads_field limits last out name data has id field v out' :
  field_name field -> reads limits last out (between limits name data has id out) ->
  push_line out (field_line field v) limits = Ok out' -> plain_line v -> utf8_valid v = true ->
  reads limits last out'
    (clear_line (process_field (bytes_of field) v
      (MkSseParser limits (field_line field v) false name data has id (N.min USIZE_MAX (blen out'))))).
Proof.
  intros Hn Hr Hpush Hv Hu. destruct (field_line_ok field v Hn Hv Hu) as (H1 & H2 & H3).
  eapply reads_line; try done. by apply process_field_line.
Qed.

(** The [event] and [id] fields. *)
Lemma reads_event limits last out data has id name out' :
  reads limits last out (between limits None data has id out) ->
  push_optional out "event" name limits = Ok out' ->
  (forall n, name = Some n -> utf8_valid n = true) ->
  reads limits last out' (between limits name data has id out').
Proof.
  intros Hr Hpush Hu. destruct name as [v|]; simpl in Hpush; [|by injection Hpush as <-].
  unfold push_field in Hpush. destruct (_ || _) eqn:E; [done|]. apply plain_line_has in E.
  pose proof (reads_field _ _ _ _ _ _ _ "event" v _ name_event Hr Hpush E (Hu v eq_refl)) as Hres.
  exact Hres.
Qed.

Lemma reads_id limits last out name data has e out' :
  reads limits last out (between limits name data has last out) ->
  push_optional out "id" (sse_id e) limits = Ok out' ->
  (forall i, sse_id e = Some i -> utf8_valid i = true) ->
  reads limits last out' (between limits name data has (next_id last e) out').
Proof.
  unfold next_id. intros Hr Hpush Hu. destruct (sse_id e) as [v|]; simpl in Hpush; [|by injection Hpush as <-].
  unfold push_field in Hpush. destruct (_ || _) eqn:E; [done|]. apply plain_line_has in E.
  pose proof (reads_field _ _ _ _ _ _ _ "id" v _ name_id Hr Hpush E (Hu v eq_refl)) as Hres.
  unfold process_field in Hres. simpl in Hres. by destruct (has_byte 0 v).
Qed.

(** The data lines. *)
Lemma reads_data_line limits last out name data has id v out' :
  reads limits last out (between limits name data has id out) ->
  push_data_line out v limits = Ok out' -> plain_line v -> utf8_valid v = true ->
  reads limits last out' (between limits name (data ++ v ++ [LF]) true id out').
Proof.
  intros Hr Hpush Hv Hu.
  exact (reads_field _ _ _ _ _ _ _ "data" v _ name_data Hr Hpush Hv Hu).
Qed.

Lemma reads_data limits last name id n :
  forall rest out start data has out',
  (length rest <= n)%nat ->
  reads limits last out (between limits name data has id out) ->
  push_data_lines_from out start rest limits = Ok out' ->
  plain_line start -> utf8_valid (start ++ rest) = true ->
  reads limits last out' (between limits name (data ++ start ++ normalize_newlines rest ++ [LF]) true id out').
Proof.
  induction n as [|n IH]; intros rest out start data has out' Hn Hr Hpush Hs Hu.
  { destruct rest; [|simpl in Hn; lia]. simpl in *. rewrite app_nil_r in Hu.
    by eapply reads_data_line. }
  destruct rest as [|b rest]; simpl in Hpush |- *.
  { rewrite app_nil_r in Hu. by eapply reads_data_line. }
  simpl in Hn.
  assert (Hbreak : forall c out1, b = c -> c < 0x80 -> push_data_line out start limits = Ok out1 ->
    reads limits last out1 (between limits name (data ++ start ++ [LF]) true id out1) /\
    utf8_valid rest = true).
  { intros c out1 <- Hc H1. apply utf8_valid_split in Hu as [Hu1 Hu2]; [|done].
    split; [by eapply reads_data_line|done]. }
  destruct (N.eqb_spec b CR) as [->|Hcr].
  - destruct (push_data_line out start limits) as [out1|] eqn:E1; [|done]. simpl in Hpush.
    destruct (Hbreak CR out1 eq_refl eq_refl eq_refl) as [Hr1 Hu1].
    destruct rest as [|c rest]; [|destruct (N.eqb_spec c LF) as [->|Hc]].
    + pose proof (IH [] out1 [] _ _ out' ltac:(simpl; lia) Hr1 Hpush ltac:(constructor) eq_refl) as Hres.
      simpl in Hres. by rewrite <- !app_assoc in Hres.
    + apply (utf8_valid_split [] LF rest) in Hu1 as [_ Hu1]; [|done].
      pose proof (IH rest out1 [] _ _ out' ltac:(simpl in Hn; lia) Hr1 Hpush ltac:(constructor) Hu1) as Hres.
      simpl in Hres. by rewrite <- !app_assoc in Hres.
    + pose proof (IH (c :: rest) out1 [] _ _ out' ltac:(simpl in *; lia) Hr1 Hpush ltac:(constructor) Hu1) as Hres.
      rewrite <- !app_assoc in Hres. exact Hres.
  - destruct (N.eqb_spec b LF) as [->|Hlf].
    + destruct (push_data_line out start limits) as [out1|] eqn:E1; [|done]. simpl in Hpush.
      destruct (Hbreak LF out1 eq_refl eq_refl eq_refl) as [Hr1 Hu1].
      pose proof (IH rest out1 [] _ _ out' ltac:(lia) Hr1 Hpush ltac:(constructor) Hu1) as Hres.
      rewrite <- !app_assoc in Hres. exact Hres.
    + assert (Hs' : plain_line (start ++ [b])) by (apply Forall_app; by repeat constructor).
      assert (Hu' : utf8_valid ((start ++ [b]) ++ rest) = true) by by rewrite <- app_assoc.
      pose proof (IH rest out (start ++ [b]) data has out' ltac:(lia) Hr Hpush Hs' Hu') as Hres.
      rewrite <- !app_assoc in Hres. exact Hres.
Qed.

(** * One event and a stream *)

Lemma encode_reads limits last e out :
  event_utf8 e -> sse_encode limits e = Ok out ->
  sse_feed (between limits None [] false last []) out =
    Ok ([decoded last e], between limits None [] false (next_id last e) []).
Proof.
  intros (Hud & Hue & Hui) Henc. unfold sse_encode in Henc.
  destruct (push_optional [] "event" (sse_event e) limits) as [o1|] eqn:E1; [|done]. simpl in Henc.
  destruct (push_optional o1 "id" (sse_id e) limits) as [o2|] eqn:E2; [|done]. simpl in Henc.
  destruct (push_data_lines o2 (sse_data e) limits) as [o3|] eqn:E3; [|done]. simpl in Henc.
  assert (H0 : reads limits last [] (between limits None [] false last [])) by done.
  pose proof (reads_event _ _ _ _ _ _ _ _ H0 E1 Hue) as H1.
  pose proof (reads_id _ _ _ _ _ _ e _ H1 E2 Hui) as H2.
  pose proof (reads_data _ _ _ _ (length (sse_data e)) _ _ [] _ _ _ (Nat.le_refl _) H2 E3
    ltac:(constructor) Hud) as H3.
  destruct (feed_line limits (sse_event e) ([] ++ [] ++ normalize_newlines (sse_data e) ++ [LF]) true
    (next_id last e) _ _ _ Henc ltac:(constructor) eq_refl eq_refl) as [-> Hf].
  rewrite (reads_app _ _ _ _ _ _ _ H3 Hf). cbn [process_line sp_has_data sp_data app].
  rewrite strip_last_snoc. done.
Qed.

Lemma encode_stream_reads limits last events out :
  Forall event_utf8 events -> encode_stream limits events = Ok out ->
  exists id, sse_feed (between limits None [] false last []) out =
    Ok (decoded_stream last events, between limits None [] false id []).
Proof.
  intros Hu. revert last out. induction Hu as [|e events He _ IH]; intros last out Henc; simpl in Henc.
  - injection Henc as <-. by exists last.
  - destruct (sse_encode limits e) as [o1|] eqn:E1; [|done]. simpl in Henc.
    destruct (encode_stream limits events) as [o2|] eqn:E2; [|done]. injection Henc as <-.
    destruct (IH (next_id last e) o2 eq_refl) as [id Hid]. exists id.
    pose proof (feed_app (between limits None [] false last []) o1 o2 I) as Happ.
    unfold feed, sse_decoder in Happ. by rewrite Happ, (encode_reads _ _ _ _ He E1); simpl; rewrite Hid.
Qed.

(** [C12] Encoded event streams are parsed back, however the transport cuts them:
    when the encoder accepts a sequence of events, a parser with the same limits
    that is fed the encoded bytes in any chunks returns exactly these events in
    order (with every line ending of the data read as a newline, an empty event
    name as none, and the identifier in effect), rejects nothing for its size,
    and then reports a clean end of stream. *)
Theorem sse_roundtrip limits events out chunks :
  Forall event_utf8 events -> encode_stream limits events = Ok out -> concat chunks = out ->
  exists p, feed_chunks (sse_parser_with_limits limits) chunks = Ok (decoded_stream None events, p) /\
    sse_finish p = Ok ([], p).
Proof.
  intros Hu Henc Hch. destruct (encode_stream_reads limits None events out Hu Henc) as [id Hid].
  exists (between limits None [] false id []). split; [|done].
  rewrite feed_chunks_concat, Hch by done. exact Hid.
Qed.

Definition example_events : list SseEvent :=
  [sse_with_id (sse_with_event (sse_event_new [0x68; 0x69; CR; LF; SPACE; 0xC3; 0xA9]) (bytes_of "delta")) (bytes_of "7");
   sse_event_new (bytes_of "[DONE]")].

Lemma sse_roundtrip_witness :
  exists out p, encode_stream sse_limits_default example_events = Ok out /\
    feed_chunks sse_parser_new (map (fun b => [b]) out) =
      Ok ([MkSseEvent (Some (bytes_of "delta")) [0x68; 0x69; LF; SPACE; 0xC3; 0xA9] (Some (bytes_of "7"));
           MkSseEvent None (bytes_of "[DONE]") (Some (bytes_of "7"))], p).
Proof.
  destruct (encode_stream sse_limits_default example_events) as [out|] eqn:E; [|discriminate E].
  destruct (sse_roundtrip sse_limits_default example_events out (map (fun b => [b]) out)) as (p & Hp & _).
  - unfold example_events. repeat constructor; intros ? Hx; inversion Hx; reflexivity.
  - exact E.
  - clear E. induction out as [|b out IH]; [reflexivity|]. simpl. rewrite IH. reflexivity.
  - exists out, p. split; [reflexivity|]. exact Hp.
Defined.

(** * Bounded memory *)

Record sse_inv (limits : SseLimits) (p : SseParser) : Prop := {
  inv_limits : sp_limits p = limits;
  inv_line : blen (sp_line p) <= max_line_bytes limits;
  inv_event_bytes : sp_event_bytes p <= max_event_bytes limits;
  inv_data : blen (sp_data p) <= sp_event_bytes p;
  inv_name : forall n, sp_event_name p = Some n -> blen n <= max_line_bytes limits;
  inv_id : forall i, sp_last_event_id p = Some i -> blen i <= max_line_bytes limits;
}.

Lemma split_once_len sep l x y : split_once sep l = Some (x, y) -> blen l = blen x + blen y + 1.
Proof.
  revert x y. induction l as [|b l IH]; intros x y; simpl; [done|].
  destruct (b =? sep). { intros [= <- <-]. unfold blen. simpl. lia. }
  destruct (split_once sep l) as [[x' y']|]; [|done]. intros [= <- <-].
  specialize (IH _ _ eq_refl). unfold blen in *. simpl in *. lia.
Qed.

Lemma strip_byte_len c l : blen (strip_byte c l) <= blen l.
Proof. destruct l as [|b l]; simpl; [done|]. destruct (b =? c); unfold blen; simpl; lia. Qed.

(** A line of which [n] more bytes were counted leaves room for its value. *)
Lemma process_line_inv limits line p events p' :
  sp_limits p = limits -> blen line <= max_line_bytes limits ->
  sp_event_bytes p <= max_event_bytes limits ->
  blen (sp_data p) + (if starts_with_colon line then 0 else blen line + 1) <= sp_event_bytes p ->
  (forall n, sp_event_name p = Some n -> blen n <= max_line_bytes limits) ->
  (forall i, sp_last_event_id p = Some i -> blen i <= max_line_bytes limits) ->
  process_line line p = (events, p') -> sse_inv limits (clear_line p').
Proof.
  intros Hl Hline Hev Hdata Hn Hi. unfold process_line. destruct line as [|b line].
  { intros [= <- <-]. split; simpl; try done; unfold blen; simpl; lia. }
  set (l := b :: line) in *. destruct (starts_with_colon l).
  { intros [= <- <-]. split; simpl; try done; try lia; unfold blen; simpl; lia. }
  assert (Hval : let '(field, value) := default (l, []) (split_once COLON l) in
    blen (strip_byte SPACE value) <= blen l).
  { destruct (split_once COLON l) as [[x y]|] eqn:E; simpl; [|unfold blen; simpl; lia].
    apply split_once_len in E. pose proof (strip_byte_len SPACE y). lia. }
  destruct (default (l, []) (split_once COLON l)) as [field value]. intros [= <- <-].
  unfold process_field. set (v := strip_byte SPACE value) in *.
  assert (Hz : blen [] <= max_line_bytes limits) by (unfold blen; simpl; lia).
  destruct (beq field _); [|destruct (beq field _); [|destruct (beq field _); [destruct (has_byte 0 v)|]]];
    (split; simpl; [done|done|done| | |]); try done; try lia.
  - intros n [= <-]. lia.
  - rewrite !blen_app. change (blen [LF]) with 1. lia.
  - intros i [= <-]. lia.
Qed.

Lemma finish_line_inv limits n p events p' :
  max_event_bytes limits < USIZE_MAX -> 1 <= n -> sse_inv limits p ->
  finish_line n p = Ok (events, p') -> sse_inv limits p'.
Proof.
  intros Hmax Hn [Hl Hline Hev Hdata Hname Hid]. unfold finish_line. destruct (negb _); [done|].
  destruct (starts_with_colon (sp_line p)) eqn:Hc; simpl.
  - destruct (process_line (sp_line p) p) as [evs q] eqn:E. intros [= <- <-].
    eapply process_line_inv; try done. rewrite Hc. lia.
  - unfold add_event_bytes. rewrite Hl.
    destruct (N.ltb_spec (max_event_bytes limits) (sat_add USIZE_MAX (sp_event_bytes p)
      (sat_add USIZE_MAX (blen (sp_line p)) n))) as [|Hle]; [done|]. simpl.
    destruct (process_line (sp_line p) _) as [evs q] eqn:E. intros [= <- <-].
    eapply process_line_inv; try exact E; simpl; try done.
    rewrite Hc. unfold sat_add in *. lia.
Qed.

Lemma accept_byte_inv limits byte p events p' :
  max_event_bytes limits < USIZE_MAX -> max_line_bytes limits < USIZE_MAX -> sse_inv limits p ->
  accept_byte byte p = Ok (events, p') -> sse_inv limits p'.
Proof.
  intros Hmax Hmaxl Hp. unfold accept_byte. destruct (byte =? CR).
  { intros [= <- <-]. destruct Hp. by split. }
  destruct (byte =? LF). { by apply finish_line_inv; [|lia|]. }
  unfold push_line_byte. destruct Hp as [Hl Hline Hev Hdata Hname Hid]. rewrite Hl.
  destruct (N.ltb_spec (max_line_bytes limits) (sat_add USIZE_MAX (blen (sp_line p)) 1)) as [|Hle]; [done|].
  intros [= <- <-]. split; simpl; try done. rewrite blen_app. change (blen [byte]) with 1.
  unfold sat_add in Hle. lia.
Qed.

Lemma feed_byte_inv limits byte p events p' :
  max_event_bytes limits < USIZE_MAX -> max_line_bytes limits < USIZE_MAX -> sse_inv limits p ->
  feed_byte byte p = Ok (events, p') -> sse_inv limits p'.
Proof.
  intros Hmax Hmaxl Hp. unfold feed_byte. destruct (sp_pending_cr p); [|by eapply accept_byte_inv].
  destruct (finish_line _ _) as [[xs q]|] eqn:E; [|done]. simpl.
  assert (Hq : sse_inv limits q).
  { apply (finish_line_inv limits _ _ _ _ Hmax) in E; [done|destruct (byte =? LF); lia|]. destruct Hp. by split. }
  destruct (byte =? LF); [by intros [= <- <-]|].
  destruct (accept_byte byte q) as [[ys q']|] eqn:E2; [|done]. intros [= <- <-].
  by eapply accept_byte_inv.
Qed.

Lemma sse_feed_inv limits p chunk events p' :
  max_event_bytes limits < USIZE_MAX -> max_line_bytes limits < USIZE_MAX -> sse_inv limits p ->
  sse_feed p chunk = Ok (events, p') -> sse_inv limits p'.
Proof.
  intros Hmax Hmaxl. revert p events p'. induction chunk as [|b chunk IH]; intros p events p' Hp; simpl.
  - by intros [= <- <-].
  - destruct (feed_byte b p) as [[xs q]|] eqn:E; [|done]. simpl.
    destruct (sse_feed q chunk) as [[ys q']|] eqn:E2; [|done]. intros [= <- <-].
    eapply IH; [|exact E2]. by eapply feed_byte_inv.
Qed.

(** The parser's memory is bounded by its limits whatever it is fed: on every
    input, in any chunks, as long as it reports no error the pending line is at
    most one line limit, the collected data at most the bytes counted for the
    record and these at most the event limit, and the event name and the last
    identifier at most one line limit. *)
Theorem sse_memory_bounded limits chunks events p :
  max_event_bytes limits < USIZE_MAX -> max_line_bytes limits < USIZE_MAX ->
  feed_chunks (sse_parser_with_limits limits) chunks = Ok (events, p) ->
  blen (sp_line p) <= max_line_bytes limits /\
  blen (sp_data p) <= sp_event_bytes p <= max_event_bytes limits /\
  (forall n, sp_event_name p = Some n -> blen n <= max_line_bytes limits) /\
  (forall i, sp_last_event_id p = Some i -> blen i <= max_line_bytes limits) /\
  pending_bytes p <= max_line_bytes limits + 2 * max_event_bytes limits.
Proof.
  intros Hmax Hmaxl Hf. rewrite feed_chunks_concat in Hf by done.
  apply (sse_feed_inv limits) in Hf as []; [|done|done|].
  - split; [done|]. split; [lia|]. split; [done|]. split; [done|].
    unfold pending_bytes, sat_add. lia.
  - split; simpl; try done; unfold blen; simpl; lia.
Qed.

Lemma sse_memory_bounded_witness :
  exists events p, feed_chunks (sse_parser_with_limits (MkSseLimits 8 16)) [bytes_of "data:a"] = Ok (events, p) /\
    blen (sp_line p) <= 8.
Proof.
  destruct (feed_chunks (sse_parser_with_limits (MkSseLimits 8 16)) [bytes_of "data:a"])
    as [[events p]|] eqn:E; [|discriminate E].
  exists events, p. split; [reflexivity|].
  refine (proj1 (sse_memory_bounded (MkSseLimits 8 16) [bytes_of "data:a"] events p _ _ E)); reflexivity.
Defined.
