(* ===== verification/Connect.v ===== *)
(** Connect envelope framing (crates/pooler-protocol/src/connect.rs): the
    incremental decoder, the encoder, and the gzip payloads.

    The gzip streams come from the flate2 crate, a parameter of the model
    ([Flate2]).  An error of the decoder ends the stream: the state it leaves
    behind is not part of the model. *)
From S2P Require Import Prelude Bytes.

Open Scope N_scope.

(** * Data *)

Definition CONNECT_ENVELOPE_HEADER_BYTES : N := 5.
Definition CONNECT_FLAG_COMPRESSED : N := 0x01.
Definition CONNECT_FLAG_END_STREAM : N := 0x02.
Definition CONNECT_ALLOWED_FLAGS : N := N.lor CONNECT_FLAG_COMPRESSED CONNECT_FLAG_END_STREAM.

Inductive ConnectCompression := Identity | Gzip.

#[export] Instance ConnectCompression_eq_dec : EqDecision ConnectCompression.
Proof. solve_decision. Defined.

Record ConnectLimits := MkConnectLimits { max_frame_bytes : N; max_decompressed_bytes : N }.

Definition connect_limits_default : ConnectLimits :=
  MkConnectLimits (16 * 1024 * 1024) (64 * 1024 * 1024).

Record ConnectEnvelope := MkConnectEnvelope { ce_flags : N; ce_payload : bytes }.

Definition is_compressed (e : ConnectEnvelope) : bool :=
  negb (N.land (ce_flags e) CONNECT_FLAG_COMPRESSED =? 0).
Definition is_end_stream (e : ConnectEnvelope) : bool :=
  negb (N.land (ce_flags e) CONNECT_FLAG_END_STREAM =? 0).

Inductive ConnectError :=
| InvalidFlags (flags : N)
| CompressedEndStream
| CompressionNotNegotiated
| FrameTooLarge (observed limit : N)
| DecompressedTooLarge (observed limit : N)
| Truncated (pending : N)
| InvalidGzip (message : string)
| AfterEndStream.

(** [flags & !CONNECT_ALLOWED_FLAGS] on a byte. *)
Definition validate_flags (flags : N) : Result unit ConnectError :=
  if negb (N.land flags (255 - CONNECT_ALLOWED_FLAGS) =? 0) then Err (InvalidFlags flags)
  else if negb (N.land flags CONNECT_FLAG_COMPRESSED =? 0) && negb (N.land flags CONNECT_FLAG_END_STREAM =? 0)
  then Err CompressedEndStream
  else Ok tt.

Definition envelope_new (flags : N) (payload : bytes) : Result ConnectEnvelope ConnectError :=
  let? _ := validate_flags flags in Ok (MkConnectEnvelope flags payload).
Definition envelope_data (payload : bytes) : ConnectEnvelope := MkConnectEnvelope 0 payload.
Definition envelope_compressed_data (payload : bytes) : ConnectEnvelope :=
  MkConnectEnvelope CONNECT_FLAG_COMPRESSED payload.
Definition envelope_end_stream (payload : bytes) : ConnectEnvelope :=
  MkConnectEnvelope CONNECT_FLAG_END_STREAM payload.

(** * Gzip *)

(** What the flate2 streams do with a payload: the writes a [GzEncoder] issues to
    its sink for [write_all] and [finish], and the non-empty reads of a
    [GzDecoder], the error that ends them if there is one, and the position of
    the cursor behind them. *)
Class Flate2 := {
  gz_writes : bytes -> list bytes;
  gz_reads : bytes -> list bytes;
  gz_error : bytes -> option string;
  gz_position : bytes -> N;
}.

(** The documented contract of the pair: decoding what was encoded gives the
    payload back and reads the whole member. *)
Class Flate2Spec `{Flate2} : Prop := {
  gz_roundtrip : forall payload, concat (gz_reads (concat (gz_writes payload))) = payload;
  gz_no_error : forall payload, gz_error (concat (gz_writes payload)) = None;
  gz_consumed : forall payload, gz_position (concat (gz_writes payload)) = blen (concat (gz_writes payload));
}.

Section connect.
Context `{Flate2}.

(** [BoundedWriter::write], its error mapped by [map_gzip_write_error]. *)
Definition bounded_write (limit : N) (written chunk : bytes) : Result bytes ConnectError :=
  let observed := sat_add USIZE_MAX (blen written) (blen chunk) in
  if limit <? observed then Err (FrameTooLarge observed limit) else Ok (written ++ chunk).

Fixpoint bounded_writes (limit : N) (written : bytes) (chunks : list bytes) : Result bytes ConnectError :=
  match chunks with
  | [] => Ok written
  | c :: chunks => let? written := bounded_write limit written c in bounded_writes limit written chunks
  end.

Definition gzip_encode (payload : bytes) (max_frame : N) : Result bytes ConnectError :=
  bounded_writes max_frame [] (gz_writes payload).

Fixpoint gzip_collect (decoded : bytes) (reads : list bytes) (limit : N) : Result bytes ConnectError :=
  match reads with
  | [] => Ok decoded
  | r :: reads =>
    let observed := sat_add USIZE_MAX (blen decoded) (blen r) in
    if limit <? observed then Err (DecompressedTooLarge observed limit)
    else gzip_collect (decoded ++ r) reads limit
  end.

Definition gzip_decode (payload : bytes) (limit : N) : Result bytes ConnectError :=
  let? decoded := gzip_collect [] (gz_reads payload) limit in
  match gz_error payload with
  | Some message => Err (InvalidGzip message)
  | None =>
    if negb (gz_position payload =? blen payload)
    then Err (InvalidGzip "trailing bytes after gzip member")
    else Ok decoded
  end.

Definition decode_payload (payload : bytes) (flags : N) (c : ConnectCompression) (limits : ConnectLimits)
  : Result bytes ConnectError :=
  if N.land flags CONNECT_FLAG_COMPRESSED =? 0 then
    if max_decompressed_bytes limits <? blen payload
    then Err (DecompressedTooLarge (blen payload) (max_decompressed_bytes limits))
    else Ok payload
  else if negb (beq c Gzip) then Err CompressionNotNegotiated
  else gzip_decode payload (max_decompressed_bytes limits).

(** * Decoder *)

Record ConnectDecoder := MkConnectDecoder {
  cd_limits : ConnectLimits;
  cd_compression : ConnectCompression;
  cd_pending : bytes;
  cd_expected : option N;
  cd_ended : bool;
}.

Definition connect_decoder_new (limits : ConnectLimits) (c : ConnectCompression) : ConnectDecoder :=
  MkConnectDecoder limits c [] None false.

(** [u32::from_be_bytes] of the bytes 1 to 4. *)
Definition payload_length (pending : bytes) : N :=
  match pending with
  | _ :: a :: b :: c :: d :: _ => ((a * 256 + b) * 256 + c) * 256 + d
  | _ => 0
  end.

Definition frame_flags (pending : bytes) : N := match pending with b :: _ => b | [] => 0 end.

(** Bytes of [chunk] appended to the pending ones, and the rest of the chunk. *)
Definition take_into (needed : N) (pending chunk : bytes) : bytes * bytes :=
  let n := N.to_nat (N.min needed (blen chunk)) in (pending ++ take n chunk, drop n chunk).

(** The first half of one turn of the loop: complete the header. *)
Definition header_phase (d : ConnectDecoder) (chunk : bytes) : Result (ConnectDecoder * bytes) ConnectError :=
  match cd_expected d with
  | Some _ => Ok (d, chunk)
  | None =>
    let '(pending, chunk) :=
      take_into (CONNECT_ENVELOPE_HEADER_BYTES - blen (cd_pending d)) (cd_pending d) chunk in
    if blen pending <? CONNECT_ENVELOPE_HEADER_BYTES
    then Ok (MkConnectDecoder (cd_limits d) (cd_compression d) pending None (cd_ended d), chunk)
    else
      let? _ := validate_flags (frame_flags pending) in
      let n := payload_length pending in
      if max_frame_bytes (cd_limits d) <? n then Err (FrameTooLarge n (max_frame_bytes (cd_limits d)))
      else Ok (MkConnectDecoder (cd_limits d) (cd_compression d) pending (Some n) (cd_ended d), chunk)
  end.

(** The second half: complete the payload. *)
Definition payload_phase (d : ConnectDecoder) (chunk : bytes)
  : Result (list ConnectEnvelope * ConnectDecoder * bytes) ConnectError :=
  match cd_expected d with
  | None => Ok ([], d, chunk)
  | Some expected =>
    let total := CONNECT_ENVELOPE_HEADER_BYTES + expected in
    if USIZE_MAX <? total then Err (FrameTooLarge expected (max_frame_bytes (cd_limits d)))
    else
      let '(pending, chunk) := take_into (total - blen (cd_pending d)) (cd_pending d) chunk in
      if blen pending <? total
      then Ok ([], MkConnectDecoder (cd_limits d) (cd_compression d) pending (Some expected) (cd_ended d), chunk)
      else
        let flags := frame_flags pending in
        let? payload := decode_payload (drop 5 pending) flags (cd_compression d) (cd_limits d) in
        let envelope := MkConnectEnvelope flags payload in
        Ok ([envelope],
            MkConnectDecoder (cd_limits d) (cd_compression d) [] None (is_end_stream envelope), chunk)
  end.

(** The loop of [feed]; every turn consumes a byte, so the length of the chunk is
    enough fuel. *)
Fixpoint connect_loop (fuel : nat) (d : ConnectDecoder) (chunk : bytes)
  : Result (list ConnectEnvelope * ConnectDecoder) ConnectError :=
  match chunk with
  | [] => Ok ([], d)
  | _ =>
    match fuel with
    | O => Ok ([], d)
    | S fuel =>
      if cd_ended d then Err AfterEndStream
      else
        let? (d, chunk) := header_phase d chunk in
        let? (envelopes, d, chunk) := payload_phase d chunk in
        let? (more, d) := connect_loop fuel d chunk in
        Ok (envelopes ++ more, d)
    end
  end.

Definition connect_feed (d : ConnectDecoder) (chunk : bytes)
  : Result (list ConnectEnvelope * ConnectDecoder) ConnectError :=
  connect_loop (length chunk) d chunk.

Definition connect_finish (d : ConnectDecoder) : Result unit ConnectError :=
  if match cd_pending d with [] => true | _ => false end && is_none (cd_expected d)
  then Ok tt else Err (Truncated (blen (cd_pending d))).

#[export] Instance connect_decoder : IncrementalDecoder ConnectDecoder ConnectEnvelope ConnectError :=
  connect_feed.

Definition decode_connect_envelopes (input : bytes) (limits : ConnectLimits) (c : ConnectCompression)
  : Result (list ConnectEnvelope) ConnectError :=
  let? (envelopes, d) := connect_feed (connect_decoder_new limits c) input in
  let? _ := connect_finish d in
  Ok envelopes.

(** The stream of frames an adapter makes of a stream of transport chunks: the frames of
    a chunk are yielded before the next one is read, and an error ends the stream. *)
Fixpoint yield_frames (d : ConnectDecoder) (chunks : list (Result bytes ConnectError))
  : list (Result ConnectEnvelope ConnectError) :=
  match chunks with
  | [] => match connect_finish d with Ok _ => [] | Err error => [Err error] end
  | Ok chunk :: chunks =>
    match connect_feed d chunk with
    | Ok (frames, d) => map Ok frames ++ yield_frames d chunks
    | Err error => [Err error]
    end
  | Err error :: _ => [Err error]
  end.

Definition decode_connect_frames_with_limits (chunks : list (Result bytes ConnectError)) (limits : ConnectLimits)
  : list (Result ConnectEnvelope ConnectError) :=
  yield_frames (connect_decoder_new limits Gzip) chunks.

(** * Encoder *)

(** [u32::to_be_bytes]. *)
Definition be_bytes (n : N) : bytes :=
  [n / 16777216 mod 256; n / 65536 mod 256; n / 256 mod 256; n mod 256].

Definition connect_encode (limits : ConnectLimits) (c : ConnectCompression) (e : ConnectEnvelope)
  : Result bytes ConnectError :=
  let? _ := validate_flags (ce_flags e) in
  if max_decompressed_bytes limits <? blen (ce_payload e)
  then Err (DecompressedTooLarge (blen (ce_payload e)) (max_decompressed_bytes limits))
  else
    let? payload :=
      if is_compressed e then
        if is_end_stream e then Err CompressedEndStream
        else if negb (beq c Gzip) then Err CompressionNotNegotiated
        else gzip_encode (ce_payload e) (max_frame_bytes limits)
      else Ok (ce_payload e) in
    if max_frame_bytes limits <? blen payload
    then Err (FrameTooLarge (blen payload) (max_frame_bytes limits))
    else if U32_MAX <? blen payload
    then Err (FrameTooLarge (blen payload) (max_frame_bytes limits))
    else Ok ([ce_flags e] ++ be_bytes (blen payload) ++ payload).
End connect.

(** * What the Connect codec guarantees: the incremental decoder computes the frame
      grammar whatever the chunks, and envelopes survive the round trip. *)

(** * The frame grammar *)

Section grammar.
Context `{Flate2}.
Variable limits : ConnectLimits.
Variable compression : ConnectCompression.

(** The first frame of a byte string and what follows it; [None] when the string
    ends before the frame does. *)
Definition frame (x : bytes) : Result (option (ConnectEnvelope * bytes)) ConnectError :=
  if blen x <? 5 then Ok None
  else
    let? _ := validate_flags (frame_flags x) in
    let n := payload_length x in
    if max_frame_bytes limits <? n then Err (FrameTooLarge n (max_frame_bytes limits))
    else if USIZE_MAX <? 5 + n then Err (FrameTooLarge n (max_frame_bytes limits))
    else if blen x <? 5 + n then Ok None
    else
      let? payload := decode_payload (take (N.to_nat n) (drop 5 x)) (frame_flags x) compression limits in
      Ok (Some (MkConnectEnvelope (frame_flags x) payload, drop (5 + N.to_nat n) x)).

(** The decoder between two chunks, [x] being the bytes of an unfinished frame. *)
Definition resting (x : bytes) : ConnectDecoder :=
  MkConnectDecoder limits compression x (if blen x <? 5 then None else Some (payload_length x)) false.

Definition ended : ConnectDecoder := MkConnectDecoder limits compression [] None true.

Definition prepend (e : ConnectEnvelope) (r : Result (list ConnectEnvelope * ConnectDecoder) ConnectError) :
  Result (list ConnectEnvelope * ConnectDecoder) ConnectError :=
  let? (es, d) := r in Ok (e :: es, d).

(** What a whole byte string means: its frames in order, and the state after. *)
Inductive parses : bytes -> Result (list ConnectEnvelope * ConnectDecoder) ConnectError -> Prop :=
| parse_error x e : frame x = Err e -> parses x (Err e)
| parse_partial x : frame x = Ok None -> parses x (Ok ([], resting x))
| parse_end x e : frame x = Ok (Some (e, [])) -> is_end_stream e = true -> parses x (Ok ([e], ended))
| parse_after_end x e b rest :
    frame x = Ok (Some (e, b :: rest)) -> is_end_stream e = true -> parses x (Err AfterEndStream)
| parse_next x e rest r :
    frame x = Ok (Some (e, rest)) -> is_end_stream e = false -> parses rest r -> parses x (prepend e r).

Lemma parses_fun x r : parses x r -> forall r', parses x r' -> r = r'.
Proof.
  induction 1 as [x e He|x He|x e He Hend|x e b rest He Hend|x e rest r He Hend Hr IH];
    intros r' Hr'; inversion Hr'; simplify_eq; try congruence.
  rewrite He in H0. injection H0 as <- <-. f_equal. by apply IH.
Qed.

(** * Bytes of a frame *)

Lemma blen_take n (x : bytes) : N.of_nat n <= blen x -> blen (take n x) = N.of_nat n.
Proof. unfold blen. rewrite length_take. lia. Qed.

Lemma header_prefix p q :
  5 <= blen p -> payload_length (p ++ q) = payload_length p /\ frame_flags (p ++ q) = frame_flags p.
Proof. do 5 (destruct p as [|? p]; [unfold blen; simpl; lia|]). done. Qed.

Lemma take_into_spec needed p q :
  take_into needed p q =
  (take (length p + N.to_nat needed) (p ++ q), drop (length p + N.to_nat needed) (p ++ q)).
Proof.
  unfold take_into. rewrite take_app_add, drop_app_add.
  destruct (N.le_gt_cases needed (blen q)) as [Hle|Hgt].
  - by rewrite N.min_l.
  - rewrite N.min_r by lia. unfold blen in *. rewrite Nnat.Nat2N.id.
    by rewrite !(firstn_all2 q), !(skipn_all2 q) by lia.
Qed.

(** * One turn of the loop *)

(** The decoder with a complete header. *)
Definition with_header (p : bytes) (n : N) : ConnectDecoder :=
  MkConnectDecoder limits compression p (Some n) false.

Lemma payload_phase_spec p q :
  let x := p ++ q in
  5 <= blen p -> blen p <= 5 + payload_length x -> 5 + payload_length x <= USIZE_MAX ->
  payload_phase (with_header p (payload_length x)) q =
  if blen x <? 5 + payload_length x then Ok ([], with_header x (payload_length x), [])
  else
    let? payload := decode_payload (take (N.to_nat (payload_length x)) (drop 5 x)) (frame_flags x)
      compression limits in
    let e := MkConnectEnvelope (frame_flags x) payload in
    Ok ([e], MkConnectDecoder limits compression [] None (is_end_stream e),
        drop (5 + N.to_nat (payload_length x)) x).
Proof.
  intros x Hp Hle Hmax. unfold payload_phase. simpl cd_expected. cbv iota. simpl cd_pending.
  unfold CONNECT_ENVELOPE_HEADER_BYTES. set (n := payload_length x) in *.
  destruct (N.ltb_spec USIZE_MAX (5 + n)); [lia|]. rewrite take_into_spec. fold x.
  assert (Hlen : (length p + N.to_nat (5 + n - blen p) = 5 + N.to_nat n)%nat) by (unfold blen in *; lia).
  rewrite Hlen. simpl cd_limits. simpl cd_compression.
  destruct (N.ltb_spec (blen x) (5 + n)) as [Hshort|Hfull].
  - rewrite !(firstn_all2 x), !(skipn_all2 x) by (unfold blen in *; lia).
    destruct (N.ltb_spec (blen x) (5 + n)); [done|lia].
  - rewrite blen_take by lia. destruct (N.ltb_spec (N.of_nat (5 + N.to_nat n)) (5 + n)); [lia|].
    assert (Hfl : frame_flags (take (5 + N.to_nat n) x) = frame_flags x)
      by (by destruct x).
    assert (Hdrop : drop 5 (take (5 + N.to_nat n) x) = take (N.to_nat n) (drop 5 x)).
    { by rewrite <- take_drop_commute. }
    rewrite Hfl, Hdrop. done.
Qed.

Lemma header_phase_spec x q :
  frame x = Ok None ->
  let y := x ++ q in
  header_phase (resting x) q =
  if blen y <? 5 then Ok (resting y, [])
  else
    let? _ := validate_flags (frame_flags y) in
    if max_frame_bytes limits <? payload_length y
    then Err (FrameTooLarge (payload_length y) (max_frame_bytes limits))
    else if blen x <? 5 then Ok (with_header (take 5 y) (payload_length y), drop 5 y)
    else Ok (with_header x (payload_length y), q).
Proof.
  intros Hx y. unfold header_phase, resting at 1. simpl cd_expected.
  unfold frame in Hx. destruct (N.ltb_spec (blen x) 5) as [Hshort|Hlong]; cbv iota.
  - unfold resting at 1 2. simpl cd_pending. unfold CONNECT_ENVELOPE_HEADER_BYTES.
    rewrite take_into_spec. fold y.
    assert (Hlen : (length x + N.to_nat (5 - blen x) = 5)%nat) by (unfold blen in *; lia).
    rewrite Hlen. destruct (N.ltb_spec (blen y) 5) as [Hy|Hy].
    + rewrite !(firstn_all2 y), !(skipn_all2 y) by (unfold blen in *; lia).
      destruct (N.ltb_spec (blen y) 5); [|lia]. unfold resting.
      by destruct (N.ltb_spec (blen y) 5); [|lia].
    + rewrite blen_take by lia. simpl (_ <? _). cbv iota.
      destruct (header_prefix (take 5 y) (drop 5 y)) as [Hpl Hfl]; [rewrite blen_take by lia; lia|].
      rewrite take_drop in Hpl, Hfl. rewrite <- Hpl, <- Hfl. done.
  - destruct (header_prefix x q Hlong) as [Hpl Hfl]. unfold y. rewrite Hpl, Hfl.
    destruct (validate_flags (frame_flags x)) as [[]|]; simpl in Hx; [|done]. simpl.
    destruct (N.ltb_spec (max_frame_bytes limits) (payload_length x)); [done|].
    destruct (N.ltb_spec (blen (x ++ q)) 5); [rewrite blen_app in *; lia|].
    unfold resting, with_header. by destruct (N.ltb_spec (blen x) 5); [lia|].
Qed.

(** * The loop *)

Lemma frame_partial x q :
  frame x = Ok None -> 5 <= blen x -> blen x < 5 + payload_length (x ++ q) /\ 5 + payload_length (x ++ q) <= USIZE_MAX.
Proof.
  intros Hx Hlong. rewrite (proj1 (header_prefix x q Hlong)). unfold frame in Hx.
  destruct (N.ltb_spec (blen x) 5); [lia|]. destruct (validate_flags _); simpl in Hx; [|done].
  destruct (_ <? _); [done|]. destruct (N.ltb_spec USIZE_MAX (5 + payload_length x)); [done|].
  destruct (N.ltb_spec (blen x) (5 + payload_length x)); [done|].
  by destruct (decode_payload _ _ _ _).
Qed.

Lemma payload_phase_overflow p n q :
  USIZE_MAX < 5 + n -> payload_phase (with_header p n) q = Err (FrameTooLarge n (max_frame_bytes limits)).
Proof.
  intros Hn. unfold payload_phase. simpl. unfold CONNECT_ENVELOPE_HEADER_BYTES.
  by destruct (N.ltb_spec USIZE_MAX (5 + n)); [|lia].
Qed.

(** One turn of the loop on a non-empty chunk reads the frame at the front. *)
Lemma turn_spec x q :
  frame x = Ok None -> let y := x ++ q in
  (let? (d, chunk) := header_phase (resting x) q in payload_phase d chunk) =
  match frame y with
  | Err e => Err e
  | Ok None => Ok ([], resting y, [])
  | Ok (Some (e, rest)) => Ok ([e], MkConnectDecoder limits compression [] None (is_end_stream e), rest)
  end.
Proof.
  intros Hx y. rewrite header_phase_spec by done. fold y. unfold frame.
  destruct (N.ltb_spec (blen y) 5) as [Hshort|Hlong].
  { simpl. unfold resting, payload_phase. by destruct (N.ltb_spec (blen y) 5); [|lia]. }
  destruct (validate_flags (frame_flags y)) as [[]|e]; [|done]. simpl.
  destruct (max_frame_bytes limits <? payload_length y) eqn:Hmax; [done|].
  assert (Hsplit : exists p r, p ++ r = y /\ 5 <= blen p /\ blen p <= 5 + payload_length y /\
    (if blen x <? 5 then Ok (with_header (take 5 y) (payload_length y), drop 5 y)
     else Ok (E := ConnectError) (with_header x (payload_length y), q)) =
    Ok (with_header p (payload_length y), r)).
  { destruct (N.ltb_spec (blen x) 5) as [Hs|Hl].
    - exists (take 5 y), (drop 5 y). rewrite take_drop, blen_take by lia. repeat split; lia.
    - exists x, q. destruct (frame_partial x q Hx Hl) as [H1 H2].
      change (x ++ q) with y in H1, H2. repeat split; lia. }
  destruct Hsplit as (p & r & Hy & Hp1 & Hp2 & ->). simpl.
  destruct (N.ltb_spec USIZE_MAX (5 + payload_length y)) as [Hover|Hfit].
  { by apply payload_phase_overflow. }
  clearbody y. subst y. rewrite payload_phase_spec by done.
  destruct (blen (p ++ r) <? 5 + payload_length (p ++ r)) eqn:Hpart.
  - unfold resting, with_header. by destruct (N.ltb_spec (blen (p ++ r)) 5); [lia|].
  - by destruct (decode_payload _ _ _ _).
Qed.

Lemma frame_progress x q e rest :
  frame x = Ok None -> frame (x ++ q) = Ok (Some (e, rest)) -> (length rest < length q)%nat.
Proof.
  intros Hx Hy. unfold frame in Hy.
  destruct (N.ltb_spec (blen (x ++ q)) 5) as [|Hlong]; [done|].
  destruct (validate_flags _); simpl in Hy; [|done]. destruct (_ <? _); [done|].
  destruct (USIZE_MAX <? _); [done|]. destruct (N.ltb_spec (blen (x ++ q)) (5 + payload_length (x ++ q)))
    as [|Hfull]; [done|].
  destruct (decode_payload _ _ _ _); simpl in Hy; [|done]. injection Hy as <- <-.
  rewrite length_drop. pose proof (frame_partial x q Hx) as Hpart.
  rewrite blen_app in *. unfold blen in *. rewrite length_app.
  destruct (N.le_gt_cases 5 (N.of_nat (length x))) as [Hl|Hs]; [destruct (Hpart Hl)|]; lia.
Qed.

Lemma loop_parses fuel chunk x :
  (length chunk <= fuel)%nat -> frame x = Ok None ->
  parses (x ++ chunk) (connect_loop fuel (resting x) chunk).
Proof.
  revert chunk x. induction fuel as [|fuel IH]; intros chunk x Hlen Hx.
  { destruct chunk; [|simpl in Hlen; lia]. rewrite app_nil_r. by apply parse_partial. }
  destruct chunk as [|b chunk]; [rewrite app_nil_r; by apply parse_partial|].
  set (q := b :: chunk) in *. simpl connect_loop. fold q. simpl cd_ended.
  pose proof (turn_spec x q Hx) as Hturn. cbv zeta in Hturn.
  destruct (header_phase (resting x) q) as [[d q']|e'] eqn:Eh; simpl in Hturn |- *.
  2: { destruct (frame (x ++ q)) as [[[]|]|] eqn:Ef; try done. injection Hturn as ->. by apply parse_error. }
  destruct (payload_phase d q') as [[[es d'] q'']|e'] eqn:Ep; simpl.
  2: { destruct (frame (x ++ q)) as [[[]|]|] eqn:Ef; try done. injection Hturn as ->. by apply parse_error. }
  destruct (frame (x ++ q)) as [[[e rest]|]|] eqn:Ef; [| |done]; injection Hturn as -> -> ->.
  - pose proof (frame_progress _ _ _ _ Hx Ef) as Hprog.
    destruct (is_end_stream e) eqn:Hend.
    + destruct rest as [|c rest]; [destruct fuel; simpl; by apply parse_end|].
      destruct fuel as [|fuel]; [simpl in *; lia|]. simpl. by eapply parse_after_end.
    + pose proof (IH rest [] ltac:(lia) eq_refl) as Hrest. simpl app in Hrest.
      change (MkConnectDecoder limits compression [] None false) with (resting []).
      apply (parse_next _ _ _ _ Ef Hend) in Hrest.
      by destruct (connect_loop fuel (resting []) rest) as [[more d2]|].
  - destruct fuel; simpl; by apply parse_partial.
Qed.

(** * Chunk boundaries *)

Lemma frame_app x b :
  match frame x with
  | Err e => frame (x ++ b) = Err e
  | Ok (Some (e, rest)) => frame (x ++ b) = Ok (Some (e, rest ++ b))
  | Ok None => True
  end.
Proof.
  unfold frame. destruct (N.ltb_spec (blen x) 5) as [|Hlong]; [done|].
  destruct (header_prefix x b Hlong) as [-> ->].
  destruct (N.ltb_spec (blen (x ++ b)) 5); [rewrite blen_app in *; lia|].
  destruct (validate_flags _); simpl; [|done].
  destruct (_ <? _); [done|]. destruct (USIZE_MAX <? _); [done|].
  destruct (N.ltb_spec (blen x) (5 + payload_length x)) as [|Hfull]; [done|].
  destruct (N.ltb_spec (blen (x ++ b)) (5 + payload_length x)); [rewrite blen_app in *; lia|].
  unfold blen in *. rewrite drop_app_le by lia. rewrite take_app_le by (rewrite length_drop; lia).
  destruct (decode_payload _ _ _ _); simpl; [|done]. by rewrite drop_app_le by lia.
Qed.

Lemma parses_app x r b :
  parses x r ->
  parses (x ++ b) (let? (es, d) := r in let? (es', d') := connect_feed d b in Ok (es ++ es', d')).
Proof.
  induction 1 as [x e He|x He|x e He Hend|x e c rest He Hend|x e rest r He Hend Hr IH];
    pose proof (frame_app x b) as Happ; rewrite He in Happ; simpl.
  - by apply parse_error.
  - pose proof (loop_parses (length b) b x (Nat.le_refl _) He) as Hb. unfold connect_feed.
    by destruct (connect_loop (length b) (resting x) b) as [[es' d']|].
  - destruct b as [|c b]; [rewrite app_nil_r; by apply parse_end|]. by eapply parse_after_end.
  - by eapply parse_after_end.
  - apply (parse_next _ _ _ _ Happ Hend) in IH.
    destruct r as [[es d]|]; simpl in IH |- *; [|done].
    by destruct (connect_feed d b) as [[es' d']|].
Qed.
End grammar.

(** The reachable states of a decoder. *)
Definition connect_ok `{Flate2} (d : ConnectDecoder) : Prop :=
  d = ended (cd_limits d) (cd_compression d) \/
  (d = resting (cd_limits d) (cd_compression d) (cd_pending d) /\
   frame (cd_limits d) (cd_compression d) (cd_pending d) = Ok None).

Lemma parses_ok `{Flate2} limits c x r :
  parses limits c x r -> forall es d, r = Ok (es, d) -> connect_ok d.
Proof.
  induction 1 as [x e He|x He|x e He Hend|x e b rest He Hend|x e rest r He Hend Hr IH]; intros es d Heq;
    try done; try (injection Heq as <- <-).
  - by right.
  - by left.
  - destruct r as [[es' d']|]; [|done]. injection Heq as <- <-. by eapply IH.
Qed.

Lemma resting_parses `{Flate2} limits c x b :
  frame limits c x = Ok None -> parses limits c (x ++ b) (connect_feed (resting limits c x) b).
Proof. intros Hx. by apply loop_parses. Qed.

#[export] Instance connect_laws `{Flate2} : DecoderLaws connect_decoder connect_ok.
Proof.
  split.
  - done.
  - intros d a xs d' [Hd|[Hd Hx]] Hf; unfold feed, connect_decoder in Hf; rewrite Hd in Hf.
    + destruct a; [|done]. injection Hf as <- <-. by left.
    + pose proof (resting_parses _ _ _ a Hx) as Hp. rewrite Hf in Hp. by eapply parses_ok.
  - intros d a b [Hd|[Hd Hx]]; unfold feed, connect_decoder; rewrite Hd.
    + destruct a; simpl; [|done]. by destruct (connect_feed _ b) as [[]|].
    + pose proof (parses_app _ _ _ _ b (resting_parses _ _ _ a Hx)) as H1.
      pose proof (resting_parses _ _ _ (a ++ b) Hx) as H2. rewrite app_assoc in H2.
      by apply (parses_fun _ _ _ _ H2).
Qed.

(** What has been yielded after some chunks, and where the stream stops if one fails. *)
Lemma yield_frames_fed `{Flate2} d chunks rest :
  match feed_chunks d chunks with
  | Ok (es, d') => yield_frames d (map Ok chunks ++ rest) = map Ok es ++ yield_frames d' rest
  | Err error => exists l chunk k es d', chunks = l ++ chunk :: k /\ feed_chunks d l = Ok (es, d') /\
      feed_chunks d (l ++ [chunk]) = Err error /\ yield_frames d (map Ok chunks ++ rest) = map Ok es ++ [Err error]
  end.
Proof.
  revert d. induction chunks as [|c chunks IH]; intros d; simpl; [done|].
  assert (feed d c = connect_feed d c) as Hf by done. rewrite Hf. destruct (connect_feed d c) as [[xs d1]|e] eqn:E; simpl.
  - specialize (IH d1). destruct (feed_chunks d1 chunks) as [[ys d2]|e] eqn:Ef; simpl.
    + by rewrite IH, map_app, app_assoc.
    + destruct IH as (l & chunk & k & es & d' & -> & Hl & Hle & Hy). exists (c :: l), chunk, k, (xs ++ es), d'.
      simpl. rewrite Hf. simpl. rewrite Hl, Hle, Hy, map_app, app_assoc. done.
  - exists [], c, chunks, [], d. simpl. by rewrite Hf.
Qed.

Lemma feed_chunks_parses `{Flate2} limits c chunks r :
  feed_chunks (connect_decoder_new limits c) chunks = r <-> parses limits c (concat chunks) r.
Proof.
  assert (Hok : connect_ok (connect_decoder_new limits c)) by by right.
  rewrite feed_chunks_concat by done.
  pose proof (resting_parses limits c [] (concat chunks) eq_refl) as Hp. simpl in Hp.
  split; [intros <-; exact Hp|]. intros Hr. exact (parses_fun _ _ _ _ Hp _ Hr).
Qed.

(** [C31] The stream of frames implements the frame grammar, which gives every byte
    string exactly one meaning: envelopes and a state, or an error.  Cut the bytes into
    any chunks.  If they mean envelopes, exactly these are yielded, whatever the chunks
    are, and the stream goes on in the state the grammar names, so it then ends, fails
    for a truncated frame, or yields what follows.  If they mean an error, the stream
    ends with that error, in the first chunk with which the bytes so far mean it, and
    before it yields exactly the envelopes the bytes of the chunks before that one mean:
    chunk boundaries decide how many of the envelopes before an error are yielded, and
    nothing else. *)
Theorem connect_decoder_grammar `{Flate2} limits c chunks rest :
  exists r, parses limits c (concat chunks) r /\ (forall r', parses limits c (concat chunks) r' -> r' = r) /\
  let yielded := yield_frames (connect_decoder_new limits c) (map Ok chunks ++ rest) in
  match r with
  | Ok (envelopes, d) => yielded = map Ok envelopes ++ yield_frames d rest
  | Err error =>
    exists before chunk after envelopes d, chunks = before ++ chunk :: after /\
      parses limits c (concat before) (Ok (envelopes, d)) /\
      parses limits c (concat (before ++ [chunk])) (Err error) /\
      yielded = map Ok envelopes ++ [Err error]
  end.
Proof.
  exists (feed_chunks (connect_decoder_new limits c) chunks). split; [by apply feed_chunks_parses|].
  split; [intros r' Hr; symmetry; by apply feed_chunks_parses|].
  pose proof (yield_frames_fed (connect_decoder_new limits c) chunks rest) as Hy. simpl.
  destruct (feed_chunks _ chunks) as [[es d]|e]; [exact Hy|].
  destruct Hy as (l & chunk & k & es & d & -> & Hl & Hle & Hy). exists l, chunk, k, es, d.
  split_and!; [done|by apply feed_chunks_parses|by apply feed_chunks_parses|done].
Qed.

(** * Round trip *)

Lemma be_bytes_length n p : n <= U32_MAX -> forall f, payload_length ([f] ++ be_bytes n ++ p) = n.
Proof.
  intros Hn f. unfold be_bytes, payload_length. simpl. unfold U32_MAX in Hn.
  assert (H1 : n / 65536 = n / 256 / 256) by (rewrite N.Div0.div_div; done).
  assert (H2 : n / 16777216 = n / 256 / 256 / 256) by (rewrite !N.Div0.div_div; done).
  rewrite H1, H2.
  pose proof (N.div_mod' n 256) as D1. pose proof (N.div_mod' (n / 256) 256) as D2.
  pose proof (N.div_mod' (n / 256 / 256) 256) as D3.
  assert (Hsmall : n / 256 / 256 / 256 < 256).
  { rewrite !N.Div0.div_div. apply N.Div0.div_lt_upper_bound. lia. }
  rewrite (N.mod_small _ _ Hsmall). lia.
Qed.

Section roundtrip.
Context `{Flate2Spec}.
Variable limits : ConnectLimits.
Variable compression : ConnectCompression.

Lemma bounded_writes_concat limit written chunks out :
  bounded_writes limit written chunks = Ok out -> out = written ++ concat chunks.
Proof.
  revert written. induction chunks as [|c chunks IH]; intros written; simpl.
  - intros [= <-]. by rewrite app_nil_r.
  - unfold bounded_write. destruct (_ <? _); [done|]. simpl. intros Hw. rewrite (IH _ Hw).
    by rewrite app_assoc.
Qed.

Lemma gzip_collect_fits decoded reads limit :
  blen (decoded ++ concat reads) <= limit -> gzip_collect decoded reads limit = Ok (decoded ++ concat reads).
Proof.
  revert decoded. induction reads as [|r reads IH]; intros decoded Hle; simpl; [by rewrite app_nil_r|].
  simpl in Hle. destruct (N.ltb_spec limit (sat_add USIZE_MAX (blen decoded) (blen r))) as [Hlt|].
  - rewrite !blen_app in Hle. unfold sat_add in Hlt. lia.
  - rewrite IH; rewrite <- app_assoc; done.
Qed.

Lemma gzip_roundtrip payload max_frame limit out :
  gzip_encode payload max_frame = Ok out -> blen payload <= limit -> gzip_decode out limit = Ok payload.
Proof.
  intros Henc Hle. apply bounded_writes_concat in Henc. simpl in Henc. subst out.
  unfold gzip_decode. rewrite gzip_collect_fits; simpl; rewrite ?gz_roundtrip; [|done].
  by rewrite gz_no_error, gz_consumed, N.eqb_refl.
Qed.

(** An encoded envelope is one frame. *)
Lemma encode_frame e out rest :
  connect_encode limits compression e = Ok out -> frame limits compression (out ++ rest) = Ok (Some (e, rest)).
Proof.
  unfold connect_encode. destruct (validate_flags (ce_flags e)) as [[]|] eqn:Hfl; [|done]. simpl.
  destruct (N.ltb_spec (max_decompressed_bytes limits) (blen (ce_payload e))) as [|Hdec]; [done|].
  intros Henc.
  match type of Henc with (let? payload := ?p in _) = _ => set (payload := p) in Henc end.
  assert (Hp : forall wire, payload = Ok wire ->
    decode_payload wire (ce_flags e) compression limits = Ok (ce_payload e)).
  { intros wire Hw. unfold payload in Hw. unfold decode_payload. unfold is_compressed in Hw.
    destruct (N.land (ce_flags e) CONNECT_FLAG_COMPRESSED =? 0); simpl in Hw.
    - injection Hw as <-. by destruct (N.ltb_spec (max_decompressed_bytes limits) (blen (ce_payload e))); [lia|].
    - destruct (is_end_stream e); [done|]. destruct (negb (beq compression Gzip)); [done|].
      by eapply gzip_roundtrip. }
  destruct payload as [wire|]; [|done]. specialize (Hp wire eq_refl). simpl in Henc.
  destruct (N.ltb_spec (max_frame_bytes limits) (blen wire)) as [|Hmax]; [done|].
  destruct (N.ltb_spec U32_MAX (blen wire)) as [|Hu32]; [done|].
  assert (Hout : out ++ rest = [ce_flags e] ++ be_bytes (blen wire) ++ wire ++ rest).
  { assert (Ho : out = [ce_flags e] ++ be_bytes (blen wire) ++ wire) by (injection Henc as <-; reflexivity).
    by rewrite Ho, <- !app_assoc. }
  assert (Hblen : blen (out ++ rest) = 5 + blen wire + blen rest).
  { rewrite Hout, !blen_app. unfold be_bytes, blen. simpl length. lia. }
  assert (Hpl : payload_length (out ++ rest) = blen wire) by (rewrite Hout; by apply be_bytes_length).
  assert (Hflags : frame_flags (out ++ rest) = ce_flags e) by by rewrite Hout.
  assert (Hdrop : drop 5 (out ++ rest) = wire ++ rest) by by rewrite Hout.
  assert (Hlen : N.to_nat (blen wire) = length wire) by (unfold blen; lia).
  unfold frame. rewrite <- drop_drop, Hblen, Hpl, Hflags, Hdrop, Hfl, Hlen. simpl result_bind.
  destruct (N.ltb_spec (5 + blen wire + blen rest) 5); [lia|].
  destruct (N.ltb_spec (max_frame_bytes limits) (blen wire)); [lia|].
  destruct (N.ltb_spec USIZE_MAX (5 + blen wire)).
  { unfold USIZE_MAX, U64_MAX, U32_MAX in *. lia. }
  destruct (N.ltb_spec (5 + blen wire + blen rest) (5 + blen wire)); [lia|].
  rewrite take_app_length, drop_app_length, Hp. simpl. by destruct e.
Qed.

Fixpoint encode_envelopes (es : list ConnectEnvelope) : Result bytes ConnectError :=
  match es with
  | [] => Ok []
  | e :: es =>
    let? out := connect_encode limits compression e in
    let? rest := encode_envelopes es in
    Ok (out ++ rest)
  end.

(** Only the last envelope ends the stream. *)
Definition well_ordered (es : list ConnectEnvelope) : Prop :=
  forall l e r, es = l ++ e :: r -> is_end_stream e = true -> r = [].

Lemma encode_envelopes_parses es out :
  well_ordered es -> encode_envelopes es = Ok out ->
  exists d, parses limits compression out (Ok (es, d)) /\ connect_finish d = Ok tt.
Proof.
  revert out. induction es as [|e es IH]; intros out Hord Henc; simpl in Henc.
  - injection Henc as <-. exists (resting limits compression []). split; [|done]. by apply parse_partial.
  - destruct (connect_encode limits compression e) as [o1|] eqn:E1; [|done]. simpl in Henc.
    destruct (encode_envelopes es) as [o2|] eqn:E2; [|done]. injection Henc as <-.
    pose proof (encode_frame e o1 o2 E1) as Hf. destruct (is_end_stream e) eqn:Hend.
    + rewrite (Hord [] e es eq_refl Hend) in *. injection E2 as <-.
      exists (ended limits compression). split; [by apply parse_end|done].
    + destruct (IH o2) as (d & Hd & Hfin); [|done|].
      { intros l x r -> Hx. by apply (Hord (e :: l) x r). }
      exists d. split; [|done]. exact (parse_next _ _ _ _ _ _ Hf Hend Hd).
Qed.
End roundtrip.

(** Envelopes survive the wire: when the encoder accepts a sequence of
    envelopes, compressed or not, of which only the last may end the stream, the
    decoder with the same limits and compression, fed the bytes in any chunks,
    returns exactly these envelopes in order and reports a clean end; no bound
    the encoder respects is refused by the decoder. *)
Theorem connect_roundtrip `{Flate2Spec} limits c es out chunks :
  well_ordered es -> encode_envelopes limits c es = Ok out -> concat chunks = out ->
  exists d, feed_chunks (connect_decoder_new limits c) chunks = Ok (es, d) /\ connect_finish d = Ok tt.
Proof.
  intros Hord Henc <-. destruct (encode_envelopes_parses limits c es _ Hord Henc) as (d & Hp & Hfin).
  exists d. split; [|done].
  assert (Hok : connect_ok (connect_decoder_new limits c)) by by right.
  rewrite feed_chunks_concat by done.
  exact (parses_fun _ _ _ _ (resting_parses limits c [] (concat chunks) eq_refl) _ Hp).
Qed.

(** A stored-only stand-in for the gzip streams. *)
Definition stored : Flate2 :=
  {| gz_writes := fun p => [p]; gz_reads := fun p => [p]; gz_error := fun _ => None; gz_position := blen |}.

Lemma stored_spec : @Flate2Spec stored.
Proof.
  split; intros p; simpl; [by rewrite !app_nil_r|done|done].
Qed.

Definition example_envelopes : list ConnectEnvelope :=
  [envelope_compressed_data [1; 2; 3]; envelope_data []; envelope_end_stream [123; 125]].

Lemma connect_roundtrip_witness :
  exists out d, @encode_envelopes stored connect_limits_default Gzip example_envelopes = Ok out /\
    @feed_chunks _ _ _ (@connect_decoder stored) (connect_decoder_new connect_limits_default Gzip)
      (map (fun b => [b]) out) = Ok (example_envelopes, d).
Proof.
  destruct (@encode_envelopes stored connect_limits_default Gzip example_envelopes) as [out|] eqn:E;
    [|discriminate E].
  destruct (@connect_roundtrip stored stored_spec connect_limits_default Gzip example_envelopes out
    (map (fun b => [b]) out)) as (d & Hd & _).
  - intros l e r Hl He. do 3 (destruct l as [|? l]; [injection Hl as <- <-; try discriminate He; try reflexivity
      |injection Hl as _ Hl]). destruct l; discriminate Hl.
  - exact E.
  - clear E. induction out as [|b out IH]; [reflexivity|]. simpl. rewrite IH. reflexivity.
  - exists out, d. split; [reflexivity|exact Hd].
Defined.
