(* ===== verification/Stream.v ===== *)
(** The commitment of one response stream (crates/pooler-http/src/stream.rs): the
    state machine that decides whether an upstream attempt may be replayed. *)
From S2P Require Import Prelude.

Open Scope N_scope.

Inductive StreamState :=
| Created | Connecting | AwaitingHeaders | ValidatingHeaders | BootstrapBuffering
| Committed_ | Completed | Disconnected | RetryableFailure | StreamFailed.

Inductive StreamEvent :=
| EvConnect | EvHeadersReceived | EvHeadersValidated | EvBootstrap | EvHeadersSent | EvCommit
| EvComplete | EvDisconnect | EvRetryableFailure | EvFailure.

#[export] Instance StreamState_eq_dec : EqDecision StreamState.
Proof. solve_decision. Defined.

Inductive CommitmentError := MkCommitmentError (state : StreamState) (event : StreamEvent).
Inductive RetryError := RetryCommitted | RetryNotRetryable | RetryTerminal.

Record StreamCommitment := MkStreamCommitment { sc_state : StreamState; sc_attempt : N; sc_committed : bool }.

Definition stream_commitment_new : StreamCommitment := MkStreamCommitment Created 0 false.

Definition sc_can_retry (c : StreamCommitment) : bool :=
  negb (sc_committed c) && beq (sc_state c) RetryableFailure.

Definition before_output (s : StreamState) : bool :=
  match s with
  | Created | Connecting | AwaitingHeaders | ValidatingHeaders | BootstrapBuffering => true
  | _ => false
  end.

(** The table of [transition]; [None] is its last arm. *)
Definition next_state (s : StreamState) (e : StreamEvent) : option StreamState :=
  match s, e with
  | Created, EvConnect => Some Connecting
  | Connecting, EvHeadersReceived => Some AwaitingHeaders
  | AwaitingHeaders, EvHeadersValidated => Some ValidatingHeaders
  | ValidatingHeaders, EvBootstrap => Some BootstrapBuffering
  | (Created | Connecting | AwaitingHeaders | ValidatingHeaders | BootstrapBuffering), EvHeadersSent =>
    Some Committed_
  | BootstrapBuffering, EvCommit => Some Committed_
  | Committed_, EvComplete => Some Completed
  | Committed_, EvDisconnect => Some Disconnected
  | Committed_, EvFailure => Some StreamFailed
  | (Created | Connecting | AwaitingHeaders | ValidatingHeaders | BootstrapBuffering), EvRetryableFailure =>
    Some RetryableFailure
  | (Created | Connecting | AwaitingHeaders | ValidatingHeaders | BootstrapBuffering), EvFailure =>
    Some StreamFailed
  | (Created | Connecting | AwaitingHeaders | ValidatingHeaders | BootstrapBuffering), EvDisconnect =>
    Some Disconnected
  | RetryableFailure, EvRetryableFailure => Some RetryableFailure
  | _, _ => None
  end.

Definition transition (event : StreamEvent) (c : StreamCommitment)
  : Result unit CommitmentError * StreamCommitment :=
  match next_state (sc_state c) event with
  | None => (Err (MkCommitmentError (sc_state c) event), c)
  | Some next =>
    (Ok tt, MkStreamCommitment next (sc_attempt c) (if beq next Committed_ then true else sc_committed c))
  end.

Definition stream_retry (c : StreamCommitment) : Result N RetryError * StreamCommitment :=
  if sc_committed c then (Err RetryCommitted, c)
  else if negb (beq (sc_state c) RetryableFailure) then
    (match sc_state c with
     | Completed | Disconnected | StreamFailed => Err RetryTerminal
     | _ => Err RetryNotRetryable
     end, c)
  else
    let attempt := sat_add U32_MAX (sc_attempt c) 1 in
    (Ok attempt, MkStreamCommitment Connecting attempt false).

(** * Histories *)

Inductive StreamOp := DoTransition (event : StreamEvent) | DoRetry.

Definition stream_apply (op : StreamOp) (c : StreamCommitment) : StreamCommitment :=
  match op with DoTransition e => (transition e c).2 | DoRetry => (stream_retry c).2 end.

Definition stream_run (ops : list StreamOp) (c : StreamCommitment) : StreamCommitment :=
  foldl (fun c op => stream_apply op c) c ops.

(** Output is visible exactly from the commitment on; the failures can be on
    either side of it. *)
Definition stream_inv (c : StreamCommitment) : Prop :=
  match sc_state c with
  | Committed_ | Completed => sc_committed c = true
  | Disconnected | StreamFailed => True
  | _ => sc_committed c = false
  end.

Lemma stream_apply_inv op c : stream_inv c -> stream_inv (stream_apply op c).
Proof.
  destruct c as [s a b]. destruct op as [e|]; unfold stream_inv, stream_apply, transition, stream_retry; simpl.
  - destruct s, e; simpl; intros; subst; done.
  - destruct b, s; simpl; done.
Qed.

Lemma stream_run_inv ops c : stream_inv c -> stream_inv (stream_run ops c).
Proof. revert c. induction ops as [|op ops IH]; intros c Hc; simpl; [done|]. by apply IH, stream_apply_inv. Qed.

Lemma stream_apply_committed op c :
  sc_committed c = true ->
  sc_committed (stream_apply op c) = true /\ sc_attempt (stream_apply op c) = sc_attempt c.
Proof.
  destruct c as [s a b]. simpl. intros ->. destruct op as [e|]; simpl; [|done].
  unfold transition. simpl. destruct (next_state s e); simpl; [|done]. by case_match.
Qed.

Lemma stream_run_committed ops c :
  sc_committed c = true ->
  sc_committed (stream_run ops c) = true /\ sc_attempt (stream_run ops c) = sc_attempt c.
Proof.
  revert c. induction ops as [|op ops IH]; intros c Hc; simpl; [done|].
  destruct (stream_apply_committed op c Hc) as [H1 H2]. rewrite <- H2. by apply IH.
Qed.

(** Where a transition can lead. *)
Lemma next_state_committed s e :
  next_state s e = Some Committed_ <->
  (before_output s = true /\ e = EvHeadersSent) \/ (s = BootstrapBuffering /\ e = EvCommit).
Proof. destruct s, e; simpl; split; try done; try (intros [[? ?]|[? ?]]; done); auto. Qed.

(** A response that became visible is never replayed: whatever sequence of
    milestones and retries a stream goes through, it counts as committed from the
    first successful [HeadersSent] or [Commit] on and for ever after, whatever
    happens later every retry is refused with the commitment as the reason and
    the attempt number stays what it was; and a retry is granted exactly in the
    retryable failure state before the commitment. *)
Theorem committed_stream_not_replayed ops later event :
  let c := stream_run ops stream_commitment_new in
  (before_output (sc_state c) = true /\ event = EvHeadersSent \/
   sc_state c = BootstrapBuffering /\ event = EvCommit ->
     let final := stream_run later (transition event c).2 in
     sc_committed final = true /\ sc_attempt final = sc_attempt c /\
     stream_retry final = (Err RetryCommitted, final)) /\
  (is_Some (next_state (sc_state c) event) -> sc_committed c = false ->
     sc_committed (transition event c).2 = true ->
     (before_output (sc_state c) = true /\ event = EvHeadersSent) \/
     (sc_state c = BootstrapBuffering /\ event = EvCommit)) /\
  ((exists n, (stream_retry c).1 = Ok n) <-> sc_state c = RetryableFailure).
Proof.
  intros c. assert (Hinv : stream_inv c) by by apply stream_run_inv. split; [|split].
  - intros Hev final. apply next_state_committed in Hev.
    assert (Hc : sc_committed (transition event c).2 = true)
      by (unfold transition; by rewrite Hev).
    assert (Ha : sc_attempt (transition event c).2 = sc_attempt c)
      by (unfold transition; by rewrite Hev).
    destruct (stream_run_committed later _ Hc) as [H1 H2]. fold final in H1, H2.
    split; [done|]. split; [by rewrite H2|]. unfold stream_retry. by rewrite H1.
  - intros [next Hnext] Hc. unfold transition. rewrite Hnext. simpl.
    case_bool_decide as Hn; [|congruence]. subst next. intros _. by apply next_state_committed.
  - unfold stream_retry. unfold stream_inv in Hinv. split.
    + intros [n Hn]. destruct (sc_committed c); [done|]. case_bool_decide; [done|].
      simpl in Hn. by destruct (sc_state c).
    + intros Hs. rewrite Hs in *. rewrite Hinv. simpl. by eexists.
Qed.

(** The retries granted in a history. *)
Fixpoint granted (ops : list StreamOp) (c : StreamCommitment) : N :=
  match ops with
  | [] => 0
  | op :: ops =>
    (match op with DoRetry => if sc_can_retry c then 1 else 0 | _ => 0 end) + granted ops (stream_apply op c)
  end.

(** Terminal outcomes are final and attempts are counted exactly: from
    [Completed], [Disconnected] and [Failed] no milestone is accepted and no retry
    granted, and the attempt number of a stream is the number of retries granted
    so far (up to the width of the counter). *)
Theorem stream_attempts_counted ops :
  sc_attempt (stream_run ops stream_commitment_new) = N.min U32_MAX (granted ops stream_commitment_new) /\
  forall c event, sc_state c = Completed \/ sc_state c = Disconnected \/ sc_state c = StreamFailed ->
    stream_apply (DoTransition event) c = c /\ stream_apply DoRetry c = c.
Proof.
  split.
  - assert (Hgen : forall c, sc_attempt (stream_run ops c) = N.min U32_MAX (sc_attempt c + granted ops c) \/
      U32_MAX < sc_attempt c).
    { induction ops as [|op ops IH]; intros c; simpl.
      - destruct (N.le_gt_cases (sc_attempt c) U32_MAX); [left; lia|by right].
      - destruct (N.le_gt_cases (sc_attempt c) U32_MAX) as [Hle|]; [left|by right].
        destruct op as [e|].
        + assert (Ha : sc_attempt (stream_apply (DoTransition e) c) = sc_attempt c)
            by (simpl; unfold transition; by destruct (next_state _ _)).
          destruct (IH (stream_apply (DoTransition e) c)) as [->|]; [|lia]. rewrite Ha. lia.
        + assert (Ha : sc_attempt (stream_apply DoRetry c) =
            if sc_can_retry c then sat_add U32_MAX (sc_attempt c) 1 else sc_attempt c).
          { simpl. unfold stream_retry, sc_can_retry. destruct (sc_committed c); [done|].
            by case_bool_decide. }
          destruct (IH (stream_apply DoRetry c)) as [->|Hgt]; rewrite Ha in *;
            destruct (sc_can_retry c); unfold sat_add in *; lia. }
    destruct (Hgen stream_commitment_new) as [H|H]; [exact H|simpl in H; unfold U32_MAX in H; lia].
  - intros c event Hs. unfold stream_apply, transition, stream_retry.
    destruct (sc_committed c); destruct Hs as [Hs|[Hs|Hs]]; rewrite Hs; by destruct event.
Qed.
