(* ===== verification/Drain.v ===== *)
(** Graceful drain (crates/pooler-http/src/drain.rs) and the runtime resource
    counters behind its permits (crates/pooler-http/src/resources.rs).

    A permit is acquired and released in several atomic actions (the mutex of the
    controller, the atomic counter of the resources), which other threads can
    interleave; each action is one step. *)
From S2P Require Import Prelude.

Open Scope N_scope.

(** * Resource counters *)

Record ResourceCount := MkResourceCount { rc_current : N; rc_peak : N }.

Definition resource_acquire (c : ResourceCount) : ResourceCount :=
  let current := (rc_current c + 1) mod (U64_MAX + 1) in
  let seen := sat_add U64_MAX (rc_current c) 1 in
  MkResourceCount current (N.max (rc_peak c) seen).

(** [Drop for RuntimeResourceGuard]: [fetch_sub] wraps. *)
Definition resource_release (c : ResourceCount) : ResourceCount :=
  MkResourceCount ((rc_current c + U64_MAX) mod (U64_MAX + 1)) (rc_peak c).

Record RuntimeResourceSnapshot := MkResourceSnapshot {
  rs_tasks : N; rs_permits : N; rs_refresh_leases : N; rs_temporary_files : N; rs_secret_material : N;
  rs_peak_tasks : N; rs_peak_permits : N; rs_peak_refresh_leases : N; rs_peak_temporary_files : N;
  rs_peak_secret_material : N;
}.

Definition snapshot_is_zero (s : RuntimeResourceSnapshot) : bool :=
  (rs_tasks s =? 0) && (rs_permits s =? 0) && (rs_refresh_leases s =? 0) && (rs_temporary_files s =? 0)
  && (rs_secret_material s =? 0).

Definition snapshot_merge (a b : RuntimeResourceSnapshot) : RuntimeResourceSnapshot :=
  let add := sat_add U64_MAX in
  MkResourceSnapshot (add (rs_tasks a) (rs_tasks b)) (add (rs_permits a) (rs_permits b))
    (add (rs_refresh_leases a) (rs_refresh_leases b)) (add (rs_temporary_files a) (rs_temporary_files b))
    (add (rs_secret_material a) (rs_secret_material b)) (add (rs_peak_tasks a) (rs_peak_tasks b))
    (add (rs_peak_permits a) (rs_peak_permits b))
    (add (rs_peak_refresh_leases a) (rs_peak_refresh_leases b))
    (add (rs_peak_temporary_files a) (rs_peak_temporary_files b))
    (add (rs_peak_secret_material a) (rs_peak_secret_material b)).

(** * The controller *)

Record DrainState := MkDrainState { ds_active : N; ds_draining : bool }.

(** The locked part of [try_acquire]: refused once draining. *)
Definition try_acquire (s : DrainState) : bool * DrainState :=
  if ds_draining s then (false, s)
  else (true, MkDrainState (sat_add USIZE_MAX (ds_active s) 1) (ds_draining s)).

Definition begin_drain (s : DrainState) : DrainState := MkDrainState (ds_active s) true.

(** The locked part of [DrainGuard::release]. *)
Definition release_active (s : DrainState) : DrainState :=
  MkDrainState (sat_sub (ds_active s) 1) (ds_draining s).

(** What [drain] reports once its wait ended. *)
Inductive DrainError := DrainTimeout (active : N).
Definition drain_result (timed_out : bool) (s : DrainState) : Result unit DrainError :=
  if timed_out then Err (DrainTimeout (ds_active s)) else Ok tt.

(** Where a guard is between its actions: counted as active, holding its resource
    permit, released but still counted, and gone. *)
Inductive GuardPhase := Counted | Held | Releasing | Gone.

#[export] Instance GuardPhase_eq_dec : EqDecision GuardPhase.
Proof. solve_decision. Defined.

Record Drain := MkDrain { dr_state : DrainState; dr_permits : ResourceCount; dr_guards : list GuardPhase }.

Definition drain_new : Drain := MkDrain (MkDrainState 0 false) (MkResourceCount 0 0) [].

Inductive drain_step : Drain -> Drain -> Prop :=
| step_acquire s p g s' :
    N.of_nat (length g) < USIZE_MAX -> try_acquire s = (true, s') ->
    drain_step (MkDrain s p g) (MkDrain s' p (g ++ [Counted]))
| step_refuse s p g s' : try_acquire s = (false, s') -> drain_step (MkDrain s p g) (MkDrain s' p g)
| step_permit s p g i :
    g !! i = Some Counted -> drain_step (MkDrain s p g) (MkDrain s (resource_acquire p) (<[i := Held]> g))
| step_release s p g i :
    g !! i = Some Held -> drain_step (MkDrain s p g) (MkDrain s (resource_release p) (<[i := Releasing]> g))
| step_release_again s p g i phase :
    g !! i = Some phase -> phase = Releasing \/ phase = Gone -> drain_step (MkDrain s p g) (MkDrain s p g)
| step_decrement s p g i :
    g !! i = Some Releasing -> drain_step (MkDrain s p g) (MkDrain (release_active s) p (<[i := Gone]> g))
| step_begin s p g : drain_step (MkDrain s p g) (MkDrain (begin_drain s) p g).

Inductive drain_reachable : Drain -> Prop :=
| drain_init : drain_reachable drain_new
| drain_next x y : drain_reachable x -> drain_step x y -> drain_reachable y.

(** * Invariant *)

Definition counted (phase : GuardPhase) : bool := negb (beq phase Gone).
Definition holding (phase : GuardPhase) : bool := beq phase Held.

Definition count (f : GuardPhase -> bool) (g : list GuardPhase) : N := N.of_nat (length (List.filter f g)).

Lemma count_app f g h : count f (g ++ h) = count f g + count f h.
Proof. unfold count. rewrite List.filter_app, length_app. lia. Qed.

Lemma count_insert f g i old new :
  g !! i = Some old ->
  count f (<[i := new]> g) + (if f old then 1 else 0) = count f g + (if f new then 1 else 0).
Proof.
  intros Hi. rewrite insert_take_drop by by eapply lookup_lt_Some.
  rewrite <- (take_drop_middle g i old Hi) at 3. rewrite !count_app. unfold count. simpl.
  destruct (f old), (f new); simpl; lia.
Qed.

Lemma count_le f g : count f g <= N.of_nat (length g).
Proof. unfold count. induction g as [|x g IH]; simpl; [lia|]. destruct (f x); simpl; lia. Qed.

Record drain_inv (x : Drain) : Prop := {
  inv_active : ds_active (dr_state x) = count counted (dr_guards x);
  inv_permits : rc_current (dr_permits x) = count holding (dr_guards x);
  inv_room : N.of_nat (length (dr_guards x)) <= USIZE_MAX;
  inv_peak : rc_current (dr_permits x) <= rc_peak (dr_permits x);
}.

Lemma drain_step_inv x y : drain_step x y -> drain_inv x -> drain_inv y.
Proof.
  intros Hstep [Ha Hp Hr Hk]. destruct Hstep as [s p g s' Hlen Hacq|s p g s' Hacq|s p g i Hi|s p g i Hi
    |s p g i phase Hi Hph|s p g i Hi|s p g]; simpl in *; unfold try_acquire in *.
  - destruct (ds_draining s); [done|]. injection Hacq as <-. pose proof (count_le counted g).
    split; simpl; rewrite ?count_app, ?length_app; unfold sat_add, count; simpl; unfold count in *; lia.
  - destruct (ds_draining s); [|done]. by injection Hacq as <-.
  - pose proof (count_insert counted _ _ _ Held Hi) as H1. pose proof (count_insert holding _ _ _ Held Hi) as H2.
    pose proof (count_le holding (<[i := Held]> g)). rewrite length_insert in *.
    unfold counted, holding in H1, H2. simpl in H1, H2. unfold counted, holding.
    assert (Hc : rc_current (resource_acquire p) = rc_current p + 1).
    { apply N.mod_small. unfold USIZE_MAX, holding in *. lia. }
    assert (Hm : rc_peak (resource_acquire p) = N.max (rc_peak p) (rc_current p + 1)).
    { unfold resource_acquire, sat_add. cbn [rc_peak]. unfold USIZE_MAX, holding in *. lia. }
    split; cbn [dr_state dr_permits dr_guards]; rewrite ?length_insert, ?Hc, ?Hm; unfold counted, holding in *; lia.
  - pose proof (count_insert counted _ _ _ Releasing Hi) as H1.
    pose proof (count_insert holding _ _ _ Releasing Hi) as H2.
    pose proof (count_le holding g). unfold counted, holding in H1, H2. simpl in H1, H2.
    assert (Hc : rc_current (resource_release p) = rc_current p - 1).
    { unfold resource_release. cbn [rc_current].
      replace (rc_current p + U64_MAX) with ((rc_current p - 1) + 1 * (U64_MAX + 1))
        by (unfold holding in *; lia).
      rewrite N.Div0.mod_add. apply N.mod_small. unfold USIZE_MAX, holding in *. lia. }
    split; cbn [dr_state dr_permits dr_guards]; rewrite ?length_insert, ?Hc; unfold counted, holding in *; try lia.
    change (rc_peak (resource_release p)) with (rc_peak p). lia.
  - done.
  - pose proof (count_insert counted _ _ _ Gone Hi) as H1. pose proof (count_insert holding _ _ _ Gone Hi) as H2.
    unfold counted, holding in H1, H2. simpl in H1, H2.
    split; simpl; rewrite ?length_insert; unfold counted, holding, sat_sub in *; lia.
  - done.
Qed.

Lemma drain_reachable_inv x : drain_reachable x -> drain_inv x.
Proof.
  induction 1 as [|x y _ IH Hs]; [|by eapply drain_step_inv]. split; simpl; unfold count; simpl; lia.
Qed.

Lemma count_zero f g : count f g = 0 -> Forall (fun p => f p = false) g.
Proof.
  unfold count. induction g as [|x g IH]; simpl; intros H; [constructor|].
  destruct (f x) eqn:E; simpl in H; [lia|]. constructor; [done|]. by apply IH.
Qed.

(** One step never adds an active request once draining has begun. *)
Lemma drain_step_draining x y :
  drain_step x y -> drain_inv x -> ds_draining (dr_state x) = true ->
  ds_draining (dr_state y) = true /\ ds_active (dr_state y) <= ds_active (dr_state x) /\
  length (dr_guards y) = length (dr_guards x).
Proof.
  intros Hstep Hinv Hd. destruct Hstep; simpl in *; unfold try_acquire in *; rewrite ?Hd in *; simplify_eq;
    rewrite ?length_insert; simpl; unfold sat_sub; try (repeat split; try done; lia).
Qed.

(** Draining waits for every admitted request: in every interleaving of
    acquisitions, releases and the beginning of the drain, the active count is
    the number of requests admitted and not yet finished and the permit counter
    the number of those that still hold their resources; once draining has begun
    no later step admits a request or raises the count; and when the count is
    zero, which is what [drain] waits for, every admitted request has finished
    and holds no resource any more. *)
Theorem drain_accounting x :
  drain_reachable x ->
  ds_active (dr_state x) = count counted (dr_guards x) /\
  rc_current (dr_permits x) = count holding (dr_guards x) /\
  (ds_draining (dr_state x) = true -> forall y, drain_step x y ->
     ds_draining (dr_state y) = true /\ ds_active (dr_state y) <= ds_active (dr_state x) /\
     length (dr_guards y) = length (dr_guards x)) /\
  (ds_active (dr_state x) = 0 -> Forall (fun p => p = Gone) (dr_guards x) /\ rc_current (dr_permits x) = 0).
Proof.
  intros Hx. pose proof (drain_reachable_inv x Hx) as Hinv. pose proof Hinv as [Ha Hp _ _].
  split; [done|]. split; [done|]. split.
  - intros Hd y Hy. by eapply drain_step_draining.
  - intros Hz. rewrite Ha in Hz. apply count_zero in Hz.
    assert (Hgone : Forall (fun p => p = Gone) (dr_guards x)).
    { eapply Forall_impl; [exact Hz|]. intros p Hpz. unfold counted in Hpz. by case_bool_decide. }
    split; [done|]. rewrite Hp. clear -Hgone. unfold count.
    induction Hgone as [|p g -> _ IH]; [done|]. simpl. exact IH.
Qed.

Lemma drain_accounting_witness :
  exists x, drain_reachable x /\ ds_draining (dr_state x) = true /\ ds_active (dr_state x) = 1 /\
    rc_current (dr_permits x) = count holding (dr_guards x).
Proof.
  set (x0 := MkDrain (MkDrainState 1 false) (MkResourceCount 0 0) [Counted]).
  set (x1 := MkDrain (MkDrainState 1 false) (MkResourceCount 1 1) [Held]).
  set (x2 := MkDrain (MkDrainState 1 true) (MkResourceCount 1 1) [Held]).
  assert (H0 : drain_reachable x0).
  { eapply drain_next; [apply drain_init|].
    apply (step_acquire (MkDrainState 0 false) (MkResourceCount 0 0) []); [reflexivity|reflexivity]. }
  assert (H1 : drain_reachable x1).
  { eapply drain_next; [exact H0|]. exact (step_permit (MkDrainState 1 false) (MkResourceCount 0 0) [Counted] 0 eq_refl). }
  assert (H2 : drain_reachable x2).
  { eapply drain_next; [exact H1|]. exact (step_begin (MkDrainState 1 false) (MkResourceCount 1 1) [Held]). }
  exists x2. split; [exact H2|]. split; [reflexivity|]. split; [reflexivity|].
  exact (proj1 (proj2 (drain_accounting x2 H2))).
Defined.
