(* ===== verification/RouteMatch.v ===== *)
(** Route matching (crates/pooler-config/src/route_match.rs) and the part of the
    configuration compiler that builds the route table (the matcher of a route,
    precedence and conflict detection of crates/pooler-config/src/lib.rs).

    The http crate (header maps, authorities, methods and header names) is a
    parameter, the class [Http].  A [RoutePlan] keeps the fields routing reads. *)
From stdpp Require Import pretty.
From S2P Require Import Prelude Str.

Open Scope N_scope.

(** * The http crate *)

(** [get_all] lists the values of a header in order, each as [to_str] shows it;
    [parse_authority] gives host and port; [method_valid] and [header_name] are
    [Method::from_bytes] and [HeaderName::from_bytes] with [as_str]. *)
Class Http := {
  HeaderMap : Type;
  get_all : HeaderMap -> string -> list (option string);
  parse_authority : string -> option (string * option N);
  method_valid : string -> bool;
  header_name : string -> option string;
}.

Definition CH_SLASH : Ascii.ascii := Ascii.ascii_of_N 0x2F.
Definition CH_QUESTION : Ascii.ascii := Ascii.ascii_of_N 0x3F.
Definition CH_SEMICOLON : Ascii.ascii := Ascii.ascii_of_N 0x3B.
Definition CH_COMMA : Ascii.ascii := Ascii.ascii_of_N 0x2C.
Definition CH_OPEN : Ascii.ascii := Ascii.ascii_of_N 0x7B.
Definition CH_CLOSE : Ascii.ascii := Ascii.ascii_of_N 0x7D.
Definition CH_CR : Ascii.ascii := Ascii.ascii_of_N 0x0D.
Definition CH_LF : Ascii.ascii := Ascii.ascii_of_N 0x0A.

(** * Data *)

Record SourceLabel := MkSourceLabel {
  sl_source : string; sl_line : option N; sl_column : option N; sl_path : string }.

Inductive PathPattern :=
| PathExact (path : string)
| PathTemplate (path : string)
| PathPrefix (path : string)
| PathAny.

Definition specificity (p : PathPattern) : N :=
  match p with PathExact _ => 3 | PathTemplate _ => 2 | PathPrefix _ => 1 | PathAny => 0 end.

Record MatchPlan := MkMatchPlan {
  mp_methods : list string;
  mp_host : option string;
  mp_path : PathPattern;
  mp_headers : gmap string string;
  mp_content_types : list string;
  mp_websocket : option bool;
}.

Record RoutePlan := MkRoutePlan {
  rp_id : string;
  rp_listener : string;
  rp_matcher : MatchPlan;
  rp_priority : Z;
  rp_order : N;
  rp_source : SourceLabel;
}.

(** The errors of the compiler that this part can raise. *)
Inductive ConfigError :=
| Invalid (label : SourceLabel) (message : string)
| RouteConflict (first_route : string) (first : SourceLabel) (second_route : string) (second : SourceLabel).

Inductive RouteMatchError :=
| NoMatch (listener path : string)
| MethodNotAllowed (listener method path : string)
| ContentTypeNotAllowed (listener content_type path : string).

Section route_match.
Context `{Http}.

Record RouteRequest := MkRouteRequest {
  rq_listener : string;
  rq_method : string;
  rq_path : string;
  rq_host : option string;
  rq_headers : HeaderMap;
  rq_content_type : option string;
  rq_websocket : option bool;
}.

(** [from_http] on the request's method, path, authority and headers. *)
Definition from_http (listener method path : string) (authority : option string) (headers : HeaderMap)
  : RouteRequest :=
  MkRouteRequest listener method path authority headers None None.

(** [HeaderMap::get] is the first value. *)
Definition header_text (headers : HeaderMap) (name : string) : option string :=
  match get_all headers name with v :: _ => v | [] => None end.

(** * Paths *)

Definition route_path (path : string) : string :=
  match str_split_once CH_QUESTION path with Some (path, _) => path | None => path end.

Definition prefix_matches (prefix path : string) : bool :=
  if String.eqb prefix "/" || String.eqb path prefix then true
  else if ends_with_char prefix CH_SLASH then starts_with path prefix
  else is_some_and (strip_prefix path prefix) (fun remaining => starts_with_char remaining CH_SLASH).

(** [is_template_segment] of route_match.rs. *)
Definition is_template_segment (segment : string) : bool :=
  starts_with_char segment CH_OPEN && ends_with_char segment CH_CLOSE && (2 <? str_len segment).

Definition segment_matches (segments : string * string) : bool :=
  if is_template_segment segments.1 then negb (str_is_empty segments.2)
  else String.eqb segments.1 segments.2.

Definition template_matches (template path : string) : bool :=
  Nat.eqb (length (split_on CH_SLASH template)) (length (split_on CH_SLASH path))
  && forallb segment_matches (zip (split_on CH_SLASH template) (split_on CH_SLASH path)).

Definition path_matches (pattern : PathPattern) (path : string) : bool :=
  match pattern with
  | PathExact expected => String.eqb expected path
  | PathTemplate template => template_matches template path
  | PathPrefix prefix => prefix_matches prefix path
  | PathAny => true
  end.

(** * Host, headers, method, content type and upgrade *)

Definition normalize_authority (value : string) : option (string * option N) :=
  match parse_authority (trim value) with
  | Some (host, port) => Some (to_ascii_lowercase (trim_end_char host DOT), port)
  | None => None
  end.

Definition host_matches (expected explicit : option string) (headers : HeaderMap) : bool :=
  match expected with
  | None => true
  | Some expected =>
    let actual := or_else explicit (header_text headers "host") in
    match normalize_authority expected with
    | None => false
    | Some (expected_host, expected_port) =>
      is_some_and (actual ≫= normalize_authority) (fun '(actual_host, actual_port) =>
        String.eqb actual_host expected_host
        && is_none_or expected_port (fun port => beq actual_port (Some port)))
    end
  end.

Definition headers_match (expected_headers : gmap string string) (headers : HeaderMap) : bool :=
  forallb (fun '(name, expected) =>
    existsb (fun value => is_some_and value (fun v => String.eqb (trim v) expected)) (get_all headers name))
    (map_to_list expected_headers).

Definition method_matches_route (route : RoutePlan) (method : string) : bool :=
  match mp_methods (rp_matcher route) with
  | [] => true
  | methods => existsb (fun expected => String.eqb expected method) methods
  end.

(** [normalize_content_type] of route_match.rs. *)
Definition normalize_content_type (value : string) : string :=
  to_ascii_lowercase (trim (hd value (split_on CH_SEMICOLON value))).

Definition media_type_wildcard_matches (expected actual : string) : bool :=
  String.eqb expected "*/*"
  || is_some_and (strip_suffix expected "/*") (fun prefix =>
       starts_with actual prefix
       && starts_with_char (str_skip (String.length prefix) actual) CH_SLASH).

Definition content_type_matches (expected : list string) (actual : option string) : bool :=
  match expected with
  | [] => true
  | _ =>
    match normalize_content_type <$> actual with
    | None => false
    | Some actual =>
      existsb (fun value => String.eqb value actual || media_type_wildcard_matches value actual)
        (map normalize_content_type expected)
    end
  end.

Definition request_content_type (request : RouteRequest) : option string :=
  normalize_content_type <$>
    or_else (rq_content_type request) (header_text (rq_headers request) "content-type").

Definition websocket_matches (expected : option bool) (actual : bool) : bool :=
  is_none_or expected (fun e => Bool.eqb e actual).

Definition request_websocket_headers (headers : HeaderMap) : bool :=
  let upgrade := is_some_and (header_text headers "upgrade") (fun v => eq_ignore_ascii_case v "websocket") in
  let connection :=
    (fun v => existsb (fun part => eq_ignore_ascii_case (trim part) "upgrade") (split_on CH_COMMA v))
      <$> header_text headers "connection" in
  upgrade && default true connection.

Definition request_websocket (request : RouteRequest) : bool :=
  default (request_websocket_headers (rq_headers request)) (rq_websocket request).

(** * Selection *)

(** The guard of the loop of [match_route_request]. *)
Definition structural (request : RouteRequest) (route : RoutePlan) : bool :=
  String.eqb (rp_listener route) (rq_listener request)
  && path_matches (mp_path (rp_matcher route)) (route_path (rq_path request))
  && host_matches (mp_host (rp_matcher route)) (rq_host request) (rq_headers request)
  && headers_match (mp_headers (rp_matcher route)) (rq_headers request)
  && websocket_matches (mp_websocket (rp_matcher route)) (request_websocket request).

Definition request_method (request : RouteRequest) : string := to_ascii_uppercase (rq_method request).

(** The loop over the routes with its two flags. *)
Fixpoint match_loop (request : RouteRequest) (structural_match method_match : bool) (routes : list RoutePlan)
  : Result RoutePlan RouteMatchError :=
  match routes with
  | [] =>
    let path := route_path (rq_path request) in
    if negb structural_match then Err (NoMatch (rq_listener request) path)
    else if negb method_match then Err (MethodNotAllowed (rq_listener request) (request_method request) path)
    else Err (ContentTypeNotAllowed (rq_listener request) (default EmptyString (request_content_type request)) path)
  | route :: routes =>
    if negb (structural request route) then match_loop request structural_match method_match routes
    else if negb (method_matches_route route (request_method request))
    then match_loop request true method_match routes
    else if content_type_matches (mp_content_types (rp_matcher route)) (request_content_type request)
    then Ok route
    else match_loop request true true routes
  end.

Definition match_route_request (routes : list RoutePlan) (request : RouteRequest)
  : Result RoutePlan RouteMatchError :=
  match_loop request false false routes.

(** * Compiling a matcher *)

Record MatchConfig := MkMatchConfig {
  mc_methods : list string;
  mc_method : option string;
  mc_host : option string;
  mc_path : option string;
  mc_path_template : option string;
  mc_path_prefix : option string;
  mc_headers : gmap string string;
  mc_content_types : list string;
  mc_websocket : option bool;
}.

Definition decimal (n : N) : string := pretty n.

Definition canonical_authority (value : string) : option string :=
  match normalize_authority value with
  | Some (host, Some port) => Some (host +:+ ":" +:+ decimal port)%string
  | Some (host, None) => Some host
  | None => None
  end.

Definition valid_path (value : string) (label : SourceLabel) : Result string ConfigError :=
  let value := trim value in
  if str_is_empty value || negb (starts_with_char value CH_SLASH) || contains_char value CH_QUESTION
  then Err (Invalid label "route path must be absolute and query-free")
  else Ok value.

(** [is_template_segment] of lib.rs. *)
Definition is_template_parameter (segment : string) : bool :=
  (2 <? str_len segment) && starts_with_char segment CH_OPEN && ends_with_char segment CH_CLOSE
  && forallb (fun c => char_is_ascii_alphanumeric c || is_underscore_or_dash c)
       (chars (String.substring 1 (String.length segment - 2) segment)).

Definition valid_template_path (value : string) (label : SourceLabel) : Result string ConfigError :=
  let? path := valid_path value label in
  if existsb (fun segment => (contains_char segment CH_OPEN || contains_char segment CH_CLOSE)
                             && negb (is_template_parameter segment))
       (tl (split_on CH_SLASH path))
  then Err (Invalid label "route path template contains an invalid parameter")
  else Ok path.

Definition token_punctuation : list N := bytes_of "!#$%&'*+-.^_`|~".
Definition is_token_char (c : N) : bool :=
  char_is_ascii_alphanumeric c || existsb (N.eqb c) token_punctuation.

(** [normalize_content_type] of lib.rs. *)
Definition compile_content_type (value : string) (label : SourceLabel) : Result string ConfigError :=
  let value := to_ascii_lowercase (trim (hd EmptyString (split_on CH_SEMICOLON value))) in
  match str_split_once CH_SLASH value with
  | None => Err (Invalid label "content type must be a valid media type")
  | Some (media_type, subtype) =>
    if str_is_empty value || existsb char_is_control (chars value) || existsb char_is_whitespace (chars value)
       || negb (Nat.eqb (count_char value CH_SLASH) 1) || str_is_empty media_type || str_is_empty subtype
       || (negb (String.eqb media_type "*") && negb (forallb is_token_char (chars media_type)))
       || (negb (String.eqb subtype "*") && negb (forallb is_token_char (chars subtype)))
    then Err (Invalid label "content type must be a valid media type")
    else if String.eqb media_type "*" && negb (String.eqb subtype "*")
    then Err (Invalid label "content type wildcard must be */* or type/*")
    else Ok value
  end.

(** [if set.insert(x) { out.push(x) }]. *)
Definition push_new (out : list string) (x : string) : list string :=
  if existsb (String.eqb x) out then out else out ++ [x].

Fixpoint compile_methods (methods out : list string) (label : SourceLabel) : Result (list string) ConfigError :=
  match methods with
  | [] => Ok out
  | method :: methods =>
    let method := to_ascii_uppercase (trim method) in
    if method_valid method then compile_methods methods (push_new out method) label
    else Err (Invalid label "invalid route method")
  end.

Fixpoint compile_content_types (types out : list string) (label : SourceLabel)
  : Result (list string) ConfigError :=
  match types with
  | [] => Ok out
  | t :: types =>
    let? t := compile_content_type t label in compile_content_types types (push_new out t) label
  end.

Fixpoint compile_header_list (values : list (string * string)) (out : gmap string string) (label : SourceLabel)
  : Result (gmap string string) ConfigError :=
  match values with
  | [] => Ok out
  | (name, value) :: values =>
    match header_name name with
    | None => Err (Invalid label "invalid route header name")
    | Some name =>
      if contains_char value CH_CR || contains_char value CH_LF
      then Err (Invalid label "route header contains a newline")
      else compile_header_list values (<[name := trim value]> out) label
    end
  end.

Definition compile_headers (values : gmap string string) (label : SourceLabel)
  : Result (gmap string string) ConfigError :=
  compile_header_list (btree_list String.compare values) ∅ label.

Definition compile_path (d : MatchConfig) (label : SourceLabel) : Result PathPattern ConfigError :=
  let declared (o : option string) : N := if is_some o then 1 else 0 in
  if 1 <? declared (mc_path d) + declared (mc_path_template d) + declared (mc_path_prefix d)
  then Err (Invalid label "choose only one route path matcher")
  else match mc_path d, mc_path_template d, mc_path_prefix d with
  | Some path, _, _ => let? p := valid_path path label in Ok (PathExact p)
  | None, Some path, _ => let? p := valid_template_path path label in Ok (PathTemplate p)
  | None, None, Some path => let? p := valid_path path label in Ok (PathPrefix p)
  | None, None, None => Ok PathAny
  end.

Definition match_config_default : MatchConfig := MkMatchConfig [] None None None None None ∅ [] None.

Definition compile_match (declaration : option MatchConfig) (label : SourceLabel)
  : Result MatchPlan ConfigError :=
  let d := default match_config_default declaration in
  let? methods := compile_methods (mc_methods d ++ option_list (mc_method d)) [] label in
  let? path := compile_path d label in
  let? host :=
    match mc_host d with
    | None => Ok None
    | Some value =>
      match canonical_authority value with
      | Some host => Ok (Some host)
      | None => Err (Invalid label "route host must be a valid HTTP authority")
      end
    end in
  let? headers := compile_headers (mc_headers d) label in
  let? content_types := compile_content_types (mc_content_types d) [] label in
  Ok (MkMatchPlan methods host path headers content_types (mc_websocket d)).

(** * Conflicts *)

Definition methods_overlap (first second : list string) : bool :=
  match first, second with
  | [], _ | _, [] => true
  | _, _ => existsb (fun m => existsb (String.eqb m) second) first
  end.

Definition authorities_overlap (first second : option string) : bool :=
  match first, second with
  | Some first, Some second =>
    match normalize_authority first, normalize_authority second with
    | Some (h1, p1), Some (h2, p2) => String.eqb h1 h2 && (is_none p1 || is_none p2 || beq p1 p2)
    | _, _ => false
    end
  | _, _ => true
  end.

Definition bools_overlap (first second : option bool) : bool :=
  is_none first || is_none second || beq first second.

Definition maps_overlap (first second : gmap string string) : bool :=
  let agree (a b : gmap string string) :=
    forallb (fun '(key, value) => is_none_or (b !! key) (fun other => String.eqb other value)) (map_to_list a) in
  agree first second && agree second first.

Definition media_types_overlap (first second : string) : bool :=
  match str_split_once CH_SLASH first, str_split_once CH_SLASH second with
  | Some (first_type, first_subtype), Some (second_type, second_subtype) =>
    if String.eqb first "*/*" || String.eqb second "*/*" then true
    else
      let first_wildcard := String.eqb first_subtype "*" && negb (String.eqb first_type "*") in
      let second_wildcard := String.eqb second_subtype "*" && negb (String.eqb second_type "*") in
      match first_wildcard, second_wildcard with
      | true, true => String.eqb first_type second_type
      | true, false => String.eqb first_type second_type
      | false, true => String.eqb first_type second_type
      | false, false => String.eqb first second
      end
  | _, _ => false
  end.

Definition content_types_overlap (first second : list string) : bool :=
  match first, second with
  | [], _ | _, [] => true
  | _, _ => existsb (fun a => existsb (fun b => media_types_overlap a b) second) first
  end.

Definition template_templates_overlap (first second : string) : bool :=
  let first_segments := tl (split_on CH_SLASH first) in
  let second_segments := tl (split_on CH_SLASH second) in
  Nat.eqb (length first_segments) (length second_segments)
  && forallb (fun '(a, b) => String.eqb a b || is_template_parameter a || is_template_parameter b)
       (zip first_segments second_segments).

Definition template_prefix_overlap (template prefix : string) : bool :=
  let template_segments := tl (split_on CH_SLASH template) in
  let prefix_segments := tl (split_on CH_SLASH prefix) in
  Nat.leb (length prefix_segments) (length template_segments)
  && forallb (fun '(t, p) => is_template_parameter t || String.eqb t p) (zip template_segments prefix_segments).

Definition paths_overlap (first second : PathPattern) : bool :=
  match first, second with
  | PathAny, _ | _, PathAny => true
  | PathExact a, PathExact b => String.eqb a b
  | PathPrefix a, PathPrefix b => prefix_matches a b || prefix_matches b a
  | PathExact exact, PathPrefix prefix | PathPrefix prefix, PathExact exact => prefix_matches prefix exact
  | PathTemplate template, PathPrefix prefix | PathPrefix prefix, PathTemplate template =>
    template_prefix_overlap template prefix
  | PathExact exact, PathTemplate template | PathTemplate template, PathExact exact =>
    template_matches template exact
  | PathTemplate first, PathTemplate second => template_templates_overlap first second
  end.

Definition routes_overlap (first second : RoutePlan) : bool :=
  let a := rp_matcher first in
  let b := rp_matcher second in
  methods_overlap (mp_methods a) (mp_methods b)
  && authorities_overlap (mp_host a) (mp_host b)
  && paths_overlap (mp_path a) (mp_path b)
  && maps_overlap (mp_headers a) (mp_headers b)
  && content_types_overlap (mp_content_types a) (mp_content_types b)
  && bools_overlap (mp_websocket a) (mp_websocket b).

Record Precedence := MkPrecedence {
  path_specificity : N; header_specificity : nat; pr_priority : Z; config_order : N }.

Definition precedence (r : RoutePlan) : Precedence :=
  MkPrecedence (specificity (mp_path (rp_matcher r))) (size (mp_headers (rp_matcher r)))
    (rp_priority r) (rp_order r).

(** The guard of the inner loop of [detect_conflicts]. *)
Definition same_rank (first second : RoutePlan) : bool :=
  String.eqb (rp_listener first) (rp_listener second)
  && (path_specificity (precedence first) =? path_specificity (precedence second))
  && Nat.eqb (header_specificity (precedence first)) (header_specificity (precedence second))
  && Z.eqb (rp_priority first) (rp_priority second).

Fixpoint detect_conflicts (routes : list RoutePlan) : Result unit ConfigError :=
  match routes with
  | [] => Ok tt
  | first :: rest =>
    match List.find (fun second => same_rank first second && routes_overlap first second) rest with
    | Some second =>
      Err (RouteConflict (rp_id first) (rp_source first) (rp_id second) (rp_source second))
    | None => detect_conflicts rest
    end
  end.

Definition compare_routes (first second : RoutePlan) : comparison :=
  N.compare (specificity (mp_path (rp_matcher second))) (specificity (mp_path (rp_matcher first)))
  <|> Nat.compare (size (mp_headers (rp_matcher second))) (size (mp_headers (rp_matcher first)))
  <|> Z.compare (rp_priority second) (rp_priority first)
  <|> N.compare (rp_order first) (rp_order second).

(** The end of the compilation: no conflict, then the sort. *)
Definition build_route_table (routes : list RoutePlan) : Result (list RoutePlan) ConfigError :=
  let? _ := detect_conflicts routes in
  Ok (sort_by compare_routes routes).
End route_match.
