(* ===== verification/RouteFacts.v ===== *)
(** Properties of route matching: what each kind of path pattern accepts, which
    route or error a request gets, and that conflict detection leaves no request
    with two equally ranked routes. *)
From S2P Require Import Prelude Str Bytes RouteMatch.

Open Scope N_scope.

(** * Paths *)

(** What a pattern accepts, segment by segment. *)
Definition segment_spec (template segment : string) : Prop :=
  if is_template_segment template then segment <> EmptyString else segment = template.

(** [prefix] without the slash it may end in. *)
Definition prefix_base (prefix : string) : string := default prefix (strip_suffix prefix "/").

Definition path_spec (pattern : PathPattern) (path : string) : Prop :=
  match pattern with
  | PathExact expected => path = expected
  | PathTemplate template => Forall2 segment_spec (split_on CH_SLASH template) (split_on CH_SLASH path)
  | PathPrefix prefix =>
    prefix = "/"%string \/
    exists rest, split_on CH_SLASH path = split_on CH_SLASH (prefix_base prefix) ++ rest /\
      (ends_with_char prefix CH_SLASH = true -> rest <> [])
  | PathAny => True
  end.

Lemma segment_matches_spec t p : segment_matches (t, p) = true <-> segment_spec t p.
Proof.
  unfold segment_matches, segment_spec. simpl. destruct (is_template_segment t).
  - destruct p; simpl; split; done.
  - rewrite String.eqb_eq. split; congruence.
Qed.

Lemma forallb_zip_Forall2 {A B} (f : A * B -> bool) (P : A -> B -> Prop) l k :
  (forall a b, f (a, b) = true <-> P a b) ->
  Nat.eqb (length l) (length k) && forallb f (zip l k) = true <-> Forall2 P l k.
Proof.
  intros Hf. rewrite andb_true_iff, Nat.eqb_eq. split.
  - intros [Hl Hz]. revert k Hl Hz. induction l as [|a l IH]; intros [|b k]; try done; simpl.
    rewrite andb_true_iff. intros [= Hl] [Hab Hz]. constructor; [by apply Hf|]. by apply IH.
  - induction 1 as [|a b l k Hab _ [IH1 IH2]]; [done|]. simpl. rewrite andb_true_iff.
    split; [by rewrite IH1|]. split; [by apply Hf|done].
Qed.

Lemma template_matches_spec t p :
  template_matches t p = true <-> Forall2 segment_spec (split_on CH_SLASH t) (split_on CH_SLASH p).
Proof. apply forallb_zip_Forall2. intros. apply segment_matches_spec. Qed.

Lemma strip_suffix_snoc q c : strip_suffix (q +:+ String c EmptyString)%string (String c EmptyString) = Some q.
Proof.
  induction q as [|a q IH]; [simpl; by rewrite Ascii.eqb_refl|].
  change (String a q +:+ String c "")%string with (String a (q +:+ String c "")). cbn [strip_suffix].
  destruct (String.eqb_spec (String a (q +:+ String c "")) (String c "")) as [[= _ E]|]; [by destruct q|].
  by rewrite IH.
Qed.

Lemma strip_suffix_char s c :
  ends_with_char s c = false -> strip_suffix s (String c EmptyString) = None.
Proof.
  intros Hs. destruct (strip_suffix s (String c "")) as [q|] eqn:E; [|done]. exfalso.
  assert (Hq : s = (q +:+ String c EmptyString)%string).
  { clear Hs. revert q E. induction s as [|a s IH]; intros q; [done|]. cbn [strip_suffix].
    destruct (String.eqb_spec (String a s) (String c "")) as [->|]; [by intros [= <-]|].
    destruct (strip_suffix s _) as [t|]; [|done]. intros [= <-]. by rewrite (IH t eq_refl). }
  apply not_true_iff_false in Hs. apply Hs, ends_with_char_spec. eauto.
Qed.

Lemma prefix_matches_spec prefix path : prefix_matches prefix path = true <-> path_spec (PathPrefix prefix) path.
Proof.
  unfold prefix_matches. simpl. destruct (String.eqb_spec prefix "/") as [->|Hroot]; simpl; [by split; auto|].
  destruct (ends_with_char prefix CH_SLASH) eqn:Hend.
  - apply ends_with_char_spec in Hend as [q ->]. unfold prefix_base.
    change "/"%string with (String CH_SLASH EmptyString). rewrite strip_suffix_snoc. simpl.
    trans (exists r, path = (q +:+ String CH_SLASH r)%string).
    + assert (Happ : forall r, ((q +:+ String CH_SLASH "") +:+ r = q +:+ String CH_SLASH r)%string).
      { intros r. by rewrite str_app_assoc. }
      destruct (String.eqb_spec path (q +:+ String CH_SLASH "")) as [->|]; [by split; eauto|].
      rewrite starts_with_spec. split; intros [r ->]; exists r; by rewrite Happ.
    + split.
      * intros [r ->]. right. exists (split_on CH_SLASH r). rewrite split_on_app. split; [done|].
        intros _. by destruct (split_on_cons CH_SLASH r) as (? & ? & ->).
      * intros [?|(rest & E & Hr)]; [done|]. eexists. apply split_on_extends; [by apply Hr|done].
  - unfold prefix_base. change "/"%string with (String CH_SLASH EmptyString).
    rewrite strip_suffix_char by done. simpl.
    destruct (String.eqb_spec path prefix) as [->|Hne].
    { split; [|done]. intros _. right. exists []. by rewrite app_nil_r. }
    split.
    + destruct (strip_prefix path prefix) as [r|] eqn:E; [|done]. apply strip_prefix_spec in E as ->. simpl.
      destruct r as [|a r]; [done|]. simpl. intros ->%Ascii.eqb_eq. right.
      exists (split_on CH_SLASH r). by rewrite split_on_app.
    + intros [?|(rest & E & _)]; [done|]. destruct rest as [|s rest].
      * rewrite app_nil_r in E. by apply split_on_inj in E.
      * apply split_on_extends in E; [|done]. by apply strip_prefix_spec in E as ->.
Qed.

(** What a path pattern accepts: an exact pattern only itself, a template the
    paths with the same number of segments that agree with it outside its
    parameters and are not empty at them, a prefix exactly the paths that continue
    it at a segment boundary (so /v1 accepts /v1 and /v1/x but never /v10, and a
    prefix that ends in a slash needs at least one further segment), and the
    pattern of a route without a path everything. *)
Theorem path_pattern_semantics pattern path : path_matches pattern path = true <-> path_spec pattern path.
Proof.
  destruct pattern as [e|t|p|]; simpl.
  - rewrite String.eqb_eq. split; congruence.
  - apply template_matches_spec.
  - apply prefix_matches_spec.
  - done.
Qed.

(** * Content types *)

Lemma lowercase_idem s : to_ascii_lowercase (to_ascii_lowercase s) = to_ascii_lowercase s.
Proof.
  unfold to_ascii_lowercase. rewrite bytes_of_of by apply byte_lower_lt, bytes_of_lt. f_equal.
  rewrite map_map. apply map_ext. intros b. unfold byte_lower.
  destruct (in_range b 0x41 0x5A) eqn:E; [|by rewrite E].
  apply in_range_true in E. destruct (in_range (b + 0x20) 0x41 0x5A) eqn:E'; [|done].
  apply in_range_true in E'. lia.
Qed.

(** The bytes of a compiled media type are tokens and its one slash. *)
Definition media_byte (b : N) : Prop := is_token_char b = true \/ b = 0x2F.

Lemma media_byte_plain b : media_byte b -> b < 0x80 /\ char_is_whitespace b = false /\ b <> 0x3B.
Proof.
  intros H. assert (Hb : b < 0x80).
  { destruct H as [H| ->]; [|done]. unfold is_token_char in H. apply orb_true_iff in H as [H|H].
    - unfold char_is_ascii_alphanumeric, char_is_ascii_digit in H. rewrite !orb_true_iff in H.
      destruct H as [[H|H]|H]; apply in_range_true in H; lia.
    - apply existsb_exists in H as (x & Hx & ->%N.eqb_eq).
      assert (Hp : forallb (fun c => c <? 0x80) token_punctuation = true) by reflexivity.
      rewrite forallb_forall in Hp. by apply N.ltb_lt, Hp. }
  split; [done|].
  assert (Hall : forallb (fun n => negb (is_token_char (N.of_nat n) || (N.of_nat n =? 0x2F))
     || (negb (char_is_whitespace (N.of_nat n)) && negb (N.of_nat n =? 0x3B))) (seq 0 128) = true) by (vm_compute; done).
  rewrite forallb_forall in Hall. specialize (Hall (N.to_nat b)). rewrite N2Nat.id in Hall.
  assert (Hin : In (N.to_nat b) (seq 0 128)) by (apply in_seq; lia). specialize (Hall Hin).
  assert (Hm : is_token_char b || (b =? 0x2F) = true)
    by (destruct H as [->| ->]; [done|]; by rewrite orb_true_r).
  rewrite Hm in Hall. simpl in Hall. apply andb_true_iff in Hall as [H1 H2].
  split; [by apply negb_true_iff|]. by apply negb_true_iff, N.eqb_neq in H2.
Qed.

Lemma token_bytes s :
  is_str s -> s = "*"%string \/ forallb is_token_char (chars s) = true -> Forall media_byte (bytes_of s).
Proof.
  intros Hs [->|Ht]; [by repeat constructor|].
  assert (Hlt : Forall (fun c => c < 0x80) (chars s)).
  { apply Forall_forall. intros c Hc. rewrite forallb_forall in Ht.
    apply media_byte_plain. left. by apply Ht, list_elem_of_In. }
  apply ascii_bytes in Hlt; [|done]. rewrite chars_ascii in Ht by done.
  apply Forall_forall. intros b Hb. left. rewrite forallb_forall in Ht. by apply Ht, list_elem_of_In.
Qed.

Lemma compile_content_type_spec v label t :
  compile_content_type v label = Ok t -> is_str t ->
  normalize_content_type t = t /\
  exists mt st, t = (mt +:+ String CH_SLASH st)%string /\ contains_char mt CH_SLASH = false /\
    contains_char st CH_SLASH = false.
Proof.
  unfold compile_content_type. set (w := trim (hd EmptyString (split_on CH_SEMICOLON v))).
  destruct (str_split_once CH_SLASH (to_ascii_lowercase w)) as [[mt st]|] eqn:Es; [|done].
  match goal with |- context [if ?c then _ else _] => destruct c eqn:Ebad; [done|] end.
  match goal with |- context [if ?c then _ else _] => destruct c; [done|] end. intros [= <-] Hstr.
  rewrite !orb_false_iff in Ebad. destruct Ebad as [[[[[_ Hcount] _] _] Hmt] Hst].
  destruct (str_split_once_spec _ _ _ _ Es) as [Et Hslash]. rewrite Et in Hcount, Hstr.
  apply negb_false_iff, Nat.eqb_eq in Hcount. rewrite count_char_app in Hcount. cbn [count_char] in Hcount.
  rewrite Ascii.eqb_refl in Hcount.
  assert (Hst0 : contains_char st CH_SLASH = false) by (apply count_char_zero; lia).
  assert (Hparts : is_str mt /\ is_str st).
  { unfold is_str in *. rewrite bytes_of_app in Hstr. by apply (utf8_valid_split _ 0x2F) in Hstr. }
  assert (Hm : Forall media_byte (bytes_of (to_ascii_lowercase w))).
  { rewrite Et, bytes_of_app. apply Forall_app. split; [|constructor; [by right|]].
    - apply token_bytes; [apply Hparts|]. apply andb_false_iff in Hmt as [H|H]; apply negb_false_iff in H;
        [left; by apply String.eqb_eq|by right].
    - apply token_bytes; [apply Hparts|]. apply andb_false_iff in Hst as [H|H]; apply negb_false_iff in H;
        [left; by apply String.eqb_eq|by right]. }
  split; [|eauto 6]. unfold normalize_content_type.
  rewrite contains_char_split_on; simpl.
  - rewrite trim_ascii; [apply lowercase_idem|]. eapply Forall_impl; [exact Hm|].
    intros b Hb. destruct (media_byte_plain b Hb) as (? & ? & _). done.
  - apply not_true_iff_false. intros Hc%contains_char_bytes. rewrite Forall_forall in Hm.
    by destruct (media_byte_plain _ (Hm _ Hc)) as (_ & _ & []).
Qed.

(** A media type matched by a wildcard has the wildcard's type. *)
Lemma wildcard_spec mt st actual :
  contains_char mt CH_SLASH = false -> contains_char st CH_SLASH = false ->
  let t := (mt +:+ String CH_SLASH st)%string in
  media_type_wildcard_matches t actual = true ->
  t = "*/*"%string \/ (st = "*"%string /\ exists r, actual = (mt +:+ String CH_SLASH r)%string).
Proof.
  intros Hmt Hst t. unfold media_type_wildcard_matches.
  destruct (String.eqb_spec t "*/*") as [->|]; [by left|]. simpl.
  destruct (strip_suffix t "/*") as [p|] eqn:E; [|done]. simpl. intros [Hp Hslash]%andb_true_iff. right.
  assert (Et : t = (p +:+ "/*")%string).
  { clear -E. revert p E. generalize t. clear. intros t. induction t as [|a t IH]; intros p; [done|].
    cbn [strip_suffix]. destruct (String.eqb_spec (String a t) "/*") as [->|]; [by intros [= <-]|].
    destruct (strip_suffix t "/*") as [q|]; [|done]. intros [= <-]. by rewrite (IH q eq_refl). }
  assert (Esp : [mt; st] = split_on CH_SLASH p ++ ["*"%string]).
  { change "/*"%string with (String CH_SLASH "*") in Et. apply (f_equal (split_on CH_SLASH)) in Et.
    unfold t in Et. rewrite !split_on_app in Et.
    by rewrite (contains_char_split_on _ mt), (contains_char_split_on _ st) in Et. }
  destruct (split_on CH_SLASH p) as [|x [|y l]] eqn:Ep; [done| |by destruct l].
  injection Esp as <- <-. assert (p = mt) as ->.
  { by rewrite <- (join_split CH_SLASH p), Ep. }
  split; [done|]. apply starts_with_spec in Hp as [r ->].
  pose proof (str_skip_app mt r 0) as Hk. rewrite Nat.add_0_r in Hk. rewrite Hk in Hslash.
  destruct r as [|a r]; [done|]. simpl in Hslash. apply Ascii.eqb_eq in Hslash as ->. eauto.
Qed.

Lemma media_types_overlap_sound m1 s1 m2 s2 actual :
  contains_char m1 CH_SLASH = false -> contains_char s1 CH_SLASH = false ->
  contains_char m2 CH_SLASH = false -> contains_char s2 CH_SLASH = false ->
  let t1 := (m1 +:+ String CH_SLASH s1)%string in
  let t2 := (m2 +:+ String CH_SLASH s2)%string in
  t1 = actual \/ media_type_wildcard_matches t1 actual = true ->
  t2 = actual \/ media_type_wildcard_matches t2 actual = true ->
  media_types_overlap t1 t2 = true.
Proof.
  intros Hm1 Hs1 Hm2 Hs2 t1 t2 H1 H2. unfold media_types_overlap, t1, t2 in *.
  rewrite !str_split_once_app by done. fold t1 t2.
  destruct (String.eqb_spec t1 "*/*") as [|N1]; [done|]. destruct (String.eqb_spec t2 "*/*") as [|N2]; [done|]. simpl.
  assert (W : forall m s t, t = (m +:+ String CH_SLASH s)%string -> t <> "*/*"%string -> s = "*"%string ->
    String.eqb s "*" && negb (String.eqb m "*") = true).
  { intros m s t -> Hne ->. simpl. destruct (String.eqb_spec m "*") as [->|]; [done|done]. }
  assert (U : forall m r m' r', contains_char m CH_SLASH = false -> contains_char m' CH_SLASH = false ->
    (m +:+ String CH_SLASH r = m' +:+ String CH_SLASH r')%string -> m = m').
  { intros m r m' r' Hm Hm' E. apply (f_equal (str_split_once CH_SLASH)) in E.
    rewrite !str_split_once_app in E by done. congruence. }
  destruct H1 as [E1|W1]; [|apply wildcard_spec in W1 as [?|[-> [r1 E1]]]; [done| |done..]];
    (destruct H2 as [E2|W2]; [|apply wildcard_spec in W2 as [?|[-> [r2 E2]]]; [done| |done..]]);
    subst actual.
  - assert (m1 = m2) as -> by by eapply U. assert (Et : t1 = t2) by done. unfold t1, t2 in Et.
    apply (f_equal (str_split_once CH_SLASH)) in Et. rewrite !str_split_once_app in Et by done.
    injection Et as ->. destruct (_ && _); by rewrite ?String.eqb_refl.
  - assert (m1 = m2) as -> by by eapply U. rewrite (W m2 "*"%string t2) by done.
    destruct (_ && _); by rewrite String.eqb_refl.
  - assert (m1 = m2) as -> by by eapply U. rewrite (W m2 "*"%string t1) by done.
    destruct (_ && _); by rewrite String.eqb_refl.
  - assert (m1 = m2) as -> by by eapply U. rewrite (W m2 "*"%string t2) by done. by rewrite String.eqb_refl.
Qed.

(** * Compiled matchers *)

Section compiled.
Context `{Http}.

(** What the compiler guarantees of the parts of a matcher that conflict
    detection looks into. *)
Record matcher_wf (m : MatchPlan) : Prop := {
  wf_content_types : Forall (fun t => exists v label, compile_content_type v label = Ok t) (mp_content_types m);
  wf_template : forall t, mp_path m = PathTemplate t -> exists v label, valid_template_path v label = Ok t;
}.

Lemma push_new_Forall (P : string -> Prop) out x : Forall P out -> P x -> Forall P (push_new out x).
Proof. intros Ho Hx. unfold push_new. case_match; [done|]. apply Forall_app. by split; [|constructor]. Qed.

Lemma compile_content_types_wf types out label l :
  compile_content_types types out label = Ok l ->
  Forall (fun t => exists v label, compile_content_type v label = Ok t) out ->
  Forall (fun t => exists v label, compile_content_type v label = Ok t) l.
Proof.
  revert out. induction types as [|t types IH]; intros out; simpl; [by intros [= <-]|].
  destruct (compile_content_type t label) as [t'|] eqn:E; simpl; [|done]. intros Hc Ho.
  eapply IH; [exact Hc|]. apply push_new_Forall; eauto.
Qed.

Lemma compile_path_template d label t :
  compile_path d label = Ok (PathTemplate t) -> exists v label, valid_template_path v label = Ok t.
Proof.
  unfold compile_path. destruct (_ <? _); [done|].
  destruct (mc_path d); [by destruct (valid_path _ _)|].
  destruct (mc_path_template d) as [v|].
  - destruct (valid_template_path v label) eqn:E; simpl; [|done]. intros [= ->]. eauto.
  - destruct (mc_path_prefix d); [by destruct (valid_path _ _)|done].
Qed.

Lemma compile_match_wf d label m : compile_match d label = Ok m -> matcher_wf m.
Proof.
  unfold compile_match. set (dd := default match_config_default d).
  destruct (compile_methods _ _ _) as [ms|]; simpl; [|done].
  destruct (compile_path dd label) as [p|] eqn:Ep; simpl; [|done].
  match goal with |- context [result_bind ?r _] => destruct r as [h|]; simpl; [|done] end.
  destruct (compile_headers _ _) as [hs|]; simpl; [|done].
  destruct (compile_content_types _ _ _) as [cs|] eqn:Ec; simpl; [|done]. intros [= <-]. split; simpl.
  - eapply compile_content_types_wf; [exact Ec|constructor].
  - intros t ->. by eapply compile_path_template.
Qed.

(** ** Overlap is necessary for two routes to match one request *)

Lemma methods_overlap_sound r1 r2 method :
  method_matches_route r1 method = true -> method_matches_route r2 method = true ->
  methods_overlap (mp_methods (rp_matcher r1)) (mp_methods (rp_matcher r2)) = true.
Proof.
  unfold method_matches_route, methods_overlap.
  destruct (mp_methods (rp_matcher r1)) as [|a l]; [done|]. destruct (mp_methods (rp_matcher r2)) as [|b k]; [done|].
  intros (x & Hx & ->%String.eqb_eq)%existsb_exists (y & Hy & ->%String.eqb_eq)%existsb_exists.
  apply existsb_exists. exists method. split; [done|]. apply existsb_exists. exists method. by rewrite String.eqb_refl.
Qed.

Lemma authorities_overlap_sound h1 h2 explicit headers :
  host_matches h1 explicit headers = true -> host_matches h2 explicit headers = true ->
  authorities_overlap h1 h2 = true.
Proof.
  unfold host_matches, authorities_overlap. destruct h1 as [h1|]; [|done]. destruct h2 as [h2|]; [|done].
  destruct (normalize_authority h1) as [[n1 p1]|]; [|done]. destruct (normalize_authority h2) as [[n2 p2]|]; [|done].
  destruct (_ ≫= _) as [[n p]|]; [|done]. simpl.
  intros [<-%String.eqb_eq Hp1]%andb_true_iff [<-%String.eqb_eq Hp2]%andb_true_iff.
  rewrite String.eqb_refl. simpl. destruct p1 as [p1|]; [|done]. destruct p2 as [p2|]; [|done]. simpl in *.
  apply bool_decide_eq_true in Hp1, Hp2. apply bool_decide_eq_true. congruence.
Qed.

(** The request sends no header twice. *)
Definition single_valued (headers : HeaderMap) : Prop := forall name, (length (get_all headers name) <= 1)%nat.

Lemma headers_match_spec expected headers :
  headers_match expected headers = true <->
  forall name value, expected !! name = Some value ->
    exists v, Some v ∈ get_all headers name /\ trim v = value.
Proof.
  unfold headers_match. rewrite forallb_forall. split.
  - intros Hall name value Hl. specialize (Hall (name, value)). simpl in Hall.
    apply elem_of_map_to_list, list_elem_of_In, Hall, existsb_exists in Hl as ([v|] & Hin & Hv); [|done].
    exists v. split; [by apply list_elem_of_In|]. by apply String.eqb_eq.
  - intros Hall [name value] Hin. apply list_elem_of_In, elem_of_map_to_list, Hall in Hin as (v & Hv & <-).
    apply existsb_exists. exists (Some v). split; [by apply list_elem_of_In|]. apply String.eqb_refl.
Qed.

Lemma maps_overlap_sound h1 h2 headers :
  single_valued headers -> headers_match h1 headers = true -> headers_match h2 headers = true ->
  maps_overlap h1 h2 = true.
Proof.
  intros Hs H1 H2. rewrite headers_match_spec in H1, H2.
  assert (Hagree : forall name a b, h1 !! name = Some a -> h2 !! name = Some b -> a = b).
  { intros name a b (v & Hv & <-)%H1 (w & Hw & <-)%H2. specialize (Hs name).
    destruct (get_all headers name) as [|x [|? ?]]; simpl in Hs; [set_solver| |lia].
    apply list_elem_of_singleton in Hv, Hw. congruence. }
  unfold maps_overlap. apply andb_true_iff. split; apply forallb_forall; intros [key value] Hin;
    apply list_elem_of_In, elem_of_map_to_list in Hin.
  - destruct (h2 !! key) as [b|] eqn:E; [|done]. simpl. apply String.eqb_eq. symmetry. by eapply Hagree.
  - destruct (h1 !! key) as [b|] eqn:E; [|done]. simpl. apply String.eqb_eq. by eapply Hagree.
Qed.

Lemma bools_overlap_sound a b actual :
  websocket_matches a actual = true -> websocket_matches b actual = true -> bools_overlap a b = true.
Proof. destruct a as [[]|], b as [[]|], actual; done. Qed.

Lemma content_types_overlap_sound l k actual :
  Forall (fun t => exists v label, compile_content_type v label = Ok t) l -> Forall is_str l ->
  Forall (fun t => exists v label, compile_content_type v label = Ok t) k -> Forall is_str k ->
  content_type_matches l actual = true -> content_type_matches k actual = true ->
  content_types_overlap l k = true.
Proof.
  intros Hl Sl Hk Sk. unfold content_type_matches, content_types_overlap.
  destruct l as [|x l]; [done|]. destruct k as [|y k]; [done|]. destruct actual as [actual|]; [|done].
  cbn [fmap option_fmap option_map].
  intros (t1 & (u1 & <- & Hu1)%in_map_iff & M1)%existsb_exists (t2 & (u2 & <- & Hu2)%in_map_iff & M2)%existsb_exists.
  rewrite !Forall_forall in *. apply list_elem_of_In in Hu1 as E1, Hu2 as E2.
  destruct (Hl _ E1) as (v1 & l1 & C1). destruct (Hk _ E2) as (v2 & l2 & C2).
  apply compile_content_type_spec in C1 as [N1 (m1 & s1 & -> & Hm1 & Hs1)]; [|by apply Sl].
  apply compile_content_type_spec in C2 as [N2 (m2 & s2 & -> & Hm2 & Hs2)]; [|by apply Sk].
  rewrite N1 in M1. rewrite N2 in M2. rewrite orb_true_iff, String.eqb_eq in M1, M2.
  apply existsb_exists. eexists. split; [exact Hu1|]. apply existsb_exists. eexists. split; [exact Hu2|].
  by eapply media_types_overlap_sound.
Qed.

(** ** Paths of the same kind *)

Lemma prefix_segments prefix :
  split_on CH_SLASH prefix =
  split_on CH_SLASH (prefix_base prefix) ++ (if ends_with_char prefix CH_SLASH then [EmptyString] else []).
Proof.
  unfold prefix_base. change "/"%string with (String CH_SLASH EmptyString).
  destruct (ends_with_char prefix CH_SLASH) eqn:E.
  - apply ends_with_char_spec in E as [q ->]. rewrite strip_suffix_snoc. simpl. by rewrite split_on_app.
  - rewrite strip_suffix_char by done. by rewrite app_nil_r.
Qed.

Lemma prefix_of_base a b :
  split_on CH_SLASH (prefix_base a) `prefix_of` split_on CH_SLASH (prefix_base b) ->
  prefix_matches a b = true \/ prefix_matches b a = true.
Proof.
  intros [k E]. pose proof (prefix_segments a) as Ea. pose proof (prefix_segments b) as Eb.
  rewrite !prefix_matches_spec. simpl.
  destruct (ends_with_char a CH_SLASH) eqn:Ha; [|left; right; eexists; rewrite Eb, E, <- app_assoc; by split].
  destruct k as [|s k].
  - rewrite app_nil_r in E. destruct (ends_with_char b CH_SLASH) eqn:Hb.
    + left. right. exists [EmptyString]. by rewrite Eb, E.
    + right. right. exists [EmptyString]. by rewrite Ea, E.
  - left. right. eexists. rewrite Eb, E, <- app_assoc. by split.
Qed.

Lemma prefixes_overlap a b path :
  prefix_matches a path = true -> prefix_matches b path = true ->
  prefix_matches a b || prefix_matches b a = true.
Proof.
  intros [->|(ra & Ea & _)]%prefix_matches_spec; [done|].
  intros [->|(rb & Eb & _)]%prefix_matches_spec; [by rewrite orb_true_r|].
  apply orb_true_iff.
  destruct (prefix_weak_total (split_on CH_SLASH (prefix_base a)) (split_on CH_SLASH (prefix_base b))
    (split_on CH_SLASH path)) as [Hp|Hp]; [by exists ra|by exists rb|by apply prefix_of_base|].
  apply prefix_of_base in Hp. tauto.
Qed.

Lemma valid_template_segments v label t :
  valid_template_path v label = Ok t ->
  Forall (fun seg => is_template_segment seg = true -> is_template_parameter seg = true) (tl (split_on CH_SLASH t)).
Proof.
  unfold valid_template_path. destruct (valid_path v label) as [p|]; simpl; [|done].
  destruct (existsb _ _) eqn:E; [done|]. intros [= <-]. apply Forall_forall. intros seg Hin Hseg.
  destruct (is_template_parameter seg) eqn:Hp; [done|]. exfalso.
  apply not_true_iff_false in E. apply E, existsb_exists. exists seg. split; [by apply list_elem_of_In|].
  rewrite Hp, andb_true_r. unfold is_template_segment in Hseg. rewrite !andb_true_iff in Hseg.
  destruct seg as [|a seg]; [by destruct Hseg as [[? _] _]|]. destruct Hseg as [[Ha _] _]. simpl in *. by rewrite Ha.
Qed.

Lemma templates_overlap t1 t2 path :
  Forall (fun seg => is_template_segment seg = true -> is_template_parameter seg = true) (tl (split_on CH_SLASH t1)) ->
  Forall (fun seg => is_template_segment seg = true -> is_template_parameter seg = true) (tl (split_on CH_SLASH t2)) ->
  template_matches t1 path = true -> template_matches t2 path = true ->
  template_templates_overlap t1 t2 = true.
Proof.
  intros W1 W2. rewrite !template_matches_spec. unfold template_templates_overlap. cbv zeta.
  destruct (split_on_cons CH_SLASH t1) as (x1 & k1 & E1). destruct (split_on_cons CH_SLASH t2) as (x2 & k2 & E2).
  destruct (split_on_cons CH_SLASH path) as (x & k & E). rewrite E, E1, E2 in *. simpl in *.
  intros [_ F1]%Forall2_cons_1 [_ F2]%Forall2_cons_1.
  apply (forallb_zip_Forall2 _ (fun a b => a = b \/ is_template_parameter a = true \/ is_template_parameter b = true)).
  { intros a b. rewrite !orb_true_iff, String.eqb_eq. tauto. }
  clear E E1 E2. revert k1 k2 W1 W2 F1 F2. induction k as [|p k IH]; intros k1 k2 W1 W2 F1 F2.
  { inversion F1; subst. inversion F2; subst. constructor. }
  inversion F1 as [|a ? l1 ? Ha Hl1]; subst. inversion F2 as [|b ? l2 ? Hb Hl2]; subst.
  apply Forall_cons in W1 as [Wa W1]. apply Forall_cons in W2 as [Wb W2]. constructor; [|by apply IH].
  unfold segment_spec in Ha, Hb. destruct (is_template_segment a); [by auto|]. destruct (is_template_segment b); [by auto|].
  left. congruence.
Qed.

Lemma paths_overlap_sound m1 m2 path :
  matcher_wf m1 -> matcher_wf m2 -> specificity (mp_path m1) = specificity (mp_path m2) ->
  path_matches (mp_path m1) path = true -> path_matches (mp_path m2) path = true ->
  paths_overlap (mp_path m1) (mp_path m2) = true.
Proof.
  intros [_ W1] [_ W2]. destruct (mp_path m1) as [a|a|a|], (mp_path m2) as [b|b|b|]; simpl; try done; intros _.
  - rewrite !String.eqb_eq. congruence.
  - destruct (W1 a eq_refl) as (? & ? & V1). destruct (W2 b eq_refl) as (? & ? & V2).
    apply templates_overlap; by eapply valid_template_segments.
  - apply prefixes_overlap.
Qed.

(** * The route of a request *)

(** A route accepts a request when every dimension matches. *)
Definition accepts (request : RouteRequest) (route : RoutePlan) : bool :=
  structural request route && method_matches_route route (request_method request)
  && content_type_matches (mp_content_types (rp_matcher route)) (request_content_type request).

Lemma accepts_overlap request r1 r2 :
  matcher_wf (rp_matcher r1) -> matcher_wf (rp_matcher r2) ->
  Forall is_str (mp_content_types (rp_matcher r1)) -> Forall is_str (mp_content_types (rp_matcher r2)) ->
  single_valued (rq_headers request) ->
  specificity (mp_path (rp_matcher r1)) = specificity (mp_path (rp_matcher r2)) ->
  accepts request r1 = true -> accepts request r2 = true ->
  rp_listener r1 = rp_listener r2 /\ routes_overlap r1 r2 = true.
Proof.
  unfold accepts, structural. rewrite !andb_true_iff, !String.eqb_eq.
  intros W1 W2 S1 S2 Hs Hsp [[[[[[L1 P1] H1] D1] B1] M1] C1] [[[[[[L2 P2] H2] D2] B2] M2] C2].
  split; [congruence|]. unfold routes_overlap. rewrite !andb_true_iff. repeat split.
  - by eapply methods_overlap_sound.
  - by eapply authorities_overlap_sound.
  - by eapply paths_overlap_sound.
  - by eapply maps_overlap_sound.
  - eapply content_types_overlap_sound; [apply W1|done|apply W2|done|exact C1|exact C2].
  - by eapply bools_overlap_sound.
Qed.

Lemma match_loop_spec request s m routes :
  match_loop request s m routes =
  match List.find (accepts request) routes with
  | Some r => Ok r
  | None =>
    let path := route_path (rq_path request) in
    let methods r := structural request r && method_matches_route r (request_method request) in
    if negb (s || existsb (structural request) routes) then Err (NoMatch (rq_listener request) path)
    else if negb (m || existsb methods routes)
    then Err (MethodNotAllowed (rq_listener request) (request_method request) path)
    else Err (ContentTypeNotAllowed (rq_listener request) (default EmptyString (request_content_type request)) path)
  end.
Proof.
  revert s m. induction routes as [|r routes IH]; intros s m; simpl; [by rewrite !orb_false_r|].
  unfold accepts at 1. destruct (structural request r); simpl; [|by rewrite IH].
  destruct (method_matches_route r (request_method request)); simpl.
  - destruct (content_type_matches _ _); [done|]. rewrite IH. by rewrite !orb_true_r.
  - rewrite IH. by rewrite !orb_true_r.
Qed.

Lemma find_first {A} (p : A -> bool) l r :
  List.find p l = Some r <->
  exists before after, l = before ++ r :: after /\ p r = true /\ Forall (fun x => p x = false) before.
Proof.
  split.
  - induction l as [|x l IH]; simpl; [done|]. destruct (p x) eqn:E.
    + intros [= <-]. by exists [], l.
    + intros (b & a & -> & Hr & Hb)%IH. exists (x :: b), a. by split; [|split; [|constructor]].
  - intros (b & a & -> & Hr & Hb). induction Hb as [|x b Hx _ IH]; simpl; [by rewrite Hr|by rewrite Hx].
Qed.

Lemma existsb_In {A} (p : A -> bool) l : existsb p l = true <-> exists x, x ∈ l /\ p x = true.
Proof. rewrite existsb_exists. by setoid_rewrite list_elem_of_In. Qed.

Lemma existsb_none {A} (p : A -> bool) l : existsb p l = false <-> forall x, x ∈ l -> p x = false.
Proof.
  rewrite <- not_true_iff_false, existsb_In. split.
  - intros Hn x Hx. apply not_true_iff_false. intros Hp. apply Hn. eauto.
  - intros Hall (x & Hx & Hp). by rewrite Hall in Hp.
Qed.

(** Every request gets the route or the error its table calls for: the route
    returned is the first one that accepts the request in every dimension, and
    when none does the error tells how far the best candidate came: no route fits
    listener, path, host, headers and upgrade; or some do but none of those the
    method; or some fit the method too but not the content type. *)
Theorem route_match_classified routes request :
  let path := route_path (rq_path request) in
  let method := request_method request in
  (forall r, match_route_request routes request = Ok r <->
     exists before after, routes = before ++ r :: after /\ accepts request r = true /\
       Forall (fun x => accepts request x = false) before) /\
  (match_route_request routes request = Err (NoMatch (rq_listener request) path) <->
     forall r, r ∈ routes -> structural request r = false) /\
  (match_route_request routes request = Err (MethodNotAllowed (rq_listener request) method path) <->
     (exists r, r ∈ routes /\ structural request r = true) /\
     (forall r, r ∈ routes -> structural request r = true -> method_matches_route r method = false)) /\
  (match_route_request routes request =
     Err (ContentTypeNotAllowed (rq_listener request) (default EmptyString (request_content_type request)) path) <->
     (exists r, r ∈ routes /\ structural request r = true /\ method_matches_route r method = true) /\
     (forall r, r ∈ routes -> accepts request r = false)).
Proof.
  intros path method. unfold match_route_request. rewrite match_loop_spec. simpl. fold path method.
  set (methods := fun r => structural request r && method_matches_route r method).
  assert (Hfind : forall r, List.find (accepts request) routes = Some r -> r ∈ routes /\ accepts request r = true).
  { intros r Hf. apply List.find_some in Hf as [Hin Ha]. split; [by apply list_elem_of_In|done]. }
  assert (Hnone : List.find (accepts request) routes = None <-> forall r, r ∈ routes -> accepts request r = false).
  { split.
    - intros Hf r Hr. eapply List.find_none; [exact Hf|]. by apply list_elem_of_In.
    - intros Hall. destruct (List.find _ _) as [r|] eqn:E; [|done]. destruct (Hfind r eq_refl) as [Hr Ha].
      by rewrite Hall in Ha. }
  assert (Himp : forall r, accepts request r = true -> structural request r = true /\ method_matches_route r method = true).
  { intros r. unfold accepts. rewrite !andb_true_iff. tauto. }
  split; [intros r; rewrite <- find_first; destruct (List.find _ _); [|repeat case_match]; split; congruence|].
  destruct (List.find (accepts request) routes) as [r|] eqn:Ef.
  - destruct (Hfind r eq_refl) as [Hr Ha]. destruct (Himp r Ha) as [Hs Hm]. repeat split; try done.
    + intros Hall. by rewrite Hall in Hs.
    + intros [_ Hall]. by rewrite (Hall r Hr Hs) in Hm.
    + intros [_ Hall]. by rewrite Hall in Ha.
  - apply proj1 in Hnone. specialize (Hnone eq_refl). destruct (existsb (structural request) routes) eqn:Es; simpl.
    + apply existsb_In in Es as (r & Hr & Hs). destruct (existsb methods routes) eqn:Em; simpl.
      * apply existsb_In in Em as (q & Hq & [Hqs Hqm]%andb_true_iff). repeat split; try done; [| |by eauto].
        -- intros Hall. by rewrite Hall in Hs.
        -- intros [_ Hall]. by rewrite (Hall q) in Hqm.
      * rewrite existsb_none in Em. repeat split; try done; [|by eauto| |].
        -- intros Hall. by rewrite Hall in Hs.
        -- intros q Hq Hqs. specialize (Em q Hq). unfold methods in Em. by rewrite Hqs in Em.
        -- intros [(q & Hq & Hqs & Hqm) _]. specialize (Em q Hq). unfold methods in Em. by rewrite Hqs, Hqm in Em.
    + rewrite existsb_none in Es. repeat split; try done.
      * intros [(q & Hq & Hqs) _]. by rewrite Es in Hqs.
      * intros [(q & Hq & Hqs & _) _]. by rewrite Es in Hqs.
Qed.

(** ** Precedence *)

#[export] Instance pre_compare_routes : PreCmp compare_routes.
Proof.
  repeat apply pre_then.
  - apply (pre_rev (fun x y => N.compare (specificity (mp_path (rp_matcher x))) (specificity (mp_path (rp_matcher y))))).
    apply (pre_key (fun r => specificity (mp_path (rp_matcher r))) N.compare), _.
  - apply (pre_rev (fun x y => Nat.compare (size (mp_headers (rp_matcher x))) (size (mp_headers (rp_matcher y))))).
    apply (pre_key (fun r => size (mp_headers (rp_matcher r))) Nat.compare), _.
  - apply (pre_rev (fun x y => Z.compare (rp_priority x) (rp_priority y))).
    apply (pre_key rp_priority Z.compare), _.
  - apply (pre_key rp_order N.compare), _.
Qed.

(** [r] ranks above [r'] before declaration order is consulted. *)
Definition outranks (r r' : RoutePlan) : Prop :=
  let spec x := specificity (mp_path (rp_matcher x)) in
  let heads x := size (mp_headers (rp_matcher x)) in
  spec r' < spec r \/
  spec r' = spec r /\ ((heads r' < heads r)%nat \/ heads r' = heads r /\ (rp_priority r' < rp_priority r)%Z).

Lemma compare_not_after r r' :
  compare_routes r r' <> Gt -> outranks r r' \/ same_rank r r' = true \/ rp_listener r <> rp_listener r'.
Proof.
  unfold compare_routes, outranks, same_rank, precedence. simpl.
  destruct (String.eqb_spec (rp_listener r) (rp_listener r')); [|tauto].
  destruct (N.compare_spec (specificity (mp_path (rp_matcher r'))) (specificity (mp_path (rp_matcher r)))) as [Hs|Hs|Hs];
    simpl; [|tauto|done].
  destruct (Nat.compare_spec (size (mp_headers (rp_matcher r'))) (size (mp_headers (rp_matcher r)))) as [Hh|Hh|Hh];
    simpl; [|tauto|done].
  destruct (Z.compare_spec (rp_priority r') (rp_priority r)) as [Hp|Hp|Hp]; simpl; [|tauto|done].
  intros _. right. left. rewrite Hs, Hh, Hp, N.eqb_refl, Nat.eqb_refl, Z.eqb_refl. done.
Qed.

Lemma outranks_compare r r' : outranks r r' -> compare_routes r r' = Lt.
Proof.
  unfold compare_routes, outranks. simpl. intros [Hs|[-> [Hh|[-> Hp]]]].
  - apply N.compare_lt_iff in Hs. by rewrite Hs.
  - rewrite N.compare_refl. simpl. apply Nat.compare_lt_iff in Hh. by rewrite Hh.
  - rewrite N.compare_refl, Nat.compare_refl. simpl. apply Z.compare_lt_iff in Hp. by rewrite Hp.
Qed.

Lemma detect_conflicts_ok routes :
  detect_conflicts routes = Ok tt ->
  forall i j a b, (i < j)%nat -> routes !! i = Some a -> routes !! j = Some b ->
    same_rank a b && routes_overlap a b = false.
Proof.
  induction routes as [|r routes IH]; simpl; [done|].
  destruct (List.find _ routes) as [s|] eqn:E; [done|]. intros Hd i j a b Hij Hi Hj.
  destruct j as [|j]; [lia|]. simpl in Hj. destruct i as [|i]; simpl in Hi.
  - injection Hi as ->. eapply (List.find_none _ _ E). apply list_elem_of_In. by eapply list_elem_of_lookup_2.
  - eapply (IH Hd i j); [lia|done|done].
Qed.

Lemma same_rank_sym a b : same_rank a b = same_rank b a.
Proof.
  unfold same_rank. rewrite (String.eqb_sym (rp_listener a)), (N.eqb_sym (path_specificity _)),
    (Nat.eqb_sym (header_specificity _)), (Z.eqb_sym (rp_priority a)). done.
Qed.

(** The routes of a compiled configuration: each matcher comes out of
    [compile_match], its strings are UTF-8, and the declaration numbers differ. *)
Record compiled_routes (routes : list RoutePlan) : Prop := {
  cr_matcher : Forall (fun r => exists d label, compile_match d label = Ok (rp_matcher r)) routes;
  cr_str : Forall (fun r => Forall is_str (mp_content_types (rp_matcher r))) routes;
  cr_order : NoDup (rp_order <$> routes);
}.

Lemma no_ambiguity routes request r r' :
  compiled_routes routes -> detect_conflicts routes = Ok tt -> single_valued (rq_headers request) ->
  r ∈ routes -> r' ∈ routes -> accepts request r = true -> accepts request r' = true -> r <> r' ->
  compare_routes r r' <> Gt -> outranks r r'.
Proof.
  intros [Hm Hstr Hord] Hd Hs Hr Hr' Ha Ha' Hne Hcmp. rewrite Forall_forall in Hm, Hstr.
  assert (Hwf : forall x, x ∈ routes -> matcher_wf (rp_matcher x)).
  { intros x (d & label & E)%Hm. by eapply compile_match_wf. }
  assert (Hlis : rp_listener r = rp_listener r').
  { unfold accepts, structural in Ha, Ha'. rewrite !andb_true_iff, !String.eqb_eq in Ha, Ha'.
    destruct Ha as [[[[[[-> _] _] _] _] _] _]. by destruct Ha' as [[[[[[-> _] _] _] _] _] _]. }
  destruct (compare_not_after r r' Hcmp) as [?|[Hrank|?]]; [done| |done]. exfalso.
  assert (Hspec : specificity (mp_path (rp_matcher r)) = specificity (mp_path (rp_matcher r'))).
  { unfold same_rank in Hrank. rewrite !andb_true_iff, N.eqb_eq in Hrank. apply Hrank. }
  destruct (accepts_overlap request r r') as [_ Ho]; auto.
  destruct (accepts_overlap request r' r) as [_ Ho']; auto.
  apply list_elem_of_lookup in Hr as [i Hi], Hr' as [j Hj].
  destruct (Nat.lt_trichotomy i j) as [Hij|[->|Hij]].
  - pose proof (detect_conflicts_ok routes Hd i j r r' Hij Hi Hj) as E. by rewrite Hrank, Ho in E.
  - congruence.
  - pose proof (detect_conflicts_ok routes Hd j i r' r Hij Hj Hi) as E. by rewrite same_rank_sym, Hrank, Ho' in E.
Qed.

(** The first accepted route of a sorted table comes before all others it accepts. *)
Lemma find_sorted {A} (c : A -> A -> comparison) (p : A -> bool) l r x :
  StronglySorted (fun a b => c a b <> Gt) l -> List.find p l = Some r -> x ∈ l -> p x = true -> x = r \/ c r x <> Gt.
Proof.
  induction 1 as [|a l Hl IH Hall]; simpl; [done|]. destruct (p a) eqn:E.
  - intros [= <-] [->|Hx]%elem_of_cons _; [by left|]. right. rewrite Forall_forall in Hall. by apply Hall.
  - intros Hf [->|Hx]%elem_of_cons Hp; [congruence|]. by apply IH.
Qed.

(** [C4] The route of a request does not depend on the order in which equally
    ranked routes are declared: in a compiled configuration that passed conflict
    detection, for a request that sends no header twice, a route is selected
    exactly when it accepts the request and outranks, by path specificity, number
    of header constraints and priority alone, every other route that accepts it.
    Conflict detection therefore misses no ambiguity in paths, templates, hosts,
    methods, media-type wildcards, header values or upgrades. *)
Theorem route_choice_unambiguous routes table request r :
  compiled_routes routes ->
  build_route_table routes = Ok table ->
  single_valued (rq_headers request) ->
  match_route_request table request = Ok r <->
  r ∈ routes /\ accepts request r = true /\
  forall r', r' ∈ routes -> accepts request r' = true -> r' <> r -> outranks r r'.
Proof.
  intros Hc Hb Hs. unfold build_route_table in Hb. destruct (detect_conflicts routes) as [[]|] eqn:Hd; [|done].
  injection Hb as <-. pose proof (sort_by_sorted compare_routes routes) as Hsort.
  pose proof (sort_by_perm compare_routes routes) as Hperm.
  unfold match_route_request. rewrite match_loop_spec.
  assert (Hfirst : forall q, List.find (accepts request) (sort_by compare_routes routes) = Some q ->
    q ∈ routes /\ accepts request q = true /\
    forall r', r' ∈ routes -> accepts request r' = true -> r' <> q -> outranks q r').
  { intros q Hf. pose proof (List.find_some _ _ Hf) as [Hin Ha]. apply list_elem_of_In in Hin.
    rewrite Hperm in Hin. split; [done|]. split; [done|]. intros r' Hr' Ha' Hne.
    eapply no_ambiguity; eauto. destruct (find_sorted _ _ _ _ r' Hsort Hf) as [->|?]; [by rewrite Hperm|done|done|done]. }
  split.
  - destruct (List.find _ _) as [q|] eqn:Hf; [|cbv zeta; repeat case_match; congruence]. intros [= <-]. by apply Hfirst.
  - intros (Hr & Ha & Hout). destruct (List.find _ _) as [q|] eqn:Hf.
    + destruct (Hfirst q eq_refl) as (Hq & Haq & Hoq). destruct (decide (rp_order q = rp_order r)) as [E|Hne].
      * f_equal. destruct Hc as [_ _ Hord].
        apply list_elem_of_lookup in Hq as [i Hi], Hr as [j Hj].
        assert (i = j) as ->; [|congruence]. eapply (NoDup_lookup (rp_order <$> routes)); [done|..];
          rewrite list_lookup_fmap; [by rewrite Hi|by rewrite Hj, E].
      * exfalso. assert (Hne' : q <> r) by congruence.
        pose proof (outranks_compare _ _ (Hout q Hq Haq Hne')) as H1.
        pose proof (outranks_compare _ _ (Hoq r Hr Ha (not_eq_sym Hne'))) as H2.
        rewrite (pre_opp compare_routes r q), H1 in H2. done.
    + exfalso. rewrite (List.find_none _ _ Hf r) in Ha; [done|]. apply list_elem_of_In. by rewrite Hperm.
Qed.
End compiled.

(** * A concrete http crate *)

(** Headers as a list of name and value, authorities without a port, every method
    and lower-case header name accepted. *)
Definition list_http : Http := {|
  HeaderMap := list (string * string);
  get_all h name := (fun kv => Some kv.2) <$> filter (fun kv => kv.1 = name) h;
  parse_authority s := Some (s, None);
  method_valid _ := true;
  header_name s := Some (to_ascii_lowercase s);
|}.

Definition demo_label : SourceLabel := MkSourceLabel "pooler.yaml" None None "routes".
Definition demo_config (template prefix : option string) (headers : gmap string string) : MatchConfig :=
  MkMatchConfig ["post"%string] None None None template prefix headers ["Application/JSON"%string] None.
Definition demo_route (id : string) (order : N) (m : MatchPlan) : RoutePlan :=
  MkRoutePlan id "shared" m 0%Z order demo_label.

(** A prefix, a template and a template with a header constraint. *)
Definition demo_plan (path : PathPattern) (headers : gmap string string) : MatchPlan :=
  MkMatchPlan ["POST"%string] None path headers ["application/json"%string] None.
Definition demo_routes : list RoutePlan :=
  [demo_route "prefix" 0 (demo_plan (PathPrefix "/v1") ∅);
   demo_route "template" 1 (demo_plan (PathTemplate "/v1/{model}") ∅);
   demo_route "tenant" 2 (demo_plan (PathTemplate "/v1/{model}") {["x-tenant" := "acme"]})]%string.

Lemma demo_compiled : @compiled_routes list_http demo_routes.
Proof.
  split.
  - repeat constructor.
    + exists (Some (demo_config None (Some "/v1"%string) ∅)), demo_label. vm_compute. reflexivity.
    + exists (Some (demo_config (Some "/v1/{model}"%string) None ∅)), demo_label. vm_compute. reflexivity.
    + exists (Some (demo_config (Some "/v1/{model}"%string) None {["X-Tenant"%string := " acme"%string]})), demo_label.
      vm_compute. reflexivity.
  - repeat constructor.
  - vm_compute. apply (bool_decide_unpack _). vm_compute. exact I.
Qed.

Definition demo_request (headers : list (string * string)) : @RouteRequest list_http :=
  @from_http list_http "shared" "POST" "/v1/gpt?debug=1" None (("content-type", "application/json; charset=utf-8") :: headers)%string.

Lemma demo_single_valued : @single_valued list_http (rq_headers (demo_request [("x-tenant", "acme")]%string)).
Proof.
  intros name. change (length ((fun kv : string * string => Some kv.2) <$> filter (fun kv => kv.1 = name)
    [("content-type", "application/json; charset=utf-8"); ("x-tenant", "acme")]%string) <= 1)%nat.
  rewrite length_fmap, !filter_cons, filter_nil. repeat case_decide; simpl in *; subst; done || lia.
Qed.

Lemma route_choice_unambiguous_witness :
  exists table r, @build_route_table list_http demo_routes = Ok table /\ rp_id r = "tenant"%string /\
    @match_route_request list_http table (demo_request [("x-tenant", "acme")]%string) = Ok r /\
    forall r', r' ∈ demo_routes ->
      @accepts list_http (demo_request [("x-tenant", "acme")]%string) r' = true -> r' <> r -> outranks r r'.
Proof.
  eexists _, _. split; [vm_compute; reflexivity|]. split; [|split; [vm_compute; reflexivity|]]; [reflexivity|].
  refine (proj2 (proj2 (proj1 (@route_choice_unambiguous list_http demo_routes _ _ _ demo_compiled _ demo_single_valued) _))).
  - vm_compute. reflexivity.
  - vm_compute. reflexivity.
Defined.

(** The restriction to headers sent once is needed: constraints on two values of
    one header do not count as overlapping, but a request that repeats the header
    matches both routes at the same rank. *)
Example repeated_header_matches_both :
  let a := demo_route "a" 0 (demo_plan PathAny {["x-tenant" := "a"]}) in
  let b := demo_route "b" 1 (demo_plan PathAny {["x-tenant" := "b"]}) in
  let request := demo_request [("x-tenant", "a"); ("x-tenant", "b")] in
  @detect_conflicts list_http [a; b] = Ok tt /\ same_rank a b = true /\
  @accepts list_http request a = true /\ @accepts list_http request b = true.
Proof. vm_compute. done. Qed.
