(* ===== verification/Cache.v ===== *)
(** The bounded response cache (crates/pooler-http/src/cache.rs): canonical keys,
    completed entries in eviction order, and the flights that let one caller
    fetch what others wait for.

    An [Arc<Flight>] shared by the map, its owner and its followers is a cell of
    a heap; [Instant::now()] is an argument; a header map is what its [get_all]
    and its iteration yield.  The asynchronous wait of a follower is not
    modelled, only what it does once woken or cancelled. *)
From S2P Require Import Prelude Str Time Bytes.

Open Scope N_scope.

(** * Policy *)

Definition CACHE_KEY_VERSION : N := 1.
Definition DEFAULT_CACHE_TTL : Duration := from_secs 1.
Definition DEFAULT_CACHE_MAX_ENTRIES : N := 64.
Definition DEFAULT_CACHE_MAX_BYTES : N := 8 * 1024 * 1024.

Record CachePolicy := MkCachePolicy {
  cp_enabled : bool;
  cp_ttl : Duration;
  cp_max_entries : N;
  cp_max_bytes : N;
  cp_coalesce : bool;
  cp_key_headers : list string;
}.

Definition cache_policy_default : CachePolicy :=
  MkCachePolicy false DEFAULT_CACHE_TTL DEFAULT_CACHE_MAX_ENTRIES DEFAULT_CACHE_MAX_BYTES true [].

Definition usable (p : CachePolicy) : bool :=
  cp_enabled p && negb (is_zero (cp_ttl p)) && (0 <? cp_max_entries p) && (0 <? cp_max_bytes p).

(** * Keys *)

Abbreviation CacheKey := (list N).

(** [u64::to_be_bytes]. *)
Fixpoint be_bytes_n (n : nat) (x : N) : bytes :=
  match n with O => [] | S n => (x / 256 ^ N.of_nat n) mod 256 :: be_bytes_n n x end.
Definition be64 (x : N) : bytes := be_bytes_n 8 x.

(** [push_field]; [u64::try_from(len).unwrap_or(u64::MAX)]. *)
Definition push_key_field (output value : bytes) : bytes :=
  output ++ be64 (N.min U64_MAX (blen value)) ++ value.

(** [ki_headers] is [headers.get_all] of a name, as bytes. *)
Record CacheKeyInput := MkCacheKeyInput {
  ki_generation : N;
  ki_route : string;
  ki_target : string;
  ki_method : string;
  ki_uri : string;
  ki_headers : string -> list bytes;
  ki_key_headers : list string;
  ki_body : bytes;
}.

Definition push_header (input : CacheKeyInput) (output : bytes) (name : string) : bytes :=
  push_key_field (foldl push_key_field (push_key_field output (bytes_of name)) (ki_headers input name)) [].

(** The bytes [from_request] hashes. *)
Definition canonical_key (input : CacheKeyInput) : bytes :=
  let c := [CACHE_KEY_VERSION] in
  let c := push_key_field c (be64 (ki_generation input)) in
  let c := push_key_field c (bytes_of (ki_route input)) in
  let c := push_key_field c (bytes_of (ki_target input)) in
  let c := push_key_field c (bytes_of (ki_method input)) in
  let c := push_key_field c (bytes_of (ki_uri input)) in
  let c := foldl (push_header input) c (ki_key_headers input) in
  push_key_field c (ki_body input).

Definition key_from_request `{Digest} (input : CacheKeyInput) : CacheKey := sha256 (canonical_key input).

(** * Entries and flights *)

Record CachedResponse := MkCachedResponse {
  cr_status : N; cr_version : N; cr_headers : list (string * bytes); cr_body : bytes }.

Definition body_len (r : CachedResponse) : N := blen (cr_body r).

Record Entry := MkEntry { en_response : CachedResponse; en_expires_at : Instant }.

Inductive FlightResult := FlightComplete | FlightRetry.

Record Flight := MkFlight {
  fl_result : option FlightResult;
  fl_subscribers : N;
  fl_cancelled : bool;
  fl_reserved_bytes : N;
}.

Definition flight_new (reserved_bytes : N) : Flight := MkFlight None 1 false reserved_bytes.

Definition add_subscriber (f : Flight) : Flight :=
  match fl_result f with
  | None => MkFlight None (sat_add USIZE_MAX (fl_subscribers f) 1) (fl_cancelled f) (fl_reserved_bytes f)
  | Some _ => f
  end.

Definition flight_complete (r : FlightResult) (f : Flight) : Flight :=
  match fl_result f with
  | Some _ => f
  | None => MkFlight (Some r) (fl_subscribers f) true (fl_reserved_bytes f)
  end.

Definition release_follower (f : Flight) : Flight :=
  let f := MkFlight (fl_result f) (sat_sub (fl_subscribers f) 1) (fl_cancelled f) (fl_reserved_bytes f) in
  if (fl_subscribers f =? 0) && is_none (fl_result f)
  then flight_complete FlightRetry (MkFlight (fl_result f) (fl_subscribers f) true (fl_reserved_bytes f))
  else f.

Definition add_reserved_bytes (n : N) (f : Flight) : Flight :=
  MkFlight (fl_result f) (fl_subscribers f) (fl_cancelled f) (sat_add USIZE_MAX (fl_reserved_bytes f) n).

Record CacheState := MkCacheState {
  cs_entries : gmap CacheKey Entry;
  cs_order : list CacheKey;
  cs_bytes : N;
  cs_flights : gmap CacheKey N;
  cs_flight_bytes : N;
}.

Definition cache_state_default : CacheState := MkCacheState ∅ [] 0 ∅ 0.

Definition set_completed (entries : gmap CacheKey Entry) (order : list CacheKey) (bytes : N) (s : CacheState)
  : CacheState := MkCacheState entries order bytes (cs_flights s) (cs_flight_bytes s).
Definition set_flights (flights : gmap CacheKey N) (flight_bytes : N) (s : CacheState) : CacheState :=
  MkCacheState (cs_entries s) (cs_order s) (cs_bytes s) flights flight_bytes.

(** The cache with the heap of its flights; [ca_next] is the next free cell. *)
Record Cache := MkCache {
  ca_policy : CachePolicy;
  ca_state : CacheState;
  ca_heap : gmap N Flight;
  ca_next : N;
}.

Definition cache_new (policy : CachePolicy) : Cache := MkCache policy cache_state_default ∅ 0.

Definition with_cache_state (s : CacheState) (c : Cache) : Cache := MkCache (ca_policy c) s (ca_heap c) (ca_next c).
Definition update_flight (g : Flight -> Flight) (f : N) (c : Cache) : Cache :=
  MkCache (ca_policy c) (ca_state c) (alter g f (ca_heap c)) (ca_next c).

(** [order.retain(|entry| entry != key)]. *)
Definition retain_order (key : CacheKey) (order : list CacheKey) : list CacheKey :=
  List.filter (fun k => negb (beq k key)) order.

Definition remove_entry (key : CacheKey) (s : CacheState) : CacheState :=
  let bytes :=
    match cs_entries s !! key with
    | Some e => sat_sub (cs_bytes s) (body_len (en_response e))
    | None => cs_bytes s
    end in
  set_completed (delete key (cs_entries s)) (retain_order key (cs_order s)) bytes s.

(** * Operations *)

Definition cache_get (key : CacheKey) (now : Instant) (c : Cache) : option CachedResponse * Cache :=
  if negb (usable (ca_policy c)) then (None, c)
  else
    let s := ca_state c in
    match cs_entries s !! key with
    | None => (None, c)
    | Some e =>
      if (en_expires_at e <=? now)%Z then (None, with_cache_state (remove_entry key s) c)
      else (Some (en_response e),
            with_cache_state
              (set_completed (cs_entries s) (retain_order key (cs_order s) ++ [key]) (cs_bytes s) s) c)
    end.

Inductive CacheLookup := Disabled | Leader (flight : N) | Follower (flight : N).

Definition begin_with_size (key : CacheKey) (request_bytes : N) (c : Cache) : CacheLookup * Cache :=
  let p := ca_policy c in
  let s := ca_state c in
  if negb (usable p) then (Disabled, c)
  else
    match cs_flights s !! key with
    | Some f => if cp_coalesce p then (Follower f, update_flight add_subscriber f c) else (Disabled, c)
    | None =>
      if (cp_max_entries p <=? N.of_nat (size (cs_flights s))) || (cp_max_bytes p <? request_bytes)
         || (cp_max_bytes p <? sat_add USIZE_MAX (cs_flight_bytes s) request_bytes)
      then (Disabled, c)
      else
        let f := ca_next c in
        (Leader f,
         MkCache p
           (set_flights (<[key := f]> (cs_flights s)) (sat_add USIZE_MAX (cs_flight_bytes s) request_bytes) s)
           (<[f := flight_new request_bytes]> (ca_heap c)) (f + 1))
    end.

(** The condition and the body of the eviction loop of [publish]; every turn
    shortens the order, whose length is enough fuel. *)
Definition over_capacity (p : CachePolicy) (s : CacheState) : bool :=
  (cp_max_entries p <? N.of_nat (size (cs_entries s))) || (cp_max_bytes p <? cs_bytes s).

Fixpoint evict (fuel : nat) (p : CachePolicy) (s : CacheState) : CacheState :=
  match fuel with
  | O => s
  | S fuel =>
    if over_capacity p s then
      match cs_order s with
      | [] => s
      | oldest :: order =>
        evict fuel p (remove_entry oldest (set_completed (cs_entries s) order (cs_bytes s) s))
      end
    else s
  end.

Definition store_response (p : CachePolicy) (key : CacheKey) (response : CachedResponse) (now : Instant)
    (s : CacheState) : CacheState :=
  let bytes :=
    match cs_entries s !! key with
    | Some previous => sat_sub (cs_bytes s) (body_len (en_response previous))
    | None => cs_bytes s
    end in
  let entry := MkEntry response (now + Z.of_N (cp_ttl p))%Z in
  let order := retain_order key (cs_order s) ++ [key] in
  let s := set_completed (<[key := entry]> (delete key (cs_entries s))) order
             (sat_add USIZE_MAX bytes (body_len response)) s in
  evict (length order) p s.

(** The flight of a key taken out of the map with its reservation. *)
Definition remove_flight (key : CacheKey) (c : Cache) : option N * Cache :=
  let s := ca_state c in
  match cs_flights s !! key with
  | None => (None, c)
  | Some f =>
    let reserved := match ca_heap c !! f with Some flight => fl_reserved_bytes flight | None => 0 end in
    (Some f, with_cache_state (set_flights (delete key (cs_flights s)) (sat_sub (cs_flight_bytes s) reserved) s) c)
  end.

Definition cache_publish (key : CacheKey) (response : CachedResponse) (now : Instant) (c : Cache) : Cache :=
  let p := ca_policy c in
  let c :=
    if body_len response <=? cp_max_bytes p
    then with_cache_state (store_response p key response now (ca_state c)) c
    else c in
  match remove_flight key c with
  | (Some f, c) => update_flight (flight_complete FlightComplete) f c
  | (None, c) => c
  end.

Definition reserve_response (key : CacheKey) (response_bytes : N) (c : Cache) : bool * Cache :=
  let s := ca_state c in
  if cp_max_bytes (ca_policy c) <?
     sat_add USIZE_MAX (sat_add USIZE_MAX (cs_bytes s) (cs_flight_bytes s)) response_bytes
  then (false, c)
  else match cs_flights s !! key with
  | None => (false, c)
  | Some f =>
    (true, update_flight (add_reserved_bytes response_bytes) f
             (with_cache_state
                (set_flights (cs_flights s) (sat_add USIZE_MAX (cs_flight_bytes s) response_bytes) s) c))
  end.

(** [fail] takes the flight out under the lock and completes it afterwards. *)
Definition fail_locked (key : CacheKey) (c : Cache) : option N * Cache := remove_flight key c.
Definition fail_complete (f : N) (c : Cache) : Cache := update_flight (flight_complete FlightRetry) f c.

(** * What may be cached *)

Definition safe_method_for_cache (method : string) (idempotency_key_present : bool) : bool :=
  existsb (String.eqb method) ["GET"; "HEAD"]%string
  || (String.eqb method "POST" && idempotency_key_present).

Definition ends_with (s p : string) : bool := is_some (strip_suffix s p).

Definition safe_key_header (name : string) : bool :=
  negb (existsb (String.eqb name)
    ["authorization"; "proxy-authorization"; "cookie"; "set-cookie"; "x-api-key"; "x-auth-token";
     "x-access-token"; "x-refresh-token"]%string)
  && negb (ends_with name "-token") && negb (ends_with name "-secret") && negb (ends_with name "-credential").

Definition is_ignored_transport_header (name : string) : bool :=
  existsb (String.eqb name)
    ["host"; "content-length"; "connection"; "keep-alive"; "proxy-connection"; "te"; "trailer";
     "transfer-encoding"; "upgrade"]%string.

Definition DEFAULT_KEY_HEADERS : list string :=
  ["accept"; "accept-encoding"; "content-type"; "idempotency-key"; "user-agent"]%string.
Definition is_default_key_header (name : string) : bool := existsb (String.eqb name) DEFAULT_KEY_HEADERS.

(** The names of a header map, as its iterator yields them. *)
Definition safe_request_for_cache (names : list string) (p : CachePolicy) : bool :=
  forallb (fun name =>
    if is_ignored_transport_header name then true
    else if negb (safe_key_header name) then false
    else if existsb (String.eqb name) (cp_key_headers p) then true
    else is_default_key_header name) names.

(** The key headers [build_route_caches] of proxy.rs gives a route's cache. *)
Definition route_key_headers (configured : list string) : list string :=
  foldl (fun out name => if existsb (String.eqb name) out then out else out ++ [name])
    DEFAULT_KEY_HEADERS configured.

(** * Properties of cache keys: the canonical bytes determine the request where the
      delimiter of a header's values cannot be a value itself, and every header a
      cacheable request carries is part of them. *)

(** * The canonical encoding *)

Definition enc (value : bytes) : bytes := be64 (N.min U64_MAX (blen value)) ++ value.

Lemma be_bytes_n_length n x : length (be_bytes_n n x) = n.
Proof. induction n as [|n IH]; simpl; [done|]. by rewrite IH. Qed.

Definition from_be (acc : N) (l : bytes) : N := foldl (fun acc b => acc * 256 + b) acc l.

Lemma from_be_bytes n x acc : from_be acc (be_bytes_n n x) = acc * 256 ^ N.of_nat n + x mod 256 ^ N.of_nat n.
Proof.
  revert acc. induction n as [|n IH]; intros acc.
  - simpl. rewrite N.mod_1_r. lia.
  - cbn [be_bytes_n]. unfold from_be. simpl foldl. fold (from_be (acc * 256 + (x / 256 ^ N.of_nat n) mod 256) (be_bytes_n n x)).
    rewrite IH, Nat2N.inj_succ, N.pow_succ_r', (N.mul_comm 256 (256 ^ _)), N.Div0.mod_mul_r. nia.
Qed.

Lemma be64_inj x y : x <= U64_MAX -> y <= U64_MAX -> be64 x = be64 y -> x = y.
Proof.
  intros Hx Hy E. apply (f_equal (from_be 0)) in E. unfold be64 in E. rewrite !from_be_bytes in E.
  change (256 ^ N.of_nat 8) with (U64_MAX + 1) in E. rewrite !N.mod_small in E by lia. lia.
Qed.

Lemma blen_be64 x : blen (be64 x) <= U64_MAX.
Proof. unfold blen, be64. rewrite be_bytes_n_length. unfold U64_MAX. lia. Qed.

Lemma enc_inj v w a b :
  blen v <= U64_MAX -> blen w <= U64_MAX -> enc v ++ a = enc w ++ b -> v = w /\ a = b.
Proof.
  intros Hv Hw. unfold enc. rewrite <- !app_assoc. intros E.
  apply app_inj_1 in E as [E1 E]; [|unfold be64; by rewrite !be_bytes_n_length].
  apply be64_inj in E1; [|lia..]. apply app_inj_1 in E as [-> ->]; [done|]. unfold blen in *. lia.
Qed.

(** The fields of a header: its name, its values, an empty field. *)
Definition enc_header (input : CacheKeyInput) (name : string) : bytes :=
  enc (bytes_of name) ++ concat (map enc (ki_headers input name)) ++ enc [].

Lemma push_key_fields output values : foldl push_key_field output values = output ++ concat (map enc values).
Proof.
  revert output. induction values as [|v values IH]; intros output; simpl; [by rewrite app_nil_r|].
  rewrite IH. unfold push_key_field. fold (enc v). by rewrite <- app_assoc.
Qed.

Lemma push_headers input output names :
  foldl (push_header input) output names = output ++ concat (map (enc_header input) names).
Proof.
  revert output. induction names as [|n names IH]; intros output; simpl; [by rewrite app_nil_r|].
  rewrite IH. unfold push_header, enc_header. rewrite push_key_fields. unfold push_key_field.
  fold (enc (bytes_of n)) (enc []). by rewrite <- !app_assoc.
Qed.

Lemma canonical_key_fields input :
  canonical_key input =
  [CACHE_KEY_VERSION] ++ enc (be64 (ki_generation input)) ++ enc (bytes_of (ki_route input)) ++
  enc (bytes_of (ki_target input)) ++ enc (bytes_of (ki_method input)) ++ enc (bytes_of (ki_uri input)) ++
  concat (map (enc_header input) (ki_key_headers input)) ++ enc (ki_body input).
Proof.
  unfold canonical_key, push_key_field. cbv zeta. rewrite push_headers. unfold enc. by rewrite <- !app_assoc.
Qed.

(** The values a machine can hold: strings and bodies shorter than 2^64 bytes, a
    64-bit generation. *)
Record key_input_wf (input : CacheKeyInput) : Prop := {
  kw_generation : ki_generation input <= U64_MAX;
  kw_lengths : forall l, l ∈ [bytes_of (ki_route input); bytes_of (ki_target input); bytes_of (ki_method input);
                              bytes_of (ki_uri input); ki_body input] -> blen l <= U64_MAX;
  kw_names : forall name, name ∈ ki_key_headers input -> blen (bytes_of name) <= U64_MAX;
  kw_values : forall name v, name ∈ ki_key_headers input -> v ∈ ki_headers input name -> blen v <= U64_MAX;
}.

Lemma values_inj vs ws a b :
  (forall v, v ∈ vs ++ ws -> v <> [] /\ blen v <= U64_MAX) ->
  concat (map enc vs) ++ enc [] ++ a = concat (map enc ws) ++ enc [] ++ b -> vs = ws /\ a = b.
Proof.
  revert ws. induction vs as [|v vs IH]; intros [|w ws] Hw; cbn [map concat app]; intros E.
  - split; [done|]. by apply enc_inj in E as [_ ?].
  - rewrite <- app_assoc in E. apply enc_inj in E as [<- _]; [|done|by apply Hw; set_solver].
    by destruct (Hw []) as [[] _]; [set_solver|].
  - rewrite <- app_assoc in E. apply enc_inj in E as [-> _]; [|by apply Hw; set_solver|done].
    by destruct (Hw []) as [[] _]; [set_solver|].
  - rewrite <- !app_assoc in E. apply enc_inj in E as [-> E]; [|by apply Hw; set_solver|by apply Hw; set_solver].
    apply IH in E as [-> ->]; [done|]. intros x Hx. apply Hw. set_solver.
Qed.

Lemma headers_inj i j names a b :
  (forall name, name ∈ names -> blen (bytes_of name) <= U64_MAX) ->
  (forall name v, name ∈ names -> v ∈ ki_headers i name ++ ki_headers j name -> v <> [] /\ blen v <= U64_MAX) ->
  concat (map (enc_header i) names) ++ a = concat (map (enc_header j) names) ++ b ->
  (forall name, name ∈ names -> ki_headers i name = ki_headers j name) /\ a = b.
Proof.
  intros Hn. induction names as [|n names IH]; cbn [map concat app]; intros Hv E; [split; [set_solver|done]|].
  unfold enc_header in E. rewrite <- !app_assoc in E.
  apply enc_inj in E as [_ E]; [|by apply Hn; set_solver..].
  apply values_inj in E as [En E]; [|intros v Hin; by apply (Hv n); [set_solver|]].
  apply IH in E as [Eh ->]; [|intros; apply Hn; set_solver|intros m v Hm; apply Hv; set_solver].
  split; [|done]. intros m [->|Hm]%elem_of_cons; [done|]. by apply Eh.
Qed.

Lemma bytes_of_inj a b : bytes_of a = bytes_of b -> a = b.
Proof. intros E. by rewrite <- (of_bytes_of a), E, of_bytes_of. Qed.

(** The canonical bytes determine every field, where no key header has an empty
    value. *)
Lemma canonical_key_inj i j :
  key_input_wf i -> key_input_wf j -> ki_key_headers i = ki_key_headers j ->
  (forall name, name ∈ ki_key_headers i -> [] ∉ ki_headers i name ++ ki_headers j name) ->
  canonical_key i = canonical_key j ->
  ki_generation i = ki_generation j /\ ki_route i = ki_route j /\ ki_target i = ki_target j /\
  ki_method i = ki_method j /\ ki_uri i = ki_uri j /\
  (forall name, name ∈ ki_key_headers i -> ki_headers i name = ki_headers j name) /\ ki_body i = ki_body j.
Proof.
  intros [Gi Li Ni Vi] [Gj Lj Nj Vj] Hk Hne. rewrite !canonical_key_fields. intros E%app_inv_head. rewrite <- Hk in *.
  apply enc_inj in E as [Eg E]; [|apply blen_be64..].
  apply be64_inj in Eg; [|done..].
  apply enc_inj in E as [Er E]; [|apply Li; set_solver|apply Lj; set_solver].
  apply enc_inj in E as [Et E]; [|apply Li; set_solver|apply Lj; set_solver].
  apply enc_inj in E as [Em E]; [|apply Li; set_solver|apply Lj; set_solver].
  apply enc_inj in E as [Eu E]; [|apply Li; set_solver|apply Lj; set_solver].
  apply headers_inj in E as [Eh E]; [|done|].
  2: { intros name v Hn Hv. split; [intros ->; by apply (Hne name)|].
       apply elem_of_app in Hv as [Hv|Hv]; [by eapply Vi|by eapply Vj]. }
  rewrite <- (app_nil_r (enc (ki_body i))), <- (app_nil_r (enc (ki_body j))) in E.
  apply enc_inj in E as [Eb _]; [|apply Li; set_solver|apply Lj; set_solver].
  repeat split; auto using bytes_of_inj.
Qed.

(** * Which requests share a response *)

Lemma existsb_eqb name l : existsb (String.eqb name) l = true <-> name ∈ l.
Proof.
  rewrite existsb_exists. split.
  - intros (x & Hx & ->%String.eqb_eq). by apply list_elem_of_In.
  - intros Hn. exists name. split; [by apply list_elem_of_In|]. apply String.eqb_refl.
Qed.

Lemma route_key_headers_default configured name : name ∈ DEFAULT_KEY_HEADERS -> name ∈ route_key_headers configured.
Proof.
  unfold route_key_headers. generalize DEFAULT_KEY_HEADERS. induction configured as [|x l IH]; intros out Hn; simpl; [done|].
  apply IH. case_match; [done|]. apply elem_of_app. by left.
Qed.

Lemma safe_request_keyed configured names p name :
  cp_key_headers p = route_key_headers configured -> safe_request_for_cache names p = true -> name ∈ names ->
  is_ignored_transport_header name = false -> name ∈ cp_key_headers p /\ safe_key_header name = true.
Proof.
  intros Hp Hs Hn Ht. unfold safe_request_for_cache in Hs. rewrite forallb_forall in Hs.
  specialize (Hs name). rewrite Ht in Hs. apply list_elem_of_In, Hs in Hn.
  destruct (safe_key_header name); [|done]. simpl in Hn. split; [|done].
  destruct (existsb (String.eqb name) (cp_key_headers p)) eqn:E; [by apply existsb_eqb|].
  rewrite Hp. apply route_key_headers_default. by apply existsb_eqb.
Qed.

(** A header map: the names its iteration yields are those with a value. *)
Definition lists_names (names : list string) (input : CacheKeyInput) : Prop :=
  forall name, name ∉ names -> ki_headers input name = [].

(** [C33] Only equivalent requests share a cached response: when two requests of a
    route pass the request check and have the same canonical key bytes, and no key
    header has an empty value, they agree on the generation, the route, the
    target, the method, the URI and the body, and on every value of every header
    outside the ignored transport ones; and neither carries a header that
    identifies its sender (authorization, cookies, API keys, tokens). *)
Theorem cached_requests_equivalent configured p ni nj i j :
  cp_key_headers p = route_key_headers configured ->
  ki_key_headers i = cp_key_headers p -> ki_key_headers j = cp_key_headers p ->
  key_input_wf i -> key_input_wf j -> lists_names ni i -> lists_names nj j ->
  safe_request_for_cache ni p = true -> safe_request_for_cache nj p = true ->
  (forall name, name ∈ cp_key_headers p -> [] ∉ ki_headers i name ++ ki_headers j name) ->
  canonical_key i = canonical_key j ->
  (ki_generation i = ki_generation j /\ ki_route i = ki_route j /\ ki_target i = ki_target j /\
   ki_method i = ki_method j /\ ki_uri i = ki_uri j /\ ki_body i = ki_body j) /\
  (forall name, is_ignored_transport_header name = false -> ki_headers i name = ki_headers j name) /\
  (forall name, name ∈ ni ++ nj -> is_ignored_transport_header name = false -> safe_key_header name = true).
Proof.
  intros Hp Hi Hj Wi Wj Li Lj Si Sj Hne E.
  destruct (canonical_key_inj i j) as (Eg & Er & Et & Em & Eu & Eh & Eb); [done|done|congruence|by rewrite Hi|done|].
  rewrite Hi in Eh. split; [done|]. split.
  - intros name Ht. destruct (decide (name ∈ ni)) as [Hn|Hn].
    { apply Eh. by eapply (safe_request_keyed configured ni). }
    destruct (decide (name ∈ nj)) as [Hm|Hm].
    { apply Eh. by eapply (safe_request_keyed configured nj). }
    by rewrite Li, Lj.
  - intros name [Hn|Hn]%elem_of_app Ht; [by eapply (safe_request_keyed configured ni)|by eapply (safe_request_keyed configured nj)].
Qed.

(** A request with an accept and a tenant header. *)
Definition demo_headers (tenant : string) (name : string) : list bytes :=
  if String.eqb name "accept" then [bytes_of "text/html"; bytes_of "*/*"]
  else if String.eqb name "x-tenant" then [bytes_of tenant] else [].
Definition demo_input (tenant : string) : CacheKeyInput :=
  MkCacheKeyInput 7 "chat" "upstream" "GET" "/v1/models" (demo_headers tenant)
    (route_key_headers ["x-tenant"%string]) [].
Definition demo_policy : CachePolicy :=
  MkCachePolicy true DEFAULT_CACHE_TTL 2 8 true (route_key_headers ["x-tenant"%string]).

Lemma demo_input_values tenant name v :
  v ∈ demo_headers tenant name -> v = bytes_of "text/html" \/ v = bytes_of "*/*" \/ v = bytes_of tenant.
Proof. unfold demo_headers. repeat case_match; set_solver. Qed.

Lemma demo_input_wf : key_input_wf (demo_input "acme").
Proof.
  split.
  - vm_compute. discriminate.
  - intros l Hl. unfold demo_input in Hl. simpl in Hl. rewrite !elem_of_cons in Hl.
    destruct Hl as [->|[->|[->|[->|[->|Hl]]]]]; [vm_compute; discriminate..|]. by apply elem_of_nil in Hl.
  - intros name Hn. unfold demo_input, route_key_headers in Hn. simpl in Hn. rewrite !elem_of_cons in Hn.
    destruct Hn as [->|[->|[->|[->|[->|[->|Hn]]]]]]; [vm_compute; discriminate..|]. by apply elem_of_nil in Hn.
  - intros name v _ [->|[-> | -> ]]%demo_input_values; vm_compute; discriminate.
Qed.

Lemma cached_requests_equivalent_witness :
  canonical_key (demo_input "acme") = canonical_key (demo_input "acme") /\
  safe_request_for_cache ["accept"; "x-tenant"]%string demo_policy = true /\
  (forall name, is_ignored_transport_header name = false ->
     ki_headers (demo_input "acme") name = ki_headers (demo_input "acme") name).
Proof.
  split; [reflexivity|]. split; [vm_compute; reflexivity|].
  assert (Hl : lists_names ["accept"; "x-tenant"]%string (demo_input "acme")).
  { intros name Hn. simpl. unfold demo_headers.
    destruct (String.eqb_spec name "accept"); [set_solver|]. destruct (String.eqb_spec name "x-tenant"); [set_solver|done]. }
  refine (proj1 (proj2 (cached_requests_equivalent ["x-tenant"%string] demo_policy _ _ (demo_input "acme") (demo_input "acme")
    eq_refl eq_refl eq_refl demo_input_wf demo_input_wf Hl Hl _ _ _ eq_refl))).
  - vm_compute. reflexivity.
  - vm_compute. reflexivity.
  - intros name _ [Hin|Hin]%elem_of_app; apply demo_input_values in Hin; by destruct Hin as [?|[?|?]].
Defined.

(** An empty header value makes the canonical key ambiguous: the empty field
    that closes the values of a header is also what an empty value is written as,
    so a request whose accept header has the values "", "accept-encoding" and
    "br" and a request whose accept-encoding header has the values "br", "" and
    "accept-encoding" have the same canonical bytes, hence the same cache key,
    although every header of both is a key header. *)
Theorem cache_key_collision :
  let a name := if String.eqb name "accept" then [[]; bytes_of "accept-encoding"; bytes_of "br"] else [] in
  let b name := if String.eqb name "accept-encoding" then [bytes_of "br"; []; bytes_of "accept-encoding"] else [] in
  let input h := MkCacheKeyInput 7 "chat" "upstream" "GET" "/v1/models" h (cp_key_headers demo_policy) [] in
  canonical_key (input a) = canonical_key (input b) /\
  a "accept"%string <> b "accept"%string /\
  safe_request_for_cache ["accept"; "accept"; "accept"]%string demo_policy = true /\
  safe_request_for_cache ["accept-encoding"; "accept-encoding"; "accept-encoding"]%string demo_policy = true.
Proof. vm_compute. repeat split; discriminate. Qed.
