(* ===== verification/CacheFacts.v ===== *)
(** Properties of the response cache: its bounds, that one caller at a time
    fetches a key, and what a published response is answered with. *)
From S2P Require Import Prelude Str Time Bytes Cache.

Open Scope N_scope.

(** * Completed entries *)

Definition entry_bytes (entries : gmap CacheKey Entry) (key : CacheKey) : N :=
  match entries !! key with Some e => body_len (en_response e) | None => 0 end.

Definition total_bytes (entries : gmap CacheKey Entry) (order : list CacheKey) : N :=
  foldr (fun k n => entry_bytes entries k + n) 0 order.

(** The order lists the keys of the entries once each, and the byte counter is
    the sum of their bodies. *)
Record completed_wf (s : CacheState) : Prop := {
  cw_nodup : NoDup (cs_order s);
  cw_order : forall k, k ∈ cs_order s <-> is_Some (cs_entries s !! k);
  cw_bytes : cs_bytes s = total_bytes (cs_entries s) (cs_order s);
}.

Definition completed_fits (p : CachePolicy) (s : CacheState) : Prop := over_capacity p s = false.

Lemma elem_retain_order key k order : k ∈ retain_order key order <-> k ∈ order /\ k <> key.
Proof.
  unfold retain_order. rewrite !list_elem_of_In, List.filter_In, negb_true_iff, bool_decide_eq_false. done.
Qed.

Lemma nodup_retain_order key order : NoDup order -> NoDup (retain_order key order).
Proof.
  unfold retain_order. induction 1 as [|x l Hx _ IH]; simpl; [constructor|].
  case_match; [|done]. constructor; [|done]. rewrite list_elem_of_In, List.filter_In.
  intros [Hin _]. by apply Hx, list_elem_of_In.
Qed.

Lemma total_bytes_ext m m' order :
  (forall k, k ∈ order -> m !! k = m' !! k) -> total_bytes m order = total_bytes m' order.
Proof.
  induction order as [|x l IH]; simpl; intros H; [done|]. rewrite IH by (intros; apply H; set_solver).
  unfold entry_bytes. by rewrite H by set_solver.
Qed.

Lemma total_bytes_app m a b : total_bytes m (a ++ b) = total_bytes m a + total_bytes m b.
Proof. induction a as [|x a IH]; simpl; [done|]. rewrite IH. lia. Qed.

Lemma retain_order_id key order : key ∉ order -> retain_order key order = order.
Proof.
  unfold retain_order. induction order as [|x l IH]; simpl; intros H; [done|].
  rewrite bool_decide_eq_false_2 by set_solver. simpl. by rewrite IH by set_solver.
Qed.

Lemma total_bytes_retain m key order :
  NoDup order -> total_bytes m order = total_bytes m (retain_order key order) + (if decide (key ∈ order) then entry_bytes m key else 0).
Proof.
  induction 1 as [|x l Hx Hl IH]; [done|]. unfold retain_order in *. simpl. destruct (decide (x = key)) as [->|Hne].
  - rewrite bool_decide_eq_true_2 by done. simpl. rewrite decide_True by set_solver.
    fold (retain_order key l). rewrite retain_order_id by done. lia.
  - rewrite bool_decide_eq_false_2 by done. simpl. rewrite IH.
    destruct (decide (key ∈ l)); [rewrite decide_True by set_solver|rewrite decide_False by set_solver]; lia.
Qed.

(** Taking out a key, whether the order still holds it or it was popped. *)
Lemma remove_entry_wf key s order' :
  completed_wf s -> retain_order key order' = retain_order key (cs_order s) ->
  completed_wf (remove_entry key (set_completed (cs_entries s) order' (cs_bytes s) s)).
Proof.
  intros [Hn Ho Hb] Hr. unfold remove_entry, set_completed. simpl. rewrite Hr. split; simpl.
  - by apply nodup_retain_order.
  - intros k. rewrite elem_retain_order, lookup_delete_is_Some, Ho. naive_solver.
  - rewrite (total_bytes_ext (delete key _) (cs_entries s)).
    2: { intros k [_ Hk]%elem_retain_order. by rewrite lookup_delete_ne. }
    rewrite Hb, (total_bytes_retain _ key (cs_order s)) by done. unfold sat_sub, entry_bytes.
    destruct (cs_entries s !! key) as [e|] eqn:E.
    + rewrite decide_True by (apply Ho; by eexists). lia.
    + rewrite decide_False by (intros [? ?]%Ho; congruence). lia.
Qed.

Lemma remove_entry_wf_same key s : completed_wf s -> completed_wf (remove_entry key s).
Proof.
  intros Hs. destruct s as [e o b fl fb]. pose proof (remove_entry_wf key _ o Hs eq_refl) as H. exact H.
Qed.

Lemma touch_wf key s :
  completed_wf s -> is_Some (cs_entries s !! key) ->
  completed_wf (set_completed (cs_entries s) (retain_order key (cs_order s) ++ [key]) (cs_bytes s) s).
Proof.
  intros [Hn Ho Hb] Hk. split; simpl.
  - apply NoDup_app. split; [by apply nodup_retain_order|]. split; [|apply NoDup_singleton].
    intros k [_ Hne]%elem_retain_order ->%list_elem_of_singleton. done.
  - intros k. rewrite elem_of_app, elem_retain_order, list_elem_of_singleton, Ho.
    destruct (decide (k = key)) as [->|]; naive_solver.
  - rewrite total_bytes_app. simpl. rewrite Hb, (total_bytes_retain _ key (cs_order s)) by done.
    rewrite decide_True by by apply Ho. lia.
Qed.

(** Storing a response, before evictions. *)
Lemma insert_wf key e s bytes :
  completed_wf s -> bytes = total_bytes (cs_entries s) (retain_order key (cs_order s)) ->
  completed_wf (set_completed (<[key := e]> (delete key (cs_entries s))) (retain_order key (cs_order s) ++ [key])
                  (bytes + body_len (en_response e)) s).
Proof.
  intros [Hn Ho Hb] ->. split; simpl.
  - apply NoDup_app. split; [by apply nodup_retain_order|]. split; [|apply NoDup_singleton].
    intros k [_ Hne]%elem_retain_order ->%list_elem_of_singleton. done.
  - intros k. rewrite elem_of_app, elem_retain_order, list_elem_of_singleton, lookup_insert_is_Some, lookup_delete_is_Some, Ho.
    destruct (decide (k = key)) as [->|]; naive_solver.
  - rewrite total_bytes_app. simpl.
    replace (entry_bytes (<[key := e]> (delete key (cs_entries s))) key) with (body_len (en_response e))
      by (unfold entry_bytes; by rewrite lookup_insert_eq).
    rewrite (total_bytes_ext (<[key := e]> _) (cs_entries s)); [lia|].
    intros k [_ Hk]%elem_retain_order. by rewrite lookup_insert_ne, lookup_delete_ne.
Qed.

Lemma size_entries_order s : completed_wf s -> size (cs_entries s) = length (cs_order s).
Proof.
  intros [Hn Ho _]. rewrite <- (size_dom (D := gset CacheKey)), <- (size_list_to_set (C := gset CacheKey)) by done.
  f_equal. apply set_eq. intros k. rewrite elem_of_list_to_set, elem_of_dom. symmetry. apply Ho.
Qed.

(** Evictions end within the fuel, fit the policy and keep the newest entry. *)
Lemma evict_spec p fuel s order key e :
  completed_wf s -> cs_order s = order ++ [key] -> cs_entries s !! key = Some e ->
  (length order <= fuel)%nat -> 0 < cp_max_entries p -> body_len (en_response e) <= cp_max_bytes p ->
  let s' := evict fuel p s in
  completed_wf s' /\ completed_fits p s' /\ cs_entries s' !! key = Some e /\
  cs_flights s' = cs_flights s /\ cs_flight_bytes s' = cs_flight_bytes s.
Proof.
  intros Hw Ho He Hf Hp Hb. revert s order Hw Ho He Hf. induction fuel as [|fuel IH]; intros s order Hw Ho He Hf; simpl.
  - destruct order; [|simpl in Hf; lia]. split; [done|]. split; [|done].
    unfold completed_fits, over_capacity. rewrite size_entries_order by done. destruct Hw as [_ _ Hbytes].
    rewrite Hbytes, Ho. simpl. unfold entry_bytes. rewrite He.
    apply orb_false_iff. split; apply N.ltb_ge; lia.
  - destruct (over_capacity p s) eqn:Hover; [|done].
    destruct order as [|x order].
    { exfalso. unfold over_capacity in Hover. rewrite size_entries_order in Hover by done.
      destruct Hw as [_ _ Hbytes]. rewrite Hbytes, Ho in Hover. simpl in Hover. unfold entry_bytes in Hover.
      rewrite He in Hover. apply orb_true_iff in Hover as [H|H]; apply N.ltb_lt in H; lia. }
    rewrite Ho. simpl. pose proof (cw_nodup s Hw) as Hn. rewrite Ho in Hn. simpl in Hn.
    apply NoDup_cons in Hn as [Hx Hn].
    assert (Hr : retain_order x (order ++ [key]) = order ++ [key]) by by apply retain_order_id.
    set (s1 := remove_entry x (set_completed (cs_entries s) (order ++ [key]) (cs_bytes s) s)).
    assert (Hw1 : completed_wf s1).
    { apply remove_entry_wf; [done|]. rewrite Ho, Hr. simpl. unfold retain_order in *. simpl.
      rewrite bool_decide_eq_true_2 by done. simpl. by rewrite Hr. }
    destruct (IH s1 order) as (A & B & C & D & E); [done| | |simpl in Hf; lia|].
    + unfold s1, remove_entry, set_completed. simpl. exact Hr.
    + unfold s1, remove_entry, set_completed. simpl. rewrite lookup_delete_ne; [done|]. set_solver.
    + split; [done|]. split; [done|]. split; [done|]. by rewrite D, E.
Qed.

(** What a policy must satisfy for the byte counters not to saturate; the
    configuration allows at most 64 MiB. *)
Definition policy_ok (p : CachePolicy) : Prop := usable p = true /\ 2 * cp_max_bytes p <= USIZE_MAX.

Lemma policy_positive p : policy_ok p -> 0 < cp_max_entries p.
Proof. intros [Hu _]. unfold usable in Hu. bool_props. tauto. Qed.

Lemma store_response_spec p key response now s :
  policy_ok p -> completed_wf s -> completed_fits p s -> body_len response <= cp_max_bytes p ->
  let s' := store_response p key response now s in
  completed_wf s' /\ completed_fits p s' /\
  cs_entries s' !! key = Some (MkEntry response (now + Z.of_N (cp_ttl p))%Z) /\
  cs_flights s' = cs_flights s /\ cs_flight_bytes s' = cs_flight_bytes s.
Proof.
  intros Hp Hw Hfit Hlen. unfold store_response. set (e := MkEntry response (now + Z.of_N (cp_ttl p))%Z).
  set (bytes := match cs_entries s !! key with Some _ => _ | None => _ end).
  assert (Hbytes : bytes = total_bytes (cs_entries s) (retain_order key (cs_order s))).
  { unfold bytes. destruct Hw as [Hn Ho Hb]. rewrite Hb, (total_bytes_retain _ key (cs_order s)) by done.
    unfold sat_sub, entry_bytes. destruct (cs_entries s !! key) as [x|] eqn:E.
    - rewrite decide_True by (apply Ho; by eexists). lia.
    - rewrite decide_False by (intros [? ?]%Ho; congruence). lia. }
  assert (Hle : bytes <= cp_max_bytes p).
  { destruct Hw as [Hn Ho Hb]. unfold completed_fits, over_capacity in Hfit.
    apply orb_false_iff in Hfit as [_ Hfit%N.ltb_ge]. rewrite Hb, (total_bytes_retain _ key (cs_order s)) in Hfit by done. lia. }
  replace (sat_add USIZE_MAX bytes (body_len response)) with (bytes + body_len (en_response e))
    by (unfold sat_add; simpl; destruct Hp; lia).
  pose proof (insert_wf key e s bytes Hw Hbytes) as Hw'.
  destruct (evict_spec p (length (retain_order key (cs_order s) ++ [key])) _ (retain_order key (cs_order s)) key e Hw')
    as (A & B & C & D & E).
  - reflexivity.
  - simpl. apply lookup_insert_eq.
  - rewrite length_app. simpl. lia.
  - by apply policy_positive.
  - done.
  - done.
Qed.

(** * Callers *)

(** The cache with the callers that hold a handle: the owners of a fetch (key and
    flight), the flights a failing owner has taken out but not completed yet, and
    the followers. *)
Record CacheSys := MkCacheSys {
  sy_cache : Cache;
  sy_leaders : list (CacheKey * N);
  sy_failing : list N;
  sy_followers : list N;
}.

Inductive cache_step : CacheSys -> CacheSys -> Prop :=
| step_get c l fa fo key now :
    cache_step (MkCacheSys c l fa fo) (MkCacheSys (cache_get key now c).2 l fa fo)
| step_lead c l fa fo key n f c' :
    begin_with_size key n c = (Leader f, c') ->
    cache_step (MkCacheSys c l fa fo) (MkCacheSys c' ((key, f) :: l) fa fo)
| step_follow c l fa fo key n f c' :
    begin_with_size key n c = (Follower f, c') -> N.of_nat (length fo) + 1 < USIZE_MAX ->
    cache_step (MkCacheSys c l fa fo) (MkCacheSys c' l fa (f :: fo))
| step_disabled c l fa fo key n c' :
    begin_with_size key n c = (Disabled, c') -> cache_step (MkCacheSys c l fa fo) (MkCacheSys c' l fa fo)
| step_publish c l1 l2 fa fo key f response now :
    cache_step (MkCacheSys c (l1 ++ (key, f) :: l2) fa fo)
      (MkCacheSys (cache_publish key response now c) (l1 ++ l2) fa fo)
| step_reserve c l fa fo key f n :
    (key, f) ∈ l -> cache_step (MkCacheSys c l fa fo) (MkCacheSys (reserve_response key n c).2 l fa fo)
| step_fail c l1 l2 fa fo key f o c' :
    fail_locked key c = (o, c') ->
    cache_step (MkCacheSys c (l1 ++ (key, f) :: l2) fa fo) (MkCacheSys c' (l1 ++ l2) (option_list o ++ fa) fo)
| step_failed c l fa1 fa2 fo f :
    cache_step (MkCacheSys c l (fa1 ++ f :: fa2) fo) (MkCacheSys (fail_complete f c) l (fa1 ++ fa2) fo)
| step_leave c l fa fo1 fo2 f :
    cache_step (MkCacheSys c l fa (fo1 ++ f :: fo2))
      (MkCacheSys (update_flight release_follower f c) l fa (fo1 ++ fo2)).

Inductive cache_reachable (p : CachePolicy) : CacheSys -> Prop :=
| cache_init : cache_reachable p (MkCacheSys (cache_new p) [] [] [])
| cache_next x y : cache_reachable p x -> cache_step x y -> cache_reachable p y.

Definition reserved (heap : gmap N Flight) (f : N) : N :=
  match heap !! f with Some fl => fl_reserved_bytes fl | None => 0 end.
Definition total_reserved (heap : gmap N Flight) (l : list (CacheKey * N)) : N :=
  foldr (fun kf n => reserved heap kf.2 + n) 0 l.

Definition followers_of (f : N) (fo : list N) : N := N.of_nat (count_occ N.eq_dec fo f).

(** The flight of a live owner: unresolved, not cancelled, one subscription for
    the owner and one for each follower. *)
Definition open_flight (heap : gmap N Flight) (fo : list N) (f : N) : Prop :=
  exists fl, heap !! f = Some fl /\ fl_result fl = None /\ fl_cancelled fl = false /\
    fl_subscribers fl = 1 + followers_of f fo.

Definition resolved (heap : gmap N Flight) (f : N) : Prop :=
  exists fl, heap !! f = Some fl /\ is_Some (fl_result fl).

Record cache_inv (p : CachePolicy) (x : CacheSys) : Prop := {
  ci_policy : ca_policy (sy_cache x) = p;
  ci_wf : completed_wf (ca_state (sy_cache x));
  ci_fits : completed_fits p (ca_state (sy_cache x));
  ci_keys : NoDup (sy_leaders x).*1;
  ci_cells : NoDup (sy_leaders x).*2;
  ci_flights : forall k f, cs_flights (ca_state (sy_cache x)) !! k = Some f <-> (k, f) ∈ sy_leaders x;
  ci_open : forall f, f ∈ (sy_leaders x).*2 -> open_flight (ca_heap (sy_cache x)) (sy_followers x) f;
  ci_fresh : forall f, is_Some (ca_heap (sy_cache x) !! f) -> f < ca_next (sy_cache x);
  ci_failing : forall f, f ∈ sy_failing x -> is_Some (ca_heap (sy_cache x) !! f) /\ f ∉ (sy_leaders x).*2;
  ci_followers : forall f, f ∈ sy_followers x ->
    is_Some (ca_heap (sy_cache x) !! f) /\
    (f ∈ (sy_leaders x).*2 \/ f ∈ sy_failing x \/ resolved (ca_heap (sy_cache x)) f);
  ci_reserved : cs_flight_bytes (ca_state (sy_cache x)) = total_reserved (ca_heap (sy_cache x)) (sy_leaders x);
  ci_bound : cs_flight_bytes (ca_state (sy_cache x)) <= cp_max_bytes p;
  ci_count : N.of_nat (length (sy_leaders x)) <= cp_max_entries p;
  ci_room : N.of_nat (length (sy_followers x)) < USIZE_MAX;
}.

(** Reduces the projections of the records of the system only. *)
Ltac sys_cbn :=
  cbn [sy_cache sy_leaders sy_failing sy_followers ca_policy ca_state ca_heap ca_next with_cache_state
       update_flight set_flights set_completed cs_entries cs_order cs_bytes cs_flights cs_flight_bytes fst snd] in *.

(** ** Heap updates *)

Lemma reserved_alter g heap f h :
  (forall fl, fl_reserved_bytes (g fl) = fl_reserved_bytes fl) -> reserved (alter g f heap) h = reserved heap h.
Proof.
  intros Hg. unfold reserved. rewrite lookup_alter. destruct (decide (f = h)) as [->|]; [|done].
  by destruct (heap !! h); simpl; rewrite ?Hg.
Qed.

Lemma total_reserved_ext heap heap' l :
  (forall f, f ∈ l.*2 -> reserved heap f = reserved heap' f) -> total_reserved heap l = total_reserved heap' l.
Proof.
  induction l as [|[k f] l IH]; simpl; intros H; [done|]. rewrite H by set_solver. rewrite IH; [done|].
  intros; apply H; set_solver.
Qed.

Lemma total_reserved_app heap a b : total_reserved heap (a ++ b) = total_reserved heap a + total_reserved heap b.
Proof. induction a as [|x a IH]; simpl; [done|]. rewrite IH. lia. Qed.

Lemma complete_reserved r fl : fl_reserved_bytes (flight_complete r fl) = fl_reserved_bytes fl.
Proof. unfold flight_complete. by destruct (fl_result fl). Qed.

Lemma release_reserved fl : fl_reserved_bytes (release_follower fl) = fl_reserved_bytes fl.
Proof. unfold release_follower, flight_complete. simpl. destruct (fl_result fl); by case_match. Qed.

Lemma subscribe_reserved fl : fl_reserved_bytes (add_subscriber fl) = fl_reserved_bytes fl.
Proof. unfold add_subscriber. by destruct (fl_result fl). Qed.

Lemma is_Some_alter (g : Flight -> Flight) f h (heap : gmap N Flight) : is_Some (alter g f heap !! h) <-> is_Some (heap !! h).
Proof. apply lookup_alter_is_Some. Qed.

Lemma resolved_alter g f h heap :
  (forall fl, is_Some (fl_result fl) -> is_Some (fl_result (g fl))) -> resolved heap h -> resolved (alter g f heap) h.
Proof.
  intros Hg (fl & E & Hr). destruct (decide (f = h)) as [->|Hne].
  - exists (g fl). rewrite lookup_alter_eq, E. split; [done|]. by apply Hg.
  - exists fl. by rewrite lookup_alter_ne.
Qed.

Lemma open_flight_ne g f h heap fo : f <> h -> open_flight heap fo h -> open_flight (alter g f heap) fo h.
Proof. intros Hne (fl & E & H). exists fl. by rewrite lookup_alter_ne. Qed.

(** ** Steps *)

Lemma completed_change p c l fa fo s' :
  cache_inv p (MkCacheSys c l fa fo) -> completed_wf s' -> completed_fits p s' ->
  cs_flights s' = cs_flights (ca_state c) -> cs_flight_bytes s' = cs_flight_bytes (ca_state c) ->
  cache_inv p (MkCacheSys (with_cache_state s' c) l fa fo).
Proof. intros [] Hw Hf E1 E2. split; simpl in *; rewrite ?E1, ?E2; done. Qed.

Lemma remove_entry_fits p key s : completed_fits p s -> completed_fits p (remove_entry key s).
Proof.
  unfold completed_fits, over_capacity. intros Hf. bool_props. destruct Hf as [H1 H2].
  unfold remove_entry. simpl. split.
  - rewrite map_size_delete. destruct (cs_entries s !! key); simpl; lia.
  - unfold sat_sub. destruct (cs_entries s !! key); lia.
Qed.

Lemma get_inv p c l fa fo key now :
  cache_inv p (MkCacheSys c l fa fo) -> cache_inv p (MkCacheSys (cache_get key now c).2 l fa fo).
Proof.
  intros Hi. pose proof (ci_wf _ _ Hi) as Hw. pose proof (ci_fits _ _ Hi) as Hf. simpl in Hw, Hf.
  unfold cache_get. destruct (negb _); [done|].
  destruct (cs_entries (ca_state c) !! key) as [e|] eqn:E; [|done]. destruct (_ <=? _)%Z; simpl.
  - apply completed_change; [done|by apply remove_entry_wf_same|by apply remove_entry_fits|done|done].
  - apply completed_change; [done|apply touch_wf; [done|by eexists]|exact Hf|done|done].
Qed.

Lemma set_flights_wf flights n s : completed_wf s -> completed_wf (set_flights flights n s).
Proof. by intros []. Qed.

(** An owner gives up its key; its flight is still to be completed. *)
Lemma detach p c l1 l2 fa fo key f :
  cache_inv p (MkCacheSys c (l1 ++ (key, f) :: l2) fa fo) ->
  exists c', remove_flight key c = (Some f, c') /\ cache_inv p (MkCacheSys c' (l1 ++ l2) (f :: fa) fo).
Proof.
  intros Hi. pose proof Hi as []. sys_cbn.
  assert (Hl : cs_flights (ca_state c) !! key = Some f) by (apply ci_flights0; set_solver).
  unfold remove_flight. rewrite Hl. eexists. split; [reflexivity|].
  rewrite fmap_app, fmap_cons in ci_keys0. rewrite fmap_app, fmap_cons in ci_cells0.
  apply NoDup_app in ci_keys0 as (K1 & K2 & [K3 K4]%NoDup_cons).
  apply NoDup_app in ci_cells0 as (F1 & F2 & [F3 F4]%NoDup_cons). sys_cbn.
  assert (Hf : f ∉ (l1 ++ l2).*2) by (rewrite fmap_app, elem_of_app; set_solver).
  assert (Hk : key ∉ (l1 ++ l2).*1) by (rewrite fmap_app, elem_of_app; set_solver).
  assert (Hmem : forall g, g ∈ (l1 ++ (key, f) :: l2).*2 <-> g = f \/ g ∈ (l1 ++ l2).*2)
    by (intros g; rewrite !fmap_app, fmap_cons; set_solver).
  split; sys_cbn; try done.
  - by apply set_flights_wf.
  - rewrite fmap_app. apply NoDup_app. set_solver.
  - rewrite fmap_app. apply NoDup_app. set_solver.
  - intros k g. destruct (decide (k = key)) as [->|Hne].
    + rewrite lookup_delete_eq. split; [done|]. intros Hin. exfalso. apply Hk. apply list_elem_of_fmap. by exists (key, g).
    + rewrite lookup_delete_ne by done. rewrite ci_flights0. set_solver.
  - intros g Hg. apply ci_open0, Hmem. by right.
  - intros g [->|Hg]%elem_of_cons.
    + split; [|done]. destruct (ci_open0 f) as (fl & E & _); [apply Hmem; by left|]. by eexists.
    + destruct (ci_failing0 g Hg) as [? Hng]. split; [done|]. intros Hin. apply Hng, Hmem. by right.
  - intros g Hg. destruct (ci_followers0 g Hg) as [? H]. split; [done|].
    rewrite Hmem, elem_of_cons in *. tauto.
  - rewrite ci_reserved0, !total_reserved_app. simpl. unfold sat_sub. fold (reserved (ca_heap c) f). lia.
  - unfold sat_sub. lia.
  - rewrite length_app in *. simpl in *. lia.
Qed.

(** A flight outside the map is completed, which wakes its followers. *)
Lemma settle p c l fa1 fa2 fo f r :
  cache_inv p (MkCacheSys c l (fa1 ++ f :: fa2) fo) ->
  cache_inv p (MkCacheSys (update_flight (flight_complete r) f c) l (fa1 ++ fa2) fo).
Proof.
  intros []. sys_cbn. destruct (ci_failing0 f) as [[fl Hfl] Hnl]; [set_solver|].
  split; sys_cbn; try done.
  - intros g Hg. apply open_flight_ne; [by intros ->|]. by apply ci_open0.
  - intros g. rewrite is_Some_alter. apply ci_fresh0.
  - intros g Hg. rewrite is_Some_alter. apply ci_failing0. set_solver.
  - intros g Hg. rewrite is_Some_alter. destruct (ci_followers0 g Hg) as [? H]. split; [done|].
    destruct H as [H|[H|H]]; [by auto| |].
    + destruct (decide (g = f)) as [->|Hne]; [|set_solver]. right. right. exists (flight_complete r fl).
      rewrite lookup_alter_eq, Hfl. split; [done|]. unfold flight_complete. destruct (fl_result fl) eqn:E; [rewrite E|]; by eexists.
    + right. right. apply resolved_alter; [|done]. intros x Hx. unfold flight_complete. destruct (fl_result x) eqn:E; [by rewrite E|done].
  - rewrite ci_reserved0. apply total_reserved_ext. intros g _. symmetry. apply reserved_alter, complete_reserved.
Qed.

Lemma publish_inv p c l1 l2 fa fo key f response now :
  policy_ok p -> cache_inv p (MkCacheSys c (l1 ++ (key, f) :: l2) fa fo) ->
  cache_inv p (MkCacheSys (cache_publish key response now c) (l1 ++ l2) fa fo).
Proof.
  intros Hp Hi. unfold cache_publish. rewrite (ci_policy _ _ Hi : ca_policy c = p).
  set (c1 := if body_len response <=? cp_max_bytes p then _ else _).
  assert (Hi1 : cache_inv p (MkCacheSys c1 (l1 ++ (key, f) :: l2) fa fo)).
  { unfold c1. destruct (N.leb_spec (body_len response) (cp_max_bytes p)); [|done].
    destruct (store_response_spec p key response now (ca_state c)) as (A & B & _ & D & E);
      [done|apply Hi|apply Hi|done|]. by apply completed_change. }
  apply detach in Hi1 as (c2 & -> & Hi2). by apply (settle p c2 (l1 ++ l2) [] fa fo f).
Qed.

Lemma size_flights p c l fa fo :
  cache_inv p (MkCacheSys c l fa fo) -> size (cs_flights (ca_state c)) = length l.
Proof.
  intros []. sys_cbn. rewrite <- (size_dom (D := gset CacheKey)).
  replace (length l) with (length l.*1) by apply length_fmap.
  rewrite <- (size_list_to_set (C := gset CacheKey)) by done. f_equal. apply set_eq. intros k.
  rewrite elem_of_list_to_set, elem_of_dom, list_elem_of_fmap. split.
  - intros [f Hf%ci_flights0]. by exists (k, f).
  - intros ([k' f] & -> & Hin). exists f. by apply ci_flights0.
Qed.

Lemma lead_inv p c l fa fo key n f c' :
  policy_ok p -> cache_inv p (MkCacheSys c l fa fo) -> begin_with_size key n c = (Leader f, c') ->
  cache_inv p (MkCacheSys c' ((key, f) :: l) fa fo).
Proof.
  intros Hp Hi. pose proof (size_flights _ _ _ _ _ Hi) as Hsize. pose proof Hi as [].
  unfold begin_with_size. sys_cbn. rewrite ci_policy0.
  destruct (negb _); [done|]. destruct (cs_flights (ca_state c) !! key) as [g|] eqn:Hk; [by destruct (cp_coalesce p)|].
  destruct (_ || _) eqn:Hcap; [done|]. intros [= <- <-]. rewrite !orb_false_iff, N.leb_gt, !N.ltb_ge in Hcap.
  destruct Hcap as [[H1 H2] H3]. rewrite Hsize in H1.
  assert (Hfresh : ca_heap c !! ca_next c = None).
  { destruct (ca_heap c !! ca_next c) eqn:E; [|done]. exfalso.
    assert (ca_next c < ca_next c) by (apply ci_fresh0; by eexists). lia. }
  assert (Hne : forall g, is_Some (ca_heap c !! g) -> g <> ca_next c) by (intros g Hg ->; by rewrite Hfresh in Hg; destruct Hg).
  assert (Hleads : forall g, g ∈ l.*2 -> g <> ca_next c).
  { intros g (fl & E & _)%ci_open0. apply Hne. by eexists. }
  assert (Hsat : sat_add USIZE_MAX (cs_flight_bytes (ca_state c)) n = cs_flight_bytes (ca_state c) + n).
  { unfold sat_add in *. destruct Hp as [_ Hmax]. lia. }
  rewrite Hsat in *. split; sys_cbn; try done.
  - by apply set_flights_wf.
  - constructor; [|done]. intros ([k g] & E & Hin%ci_flights0)%list_elem_of_fmap. sys_cbn. congruence.
  - constructor; [|done]. intros Hin. by apply (Hleads (ca_next c)).
  - intros k g. rewrite lookup_insert, elem_of_cons. case_decide as E; [subst k|].
    + split; [intros [= <-]; by left|]. intros [[= <-]|Hin%ci_flights0]; [done|congruence].
    + rewrite ci_flights0. split; [by right|]. intros [[= <- _]|]; done.
  - intros g [->|Hg]%elem_of_cons.
    + sys_cbn. exists (flight_new n). rewrite lookup_insert_eq. split; [done|]. split; [done|]. split; [done|].
      unfold followers_of. rewrite (proj1 (count_occ_not_In N.eq_dec fo (ca_next c))); [done|].
      intros Hin%list_elem_of_In. destruct (ci_followers0 _ Hin) as [Hs _]. by apply (Hne (ca_next c)).
    + destruct (ci_open0 g Hg) as (fl & E & H). exists fl. rewrite lookup_insert_ne by (symmetry; by apply Hleads). done.
  - intros g Hg. destruct (decide (g = ca_next c)) as [->|Hn]; [lia|]. rewrite lookup_insert_ne in Hg by done.
    apply ci_fresh0 in Hg. lia.
  - intros g Hg. destruct (ci_failing0 g Hg) as [Hs Hl]. rewrite lookup_insert_ne by (symmetry; by apply Hne).
    split; [done|]. intros [->|]%elem_of_cons; [by apply (Hne (ca_next c))|done].
  - intros g Hg. destruct (ci_followers0 g Hg) as [Hs H]. rewrite lookup_insert_ne by (symmetry; by apply Hne).
    split; [done|]. destruct H as [H|[H|(fl & E & Hr)]]; [left; by right|by auto|].
    right. right. exists fl. by rewrite lookup_insert_ne by (symmetry; by apply Hne).
  - simpl. unfold reserved at 1. rewrite lookup_insert_eq. simpl.
    rewrite (total_reserved_ext _ (ca_heap c)); [lia|]. intros g Hg. unfold reserved.
    by rewrite lookup_insert_ne by (symmetry; by apply Hleads).
  - simpl length. lia.
Qed.

Lemma followers_of_cons f g fo : followers_of f (g :: fo) = (if decide (g = f) then 1 else 0) + followers_of f fo.
Proof.
  unfold followers_of. simpl. destruct (N.eq_dec g f) as [->|Hne]; [rewrite decide_True by done|rewrite decide_False by done]; lia.
Qed.

Lemma followers_of_middle f g fo1 fo2 : followers_of f (fo1 ++ g :: fo2) = (if decide (g = f) then 1 else 0) + followers_of f (fo1 ++ fo2).
Proof.
  unfold followers_of. rewrite !count_occ_app. simpl.
  destruct (N.eq_dec g f) as [->|Hne]; [rewrite decide_True by done|rewrite decide_False by done]; lia.
Qed.

Lemma followers_of_le f fo : followers_of f fo <= N.of_nat (length fo).
Proof. unfold followers_of. pose proof (count_occ_bound N.eq_dec f fo). lia. Qed.

Lemma follow_inv p c l fa fo key n f c' :
  cache_inv p (MkCacheSys c l fa fo) -> begin_with_size key n c = (Follower f, c') ->
  N.of_nat (length fo) + 1 < USIZE_MAX -> cache_inv p (MkCacheSys c' l fa (f :: fo)).
Proof.
  intros Hi Hb Hroom. pose proof Hi as []. unfold begin_with_size in Hb. sys_cbn. rewrite ci_policy0 in Hb.
  destruct (negb _); [done|].
  destruct (cs_flights (ca_state c) !! key) as [g|] eqn:Hk; [|by destruct (_ || _)].
  destruct (cp_coalesce p); [|done]. injection Hb as -> <-.
  assert (Hl : f ∈ l.*2) by (apply list_elem_of_fmap; exists (key, f); split; [done|by apply ci_flights0]).
  split; sys_cbn; try done.
  - intros g Hg. destruct (ci_open0 g Hg) as (fl & E & Hr & Hc & Hs). destruct (decide (f = g)) as [->|Hne].
    + exists (add_subscriber fl). rewrite lookup_alter_eq, E. split; [done|]. unfold add_subscriber. rewrite Hr. simpl.
      split; [done|]. split; [done|]. rewrite Hs, followers_of_cons, decide_True by done.
      pose proof (followers_of_le g fo). unfold sat_add. lia.
    + exists fl. rewrite lookup_alter_ne by done. split; [done|]. split; [done|]. split; [done|].
      rewrite followers_of_cons, decide_False by done. done.
  - intros g. rewrite is_Some_alter. apply ci_fresh0.
  - intros g Hg. rewrite is_Some_alter. by apply ci_failing0.
  - intros g Hg. rewrite is_Some_alter. apply elem_of_cons in Hg as [->|Hg].
    + split; [|by left]. destruct (ci_open0 f Hl) as (fl & E & _). by eexists.
    + destruct (ci_followers0 g Hg) as [? [H|[H|H]]]; split; auto. right. right. apply resolved_alter; [|done].
      intros x Hx. unfold add_subscriber. by destruct (fl_result x) eqn:E; rewrite ?E.
  - rewrite ci_reserved0. apply total_reserved_ext. intros g _. symmetry. apply reserved_alter, subscribe_reserved.
  - simpl length. lia.
Qed.

Lemma leave_inv p c l fa fo1 fo2 f :
  cache_inv p (MkCacheSys c l fa (fo1 ++ f :: fo2)) ->
  cache_inv p (MkCacheSys (update_flight release_follower f c) l fa (fo1 ++ fo2)).
Proof.
  intros []. sys_cbn. split; sys_cbn; try done.
  - intros g Hg. destruct (ci_open0 g Hg) as (fl & E & Hr & Hc & Hs). rewrite followers_of_middle in Hs.
    destruct (decide (f = g)) as [->|Hne].
    + exists (release_follower fl). rewrite lookup_alter_eq, E. split; [done|].
      unfold release_follower. cbn [fl_subscribers fl_result]. unfold sat_sub.
      destruct (N.eqb_spec (fl_subscribers fl - 1) 0); [lia|]. simpl. split; [done|]. split; [done|]. lia.
    + exists fl. rewrite lookup_alter_ne by done. split; [done|]. split; [done|]. split; [done|]. lia.
  - intros g. rewrite is_Some_alter. apply ci_fresh0.
  - intros g Hg. rewrite is_Some_alter. by apply ci_failing0.
  - intros g Hg. rewrite is_Some_alter. destruct (ci_followers0 g) as [? [H|[H|H]]]; [set_solver|by auto..|].
    split; [done|]. right. right. apply resolved_alter; [|done]. intros x Hx. unfold release_follower, flight_complete. simpl.
    destruct (fl_result x) eqn:E; [|by destruct Hx]. by destruct (_ =? 0); simpl; rewrite ?E.
  - rewrite ci_reserved0. apply total_reserved_ext. intros g _. symmetry. apply reserved_alter, release_reserved.
  - rewrite length_app in *. simpl in *. lia.
Qed.

Lemma reserve_inv p c l fa fo key f n :
  policy_ok p -> (key, f) ∈ l -> cache_inv p (MkCacheSys c l fa fo) ->
  cache_inv p (MkCacheSys (reserve_response key n c).2 l fa fo).
Proof.
  intros Hp Hin Hi. pose proof Hi as []. unfold reserve_response. sys_cbn. rewrite ci_policy0.
  destruct (N.ltb_spec (cp_max_bytes p) (sat_add USIZE_MAX
    (sat_add USIZE_MAX (cs_bytes (ca_state c)) (cs_flight_bytes (ca_state c))) n)) as [|Hle]; [done|].
  rewrite (proj2 (ci_flights0 key f) Hin).
  assert (Hn : cs_flight_bytes (ca_state c) + n <= cp_max_bytes p).
  { destruct Hp as [_ Hmax]. unfold sat_add in Hle. lia. }
  assert (Hsat : sat_add USIZE_MAX (cs_flight_bytes (ca_state c)) n = cs_flight_bytes (ca_state c) + n).
  { destruct Hp as [_ Hmax]. unfold sat_add. lia. }
  assert (Hl : f ∈ l.*2) by (apply list_elem_of_fmap; by exists (key, f)).
  assert (Hkeep : forall fl, fl_result (add_reserved_bytes n fl) = fl_result fl) by done.
  split; sys_cbn; try done.
  - by apply set_flights_wf.
  - intros g Hg. destruct (ci_open0 g Hg) as (fl & E & H). destruct (decide (f = g)) as [->|Hne].
    + exists (add_reserved_bytes n fl). by rewrite lookup_alter_eq, E.
    + exists fl. by rewrite lookup_alter_ne.
  - intros g. rewrite is_Some_alter. apply ci_fresh0.
  - intros g Hg. rewrite is_Some_alter. by apply ci_failing0.
  - intros g Hg. rewrite is_Some_alter. destruct (ci_followers0 g Hg) as [? [H|[H|H]]]; split; auto.
    right. right. by apply resolved_alter.
  - rewrite Hsat, ci_reserved0. apply list_elem_of_split in Hin as (l1 & l2 & ->).
    rewrite fmap_app, fmap_cons in ci_cells0. apply NoDup_app in ci_cells0 as (F1 & F2 & [F3 F4]%NoDup_cons).
    rewrite !total_reserved_app. simpl.
    rewrite (total_reserved_ext (alter _ _ _) (ca_heap c) l1).
    2: { intros g Hg. unfold reserved. rewrite lookup_alter_ne; [done|]. intros ->. by apply (F2 g Hg), elem_of_cons; left. }
    rewrite (total_reserved_ext (alter _ _ _) (ca_heap c) l2).
    2: { intros g Hg. unfold reserved. rewrite lookup_alter_ne; [done|]. by intros ->. }
    destruct (ci_open0 f Hl) as (fl & E & _). unfold reserved. rewrite lookup_alter_eq, E. simpl.
    rewrite ci_reserved0, total_reserved_app in Hn. simpl in Hn. unfold reserved in Hn. rewrite E in Hn.
    unfold sat_add. destruct Hp as [_ Hmax]. lia.
  - rewrite Hsat. done.
Qed.

Lemma disabled_inv p c l fa fo key n c' :
  cache_inv p (MkCacheSys c l fa fo) -> begin_with_size key n c = (Disabled, c') ->
  cache_inv p (MkCacheSys c' l fa fo).
Proof.
  unfold begin_with_size. intros Hi Hb. destruct (negb _); [by injection Hb as <-|].
  destruct (_ !! _); [destruct (cp_coalesce _); [done|by injection Hb as <-]|].
  destruct (_ || _); [by injection Hb as <-|done].
Qed.

Lemma fail_inv p c l1 l2 fa fo key f o c' :
  cache_inv p (MkCacheSys c (l1 ++ (key, f) :: l2) fa fo) -> fail_locked key c = (o, c') ->
  cache_inv p (MkCacheSys c' (l1 ++ l2) (option_list o ++ fa) fo).
Proof.
  intros Hi Hf. apply detach in Hi as (c2 & E & Hi). unfold fail_locked in Hf. rewrite E in Hf. by injection Hf as <- <-.
Qed.

(** One preservation lemma per step. *)
Create HintDb cache_steps.
#[export] Hint Resolve get_inv lead_inv follow_inv disabled_inv publish_inv reserve_inv fail_inv leave_inv : cache_steps.

Lemma cache_step_inv p x y : policy_ok p -> cache_step x y -> cache_inv p x -> cache_inv p y.
Proof. intros Hp Hstep Hi. destruct Hstep; [..|by apply settle|]; eauto with cache_steps. Qed.

Lemma cache_reachable_inv p x : policy_ok p -> cache_reachable p x -> cache_inv p x.
Proof.
  intros Hp. induction 1 as [|x y _ IH Hs]; [|by eapply cache_step_inv].
  split; sys_cbn; simpl; try apply NoDup_nil_2; try lia; try done.
  all: try (intros ? []%elem_of_nil).
  - split; [apply NoDup_nil_2| |done]. intros k. simpl. rewrite lookup_empty. split; [intros []%elem_of_nil|by intros []].
  - unfold completed_fits, over_capacity. simpl. by destruct (cp_max_entries p), (cp_max_bytes p).
  - intros k f. rewrite lookup_empty. split; [done|intros []%elem_of_nil].
  - intros f. rewrite lookup_empty. by intros [].
Qed.

(** * Theorems *)

(** [C32] The response cache stays within its bounds: in every interleaving of
    lookups, fetches, publications and failures, the completed entries are at most
    [max_entries] with at most [max_bytes] bytes, the byte counter is the sum of
    their bodies and the eviction order lists each of them once, and the fetches
    in flight are at most [max_entries] with reservations of at most [max_bytes]
    bytes, which the counter sums up. *)
Theorem cache_bounded p x :
  policy_ok p -> cache_reachable p x ->
  let s := ca_state (sy_cache x) in
  N.of_nat (size (cs_entries s)) <= cp_max_entries p /\
  cs_bytes s <= cp_max_bytes p /\ cs_bytes s = total_bytes (cs_entries s) (cs_order s) /\
  NoDup (cs_order s) /\ (forall k, k ∈ cs_order s <-> is_Some (cs_entries s !! k)) /\
  N.of_nat (size (cs_flights s)) <= cp_max_entries p /\
  cs_flight_bytes s <= cp_max_bytes p /\
  cs_flight_bytes s = total_reserved (ca_heap (sy_cache x)) (sy_leaders x).
Proof.
  intros Hp Hx. pose proof (cache_reachable_inv p x Hp Hx) as Hi. destruct x as [c l fa fo].
  pose proof (size_flights _ _ _ _ _ Hi) as Hsize. pose proof Hi as [_ [Hn Ho Hb] Hfit]. sys_cbn.
  unfold completed_fits, over_capacity in Hfit. bool_props. destruct Hfit as [H1 H2].
  rewrite Hsize. repeat split; try done; by apply Ho.
Qed.

(** [C5] One caller at a time fetches a key, and nobody waits for nothing: in every
    interleaving each key has at most one live owner, whose flight is the one in
    the map, is unresolved and has not been cancelled by followers that left; and
    every follower waits on a flight that is resolved, or whose owner is still
    live, or whose owner is just failing and about to wake it. *)
Theorem cache_single_flight p x :
  policy_ok p -> cache_reachable p x ->
  (forall key f g, (key, f) ∈ sy_leaders x -> (key, g) ∈ sy_leaders x -> f = g) /\
  (forall key f, (key, f) ∈ sy_leaders x ->
     cs_flights (ca_state (sy_cache x)) !! key = Some f /\
     exists fl, ca_heap (sy_cache x) !! f = Some fl /\ fl_result fl = None /\ fl_cancelled fl = false) /\
  (forall f, f ∈ sy_followers x ->
     (exists fl, ca_heap (sy_cache x) !! f = Some fl /\ is_Some (fl_result fl)) \/
     (exists key, (key, f) ∈ sy_leaders x) \/ f ∈ sy_failing x).
Proof.
  intros Hp Hx. pose proof (cache_reachable_inv p x Hp Hx) as Hi. destruct x as [c l fa fo]. destruct Hi. sys_cbn.
  split; [|split].
  - intros key f g Hf%ci_flights0 Hg%ci_flights0. congruence.
  - intros key f Hf. split; [by apply ci_flights0|].
    destruct (ci_open0 f) as (fl & E & Hr & Hc & _); [apply list_elem_of_fmap; by exists (key, f)|]. by exists fl.
  - intros f Hf. destruct (ci_followers0 f Hf) as [_ [H|[H|H]]]; [|by auto|by auto].
    right. left. apply list_elem_of_fmap in H as ([key g] & -> & H). by exists key.
Qed.

(** A published response answers the lookups of its key: from a reachable
    state, when the owner of a key publishes a response that fits the cache, a
    lookup before the time to live has passed returns that response and a lookup
    from then on returns none; no lookup ever returns an expired response. *)
Theorem cache_publish_get p x key f response now later :
  policy_ok p -> cache_reachable p x -> (key, f) ∈ sy_leaders x ->
  body_len response <= cp_max_bytes p ->
  let c := cache_publish key response now (sy_cache x) in
  (cache_get key later c).1 = (if (later <? now + Z.of_N (cp_ttl p))%Z then Some response else None) /\
  (forall k t r, (cache_get k t (sy_cache x)).1 = Some r ->
     exists e, cs_entries (ca_state (sy_cache x)) !! k = Some e /\ en_response e = r /\ (t < en_expires_at e)%Z).
Proof.
  intros Hp Hx Hl Hlen. pose proof (cache_reachable_inv p x Hp Hx) as Hi. destruct x as [c l fa fo]. sys_cbn. split.
  - pose proof (ci_policy _ _ Hi) as Hpol. sys_cbn. unfold cache_publish. rewrite Hpol.
    apply N.leb_le in Hlen as Hle. rewrite Hle.
    destruct (store_response_spec p key response now (ca_state c)) as (_ & _ & He & Hf & _); [done|apply Hi|apply Hi|done|].
    unfold remove_flight. sys_cbn. rewrite Hf.
    rewrite (proj2 (ci_flights _ _ Hi key f) Hl : cs_flights (ca_state c) !! key = Some f).
    unfold cache_get. sys_cbn. rewrite Hpol, (proj1 Hp), He. cbn [negb en_expires_at en_response].
    destruct (Z.leb_spec (now + Z.of_N (cp_ttl p)) later), (Z.ltb_spec later (now + Z.of_N (cp_ttl p))); simpl; done || lia.
  - intros k t r. unfold cache_get. destruct (negb _); [done|].
    destruct (cs_entries (ca_state c) !! k) as [e|] eqn:E; [|done].
    destruct (Z.leb_spec (en_expires_at e) t); [done|]. intros [= <-]. by exists e.
Qed.

(** ** A run: one caller fetches, one waits *)

Definition run_policy : CachePolicy := MkCachePolicy true DEFAULT_CACHE_TTL 2 8 true [].
Definition run_response : CachedResponse := MkCachedResponse 200 11 [] [1; 2; 3].
Definition run_leading : CacheSys :=
  MkCacheSys (begin_with_size [7] 3 (cache_new run_policy)).2 [([7], 0)] [] [].
Definition run_waiting : CacheSys :=
  MkCacheSys (begin_with_size [7] 3 (sy_cache run_leading)).2 [([7], 0)] [] [0].
Definition run_published : CacheSys :=
  MkCacheSys (cache_publish [7] run_response 5 (sy_cache run_waiting)) [] [] [0].

Lemma run_policy_ok : policy_ok run_policy.
Proof. split; [reflexivity|]. vm_compute. discriminate. Qed.

Lemma run_waiting_reachable : cache_reachable run_policy run_waiting.
Proof.
  eapply cache_next; [eapply cache_next; [apply cache_init|]|].
  - apply (step_lead (cache_new run_policy) [] [] [] [7] 3 0 (sy_cache run_leading)). reflexivity.
  - apply (step_follow (sy_cache run_leading) [([7], 0)] [] [] [7] 3 0 (sy_cache run_waiting)); reflexivity.
Qed.

Lemma run_published_reachable : cache_reachable run_policy run_published.
Proof.
  eapply cache_next; [apply run_waiting_reachable|].
  exact (step_publish (sy_cache run_waiting) [] [] [] [0] [7] 0 run_response 5).
Qed.

Lemma cache_bounded_witness :
  cs_bytes (ca_state (sy_cache run_published)) = 3 /\
  N.of_nat (size (cs_entries (ca_state (sy_cache run_published)))) <= cp_max_entries run_policy.
Proof.
  split; [vm_compute; reflexivity|].
  exact (proj1 (cache_bounded run_policy run_published run_policy_ok run_published_reachable)).
Defined.

Lemma cache_single_flight_witness :
  sy_followers run_waiting = [0] /\
  forall key f g, (key, f) ∈ sy_leaders run_waiting -> (key, g) ∈ sy_leaders run_waiting -> f = g.
Proof.
  split; [reflexivity|]. exact (proj1 (cache_single_flight run_policy run_waiting run_policy_ok run_waiting_reachable)).
Defined.

Lemma cache_publish_get_witness :
  (cache_get [7] 6 (sy_cache run_published)).1 = Some run_response /\
  (cache_get [7] 2000000000 (sy_cache run_published)).1 = None.
Proof.
  assert (Hl : ([7], 0) ∈ sy_leaders run_waiting) by (apply list_elem_of_singleton; reflexivity).
  assert (Hb : body_len run_response <= cp_max_bytes run_policy) by (vm_compute; discriminate).
  split.
  - exact (proj1 (cache_publish_get run_policy run_waiting [7] 0 run_response 5 6 run_policy_ok run_waiting_reachable Hl Hb)).
  - exact (proj1 (cache_publish_get run_policy run_waiting [7] 0 run_response 5 2000000000 run_policy_ok run_waiting_reachable Hl Hb)).
Defined.
