(* ===== verification/Lifecycle.v ===== *)
(** The process lifecycle (crates/pooler-server/src/lifecycle.rs): an atomic state
    byte and a cancellation signal that any number of tasks drive at once.

    Each atomic access is one step; what a call still has to do is its
    continuation, so that other calls can come between its accesses. *)
From S2P Require Import Prelude.

Open Scope N_scope.

Inductive LifecycleState := New | Starting | Running | Draining | Stopped | Failed.

#[export] Instance LifecycleState_eq_dec : EqDecision LifecycleState.
Proof. solve_decision. Defined.

(** [as u8] and [from_u8]. *)
Definition lifecycle_as_u8 (s : LifecycleState) : N :=
  match s with New => 0 | Starting => 1 | Running => 2 | Draining => 3 | Stopped => 4 | Failed => 5 end.
Definition lifecycle_from_u8 (value : N) : LifecycleState :=
  match value with 0 => New | 1 => Starting | 2 => Running | 3 => Draining | 4 => Stopped | _ => Failed end.

Inductive LifecycleError := InvalidTransition (from to : LifecycleState).

Record Lifecycle := MkLifecycle { lc_state : N; lc_cancelled : bool }.

Definition lifecycle_new : Lifecycle := MkLifecycle (lifecycle_as_u8 New) false.
Definition lifecycle_state (l : Lifecycle) : LifecycleState := lifecycle_from_u8 (lc_state l).

(** [compare_exchange]. *)
Definition lifecycle_transition (from to : LifecycleState) (l : Lifecycle) : Result unit LifecycleError * Lifecycle :=
  if lc_state l =? lifecycle_as_u8 from
  then (Ok tt, MkLifecycle (lifecycle_as_u8 to) (lc_cancelled l))
  else (Err (InvalidTransition (lifecycle_from_u8 (lc_state l)) to), l).

(** [cancellation.cancel()]. *)
Definition lifecycle_cancel (l : Lifecycle) : Lifecycle := MkLifecycle (lc_state l) true.

Inductive LifecycleCall := Start | BeginStartup | MarkRunning | MarkFailed | BeginShutdown | FinishShutdown.

(** What remains of a call after its last access. *)
Inductive Continuation :=
| CallShutdownFrom (seen : LifecycleState)   (* begin_shutdown after its load *)
| CallFinish                                 (* finish_shutdown after its load *)
| CallCancel                                 (* the cancellation that ends a call *)
| CallReturn (result : Result unit LifecycleError).

(** The first access of each call. *)
Definition call_begin (call : LifecycleCall) (l : Lifecycle) : Continuation * Lifecycle :=
  match call with
  | Start => let '(r, l) := lifecycle_transition New Running l in (CallReturn r, l)
  | BeginStartup => let '(r, l) := lifecycle_transition New Starting l in (CallReturn r, l)
  | MarkRunning => let '(r, l) := lifecycle_transition Starting Running l in (CallReturn r, l)
  | MarkFailed => (CallCancel, MkLifecycle (lifecycle_as_u8 Failed) (lc_cancelled l))
  | BeginShutdown =>
    match lifecycle_state l with
    | Draining | Stopped => (CallReturn (Ok tt), l)
    | seen => (CallShutdownFrom seen, l)
    end
  | FinishShutdown =>
    match lifecycle_state l with
    | Stopped => (CallReturn (Ok tt), l)
    | _ => (CallFinish, l)
    end
  end.

(** The next access of a call. *)
Definition call_continue (k : Continuation) (l : Lifecycle) : Continuation * Lifecycle :=
  match k with
  | CallShutdownFrom seen =>
    match lifecycle_transition seen Draining l with
    | (Ok _, l) => (CallCancel, l)
    | (Err e, l) => (CallReturn (Err e), l)
    end
  | CallFinish => let '(r, l) := lifecycle_transition Draining Stopped l in (CallReturn r, l)
  | CallCancel => (CallReturn (Ok tt), lifecycle_cancel l)
  | CallReturn r => (CallReturn r, l)
  end.

(** Any number of calls in progress. *)
Inductive lifecycle_step : Lifecycle * list Continuation -> Lifecycle * list Continuation -> Prop :=
| step_call l ks call k l' :
    call_begin call l = (k, l') -> lifecycle_step (l, ks) (l', ks ++ [k])
| step_continue l ks i k k' l' :
    ks !! i = Some k -> call_continue k l = (k', l') -> lifecycle_step (l, ks) (l', <[i := k']> ks).

Inductive lifecycle_steps : Lifecycle * list Continuation -> Lifecycle * list Continuation -> Prop :=
| steps_refl x : lifecycle_steps x x
| steps_next x y z : lifecycle_step x y -> lifecycle_steps y z -> lifecycle_steps x z.

(** A call alone, run to its end: no call makes more than three accesses. *)
Definition run_call (call : LifecycleCall) (l : Lifecycle) : Result unit LifecycleError * Lifecycle :=
  let '(k, l) := call_begin call l in
  let '(k, l) := call_continue k l in
  let '(k, l) := call_continue k l in
  match k with CallReturn r => (r, l) | _ => (Ok tt, l) end.

(** * Properties *)

(** The states in which requests are no longer accepted. *)
Definition closing (s : LifecycleState) : Prop := s = Draining \/ s = Stopped \/ s = Failed.

Record lifecycle_inv (x : Lifecycle * list Continuation) : Prop := {
  li_byte : exists s, lc_state x.1 = lifecycle_as_u8 s;
  li_cancelled : lc_cancelled x.1 = true -> closing (lifecycle_state x.1);
  li_cancels : CallCancel ∈ x.2 -> closing (lifecycle_state x.1);
  li_closing : closing (lifecycle_state x.1) -> lc_cancelled x.1 = true \/ CallCancel ∈ x.2;
}.

Lemma from_as_u8 s : lifecycle_from_u8 (lifecycle_as_u8 s) = s.
Proof. by destruct s. Qed.

Lemma as_u8_inj s t : (lifecycle_as_u8 s =? lifecycle_as_u8 t) = bool_decide (s = t).
Proof. by destruct s, t. Qed.

Lemma transition_spec from to s c :
  lifecycle_transition from to (MkLifecycle (lifecycle_as_u8 s) c) =
  if decide (s = from) then (Ok tt, MkLifecycle (lifecycle_as_u8 to) c)
  else (Err (InvalidTransition s to), MkLifecycle (lifecycle_as_u8 s) c).
Proof.
  unfold lifecycle_transition. cbn [lc_state lc_cancelled]. rewrite as_u8_inj, from_as_u8.
  destruct (decide (s = from)); [by rewrite bool_decide_eq_true_2|by rewrite bool_decide_eq_false_2].
Qed.

(** Where one access can take the state. *)
Lemma call_begin_state call s c k l' :
  call_begin call (MkLifecycle (lifecycle_as_u8 s) c) = (k, l') ->
  exists t, l' = MkLifecycle (lifecycle_as_u8 t) c /\ (closing s -> closing t) /\
    (closing t -> closing s \/ k = CallCancel) /\ (k = CallCancel -> closing t).
Proof.
  unfold closing. destruct call; cbn [call_begin]; rewrite ?transition_spec.
  - case_decide; intros [= <- <-]; subst; [exists Running|exists s]; naive_solver.
  - case_decide; intros [= <- <-]; subst; [exists Starting|exists s]; naive_solver.
  - case_decide; intros [= <- <-]; subst; [exists Running|exists s]; naive_solver.
  - intros [= <- <-]. exists Failed. naive_solver.
  - unfold lifecycle_state. cbn [lc_state]. rewrite from_as_u8. intros E. exists s. destruct s; injection E as <- <-; naive_solver.
  - unfold lifecycle_state. cbn [lc_state]. rewrite from_as_u8. intros E. exists s. destruct s; injection E as <- <-; naive_solver.
Qed.

Lemma call_continue_state k s c k' l' :
  call_continue k (MkLifecycle (lifecycle_as_u8 s) c) = (k', l') ->
  exists t, l' = MkLifecycle (lifecycle_as_u8 t) (match k with CallCancel => true | _ => c end) /\
    (closing s -> closing t) /\ (closing t -> closing s \/ k' = CallCancel) /\ (k' = CallCancel -> closing t).
Proof.
  unfold closing. destruct k as [seen| | |r]; cbn [call_continue]; rewrite ?transition_spec.
  - case_decide; intros [= <- <-]; subst; [exists Draining|exists s]; naive_solver.
  - case_decide; intros [= <- <-]; subst; [exists Stopped|exists s]; naive_solver.
  - intros [= <- <-]. exists s. naive_solver.
  - intros [= <- <-]. exists s. naive_solver.
Qed.

Lemma closing_state s c : closing (lifecycle_state (MkLifecycle (lifecycle_as_u8 s) c)) <-> closing s.
Proof. unfold lifecycle_state. simpl. by rewrite from_as_u8. Qed.

Lemma elem_of_insert_list {A} (l : list A) i x y z : l !! i = Some x -> z ∈ <[i := y]> l -> z = y \/ z ∈ l.
Proof.
  intros Hi (j & Hj)%list_elem_of_lookup. destruct (decide (i = j)) as [->|Hne].
  - rewrite list_lookup_insert_eq in Hj by by eapply lookup_lt_Some. left. congruence.
  - rewrite list_lookup_insert_ne in Hj by done. right. by eapply list_elem_of_lookup_2.
Qed.

Lemma elem_of_insert_other {A} (l : list A) i x y z : l !! i = Some x -> z ∈ l -> z = x \/ z ∈ <[i := y]> l.
Proof.
  intros Hi (j & Hj)%list_elem_of_lookup. destruct (decide (i = j)) as [->|Hne]; [left; congruence|].
  right. eapply (list_elem_of_lookup_2 _ j). by rewrite list_lookup_insert_ne.
Qed.

Lemma lifecycle_step_inv x y :
  lifecycle_step x y -> lifecycle_inv x ->
  lifecycle_inv y /\ (closing (lifecycle_state x.1) -> closing (lifecycle_state y.1)).
Proof.
  intros Hstep [[s Hs] Hcan Hcall Hclose].
  destruct Hstep as [[b c] ks call k l' Hb|[b c] ks i k k' l' Hi Hb]; simpl in *; subst b.
  - destruct (call_begin_state call s c k l' Hb) as (t & -> & H1 & H2 & H3).
    rewrite (closing_state s c) in *. rewrite !closing_state. simpl in *. split; [|done].
    split; simpl; rewrite ?closing_state; [by eexists|by auto| |].
    + rewrite elem_of_app, list_elem_of_singleton. naive_solver.
    + intros Ht. rewrite elem_of_app, list_elem_of_singleton. destruct (H2 Ht) as [?| ->]; [|by auto]. naive_solver.
  - destruct (call_continue_state k s c k' l' Hb) as (t & -> & H1 & H2 & H3).
    rewrite (closing_state s c) in *. rewrite !closing_state. simpl in *. split; [|done].
    assert (Hk : k = CallCancel -> closing s) by (intros ->; apply Hcall; by eapply list_elem_of_lookup_2).
    split; simpl; rewrite ?closing_state; [by eexists| | |].
    + destruct k; auto.
    + intros [<-|Hin]%(elem_of_insert_list _ _ _ _ _ Hi); auto.
    + intros Ht. destruct (H2 Ht) as [Hcs| ->].
      * destruct (Hclose Hcs) as [->|Hin]; [left; by destruct k|].
        destruct (elem_of_insert_other _ _ _ k' _ Hi Hin) as [<-|]; auto.
      * right. eapply (list_elem_of_lookup_2 _ i). apply list_lookup_insert_eq. by eapply lookup_lt_Some.
Qed.

Lemma lifecycle_steps_inv x y :
  lifecycle_steps x y -> lifecycle_inv x ->
  lifecycle_inv y /\ (closing (lifecycle_state x.1) -> closing (lifecycle_state y.1)).
Proof.
  induction 1 as [x|x y z Hs _ IH]; intros Hi; [done|].
  destruct (lifecycle_step_inv x y Hs Hi) as [Hy Hxy]. destruct (IH Hy) as [Hz Hyz]. auto.
Qed.

Lemma lifecycle_new_inv : lifecycle_inv (lifecycle_new, []).
Proof.
  split; simpl; [by exists New|done|intros []%elem_of_nil|]. unfold closing. cbn. naive_solver.
Qed.

(** Shutdown is final and is announced: however start-up, failure and shutdown
    calls of any number of tasks interleave, tasks are cancelled only once the
    process is draining, stopped or failed; in one of these states the
    cancellation has been sent or a call in progress is about to send it; and from
    there the process never accepts requests again. *)
Theorem lifecycle_shutdown_final l ks l' ks' :
  lifecycle_steps (lifecycle_new, []) (l, ks) -> lifecycle_steps (l, ks) (l', ks') ->
  (lc_cancelled l = true -> closing (lifecycle_state l)) /\
  (closing (lifecycle_state l) -> lc_cancelled l = true \/ CallCancel ∈ ks) /\
  (closing (lifecycle_state l) -> closing (lifecycle_state l') /\ lifecycle_state l' <> Running).
Proof.
  intros H1 H2. destruct (lifecycle_steps_inv _ _ H1 lifecycle_new_inv) as [Hi _].
  destruct (lifecycle_steps_inv _ _ H2 Hi) as [_ Hc]. destruct Hi as [_ Hcan _ Hclose]. simpl in *.
  split; [done|]. split; [done|]. intros Hl. split; [by apply Hc|]. intros E. apply Hc in Hl. rewrite E in Hl.
  unfold closing in Hl. naive_solver.
Qed.

(** Start, then a shutdown that a failure overtakes between its accesses. *)
Lemma lifecycle_shutdown_final_witness :
  exists l ks, lifecycle_steps (lifecycle_new, []) (l, ks) /\ lifecycle_state l = Failed /\
    (closing (lifecycle_state l) -> lc_cancelled l = true \/ CallCancel ∈ ks).
Proof.
  assert (H : lifecycle_steps (lifecycle_new, [])
    (MkLifecycle 5 false, [CallReturn (Ok tt); CallShutdownFrom Running; CallCancel])).
  { eapply steps_next; [exact (step_call lifecycle_new [] Start _ _ eq_refl)|].
    eapply steps_next; [exact (step_call (MkLifecycle 2 false) [CallReturn (Ok tt)] BeginShutdown _ _ eq_refl)|].
    eapply steps_next; [exact (step_call (MkLifecycle 2 false) [CallReturn (Ok tt); CallShutdownFrom Running] MarkFailed _ _ eq_refl)|].
    apply steps_refl. }
  eexists _, _. split; [exact H|]. split; [reflexivity|].
  exact (proj1 (proj2 (lifecycle_shutdown_final _ _ _ _ H (steps_refl _)))).
Defined.

(** Each call on its own. *)
Lemma run_call_spec call s c :
  run_call call (MkLifecycle (lifecycle_as_u8 s) c) =
  let fail to := (Err (InvalidTransition s to), MkLifecycle (lifecycle_as_u8 s) c) in
  let go to := (Ok tt, MkLifecycle (lifecycle_as_u8 to) c) in
  let cancelled to := (Ok tt, MkLifecycle (lifecycle_as_u8 to) true) in
  match call, s with
  | Start, New => go Running
  | Start, _ => fail Running
  | BeginStartup, New => go Starting
  | BeginStartup, _ => fail Starting
  | MarkRunning, Starting => go Running
  | MarkRunning, _ => fail Running
  | MarkFailed, _ => cancelled Failed
  | BeginShutdown, (Draining | Stopped) => go s
  | BeginShutdown, _ => cancelled Draining
  | FinishShutdown, (Draining | Stopped) => go Stopped
  | FinishShutdown, _ => fail Stopped
  end.
Proof. by destruct call, s. Qed.
