(* ===== verification/Pricing.v ===== *)
(** Operator price books (crates/pooler-config/src/pricing.rs): compilation and the
    estimate of a usage in integer ticks. *)
From S2P Require Import Prelude Str.

Open Scope N_scope.

Definition U128_MAX : N := 340282366920938463463374607431768211455.

(** The seven rates of an entry and the seven amounts of a usage have the same
    fields: four per million tokens, three per unit. *)
Record PriceRates := MkPriceRates {
  pr_input : option N; pr_output : option N; pr_reasoning : option N; pr_cache : option N;
  pr_image : option N; pr_audio : option N; pr_video : option N }.

Record UsagePriceEntryConfig := MkPriceEntryConfig { pec_provider : string; pec_model : string; pec_rates : PriceRates }.
Record UsagePriceBookConfig := MkPriceBookConfig { pbc_version : string; pbc_entries : list UsagePriceEntryConfig }.
Record UsagePriceEntryPlan := MkPriceEntry { pe_provider : string; pe_model : string; pe_rates : PriceRates }.
Record UsagePriceBookPlan := MkPriceBook { pb_version : string; pb_entries : list UsagePriceEntryPlan }.

Record UsageAmounts := MkUsageAmounts {
  ua_input : option N; ua_output : option N; ua_reasoning : option N; ua_cache : option N;
  ua_image : option N; ua_audio : option N; ua_video : option N }.

Definition rates (r : PriceRates) : list (option N) :=
  [pr_input r; pr_output r; pr_reasoning r; pr_cache r; pr_image r; pr_audio r; pr_video r].

Definition same_entry (provider model : string) (e : UsagePriceEntryPlan) : bool :=
  String.eqb (pe_provider e) provider && String.eqb (pe_model e) model.

Fixpoint compile_entries (configs : list UsagePriceEntryConfig) (entries : list UsagePriceEntryPlan)
  : Result (list UsagePriceEntryPlan) string :=
  match configs with
  | [] => Ok entries
  | entry :: configs =>
    let provider := trim (pec_provider entry) in
    let model := trim (pec_model entry) in
    if str_is_empty provider || (128 <? str_len provider) || str_is_empty model || (256 <? str_len model)
    then Err "usage price entry provider/model is invalid"%string
    else if existsb (same_entry provider model) entries
    then Err "usage price book contains a duplicate provider/model entry"%string
    else if forallb is_none (rates (pec_rates entry))
    then Err "usage price entry must declare at least one rate"%string
    else compile_entries configs (entries ++ [MkPriceEntry provider model (pec_rates entry)])
  end.

Definition price_book_compile (config : UsagePriceBookConfig) : Result UsagePriceBookPlan string :=
  let version := trim (pbc_version config) in
  if str_is_empty version || (128 <? str_len version)
  then Err "usage price book version must contain 1 to 128 characters"%string
  else if (N.of_nat (length (pbc_entries config)) =? 0) || (4096 <? N.of_nat (length (pbc_entries config)))
  then Err "usage price book must contain 1 to 4096 entries"%string
  else let? entries := compile_entries (pbc_entries config) [] in Ok (MkPriceBook version entries).

(** [checked_mul] and [checked_add] of [u128]. *)
Definition checked_mul_u128 (a b : N) : option N := if a * b <=? U128_MAX then Some (a * b) else None.
Definition checked_add_u128 (a b : N) : option N := if a + b <=? U128_MAX then Some (a + b) else None.

(** One of the two loops of [estimate]; [divisor] is 1_000_000 for the tokens and 1
    for the media. *)
Fixpoint add_terms (divisor : N) (terms : list (option N * option N)) (total : N) (matched : bool)
  : option (N * bool) :=
  match terms with
  | [] => Some (total, matched)
  | (Some amount, Some rate) :: terms =>
    match checked_mul_u128 amount rate with
    | None => None
    | Some product =>
      match checked_add_u128 total (product / divisor) with
      | None => None
      | Some total => add_terms divisor terms total true
      end
    end
  | _ :: terms => add_terms divisor terms total matched
  end.

Definition token_terms (u : UsageAmounts) (r : PriceRates) : list (option N * option N) :=
  [(ua_input u, pr_input r); (ua_output u, pr_output r); (ua_reasoning u, pr_reasoning r); (ua_cache u, pr_cache r)].
Definition media_terms (u : UsageAmounts) (r : PriceRates) : list (option N * option N) :=
  [(ua_image u, pr_image r); (ua_audio u, pr_audio r); (ua_video u, pr_video r)].

Definition estimate (book : UsagePriceBookPlan) (provider model : string) (usage : UsageAmounts) : option N :=
  match List.find (same_entry provider model) (pb_entries book) with
  | None => None
  | Some entry =>
    match add_terms 1000000 (token_terms usage (pe_rates entry)) 0 false with
    | None => None
    | Some (total, matched) =>
      match add_terms 1 (media_terms usage (pe_rates entry)) total matched with
      | None => None
      | Some (total, matched) => if matched && (total <=? U64_MAX) then Some total else None
      end
    end
  end.

(** * Properties *)

(** The price of a usage without any machine limit. *)
Definition term_price (divisor : N) (t : option N * option N) : N :=
  match t with (Some amount, Some rate) => amount * rate / divisor | _ => 0 end.
Definition terms_price (divisor : N) (terms : list (option N * option N)) : N :=
  foldr (fun t n => term_price divisor t + n) 0 terms.
Definition term_matches (t : option N * option N) : bool := is_some t.1 && is_some t.2.
Definition price (r : PriceRates) (u : UsageAmounts) : N :=
  terms_price 1000000 (token_terms u r) + terms_price 1 (media_terms u r).

Definition u64_option (o : option N) : Prop := forall n, o = Some n -> n <= U64_MAX.
Definition usage_wf (u : UsageAmounts) : Prop :=
  Forall u64_option [ua_input u; ua_output u; ua_reasoning u; ua_cache u; ua_image u; ua_audio u; ua_video u].
Definition rates_wf (r : PriceRates) : Prop := Forall u64_option (rates r).
Definition book_wf (b : UsagePriceBookPlan) : Prop := Forall (fun e => rates_wf (pe_rates e)) (pb_entries b).

(** A sum that passes 128 bits stays above them, so the loop gives up exactly when
    the exact sum does not fit; a single product always does. *)
Lemma add_terms_spec divisor terms total matched :
  divisor <> 0 -> Forall (fun t => u64_option t.1 /\ u64_option t.2) terms -> total <= U128_MAX ->
  add_terms divisor terms total matched =
  if total + terms_price divisor terms <=? U128_MAX
  then Some (total + terms_price divisor terms, matched || existsb term_matches terms) else None.
Proof.
  intros Hd Ht. revert total matched. induction Ht as [|[a r] terms [Ha Hr] _ IH]; intros total matched Hmax.
  { simpl. rewrite N.add_0_r, orb_false_r. by destruct (N.leb_spec total U128_MAX); [|lia]. }
  cbn [fst snd] in Ha, Hr. destruct a as [a|], r as [r|]; cbn [add_terms]; [|by rewrite IH..].
  specialize (Ha a eq_refl). specialize (Hr r eq_refl).
  assert (Hm : a * r <= U128_MAX).
  { transitivity (U64_MAX * U64_MAX); [by apply N.mul_le_mono|]. vm_compute. discriminate. }
  unfold checked_mul_u128. destruct (N.leb_spec (a * r) U128_MAX); [|lia].
  change (terms_price divisor ((Some a, Some r) :: terms)) with (a * r / divisor + terms_price divisor terms).
  unfold checked_add_u128. destruct (N.leb_spec (total + a * r / divisor) U128_MAX) as [Hle|Hgt].
  - rewrite IH by done. rewrite N.add_assoc. simpl. by rewrite orb_true_r.
  - destruct (N.leb_spec (total + (a * r / divisor + terms_price divisor terms)) U128_MAX); [lia|done].
Qed.

Lemma token_terms_wf u r : usage_wf u -> rates_wf r -> Forall (fun t => u64_option t.1 /\ u64_option t.2) (token_terms u r).
Proof. unfold usage_wf, rates_wf, rates, token_terms. rewrite !Forall_cons, !Forall_nil. simpl. tauto. Qed.

Lemma media_terms_wf u r : usage_wf u -> rates_wf r -> Forall (fun t => u64_option t.1 /\ u64_option t.2) (media_terms u r).
Proof. unfold usage_wf, rates_wf, rates, media_terms. rewrite !Forall_cons, !Forall_nil. simpl. tauto. Qed.

(** The body of [estimate] on an entry. *)
Lemma estimate_entry u r :
  usage_wf u -> rates_wf r ->
  match add_terms 1000000 (token_terms u r) 0 false with
  | None => None
  | Some (total, matched) =>
    match add_terms 1 (media_terms u r) total matched with
    | None => None
    | Some (total, matched) => if matched && (total <=? U64_MAX) then Some total else None
    end
  end =
  if existsb term_matches (token_terms u r ++ media_terms u r) && (price r u <=? U64_MAX) then Some (price r u) else None.
Proof.
  intros Hu Hr. assert (Hb : U64_MAX < U128_MAX) by (vm_compute; done).
  rewrite add_terms_spec; [|done|by apply token_terms_wf|done]. rewrite N.add_0_l, existsb_app. unfold price.
  destruct (N.leb_spec (terms_price 1000000 (token_terms u r)) U128_MAX) as [H1|H1].
  - rewrite add_terms_spec; [|done|by apply media_terms_wf|done].
    destruct (N.leb_spec (terms_price 1000000 (token_terms u r) + terms_price 1 (media_terms u r)) U128_MAX) as [H2|H2]; [done|].
    destruct (N.leb_spec (terms_price 1000000 (token_terms u r) + terms_price 1 (media_terms u r)) U64_MAX); [lia|].
    by rewrite andb_false_r.
  - destruct (N.leb_spec (terms_price 1000000 (token_terms u r) + terms_price 1 (media_terms u r)) U64_MAX); [lia|].
    by rewrite andb_false_r.
Qed.

(** The entries of a compiled book name each provider and model once. *)
Definition entry_key (e : UsagePriceEntryPlan) : string * string := (pe_provider e, pe_model e).

Lemma compile_entries_unique configs entries out :
  compile_entries configs entries = Ok out -> NoDup (entry_key <$> entries) -> NoDup (entry_key <$> out).
Proof.
  revert entries. induction configs as [|c configs IH]; intros entries; simpl; [by intros [= <-]|].
  case_match; [done|]. destruct (existsb _ entries) eqn:E; [done|]. case_match; [done|]. intros Hc Hn.
  eapply IH; [exact Hc|]. rewrite fmap_app. apply NoDup_app. split; [done|]. split; [|apply NoDup_singleton].
  intros k Hk ->%list_elem_of_singleton. apply list_elem_of_fmap in Hk as (e & Ek & He).
  apply not_true_iff_false in E. apply E, existsb_exists. exists e. split; [by apply list_elem_of_In|].
  unfold entry_key in Ek. injection Ek as E1 E2. unfold same_entry. by rewrite <- E1, <- E2, !String.eqb_refl.
Qed.

(** An estimate is the exact price: for a compiled book and a usage of 64-bit
    amounts the estimate is the sum of amount times rate, each token term rounded
    down to whole ticks per million, over the one entry of that provider and model
    and only over the terms both declare; there is no estimate exactly when the
    book has no such entry, no term is declared on both sides, or the exact price
    does not fit 64 bits, also where the 128-bit sum itself overflows. *)
Theorem estimate_exact config book provider model usage :
  price_book_compile config = Ok book -> book_wf book -> usage_wf usage ->
  NoDup (entry_key <$> pb_entries book) /\
  forall n, estimate book provider model usage = Some n <->
    exists e, e ∈ pb_entries book /\ entry_key e = (provider, model) /\
      existsb term_matches (token_terms usage (pe_rates e) ++ media_terms usage (pe_rates e)) = true /\
      n = price (pe_rates e) usage /\ n <= U64_MAX.
Proof.
  intros Hc Hb Hu. assert (Hn : NoDup (entry_key <$> pb_entries book)).
  { unfold price_book_compile in Hc. case_match; [done|]. case_match; [done|].
    destruct (compile_entries _ _) as [es|] eqn:E; [|done]. injection Hc as <-.
    eapply compile_entries_unique; [exact E|apply NoDup_nil_2]. }
  split; [done|]. intros n. unfold estimate. unfold book_wf in Hb. rewrite Forall_forall in Hb.
  assert (Hkey : forall e, same_entry provider model e = true <-> entry_key e = (provider, model)).
  { intros e. unfold same_entry, entry_key. rewrite andb_true_iff, !String.eqb_eq. naive_solver. }
  destruct (List.find (same_entry provider model) (pb_entries book)) as [e|] eqn:Ef.
  - apply List.find_some in Ef as [Hin%list_elem_of_In Hk%Hkey]. rewrite estimate_entry by auto.
    assert (Huniq : forall e', e' ∈ pb_entries book -> entry_key e' = (provider, model) -> e' = e).
    { intros e' Hin' Hk'. apply list_elem_of_lookup in Hin as [i Hi], Hin' as [j Hj].
      assert (i = j) as ->; [|congruence]. eapply (NoDup_lookup (entry_key <$> pb_entries book)); [done|..];
        rewrite list_lookup_fmap; [by rewrite Hi|by rewrite Hj; simpl; rewrite Hk', Hk]. }
    split.
    + destruct (_ && _) eqn:E; [|done]. intros [= <-]. apply andb_true_iff in E as [E1 E2%N.leb_le]. by exists e.
    + intros (e' & Hin' & Hk' & Hm & -> & Hle). rewrite (Huniq e' Hin' Hk') in *. rewrite Hm.
      apply N.leb_le in Hle. by rewrite Hle.
  - split; [done|]. intros (e & Hin & Hk%Hkey & _). apply list_elem_of_In in Hin.
    by rewrite (List.find_none _ _ Ef e Hin) in Hk.
Qed.

Definition demo_price_config : UsagePriceBookConfig :=
  MkPriceBookConfig "operator-2026" [MkPriceEntryConfig " provider" "model"
    (MkPriceRates (Some 2000000) None None None (Some 5) None None)].
Definition demo_price_book : UsagePriceBookPlan :=
  MkPriceBook "operator-2026" [MkPriceEntry "provider" "model" (MkPriceRates (Some 2000000) None None None (Some 5) None None)].
Definition demo_usage : UsageAmounts := MkUsageAmounts (Some 3) None None None (Some 2) None None.

Lemma estimate_exact_witness :
  price_book_compile demo_price_config = Ok demo_price_book /\
  estimate demo_price_book "provider" "model" demo_usage = Some 16.
Proof.
  assert (Hc : price_book_compile demo_price_config = Ok demo_price_book) by (vm_compute; reflexivity).
  split; [exact Hc|].
  apply (proj2 (estimate_exact demo_price_config demo_price_book "provider" "model" demo_usage Hc
    ltac:(repeat constructor; intros ? [=]; subst; vm_compute; discriminate)
    ltac:(repeat constructor; intros ? [=]; subst; vm_compute; discriminate))).
  eexists. split; [by left|]. split; [reflexivity|]. split; [reflexivity|]. split; [reflexivity|]. vm_compute. discriminate.
Defined.
