(* ===== verification/Json.v ===== *)
(** JSON documents that keep their bytes until they are changed, and the bounded
    JSON-pointer patches of patch routes (crates/pooler-protocol/src/json.rs).

    Parsing and printing belong to the [serde_json] crate and are the parameters
    of the class [SerdeJson].  A [&mut Value] into a document is the selected
    value with the function that rebuilds the document around a replacement. *)
From S2P Require Import Prelude Str Bytes.

Open Scope N_scope.

(** * Values *)

(** [serde_json::Number]: a [u64], a negative [i64], or the bits of an [f64]. *)
Inductive Number := PosInt (n : N) | NegInt (z : Z) | Float (bits : N).

(** [serde_json::Value]; an object is a [BTreeMap], the list of its members in
    the order of the keys. *)
Inductive Value :=
| Null
| Bool (b : bool)
| Num (n : Number)
| Str (s : string)
| Array (l : list Value)
| Object (m : list (string * Value)).

Definition is_container (v : Value) : bool :=
  match v with Array _ | Object _ => true | _ => false end.

(** [BTreeMap::get], [insert] (its new map; the value it returns is the one
    [obj_get] finds before) and [remove]. *)
Fixpoint obj_get (k : string) (m : list (string * Value)) : option Value :=
  match m with
  | [] => None
  | (k', v) :: m => if beq k k' then Some v else obj_get k m
  end.
Fixpoint obj_insert (k : string) (v : Value) (m : list (string * Value)) : list (string * Value) :=
  match m with
  | [] => [(k, v)]
  | (k', v') :: m' =>
    match String.compare k k' with
    | Eq => (k, v) :: m'
    | Lt => (k, v) :: m
    | Gt => (k', v') :: obj_insert k v m'
    end
  end.
Fixpoint obj_remove (k : string) (m : list (string * Value)) : list (string * Value) :=
  match m with
  | [] => []
  | (k', v) :: m => if beq k k' then m else (k', v) :: obj_remove k m
  end.

(** * The serializer *)

(** [serde_json::from_slice] and [serde_json::to_vec], failing with a message. *)
Class SerdeJson := {
  from_slice : bytes -> Result Value string;
  to_vec : Value -> Result bytes string;
}.

(** A [Value] always serializes: its map keys are strings. *)
Class SerdeJsonSpec `{SerdeJson} : Prop := {
  to_vec_total : forall v, exists b, to_vec v = Ok b;
}.

(** * Errors and limits *)

Inductive PreservedJsonError :=
| InvalidJson (message : string)
| PreservedPointerNotFound (pointer : string)
| PreservedNotContainer (pointer : string)
| CannotRemoveRoot.

Inductive JsonInspectionError := NotObject | ModelNotString | EmptyModel | ModelMissing.

Inductive JsonPatchError :=
| InvalidPointer (pointer : string)
| PointerTooLong (observed limit : N)
| PointerTooDeep (observed limit : N)
| ValueTooLarge (observed limit : N)
| PointerNotFound (pointer : string)
| NotContainer (pointer : string)
| ArrayIndexNotFound (pointer : string)
| Inspection (e : JsonInspectionError)
| ValueSerialization (message : string).

Record JsonPatchLimits := MkJsonPatchLimits {
  max_pointer_bytes : N; max_pointer_depth : N; max_value_bytes : N;
}.
Definition DEFAULT_JSON_PATCH_MAX_POINTER_BYTES : N := 1024.
Definition DEFAULT_JSON_PATCH_MAX_POINTER_DEPTH : N := 32.
Definition DEFAULT_JSON_PATCH_MAX_VALUE_BYTES : N := 1024 * 1024.
Definition default_patch_limits : JsonPatchLimits :=
  MkJsonPatchLimits DEFAULT_JSON_PATCH_MAX_POINTER_BYTES DEFAULT_JSON_PATCH_MAX_POINTER_DEPTH
    DEFAULT_JSON_PATCH_MAX_VALUE_BYTES.

(** * Pointers *)

Definition TILDE : Ascii.ascii := Ascii.ascii_of_N 0x7E.
Definition ZERO : Ascii.ascii := Ascii.ascii_of_N 0x30.
Definition ONE : Ascii.ascii := Ascii.ascii_of_N 0x31.

(** The loop runs over the characters; the three it tests are ASCII, so it is
    the same over the bytes. *)
Fixpoint decode_pointer_token (token : string) : option string :=
  match token with
  | EmptyString => Some EmptyString
  | String c rest =>
    if negb (Ascii.eqb c TILDE) then String c <$> decode_pointer_token rest
    else match rest with
         | EmptyString => None
         | String d rest =>
           if Ascii.eqb d ZERO then String TILDE <$> decode_pointer_token rest
           else if Ascii.eqb d ONE then String SLASH <$> decode_pointer_token rest
           else None
         end
  end.

(** [collect] into a [Result]: the first failure wins. *)
Fixpoint decode_tokens (pointer : string) (l : list string) : Result (list string) JsonPatchError :=
  match l with
  | [] => Ok []
  | token :: l =>
    let? t := ok_or (decode_pointer_token token) (InvalidPointer pointer) in
    let? ts := decode_tokens pointer l in Ok (t :: ts)
  end.

Definition parse_pointer (pointer : string) : Result (list string) JsonPatchError :=
  match pointer with
  | EmptyString => Ok []
  | String c rest =>
    if negb (Ascii.eqb c SLASH) then Err (InvalidPointer pointer)
    else decode_tokens pointer (split_on SLASH rest)
  end.

Definition parse_array_index (token : string) : option N :=
  if beq token "0" || negb (starts_with_char token ZERO) then parse_usize token else None.

(** [str::rfind], splitting there: everything before, and the token after. *)
Fixpoint split_pointer (pointer : string) : option (string * string) :=
  match pointer with
  | EmptyString => None
  | String c rest =>
    match split_pointer rest with
    | Some (parent, token) => Some (String c parent, token)
    | None => if Ascii.eqb c SLASH then Some (EmptyString, rest) else None
    end
  end.

(** * Selecting a value inside a document *)

(** The member or element a token selects, and the container with it replaced. *)
Definition select_child (v : Value) (token pointer : string)
  : Result (Value * (Value -> Value)) JsonPatchError :=
  match v with
  | Object m =>
    match obj_get token m with
    | Some child => Ok (child, fun w => Object (obj_insert token w m))
    | None => Err (PointerNotFound pointer)
    end
  | Array l =>
    match parse_array_index token with
    | None => Err (ArrayIndexNotFound pointer)
    | Some i =>
      match l !! N.to_nat i with
      | Some child => Ok (child, fun w => Array (<[N.to_nat i := w]> l))
      | None => Err (ArrayIndexNotFound pointer)
      end
    end
  | Null | Bool _ | Num _ | Str _ => Err (NotContainer pointer)
  end.

Fixpoint pointer_parent_mut (v : Value) (tokens : list string) (pointer : string)
  : Result (Value * (Value -> Value)) JsonPatchError :=
  match tokens with
  | [] => Ok (v, fun w => w)
  | token :: tokens =>
    let? (child, put) := select_child v token pointer in
    let? (target, put') := pointer_parent_mut child tokens pointer in
    Ok (target, fun w => put (put' w))
  end.

(** * The document *)

Record PreservedJson := MkPreservedJson { pj_original : bytes; pj_value : Value; pj_modified : bool }.

(** [slice::split_last]. *)
Definition split_last {A} (l : list A) : option (A * list A) :=
  match rev l with [] => None | x :: r => Some (x, rev r) end.

(** The [match parent] of [set_pointer_tokens]: the previous value and the
    changed parent. *)
Definition set_last (parent : Value) (last pointer : string) (value : Value)
  : Result (option Value * Value) JsonPatchError :=
  match parent with
  | Object m => Ok (obj_get last m, Object (obj_insert last value m))
  | Array l =>
    match parse_array_index last with
    | None => Err (ArrayIndexNotFound pointer)
    | Some i =>
      match l !! N.to_nat i with
      | None => Err (ArrayIndexNotFound pointer)
      | Some old => Ok (Some old, Array (<[N.to_nat i := value]> l))
      end
    end
  | Null | Bool _ | Num _ | Str _ => Err (NotContainer pointer)
  end.

Definition set_pointer_tokens (doc : PreservedJson) (pointer : string) (tokens : list string)
    (value : Value) : Result (option Value) JsonPatchError * PreservedJson :=
  match split_last tokens with
  | None => (Ok (Some (pj_value doc)), MkPreservedJson (pj_original doc) value true)
  | Some (last, parent_tokens) =>
    match pointer_parent_mut (pj_value doc) parent_tokens pointer with
    | Err e => (Err e, doc)
    | Ok (parent, put) =>
      match set_last parent last pointer value with
      | Err e => (Err e, doc)
      | Ok (previous, parent') => (Ok previous, MkPreservedJson (pj_original doc) (put parent') true)
      end
    end
  end.

Definition extract_model_from_value (v : Value) : Result (option string) JsonInspectionError :=
  match v with
  | Object m =>
    match obj_get "model" m with
    | None => Ok None
    | Some (Str model) => if str_is_empty (trim model) then Err EmptyModel else Ok (Some model)
    | Some _ => Err ModelNotString
    end
  | _ => Err NotObject
  end.
Definition extract_model (doc : PreservedJson) : Result (option string) JsonInspectionError :=
  extract_model_from_value (pj_value doc).
Definition require_model (doc : PreservedJson) : Result string JsonInspectionError :=
  let? model := extract_model doc in ok_or model ModelMissing.

Section operations.
Context `{SerdeJson}.

Definition pj_from_bytes (b : bytes) : Result PreservedJson PreservedJsonError :=
  let? value := map_err InvalidJson (from_slice b) in Ok (MkPreservedJson b value false).
Definition pj_from_value (v : Value) : Result PreservedJson PreservedJsonError :=
  let? original := map_err InvalidJson (to_vec v) in Ok (MkPreservedJson original v false).

(** [bytes]; [None] is the panic of its [expect]. *)
Definition pj_bytes (doc : PreservedJson) : option bytes :=
  if pj_modified doc
  then match to_vec (pj_value doc) with Ok b => Some b | Err _ => None end
  else Some (pj_original doc).

Definition validate_patch (pointer : string) (value : Value) (limits : JsonPatchLimits)
  : Result (list string) JsonPatchError :=
  if max_pointer_bytes limits <? str_len pointer
  then Err (PointerTooLong (str_len pointer) (max_pointer_bytes limits))
  else
    let? tokens := parse_pointer pointer in
    if max_pointer_depth limits <? N.of_nat (length tokens)
    then Err (PointerTooDeep (N.of_nat (length tokens)) (max_pointer_depth limits))
    else
      let? serialized := map_err ValueSerialization (to_vec value) in
      if max_value_bytes limits <? blen serialized
      then Err (ValueTooLarge (blen serialized) (max_value_bytes limits))
      else Ok tokens.

Definition set_pointer_bounded (doc : PreservedJson) (pointer : string) (value : Value)
    (limits : JsonPatchLimits) : Result (option Value) JsonPatchError * PreservedJson :=
  match validate_patch pointer value limits with
  | Err e => (Err e, doc)
  | Ok tokens => set_pointer_tokens doc pointer tokens value
  end.

Definition set_pointer_when_model_prefix (doc : PreservedJson) (prefix pointer : string) (value : Value)
    (limits : JsonPatchLimits) : Result bool JsonPatchError * PreservedJson :=
  match validate_patch pointer value limits with
  | Err e => (Err e, doc)
  | Ok tokens =>
    match extract_model doc with
    | Err e => (Err (Inspection e), doc)
    | Ok None => (Ok false, doc)
    | Ok (Some model) =>
      if negb (starts_with model prefix) then (Ok false, doc)
      else match set_pointer_tokens doc pointer tokens value with
           | (Err e, doc') => (Err e, doc')
           | (Ok _, doc') => (Ok true, doc')
           end
    end
  end.
End operations.

(** * Operations through [serde_json]'s own pointers *)

(** [Value::pointer_mut]: the value a pointer selects, to be replaced. *)
Class SerdePointer := pointer_mut : Value -> string -> option (Value * (Value -> Value)).

Section serde_pointer.
Context `{SerdePointer}.

Definition pj_pointer (doc : PreservedJson) (pointer : string) : option Value :=
  fst <$> pointer_mut (pj_value doc) pointer.

Definition set_pointer (doc : PreservedJson) (pointer : string) (value : Value)
  : Result Value PreservedJsonError * PreservedJson :=
  if str_is_empty pointer then (Ok (pj_value doc), MkPreservedJson (pj_original doc) value true)
  else match pointer_mut (pj_value doc) pointer with
       | None => (Err (PreservedPointerNotFound pointer), doc)
       | Some (target, put) => (Ok target, MkPreservedJson (pj_original doc) (put value) true)
       end.

Definition insert_member (doc : PreservedJson) (object_pointer key : string) (value : Value)
  : Result (option Value) PreservedJsonError * PreservedJson :=
  match pointer_mut (pj_value doc) object_pointer with
  | None => (Err (PreservedPointerNotFound object_pointer), doc)
  | Some (Object m, put) =>
    (Ok (obj_get key m), MkPreservedJson (pj_original doc) (put (Object (obj_insert key value m))) true)
  | Some (_, _) => (Err (PreservedNotContainer object_pointer), doc)
  end.

(** The [match parent] of [remove]: the removed value and what is left. *)
Definition remove_child (parent : Value) (token : string) : option (Value * Value) :=
  match parent with
  | Object m => (fun v => (v, Object (obj_remove token m))) <$> obj_get token m
  | Array l =>
    match parse_usize token with
    | None => None
    | Some i => (fun v => (v, Array (delete (N.to_nat i) l))) <$> l !! N.to_nat i
    end
  | Null | Bool _ | Num _ | Str _ => None
  end.

Definition remove_pointer (doc : PreservedJson) (pointer : string)
  : Result Value PreservedJsonError * PreservedJson :=
  if str_is_empty pointer then (Err CannotRemoveRoot, doc)
  else match split_pointer pointer with
  | None => (Err (PreservedPointerNotFound pointer), doc)
  | Some (parent_pointer, token) =>
    match pointer_mut (pj_value doc) parent_pointer with
    | None => (Err (PreservedPointerNotFound parent_pointer), doc)
    | Some (parent, put) =>
      match decode_pointer_token token with
      | None => (Err (PreservedPointerNotFound pointer), doc)
      | Some token =>
        match remove_child parent token with
        | None => (Err (PreservedPointerNotFound pointer), doc)
        | Some (removed, rest) => (Ok removed, MkPreservedJson (pj_original doc) (put rest) true)
        end
      end
    end
  end.
End serde_pointer.
