(* ===== verification/JsonFacts.v ===== *)
(** Correctness of JSON pointers and bounded patches: the pointer syntax is a
    bijection with token lists, a patch changes exactly the value its pointer
    selects, and a patch that fails changes nothing. *)
From S2P Require Import Prelude Str Bytes Json.

Open Scope N_scope.

(** * The pointer syntax *)

(** RFC 6901 escaping, the reference the decoder is compared with. *)
Fixpoint escape (token : string) : string :=
  match token with
  | EmptyString => EmptyString
  | String c rest =>
    if Ascii.eqb c TILDE then String TILDE (String ZERO (escape rest))
    else if Ascii.eqb c SLASH then String TILDE (String ONE (escape rest))
    else String c (escape rest)
  end.
Fixpoint render (tokens : list string) : string :=
  match tokens with
  | [] => EmptyString
  | t :: ts => String SLASH (escape t +:+ render ts)
  end.

Lemma decode_escape t : decode_pointer_token (escape t) = Some t.
Proof.
  induction t as [|c t IH]; [done|]. simpl.
  destruct (Ascii.eqb_spec c TILDE) as [-> |]; [simpl; by rewrite IH|].
  destruct (Ascii.eqb_spec c SLASH) as [-> |]; [simpl; by rewrite IH|].
  simpl. rewrite (proj2 (Ascii.eqb_neq c TILDE)) by done. simpl. by rewrite IH.
Qed.

Lemma escape_no_slash t : contains_char (escape t) SLASH = false.
Proof.
  induction t as [|c t IH]; [done|]. simpl.
  destruct (Ascii.eqb_spec c TILDE) as [-> |]; [simpl; by rewrite IH|].
  destruct (Ascii.eqb_spec c SLASH) as [-> |]; [simpl; by rewrite IH|].
  simpl. by rewrite IH, (proj2 (Ascii.eqb_neq c SLASH)).
Qed.

(** The decoder consumes one or two characters at a time. *)
Lemma escape_decode_len n s t :
  (String.length s < n)%nat -> contains_char s SLASH = false -> decode_pointer_token s = Some t ->
  escape t = s.
Proof.
  revert s t. induction n as [|n IH]; intros [|c s] t Hn Hs Hd; simpl in *; try lia.
  { by injection Hd as <-. }
  apply orb_false_iff in Hs as [Hc Hs]. destruct (Ascii.eqb c TILDE) eqn:Ec; simpl in Hd.
  - apply Ascii.eqb_eq in Ec as ->. destruct s as [|d s]; [done|]. simpl in *.
    apply orb_false_iff in Hs as [_ Hs].
    destruct (Ascii.eqb_spec d ZERO) as [-> |]; [|destruct (Ascii.eqb_spec d ONE) as [-> |]; [|done]];
      apply fmap_Some in Hd as (t' & Hd & ->); simpl; rewrite (IH s t'); try done; lia.
  - apply fmap_Some in Hd as (t' & Hd & ->). simpl. rewrite Ec, Hc, (IH s t'); [done|lia|done|done].
Qed.

Lemma escape_decode s t :
  contains_char s SLASH = false -> decode_pointer_token s = Some t -> escape t = s.
Proof. apply (escape_decode_len (S (String.length s))). lia. Qed.

Lemma decode_tokens_ok p l ts :
  decode_tokens p l = Ok ts <-> Forall2 (fun s t => decode_pointer_token s = Some t) l ts.
Proof.
  revert ts. induction l as [|s l IH]; intros ts; simpl.
  { split; [intros [= <-]; constructor|intros Hf; by apply Forall2_nil_inv_l in Hf as ->]. }
  destruct (decode_pointer_token s) as [t|] eqn:Et; simpl.
  2: { split; [done|]. intros Hf. apply Forall2_cons_inv_l in Hf as (?&?&?&_). congruence. }
  destruct (decode_tokens p l) as [us|e] eqn:El; simpl; split.
  - intros [= <-]. constructor; [done|]. by apply IH.
  - intros (u & us' & Hu & Hf & ->)%Forall2_cons_inv_l. apply IH in Hf. congruence.
  - done.
  - intros (u & us' & Hu & Hf & ->)%Forall2_cons_inv_l. apply IH in Hf. congruence.
Qed.

(** A rendered list, without its first slash, splits into the escaped tokens. *)
Lemma render_join t ts : render (t :: ts) = String SLASH (join SLASH (map escape (t :: ts))).
Proof.
  revert t. induction ts as [|u ts IH]; intros t.
  - cbn [render map join]. by rewrite str_app_nil_r.
  - cbn [render map join] in *. by rewrite IH.
Qed.

Lemma pointer_parses pointer tokens : parse_pointer pointer = Ok tokens <-> pointer = render tokens.
Proof.
  destruct tokens as [|t ts].
  { split; [|by intros ->]. destruct pointer as [|c rest]; [done|]. unfold parse_pointer.
    destruct (Ascii.eqb c SLASH); [|done]. cbn [negb]. intros Hd%decode_tokens_ok.
    destruct (split_on_cons SLASH rest) as (s & l & E). rewrite E in Hd. inversion Hd. }
  rewrite render_join. split.
  - destruct pointer as [|c rest]; [done|]. unfold parse_pointer.
    destruct (Ascii.eqb_spec c SLASH) as [-> |]; cbn [negb]; [|done]. intros Hd%decode_tokens_ok.
    f_equal. rewrite <- (join_split SLASH rest) at 1. f_equal. pose proof (split_on_segments SLASH rest) as Hs.
    induction Hd as [|s u l us Hsu _ IH]; [done|]. apply Forall_cons in Hs as [Hs Hl]. simpl.
    by rewrite (escape_decode s u Hs Hsu), IH.
  - intros ->. unfold parse_pointer. rewrite Ascii.eqb_refl. cbn [negb]. apply decode_tokens_ok.
    rewrite split_join; [|done|].
    + generalize (t :: ts). clear. intros l. induction l; constructor; auto using decode_escape.
    + apply Forall_map, Forall_true. intros u. apply escape_no_slash.
Qed.

(** The JSON pointers that a patch accepts are exactly the RFC 6901
    renderings of token lists: parsing a rendered list gives the list back, and
    every pointer that parses is the rendering of what it parses to, so no two
    pointers denote the same path. *)
Theorem pointer_syntax_bijective pointer tokens :
  parse_pointer pointer = Ok tokens <-> pointer = render tokens.
Proof. apply pointer_parses. Qed.

(** * Reading a document along a path *)

Definition child (v : Value) (token : string) : option Value :=
  match v with
  | Object m => obj_get token m
  | Array l => match parse_array_index token with Some i => l !! N.to_nat i | None => None end
  | _ => None
  end.

Fixpoint get_tokens (v : Value) (tokens : list string) : option Value :=
  match tokens with
  | [] => Some v
  | t :: ts => match child v t with Some c => get_tokens c ts | None => None end
  end.

(** Two tokens that select different children of every container; in an array,
    ["+1"] and ["1"] are the same index. *)
Definition separate (t u : string) : Prop :=
  t <> u /\ (parse_array_index t <> parse_array_index u \/ parse_array_index t = None).

(** Two paths that part at some token: neither contains the other. *)
Inductive diverge : list string -> list string -> Prop :=
| diverge_here t u ts us : separate t u -> diverge (t :: ts) (u :: us)
| diverge_later t ts us : diverge ts us -> diverge (t :: ts) (t :: us).

Lemma get_tokens_app v ts us :
  get_tokens v (ts ++ us) = match get_tokens v ts with Some w => get_tokens w us | None => None end.
Proof. revert v. induction ts as [|t ts IH]; intros v; simpl; [done|]. by destruct (child v t). Qed.

Lemma obj_get_insert k v m : obj_get k (obj_insert k v m) = Some v.
Proof.
  induction m as [|[k' v'] m IH]; simpl; [by rewrite bool_decide_eq_true_2|].
  destruct (String.compare k k') eqn:E; simpl; try by rewrite bool_decide_eq_true_2.
  rewrite bool_decide_eq_false_2; [done|]. intros ->. by rewrite (pre_refl String.compare) in E.
Qed.

Lemma obj_get_insert_ne k u v m : u <> k -> obj_get u (obj_insert k v m) = obj_get u m.
Proof.
  intros Hne. induction m as [|[k' v'] m IH]; simpl; [by rewrite bool_decide_eq_false_2|].
  destruct (String.compare k k') eqn:E; simpl.
  - apply String.compare_eq_iff in E as ->. by rewrite !bool_decide_eq_false_2.
  - by rewrite (bool_decide_eq_false_2 (u = k)).
  - by rewrite IH.
Qed.

(** [parent'] is [parent] with the child at [last] set to [w], and the others kept. *)
Definition child_set (parent parent' : Value) (last : string) (w : Value) : Prop :=
  child parent' last = Some w /\ forall u, separate last u -> child parent' u = child parent u.

Lemma object_child_set t w m : child_set (Object m) (Object (obj_insert t w m)) t w.
Proof. split; [apply obj_get_insert|]. intros u [Hne _]. by apply obj_get_insert_ne. Qed.

Lemma array_child_set t i w l x :
  parse_array_index t = Some i -> l !! N.to_nat i = Some x ->
  child_set (Array l) (Array (<[N.to_nat i := w]> l)) t w.
Proof.
  intros Hi Hl. split.
  - simpl. rewrite Hi. apply list_lookup_insert_eq. by eapply lookup_lt_Some.
  - intros u [_ [Hne|Hn]]; [|congruence]. simpl. destruct (parse_array_index u) as [j|]; [|done].
    apply list_lookup_insert_ne. intros E%N2Nat.inj. congruence.
Qed.

Lemma select_child_spec v t p c put :
  select_child v t p = Ok (c, put) -> child v t = Some c /\ forall w, child_set v (put w) t w.
Proof.
  destruct v as [| | | |l|m]; simpl; try done.
  - destruct (parse_array_index t) as [i|] eqn:Ei; [|done].
    destruct (l !! N.to_nat i) eqn:El; [|done]. intros [= <- <-]. split; [done|].
    intros w. by eapply array_child_set.
  - destruct (obj_get t m); [|done]. intros [= <- <-]. split; [done|]. intros w. apply object_child_set.
Qed.

Lemma select_child_total v t p c : child v t = Some c -> exists put, select_child v t p = Ok (c, put).
Proof.
  destruct v as [| | | |l|m]; simpl; try done.
  - destruct (parse_array_index t) as [i|]; [|done]. intros ->. eauto.
  - intros ->. eauto.
Qed.

Lemma child_set_get v v' t w us :
  child_set v v' t w ->
  get_tokens v' (t :: us) = get_tokens w us /\
  (forall u ts, separate t u -> get_tokens v' (u :: ts) = get_tokens v (u :: ts)).
Proof.
  intros [H1 H2]. simpl. rewrite H1. split; [done|]. intros u ts Hs. by rewrite (H2 u Hs).
Qed.

(** A reference into a document: reading it, writing it, and what a write keeps. *)
Lemma pointer_parent_spec v ts p x put :
  pointer_parent_mut v ts p = Ok (x, put) ->
  get_tokens v ts = Some x /\
  (forall w us, get_tokens (put w) (ts ++ us) = get_tokens w us) /\
  (forall w us, diverge ts us -> get_tokens (put w) us = get_tokens v us).
Proof.
  revert v x put. induction ts as [|t ts IH]; intros v x put; simpl.
  { intros [= <- <-]. repeat split; try done. intros w us Hd. inversion Hd. }
  destruct (select_child v t p) as [[c put1]|] eqn:Es; simpl; [|done].
  destruct (pointer_parent_mut c ts p) as [[y put2]|] eqn:Ep; simpl; [|done]. intros [= <- <-].
  apply select_child_spec in Es as [Ec Hset]. apply IH in Ep as (Hget & Hput & Hkeep). rewrite Ec.
  split; [done|]. split.
  - intros w us. destruct (Hset (put2 w)) as [-> _]. apply Hput.
  - intros w us Hd. inversion Hd as [t' u ts' us' Hs|t' ts' us' Hd']; subst; simpl;
      destruct (Hset (put2 w)) as [H1 H2].
    + by rewrite (H2 u Hs).
    + rewrite H1, Ec. by apply Hkeep.
Qed.

Lemma pointer_parent_total v ts p x :
  get_tokens v ts = Some x -> exists put, pointer_parent_mut v ts p = Ok (x, put).
Proof.
  revert v. induction ts as [|t ts IH]; intros v; simpl; [intros [= ->]; eauto|].
  destruct (child v t) as [c|] eqn:Ec; [|done]. intros Hget.
  destruct (select_child_total v t p c Ec) as [put1 ->]. destruct (IH c Hget) as [put2 E].
  simpl. rewrite E. simpl. eauto.
Qed.

(** * Patches *)

Lemma set_last_spec parent last p w previous parent' :
  set_last parent last p w = Ok (previous, parent') ->
  ((exists m, parent = Object m) \/ is_Some (child parent last)) /\
  previous = child parent last /\ child_set parent parent' last w.
Proof.
  destruct parent as [| | | |l|m]; simpl; try done.
  - destruct (parse_array_index last) as [i|] eqn:Ei; [|done].
    destruct (l !! N.to_nat i) as [old|] eqn:El; [|done]. intros [= <- <-].
    split; [right; eauto|]. split; [done|]. by eapply array_child_set.
  - intros [= <- <-]. split; [eauto|]. split; [done|]. apply object_child_set.
Qed.

Lemma set_last_err parent last p w e :
  set_last parent last p w = Err e -> e = NotContainer p \/ e = ArrayIndexNotFound p.
Proof. destruct parent; simpl; repeat case_match; intros [= <-]; auto. Qed.

Lemma diverge_snoc ts l us :
  diverge (ts ++ [l]) us -> diverge ts us \/ exists u rest, us = ts ++ u :: rest /\ separate l u.
Proof.
  revert us. induction ts as [|t ts IH]; intros us Hd; simpl in Hd;
    inversion Hd as [t' u ts' us' Hs|t' ts' us' Hd']; subst.
  - right. by exists u, us'.
  - inversion Hd'.
  - left. by constructor.
  - destruct (IH us' Hd') as [Hd2|(u & rest & -> & Hs)]; [left; by constructor|]. right. by exists u, rest.
Qed.

Lemma split_last_spec {A} (l : list A) :
  match split_last l with None => l = [] | Some (x, r) => l = r ++ [x] end.
Proof.
  unfold split_last. destruct (rev l) as [|x r] eqn:E.
  - apply (f_equal (@rev A)) in E. by rewrite rev_involutive in E.
  - apply (f_equal (@rev A)) in E. by rewrite rev_involutive in E.
Qed.

(** The effect of a successful write at [tokens]. *)
Definition patched (doc doc' : PreservedJson) (tokens : list string) (value : Value) : Prop :=
  (forall rest, get_tokens (pj_value doc') (tokens ++ rest) = get_tokens value rest) /\
  (forall other, diverge tokens other -> get_tokens (pj_value doc') other = get_tokens (pj_value doc) other) /\
  pj_original doc' = pj_original doc /\ pj_modified doc' = true.

(** Where a write is possible: the root, any member of an object, an element an
    array has. *)
Definition patch_target (v : Value) (tokens : list string) : Prop :=
  tokens = [] \/
  exists parent last x, tokens = parent ++ [last] /\ get_tokens v parent = Some x /\
    ((exists m, x = Object m) \/ is_Some (child x last)).

Lemma set_pointer_tokens_spec doc p tokens value :
  match set_pointer_tokens doc p tokens value with
  | (Ok previous, doc') =>
    patch_target (pj_value doc) tokens /\ previous = get_tokens (pj_value doc) tokens /\
    patched doc doc' tokens value
  | (Err _, doc') => doc' = doc /\ ~ patch_target (pj_value doc) tokens
  end.
Proof.
  unfold set_pointer_tokens. pose proof (split_last_spec tokens) as Hsl.
  destruct (split_last tokens) as [[last parent]|]; subst tokens.
  2: { split; [by left|]. repeat split. intros other Hd. inversion Hd. }
  assert (Hno : forall x, get_tokens (pj_value doc) parent = Some x ->
    set_last x last p value = Err (NotContainer p) \/ set_last x last p value = Err (ArrayIndexNotFound p) ->
    ~ patch_target (pj_value doc) (parent ++ [last])).
  { intros x Hx He [Hnil|(q & l & y & Heq & Hy & Ht)]; [by destruct parent|].
    apply app_inj_tail in Heq as [<- <-]. rewrite Hx in Hy. injection Hy as <-.
    destruct Ht as [[m ->]|[c Hc]]; [by destruct He|].
    destruct x as [| | | |l|m]; simpl in *; try done; [|by destruct He].
    destruct (parse_array_index last); [|done]. rewrite Hc in He. by destruct He. }
  destruct (pointer_parent_mut (pj_value doc) parent p) as [[x put]|e] eqn:Ep.
  2: { split; [done|]. intros [Hnil|(q & l & y & Heq & Hy & _)]; [by destruct parent|].
    apply app_inj_tail in Heq as [<- <-]. apply (pointer_parent_total _ _ p) in Hy as [put Hy]. congruence. }
  apply pointer_parent_spec in Ep as (Hget & Hput & Hkeep).
  destruct (set_last x last p value) as [[previous x']|e] eqn:Es.
  2: { split; [done|]. apply (Hno x Hget). rewrite Es. by apply set_last_err in Es as [-> | -> ]; auto. }
  apply set_last_spec in Es as (Ht & -> & Hset). split; [right; by exists parent, last, x|].
  rewrite get_tokens_app, Hget. simpl. split; [by destruct (child x last)|].
  repeat split; simpl.
  - intros rest. rewrite <- (app_assoc parent [last] rest), Hput. simpl. by rewrite (proj1 Hset).
  - intros other [Hd|(u & rest & -> & Hs)]%diverge_snoc; [by apply Hkeep|].
    rewrite Hput, get_tokens_app, Hget. simpl. by rewrite (proj2 Hset u Hs).
Qed.

Section bounded.
Context `{SerdeJson}.

(** What the limits admit: a pointer of bounded length and depth, and a
    replacement whose printed form is bounded. *)
Definition patch_admitted (pointer : string) (value : Value) (limits : JsonPatchLimits)
    (tokens : list string) : Prop :=
  pointer = render tokens /\ str_len pointer <= max_pointer_bytes limits /\
  N.of_nat (length tokens) <= max_pointer_depth limits /\
  exists b, to_vec value = Ok b /\ blen b <= max_value_bytes limits.

Lemma validate_patch_spec pointer value limits tokens :
  validate_patch pointer value limits = Ok tokens <-> patch_admitted pointer value limits tokens.
Proof.
  unfold validate_patch, patch_admitted. rewrite <- pointer_parses.
  destruct (N.ltb_spec (max_pointer_bytes limits) (str_len pointer)); [split; [done|lia]|].
  destruct (parse_pointer pointer) as [ts|e]; simpl; [|split; [done|by intros []]].
  destruct (N.ltb_spec (max_pointer_depth limits) (N.of_nat (length ts))).
  { split; [done|]. intros ([= ->] & _ & ? & _). lia. }
  destruct (to_vec value) as [b|e]; simpl.
  2: { split; [done|]. by intros (_ & _ & _ & ? & ? & _). }
  destruct (N.ltb_spec (max_value_bytes limits) (blen b)); split; try done.
  - intros (_ & _ & _ & ? & [= ->] & ?). lia.
  - intros [= ->]. repeat split; eauto.
  - by intros ([= ->] & _).
Qed.

(** [C30] A bounded patch succeeds exactly when its pointer is a well-formed JSON
    pointer within the length and depth limits, the replacement prints within the
    size limit, and the document has a place for it (the root, a member of an
    object, an existing element of an array).  A success returns the value that
    was there, puts the replacement at the pointer, and leaves every value whose
    path parts from the pointer as it was; a failure of any kind leaves the whole
    document, its bytes included, unchanged. *)
Theorem json_patch_correct doc pointer value limits :
  match set_pointer_bounded doc pointer value limits with
  | (Ok previous, doc') =>
    exists tokens, patch_admitted pointer value limits tokens /\ patch_target (pj_value doc) tokens /\
      previous = get_tokens (pj_value doc) tokens /\ patched doc doc' tokens value
  | (Err _, doc') =>
    doc' = doc /\
    forall tokens, patch_admitted pointer value limits tokens -> ~ patch_target (pj_value doc) tokens
  end.
Proof.
  unfold set_pointer_bounded. destruct (validate_patch pointer value limits) as [tokens|e] eqn:Ev.
  - apply validate_patch_spec in Ev as Ha. pose proof (set_pointer_tokens_spec doc pointer tokens value) as Hs.
    destruct (set_pointer_tokens doc pointer tokens value) as [[previous|e] doc']; [by exists tokens|].
    destruct Hs as [-> Hn]. split; [done|]. intros us Hu%validate_patch_spec. congruence.
  - split; [done|]. intros us Hu%validate_patch_spec. congruence.
Qed.

(** The conditional form: applied only to a request whose model has the prefix,
    and otherwise a success that changes nothing. *)
Theorem json_model_patch_correct doc prefix pointer value limits :
  match set_pointer_when_model_prefix doc prefix pointer value limits with
  | (Ok true, doc') =>
    exists tokens model, patch_admitted pointer value limits tokens /\
      extract_model doc = Ok (Some model) /\ starts_with model prefix = true /\
      patched doc doc' tokens value
  | (Ok false, doc') =>
    doc' = doc /\ (exists tokens, patch_admitted pointer value limits tokens) /\
    exists model, extract_model doc = Ok model /\ is_some_and model (fun m => starts_with m prefix) = false
  | (Err _, doc') => doc' = doc
  end.
Proof.
  unfold set_pointer_when_model_prefix. destruct (validate_patch pointer value limits) as [tokens|e] eqn:Ev; [|done].
  apply validate_patch_spec in Ev. destruct (extract_model doc) as [[model|]|e]; [|by eauto 10|done].
  destruct (starts_with model prefix) eqn:Ep; simpl; [|split; [done|]; split; [eauto|]; by exists (Some model)].
  pose proof (set_pointer_tokens_spec doc pointer tokens value) as Hs.
  destruct (set_pointer_tokens doc pointer tokens value) as [[previous|e] doc']; [|tauto].
  exists tokens, model. tauto.
Qed.

(** An unmodified document is forwarded byte for byte. *)
Lemma unmodified_bytes doc : pj_modified doc = false -> pj_bytes doc = Some (pj_original doc).
Proof. unfold pj_bytes. by intros ->. Qed.
End bounded.

(** * Array indices

    RFC 6901 writes an array index without a sign and without leading zeros. *)

(** The index of a patch may carry a plus sign. *)
Lemma patch_index_plus : parse_array_index "+1" = Some 1 /\ parse_array_index "1" = Some 1.
Proof. by vm_compute. Qed.

(** [remove] also takes leading zeros: it removes an element that the same token
    does not select for a patch. *)
Lemma remove_index_leading_zero x y :
  child (Array [x; y]) "01" = None /\ remove_child (Array [x; y]) "01" = Some (y, Array [x]).
Proof. done. Qed.

(** A patch of a nested member, evaluated. *)
Example patch_nested :
  let doc := MkPreservedJson [] (Object [("a", Array [Null; Object [("b", Bool true)]]); ("c", Null)]%string) false in
  set_pointer_tokens doc "/a/1/~1x" ["a"; "1"; "/x"]%string (Bool false)
  = (Ok None, MkPreservedJson []
       (Object [("a", Array [Null; Object [("/x", Bool false); ("b", Bool true)]]); ("c", Null)]%string) true).
Proof. reflexivity. Qed.
