(* ===== verification/Extensions.v ===== *)
(** Namespaced opaque extensions (crates/pooler-protocol/src/extensions.rs) and the
    loss accounting of semantic conversion (crates/pooler-protocol/src/conversion.rs). *)
From S2P Require Import Prelude Str CoreError Bytes.

Open Scope N_scope.

(** * Extension keys *)

Inductive ExtensionError :=
| InvalidComponent (kind value : string)
| EmptyMediaType
| InvalidKey (key : string).

Definition component_byte (b : N) : bool :=
  char_is_ascii_alphanumeric b || (b =? 0x2E) || (b =? 0x5F) || (b =? 0x2D).

Definition validate_component (value kind : string) : Result unit ExtensionError :=
  let valid := negb (str_is_empty value)
    && forallb component_byte (bytes_of value)
    && is_some_and (head (bytes_of value)) char_is_ascii_alphanumeric
    && is_some_and (last (bytes_of value)) char_is_ascii_alphanumeric in
  if valid then Ok tt else Err (InvalidComponent kind value).

(** The newtypes [ExtensionNamespace] and [ExtensionName] hold the validated text. *)
Record ExtensionKey := MkExtensionKey { ek_namespace : string; ek_name : string }.

#[export] Instance ExtensionKey_eq_dec : EqDecision ExtensionKey.
Proof. solve_decision. Defined.

Definition namespace_new (value : string) : Result string ExtensionError :=
  let? _ := validate_component value "namespace" in Ok value.
Definition name_new (value : string) : Result string ExtensionError :=
  let? _ := validate_component value "name" in Ok value.
Definition extension_key_new (namespace name : string) : Result ExtensionKey ExtensionError :=
  let? ns := namespace_new namespace in
  let? n := name_new name in
  Ok (MkExtensionKey ns n).

(** [str::rsplit_once]: both sides of the last separator. *)
Fixpoint str_rsplit_once (sep : Ascii.ascii) (s : string) : option (string * string) :=
  match s with
  | EmptyString => None
  | String c rest =>
    match str_rsplit_once sep rest with
    | Some (x, y) => Some (String c x, y)
    | None => if Ascii.eqb c sep then Some (EmptyString, rest) else None
    end
  end.

Definition extension_key_parse (value : string) : Result ExtensionKey ExtensionError :=
  match str_rsplit_once DOT value with
  | None => Err (InvalidKey value)
  | Some (namespace, name) => extension_key_new namespace name
  end.

Definition extension_key_as_str (k : ExtensionKey) : string :=
  (ek_namespace k +:+ String DOT (ek_name k))%string.

(** * Extensions *)

Inductive ReplayPolicy := ReplayNever | ReplayIfSafe | ReplayAlways.

Definition allows_replay (p : ReplayPolicy) (request_is_safe : bool) : bool :=
  match p with
  | ReplayNever => false
  | ReplayIfSafe => request_is_safe
  | ReplayAlways => true
  end.

Record OpaqueExtension := MkOpaqueExtension {
  oe_namespace : string; oe_name : string; oe_media_type : string; oe_replay_policy : ReplayPolicy;
  oe_bytes : bytes;
}.

Definition opaque_key (e : OpaqueExtension) : ExtensionKey := MkExtensionKey (oe_namespace e) (oe_name e).

Definition opaque_from_key (k : ExtensionKey) (b : bytes) : OpaqueExtension :=
  MkOpaqueExtension (ek_namespace k) (ek_name k) "application/octet-stream" ReplayNever b.
Definition opaque_new (namespace name : string) (b : bytes) : Result OpaqueExtension ExtensionError :=
  let? ns := namespace_new namespace in
  let? n := name_new name in
  Ok (MkOpaqueExtension ns n "application/octet-stream" ReplayNever b).
Definition with_media_type (e : OpaqueExtension) (media_type : string) : Result OpaqueExtension ExtensionError :=
  if str_is_empty (trim media_type) then Err EmptyMediaType
  else Ok (MkOpaqueExtension (oe_namespace e) (oe_name e) media_type (oe_replay_policy e) (oe_bytes e)).
Definition with_replay_policy (e : OpaqueExtension) (p : ReplayPolicy) : OpaqueExtension :=
  MkOpaqueExtension (oe_namespace e) (oe_name e) (oe_media_type e) p (oe_bytes e).

(** [IndexMap<ExtensionKey, OpaqueExtension>]: the entries in insertion order.
    Inserting under a key that is present replaces its value in place;
    [shift_remove] keeps the order of the others. *)
Abbreviation Extensions := (list (ExtensionKey * OpaqueExtension)).

Fixpoint ext_get (k : ExtensionKey) (m : Extensions) : option OpaqueExtension :=
  match m with
  | [] => None
  | (k', e) :: m => if beq k k' then Some e else ext_get k m
  end.
Fixpoint index_insert (k : ExtensionKey) (e : OpaqueExtension) (m : Extensions) : Extensions :=
  match m with
  | [] => [(k, e)]
  | (k', e') :: m => if beq k k' then (k', e) :: m else (k', e') :: index_insert k e m
  end.
Fixpoint shift_remove (k : ExtensionKey) (m : Extensions) : Extensions :=
  match m with
  | [] => []
  | (k', e) :: m => if beq k k' then m else (k', e) :: shift_remove k m
  end.

Definition ext_insert (m : Extensions) (e : OpaqueExtension) : option OpaqueExtension * Extensions :=
  (ext_get (opaque_key e) m, index_insert (opaque_key e) e m).
Definition ext_remove (m : Extensions) (k : ExtensionKey) : option OpaqueExtension * Extensions :=
  (ext_get k m, shift_remove k m).
Definition ext_get_str (m : Extensions) (key : string) : option OpaqueExtension :=
  match extension_key_parse key with Ok k => ext_get k m | Err _ => None end.
Definition ext_contains_key (m : Extensions) (k : ExtensionKey) : bool := is_some (ext_get k m).
Definition ext_extend (m other : Extensions) : Extensions :=
  foldl (fun m e => (ext_insert m e).2) m other.*2.

(** * Loss accounting *)

Inductive WarningSeverity := SeverityInfo | SeverityWarning.

Record ConversionWarning := MkConversionWarning {
  cw_code : string; cw_message : string; cw_field : option string; cw_severity : WarningSeverity;
}.

Definition warning_new (code message : string) : ConversionWarning :=
  MkConversionWarning code message None SeverityWarning.
Definition for_field (w : ConversionWarning) (field : string) : ConversionWarning :=
  MkConversionWarning (cw_code w) (cw_message w) (Some field) (cw_severity w).
Definition with_severity (w : ConversionWarning) (s : WarningSeverity) : ConversionWarning :=
  MkConversionWarning (cw_code w) (cw_message w) (cw_field w) s.

Record ConversionError := MkConversionError {
  ce_policy : LossPolicy; ce_unsupported_required_fields : list string; ce_disallowed_losses : list string;
}.

Record ConversionReport := MkConversionReport {
  cr_preserved_capabilities : list string;
  cr_degraded_fields : list string;
  cr_dropped_optional_fields : list string;
  cr_unsupported_required_fields : list string;
  cr_preserved_extensions : list ExtensionKey;
  cr_rules_applied : list string;
  cr_warnings : list ConversionWarning;
}.

Definition report_default : ConversionReport := MkConversionReport [] [] [] [] [] [] [].

(** [if !values.contains(&value) { values.push(value) }]. *)
Definition push_unique {A} `{EqDecision A} (values : list A) (value : A) : list A :=
  if bool_decide (value ∈ values) then values else values ++ [value].

Definition preserve_capability (r : ConversionReport) (c : string) : ConversionReport :=
  MkConversionReport (push_unique (cr_preserved_capabilities r) c) (cr_degraded_fields r)
    (cr_dropped_optional_fields r) (cr_unsupported_required_fields r) (cr_preserved_extensions r)
    (cr_rules_applied r) (cr_warnings r).

Definition degrade_field (r : ConversionReport) (field reason : string) : ConversionReport :=
  MkConversionReport (cr_preserved_capabilities r) (push_unique (cr_degraded_fields r) field)
    (cr_dropped_optional_fields r) (cr_unsupported_required_fields r) (cr_preserved_extensions r)
    (cr_rules_applied r)
    (cr_warnings r ++ [with_severity (for_field (warning_new "degraded_field" reason) field) SeverityWarning]).

Definition drop_optional (r : ConversionReport) (field reason : string) : ConversionReport :=
  MkConversionReport (cr_preserved_capabilities r) (cr_degraded_fields r)
    (push_unique (cr_dropped_optional_fields r) field) (cr_unsupported_required_fields r)
    (cr_preserved_extensions r) (cr_rules_applied r)
    (cr_warnings r ++
       [with_severity (for_field (warning_new "dropped_optional_field" reason) field) SeverityWarning]).

Definition unsupported_required (r : ConversionReport) (field reason : string) : ConversionReport :=
  MkConversionReport (cr_preserved_capabilities r) (cr_degraded_fields r) (cr_dropped_optional_fields r)
    (push_unique (cr_unsupported_required_fields r) field) (cr_preserved_extensions r) (cr_rules_applied r)
    (cr_warnings r ++
       [with_severity (for_field (warning_new "unsupported_required_field" reason) field) SeverityWarning]).

Definition preserve_extension (r : ConversionReport) (k : ExtensionKey) : ConversionReport :=
  preserve_capability
    (MkConversionReport (cr_preserved_capabilities r) (cr_degraded_fields r) (cr_dropped_optional_fields r)
       (cr_unsupported_required_fields r) (push_unique (cr_preserved_extensions r) k) (cr_rules_applied r)
       (cr_warnings r))
    (extension_key_as_str k).

Definition apply_rule (r : ConversionReport) (rule : string) : ConversionReport :=
  MkConversionReport (cr_preserved_capabilities r) (cr_degraded_fields r) (cr_dropped_optional_fields r)
    (cr_unsupported_required_fields r) (cr_preserved_extensions r) (push_unique (cr_rules_applied r) rule)
    (cr_warnings r).

Definition report_warn (r : ConversionReport) (w : ConversionWarning) : ConversionReport :=
  MkConversionReport (cr_preserved_capabilities r) (cr_degraded_fields r) (cr_dropped_optional_fields r)
    (cr_unsupported_required_fields r) (cr_preserved_extensions r) (cr_rules_applied r)
    (cr_warnings r ++ [w]).

(** Each loop of [merge] adds to one list only. *)
Definition push_all {A} `{EqDecision A} (values new : list A) : list A := foldl push_unique values new.
Definition report_merge (r other : ConversionReport) : ConversionReport :=
  MkConversionReport
    (push_all (cr_preserved_capabilities r) (cr_preserved_capabilities other))
    (push_all (cr_degraded_fields r) (cr_degraded_fields other))
    (push_all (cr_dropped_optional_fields r) (cr_dropped_optional_fields other))
    (push_all (cr_unsupported_required_fields r) (cr_unsupported_required_fields other))
    (push_all (cr_preserved_extensions r) (cr_preserved_extensions other))
    (push_all (cr_rules_applied r) (cr_rules_applied other))
    (cr_warnings r ++ cr_warnings other).

Definition list_is_empty {A} (l : list A) : bool := match l with [] => true | _ => false end.

Definition is_lossless (r : ConversionReport) : bool :=
  list_is_empty (cr_degraded_fields r) && list_is_empty (cr_dropped_optional_fields r)
  && list_is_empty (cr_unsupported_required_fields r).
Definition has_loss (r : ConversionReport) : bool := negb (is_lossless r).

Definition report_validate (r : ConversionReport) (policy : LossPolicy) : Result unit ConversionError :=
  let disallowed_losses :=
    match policy with
    | Reject | Preserve => cr_degraded_fields r ++ cr_dropped_optional_fields r
    | Degrade => []
    end in
  if negb (list_is_empty (cr_unsupported_required_fields r)) || negb (list_is_empty disallowed_losses)
  then Err (MkConversionError policy (cr_unsupported_required_fields r) disallowed_losses)
  else Ok tt.

Definition is_compatible_with (r : ConversionReport) (policy : LossPolicy) : bool :=
  match report_validate r policy with Ok _ => true | Err _ => false end.

(** * Extension keys and collections, and the promise of the loss accounting: no
      conversion loses a field silently. *)

(** * Keys *)

Lemma str_rsplit_once_none sep s : contains_char s sep = false -> str_rsplit_once sep s = None.
Proof. induction s as [|c s IH]; simpl; [done|]. intros [-> Hs]%orb_false_iff. by rewrite IH. Qed.

Lemma str_rsplit_once_app sep x y :
  contains_char y sep = false -> str_rsplit_once sep (x +:+ String sep y)%string = Some (x, y).
Proof.
  intros Hy. induction x as [|c x IH]; simpl.
  - by rewrite str_rsplit_once_none, Ascii.eqb_refl.
  - by rewrite IH.
Qed.

Lemma str_rsplit_once_spec sep s x y :
  str_rsplit_once sep s = Some (x, y) -> s = (x +:+ String sep y)%string /\ contains_char y sep = false.
Proof.
  revert x. induction s as [|c s IH]; intros x; simpl; [done|].
  destruct (str_rsplit_once sep s) as [[x' y']|] eqn:E.
  - intros [= <- <-]. by destruct (IH x' eq_refl) as [-> ?].
  - destruct (Ascii.eqb_spec c sep) as [-> |]; [|done]. intros [= <- <-]. split; [done|].
    clear IH. induction s as [|d s IH]; simpl in *; [done|].
    destruct (str_rsplit_once sep s) as [[]|]; [done|]. destruct (Ascii.eqb d sep); [done|]. by apply IH.
Qed.

Definition key_valid (k : ExtensionKey) : Prop :=
  extension_key_new (ek_namespace k) (ek_name k) = Ok k.

Lemma extension_key_new_valid ns n k :
  extension_key_new ns n = Ok k -> k = MkExtensionKey ns n /\ key_valid k.
Proof.
  intros Hk. assert (k = MkExtensionKey ns n) as ->; [|done].
  revert Hk. unfold extension_key_new, namespace_new, name_new.
  destruct (validate_component ns _); [|done]. simpl. destruct (validate_component n _); [|done].
  simpl. congruence.
Qed.

(** The printed form of an extension key is a faithful name exactly for the
    keys whose name has no dot: such a key, and no other, is read back from its
    printed form.  Whatever parses is a valid key, printed as the text it was
    read from, and the parser splits at the last dot. *)
Theorem extension_key_roundtrip :
  (forall k, key_valid k ->
     extension_key_parse (extension_key_as_str k) = Ok k <-> contains_char (ek_name k) DOT = false) /\
  (forall s k, extension_key_parse s = Ok k ->
     key_valid k /\ extension_key_as_str k = s /\ contains_char (ek_name k) DOT = false).
Proof.
  assert (Hparse : forall s k, extension_key_parse s = Ok k ->
     key_valid k /\ extension_key_as_str k = s /\ contains_char (ek_name k) DOT = false).
  { unfold extension_key_parse. intros s k.
    destruct (str_rsplit_once DOT s) as [[x y]|] eqn:E; [|done].
    intros [-> Hv]%extension_key_new_valid. apply str_rsplit_once_spec in E as [-> Hy]. done. }
  split; [|done]. intros k Hk. split.
  - intros Hp. by apply Hparse in Hp as (_ & _ & ?).
  - intros Hn. unfold extension_key_parse, extension_key_as_str. by rewrite str_rsplit_once_app.
Qed.

(** Two valid keys with the same printed form: a collection that is written as a
    JSON object, whose member names are the printed keys, cannot hold both. *)
Lemma extension_key_collision :
  let a := MkExtensionKey "openai" "responses.state" in
  let b := MkExtensionKey "openai.responses" "state" in
  key_valid a /\ key_valid b /\ a <> b /\ extension_key_as_str a = extension_key_as_str b.
Proof. by repeat split; vm_compute. Qed.

(** * Collections *)

(** Every entry is stored under its own key, and no key occurs twice. *)
Definition ext_wf (m : Extensions) : Prop :=
  NoDup m.*1 /\ Forall (fun ke => ke.1 = opaque_key ke.2) m.

Lemma ext_get_insert k u e m :
  ext_get u (index_insert k e m) = if bool_decide (u = k) then Some e else ext_get u m.
Proof.
  induction m as [|[k' e'] m IH]; simpl.
  { by case_bool_decide. }
  destruct (bool_decide_reflect (k = k')) as [->|Hk]; simpl; [by case_bool_decide|].
  rewrite IH. repeat case_bool_decide; congruence.
Qed.

Lemma index_insert_keys k e m :
  (index_insert k e m).*1 = if bool_decide (k ∈ m.*1) then m.*1 else m.*1 ++ [k].
Proof.
  induction m as [|[k' e'] m IH]; [done|]. cbn [index_insert].
  destruct (bool_decide_reflect (k = k')) as [->|Hk]; rewrite !fmap_cons; cbn [fst].
  - by rewrite bool_decide_eq_true_2 by set_solver.
  - rewrite IH. destruct (bool_decide_reflect (k ∈ m.*1)) as [Hin|Hin].
    + by rewrite bool_decide_eq_true_2 by set_solver.
    + by rewrite bool_decide_eq_false_2 by set_solver.
Qed.

Lemma ext_insert_wf m e : ext_wf m -> ext_wf (ext_insert m e).2.
Proof.
  intros [Hn Hf]. split; simpl.
  - rewrite index_insert_keys. case_bool_decide as Hk; [done|]. apply NoDup_app.
    split; [done|]. split; [set_solver|apply NoDup_singleton].
  - clear Hn. induction Hf as [|[k' e'] m Hk Hf IH]; simpl; [by constructor|].
    case_bool_decide as E; constructor; try done.
Qed.

Lemma ext_get_keys k m : is_Some (ext_get k m) <-> k ∈ m.*1.
Proof.
  induction m as [|[k' e] m IH]; simpl; [split; [by intros []|set_solver]|].
  case_bool_decide as E; [subst; split; [set_solver|eauto]|]. rewrite IH. set_solver.
Qed.

Lemma filter_ext_elem {A} (P Q : A -> Prop) `{forall x, Decision (P x), forall x, Decision (Q x)} (l : list A) :
  (forall x, x ∈ l -> P x <-> Q x) -> filter P l = filter Q l.
Proof.
  induction l as [|x l IH]; intros Hl; [done|]. rewrite !filter_cons, IH by set_solver.
  apply decide_ext, Hl. set_solver.
Qed.

(** Merging extension collections in order: the result holds every key once
    and under its own entry, an extension of the second collection replaces the
    one of the first, nothing else is lost, and the order is the first
    collection's followed by the new keys in the order of the second. *)
Theorem extensions_extend_correct m other :
  ext_wf m -> ext_wf other ->
  ext_wf (ext_extend m other) /\
  (forall k, ext_get k (ext_extend m other) = or_else (ext_get k other) (ext_get k m)) /\
  (ext_extend m other).*1 = m.*1 ++ filter (fun k => k ∉ m.*1) other.*1.
Proof.
  intros Hm [Hn Hf]. revert m Hm.
  induction Hf as [|[k e] other Hk Hf IH]; intros m Hm.
  { simpl. rewrite app_nil_r. done. }
  rewrite fmap_cons in *. cbn [fst snd] in *. subst k. apply NoDup_cons in Hn as [Hfresh Hn].
  destruct (IH Hn _ (ext_insert_wf m e Hm)) as (Hwf & Hget & Hkeys). clear IH.
  change (ext_extend m ((opaque_key e, e) :: other)) with (ext_extend (ext_insert m e).2 other).
  split; [done|]. split.
  - intros u. rewrite Hget. cbn [ext_insert snd ext_get]. rewrite ext_get_insert.
    case_bool_decide as E; [|done]. subst u.
    destruct (ext_get (opaque_key e) other) eqn:Eo; [|done]. exfalso. apply Hfresh, ext_get_keys. eauto.
  - rewrite Hkeys. cbn [ext_insert snd]. rewrite index_insert_keys, filter_cons. case_bool_decide as Hin.
    + rewrite decide_False by tauto. done.
    + rewrite decide_True, <- app_assoc by done. f_equal. simpl. f_equal.
      apply filter_ext_elem. intros u Hu. set_solver.
Qed.

(** * Loss accounting *)

Section push.
Context {A} `{EqDecision A}.

Lemma push_unique_elem (l : list A) x y : y ∈ push_unique l x <-> y ∈ l \/ y = x.
Proof. unfold push_unique. case_bool_decide; set_solver. Qed.

Lemma push_unique_NoDup (l : list A) x : NoDup l -> NoDup (push_unique l x).
Proof.
  intros Hl. unfold push_unique. case_bool_decide; [done|]. apply NoDup_app.
  split; [done|]. split; [set_solver|apply NoDup_singleton].
Qed.

Lemma push_all_elem (l k : list A) y : y ∈ push_all l k <-> y ∈ l \/ y ∈ k.
Proof.
  unfold push_all. revert l. induction k as [|x k IH]; intros l; simpl; [set_solver|].
  rewrite IH, push_unique_elem. set_solver.
Qed.

Lemma push_all_NoDup (l k : list A) : NoDup l -> NoDup (push_all l k).
Proof.
  unfold push_all. revert l. induction k as [|x k IH]; intros l Hl; simpl; [done|].
  by apply IH, push_unique_NoDup.
Qed.
End push.
#[local] Hint Resolve push_unique_NoDup push_all_NoDup : core.

(** The reports an encoder can build. *)
Inductive built : ConversionReport -> Prop :=
| built_default : built report_default
| built_capability r c : built r -> built (preserve_capability r c)
| built_degrade r f reason : built r -> built (degrade_field r f reason)
| built_drop r f reason : built r -> built (drop_optional r f reason)
| built_unsupported r f reason : built r -> built (unsupported_required r f reason)
| built_extension r k : built r -> built (preserve_extension r k)
| built_rule r rule : built r -> built (apply_rule r rule)
| built_warn r w : built r -> built (report_warn r w)
| built_merge r s : built r -> built s -> built (report_merge r s).

(** A field of the list has a warning of the kind. *)
Definition warned (r : ConversionReport) (code field : string) : Prop :=
  exists w, w ∈ cr_warnings r /\ cw_code w = code /\ cw_field w = Some field /\ cw_severity w = SeverityWarning.

Record report_inv (r : ConversionReport) : Prop := {
  inv_degraded : NoDup (cr_degraded_fields r) /\
    forall f, f ∈ cr_degraded_fields r -> warned r "degraded_field" f;
  inv_dropped : NoDup (cr_dropped_optional_fields r) /\
    forall f, f ∈ cr_dropped_optional_fields r -> warned r "dropped_optional_field" f;
  inv_unsupported : NoDup (cr_unsupported_required_fields r) /\
    forall f, f ∈ cr_unsupported_required_fields r -> warned r "unsupported_required_field" f;
  inv_extensions : NoDup (cr_preserved_extensions r) /\
    forall k, k ∈ cr_preserved_extensions r -> extension_key_as_str k ∈ cr_preserved_capabilities r;
}.

Lemma warned_more r s code f :
  (forall w, w ∈ cr_warnings r -> w ∈ cr_warnings s) -> warned r code f -> warned s code f.
Proof. intros Hi (w & ? & ?). exists w. auto. Qed.

(** Adding one field with its warning. *)
Lemma warned_push r s code l f :
  (forall w, w ∈ cr_warnings r -> w ∈ cr_warnings s) -> warned s code f ->
  NoDup l /\ (forall g, g ∈ l -> warned r code g) ->
  NoDup (push_unique l f) /\ (forall g, g ∈ push_unique l f -> warned s code g).
Proof.
  intros Hi Hf [Hn Hl]. split; [auto|]. intros g [Hg| -> ]%push_unique_elem; [|done].
  by eapply warned_more, Hl.
Qed.

Lemma warned_merge r s t code l k :
  (forall w, w ∈ cr_warnings r -> w ∈ cr_warnings t) -> (forall w, w ∈ cr_warnings s -> w ∈ cr_warnings t) ->
  NoDup l /\ (forall g, g ∈ l -> warned r code g) -> NoDup k /\ (forall g, g ∈ k -> warned s code g) ->
  NoDup (push_all l k) /\ (forall g, g ∈ push_all l k -> warned t code g).
Proof.
  intros Hr Hs [Hn Hl] [_ Hk]. split; [auto|].
  intros g [Hg|Hg]%push_all_elem; [by eapply (warned_more r), Hl|by eapply (warned_more s), Hk].
Qed.

(** A step that leaves a list alone and only adds warnings. *)
Lemma warned_keep r s code (l : list string) :
  (forall w, w ∈ cr_warnings r -> w ∈ cr_warnings s) ->
  NoDup l /\ (forall g, g ∈ l -> warned r code g) -> NoDup l /\ (forall g, g ∈ l -> warned s code g).
Proof. intros Hi [Hn Hl]. split; [done|]. intros g Hg. by eapply warned_more, Hl. Qed.

Ltac more_warnings := let w := fresh in intros w ?; simpl; rewrite ?elem_of_app; auto.
Ltac new_warning :=
  eexists; split; [simpl; apply elem_of_app; right; apply list_elem_of_singleton; reflexivity|done].

Lemma built_inv r : built r -> report_inv r.
Proof.
  induction 1 as [|r c _ [H1 H2 H3 H4]|r f reason _ [H1 H2 H3 H4]|r f reason _ [H1 H2 H3 H4]
    |r f reason _ [H1 H2 H3 H4]|r k _ [H1 H2 H3 H4]|r rule _ [H1 H2 H3 H4]|r w _ [H1 H2 H3 H4]
    |r s _ [H1 H2 H3 H4] _ [I1 I2 I3 I4]]; split; try done; simpl;
    try (by eapply (warned_keep r); [more_warnings|]);
    try (by eapply (warned_push r); [more_warnings|new_warning|]);
    try (by eapply (warned_merge r s); [more_warnings|more_warnings|..]).
  - by split; [constructor|set_solver].
  - by split; [constructor|set_solver].
  - by split; [constructor|set_solver].
  - by split; [constructor|set_solver].
  - destruct H4 as [Hn H4]. split; [done|]. intros k Hk. apply push_unique_elem. auto.
  - destruct H4 as [Hn H4]. split; [auto|]. intros u [Hu| -> ]%push_unique_elem; apply push_unique_elem; auto.
  - destruct H4 as [Hn H4], I4 as [_ I4]. split; [auto|].
    intros u [Hu|Hu]%push_all_elem; apply push_all_elem; auto.
Qed.

Lemma list_is_empty_true {A} (l : list A) : list_is_empty l = true <-> l = [].
Proof. by destruct l. Qed.

Lemma validate_ok r policy :
  report_validate r policy = Ok tt <->
  cr_unsupported_required_fields r = [] /\
  (policy = Degrade \/ cr_degraded_fields r = [] /\ cr_dropped_optional_fields r = []).
Proof.
  unfold report_validate. destruct (cr_unsupported_required_fields r); simpl; [|by split; [|intros []]].
  destruct policy; simpl; [destruct (cr_degraded_fields r); simpl; [destruct (cr_dropped_optional_fields r); simpl|]..|];
    naive_solver.
Qed.

Lemma push_all_nil (l k : list string) : push_all l k = [] <-> l = [] /\ k = [].
Proof.
  assert (Hempty : forall l : list string, l = [] <-> forall x, x ∉ l).
  { intros [|x l']; [set_solver|]. split; [done|]. intros Hx. exfalso. apply (Hx x). set_solver. }
  rewrite !Hempty. setoid_rewrite push_all_elem. naive_solver.
Qed.

(** No conversion loses anything silently.  In every report an encoder can
    build, each degraded, dropped or unsupported field is recorded once and has a
    warning of its kind that names it, and each preserved extension counts as a
    preserved capability; a route accepts the report exactly when no required
    field is unsupported and, unless its policy is to degrade, nothing was
    degraded or dropped; a rejection names exactly the offending fields; and a
    merged report is accepted exactly when both of its parts are. *)
Theorem conversion_accounting r :
  built r ->
  report_inv r /\
  (forall policy, match report_validate r policy with
   | Ok _ => cr_unsupported_required_fields r = [] /\ (policy = Degrade \/ has_loss r = false)
   | Err e => ce_policy e = policy /\ ce_unsupported_required_fields e = cr_unsupported_required_fields r /\
       ce_disallowed_losses e =
         (if allows_degradation policy then [] else cr_degraded_fields r ++ cr_dropped_optional_fields r) /\
       ce_unsupported_required_fields e ++ ce_disallowed_losses e <> []
   end) /\
  (forall s policy, is_compatible_with (report_merge r s) policy
     = is_compatible_with r policy && is_compatible_with s policy).
Proof.
  intros Hb. split; [by apply built_inv|]. split.
  - intros policy. destruct (report_validate r policy) as [[]|e] eqn:Ev.
    + apply validate_ok in Ev as [Hu Hp]. split; [done|]. destruct Hp as [-> |[Hd Ho]]; [by left|right].
      unfold has_loss, is_lossless. by rewrite Hu, Hd, Ho.
    + unfold report_validate in Ev. destruct (_ || _) eqn:Eo in Ev; [|done]. injection Ev as <-.
      repeat split; simpl; [by destruct policy|]. intros [Hu Hd]%app_eq_nil. by rewrite Hu, Hd in Eo.
  - intros s policy. assert (Hc : forall t, is_compatible_with t policy = true <-> report_validate t policy = Ok tt).
    { intros t. unfold is_compatible_with. by destruct (report_validate t policy) as [[]|]. }
    apply eq_iff_eq_true. rewrite andb_true_iff, !Hc, !validate_ok. simpl.
    rewrite !push_all_nil. naive_solver.
Qed.

Definition ext_a : OpaqueExtension := opaque_from_key (MkExtensionKey "openai" "a") [1].
Definition ext_b : OpaqueExtension := opaque_from_key (MkExtensionKey "openai" "b") [2].
Definition ext_a2 : OpaqueExtension := opaque_from_key (MkExtensionKey "openai" "a") [3].

Lemma extensions_extend_correct_witness :
  ext_wf (ext_extend [(opaque_key ext_a, ext_a)] [(opaque_key ext_b, ext_b); (opaque_key ext_a2, ext_a2)]) /\
  ext_extend [(opaque_key ext_a, ext_a)] [(opaque_key ext_b, ext_b); (opaque_key ext_a2, ext_a2)]
  = [(opaque_key ext_a, ext_a2); (opaque_key ext_b, ext_b)].
Proof.
  split; [|reflexivity]. apply extensions_extend_correct.
  - split; [apply NoDup_singleton|repeat constructor].
  - split; [|repeat constructor]. by apply (bool_decide_unpack _).
Defined.

Lemma conversion_accounting_witness :
  let r := report_merge (degrade_field report_default "reasoning.signature" "no field")
             (unsupported_required report_default "tool_call.id" "no identifier") in
  report_inv r /\ is_compatible_with r Degrade = false.
Proof.
  simpl. split; [|reflexivity]. apply conversion_accounting. by repeat constructor.
Defined.
