(* ===== verification/Events.v ===== *)
(** The semantic stream of a response (crates/pooler-protocol/src/events.rs): its
    events, and the validator that every decoder's output goes through. *)
From S2P Require Import Prelude Str Bytes Json Extensions.

Open Scope N_scope.

(** * Events *)

Record Usage := MkUsage {
  input_tokens : N; output_tokens : N; reasoning_tokens : option N; cached_input_tokens : option N;
  total_tokens : option N; usage_details : gmap string N;
}.
Definition usage_new (input output : N) : Usage :=
  MkUsage input output None None (Some (sat_add U64_MAX input output)) ∅.

Inductive FinishReason :=
| FinishStop | FinishLength | FinishToolCall | FinishContentFilter | FinishError | FinishOther (reason : string).

Record StreamError := MkStreamError {
  se_code : string; se_message : string; se_retryable : bool; se_details : option PreservedJson;
}.

(** [MediaSource] and [ReasoningBlock] of model.rs. *)
Inductive MediaSource := MediaInline (b : bytes) | MediaUri (uri : string).
Record ReasoningBlock := MkReasoningBlock {
  rb_id : option string; rb_text : option string; rb_summary : option string;
  rb_encrypted_content : option bytes; rb_signature : option bytes; rb_extensions : Extensions;
}.

Inductive StreamEventKind :=
| ResponseStart (response_id model : option string)
| Metadata (values : gmap string string)
| TextStart
| TextDelta (text : string)
| TextEnd
| ReasoningStart
| ReasoningDelta (text : string)
| ReasoningEnd (reasoning : option ReasoningBlock)
| ToolCallStart (id name : string)
| ToolCallDelta (id arguments : string)
| ToolCallEnd (id : string)
| Media (media_type : string) (source : MediaSource)
| UsageEvent (usage : Usage)
| Refusal (text : string)
| WarningEvent (warning : ConversionWarning)
| Completion (finish_reason : FinishReason) (usage : option Usage)
| Failure (error : StreamError)
| OpaqueEvent (media_type : string) (data : bytes).

Definition event_is_terminal (k : StreamEventKind) : bool :=
  match k with Completion _ _ | Failure _ => true | _ => false end.
Definition is_response_start (k : StreamEventKind) : bool :=
  match k with ResponseStart _ _ => true | _ => false end.

Inductive BlockAction :=
| BlockStart | BlockContinue | BlockEnd
| StartWithId (id : string) | ContinueWithId (id : string) | EndWithId (id : string).

Definition block_action (k : StreamEventKind) : option BlockAction :=
  match k with
  | TextStart => Some BlockStart
  | TextDelta _ => Some BlockContinue
  | TextEnd => Some BlockEnd
  | ReasoningStart => Some BlockStart
  | ReasoningDelta _ => Some BlockContinue
  | ReasoningEnd _ => Some BlockEnd
  | ToolCallStart id _ => Some (StartWithId id)
  | ToolCallDelta id _ => Some (ContinueWithId id)
  | ToolCallEnd id => Some (EndWithId id)
  | ResponseStart _ _ | Metadata _ | Media _ _ | UsageEvent _ | Refusal _ | WarningEvent _
  | Completion _ _ | Failure _ | OpaqueEvent _ _ => None
  end.

Definition event_name (k : StreamEventKind) : string :=
  match k with
  | TextStart => "text_start"
  | TextDelta _ => "text_delta"
  | TextEnd => "text_end"
  | ReasoningStart => "reasoning_start"
  | ReasoningDelta _ => "reasoning_delta"
  | ReasoningEnd _ => "reasoning_end"
  | ToolCallStart _ _ => "tool_call_start"
  | ToolCallDelta _ _ => "tool_call_delta"
  | ToolCallEnd _ => "tool_call_end"
  | ResponseStart _ _ | Metadata _ | Media _ _ | UsageEvent _ | Refusal _ | WarningEvent _
  | Completion _ _ | Failure _ | OpaqueEvent _ _ => "event"
  end.

Record StreamEvent := MkStreamEvent {
  ev_sequence : N; ev_block_id : option string; ev_kind : StreamEventKind; ev_extensions : Extensions;
}.
Definition event_new (sequence : N) (kind : StreamEventKind) : StreamEvent :=
  MkStreamEvent sequence None kind [].
Definition with_block_id (e : StreamEvent) (id : string) : StreamEvent :=
  MkStreamEvent (ev_sequence e) (Some id) (ev_kind e) (ev_extensions e).

Definition effective_block_id (e : StreamEvent) : option string :=
  or_else (ev_block_id e)
    match ev_kind e with
    | ToolCallStart id _ | ToolCallDelta id _ | ToolCallEnd id => Some id
    | _ => None
    end.

(** * The validator *)

Inductive StreamValidationError :=
| NonMonotonicSequence (previous actual : N)
| MissingBlockId (event : string)
| DuplicateBlock (id : string)
| UnknownBlock (id : string)
| AfterTerminal
| DuplicateResponseStart.

Record StreamValidator := MkStreamValidator {
  sv_last_sequence : option N; sv_response_started : bool; sv_terminal : bool; sv_open_blocks : list string;
}.
Definition validator_default : StreamValidator := MkStreamValidator None false false [].

(** The three block operations: the open blocks afterwards. *)
Definition start_block (open : list string) (id : string) : Result (list string) StreamValidationError :=
  if str_is_empty id then Err (MissingBlockId "block")
  else if existsb (fun o => beq o id) open then Err (DuplicateBlock id)
  else Ok (open ++ [id]).
Definition continue_block (open : list string) (id : string) : Result (list string) StreamValidationError :=
  if existsb (fun o => beq o id) open then Ok open else Err (UnknownBlock id).
Definition end_block (open : list string) (id : string) : Result (list string) StreamValidationError :=
  match position (fun o => beq o id) open with
  | None => Err (UnknownBlock id)
  | Some index => Ok (delete index open)
  end.

Definition apply_action (open : list string) (e : StreamEvent) (action : BlockAction)
  : Result (list string) StreamValidationError :=
  let effective_id := ok_or (effective_block_id e) (MissingBlockId (event_name (ev_kind e))) in
  match action with
  | BlockStart => let? id := effective_id in start_block open id
  | BlockContinue => let? id := effective_id in continue_block open id
  | BlockEnd => let? id := effective_id in end_block open id
  | StartWithId id => start_block open id
  | ContinueWithId id => continue_block open id
  | EndWithId id => end_block open id
  end.

Definition accept (v : StreamValidator) (e : StreamEvent)
  : Result unit StreamValidationError * StreamValidator :=
  if sv_terminal v then (Err AfterTerminal, v)
  else match opt_filter (sv_last_sequence v) (fun previous => ev_sequence e <=? previous) with
  | Some previous => (Err (NonMonotonicSequence previous (ev_sequence e)), v)
  | None =>
    if is_response_start (ev_kind e) && sv_response_started v then (Err DuplicateResponseStart, v)
    else
      let blocks := match block_action (ev_kind e) with
                    | Some action => apply_action (sv_open_blocks v) e action
                    | None => Ok (sv_open_blocks v)
                    end in
      match blocks with
      | Err error => (Err error, v)
      | Ok open =>
        (Ok tt, MkStreamValidator (Some (ev_sequence e))
                  (sv_response_started v || is_response_start (ev_kind e))
                  (sv_terminal v || event_is_terminal (ev_kind e)) open)
      end
  end.

Definition is_drained (v : StreamValidator) : bool := list_is_empty (sv_open_blocks v).
Definition event_validate (e : StreamEvent) : Result unit StreamValidationError :=
  (accept validator_default e).1.

(** A stream: the events one after the other, stopping at the first refusal. *)
Fixpoint accept_all (v : StreamValidator) (events : list StreamEvent)
  : Result StreamValidator StreamValidationError :=
  match events with
  | [] => Ok v
  | e :: events =>
    match accept v e with
    | (Ok _, v') => accept_all v' events
    | (Err error, _) => Err error
    end
  end.

(** * The stream validator accepts exactly the well-formed streams, and its state is
      what it claims to be: the last sequence number, whether the response started
      or ended, and the blocks that are open. *)

(** * What a well-formed stream is *)

(** The block an event starts, continues or ends. *)
Definition event_block (e : StreamEvent) : option string :=
  match ev_kind e with
  | ToolCallStart id _ | ToolCallDelta id _ | ToolCallEnd id => Some id
  | _ => ev_block_id e
  end.
Definition starts (e : StreamEvent) : bool :=
  match ev_kind e with TextStart | ReasoningStart | ToolCallStart _ _ => true | _ => false end.
Definition continues (e : StreamEvent) : bool :=
  match ev_kind e with TextDelta _ | ReasoningDelta _ | ToolCallDelta _ _ => true | _ => false end.
Definition ends (e : StreamEvent) : bool :=
  match ev_kind e with TextEnd | ReasoningEnd _ | ToolCallEnd _ => true | _ => false end.

(** How often a block was started and ended. *)
Definition count_if (p : StreamEvent -> bool) (l : list StreamEvent) : nat := length (List.filter p l).
Definition started (id : string) (l : list StreamEvent) : nat :=
  count_if (fun e => starts e && beq (event_block e) (Some id)) l.
Definition ended (id : string) (l : list StreamEvent) : nat :=
  count_if (fun e => ends e && beq (event_block e) (Some id)) l.
Definition is_open (id : string) (l : list StreamEvent) : Prop := started id l = S (ended id l).
Definition is_closed (id : string) (l : list StreamEvent) : Prop := started id l = ended id l.

(** What may follow the events [past]. *)
Definition may_follow (past : list StreamEvent) (e : StreamEvent) : Prop :=
  Forall (fun p => ev_sequence p < ev_sequence e) past /\
  Forall (fun p => event_is_terminal (ev_kind p) = false) past /\
  (is_response_start (ev_kind e) = true -> Forall (fun p => is_response_start (ev_kind p) = false) past) /\
  (starts e = true -> exists id, event_block e = Some id /\ id <> EmptyString /\ is_closed id past) /\
  (continues e = true \/ ends e = true -> exists id, event_block e = Some id /\ is_open id past).

Definition stream_ok (events : list StreamEvent) : Prop :=
  forall past e future, events = past ++ e :: future -> may_follow past e.

(** * One event *)

Lemma count_if_snoc p l e : count_if p (l ++ [e]) = (count_if p l + if p e then 1 else 0)%nat.
Proof. unfold count_if. rewrite List.filter_app, length_app. simpl. by destruct (p e). Qed.

Lemma started_snoc id l e :
  started id (l ++ [e]) = (started id l + if starts e && beq (event_block e) (Some id) then 1 else 0)%nat.
Proof. apply count_if_snoc. Qed.
Lemma ended_snoc id l e :
  ended id (l ++ [e]) = (ended id l + if ends e && beq (event_block e) (Some id) then 1 else 0)%nat.
Proof. apply count_if_snoc. Qed.

(** The open blocks after the events [past]. *)
Definition blocks_inv (past : list StreamEvent) (open : list string) : Prop :=
  NoDup open /\ (forall id, id ∈ open -> is_open id past) /\ (forall id, id ∉ open -> is_closed id past).

Lemma blocks_inv_elem past open id : blocks_inv past open -> id ∈ open <-> is_open id past.
Proof.
  intros (_ & Hin & Hout). split; [apply Hin|]. intros Ho.
  destruct (decide (id ∈ open)) as [?|Hn]; [done|]. apply Hout in Hn. unfold is_open, is_closed in *. lia.
Qed.

Lemma blocks_inv_closed past open id : blocks_inv past open -> id ∉ open <-> is_closed id past.
Proof.
  intros (_ & Hin & Hout). split; [apply Hout|]. intros Hc Ho. apply Hin in Ho.
  unfold is_open, is_closed in *. lia.
Qed.

Lemma any_block (open : list string) id : existsb (fun o => beq o id) open = true <-> id ∈ open.
Proof.
  rewrite existsb_exists. split.
  - intros (o & Ho & ->%bool_decide_eq_true). by apply list_elem_of_In.
  - intros Hin. exists id. split; [by apply list_elem_of_In|by apply bool_decide_eq_true].
Qed.

(** What an event does to the open blocks, by its kind. *)
Definition with_block (e : StreamEvent) (f : string -> Result (list string) StreamValidationError) :=
  match event_block e with Some id => f id | None => Err (MissingBlockId (event_name (ev_kind e))) end.
Definition blocks_after (open : list string) (e : StreamEvent) : Result (list string) StreamValidationError :=
  match block_action (ev_kind e) with
  | Some action => apply_action open e action
  | None => Ok open
  end.

Lemma blocks_after_cases open e :
  blocks_after open e =
    (if starts e then with_block e (start_block open)
     else if continues e then with_block e (continue_block open)
     else if ends e then with_block e (end_block open)
     else Ok open).
Proof.
  unfold blocks_after, with_block, apply_action, effective_block_id, event_block, starts, continues, ends.
  destruct (ev_kind e); simpl; try done; by destruct (ev_block_id e).
Qed.

(** An event is of one of the three kinds, or of none. *)
Lemma kinds_exclusive e :
  (starts e = true -> continues e = false /\ ends e = false) /\ (continues e = true -> ends e = false).
Proof. unfold starts, continues, ends. by destruct (ev_kind e). Qed.

(** The part of [may_follow] that concerns blocks. *)
Definition block_follows (past : list StreamEvent) (e : StreamEvent) : Prop :=
  (starts e = true -> exists id, event_block e = Some id /\ id <> EmptyString /\ is_closed id past) /\
  (continues e = true \/ ends e = true -> exists id, event_block e = Some id /\ is_open id past).

Lemma block_started past open e id :
  blocks_inv past open -> starts e = true -> event_block e = Some id -> id ∉ open ->
  blocks_inv (past ++ [e]) (open ++ [id]).
Proof.
  intros Hinv Hs Hid Hn. destruct (proj1 (kinds_exclusive e) Hs) as [_ He].
  destruct Hinv as (Hnd & Hin & Hout). unfold blocks_inv, is_open, is_closed. split.
  { apply NoDup_app. split; [done|]. split; [set_solver|apply NoDup_singleton]. }
  setoid_rewrite started_snoc. setoid_rewrite ended_snoc. rewrite Hs, He, Hid. simpl. split; intros u Hu.
  - apply elem_of_app in Hu as [Hu| ->%list_elem_of_singleton].
    + apply Hin in Hu as Ho. unfold is_open in Ho. rewrite bool_decide_eq_false_2 by congruence. lia.
    + apply Hout in Hn. unfold is_closed in Hn. rewrite bool_decide_eq_true_2 by done. lia.
  - apply not_elem_of_app in Hu as [Hu Hne]. apply Hout in Hu. unfold is_closed in Hu.
    rewrite bool_decide_eq_false_2 by set_solver. lia.
Qed.

Lemma block_untouched past open e :
  blocks_inv past open -> starts e = false -> ends e = false -> blocks_inv (past ++ [e]) open.
Proof.
  intros (Hnd & Hin & Hout) Hs He. split; [done|]. unfold is_open, is_closed in *.
  split; intros id Hid; rewrite started_snoc, ended_snoc, Hs, He; simpl.
  - apply Hin in Hid. lia.
  - apply Hout in Hid. lia.
Qed.

Lemma position_none {A} (p : A -> bool) l : position p l = None -> Forall (fun x => p x = false) l.
Proof.
  induction l as [|x l IH]; simpl; [constructor|]. destruct (p x) eqn:E; [done|].
  intros Hn. apply fmap_None in Hn. constructor; auto.
Qed.

Lemma position_some {A} (p : A -> bool) l i : position p l = Some i -> exists x, l !! i = Some x /\ p x = true.
Proof.
  revert i. induction l as [|x l IH]; intros i; simpl; [done|]. destruct (p x) eqn:E.
  - intros [= <-]. by exists x.
  - intros (j & Hj & ->)%fmap_Some. by apply IH.
Qed.

Lemma block_ended past open e id i :
  blocks_inv past open -> ends e = true -> event_block e = Some id -> open !! i = Some id ->
  blocks_inv (past ++ [e]) (delete i open).
Proof.
  unfold blocks_inv. intros (Hnd & Hin & Hout) He Hid Hi.
  assert (Hs : starts e = false).
  { destruct (starts e) eqn:Hs; [|done]. destruct (proj1 (kinds_exclusive e) Hs). congruence. }
  apply list_elem_of_lookup_2 in Hi as Helem. apply Hin in Helem as Hopen.
  pose proof (delete_Permutation open i id Hi) as Hperm.
  assert (Hnd' : NoDup (id :: delete i open)) by by rewrite <- Hperm.
  apply NoDup_cons in Hnd' as [Hfresh Hnd']. split; [done|].
  unfold is_open, is_closed in *. setoid_rewrite started_snoc. setoid_rewrite ended_snoc.
  rewrite Hs, He, Hid. simpl. split; intros u Hu.
  - rewrite bool_decide_eq_false_2 by congruence. rewrite Hin; [lia|]. rewrite Hperm. set_solver.
  - destruct (decide (u = id)) as [-> |Hne]; [rewrite bool_decide_eq_true_2 by done; lia|].
    rewrite bool_decide_eq_false_2 by congruence. rewrite Hout; [lia|]. rewrite Hperm. set_solver.
Qed.

Lemma blocks_after_spec past open e :
  blocks_inv past open ->
  match blocks_after open e with
  | Ok open' => block_follows past e /\ blocks_inv (past ++ [e]) open'
  | Err _ => ~ block_follows past e
  end.
Proof.
  intros Hinv. rewrite blocks_after_cases. unfold block_follows, with_block.
  destruct (kinds_exclusive e) as [Hk1 Hk2].
  destruct (starts e) eqn:Hs; [destruct (Hk1 eq_refl) as [Hc He]; rewrite Hc, He|].
  { destruct (event_block e) as [id|] eqn:Hid; [|naive_solver]. unfold start_block.
    destruct id as [|c id]; [naive_solver|]. simpl str_is_empty. cbv iota.
    destruct (existsb _ open) eqn:Ho.
    - apply any_block in Ho. apply (blocks_inv_elem past) in Ho; [|done]. intros [(? & [= <-] & _ & Hcl) _]; [done|].
      unfold is_open, is_closed in *. lia.
    - assert (Hn : String c id ∉ open) by (rewrite <- any_block; congruence).
      split; [|by apply block_started]. split; [|intros []; done]. intros _. eexists. split; [done|]. split; [done|].
      by apply (blocks_inv_closed past open). }
  destruct (continues e) eqn:Hc; [rewrite (Hk2 eq_refl)|].
  { destruct (event_block e) as [id|] eqn:Hid; [|naive_solver]. unfold continue_block.
    destruct (existsb _ open) eqn:Ho.
    - apply any_block in Ho. split; [|by apply block_untouched; [| |apply Hk2]]. split; [done|]. intros _.
      exists id. split; [done|]. by apply (blocks_inv_elem past open).
    - assert (Hn : id ∉ open) by (rewrite <- any_block; congruence). intros [_ Hf].
      destruct Hf as (? & [= <-] & Hop); [by left|]. by apply (blocks_inv_elem past open) in Hop. }
  destruct (ends e) eqn:He.
  { destruct (event_block e) as [id|] eqn:Hid; [|naive_solver]. unfold end_block.
    destruct (position _ open) as [i|] eqn:Hp.
    - apply position_some in Hp as (o & Hi & ->%bool_decide_eq_true). split; [|by eapply block_ended].
      split; [done|]. intros _. exists id. split; [done|]. apply (blocks_inv_elem past open); [done|].
      by eapply list_elem_of_lookup_2.
    - apply position_none in Hp. intros [_ Hf]. destruct Hf as (? & [= <-] & Hop); [by right|].
      apply (blocks_inv_elem past open) in Hop; [|done]. rewrite Forall_forall in Hp.
      apply Hp in Hop. by rewrite bool_decide_eq_true_2 in Hop. }
  split; [naive_solver|]. by apply block_untouched.
Qed.

(** The state of the validator after the events [past]. *)
Record validator_inv (past : list StreamEvent) (v : StreamValidator) : Prop := {
  inv_sequence : sv_last_sequence v = ev_sequence <$> last past;
  inv_increasing : forall s, sv_last_sequence v = Some s -> Forall (fun p => ev_sequence p <= s) past;
  inv_started : sv_response_started v = existsb (fun p => is_response_start (ev_kind p)) past;
  inv_terminal : sv_terminal v = existsb (fun p => event_is_terminal (ev_kind p)) past;
  inv_blocks : blocks_inv past (sv_open_blocks v);
}.

Lemma existsb_false {A} (p : A -> bool) l : existsb p l = false <-> Forall (fun x => p x = false) l.
Proof.
  induction l as [|x l IH]; simpl; [by split; [constructor|]|].
  rewrite orb_false_iff, Forall_cons, IH. done.
Qed.

Lemma sequence_follows past v e :
  validator_inv past v ->
  Forall (fun p => ev_sequence p < ev_sequence e) past <->
  opt_filter (sv_last_sequence v) (fun previous => ev_sequence e <=? previous) = None.
Proof.
  intros Hv. destruct (sv_last_sequence v) as [s|] eqn:Es; simpl.
  - pose proof (inv_increasing _ _ Hv s Es) as Hle. pose proof (inv_sequence _ _ Hv) as Hl. rewrite Es in Hl.
    symmetry in Hl. apply fmap_Some in Hl as (q & Hq & ->).
    apply last_Some_elem_of in Hq.
    destruct (N.leb_spec (ev_sequence e) (ev_sequence q)) as [Hge|Hlt]; split; try done.
    + intros Hf. rewrite Forall_forall in Hf. specialize (Hf q Hq). lia.
    + intros _. eapply Forall_impl; [done|]. intros p Hp. simpl in *. lia.
  - split; [done|]. intros _. pose proof (inv_sequence _ _ Hv) as Hl. rewrite Es in Hl.
    symmetry in Hl. apply fmap_None, last_None in Hl as ->. constructor.
Qed.

Lemma accept_spec past v e :
  validator_inv past v ->
  match accept v e with
  | (Ok _, v') => may_follow past e /\ validator_inv (past ++ [e]) v'
  | (Err _, v') => v' = v /\ ~ may_follow past e
  end.
Proof.
  intros Hv. pose proof (sequence_follows past v e Hv) as Hseq.
  pose proof (blocks_after_spec past (sv_open_blocks v) e (inv_blocks _ _ Hv)) as Hb.
  unfold accept. change (match block_action (ev_kind e) with Some action => _ | None => _ end)
    with (blocks_after (sv_open_blocks v) e).
  destruct (sv_terminal v) eqn:Et.
  { split; [done|]. intros (_ & Hf & _). apply existsb_false in Hf. rewrite <- (inv_terminal _ _ Hv) in Hf. congruence. }
  destruct (opt_filter _ _) eqn:Eo.
  { split; [done|]. intros (Hf & _). by apply Hseq in Hf. }
  destruct (is_response_start (ev_kind e) && sv_response_started v) eqn:Er.
  { apply andb_true_iff in Er as [Er1 Er2]. split; [done|]. intros (_ & _ & Hf & _). specialize (Hf Er1).
    apply existsb_false in Hf. rewrite <- (inv_started _ _ Hv) in Hf. congruence. }
  destruct (blocks_after (sv_open_blocks v) e) as [open|error].
  2: { split; [done|]. intros (_ & _ & _ & Hf). by apply Hb. }
  destruct Hb as [Hb1 Hb2]. assert (Hlt : Forall (fun p => ev_sequence p < ev_sequence e) past) by by apply Hseq.
  pose proof (inv_started _ _ Hv) as Hst. pose proof (inv_terminal _ _ Hv) as Hte. rewrite Et in Hte.
  split.
  - split; [done|]. split; [by apply existsb_false|]. split; [|done]. intros Hr. rewrite Hr in Er. simpl in Er.
    apply existsb_false. by rewrite <- Hst.
  - split; simpl.
    + by rewrite last_snoc.
    + intros s [= <-]. apply Forall_app. split; [|by repeat constructor].
      eapply Forall_impl; [exact Hlt|]. simpl. lia.
    + by rewrite existsb_app, Hst; simpl; rewrite orb_false_r.
    + by rewrite existsb_app, <- Hte; simpl; rewrite orb_false_r.
    + done.
Qed.

(** * Whole streams *)

Lemma stream_ok_snoc past e : stream_ok (past ++ [e]) <-> stream_ok past /\ may_follow past e.
Proof.
  split.
  - intros Hok. split; [|by apply (Hok past e [])].
    intros p x f ->. apply (Hok p x (f ++ [e])). by rewrite <- app_assoc.
  - intros [Hok Hm] p x f. destruct f as [|y f _] using rev_ind.
    + by intros [-> <-]%app_inj_tail.
    + rewrite app_comm_cons, app_assoc. intros [-> _]%app_inj_tail. by apply (Hok p x f).
Qed.

Lemma validator_default_inv : validator_inv [] validator_default.
Proof. split; try done. split; [constructor|]. split; [set_solver|]. done. Qed.

Lemma accept_all_snoc v events e :
  accept_all v (events ++ [e]) =
    match accept_all v events with
    | Ok w => match accept w e with (Ok _, w') => Ok w' | (Err error, _) => Err error end
    | Err error => Err error
    end.
Proof.
  revert v. induction events as [|x events IH]; intros v; simpl.
  - by destruct (accept v e) as [[]].
  - destruct (accept v x) as [[]]; [apply IH|done].
Qed.

Lemma accept_all_spec events :
  match accept_all validator_default events with
  | Ok v => stream_ok events /\ validator_inv events v
  | Err _ => ~ stream_ok events
  end.
Proof.
  induction events as [|e events IH] using rev_ind.
  { split; [|apply validator_default_inv]. by intros [|??] ???. }
  rewrite accept_all_snoc. destruct (accept_all validator_default events) as [v|error].
  - destruct IH as [Hok Hv]. pose proof (accept_spec events v e Hv) as Ha.
    destruct (accept v e) as [[]]; rewrite stream_ok_snoc; naive_solver.
  - rewrite stream_ok_snoc. naive_solver.
Qed.

(** [C23] The validator accepts a stream exactly when it is well formed: the
    sequence numbers increase strictly, the response starts at most once, nothing
    follows a completion or a failure, every block is started under a non-empty
    identifier that is not open, and deltas and ends refer to open blocks.  Its
    state then tells the truth: the last sequence number, whether the response
    started or ended, and, without repetition, exactly the blocks that were
    started once more than they were ended.  A refused event leaves the state as
    it was. *)
Theorem stream_validator_correct :
  (forall events, match accept_all validator_default events with
     | Ok v => stream_ok events /\
         sv_last_sequence v = ev_sequence <$> last events /\
         sv_response_started v = existsb (fun p => is_response_start (ev_kind p)) events /\
         sv_terminal v = existsb (fun p => event_is_terminal (ev_kind p)) events /\
         NoDup (sv_open_blocks v) /\
         (forall id, id ∈ sv_open_blocks v <-> is_open id events) /\
         (is_drained v = true <-> forall id, is_closed id events)
     | Err _ => ~ stream_ok events
     end) /\
  (forall v e error v', accept v e = (Err error, v') -> v' = v).
Proof.
  split.
  - intros events. pose proof (accept_all_spec events) as Hs.
    destruct (accept_all validator_default events) as [v|]; [|done]. destruct Hs as [Hok [H1 _ H3 H4 Hb]].
    split; [done|]. split; [done|]. split; [done|]. split; [done|]. split; [apply Hb|].
    split; [intros id; by apply blocks_inv_elem|]. unfold is_drained. split.
    + intros Hd id. apply (blocks_inv_closed _ _ _ Hb). destruct (sv_open_blocks v); [set_solver|done].
    + intros Hc. destruct (sv_open_blocks v) as [|id l] eqn:E; [done|].
      specialize (Hc id). apply (blocks_inv_closed _ _ _ Hb) in Hc. set_solver.
  - intros v e error v'. unfold accept. repeat case_match; congruence.
Qed.

(** A tool event's own invocation identifier decides, also when the envelope
    carries another block identifier, which is the one [effective_block_id] gives. *)
Lemma tool_block_ignores_envelope :
  let e := with_block_id (event_new 1 (ToolCallStart "call" "search")) "block" in
  effective_block_id e = Some "block"%string /\
  accept validator_default e = (Ok tt, MkStreamValidator (Some 1) false false ["call"%string]).
Proof. done. Qed.

(** * What the decoders' proofs use *)

(** The tool calls that are started. *)
Definition started_tool (k : StreamEventKind) : list string := match k with ToolCallStart id _ => [id] | _ => [] end.
Definition tool_ids (events : list StreamEvent) : list string := concat (map (fun e => started_tool (ev_kind e)) events).

(** An event that is accepted. *)
Lemma accept_ok v e open :
  sv_terminal v = false -> (forall p, sv_last_sequence v = Some p -> p < ev_sequence e) ->
  (is_response_start (ev_kind e) = true -> sv_response_started v = false) ->
  match block_action (ev_kind e) with
  | Some a => apply_action (sv_open_blocks v) e a
  | None => Ok (sv_open_blocks v)
  end = Ok open ->
  accept v e = (Ok tt, MkStreamValidator (Some (ev_sequence e)) (sv_response_started v || is_response_start (ev_kind e))
                         (event_is_terminal (ev_kind e)) open).
Proof.
  intros Ht Hq Hs Ho. unfold accept. rewrite Ht. replace (opt_filter _ _) with (@None N).
  - destruct (is_response_start (ev_kind e)) eqn:Er; simpl; [rewrite Hs by done; simpl|]; by rewrite Ho.
  - destruct (sv_last_sequence v) as [p|]; [|done]. simpl. specialize (Hq p eq_refl). by destruct (N.leb_spec (ev_sequence e) p); [lia|].
Qed.

Lemma start_block_fresh open id : str_is_empty id = false -> id ∉ open -> start_block open id = Ok (open ++ [id]).
Proof.
  intros He Hn. unfold start_block. rewrite He. destruct (existsb _ _) eqn:Ex; [|done]. by apply any_block in Ex.
Qed.
Lemma continue_block_open open id : id ∈ open -> continue_block open id = Ok open.
Proof. intros Hi. unfold continue_block. by rewrite (proj2 (any_block open id) Hi). Qed.
Lemma end_block_open open id : id ∈ open -> exists x, open !! x = Some id /\ end_block open id = Ok (delete x open).
Proof.
  intros Hi. unfold end_block. destruct (position _ _) as [x|] eqn:Ex.
  - apply position_some in Ex as (o & Ho & ->%bool_decide_eq_true). eauto.
  - apply position_none in Ex. rewrite Forall_forall in Ex. specialize (Ex id Hi). by rewrite bool_decide_eq_false in Ex.
Qed.

Lemma accept_all_app v es fs :
  accept_all v (es ++ fs) = let? v' := accept_all v es in accept_all v' fs.
Proof. revert v. induction es as [|e es IH]; intros v; [done|]. simpl. destruct (accept v e) as [[[]|] v']; [apply IH|done]. Qed.

Lemma accept_terminal v e v' : sv_terminal v = false -> accept v e = (Ok tt, v') -> sv_terminal v' = event_is_terminal (ev_kind e).
Proof.
  intros Hv. unfold accept. rewrite Hv. destruct (opt_filter _ _); [done|]. destruct (_ && _); [done|].
  destruct (match block_action (ev_kind e) with Some _ => _ | None => _ end); [|done]. by intros [= <-].
Qed.
