(* ===== verification/Body.v ===== *)
(** Bounded bodies (crates/pooler-http/src/body.rs): the streaming wrappers that
    limit a whole body and a single frame, and the collector.

    A body is the sequence of what successive polls of it give; past its end it
    stays at the end. *)
From S2P Require Import Prelude Str Bytes.

Open Scope N_scope.

(** * Bodies *)

(** [http_body::Frame]: data, trailers, or neither. *)
Inductive Frame :=
| DataFrame (data : bytes)
| TrailersFrame (trailers : list (string * bytes))
| OtherFrame.

(** [Poll<Option<Result<Frame, E>>>]. *)
Inductive FramePoll (E : Type) :=
| Pending
| EndOfBody
| FrameError (e : E)
| FrameReady (f : Frame).
Arguments Pending {E}.
Arguments EndOfBody {E}.
Arguments FrameError {E} e.
Arguments FrameReady {E} f.

Inductive BodyLimitError (E : Type) :=
| TooLarge (limit observed : N)
| Upstream (e : E)
| InvalidFrame.
Arguments TooLarge {E} limit observed.
Arguments Upstream {E} e.
Arguments InvalidFrame {E}.

Section bodies.
Context {E : Type}.

Abbreviation Body := (list (FramePoll E)).

Definition poll_inner (b : Body) : FramePoll E * Body :=
  match b with [] => (EndOfBody, []) | p :: b => (p, b) end.

(** * Limiting a whole body *)

Record LimitedBody := MkLimitedBody { lb_inner : Body; lb_limit : N; lb_seen : N; lb_exceeded : bool }.

Definition limited_new (inner : Body) (limit : N) : LimitedBody := MkLimitedBody inner limit 0 false.

Definition limited_poll_frame (b : LimitedBody) : FramePoll (BodyLimitError E) * LimitedBody :=
  if lb_exceeded b then (FrameError (TooLarge (lb_limit b) (lb_seen b)), b)
  else
    let '(polled, inner) := poll_inner (lb_inner b) in
    let next := MkLimitedBody inner (lb_limit b) (lb_seen b) false in
    match polled with
    | Pending => (Pending, next)
    | EndOfBody => (EndOfBody, next)
    | FrameError e => (FrameError (Upstream e), next)
    | FrameReady (DataFrame data) =>
      let observed := sat_add USIZE_MAX (lb_seen b) (blen data) in
      if sat_sub (lb_limit b) (lb_seen b) <? blen data
      then (FrameError (TooLarge (lb_limit b) observed), MkLimitedBody inner (lb_limit b) observed true)
      else (FrameReady (DataFrame data), MkLimitedBody inner (lb_limit b) observed false)
    | FrameReady (TrailersFrame t) => (FrameReady (TrailersFrame t), next)
    | FrameReady OtherFrame => (FrameError InvalidFrame, next)
    end.

(** [size_hint]: the upper bound, from the inner body's. *)
Definition limited_size_upper (b : LimitedBody) (inner_upper : option N) : N :=
  let remaining := sat_sub (lb_limit b) (lb_seen b) in
  match inner_upper with Some upper => N.min upper remaining | None => remaining end.

(** What [n] polls give. *)
Fixpoint limited_run (n : nat) (b : LimitedBody) : list (FramePoll (BodyLimitError E)) :=
  match n with
  | O => []
  | S n => let '(p, b') := limited_poll_frame b in p :: limited_run n b'
  end.

(** * Limiting each frame *)

Record FrameLimitedBody := MkFrameLimitedBody { fb_inner : Body; fb_limit : N }.

Definition frame_limited_poll (b : FrameLimitedBody) : FramePoll (BodyLimitError E) * FrameLimitedBody :=
  let '(polled, inner) := poll_inner (fb_inner b) in
  let next := MkFrameLimitedBody inner (fb_limit b) in
  let out := match polled with
    | Pending => Pending
    | EndOfBody => EndOfBody
    | FrameError e => FrameError (Upstream e)
    | FrameReady (DataFrame data) =>
      if fb_limit b <? blen data then FrameError (TooLarge (fb_limit b) (blen data))
      else FrameReady (DataFrame data)
    | FrameReady (TrailersFrame t) => FrameReady (TrailersFrame t)
    | FrameReady OtherFrame => FrameError InvalidFrame
    end in
  (out, next).

Fixpoint frame_limited_run (n : nat) (b : FrameLimitedBody) : list (FramePoll (BodyLimitError E)) :=
  match n with
  | O => []
  | S n => let '(p, b') := frame_limited_poll b in p :: frame_limited_run n b'
  end.

(** * Collecting a body *)

(** The loop of [collect_body_limited]; awaiting passes over [Pending]. *)
Fixpoint collect_loop (b : Body) (limit : N) (output : bytes) : Result bytes (BodyLimitError E) :=
  match b with
  | [] | EndOfBody :: _ => Ok output
  | Pending :: b => collect_loop b limit output
  | FrameError e :: _ => Err (Upstream e)
  | FrameReady (DataFrame data) :: b =>
    let observed := sat_add USIZE_MAX (blen output) (blen data) in
    if sat_sub limit (blen output) <? blen data then Err (TooLarge limit observed)
    else collect_loop b limit (output ++ data)
  | FrameReady (TrailersFrame _) :: b => collect_loop b limit output
  | FrameReady OtherFrame :: _ => Err InvalidFrame
  end.

(** [lower] is the lower bound of the body's size hint. *)
Definition collect_body_limited (b : Body) (lower limit : N) : Result bytes (BodyLimitError E) :=
  if limit <? lower then Err (TooLarge limit (N.min lower USIZE_MAX))
  else collect_loop b limit [].

(** * What the limits promise *)

Definition poll_data {F} (p : FramePoll F) : bytes :=
  match p with FrameReady (DataFrame d) => d | _ => [] end.
Definition total {F} (l : list (FramePoll F)) : N := blen (concat (map poll_data l)).

(** A poll handed on without a limit. *)
Definition pass (p : FramePoll E) : FramePoll (BodyLimitError E) :=
  match p with
  | Pending => Pending
  | EndOfBody => EndOfBody
  | FrameError e => FrameError (Upstream e)
  | FrameReady OtherFrame => FrameError InvalidFrame
  | FrameReady f => FrameReady f
  end.

(** The first [n] polls of a body. *)
Definition polls (n : nat) (b : Body) : Body := take n b ++ replicate (n - length b) EndOfBody.

Lemma polls_S n b : polls (S n) b = (poll_inner b).1 :: polls n (poll_inner b).2.
Proof.
  unfold polls. destruct b as [|p b]; simpl; [|done]. rewrite take_nil, Nat.sub_0_r. done.
Qed.

Lemma total_cons {F} (p : FramePoll F) l : total (p :: l) = blen (poll_data p) + total l.
Proof. unfold total. simpl. apply blen_app. Qed.

Lemma limited_poll_pass inner limit seen :
  limit <= USIZE_MAX -> seen + blen (poll_data (poll_inner inner).1) <= limit ->
  limited_poll_frame (MkLimitedBody inner limit seen false) =
    (pass (poll_inner inner).1,
     MkLimitedBody (poll_inner inner).2 limit (seen + blen (poll_data (poll_inner inner).1)) false).
Proof.
  intros Hmax. unfold limited_poll_frame. simpl. destruct (poll_inner inner) as [p rest]. simpl.
  destruct p as [| |e|[d|t|]]; simpl; intros Hle; rewrite ?N.add_0_r; try done.
  destruct (N.ltb_spec (sat_sub limit seen) (blen d)) as [Hlt|Hge]; unfold sat_sub, sat_add in *; [lia|].
  by rewrite N.min_r by lia.
Qed.

Lemma limited_poll_over inner limit seen :
  seen <= limit -> limit < seen + blen (poll_data (poll_inner inner).1) ->
  let observed := N.min USIZE_MAX (seen + blen (poll_data (poll_inner inner).1)) in
  limited_poll_frame (MkLimitedBody inner limit seen false) =
    (FrameError (TooLarge limit observed), MkLimitedBody (poll_inner inner).2 limit observed true).
Proof.
  unfold limited_poll_frame. simpl. destruct (poll_inner inner) as [p rest]. simpl.
  intros Hs Hlt. destruct p as [| |e|[d|t|]]; simpl in *; unfold blen at 1 in Hlt; simpl in Hlt; try lia.
  destruct (N.ltb_spec (sat_sub limit seen) (blen d)) as [_|Hge]; [done|].
  unfold sat_sub, blen in *. lia.
Qed.

Lemma limited_run_exceeded n inner limit seen :
  limited_run n (MkLimitedBody inner limit seen true) = replicate n (FrameError (TooLarge limit seen)).
Proof. induction n as [|n IH]; simpl; [done|]. by rewrite IH. Qed.

Lemma limited_run_under n inner limit seen :
  limit <= USIZE_MAX -> seen + total (polls n inner) <= limit ->
  limited_run n (MkLimitedBody inner limit seen false) = map pass (polls n inner).
Proof.
  intros Hmax. revert inner seen. induction n as [|n IH]; intros inner seen Ht; [done|].
  rewrite polls_S, total_cons in Ht. rewrite polls_S. cbn [limited_run].
  rewrite limited_poll_pass by lia. simpl. f_equal. apply IH. lia.
Qed.

Lemma limited_run_over n inner limit seen :
  limit <= USIZE_MAX -> seen <= limit -> limit < seen + total (polls n inner) ->
  exists k, (k < n)%nat /\ seen + total (polls k inner) <= limit < seen + total (polls (S k) inner) /\
    limited_run n (MkLimitedBody inner limit seen false) =
      map pass (polls k inner) ++
      replicate (n - k) (FrameError (TooLarge limit (N.min USIZE_MAX (seen + total (polls (S k) inner))))).
Proof.
  intros Hmax. revert inner seen. induction n as [|n IH]; intros inner seen Hs Ht.
  { unfold total in Ht. simpl in Ht. unfold blen in Ht. simpl in Ht. lia. }
  rewrite polls_S, total_cons in Ht. set (d := blen (poll_data (poll_inner inner).1)) in *.
  destruct (N.le_gt_cases (seen + d) limit) as [Hle|Hgt].
  - destruct (IH (poll_inner inner).2 (seen + d)) as (k & Hk & Hb & Hrun); [done|lia|].
    exists (S k). split; [lia|]. rewrite (polls_S (S k)), (polls_S k inner), !total_cons. fold d.
    split; [lia|]. cbn [limited_run]. rewrite limited_poll_pass by done. fold d.
    rewrite Hrun, (polls_S k). simpl. by rewrite N.add_assoc.
  - exists 0%nat. rewrite polls_S, total_cons. fold d. assert (Hz : total (polls 0 inner) = 0) by done.
    assert (Hz' : forall b : Body, total (polls 0 b) = 0) by done. rewrite Hz, Hz', !N.add_0_r.
    split; [lia|]. split; [lia|]. cbn [limited_run].
    rewrite (limited_poll_over inner limit seen Hs) by (fold d; lia). fold d.
    rewrite limited_run_exceeded, Nat.sub_0_r. done.
Qed.

Lemma total_app {F} (l k : list (FramePoll F)) : total (l ++ k) = total l + total k.
Proof. unfold total. rewrite map_app, concat_app. apply blen_app. Qed.

Lemma total_errors {F} n (e : F) : total (replicate n (FrameError e)) = 0.
Proof. induction n as [|n IH]; [done|]. simpl. by rewrite total_cons, IH. Qed.

Lemma total_pass l : total (map pass l) = total l.
Proof.
  unfold total. f_equal. rewrite map_map. f_equal. apply map_ext. by intros [| | |[]].
Qed.

(** A body limit is exact.  However often a limited body is polled, it hands
    on at most the limit in data bytes; as long as the body itself stays within
    the limit the wrapper is invisible; and once the body goes over, everything up
    to the frame that crosses the limit has been handed on unchanged, and every
    poll from that one on reports the limit and how much was seen. *)
Theorem limited_body_correct n inner limit :
  limit <= USIZE_MAX ->
  let outs := limited_run n (limited_new inner limit) in
  total outs <= limit /\
  (total (polls n inner) <= limit -> outs = map pass (polls n inner)) /\
  (limit < total (polls n inner) ->
   exists k, (k < n)%nat /\ total (polls k inner) <= limit < total (polls (S k) inner) /\
     outs = map pass (polls k inner) ++
       replicate (n - k) (FrameError (TooLarge limit (N.min USIZE_MAX (total (polls (S k) inner)))))).
Proof.
  intros Hmax. unfold limited_new. simpl.
  assert (Hover : limit < total (polls n inner) -> _) by exact (limited_run_over n inner limit 0 Hmax (N.le_0_l _)).
  pose proof (limited_run_under n inner limit 0 Hmax) as Hunder. rewrite N.add_0_l in Hunder.
  split; [|done]. destruct (N.le_gt_cases (total (polls n inner)) limit) as [Hle|Hgt].
  - by rewrite Hunder, total_pass.
  - destruct (Hover Hgt) as (k & _ & Hb & ->). rewrite total_app, total_pass, total_errors. lia.
Qed.

(** The forwarded frames of a frame limit. *)
Lemma frame_limited_run_spec n inner limit :
  frame_limited_run n (MkFrameLimitedBody inner limit) =
    map (fun p => if limit <? blen (poll_data p) then FrameError (TooLarge limit (blen (poll_data p))) else pass p)
      (polls n inner).
Proof.
  revert inner. induction n as [|n IH]; intros inner; [done|]. rewrite polls_S. cbn [frame_limited_run map].
  unfold frame_limited_poll at 1. simpl. destruct (poll_inner inner) as [p rest]. simpl. rewrite IH. f_equal.
  assert (Hz : forall d : bytes, d = [] -> (limit <? blen d) = false)
    by (intros d ->; apply N.ltb_ge; apply N.le_0_l).
  destruct p as [| |e|[d|t|]]; simpl; rewrite ?(Hz []); done.
Qed.

(** Reading a limited body to its end: its first error, or its data. *)
Fixpoint collect_polls {F} (l : list (FramePoll F)) (output : bytes) : Result bytes F :=
  match l with
  | [] | EndOfBody :: _ => Ok output
  | FrameError e :: _ => Err e
  | p :: l => collect_polls l (output ++ poll_data p)
  end.

Lemma collect_loop_limited b limit output :
  limit <= USIZE_MAX -> blen output <= limit ->
  collect_loop b limit output =
  collect_polls (limited_run (length b) (MkLimitedBody b limit (blen output) false)) output.
Proof.
  intros Hmax. revert output. induction b as [|p b IH]; intros output Hout; [done|].
  cbn [length limited_run collect_loop]. unfold limited_poll_frame. simpl.
  destruct p as [| |e|[d|t|]]; simpl; rewrite ?app_nil_r; try done; try by apply IH.
  destruct (N.ltb_spec (sat_sub limit (blen output)) (blen d)) as [|Hge]; [done|]. simpl.
  unfold sat_sub, sat_add in *. rewrite N.min_r by lia. rewrite <- blen_app. apply IH. rewrite blen_app. lia.
Qed.

Lemma collect_loop_ok b limit output out :
  blen output <= limit -> collect_loop b limit output = Ok out -> blen out <= limit.
Proof.
  revert output. induction b as [|p b IH]; intros output Hle; simpl; [by intros [= <-]|].
  destruct p as [| |e|[d|t|]]; try done; [by apply IH|by intros [= <-]| |by apply IH].
  destruct (N.ltb_spec (sat_sub limit (blen output)) (blen d)) as [|Hge]; [done|]. apply IH.
  rewrite blen_app. unfold sat_sub in Hge. lia.
Qed.

(** Collecting a body under a limit is reading the streaming wrapper to its
    end: the same bytes, or the same first error.  A body whose size hint already
    exceeds the limit is refused unread, and what is collected never exceeds the
    limit. *)
Theorem collect_body_equivalent b lower limit :
  limit <= USIZE_MAX ->
  collect_body_limited b lower limit =
    (if limit <? lower then Err (TooLarge limit (N.min lower USIZE_MAX))
     else collect_polls (limited_run (length b) (limited_new b limit)) []) /\
  (forall out, collect_body_limited b lower limit = Ok out -> blen out <= limit).
Proof.
  intros Hmax. unfold collect_body_limited. destruct (limit <? lower); [done|]. split.
  - by apply collect_loop_limited; [|apply N.le_0_l].
  - intros out. apply collect_loop_ok. apply N.le_0_l.
Qed.
End bodies.

Lemma limited_body_correct_witness :
  let body := [FrameReady (DataFrame [1; 2]); Pending; FrameReady (DataFrame [3; 4]); FrameReady (DataFrame [5])] in
  total (limited_run (E := unit) 6 (limited_new body 3)) <= 3 /\
  limited_run (E := unit) 4 (limited_new body 3) =
    [FrameReady (DataFrame [1; 2]); Pending; FrameError (TooLarge 3 4); FrameError (TooLarge 3 4)].
Proof. split; [|reflexivity]. by apply limited_body_correct. Defined.

Lemma collect_body_equivalent_witness :
  collect_body_limited (E := unit) [FrameReady (DataFrame [1; 2]); Pending; FrameReady (TrailersFrame [])] 0 3
  = collect_polls (limited_run 3 (limited_new [FrameReady (DataFrame [1; 2]); Pending; FrameReady (TrailersFrame [])] 3)) [].
Proof. refine (proj1 (collect_body_equivalent (E := unit) _ 0 3 _)). by vm_compute. Defined.
