(* ===== verification/Store.v ===== *)
(** The bounded in-memory store of mutable state (crates/pooler-store/src/lib.rs,
    usage.rs): its records and their validation, and the operations of
    [MemoryStore] on the state behind its lock.  Callers supply the time. *)
From S2P Require Import Prelude Str Bytes.

Open Scope N_scope.

(** Milliseconds since the epoch. *)
Abbreviation Timestamp := N.

(** * Errors *)

Inductive StoreError :=
| EmptyField (field : string)
| InvalidRetention
| CredentialNotFound (id : string)
| DecisionIdExhausted
| RequestEventIdExhausted
| UsageRecordIdExhausted
| InvalidPath (m : string)
| UnsafePath (m : string)
| StoreIo (m : string)
| StoreSqlite (m : string)
| StoreSerialization (m : string)
| MasterKeyReferenceRejected
| MasterKeyUnavailable
| EmptyMasterKey
| EmptyCredentialPayload
| EncryptionRequired
| InvalidCredentialEnvelope
| UnsupportedCredentialEnvelopeVersion (v : N)
| UnsupportedCredentialEnvelopeAlgorithm
| WrongMasterKey
| CredentialEnvelopeAuthenticationFailed
| EncryptionFailed
| CredentialRevisionConflict
| CredentialFingerprintConflict
| InvalidCredentialFingerprint
| InvalidAffinityBinding
| OwnerMismatch
| RecordExpired
| ManagementRevisionConflict
| ManagementCapacity
| ManagementSessionAlreadyExists
| OAuthFlowAlreadyExists
| OAuthFlowNotFound
| OAuthStateConflict
| ManagedSecretNotFound
| ManagedSecretRevisionConflict
| ManagedSecretEncryptionRequired
| UnsupportedSchemaVersion (v : Z)
| Migration (version : Z) (m : string)
| LockPoisoned.

Abbreviation StoreResult A := (Result A StoreError).

Definition non_empty (field value : string) : StoreResult unit :=
  if str_is_empty value then Err (EmptyField field) else Ok tt.

(** [u64::checked_add]. *)
Definition checked_add_u64 (a b : N) : option N := if a + b <=? U64_MAX then Some (a + b) else None.

(** * Retention *)

Record RetentionPolicy := MkRetention {
  max_credentials : N; max_affinities : N; max_decisions : N;
  max_request_events : N; request_history_ttl_ms : N;
  max_usage_records : N; usage_history_ttl_ms : N;
  max_managed_secrets : N; max_management_sessions : N; max_drafts : N; max_audit_records : N;
  max_reload_records : N; max_oauth_flows : N; control_history_ttl_ms : N;
}.

Definition DAY_MS : N := 24 * 60 * 60 * 1000.

Definition retention_new (credentials affinities decisions : N) : StoreResult RetentionPolicy :=
  if (credentials =? 0) || (affinities =? 0) || (decisions =? 0) then Err InvalidRetention
  else Ok (MkRetention credentials affinities decisions 4096 (7 * DAY_MS) 16384 (90 * DAY_MS)
             1024 1024 1024 16384 4096 1024 (30 * DAY_MS)).
Definition with_request_history (p : RetentionPolicy) (events ttl : N) : StoreResult RetentionPolicy :=
  if (events =? 0) || (ttl =? 0) then Err InvalidRetention
  else Ok (MkRetention (max_credentials p) (max_affinities p) (max_decisions p) events ttl
             (max_usage_records p) (usage_history_ttl_ms p) (max_managed_secrets p)
             (max_management_sessions p) (max_drafts p) (max_audit_records p) (max_reload_records p)
             (max_oauth_flows p) (control_history_ttl_ms p)).
Definition with_usage_history (p : RetentionPolicy) (records ttl : N) : StoreResult RetentionPolicy :=
  if (records =? 0) || (ttl =? 0) then Err InvalidRetention
  else Ok (MkRetention (max_credentials p) (max_affinities p) (max_decisions p) (max_request_events p)
             (request_history_ttl_ms p) records ttl (max_managed_secrets p)
             (max_management_sessions p) (max_drafts p) (max_audit_records p) (max_reload_records p)
             (max_oauth_flows p) (control_history_ttl_ms p)).
Definition with_control_plane_history (p : RetentionPolicy) (secrets sessions drafts audit reload flows ttl : N)
  : StoreResult RetentionPolicy :=
  if (secrets =? 0) || (sessions =? 0) || (drafts =? 0) || (audit =? 0) || (reload =? 0) || (flows =? 0)
     || (ttl =? 0)
  then Err InvalidRetention
  else Ok (MkRetention (max_credentials p) (max_affinities p) (max_decisions p) (max_request_events p)
             (request_history_ttl_ms p) (max_usage_records p) (usage_history_ttl_ms p)
             secrets sessions drafts audit reload flows ttl).
Definition retention_default : RetentionPolicy :=
  MkRetention 1024 4096 4096 4096 (7 * DAY_MS) 16384 (90 * DAY_MS) 1024 1024 1024 16384 4096 1024 (30 * DAY_MS).

Definition MAX_REQUEST_EVENTS_PER_REQUEST : N := 64.

(** * Credentials *)

Definition is_hex_digest (value : string) : bool :=
  (str_len value =? 64) && forallb char_is_ascii_hexdigit (bytes_of value).

Definition validate_fingerprint (value : string) : StoreResult unit :=
  if str_is_empty value then Ok tt
  else if negb (is_hex_digest value) then Err InvalidCredentialFingerprint
  else Ok tt.

Record CredentialState := MkCredentialState {
  cs_credential_id : string; cs_provider_id : string; cs_fingerprint : string; cs_enabled : bool;
  cs_updated_at : Timestamp; cs_revision : N;
}.

#[export] Instance CredentialState_eq_dec : EqDecision CredentialState.
Proof. solve_decision. Defined.

Record CredentialConfigurationIdentity := MkIdentity {
  ci_credential_id : string; ci_provider_id : string; ci_fingerprint : string;
}.
Definition identity_new (credential provider fingerprint : string)
  : StoreResult CredentialConfigurationIdentity :=
  let? _ := non_empty "credential_id" credential in
  let? _ := non_empty "provider_id" provider in
  let? _ := validate_fingerprint fingerprint in
  Ok (MkIdentity credential provider fingerprint).
Definition identity_matches (i : CredentialConfigurationIdentity) (s : CredentialState) : bool :=
  beq (ci_credential_id i) (cs_credential_id s) && beq (ci_provider_id i) (cs_provider_id s)
  && beq (ci_fingerprint i) (cs_fingerprint s).

Record CredentialFingerprintRetirement := MkRetirement {
  rt_credential_id : string; rt_provider_id : string; rt_expected : string; rt_replacement : string;
}.
Definition retirement_new (credential provider expected replacement : string)
  : StoreResult CredentialFingerprintRetirement :=
  let? _ := non_empty "credential_id" credential in
  let? _ := non_empty "provider_id" provider in
  let? _ := validate_fingerprint expected in
  let? _ := validate_fingerprint replacement in
  if str_is_empty replacement || beq expected replacement then Err InvalidCredentialFingerprint
  else Ok (MkRetirement credential provider expected replacement).

Record CredentialConfigurationActivation := MkActivation {
  ac_expected : option CredentialState; ac_desired : CredentialState;
  ac_retirement : option CredentialFingerprintRetirement;
}.
Definition activation_new (expected : option CredentialState) (desired : CredentialState)
    (retirement : option CredentialFingerprintRetirement) : StoreResult CredentialConfigurationActivation :=
  let? _ := non_empty "credential_id" (cs_credential_id desired) in
  let? _ := non_empty "provider_id" (cs_provider_id desired) in
  let? _ := validate_fingerprint (cs_fingerprint desired) in
  if str_is_empty (cs_fingerprint desired) then Err InvalidCredentialFingerprint
  else if is_some_and expected (fun s => negb (beq (cs_credential_id s) (cs_credential_id desired)))
  then Err CredentialFingerprintConflict
  else if is_some_and retirement (fun r =>
            negb (beq (rt_credential_id r) (cs_credential_id desired))
            || negb (beq (rt_provider_id r) (cs_provider_id desired))
            || negb (beq (rt_replacement r) (cs_fingerprint desired)))
  then Err CredentialFingerprintConflict
  else Ok (MkActivation expected desired retirement).

Record ActivatedCredentialState := MkActivated { av_state : CredentialState; av_health_disabled : bool }.
Definition effectively_enabled (a : ActivatedCredentialState) : bool :=
  cs_enabled (av_state a) && negb (av_health_disabled a).

Inductive ConditionalCredentialMutation :=
| Applied (s : CredentialState)
| Stale (current : CredentialState) (payload_present : option bool) (payload_generation : option N)
| Missing.

Inductive CredentialHealthStatus := StoreHealthy | StoreCoolingDown | StoreDisabled.
#[export] Instance CredentialHealthStatus_eq_dec : EqDecision CredentialHealthStatus.
Proof. solve_decision. Defined.

Definition health_status_as_str (s : CredentialHealthStatus) : string :=
  match s with StoreHealthy => "healthy" | StoreCoolingDown => "cooling_down" | StoreDisabled => "disabled" end.
Definition health_status_parse (value : string) : option CredentialHealthStatus :=
  if beq value "healthy" then Some StoreHealthy
  else if beq value "cooling_down" then Some StoreCoolingDown
  else if beq value "disabled" then Some StoreDisabled
  else None.

Record CredentialHealthState := MkHealthState {
  hs_credential_id : string; hs_status : CredentialHealthStatus; hs_failure_count : N;
  hs_cooldown_until : option Timestamp; hs_updated_at : Timestamp;
}.

(** * Cooldowns and affinities *)

Record CooldownState := MkCooldownState {
  cd_scope : string; cd_key : string; cd_until : Timestamp; cd_reason : option string; cd_updated_at : Timestamp;
}.

Record AffinityBindingIdentity := MkAffinityBinding {
  ab_route_id : string; ab_policy_id : string; ab_logical_model : string; ab_account_pool_id : string;
  ab_target_binding_id : string;
}.

Record SessionAffinity := MkSessionAffinity {
  sa_key : string; sa_provider_id : string; sa_credential_id : string; sa_upstream_model : string;
  sa_route_id : string; sa_policy_id : string; sa_logical_model : string; sa_account_pool_id : string;
  sa_target_binding_id : string;
  sa_created_at : Timestamp; sa_last_used_at : Timestamp; sa_expires_at : Timestamp;
}.
Definition session_affinity_new (key provider credential upstream_model : string)
    (created_at expires_at : Timestamp) : SessionAffinity :=
  MkSessionAffinity key provider credential upstream_model "" "" "" "" "" created_at created_at expires_at.
Definition session_affinity_new_scoped (key provider credential upstream_model : string)
    (scope : AffinityBindingIdentity) (created_at expires_at : Timestamp) : SessionAffinity :=
  MkSessionAffinity key provider credential upstream_model (ab_route_id scope) (ab_policy_id scope)
    (ab_logical_model scope) (ab_account_pool_id scope) (ab_target_binding_id scope) created_at created_at
    expires_at.
Definition binding_identity (a : SessionAffinity) : AffinityBindingIdentity :=
  MkAffinityBinding (sa_route_id a) (sa_policy_id a) (sa_logical_model a) (sa_account_pool_id a)
    (sa_target_binding_id a).
Definition affinity_expired_at (a : SessionAffinity) (now : Timestamp) : bool := sa_expires_at a <=? now.

(** * Histories *)

Record DecisionCandidate := MkDecisionCandidate {
  dc_provider_id : string; dc_credential_id : option string; dc_score : Z; dc_eligible : bool;
  dc_reason : option string;
}.
Record DecisionRecord := MkDecisionRecord {
  dr_id : N; dr_request_id : string; dr_route_id : string; dr_model : string;
  dr_candidates : list DecisionCandidate; dr_selected_provider : option string;
  dr_selected_credential : option string; dr_upstream_model : option string;
  dr_target_binding_id : option string; dr_priority_tier : option N; dr_attempt : N;
  dr_configuration_generation : N; dr_reason : option string; dr_recorded_at : Timestamp;
}.
Definition with_decision_id (r : DecisionRecord) (id : N) : DecisionRecord :=
  MkDecisionRecord id (dr_request_id r) (dr_route_id r) (dr_model r) (dr_candidates r)
    (dr_selected_provider r) (dr_selected_credential r) (dr_upstream_model r) (dr_target_binding_id r)
    (dr_priority_tier r) (dr_attempt r) (dr_configuration_generation r) (dr_reason r) (dr_recorded_at r).

Inductive RequestEventKind :=
| EvAdmission | EvSelection | EvAttempt | EvRetry | EvCommitment | EvCompletion.
Record RequestEvent := MkRequestEvent {
  re_id : N; re_request_id : string; re_event_index : N; re_kind : RequestEventKind;
  re_recorded_at : Timestamp; re_listener : string; re_route_id : string; re_public_model : option string;
  re_upstream_model : option string; re_target_binding_id : option string; re_priority_tier : option N;
  re_provider : option string; re_account_pseudonym : option string; re_attempt : option N;
  re_eligible : option bool; re_retry_reason : option string; re_commitment : option string;
  re_ttft_ms : option N; re_latency_ms : option N; re_status : option N; re_error_class : option string;
  re_quota_effect : option string; re_cooldown_effect : option string; re_semantic_losses : list string;
  re_configuration_generation : N; re_catalog_generation : option N;
  re_request_body_sha256 : option string; re_response_body_sha256 : option string;
}.
Definition with_event_id (e : RequestEvent) (id : N) : RequestEvent :=
  MkRequestEvent id (re_request_id e) (re_event_index e) (re_kind e) (re_recorded_at e) (re_listener e)
    (re_route_id e) (re_public_model e) (re_upstream_model e) (re_target_binding_id e) (re_priority_tier e)
    (re_provider e) (re_account_pseudonym e) (re_attempt e) (re_eligible e) (re_retry_reason e)
    (re_commitment e) (re_ttft_ms e) (re_latency_ms e) (re_status e) (re_error_class e) (re_quota_effect e)
    (re_cooldown_effect e) (re_semantic_losses e) (re_configuration_generation e) (re_catalog_generation e)
    (re_request_body_sha256 e) (re_response_body_sha256 e).

Inductive CostProvenance := ProviderReported | OperatorEstimated | UnknownCost.
Record UsageRecord := MkUsageRecord {
  us_id : N; us_recorded_at : Timestamp; us_request_id : string; us_route : string;
  us_provider : option string; us_public_model : option string; us_upstream_model : option string;
  us_account_pseudonym : option string; us_input_tokens : option N; us_output_tokens : option N;
  us_reasoning_tokens : option N; us_cache_tokens : option N; us_image_units : option N;
  us_audio_units : option N; us_video_units : option N; us_latency_ms : N; us_ttft_ms : option N;
  us_service_tier : option string; us_result_class : string; us_cost_in_usd_ticks : option N;
  us_cost_provenance : CostProvenance; us_price_book_version : option string;
  us_configuration_generation : N; us_catalog_generation : option N;
}.
Definition with_usage_id (u : UsageRecord) (id : N) : UsageRecord :=
  MkUsageRecord id (us_recorded_at u) (us_request_id u) (us_route u) (us_provider u) (us_public_model u)
    (us_upstream_model u) (us_account_pseudonym u) (us_input_tokens u) (us_output_tokens u)
    (us_reasoning_tokens u) (us_cache_tokens u) (us_image_units u) (us_audio_units u) (us_video_units u)
    (us_latency_ms u) (us_ttft_ms u) (us_service_tier u) (us_result_class u) (us_cost_in_usd_ticks u)
    (us_cost_provenance u) (us_price_book_version u) (us_configuration_generation u) (us_catalog_generation u).

(** * Validation *)

(** [for value in values { check(value)?; }]. *)
Fixpoint for_each {A} (check : A -> StoreResult unit) (l : list A) : StoreResult unit :=
  match l with
  | [] => Ok tt
  | x :: l => let? _ := check x in for_each check l
  end.
Definition require (ok : bool) (e : StoreError) : StoreResult unit := if ok then Ok tt else Err e.
Definition opt_list {A} (l : list (option A)) : list A := omap id l.

Definition binding_identity_validate (b : AffinityBindingIdentity) : StoreResult unit :=
  for_each (fun fv : string * string =>
      let? _ := non_empty fv.1 fv.2 in
      require (str_len fv.2 <=? 256)
        (StoreSerialization "affinity binding identity exceeds metadata bounds"))
    [("route_id", ab_route_id b); ("policy_id", ab_policy_id b); ("logical_model", ab_logical_model b);
     ("account_pool_id", ab_account_pool_id b); ("target_binding_id", ab_target_binding_id b)]%string.

Definition validate_credential (s : CredentialState) : StoreResult unit :=
  let? _ := non_empty "credential_id" (cs_credential_id s) in
  let? _ := non_empty "provider_id" (cs_provider_id s) in
  validate_fingerprint (cs_fingerprint s).

Definition validate_affinity (a : SessionAffinity) : StoreResult unit :=
  let? _ := non_empty "key" (sa_key a) in
  let? _ := non_empty "provider_id" (sa_provider_id a) in
  let? _ := non_empty "credential_id" (sa_credential_id a) in
  non_empty "upstream_model" (sa_upstream_model a).

Definition validate_decision (r : DecisionRecord) : StoreResult unit :=
  let? _ := non_empty "request_id" (dr_request_id r) in
  let? _ := non_empty "route_id" (dr_route_id r) in
  non_empty "model" (dr_model r).

Definition validate_request_event (e : RequestEvent) : StoreResult unit :=
  let? _ := non_empty "request_id" (re_request_id e) in
  let? _ := non_empty "listener" (re_listener e) in
  let? _ := non_empty "route_id" (re_route_id e) in
  let? _ := require (negb ((128 <? str_len (re_request_id e)) || (128 <? str_len (re_listener e))
                           || (128 <? str_len (re_route_id e))
                           || (16 <? N.of_nat (length (re_semantic_losses e)))))
              (StoreSerialization "request event exceeds metadata bounds") in
  let? _ := for_each (fun hash => require (is_hex_digest hash)
                        (StoreSerialization "request body hash must be a SHA-256 hex digest"))
              (opt_list [re_request_body_sha256 e; re_response_body_sha256 e]) in
  for_each (fun value => require (negb (256 <? str_len value))
              (StoreSerialization "request event field exceeds metadata bounds"))
    (opt_list [re_public_model e; re_upstream_model e; re_provider e; re_account_pseudonym e;
       re_retry_reason e; re_commitment e; re_error_class e; re_quota_effect e; re_cooldown_effect e;
       re_request_body_sha256 e; re_response_body_sha256 e] ++ re_semantic_losses e).

Definition validate_usage (u : UsageRecord) : StoreResult unit :=
  let? _ := for_each (fun fv : string * string => non_empty fv.1 fv.2)
              [("request_id", us_request_id u); ("route", us_route u); ("result_class", us_result_class u)]%string in
  let? _ := require (negb ((128 <? str_len (us_request_id u)) || (128 <? str_len (us_route u))
                           || (64 <? str_len (us_result_class u))))
              (StoreSerialization "usage record exceeds metadata bounds") in
  let? _ := for_each (fun value => require (negb (str_is_empty value || (256 <? str_len value)))
                        (StoreSerialization "usage dimension exceeds metadata bounds"))
              (opt_list [us_provider u; us_public_model u; us_upstream_model u; us_account_pseudonym u;
                 us_service_tier u; us_price_book_version u]) in
  match us_cost_provenance u with
  | ProviderReported =>
    require (negb (is_none (us_cost_in_usd_ticks u) || is_some (us_price_book_version u)))
      (StoreSerialization "provider-reported cost requires ticks and cannot name a price book")
  | OperatorEstimated =>
    require (negb (is_none (us_cost_in_usd_ticks u) || is_none (us_price_book_version u)))
      (StoreSerialization "operator-estimated cost requires ticks and a price-book version")
  | UnknownCost =>
    require (negb (is_some (us_cost_in_usd_ticks u) || is_some (us_price_book_version u)))
      (StoreSerialization "unknown cost cannot carry ticks or a price-book version")
  end.

(** * The state behind the lock *)

Record Inner := MkStoreInner {
  in_credentials : gmap string CredentialState;
  in_credential_revision : N;
  in_health : gmap string CredentialHealthState;
  in_cooldowns : gmap (string * string) CooldownState;
  in_affinities : gmap string SessionAffinity;
  in_decisions : list DecisionRecord;
  in_request_events : list RequestEvent;
  in_usage_records : list UsageRecord;
  in_next_decision_id : N;
  in_next_request_event_id : N;
  in_next_usage_record_id : N;
}.
Definition inner_default : Inner := MkStoreInner ∅ 0 ∅ ∅ ∅ [] [] [] 0 0 0.

Definition set_credentials (m : gmap string CredentialState) (i : Inner) : Inner :=
  MkStoreInner m (in_credential_revision i) (in_health i) (in_cooldowns i) (in_affinities i) (in_decisions i)
    (in_request_events i) (in_usage_records i) (in_next_decision_id i) (in_next_request_event_id i)
    (in_next_usage_record_id i).
Definition set_revision (r : N) (i : Inner) : Inner :=
  MkStoreInner (in_credentials i) r (in_health i) (in_cooldowns i) (in_affinities i) (in_decisions i)
    (in_request_events i) (in_usage_records i) (in_next_decision_id i) (in_next_request_event_id i)
    (in_next_usage_record_id i).
Definition set_health (m : gmap string CredentialHealthState) (i : Inner) : Inner :=
  MkStoreInner (in_credentials i) (in_credential_revision i) m (in_cooldowns i) (in_affinities i) (in_decisions i)
    (in_request_events i) (in_usage_records i) (in_next_decision_id i) (in_next_request_event_id i)
    (in_next_usage_record_id i).
Definition set_cooldowns (m : gmap (string * string) CooldownState) (i : Inner) : Inner :=
  MkStoreInner (in_credentials i) (in_credential_revision i) (in_health i) m (in_affinities i) (in_decisions i)
    (in_request_events i) (in_usage_records i) (in_next_decision_id i) (in_next_request_event_id i)
    (in_next_usage_record_id i).
Definition set_affinities (m : gmap string SessionAffinity) (i : Inner) : Inner :=
  MkStoreInner (in_credentials i) (in_credential_revision i) (in_health i) (in_cooldowns i) m (in_decisions i)
    (in_request_events i) (in_usage_records i) (in_next_decision_id i) (in_next_request_event_id i)
    (in_next_usage_record_id i).
Definition set_decisions (l : list DecisionRecord) (next : N) (i : Inner) : Inner :=
  MkStoreInner (in_credentials i) (in_credential_revision i) (in_health i) (in_cooldowns i) (in_affinities i) l
    (in_request_events i) (in_usage_records i) next (in_next_request_event_id i) (in_next_usage_record_id i).
Definition set_request_events (l : list RequestEvent) (next : N) (i : Inner) : Inner :=
  MkStoreInner (in_credentials i) (in_credential_revision i) (in_health i) (in_cooldowns i) (in_affinities i)
    (in_decisions i) l (in_usage_records i) (in_next_decision_id i) next (in_next_usage_record_id i).
Definition set_usage_records (l : list UsageRecord) (next : N) (i : Inner) : Inner :=
  MkStoreInner (in_credentials i) (in_credential_revision i) (in_health i) (in_cooldowns i) (in_affinities i)
    (in_decisions i) (in_request_events i) l (in_next_decision_id i) (in_next_request_event_id i) next.

(** * Helpers *)

Definition next_credential_revision (i : Inner) : StoreResult (N * Inner) :=
  match checked_add_u64 (in_credential_revision i) 1 with
  | Some r => Ok (r, set_revision r i)
  | None => Err CredentialRevisionConflict
  end.

Definition CH_COLON : Ascii.ascii := Ascii.ascii_of_N 0x3A.

(** [String::from_utf8] of a slice of bytes. *)
Definition string_from_utf8 (b : bytes) : option string :=
  if utf8_valid b then Some (of_bytes b) else None.

Definition decode_compound_cooldown_key (key : string) : option (string * string) :=
  value ← strip_prefix key "v2:";
  '(left_text, value) ← str_split_once CH_COLON value;
  '(right_text, value) ← str_split_once CH_COLON value;
  left_length ← parse_usize left_text;
  right_length ← parse_usize right_text;
  total ← checked_add_u64 left_length right_length;
  if negb (str_len value =? total) then None
  else
    left ← string_from_utf8 (take (N.to_nat left_length) (bytes_of value));
    right ← string_from_utf8 (drop (N.to_nat left_length) (bytes_of value));
    Some (left, right).

Definition cooldown_credential_id (scope key : string) : option string :=
  if beq scope "credential" then Some key
  else if beq scope "credential_model" then
    or_else (fst <$> decode_compound_cooldown_key key)
      (if (count_char key CH_COLON =? 1)%nat then fst <$> str_split_once CH_COLON key else None)
  else None.
Definition cooldown_belongs_to_credential (scope key credential_id : string) : bool :=
  beq (cooldown_credential_id scope key) (Some credential_id).

Definition purge_credential_dependents (i : Inner) (credential_id : string) : Inner :=
  set_cooldowns
    (retain (fun (sk : string * string) _ =>
       negb ((beq sk.1 "credential" && beq sk.2 credential_id)
             || (beq sk.1 "credential_model" && cooldown_belongs_to_credential sk.1 sk.2 credential_id)))
       (in_cooldowns i))
    (set_affinities (retain (fun _ a => negb (beq (sa_credential_id a) credential_id)) (in_affinities i))
       (set_health (delete credential_id (in_health i)) i)).

Definition credential_age (a b : CredentialState) : comparison :=
  N.compare (cs_updated_at a) (cs_updated_at b)
  <|> String.compare (cs_credential_id a) (cs_credential_id b).

(** The loop of [evict_credentials]; each turn drops one credential. *)
Fixpoint evict_credentials_loop (fuel : nat) (i : Inner) (limit count : N) : N * Inner :=
  match fuel with
  | O => (count, i)
  | S fuel =>
    if limit <? N.of_nat (size (in_credentials i)) then
      match min_by credential_age (btree_values String.compare (in_credentials i)) with
      | Some s =>
        let key := cs_credential_id s in
        evict_credentials_loop fuel
          (purge_credential_dependents (set_credentials (delete key (in_credentials i)) i) key) limit (count + 1)
      | None => evict_credentials_loop fuel i limit count
      end
    else (count, i)
  end.
Definition evict_credentials (i : Inner) (limit : N) : N * Inner :=
  evict_credentials_loop (size (in_credentials i)) i limit 0.

Definition require_cooldown_credential (i : Inner) (scope key : string) : StoreResult unit :=
  match cooldown_credential_id scope key with
  | Some id => if is_some (in_credentials i !! id) then Ok tt else Err (CredentialNotFound id)
  | None =>
    if beq scope "credential" || beq scope "credential_model" then Err (CredentialNotFound key) else Ok tt
  end.

Definition purge_expired (i : Inner) (now : Timestamp) : N * Inner :=
  (N.of_nat (size (filter (fun ka : string * SessionAffinity => affinity_expired_at ka.2 now = true)
                     (in_affinities i))),
   set_affinities (retain (fun _ a => negb (affinity_expired_at a now)) (in_affinities i)) i).

Definition affinity_age (a b : SessionAffinity) : comparison :=
  N.compare (sa_last_used_at a) (sa_last_used_at b) <|> N.compare (sa_created_at a) (sa_created_at b)
  <|> String.compare (sa_key a) (sa_key b).
Fixpoint evict_affinities_loop (fuel : nat) (i : Inner) (limit count : N) : N * Inner :=
  match fuel with
  | O => (count, i)
  | S fuel =>
    if limit <? N.of_nat (size (in_affinities i)) then
      match min_by affinity_age (btree_values String.compare (in_affinities i)) with
      | Some a =>
        evict_affinities_loop fuel (set_affinities (delete (sa_key a) (in_affinities i)) i) limit (count + 1)
      | None => evict_affinities_loop fuel i limit count
      end
    else (count, i)
  end.
Definition evict_affinities (i : Inner) (limit : N) : N * Inner :=
  evict_affinities_loop (size (in_affinities i)) i limit 0.

(** [while deque.len() > limit { deque.pop_front(); }]. *)
Fixpoint pop_to {A} (limit : N) (l : list A) : list A :=
  match l with
  | [] => []
  | _ :: r => if limit <? N.of_nat (length l) then pop_to limit r else l
  end.
Definition removed {A} (before after : list A) : N := sat_sub (N.of_nat (length before)) (N.of_nat (length after)).

Definition evict_decisions (i : Inner) (limit : N) : N * Inner :=
  let l := pop_to limit (in_decisions i) in
  (removed (in_decisions i) l, set_decisions l (in_next_decision_id i) i).
Definition evict_request_events (i : Inner) (limit : N) (cutoff : Timestamp) : N * Inner :=
  let l := pop_to limit (List.filter (fun e => cutoff <=? re_recorded_at e) (in_request_events i)) in
  (removed (in_request_events i) l, set_request_events l (in_next_request_event_id i) i).
(** The same two statements of [append_usage_record] and [prune]. *)
Definition evict_usage_records (i : Inner) (limit : N) (cutoff : Timestamp) : N * Inner :=
  let l := pop_to limit (List.filter (fun u => cutoff <=? us_recorded_at u) (in_usage_records i)) in
  (removed (in_usage_records i) l, set_usage_records l (in_next_usage_record_id i) i).

Definition purge_expired_cooldowns (i : Inner) (now : Timestamp) : Inner :=
  set_cooldowns (retain (fun _ c => now <? cd_until c) (in_cooldowns i)) i.

Definition disabled_health (id : string) (updated_at : Timestamp) : CredentialHealthState :=
  MkHealthState id StoreDisabled 0 None updated_at.
Definition reconcile_credential_health (i : Inner) (id : string) (enabled : bool) (updated_at : Timestamp) : Inner :=
  if enabled then
    match in_health i !! id with
    | Some h =>
      if beq (hs_status h) StoreDisabled
      then set_health (<[id := MkHealthState (hs_credential_id h) StoreHealthy (hs_failure_count h) None updated_at]>
                         (in_health i)) i
      else i
    | None => i
    end
  else set_health (<[id := disabled_health id updated_at]> (in_health i)) i.

Definition MAX_COOLDOWNS : N := 4096.
Definition cooldown_key_cmp (a b : string * string) : comparison :=
  String.compare a.1 b.1 <|> String.compare a.2 b.2.
Definition cooldown_age (a b : (string * string) * CooldownState) : comparison :=
  N.compare (cd_updated_at a.2) (cd_updated_at b.2) <|> String.compare (cd_scope a.2) (cd_scope b.2)
  <|> String.compare (cd_key a.2) (cd_key b.2).
Fixpoint evict_cooldowns_loop (fuel : nat) (i : Inner) : Inner :=
  match fuel with
  | O => i
  | S fuel =>
    if MAX_COOLDOWNS <? N.of_nat (size (in_cooldowns i)) then
      match min_by cooldown_age (btree_list cooldown_key_cmp (in_cooldowns i)) with
      | Some (key, _) => evict_cooldowns_loop fuel (set_cooldowns (delete key (in_cooldowns i)) i)
      | None => i
      end
    else i
  end.
Definition evict_cooldowns (i : Inner) : Inner := evict_cooldowns_loop (size (in_cooldowns i)) i.
