(* ===== verification/StoreOps.v ===== *)
(** The operations of [MemoryStore] (crates/pooler-store/src/lib.rs), each run while
    it holds the store's lock: a function from the state to its result and the
    state it leaves, also when it fails. *)
From S2P Require Import Prelude Str Bytes Store.

Open Scope N_scope.

(** Leave early with an error, the state as it is; go on with the value otherwise. *)
Notation "'try' x ':=' r 'at' i 'in' k" :=
  (match r with Ok x => k | Err e => (Err e, i) end)
  (at level 10, x pattern, r at level 100, i at level 100, k at level 200) : pooler_scope.

(** * Credentials *)

Definition with_fingerprint (s : CredentialState) (f : string) : CredentialState :=
  MkCredentialState (cs_credential_id s) (cs_provider_id s) f (cs_enabled s) (cs_updated_at s) (cs_revision s).
Definition with_revision (s : CredentialState) (r : N) : CredentialState :=
  MkCredentialState (cs_credential_id s) (cs_provider_id s) (cs_fingerprint s) (cs_enabled s) (cs_updated_at s) r.
Definition with_enabled (s : CredentialState) (enabled : bool) : CredentialState :=
  MkCredentialState (cs_credential_id s) (cs_provider_id s) (cs_fingerprint s) enabled (cs_updated_at s) (cs_revision s).
(** [state.enabled = enabled; state.updated_at = updated_at; state.revision = revision]. *)
Definition toggled (s : CredentialState) (enabled : bool) (updated_at : Timestamp) (r : N) : CredentialState :=
  MkCredentialState (cs_credential_id s) (cs_provider_id s) (cs_fingerprint s) enabled updated_at r.

(** A row is written, and a disabled one disables its health. *)
Definition put_credential (s : CredentialState) (i : Inner) : Inner :=
  let i := set_credentials (<[cs_credential_id s := s]> (in_credentials i)) i in
  if cs_enabled s then i
  else set_health (<[cs_credential_id s := disabled_health (cs_credential_id s) (cs_updated_at s)]> (in_health i)) i.

Definition same_identity (a b : CredentialState) : bool :=
  beq (cs_provider_id a) (cs_provider_id b) && beq (cs_fingerprint a) (cs_fingerprint b).

Section operations.
Context (retention : RetentionPolicy).

Definition upsert_credential_state (i : Inner) (state : CredentialState) : StoreResult CredentialState * Inner :=
  try _ := validate_credential state at i in
  let previous := in_credentials i !! cs_credential_id state in
  let state := match previous with
    | Some p => if str_is_empty (cs_fingerprint state) then with_fingerprint state (cs_fingerprint p) else state
    | None => state
    end in
  let identity_changed := is_some_and previous (fun p => negb (same_identity p state)) in
  let i := if identity_changed then purge_credential_dependents i (cs_credential_id state) else i in
  try (r, i) := next_credential_revision i at i in
  let state := with_revision state r in
  (Ok state, (evict_credentials (put_credential state i) (max_credentials retention)).2).

(** The first loop of [activate_credential_configurations]. *)
Fixpoint check_activations (seen : gset string) (l : list CredentialConfigurationActivation) : StoreResult unit :=
  match l with
  | [] => Ok tt
  | a :: l =>
    let? _ := validate_credential (ac_desired a) in
    let id := cs_credential_id (ac_desired a) in
    if is_some (ac_retirement a) || bool_decide (id ∈ seen) then Err CredentialFingerprintConflict
    else check_activations ({[id]} ∪ seen) l
  end.
Definition expectation_holds (i : Inner) (a : CredentialConfigurationActivation) : bool :=
  beq (in_credentials i !! cs_credential_id (ac_desired a)) (ac_expected a).
Definition needs_write (i : Inner) (a : CredentialConfigurationActivation) : bool :=
  is_none_or (in_credentials i !! cs_credential_id (ac_desired a))
    (fun current => negb (same_identity current (ac_desired a))).

(** One turn of the last loop. *)
Definition activate_one (i : Inner) (a : CredentialConfigurationActivation)
  : StoreResult ActivatedCredentialState * Inner :=
  let desired := ac_desired a in
  let id := cs_credential_id desired in
  let current := in_credentials i !! id in
  let activated (s : CredentialState) (i : Inner) :=
    (Ok (MkActivated s (is_some_and (in_health i !! cs_credential_id s) (fun h => beq (hs_status h) StoreDisabled))), i) in
  match opt_filter current (fun s => same_identity s desired) with
  | Some s => activated s i
  | None =>
    let i := if is_some current then purge_credential_dependents i id else i in
    try (r, i) := next_credential_revision i at i in
    let safe_legacy_identity :=
      is_some_and current (fun s => beq (cs_provider_id s) (cs_provider_id desired) && str_is_empty (cs_fingerprint s)) in
    let enabled := if safe_legacy_identity then is_some_and current cs_enabled else cs_enabled desired in
    let s := with_revision (with_enabled desired enabled) r in
    activated s (put_credential s i)
  end.
Fixpoint activate_loop (i : Inner) (l : list CredentialConfigurationActivation)
  : StoreResult (list ActivatedCredentialState) * Inner :=
  match l with
  | [] => (Ok [], i)
  | a :: l =>
    match activate_one i a with
    | (Err e, i) => (Err e, i)
    | (Ok s, i) =>
      match activate_loop i l with
      | (Err e, i) => (Err e, i)
      | (Ok rest, i) => (Ok (s :: rest), i)
      end
    end
  end.
Definition activate_credential_configurations (i : Inner) (l : list CredentialConfigurationActivation)
  : StoreResult (list ActivatedCredentialState) * Inner :=
  try _ := check_activations ∅ l at i in
  if negb (forallb (expectation_holds i) l) then (Err CredentialRevisionConflict, i)
  else
    let writes := N.of_nat (length (List.filter (needs_write i) l)) in
    try _ := ok_or (checked_add_u64 (in_credential_revision i) (N.min U64_MAX writes)) CredentialRevisionConflict at i in
    match activate_loop i l with
    | (Err e, i) => (Err e, i)
    | (Ok activated, i) => (Ok activated, (evict_credentials i (max_credentials retention)).2)
    end.

Definition credential_state (i : Inner) (id : string) : StoreResult (option CredentialState) :=
  let? _ := non_empty "credential_id" id in Ok (in_credentials i !! id).
Definition credential_states (i : Inner) : list CredentialState :=
  btree_values String.compare (in_credentials i).

Definition set_credential_enabled (i : Inner) (id : string) (enabled : bool) (updated_at : Timestamp)
  : StoreResult CredentialState * Inner :=
  try _ := non_empty "credential_id" id at i in
  match in_credentials i !! id with
  | None => (Err (CredentialNotFound id), i)
  | Some s =>
    try (r, i) := next_credential_revision i at i in
    let s := toggled s enabled updated_at r in
    (Ok s, reconcile_credential_health (set_credentials (<[id := s]> (in_credentials i)) i) id enabled updated_at)
  end.

(** What the two fenced mutations do once their fence matched [current]. *)
Definition apply_fenced (i : Inner) (id : string) (current : CredentialState) (enabled : bool)
    (updated_at : Timestamp) : StoreResult ConditionalCredentialMutation * Inner :=
  let i := reconcile_credential_health i id enabled updated_at in
  if Bool.eqb (cs_enabled current) enabled then (Ok (Applied current), i)
  else
    try (r, i) := next_credential_revision i at i in
    let s := toggled current enabled updated_at r in
    (Ok (Applied s), set_credentials (<[id := s]> (in_credentials i)) i).

Definition set_credential_enabled_if_identity (i : Inner) (identity : CredentialConfigurationIdentity)
    (enabled : bool) (updated_at : Timestamp) : StoreResult ConditionalCredentialMutation * Inner :=
  let id := ci_credential_id identity in
  match in_credentials i !! id with
  | None => (Ok Missing, i)
  | Some current =>
    if negb (identity_matches identity current) then (Ok (Stale current None None), i)
    else apply_fenced i id current enabled updated_at
  end.

Definition set_credential_enabled_if_current (i : Inner) (id : string) (expected_revision : N)
    (expected_provider_id expected_fingerprint : string) (enabled : bool) (updated_at : Timestamp)
  : StoreResult ConditionalCredentialMutation * Inner :=
  try _ := non_empty "credential_id" id at i in
  try _ := non_empty "expected_provider_id" expected_provider_id at i in
  try _ := validate_fingerprint expected_fingerprint at i in
  match in_credentials i !! id with
  | None => (Ok Missing, i)
  | Some current =>
    if negb (cs_revision current =? expected_revision)
       || negb (beq (cs_provider_id current) expected_provider_id)
       || negb (beq (cs_fingerprint current) expected_fingerprint)
    then (Ok (Stale current None None), i)
    else apply_fenced i id current enabled updated_at
  end.

Definition set_credential_enabled_if_newer_payload (i : Inner) (identity : CredentialConfigurationIdentity)
  : StoreResult ConditionalCredentialMutation :=
  match in_credentials i !! ci_credential_id identity with
  | None => Ok Missing
  | Some current => Ok (Stale current (Some false) None)
  end.

(** One turn of the loops of [switch_credential] and [switch_credential_if_identities]. *)
Definition switch_one (i : Inner) (id : string) (enabled : bool) (updated_at : Timestamp)
  : StoreResult CredentialState * Inner :=
  match in_credentials i !! id with
  | None => (Err (CredentialNotFound id), i)
  | Some s =>
    if Bool.eqb (cs_enabled s) enabled then (Ok s, reconcile_credential_health i id enabled updated_at)
    else
      try (r, i) := next_credential_revision i at i in
      let s := toggled s enabled updated_at r in
      (Ok s, reconcile_credential_health (set_credentials (<[id := s]> (in_credentials i)) i) id enabled updated_at)
  end.
Fixpoint switch_loop (i : Inner) (l : list (string * bool)) (updated_at : Timestamp)
  : StoreResult (list CredentialState) * Inner :=
  match l with
  | [] => (Ok [], i)
  | (id, enabled) :: l =>
    match switch_one i id enabled updated_at with
    | (Err e, i) => (Err e, i)
    | (Ok s, i) =>
      match switch_loop i l updated_at with
      | (Err e, i) => (Err e, i)
      | (Ok rest, i) => (Ok (s :: rest), i)
      end
    end
  end.
Definition switch_targets (selected : string) (siblings : list string) : list (string * bool) :=
  (selected, true) :: map (fun s => (s, false)) (List.filter (fun s => negb (beq s selected)) siblings).

Definition switch_credential (i : Inner) (selected : string) (siblings : list string) (updated_at : Timestamp)
  : StoreResult (list CredentialState) * Inner :=
  try _ := non_empty "selected" selected at i in
  if is_none (in_credentials i !! selected) then (Err (CredentialNotFound selected), i)
  else
    try _ := for_each (fun sibling =>
        let? _ := non_empty "sibling" sibling in
        require (is_some (in_credentials i !! sibling)) (CredentialNotFound sibling)) siblings at i in
    switch_loop i (switch_targets selected siblings) updated_at.

Definition switch_credential_if_identities (i : Inner) (selected : CredentialConfigurationIdentity)
    (siblings : list CredentialConfigurationIdentity) (updated_at : Timestamp)
  : StoreResult (option (list CredentialState)) * Inner :=
  if negb (forallb (fun identity => is_some_and (in_credentials i !! ci_credential_id identity)
                                     (identity_matches identity)) (selected :: siblings))
  then (Ok None, i)
  else match switch_loop i (switch_targets (ci_credential_id selected) (map ci_credential_id siblings)) updated_at with
       | (Err e, i) => (Err e, i)
       | (Ok states, i) => (Ok (Some states), i)
       end.

Definition remove_credential_state (i : Inner) (id : string) : StoreResult bool * Inner :=
  try _ := non_empty "credential_id" id at i in
  (Ok (is_some (in_credentials i !! id)),
   purge_credential_dependents (set_credentials (delete id (in_credentials i)) i) id).

(** * Health and cooldowns *)

Definition upsert_credential_health (i : Inner) (h : CredentialHealthState)
  : StoreResult CredentialHealthState * Inner :=
  try _ := non_empty "credential_id" (hs_credential_id h) at i in
  if is_none (in_credentials i !! hs_credential_id h) then (Err (CredentialNotFound (hs_credential_id h)), i)
  else (Ok h, set_health (<[hs_credential_id h := h]> (in_health i)) i).
Definition credential_health (i : Inner) (id : string) : StoreResult (option CredentialHealthState) :=
  let? _ := non_empty "credential_id" id in Ok (in_health i !! id).

Definition upsert_cooldown (i : Inner) (c : CooldownState) : StoreResult CooldownState * Inner :=
  try _ := non_empty "scope" (cd_scope c) at i in
  try _ := non_empty "key" (cd_key c) at i in
  try _ := require_cooldown_credential i (cd_scope c) (cd_key c) at i in
  match opt_filter (in_cooldowns i !! (cd_scope c, cd_key c)) (fun p => cd_until c <? cd_until p) with
  | Some previous => (Ok previous, i)
  | None => (Ok c, evict_cooldowns (set_cooldowns (<[(cd_scope c, cd_key c) := c]> (in_cooldowns i)) i))
  end.
Definition store_cooldown (i : Inner) (scope key : string) (now : Timestamp)
  : StoreResult (option CooldownState) * Inner :=
  try _ := non_empty "scope" scope at i in
  try _ := non_empty "key" key at i in
  let i := purge_expired_cooldowns i now in (Ok (in_cooldowns i !! (scope, key)), i).
Definition store_cooldowns (i : Inner) (now : Timestamp) : list CooldownState * Inner :=
  let i := purge_expired_cooldowns i now in (btree_values cooldown_key_cmp (in_cooldowns i), i).
Definition cooldowns_snapshot (i : Inner) (now : Timestamp) : list CooldownState :=
  List.filter (fun c => now <? cd_until c) (btree_values cooldown_key_cmp (in_cooldowns i)).
Definition remove_cooldown (i : Inner) (scope key : string) : StoreResult bool * Inner :=
  try _ := non_empty "scope" scope at i in
  try _ := non_empty "key" key at i in
  (Ok (is_some (in_cooldowns i !! (scope, key))), set_cooldowns (delete (scope, key) (in_cooldowns i)) i).

(** * Affinities *)

Definition upsert_session_affinity (i : Inner) (a : SessionAffinity) : StoreResult SessionAffinity * Inner :=
  try _ := validate_affinity a at i in
  if is_none (in_credentials i !! sa_credential_id a) then (Err (CredentialNotFound (sa_credential_id a)), i)
  else
    let i := set_affinities (<[sa_key a := a]> (in_affinities i)) i in
    let i := (purge_expired i (sa_created_at a)).2 in
    (Ok a, (evict_affinities i (max_affinities retention)).2).
Definition touched (a : SessionAffinity) (now : Timestamp) : SessionAffinity :=
  MkSessionAffinity (sa_key a) (sa_provider_id a) (sa_credential_id a) (sa_upstream_model a) (sa_route_id a)
    (sa_policy_id a) (sa_logical_model a) (sa_account_pool_id a) (sa_target_binding_id a) (sa_created_at a)
    (N.max (sa_last_used_at a) now) (sa_expires_at a).
Definition session_affinity (i : Inner) (key : string) (now : Timestamp)
  : StoreResult (option SessionAffinity) * Inner :=
  try _ := non_empty "key" key at i in
  let i := (purge_expired i now).2 in
  match in_affinities i !! key with
  | None => (Ok None, i)
  | Some a => (Ok (Some (touched a now)), set_affinities (<[key := touched a now]> (in_affinities i)) i)
  end.
Definition session_affinities (i : Inner) (now : Timestamp) : list SessionAffinity * Inner :=
  let i := (purge_expired i now).2 in (btree_values String.compare (in_affinities i), i).
Definition session_affinities_snapshot (i : Inner) (now : Timestamp) : list SessionAffinity :=
  List.filter (fun a => now <? sa_expires_at a) (btree_values String.compare (in_affinities i)).
Definition remove_session_affinity (i : Inner) (key : string) : StoreResult bool * Inner :=
  try _ := non_empty "key" key at i in
  (Ok (is_some (in_affinities i !! key)), set_affinities (delete key (in_affinities i)) i).

(** * Histories *)

(** The identifier after [next]; the first is one. *)
Definition next_id (next : N) : option N := if next =? 0 then Some 1 else checked_add_u64 next 1.

Definition append_decision (i : Inner) (record : DecisionRecord) : StoreResult DecisionRecord * Inner :=
  try _ := validate_decision record at i in
  try id := ok_or (next_id (in_next_decision_id i)) DecisionIdExhausted at i in
  let record := with_decision_id record id in
  (Ok record, (evict_decisions (set_decisions (in_decisions i ++ [record]) id i) (max_decisions retention)).2).
Definition recent_decisions (i : Inner) (limit : N) : list DecisionRecord :=
  take (N.to_nat limit) (rev (in_decisions i)).

Definition event_key (e : RequestEvent) : N * N := (re_event_index e, re_id e).
Definition pair_cmp (a b : N * N) : comparison := N.compare a.1 b.1 <|> N.compare a.2 b.2.

(** The events of one request are cut to the newest. *)
Definition cap_request_events (l : list RequestEvent) (request_id : string) : list RequestEvent :=
  let matching := map event_key (List.filter (fun c => beq (re_request_id c) request_id) l) in
  if MAX_REQUEST_EVENTS_PER_REQUEST <? N.of_nat (length matching) then
    let keep := take (N.to_nat MAX_REQUEST_EVENTS_PER_REQUEST) (sort_by (fun a b => pair_cmp b a) matching) in
    List.filter (fun c => negb (beq (re_request_id c) request_id) || bool_decide (event_key c ∈ keep)) l
  else l.
Definition append_request_event (i : Inner) (event : RequestEvent) : StoreResult RequestEvent * Inner :=
  try _ := validate_request_event event at i in
  try id := ok_or (next_id (in_next_request_event_id i)) RequestEventIdExhausted at i in
  let event := with_event_id event id in
  let l := cap_request_events (in_request_events i ++ [event]) (re_request_id event) in
  let cutoff := sat_sub (re_recorded_at event) (request_history_ttl_ms retention) in
  (Ok event, (evict_request_events (set_request_events l id i) (max_request_events retention) cutoff).2).
Definition request_events_for (i : Inner) (request_id : string) : StoreResult (list RequestEvent) :=
  let? _ := non_empty "request_id" request_id in
  Ok (sort_by (fun a b => pair_cmp (event_key a) (event_key b))
        (List.filter (fun e => beq (re_request_id e) request_id) (in_request_events i))).

Definition append_usage_record (i : Inner) (record : UsageRecord) : StoreResult UsageRecord * Inner :=
  try _ := validate_usage record at i in
  try id := ok_or (next_id (in_next_usage_record_id i)) UsageRecordIdExhausted at i in
  let record := with_usage_id record id in
  let l := in_usage_records i ++ [record] in
  let newest_recorded_at := default (us_recorded_at record) (max_by N.compare (map us_recorded_at l)) in
  let cutoff := sat_sub newest_recorded_at (usage_history_ttl_ms retention) in
  (Ok record, (evict_usage_records (set_usage_records l id i) (max_usage_records retention) cutoff).2).

Record PruneReport := MkPruneReport {
  expired_affinities : N; evicted_credentials : N; evicted_affinities : N; evicted_decisions : N;
  evicted_request_events : N; evicted_usage_records : N;
}.
Definition prune (i : Inner) (now : Timestamp) : PruneReport * Inner :=
  let i := purge_expired_cooldowns i now in
  let (n1, i) := purge_expired i now in
  let (n2, i) := evict_credentials i (max_credentials retention) in
  let (n3, i) := evict_affinities i (max_affinities retention) in
  let (n4, i) := evict_decisions i (max_decisions retention) in
  let (n5, i) := evict_request_events i (max_request_events retention)
                   (sat_sub now (request_history_ttl_ms retention)) in
  let (n6, i) := evict_usage_records i (max_usage_records retention)
                   (sat_sub now (usage_history_ttl_ms retention)) in
  (MkPruneReport n1 n2 n3 n4 n5 n6, i).
End operations.
