(* ===== verification/StoreInv.v ===== *)
(** The invariant of the in-memory store: rows are filed under their own keys,
    dependents refer to credentials that exist, revisions and identifiers are
    unique and increase; and what eviction removes. *)
From S2P Require Import Prelude Str Bytes Store StoreOps.

Open Scope N_scope.

(** * Eviction *)

(** Dropping what [pick] names until the map fits. *)
Fixpoint evict_map {K V} `{Countable K} (pick : gmap K V -> option K) (fuel : nat) (limit : N) (m : gmap K V)
  : gmap K V :=
  match fuel with
  | O => m
  | S fuel =>
    if limit <? N.of_nat (size m)
    then match pick m with Some k => evict_map pick fuel limit (delete k m) | None => m end
    else m
  end.

Section evict.
Context {K V : Type} `{Countable K} (pick : gmap K V -> option K) (keyed : K -> V -> Prop)
  (older : V -> V -> Prop).
Context (Hpick : forall m : gmap K V, map_Forall keyed m -> m <> ∅ ->
  exists k v, pick m = Some k /\ m !! k = Some v /\ forall k' v', m !! k' = Some v' -> older v v').

Lemma evict_map_spec fuel limit m :
  map_Forall keyed m -> (size m <= fuel)%nat ->
  let m' := evict_map pick fuel limit m in
  m' ⊆ m /\ N.of_nat (size m') <= limit /\
  (forall k v, m !! k = Some v -> m' !! k = None -> forall k' v', m' !! k' = Some v' -> older v v').
Proof.
  revert m. induction fuel as [|fuel IH]; intros m Hkeyed Hsize; simpl.
  { split; [done|]. split; [lia|]. intros k v Hk Hn. congruence. }
  destruct (N.ltb_spec limit (N.of_nat (size m))) as [Hlt|Hle].
  2: { split; [done|]. split; [done|]. intros k v Hk Hn. congruence. }
  assert (Hne : m <> ∅) by (intros ->; rewrite map_size_empty in Hlt; lia).
  destruct (Hpick m Hkeyed Hne) as (k & v & -> & Hk & Hold).
  pose proof (map_size_delete_Some k m (mk_is_Some _ _ Hk)) as Hs.
  destruct (IH (delete k m)) as (Hsub & Hlim & Hrem); [by apply map_Forall_delete|lia|].
  set (m' := evict_map pick fuel limit (delete k m)) in *.
  assert (Hin : forall k' v', m' !! k' = Some v' -> m !! k' = Some v').
  { intros k' v' Hm'. eapply lookup_weaken; [|apply delete_subseteq]. by eapply lookup_weaken. }
  split; [by transitivity (delete k m); [|apply delete_subseteq]|]. split; [done|].
  intros j w Hj Hn k' v' Hm'. destruct (decide (j = k)) as [-> |Hjk].
  - simplify_eq. by eapply Hold, Hin.
  - eapply Hrem; [|done|done]. by rewrite lookup_delete_ne.
Qed.
End evict.

(** The pick of the source: the least of the values, and its key. *)
Lemma pick_least {K V} `{Countable K} (kc : K -> K -> comparison) (c : V -> V -> comparison) `{!PreCmp c}
    (key : V -> K) (m : gmap K V) :
  map_Forall (fun k v => key v = k) m -> m <> ∅ ->
  exists k v, key <$> min_by c (btree_values kc m) = Some k /\ m !! k = Some v /\
    forall k' v', m !! k' = Some v' -> c v v' <> Gt.
Proof.
  intros Hkeyed Hne. apply map_choose in Hne as (j & w & Hj).
  assert (Hin : w ∈ btree_values kc m) by (apply elem_of_btree_values; eauto).
  destruct (min_by_is_Some c (btree_values kc m)) as [v Hv]; [by intros E; rewrite E in Hin; inversion Hin|].
  apply min_by_elem in Hv as Hel. apply elem_of_btree_values in Hel as [k Hk].
  exists k, v. rewrite Hv. simpl. split; [by rewrite (Hkeyed _ _ Hk)|]. split; [done|].
  intros k' v' Hv'. apply (min_by_min c _ _ _ Hv). apply elem_of_btree_values. eauto.
Qed.

#[export] Instance pre_credential_age : PreCmp credential_age.
Proof. unfold credential_age. apply pre_then; apply pre_key; apply _. Qed.
#[export] Instance pre_affinity_age : PreCmp affinity_age.
Proof. unfold affinity_age. repeat apply pre_then; apply pre_key; apply _. Qed.
#[export] Instance pre_cooldown_age : PreCmp cooldown_age.
Proof.
  unfold cooldown_age. repeat apply pre_then;
    [apply (pre_key (fun a : (string * string) * CooldownState => cd_updated_at a.2))
    |apply (pre_key (fun a : (string * string) * CooldownState => cd_scope a.2))
    |apply (pre_key (fun a : (string * string) * CooldownState => cd_key a.2))]; apply _.
Qed.

(** * The invariant *)

Definition creds_ok (m : gmap string CredentialState) (revision : N) : Prop :=
  map_Forall (fun id s => cs_credential_id s = id /\ 1 <= cs_revision s <= revision) m /\
  (forall a b s t, m !! a = Some s -> m !! b = Some t -> cs_revision s = cs_revision t -> a = b).
Definition health_ok (m : gmap string CredentialState) (h : gmap string CredentialHealthState) : Prop :=
  map_Forall (fun id x => hs_credential_id x = id /\ is_Some (m !! id)) h.
Definition affinities_ok (m : gmap string CredentialState) (l : gmap string SessionAffinity) : Prop :=
  map_Forall (fun k a => sa_key a = k /\ is_Some (m !! sa_credential_id a)) l.
Definition cooldowns_ok (m : gmap string CredentialState) (l : gmap (string * string) CooldownState) : Prop :=
  map_Forall (fun k c => (cd_scope c, cd_key c) = k /\
    forall id, cooldown_credential_id (cd_scope c) (cd_key c) = Some id -> is_Some (m !! id)) l.
(** Identifiers given out in order. *)
Definition ids_ok (ids : list N) (next : N) : Prop := StronglySorted N.lt ids /\ Forall (fun x => 1 <= x <= next) ids.
Definition per_request (r : string) (l : list RequestEvent) : list RequestEvent :=
  List.filter (fun e => beq (re_request_id e) r) l.
Definition capped (l : list RequestEvent) : Prop :=
  forall r, N.of_nat (length (per_request r l)) <= MAX_REQUEST_EVENTS_PER_REQUEST.

Record store_wf (i : Inner) : Prop := {
  wf_creds : creds_ok (in_credentials i) (in_credential_revision i);
  wf_health : health_ok (in_credentials i) (in_health i);
  wf_affinities : affinities_ok (in_credentials i) (in_affinities i);
  wf_cooldowns : cooldowns_ok (in_credentials i) (in_cooldowns i);
  wf_decisions : ids_ok (map dr_id (in_decisions i)) (in_next_decision_id i);
  wf_events : ids_ok (map re_id (in_request_events i)) (in_next_request_event_id i);
  wf_usage : ids_ok (map us_id (in_usage_records i)) (in_next_usage_record_id i);
  wf_capped : capped (in_request_events i);
}.

(** No row is newer than the counter says, and a changed row has a new revision. *)
Definition revises (i j : Inner) : Prop :=
  in_credential_revision i <= in_credential_revision j /\
  forall id s, in_credentials j !! id = Some s ->
    in_credentials i !! id = Some s \/ in_credential_revision i < cs_revision s.

Lemma revises_same i j :
  in_credentials j ⊆ in_credentials i -> in_credential_revision j = in_credential_revision i -> revises i j.
Proof. intros Hs Hr. split; [by rewrite Hr|]. intros id s Hid. left. by eapply lookup_weaken. Qed.

Lemma revises_trans i j k : revises i j -> revises j k -> revises i k.
Proof.
  intros [H1 H2] [H3 H4]. split; [lia|]. intros id s Hk. destruct (H4 id s Hk) as [Hj|Hlt]; [|right; lia].
  by apply H2.
Qed.

(** Fewer dependents are still well formed; more credentials too. *)
Lemma map_Forall_sub {K V} `{Countable K} (P : K -> V -> Prop) (m n : gmap K V) :
  m ⊆ n -> map_Forall P n -> map_Forall P m.
Proof. intros Hs Hn k v Hk. eapply Hn, lookup_weaken; done. Qed.

Lemma retain_sub {K V} `{Countable K} (p : K -> V -> bool) (m : gmap K V) : retain p m ⊆ m.
Proof. unfold retain. apply map_filter_subseteq. Qed.

Lemma creds_ok_sub m n r : m ⊆ n -> creds_ok n r -> creds_ok m r.
Proof.
  intros Hs [H1 H2]. split; [by eapply map_Forall_sub|]. intros a b s t Ha Hb.
  eapply H2; by eapply lookup_weaken.
Qed.

(** ** Dropping a credential with its dependents *)

Lemma purge_cooldown_gone i id k c :
  in_cooldowns (purge_credential_dependents i id) !! k = Some c <->
  in_cooldowns i !! k = Some c /\ cooldown_credential_id k.1 k.2 <> Some id.
Proof.
  simpl. rewrite lookup_retain_Some. apply and_iff_compat_l. destruct k as [scope key]. simpl.
  unfold cooldown_belongs_to_credential. rewrite negb_true_iff, orb_false_iff, !andb_false_iff, !bool_decide_eq_false.
  unfold cooldown_credential_id.
  destruct (decide (scope = "credential"%string)) as [-> |Hs].
  - rewrite bool_decide_eq_true_2 by done. naive_solver.
  - rewrite (bool_decide_eq_false_2 (scope = "credential"%string)) by done.
    destruct (decide (scope = "credential_model"%string)) as [-> |Hm].
    + rewrite bool_decide_eq_true_2 by done. naive_solver.
    + rewrite (bool_decide_eq_false_2 (scope = "credential_model"%string)) by done. naive_solver.
Qed.

Lemma purge_wf i id : store_wf i -> store_wf (purge_credential_dependents i id).
Proof.
  intros []. split; try done; simpl.
  - eapply map_Forall_sub; [apply delete_subseteq|done].
  - eapply map_Forall_sub; [apply retain_sub|done].
  - eapply map_Forall_sub; [apply retain_sub|done].
Qed.

Lemma drop_credential_wf i id :
  store_wf i -> store_wf (purge_credential_dependents (set_credentials (delete id (in_credentials i)) i) id).
Proof.
  intros [Hc Hh Ha Hd]. split; try done; simpl.
  - eapply creds_ok_sub; [apply delete_subseteq|done].
  - intros k h [Hk Hh']%lookup_delete_Some. destruct (Hh k h Hh') as [? ?]. split; [done|].
    by rewrite lookup_delete_ne.
  - intros k a [Hk Hne]%lookup_retain_Some. destruct (Ha k a Hk) as [? ?]. split; [done|].
    apply negb_true_iff, bool_decide_eq_false in Hne. by rewrite lookup_delete_ne.
  - intros k c Hk. apply (purge_cooldown_gone (set_credentials (delete id (in_credentials i)) i) id) in Hk as [Hk Hne].
    destruct (Hd k c Hk) as [<- Hx]. split; [done|]. intros u Hu. simpl in Hne.
    rewrite lookup_delete_ne by congruence. by apply Hx.
Qed.

(** ** Eviction of credentials, affinities and cooldowns *)

(** The tables a change of credentials may only shrink, and the histories it keeps. *)
Definition rest_le (j i : Inner) : Prop :=
  in_affinities j ⊆ in_affinities i /\ in_cooldowns j ⊆ in_cooldowns i /\
  in_decisions j = in_decisions i /\ in_request_events j = in_request_events i /\
  in_usage_records j = in_usage_records i.

Lemma rest_le_refl i : rest_le i i.
Proof. done. Qed.
Lemma rest_le_trans k j i : rest_le k j -> rest_le j i -> rest_le k i.
Proof.
  intros (?&?&?&?&?) (?&?&?&?&?). repeat split; try congruence; by etransitivity.
Qed.

Lemma purge_rest i id : rest_le (purge_credential_dependents i id) i.
Proof. repeat split; simpl; apply retain_sub. Qed.

Definition pick_credential (m : gmap string CredentialState) : option string :=
  cs_credential_id <$> min_by credential_age (btree_values String.compare m).

Lemma evict_credentials_loop_spec fuel i limit n :
  store_wf i ->
  let j := (evict_credentials_loop fuel i limit n).2 in
  store_wf j /\ in_credentials j = evict_map pick_credential fuel limit (in_credentials i) /\
  in_credential_revision j = in_credential_revision i /\ rest_le j i.
Proof.
  revert i n. induction fuel as [|fuel IH]; intros i n Hwf; [done|].
  cbn [evict_credentials_loop evict_map].
  destruct (limit <? N.of_nat (size (in_credentials i))) eqn:E; [|done].
  assert (Hne : in_credentials i <> ∅).
  { intros Hn. rewrite Hn, map_size_empty in E. apply N.ltb_lt in E. lia. }
  destruct (pick_least String.compare credential_age cs_credential_id (in_credentials i)) as (k & v & Hp & Hk & _);
    [by intros k s Hs; apply (proj1 (wf_creds _ Hwf)) in Hs as [? _]|done|].
  apply fmap_Some in Hp as (s & Hmin & ->). unfold pick_credential at 1. rewrite Hmin. simpl fmap. cbv iota.
  destruct (IH _ (n + 1) (drop_credential_wf i (cs_credential_id s) Hwf)) as (H1 & H2 & H3 & H4).
  split; [done|]. split; [done|]. split; [done|].
  eapply rest_le_trans; [done|]. apply (purge_rest (set_credentials _ i)).
Qed.

Lemma evict_credentials_spec i limit :
  store_wf i ->
  let j := (evict_credentials i limit).2 in
  store_wf j /\ revises i j /\ rest_le j i /\ N.of_nat (size (in_credentials j)) <= limit /\
  in_credentials j ⊆ in_credentials i /\
  (forall a s, in_credentials i !! a = Some s -> in_credentials j !! a = None ->
   forall b t, in_credentials j !! b = Some t -> credential_age s t <> Gt).
Proof.
  intros Hwf. unfold evict_credentials.
  destruct (evict_credentials_loop_spec (size (in_credentials i)) i limit 0 Hwf) as (H1 & H2 & H3 & H4).
  destruct (evict_map_spec pick_credential (fun k s => cs_credential_id s = k)
    (fun s t => credential_age s t <> Gt) (fun m => pick_least String.compare credential_age cs_credential_id m)
    (size (in_credentials i)) limit (in_credentials i)) as (Hsub & Hle & Hold); [|done|].
  { by intros k s Hs; apply (proj1 (wf_creds _ Hwf)) in Hs as [? _]. }
  rewrite <- H2 in Hsub, Hle, Hold. split; [done|]. split; [by apply revises_same|]. done.
Qed.

Definition pick_affinity (m : gmap string SessionAffinity) : option string :=
  sa_key <$> min_by affinity_age (btree_values String.compare m).

Lemma set_affinities_wf m i : m ⊆ in_affinities i -> store_wf i -> store_wf (set_affinities m i).
Proof. intros Hm []. split; try done. by eapply map_Forall_sub. Qed.

Lemma evict_affinities_loop_spec fuel i limit n :
  map_Forall (fun k a => sa_key a = k) (in_affinities i) ->
  (evict_affinities_loop fuel i limit n).2 =
  set_affinities (evict_map pick_affinity fuel limit (in_affinities i)) i.
Proof.
  revert i n. induction fuel as [|fuel IH]; intros i n Hk; [by destruct i|].
  cbn [evict_affinities_loop evict_map].
  destruct (limit <? N.of_nat (size (in_affinities i))) eqn:E; [|by destruct i].
  assert (Hne : in_affinities i <> ∅).
  { intros Hn. rewrite Hn, map_size_empty in E. apply N.ltb_lt in E. lia. }
  destruct (pick_least String.compare affinity_age sa_key (in_affinities i) Hk Hne) as (k & v & Hp & _).
  apply fmap_Some in Hp as (a & Hmin & ->). unfold pick_affinity at 1. rewrite Hmin. simpl fmap. cbv iota.
  rewrite IH; [done|]. simpl. eapply map_Forall_sub; [apply delete_subseteq|done].
Qed.

Lemma evict_affinities_spec i limit :
  store_wf i ->
  exists m, (evict_affinities i limit).2 = set_affinities m i /\ m ⊆ in_affinities i /\
    N.of_nat (size m) <= limit /\
    (forall a x, in_affinities i !! a = Some x -> m !! a = None ->
     forall b y, m !! b = Some y -> affinity_age x y <> Gt).
Proof.
  intros Hwf. assert (Hk : map_Forall (fun k a => sa_key a = k) (in_affinities i))
    by (intros k a Ha; by apply (wf_affinities _ Hwf) in Ha as [? _]).
  unfold evict_affinities. rewrite evict_affinities_loop_spec by done. eexists. split; [done|].
  apply (evict_map_spec pick_affinity (fun k a => sa_key a = k) (fun x y => affinity_age x y <> Gt)
    (fun m => pick_least String.compare affinity_age sa_key m)); done.
Qed.

Definition pick_cooldown (m : gmap (string * string) CooldownState) : option (string * string) :=
  fst <$> min_by cooldown_age (btree_list cooldown_key_cmp m).

Lemma evict_cooldowns_loop_spec fuel i :
  evict_cooldowns_loop fuel i = set_cooldowns (evict_map pick_cooldown fuel MAX_COOLDOWNS (in_cooldowns i)) i.
Proof.
  revert i. induction fuel as [|fuel IH]; intros i; [by destruct i|].
  cbn [evict_cooldowns_loop evict_map]. destruct (MAX_COOLDOWNS <? _); [|by destruct i].
  unfold pick_cooldown at 1. destruct (min_by _ _) as [[k c]|]; simpl; [|by destruct i]. by rewrite IH.
Qed.

Lemma evict_cooldowns_spec i :
  exists m, evict_cooldowns i = set_cooldowns m i /\ m ⊆ in_cooldowns i /\ N.of_nat (size m) <= MAX_COOLDOWNS.
Proof.
  unfold evict_cooldowns. rewrite evict_cooldowns_loop_spec. eexists. split; [done|].
  destruct (evict_map_spec pick_cooldown (fun _ _ => True) (fun _ _ => True)) with
    (fuel := size (in_cooldowns i)) (limit := MAX_COOLDOWNS) (m := in_cooldowns i) as (H1 & H2 & _); [|done|done|done].
  intros m _ (k & c & Hk)%map_choose. unfold pick_cooldown.
  assert (Hin : (k, c) ∈ btree_list cooldown_key_cmp m) by by apply elem_of_btree_list.
  destruct (min_by_is_Some cooldown_age (btree_list cooldown_key_cmp m)) as [[k' c'] Hv];
    [by intros E; rewrite E in Hin; inversion Hin|].
  exists k', c'. rewrite Hv. apply min_by_elem, elem_of_btree_list in Hv. done.
Qed.

(** * What the in-memory store promises: bounded tables with referential integrity in
      every history, fences that no update can slip past, and atomic activation. *)

(** * Changing a credential row *)

Lemma next_rev_ok i r j :
  next_credential_revision i = Ok (r, j) -> r = in_credential_revision i + 1 /\ j = set_revision r i.
Proof. unfold next_credential_revision, checked_add_u64. destruct (_ <=? _); [|done]. by intros [= <- <-]. Qed.

Lemma write_row_wf i s :
  cs_revision s = in_credential_revision i + 1 -> store_wf i ->
  let j := set_credentials (<[cs_credential_id s := s]> (in_credentials i)) (set_revision (cs_revision s) i) in
  store_wf j /\ revises i j /\ rest_le j i.
Proof.
  intros Hr Hwf j. pose proof Hwf as [Hc Hh Ha Hd ? ? ? ?].
  assert (Hmore : forall k, is_Some (in_credentials i !! k) -> is_Some (in_credentials j !! k)).
  { intros k Hk. simpl. apply lookup_insert_is_Some. destruct (decide (cs_credential_id s = k)); auto. }
  unfold j in *. cbn [in_credentials set_credentials set_revision] in Hmore.
  split; [|split; [|done]].
  - split; try done; simpl.
    + destruct Hc as [H1 H2]. split.
      * intros k t [[<- <-]|[Hne Ht]]%lookup_insert_Some; simpl; [split; [done|lia]|].
        apply H1 in Ht as [? ?]. split; [done|]. lia.
      * assert (Hold : forall a t, in_credentials i !! a = Some t -> cs_revision t <> cs_revision s)
          by (intros a t Ht; apply H1 in Ht as [_ ?]; lia).
        intros a b t u [[<- <-]|[Ha' Ht]]%lookup_insert_Some [[<- <-]|[Hb' Hu]]%lookup_insert_Some Heq; try done.
        -- by apply Hold in Hu.
        -- by apply Hold in Ht.
        -- by eapply H2.
    + intros k h Hk. destruct (Hh k h Hk) as [? ?]. split; [done|]. by apply Hmore.
    + intros k h Hk. destruct (Ha k h Hk) as [? ?]. split; [done|]. by apply Hmore.
    + intros k c Hk. destruct (Hd k c Hk) as [? Hx]. split; [done|]. intros u Hu. by apply Hmore, Hx.
  - split; [simpl; lia|]. simpl. intros id t [[<- <-]|[_ Ht]]%lookup_insert_Some; [right; lia|by left].
Qed.

Lemma set_health_wf i id h :
  hs_credential_id h = id -> is_Some (in_credentials i !! id) -> store_wf i ->
  store_wf (set_health (<[id := h]> (in_health i)) i).
Proof.
  intros Hid Hc [? Hh]. split; try done. simpl.
  by intros k x [[<- <-]|[_ Hx]]%lookup_insert_Some; [|apply Hh].
Qed.

Lemma put_credential_wf i s :
  cs_revision s = in_credential_revision i + 1 -> store_wf i ->
  let j := put_credential s (set_revision (cs_revision s) i) in
  store_wf j /\ revises i j /\ rest_le j i.
Proof.
  intros Hr Hwf. destruct (write_row_wf i s Hr Hwf) as (H1 & H2 & H3). unfold put_credential.
  destruct (cs_enabled s); [done|]. split; [|done]. apply set_health_wf; [done| |done].
  simpl. rewrite lookup_insert_eq. eauto.
Qed.

(** What reconciling health touches. *)
Definition only_health (i j : Inner) : Prop := exists m, j = set_health m i.

Lemma reconcile_wf i id enabled t :
  is_Some (in_credentials i !! id) -> store_wf i ->
  store_wf (reconcile_credential_health i id enabled t) /\
  only_health i (reconcile_credential_health i id enabled t).
Proof.
  intros Hid Hwf. unfold reconcile_credential_health.
  assert (Hsame : only_health i i) by (exists (in_health i); by destruct i).
  destruct enabled; [|split; [by apply set_health_wf|by eexists]].
  destruct (in_health i !! id) as [h|] eqn:Eh; [|done]. case_bool_decide; [|done].
  split; [|by eexists]. apply set_health_wf; [|done|done]. by apply (wf_health _ Hwf) in Eh as [? _].
Qed.

Lemma only_health_rest i j : only_health i j -> rest_le j i /\ in_credentials j = in_credentials i /\ revises i j.
Proof. intros [m ->]. split; [done|]. split; [done|]. by apply revises_same. Qed.

(** * Steps *)

Definition rest_fits (p : RetentionPolicy) (i : Inner) : Prop :=
  N.of_nat (size (in_affinities i)) <= max_affinities p /\
  N.of_nat (size (in_cooldowns i)) <= MAX_COOLDOWNS /\
  N.of_nat (length (in_decisions i)) <= max_decisions p /\
  N.of_nat (length (in_request_events i)) <= max_request_events p /\
  N.of_nat (length (in_usage_records i)) <= max_usage_records p.
Definition store_fits (p : RetentionPolicy) (i : Inner) : Prop :=
  N.of_nat (size (in_credentials i)) <= max_credentials p /\ rest_fits p i.

Lemma rest_fits_le p j i : rest_le j i -> rest_fits p i -> rest_fits p j.
Proof.
  intros (Ha & Hc & Hd & He & Hu) (?&?&?&?&?). apply map_subseteq_size in Ha, Hc.
  unfold rest_fits. rewrite Hd, He, Hu. repeat split; try done; lia.
Qed.

Section steps.
Context (p : RetentionPolicy).

(** A change that keeps the invariant; the credentials may be over their bound. *)
Definition partial_step (i j : Inner) : Prop := store_wf j /\ revises i j /\ rest_le j i.
(** A change that keeps the invariant and every bound. *)
Definition sound_step (i j : Inner) : Prop := store_wf j /\ revises i j /\ store_fits p j.

Lemma partial_refl i : store_wf i -> partial_step i i.
Proof. intros Hwf. split; [done|]. split; [by apply revises_same|done]. Qed.

Lemma partial_trans i j k : partial_step i j -> (store_wf j -> partial_step j k) -> partial_step i k.
Proof.
  intros (H1 & H2 & H3) Hk. destruct (Hk H1) as (H4 & H5 & H6). split; [done|].
  split; [by eapply revises_trans|by eapply rest_le_trans].
Qed.

Lemma partial_sound i j :
  store_fits p i -> N.of_nat (size (in_credentials j)) <= max_credentials p -> partial_step i j -> sound_step i j.
Proof. intros [_ Hf] Hs (H1 & H2 & H3). split; [done|]. split; [done|]. split; [done|]. by eapply rest_fits_le. Qed.

Lemma sound_refl i : store_wf i -> store_fits p i -> sound_step i i.
Proof. intros Hwf Hf. split; [done|]. split; [by apply revises_same|done]. Qed.

Lemma evict_partial i limit : store_wf i -> partial_step i (evict_credentials i limit).2.
Proof. intros Hwf. destruct (evict_credentials_spec i limit Hwf) as (?&?&?&_). done. Qed.

Lemma evict_sound i j :
  store_fits p i -> partial_step i j -> sound_step i (evict_credentials j (max_credentials p)).2.
Proof.
  intros Hf Hj. destruct (evict_credentials_spec j (max_credentials p) (proj1 Hj)) as (_&_&_&Hs&_).
  apply partial_sound; [done|done|]. eapply partial_trans; [done|]. intros Hwf. by apply evict_partial.
Qed.

Lemma purge_partial i id : store_wf i -> partial_step i (purge_credential_dependents i id).
Proof. intros Hwf. split; [by apply purge_wf|]. split; [by apply revises_same|apply purge_rest]. Qed.

Lemma put_partial i s r j :
  next_credential_revision i = Ok (r, j) -> store_wf i -> partial_step i (put_credential (with_revision s r) j).
Proof.
  intros [-> ->]%next_rev_ok Hwf. by apply (put_credential_wf i (with_revision s (in_credential_revision i + 1))).
Qed.

Lemma reconcile_partial i id enabled t :
  is_Some (in_credentials i !! id) -> store_wf i -> partial_step i (reconcile_credential_health i id enabled t).
Proof.
  intros Hid Hwf. destruct (reconcile_wf i id enabled t Hid Hwf) as [H1 H2%only_health_rest].
  split; [done|]. tauto.
Qed.

(** The row of [id] toggled under a new revision. *)
Lemma toggle_partial i id s enabled t r j :
  in_credentials i !! id = Some s -> next_credential_revision i = Ok (r, j) -> store_wf i ->
  partial_step i (set_credentials (<[id := toggled s enabled t r]> (in_credentials j)) j).
Proof.
  intros Hs [-> ->]%next_rev_ok Hwf. destruct (proj1 (wf_creds _ Hwf) _ _ Hs) as [Hid _]. rewrite <- Hid.
  by apply (write_row_wf i (toggled s enabled t (in_credential_revision i + 1))).
Qed.

(** ** Credentials *)

Lemma upsert_credential_sound i s :
  store_wf i -> store_fits p i -> sound_step i (upsert_credential_state p i s).2.
Proof.
  intros Hwf Hf. unfold upsert_credential_state. destruct (validate_credential s); [|by apply sound_refl].
  set (s' := match in_credentials i !! _ with Some _ => _ | None => _ end).
  set (i' := if is_some_and _ _ then _ else i).
  assert (Hi' : partial_step i i') by (unfold i'; destruct (is_some_and _ _); [by apply purge_partial|by apply partial_refl]).
  assert (Hsize : in_credentials i' = in_credentials i) by (unfold i'; by destruct (is_some_and _ _)).
  destruct (next_credential_revision i') as [[r j]|e] eqn:En; simpl.
  - apply evict_sound; [done|]. eapply partial_trans; [done|]. intros Hwf'. by apply put_partial.
  - apply partial_sound; [done| |done]. rewrite Hsize. apply Hf.
Qed.

(** The rows of the credentials are the same ones, whatever their contents. *)
Definition same_rows (i j : Inner) : Prop :=
  forall id, is_Some (in_credentials i !! id) <-> is_Some (in_credentials j !! id).

Lemma same_rows_size i j : same_rows i j -> size (in_credentials j) = size (in_credentials i).
Proof.
  intros Hr. rewrite <- !(size_dom (D := gset string)). f_equal. apply set_eq. intros id.
  rewrite !elem_of_dom. symmetry. apply Hr.
Qed.

(** A step that keeps the rows keeps every bound. *)
Definition row_step (i j : Inner) : Prop := partial_step i j /\ same_rows i j.

Lemma row_refl i : store_wf i -> row_step i i.
Proof. split; [by apply partial_refl|done]. Qed.

Lemma row_trans i j k : row_step i j -> (store_wf j -> row_step j k) -> row_step i k.
Proof.
  intros [H1 H2] Hk. destruct (Hk (proj1 H1)) as [H3 H4]. split; [by eapply partial_trans|].
  intros id. by rewrite (H2 id).
Qed.

Lemma row_sound i j : store_fits p i -> row_step i j -> sound_step i j.
Proof.
  intros Hf [H1 H2]. apply partial_sound; [done| |done]. rewrite (same_rows_size i j H2). apply Hf.
Qed.

Lemma reconcile_row i id enabled t :
  is_Some (in_credentials i !! id) -> store_wf i -> row_step i (reconcile_credential_health i id enabled t).
Proof.
  intros Hid Hwf. split; [by apply reconcile_partial|].
  destruct (reconcile_wf i id enabled t Hid Hwf) as [_ [m ->]]. done.
Qed.

Lemma toggle_row i id s enabled t r j :
  in_credentials i !! id = Some s -> next_credential_revision i = Ok (r, j) -> store_wf i ->
  row_step i (set_credentials (<[id := toggled s enabled t r]> (in_credentials j)) j).
Proof.
  intros Hs Hn Hwf. split; [by apply toggle_partial|]. apply next_rev_ok in Hn as [-> ->].
  intros u. simpl. rewrite lookup_insert_is_Some. destruct (decide (id = u)) as [-> |]; [rewrite Hs; naive_solver|tauto].
Qed.

Lemma toggle_reconcile_row i id s enabled t r j :
  in_credentials i !! id = Some s -> next_credential_revision i = Ok (r, j) -> store_wf i ->
  row_step i (reconcile_credential_health
                (set_credentials (<[id := toggled s enabled t r]> (in_credentials j)) j) id enabled t).
Proof.
  intros Hs Hn Hwf. eapply row_trans; [by apply toggle_row|]. apply reconcile_row. simpl.
  rewrite lookup_insert_eq. eauto.
Qed.

Lemma set_enabled_row i id enabled t : store_wf i -> row_step i (set_credential_enabled i id enabled t).2.
Proof.
  intros Hwf. unfold set_credential_enabled. destruct (non_empty _ _); [|by apply row_refl].
  destruct (in_credentials i !! id) as [s|] eqn:Es; [|by apply row_refl].
  destruct (next_credential_revision i) as [[r j]|e] eqn:En; [|by apply row_refl].
  by apply toggle_reconcile_row.
Qed.

Lemma apply_fenced_row i id current enabled t :
  in_credentials i !! id = Some current -> store_wf i -> row_step i (apply_fenced i id current enabled t).2.
Proof.
  intros Hc Hwf. unfold apply_fenced. destruct (reconcile_row i id enabled t) as [H1 H2]; [eauto|done|].
  destruct (reconcile_wf i id enabled t) as [Hwf' [m Hm]]; [eauto|done|].
  set (k := reconcile_credential_health i id enabled t) in *.
  destruct (Bool.eqb _ _); [done|]. destruct (next_credential_revision k) as [[r j]|e] eqn:En; [|done]. simpl.
  eapply row_trans; [done|]. intros _. eapply toggle_row; [|done|done]. by rewrite Hm.
Qed.

Lemma enable_if_identity_row i identity enabled t :
  store_wf i -> row_step i (set_credential_enabled_if_identity i identity enabled t).2.
Proof.
  intros Hwf. unfold set_credential_enabled_if_identity. destruct (in_credentials i !! _) eqn:E; [|by apply row_refl].
  destruct (negb _); [by apply row_refl|]. by apply apply_fenced_row.
Qed.

Lemma enable_if_current_row i id r provider fingerprint enabled t :
  store_wf i -> row_step i (set_credential_enabled_if_current i id r provider fingerprint enabled t).2.
Proof.
  intros Hwf. unfold set_credential_enabled_if_current.
  do 3 (destruct (_ : StoreResult unit); [|by apply row_refl]).
  destruct (in_credentials i !! _) eqn:E; [|by apply row_refl].
  destruct (_ || _); [by apply row_refl|]. by apply apply_fenced_row.
Qed.

Lemma switch_one_row i id enabled t : store_wf i -> row_step i (switch_one i id enabled t).2.
Proof.
  intros Hwf. unfold switch_one. destruct (in_credentials i !! id) as [s|] eqn:Es; [|by apply row_refl].
  destruct (Bool.eqb _ _); [apply reconcile_row; [eauto|done]|].
  destruct (next_credential_revision i) as [[r j]|e] eqn:En; [|by apply row_refl].
  by apply toggle_reconcile_row.
Qed.

Lemma switch_loop_row i l t : store_wf i -> row_step i (switch_loop i l t).2.
Proof.
  revert i. induction l as [|[id enabled] l IH]; intros i Hwf; simpl; [by apply row_refl|].
  pose proof (switch_one_row i id enabled t Hwf) as H1.
  destruct (switch_one i id enabled t) as [[s|e] j]; [|done]. simpl in H1.
  assert (H2 : row_step i (switch_loop j l t).2) by (eapply row_trans; [done|]; apply IH).
  by destruct (switch_loop j l t) as [[]].
Qed.

Lemma switch_row i selected siblings t : store_wf i -> row_step i (switch_credential i selected siblings t).2.
Proof.
  intros Hwf. unfold switch_credential. destruct (non_empty _ _); [|by apply row_refl].
  destruct (is_none _); [by apply row_refl|]. destruct (for_each _ _); [|by apply row_refl].
  by apply switch_loop_row.
Qed.

Lemma switch_identities_row i selected siblings t :
  store_wf i -> row_step i (switch_credential_if_identities i selected siblings t).2.
Proof.
  intros Hwf. unfold switch_credential_if_identities. destruct (negb _); [by apply row_refl|].
  pose proof (switch_loop_row i (switch_targets (ci_credential_id selected) (map ci_credential_id siblings)) t Hwf) as H.
  by destruct (switch_loop _ _ _) as [[]].
Qed.
End steps.

(** * Activation of credential configurations is atomic: all rows or none. *)

Definition activation_id (a : CredentialConfigurationActivation) : string := cs_credential_id (ac_desired a).

Lemma check_activations_ok seen l :
  check_activations seen l = Ok tt ->
  NoDup (map activation_id l) /\ Forall (fun a => activation_id a ∉ seen) l /\
  Forall (fun a => ac_retirement a = None /\ validate_credential (ac_desired a) = Ok tt) l.
Proof.
  revert seen. induction l as [|a l IH]; intros seen; simpl; [repeat constructor|].
  destruct (validate_credential (ac_desired a)) as [[]|] eqn:Ev; simpl; [|done].
  destruct (ac_retirement a) eqn:Er; simpl; [done|].
  destruct (bool_decide_reflect (cs_credential_id (ac_desired a) ∈ seen)) as [|Hn]; [done|].
  intros (Hnd & Hf & Hv)%IH. rewrite Forall_forall in Hf. split; [|split].
  - constructor; [|done]. intros (b & Heq & Hb)%list_elem_of_fmap. specialize (Hf b Hb).
    apply Hf. unfold activation_id in *. set_solver.
  - constructor; [done|]. apply Forall_forall. intros b Hb. specialize (Hf b Hb). set_solver.
  - by constructor.
Qed.

(** The row a successful turn leaves. *)
Definition activated_row (current : option CredentialState) (desired s : CredentialState) : Prop :=
  match opt_filter current (fun c => same_identity c desired) with
  | Some c => s = c
  | None =>
    exists r, s = with_revision (with_enabled desired
      (if is_some_and current (fun c => beq (cs_provider_id c) (cs_provider_id desired) && str_is_empty (cs_fingerprint c))
       then is_some_and current cs_enabled else cs_enabled desired)) r
  end.

Lemma activate_one_spec i a :
  store_wf i ->
  in_credential_revision i + (if needs_write i a then 1 else 0) <= U64_MAX ->
  exists s j, activate_one i a = (Ok s, j) /\ partial_step i j /\
    in_credential_revision j = in_credential_revision i + (if needs_write i a then 1 else 0) /\
    (forall k, k <> activation_id a -> in_credentials j !! k = in_credentials i !! k) /\
    in_credentials j !! activation_id a = Some (av_state s) /\
    activated_row (in_credentials i !! activation_id a) (ac_desired a) (av_state s).
Proof.
  intros Hwf. unfold activate_one, needs_write, activated_row. fold (activation_id a).
  destruct (in_credentials i !! activation_id a) as [c|] eqn:Ec; simpl.
  2: { unfold next_credential_revision, checked_add_u64. intros Hle.
    rewrite (proj2 (N.leb_le _ _) Hle). eexists _, _. split; [done|].
    assert (Hn : next_credential_revision i = Ok (in_credential_revision i + 1, set_revision (in_credential_revision i + 1) i))
      by (unfold next_credential_revision, checked_add_u64; by rewrite (proj2 (N.leb_le _ _) Hle)).
    split; [by apply (put_partial i _ _ _ Hn Hwf)|]. unfold put_credential.
    cbn [cs_enabled with_revision with_enabled cs_credential_id av_state]. fold (activation_id a).
    repeat split; try by destruct (cs_enabled (ac_desired a)).
    - intros k Hk. destruct (cs_enabled (ac_desired a)); simpl; by rewrite lookup_insert_ne.
    - destruct (cs_enabled (ac_desired a)); simpl; by rewrite lookup_insert_eq.
    - eauto. }
  destruct (same_identity c (ac_desired a)) eqn:Es; simpl; intros Hle.
  { exists (MkActivated c (is_some_and (in_health i !! cs_credential_id c) (fun h => beq (hs_status h) StoreDisabled))), i.
    rewrite N.add_0_r. split; [done|]. split; [by apply partial_refl|]. done. }
  set (k := purge_credential_dependents i (activation_id a)).
  pose proof (purge_partial i (activation_id a) Hwf) as Hk. fold k in Hk.
  assert (Hn : next_credential_revision k = Ok (in_credential_revision i + 1, set_revision (in_credential_revision i + 1) k))
    by (unfold next_credential_revision, checked_add_u64; simpl; by rewrite (proj2 (N.leb_le _ _) Hle)).
  rewrite Hn. eexists _, _. split; [done|].
  split; [eapply partial_trans; [done|]; intros Hwf'; by apply (put_partial k _ _ _ Hn Hwf')|].
  unfold put_credential. cbn [cs_enabled with_revision with_enabled cs_credential_id av_state]. fold (activation_id a).
  set (en := if _ && _ then _ else _).
  repeat split; try by destruct en.
  - intros u Hu. destruct en; simpl; by rewrite lookup_insert_ne.
  - destruct en; simpl; by rewrite lookup_insert_eq.
  - eauto.
Qed.

Definition writes (i : Inner) (l : list CredentialConfigurationActivation) : N :=
  N.of_nat (length (List.filter (needs_write i) l)).

Lemma writes_cons i a l : writes i (a :: l) = (if needs_write i a then 1 else 0) + writes i l.
Proof. unfold writes. simpl. destruct (needs_write i a); simpl; lia. Qed.

Lemma writes_le i l : writes i l <= N.of_nat (length l).
Proof. induction l as [|a l IH]; [done|]. rewrite writes_cons. simpl length. destruct (needs_write i a); lia. Qed.

Lemma writes_ext i j l :
  (forall a, a ∈ l -> in_credentials j !! activation_id a = in_credentials i !! activation_id a) ->
  writes j l = writes i l.
Proof.
  induction l as [|a l IH]; intros Heq; [done|]. rewrite !writes_cons, IH by set_solver.
  unfold needs_write. fold (activation_id a). by rewrite (Heq a) by set_solver.
Qed.

Lemma activate_loop_spec i l :
  store_wf i -> NoDup (map activation_id l) -> in_credential_revision i + writes i l <= U64_MAX ->
  exists states j, activate_loop i l = (Ok states, j) /\ partial_step i j /\
    (forall k, k ∉ map activation_id l -> in_credentials j !! k = in_credentials i !! k) /\
    Forall2 (fun a s => in_credentials j !! activation_id a = Some (av_state s) /\
      activated_row (in_credentials i !! activation_id a) (ac_desired a) (av_state s)) l states.
Proof.
  revert i. induction l as [|a l IH]; intros i Hwf Hnd Hle.
  { exists [], i. split; [done|]. split; [by apply partial_refl|]. split; [done|constructor]. }
  simpl map in Hnd. apply NoDup_cons in Hnd as [Hfresh Hnd]. rewrite writes_cons in Hle.
  destruct (activate_one_spec i a Hwf) as (s & j & E & Hstep & Hrev & Hother & Hrow & Hact); [lia|].
  assert (Hsame : forall b, b ∈ l -> in_credentials j !! activation_id b = in_credentials i !! activation_id b).
  { intros b Hb. apply Hother. intros Heq. apply Hfresh. rewrite <- Heq. by apply list_elem_of_fmap_2. }
  destruct (IH j (proj1 Hstep) Hnd) as (states & k & El & Hstep' & Hother' & Hrows).
  { rewrite Hrev, (writes_ext i j l Hsame). lia. }
  exists (s :: states), k. simpl. rewrite E, El. split; [done|].
  split; [by eapply partial_trans|]. split.
  - intros u Hu. simpl in Hu. rewrite Hother' by set_solver. apply Hother. set_solver.
  - constructor; [rewrite Hother' by done; done|].
    clear - Hrows Hsame. induction Hrows as [|b t l states [Hb Ht] Hrows IH]; constructor.
    + split; [done|]. rewrite <- Hsame by set_solver. done.
    + apply IH. intros b' Hb'. apply Hsame. set_solver.
Qed.

Lemma evict_credentials_noop i limit :
  N.of_nat (size (in_credentials i)) <= limit -> (evict_credentials i limit).2 = i.
Proof.
  intros Hle. unfold evict_credentials. destruct (size (in_credentials i)) as [|n] eqn:E; [done|]. simpl.
  destruct (N.ltb_spec limit (N.of_nat (size (in_credentials i)))); [lia|done].
Qed.

(** [C15] Activating a batch of credential configurations is all or nothing.  When
    it fails (an expectation that no longer holds, an invalid or repeated
    credential, revisions used up) the store is unchanged.  When it succeeds, every
    expectation held, each credential of the batch has the row the activation
    calls for (the current row when its identity is the desired one; otherwise the
    desired row under a new revision, enabled as before if it only adopts a
    fingerprint) and the others keep theirs; only the bound on credentials can
    take rows away afterwards, the least recently updated first.  (The batch is a
    slice, so its length fits a [usize].) *)
Theorem activation_atomic p i l :
  store_wf i -> N.of_nat (length l) <= USIZE_MAX ->
  match activate_credential_configurations p i l with
  | (Err _, j) => j = i
  | (Ok states, j) =>
    NoDup (map activation_id l) /\
    Forall (fun a => in_credentials i !! activation_id a = ac_expected a) l /\
    exists k, Forall2 (fun a s => in_credentials k !! activation_id a = Some (av_state s) /\
        activated_row (ac_expected a) (ac_desired a) (av_state s)) l states /\
      (forall id, id ∉ map activation_id l -> in_credentials k !! id = in_credentials i !! id) /\
      in_credentials j ⊆ in_credentials k /\
      (N.of_nat (size (in_credentials k)) <= max_credentials p -> j = k) /\
      (forall a s, in_credentials k !! a = Some s -> in_credentials j !! a = None ->
       forall b t, in_credentials j !! b = Some t -> credential_age s t <> Gt)
  end.
Proof.
  intros Hwf Hlen. unfold activate_credential_configurations.
  destruct (check_activations ∅ l) as [[]|] eqn:Ec; [|done]. apply check_activations_ok in Ec as (Hnd & _ & _).
  destruct (forallb (expectation_holds i) l) eqn:Ex; simpl; [|done].
  assert (Hexp : Forall (fun a => in_credentials i !! activation_id a = ac_expected a) l).
  { apply Forall_forall. intros a Ha%list_elem_of_In. rewrite forallb_forall in Ex. specialize (Ex a Ha).
    by apply bool_decide_eq_true in Ex. }
  fold (writes i l). unfold checked_add_u64.
  destruct (N.leb_spec (in_credential_revision i + N.min U64_MAX (writes i l)) U64_MAX) as [Hle|]; simpl; [|done].
  destruct (activate_loop_spec i l Hwf Hnd) as (states & k & -> & Hstep & Hother & Hrows).
  { pose proof (writes_le i l). unfold USIZE_MAX in *. lia. }
  split; [done|]. split; [done|]. exists k.
  destruct (evict_credentials_spec k (max_credentials p) (proj1 Hstep)) as (_ & _ & _ & _ & Hsub & Hold).
  split; [|split; [done|]; split; [done|]; split; [apply evict_credentials_noop|done]].
  clear - Hrows Hexp. induction Hrows as [|a s l states [H1 H2] _ IH]; [constructor|].
  apply Forall_cons in Hexp as [He Hexp]. constructor; [by rewrite <- He|auto].
Qed.

Definition demo_fingerprint : string := "0123456789abcdef0123456789abcdef0123456789abcdef0123456789abcdef".
Definition demo_activation : CredentialConfigurationActivation :=
  MkActivation None (MkCredentialState "c1" "p" demo_fingerprint true 5 0) None.

Lemma activation_atomic_witness :
  store_wf inner_default /\
  match activate_credential_configurations retention_default inner_default [demo_activation] with
  | (Ok states, j) => NoDup (map activation_id [demo_activation]) /\
      map av_state states = [MkCredentialState "c1" "p" demo_fingerprint true 5 1]
  | (Err _, _) => False
  end.
Proof.
  assert (Hwf : store_wf inner_default) by (split; try done; split; constructor). split; [done|].
  pose proof (activation_atomic retention_default inner_default [demo_activation] Hwf) as Ha.
  destruct (activate_credential_configurations retention_default inner_default [demo_activation]) as [r j] eqn:E.
  vm_compute in E. injection E as <- <-. split; [|reflexivity]. by apply Ha.
Defined.
