(* ===== verification/StoreSystem.v ===== *)
(** Histories of the in-memory store: every operation keeps the invariant and the
    bounds, and revisions fence updates over any number of operations. *)
From S2P Require Import Prelude Str Bytes Store StoreOps StoreInv.

Open Scope N_scope.

(** * Histories of records *)

Lemma Forall_sublist_of {A} (P : A -> Prop) (l k : list A) : l `sublist_of` k -> Forall P k -> Forall P l.
Proof.
  intros Hs Hk. rewrite Forall_forall in *. intros x Hx. apply Hk. by eapply elem_of_sublist.
Qed.

Lemma sublist_map {A B} (f : A -> B) (l k : list A) : l `sublist_of` k -> map f l `sublist_of` map f k.
Proof. induction 1; simpl; by constructor. Qed.

Lemma sorted_sublist (l k : list N) : l `sublist_of` k -> StronglySorted N.lt k -> StronglySorted N.lt l.
Proof.
  induction 1 as [|x l k Hs IH|x l k Hs IH]; intros Hk; [constructor| |];
    apply StronglySorted_inv in Hk as [Hk Hall]; [|by apply IH].
  constructor; [by apply IH|]. by eapply Forall_sublist_of.
Qed.

Lemma ids_ok_sublist {A} (f : A -> N) (l k : list A) next :
  l `sublist_of` k -> ids_ok (map f k) next -> ids_ok (map f l) next.
Proof.
  intros Hs [H1 H2]. assert (Hm : map f l `sublist_of` map f k) by by apply sublist_map.
  split; [by eapply sorted_sublist|by eapply Forall_sublist_of].
Qed.

Lemma ids_ok_snoc ids next id : ids_ok ids next -> next_id next = Some id -> ids_ok (ids ++ [id]) id.
Proof.
  intros [H1 H2] Hid. assert (Hlt : next < id).
  { revert Hid. unfold next_id, checked_add_u64. destruct (N.eqb_spec next 0) as [-> |]; [intros [= <-]; lia|].
    destruct (_ <=? _); [intros [= <-]; lia|done]. }
  split.
  - induction H1 as [|x ids H1 IH Hall]; simpl; [repeat constructor|].
    apply Forall_cons in H2 as [Hx H2]. constructor; [by apply IH|].
    apply Forall_app. split; [done|]. constructor; [lia|constructor].
  - apply Forall_app. split; [|repeat constructor; lia].
    eapply Forall_impl; [done|]. simpl. lia.
Qed.

Lemma list_filter_sublist {A} (q : A -> bool) l : List.filter q l `sublist_of` l.
Proof. induction l as [|x l IH]; simpl; [constructor|]. destruct (q x); by constructor. Qed.

Lemma pop_to_spec {A} limit (l : list A) : pop_to limit l `sublist_of` l /\ N.of_nat (length (pop_to limit l)) <= limit.
Proof.
  induction l as [|x l [IH1 IH2]]; simpl; [split; [constructor|lia]|].
  destruct (N.ltb_spec limit (N.of_nat (S (length l)))); [split; [by constructor|done]|].
  split; [done|]. simpl. lia.
Qed.

Lemma capped_sublist l k : l `sublist_of` k -> capped k -> capped l.
Proof.
  intros Hs Hk r. specialize (Hk r). enough (length (per_request r l) <= length (per_request r k))%nat by lia.
  clear Hk. unfold per_request. induction Hs as [|x l k Hs IH|x l k Hs IH]; simpl; [done| |]; destruct (beq _ _); simpl; lia.
Qed.

(** The events of a request are cut to the bound; those of the others stay. *)
Lemma cap_sublist l r : cap_request_events l r `sublist_of` l.
Proof. unfold cap_request_events. destruct (_ <? _); [apply list_filter_sublist|done]. Qed.

Lemma filter_filter {A} (f g : A -> bool) l :
  List.filter f (List.filter g l) = List.filter (fun x => g x && f x) l.
Proof.
  induction l as [|x l IH]; simpl; [done|]. destruct (g x); simpl; [|done]. destruct (f x); by rewrite IH.
Qed.

Lemma cap_self l r next :
  ids_ok (map re_id l) next -> N.of_nat (length (per_request r (cap_request_events l r))) <= MAX_REQUEST_EVENTS_PER_REQUEST.
Proof.
  intros [Hsort _]. unfold cap_request_events. fold (per_request r l).
  destruct (N.ltb_spec MAX_REQUEST_EVENTS_PER_REQUEST (N.of_nat (length (map event_key (per_request r l))))) as [_|Hle].
  2: { by rewrite length_map in Hle. }
  set (keep := take _ _). unfold per_request at 1. rewrite filter_filter.
  set (kept := List.filter _ l).
  assert (Hnd : NoDup (map event_key kept)).
  { assert (Hs : map re_id kept `sublist_of` map re_id l) by apply sublist_map, list_filter_sublist.
    apply (sorted_sublist _ _ Hs) in Hsort. clear - Hsort.
    induction kept as [|e kept IH]; simpl in *; [constructor|].
    apply StronglySorted_inv in Hsort as [Hsort Hall]. constructor; [|by apply IH].
    intros (x & Heq & Hx)%list_elem_of_fmap. rewrite Forall_forall in Hall.
    assert (re_id e < re_id x) by by apply Hall, list_elem_of_fmap_2. injection Heq. lia. }
  assert (Hsub : map event_key kept ⊆ keep).
  { intros key (x & -> & Hx)%list_elem_of_fmap. apply list_elem_of_In, filter_In in Hx as [_ Hx].
    apply andb_true_iff in Hx as [Ho Hr]. rewrite Hr in Ho. simpl in Ho. by apply bool_decide_eq_true in Ho. }
  pose proof (submseteq_length _ _ (NoDup_submseteq _ keep Hnd Hsub)) as Hlen. rewrite length_map in Hlen.
  assert (length keep <= 64)%nat by (unfold keep; rewrite length_take; change (N.to_nat MAX_REQUEST_EVENTS_PER_REQUEST) with 64%nat; lia).
  unfold MAX_REQUEST_EVENTS_PER_REQUEST. lia.
Qed.

Lemma cap_other l r u : u <> r -> per_request u (cap_request_events l r) = per_request u l.
Proof.
  intros Hne. unfold cap_request_events. destruct (_ <? _); [|done]. unfold per_request. rewrite filter_filter.
  apply List.filter_ext. intros e. destruct (bool_decide_reflect (re_request_id e = u)) as [-> |]; [|apply andb_false_r].
  by rewrite bool_decide_eq_false_2.
Qed.

Lemma cap_capped l e next :
  capped l -> ids_ok (map re_id (l ++ [e])) next -> capped (cap_request_events (l ++ [e]) (re_request_id e)).
Proof.
  intros Hl Hids u. destruct (decide (u = re_request_id e)) as [-> |Hne]; [by eapply cap_self|].
  rewrite cap_other by done. unfold per_request. rewrite List.filter_app. simpl.
  rewrite bool_decide_eq_false_2 by congruence. rewrite app_nil_r. apply Hl.
Qed.

(** * Every operation keeps the invariant *)

Section system.
Context (p : RetentionPolicy).
#[local] Hint Resolve sound_refl : core.

Lemma set_affinities_sound i m :
  affinities_ok (in_credentials i) m -> N.of_nat (size m) <= max_affinities p ->
  store_wf i -> store_fits p i -> sound_step p i (set_affinities m i).
Proof.
  intros Hm Hs [] (? & ? & ? & ?). split; [done|]. split; [by apply revises_same|]. done.
Qed.

Lemma set_cooldowns_sound i m :
  cooldowns_ok (in_credentials i) m -> N.of_nat (size m) <= MAX_COOLDOWNS ->
  store_wf i -> store_fits p i -> sound_step p i (set_cooldowns m i).
Proof.
  intros Hm Hs [] (? & ? & ? & ?). split; [done|]. split; [by apply revises_same|]. done.
Qed.

Lemma sub_affinities_sound i m :
  m ⊆ in_affinities i -> store_wf i -> store_fits p i -> sound_step p i (set_affinities m i).
Proof.
  intros Hm Hwf Hf. apply set_affinities_sound; [by eapply map_Forall_sub, Hwf| |done|done].
  apply map_subseteq_size in Hm. destruct Hf as (_ & Ha & _). lia.
Qed.

Lemma sub_cooldowns_sound i m :
  m ⊆ in_cooldowns i -> store_wf i -> store_fits p i -> sound_step p i (set_cooldowns m i).
Proof.
  intros Hm Hwf Hf. apply set_cooldowns_sound; [by eapply map_Forall_sub, Hwf| |done|done].
  apply map_subseteq_size in Hm. destruct Hf as (_ & _ & Hc & _). lia.
Qed.

Lemma remove_sound i id : store_wf i -> store_fits p i -> sound_step p i (remove_credential_state i id).2.
Proof.
  intros Hwf Hf. unfold remove_credential_state. destruct (non_empty _ _); [|auto]. cbn [snd].
  apply partial_sound; [done| |].
  - simpl. pose proof (map_subseteq_size _ _ (delete_subseteq (in_credentials i) id)). destruct Hf as [? _]. lia.
  - split; [by apply drop_credential_wf|]. split; [apply revises_same; [apply delete_subseteq|done]|].
    apply (purge_rest (set_credentials _ i)).
Qed.

Lemma activate_sound i l :
  N.of_nat (length l) <= USIZE_MAX -> store_wf i -> store_fits p i ->
  sound_step p i (activate_credential_configurations p i l).2.
Proof.
  intros Hlen Hwf Hf. unfold activate_credential_configurations.
  destruct (check_activations ∅ l) as [[]|] eqn:Ec; [|auto]. apply check_activations_ok in Ec as (Hnd & _ & _).
  destruct (negb _); [auto|]. fold (writes i l). unfold checked_add_u64.
  destruct (N.leb_spec (in_credential_revision i + N.min U64_MAX (writes i l)) U64_MAX) as [Hle|]; simpl; [|auto].
  destruct (activate_loop_spec i l Hwf Hnd) as (states & k & -> & Hstep & _).
  { pose proof (writes_le i l). unfold USIZE_MAX in *. lia. }
  by apply evict_sound.
Qed.

Lemma upsert_health_sound i h :
  store_wf i -> store_fits p i -> sound_step p i (upsert_credential_health i h).2.
Proof.
  intros Hwf Hf. unfold upsert_credential_health. destruct (non_empty _ _); [|auto].
  destruct (in_credentials i !! hs_credential_id h) eqn:E; simpl; [|auto].
  split; [apply set_health_wf; eauto|]. split; [by apply revises_same|done].
Qed.

Lemma upsert_cooldown_sound i c :
  store_wf i -> store_fits p i -> sound_step p i (upsert_cooldown i c).2.
Proof.
  intros Hwf Hf. unfold upsert_cooldown. do 2 (destruct (non_empty _ _); [|auto]).
  destruct (require_cooldown_credential i (cd_scope c) (cd_key c)) as [[]|] eqn:Er; [|auto].
  destruct (opt_filter _ _); [auto|]. simpl.
  destruct (evict_cooldowns_spec (set_cooldowns (<[(cd_scope c, cd_key c) := c]> (in_cooldowns i)) i))
    as (m & -> & Hsub & Hsize). simpl in Hsub.
  change (set_cooldowns m (set_cooldowns _ i)) with (set_cooldowns m i).
  apply set_cooldowns_sound; [|done|done|done]. eapply map_Forall_sub; [done|].
  intros k x [[<- <-]|[_ Hx]]%lookup_insert_Some; [|by apply (wf_cooldowns _ Hwf)]. split; [done|].
  intros id Hid. unfold require_cooldown_credential in Er. rewrite Hid in Er.
  destruct (in_credentials i !! id) eqn:E; [eauto|done].
Qed.

Lemma purge_cooldowns_sound i now :
  store_wf i -> store_fits p i -> sound_step p i (purge_expired_cooldowns i now).
Proof. intros. apply sub_cooldowns_sound; [apply retain_sub|done|done]. Qed.

Lemma cooldown_sound i scope key now :
  store_wf i -> store_fits p i -> sound_step p i (store_cooldown i scope key now).2.
Proof.
  intros. unfold store_cooldown. do 2 (destruct (non_empty _ _); [|auto]). by apply purge_cooldowns_sound.
Qed.

Lemma remove_cooldown_sound i scope key :
  store_wf i -> store_fits p i -> sound_step p i (remove_cooldown i scope key).2.
Proof.
  intros. unfold remove_cooldown. do 2 (destruct (non_empty _ _); [|auto]).
  apply sub_cooldowns_sound; [apply delete_subseteq|done|done].
Qed.

Lemma purge_affinities_sound i now :
  store_wf i -> store_fits p i -> sound_step p i (purge_expired i now).2.
Proof. intros. apply sub_affinities_sound; [apply retain_sub|done|done]. Qed.

Lemma upsert_affinity_sound i a :
  store_wf i -> store_fits p i -> sound_step p i (upsert_session_affinity p i a).2.
Proof.
  intros Hwf Hf. unfold upsert_session_affinity. destruct (validate_affinity a); [|auto].
  destruct (in_credentials i !! sa_credential_id a) eqn:E; simpl is_none; cbv iota; [|auto]. cbn [snd].
  assert (Hins : affinities_ok (in_credentials i) (<[sa_key a := a]> (in_affinities i))).
  { intros k x [[<- <-]|[_ Hx]]%lookup_insert_Some; [|by apply (wf_affinities _ Hwf)]. split; [done|]. rewrite E. eauto. }
  set (j := (purge_expired _ _).2).
  assert (Hj : j = set_affinities (in_affinities j) i) by done.
  assert (Hjok : affinities_ok (in_credentials i) (in_affinities j)) by (eapply map_Forall_sub; [apply retain_sub|done]).
  destruct (evict_affinities_spec j (max_affinities p)) as (m & -> & Hsub & Hsize & _).
  { rewrite Hj. destruct Hwf. by split. }
  rewrite Hj. change (set_affinities m (set_affinities _ i)) with (set_affinities m i).
  apply set_affinities_sound; [|done|done|done]. by eapply map_Forall_sub.
Qed.

Lemma session_affinity_sound i key now :
  store_wf i -> store_fits p i -> sound_step p i (session_affinity i key now).2.
Proof.
  intros Hwf Hf. unfold session_affinity. destruct (non_empty _ _); [|auto].
  pose proof (purge_affinities_sound i now Hwf Hf) as Hj. set (j := (purge_expired i now).2) in *.
  destruct (in_affinities j !! key) as [found|] eqn:Ea; simpl; [|done].
  destruct Hj as (Hwf' & Hrev & Hf'). destruct (wf_affinities _ Hwf' _ _ Ea) as [Hk Hc].
  assert (Hset : sound_step p j (set_affinities (<[key := touched found now]> (in_affinities j)) j)).
  { apply set_affinities_sound; [| |done|done].
    - intros k x [[<- <-]|[_ Hx]]%lookup_insert_Some; [done|by apply (wf_affinities _ Hwf')].
    - rewrite map_size_insert_Some by eauto. apply Hf'. }
  destruct Hset as (H1 & H2 & H3). split; [done|]. split; [by eapply revises_trans|done].
Qed.

Lemma remove_affinity_sound i key :
  store_wf i -> store_fits p i -> sound_step p i (remove_session_affinity i key).2.
Proof.
  intros. unfold remove_session_affinity. destruct (non_empty _ _); [|auto].
  apply sub_affinities_sound; [apply delete_subseteq|done|done].
Qed.

(** ** Histories *)

Lemma set_decisions_sound i l next :
  ids_ok (map dr_id l) next -> N.of_nat (length l) <= max_decisions p -> store_wf i -> store_fits p i ->
  sound_step p i (set_decisions l next i).
Proof. intros Hl Hs [] (? & ? & ? & ? & ?). split; [done|]. split; [by apply revises_same|done]. Qed.

Lemma set_events_sound i l next :
  ids_ok (map re_id l) next -> capped l -> N.of_nat (length l) <= max_request_events p ->
  store_wf i -> store_fits p i -> sound_step p i (set_request_events l next i).
Proof. intros Hl Hc Hs [] (? & ? & ? & ? & ? & ?). split; [done|]. split; [by apply revises_same|done]. Qed.

Lemma set_usage_sound i l next :
  ids_ok (map us_id l) next -> N.of_nat (length l) <= max_usage_records p ->
  store_wf i -> store_fits p i -> sound_step p i (set_usage_records l next i).
Proof. intros Hl Hs [] (? & ? & ? & ? & ? & ?). split; [done|]. split; [by apply revises_same|done]. Qed.

(** The deque after the retention by age and by number. *)
Lemma retained_spec {A} (keep : A -> bool) limit (l : list A) :
  pop_to limit (List.filter keep l) `sublist_of` l /\ N.of_nat (length (pop_to limit (List.filter keep l))) <= limit.
Proof.
  destruct (pop_to_spec limit (List.filter keep l)) as [H1 H2]. split; [|done].
  by etransitivity; [|apply list_filter_sublist].
Qed.

Lemma append_decision_sound i r : store_wf i -> store_fits p i -> sound_step p i (append_decision p i r).2.
Proof.
  intros Hwf Hf. unfold append_decision. destruct (validate_decision r); [|auto].
  destruct (next_id (in_next_decision_id i)) as [id|] eqn:En; simpl; [|auto].
  destruct (pop_to_spec (max_decisions p) (in_decisions i ++ [with_decision_id r id])) as [Hs Hl].
  change (set_decisions ?l id (set_decisions _ id i)) with (set_decisions l id i).
  apply set_decisions_sound; [|done|done|done]. eapply ids_ok_sublist; [done|]. rewrite map_app.
  by eapply ids_ok_snoc; [apply Hwf|].
Qed.

Lemma append_event_sound i e : store_wf i -> store_fits p i -> sound_step p i (append_request_event p i e).2.
Proof.
  intros Hwf Hf. unfold append_request_event. destruct (validate_request_event e); [|auto].
  destruct (next_id (in_next_request_event_id i)) as [id|] eqn:En; simpl; [|auto].
  set (l := in_request_events i ++ [with_event_id e id]).
  assert (Hids : ids_ok (map re_id l) id) by (unfold l; rewrite map_app; by eapply ids_ok_snoc; [apply Hwf|]).
  set (c := cap_request_events l (re_request_id e)).
  destruct (retained_spec (fun x => sat_sub (re_recorded_at e) (request_history_ttl_ms p) <=? re_recorded_at x)
              (max_request_events p) c) as [Hs Hl].
  change (set_request_events ?k id (set_request_events _ id i)) with (set_request_events k id i).
  apply set_events_sound; [|apply (capped_sublist _ _ Hs)|done|done|done].
  - eapply ids_ok_sublist; [|done]. etransitivity; [done|apply cap_sublist].
  - apply (cap_capped _ (with_event_id e id) id); [apply Hwf|done].
Qed.

Lemma append_usage_sound i u : store_wf i -> store_fits p i -> sound_step p i (append_usage_record p i u).2.
Proof.
  intros Hwf Hf. unfold append_usage_record. destruct (validate_usage u); [|auto].
  destruct (next_id (in_next_usage_record_id i)) as [id|] eqn:En; cbn [ok_or snd evict_usage_records]; [|auto].
  set (l := in_usage_records i ++ [with_usage_id u id]). simpl in_usage_records.
  set (keep := fun x => _ <=? us_recorded_at x).
  destruct (retained_spec keep (max_usage_records p) l) as [Hs Hl].
  change (sound_step p i (set_usage_records (pop_to (max_usage_records p) (List.filter keep l)) id i)).
  apply set_usage_sound; [|done|done|done]. eapply ids_ok_sublist; [done|]. unfold l. rewrite map_app.
  by eapply ids_ok_snoc; [apply Hwf|].
Qed.

(** ** Pruning *)

Lemma sound_then i j k :
  sound_step p i j -> (store_wf j -> store_fits p j -> sound_step p j k) -> sound_step p i k.
Proof.
  intros (H1 & H2 & H3) Hk. destruct (Hk H1 H3) as (H4 & H5 & H6). split; [done|].
  split; [by eapply revises_trans|done].
Qed.

Lemma evict_affinities_sound i : store_wf i -> store_fits p i -> sound_step p i (evict_affinities i (max_affinities p)).2.
Proof.
  intros Hwf Hf. destruct (evict_affinities_spec i (max_affinities p) Hwf) as (m & -> & Hs & _).
  by apply sub_affinities_sound.
Qed.

Lemma evict_decisions_sound i : store_wf i -> store_fits p i -> sound_step p i (evict_decisions i (max_decisions p)).2.
Proof.
  intros Hwf Hf. destruct (pop_to_spec (max_decisions p) (in_decisions i)) as [Hs Hl].
  apply set_decisions_sound; [|done|done|done]. eapply ids_ok_sublist; [done|apply Hwf].
Qed.

Lemma evict_events_sound i cutoff :
  store_wf i -> store_fits p i -> sound_step p i (evict_request_events i (max_request_events p) cutoff).2.
Proof.
  intros Hwf Hf. destruct (retained_spec (fun e => cutoff <=? re_recorded_at e) (max_request_events p)
    (in_request_events i)) as [Hs Hl].
  apply set_events_sound; [eapply ids_ok_sublist; [done|apply Hwf]|by eapply capped_sublist, Hwf|done..].
Qed.

Lemma evict_usage_sound i cutoff :
  store_wf i -> store_fits p i -> sound_step p i (evict_usage_records i (max_usage_records p) cutoff).2.
Proof.
  intros Hwf Hf. destruct (retained_spec (fun e => cutoff <=? us_recorded_at e) (max_usage_records p)
    (in_usage_records i)) as [Hs Hl].
  apply set_usage_sound; [eapply ids_ok_sublist; [done|apply Hwf]|done..].
Qed.

Lemma evict_creds_sound i : store_wf i -> store_fits p i -> sound_step p i (evict_credentials i (max_credentials p)).2.
Proof. intros Hwf Hf. apply evict_sound; [done|]. by apply partial_refl. Qed.

Lemma prune_unfold i now :
  (prune p i now).2 =
  (evict_usage_records
    (evict_request_events
      (evict_decisions
        (evict_affinities
          (evict_credentials (purge_expired (purge_expired_cooldowns i now) now).2 (max_credentials p)).2
          (max_affinities p)).2
        (max_decisions p)).2
      (max_request_events p) (sat_sub now (request_history_ttl_ms p))).2
    (max_usage_records p) (sat_sub now (usage_history_ttl_ms p))).2.
Proof.
  unfold prune. cbn [purge_expired evict_decisions evict_request_events evict_usage_records].
  destruct (evict_credentials _ _) as [n2 i2]. cbn [snd]. destruct (evict_affinities _ _) as [n3 i3]. done.
Qed.

Lemma prune_sound i now : store_wf i -> store_fits p i -> sound_step p i (prune p i now).2.
Proof.
  intros Hwf Hf. rewrite prune_unfold.
  eapply sound_then; [|apply evict_usage_sound]. eapply sound_then; [|apply evict_events_sound].
  eapply sound_then; [|apply evict_decisions_sound]. eapply sound_then; [|apply evict_affinities_sound].
  eapply sound_then; [|apply evict_creds_sound]. eapply sound_then; [|apply purge_affinities_sound].
  by apply purge_cooldowns_sound.
Qed.

(** * Histories of operations *)

Inductive store_step (i : Inner) : Inner -> Prop :=
| st_upsert s : store_step i (upsert_credential_state p i s).2
| st_activate l : N.of_nat (length l) <= USIZE_MAX -> store_step i (activate_credential_configurations p i l).2
| st_enable id enabled t : store_step i (set_credential_enabled i id enabled t).2
| st_enable_identity identity enabled t : store_step i (set_credential_enabled_if_identity i identity enabled t).2
| st_enable_current id r provider fingerprint enabled t :
    store_step i (set_credential_enabled_if_current i id r provider fingerprint enabled t).2
| st_switch selected siblings t : store_step i (switch_credential i selected siblings t).2
| st_switch_identities selected siblings t : store_step i (switch_credential_if_identities i selected siblings t).2
| st_remove id : store_step i (remove_credential_state i id).2
| st_health h : store_step i (upsert_credential_health i h).2
| st_upsert_cooldown c : store_step i (upsert_cooldown i c).2
| st_cooldown scope key now : store_step i (store_cooldown i scope key now).2
| st_cooldowns now : store_step i (store_cooldowns i now).2
| st_remove_cooldown scope key : store_step i (remove_cooldown i scope key).2
| st_upsert_affinity a : store_step i (upsert_session_affinity p i a).2
| st_affinity key now : store_step i (session_affinity i key now).2
| st_affinities now : store_step i (session_affinities i now).2
| st_remove_affinity key : store_step i (remove_session_affinity i key).2
| st_decision r : store_step i (append_decision p i r).2
| st_event e : store_step i (append_request_event p i e).2
| st_usage u : store_step i (append_usage_record p i u).2
| st_prune now : store_step i (prune p i now).2.

Inductive store_steps (i : Inner) : Inner -> Prop :=
| steps_refl : store_steps i i
| steps_next j k : store_steps i j -> store_step j k -> store_steps i k.

Definition store_reachable (i : Inner) : Prop := store_steps inner_default i.

Lemma step_sound i j : store_step i j -> store_wf i -> store_fits p i -> sound_step p i j.
Proof.
  destruct 1; intros Hwf Hf;
    solve [by apply upsert_credential_sound | by apply activate_sound | by apply row_sound, set_enabled_row
          | by apply row_sound, enable_if_identity_row | by apply row_sound, enable_if_current_row
          | by apply row_sound, switch_row | by apply row_sound, switch_identities_row | by apply remove_sound
          | by apply upsert_health_sound | by apply upsert_cooldown_sound | by apply cooldown_sound
          | by apply purge_cooldowns_sound | by apply remove_cooldown_sound | by apply upsert_affinity_sound
          | by apply session_affinity_sound | by apply purge_affinities_sound | by apply remove_affinity_sound
          | by apply append_decision_sound | by apply append_event_sound | by apply append_usage_sound
          | by apply prune_sound ].
Qed.

Lemma steps_sound i j : store_steps i j -> store_wf i -> store_fits p i -> sound_step p i j.
Proof.
  induction 1 as [|j k _ IH Hstep]; intros Hwf Hf; [auto|].
  eapply sound_then; [by apply IH|]. by apply step_sound.
Qed.

Lemma default_wf : store_wf inner_default.
Proof.
  split; try done; split; constructor.
Qed.

Lemma default_fits : store_fits p inner_default.
Proof. unfold store_fits, rest_fits. simpl. rewrite !map_size_empty. repeat split; apply N.le_0_l. Qed.

Lemma reachable_sound i : store_reachable i -> store_wf i /\ store_fits p i.
Proof. intros Hr. destruct (steps_sound _ _ Hr default_wf default_fits) as (? & _ & ?). done. Qed.

(** What an applied fenced mutation leaves. *)
Lemma apply_fenced_result j id s enabled now current k :
  in_credentials j !! id = Some s -> apply_fenced j id s enabled now = (Ok (Applied current), k) ->
  cs_enabled current = enabled /\ in_credentials k !! id = Some current.
Proof.
  intros Hs. unfold apply_fenced.
  assert (Hc : in_credentials (reconcile_credential_health j id enabled now) = in_credentials j).
  { unfold reconcile_credential_health. destruct enabled; [|done]. destruct (in_health j !! id); [|done].
    by case_bool_decide. }
  destruct (Bool.eqb_spec (cs_enabled s) enabled) as [He|He]; [intros [= <- <-]; by rewrite Hc|].
  destruct (next_credential_revision _) as [[r m]|] eqn:En; [|done]. intros [= <- <-]. simpl.
  by rewrite lookup_insert_eq.
Qed.

(** [C13] In every history of the in-memory store its tables stay within the
    retention policy (a history of one request within 64 events), every row is
    filed under its own key, health records, session affinities and
    credential-scoped cooldowns belong to credentials that exist, no two
    credentials share a revision, and the identifiers of decisions, request events
    and usage records increase strictly and were all given out by the store. *)
Theorem memory_store_invariant i :
  store_reachable i ->
  store_fits p i /\ capped (in_request_events i) /\
  creds_ok (in_credentials i) (in_credential_revision i) /\
  health_ok (in_credentials i) (in_health i) /\
  affinities_ok (in_credentials i) (in_affinities i) /\
  cooldowns_ok (in_credentials i) (in_cooldowns i) /\
  ids_ok (map dr_id (in_decisions i)) (in_next_decision_id i) /\
  ids_ok (map re_id (in_request_events i)) (in_next_request_event_id i) /\
  ids_ok (map us_id (in_usage_records i)) (in_next_usage_record_id i).
Proof. intros [[] Hf]%reachable_sound. done. Qed.

(** [C14] A revision fences a credential row.  Over any sequence of operations a
    credential that still has (or has again) a revision it had before has exactly
    the row it had then, although rows may be removed, evicted and written again
    in between; so a mutation conditioned on the revision, provider and
    fingerprint a caller has seen applies only to the row the caller has seen, and
    a mutation whose fence fails changes nothing. *)
Theorem revision_fence_sound i j :
  store_reachable i -> store_steps i j ->
  (forall id s t, in_credentials i !! id = Some s -> in_credentials j !! id = Some t ->
     cs_revision s = cs_revision t -> s = t) /\
  (forall id s enabled now current k,
     in_credentials i !! id = Some s ->
     set_credential_enabled_if_current j id (cs_revision s) (cs_provider_id s) (cs_fingerprint s) enabled now
     = (Ok (Applied current), k) ->
     in_credentials j !! id = Some s /\ cs_enabled current = enabled /\ in_credentials k !! id = Some current) /\
  (forall id r provider fingerprint enabled now result k,
     set_credential_enabled_if_current j id r provider fingerprint enabled now = (Ok result, k) ->
     match result with Applied _ => True | _ => k = j end).
Proof.
  intros Hi Hj. destruct (reachable_sound i Hi) as [Hwf Hf].
  destruct (steps_sound i j Hj Hwf Hf) as (Hwf' & [_ Hrev] & _).
  assert (Haba : forall id s t, in_credentials i !! id = Some s -> in_credentials j !! id = Some t ->
    cs_revision s = cs_revision t -> s = t).
  { intros id s t Hs Ht Heq. destruct (Hrev id t Ht) as [Hsame|Hlt]; [congruence|].
    apply (proj1 (wf_creds _ Hwf)) in Hs as [_ ?]. lia. }
  split; [done|]. unfold set_credential_enabled_if_current. split.
  - intros id s enabled now current k Hs.
    do 3 (destruct (_ : StoreResult unit); [|done]).
    destruct (in_credentials j !! id) as [t|] eqn:Et; [|done].
    destruct (N.eqb_spec (cs_revision t) (cs_revision s)) as [Heq|]; simpl; [|done].
    destruct (_ || _); [done|]. rewrite (Haba id s t Hs Et) by done. intros Ha.
    split; [done|]. by eapply apply_fenced_result.
  - intros id r provider fingerprint enabled now result k.
    do 3 (destruct (_ : StoreResult unit); [|done]).
    destruct (in_credentials j !! id) as [t|] eqn:Et; [|by intros [= <- <-]].
    destruct (_ || _); [by intros [= <- <-]|]. unfold apply_fenced.
    destruct (Bool.eqb _ _); [by intros [= <- _]|]. destruct (next_credential_revision _) as [[]|]; [|done].
    by intros [= <- _].
Qed.
End system.

(** * Witnesses *)

Definition demo_policy : RetentionPolicy := MkRetention 1 2 2 2 10 2 10 1 1 1 1 1 1 10.
Definition demo_credential : CredentialState := MkCredentialState "c1" "p" "" true 5 0.
Definition demo_start : Inner := (upsert_credential_state demo_policy inner_default demo_credential).2.
Definition demo_end : Inner := (set_credential_enabled demo_start "c1" false 7).2.

Lemma demo_reachable : store_reachable demo_policy demo_start.
Proof. eapply steps_next; [apply steps_refl|apply st_upsert]. Qed.

Lemma memory_store_invariant_witness : store_fits demo_policy demo_start /\ size (in_credentials demo_start) = 1%nat.
Proof. split; [|reflexivity]. apply memory_store_invariant, demo_reachable. Defined.

Lemma revision_fence_sound_witness :
  (set_credential_enabled_if_current demo_end "c1" 1 "p" "" true 9).2 = demo_end /\
  (forall id s t, in_credentials demo_start !! id = Some s -> in_credentials demo_end !! id = Some t ->
     cs_revision s = cs_revision t -> s = t).
Proof.
  split; [reflexivity|].
  refine (proj1 (revision_fence_sound demo_policy demo_start demo_end demo_reachable _)).
  eapply steps_next; [apply steps_refl|apply st_enable].
Defined.
