(* ===== verification/Dialect.v ===== *)
(** Facts about upstream models (crates/pooler-core/src/dialect.rs): the
    parameters a model accepts, the features it is known to have and the bounds
    of its profile. *)
From S2P Require Import Prelude Str.

Inductive ParamSupport := Accepted | Rejected.

Inductive FactSupport := Unknown | Supported | Unsupported.

#[export] Instance ParamSupport_eq_dec : EqDecision ParamSupport.
Proof. solve_decision. Defined.
#[export] Instance FactSupport_eq_dec : EqDecision FactSupport.
Proof. solve_decision. Defined.

Definition is_accepted (p : ParamSupport) : bool := match p with Accepted => true | Rejected => false end.
Definition is_unknown (f : FactSupport) : bool := match f with Unknown => true | _ => false end.
Definition is_supported (f : FactSupport) : bool := match f with Supported => true | _ => false end.
Definition is_unsupported (f : FactSupport) : bool := match f with Unsupported => true | _ => false end.

(** The labels a model publishes; [Efforts.efforts_insert] records one. *)
Module Efforts.

Record ReasoningEffortSupport := MkEfforts {
  none : bool; minimal : bool; low : bool; medium : bool;
  high : bool; xhigh : bool; max : bool; default : bool;
}.

#[global] Instance ReasoningEffortSupport_eq_dec : EqDecision ReasoningEffortSupport.
Proof. solve_decision. Defined.

Definition NO_EFFORTS : ReasoningEffortSupport :=
  MkEfforts false false false false false false false false.

Definition efforts_is_empty (e : ReasoningEffortSupport) : bool :=
  negb (none e) && negb (minimal e) && negb (low e) && negb (medium e)
  && negb (high e) && negb (xhigh e) && negb (max e) && negb (default e).

Definition efforts_allows (e : ReasoningEffortSupport) (effort : string) : bool :=
  efforts_is_empty e
  || (if String.eqb effort "none" then none e
      else if String.eqb effort "minimal" then minimal e
      else if String.eqb effort "low" then low e
      else if String.eqb effort "medium" then medium e
      else if String.eqb effort "high" then high e
      else if String.eqb effort "xhigh" then xhigh e
      else if String.eqb effort "max" then max e
      else if String.eqb effort "default" then default e
      else false).

Definition efforts_insert (e : ReasoningEffortSupport) (effort : string) : ReasoningEffortSupport :=
  let '(MkEfforts n mi l me h x m d) := e in
  if String.eqb effort "none" then MkEfforts true mi l me h x m d
  else if String.eqb effort "minimal" then MkEfforts n true l me h x m d
  else if String.eqb effort "low" then MkEfforts n mi true me h x m d
  else if String.eqb effort "medium" then MkEfforts n mi l true h x m d
  else if String.eqb effort "high" then MkEfforts n mi l me true x m d
  else if String.eqb effort "xhigh" then MkEfforts n mi l me h true m d
  else if String.eqb effort "max" then MkEfforts n mi l me h x true d
  else if String.eqb effort "default" then MkEfforts n mi l me h x m true
  else e.

(** The vocabulary. *)
Definition EFFORTS : list string :=
  ["none"; "minimal"; "low"; "medium"; "high"; "xhigh"; "max"; "default"].

(** A recorded label is allowed from then on, and recording it keeps the answers
    for the other labels of a vocabulary that is not empty. *)
Lemma allows_insert e effort label :
  effort ∈ EFFORTS -> efforts_is_empty e = false ->
  efforts_allows (efforts_insert e effort) label = (String.eqb label effort || efforts_allows e label).
Proof.
  destruct e. unfold EFFORTS. intros H He.
  repeat (apply elem_of_cons in H as [->|H]); [..|by apply elem_of_nil in H];
    unfold efforts_allows; rewrite He; unfold efforts_insert; cbn -[String.eqb andb];
    repeat match goal with |- context [String.eqb ?x ?y] =>
      assert_fails (is_var x); let v := eval vm_compute in (String.eqb x y) in
      change (String.eqb x y) with v end;
    unfold efforts_is_empty; cbn -[String.eqb andb]; rewrite ?andb_false_r, ?andb_false_l; cbn -[String.eqb];
    repeat match goal with |- context [String.eqb label ?x] => destruct (String.eqb_spec label x) end;
    subst; done.
Qed.

End Efforts.

Module Modalities.

Record ModelModalities := MkModalities {
  text : bool; image : bool; audio : bool; pdf : bool; video : bool }.

#[global] Instance ModelModalities_eq_dec : EqDecision ModelModalities.
Proof. solve_decision. Defined.

Definition NO_MODALITIES : ModelModalities := MkModalities false false false false false.

Definition modalities_is_empty (m : ModelModalities) : bool :=
  negb (text m) && negb (image m) && negb (audio m) && negb (pdf m) && negb (video m).

Definition modalities_insert (m : ModelModalities) (modality : string) : ModelModalities :=
  let '(MkModalities t i a p v) := m in
  if String.eqb modality "text" then MkModalities true i a p v
  else if String.eqb modality "image" then MkModalities t true a p v
  else if String.eqb modality "audio" then MkModalities t i true p v
  else if String.eqb modality "pdf" then MkModalities t i a true v
  else if String.eqb modality "video" then MkModalities t i a p true
  else m.

End Modalities.

Inductive TokenLimitField :=
| FieldProtocolDefault | MaxTokens | MaxCompletionTokens | MaxOutputTokens
| GenerationConfigMaxOutputTokens.

Inductive ModelRequestTransform :=
| TransformProtocolDefault | OpenAiChat | AnthropicMessages | GeminiGenerateContent
| XaiChat | KimiChat.

Inductive InterleavedReasoningField := ReasoningContent | ReasoningDetails.

Record ModelEndpointVariants := MkEndpointVariants {
  chat_completions : bool; responses : bool; messages : bool;
  generate_content : bool; realtime : bool }.

#[export] Instance TokenLimitField_eq_dec : EqDecision TokenLimitField.
Proof. solve_decision. Defined.
#[export] Instance ModelRequestTransform_eq_dec : EqDecision ModelRequestTransform.
Proof. solve_decision. Defined.
#[export] Instance InterleavedReasoningField_eq_dec : EqDecision InterleavedReasoningField.
Proof. solve_decision. Defined.
#[export] Instance ModelEndpointVariants_eq_dec : EqDecision ModelEndpointVariants.
Proof. solve_decision. Defined.

Definition endpoint_variants_is_empty (v : ModelEndpointVariants) : bool :=
  negb (chat_completions v) && negb (responses v) && negb (messages v)
  && negb (generate_content v) && negb (realtime v).

Record ModelDialect := MkDialect { temperature : ParamSupport }.

Definition DIALECT_DEFAULT : ModelDialect := MkDialect Accepted.
Definition rejecting_temperature (d : ModelDialect) : ModelDialect := MkDialect Rejected.

#[export] Instance ModelDialect_eq_dec : EqDecision ModelDialect.
Proof. solve_decision. Defined.

Definition dialect_is_default (d : ModelDialect) : bool := beq d DIALECT_DEFAULT.

Record ModelProfile := MkProfile {
  mp_dialect : ModelDialect;
  mp_reasoning : FactSupport;
  mp_tools : FactSupport;
  mp_parallel_tools : FactSupport;
  mp_structured_output : FactSupport;
  mp_attachments : FactSupport;
  mp_streaming : FactSupport;
  mp_reasoning_toggle : FactSupport;
  mp_reasoning_budget_tokens : FactSupport;
  mp_reasoning_efforts : Efforts.ReasoningEffortSupport;
  mp_interleaved_reasoning : option InterleavedReasoningField;
  mp_input_modalities : Modalities.ModelModalities;
  mp_output_modalities : Modalities.ModelModalities;
  mp_context_limit : option N;
  mp_input_limit : option N;
  mp_output_limit : option N;
  mp_token_limit_field : TokenLimitField;
  mp_request_transform : ModelRequestTransform;
  mp_endpoint_variants : ModelEndpointVariants;
}.

Definition PROFILE_DEFAULT : ModelProfile :=
  MkProfile DIALECT_DEFAULT Unknown Unknown Unknown Unknown Unknown Unknown Unknown Unknown
    Efforts.NO_EFFORTS None Modalities.NO_MODALITIES Modalities.NO_MODALITIES None None None
    FieldProtocolDefault TransformProtocolDefault (MkEndpointVariants false false false false false).

#[export] Instance ModelProfile_eq_dec : EqDecision ModelProfile.
Proof. solve_decision. Defined.

Definition profile_is_default (p : ModelProfile) : bool := beq p PROFILE_DEFAULT.

(** Assignments to the fields of a profile. *)
Definition set_mp_dialect (d : ModelDialect) (p : ModelProfile) : ModelProfile :=
  let '(MkProfile _ r t pt so a s rt rb re ir im om cl il ol tl rq ev) := p in
  MkProfile d r t pt so a s rt rb re ir im om cl il ol tl rq ev.
Definition set_mp_facts (r t so s a : FactSupport) (p : ModelProfile) : ModelProfile :=
  let '(MkProfile d _ _ pt _ _ _ rt rb re ir im om cl il ol tl rq ev) := p in
  MkProfile d r t pt so a s rt rb re ir im om cl il ol tl rq ev.
