(* ===== verification/Catalog.v ===== *)
(** The model catalog (crates/pooler-model-catalog/src/lib.rs, overrides.rs): the
    configuration of discovery sources, model patterns, the records of the merged
    catalog and the overrides of an operator. *)
From S2P Require Import Prelude Str Time CoreId Capabilities Bytes Json Dialect.

Open Scope N_scope.

Definition MAX_ALIASES_PER_SOURCE : N := 1024.
Definition MAX_INCLUSIONS_PER_SOURCE : N := 1024.
Definition MAX_EXCLUSIONS_PER_SOURCE : N := 1024.
Definition MAX_DISPLAY_NAME_BYTES : N := 512.
Definition MAX_REVISION_BYTES : N := 512.
Definition HARD_MAX_SOURCES : N := 1024.
Definition HARD_MAX_MODELS_PER_SOURCE : N := 50000.
Definition HARD_MAX_TOTAL_MODELS : N := 100000.
Definition HARD_MAX_REFRESH_CONCURRENCY : N := 64.
Definition HARD_MAX_REFRESH_TIMEOUT : Duration := from_secs (5 * 60).
Definition HARD_MAX_MERGE_OPERATIONS : N := 20000000.

Record SourceId := MkSourceId { source_component : ComponentId }.
Definition source_str (s : SourceId) : string := component_str (source_component s).
Definition source_new (value : string) : Result SourceId IdentifierError :=
  let? c := component_new value in Ok (MkSourceId c).

#[export] Instance ComponentId_eq_dec : EqDecision ComponentId. Proof. solve_decision. Defined.
#[export] Instance SourceId_eq_dec : EqDecision SourceId. Proof. solve_decision. Defined.
#[export] Instance SourceId_countable : Countable SourceId.
Proof. by refine (inj_countable' source_str (fun s => MkSourceId (MkComponentId s)) _); intros [[]]. Defined.

Definition source_cmp (a b : SourceId) : comparison := String.compare (source_str a) (source_str b).
Definition provider_cmp (a b : ProviderId) : comparison := String.compare (provider_str a) (provider_str b).

#[export] Instance ord_source : OrdCmp source_cmp.
Proof. apply ord_newtype. intros [[]] [[]]. unfold source_str. simpl. congruence. Qed.
#[export] Instance ord_provider : OrdCmp provider_cmp.
Proof. apply ord_newtype. intros [] []. simpl. congruence. Qed.

(** * Errors

    Where the source keeps the text of an identifier error, the model keeps the
    error. *)

Inductive DiscoveryFailureKind :=
| DiscoveryTransport | DiscoveryAuthentication | DiscoveryProvider | DiscoveryInvalidResponse
| ManualModelRequired | DiscoveryLimitExceeded | DiscoveryCancelled | DiscoveryInternal.

Inductive AliasPart := UpstreamPart | PublicPart.

Record PublicMappingConflict := MkConflict {
  pc_public_model : ModelId;
  pc_provider : ProviderId;
  pc_account : option string;
  pc_account_pool : option string;
  pc_first_upstream : ModelId;
  pc_first_source : SourceId;
  pc_second_upstream : ModelId;
  pc_second_source : SourceId;
}.

Inductive CatalogError :=
| InvalidSourceId (message : IdentifierError)
| InvalidProviderId (source_id : SourceId) (message : IdentifierError)
| InvalidPrefix (source_id : SourceId) (prefix : string)
| AmbiguousSourceBinding (source_id : SourceId)
| InvalidSourceBindingName (source_id : SourceId) (field : string)
| InvalidBinding (source_id : SourceId) (model : ModelId) (message : IdentifierError)
| InvalidOverrideModel (message : IdentifierError)
| InvalidOverrideDisplayName (model : ModelId)
| EmptyOverride (model : ModelId)
| DuplicateOverride (model : ModelId)
| OverrideLimitExceeded (actual maximum : N)
| InvalidOverlayPointer (model : ModelId) (pointer : string)
| OverlayValueTooLarge (model : ModelId) (pointer : string)
| OverlayLimitExceeded (model : ModelId) (actual maximum : N)
| InvalidAlias (source_id : SourceId) (part : AliasPart) (message : IdentifierError)
| DuplicateAlias (source_id : SourceId) (alias : ModelId)
| AliasLimitExceeded (source_id : SourceId) (actual maximum : N)
| InvalidInclusion (source_id : SourceId) (pattern : string)
| DuplicateInclusion (source_id : SourceId) (pattern : string)
| InclusionLimitExceeded (source_id : SourceId) (actual maximum : N)
| InvalidExclusion (source_id : SourceId) (pattern : string)
| DuplicateExclusion (source_id : SourceId) (pattern : string)
| ExclusionLimitExceeded (source_id : SourceId) (actual maximum : N)
| InvalidDisplayName (source_id : SourceId)
| InvalidRevision (source_id : SourceId)
| InvalidRefreshLimit (field : string) (actual maximum : N)
| InvalidRefreshTimeout (actual_ms maximum_ms : N)
| SourceLimitExceeded (actual maximum : N)
| DuplicateSource (source_id : SourceId)
| DuplicateDiscoveredModel (source_id : SourceId) (model : ModelId)
| SourceModelLimitExceeded (source_id : SourceId) (actual maximum : N)
| TotalModelLimitExceeded (actual maximum : N)
| MergeWorkLimitExceeded (actual maximum : N)
| PrefixedModelInvalid (source_id : SourceId) (model : ModelId) (message : IdentifierError)
| ConflictingPublicMapping (conflict : PublicMappingConflict)
| RefreshInProgress
| UnknownSelectionSource (source_id : string)
| InvalidSelectionModel (model : string)
| SelectionStateUnavailable
| RefreshTimedOut (timeout_ms : N)
| DiscoveryFailed (source_id : SourceId) (kind : DiscoveryFailureKind)
| MergeWorkerFailed
| GenerationExhausted.

Abbreviation CatalogResult A := (Result A CatalogError).

(** [iter.map(f).collect::<Result<Vec<_>, _>>()]. *)
Fixpoint try_map {A B E} (f : A -> Result B E) (l : list A) : Result (list B) E :=
  match l with
  | [] => Ok []
  | x :: l => let? y := f x in let? ys := try_map f l in Ok (y :: ys)
  end.

(** The scan of [windows(2)] for the first element whose key is repeated by its
    successor. *)
Fixpoint adjacent_dup {A K} `{EqDecision K} (key : A -> K) (l : list A) : option A :=
  match l with
  | x :: (y :: _) as rest => if beq (key x) (key y) then Some x else adjacent_dup key rest
  | _ => None
  end.

(** The scan that inserts each key in a fresh set and stops at a repeated one. *)
Fixpoint first_repeated {A K} `{Countable K} (key : A -> K) (seen : gset K) (l : list A) : option A :=
  match l with
  | [] => None
  | x :: l => if bool_decide (key x ∈ seen) then Some x else first_repeated key ({[key x]} ∪ seen) l
  end.

(** * Refresh limits *)

Record RefreshConfig := MkRefreshConfig {
  fc_timeout_ms : N;
  fc_max_sources : N;
  fc_max_models_per_source : N;
  fc_max_total_models : N;
  fc_max_concurrency : N;
  fc_max_merge_operations : N;
}.

Definition refresh_config_default : RefreshConfig := MkRefreshConfig 30000 64 5000 20000 8 5000000.

Record RefreshLimits := MkRefreshLimits {
  rl_timeout : Duration;
  rl_max_sources : N;
  rl_max_models_per_source : N;
  rl_max_total_models : N;
  rl_max_concurrency : N;
  rl_max_merge_operations : N;
}.

Definition validate_limit (field : string) (actual maximum : N) : CatalogResult unit :=
  if (actual =? 0) || (maximum <? actual) then Err (InvalidRefreshLimit field actual maximum) else Ok tt.

Definition duration_millis_u64 (d : Duration) : N := N.min U64_MAX (d / 1000000).

Definition refresh_compile (c : RefreshConfig) : CatalogResult RefreshLimits :=
  let? _ := validate_limit "max_sources" (fc_max_sources c) HARD_MAX_SOURCES in
  let? _ := validate_limit "max_models_per_source" (fc_max_models_per_source c)
              HARD_MAX_MODELS_PER_SOURCE in
  let? _ := validate_limit "max_total_models" (fc_max_total_models c) HARD_MAX_TOTAL_MODELS in
  let? _ := validate_limit "max_concurrency" (fc_max_concurrency c) HARD_MAX_REFRESH_CONCURRENCY in
  let? _ := validate_limit "max_merge_operations" (fc_max_merge_operations c)
              HARD_MAX_MERGE_OPERATIONS in
  let timeout := from_millis (fc_timeout_ms c) in
  if is_zero timeout || (HARD_MAX_REFRESH_TIMEOUT <? timeout)
  then Err (InvalidRefreshTimeout (fc_timeout_ms c) (duration_millis_u64 HARD_MAX_REFRESH_TIMEOUT))
  else Ok (MkRefreshLimits timeout (fc_max_sources c) (fc_max_models_per_source c)
             (fc_max_total_models c) (fc_max_concurrency c) (fc_max_merge_operations c)).

(** * Validation *)

Definition has_control (s : string) : bool := existsb char_is_control (chars s).
Definition has_control_or_space (s : string) : bool :=
  existsb (fun c => char_is_control c || char_is_whitespace c) (chars s).

Definition STAR : Ascii.ascii := Ascii.ascii_of_N 0x2A.

Definition validate_prefix (source : SourceId) (prefix : string) : CatalogResult string :=
  if str_is_empty prefix || (MAX_IDENTIFIER_LENGTH <? str_len prefix)
     || starts_with_char prefix SLASH || ends_with_char prefix SLASH || contains_char prefix STAR
     || has_control_or_space prefix
  then Err (InvalidPrefix source prefix) else Ok prefix.

Definition normalize_binding_name (source : SourceId) (value : option string) (field : string)
  : CatalogResult (option string) :=
  match value with
  | None => Ok None
  | Some value =>
    let value := trim value in
    if str_is_empty value || (MAX_IDENTIFIER_LENGTH <? str_len value) || has_control_or_space value
    then Err (InvalidSourceBindingName source field) else Ok (Some value)
  end.

Definition display_name_invalid (display_name : string) : bool :=
  str_is_empty display_name || (MAX_DISPLAY_NAME_BYTES <? str_len display_name)
  || has_control display_name.

Definition validate_display_name (source : SourceId) (display_name : string) : CatalogResult unit :=
  if display_name_invalid display_name then Err (InvalidDisplayName source) else Ok tt.

Definition validate_revision (source : SourceId) (revision : option string) : CatalogResult unit :=
  if is_some_and revision (fun r => str_is_empty r || (MAX_REVISION_BYTES <? str_len r) || has_control r)
  then Err (InvalidRevision source) else Ok tt.

(** * Patterns *)

(** The second loop of [wildcard_matches], over what follows position [pi]. *)
Fixpoint skip_stars (rest : bytes) (pi : nat) : nat :=
  match rest with
  | b :: rest => if b =? 0x2A then skip_stars rest (S pi) else pi
  | [] => pi
  end.

(** The first loop of [wildcard_matches] over byte positions: [star] is the position of
    the last star and the value position its span ends at.  [None] when the fuel
    runs out. *)
Fixpoint wildcard_loop (fuel : nat) (pattern value : bytes) (pi vi : nat) (star : option (nat * nat))
  : option bool :=
  match fuel with
  | O => None
  | S fuel =>
    if (vi <? length value)%nat then
      if beq (pattern !! pi) (value !! vi) then wildcard_loop fuel pattern value (S pi) (S vi) star
      else if beq (pattern !! pi) (Some 0x2A)
      then wildcard_loop fuel pattern value (S pi) vi (Some (pi, vi))
      else match star with
           | Some (s, svi) => wildcard_loop fuel pattern value (S s) (S svi) (Some (s, S svi))
           | None => Some false
           end
    else Some (skip_stars (drop pi pattern) pi =? length pattern)%nat
  end.

Definition wildcard_fuel (pattern value : bytes) : nat :=
  S (length value * S (length value) + S (length pattern) + length value).

Definition wildcard_matches (pattern value : string) : bool :=
  let p := bytes_of pattern in
  let v := bytes_of value in
  default false (wildcard_loop (wildcard_fuel p v) p v 0 0 None).

Record ModelPattern := MkPattern { pattern : string }.

Inductive PatternKind := Inclusion | Exclusion.

Definition kind_invalid (k : PatternKind) (source : SourceId) (p : string) : CatalogError :=
  match k with Inclusion => InvalidInclusion source p | Exclusion => InvalidExclusion source p end.
Definition kind_duplicate (k : PatternKind) (source : SourceId) (p : string) : CatalogError :=
  match k with Inclusion => DuplicateInclusion source p | Exclusion => DuplicateExclusion source p end.

Definition pattern_new (source : SourceId) (p : string) (k : PatternKind) : CatalogResult ModelPattern :=
  if str_is_empty p || (MAX_IDENTIFIER_LENGTH <? str_len p) || has_control_or_space p
  then Err (kind_invalid k source p) else Ok (MkPattern p).

Definition pattern_matches (p : ModelPattern) (model : string) : bool :=
  wildcard_matches (pattern p) model.

Definition compile_patterns (source : SourceId) (patterns : list string) (k : PatternKind)
  : CatalogResult (list ModelPattern) :=
  let? patterns := try_map (fun p => pattern_new source p k) patterns in
  let patterns := sort_by (fun a b => String.compare (pattern a) (pattern b)) patterns in
  match adjacent_dup pattern patterns with
  | Some p => Err (kind_duplicate k source (pattern p))
  | None => Ok patterns
  end.

(** * Sources *)

Record AliasConfig := MkAliasConfig {
  alc_name : string;
  alc_alias : string;
  alc_fork : bool;
  alc_display_name : option string;
  alc_force_mapping : bool;
}.

Record CatalogAlias := MkCatalogAlias {
  al_upstream_id : ModelId;
  al_public_id : ModelId;
  al_fork : bool;
  al_display_name : option string;
  al_force_mapping : bool;
}.

Record CatalogSourceConfig := MkSourceConfig {
  sc_id : string;
  sc_provider : string;
  sc_account : option string;
  sc_account_pool : option string;
  sc_prefix : option string;
  sc_priority : Z;
  sc_aliases : list AliasConfig;
  sc_included_models : list string;
  sc_excluded_models : list string;
}.

Record CatalogSource := MkSource {
  so_id : SourceId;
  so_provider : ProviderId;
  so_account : option string;
  so_account_pool : option string;
  so_prefix : option string;
  so_priority : Z;
  so_aliases : list CatalogAlias;
  so_inclusions : list ModelPattern;
  so_exclusions : list ModelPattern;
}.

Definition alias_compile (source : SourceId) (a : AliasConfig) : CatalogResult CatalogAlias :=
  let? upstream_id := map_err (InvalidAlias source UpstreamPart) (named_new MkModelId (alc_name a)) in
  let? public_id := map_err (InvalidAlias source PublicPart) (named_new MkModelId (alc_alias a)) in
  let? _ := match alc_display_name a with
            | Some d => validate_display_name source d
            | None => Ok tt
            end in
  Ok (MkCatalogAlias upstream_id public_id (alc_fork a) (alc_display_name a) (alc_force_mapping a)).

Definition alias_order (a b : CatalogAlias) : comparison :=
  model_cmp (al_public_id a) (al_public_id b) <|> model_cmp (al_upstream_id a) (al_upstream_id b).

Definition check_rule_count (limit : N) (actual : nat) (error : N -> N -> CatalogError)
  : CatalogResult unit :=
  if limit <? N.of_nat actual then Err (error (N.of_nat actual) limit) else Ok tt.

Definition source_compile (c : CatalogSourceConfig) : CatalogResult CatalogSource :=
  let? source := map_err InvalidSourceId (source_new (sc_id c)) in
  let? provider := map_err (InvalidProviderId source) (named_new MkProviderId (sc_provider c)) in
  let? account := normalize_binding_name source (sc_account c) "account" in
  let? account_pool := normalize_binding_name source (sc_account_pool c) "account pool" in
  if is_some account && is_some account_pool then Err (AmbiguousSourceBinding source)
  else
    let? prefix := match sc_prefix c with
                   | Some p => let? p := validate_prefix source p in Ok (Some p)
                   | None => Ok None
                   end in
    let? _ := check_rule_count MAX_ALIASES_PER_SOURCE (length (sc_aliases c)) (AliasLimitExceeded source) in
    let? _ := check_rule_count MAX_INCLUSIONS_PER_SOURCE (length (sc_included_models c))
                (InclusionLimitExceeded source) in
    let? _ := check_rule_count MAX_EXCLUSIONS_PER_SOURCE (length (sc_excluded_models c))
                (ExclusionLimitExceeded source) in
    let? aliases := try_map (alias_compile source) (sc_aliases c) in
    let aliases := sort_by alias_order aliases in
    match adjacent_dup al_public_id aliases with
    | Some a => Err (DuplicateAlias source (al_public_id a))
    | None =>
      let? inclusions := compile_patterns source (sc_included_models c) Inclusion in
      let? exclusions := compile_patterns source (sc_excluded_models c) Exclusion in
      Ok (MkSource source provider account account_pool prefix (sc_priority c) aliases
            inclusions exclusions)
    end.

(** [CatalogSource::with_binding]. *)
Definition with_binding (s : CatalogSource) (account account_pool : option string)
  : CatalogResult CatalogSource :=
  let? account := normalize_binding_name (so_id s) account "account" in
  let? account_pool := normalize_binding_name (so_id s) account_pool "account pool" in
  if is_some account && is_some account_pool then Err (AmbiguousSourceBinding (so_id s))
  else if is_some (so_account s) && is_some account && negb (beq (so_account s) account)
  then Err (AmbiguousSourceBinding (so_id s))
  else if is_some (so_account_pool s) && is_some account_pool
          && negb (beq (so_account_pool s) account_pool)
  then Err (AmbiguousSourceBinding (so_id s))
  else Ok (MkSource (so_id s) (so_provider s) (or_else (so_account s) account)
             (or_else (so_account_pool s) account_pool) (so_prefix s) (so_priority s) (so_aliases s)
             (so_inclusions s) (so_exclusions s)).

Definition source_order (a b : CatalogSource) : comparison :=
  Z.compare (so_priority b) (so_priority a) <|> source_cmp (so_id a) (so_id b).

(** * Discovery *)

Record DiscoveredModel := MkDiscovered {
  dm_id : ModelId;
  dm_display_name : option string;
  dm_capabilities : CapabilitySet.t;
  dm_dialect : ModelDialect;
  dm_profile : ModelProfile;
}.

Definition discovered_new (id : ModelId) (capabilities : CapabilitySet.t) : DiscoveredModel :=
  MkDiscovered id None capabilities DIALECT_DEFAULT PROFILE_DEFAULT.
Definition with_dialect (m : DiscoveredModel) (d : ModelDialect) : DiscoveredModel :=
  MkDiscovered (dm_id m) (dm_display_name m) (dm_capabilities m) d (set_mp_dialect d (dm_profile m)).
Definition with_profile (m : DiscoveredModel) (p : ModelProfile) : DiscoveredModel :=
  MkDiscovered (dm_id m) (dm_display_name m) (dm_capabilities m) (mp_dialect p) p.

Record DiscoveryResponse := MkResponse {
  ds_revision : option string;
  ds_models : list DiscoveredModel;
}.

Record CatalogInput := MkInput { ip_source : CatalogSource; ip_response : DiscoveryResponse }.

(** * The merged catalog *)

Inductive ExposureKind := Direct | Alias | ForkedAlias.

Record CatalogBindingDescriptor := MkDescriptor {
  bd_binding_id : string;
  bd_model : ModelId;
  bd_target_id : string;
  bd_provider : ProviderId;
  bd_account : option string;
  bd_account_pool : option string;
  bd_upstream_model : ModelId;
  bd_priority : N;
  bd_signed_priority : Z;
}.

Record ModelProvenance := MkProvenance {
  pv_source : SourceId;
  pv_provider : ProviderId;
  pv_account : option string;
  pv_account_pool : option string;
  pv_upstream_model : ModelId;
  pv_revision : option string;
  pv_observed_at_unix_ms : N;
  pv_exposure : ExposureKind;
  pv_prefix : option string;
  pv_signed_priority : Z;
  pv_priority_tier : N;
}.

Record CatalogTarget := MkTarget {
  ct_binding : CatalogBindingDescriptor;
  ct_provider : ProviderId;
  ct_upstream_model : ModelId;
  ct_capabilities : CapabilitySet.t;
  ct_dialect : ModelDialect;
  ct_profile : ModelProfile;
  ct_force_mapping : bool;
  ct_priority : N;
  ct_signed_priority : Z;
  ct_provenance : list ModelProvenance;
}.
Definition ct_account (t : CatalogTarget) : option string := bd_account (ct_binding t).
Definition ct_account_pool (t : CatalogTarget) : option string := bd_account_pool (ct_binding t).

Definition RequestOverlay : Type := list (string * Value).

Record CatalogModel := MkCatalogModel {
  cm_id : ModelId;
  cm_display_name : option string;
  cm_targets : list CatalogTarget;
  cm_request_overlay : RequestOverlay;
}.

Record CatalogSourceState := MkSourceState {
  st_provider : ProviderId;
  st_account : option string;
  st_account_pool : option string;
  st_signed_priority : Z;
  st_revision : option string;
  st_observed_at_unix_ms : N;
  st_discovered_models : N;
  st_not_included_models : N;
  st_excluded_models : N;
  st_published_exposures : N;
}.

Record OverrideState := MkOverrideState {
  ov_disabled_models : list ModelId;
  ov_unmatched_models : list ModelId;
}.

Record CatalogSnapshot := MkSnapshot {
  sn_generation : N;
  sn_refreshed_at_unix_ms : N;
  sn_models : gmap ModelId CatalogModel;
  sn_sources : gmap SourceId CatalogSourceState;
  sn_overrides : OverrideState;
}.

Definition snapshot_empty : CatalogSnapshot := MkSnapshot 0 0 ∅ ∅ (MkOverrideState [] []).

Definition target_count (s : CatalogSnapshot) : N :=
  foldr (fun m n => N.of_nat (length (cm_targets m)) + n) 0 (btree_values model_cmp (sn_models s)).

(** * Overrides (overrides.rs) *)

Definition MAX_MODEL_OVERRIDES : N := 1024.
Definition MAX_OVERLAY_FIELDS : N := 32.
Definition MAX_OVERLAY_POINTER_BYTES : N := 256.
Definition MAX_OVERLAY_VALUE_BYTES : N := 4096.

Record ModelOverrideConfig := MkOverrideConfig {
  oc_model : string;
  oc_disabled : bool;
  oc_display_name : option string;
  oc_capabilities : option CapabilitySet.t;
  oc_profile : option ModelProfile;
  oc_dialect : option ModelDialect;
  oc_request : gmap string Value;
}.

Record ModelOverride := MkOverride {
  mo_disabled : bool;
  mo_display_name : option string;
  mo_capabilities : option CapabilitySet.t;
  mo_profile : option ModelProfile;
  mo_dialect : option ModelDialect;
  mo_overlay : RequestOverlay;
}.

Definition ModelOverrides : Type := gmap ModelId ModelOverride.

Section overlay.
Context `{SerdeJson}.

(** One turn of the loop of [RequestOverlay::compile]. *)
Definition overlay_field (model : ModelId) (field : string * Value) : CatalogResult (string * Value) :=
  let pointer := trim field.1 in
  if negb (starts_with_char pointer SLASH) || (MAX_OVERLAY_POINTER_BYTES <? str_len pointer)
  then Err (InvalidOverlayPointer model pointer)
  else if match to_vec field.2 with Ok text => MAX_OVERLAY_VALUE_BYTES <? blen text | Err _ => true end
  then Err (OverlayValueTooLarge model pointer)
  else Ok (pointer, field.2).

Definition overlay_compile (declared : gmap string Value) (model : ModelId) : CatalogResult RequestOverlay :=
  if MAX_OVERLAY_FIELDS <? N.of_nat (size declared)
  then Err (OverlayLimitExceeded model (N.of_nat (size declared)) MAX_OVERLAY_FIELDS)
  else try_map (overlay_field model) (btree_list String.compare declared).

Definition overlay_is_empty (o : RequestOverlay) : bool := match o with [] => true | _ => false end.

Definition changes_anything (o : ModelOverride) : bool :=
  mo_disabled o || is_some (mo_display_name o) || is_some (mo_capabilities o) || is_some (mo_profile o)
  || is_some (mo_dialect o) || negb (overlay_is_empty (mo_overlay o)).

Definition override_compile (c : ModelOverrideConfig) : CatalogResult (ModelId * ModelOverride) :=
  let? model := map_err InvalidOverrideModel (named_new MkModelId (oc_model c)) in
  if is_some_and (oc_display_name c) display_name_invalid then Err (InvalidOverrideDisplayName model)
  else
    let? overlay := overlay_compile (oc_request c) model in
    let overridden := MkOverride (oc_disabled c) (oc_display_name c) (oc_capabilities c) (oc_profile c)
                        (oc_dialect c) overlay in
    if negb (changes_anything overridden) then Err (EmptyOverride model)
    else Ok (model, overridden).

Fixpoint overrides_loop (entries : ModelOverrides) (l : list ModelOverrideConfig)
  : CatalogResult ModelOverrides :=
  match l with
  | [] => Ok entries
  | c :: l =>
    let? (model, overridden) := override_compile c in
    match entries !! model with
    | Some _ => Err (DuplicateOverride model)
    | None => overrides_loop (<[model := overridden]> entries) l
    end
  end.

Definition overrides_compile (l : list ModelOverrideConfig) : CatalogResult ModelOverrides :=
  if MAX_MODEL_OVERRIDES <? N.of_nat (length l)
  then Err (OverrideLimitExceeded (N.of_nat (length l)) MAX_MODEL_OVERRIDES)
  else overrides_loop ∅ l.

(** * The catalog configuration *)

Record CatalogConfig := MkCatalogConfig {
  cc_sources : list CatalogSourceConfig;
  cc_refresh : RefreshConfig;
  cc_overrides : list ModelOverrideConfig;
}.

Record CompiledCatalogConfig := MkCompiledCatalog {
  kc_limits : RefreshLimits;
  kc_sources : list CatalogSource;
  kc_overrides : ModelOverrides;
}.

Definition catalog_compile (c : CatalogConfig) : CatalogResult CompiledCatalogConfig :=
  let? limits := refresh_compile (cc_refresh c) in
  let count := N.of_nat (length (cc_sources c)) in
  if rl_max_sources limits <? count then Err (SourceLimitExceeded count (rl_max_sources limits))
  else
    let? sources := try_map source_compile (cc_sources c) in
    let sources := sort_by source_order sources in
    match first_repeated so_id ∅ sources with
    | Some s => Err (DuplicateSource (so_id s))
    | None =>
      let? overrides := overrides_compile (cc_overrides c) in
      Ok (MkCompiledCatalog limits sources overrides)
    end.

End overlay.

Definition capability_fact (s : CapabilitySet.t) (c : Capability) : FactSupport :=
  if CapabilitySet.contains s c then Supported else Unsupported.

Definition set_target_facts (c : CapabilitySet.t) (d : ModelDialect) (p : ModelProfile) (t : CatalogTarget)
  : CatalogTarget :=
  MkTarget (ct_binding t) (ct_provider t) (ct_upstream_model t) c d p (ct_force_mapping t)
    (ct_priority t) (ct_signed_priority t) (ct_provenance t).

(** One turn of the loop of [ModelOverride::apply], over its three assignments. *)
Definition override_profile (o : ModelOverride) (t : CatalogTarget) : CatalogTarget :=
  match mo_profile o with
  | Some p => set_target_facts (ct_capabilities t) (mp_dialect p) p t
  | None => t
  end.
Definition override_capabilities (o : ModelOverride) (t : CatalogTarget) : CatalogTarget :=
  match mo_capabilities o with
  | Some c =>
    let fact := capability_fact c in
    set_target_facts c (ct_dialect t)
      (set_mp_facts (fact Reasoning) (fact Tools) (fact StructuredOutput) (fact Streaming) (fact Files)
         (ct_profile t)) t
  | None => t
  end.
Definition override_dialect (o : ModelOverride) (t : CatalogTarget) : CatalogTarget :=
  match mo_dialect o with
  | Some d => set_target_facts (ct_capabilities t) d (set_mp_dialect d (ct_profile t)) t
  | None => t
  end.
Definition override_target (o : ModelOverride) (t : CatalogTarget) : CatalogTarget :=
  override_dialect o (override_capabilities o (override_profile o t)).

Definition override_apply (o : ModelOverride) (m : CatalogModel) : CatalogModel :=
  MkCatalogModel (cm_id m)
    (match mo_display_name o with Some d => Some d | None => cm_display_name m end)
    (map (override_target o) (cm_targets m))
    (if overlay_is_empty (mo_overlay o) then cm_request_overlay m else mo_overlay o).

(** The loop of [apply_all] over the merged models in key order. *)
Fixpoint apply_loop (entries : ModelOverrides) (models : list (ModelId * CatalogModel))
    (retained : gmap ModelId CatalogModel) (disabled : list ModelId) (matched : gset ModelId)
  : gmap ModelId CatalogModel * list ModelId * gset ModelId :=
  match models with
  | [] => (retained, disabled, matched)
  | (public_id, model) :: models =>
    match entries !! public_id with
    | None => apply_loop entries models (<[public_id := model]> retained) disabled matched
    | Some o =>
      apply_loop entries models (<[public_id := override_apply o model]> retained)
        (if mo_disabled o then disabled ++ [public_id] else disabled) ({[public_id]} ∪ matched)
    end
  end.

Definition apply_all (entries : ModelOverrides) (models : gmap ModelId CatalogModel)
  : gmap ModelId CatalogModel * OverrideState :=
  if decide (entries = ∅) then (models, MkOverrideState [] [])
  else
    let '(retained, disabled, matched) := apply_loop entries (btree_list model_cmp models) ∅ [] ∅ in
    (retained, MkOverrideState disabled
       (List.filter (fun m => negb (bool_decide (m ∈ matched))) (btree_keys model_cmp entries))).
