(* ===== verification/CatalogMerge.v ===== *)
(** Merging discovered models into a catalog (crates/pooler-model-catalog/src/lib.rs,
    [merge_discoveries]) and the catalog service: bulk selection per source and the
    refresh that publishes a snapshot. *)
From S2P Require Import Prelude Str Time CoreId Capabilities Bytes Json Dialect Catalog.

Open Scope N_scope.

(** * Candidates *)

Record TargetIdentity := MkIdentity {
  ti_provider : ProviderId; ti_account : option string; ti_account_pool : option string }.

#[export] Instance TargetIdentity_eq_dec : EqDecision TargetIdentity. Proof. solve_decision. Defined.
#[export] Instance TargetIdentity_countable : Countable TargetIdentity.
Proof.
  by refine (inj_countable' (fun t => (ti_provider t, ti_account t, ti_account_pool t))
    (fun t => MkIdentity t.1.1 t.1.2 t.2) _); intros [].
Defined.

Record Candidate := MkCandidate {
  ca_display_name : option string;
  ca_provider : ProviderId;
  ca_account : option string;
  ca_account_pool : option string;
  ca_upstream_model : ModelId;
  ca_capabilities : CapabilitySet.t;
  ca_dialect : ModelDialect;
  ca_profile : ModelProfile;
  ca_force_mapping : bool;
  ca_priority : N;
  ca_signed_priority : Z;
  ca_provenance : ModelProvenance;
}.

Definition candidate_order (a b : Candidate) : comparison :=
  N.compare (ca_priority a) (ca_priority b)
  <|> source_cmp (pv_source (ca_provenance a)) (pv_source (ca_provenance b))
  <|> provider_cmp (ca_provider a) (ca_provider b)
  <|> model_cmp (ca_upstream_model a) (ca_upstream_model b).

Definition target_order (a b : CatalogTarget) : comparison :=
  N.compare (ct_priority a) (ct_priority b)
  <|> provider_cmp (ct_provider a) (ct_provider b)
  <|> String.compare (bd_binding_id (ct_binding a)) (bd_binding_id (ct_binding b))
  <|> model_cmp (ct_upstream_model a) (ct_upstream_model b).

Definition exposure_rank (e : ExposureKind) : N :=
  match e with Direct => 0 | Alias => 1 | ForkedAlias => 2 end.

Definition provenance_order (a b : ModelProvenance) : comparison :=
  source_cmp (pv_source a) (pv_source b)
  <|> model_cmp (pv_upstream_model a) (pv_upstream_model b)
  <|> N.compare (exposure_rank (pv_exposure a)) (exposure_rank (pv_exposure b)).

Definition prefixed_model_id (source : CatalogSource) (public_id : ModelId) : CatalogResult ModelId :=
  match so_prefix source with
  | None => Ok public_id
  | Some prefix =>
    map_err (PrefixedModelInvalid (so_id source) public_id)
      (named_new MkModelId (prefix +:+ "/" +:+ model_str public_id)%string)
  end.

Abbreviation Candidates := (gmap ModelId (list Candidate)).

(** The candidate [push_candidate] builds. *)
Definition candidate_of (source : CatalogSource) (revision : option string) (observed_at : N)
    (model : DiscoveredModel) (display_name : option string) (exposure : ExposureKind)
    (force_mapping : bool) (tier : N) : Candidate :=
  MkCandidate display_name (so_provider source) (so_account source) (so_account_pool source)
    (dm_id model) (dm_capabilities model) (dm_dialect model) (dm_profile model) force_mapping tier
    (so_priority source)
    (MkProvenance (so_id source) (so_provider source) (so_account source) (so_account_pool source)
       (dm_id model) revision observed_at exposure (so_prefix source) (so_priority source) tier).

Definition push_entry (public_id : ModelId) (c : Candidate) (m : Candidates) : Candidates :=
  <[public_id := default [] (m !! public_id) ++ [c]]> m.

Definition push_candidate (candidates : Candidates) (source : CatalogSource) (revision : option string)
    (observed_at : N) (model : DiscoveredModel) (unprefixed : ModelId) (display_name : option string)
    (exposure : ExposureKind) (force_mapping : bool) (tier : N) : CatalogResult Candidates :=
  let? public_id := prefixed_model_id source unprefixed in
  let? _ := map_err (InvalidBinding (so_id source) public_id)
              (target_binding_new (model_str public_id) (source_str (so_id source))) in
  Ok (push_entry public_id
        (candidate_of source revision observed_at model display_name exposure force_mapping tier)
        candidates).

(** * Reading one source *)

Definition matching_aliases (source : CatalogSource) (model : DiscoveredModel) : list CatalogAlias :=
  List.filter (fun a => beq (al_upstream_id a) (dm_id model)) (so_aliases source).

(** The loop over the aliases of one model; the number counts the exposures. *)
Fixpoint push_aliases (candidates : Candidates) (count : N) (source : CatalogSource)
    (revision : option string) (observed_at tier : N) (model : DiscoveredModel) (l : list CatalogAlias)
  : CatalogResult (Candidates * N) :=
  match l with
  | [] => Ok (candidates, count)
  | a :: l =>
    let? candidates := push_candidate candidates source revision observed_at model (al_public_id a)
        (or_else (al_display_name a) (dm_display_name model))
        (if al_fork a then ForkedAlias else Alias) (al_force_mapping a) tier in
    push_aliases candidates (count + 1) source revision observed_at tier model l
  end.

Definition included (source : CatalogSource) (model : DiscoveredModel) : bool :=
  match so_inclusions source with
  | [] => true
  | l => existsb (fun p => pattern_matches p (model_str (dm_id model))) l
  end.
Definition excluded (source : CatalogSource) (model : DiscoveredModel) : bool :=
  existsb (fun p => pattern_matches p (model_str (dm_id model))) (so_exclusions source).

Record SourceCounts := MkCounts { n_not_included : N; n_excluded : N; n_exposures : N }.

(** One turn of the loop over the models of a source. *)
Definition expose_model (candidates : Candidates) (counts : SourceCounts) (source : CatalogSource)
    (revision : option string) (observed_at tier : N) (model : DiscoveredModel)
  : CatalogResult (Candidates * SourceCounts) :=
  let '(MkCounts not_included excl exposures) := counts in
  if negb (included source model) then Ok (candidates, MkCounts (not_included + 1) excl exposures)
  else if excluded source model then Ok (candidates, MkCounts not_included (excl + 1) exposures)
  else
    let? _ := match dm_display_name model with
              | Some d => validate_display_name (so_id source) d
              | None => Ok tt
              end in
    let direct candidates :=
      push_candidate candidates source revision observed_at model (dm_id model) (dm_display_name model)
        Direct false tier in
    match matching_aliases source model with
    | [] =>
      let? candidates := direct candidates in
      Ok (candidates, MkCounts not_included excl (exposures + 1))
    | aliases =>
      let? (candidates, exposures) :=
        (if existsb al_fork aliases
         then let? candidates := direct candidates in Ok (candidates, exposures + 1)
         else Ok (candidates, exposures)) in
      let? (candidates, exposures) :=
        push_aliases candidates exposures source revision observed_at tier model aliases in
      Ok (candidates, MkCounts not_included excl exposures)
    end.

Fixpoint expose_models (candidates : Candidates) (counts : SourceCounts) (source : CatalogSource)
    (revision : option string) (observed_at tier : N) (l : list DiscoveredModel)
  : CatalogResult (Candidates * SourceCounts) :=
  match l with
  | [] => Ok (candidates, counts)
  | m :: l =>
    let? (candidates, counts) := expose_model candidates counts source revision observed_at tier m in
    expose_models candidates counts source revision observed_at tier l
  end.

Definition discovered_order (a b : DiscoveredModel) : comparison := model_cmp (dm_id a) (dm_id b).

(** One turn of the loop over the sources. *)
Definition merge_source (candidates : Candidates) (states : gmap SourceId CatalogSourceState)
    (observed_at tier : N) (input : CatalogInput)
  : CatalogResult (Candidates * gmap SourceId CatalogSourceState) :=
  let source := ip_source input in
  let revision := ds_revision (ip_response input) in
  let? _ := validate_revision (so_id source) revision in
  let discovered := sort_by discovered_order (ds_models (ip_response input)) in
  match adjacent_dup dm_id discovered with
  | Some m => Err (DuplicateDiscoveredModel (so_id source) (dm_id m))
  | None =>
    let? (candidates, counts) :=
      expose_models candidates (MkCounts 0 0 0) source revision observed_at tier discovered in
    Ok (candidates,
        <[so_id source := MkSourceState (so_provider source) (so_account source) (so_account_pool source)
            (so_priority source) revision observed_at (N.of_nat (length discovered))
            (n_not_included counts) (n_excluded counts) (n_exposures counts)]> states)
  end.

(** * Priorities and limits *)

(** [Vec::dedup]. *)
Fixpoint dedup (l : list Z) : list Z :=
  match l with
  | x :: (y :: _) as rest => if (x =? y)%Z then dedup rest else x :: dedup rest
  | _ => l
  end.

(** The tiers by descending priority; a position fits [u32] because the sources
    are at most [HARD_MAX_SOURCES]. *)
Definition distinct_priorities (inputs : list CatalogInput) : list Z :=
  dedup (sort_by (fun a b => Z.compare b a) (map (fun i => so_priority (ip_source i)) inputs)).
Definition priority_tiers (inputs : list CatalogInput) : gmap Z N :=
  list_to_map (imap (fun i p => (p, N.of_nat (S i))) (distinct_priorities inputs)).

(** The loop that checks the inputs against the limits. *)
Fixpoint check_inputs (limits : RefreshLimits) (seen : gset SourceId) (total operations : N)
    (l : list CatalogInput) : CatalogResult unit :=
  match l with
  | [] => Ok tt
  | i :: l =>
    let source := ip_source i in
    let count := N.of_nat (length (ds_models (ip_response i))) in
    if bool_decide (so_id source ∈ seen) then Err (DuplicateSource (so_id source))
    else if rl_max_models_per_source limits <? count
    then Err (SourceModelLimitExceeded (so_id source) count (rl_max_models_per_source limits))
    else
      let total := sat_add USIZE_MAX total count in
      if rl_max_total_models limits <? total
      then Err (TotalModelLimitExceeded total (rl_max_total_models limits))
      else
        let rules := sat_add USIZE_MAX (sat_add USIZE_MAX (sat_add USIZE_MAX
              (N.of_nat (length (so_aliases source))) (N.of_nat (length (so_inclusions source))))
              (N.of_nat (length (so_exclusions source)))) 1 in
        let operations := sat_add USIZE_MAX operations (sat_mul USIZE_MAX count rules) in
        if rl_max_merge_operations limits <? operations
        then Err (MergeWorkLimitExceeded operations (rl_max_merge_operations limits))
        else check_inputs limits ({[so_id source]} ∪ seen) total operations l
  end.

Fixpoint merge_sources (candidates : Candidates) (states : gmap SourceId CatalogSourceState)
    (tiers : gmap Z N) (observed_at : N) (l : list CatalogInput)
  : CatalogResult (Candidates * gmap SourceId CatalogSourceState) :=
  match l with
  | [] => Ok (candidates, states)
  | i :: l =>
    let tier := default 0 (tiers !! so_priority (ip_source i)) in
    let? (candidates, states) := merge_source candidates states observed_at tier i in
    merge_sources candidates states tiers observed_at l
  end.

(** * Compiling a public model *)

Definition candidate_identity (c : Candidate) : TargetIdentity :=
  MkIdentity (ca_provider c) (ca_account c) (ca_account_pool c).
Definition target_identity (t : CatalogTarget) : TargetIdentity :=
  MkIdentity (ct_provider t) (ct_account t) (ct_account_pool t).

Definition same_target (c : Candidate) (t : CatalogTarget) : bool :=
  beq (ct_provider t) (ca_provider c) && beq (ct_account t) (ca_account c)
  && beq (ct_account_pool t) (ca_account_pool c) && beq (ct_upstream_model t) (ca_upstream_model c).

Definition set_binding_priority (priority : N) (signed : Z) (b : CatalogBindingDescriptor)
  : CatalogBindingDescriptor :=
  MkDescriptor (bd_binding_id b) (bd_model b) (bd_target_id b) (bd_provider b) (bd_account b)
    (bd_account_pool b) (bd_upstream_model b) priority signed.

(** A candidate joins the target it names. *)
Definition join_target (c : Candidate) (t : CatalogTarget) : CatalogTarget :=
  let lower := ca_priority c <? ct_priority t in
  MkTarget
    (if lower then set_binding_priority (ca_priority c) (ca_signed_priority c) (ct_binding t)
     else ct_binding t)
    (ct_provider t) (ct_upstream_model t)
    (CapabilitySet.intersection (ct_capabilities t) (ca_capabilities c))
    (ct_dialect t) (ct_profile t)
    (ct_force_mapping t || ca_force_mapping c)
    (if lower then ca_priority c else ct_priority t)
    (if lower then ca_signed_priority c else ct_signed_priority t)
    (ct_provenance t ++ [ca_provenance c]).

(** [iter_mut().find(..)] and the update of what it finds. *)
Fixpoint join_first (c : Candidate) (l : list CatalogTarget) : option (list CatalogTarget) :=
  match l with
  | [] => None
  | t :: l => if same_target c t then Some (join_target c t :: l) else cons t <$> join_first c l
  end.

Definition new_target (public_id : ModelId) (binding_id : TargetBindingId) (c : Candidate) : CatalogTarget :=
  MkTarget
    (MkDescriptor (target_binding_as_str binding_id) public_id (source_str (pv_source (ca_provenance c)))
       (ca_provider c) (ca_account c) (ca_account_pool c) (ca_upstream_model c) (ca_priority c)
       (ca_signed_priority c))
    (ca_provider c) (ca_upstream_model c) (ca_capabilities c) (ca_dialect c) (ca_profile c)
    (ca_force_mapping c) (ca_priority c) (ca_signed_priority c) [ca_provenance c].

Abbreviation Mappings := (gmap TargetIdentity (ModelId * SourceId)).

(** The check of the first mapping of an identity. *)
Definition check_mapping (public_id : ModelId) (mappings : Mappings) (c : Candidate) : CatalogResult Mappings :=
  let source := pv_source (ca_provenance c) in
  match mappings !! candidate_identity c with
  | Some (upstream, first_source) =>
    if negb (beq upstream (ca_upstream_model c))
    then Err (ConflictingPublicMapping
           (MkConflict public_id (ca_provider c) (ca_account c) (ca_account_pool c) upstream first_source
              (ca_upstream_model c) source))
    else Ok mappings
  | None => Ok (<[candidate_identity c := (ca_upstream_model c, source)]> mappings)
  end.

(** One turn of the loop of [compile_public_model]. *)
Definition add_candidate (public_id : ModelId) (targets : list CatalogTarget) (c : Candidate)
  : CatalogResult (list CatalogTarget) :=
  let source := pv_source (ca_provenance c) in
  match join_first c targets with
  | Some targets => Ok targets
  | None =>
    let? binding_id := map_err (InvalidBinding source public_id)
        (target_binding_new (model_str public_id) (source_str source)) in
    Ok (targets ++ [new_target public_id binding_id c])
  end.

Fixpoint compile_targets (public_id : ModelId) (targets : list CatalogTarget) (mappings : Mappings)
    (l : list Candidate) : CatalogResult (list CatalogTarget) :=
  match l with
  | [] => Ok targets
  | c :: l =>
    let? mappings := check_mapping public_id mappings c in
    let? targets := add_candidate public_id targets c in
    compile_targets public_id targets mappings l
  end.

Definition sort_provenance (t : CatalogTarget) : CatalogTarget :=
  MkTarget (ct_binding t) (ct_provider t) (ct_upstream_model t) (ct_capabilities t) (ct_dialect t)
    (ct_profile t) (ct_force_mapping t) (ct_priority t) (ct_signed_priority t)
    (sort_by provenance_order (ct_provenance t)).

(** [Iterator::find_map]. *)
Fixpoint find_map {A B} (f : A -> option B) (l : list A) : option B :=
  match l with
  | [] => None
  | x :: l => match f x with Some y => Some y | None => find_map f l end
  end.

Definition compile_public_model (public_id : ModelId) (candidates : list Candidate)
  : CatalogResult CatalogModel :=
  let candidates := sort_by candidate_order candidates in
  let display_name := find_map ca_display_name candidates in
  let? targets := compile_targets public_id [] ∅ candidates in
  Ok (MkCatalogModel public_id display_name (sort_by target_order (map sort_provenance targets)) []).

Fixpoint compile_models (models : gmap ModelId CatalogModel) (l : list (ModelId * list Candidate))
  : CatalogResult (gmap ModelId CatalogModel) :=
  match l with
  | [] => Ok models
  | (public_id, candidates) :: l =>
    let? model := compile_public_model public_id candidates in
    compile_models (<[public_id := model]> models) l
  end.

Definition merge_discoveries (generation refreshed_at : N) (inputs : list CatalogInput)
    (limits : RefreshLimits) (overrides : ModelOverrides) : CatalogResult CatalogSnapshot :=
  let count := N.of_nat (length inputs) in
  if rl_max_sources limits <? count then Err (SourceLimitExceeded count (rl_max_sources limits))
  else
    let inputs := sort_by (fun a b => source_order (ip_source a) (ip_source b)) inputs in
    let tiers := priority_tiers inputs in
    let? _ := check_inputs limits ∅ 0 0 inputs in
    let? (candidates, states) := merge_sources ∅ ∅ tiers refreshed_at inputs in
    let? models := compile_models ∅ (btree_list model_cmp candidates) in
    let '(models, state) := apply_all overrides models in
    Ok (MkSnapshot generation refreshed_at models states state).

(** * The service *)

Inductive ModelSelectionAction := SelectAll | SelectNone.

Record SourceSelection := MkSelection {
  sl_action : ModelSelectionAction;
  sl_explicit_exclusions : gset ModelId;
}.
Definition selection_default : SourceSelection := MkSelection SelectAll ∅.

(** The discovery implementations are outside the catalog: a registered source is
    its policy. *)
Record CatalogService := MkService {
  sv_sources : list CatalogSource;
  sv_limits : RefreshLimits;
  sv_overrides : ModelOverrides;
  sv_snapshot : CatalogSnapshot;
  sv_refresh_gate : bool;
  sv_selections : gmap SourceId SourceSelection;
}.

Definition service_new (sources : list CatalogSource) (limits : RefreshLimits)
  : CatalogResult CatalogService :=
  let count := N.of_nat (length sources) in
  if rl_max_sources limits <? count then Err (SourceLimitExceeded count (rl_max_sources limits))
  else
    let sources := sort_by source_order sources in
    match first_repeated so_id ∅ sources with
    | Some s => Err (DuplicateSource (so_id s))
    | None =>
      Ok (MkService sources limits ∅ snapshot_empty true
            (list_to_map (map (fun s => (so_id s, selection_default)) sources)))
    end.

Definition with_overrides (s : CatalogService) (o : ModelOverrides) : CatalogService :=
  MkService (sv_sources s) (sv_limits s) o (sv_snapshot s) (sv_refresh_gate s) (sv_selections s).
Definition set_selections (m : gmap SourceId SourceSelection) (s : CatalogService) : CatalogService :=
  MkService (sv_sources s) (sv_limits s) (sv_overrides s) (sv_snapshot s) (sv_refresh_gate s) m.
Definition set_gate (g : bool) (s : CatalogService) : CatalogService :=
  MkService (sv_sources s) (sv_limits s) (sv_overrides s) (sv_snapshot s) g (sv_selections s).
Definition set_snapshot (n : CatalogSnapshot) (s : CatalogService) : CatalogService :=
  MkService (sv_sources s) (sv_limits s) (sv_overrides s) n (sv_refresh_gate s) (sv_selections s).

Definition selection_source (source_id : string) : CatalogResult SourceId :=
  map_err (fun _ => UnknownSelectionSource source_id) (source_new source_id).
Definition selection_model (model : string) : CatalogResult ModelId :=
  map_err (fun _ => InvalidSelectionModel model) (named_new MkModelId model).
Definition find_selection (s : CatalogService) (id : SourceId) : CatalogResult SourceSelection :=
  ok_or (sv_selections s !! id) (UnknownSelectionSource (source_str id)).

Definition apply_bulk_selection (s : CatalogService) (source_id : string) (action : ModelSelectionAction)
  : CatalogResult CatalogService :=
  let? id := selection_source source_id in
  let? selection := find_selection s id in
  Ok (set_selections (<[id := MkSelection action (sl_explicit_exclusions selection)]> (sv_selections s)) s).
Definition select_all (s : CatalogService) (source_id : string) : CatalogResult CatalogService :=
  apply_bulk_selection s source_id SelectAll.
Definition select_none (s : CatalogService) (source_id : string) : CatalogResult CatalogService :=
  apply_bulk_selection s source_id SelectNone.

Definition exclude_model (s : CatalogService) (source_id model : string) : CatalogResult CatalogService :=
  let? id := selection_source source_id in
  let? model := selection_model model in
  let? selection := find_selection s id in
  Ok (set_selections (<[id := MkSelection (sl_action selection)
                              ({[model]} ∪ sl_explicit_exclusions selection)]> (sv_selections s)) s).
Definition include_model (s : CatalogService) (source_id model : string) : CatalogResult CatalogService :=
  let? id := selection_source source_id in
  let? model := selection_model model in
  let? selection := find_selection s id in
  Ok (set_selections (<[id := MkSelection (sl_action selection)
                              (sl_explicit_exclusions selection ∖ {[model]})]> (sv_selections s)) s).

Record ModelSelectionState := MkSelectionState {
  ss_action : ModelSelectionAction; ss_explicit_exclusions : list ModelId }.
Definition selection_state (s : CatalogService) (source_id : string) : CatalogResult ModelSelectionState :=
  let? id := selection_source source_id in
  let? selection := ok_or (sv_selections s !! id) (UnknownSelectionSource source_id) in
  Ok (MkSelectionState (sl_action selection)
        (btree_elements model_cmp (sl_explicit_exclusions selection))).

(** The free function [apply_selection]. *)
Definition keeps (selection : SourceSelection) (m : DiscoveredModel) : bool :=
  match sl_action selection with SelectAll => true | SelectNone => false end
  && negb (bool_decide (dm_id m ∈ sl_explicit_exclusions selection)).
Definition apply_selection (r : DiscoveryResponse) (selection : option SourceSelection) : DiscoveryResponse :=
  match selection with
  | None => r
  | Some selection => MkResponse (ds_revision r) (List.filter (keeps selection) (ds_models r))
  end.

Record RefreshReport := MkReport {
  rr_generation : N; rr_source_count : N; rr_model_count : N; rr_target_count : N }.

(** The answers of the sources in the order they completed. *)
Abbreviation Responses := (list (CatalogSource * Result DiscoveryResponse DiscoveryFailureKind)).

Fixpoint refresh_inputs (selections : gmap SourceId SourceSelection) (l : Responses)
  : CatalogResult (list CatalogInput) :=
  match l with
  | [] => Ok []
  | (source, response) :: l =>
    let? response := map_err (DiscoveryFailed (so_id source)) response in
    let? rest := refresh_inputs selections l in
    Ok (MkInput source (apply_selection response (selections !! so_id source)) :: rest)
  end.

(** [CatalogService::refresh] in its three parts: it takes the permit; when its
    fetches ended ([None]: at the deadline) it reads the selections and the
    snapshot it follows, unless the deadline has passed by now; and when the
    merge worker ended it publishes.  Other calls run between the parts.  Whenever
    it returns, with a report or an error, and when its future is dropped at one of
    the waits, the permit it holds is dropped. *)
Definition timed_out (s : CatalogService) : CatalogError :=
  RefreshTimedOut (duration_millis_u64 (rl_timeout (sv_limits s))).
Definition drop_permit (s : CatalogService) : CatalogService := set_gate true s.

Definition refresh_begin (s : CatalogService) : CatalogResult unit * CatalogService :=
  if sv_refresh_gate s then (Ok tt, set_gate false s) else (Err RefreshInProgress, s).

Definition refresh_collect (s : CatalogService) (responses : option Responses) (deadline_passed : bool)
  : CatalogResult (N * list CatalogInput) :=
  match responses with
  | None => Err (timed_out s)
  | Some responses =>
    let? inputs := refresh_inputs (sv_selections s)
        (sort_by (fun a b => source_order a.1 b.1) responses) in
    let? generation := ok_or (let g := sn_generation (sv_snapshot s) + 1 in
                              if U64_MAX <? g then None else Some g) GenerationExhausted in
    if deadline_passed then Err (timed_out s) else Ok (generation, inputs)
  end.
Definition refresh_fetched (s : CatalogService) (responses : option Responses) (deadline_passed : bool)
  : CatalogResult (N * list CatalogInput) * CatalogService :=
  match refresh_collect s responses deadline_passed with
  | Ok next => (Ok next, s)
  | Err e => (Err e, drop_permit s)
  end.

(** The end of the merge worker. *)
Inductive WorkerEnd := WorkerTimedOut | WorkerPanicked | WorkerReturned.

Definition refresh_publish (s : CatalogService) (generation : N) (inputs : list CatalogInput)
    (observed_at : N) (worker : WorkerEnd) : CatalogResult RefreshReport * CatalogService :=
  match worker with
  | WorkerTimedOut => (Err (timed_out s), s)
  | WorkerPanicked => (Err MergeWorkerFailed, s)
  | WorkerReturned =>
    match merge_discoveries generation observed_at inputs (sv_limits s) (sv_overrides s) with
    | Err e => (Err e, s)
    | Ok n =>
      (Ok (MkReport generation (N.of_nat (size (sn_sources n))) (N.of_nat (size (sn_models n))) (target_count n)),
       set_snapshot n s)
    end
  end.
Definition refresh_merged (s : CatalogService) (generation : N) (inputs : list CatalogInput)
    (observed_at : N) (worker : WorkerEnd) : CatalogResult RefreshReport * CatalogService :=
  let '(result, s) := refresh_publish s generation inputs observed_at worker in (result, drop_permit s).
