(* ===== verification/CatalogPatterns.v ===== *)
(** Model patterns of the catalog: the matcher agrees with the meaning of [*]. *)
From S2P Require Import Prelude Str CoreId Bytes Catalog.

Open Scope N_scope.

(** What a pattern stands for: a star covers any bytes, another byte itself. *)
Inductive glob : bytes -> bytes -> Prop :=
| glob_nil : glob [] []
| glob_byte b p v : b <> 0x2A -> glob p v -> glob (b :: p) (b :: v)
| glob_skip p v : glob p v -> glob (0x2A :: p) v
| glob_take b p v : glob (0x2A :: p) v -> glob (0x2A :: p) (b :: v).

Create HintDb glob.
#[export] Hint Constructors glob : glob.

Lemma glob_star_cons p b v : glob (0x2A :: p) (b :: v) <-> glob p (b :: v) \/ glob (0x2A :: p) v.
Proof. split; [inversion 1; subst; auto; done|]. intros []; auto with glob. Qed.

Lemma glob_star_nil p : glob (0x2A :: p) [] <-> glob p [].
Proof. split; [by inversion 1|auto with glob]. Qed.

Lemma glob_byte_cons a b p v : a <> 0x2A -> glob (a :: p) (b :: v) <-> a = b /\ glob p v.
Proof. intros Ha. split; [by inversion 1|]. intros [<- ?]. auto with glob. Qed.

Lemma glob_stars p : glob p [] <-> Forall (fun b => b = 0x2A) p.
Proof.
  induction p as [|b p IH]; [by split; [|constructor]|]. rewrite Forall_cons, <- IH. split.
  - by inversion 1.
  - intros [-> ?]. auto with glob.
Qed.

Lemma glob_star_drop p v k : glob (0x2A :: p) (drop k v) -> glob (0x2A :: p) v.
Proof.
  revert v. induction k as [|k IH]; intros v; [done|]. destruct v as [|b v]; [done|].
  intros H. apply glob_take. by apply IH.
Qed.

(** A star followed by literal bytes consumes at least those bytes. *)
Lemma glob_segment seg r v :
  Forall (fun b => b <> 0x2A) seg -> glob (seg ++ r) v ->
  (length seg <= length v)%nat /\ glob r (drop (length seg) v).
Proof.
  intros Hseg. revert v. induction Hseg as [|b seg Hb Hseg IH]; intros v; [split; [simpl; lia|done]|].
  simpl. destruct v as [|a v]; [by inversion 1|]. rewrite glob_byte_cons by done. intros [<- Hg].
  destruct (IH _ Hg) as [? ?]. simpl. split; [lia|done].
Qed.

Lemma glob_star_segment seg r v :
  Forall (fun b => b <> 0x2A) seg -> glob (0x2A :: seg ++ r) v ->
  exists k, (length seg <= k <= length v)%nat /\ glob r (drop k v).
Proof.
  intros Hseg. remember (0x2A :: seg ++ r) as p eqn:Hp. intros Hg. revert Hp.
  induction Hg as [|b p v Hb Hg _|p v Hg _|b p v Hg IH]; intros [=]; subst; try done.
  - destruct (glob_segment seg r v Hseg Hg) as [? ?]. exists (length seg). split; [lia|done].
  - destruct IH as (k & ? & ?); [done|]. exists (S k). split; [simpl; lia|done].
Qed.

Lemma skip_stars_all rest pi n :
  n = (pi + length rest)%nat ->
  (skip_stars rest pi =? n)%nat = true <-> Forall (fun b => b = 0x2A) rest.
Proof.
  revert pi. induction rest as [|b rest IH]; intros pi ->; simpl.
  - rewrite Nat.eqb_eq. split; [constructor|intros _; lia].
  - rewrite Forall_cons. destruct (N.eqb_spec b 0x2A) as [->|Hb].
    + rewrite (IH (S pi)) by (simpl; lia). tauto.
    + rewrite Nat.eqb_eq. split; [lia|by intros [? _]].
Qed.

Section matcher.
Context (P V : bytes).
Context (Hplain : Forall (fun b => b <> 0x2A) V).

(** What is known while the matcher runs: the pattern matches iff what is left
    matches here or after one more byte under the last star, and since that star
    literal bytes were matched one by one. *)
Definition search_inv (pi vi : nat) (star : option (nat * nat)) : Prop :=
  (pi <= length P)%nat /\ (vi <= length V)%nat /\
  match star with
  | None => glob P V <-> glob (drop pi P) (drop vi V)
  | Some (s, svi) =>
    (glob P V <-> glob (drop pi P) (drop vi V) \/ glob (0x2A :: drop (S s) P) (drop (S svi) V)) /\
    exists seg, drop (S s) P = seg ++ drop pi P /\ Forall (fun b => b <> 0x2A) seg /\
      pi = (S s + length seg)%nat /\ vi = (svi + length seg)%nat
  end.

(** Every turn of the loop lowers this number. *)
Definition search_measure (vi : nat) (star : option (nat * nat)) : nat :=
  match star with
  | None => length V * S (length V) + S (length P) + (length V - vi)
  | Some (s, svi) => (length V - svi) * S (length V) + (length P - s) + (length V - vi)
  end.

Lemma search_byte pi vi star b :
  P !! pi = Some b -> V !! vi = Some b -> search_inv pi vi star -> search_inv (S pi) (S vi) star.
Proof.
  intros Hp Hv (Hpi & Hvi & Hinv).
  assert (Hb : b <> 0x2A) by exact (proj1 (Forall_lookup _ V) Hplain vi b Hv).
  assert (Hstep : glob (drop pi P) (drop vi V) <-> glob (drop (S pi) P) (drop (S vi) V)).
  { rewrite (drop_S P b pi Hp), (drop_S V b vi Hv), glob_byte_cons by done. tauto. }
  apply lookup_lt_Some in Hv as Hvl. pose proof (lookup_lt_Some _ _ _ Hp).
  split; [lia|]. split; [lia|]. destruct star as [[s svi]|]; [|by rewrite <- Hstep].
  rewrite <- Hstep. destruct Hinv as [Hiff (seg & Hseg & Hlit & -> & ->)]. split; [done|].
  exists (seg ++ [b]). rewrite length_app, Hseg, (drop_S P b _ Hp). simpl.
  rewrite <- app_assoc. repeat split; [|lia..]. apply Forall_app. by repeat constructor.
Qed.

Lemma search_star pi vi star :
  P !! pi = Some 0x2A -> (vi < length V)%nat -> search_inv pi vi star ->
  search_inv (S pi) vi (Some (pi, vi)).
Proof.
  intros Hp Hlt (Hpi & Hvi & Hinv). apply lookup_lt_Some in Hp as Hpl.
  destruct (lookup_lt_is_Some_2 V vi Hlt) as [b Hv].
  split; [lia|]. split; [lia|]. split.
  2:{ exists []. simpl. repeat split; [done|lia..]. }
  rewrite (drop_S V b vi Hv), <- glob_star_cons, <- (drop_S V b vi Hv), <- (drop_S P _ pi Hp).
  destruct star as [[s svi]|]; [|done].
  destruct Hinv as [-> (seg & Hseg & Hlit & -> & ->)].
  split; [|by left]. intros [Hg|Hg]; [done|]. rewrite Hseg in Hg.
  destruct (glob_star_segment seg _ _ Hlit Hg) as (k & Hk & Hr).
  rewrite (drop_S P _ _ Hp) in *. rewrite drop_drop in Hr.
  apply (glob_star_drop _ _ (S k - length seg)). rewrite drop_drop.
  replace (svi + length seg + (S k - length seg))%nat with (S svi + k)%nat by lia. done.
Qed.

Lemma search_back pi vi s svi :
  (vi < length V)%nat -> P !! pi <> V !! vi -> P !! pi <> Some 0x2A ->
  search_inv pi vi (Some (s, svi)) -> search_inv (S s) (S svi) (Some (s, S svi)).
Proof.
  intros Hlt Hne Hns (Hpi & Hvi & Hiff & (seg & Hseg & Hlit & -> & ->)).
  destruct (lookup_lt_is_Some_2 V _ Hlt) as [b Hv].
  assert (Hno : ~ glob (drop (S s + length seg) P) (drop (svi + length seg) V)).
  { rewrite (drop_S V b _ Hv). destruct (P !! (S s + length seg)%nat) as [c|] eqn:Hc.
    - rewrite (drop_S P c _ Hc), glob_byte_cons by congruence. intros [-> _]. congruence.
    - rewrite drop_ge by (by apply lookup_ge_None). by inversion 1. }
  split; [lia|]. split; [lia|]. split.
  2:{ exists []. simpl. repeat split; [done|lia..]. }
  rewrite Hiff. split.
  - intros [?|Hg]; [done|]. destruct (drop (S svi) V) as [|c v] eqn:Hd.
    + left. by apply glob_star_nil.
    + apply glob_star_cons in Hg as [?|Hg]; [by left|]. right.
      replace (S (S svi)) with (S svi + 1)%nat by lia.
      rewrite <- drop_drop, Hd. done.
  - intros [Hg|Hg]; right; [by apply glob_skip|].
    replace (S (S svi)) with (S svi + 1)%nat in Hg by lia. rewrite <- drop_drop in Hg.
    by apply glob_star_drop in Hg.
Qed.

Lemma search_end pi star :
  search_inv pi (length V) star ->
  (skip_stars (drop pi P) pi =? length P)%nat = true <-> glob P V.
Proof.
  intros (Hpi & _ & Hinv). rewrite skip_stars_all by (rewrite length_drop; lia).
  rewrite <- glob_stars. rewrite (drop_ge V (length V)) in Hinv by lia.
  destruct star as [[s svi]|]; [|by rewrite Hinv].
  destruct Hinv as [-> (seg & Hseg & Hlit & -> & Hlen)]. split; [by left|].
  intros [?|Hg]; [done|]. rewrite Hseg in Hg.
  destruct (glob_star_segment seg _ _ Hlit Hg) as (k & Hk & Hr).
  rewrite length_drop in Hk. rewrite (drop_ge _ k) in Hr by (rewrite length_drop; lia). done.
Qed.

Lemma search_correct fuel pi vi star :
  (search_measure vi star < fuel)%nat -> search_inv pi vi star ->
  exists r, wildcard_loop fuel P V pi vi star = Some r /\ (r = true <-> glob P V).
Proof.
  revert pi vi star. induction fuel as [|fuel IH]; intros pi vi star Hf Hinv; [lia|].
  pose proof Hinv as (Hpi & Hvi & Hstar). cbn [wildcard_loop].
  destruct (Nat.ltb_spec vi (length V)) as [Hlt|Hge].
  2:{ eexists. split; [done|]. apply (search_end pi star).
      by replace (length V) with vi by lia. }
  destruct (bool_decide_reflect (P !! pi = V !! vi)) as [Heq|Hne].
  { destruct (lookup_lt_is_Some_2 V vi Hlt) as [b Hv]. apply IH.
    - unfold search_measure in *. destruct star as [[]|]; lia.
    - apply (search_byte pi vi star b); congruence. }
  destruct (bool_decide_reflect (P !! pi = Some 0x2A)) as [Hp|Hp].
  { apply lookup_lt_Some in Hp as Hpl. apply IH; [|by apply (search_star pi vi star)].
    unfold search_measure in *. destruct star as [[s svi]|]; [|nia].
    destruct Hstar as [_ (seg & _ & _ & -> & ->)]. nia. }
  destruct star as [[s svi]|].
  - apply IH; [|by apply (search_back pi vi)].
    destruct Hstar as [_ (seg & _ & _ & -> & ->)]. unfold search_measure in *. nia.
  - exists false. split; [done|]. split; [done|]. rewrite Hstar.
    destruct (lookup_lt_is_Some_2 V vi Hlt) as [b Hv]. rewrite (drop_S V b vi Hv).
    destruct (P !! pi) as [c|] eqn:Hc.
    + rewrite (drop_S P c pi Hc), glob_byte_cons by congruence. intros [-> _]. congruence.
    + rewrite drop_ge by (by apply lookup_ge_None). by inversion 1.
Qed.

End matcher.

(** The matcher ends on every input: a turn advances in the value, moves to a
    later star, or moves the span of the last star. *)
Lemma search_terminates P V fuel pi vi star :
  (search_measure P V vi star < fuel)%nat ->
  match star with Some (s, svi) => (s < pi)%nat /\ (svi <= vi)%nat | None => True end ->
  is_Some (wildcard_loop fuel P V pi vi star).
Proof.
  revert pi vi star. induction fuel as [|fuel IH]; intros pi vi star Hf Hinv; [lia|].
  cbn [wildcard_loop]. destruct (Nat.ltb_spec vi (length V)) as [Hlt|Hge]; [|by eexists].
  destruct (bool_decide_reflect (P !! pi = V !! vi)) as [Heq|Hne].
  { apply IH; destruct star as [[s svi]|]; unfold search_measure in *; lia. }
  destruct (bool_decide_reflect (P !! pi = Some 0x2A)) as [Hp|Hp].
  { apply lookup_lt_Some in Hp. apply IH; [|lia].
    destruct star as [[s svi]|]; unfold search_measure in *; nia. }
  destruct star as [[s svi]|]; [|by eexists]. apply IH; unfold search_measure in *; nia.
Qed.

Lemma contains_char_plain s c : contains_char s c = false -> Forall (fun b => b <> Ascii.N_of_ascii c) (bytes_of s).
Proof.
  induction s as [|a s IH]; [constructor|]. simpl. rewrite orb_false_iff. intros [Ha Hs].
  constructor; [|by apply IH]. intros E. apply (f_equal Ascii.ascii_of_N) in E.
  rewrite !Ascii.ascii_N_embedding in E. subst. by rewrite Ascii.eqb_refl in Ha.
Qed.

(** [C19] The pattern matcher of the catalog ends on every pattern and value, and
    for a model identifier without a star it decides what the pattern stands for:
    the identifier is the pattern with any bytes in place of each star.  The
    restriction is needed: [*] is a valid pattern and [*a] a valid model
    identifier, and the matcher does not match them although a star stands for
    anything. *)
Theorem wildcard_matches_correct pattern value :
  is_Some (wildcard_loop (wildcard_fuel (bytes_of pattern) (bytes_of value))
             (bytes_of pattern) (bytes_of value) 0 0 None) /\
  (contains_char value STAR = false ->
   wildcard_matches pattern value = true <-> glob (bytes_of pattern) (bytes_of value)) /\
  (forall source, exists p m,
     pattern_new source "*" Exclusion = Ok p /\ named_new MkModelId "*a" = Ok m /\
     glob (bytes_of (Catalog.pattern p)) (bytes_of (model_str m)) /\
     pattern_matches p (model_str m) = false).
Proof.
  split; [|split].
  - apply search_terminates; [|done]. unfold search_measure, wildcard_fuel. lia.
  - intros Hplain%contains_char_plain. unfold wildcard_matches.
    destruct (search_correct (bytes_of pattern) (bytes_of value) Hplain
      (wildcard_fuel (bytes_of pattern) (bytes_of value)) 0 0 None) as (r & -> & Hr).
    + unfold search_measure, wildcard_fuel. lia.
    + split; [lia|]. split; [lia|done].
    + exact Hr.
  - intros source. exists (MkPattern "*"), (MkModelId "*a").
    split; [done|]. split; [done|]. split; [|done]. apply glob_take, glob_take, glob_skip, glob_nil.
Qed.

Lemma wildcard_matches_correct_witness :
  wildcard_matches "claude-*-4*" "claude-sonnet-4-5" = true /\
  glob (bytes_of "claude-*-4*") (bytes_of "claude-sonnet-4-5").
Proof.
  split; [vm_compute; reflexivity|].
  apply (proj1 (proj2 (wildcard_matches_correct "claude-*-4*" "claude-sonnet-4-5")));
    vm_compute; reflexivity.
Defined.
