(* ===== verification/CatalogSpec.v ===== *)
(** What merging means: the exposures each source contributes, the targets they
    are grouped into, and that the loops of [merge_discoveries] compute them. *)
From S2P Require Import Prelude Str Time CoreId Capabilities Bytes Json Dialect Catalog CatalogMerge.

Open Scope N_scope.

(** * Exposures *)

(** The client-visible name of a model of a source. *)
Definition public_name (source : CatalogSource) (id : ModelId) : ModelId :=
  match so_prefix source with
  | None => id
  | Some prefix => MkModelId (prefix +:+ "/" +:+ model_str id)%string
  end.

(** A model is visible when the source's patterns admit it. *)
Definition visible (source : CatalogSource) (m : DiscoveredModel) : bool :=
  included source m && negb (excluded source m).

(** Its own name stays public unless every alias for it replaces it. *)
Definition keeps_own_name (source : CatalogSource) (m : DiscoveredModel) : bool :=
  match matching_aliases source m with [] => true | l => existsb al_fork l end.

Section exposures.
Context (source : CatalogSource) (revision : option string) (observed_at tier : N).

Definition direct_exposure (m : DiscoveredModel) : ModelId * Candidate :=
  (public_name source (dm_id m),
   candidate_of source revision observed_at m (dm_display_name m) Direct false tier).

Definition alias_exposure (m : DiscoveredModel) (a : CatalogAlias) : ModelId * Candidate :=
  (public_name source (al_public_id a),
   candidate_of source revision observed_at m (or_else (al_display_name a) (dm_display_name m))
     (if al_fork a then ForkedAlias else Alias) (al_force_mapping a) tier).

Definition model_exposures (m : DiscoveredModel) : list (ModelId * Candidate) :=
  if visible source m
  then (if keeps_own_name source m then [direct_exposure m] else [])
       ++ map (alias_exposure m) (matching_aliases source m)
  else [].

End exposures.

Definition push_all (m : Candidates) (l : list (ModelId * Candidate)) : Candidates :=
  foldl (fun m e => push_entry e.1 e.2 m) m l.

(** The candidates of one public name. *)
Definition named (p : ModelId) (l : list (ModelId * Candidate)) : list Candidate :=
  (List.filter (fun e => beq e.1 p) l).*2.

Lemma named_app p l k : named p (l ++ k) = named p l ++ named p k.
Proof. unfold named. by rewrite List.filter_app, fmap_app. Qed.

Lemma elem_of_named p l c : c ∈ named p l <-> (p, c) ∈ l.
Proof.
  unfold named. rewrite list_elem_of_fmap. setoid_rewrite list_elem_of_In.
  setoid_rewrite filter_In. setoid_rewrite bool_decide_eq_true. split.
  - intros ([q d] & -> & Hin & <-). done.
  - intros Hin. by exists (p, c).
Qed.

Lemma push_entry_default p c m q :
  default [] (push_entry p c m !! q) = default [] (m !! q) ++ (if beq p q then [c] else []).
Proof.
  unfold push_entry. destruct (bool_decide_reflect (p = q)) as [->|Hne].
  - by rewrite lookup_insert_eq.
  - by rewrite lookup_insert_ne, app_nil_r.
Qed.

Lemma push_all_default m l q :
  default [] (push_all m l !! q) = default [] (m !! q) ++ named q l.
Proof.
  revert m. induction l as [|[p c] l IH]; intros m; simpl; [by rewrite app_nil_r|].
  unfold push_all in *. simpl. rewrite IH, push_entry_default, <- app_assoc. f_equal.
  unfold named. simpl. by destruct (bool_decide_reflect (p = q)).
Qed.

(** No entry of the table of candidates is empty. *)
Definition no_empty (m : Candidates) : Prop := forall p, m !! p <> Some [].

Lemma push_all_no_empty m l : no_empty m -> no_empty (push_all m l).
Proof.
  revert m. induction l as [|[p c] l IH]; intros m Hm; [done|]. apply IH. intros q.
  unfold push_entry. destruct (decide (p = q)) as [->|Hne].
  - rewrite lookup_insert_eq. intros [= E]. by apply (app_nil _ _) in E as [_ ?].
  - rewrite lookup_insert_ne by done. apply Hm.
Qed.

Lemma push_all_lookup l q :
  push_all ∅ l !! q = match named q l with [] => None | k => Some k end.
Proof.
  pose proof (push_all_default ∅ l q) as Hd. rewrite lookup_empty in Hd. simpl in Hd.
  pose proof (push_all_no_empty ∅ l) as Hn. specialize (Hn ltac:(by intros p; rewrite lookup_empty) q).
  destruct (push_all ∅ l !! q) as [k|]; simpl in Hd; subst.
  - destruct (named q l); done.
  - by rewrite <- Hd.
Qed.

Lemma push_all_app m l k : push_all m (l ++ k) = push_all (push_all m l) k.
Proof. unfold push_all. by rewrite foldl_app. Qed.

(** * The loops over models and sources *)

Lemma prefixed_model_id_Ok source id p :
  prefixed_model_id source id = Ok p -> p = public_name source id.
Proof.
  unfold prefixed_model_id, public_name. destruct (so_prefix source); [|by intros [= <-]].
  rewrite map_err_Ok. by intros [_ ->]%named_new_ok.
Qed.

Lemma push_candidate_Ok m source rev now model id d e f tier k :
  push_candidate m source rev now model id d e f tier = Ok k ->
  k = push_entry (public_name source id) (candidate_of source rev now model d e f tier) m.
Proof.
  unfold push_candidate. intros (p & ->%prefixed_model_id_Ok & H)%result_bind_Ok.
  apply result_bind_Ok in H as (b & _ & [= <-]). done.
Qed.

Lemma push_aliases_Ok m n source rev now tier model l k n' :
  push_aliases m n source rev now tier model l = Ok (k, n') ->
  k = push_all m (map (alias_exposure source rev now tier model) l) /\ n' = n + N.of_nat (length l).
Proof.
  revert m n. induction l as [|a l IH]; intros m n; simpl; [intros [= <- <-]; split; [done|lia]|].
  intros (m' & ->%push_candidate_Ok & H)%result_bind_Ok. apply IH in H as [-> ->]. split; [done|lia].
Qed.

Definition bump (counts : SourceCounts) (source : CatalogSource) (m : DiscoveredModel) (exposures : nat)
  : SourceCounts :=
  MkCounts (n_not_included counts + if included source m then 0 else 1)
    (n_excluded counts + if included source m && excluded source m then 1 else 0)
    (n_exposures counts + N.of_nat exposures).

Lemma expose_model_Ok m counts source rev now tier model k counts' :
  expose_model m counts source rev now tier model = Ok (k, counts') ->
  k = push_all m (model_exposures source rev now tier model) /\
  counts' = bump counts source model (length (model_exposures source rev now tier model)).
Proof.
  unfold expose_model, model_exposures, bump, visible, keeps_own_name. destruct counts as [ni ex n].
  destruct (included source model), (excluded source model); cbn [andb negb];
    try (intros [= <- <-]; split; [done|simpl; f_equal; lia]).
  intros (_ & _ & H)%result_bind_Ok. destruct (matching_aliases source model) as [|a l].
  - apply result_bind_Ok in H as (? & ->%push_candidate_Ok & [= <- <-]). split; [done|f_equal; simpl; lia].
  - apply result_bind_Ok in H as ([m' n'] & H1 & H). apply result_bind_Ok in H as ([m'' n''] & H2 & [= <- <-]).
    apply push_aliases_Ok in H2 as [-> ->]. rewrite push_all_app, length_app, length_map.
    destruct (existsb al_fork (a :: l)).
    + apply result_bind_Ok in H1 as (? & ->%push_candidate_Ok & [= <- <-]).
      split; [done|f_equal; simpl; lia].
    + injection H1 as [= <- <-]. split; [done|f_equal; simpl; lia].
Qed.

(** The counts of a source after its models. *)
Definition counted (source : CatalogSource) (l : list DiscoveredModel) (exposures : nat)
  (counts : SourceCounts) : SourceCounts :=
  MkCounts (n_not_included counts + N.of_nat (length (List.filter (fun m => negb (included source m)) l)))
    (n_excluded counts
       + N.of_nat (length (List.filter (fun m => included source m && excluded source m) l)))
    (n_exposures counts + N.of_nat exposures).

Lemma expose_models_Ok m counts source rev now tier l k counts' :
  expose_models m counts source rev now tier l = Ok (k, counts') ->
  k = push_all m (flat_map (model_exposures source rev now tier) l) /\
  counts' = counted source l (length (flat_map (model_exposures source rev now tier) l)) counts.
Proof.
  revert m counts. induction l as [|d l IH]; intros m counts; simpl.
  { intros [= <- <-]. split; [done|]. destruct counts. unfold counted. simpl. f_equal; lia. }
  intros ([m' c'] & [-> ->]%expose_model_Ok & H)%result_bind_Ok. apply IH in H as [-> ->].
  rewrite push_all_app. split; [done|]. unfold counted, bump. simpl. rewrite length_app.
  destruct (included source d), (excluded source d); simpl; f_equal; lia.
Qed.

Section sources.
Context (observed_at : N).

Definition source_exposures (tier : N) (i : CatalogInput) : list (ModelId * Candidate) :=
  flat_map (model_exposures (ip_source i) (ds_revision (ip_response i)) observed_at tier)
    (sort_by discovered_order (ds_models (ip_response i))).

(** The state a source reports: how many models were discovered, were not
    included, were excluded, and how many exposures it published. *)
Definition reported (tier : N) (i : CatalogInput) : CatalogSourceState :=
  let source := ip_source i in
  let models := ds_models (ip_response i) in
  MkSourceState (so_provider source) (so_account source) (so_account_pool source) (so_priority source)
    (ds_revision (ip_response i)) observed_at (N.of_nat (length models))
    (N.of_nat (length (List.filter (fun m => negb (included source m)) models)))
    (N.of_nat (length (List.filter (fun m => included source m && excluded source m) models)))
    (N.of_nat (length (source_exposures tier i))).

Lemma length_filter_perm {A} (p : A -> bool) l k : l ≡ₚ k -> length (List.filter p l) = length (List.filter p k).
Proof.
  induction 1; simpl; try done; repeat (destruct (p _)); simpl; congruence.
Qed.

Lemma merge_source_Ok m states tier i k states' :
  merge_source m states observed_at tier i = Ok (k, states') ->
  k = push_all m (source_exposures tier i) /\
  states' = <[so_id (ip_source i) := reported tier i]> states.
Proof.
  unfold merge_source. intros (_ & _ & H)%result_bind_Ok.
  destruct (adjacent_dup dm_id _); [done|].
  apply result_bind_Ok in H as ([k' c'] & [-> ->]%expose_models_Ok & [= <- <-]).
  split; [done|]. unfold reported, counted. simpl. do 2 f_equal; try done.
  - by rewrite sort_by_perm.
  - by rewrite (length_filter_perm _ _ _ (sort_by_perm discovered_order _)).
  - by rewrite (length_filter_perm _ _ _ (sort_by_perm discovered_order _)).
Qed.

Context (tiers : gmap Z N).

Definition tier_in (i : CatalogInput) : N := default 0 (tiers !! so_priority (ip_source i)).
Definition all_exposures (l : list CatalogInput) : list (ModelId * Candidate) :=
  flat_map (fun i => source_exposures (tier_in i) i) l.

Lemma merge_sources_Ok m states l k states' :
  merge_sources m states tiers observed_at l = Ok (k, states') ->
  k = push_all m (all_exposures l) /\
  states' = foldl (fun s i => <[so_id (ip_source i) := reported (tier_in i) i]> s) states l.
Proof.
  revert m states. induction l as [|i l IH]; intros m states; simpl; [by intros [= <- <-]|].
  intros ([m' s'] & [-> ->]%merge_source_Ok & H)%result_bind_Ok. apply IH in H as [-> ->].
  unfold all_exposures. simpl. by rewrite push_all_app.
Qed.

Lemma states_lookup (states : gmap SourceId CatalogSourceState) l id :
  NoDup (map (fun i => so_id (ip_source i)) l) ->
  foldl (fun s i => <[so_id (ip_source i) := reported (tier_in i) i]> s) states l !! id =
  match find (fun i => beq (so_id (ip_source i)) id) l with
  | Some i => Some (reported (tier_in i) i)
  | None => states !! id
  end.
Proof.
  revert states. induction l as [|i l IH]; intros states; simpl; [done|].
  rewrite NoDup_cons. intros [Hi Hl]. rewrite IH by done.
  destruct (bool_decide_reflect (so_id (ip_source i) = id)) as [<-|Hne].
  - destruct (find _ l) as [j|] eqn:Hf; [|by rewrite lookup_insert_eq].
    apply find_some in Hf as [Hj He]. apply bool_decide_eq_true in He. destruct Hi.
    rewrite <- He. apply list_elem_of_In. by apply (in_map (fun i => so_id (ip_source i))).
  - destruct (find _ l); [done|]. by rewrite lookup_insert_ne.
Qed.

End sources.

(** * Limits *)

Lemma check_inputs_Ok limits seen total ops l :
  check_inputs limits seen total ops l = Ok tt ->
  NoDup (map (fun i => so_id (ip_source i)) l) /\
  (forall i, i ∈ l -> so_id (ip_source i) ∉ seen) /\
  Forall (fun i => N.of_nat (length (ds_models (ip_response i))) <= rl_max_models_per_source limits) l.
Proof.
  revert seen total ops. induction l as [|i l IH]; intros seen total ops; cbn [check_inputs map].
  { intros _. split; [constructor|]. split; [set_solver|constructor]. }
  destruct (bool_decide_reflect (so_id (ip_source i) ∈ seen)) as [|Hni]; [done|].
  destruct (N.ltb_spec (rl_max_models_per_source limits) (N.of_nat (length (ds_models (ip_response i)))))
    as [|Hm]; [done|].
  repeat (case_match; [done|]). intros Hr. apply IH in Hr as (Hnd & Hseen & Hall).
  split; [constructor; [|done]|split; [|by constructor]].
  - rewrite list_elem_of_In, in_map_iff. intros (j & Hj & Hin). rewrite <- list_elem_of_In in Hin.
    specialize (Hseen j Hin). rewrite Hj in Hseen. set_solver.
  - intros j [->|Hj]%elem_of_cons; [done|]. specialize (Hseen j Hj). set_solver.
Qed.

(** * Targets *)

(** The candidates of one identity, in order. *)
Definition of_identity (id : TargetIdentity) (l : list Candidate) : list Candidate :=
  List.filter (fun c => beq (candidate_identity c) id) l.

Lemma of_identity_app id l k : of_identity id (l ++ k) = of_identity id l ++ of_identity id k.
Proof. apply List.filter_app. Qed.

Lemma elem_of_of_identity id l c : c ∈ of_identity id l <-> c ∈ l /\ candidate_identity c = id.
Proof. unfold of_identity. rewrite !list_elem_of_In, filter_In, bool_decide_eq_true. done. Qed.

(** A target is built from candidates of its identity: the first founds it, the
    others join it. *)
Definition built (public_id : ModelId) (l : list Candidate) (t : CatalogTarget) : Prop :=
  exists c rest b, l = c :: rest /\
    target_binding_new (model_str public_id) (source_str (pv_source (ca_provenance c))) = Ok b /\
    t = foldl (fun t c => join_target c t) (new_target public_id b c) rest.

Lemma join_identity c t : target_identity (join_target c t) = target_identity t.
Proof.
  unfold target_identity, join_target, ct_account, ct_account_pool. simpl. by destruct (_ <? _).
Qed.

Lemma join_fold_identity l t :
  target_identity (foldl (fun t c => join_target c t) t l) = target_identity t /\
  ct_upstream_model (foldl (fun t c => join_target c t) t l) = ct_upstream_model t.
Proof.
  revert t. induction l as [|c l IH]; intros t; simpl; [done|].
  destruct (IH (join_target c t)) as [-> ->]. by rewrite join_identity.
Qed.

Lemma built_snoc p l t c : built p l t -> built p (l ++ [c]) (join_target c t).
Proof.
  intros (c0 & rest & b & -> & Hb & ->). exists c0, (rest ++ [c]), b.
  by rewrite foldl_app.
Qed.

Lemma built_identity p l t : built p l t -> exists c rest, l = c :: rest /\
  target_identity t = candidate_identity c /\ ct_upstream_model t = ca_upstream_model c.
Proof.
  intros (c & rest & b & -> & _ & ->). exists c, rest. split; [done|].
  by destruct (join_fold_identity rest (new_target p b c)) as [-> ->].
Qed.

Lemma same_target_true c t :
  same_target c t = true <->
  target_identity t = candidate_identity c /\ ct_upstream_model t = ca_upstream_model c.
Proof.
  unfold same_target, target_identity, candidate_identity. bool_props. split.
  - intros [[[-> ->] ->] ->]. done.
  - by intros [[= -> -> ->] ->].
Qed.

Lemma join_first_spec c l :
  match join_first c l with
  | Some k => exists l1 t l2, l = l1 ++ t :: l2 /\ k = l1 ++ join_target c t :: l2 /\ same_target c t = true
  | None => forall t, t ∈ l -> same_target c t = false
  end.
Proof.
  induction l as [|t l IH]; simpl; [by intros t ?%elem_of_nil|].
  destruct (same_target c t) eqn:Ht; [by exists [], t, l|].
  destruct (join_first c l) as [k|]; simpl.
  - destruct IH as (l1 & u & l2 & -> & -> & Hu). by exists (t :: l1), u, l2.
  - intros u [->|Hu]%elem_of_cons; auto.
Qed.

(** The targets and first mappings after some candidates. *)
Definition targets_ok (p : ModelId) (done : list Candidate) (targets : list CatalogTarget)
    (mappings : Mappings) : Prop :=
  NoDup (map target_identity targets) /\
  Forall (fun t => built p (of_identity (target_identity t) done) t) targets /\
  (forall c, c ∈ done -> exists t, t ∈ targets /\ target_identity t = candidate_identity c /\
     ct_upstream_model t = ca_upstream_model c) /\
  (forall id, fst <$> mappings !! id =
     ct_upstream_model <$> find (fun t => beq (target_identity t) id) targets).

Lemma find_identity targets t :
  NoDup (map target_identity targets) -> t ∈ targets ->
  find (fun u => beq (target_identity u) (target_identity t)) targets = Some t.
Proof.
  induction targets as [|u l IH]; simpl; [by intros _ ?%elem_of_nil|].
  rewrite NoDup_cons. intros [Hu Hl] [->|Ht]%elem_of_cons.
  { by rewrite bool_decide_eq_true_2. }
  rewrite bool_decide_eq_false_2; [by apply IH|]. intros E. apply Hu. rewrite E.
  apply list_elem_of_In, in_map. by apply list_elem_of_In.
Qed.

Lemma find_identity_None (targets : list CatalogTarget) id :
  find (fun u => beq (target_identity u) id) targets = None <->
  id ∉ map target_identity targets.
Proof.
  rewrite list_elem_of_In, in_map_iff. split.
  - intros Hf (t & <- & Hin). apply (find_none _ _ Hf) in Hin. simpl in Hin. by rewrite bool_decide_eq_true_2 in Hin.
  - intros Hn. destruct (find _ targets) as [t|] eqn:Hf; [|done].
    apply find_some in Hf as [Hin He]. apply bool_decide_eq_true in He. destruct Hn. eauto.
Qed.

Lemma of_identity_snoc_ne id done c :
  candidate_identity c <> id -> of_identity id (done ++ [c]) = of_identity id done.
Proof.
  intros Hne. rewrite of_identity_app. unfold of_identity at 2. simpl.
  by rewrite bool_decide_eq_false_2, app_nil_r.
Qed.

Lemma of_identity_snoc_eq done c :
  of_identity (candidate_identity c) (done ++ [c]) = of_identity (candidate_identity c) done ++ [c].
Proof. rewrite of_identity_app. unfold of_identity at 2. simpl. by rewrite bool_decide_eq_true_2. Qed.

Lemma find_append {A} (p : A -> bool) l k :
  find p (l ++ k) = match find p l with Some x => Some x | None => find p k end.
Proof. induction l as [|x l IH]; simpl; [done|]. by destruct (p x). Qed.

Lemma find_map_identity (f : CatalogTarget -> CatalogTarget) l1 t l2 id :
  target_identity (f t) = target_identity t -> ct_upstream_model (f t) = ct_upstream_model t ->
  ct_upstream_model <$> find (fun u => beq (target_identity u) id) (l1 ++ f t :: l2) =
  ct_upstream_model <$> find (fun u => beq (target_identity u) id) (l1 ++ t :: l2).
Proof.
  intros Hi Hu. induction l1 as [|u l1 IH]; simpl.
  - rewrite Hi. destruct (bool_decide _); [by simpl; rewrite Hu|done].
  - destruct (bool_decide _); done.
Qed.

Lemma targets_join p done l1 t l2 mappings c :
  targets_ok p done (l1 ++ t :: l2) mappings -> same_target c t = true ->
  targets_ok p (done ++ [c]) (l1 ++ join_target c t :: l2) mappings.
Proof.
  intros (Hnd & Hb & Hin & Hm) [Hid Hup]%same_target_true.
  assert (Hids : map target_identity (l1 ++ join_target c t :: l2) = map target_identity (l1 ++ t :: l2))
    by (rewrite !map_app; simpl; by rewrite join_identity).
  split; [by rewrite Hids|]. split; [|split].
  - rewrite map_app in Hnd. simpl in Hnd. apply NoDup_app in Hnd as (_ & Hdis & [Ht _]%NoDup_cons).
    apply Forall_app in Hb as [Hb1 [Hbt Hb2]%Forall_cons].
    assert (Hother : forall l, candidate_identity c ∉ map target_identity l ->
      Forall (fun u => built p (of_identity (target_identity u) done) u) l ->
      Forall (fun u => built p (of_identity (target_identity u) (done ++ [c])) u) l).
    { intros l Hl. rewrite !Forall_forall. intros Hbl u Hu. rewrite of_identity_snoc_ne; [auto|].
      intros E. apply Hl. rewrite E. apply list_elem_of_In, in_map. by apply list_elem_of_In. }
    rewrite <- Hid in Hother. apply Forall_app. split; [|constructor].
    + apply Hother; [|done]. intros Hc. apply (Hdis _ Hc). by left.
    + rewrite join_identity, Hid, of_identity_snoc_eq, <- Hid. by apply built_snoc.
    + by apply Hother.
  - intros d [Hd| ->%list_elem_of_singleton]%elem_of_app.
    + destruct (Hin d Hd) as (u & Hu & Hui & Huu).
      apply elem_of_app in Hu as [Hu|[->|Hu]%elem_of_cons].
      * exists u. rewrite elem_of_app. auto.
      * exists (join_target c t). rewrite join_identity. split; [set_solver|done].
      * exists u. split; [set_solver|done].
    + exists (join_target c t). rewrite join_identity. split; [set_solver|done].
  - intros id. rewrite Hm. symmetry. apply (find_map_identity (join_target c)); [apply join_identity|done].
Qed.

Lemma targets_new p done targets mappings c b s :
  targets_ok p done targets mappings ->
  find (fun t => beq (target_identity t) (candidate_identity c)) targets = None ->
  target_binding_new (model_str p) (source_str (pv_source (ca_provenance c))) = Ok b ->
  targets_ok p (done ++ [c]) (targets ++ [new_target p b c])
    (<[candidate_identity c := (ca_upstream_model c, s)]> mappings).
Proof.
  intros (Hnd & Hb & Hin & Hm) Hnone Hbind. pose proof Hnone as Hni. rewrite find_identity_None in Hni.
  assert (Hempty : of_identity (candidate_identity c) done = []).
  { destruct (of_identity _ done) as [|d l] eqn:E; [done|]. destruct Hni.
    assert (Hd : d ∈ of_identity (candidate_identity c) done) by (rewrite E; by left).
    apply elem_of_of_identity in Hd as [Hd Hdi]. destruct (Hin d Hd) as (t & Ht & Hti & _).
    rewrite <- Hdi, <- Hti. apply list_elem_of_In, in_map. by apply list_elem_of_In. }
  split; [|split; [|split]].
  - rewrite map_app. apply NoDup_app. split; [done|]. split; [|apply NoDup_singleton].
    intros id Hid ->%list_elem_of_singleton. done.
  - apply Forall_app. split; [|apply Forall_singleton].
    + rewrite Forall_forall in *. intros u Hu. rewrite of_identity_snoc_ne; [auto|]. intros E. apply Hni.
      rewrite E. apply list_elem_of_In, in_map. by apply list_elem_of_In.
    + change (target_identity (new_target p b c)) with (candidate_identity c).
      rewrite of_identity_snoc_eq, Hempty. by exists c, [], b.
  - intros d [Hd| ->%list_elem_of_singleton]%elem_of_app.
    + destruct (Hin d Hd) as (u & Hu & ? & ?). exists u. rewrite elem_of_app. auto.
    + exists (new_target p b c). rewrite elem_of_app, list_elem_of_singleton. auto.
  - intros id. rewrite find_append. destruct (decide (candidate_identity c = id)) as [<-|Hne].
    + rewrite lookup_insert_eq, Hnone. simpl.
      change (target_identity (new_target p b c)) with (candidate_identity c).
      by rewrite bool_decide_eq_true_2.
    + rewrite lookup_insert_ne, Hm by done. clear Hnone. destruct (find _ targets); [done|]. simpl.
      change (target_identity (new_target p b c)) with (candidate_identity c).
      case_bool_decide; done.
Qed.

Lemma targets_step p done targets mappings c mappings' targets' :
  targets_ok p done targets mappings ->
  check_mapping p mappings c = Ok mappings' -> add_candidate p targets c = Ok targets' ->
  targets_ok p (done ++ [c]) targets' mappings'.
Proof.
  intros Hok Hc Ha. pose proof Hok as (Hnd & _ & _ & Hm). specialize (Hm (candidate_identity c)).
  unfold check_mapping, add_candidate in *. pose proof (join_first_spec c targets) as Hj.
  destruct (mappings !! candidate_identity c) as [[u s]|]; simpl in Hm.
  - destruct (bool_decide_reflect (u = ca_upstream_model c)) as [->|]; [|done]. injection Hc as <-.
    destruct (find _ targets) as [t|] eqn:Hf; [|done]. injection Hm as Hu.
    apply find_some in Hf as [Ht Hti]. apply bool_decide_eq_true in Hti. apply list_elem_of_In in Ht.
    destruct (join_first c targets) as [k|].
    + injection Ha as <-. destruct Hj as (l1 & v & l2 & -> & -> & Hv). by apply targets_join.
    + specialize (Hj t Ht). apply not_true_iff_false in Hj. destruct Hj. by apply same_target_true.
  - injection Hc as <-. destruct (find _ targets) eqn:Hf; [done|].
    destruct (join_first c targets) as [k|].
    + destruct Hj as (l1 & v & l2 & -> & -> & [Hv _]%same_target_true).
      apply find_identity_None in Hf. destruct Hf. rewrite <- Hv, map_app. set_solver.
    + apply result_bind_Ok in Ha as (b & Hb%map_err_Ok & [= <-]). by apply targets_new.
Qed.

Lemma compile_targets_Ok p done targets mappings l ts :
  targets_ok p done targets mappings -> compile_targets p targets mappings l = Ok ts ->
  exists mappings', targets_ok p (done ++ l) ts mappings'.
Proof.
  revert done targets mappings. induction l as [|c l IH]; intros done targets mappings Hok; simpl.
  { intros [= <-]. exists mappings. by rewrite app_nil_r. }
  intros (m' & Hm & H)%result_bind_Ok. apply result_bind_Ok in H as (t' & Ht & H).
  destruct (IH (done ++ [c]) t' m') as [m'' Hok']; [by eapply targets_step|done|].
  exists m''. by rewrite <- app_assoc in Hok'.
Qed.
