(* ===== verification/CatalogFacts.v ===== *)
(** Properties of the merged catalog: it holds exactly the exposures of its
    sources, and the order of the inputs does not matter. *)
From S2P Require Import Prelude Str Time CoreId Capabilities Bytes Json Dialect Catalog CatalogMerge CatalogSpec.

Open Scope N_scope.

(** * Targets *)

(** A target of a model with candidates [cs]: it stands for the candidates of its
    identity, which agree on the upstream model; it can do what all of them can,
    maps responses if one of them does, and has the best of their tiers. *)
Record merged_target (cs : list Candidate) (t : CatalogTarget) : Prop := {
  mt_provenance : ct_provenance t ≡ₚ map ca_provenance (of_identity (target_identity t) cs);
  mt_upstream : forall c, c ∈ cs -> candidate_identity c = target_identity t ->
    ca_upstream_model c = ct_upstream_model t;
  mt_capabilities : forall k, CapabilitySet.contains (ct_capabilities t) k = true <->
    forall c, c ∈ cs -> candidate_identity c = target_identity t ->
      CapabilitySet.contains (ca_capabilities c) k = true;
  mt_force_mapping : ct_force_mapping t = true <->
    exists c, c ∈ cs /\ candidate_identity c = target_identity t /\ ca_force_mapping c = true;
  mt_priority : exists c, c ∈ cs /\ candidate_identity c = target_identity t /\
    ct_priority t = ca_priority c /\ ct_signed_priority t = ca_signed_priority c;
  mt_best : forall c, c ∈ cs -> candidate_identity c = target_identity t -> ct_priority t <= ca_priority c;
}.

Record merged_model (p : ModelId) (cs : list Candidate) (m : CatalogModel) : Prop := {
  mm_id : cm_id m = p;
  mm_distinct : NoDup (map target_identity (cm_targets m));
  mm_targets : Forall (merged_target cs) (cm_targets m);
  mm_complete : forall c, c ∈ cs -> exists t, t ∈ cm_targets m /\ target_identity t = candidate_identity c;
  mm_sorted : StronglySorted (fun a b => ct_priority a <= ct_priority b) (cm_targets m);
}.

(** The facts of a fold of joins over candidates. *)
Record joined (l : list Candidate) (t : CatalogTarget) : Prop := {
  jn_provenance : ct_provenance t = map ca_provenance l;
  jn_capabilities : forall k, CapabilitySet.contains (ct_capabilities t) k = true <->
    forall c, c ∈ l -> CapabilitySet.contains (ca_capabilities c) k = true;
  jn_force : ct_force_mapping t = true <-> exists c, c ∈ l /\ ca_force_mapping c = true;
  jn_priority : exists c, c ∈ l /\ ct_priority t = ca_priority c /\ ct_signed_priority t = ca_signed_priority c;
  jn_best : forall c, c ∈ l -> ct_priority t <= ca_priority c;
}.

Lemma joined_new p b c : joined [c] (new_target p b c).
Proof. split; simpl; try done; setoid_rewrite list_elem_of_singleton; naive_solver. Qed.

Lemma joined_snoc l t c : joined l t -> joined (l ++ [c]) (join_target c t).
Proof.
  intros [Hp Hc Hf (d & Hd & Hdp & Hds) Hb]. split; simpl.
  - by rewrite Hp, map_app.
  - intros k. rewrite CapabilitySet.contains_intersection, andb_true_iff, Hc.
    setoid_rewrite elem_of_app. setoid_rewrite list_elem_of_singleton. naive_solver.
  - rewrite orb_true_iff, Hf. setoid_rewrite elem_of_app. setoid_rewrite list_elem_of_singleton. naive_solver.
  - destruct (_ <? _).
    + exists c. split; [set_solver|done].
    + exists d. split; [set_solver|done].
  - intros e [He|He]%elem_of_app; [pose proof (Hb e He)|apply list_elem_of_singleton in He as ->];
      destruct (N.ltb_spec (ca_priority c) (ct_priority t)); lia.
Qed.

Lemma joined_fold l t rest : joined l t -> joined (l ++ rest) (foldl (fun t c => join_target c t) t rest).
Proof.
  revert l t. induction rest as [|c rest IH]; intros l t Hj; simpl; [by rewrite app_nil_r|].
  rewrite cons_middle, app_assoc. by apply IH, joined_snoc.
Qed.

Lemma built_joined p l t : built p l t -> joined l t.
Proof. intros (c & rest & b & -> & _ & ->). apply (joined_fold [c]), joined_new. Qed.

#[local] Instance of_identity_perm id : Proper (Permutation ==> Permutation) (of_identity id).
Proof.
  intros l k Hp. unfold of_identity. induction Hp; simpl; repeat case_bool_decide;
    eauto using Permutation, perm_trans.
Qed.

Lemma targets_ok_merged p cs targets mappings t :
  targets_ok p cs targets mappings -> t ∈ targets -> merged_target cs (sort_provenance t).
Proof.
  intros (Hnd & Hb & Hin & Hm) Ht. rewrite Forall_forall in Hb.
  destruct (built_joined _ _ _ (Hb t Ht)) as [Hp Hc Hf Hpr Hbest].
  setoid_rewrite elem_of_of_identity in Hc. setoid_rewrite elem_of_of_identity in Hf.
  setoid_rewrite elem_of_of_identity in Hpr. setoid_rewrite elem_of_of_identity in Hbest.
  split; change (target_identity (sort_provenance t)) with (target_identity t); simpl.
  - by rewrite sort_by_perm, Hp.
  - intros c Hcs Hid. destruct (Hin c Hcs) as (u & Hu & Hui & Huu).
    pose proof (find_identity targets t Hnd Ht) as H1. pose proof (find_identity targets u Hnd Hu) as H2.
    rewrite Hui, Hid in H2. congruence.
  - intros k. rewrite Hc. naive_solver.
  - rewrite Hf. naive_solver.
  - destruct Hpr as (c & [? ?] & ? & ?). eauto.
  - intros c ? ?. by apply Hbest.
Qed.

Lemma merged_target_perm cs ds t : cs ≡ₚ ds -> merged_target cs t -> merged_target ds t.
Proof.
  intros Hp [Hpv Hu Hc Hf (c & Hin & Hpr) Hb].
  assert (He : forall c, c ∈ ds <-> c ∈ cs) by (intros; by rewrite Hp). split.
  - by rewrite <- Hp.
  - intros d Hd. by apply Hu, He.
  - intros k. rewrite Hc. by setoid_rewrite He.
  - rewrite Hf. by setoid_rewrite He.
  - exists c. by rewrite He.
  - intros d Hd. by apply Hb, He.
Qed.

#[local] Instance pre_target_order : PreCmp target_order.
Proof. unfold target_order. repeat apply pre_then; apply pre_key, _. Qed.

Lemma compile_public_model_Ok p cs m : compile_public_model p cs = Ok m -> merged_model p cs m.
Proof.
  unfold compile_public_model. intros (ts & Hts & [= <-])%result_bind_Ok.
  destruct (compile_targets_Ok p [] [] ∅ (sort_by candidate_order cs) ts) as [mappings Hok]; [|exact Hts|].
  { split; [constructor|]. split; [constructor|]. split; [set_solver|]. intros id. by rewrite lookup_empty. }
  simpl in Hok. assert (Hperm := sort_by_perm candidate_order cs).
  assert (Hids : map target_identity (map sort_provenance ts) = map target_identity ts)
    by (rewrite map_map; done).
  split; simpl.
  - done.
  - rewrite (sort_by_perm target_order), Hids. apply Hok.
  - rewrite (sort_by_perm target_order). apply Forall_forall. intros u (t & <- & Ht)%list_elem_of_In%in_map_iff.
    apply list_elem_of_In in Ht. apply (merged_target_perm _ _ _ Hperm).
    by eapply targets_ok_merged.
  - intros c Hc. rewrite <- Hperm in Hc. destruct Hok as (_ & _ & Hin & _).
    destruct (Hin c Hc) as (t & Ht & Hti & _). exists (sort_provenance t). split; [|done].
    rewrite (sort_by_perm target_order). apply list_elem_of_In, in_map. by apply list_elem_of_In.
  - induction (sort_by_sorted target_order (map sort_provenance ts)) as [|a l _ IH Hall]; constructor; [done|].
    eapply Forall_impl; [exact Hall|]. intros b. unfold target_order.
    destruct (N.compare_spec (ct_priority a) (ct_priority b)); simpl; lia || done.
Qed.

(** * The table of models *)

Lemma compile_models_Ok models l r :
  NoDup l.*1 -> compile_models models l = Ok r ->
  (forall p cs, (p, cs) ∈ l -> exists m, r !! p = Some m /\ compile_public_model p cs = Ok m) /\
  (forall p, p ∉ l.*1 -> r !! p = models !! p).
Proof.
  revert models. induction l as [|[q ds] l IH]; intros models Hnd; cbn [compile_models].
  { intros [= <-]. split; [by intros p cs ?%elem_of_nil|done]. }
  apply NoDup_cons in Hnd as [Hq Hnd]. intros (m & Hm & H)%result_bind_Ok.
  apply IH in H as [Hin Hout]; [|done]. split.
  - intros p cs [[= -> ->]|Hp]%elem_of_cons; [|by apply Hin].
    exists m. by rewrite Hout, lookup_insert_eq.
  - intros p Hp. apply not_elem_of_cons in Hp as [Hne Hp]. by rewrite Hout, lookup_insert_ne.
Qed.

Lemma NoDup_btree_keys {K V} `{Countable K} (c : K -> K -> comparison) (m : gmap K V) :
  NoDup (btree_list c m).*1.
Proof. unfold btree_list. rewrite sort_by_perm. apply NoDup_fst_map_to_list. Qed.

(** What the operator's overrides make of a model. *)
Definition overridden (ov : ModelOverrides) (p : ModelId) (m : CatalogModel) : CatalogModel :=
  match ov !! p with Some o => override_apply o m | None => m end.

Lemma apply_loop_spec ov l retained disabled matched r d k :
  NoDup l.*1 -> apply_loop ov l retained disabled matched = (r, d, k) ->
  (forall p m, (p, m) ∈ l -> r !! p = Some (overridden ov p m)) /\
  (forall p, p ∉ l.*1 -> r !! p = retained !! p) /\
  (forall p, p ∈ d <-> p ∈ disabled \/ p ∈ l.*1 /\ exists o, ov !! p = Some o /\ mo_disabled o = true) /\
  (forall p, p ∈ k <-> p ∈ matched \/ p ∈ l.*1 /\ is_Some (ov !! p)).
Proof.
  revert retained disabled matched.
  induction l as [|[q m] l IH]; intros retained disabled matched Hnd; cbn [apply_loop].
  { intros [= <- <- <-]. repeat split; set_solver. }
  apply NoDup_cons in Hnd as [Hq Hnd]. change ((q, m) :: l).*1 with (q :: l.*1).
  destruct (ov !! q) as [o|] eqn:Ho; intros H; apply IH in H as (Hr & Hout & Hd & Hk); try done;
    (split; [|split; [|split]]).
  - intros p n [[= -> ->]|Hp]%elem_of_cons; [|by apply Hr].
    unfold overridden. by rewrite Hout, lookup_insert_eq, Ho.
  - intros p [Hne Hp]%not_elem_of_cons. by rewrite Hout, lookup_insert_ne.
  - intros p. rewrite Hd, elem_of_cons. clear -Ho. destruct (mo_disabled o) eqn:E.
    + assert (Hq : exists o, ov !! q = Some o /\ mo_disabled o = true) by eauto.
      rewrite elem_of_app, list_elem_of_singleton. clear -Hq. split; [|tauto].
      intros [[?| ->]|?]; tauto.
    + assert (Hq : ~ exists o, ov !! q = Some o /\ mo_disabled o = true)
        by (intros (u & Hu & Hd'); rewrite Ho in Hu; injection Hu as <-; congruence).
      clear -Hq. split; [tauto|]. intros [?|[[->|?] ?]]; tauto.
  - intros p. rewrite Hk, elem_of_union, elem_of_singleton, elem_of_cons.
    pose proof (mk_is_Some _ _ Ho) as Hs. clear -Hs. naive_solver.
  - intros p n [[= -> ->]|Hp]%elem_of_cons; [|by apply Hr].
    unfold overridden. by rewrite Hout, lookup_insert_eq, Ho.
  - intros p [Hne Hp]%not_elem_of_cons. by rewrite Hout, lookup_insert_ne.
  - intros p. rewrite Hd, elem_of_cons. clear -Ho. naive_solver.
  - intros p. rewrite Hk, elem_of_cons. apply eq_None_not_Some in Ho. clear -Ho. naive_solver.
Qed.

Lemma elem_of_btree_keys {K V} `{Countable K} (c : K -> K -> comparison) (m : gmap K V) p :
  p ∈ (btree_list c m).*1 <-> is_Some (m !! p).
Proof.
  rewrite list_elem_of_fmap. split.
  - intros ([q v] & -> & Hin%elem_of_btree_list). by exists v.
  - intros [v Hv%(elem_of_btree_list c)]. by exists (p, v).
Qed.

Lemma apply_all_spec ov models r st :
  apply_all ov models = (r, st) ->
  (forall p, r !! p = overridden ov p <$> models !! p) /\
  (forall p, p ∈ ov_disabled_models st <->
     is_Some (models !! p) /\ exists o, ov !! p = Some o /\ mo_disabled o = true) /\
  (forall p, p ∈ ov_unmatched_models st <-> models !! p = None /\ is_Some (ov !! p)).
Proof.
  unfold apply_all. destruct (decide (ov = ∅)) as [->|_].
  { assert (He : forall p, (∅ : ModelOverrides) !! p = None) by (intros; apply lookup_empty).
    intros [= <- <-]. split; [|split]; intros p; rewrite ?He.
    - destruct (models !! p); simpl; [|done]. unfold overridden. by rewrite He.
    - split; [by intros ?%elem_of_nil|]. by intros (_ & o & ? & _).
    - split; [by intros ?%elem_of_nil|]. by intros (_ & [o ?]). }
  destruct (apply_loop ov (btree_list model_cmp models) ∅ [] ∅) as [[r' d] k] eqn:E.
  intros [= <- <-]. apply apply_loop_spec in E as (Hr & Hout & Hd & Hk); [|apply NoDup_btree_keys].
  setoid_rewrite elem_of_btree_keys in Hd. setoid_rewrite elem_of_btree_keys in Hk.
  setoid_rewrite elem_of_btree_keys in Hout. split; [|split]; simpl.
  - intros p. destruct (models !! p) as [m|] eqn:Hm.
    + apply (elem_of_btree_list model_cmp) in Hm. by rewrite (Hr p m).
    + rewrite Hout by (rewrite Hm; by intros [? ?]). by rewrite lookup_empty.
  - intros p. rewrite Hd. set_solver.
  - intros p. rewrite list_elem_of_In, filter_In, <- list_elem_of_In. unfold btree_keys.
    rewrite elem_of_btree_keys, negb_true_iff, bool_decide_eq_false, Hk, elem_of_empty, eq_None_not_Some.
    tauto.
Qed.

(** * Priorities *)

(** Positions of a strictly decreasing list. *)
Lemma dedup_sorted l :
  StronglySorted (fun a b => b <= a)%Z l ->
  StronglySorted (fun a b => b < a)%Z (dedup l) /\ (forall x, x ∈ dedup l <-> x ∈ l).
Proof.
  induction 1 as [|x l Hl IH Hall]; [split; [constructor|done]|].
  destruct l as [|y l]; [split; [repeat constructor|done]|]. cbn [dedup]. cbn [dedup] in IH.
  destruct IH as [IHs IHe]. destruct (Z.eqb_spec x y) as [->|Hne].
  { split; [done|]. intros z. rewrite IHe. set_solver. }
  split; [|intros z; rewrite elem_of_cons, IHe, (elem_of_cons (y :: l)); done].
  constructor; [done|]. apply Forall_forall. intros z Hz%IHe.
  inversion Hl as [|? ? _ Hy]; subst. rewrite Forall_forall in Hall, Hy.
  apply elem_of_cons in Hz as [->|Hz].
  - specialize (Hall y ltac:(by left)). lia.
  - specialize (Hy z Hz). specialize (Hall y ltac:(by left)). lia.
Qed.

Lemma distinct_priorities_spec inputs :
  StronglySorted (fun a b => b < a)%Z (distinct_priorities inputs) /\
  (forall p, p ∈ distinct_priorities inputs <-> exists i, i ∈ inputs /\ so_priority (ip_source i) = p).
Proof.
  unfold distinct_priorities. set (l := map _ inputs).
  assert (Hpre : PreCmp (fun a b => Z.compare b a)) by apply pre_rev, _.
  destruct (dedup_sorted (sort_by (fun a b => Z.compare b a) l)) as [Hs He].
  { induction (sort_by_sorted (fun a b => Z.compare b a) l) as [|x k _ IH Hall]; constructor; [done|].
    eapply Forall_impl; [exact Hall|]. done. }
  split; [done|]. intros p. rewrite He, sort_by_perm. unfold l.
  rewrite list_elem_of_In, in_map_iff. setoid_rewrite <- list_elem_of_In. naive_solver.
Qed.

Lemma strictly_sorted_lookup (l : list Z) i j x y :
  StronglySorted (fun a b => b < a)%Z l -> l !! i = Some x -> l !! j = Some y ->
  (i < j)%nat <-> (y < x)%Z.
Proof.
  intros Hs. revert i j. induction Hs as [|a l Hl IH Hall]; intros i j; [done|].
  rewrite Forall_forall in Hall.
  destruct i as [|i], j as [|j]; simpl.
  - intros [= <-] [= <-]. lia.
  - intros [= <-] Hy%list_elem_of_lookup_2%Hall. lia.
  - intros Hx%list_elem_of_lookup_2%Hall [= <-]. lia.
  - intros Hx Hy. rewrite <- (IH i j) by done. lia.
Qed.

Lemma tier_lookup inputs i :
  i ∈ inputs -> exists n, tier_in (priority_tiers inputs) i = N.of_nat (S n) /\
    distinct_priorities inputs !! n = Some (so_priority (ip_source i)).
Proof.
  intros Hi. destruct (distinct_priorities_spec inputs) as [Hs He].
  assert (Hp : so_priority (ip_source i) ∈ distinct_priorities inputs) by (apply He; eauto).
  apply list_elem_of_lookup_1 in Hp as [n Hn]. exists n. split; [|done].
  unfold tier_in, priority_tiers.
  erewrite elem_of_list_to_map_1; [done| |].
  - apply NoDup_alt. intros a b z Ha Hb.
    rewrite list_lookup_fmap, list_lookup_imap in Ha, Hb.
    destruct (distinct_priorities inputs !! a) eqn:Ea; [|done].
    destruct (distinct_priorities inputs !! b) eqn:Eb; [|done]. simpl in Ha, Hb.
    injection Ha as ->. injection Hb as ->.
    pose proof (strictly_sorted_lookup _ a b _ _ Hs Ea Eb).
    pose proof (strictly_sorted_lookup _ b a _ _ Hs Eb Ea). lia.
  - apply list_elem_of_lookup. exists n. by rewrite list_lookup_imap, Hn.
Qed.

(** A better priority is a smaller tier. *)
Lemma tier_order inputs i j :
  i ∈ inputs -> j ∈ inputs ->
  1 <= tier_in (priority_tiers inputs) i /\
  (tier_in (priority_tiers inputs) i < tier_in (priority_tiers inputs) j <->
   (so_priority (ip_source j) < so_priority (ip_source i))%Z).
Proof.
  intros (n & -> & Hn)%tier_lookup (k & -> & Hk)%tier_lookup. split; [lia|].
  destruct (distinct_priorities_spec inputs) as [Hs _].
  rewrite <- (strictly_sorted_lookup _ n k _ _ Hs Hn Hk). lia.
Qed.

(** * The merged catalog *)

(** The order in which a merge reads its inputs. *)
Definition in_order (inputs : list CatalogInput) : list CatalogInput :=
  sort_by (fun a b => source_order (ip_source a) (ip_source b)) inputs.
Definition merge_tier (inputs : list CatalogInput) : CatalogInput -> N :=
  tier_in (priority_tiers (in_order inputs)).
(** The candidates all sources publish under a name. *)
Definition published (now : N) (inputs : list CatalogInput) (p : ModelId) : list Candidate :=
  named p (all_exposures now (priority_tiers (in_order inputs)) (in_order inputs)).

Lemma merge_discoveries_Ok gen now inputs limits ov snap :
  merge_discoveries gen now inputs limits ov = Ok snap ->
  N.of_nat (length inputs) <= rl_max_sources limits /\
  check_inputs limits ∅ 0 0 (in_order inputs) = Ok tt /\
  exists models, compile_models ∅ (btree_list model_cmp
      (push_all ∅ (all_exposures now (priority_tiers (in_order inputs)) (in_order inputs)))) = Ok models /\
    exists st, apply_all ov models = (sn_models snap, st) /\
    snap = MkSnapshot gen now (sn_models snap)
      (foldl (fun s i => <[so_id (ip_source i) := reported now (merge_tier inputs i) i]> s) ∅ (in_order inputs)) st.
Proof.
  unfold merge_discoveries.
  destruct (N.ltb_spec (rl_max_sources limits) (N.of_nat (length inputs))) as [|Hlen]; [done|].
  intros ([] & Hc & H)%result_bind_Ok. apply result_bind_Ok in H as ([k s] & [-> ->]%merge_sources_Ok & H).
  apply result_bind_Ok in H as (models & Hm & H). destruct (apply_all ov models) as [r st] eqn:Ha.
  injection H as <-. simpl. eauto 10.
Qed.

(** [C16] A merge that succeeds publishes exactly what its sources expose.  A public
    name is in the catalog iff a source exposes a visible model under it (by its
    own name, by an alias that replaces it or by an alias beside it, with the
    source's prefix).  Its targets are grouped by provider and account binding:
    one target per binding, whose sources agree on the upstream model, with every
    exposure in its provenance, the capabilities all of them share, and the best
    of their priorities; targets are listed by descending source priority.  The
    overrides of the operator are applied last, a disabled model is listed, an
    override without a model is reported, and each source's counts are exact. *)
Theorem catalog_merge_refines gen now inputs limits ov snap :
  merge_discoveries gen now inputs limits ov = Ok snap ->
  exists models : gmap ModelId CatalogModel,
    (forall p, match models !! p with
               | Some m => published now inputs p <> [] /\ merged_model p (published now inputs p) m
               | None => published now inputs p = []
               end) /\
    (forall p, sn_models snap !! p = overridden ov p <$> models !! p) /\
    (forall p, p ∈ ov_disabled_models (sn_overrides snap) <->
       is_Some (models !! p) /\ exists o, ov !! p = Some o /\ mo_disabled o = true) /\
    (forall p, p ∈ ov_unmatched_models (sn_overrides snap) <-> models !! p = None /\ is_Some (ov !! p)) /\
    (forall i, i ∈ inputs ->
       sn_sources snap !! so_id (ip_source i) = Some (reported now (merge_tier inputs i) i)) /\
    (forall i j, i ∈ inputs -> j ∈ inputs ->
       merge_tier inputs i < merge_tier inputs j <-> (so_priority (ip_source j) < so_priority (ip_source i))%Z).
Proof.
  intros (_ & Hc & models & Hm & st & Ha & Hsnap)%merge_discoveries_Ok. exists models.
  apply compile_models_Ok in Hm as [Hin Hout]; [|apply NoDup_btree_keys].
  apply apply_all_spec in Ha as (Hov & Hdis & Hun).
  apply check_inputs_Ok in Hc as (Hnd & _ & _).
  assert (Hord : forall i, i ∈ in_order inputs <-> i ∈ inputs) by (intros; unfold in_order; by rewrite sort_by_perm).
  split; [|split; [done|split; [|split; [|split]]]].
  - intros p. unfold published. pose proof (push_all_lookup
      (all_exposures now (priority_tiers (in_order inputs)) (in_order inputs)) p) as Hl.
    destruct (named p _) as [|c cs].
    + rewrite Hout, lookup_empty; [done|]. rewrite elem_of_btree_keys, Hl. by intros [? ?].
    + apply (elem_of_btree_list model_cmp) in Hl. destruct (Hin p _ Hl) as (m & -> & Hcm).
      split; [done|]. by apply compile_public_model_Ok.
  - by rewrite Hsnap.
  - by rewrite Hsnap.
  - intros i Hi%Hord. rewrite Hsnap. simpl. unfold merge_tier. rewrite states_lookup by done.
    destruct (find _ (in_order inputs)) as [j|] eqn:Hf.
    + apply find_some in Hf as [Hj He]. apply bool_decide_eq_true in He. apply list_elem_of_In in Hj.
      assert (i = j) as ->; [|done]. apply list_elem_of_lookup in Hi as [a Ha]. apply list_elem_of_lookup in Hj as [b Hb].
      assert (a = b) as ->; [|congruence].
      apply (NoDup_lookup (map (fun i => so_id (ip_source i)) (in_order inputs)) a b (so_id (ip_source i))); [done|..];
        rewrite list_lookup_fmap; [rewrite Ha|rewrite Hb]; simpl; congruence.
    + apply (find_none _ _ Hf) in Hi || (apply list_elem_of_In in Hi; apply (find_none _ _ Hf) in Hi).
      by rewrite bool_decide_eq_true_2 in Hi.
  - intros i j Hi%Hord Hj%Hord. by apply tier_order.
Qed.

(** * A small catalog: two accounts of one provider, an alias beside the name it
    forks and an excluded pattern. *)

Definition sample_source (id account : string) (priority : Z) (aliases : list AliasConfig)
    (excluded : list string) : CatalogSource :=
  match source_compile (MkSourceConfig id "openai" (Some account) None (Some "team") priority aliases [] excluded) with
  | Ok s => s
  | Err _ => MkSource (MkSourceId (MkComponentId "")) (MkProviderId "") None None None 0%Z [] [] []
  end.
Definition sample_main : CatalogSource :=
  sample_source "main" "a1" 10 [MkAliasConfig "gpt-4o" "fast" true None true] ["*-preview"].
Definition sample_backup : CatalogSource := sample_source "backup" "a2" 0 [] [].
Definition sample_models : list DiscoveredModel :=
  map (fun id => discovered_new (MkModelId id) (CapabilitySet.from_iter [Text; Tools]))
    ["gpt-4o"; "o3-preview"; "gpt-4o-mini"].
Definition sample_inputs : list CatalogInput :=
  [MkInput sample_backup (MkResponse None (take 1 sample_models));
   MkInput sample_main (MkResponse (Some "v1") sample_models)].
Definition sample_limits : RefreshLimits :=
  match refresh_compile refresh_config_default with Ok l => l | Err _ => MkRefreshLimits 0 0 0 0 0 0 end.
Definition sample_merged : CatalogSnapshot :=
  match merge_discoveries 1 0 sample_inputs sample_limits ∅ with Ok s => s | Err _ => snapshot_empty end.

Lemma catalog_merge_refines_witness :
  exists models : gmap ModelId CatalogModel,
    forall p, sn_models sample_merged !! p = overridden ∅ p <$> models !! p.
Proof.
  destruct (catalog_merge_refines 1 0 sample_inputs sample_limits ∅ sample_merged) as (models & _ & H & _).
  - vm_compute. reflexivity.
  - by exists models.
Defined.

(** * The order in which sources answer and list their models does not change the
      merged catalog. *)

(** Two answers of one source that list the same models. *)
Definition same_input (a b : CatalogInput) : Prop :=
  ip_source a = ip_source b /\ ds_revision (ip_response a) = ds_revision (ip_response b) /\
  ds_models (ip_response a) ≡ₚ ds_models (ip_response b).

(** The same answers, in any order. *)
Definition same_inputs (l k : list CatalogInput) : Prop :=
  exists m, l ≡ₚ m /\ Forall2 same_input m k.

Definition input_id (i : CatalogInput) : SourceId := so_id (ip_source i).

(** * Sorting *)

Lemma sort_by_Forall2 {A} (R : A -> A -> Prop) (c : A -> A -> comparison) l k :
  (forall a a' b b', R a a' -> R b b' -> c a b = c a' b') ->
  Forall2 R l k -> Forall2 R (sort_by c l) (sort_by c k).
Proof.
  intros Hc. induction 1 as [|a a' l k Ha Hl IH]; simpl; [constructor|].
  induction IH as [|b b' l' k' Hb Hl' IH']; simpl; [by repeat constructor|].
  rewrite (Hc a a' b b') by done. destruct (c a' b'); repeat constructor; try done.
Qed.

Lemma adjacent_dup_map {A K} `{EqDecision K} (key : A -> K) l :
  key <$> adjacent_dup key l = adjacent_dup (fun x => x) (map key l).
Proof.
  induction l as [|x l IH]; [done|]. destruct l as [|y l]; [done|]. simpl in *.
  by destruct (bool_decide _).
Qed.

Lemma adjacent_dup_NoDup {K} (c : K -> K -> comparison) `{!EqDecision K, !OrdCmp c} l :
  StronglySorted (fun x y => c x y <> Gt) l -> adjacent_dup (fun x => x) l = None -> NoDup l.
Proof.
  induction 1 as [|x l Hl IH Hall]; intros Hd; constructor.
  - destruct l as [|y l]; [apply not_elem_of_nil|]. simpl in Hd.
    destruct (bool_decide_reflect (x = y)) as [|Hne]; [done|].
    intros [->|Hx]%elem_of_cons; [done|]. inversion Hl as [|? ? _ Hy]; subst.
    rewrite Forall_forall in Hall, Hy. specialize (Hall y ltac:(by left)). specialize (Hy x Hx).
    apply Hne, (ord_eq c). rewrite (pre_opp c x y) in Hy. by destruct (c x y).
  - apply IH. destruct l as [|y l]; [done|]. simpl in Hd. by destruct (bool_decide _).
Qed.

Lemma sort_by_key_perm {A K} (key : A -> K) (c : K -> K -> comparison) `{!OrdCmp c} l k :
  l ≡ₚ k -> map key (sort_by (fun a b => c (key a) (key b)) l) = map key (sort_by (fun a b => c (key a) (key b)) k).
Proof.
  intros Hp. rewrite <- !(sort_by_map key _ c) by done. apply sort_by_unique; [apply _|by rewrite Hp|].
  intros x y _ _. apply (ord_eq c).
Qed.

Lemma NoDup_map_inj {A K} (key : A -> K) l x y :
  NoDup (map key l) -> x ∈ l -> y ∈ l -> key x = key y -> x = y.
Proof.
  intros Hnd [i Hi]%list_elem_of_lookup [j Hj]%list_elem_of_lookup He.
  assert (i = j) as ->; [|congruence].
  apply (NoDup_lookup (map key l) i j (key x)); [done|..]; rewrite list_lookup_fmap;
    [by rewrite Hi|by rewrite Hj, He].
Qed.

(** Sorting by a key gives one result when the keys turn out distinct, and otherwise
    the same first repeated key. *)
Lemma sort_dup_perm {A K} (key : A -> K) (c : K -> K -> comparison) `{!EqDecision K, !OrdCmp c} l k :
  l ≡ₚ k ->
  let sort := sort_by (fun a b => c (key a) (key b)) in
  match adjacent_dup key (sort l), adjacent_dup key (sort k) with
  | Some x, Some y => key x = key y
  | None, None => sort l = sort k
  | _, _ => False
  end.
Proof.
  intros Hp sort. pose proof (sort_by_key_perm key c l k Hp) as Hk. fold sort in Hk.
  pose proof (adjacent_dup_map key (sort l)) as Hl. pose proof (adjacent_dup_map key (sort k)) as Hr.
  rewrite Hk, <- Hr in Hl. destruct (adjacent_dup key (sort l)) eqn:El, (adjacent_dup key (sort k)); try done.
  { simpl in Hl. congruence. }
  assert (Hpre : PreCmp (fun a b => c (key a) (key b))) by apply (pre_key key c), _.
  apply sort_by_unique; [done|done|]. intros x y Hx Hy Hxy%(ord_eq c).
  apply (NoDup_map_inj key (sort l)); [|by unfold sort; rewrite sort_by_perm..|done].
  apply (adjacent_dup_NoDup c).
  - unfold sort. rewrite <- (sort_by_map key _ c) by done. apply sort_by_sorted, _.
  - by rewrite <- adjacent_dup_map, El.
Qed.

(** * The parts of a merge *)

Section parts.
Context (limits : RefreshLimits) (now : N).

Lemma check_inputs_same seen total ops l k :
  Forall2 same_input l k -> check_inputs limits seen total ops l = check_inputs limits seen total ops k.
Proof.
  intros H. revert seen total ops. induction H as [|a b l k (Hs & _ & Hm) H IH]; intros seen total ops; [done|].
  cbn [check_inputs]. rewrite Hs, (Permutation_length Hm). repeat (case_match; [done|]). apply IH.
Qed.

Lemma merge_source_same m states tier a b :
  same_input a b -> merge_source m states now tier a = merge_source m states now tier b.
Proof.
  intros (Hs & Hr & Hm). unfold merge_source. rewrite Hs, Hr. destruct (validate_revision _ _); simpl; [|done].
  pose proof (sort_dup_perm dm_id model_cmp _ _ Hm) as Hsort. cbv zeta in Hsort.
  change (fun a b => model_cmp (dm_id a) (dm_id b)) with discovered_order in Hsort.
  destruct (adjacent_dup dm_id (sort_by discovered_order (ds_models (ip_response a)))),
    (adjacent_dup dm_id (sort_by discovered_order (ds_models (ip_response b)))); try done.
  - by rewrite Hsort.
  - by rewrite Hsort.
Qed.

Lemma merge_sources_same m states tiers l k :
  Forall2 same_input l k -> merge_sources m states tiers now l = merge_sources m states tiers now k.
Proof.
  intros H. revert m states. induction H as [|a b l k Hab H IH]; intros m states; [done|].
  cbn [merge_sources]. rewrite (merge_source_same m states _ a b Hab).
  destruct Hab as [-> _]. destruct (merge_source _ _ _ _ b) as [[m' s']|]; simpl; [apply IH|done].
Qed.

Lemma priority_tiers_same l k : Forall2 same_input l k -> priority_tiers l = priority_tiers k.
Proof.
  intros H. unfold priority_tiers, distinct_priorities.
  assert (map (fun i => so_priority (ip_source i)) l = map (fun i => so_priority (ip_source i)) k) as ->; [|done].
  induction H as [|a b l k [Hs _] H IH]; simpl; [done|]. by rewrite Hs, IH.
Qed.

End parts.

Lemma in_order_same l k :
  NoDup (map input_id l) -> same_inputs l k -> Forall2 same_input (in_order l) (in_order k).
Proof.
  intros Hnd (m & Hp & Hf).
  assert (Hpre : PreCmp (fun a b => source_order (ip_source a) (ip_source b))).
  { apply (pre_key ip_source source_order). unfold source_order. apply pre_then.
    - apply pre_rev. apply (pre_key so_priority Z.compare), _.
    - apply (pre_key so_id source_cmp), _. }
  assert (in_order l = in_order m) as ->.
  { apply sort_by_unique; [done|done|]. intros x y Hx Hy Hxy. apply (NoDup_map_inj input_id l); [done..|].
    unfold source_order in Hxy. destruct (Z.compare _ _); try done. by apply (ord_eq source_cmp). }
  apply sort_by_Forall2; [|done]. intros a a' b b' [-> _] [-> _]. done.
Qed.

Lemma merge_same gen now limits ov l k :
  NoDup (map input_id l) -> same_inputs l k ->
  merge_discoveries gen now l limits ov = merge_discoveries gen now k limits ov.
Proof.
  intros Hnd Hs. pose proof (in_order_same l k Hnd Hs) as Hord. unfold merge_discoveries.
  assert (length l = length k) as ->.
  { destruct Hs as (m & -> & Hf). by eapply Forall2_length. }
  fold (in_order l). fold (in_order k). rewrite (priority_tiers_same _ _ Hord).
  by rewrite (check_inputs_same limits ∅ 0 0 _ _ Hord), (merge_sources_same now ∅ ∅ _ _ _ Hord).
Qed.

Lemma merge_Ok_distinct gen now l limits ov s :
  merge_discoveries gen now l limits ov = Ok s -> NoDup (map input_id l).
Proof.
  intros (_ & (Hnd & _)%check_inputs_Ok & _)%merge_discoveries_Ok. revert Hnd.
  change (NoDup (map input_id (in_order l)) -> NoDup (map input_id l)).
  unfold in_order. by rewrite sort_by_perm.
Qed.

Lemma merge_repeated gen now l limits ov :
  ~ NoDup (map input_id l) -> exists e, merge_discoveries gen now l limits ov = Err e.
Proof. intros Hn. destruct (merge_discoveries _ _ _ _ _) eqn:E; [|by eexists]. by apply merge_Ok_distinct in E. Qed.

Lemma same_inputs_ids l k : same_inputs l k -> map input_id l ≡ₚ map input_id k.
Proof.
  intros (m & -> & Hf). induction Hf as [|a b m k [Hs _] Hf IH]; simpl; [done|].
  unfold input_id at 1 3. rewrite Hs. by constructor.
Qed.

(** [C17] Input ordering has no effect: the catalog merged from answers of distinct
    sources, or the error, is the same in whatever order the sources answered and
    listed their models.  Answers of which two are of one source are refused in every
    order, though the error may name another of the causes. *)
Theorem merge_order_independent gen now limits ov l k :
  same_inputs l k ->
  (NoDup (map input_id l) ->
   merge_discoveries gen now l limits ov = merge_discoveries gen now k limits ov) /\
  (forall s, merge_discoveries gen now l limits ov = Ok s <-> merge_discoveries gen now k limits ov = Ok s) /\
  (~ NoDup (map input_id l) -> exists e e', merge_discoveries gen now l limits ov = Err e /\ merge_discoveries gen now k limits ov = Err e').
Proof.
  intros Hs. split; [by intros; apply merge_same|]. split.
  - intros s. split; intros H; rewrite <- H.
    + symmetry. apply merge_same; [by eapply merge_Ok_distinct|done].
    + apply merge_same; [|done]. rewrite (same_inputs_ids l k Hs). by eapply merge_Ok_distinct.
  - intros Hn. destruct (merge_repeated gen now l limits ov Hn) as [e ->].
    rewrite (same_inputs_ids l k Hs) in Hn. destruct (merge_repeated gen now k limits ov Hn) as [e' ->]. by exists e, e'.
Qed.

Lemma merge_order_independent_witness :
  merge_discoveries 1 0 (reverse sample_inputs) sample_limits ∅ = merge_discoveries 1 0 sample_inputs sample_limits ∅.
Proof.
  refine (proj1 (merge_order_independent 1 0 sample_limits ∅ (reverse sample_inputs) sample_inputs _) _).
  - exists sample_inputs. split; [apply reverse_Permutation|]. repeat constructor.
  - apply (bool_decide_unpack _). vm_compute. exact I.
Defined.
