(* ===== verification/CatalogService.v ===== *)
(** The catalog service: refreshes are serialized, a snapshot is replaced only by
    the complete merge of a refresh, and the selections of the sources hold. *)
From S2P Require Import Prelude Str Time CoreId Capabilities Dialect Catalog CatalogMerge CatalogSpec.
From S2P Require Import CatalogFacts.

Open Scope N_scope.

(** * Histories

    A refresh in progress is fetching or merging.  Other calls run between its
    parts; dropping its future gives the permit back. *)

Inductive RefreshPhase :=
| Fetching
| Merging (generation : N) (inputs : list CatalogInput).

Record CatalogRuntime := MkRuntime { rt_service : CatalogService; rt_active : list RefreshPhase }.

(** How a step ends a refresh: with a result, which may be in time or not, or by the drop of its
    future; other steps end none. *)
Inductive RefreshEnd :=
| NotEnded
| Returned (in_time : bool) (result : CatalogResult RefreshReport)
| FutureDropped.

Definition fetched_in_time (responses : option Responses) (deadline_passed : bool) : bool := is_some responses && negb deadline_passed.
Definition merged_in_time (worker : WorkerEnd) : bool := match worker with WorkerTimedOut => false | _ => true end.
(** A finished fetch has one answer of every source. *)
Definition answered (s : CatalogService) (responses : option Responses) : Prop :=
  match responses with Some responses => responses.*1 ≡ₚ sv_sources s | None => True end.

Inductive catalog_step : CatalogRuntime -> RefreshEnd -> CatalogRuntime -> Prop :=
| step_select s s' id action l :
    apply_bulk_selection s id action = Ok s' -> catalog_step (MkRuntime s l) NotEnded (MkRuntime s' l)
| step_exclude s s' id model l :
    exclude_model s id model = Ok s' -> catalog_step (MkRuntime s l) NotEnded (MkRuntime s' l)
| step_include s s' id model l :
    include_model s id model = Ok s' -> catalog_step (MkRuntime s l) NotEnded (MkRuntime s' l)
| step_begin s s' l :
    refresh_begin s = (Ok tt, s') -> catalog_step (MkRuntime s l) NotEnded (MkRuntime s' (Fetching :: l))
| step_refused s s' l e :
    refresh_begin s = (Err e, s') -> catalog_step (MkRuntime s l) NotEnded (MkRuntime s' l)
| step_fetched s s' l k responses deadline_passed generation inputs :
    answered s responses -> refresh_fetched s responses deadline_passed = (Ok (generation, inputs), s') ->
    catalog_step (MkRuntime s (l ++ Fetching :: k)) NotEnded (MkRuntime s' (l ++ Merging generation inputs :: k))
| step_fetch_failed s s' l k responses deadline_passed e :
    answered s responses -> refresh_fetched s responses deadline_passed = (Err e, s') ->
    catalog_step (MkRuntime s (l ++ Fetching :: k)) (Returned (fetched_in_time responses deadline_passed) (Err e)) (MkRuntime s' (l ++ k))
| step_merged s s' l k generation inputs now worker result :
    refresh_merged s generation inputs now worker = (result, s') ->
    catalog_step (MkRuntime s (l ++ Merging generation inputs :: k)) (Returned (merged_in_time worker) result) (MkRuntime s' (l ++ k))
| step_dropped s l phase k :
    catalog_step (MkRuntime s (l ++ phase :: k)) FutureDropped (MkRuntime (drop_permit s) (l ++ k)).

Inductive catalog_reachable : CatalogRuntime -> Prop :=
| reach_new sources limits s ov :
    service_new sources limits = Ok s -> catalog_reachable (MkRuntime (with_overrides s ov) [])
| reach_step r e r' : catalog_reachable r -> catalog_step r e r' -> catalog_reachable r'.

(** * The invariant *)

(** A snapshot is the empty one or the complete merge of one answer per source. *)
Definition complete (s : CatalogService) (n : CatalogSnapshot) : Prop :=
  n = snapshot_empty \/
  exists inputs now, map ip_source inputs ≡ₚ sv_sources s /\
    merge_discoveries (sn_generation n) now inputs (sv_limits s) (sv_overrides s) = Ok n.

Record catalog_inv (r : CatalogRuntime) : Prop := {
  ci_gate : sv_refresh_gate (rt_service r) = match rt_active r with [] => true | _ => false end;
  ci_single : (length (rt_active r) <= 1)%nat;
  ci_selections : forall s, s ∈ sv_sources (rt_service r) -> is_Some (sv_selections (rt_service r) !! so_id s);
  ci_merging : forall g inputs, Merging g inputs ∈ rt_active r ->
    g = sn_generation (sv_snapshot (rt_service r)) + 1 /\
    map ip_source inputs ≡ₚ sv_sources (rt_service r);
  ci_complete : complete (rt_service r) (sv_snapshot (rt_service r));
}.

(** What the mutations of the selections keep. *)
Definition keeps_service (s s' : CatalogService) : Prop :=
  exists id sel, s' = set_selections (<[id := sel]> (sv_selections s)) s.

Lemma apply_bulk_selection_keeps s id a s' : apply_bulk_selection s id a = Ok s' -> keeps_service s s'.
Proof.
  unfold apply_bulk_selection. intros (i & _ & H)%result_bind_Ok.
  apply result_bind_Ok in H as (sel & _ & [= <-]). by eexists _, _.
Qed.

Lemma exclude_model_keeps s id m s' : exclude_model s id m = Ok s' -> keeps_service s s'.
Proof.
  unfold exclude_model. intros (i & _ & H)%result_bind_Ok. apply result_bind_Ok in H as (? & _ & H).
  apply result_bind_Ok in H as (sel & _ & [= <-]). by eexists _, _.
Qed.

Lemma include_model_keeps s id m s' : include_model s id m = Ok s' -> keeps_service s s'.
Proof.
  unfold include_model. intros (i & _ & H)%result_bind_Ok. apply result_bind_Ok in H as (? & _ & H).
  apply result_bind_Ok in H as (sel & _ & [= <-]). by eexists _, _.
Qed.

Lemma keeps_service_inv s s' l :
  keeps_service s s' -> catalog_inv (MkRuntime s l) -> catalog_inv (MkRuntime s' l).
Proof.
  intros (id & sel & ->) [Hg Hs Hsel Hm Hc]. split; try done. simpl. intros src Hsrc.
  destruct (decide (id = so_id src)) as [->|Hne]; [by rewrite lookup_insert_eq|].
  rewrite lookup_insert_ne by done. by apply Hsel.
Qed.

(** Only one refresh is active: what surrounds it is empty. *)
Lemma active_alone s l phase k : catalog_inv (MkRuntime s (l ++ phase :: k)) -> l = [] /\ k = [].
Proof.
  intros [_ Hs _ _ _]. simpl in Hs. rewrite length_app in Hs. simpl in Hs.
  destruct l, k; simpl in Hs; try done; lia.
Qed.

Lemma release_inv s l phase k n :
  catalog_inv (MkRuntime s (l ++ phase :: k)) -> complete s n ->
  catalog_inv (MkRuntime (set_gate true (set_snapshot n s)) (l ++ k)).
Proof.
  intros Hi Hn. destruct (active_alone _ _ _ _ Hi) as [-> ->]. destruct Hi as [Hg Hs Hsel Hm Hc].
  split; simpl in *; try done; [lia|]. by intros g inputs ?%elem_of_nil.
Qed.

Lemma set_snapshot_id s : set_snapshot (sv_snapshot s) s = s.
Proof. by destruct s. Qed.

Lemma release_fail_inv s l phase k :
  catalog_inv (MkRuntime s (l ++ phase :: k)) -> catalog_inv (MkRuntime (set_gate true s) (l ++ k)).
Proof.
  intros Hi. rewrite <- (set_snapshot_id s). eapply release_inv; [done|]. apply Hi.
Qed.

Lemma refresh_inputs_sources selections l inputs :
  refresh_inputs selections l = Ok inputs -> map ip_source inputs = l.*1.
Proof.
  revert inputs. induction l as [|[src r] l IH]; intros inputs; simpl; [by intros [= <-]|].
  intros (r' & _ & H)%result_bind_Ok. apply result_bind_Ok in H as (rest & Hrest & [= <-]).
  simpl. by rewrite (IH rest).
Qed.

Lemma refresh_collect_Ok s responses late g inputs :
  refresh_collect s (Some responses) late = Ok (g, inputs) ->
  refresh_inputs (sv_selections s) (sort_by (fun a b => source_order a.1 b.1) responses) = Ok inputs /\
  g = sn_generation (sv_snapshot s) + 1 /\ g <= U64_MAX.
Proof.
  unfold refresh_collect. intros (i & Hi & H)%result_bind_Ok. apply result_bind_Ok in H as (g' & Hg & H).
  destruct late; [done|]. injection H as <- <-. split; [done|].
  destruct (N.ltb_spec U64_MAX (sn_generation (sv_snapshot s) + 1)) as [|Hle]; [done|].
  injection Hg as <-. done.
Qed.

Lemma collect_sources s responses late g inputs :
  answered s (Some responses) -> refresh_collect s (Some responses) late = Ok (g, inputs) ->
  map ip_source inputs ≡ₚ sv_sources s.
Proof.
  intros Hp (Hi%refresh_inputs_sources & _)%refresh_collect_Ok.
  rewrite Hi, <- Hp. by rewrite sort_by_perm.
Qed.

Lemma refresh_fetched_cases s responses late result s' :
  refresh_fetched s responses late = (result, s') ->
  match result with
  | Ok (g, inputs) => s' = s /\ fetched_in_time responses late = true /\
      exists rs, responses = Some rs /\ refresh_collect s (Some rs) late = Ok (g, inputs)
  | Err _ => s' = drop_permit s
  end.
Proof.
  unfold refresh_fetched. destruct (refresh_collect s responses late) as [[g inputs]|e] eqn:E; intros [= <- <-]; [|done].
  split; [done|]. destruct responses as [rs|]; [|done]. split; [|by exists rs]. unfold refresh_collect in E.
  apply result_bind_Ok in E as (i & _ & E). apply result_bind_Ok in E as (g' & _ & E). by destruct late.
Qed.

Lemma refresh_merged_cases s g inputs now worker result s' :
  refresh_merged s g inputs now worker = (result, s') ->
  match result with
  | Ok report => worker = WorkerReturned /\ exists n,
      merge_discoveries g now inputs (sv_limits s) (sv_overrides s) = Ok n /\
      sn_generation n = g /\ rr_generation report = g /\ s' = drop_permit (set_snapshot n s)
  | Err _ => s' = drop_permit s
  end.
Proof.
  unfold refresh_merged, refresh_publish. destruct worker; [by intros [= <- <-]..|].
  destruct (merge_discoveries g now inputs _ _) as [n|e] eqn:E; intros [= <- <-]; [|done].
  split; [done|]. exists n. split_and!; try done. by apply merge_discoveries_Ok in E as (_ & _ & models & _ & st & _ & ->).
Qed.

Lemma service_new_inv sources limits s ov :
  service_new sources limits = Ok s -> catalog_inv (MkRuntime (with_overrides s ov) []).
Proof.
  unfold service_new. case_match; [done|]. case_match; [done|]. intros [= <-].
  split; simpl; try done; [lia| |by intros g inputs ?%elem_of_nil|by left].
  intros src Hsrc. apply list_elem_of_In in Hsrc. clear -Hsrc.
  induction (sort_by source_order sources) as [|x l IH]; simpl in *; [done|].
  destruct (decide (so_id x = so_id src)) as [->|Hne]; [by rewrite lookup_insert_eq|].
  rewrite lookup_insert_ne by done. apply IH. destruct Hsrc as [->|?]; done.
Qed.

Lemma catalog_step_inv r e r' : catalog_inv r -> catalog_step r e r' -> catalog_inv r'.
Proof.
  intros Hi Hstep. destruct Hstep as [s s' id action l H|s s' id model l H|s s' id model l H|s s' l H|s s' l e H|
    s s' l k rs late g inputs Ha H|s s' l k rs late e Ha H|s s' l k g inputs now worker result H|s l phase k].
  - eapply keeps_service_inv; [by eapply apply_bulk_selection_keeps|done].
  - eapply keeps_service_inv; [by eapply exclude_model_keeps|done].
  - eapply keeps_service_inv; [by eapply include_model_keeps|done].
  - unfold refresh_begin in H. destruct (sv_refresh_gate s) eqn:Hgate; [|done]. injection H as <-.
    destruct Hi as [Hg Hs Hsel Hm Hc]. simpl in *. rewrite Hgate in Hg. destruct l; [|done].
    split; simpl; try done. intros g inputs [?|?%elem_of_nil]%elem_of_cons; done.
  - unfold refresh_begin in H. destruct (sv_refresh_gate s); [done|]. by injection H as _ <-.
  - apply refresh_fetched_cases in H as (-> & _ & responses & -> & H).
    destruct (active_alone _ _ _ _ Hi) as [-> ->]. destruct Hi as [Hg Hs Hsel Hm Hc].
    split; try done. intros g' i [[= -> ->]|?%elem_of_nil]%elem_of_cons; [|done].
    split; [by apply refresh_collect_Ok in H as (_ & ? & _)|by eapply collect_sources].
  - apply refresh_fetched_cases in H as ->. by eapply release_fail_inv.
  - apply refresh_merged_cases in H. destruct result as [report|]; [|subst s'; by eapply release_fail_inv].
    destruct H as (_ & n & Hn & Hgen & _ & ->). eapply release_inv; [done|].
    right. exists inputs, now. rewrite Hgen. split; [|done].
    destruct Hi as [_ _ _ Hm _]. apply (Hm g). set_solver.
  - by eapply release_fail_inv.
Qed.

Lemma reachable_inv r : catalog_reachable r -> catalog_inv r.
Proof. induction 1; [by eapply service_new_inv|by eapply catalog_step_inv]. Qed.

(** * What is published *)

(** Where a candidate comes from. *)
Lemma model_exposures_origin source rev now tier m p c :
  (p, c) ∈ model_exposures source rev now tier m ->
  visible source m = true /\ pv_source (ca_provenance c) = so_id source /\
  pv_upstream_model (ca_provenance c) = dm_id m.
Proof.
  unfold model_exposures. destruct (visible source m); [|by intros ?%elem_of_nil].
  intros [H|H]%elem_of_app; (split; [done|]).
  - destruct (keeps_own_name source m); [|by apply elem_of_nil in H].
    apply list_elem_of_singleton in H. by injection H as _ ->.
  - apply list_elem_of_In, in_map_iff in H as (a & [= <- <-] & _). done.
Qed.

Lemma published_origin now inputs p c :
  c ∈ published now inputs p ->
  exists i m, i ∈ inputs /\ m ∈ ds_models (ip_response i) /\ visible (ip_source i) m = true /\
    pv_source (ca_provenance c) = so_id (ip_source i) /\ pv_upstream_model (ca_provenance c) = dm_id m.
Proof.
  unfold published. intros Hc%elem_of_named. unfold all_exposures in Hc.
  apply list_elem_of_In, in_flat_map in Hc as (i & Hi & Hc).
  unfold source_exposures in Hc. apply in_flat_map in Hc as (m & Hm & Hc).
  apply list_elem_of_In, model_exposures_origin in Hc as (Hv & Hs & Hu).
  apply list_elem_of_In in Hi, Hm. unfold in_order in Hi. rewrite sort_by_perm in Hi. rewrite sort_by_perm in Hm. eauto 10.
Qed.

Lemma override_provenance o t : ct_provenance (override_target o t) = ct_provenance t.
Proof.
  unfold override_target, override_dialect, override_capabilities, override_profile.
  by destruct (mo_profile o), (mo_capabilities o), (mo_dialect o).
Qed.

Lemma overridden_targets ov p m t :
  t ∈ cm_targets (overridden ov p m) ->
  exists u, u ∈ cm_targets m /\ ct_provenance t = ct_provenance u.
Proof.
  unfold overridden. destruct (ov !! p) as [o|]; [|by eauto].
  intros (u & <- & Hu)%list_elem_of_In%in_map_iff. exists u.
  split; [by apply list_elem_of_In|apply override_provenance].
Qed.

(** Every origin in a merged catalog is a visible model that its source returned. *)
Lemma merge_provenance gen now inputs limits ov snap p m t pv :
  merge_discoveries gen now inputs limits ov = Ok snap ->
  sn_models snap !! p = Some m -> t ∈ cm_targets m -> pv ∈ ct_provenance t ->
  exists i d, i ∈ inputs /\ d ∈ ds_models (ip_response i) /\ visible (ip_source i) d = true /\
    pv_source pv = so_id (ip_source i) /\ pv_upstream_model pv = dm_id d.
Proof.
  intros Hmerge Hm Ht Hpv. apply merge_discoveries_Ok in Hmerge as (_ & _ & models & Hc & st & Ha & _).
  apply apply_all_spec in Ha as (Hov & _ & _). rewrite Hov in Hm.
  destruct (models !! p) as [m0|] eqn:Hm0; [|done]. injection Hm as <-.
  destruct (overridden_targets _ _ _ _ Ht) as (u & Hu & Hpu). rewrite Hpu in Hpv.
  apply compile_models_Ok in Hc as [Hin Hout]; [|apply NoDup_btree_keys].
  pose proof (push_all_lookup (all_exposures now (priority_tiers (in_order inputs)) (in_order inputs)) p) as Hl.
  change (named p _) with (published now inputs p) in Hl.
  destruct (published now inputs p) as [|c0 cs0] eqn:Hpub.
  { rewrite Hout, lookup_empty in Hm0; [done|]. rewrite elem_of_btree_keys, Hl. by intros [? ?]. }
  apply (elem_of_btree_list model_cmp) in Hl. destruct (Hin p _ Hl) as (m' & Hm' & Hcm).
  rewrite Hm0 in Hm'. injection Hm' as <-. apply compile_public_model_Ok in Hcm as [_ _ Hts _ _].
  rewrite Forall_forall in Hts. destruct (Hts u Hu) as [Hprov _ _ _ _ _]. rewrite Hprov in Hpv.
  apply list_elem_of_In, in_map_iff in Hpv as (c & <- & Hc). apply list_elem_of_In, elem_of_of_identity in Hc as [Hc _].
  rewrite <- Hpub in Hc. by eapply published_origin.
Qed.

Lemma refresh_inputs_selected selections l inputs i d :
  refresh_inputs selections l = Ok inputs -> i ∈ inputs -> d ∈ ds_models (ip_response i) ->
  forall sel, selections !! so_id (ip_source i) = Some sel -> keeps sel d = true.
Proof.
  revert inputs. induction l as [|[src r] l IH]; intros inputs; simpl; [intros [= <-] ?%elem_of_nil; done|].
  intros (r' & _ & H)%result_bind_Ok. apply result_bind_Ok in H as (rest & Hrest & [= <-]).
  intros [->|Hi]%elem_of_cons Hd sel Hsel; [|by eapply IH].
  simpl in *. rewrite Hsel in Hd. simpl in Hd. by apply list_elem_of_In, filter_In in Hd as [_ ?].
Qed.


(** What a refresh publishes respects the selections it read: every origin of
    every target is a model that its source returned, that the source's patterns
    admit, and that the operator did not deselect, neither by the bulk action nor
    by name. *)
Theorem refresh_respects_selection r responses generation inputs now snap p m t pv :
  catalog_reachable r -> answered (rt_service r) (Some responses) ->
  refresh_collect (rt_service r) (Some responses) false = Ok (generation, inputs) ->
  merge_discoveries generation now inputs (sv_limits (rt_service r)) (sv_overrides (rt_service r)) = Ok snap ->
  sn_models snap !! p = Some m -> t ∈ cm_targets m -> pv ∈ ct_provenance t ->
  exists source d sel,
    source ∈ sv_sources (rt_service r) /\ pv_source pv = so_id source /\ pv_upstream_model pv = dm_id d /\
    visible source d = true /\
    sv_selections (rt_service r) !! so_id source = Some sel /\
    sl_action sel = SelectAll /\ pv_upstream_model pv ∉ sl_explicit_exclusions sel.
Proof.
  intros Hr%reachable_inv Hp Hcol Hmerge Hm Ht Hpv.
  destruct (merge_provenance _ _ _ _ _ _ _ _ _ _ Hmerge Hm Ht Hpv) as (i & d & Hi & Hd & Hv & Hs & Hu).
  pose proof (collect_sources _ _ _ _ _ Hp Hcol) as Hsrc.
  assert (Hin : ip_source i ∈ sv_sources (rt_service r)).
  { rewrite <- Hsrc. apply list_elem_of_In, in_map. by apply list_elem_of_In. }
  destruct Hr as [_ _ Hsel _ _]. destruct (Hsel _ Hin) as [sel Hl].
  apply refresh_collect_Ok in Hcol as (Hinp & _ & _).
  pose proof (refresh_inputs_selected _ _ _ _ _ Hinp Hi Hd sel Hl) as Hk. unfold keeps in Hk.
  apply andb_true_iff in Hk as [Ha He]. apply negb_true_iff, bool_decide_eq_false in He.
  exists (ip_source i), d, sel. rewrite Hu. split; [done|]. split; [done|]. split; [done|]. split; [done|].
  split; [done|]. split; [by destruct (sl_action sel)|done].
Qed.

(** * A small service, in which one model is deselected. *)

Definition sample_service : CatalogService :=
  match service_new [sample_backup; sample_main] sample_limits with
  | Ok s => match exclude_model s "main" "gpt-4o-mini" with Ok s => s | Err _ => s end
  | Err _ => MkService [] sample_limits ∅ snapshot_empty true ∅
  end.
Definition sample_runtime : CatalogRuntime := MkRuntime sample_service [].
Definition sample_responses : Responses :=
  map (fun i => (ip_source i, Ok (ip_response i))) sample_inputs.
Definition sample_collected : list CatalogInput :=
  match refresh_collect sample_service (Some sample_responses) false with Ok (_, l) => l | Err _ => [] end.
Definition sample_snapshot : CatalogSnapshot :=
  match merge_discoveries 1 0 sample_collected sample_limits ∅ with Ok s => s | Err _ => snapshot_empty end.

Example sample_published :
  map model_str (btree_keys model_cmp (sn_models sample_snapshot)) = ["team/fast"; "team/gpt-4o"] /\
  (map (fun t => map (fun pv => source_str (pv_source pv)) (ct_provenance t)) ∘ cm_targets
     <$> sn_models sample_snapshot !! MkModelId "team/gpt-4o") = Some [["main"]; ["backup"]].
Proof. vm_compute. split; reflexivity. Qed.

Lemma sample_reachable : catalog_reachable sample_runtime.
Proof.
  eapply reach_step.
  - apply (reach_new [sample_backup; sample_main] sample_limits
      (match service_new [sample_backup; sample_main] sample_limits with
       | Ok s => s | Err _ => sample_service end) ∅). vm_compute. reflexivity.
  - apply (step_exclude _ _ "main" "gpt-4o-mini"). vm_compute. reflexivity.
Qed.

(** A refresh of the service whose worker is too late. *)
Definition sample_merging : CatalogRuntime := MkRuntime (set_gate false sample_service) [Merging 1 sample_collected].
Lemma sample_merging_reachable : catalog_reachable sample_merging.
Proof.
  eapply (reach_step (MkRuntime (set_gate false sample_service) [Fetching]) NotEnded).
  - eapply (reach_step sample_runtime NotEnded); [apply sample_reachable|]. apply step_begin. vm_compute. reflexivity.
  - apply (step_fetched _ _ [] [] (Some sample_responses) false); [vm_compute; constructor|vm_compute; reflexivity].
Qed.

Definition sample_model : CatalogModel :=
  default (MkCatalogModel (MkModelId "") None [] []) (sn_models sample_snapshot !! MkModelId "team/gpt-4o").
Definition sample_target : option CatalogTarget := head (cm_targets sample_model).
Definition sample_origin : option ModelProvenance := t ← sample_target; head (ct_provenance t).

Lemma refresh_respects_selection_witness :
  match sample_target, sample_origin with
  | Some t, Some pv => exists source d sel,
      source ∈ sv_sources sample_service /\ pv_source pv = so_id source /\ pv_upstream_model pv = dm_id d /\
      visible source d = true /\ sv_selections sample_service !! so_id source = Some sel /\
      sl_action sel = SelectAll /\ pv_upstream_model pv ∉ sl_explicit_exclusions sel
  | _, _ => False
  end.
Proof.
  destruct sample_target as [t|] eqn:Et; [|by vm_compute in Et].
  destruct sample_origin as [pv|] eqn:Epv; [|by vm_compute in Epv].
  apply (refresh_respects_selection sample_runtime sample_responses 1 sample_collected 0 sample_snapshot
           (MkModelId "team/gpt-4o") sample_model t pv).
  - apply sample_reachable.
  - vm_compute. constructor.
  - vm_compute. reflexivity.
  - vm_compute. reflexivity.
  - vm_compute. reflexivity.
  - apply head_Some_elem_of. done.
  - unfold sample_origin in Epv. rewrite Et in Epv. by apply head_Some_elem_of.
Defined.
