(* ===== verification/CatalogConfigFacts.v ===== *)
(** A compiled catalog configuration is one the service accepts. *)
From S2P Require Import Prelude Str Time CoreId Capabilities Bytes Json Dialect Catalog CatalogMerge.
From S2P Require Import CatalogSpec CatalogFacts.

Open Scope N_scope.

Lemma first_repeated_None {A K} `{Countable K} (key : A -> K) seen l :
  first_repeated key seen l = None <-> NoDup (map key l) /\ forall x, x ∈ l -> key x ∉ seen.
Proof.
  revert seen. induction l as [|x l IH]; intros seen; cbn [first_repeated map].
  { split; [split; [constructor|set_solver]|done]. }
  rewrite NoDup_cons. destruct (bool_decide_reflect (key x ∈ seen)) as [Hx|Hx].
  { split; [done|]. intros [_ Hall]. destruct (Hall x); [by left|done]. }
  rewrite IH, list_elem_of_In, in_map_iff. setoid_rewrite <- list_elem_of_In. split.
  - intros [Hnd Hall]. split; [split; [|done]|].
    + intros (y & Hy & Hin). specialize (Hall y Hin). rewrite Hy in Hall. set_solver.
    + intros y [->|Hy]%elem_of_cons; [done|]. specialize (Hall y Hy). set_solver.
  - intros [[Hni Hnd] Hall]. split; [done|]. intros y Hy. rewrite not_elem_of_union, not_elem_of_singleton.
    split; [|apply Hall; by right]. intros E. apply Hni. eauto.
Qed.

Lemma try_map_Forall {A B E} (f : A -> Result B E) (P : B -> Prop) l k :
  (forall x y, f x = Ok y -> P y) -> try_map f l = Ok k -> Forall P k /\ length k = length l.
Proof.
  intros Hf. revert k. induction l as [|x l IH]; intros k; simpl; [intros [= <-]; split; [constructor|done]|].
  intros (y & Hy & H)%result_bind_Ok. apply result_bind_Ok in H as (ys & Hys & [= <-]).
  destruct (IH ys Hys) as [? Hlen]. split; [constructor; eauto|simpl; by rewrite Hlen].
Qed.

#[local] Instance pre_source_order : PreCmp source_order.
Proof.
  unfold source_order. apply pre_then.
  - apply pre_rev. apply (pre_key so_priority Z.compare), _.
  - apply (pre_key so_id source_cmp), _.
Qed.

(** What the compiler of a source promises: one binding at most, rules within
    their bounds, no public alias twice and no pattern twice. *)
Record source_wf (s : CatalogSource) : Prop := {
  sw_binding : so_account s = None \/ so_account_pool s = None;
  sw_aliases : N.of_nat (length (so_aliases s)) <= MAX_ALIASES_PER_SOURCE;
  sw_inclusions : N.of_nat (length (so_inclusions s)) <= MAX_INCLUSIONS_PER_SOURCE;
  sw_exclusions : N.of_nat (length (so_exclusions s)) <= MAX_EXCLUSIONS_PER_SOURCE;
  sw_alias_names : NoDup (map al_public_id (so_aliases s));
  sw_inclusion_names : NoDup (map pattern (so_inclusions s));
  sw_exclusion_names : NoDup (map pattern (so_exclusions s));
}.

Lemma sorted_dup_NoDup {A K} (key : A -> K) (c : K -> K -> comparison) (d : A -> A -> comparison)
    `{!EqDecision K, !OrdCmp c, !PreCmp d} l :
  (forall x y, d x y <> Gt -> c (key x) (key y) <> Gt) ->
  adjacent_dup key (sort_by d l) = None -> NoDup (map key (sort_by d l)).
Proof.
  intros Hcd Hdup. apply (adjacent_dup_NoDup c).
  - induction (sort_by_sorted d l) as [|x k _ IH Hall]; simpl; constructor.
    + apply IH. destruct k as [|y k]; [done|]. simpl in Hdup. by destruct (bool_decide _).
    + apply Forall_forall. intros z (y & <- & Hy)%list_elem_of_In%in_map_iff.
      rewrite Forall_forall in Hall. apply Hcd, Hall. by apply list_elem_of_In.
  - rewrite <- adjacent_dup_map, Hdup. done.
Qed.

Lemma compile_patterns_Ok source l k ps :
  compile_patterns source l k = Ok ps -> NoDup (map pattern ps) /\ length ps = length l.
Proof.
  unfold compile_patterns. intros (qs & Hqs & H)%result_bind_Ok.
  destruct (adjacent_dup pattern _) eqn:Hd; [done|]. injection H as <-.
  destruct (try_map_Forall _ (fun _ => True) _ _ (fun _ _ _ => I) Hqs) as [_ Hlen].
  split; [|by rewrite sort_by_perm].
  assert (Hpre : PreCmp (fun a b => String.compare (pattern a) (pattern b))) by apply (pre_key pattern), _.
  by apply (sorted_dup_NoDup pattern String.compare _).
Qed.

Lemma check_rule_count_Ok limit n e : check_rule_count limit n e = Ok tt -> N.of_nat n <= limit.
Proof. unfold check_rule_count. by destruct (N.ltb_spec limit (N.of_nat n)). Qed.

Lemma source_compile_wf c s : source_compile c = Ok s -> source_wf s.
Proof.
  unfold source_compile. intros (id & _ & H)%result_bind_Ok. apply result_bind_Ok in H as (pr & _ & H).
  apply result_bind_Ok in H as (ac & _ & H). apply result_bind_Ok in H as (pool & _ & H).
  destruct (is_some ac && is_some pool) eqn:Hb; [done|]. apply result_bind_Ok in H as (prefix & _ & H).
  apply result_bind_Ok in H as ([] & Ha%check_rule_count_Ok & H).
  apply result_bind_Ok in H as ([] & Hi%check_rule_count_Ok & H).
  apply result_bind_Ok in H as ([] & He%check_rule_count_Ok & H).
  apply result_bind_Ok in H as (al & Hal & H). destruct (adjacent_dup al_public_id _) eqn:Hd; [done|].
  apply result_bind_Ok in H as (inc & [Hin Hil]%compile_patterns_Ok & H).
  apply result_bind_Ok in H as (exc & [Hen Hel]%compile_patterns_Ok & [= <-]).
  destruct (try_map_Forall _ (fun _ => True) _ _ (fun _ _ _ => I) Hal) as [_ Hlen].
  assert (Hpre : PreCmp alias_order).
  { unfold alias_order. apply pre_then; [apply (pre_key al_public_id model_cmp), _|
      apply (pre_key al_upstream_id model_cmp), _]. }
  split; simpl.
  - destruct ac, pool; simpl in Hb; auto; done.
  - by rewrite sort_by_perm, Hlen.
  - by rewrite Hil.
  - by rewrite Hel.
  - apply (sorted_dup_NoDup al_public_id model_cmp alias_order); [|done].
    intros x y. unfold alias_order. by destruct (model_cmp _ _).
  - done.
  - done.
Qed.

(** The limits a compiled configuration can have. *)
Record limits_wf (l : RefreshLimits) : Prop := {
  lw_sources : 1 <= rl_max_sources l <= HARD_MAX_SOURCES;
  lw_per_source : 1 <= rl_max_models_per_source l <= HARD_MAX_MODELS_PER_SOURCE;
  lw_total : 1 <= rl_max_total_models l <= HARD_MAX_TOTAL_MODELS;
  lw_concurrency : 1 <= rl_max_concurrency l <= HARD_MAX_REFRESH_CONCURRENCY;
  lw_operations : 1 <= rl_max_merge_operations l <= HARD_MAX_MERGE_OPERATIONS;
  lw_timeout : 1 <= rl_timeout l <= HARD_MAX_REFRESH_TIMEOUT;
}.

Lemma validate_limit_Ok field a m : validate_limit field a m = Ok tt -> 1 <= a <= m.
Proof. unfold validate_limit. destruct (N.eqb_spec a 0), (N.ltb_spec m a); try done. simpl. lia. Qed.

Lemma refresh_compile_wf c l : refresh_compile c = Ok l -> limits_wf l.
Proof.
  unfold refresh_compile.
  intros ([] & H1%validate_limit_Ok & H)%result_bind_Ok. apply result_bind_Ok in H as ([] & H2%validate_limit_Ok & H).
  apply result_bind_Ok in H as ([] & H3%validate_limit_Ok & H).
  apply result_bind_Ok in H as ([] & H4%validate_limit_Ok & H).
  apply result_bind_Ok in H as ([] & H5%validate_limit_Ok & H).
  destruct (is_zero _) eqn:Hz; [done|]. apply N.eqb_neq in Hz.
  destruct (N.ltb_spec HARD_MAX_REFRESH_TIMEOUT (from_millis (fc_timeout_ms c))); [done|].
  injection H as <-. split; simpl; try done. lia.
Qed.

Section compile.
Context `{SerdeJson}.

Lemma override_compile_changes c m o : override_compile c = Ok (m, o) -> changes_anything o = true.
Proof.
  unfold override_compile. intros (id & _ & H1)%result_bind_Ok. case_match; [done|].
  apply result_bind_Ok in H1 as (ol & _ & H1). case_match eqn:E; [done|].
  injection H1 as <- <-. by apply negb_false_iff in E.
Qed.

Lemma overrides_loop_Ok entries l r :
  overrides_loop entries l = Ok r -> map_Forall (fun _ o => changes_anything o = true) entries ->
  map_Forall (fun _ o => changes_anything o = true) r.
Proof.
  revert entries. induction l as [|c l IH]; intros entries; cbn [overrides_loop]; [by intros [= <-]|].
  intros ([m o] & Ho%override_compile_changes & H1)%result_bind_Ok Hall.
  destruct (entries !! m); [done|]. eapply IH; [exact H1|]. by apply map_Forall_insert_2.
Qed.

(** A catalog configuration that compiles is fit to run: its limits are within
    the hard bounds, every source names at most one account binding and has
    bounded rules without duplicates, every override changes something, and the
    service starts with exactly these sources, in priority order. *)
Theorem compiled_catalog_wf c k :
  catalog_compile c = Ok k ->
  limits_wf (kc_limits k) /\ Forall source_wf (kc_sources k) /\
  map_Forall (fun _ o => changes_anything o = true) (kc_overrides k) /\
  exists s, service_new (kc_sources k) (kc_limits k) = Ok s /\ sv_sources s = kc_sources k.
Proof.
  unfold catalog_compile. intros (limits & Hl & H1)%result_bind_Ok.
  destruct (N.ltb_spec (rl_max_sources limits) (N.of_nat (length (cc_sources c)))) as [|Hle]; [done|].
  apply result_bind_Ok in H1 as (sources & Hs & H1).
  destruct (first_repeated so_id ∅ (sort_by source_order sources)) eqn:Hf; [done|].
  apply result_bind_Ok in H1 as (ov & Hov & [= <-]). simpl.
  destruct (try_map_Forall source_compile source_wf _ _ source_compile_wf Hs) as [Hall Hlen].
  split; [by eapply refresh_compile_wf|]. split; [by rewrite sort_by_perm|]. split.
  - unfold overrides_compile in Hov. case_match; [done|]. eapply overrides_loop_Ok; [done|]. apply map_Forall_empty.
  - unfold service_new. rewrite (sort_by_id source_order (sort_by source_order sources)) by apply sort_by_sorted, _.
    rewrite (Permutation_length (sort_by_perm source_order sources)), Hlen.
    destruct (N.ltb_spec (rl_max_sources limits) (N.of_nat (length (cc_sources c)))); [lia|].
    rewrite Hf. eauto.
Qed.

End compile.

Definition sample_serde : SerdeJson := {| from_slice := fun _ => Err "unused"; to_vec := fun _ => Ok [] |}.
Definition sample_catalog : CatalogConfig :=
  MkCatalogConfig
    [MkSourceConfig "backup" "openai" None (Some "pool") None 0 [] [] ["*-preview"];
     MkSourceConfig "main" "openai" (Some " a1 ") None (Some "team") 10
       [MkAliasConfig "gpt-4o" "fast" true None true] [] []]
    refresh_config_default
    [MkOverrideConfig "team/fast" false None None None None {["/reasoning/effort" := Str "low"]}].

Lemma compiled_catalog_wf_witness :
  match @catalog_compile sample_serde sample_catalog with
  | Ok k => limits_wf (kc_limits k) /\ map (fun s => source_str (so_id s)) (kc_sources k) = ["main"; "backup"]
  | Err _ => False
  end.
Proof.
  destruct (@catalog_compile sample_serde sample_catalog) as [k|] eqn:E; [|by vm_compute in E].
  destruct (@compiled_catalog_wf sample_serde sample_catalog k E) as [H _]. split; [exact H|].
  vm_compute in E. injection E as <-. reflexivity.
Defined.
