(* ===== verification/Watch.v ===== *)
(** The configuration watcher (crates/pooler-config/src/watch.rs): file stamps, the
    import scan, and polling with a quiet period.  The loader is a parameter of the
    watcher, and so are the file system and the YAML parser it reads through. *)
From S2P Require Import Prelude Str Time Bytes.

Open Scope N_scope.

Definition MAX_CONFIG_FILE_BYTES : N := 1024 * 1024.
Definition DEFAULT_RELOAD_DEBOUNCE : Duration := from_millis 50.

(** * Files *)

Record FileStamp := MkStamp {
  fs_exists : bool; fs_length : N; fs_digest : N; fs_modified : N; fs_permissions : N }.

#[export] Instance FileStamp_eq_dec : EqDecision FileStamp. Proof. solve_decision. Defined.

Definition stamp_default : FileStamp := MkStamp false 0 0 0 0.

(** What the operating system tells of a file. *)
Record Metadata := MkMetadata {
  md_is_file : bool; md_len : N; md_modified : option N; md_permissions : N }.

(** Opening a file: it fails, with the metadata of the path if there are any, or
    gives the metadata of the open file and what reading it up to a limit returns. *)
Inductive OpenResult :=
| OpenFailed (not_found : bool) (metadata : option Metadata)
| Opened (metadata : option Metadata) (contents : option bytes).

Inductive BoundedRead :=
| ReadMissing
| ReadUnreadable (stamp : FileStamp)
| ReadBytes (data : bytes) (stamp : FileStamp).

Definition from_metadata (m : Metadata) : FileStamp :=
  MkStamp true (md_len m) 0 (default 0 (md_modified m)) (md_permissions m).

Definition stamp_exists : FileStamp := MkStamp true 0 0 0 0.

Definition read_bounded_file (file : OpenResult) : BoundedRead :=
  match file with
  | OpenFailed not_found metadata =>
    match metadata with
    | Some m => ReadUnreadable (from_metadata m)
    | None => if not_found then ReadMissing else ReadUnreadable stamp_exists
    end
  | Opened None _ => ReadUnreadable stamp_exists
  | Opened (Some m) contents =>
    let stamp := from_metadata m in
    if negb (md_is_file m) || (MAX_CONFIG_FILE_BYTES <? md_len m) then ReadUnreadable stamp
    else match contents with
         | None => ReadUnreadable stamp
         | Some data =>
           if MAX_CONFIG_FILE_BYTES <? blen data then ReadUnreadable stamp else ReadBytes data stamp
         end
  end.

(** FNV-1a at 64 bits, with a wrapping product. *)
Definition fnv1a (data : bytes) : N :=
  foldl (fun hash b => N.land (N.lxor hash b * 0x100000001b3) U64_MAX) 0xcbf29ce484222325 data.

Definition file_stamp (file : OpenResult) : FileStamp :=
  match read_bounded_file file with
  | ReadMissing => stamp_default
  | ReadUnreadable stamp => stamp
  | ReadBytes data stamp =>
    MkStamp (fs_exists stamp) (fs_length stamp) (fnv1a data) (fs_modified stamp) (fs_permissions stamp)
  end.

(** The file system at one moment: what opening a path gives, for the paths where
    something is found, whether a failure for another path says that it is not
    there, and the canonical form of a path that has one. *)
Record World := MkWorld {
  w_files : gmap string OpenResult;
  w_not_found : string -> bool;
  w_canonicalize : string -> option string;
}.

Definition w_open (w : World) (path : string) : OpenResult :=
  default (OpenFailed (w_not_found w path) None) (w_files w !! path).

Definition canonical_or_path (w : World) (path : string) : string := default path (w_canonicalize w path).

Definition file_stamps (w : World) (paths : list string) : gmap string FileStamp :=
  list_to_map (map (fun p => (p, file_stamp (w_open w p))) paths).

(** * The import scan *)

(** [serde_yml] and [std::path]: the entries of the sequence [imports] of a text, each
    with the values of its keys [file] and [overlay] where it is a mapping and they
    are strings; and [path.parent().unwrap_or(".").join(relative)]. *)
Class YamlImports := {
  yaml_imports : bytes -> option (list (option string * option string));
  sibling : string -> string -> string;
}.

Section scan.
Context `{YamlImports}.

Definition import_entries (w : World) (path : string) : list string :=
  match read_bounded_file (w_open w path) with
  | ReadBytes data _ =>
    if utf8_valid data then
      match yaml_imports data with
      | Some l => flat_map (fun e => option_list e.1 ++ option_list e.2) l
      | None => []
      end
    else []
  | _ => []
  end.

(** The files one file imports, in order. *)
Definition imports_of (w : World) (path : string) : list string :=
  map (fun relative => canonical_or_path w (sibling path relative)) (import_entries w path).

(** [collect_import_paths]: [stack] holds the files being scanned, and a file on it
    is not scanned again; the fuel bounds the depth, and [import_depth] is enough. *)
Fixpoint collect_import_paths (fuel : nat) (w : World) (path : string) (paths stack : gset string)
  : gset string :=
  match fuel with
  | O => paths
  | S fuel =>
    let identity := canonical_or_path w path in
    if bool_decide (identity ∈ stack) then paths
    else
      foldl (fun paths imported =>
               collect_import_paths fuel w imported ({[imported]} ∪ paths) ({[identity]} ∪ stack))
        paths (imports_of w path)
  end.

Definition import_depth (w : World) : nat := S (size (w_files w)).

(** ** What the scan finds *)

(** A file imports another, directly or through others. *)
Inductive imported_from (w : World) (p : string) : string -> Prop :=
| imported_direct q : q ∈ imports_of w p -> imported_from w p q
| imported_through r q : imported_from w p r -> q ∈ imports_of w r -> imported_from w p q.

Lemma imported_trans w p r q : imported_from w p r -> imported_from w r q -> imported_from w p q.
Proof. intros Hr. induction 1; [by eapply imported_through|by eapply imported_through]. Qed.

(** The same, with every importing file outside a set. *)
Inductive imports_avoiding (w : World) (stack : gset string) : string -> string -> Prop :=
| avoiding_direct p q : p ∉ stack -> q ∈ imports_of w p -> imports_avoiding w stack p q
| avoiding_through p r q :
    p ∉ stack -> r ∈ imports_of w p -> imports_avoiding w stack r q -> imports_avoiding w stack p q.

Lemma imported_avoiding w p q : imported_from w p q -> imports_avoiding w ∅ p q.
Proof.
  induction 1 as [q Hq|r q _ IH Hq]; [by apply avoiding_direct; [set_solver|]|].
  revert Hq. induction IH as [p r Hp Hr|p s r Hp Hs Hsr IH]; intros Hq.
  - eapply avoiding_through; [done|done|]. apply avoiding_direct; [set_solver|done].
  - eapply avoiding_through; [done|done|]. by apply IH.
Qed.

(** After its last visit to a file a chain of imports avoids that file. *)
Lemma avoiding_last_visit w stack r q p :
  imports_avoiding w stack r q -> p ∉ stack ->
  imports_avoiding w ({[p]} ∪ stack) r q \/
  exists s, s ∈ imports_of w p /\ (s = q \/ imports_avoiding w ({[p]} ∪ stack) s q).
Proof.
  intros Hr Hp. induction Hr as [r q Hr Hq|r s q Hr Hs _ IH].
  - destruct (decide (r = p)) as [->|Hne]; [right; eauto|].
    left. apply avoiding_direct; [set_solver|done].
  - destruct IH as [IH|IH]; [|by right]. destruct (decide (r = p)) as [->|Hne]; [right; eauto|].
    left. eapply avoiding_through; [set_solver|done|done].
Qed.

Lemma avoiding_first_step w stack p q :
  imports_avoiding w stack p q ->
  exists s, s ∈ imports_of w p /\ (s = q \/ imports_avoiding w ({[p]} ∪ stack) s q).
Proof.
  inversion 1 as [? ? Hp Hq|? r ? Hp Hr Hrq]; subst; [by eauto|].
  destruct (avoiding_last_visit w stack r q p Hrq Hp) as [|Hs]; [by eauto|done].
Qed.

Lemma collect_mono fuel w path paths stack : paths ⊆ collect_import_paths fuel w path paths stack.
Proof.
  revert path paths stack. induction fuel as [|fuel IH]; intros path paths stack; simpl; [done|].
  case_bool_decide; [done|]. generalize (imports_of w path) as l. intros l.
  revert paths. induction l as [|q l IHl]; intros paths; simpl; [done|].
  etransitivity; [|apply IHl]. etransitivity; [|apply IH]. set_solver.
Qed.

Lemma collect_sound fuel w root path paths stack q :
  (path = root \/ imported_from w root path) ->
  q ∈ collect_import_paths fuel w path paths stack -> q ∈ paths \/ imported_from w root q.
Proof.
  revert path paths stack. induction fuel as [|fuel IH]; intros path paths stack Hpath; simpl; [by left|].
  case_bool_decide; [by left|].
  assert (Hl : forall r, r ∈ imports_of w path -> imported_from w root r).
  { intros r Hr. destruct Hpath as [->|Hpath]; [by apply imported_direct|by eapply imported_through]. }
  revert Hl. generalize (imports_of w path) as l. intros l Hl. revert paths.
  induction l as [|r l IHl]; intros paths; simpl; [by left|]. intros Hq.
  apply IHl in Hq as [Hq|Hq]; [|by right|intros s Hs; apply Hl; by right].
  apply IH in Hq as [Hq|Hq]; [|by right|right; apply Hl; by left].
  apply elem_of_union in Hq as [->%elem_of_singleton|Hq]; [right; apply Hl; by left|by left].
Qed.

Context (w : World).
(** [std::fs::canonicalize] gives a path that is its own canonical form. *)
Context (Hcanon : forall p c, w_canonicalize w p = Some c -> w_canonicalize w c = Some c).

Lemma canonical_idempotent p : canonical_or_path w (canonical_or_path w p) = canonical_or_path w p.
Proof.
  unfold canonical_or_path. destruct (w_canonicalize w p) as [c|] eqn:E; simpl.
  - by rewrite (Hcanon p c).
  - by rewrite E.
Qed.

Lemma imports_canonical p q : q ∈ imports_of w p -> canonical_or_path w q = q.
Proof. intros (r & <- & _)%list_elem_of_In%in_map_iff. apply canonical_idempotent. Qed.

Lemma imports_readable p q : q ∈ imports_of w p -> p ∈ dom (w_files w).
Proof.
  unfold imports_of, import_entries, w_open. destruct (w_files w !! p) eqn:E; [intros _; by apply elem_of_dom_2 in E|].
  simpl. destruct (w_not_found w p); simpl; by intros ?%elem_of_nil.
Qed.

Lemma collect_complete fuel path paths stack q :
  (size (dom (w_files w) ∖ stack) < fuel)%nat -> canonical_or_path w path = path ->
  imports_avoiding w stack path q -> q ∈ collect_import_paths fuel w path paths stack.
Proof.
  revert path paths stack. induction fuel as [|fuel IH]; intros path paths stack Hf Hpath Hq; [lia|].
  assert (Hni : path ∉ stack) by (by inversion Hq).
  destruct (avoiding_first_step _ _ _ _ Hq) as (r & Hr & Hrq).
  assert (Hlt : (size (dom (w_files w) ∖ ({[path]} ∪ stack)) < fuel)%nat).
  { apply imports_readable in Hr. enough (size (dom (w_files w) ∖ ({[path]} ∪ stack)) < size (dom (w_files w) ∖ stack))%nat by lia.
    apply subset_size. set_solver. }
  simpl. rewrite Hpath. rewrite bool_decide_eq_false_2 by done.
  assert (Hcan : canonical_or_path w r = r) by (by eapply imports_canonical).
  revert Hr. generalize (imports_of w path) as l. intros l. revert paths.
  induction l as [|s l IHl]; intros paths Hr; [by apply elem_of_nil in Hr|]. simpl.
  apply elem_of_cons in Hr as [->|Hr]; [|by apply IHl].
  assert (Hfold : forall acc : gset string, q ∈ acc -> q ∈ foldl (fun paths imported => collect_import_paths fuel w imported
      ({[imported]} ∪ paths) ({[path]} ∪ stack)) acc l).
  { clear -H. induction l as [|t l IHl]; intros acc Hacc; simpl; [done|].
    apply IHl. apply collect_mono. set_solver. }
  apply Hfold. destruct Hrq as [->|Hrq]; [apply collect_mono; set_solver|by apply IH].
Qed.

(** The scan finds exactly the files that the root imports, however deep and even
    when imports form a cycle. *)
Lemma import_scan_exact root q :
  canonical_or_path w root = root ->
  q ∈ collect_import_paths (import_depth w) w root ∅ ∅ <-> imported_from w root q.
Proof.
  intros Hroot. split.
  - intros Hq. apply (collect_sound _ w root) in Hq as [?|?]; [set_solver|done|by left].
  - intros Hq. apply collect_complete; [|done|by apply imported_avoiding].
    unfold import_depth. rewrite difference_empty_L, size_dom. lia.
Qed.

End scan.

(** * The watcher *)

(** [LoadedConfig] of the loader, with its parsed configuration left open. *)
Record LoadedConfig (C : Type) := MkLoaded {
  lc_config : C;
  lc_root : string;
  lc_dependencies : list string;
  lc_rendered : string;
}.
Arguments MkLoaded {C}.
Arguments lc_config {C}.
Arguments lc_root {C}.
Arguments lc_dependencies {C}.
Arguments lc_rendered {C}.

Record ConfigWatcher (C : Type) := MkWatcher {
  cw_active : LoadedConfig C;
  cw_debounce : Duration;
  cw_observed : gmap string FileStamp;
  cw_unresolved : gset string;
  cw_pending_since : option Instant;
  cw_attempted : option (gmap string FileStamp);
}.
Arguments MkWatcher {C}.
Arguments cw_active {C}.
Arguments cw_debounce {C}.
Arguments cw_observed {C}.
Arguments cw_unresolved {C}.
Arguments cw_pending_since {C}.
Arguments cw_attempted {C}.

(** The moments at which one call reads the file system: the stamps it compares, the
    load, the import scan after a failed load, and the stamps it keeps. *)
Record Reads := MkReads { rd_compare : World; rd_load : World; rd_scan : World; rd_keep : World }.

(** A call during which no file changes. *)
Definition at_rest (w : World) : Reads := MkReads w w w w.

Section watcher.
Context `{YamlImports} {C ConfigError : Type}.
(** [ConfigLoader::load_tracked]. *)
Context (load_tracked : World -> string -> Result (LoadedConfig C) ConfigError).

Definition watcher_new (w_load w_keep : World) (path : string) (debounce : Duration)
  : Result (ConfigWatcher C) ConfigError :=
  let? active := load_tracked w_load path in
  Ok (MkWatcher active debounce (file_stamps w_keep (lc_dependencies active)) ∅ None None).

Definition is_noop_against (candidate active : LoadedConfig C) : bool :=
  String.eqb (lc_rendered candidate) (lc_rendered active).

(** The list is sorted in the source; only its elements matter to the stamps. *)
Definition watched_paths (c : ConfigWatcher C) : list string :=
  elements (list_to_set (lc_dependencies (cw_active c)) ∪ cw_unresolved c).

Definition set_observed (o : gmap string FileStamp) (c : ConfigWatcher C) : ConfigWatcher C :=
  MkWatcher (cw_active c) (cw_debounce c) o (cw_unresolved c) (cw_pending_since c) (cw_attempted c).
Definition set_unresolved (u : gset string) (c : ConfigWatcher C) : ConfigWatcher C :=
  MkWatcher (cw_active c) (cw_debounce c) (cw_observed c) u (cw_pending_since c) (cw_attempted c).
Definition set_pending (p : option Instant) (c : ConfigWatcher C) : ConfigWatcher C :=
  MkWatcher (cw_active c) (cw_debounce c) (cw_observed c) (cw_unresolved c) p (cw_attempted c).
Definition set_attempted (a : option (gmap string FileStamp)) (c : ConfigWatcher C) : ConfigWatcher C :=
  MkWatcher (cw_active c) (cw_debounce c) (cw_observed c) (cw_unresolved c) (cw_pending_since c) a.

(** [self.observed = file_stamps(&self.watched_paths())]. *)
Definition observe (w : World) (c : ConfigWatcher C) : ConfigWatcher C :=
  set_observed (file_stamps w (watched_paths c)) c.

Definition not_active (c : ConfigWatcher C) (p : string) : bool :=
  negb (existsb (String.eqb p) (lc_dependencies (cw_active c))).

Definition refresh_unresolved_paths (w : World) (c : ConfigWatcher C) : ConfigWatcher C :=
  set_unresolved
    (filter (fun p => not_active c p = true)
       (collect_import_paths (import_depth w) w (lc_root (cw_active c)) ∅ ∅)) c.

Definition candidate_unresolved (candidate : LoadedConfig C) (c : ConfigWatcher C) : ConfigWatcher C :=
  set_unresolved (list_to_set (List.filter (not_active c) (lc_dependencies candidate))) c.

(** The part of [poll] that loads. *)
Definition poll_load (c : ConfigWatcher C) (r : Reads)
  : Result (option (LoadedConfig C)) ConfigError * ConfigWatcher C :=
  let c := set_attempted (Some (cw_observed c)) c in
  match load_tracked (rd_load r) (lc_root (cw_active c)) with
  | Err e =>
    let c := observe (rd_keep r) (refresh_unresolved_paths (rd_scan r) c) in
    (Err e, set_attempted (Some (cw_observed c)) c)
  | Ok candidate =>
    let c := observe (rd_keep r) (candidate_unresolved candidate c) in
    (Ok (Some candidate), set_pending None c)
  end.

Definition poll (c : ConfigWatcher C) (r : Reads) (now : Instant)
  : Result (option (LoadedConfig C)) ConfigError * ConfigWatcher C :=
  let current := file_stamps (rd_compare r) (watched_paths c) in
  if negb (bool_decide (current = cw_observed c))
  then (Ok None, set_attempted None (set_pending (Some now) (set_observed current c)))
  else
    match cw_pending_since c with
    | None => (Ok None, c)
    | Some since =>
      if duration_since now since <? cw_debounce c then (Ok None, c)
      else if bool_decide (cw_attempted c = Some (cw_observed c)) then (Ok None, c)
      else poll_load c r
    end.

Definition force_candidate (c : ConfigWatcher C) (r : Reads) : Result (LoadedConfig C) ConfigError * ConfigWatcher C :=
  match load_tracked (rd_load r) (lc_root (cw_active c)) with
  | Err e => (Err e, observe (rd_keep r) (refresh_unresolved_paths (rd_scan r) c))
  | Ok loaded => (Ok loaded, observe (rd_keep r) (candidate_unresolved loaded c))
  end.

Definition force_candidate_from (c : ConfigWatcher C) (w : World) (path : string)
  : Result (LoadedConfig C) ConfigError := load_tracked w path.

Definition watch_accept (c : ConfigWatcher C) (w : World) (candidate : LoadedConfig C) : ConfigWatcher C :=
  let c := MkWatcher candidate (cw_debounce c) (cw_observed c) ∅ (cw_pending_since c) (cw_attempted c) in
  set_attempted None (set_pending None (observe w c)).

(** ** Properties *)

Lemma poll_active c r now : cw_active (poll c r now).2 = cw_active c.
Proof.
  unfold poll, poll_load. repeat case_match; try done.
Qed.

(** Histories of polls and accepted candidates, the latest poll first. *)
Inductive watch_run : list (Reads * Instant) -> ConfigWatcher C -> Prop :=
| run_start c : cw_pending_since c = None -> watch_run [] c
| run_poll h c r now : watch_run h c -> watch_run ((r, now) :: h) (poll c r now).2
| run_accept h c w candidate : watch_run h c -> watch_run h (watch_accept c w candidate).

(** The polls [h1] after the one at [t] saw the files as that one left them. *)
Definition quiet_since (h : list (Reads * Instant)) (c : ConfigWatcher C) (t : Instant) : Prop :=
  exists h1 r h2, h = h1 ++ (r, t) :: h2 /\
    Forall (fun e => file_stamps (rd_compare e.1) (watched_paths c) = file_stamps (rd_compare r) (watched_paths c)) h1 /\
    cw_observed c = file_stamps (rd_compare r) (watched_paths c).

Lemma watch_run_quiet h c :
  watch_run h c ->
  cw_pending_since c = None \/ cw_attempted c = Some (cw_observed c) \/
  cw_attempted c = None /\ exists t, cw_pending_since c = Some t /\ quiet_since h c t.
Proof.
  induction 1 as [c Hc|h c r now _ IH|h c w candidate _ _]; [by left| |by left].
  unfold poll. destruct (bool_decide_reflect (file_stamps (rd_compare r) (watched_paths c) = cw_observed c)) as [Heq|Hne]; cbn [negb].
  2:{ right. right. split; [done|]. exists now. split; [done|]. exists [], r, h. by repeat split. }
  destruct (cw_pending_since c) as [since|] eqn:Hp; [|by left].
  assert (Hkeep : cw_pending_since c = None \/ cw_attempted c = Some (cw_observed c) \/
    cw_attempted c = None /\ exists t, cw_pending_since c = Some t /\ quiet_since ((r, now) :: h) c t).
  { destruct IH as [IH|[IH|(Ha & t & Ht & h1 & r1 & h2 & -> & Hall & Ho)]]; [congruence|by right; left|].
    right. right. split; [done|]. exists t. split; [congruence|]. exists ((r, now) :: h1), r1, h2.
    split; [done|]. split; [|done]. constructor; [|done]. simpl. congruence. }
  destruct (_ <? _); [exact Hkeep|]. case_bool_decide; [exact Hkeep|].
  unfold poll_load. destruct (load_tracked _ _); [by left|by right; left].
Qed.

(** Loading happens only after a change and a quiet period. *)
Lemma poll_loads c r now :
  (poll c r now).1 <> Ok None ->
  file_stamps (rd_compare r) (watched_paths c) = cw_observed c /\
  cw_attempted c <> Some (cw_observed c) /\
  exists since, cw_pending_since c = Some since /\ cw_debounce c <= duration_since now since.
Proof.
  unfold poll. case_bool_decide; [|done]. cbn [negb].
  destruct (cw_pending_since c) as [since|]; [|done].
  destruct (N.ltb_spec (duration_since now since) (cw_debounce c)); [done|].
  case_bool_decide; [done|]. intros _. eauto.
Qed.

(** What a load makes of a poll. *)
Definition load_result (w : World) (c : ConfigWatcher C) : Result (option (LoadedConfig C)) ConfigError :=
  match load_tracked w (lc_root (cw_active c)) with Ok l => Ok (Some l) | Err e => Err e end.

Lemma poll_result c r now : (poll c r now).1 <> Ok None -> (poll c r now).1 = load_result (rd_load r) c.
Proof.
  unfold poll, poll_load, load_result. repeat case_match; try done; simpl in *; congruence.
Qed.

(** Nothing is reported while the files are as the watcher last saw them and it has
    nothing left to try. *)
Lemma poll_settled c w now :
  cw_observed c = file_stamps w (watched_paths c) ->
  cw_pending_since c = None \/ cw_attempted c = Some (cw_observed c) ->
  poll c (at_rest w) now = (Ok None, c).
Proof.
  intros Ho Hs. unfold poll. cbv zeta. rewrite (bool_decide_eq_true_2 (file_stamps _ _ = _)) by done. cbn [negb].
  destruct (cw_pending_since c) as [since|]; [|done]. destruct Hs as [|Hs]; [done|].
  destruct (_ <? _); [done|]. by rewrite bool_decide_eq_true_2.
Qed.

(** A poll loads a candidate only after a quiet period: it follows an earlier
    poll that saw a change, at least the debounce time ago, and that poll, every
    poll in between and the loading one itself saw the watched files in the same
    state.  What it returns is what the loader makes of the active root, and the
    active configuration stays. *)
Theorem poll_debounced h c r now :
  watch_run h c -> (poll c r now).1 <> Ok None ->
  (exists h1 r1 t h2, h = h1 ++ (r1, t) :: h2 /\ cw_debounce c <= duration_since now t /\
     Forall (fun e => file_stamps (rd_compare e.1) (watched_paths c) = file_stamps (rd_compare r1) (watched_paths c))
       ((r, now) :: h1)) /\
  (poll c r now).1 = load_result (rd_load r) c /\ cw_active (poll c r now).2 = cw_active c.
Proof.
  intros Hrun Hload. split; [|split; [by apply poll_result|apply poll_active]].
  destruct (poll_loads c r now Hload) as (Heq & Ha & since & Hp & Hd).
  destruct (watch_run_quiet h c Hrun) as [?|[?|(_ & t & Ht & h1 & r1 & h2 & -> & Hall & Ho)]]; [congruence|done|].
  exists h1, r1, t, h2. split; [done|]. split; [congruence|]. constructor; [|done]. simpl. congruence.
Qed.

(** Polls at several times while the files stay as they are, and what they return. *)
Fixpoint polls (c : ConfigWatcher C) (w : World) (times : list Instant)
  : list (Result (option (LoadedConfig C)) ConfigError) * ConfigWatcher C :=
  match times with
  | [] => ([], c)
  | t :: times =>
    let polled := poll c (at_rest w) t in
    let rest := polls polled.2 w times in (polled.1 :: rest.1, rest.2)
  end.

Lemma polls_idle c w times : Forall (fun t => poll c (at_rest w) t = (Ok None, c)) times ->
  polls c w times = (replicate (length times) (Ok None), c).
Proof. induction 1 as [|t times Ht _ IH]; simpl; [done|]. rewrite Ht. cbn [fst snd]. by rewrite IH. Qed.

Lemma polls_app c w l1 l2 :
  polls c w (l1 ++ l2) = ((polls c w l1).1 ++ (polls (polls c w l1).2 w l2).1, (polls (polls c w l1).2 w l2).2).
Proof. revert c. induction l1 as [|t l1 IH]; intros c; simpl; [by destruct (polls c w l2)|]. by rewrite IH. Qed.

(** [C34] A change of the watched files that lasts is reported exactly once, however
    often the watcher polls.  Take any times at which it polls while the files stay in
    their changed state: [now], the first of them, then any number of polls less than
    the debounce time after it, then one at least that long after it, and any number of
    later ones.  The poll after the quiet period returns what the loader makes of the
    files, a candidate or an error; every poll before and after it returns nothing, and
    the active configuration is the one it was. *)
Theorem watcher_reports_changes c w now early later after :
  file_stamps w (watched_paths c) <> cw_observed c ->
  Forall (fun t => duration_since t now < cw_debounce c) early -> cw_debounce c <= duration_since later now ->
  let run := polls c w (now :: early ++ later :: after) in
  run.1 = Ok None :: replicate (length early) (Ok None) ++ load_result w c :: replicate (length after) (Ok None) /\
  cw_active run.2 = cw_active c.
Proof.
  intros Hne Hearly Hd.
  set (c1 := set_attempted None (set_pending (Some now) (set_observed (file_stamps w (watched_paths c)) c))).
  assert (Hnotice : poll c (at_rest w) now = (Ok None, c1)).
  { unfold poll. cbv zeta. by rewrite (bool_decide_eq_false_2 (file_stamps _ _ = _)) by done. }
  assert (Hidle : polls c1 w early = (replicate (length early) (Ok None), c1)).
  { apply polls_idle. eapply Forall_impl; [exact Hearly|]. simpl. intros t Ht. unfold poll. cbv zeta.
    rewrite (bool_decide_eq_true_2 (file_stamps _ _ = _)) by done. simpl. by rewrite (proj2 (N.ltb_lt _ _) Ht). }
  assert (Hpoll : poll c1 (at_rest w) later = poll_load c1 (at_rest w)).
  { unfold poll. cbv zeta. rewrite (bool_decide_eq_true_2 (file_stamps _ _ = _)) by done. simpl.
    destruct (N.ltb_spec (duration_since later now) (cw_debounce c)); [lia|done]. }
  set (c2 := (poll_load c1 (at_rest w)).2).
  assert (Hafter : polls c2 w after = (replicate (length after) (Ok None), c2)).
  { apply polls_idle, Forall_forall. intros t _. subst c2.
    apply poll_settled; unfold poll_load; simpl; destruct (load_tracked _ _); try done; simpl; auto. }
  simpl. rewrite Hnotice. cbn [fst snd]. rewrite polls_app, Hidle. cbn [fst snd polls]. rewrite Hpoll.
  fold c2. rewrite Hafter. cbn [fst snd]. subst c2. unfold poll_load, load_result. simpl.
  by destruct (load_tracked _ _).
Qed.

(** An edit between loading a candidate and accepting it is not noticed: when a
    candidate is accepted at a moment at which the loader would return another
    configuration, no later poll reports it as long as the files stay as they are,
    and the outdated candidate remains the active configuration. *)
Theorem edit_before_accept_lost c w candidate other :
  load_tracked w (lc_root candidate) = Ok other -> other <> candidate ->
  let accepted := watch_accept c w candidate in
  load_result w accepted = Ok (Some other) /\ cw_active accepted <> other /\
  forall now, poll accepted (at_rest w) now = (Ok None, accepted).
Proof.
  intros Hl Hne accepted. split; [unfold load_result; simpl; by rewrite Hl|]. split; [by simpl; congruence|].
  intros now. apply poll_settled; [done|by left].
Qed.
End watcher.

(** * An example: one file, whose contents are the configuration. *)

Definition sample_yaml : YamlImports := {| yaml_imports := fun _ => None; sibling := fun _ r => r |}.
Definition sample_world (text : string) : World :=
  MkWorld {["pool.yaml" := Opened (Some (MkMetadata true (str_len text) None 0x180)) (Some (bytes_of text))]}
    (fun _ => true) Some.
Definition sample_load (w : World) (path : string) : Result (LoadedConfig string) string :=
  match read_bounded_file (w_open w path) with
  | ReadBytes data _ => Ok (MkLoaded (of_bytes data) path [path] (of_bytes data))
  | _ => Err "unreadable"
  end.
Definition sample_loaded (text : string) : LoadedConfig string := MkLoaded text "pool.yaml" ["pool.yaml"] text.
Definition sample_watcher : ConfigWatcher string :=
  MkWatcher (sample_loaded "a") (from_millis 50) (file_stamps (sample_world "a") ["pool.yaml"]) ∅ None None.

Lemma poll_debounced_witness :
  let c := (@poll sample_yaml _ _ sample_load sample_watcher (at_rest (sample_world "b")) 0).2 in
  let now := 60000000%Z in
  (@poll sample_yaml _ _ sample_load c (at_rest (sample_world "b")) now).1 = Ok (Some (sample_loaded "b")).
Proof.
  intros c now.
  rewrite (proj1 (proj2 (@poll_debounced sample_yaml string string sample_load [(at_rest (sample_world "b"), 0%Z)] c
    (at_rest (sample_world "b")) now (run_poll _ [] sample_watcher _ _ (run_start _ sample_watcher eq_refl))
    ltac:(vm_compute; discriminate)))).
  vm_compute. reflexivity.
Defined.

Lemma watcher_reports_changes_witness :
  (@polls sample_yaml _ _ sample_load sample_watcher (sample_world "b")
     [0; 10000000; 20000000; 60000000; 120000000]%Z).1 =
  [Ok None; Ok None; Ok None; Ok (Some (sample_loaded "b")); Ok None].
Proof.
  pose proof (proj1 (@watcher_reports_changes sample_yaml string string sample_load sample_watcher (sample_world "b")
    0 [10000000; 20000000]%Z 60000000 [120000000]%Z ltac:(vm_compute; discriminate)
    ltac:(repeat constructor; vm_compute; reflexivity) ltac:(vm_compute; discriminate))) as Hr.
  cbn [app length replicate] in Hr. rewrite Hr. vm_compute. reflexivity.
Defined.

Lemma edit_before_accept_lost_witness :
  let accepted := @watch_accept string sample_watcher (sample_world "c") (sample_loaded "b") in
  cw_active accepted <> sample_loaded "c" /\
  forall now, @poll sample_yaml _ _ sample_load accepted (at_rest (sample_world "c")) now = (Ok None, accepted).
Proof.
  intros accepted. apply (@edit_before_accept_lost sample_yaml string string sample_load sample_watcher (sample_world "c")
    (sample_loaded "b") (sample_loaded "c")); [vm_compute; reflexivity|discriminate].
Defined.
