(* ===== verification/Loader.v ===== *)
(** The configuration loader (crates/pooler-config/src/loader.rs): YAML documents,
    directives, merging of overlays, the origins of declarations, and the
    resolution of imports.  The file system, the YAML parser and the presets are
    parameters. *)
From S2P Require Import Prelude Str.

Open Scope N_scope.

(** * YAML values

    A mapping keeps its entries in insertion order, as [serde_yml::Mapping] does. *)

Inductive YamlNumber := YInt (z : Z) | YFloat (bits : N).

Inductive Yaml :=
| YNull
| YBool (b : bool)
| YNumber (n : YamlNumber)
| YString (s : string)
| YSequence (l : list Yaml)
| YMapping (m : list (Yaml * Yaml))
| YTagged (tag : string) (v : Yaml).

#[export] Instance YamlNumber_eq_dec : EqDecision YamlNumber. Proof. solve_decision. Defined.
#[export] Instance Yaml_eq_dec : EqDecision Yaml.
Proof.
  refine (fix go (x y : Yaml) : Decision (x = y) :=
    let _ : EqDecision Yaml := @go in
    match x, y with
    | YNull, YNull => left _
    | YBool a, YBool b => cast_if (decide (a = b))
    | YNumber a, YNumber b => cast_if (decide (a = b))
    | YString a, YString b => cast_if (decide (a = b))
    | YSequence a, YSequence b => cast_if (decide (a = b))
    | YMapping a, YMapping b => cast_if (decide (a = b))
    | YTagged s a, YTagged t b => cast_if_and (decide (s = t)) (decide (a = b))
    | _, _ => right _
    end); clear r go; abstract congruence.
Defined.

Abbreviation Mapping := (list (Yaml * Yaml)).

(** [Mapping::get], [insert] (which keeps the place of a key) and [contains_key]. *)
Fixpoint map_get (k : Yaml) (m : Mapping) : option Yaml :=
  match m with
  | [] => None
  | (k', v) :: m => if decide (k = k') then Some v else map_get k m
  end.
Fixpoint map_insert (k v : Yaml) (m : Mapping) : Mapping :=
  match m with
  | [] => [(k, v)]
  | (k', v') :: m => if decide (k = k') then (k, v) :: m else (k', v') :: map_insert k v m
  end.
Definition map_has (k : Yaml) (m : Mapping) : bool := is_some (map_get k m).

(** [Mapping::remove] moves another entry to the place of the one it takes out:
    which, does not matter here. *)
Class MappingRemove := {
  map_remove : Yaml -> Mapping -> Mapping;
  map_remove_spec : forall k m, map_remove k m ≡ₚ List.filter (fun e => negb (beq e.1 k)) m;
}.

(** The accessors of [serde_yml::Value] look through tags; a change made through one
    of them ([retag]) leaves the tags in place. *)
Fixpoint untag (v : Yaml) : Yaml := match v with YTagged _ v => untag v | _ => v end.
Fixpoint retag (v inner : Yaml) : Yaml :=
  match v with YTagged t v => YTagged t (retag v inner) | _ => inner end.
Definition as_mapping (v : Yaml) : option Mapping := match untag v with YMapping m => Some m | _ => None end.
Definition as_sequence (v : Yaml) : option (list Yaml) :=
  match untag v with YSequence l => Some l | _ => None end.
Definition as_str (v : Yaml) : option string := match untag v with YString s => Some s | _ => None end.
Definition as_bool (v : Yaml) : option bool := match untag v with YBool b => Some b | _ => None end.

(** * Errors *)

(** The messages of [load_error]. *)
Inductive LoadReason :=
| ImportDepthExceeded
| ImportCycle (chain : list string)
| OverlayCycle
| OverlayNestedImports
| RootNotMapping
| InvalidImports (message : string)
| ImportNotExactlyOne
| ImportParametersWithoutPreset
| CollectionNotMapping
| CollectionNotList
| CollectionTypeChanged
| ValueTypeChanged
| DeclarationNotMapping
| RemoveWithFields
| RemoveMissing
| DuplicateDeclaration
| MergeMissing
| MergeAndRemove
| DirectiveFalse (key : string)
| DirectiveNotBoolean (key : string)
| DeclarationWithoutId
| RenderFailed (message : string)
| PresetInvalid (message : string).

Record LoadError := MkLoadError { le_path : string; le_reason : LoadReason }.

(** * Merging *)

Definition scalar_kind (v : Yaml) : option N :=
  match v with
  | YNull => Some 0 | YBool _ => Some 1 | YNumber _ => Some 2 | YString _ => Some 3 | _ => None
  end.

(** [merge_value] and, for the entries of a mapping, [merge_entry]. *)
Fixpoint merge_value (path : string) (incoming base : Yaml) {struct incoming} : Result Yaml LoadError :=
  match base, incoming with
  | YMapping b, YMapping i =>
    let? m := (fix merge_entries (i b : Mapping) {struct i} : Result Mapping LoadError :=
                 match i with
                 | [] => Ok b
                 | (k, v) :: i =>
                   let? v' := match map_get k b with
                              | Some existing => merge_value path v existing
                              | None => Ok v
                              end in
                   merge_entries i (map_insert k v' b)
                 end) i b in
    Ok (YMapping m)
  | YSequence _, YSequence i => Ok (YSequence i)
  | _, _ =>
    match scalar_kind base, scalar_kind incoming with
    | Some a, Some b => if a =? b then Ok incoming else Err (MkLoadError path ValueTypeChanged)
    | _, _ => Err (MkLoadError path ValueTypeChanged)
    end
  end.

Definition merge_entry (path : string) (base : Mapping) (k v : Yaml) : Result Mapping LoadError :=
  let? v' := match map_get k base with
             | Some existing => merge_value path v existing
             | None => Ok v
             end in
  Ok (map_insert k v' base).

(** The loop of [merge_value] over the entries of a mapping. *)
Fixpoint merge_entries (path : string) (i b : Mapping) : Result Mapping LoadError :=
  match i with
  | [] => Ok b
  | (k, v) :: i => let? b := merge_entry path b k v in merge_entries path i b
  end.

(** * Directives *)

Section directives.
Context `{MappingRemove}.

Definition take_bool (path : string) (m : Mapping) (key : string) : Result (bool * Mapping) LoadError :=
  let rest := map_remove (YString key) m in
  match map_get (YString key) m with
  | None => Ok (false, m)
  | Some (YBool true) => Ok (true, rest)
  | Some (YBool false) => Err (MkLoadError path (DirectiveFalse key))
  | Some _ => Err (MkLoadError path (DirectiveNotBoolean key))
  end.

Definition strip_directives (path : string) (v : Yaml) : Result (Yaml * bool * bool) LoadError :=
  let? m := ok_or (as_mapping v) (MkLoadError path DeclarationNotMapping) in
  let? (merge, m) := take_bool path m "merge" in
  let? (remove, m) := take_bool path m "remove" in
  if merge && remove then Err (MkLoadError path MergeAndRemove)
  else Ok (retag v (YMapping m), merge, remove).

Definition has_directive (v : Yaml) : bool :=
  is_some_and (as_mapping v) (fun m => map_has (YString "merge") m || map_has (YString "remove") m).

Definition directive_is_true (v : Yaml) (key : string) : bool :=
  default false (m ← as_mapping v; d ← map_get (YString key) m; as_bool d).

Definition declaration_id (path : string) (v : Yaml) : Result string LoadError :=
  ok_or (m ← as_mapping v; d ← map_get (YString "id") m; as_str d) (MkLoadError path DeclarationWithoutId).

(** * Named collections *)

(** One turn of the loop of [merge_named_map]. *)
Definition merge_declaration (path : string) (target : Mapping) (id declaration : Yaml)
  : Result Mapping LoadError :=
  let? (value, merge, remove) := strip_directives path declaration in
  if remove && is_some_and (as_mapping value) (fun m => negb (length m =? 0)%nat)
  then Err (MkLoadError path RemoveWithFields)
  else
    match map_get id target, merge, remove with
    | existing, _, true =>
      match existing with
      | None => Err (MkLoadError path RemoveMissing)
      | Some _ => Ok (map_remove id target)
      end
    | Some existing, true, false =>
      let? v := merge_value path value existing in Ok (map_insert id v target)
    | Some _, false, false => Err (MkLoadError path DuplicateDeclaration)
    | None, true, false => Err (MkLoadError path MergeMissing)
    | None, false, false => Ok (map_insert id value target)
    end.

Fixpoint merge_declarations (path : string) (target incoming : Mapping) : Result Mapping LoadError :=
  match incoming with
  | [] => Ok target
  | (id, declaration) :: incoming =>
    let? target := merge_declaration path target id declaration in
    merge_declarations path target incoming
  end.

Definition merge_named_map (path : string) (base : Mapping) (key incoming : Yaml) : Result Mapping LoadError :=
  let? incoming := ok_or (as_mapping incoming) (MkLoadError path CollectionNotMapping) in
  let entry := default (YMapping []) (map_get key base) in
  let? target := ok_or (as_mapping entry) (MkLoadError path CollectionTypeChanged) in
  let? target := merge_declarations path target incoming in
  Ok (map_insert key (retag entry (YMapping target)) base).

(** One turn of the loop of [merge_named_sequence]. *)
Definition merge_item (path : string) (target : list Yaml) (declaration : Yaml) : Result (list Yaml) LoadError :=
  let? (value, merge, remove) := strip_directives path declaration in
  let? id := declaration_id path value in
  if remove && is_some_and (as_mapping value) (fun m => negb (length m =? 1)%nat)
  then Err (MkLoadError path RemoveWithFields)
  else
    let existing := position (fun item => match declaration_id path item with
                                          | Ok i => String.eqb i id
                                          | Err _ => false
                                          end) target in
    match existing, merge, remove with
    | Some index, _, true => Ok (delete index target)
    | None, _, true => Err (MkLoadError path RemoveMissing)
    | Some index, true, false =>
      match target !! index with
      | Some item => let? v := merge_value path value item in Ok (<[index := v]> target)
      | None => Ok target
      end
    | Some _, false, false => Err (MkLoadError path DuplicateDeclaration)
    | None, true, false => Err (MkLoadError path MergeMissing)
    | None, false, false => Ok (target ++ [value])
    end.

Fixpoint merge_items (path : string) (target incoming : list Yaml) : Result (list Yaml) LoadError :=
  match incoming with
  | [] => Ok target
  | declaration :: incoming =>
    let? target := merge_item path target declaration in merge_items path target incoming
  end.

Definition merge_named_sequence (path : string) (base : Mapping) (key incoming : Yaml) (additive : bool)
  : Result Mapping LoadError :=
  let? incoming := ok_or (as_sequence incoming) (MkLoadError path CollectionNotList) in
  if negb (additive || existsb has_directive incoming)
  then
    if is_some_and (map_get key base) (fun v => negb (is_some (as_sequence v)))
    then Err (MkLoadError path ValueTypeChanged)
    else Ok (map_insert key (YSequence incoming) base)
  else
    let entry := default (YSequence []) (map_get key base) in
    let? target := ok_or (as_sequence entry) (MkLoadError path CollectionTypeChanged) in
    let? target := merge_items path target incoming in
    Ok (map_insert key (retag entry (YSequence target)) base).

Definition NAMED_MAPS : list string :=
  ["listeners"; "upstreams"; "accounts"; "credentials"; "account_pools"; "pools"; "policies"].
Definition NAMED_SEQUENCES : list string := ["routes"; "models"].
Definition member (s : string) (l : list string) : bool := existsb (String.eqb s) l.

(** One turn of the loop of [merge_document]. *)
Definition merge_section (path : string) (additive : bool) (base : Mapping) (key value : Yaml)
  : Result Mapping LoadError :=
  let name := default "" (as_str key) in
  if member name NAMED_MAPS then merge_named_map path base key value
  else if member name NAMED_SEQUENCES then merge_named_sequence path base key value additive
  else merge_entry path base key value.

Fixpoint merge_sections (path : string) (additive : bool) (base incoming : Mapping) : Result Mapping LoadError :=
  match incoming with
  | [] => Ok base
  | (key, value) :: incoming =>
    let? base := merge_section path additive base key value in
    merge_sections path additive base incoming
  end.

Definition merge_document (path : string) (base incoming : Yaml) (additive : bool) : Result Yaml LoadError :=
  let? incoming := ok_or (as_mapping incoming) (MkLoadError path RootNotMapping) in
  let? b := ok_or (as_mapping base) (MkLoadError path RootNotMapping) in
  let? m := merge_sections path additive b incoming in
  Ok (retag base (YMapping m)).

(** * Origins *)

Abbreviation Origins := (gmap string string).

(** The keys under which a declaration of a section is known. *)
Definition origin_key (section id : string) : string := section +:+ "." +:+ id.

(** [mapping.keys().filter_map(Value::as_str)] for a named map, and the items with an
    id for a named list. *)
Definition section_map (root : Mapping) (section : string) : Mapping :=
  default [] (v ← map_get (YString section) root; as_mapping v).
Definition section_list (root : Mapping) (section : string) : list Yaml :=
  default [] (v ← map_get (YString section) root; as_sequence v).

Definition result_ok {A E} (r : Result A E) : option A := match r with Ok a => Some a | Err _ => None end.

Definition declared_keys (path : string) (root : Mapping) : list string :=
  flat_map (fun s => if map_has (YString s) root then [s] else []) ["management"; "catalog"]
  ++ flat_map (fun s => map (origin_key s) (omap as_str (section_map root s).*1)) NAMED_MAPS
  ++ flat_map (fun s => map (origin_key s) (omap (fun d => result_ok (declaration_id path d)) (section_list root s)))
       NAMED_SEQUENCES.

Definition collect_origins (document : Yaml) (path : string) : Origins :=
  match as_mapping document with
  | None => ∅
  | Some root => foldl (fun o key => <[key := path]> o) ∅ (declared_keys path root)
  end.

(** A declaration of the incoming document under its key: its origin goes when it is
    removed, and becomes the incoming one when there is one. *)
Definition change_origin (incoming : Origins) (key : string) (removed : bool) (o : Origins) : Origins :=
  if removed then delete key o
  else match incoming !! key with Some origin => <[key := origin]> o | None => o end.

Definition change_map (incoming : Origins) (root : Mapping) (o : Origins) (section : string) : Origins :=
  foldl (fun o e =>
           match as_str e.1 with
           | None => o
           | Some id => change_origin incoming (origin_key section id) (directive_is_true e.2 "remove") o
           end) o (section_map root section).

Definition change_list (path : string) (additive : bool) (incoming : Origins) (root : Mapping)
    (o : Origins) (section : string) : Origins :=
  match v ← map_get (YString section) root; as_sequence v with
  | None => o
  | Some sequence =>
    let o := if negb additive && negb (existsb has_directive sequence)
             then filter (fun kv => starts_with kv.1 (section +:+ ".") = false) o else o in
    foldl (fun o declaration =>
             match declaration_id path declaration with
             | Err _ => o
             | Ok id => change_origin incoming (origin_key section id)
                          (directive_is_true declaration "remove") o
             end) o sequence
  end.

Definition apply_origin_changes (path : string) (additive : bool) (o : Origins) (value : Yaml) (incoming : Origins)
  : Origins :=
  match as_mapping value with
  | None => o
  | Some root =>
    let o := foldl (fun o s => if map_has (YString s) root then change_origin incoming s false o else o)
               o ["management"; "catalog"] in
    let o := foldl (change_map incoming root) o NAMED_MAPS in
    foldl (change_list path additive incoming root) o NAMED_SEQUENCES
  end.

Record ResolvedDocument := MkResolved {
  rd_value : Yaml; rd_origins : Origins; rd_dependencies : gset string }.

Definition merge_resolved (path : string) (additive : bool) (base incoming : ResolvedDocument)
  : Result ResolvedDocument LoadError :=
  let? value := merge_document path (rd_value base) (rd_value incoming) additive in
  Ok (MkResolved value
        (apply_origin_changes path additive (rd_origins base) (rd_value incoming) (rd_origins incoming))
        (rd_dependencies base ∪ rd_dependencies incoming)).
End directives.

(** * An example of [Mapping::remove]: the entry is taken out in place. *)

Definition sample_remove : MappingRemove :=
  {| map_remove := fun k m => List.filter (fun e => negb (beq e.1 k)) m; map_remove_spec := fun k m => reflexivity _ |}.
