(* ===== verification/LoaderFacts.v ===== *)
(** What merging configuration documents does: the overlay of values by path, of named
    declarations by id, and the origins of declarations. *)
From S2P Require Import Prelude Str Loader.

Open Scope N_scope.

(** * Mappings *)

Lemma map_get_insert k k' v m : map_get k (map_insert k' v m) = if decide (k = k') then Some v else map_get k m.
Proof. induction m as [|[k1 v1] m IH]; simpl; repeat (case_decide; simplify_eq/=; try done). Qed.

Lemma map_get_None k m : map_get k m = None <-> k ∉ m.*1.
Proof.
  induction m as [|[k1 v1] m IH]; simpl; [split; [by intros _ ?%elem_of_nil|done]|].
  rewrite not_elem_of_cons. case_decide; naive_solver.
Qed.

Lemma map_get_elem k v m : NoDup m.*1 -> map_get k m = Some v <-> (k, v) ∈ m.
Proof.
  induction m as [|[k1 v1] m IH]; simpl; intros Hd; [by rewrite elem_of_nil|].
  apply NoDup_cons in Hd as [Hn Hd]. rewrite elem_of_cons. case_decide as E; [subst|].
  - split; [intros [= ->]; by left|]. intros [[= ->]|Hin]; [done|].
    destruct Hn. apply list_elem_of_fmap. by exists (k1, v).
  - rewrite IH by done. split; [by right|]. intros [[= -> ->]|?]; done.
Qed.

Lemma map_insert_keys k v m : NoDup m.*1 -> NoDup (map_insert k v m).*1.
Proof.
  induction m as [|[k1 v1] m IH]; simpl; intros Hd; [constructor; [by intros ?%elem_of_nil|done]|].
  apply NoDup_cons in Hd as [Hn Hd]. case_decide as E; simpl; [subst; by constructor|].
  constructor; [|by apply IH]. intros Hin. apply Hn.
  destruct (map_get k1 m) eqn:G; [|].
  - destruct (decide (k1 ∈ m.*1)) as [|Hx]; [done|]. apply map_get_None in Hx. congruence.
  - exfalso. revert Hin. apply map_get_None. rewrite map_get_insert. by rewrite decide_False.
Qed.

Section remove.
Context `{MappingRemove}.

Lemma map_remove_keys k m : NoDup m.*1 -> NoDup (map_remove k m).*1.
Proof.
  intros Hd. rewrite map_remove_spec. induction m as [|[k1 v1] m IH]; simpl in *; [done|].
  apply NoDup_cons in Hd as [Hn Hd]. case_match; [|by apply IH]. simpl. constructor; [|by apply IH].
  intros ([k2 v] & E & Hin)%list_elem_of_fmap. apply Hn, list_elem_of_fmap. exists (k2, v).
  split; [done|]. by apply list_elem_of_In, filter_In, proj1, list_elem_of_In in Hin.
Qed.

Lemma map_get_remove k k' m : NoDup m.*1 ->
  map_get k (map_remove k' m) = if decide (k = k') then None else map_get k m.
Proof.
  intros Hd. apply option_eq. intros v. rewrite map_get_elem by (by apply map_remove_keys).
  rewrite map_remove_spec, list_elem_of_In, filter_In, <- list_elem_of_In, <- map_get_elem by done.
  cbn [fst]. rewrite negb_true_iff, bool_decide_eq_false. case_decide; naive_solver.
Qed.
End remove.

Lemma untag_retag v w : untag w = w -> untag (retag v w) = w.
Proof. intros E. by induction v. Qed.
Lemma as_mapping_retag v m : as_mapping (retag v (YMapping m)) = Some m.
Proof. unfold as_mapping. by rewrite untag_retag. Qed.
Lemma as_sequence_retag v l : as_sequence (retag v (YSequence l)) = Some l.
Proof. unfold as_sequence. by rewrite untag_retag. Qed.

(** * Values *)

(** No mapping in the value has a key twice, as none of [serde_yml] does. *)
Fixpoint distinct_keys (v : Yaml) : Prop :=
  match v with
  | YMapping m =>
    NoDup m.*1 /\ (fix all (m : Mapping) := match m with [] => True | (_, v) :: m => distinct_keys v /\ all m end) m
  | YSequence l => (fix all (l : list Yaml) := match l with [] => True | v :: l => distinct_keys v /\ all l end) l
  | YTagged _ v => distinct_keys v
  | _ => True
  end.

Lemma distinct_mapping m : distinct_keys (YMapping m) <-> NoDup m.*1 /\ Forall (fun e => distinct_keys e.2) m.
Proof.
  simpl. apply and_iff_compat_l. induction m as [|[k v] m IH]; [by rewrite Forall_nil|].
  rewrite Forall_cons. by rewrite IH.
Qed.

Lemma distinct_get m k v : distinct_keys (YMapping m) -> map_get k m = Some v -> distinct_keys v.
Proof.
  intros [Hd Hf]%distinct_mapping Hg. apply map_get_elem in Hg; [|done].
  by apply (proj1 (Forall_forall _ _) Hf) in Hg.
Qed.

Lemma distinct_untag v : distinct_keys v -> distinct_keys (untag v).
Proof. induction v; simpl in *; auto. Qed.

Lemma distinct_as_mapping v m : distinct_keys v -> as_mapping v = Some m -> distinct_keys (YMapping m).
Proof.
  intros Hv%distinct_untag Hm. unfold as_mapping in Hm. destruct (untag v); naive_solver.
Qed.

Lemma distinct_retag v w : distinct_keys w -> distinct_keys (retag v w).
Proof. intros Hw. by induction v. Qed.

Lemma yaml_mapping_ind (P : Yaml -> Prop) :
  (forall v, (forall m, v <> YMapping m) -> P v) ->
  (forall m, Forall (fun e => P e.2) m -> P (YMapping m)) -> forall v, P v.
Proof.
  intros Hl Hm. fix go 1. intros [| | | | |m|]; try (by apply Hl). apply Hm.
  induction m as [|[k v] m IH]; constructor; [apply go|apply IH].
Qed.

(** The value at a path of keys through mappings. *)
Fixpoint get_path (p : list Yaml) (v : Yaml) : option Yaml :=
  match p with
  | [] => Some v
  | k :: p => match v with YMapping m => w ← map_get k m; get_path p w | _ => None end
  end.

(** Two values that can stand at the same place: both are mappings, both are lists, or
    both are scalars of one kind. *)
Definition compatible (v w : Yaml) : bool :=
  match v, w with
  | YNull, YNull | YBool _, YBool _ | YNumber _, YNumber _ | YString _, YString _
  | YSequence _, YSequence _ | YMapping _, YMapping _ => true
  | _, _ => false
  end.

Definition is_mapping (v : Yaml) : bool := match v with YMapping _ => true | _ => false end.

Lemma merge_value_mapping path i b :
  merge_value path (YMapping i) (YMapping b) = let? m := merge_entries path i b in Ok (YMapping m).
Proof.
  simpl. f_equal. revert b. induction i as [|[k v] i IH]; intros b; simpl; [done|]. unfold merge_entry.
  destruct (map_get k b) as [w|]; simpl; [destruct (merge_value path v w); simpl; [|done]|]; by rewrite IH.
Qed.

Lemma merge_value_leaf path v w : is_mapping v = false ->
  merge_value path v w = if compatible v w then Ok v else Err (MkLoadError path ValueTypeChanged).
Proof. by destruct v, w. Qed.

Lemma merge_value_leaf_base path v w : is_mapping w = false ->
  merge_value path v w = if compatible v w then Ok v else Err (MkLoadError path ValueTypeChanged).
Proof. by destruct v, w. Qed.

(** The merge of one entry with what is there. *)
Definition merge_option (path : string) (incoming base : option Yaml) : Result (option Yaml) LoadError :=
  match incoming, base with
  | None, b => Ok b
  | Some v, None => Ok (Some v)
  | Some v, Some w => let? u := merge_value path v w in Ok (Some u)
  end.

Lemma merge_entry_spec path b k v b' :
  merge_entry path b k v = Ok b' <->
  exists u, merge_option path (Some v) (map_get k b) = Ok (Some u) /\ b' = map_insert k u b.
Proof.
  unfold merge_entry, merge_option. rewrite result_bind_Ok. destruct (map_get k b) as [w|].
  - setoid_rewrite result_bind_Ok. naive_solver.
  - naive_solver.
Qed.

(** Entries merge key by key. *)
Lemma merge_entries_get path i b m : NoDup i.*1 -> merge_entries path i b = Ok m ->
  forall k, merge_option path (map_get k i) (map_get k b) = Ok (map_get k m).
Proof.
  revert b. induction i as [|[k1 v1] i IH]; simpl; intros b Hd; [by intros [= ->] k|].
  apply NoDup_cons in Hd as [Hn Hd]. intros (b' & (u & Hu & ->)%merge_entry_spec & Hm)%result_bind_Ok k.
  pose proof (IH _ Hd Hm k) as Hk. rewrite map_get_insert in Hk. case_decide as E; [subst|done].
  apply map_get_None in Hn. rewrite Hn in Hk. simpl in Hk. injection Hk as Hk. by rewrite Hu, Hk.
Qed.

Lemma merge_entries_succeeds path i b : NoDup i.*1 ->
  (forall k, exists o, merge_option path (map_get k i) (map_get k b) = Ok o) ->
  exists m, merge_entries path i b = Ok m.
Proof.
  revert b. induction i as [|[k1 v1] i IH]; simpl; intros b Hd Hk; [eauto|].
  apply NoDup_cons in Hd as [Hn Hd]. destruct (Hk k1) as [o Ho]. rewrite decide_True in Ho by done.
  assert (exists u, o = Some u) as [u ->].
  { unfold merge_option in Ho. destruct (map_get k1 b); [|naive_solver].
    apply result_bind_Ok in Ho as (? & _ & [= <-]). eauto. }
  assert (merge_entry path b k1 v1 = Ok (map_insert k1 u b)) as -> by (apply merge_entry_spec; eauto).
  simpl. apply IH; [done|]. intros k. specialize (Hk k). rewrite map_get_insert. case_decide; [|done].
  subst. apply map_get_None in Hn. rewrite Hn. simpl. eauto.
Qed.

(** At every path the merged value has what the overlay says, if the overlay says
    anything there, and otherwise what was there before; it never changes a kind. *)
Definition overlaid (p : list Yaml) (incoming base r : Yaml) : Prop :=
  match get_path p incoming with
  | None => get_path p r = get_path p base
  | Some v => exists u, get_path p r = Some u /\ (if is_mapping v then is_mapping u = true else u = v)
              /\ forall w, get_path p base = Some w -> compatible v w = true
  end.

Lemma merge_value_overlaid path incoming base r p :
  distinct_keys incoming -> merge_value path incoming base = Ok r -> overlaid p incoming base r.
Proof.
  revert incoming base r. induction p as [|k p IH]; intros incoming base r Hd Hr; unfold overlaid; simpl.
  - destruct (is_mapping incoming) eqn:Ei.
    + destruct incoming as [| | | | |i|]; try done. destruct base as [| | | | |b|]; try done.
      rewrite merge_value_mapping in Hr. apply result_bind_Ok in Hr as (m & _ & [= <-]).
      eexists. naive_solver.
    + rewrite merge_value_leaf in Hr by done. destruct (compatible incoming base) eqn:Ec; [|done].
      injection Hr as <-. eexists. naive_solver.
  - destruct (is_mapping incoming) eqn:Ei; [destruct (is_mapping base) eqn:Eb|].
    + destruct incoming as [| | | | |i|]; try done. destruct base as [| | | | |b|]; try done.
      rewrite merge_value_mapping in Hr. apply result_bind_Ok in Hr as (m & Hm & [= <-]).
      pose proof (merge_entries_get path i b m ltac:(by apply distinct_mapping in Hd as [? _]) Hm k) as Hk.
      destruct (map_get k i) as [v|] eqn:Gi; simpl in Hk |- *; [|injection Hk as Hk; by rewrite Hk].
      destruct (map_get k b) as [w|] eqn:Gb; simpl in Hk |- *.
      * apply result_bind_Ok in Hk as (u & Hu & [= <-]). simpl.
        apply (IH v w u); [by eapply distinct_get|done].
      * injection Hk as <-. simpl. destruct (get_path p v) as [u|]; [|done].
        exists u. repeat split; [by destruct (is_mapping u)|naive_solver].
    + rewrite merge_value_leaf_base in Hr by done. by destruct incoming, base.
    + rewrite merge_value_leaf in Hr by done. by destruct incoming, base; simplify_eq/=.
Qed.

(** The overlay and the value it is laid over disagree on no kind. *)
Definition conflict_free (incoming base : Yaml) : Prop :=
  forall p v w, get_path p incoming = Some v -> get_path p base = Some w -> compatible v w = true.

Lemma merge_value_succeeds path incoming base :
  distinct_keys incoming -> conflict_free incoming base -> exists r, merge_value path incoming base = Ok r.
Proof.
  revert base. induction incoming as [v Hl|i IH] using yaml_mapping_ind; intros base Hd Hc;
    pose proof (Hc [] _ _ eq_refl eq_refl) as H0.
  - rewrite merge_value_leaf, H0 by (destruct v; naive_solver). eauto.
  - destruct base as [| | | | |b|]; try done. rewrite merge_value_mapping.
    destruct (merge_entries_succeeds path i b) as [m ->]; [by apply distinct_mapping in Hd as [? _]| |simpl; eauto].
    intros k. destruct (map_get k i) as [v|] eqn:Gi; simpl; [|eauto].
    destruct (map_get k b) as [w|] eqn:Gb; simpl; [|eauto].
    pose proof Gi as Hin. apply map_get_elem in Hin; [|by apply distinct_mapping in Hd as [? _]].
    destruct (proj1 (Forall_forall _ _) IH _ Hin w) as [r Hr]; simpl in *.
    + by eapply distinct_get.
    + intros p v' w' Hv Hw. apply (Hc (k :: p)); simpl; [by rewrite Gi|by rewrite Gb].
    + rewrite Hr. simpl. eauto.
Qed.

(** An overlay is laid over a value exactly when the two disagree on the kind of
    no value at a path both have.  The result then has, at every path, the overlay's
    value where the overlay has one (a mapping where it has a mapping) and the old
    value, or nothing, everywhere else: nothing the overlay does not mention changes. *)
Theorem overlay_by_path (path : string) (incoming base : Yaml) :
  distinct_keys incoming ->
  ((exists r, merge_value path incoming base = Ok r) <-> conflict_free incoming base)
  /\ forall r, merge_value path incoming base = Ok r -> forall p, overlaid p incoming base r.
Proof.
  intros Hd. split; [split|].
  - intros [r Hr] p v w Hv Hw. pose proof (merge_value_overlaid _ _ _ _ p Hd Hr) as Ho.
    unfold overlaid in Ho. rewrite Hv in Ho. naive_solver.
  - by apply merge_value_succeeds.
  - intros r Hr p. by eapply merge_value_overlaid.
Qed.

(** An overlay that changes one field of a nested mapping and adds another. *)
Lemma overlay_by_path_witness :
  let base := YMapping [(YString "pool", YMapping [(YString "size", YNumber (YInt 4)); (YString "name", YString "a")])] in
  let incoming := YMapping [(YString "pool", YMapping [(YString "size", YNumber (YInt 8)); (YString "ttl", YNull)])] in
  distinct_keys incoming /\
  exists r, merge_value "p" incoming base = Ok r /\ get_path [YString "pool"; YString "size"] r = Some (YNumber (YInt 8))
    /\ get_path [YString "pool"; YString "name"] r = Some (YString "a").
Proof.
  intros base incoming.
  assert (distinct_keys incoming) as Hd by (vm_compute; repeat split; apply (bool_decide_unpack _); vm_compute; exact I).
  split; [exact Hd|]. pose proof (proj2 (overlay_by_path "p" incoming base Hd)) as Ho.
  eexists. split; [vm_compute; reflexivity|]. specialize (Ho _ eq_refl). split.
  - specialize (Ho [YString "pool"; YString "size"]). destruct Ho as (u & Hu & Eu & _). simpl in Eu. rewrite Eu in Hu. exact Hu.
  - specialize (Ho [YString "pool"; YString "name"]). vm_compute in Ho. exact Ho.
Defined.

(** * Declarations *)

(** What an incoming declaration makes of the one under its id: it is removed, merged
    into, or new; [bare] says that a removal has no fields it must not have. *)
Inductive declares `{MappingRemove} (path : string) (bare : Mapping -> bool)
  : option Yaml -> option Yaml -> option Yaml -> Prop :=
| declares_nothing b : declares path bare None b b
| declares_removal d v m w :
    strip_directives path d = Ok (v, false, true) -> as_mapping v = Some m -> bare m = true ->
    declares path bare (Some d) (Some w) None
| declares_merge d v w u :
    strip_directives path d = Ok (v, true, false) -> merge_value path v w = Ok u ->
    declares path bare (Some d) (Some w) (Some u)
| declares_new d v :
    strip_directives path d = Ok (v, false, false) -> declares path bare (Some d) None (Some v).

(** A removal has no field in a named map, and only the id in a list. *)
Abbreviation bare_declaration := (fun m : Mapping => (length m =? 0)%nat).
Abbreviation bare_item := (fun m : Mapping => (length m =? 1)%nat).

Definition put `{MappingRemove} (id : Yaml) (o : option Yaml) (t : Mapping) : Mapping :=
  match o with Some u => map_insert id u t | None => map_remove id t end.

Section declarations.
Context `{MappingRemove} (path : string).

Lemma strip_directives_spec d v mg rm : strip_directives path d = Ok (v, mg, rm) ->
  (mg && rm = false) /\ exists m m1 m2, as_mapping d = Some m /\ v = retag d (YMapping m2) /\
    m1 = (if mg then map_remove (YString "merge") m else m) /\
    m2 = (if rm then map_remove (YString "remove") m1 else m1) /\
    map_get (YString "merge") m = (if mg then Some (YBool true) else None) /\
    map_get (YString "remove") m1 = (if rm then Some (YBool true) else None).
Proof.
  unfold strip_directives, take_bool. intros Hs.
  destruct (as_mapping d) as [m|] eqn:Em; simpl in Hs; [|done].
  destruct (map_get (YString "merge") m) as [[|[]| | | | |]|] eqn:E1; simpl in Hs; try done;
  [ destruct (map_get (YString "remove") (map_remove (YString "merge") m)) as [[|[]| | | | |]|] eqn:E2
  | destruct (map_get (YString "remove") m) as [[|[]| | | | |]|] eqn:E2 ]; simpl in Hs; simplify_eq/=;
  (split; [done|]); do 3 eexists; repeat split; eauto.
Qed.

Lemma merge_declaration_spec t id d t' :
  merge_declaration path t id d = Ok t' <->
  exists o, declares path bare_declaration (Some d) (map_get id t) o /\ t' = put id o t.
Proof.
  unfold merge_declaration. split.
  - intros ([[v mg] rm] & Hs & Hr)%result_bind_Ok.
    destruct (strip_directives_spec _ _ _ _ Hs) as (Hx & m & m1 & m2 & _ & Hv & _).
    assert (as_mapping v = Some m2) as Ev by (subst v; apply as_mapping_retag). rewrite Ev in Hr. simpl in Hr.
    destruct rm, mg, (map_get id t) as [w|] eqn:G; try done; simpl in Hr.
    + case_match eqn:En; [done|]. apply negb_false_iff in En. injection Hr as <-. exists None. split; [|done].
      by econstructor.
    + by destruct (negb _).
    + apply result_bind_Ok in Hr as (u & Hu & [= <-]). exists (Some u). split; [by econstructor|done].
    + injection Hr as <-. exists (Some v). split; [by econstructor|done].
  - intros (o & Hd & ->). inversion Hd as [|? v m w Hs Hv Hb|? v w u Hs Hu|? v Hs]; subst;
      rewrite Hs; simpl; try done.
    + rewrite Hv. simpl. by rewrite Hb.
    + by rewrite Hu.
Qed.

Lemma map_get_put id o t k : NoDup t.*1 -> map_get k (put id o t) = if decide (k = id) then o else map_get k t.
Proof. intros Hd. destruct o; simpl; [apply map_get_insert|by apply map_get_remove]. Qed.

Lemma put_keys id o t : NoDup t.*1 -> NoDup (put id o t).*1.
Proof. destruct o; [apply map_insert_keys|apply map_remove_keys]. Qed.

(** Named maps merge declaration by declaration, whatever the order. *)
Lemma merge_declarations_get t i t' : NoDup t.*1 -> NoDup i.*1 -> merge_declarations path t i = Ok t' ->
  NoDup t'.*1 /\
  forall id, declares path bare_declaration (map_get id i) (map_get id t) (map_get id t').
Proof.
  revert t. induction i as [|[k d] i IH]; simpl; intros t Ht Hd.
  - intros [= ->]. split; [done|]. intros id. constructor.
  - apply NoDup_cons in Hd as [Hn Hd].
    intros (t1 & (o & Ho & ->)%merge_declaration_spec & Hm)%result_bind_Ok.
    destruct (IH (put k o t) (put_keys _ _ _ Ht) Hd Hm) as [Ht' Hg]. split; [done|]. intros id.
    specialize (Hg id). rewrite map_get_put in Hg by done. case_decide as E; [subst|done].
    apply map_get_None in Hn. rewrite Hn in Hg. by inversion Hg; subst.
Qed.

Lemma merge_declarations_succeeds t i : NoDup t.*1 -> NoDup i.*1 ->
  (forall id, exists o, declares path bare_declaration (map_get id i) (map_get id t) o) ->
  exists t', merge_declarations path t i = Ok t'.
Proof.
  revert t. induction i as [|[k d] i IH]; simpl; intros t Ht Hd Ho; [eauto|].
  apply NoDup_cons in Hd as [Hn Hd]. destruct (Ho k) as [o Hk]. rewrite decide_True in Hk by done.
  assert (merge_declaration path t k d = Ok (put k o t)) as -> by (apply merge_declaration_spec; eauto).
  simpl. apply IH; [by apply put_keys|done|]. intros id. rewrite map_get_put by done.
  specialize (Ho id). case_decide; [subst|done]. apply map_get_None in Hn. rewrite Hn. eexists. constructor.
Qed.
End declarations.

(** * Lists of declarations *)

Definition item_id (d : Yaml) : option string := result_ok (declaration_id "" d).
Definition find_item (id : string) (l : list Yaml) : option Yaml :=
  List.find (fun d => bool_decide (item_id d = Some id)) l.
Definition unique_ids (l : list Yaml) : Prop := NoDup (omap item_id l).

Lemma declaration_id_item path d :
  declaration_id path d = ok_or (item_id d) (MkLoadError path DeclarationWithoutId).
Proof. unfold item_id, declaration_id, ok_or. by case_match. Qed.

Lemma find_item_app id l1 l2 :
  find_item id (l1 ++ l2) = match find_item id l1 with Some d => Some d | None => find_item id l2 end.
Proof. unfold find_item. induction l1 as [|d l1 IH]; simpl; [done|]. by case_bool_decide. Qed.

Lemma find_item_None id l : find_item id l = None <-> id ∉ omap item_id l.
Proof.
  unfold find_item. induction l as [|d l IH]; simpl; [split; [by intros _ ?%elem_of_nil|done]|].
  case_bool_decide as E; [rewrite E, not_elem_of_cons; naive_solver|].
  destruct (item_id d) as [i|]; simpl; [|done]. rewrite not_elem_of_cons. naive_solver.
Qed.

Lemma find_item_some id l d : find_item id l = Some d -> d ∈ l /\ item_id d = Some id.
Proof.
  intros [Hin Hb]%find_some. apply bool_decide_eq_true in Hb. split; [by apply list_elem_of_In|done].
Qed.

Lemma position_item path id l :
  match position (fun item => match declaration_id path item with
                              | Ok i => String.eqb i id
                              | Err _ => false
                              end) l with
  | None => find_item id l = None
  | Some n => exists l1 w l2, l = l1 ++ w :: l2 /\ n = length l1 /\ item_id w = Some id /\ find_item id l1 = None
  end.
Proof.
  induction l as [|d l IH]; simpl; [done|]. rewrite declaration_id_item.
  assert (match ok_or (item_id d) (MkLoadError path DeclarationWithoutId) with
          | Ok i => String.eqb i id | Err _ => false end = bool_decide (item_id d = Some id)) as ->.
  { destruct (item_id d) as [i|]; simpl; [|done].
    destruct (String.eqb_spec i id); case_bool_decide; naive_solver. }
  unfold find_item; simpl. case_bool_decide as E; [by exists [], d, l|].
  destruct (position _ l) as [n|]; simpl; [|done].
  destruct IH as (l1 & w & l2 & -> & -> & Hw & Hf). exists (d :: l1), w, l2. repeat split; [done|].
  simpl. by rewrite bool_decide_eq_false_2.
Qed.

Lemma find_item_middle id l1 w l2 k : item_id w = Some id -> find_item id l1 = None ->
  find_item k (l1 ++ w :: l2) = if decide (k = id) then Some w else find_item k (l1 ++ l2).
Proof.
  intros Hw Hf. rewrite !find_item_app. case_decide as E; [subst; rewrite Hf|case_match; [done|]];
    unfold find_item; simpl.
  - by rewrite bool_decide_eq_true_2.
  - rewrite bool_decide_eq_false_2 by congruence. done.
Qed.

Lemma unique_middle l1 w l2 id : item_id w = Some id -> unique_ids (l1 ++ w :: l2) <->
  id ∉ omap item_id (l1 ++ l2) /\ unique_ids (l1 ++ l2).
Proof.
  intros Hw. unfold unique_ids. rewrite !omap_app. simpl. rewrite Hw.
  rewrite <- (Permutation_middle (omap item_id l1)). apply NoDup_cons.
Qed.

Section items.
Context `{MappingRemove} (path : string).

Lemma strip_id d v mg rm : distinct_keys d -> strip_directives path d = Ok (v, mg, rm) -> item_id v = item_id d.
Proof.
  intros Hd (_ & m & m1 & m2 & Hm & -> & E1 & E2 & _)%strip_directives_spec.
  unfold item_id, declaration_id. rewrite as_mapping_retag, Hm. simpl.
  destruct (distinct_as_mapping _ _ Hd Hm) as [Hn _].
  assert (map_get (YString "id") m2 = map_get (YString "id") m) as ->; [|done].
  assert (NoDup m1.*1) by (subst m1; destruct mg; [by apply map_remove_keys|done]).
  subst m2 m1. destruct rm, mg; rewrite ?map_get_remove by (try apply map_remove_keys; done);
    rewrite ?decide_False by done; done.
Qed.

Lemma merge_id v w u id : distinct_keys v -> merge_value path v w = Ok u -> item_id v = Some id ->
  item_id u = Some id.
Proof.
  intros Hd Hu Hi.
  pose proof (merge_value_overlaid _ _ _ _ [YString "id"] Hd Hu) as Ho.
  pose proof (merge_value_overlaid _ _ _ _ [] Hd Hu) as (u' & [= <-] & Hk & Hc). specialize (Hc w eq_refl).
  unfold item_id, declaration_id in *. unfold overlaid in Ho. simpl in Ho.
  destruct v as [| | | | |m|t v]; try done.
  unfold as_mapping in Hi. simpl in Hi. destruct (map_get (YString "id") m) as [s|] eqn:G; simpl in *; [|done].
  destruct u as [| | | | |mu|]; simpl in Hk; try done.
  destruct (map_get (YString "id") mu) as [su|] eqn:Gu; simpl in Ho; [|naive_solver].
  destruct Ho as (? & [= <-] & Hs & _). unfold as_mapping. simpl. rewrite Gu. simpl.
  destruct (is_mapping s) eqn:Es; [by destruct s|by subst].
Qed.

Lemma distinct_remove k m : distinct_keys (YMapping m) -> distinct_keys (YMapping (map_remove k m)).
Proof.
  intros [Hn Hf]%distinct_mapping. apply distinct_mapping. split; [by apply map_remove_keys|].
  rewrite map_remove_spec. apply Forall_forall. intros e He.
  by apply list_elem_of_In, filter_In, proj1, list_elem_of_In, (proj1 (Forall_forall _ _) Hf) in He.
Qed.

Lemma strip_distinct d v mg rm : distinct_keys d -> strip_directives path d = Ok (v, mg, rm) -> distinct_keys v.
Proof.
  intros Hd (_ & m & m1 & m2 & Hm & -> & E1 & E2 & _)%strip_directives_spec.
  apply distinct_retag. pose proof (distinct_as_mapping _ _ Hd Hm) as Hx.
  subst. destruct mg, rm; auto using distinct_remove.
Qed.

(** The three things an item can do to a list. *)
Inductive item_merged (id : string) (d : Yaml) : list Yaml -> list Yaml -> Prop :=
| item_removed v m l1 w l2 :
    strip_directives path d = Ok (v, false, true) -> as_mapping v = Some m -> bare_item m = true ->
    item_id w = Some id -> find_item id l1 = None -> item_merged id d (l1 ++ w :: l2) (l1 ++ l2)
| item_overlaid v l1 w l2 u :
    strip_directives path d = Ok (v, true, false) -> merge_value path v w = Ok u ->
    item_id w = Some id -> item_id u = Some id -> find_item id l1 = None ->
    item_merged id d (l1 ++ w :: l2) (l1 ++ u :: l2)
| item_added v t :
    strip_directives path d = Ok (v, false, false) -> item_id v = Some id -> find_item id t = None ->
    item_merged id d t (t ++ [v]).

Lemma merge_item_cases t d t' : distinct_keys d -> merge_item path t d = Ok t' ->
  exists id, item_id d = Some id /\ item_merged id d t t'.
Proof.
  intros Hd. unfold merge_item. intros ([[v mg] rm] & Hs & Hr)%result_bind_Ok.
  destruct (strip_directives_spec path _ _ _ _ Hs) as (Hx & m & m1 & m2 & _ & Hv & _).
  assert (as_mapping v = Some m2) as Ev by (subst v; apply as_mapping_retag). rewrite Ev in Hr. clear Hv.
  apply result_bind_Ok in Hr as (id & Hid & Hr). rewrite declaration_id_item in Hid.
  destruct (item_id v) as [i|] eqn:Ei; simpl in Hid; [injection Hid as ->|done].
  rewrite <- (strip_id d v mg rm Hd Hs), Ei. exists id. split; [done|]. simpl in Hr.
  pose proof (position_item path id t) as Hp. destruct (position _ t) as [n|].
  - destruct Hp as (l1 & w & l2 & -> & -> & Hw & Hf). destruct rm, mg; try done; simpl in Hr.
    + case_match eqn:En; [done|]. apply negb_false_iff in En. injection Hr as <-.
      rewrite delete_middle. by econstructor.
    + rewrite list_lookup_middle in Hr by done. apply result_bind_Ok in Hr as (u & Hm & [= <-]).
      rewrite insert_app_r_alt, Nat.sub_diag by lia. econstructor; try done.
      exact (merge_id _ _ _ _ (strip_distinct _ _ _ _ Hd Hs) Hm Ei).
  - destruct rm, mg; try done; simpl in Hr; [by destruct (negb _)|]. injection Hr as <-. by constructor.
Qed.

Lemma merge_item_spec t d t' : distinct_keys d -> unique_ids t -> merge_item path t d = Ok t' ->
  unique_ids t' /\ exists id o, item_id d = Some id /\ declares path bare_item (Some d) (find_item id t) o /\
    forall k, find_item k t' = if decide (k = id) then o else find_item k t.
Proof.
  intros Hd Ht (id & Hid & Hm)%merge_item_cases; [|done].
  destruct Hm as [v m l1 w l2 Hs Hv Hb Hw Hf|v l1 w l2 u Hs Hu Hw Hiu Hf|v t Hs Hv Hf].
  - destruct (proj1 (unique_middle _ _ _ _ Hw) Ht) as [Hni Hu].
    pose proof (proj2 (find_item_None id (l1 ++ l2)) Hni) as Hno. split; [done|]. exists id, None.
    rewrite (find_item_middle id), decide_True by done. repeat split; [done|by econstructor|].
    intros k. rewrite (find_item_middle id l1 w l2) by done. case_decide; by subst.
  - pose proof (proj1 (unique_middle _ _ _ _ Hw) Ht) as Hun. split; [by apply (unique_middle _ _ _ _ Hiu)|]. exists id, (Some u).
    rewrite (find_item_middle id), decide_True by done. repeat split; [done|by econstructor|].
    intros k. rewrite !(find_item_middle id) by done. by case_decide.
  - split.
    + unfold unique_ids. rewrite (unique_middle t v [] id) by done. rewrite app_nil_r. split; [|done].
      by apply find_item_None.
    + exists id, (Some v). rewrite Hf. repeat split; [done|by econstructor|]. intros k.
      rewrite (find_item_middle id t v []), app_nil_r by done. done.
Qed.

(** Without distinct ids: an id that is not named stays, and one named by an item that
    is not a removal is there. *)
Lemma merge_item_ids t d t' id : distinct_keys d -> merge_item path t d = Ok t' ->
  (item_id d <> Some id -> id ∈ omap item_id t -> id ∈ omap item_id t') /\
  (item_id d = Some id -> directive_is_true d "remove" = false -> id ∈ omap item_id t').
Proof.
  intros Hd (i & Hid & Hm)%merge_item_cases; [|done]. rewrite Hid.
  destruct Hm as [v m l1 w l2 Hs Hv Hb Hw Hf|v l1 w l2 u Hs Hu Hw Hiu Hf|v t Hs Hv Hf]; rewrite !omap_app; simpl.
  - rewrite Hw. split; [set_solver|]. intros [= ->] Hr. exfalso.
    apply strip_directives_spec in Hs as (_ & m' & ? & ? & Hm' & _ & -> & _ & _ & Hg). simpl in Hg.
    unfold directive_is_true in Hr. rewrite Hm' in Hr. simpl in Hr. by rewrite Hg in Hr.
  - rewrite Hw, Hiu. set_solver.
  - rewrite Hv. set_solver.
Qed.

(** Lists of declarations merge by id. *)
Lemma merge_items_find t i t' : Forall distinct_keys i -> unique_ids t -> unique_ids i ->
  merge_items path t i = Ok t' ->
  unique_ids t' /\ forall id, declares path bare_item (find_item id i) (find_item id t) (find_item id t').
Proof.
  revert t. induction i as [|d i IH]; simpl; intros t Hd Ht Hi.
  - intros [= ->]. split; [done|]. intros id. constructor.
  - apply Forall_cons in Hd as [Hd Hds]. intros (t1 & Hm & Hr)%result_bind_Ok.
    apply merge_item_spec in Hm as (Ht1 & id & o & Hid & Ho & Hk); [|done|done].
    apply (unique_middle [] d i id Hid) in Hi as [Hn Hi].
    destruct (IH t1 Hds Ht1 Hi Hr) as [Ht' Hg]. split; [done|]. intros k. specialize (Hg k).
    pose proof (find_item_middle id [] d i k Hid eq_refl) as Hf. simpl in Hf. rewrite Hf, Hk in *. clear Hf. case_decide as E; [subst|done].
    apply find_item_None in Hn. simpl in Hn. rewrite Hn in Hg. by inversion Hg; subst.
Qed.
End items.

(** * Merging whole configuration documents: each section of the result from that
      section of the two documents, and the origins kept with it. *)

(** * Distinct keys are kept *)

Lemma distinct_mapping_get m :
  distinct_keys (YMapping m) <-> NoDup m.*1 /\ forall k v, map_get k m = Some v -> distinct_keys v.
Proof.
  split; [intros Hd; split; [by apply distinct_mapping in Hd as [? _]|intros k v; by apply distinct_get]|].
  intros [Hn Hg]. apply distinct_mapping. split; [done|]. apply Forall_forall. intros [k v] Hin.
  by apply (Hg k), map_get_elem.
Qed.

Lemma distinct_sequence l : distinct_keys (YSequence l) <-> Forall distinct_keys l.
Proof. simpl. induction l as [|v l IH]; [by rewrite Forall_nil|]. by rewrite Forall_cons, IH. Qed.

Lemma distinct_as_sequence v l : distinct_keys v -> as_sequence v = Some l -> Forall distinct_keys l.
Proof.
  intros Hv%distinct_untag Hm. apply distinct_sequence. unfold as_sequence in Hm. destruct (untag v); naive_solver.
Qed.

Lemma distinct_insert k v m :
  distinct_keys (YMapping m) -> distinct_keys v -> distinct_keys (YMapping (map_insert k v m)).
Proof.
  rewrite !distinct_mapping_get. intros [Hn Hg] Hv. split; [by apply map_insert_keys|].
  intros k' v'. rewrite map_get_insert. case_decide; naive_solver.
Qed.

Lemma merge_entries_keys path i b m : merge_entries path i b = Ok m -> NoDup b.*1 -> NoDup m.*1.
Proof.
  revert b. induction i as [|[k v] i IH]; simpl; intros b; [by intros [= ->]|].
  intros (b' & (u & _ & ->)%merge_entry_spec & Hm)%result_bind_Ok Hb. eapply IH; [done|].
  by apply map_insert_keys.
Qed.

Lemma merge_value_distinct path incoming base r : distinct_keys incoming -> distinct_keys base ->
  merge_value path incoming base = Ok r -> distinct_keys r.
Proof.
  revert base r. induction incoming as [v Hl|i IH] using yaml_mapping_ind; intros base r Hi Hb Hr.
  - rewrite merge_value_leaf in Hr by (destruct v; naive_solver). destruct (compatible v base); naive_solver.
  - destruct base as [| | | | |b|]; try done. rewrite merge_value_mapping in Hr.
    apply result_bind_Ok in Hr as (m & Hm & [= <-]).
    apply distinct_mapping_get in Hi as [Hn Hi], Hb as [Hnb Hb]. apply distinct_mapping_get.
    split; [by eapply merge_entries_keys|]. intros k u Hk.
    pose proof (merge_entries_get path i b m Hn Hm k) as Ho. rewrite Hk in Ho.
    destruct (map_get k i) as [v|] eqn:Gi, (map_get k b) as [w|] eqn:Gb; simplify_eq/=; eauto.
    apply result_bind_Ok in Ho as (u' & Hu & [= <-]). pose proof Gi as Hin%map_get_elem; [|done].
    exact (proj1 (Forall_forall _ _) IH _ Hin w u' (Hi _ _ Gi) (Hb _ _ Gb) Hu).
Qed.

Section document.
Context `{MappingRemove} (path : string).

Lemma declares_distinct bare i b o : declares path bare i b o ->
  (forall d, i = Some d -> distinct_keys d) -> (forall d, b = Some d -> distinct_keys d) ->
  forall d, o = Some d -> distinct_keys d.
Proof.
  destruct 1 as [b|d v m w Hs|d v w u Hs Hu|d v Hs]; intros Hi Hb d' E; simplify_eq; eauto.
  - eapply merge_value_distinct; [by eapply strip_distinct, Hs; auto| |done]. by apply Hb.
  - eapply strip_distinct, Hs. by apply Hi.
Qed.

Lemma merge_declarations_distinct t i t' : distinct_keys (YMapping t) -> distinct_keys (YMapping i) ->
  merge_declarations path t i = Ok t' -> distinct_keys (YMapping t').
Proof.
  rewrite !distinct_mapping_get. intros [Hn Ht] [Hni Hi] Hm.
  apply merge_declarations_get in Hm as [Hn' Hg]; [|done|done]. split; [done|]. intros k v Hk.
  eapply (declares_distinct _ _ _ _ (Hg k)); eauto.
Qed.

Lemma merge_items_distinct t i t' : Forall distinct_keys t -> Forall distinct_keys i ->
  merge_items path t i = Ok t' -> Forall distinct_keys t'.
Proof.
  revert t. induction i as [|d i IH]; simpl; intros t Ht Hi; [by intros [= ->]|].
  apply Forall_cons in Hi as [Hd Hi]. intros (t1 & Hm & Hr)%result_bind_Ok. eapply (IH t1); [|done..]. clear IH Hr.
  unfold merge_item in Hm. apply result_bind_Ok in Hm as ([[v mg] rm] & Hs & Hm).
  apply (strip_distinct path) in Hs; [|done]. apply result_bind_Ok in Hm as (id & _ & Hm).
  case_match; [done|]. case_match; destruct mg, rm; simplify_eq; try by apply Forall_delete.
  - case_match eqn:El; [|by simplify_eq]. apply result_bind_Ok in Hm as (u & Hu & [= <-]).
    apply Forall_insert; [done|]. eapply merge_value_distinct; [exact Hs| |exact Hu].
    exact (Forall_lookup_1 _ _ _ _ Ht El).
  - apply Forall_app. by repeat constructor.
Qed.

(** * Sections *)

(** What a section of the result is, from that section of the two documents. *)
Definition section_value (additive : bool) (key v : Yaml) (entry : option Yaml) : Result Yaml LoadError :=
  let name := default "" (as_str key) in
  if member name NAMED_MAPS then
    let? incoming := ok_or (as_mapping v) (MkLoadError path CollectionNotMapping) in
    let old := default (YMapping []) entry in
    let? target := ok_or (as_mapping old) (MkLoadError path CollectionTypeChanged) in
    let? target := merge_declarations path target incoming in
    Ok (retag old (YMapping target))
  else if member name NAMED_SEQUENCES then
    let? incoming := ok_or (as_sequence v) (MkLoadError path CollectionNotList) in
    if negb (additive || existsb has_directive incoming)
    then
      if is_some_and entry (fun v => negb (is_some (as_sequence v)))
      then Err (MkLoadError path ValueTypeChanged) else Ok (YSequence incoming)
    else
      let old := default (YSequence []) entry in
      let? target := ok_or (as_sequence old) (MkLoadError path CollectionTypeChanged) in
      let? target := merge_items path target incoming in
      Ok (retag old (YSequence target))
  else match entry with Some w => merge_value path v w | None => Ok v end.

Lemma merge_section_value additive b key v :
  merge_section path additive b key v =
  let? u := section_value additive key v (map_get key b) in Ok (map_insert key u b).
Proof.
  unfold merge_section, section_value, merge_named_map, merge_named_sequence, merge_entry.
  repeat first [done|case_match; simpl|destruct (ok_or _ _); simpl
               |destruct (merge_declarations _ _ _); simpl|destruct (merge_items _ _ _); simpl].
Qed.

Lemma merge_sections_get additive b i m : NoDup i.*1 -> merge_sections path additive b i = Ok m ->
  forall key, match map_get key i with
              | None => map_get key m = map_get key b
              | Some v => exists u, section_value additive key v (map_get key b) = Ok u /\ map_get key m = Some u
              end.
Proof.
  revert b. induction i as [|[k v] i IH]; simpl; intros b Hd; [by intros [= ->]|].
  apply NoDup_cons in Hd as [Hn Hd]. intros (b' & Hb & Hm)%result_bind_Ok key.
  rewrite merge_section_value in Hb. apply result_bind_Ok in Hb as (u & Hu & [= <-]).
  specialize (IH _ Hd Hm key). rewrite map_get_insert in IH. case_decide as E; [subst|done].
  apply map_get_None in Hn. rewrite Hn in IH. eauto.
Qed.

Lemma merge_sections_keys additive b i m : merge_sections path additive b i = Ok m -> NoDup b.*1 -> NoDup m.*1.
Proof.
  revert b. induction i as [|[k v] i IH]; simpl; intros b; [by intros [= ->]|].
  intros (b' & Hb & Hm)%result_bind_Ok Hn. rewrite merge_section_value in Hb.
  apply result_bind_Ok in Hb as (u & _ & [= <-]). eapply IH; [done|]. by apply map_insert_keys.
Qed.

Lemma section_value_distinct additive key v entry u :
  distinct_keys v -> (forall w, entry = Some w -> distinct_keys w) ->
  section_value additive key v entry = Ok u -> distinct_keys u.
Proof.
  intros Hv He. unfold section_value. case_match; [|case_match].
  - intros (i & Hi & (t & Ht & (t' & Hm & [= <-])%result_bind_Ok)%result_bind_Ok)%result_bind_Ok.
    destruct (as_mapping v) eqn:Ei; simplify_eq/=. destruct (as_mapping _) eqn:Et in Ht; simplify_eq/=.
    apply distinct_retag. eapply merge_declarations_distinct; [| |done].
    + eapply distinct_as_mapping; [|done]. destruct entry; simpl; [by apply He|by split; [constructor|]].
    + by eapply distinct_as_mapping.
  - intros (i & Hi & Hr)%result_bind_Ok. destruct (as_sequence v) eqn:Ei; simplify_eq/=.
    pose proof (distinct_as_sequence _ _ Hv Ei) as Hf. case_match.
    + case_match; simplify_eq. by apply distinct_sequence.
    + apply result_bind_Ok in Hr as (t & Ht & (t' & Hm & [= <-])%result_bind_Ok).
      destruct (as_sequence _) eqn:Et in Ht; simplify_eq/=. apply distinct_retag, distinct_sequence.
      eapply merge_items_distinct; [|done|done]. eapply distinct_as_sequence; [|done].
      destruct entry; simpl; [by apply He|done].
  - destruct entry as [w|]; [|naive_solver]. intros Hm. eapply merge_value_distinct; [done| |done]. by apply He.
Qed.
End document.

(** * Documents *)

Definition root_of (v : Yaml) : Mapping := default [] (as_mapping v).
Definition declared (v : Yaml) (section : string) (id : Yaml) : option Yaml :=
  map_get id (section_map (root_of v) section).
Definition listed (v : Yaml) (section : string) : list Yaml := section_list (root_of v) section.
Definition has_section (v : Yaml) (section : string) : bool := map_has (YString section) (root_of v).

(** What a declaration asks for: [merge] or [remove], and the fields that are left
    when the two directives are taken away. *)
Definition asks (d : Yaml) (merge remove : bool) (v : Yaml) : Prop :=
  exists m fields, as_mapping d = Some m /\ as_mapping v = Some fields /\
    map_get (YString "merge") m = (if merge then Some (YBool true) else None) /\
    map_get (YString "remove") m = (if remove then Some (YBool true) else None) /\
    forall k, map_get k fields =
      if decide (k = YString "merge" \/ k = YString "remove") then None else map_get k m.

(** What becomes of the declaration of an id: nothing is said of it, it is removed by
    one that says nothing else, the fields of the incoming one are laid over it, or it
    is new. *)
Inductive redeclared (bare : Mapping -> bool) : option Yaml -> option Yaml -> option Yaml -> Prop :=
| redeclared_kept b : redeclared bare None b b
| redeclared_removed d v m w :
    asks d false true v -> as_mapping v = Some m -> bare m = true -> redeclared bare (Some d) (Some w) None
| redeclared_overlaid d v w u :
    asks d true false v -> (forall p, overlaid p v w u) -> redeclared bare (Some d) (Some w) (Some u)
| redeclared_new d v : asks d false false v -> redeclared bare (Some d) None (Some v).

(** What one item of an incoming list does to a list: the first item of its id is taken
    out or has the fields laid over it where it stands, and a new one goes to the end,
    which needs an id the list does not have. *)
Inductive item_applied (d : Yaml) : list Yaml -> list Yaml -> Prop :=
| applied_removed id v m l1 w l2 :
    item_id d = Some id -> asks d false true v -> as_mapping v = Some m -> bare_item m = true ->
    item_id w = Some id -> find_item id l1 = None -> item_applied d (l1 ++ w :: l2) (l1 ++ l2)
| applied_overlaid id v l1 w l2 u :
    item_id d = Some id -> asks d true false v -> (forall p, overlaid p v w u) ->
    item_id w = Some id -> find_item id l1 = None -> item_applied d (l1 ++ w :: l2) (l1 ++ u :: l2)
| applied_added id v t :
    item_id d = Some id -> asks d false false v -> find_item id t = None -> item_applied d t (t ++ [v]).

(** The items of a list, one after the other. *)
Inductive items_applied : list Yaml -> list Yaml -> list Yaml -> Prop :=
| items_done t : items_applied [] t t
| items_next d i t t1 t2 : item_applied d t t1 -> items_applied i t1 t2 -> items_applied (d :: i) t t2.

(** What becomes of a section that is neither a named map nor a named list. *)
Definition section_overlaid (incoming base r : option Yaml) : Prop :=
  match incoming, base with
  | None, _ => r = base
  | Some v, None => r = Some v
  | Some v, Some w => exists u, r = Some u /\ forall p, overlaid p v w u
  end.

Record document_overlaid (additive : bool) (incoming base r : Yaml) : Prop := {
  (** named declarations: removed, overlaid, new, or as they were *)
  do_maps : forall s id, s ∈ NAMED_MAPS ->
    redeclared bare_declaration (declared incoming s id) (declared base s id) (declared r s id);
  (** lists: kept where the overlay has none, replaced where no item has a directive,
      and otherwise changed item by item *)
  do_lists_kept : forall s, s ∈ NAMED_SEQUENCES -> has_section incoming s = false -> listed r s = listed base s;
  do_lists_replaced : forall s, s ∈ NAMED_SEQUENCES -> has_section incoming s = true ->
    additive || existsb has_directive (listed incoming s) = false -> listed r s = listed incoming s;
  do_lists_applied : forall s, s ∈ NAMED_SEQUENCES -> has_section incoming s = true ->
    additive || existsb has_directive (listed incoming s) = true ->
    items_applied (listed incoming s) (listed base s) (listed r s);
  (** which is a merge by id where the ids of either list are distinct *)
  do_lists_merged : forall s, s ∈ NAMED_SEQUENCES -> has_section incoming s = true ->
    additive || existsb has_directive (listed incoming s) = true ->
    unique_ids (listed base s) -> unique_ids (listed incoming s) ->
    unique_ids (listed r s) /\
    forall id, redeclared bare_item (find_item id (listed incoming s)) (find_item id (listed base s))
                 (find_item id (listed r s));
  (** every other section: the overlay of the two values, path by path *)
  do_others : forall key, member (default "" (as_str key)) (NAMED_MAPS ++ NAMED_SEQUENCES) = false ->
    section_overlaid (map_get key (root_of incoming)) (map_get key (root_of base)) (map_get key (root_of r));
}.

Lemma member_spec s l : member s l = true <-> s ∈ l.
Proof.
  unfold member. rewrite existsb_exists. setoid_rewrite String.eqb_eq. setoid_rewrite <- list_elem_of_In.
  naive_solver.
Qed.

Lemma sequence_not_map s : s ∈ NAMED_SEQUENCES -> member s NAMED_MAPS = false.
Proof. intros Hs. repeat (apply elem_of_cons in Hs as [->|Hs]; [done|]). by apply elem_of_nil in Hs. Qed.

Section documents.
Context `{MappingRemove} (path : string) (additive : bool).

Lemma strip_asks d v mg rm : distinct_keys d -> strip_directives path d = Ok (v, mg, rm) -> asks d mg rm v.
Proof.
  intros Hd (_ & m & m1 & m2 & Hm & -> & E1 & E2 & Gm & Gr)%strip_directives_spec.
  destruct (distinct_as_mapping _ _ Hd Hm) as [Hn _].
  assert (NoDup m1.*1) as Hn1 by (subst m1; destruct mg; [by apply map_remove_keys|done]).
  assert (forall k, map_get k m1 = if decide (k = YString "merge") then None else map_get k m) as H1.
  { intros k. subst m1. destruct mg; [by apply map_get_remove|]. case_decide; by subst. }
  assert (forall k, map_get k m2 = if decide (k = YString "remove") then None else map_get k m1) as H2.
  { intros k. subst m2. destruct rm; [by apply map_get_remove|]. case_decide; by subst. }
  exists m, m2. rewrite as_mapping_retag. repeat split; [done|done| |].
  - rewrite <- Gr, H1. by rewrite decide_False.
  - intros k. rewrite H2, H1. repeat case_decide; naive_solver.
Qed.

Lemma declares_redeclared bare i b o : (forall d, i = Some d -> distinct_keys d) ->
  declares path bare i b o -> redeclared bare i b o.
Proof.
  intros Hi. destruct 1 as [b|d v m w Hs Hv Hb|d v w u Hs Hu|d v Hs]; [constructor|..];
    pose proof (Hi d eq_refl) as Hd; pose proof (strip_asks _ _ _ _ Hd Hs); [by econstructor| |by econstructor].
  econstructor; [done|]. intros p. eapply merge_value_overlaid; [|done]. by eapply strip_distinct.
Qed.

Lemma merge_item_applied t d t' : distinct_keys d -> merge_item path t d = Ok t' -> item_applied d t t'.
Proof.
  intros Hd (id & Hid & Hm)%merge_item_cases; [|done].
  destruct Hm as [v m l1 w l2 Hs|v l1 w l2 u Hs Hu|v t Hs]; pose proof (strip_asks _ _ _ _ Hd Hs);
    [by eapply applied_removed| |by eapply applied_added].
  eapply applied_overlaid; [done|done| |done|done]. intros p. eapply merge_value_overlaid; [|done].
  by eapply strip_distinct.
Qed.

Lemma merge_items_applied t i t' : Forall distinct_keys i -> merge_items path t i = Ok t' -> items_applied i t t'.
Proof.
  revert t. induction i as [|d i IH]; simpl; intros t Hi; [intros [= ->]; constructor|].
  apply Forall_cons in Hi as [Hd Hi]. intros (t1 & Hm & Hr)%result_bind_Ok.
  econstructor; [by apply merge_item_applied|by apply IH].
Qed.

Lemma merge_option_overlaid i b o : (forall v, i = Some v -> distinct_keys v) ->
  merge_option path i b = Ok o -> section_overlaid i b o.
Proof.
  intros Hi. unfold merge_option, section_overlaid. destruct i as [v|]; [|by intros [= ->]].
  destruct b as [w|]; [|by intros [= <-]]. intros (u & Hu & [= <-])%result_bind_Ok. exists u. split; [done|].
  intros p. eapply merge_value_overlaid; [by apply Hi|done].
Qed.

Lemma find_item_distinct id l : Forall distinct_keys l -> forall d, find_item id l = Some d -> distinct_keys d.
Proof. intros Hl d [Hin _]%find_item_some. by eapply Forall_forall. Qed.

Lemma section_map_distinct i s : distinct_keys (YMapping i) -> distinct_keys (YMapping (section_map i s)).
Proof.
  intros Hi. unfold section_map. destruct (map_get (YString s) i) as [v|] eqn:G; simpl; [|by repeat constructor].
  destruct (as_mapping v) eqn:E; simpl; [|by repeat constructor].
  eapply distinct_as_mapping; [by eapply distinct_get|done].
Qed.

Lemma merge_document_spec base incoming r : merge_document path base incoming additive = Ok r ->
  exists i b m, as_mapping incoming = Some i /\ as_mapping base = Some b /\ as_mapping r = Some m /\
    merge_sections path additive b i = Ok m /\ r = retag base (YMapping m).
Proof.
  unfold merge_document. destruct (as_mapping incoming) as [i|], (as_mapping base) as [b|]; simpl; try done.
  intros (m & Hm & [= <-])%result_bind_Ok. exists i, b, m. repeat split; try done. apply as_mapping_retag.
Qed.

Lemma section_map_get root s v m : map_get (YString s) root = Some v -> as_mapping v = Some m -> section_map root s = m.
Proof. unfold section_map. intros -> Hm. simpl. by rewrite Hm. Qed.
Lemma section_list_get root s v l : map_get (YString s) root = Some v -> as_sequence v = Some l -> section_list root s = l.
Proof. unfold section_list. intros -> Hm. simpl. by rewrite Hm. Qed.

Lemma section_maps b i m s id : distinct_keys (YMapping b) -> distinct_keys (YMapping i) ->
  merge_sections path additive b i = Ok m -> s ∈ NAMED_MAPS ->
  declares path bare_declaration (map_get id (section_map i s)) (map_get id (section_map b s))
    (map_get id (section_map m s)).
Proof.
  intros Hb Hi Hm Hs%member_spec. pose proof (merge_sections_get path additive b i m) as Hg.
  apply distinct_mapping_get in Hi as [Hn Hi], Hb as [_ Hb]. specialize (Hg Hn Hm (YString s)).
  destruct (map_get (YString s) i) as [v|] eqn:Gi.
  - destruct Hg as (u & Hu & Gm). unfold section_value in Hu. change (default "" (as_str (YString s))) with s in Hu. rewrite Hs in Hu.
    apply result_bind_Ok in Hu as (i' & Hi' & (t & Ht & (t' & Hm' & [= <-])%result_bind_Ok)%result_bind_Ok).
    destruct (as_mapping v) eqn:Ei; simplify_eq/=. destruct (as_mapping _) eqn:Et in Ht; simplify_eq/=.
    rewrite (section_map_get _ _ _ _ Gi Ei), (section_map_get _ _ _ _ Gm (as_mapping_retag _ _)).
    assert (section_map b s = t /\ distinct_keys (YMapping t)) as [-> [Ht _]%distinct_mapping].
    { destruct (map_get (YString s) b) as [w|] eqn:Gb; simpl in Et.
      - split; [by apply (section_map_get _ _ w)|]. eapply distinct_as_mapping; [|done]. eauto.
      - injection Et as <-. unfold section_map. rewrite Gb. repeat split; constructor. }
    apply merge_declarations_get in Hm' as [_ Hd]; [apply Hd|done|].
    eapply distinct_as_mapping in Ei as [? _]%distinct_mapping; [done|]. eauto.
  - unfold section_map. rewrite Hg, Gi. simpl. constructor.
Qed.

Lemma section_items b i m s : merge_sections path additive b i = Ok m -> NoDup i.*1 -> s ∈ NAMED_SEQUENCES ->
  if map_has (YString s) i
  then if additive || existsb has_directive (section_list i s)
       then merge_items path (section_list b s) (section_list i s) = Ok (section_list m s)
       else section_list m s = section_list i s
  else section_list m s = section_list b s.
Proof.
  intros Hm Hn Hs. pose proof (merge_sections_get path additive b i m Hn Hm (YString s)) as Hg.
  unfold map_has. destruct (map_get (YString s) i) as [v|] eqn:Gi; simpl; [|unfold section_list; by rewrite Hg].
  destruct Hg as (u & Hu & Gm). unfold section_value in Hu.
  change (default "" (as_str (YString s))) with s in Hu.
  rewrite (sequence_not_map s Hs), (proj2 (member_spec _ _) Hs) in Hu.
  apply result_bind_Ok in Hu as (l & Hl & Hu). destruct (as_sequence v) eqn:Ei; simplify_eq/=.
  rewrite (section_list_get _ _ _ _ Gi Ei). destruct (additive || existsb has_directive l); simpl in Hu.
  - apply result_bind_Ok in Hu as (t & Ht & (t' & Hm' & [= <-])%result_bind_Ok).
    destruct (as_sequence _) eqn:Et in Ht; simplify_eq/=.
    rewrite (section_list_get _ _ _ _ Gm (as_sequence_retag _ _)).
    assert (section_list b s = t) as ->; [|done].
    destruct (map_get (YString s) b) as [w|] eqn:Gb; simpl in Et; [by apply (section_list_get _ _ w)|].
    injection Et as <-. unfold section_list. by rewrite Gb.
  - case_match; simplify_eq. by apply (section_list_get _ _ (YSequence l)).
Qed.

Lemma section_list_distinct i s : distinct_keys (YMapping i) -> Forall distinct_keys (section_list i s).
Proof.
  intros [_ Hi]%distinct_mapping_get. unfold section_list. destruct (map_get (YString s) i) as [v|] eqn:G; simpl; [|done].
  destruct (as_sequence v) eqn:E; simpl; [|done]. eapply distinct_as_sequence; [by eapply Hi|done].
Qed.

Lemma section_others b i m key : merge_sections path additive b i = Ok m -> NoDup i.*1 ->
  member (default "" (as_str key)) (NAMED_MAPS ++ NAMED_SEQUENCES) = false ->
  merge_option path (map_get key i) (map_get key b) = Ok (map_get key m).
Proof.
  intros Hm Hn Hk. pose proof (merge_sections_get path additive b i m Hn Hm key) as Hg.
  unfold member in Hk. rewrite existsb_app in Hk. apply orb_false_iff in Hk as [H1 H2].
  destruct (map_get key i) as [v|]; [|simpl; by rewrite Hg].
  destruct Hg as (u & Hu & ->). unfold section_value, member in Hu. rewrite H1, H2 in Hu.
  destruct (map_get key b) as [w|]; simpl; [by rewrite Hu|by simplify_eq].
Qed.

Lemma merge_document_distinct base incoming r : distinct_keys base -> distinct_keys incoming ->
  merge_document path base incoming additive = Ok r -> distinct_keys r.
Proof.
  intros Hb Hi (i & b & m & Ei & Eb & Er & Hm & ->)%merge_document_spec. apply distinct_retag.
  apply (distinct_as_mapping _ _) in Ei; [|done]. apply (distinct_as_mapping _ _) in Eb; [|done].
  apply distinct_mapping_get in Ei as [Hni Hvi], Eb as [Hnb Hvb]. apply distinct_mapping_get.
  split; [by eapply merge_sections_keys|]. intros k u Hk.
  pose proof (merge_sections_get path additive b i m Hni Hm k) as Hg. destruct (map_get k i) as [v|] eqn:Gi.
  - destruct Hg as (u' & Hu & Hk'). rewrite Hk in Hk'. injection Hk' as <-.
    eapply section_value_distinct; [by eapply Hvi| |done]. eauto.
  - rewrite Hk in Hg. by eapply Hvb.
Qed.

(** [C20] Merging a document into another keeps the keys of every mapping distinct and
    treats each section on its own.  In the named maps the declaration of an id is
    removed by one that says nothing but [remove], has the fields of one that says
    [merge] laid over it, is the incoming one where there was none, or is left alone.  A
    named list the incoming document lacks is kept; one of which no item has a directive
    replaces the old one, unless documents are added up; and any other goes into the old
    one item by item, in order: the first item of its id is taken out or overlaid in
    place, and an item of a new id goes to the end.  Where both lists have distinct ids
    that is a merge by id, and the ids stay distinct.  Every other section is the
    overlay of the two values, and an overlay has at every path what the incoming value
    has there, if anything, and what was there before otherwise, and changes no kind. *)
Theorem merge_document_refines (base incoming r : Yaml) :
  distinct_keys base -> distinct_keys incoming -> merge_document path base incoming additive = Ok r ->
  distinct_keys r /\ document_overlaid additive incoming base r.
Proof.
  intros Hb Hi Hr. split; [exact (merge_document_distinct _ _ _ Hb Hi Hr)|].
  destruct (merge_document_spec _ _ _ Hr) as (i & b & m & Ei & Eb & Er & Hm & _).
  pose proof (distinct_as_mapping _ _ Hi Ei) as Hdi. pose proof (distinct_as_mapping _ _ Hb Eb) as Hdb.
  destruct (proj1 (distinct_mapping _) Hdi) as [Hdn _].
  split; unfold declared, listed, has_section, root_of; rewrite ?Ei, ?Eb, ?Er; simpl.
  - intros s id Hs. apply declares_redeclared; [|by apply section_maps].
    intros d. apply distinct_get. by apply section_map_distinct.
  - intros s Hs Hh. pose proof (section_items b i m s Hm Hdn Hs) as Hx. by rewrite Hh in Hx.
  - intros s Hs Hh Hp. pose proof (section_items b i m s Hm Hdn Hs) as Hx. by rewrite Hh, Hp in Hx.
  - intros s Hs Hh Hp. pose proof (section_items b i m s Hm Hdn Hs) as Hx. rewrite Hh, Hp in Hx.
    apply merge_items_applied; [by apply section_list_distinct|done].
  - intros s Hs Hh Hp Hub Hui. pose proof (section_items b i m s Hm Hdn Hs) as Hx. rewrite Hh, Hp in Hx.
    pose proof (section_list_distinct i s Hdi) as Hli.
    apply (merge_items_find path) in Hx as [Hu Hx]; [|done|done|done]. split; [done|]. intros id.
    apply declares_redeclared; [by apply find_item_distinct|apply Hx].
  - intros key Hk. apply merge_option_overlaid; [|by apply section_others]. intros v. by apply distinct_get.
Qed.
End documents.

(** An overlay that removes one upstream and merges into another. *)
Definition sample_base : Yaml :=
  YMapping [(YString "upstreams", YMapping [(YString "a", YMapping [(YString "url", YString "x")]);
                                            (YString "b", YMapping [(YString "url", YString "y")])])].
Definition sample_overlay : Yaml :=
  YMapping [(YString "upstreams", YMapping [(YString "a", YMapping [(YString "remove", YBool true)]);
                                            (YString "b", YMapping [(YString "merge", YBool true); (YString "url", YString "z")])])].
Definition sample_merged : Yaml :=
  YMapping [(YString "upstreams", YMapping [(YString "b", YMapping [(YString "url", YString "z")])])].

Ltac decide_distinct := vm_compute; repeat split; apply (bool_decide_unpack _); vm_compute; exact I.

Lemma merge_document_refines_witness :
  @merge_document sample_remove "p" sample_base sample_overlay false = Ok sample_merged /\
  declared sample_merged "upstreams" (YString "a") = None.
Proof.
  assert (@merge_document sample_remove "p" sample_base sample_overlay false = Ok sample_merged) as Hm
    by (vm_compute; reflexivity).
  split; [exact Hm|].
  destruct (@merge_document_refines sample_remove "p" false sample_base sample_overlay sample_merged
    ltac:(decide_distinct) ltac:(decide_distinct) Hm) as [_ Ho].
  pose proof (do_maps _ _ _ _ Ho "upstreams" (YString "a") ltac:(set_solver)) as Hd.
  inversion Hd; subst; vm_compute; reflexivity.
Defined.
