(* ===== verification/Presets.v ===== *)
(** The presets a configuration can import (crates/pooler-config/src/loader.rs): each is a
    built-in document whose listeners, upstreams and routes are renamed under an alias
    and whose fields the parameters of the import set.  The texts of the documents and
    the provider catalog are parameters. *)
From S2P Require Import Prelude Str Loader.

Open Scope N_scope.

(** * Imports and what the presets read *)

Record ImportSpec := MkImport {
  is_file : option string;
  is_overlay : option string;
  is_preset : option string;
  is_alias : option string;
  is_parameters : gmap string Yaml;
}.

(** The part of a provider of the catalog that the gateway preset looks at. *)
Record Integration := MkIntegration {
  in_request_dialect : string;
  in_discovery_path : option string;
  in_endpoint_families : list string;
}.

(** The YAML parser, the deserialisation of import specifications,
    [path.parent().unwrap_or(".").join(relative)], the texts of the built-in presets, and
    [ProviderCatalog::builtin().get]. *)
Class ConfigSyntax := {
  yaml_parse : string -> Result Yaml (N * N * string);
  import_specs : Yaml -> Result (list ImportSpec) string;
  parent_join : string -> string -> string;
  preset_text : string -> string;
  provider_integration : string -> option Integration;
}.

(** * Changes inside a document *)

Inductive Step := Key (k : string) | First.

Definition preset_error (path message : string) : LoadError := MkLoadError path (PresetInvalid message).

(** [get_mut], [first_mut], [as_mapping_mut] and [as_sequence_mut] down a path, then a
    change of what is there; [e] is the error where the path does not exist. *)
Fixpoint edit_at (p : list Step) (e : LoadError) (f : Yaml -> Result Yaml LoadError) (v : Yaml)
  : Result Yaml LoadError :=
  match p with
  | [] => f v
  | Key k :: p =>
    match as_mapping v with
    | None => Err e
    | Some m =>
      match map_get (YString k) m with
      | None => Err e
      | Some w => let? w := edit_at p e f w in Ok (retag v (YMapping (map_insert (YString k) w m)))
      end
    end
  | First :: p =>
    match as_sequence v with
    | Some (w :: l) => let? w := edit_at p e f w in Ok (retag v (YSequence (w :: l)))
    | _ => Err e
    end
  end.

Definition edit_mapping (e : LoadError) (f : Mapping -> Result Mapping LoadError) (v : Yaml) : Result Yaml LoadError :=
  let? m := ok_or (as_mapping v) e in
  let? m := f m in Ok (retag v (YMapping m)).

Definition edit_sequence (e : LoadError) (f : list Yaml -> Result (list Yaml) LoadError) (v : Yaml)
  : Result Yaml LoadError :=
  let? l := ok_or (as_sequence v) e in
  let? l := f l in Ok (retag v (YSequence l)).

Definition insert_string (field value : string) (m : Mapping) : Mapping := map_insert (YString field) (YString value) m.
Definition get_str (field : string) (m : Mapping) : option string := v ← map_get (YString field) m; as_str v.

(** A loop over a list with an index, where each turn may fail. *)
Fixpoint try_imap (n : nat) (f : nat -> Yaml -> Result Yaml LoadError) (l : list Yaml) : Result (list Yaml) LoadError :=
  match l with
  | [] => Ok []
  | v :: l => let? v := f n v in let? l := try_imap (S n) f l in Ok (v :: l)
  end.

Section presets.
Context `{MappingRemove, ConfigSyntax}.

(** * Helpers *)

Definition unknown_preset_parameter (path key : string) : LoadError :=
  preset_error path ("unknown preset parameter `" +:+ key +:+ "`").

Definition string_value (value : Yaml) (path preset : string) : Result string LoadError :=
  ok_or (as_str value) (preset_error path (preset +:+ " preset parameters must be strings")).

(** The loop over the keys of the parameters that every preset starts with. *)
Definition check_parameters (import : ImportSpec) (path : string) (known : list string) : Result unit LoadError :=
  match List.find (fun key => negb (member key known)) (btree_keys String.compare (is_parameters import)) with
  | Some key => Err (unknown_preset_parameter path key)
  | None => Ok tt
  end.

Definition alias_char (c : N) : bool :=
  char_is_ascii_alphanumeric c || (c =? 0x2E) || (c =? 0x5F) || (c =? 0x2D).
Definition check_alias (alias path : string) : Result unit LoadError :=
  if str_is_empty alias || negb (forallb alias_char (chars alias))
  then Err (preset_error path "invalid preset alias") else Ok tt.

Definition builtin_preset (name path : string) : Result Yaml LoadError :=
  map_err (fun e => preset_error path ("invalid built-in " +:+ name +:+ " preset: " +:+ e.2)) (yaml_parse (preset_text name)).

Definition rename_named_key (section old new path : string) (root : Yaml) : Result Yaml LoadError :=
  edit_at [Key section] (preset_error path "preset section is invalid")
    (edit_mapping (preset_error path "preset section is invalid") (fun m =>
       let? value := ok_or (map_get (YString old) m) (preset_error path "preset declaration is missing") in
       Ok (map_insert (YString new) value (map_remove (YString old) m)))) root.

Definition named_declaration_mut (section id path : string) (f : Mapping -> Result Mapping LoadError) (root : Yaml)
  : Result Yaml LoadError :=
  let e := preset_error path "preset declaration is invalid" in
  edit_at [Key section; Key id] e (edit_mapping e f) root.

Definition set_named_field (section id field value path : string) (root : Yaml) : Result Yaml LoadError :=
  named_declaration_mut section id path (fun m => Ok (insert_string field value m)) root.

Definition first_route_mut (path : string) (f : Mapping -> Result Mapping LoadError) (root : Yaml) : Result Yaml LoadError :=
  let e := preset_error path "preset route is invalid" in
  edit_at [Key "routes"; First] e (edit_mapping e f) root.

Definition set_cursor_transform_parameter (field value path : string) (root : Yaml) : Result Yaml LoadError :=
  let e := preset_error path "cursor preset transform is invalid" in
  first_route_mut path (fun route =>
    match map_get (YString "request") route with
    | None => Err e
    | Some request =>
      let? request := edit_at [Key "steps"; First; Key "with"] e
                        (edit_mapping e (fun m => Ok (insert_string field value m))) request in
      Ok (map_insert (YString "request") request route)
    end) root.

(** [if let Some(value) = import.parameters.get(key)]. *)
Definition when_parameter (import : ImportSpec) (key : string) (f : Yaml -> Yaml -> Result Yaml LoadError) (root : Yaml)
  : Result Yaml LoadError :=
  match is_parameters import !! key with
  | Some value => f value root
  | None => Ok root
  end.

Definition set_parameter (import : ImportSpec) (key section id field preset path : string) (root : Yaml)
  : Result Yaml LoadError :=
  when_parameter import key (fun value root =>
    let? s := string_value value path preset in set_named_field section id field s path root) root.

(** The secret goes into the declared [auth] of an upstream, which must be there. *)
Definition auth_error (path preset : string) : LoadError := preset_error path (preset +:+ " preset auth is invalid").
Definition set_secret (upstream preset path : string) (secret : Result string LoadError) (root : Yaml)
  : Result Yaml LoadError :=
  named_declaration_mut "upstreams" upstream path (fun m =>
    match map_get (YString "auth") m with
    | None => Err (auth_error path preset)
    | Some auth =>
      let? auth := edit_mapping (auth_error path preset) (fun a =>
        let? s := secret in Ok (insert_string "secret" s a)) auth in
      Ok (map_insert (YString "auth") auth m)
    end) root.

(** ... or is added when it is not. *)
Definition set_or_add_secret (upstream preset path : string) (secret : Result string LoadError) (root : Yaml)
  : Result Yaml LoadError :=
  named_declaration_mut "upstreams" upstream path (fun m =>
    let? auth := edit_mapping (auth_error path preset) (fun a =>
      let? s := secret in Ok (insert_string "secret" s a))
      (default (YMapping []) (map_get (YString "auth") m)) in
    Ok (map_insert (YString "auth") auth m)) root.

(** * Routes *)

Definition edit_routes (preset path : string) (f : list Yaml -> Result (list Yaml) LoadError) (root : Yaml)
  : Result Yaml LoadError :=
  let e := preset_error path (preset +:+ " preset routes are invalid") in
  edit_at [Key "routes"] e (edit_sequence e f) root.

(** What every loop over routes does first: a new id, by the old one, and the listener. *)
Definition rename_route (preset alias path : string) (new_id : string -> string)
    (f : Mapping -> Result Mapping LoadError) (route : Yaml) : Result Yaml LoadError :=
  edit_mapping (preset_error path (preset +:+ " preset route is invalid")) (fun m =>
    let? route_id := ok_or (get_str "id" m) (preset_error path (preset +:+ " preset route ID is missing")) in
    f (insert_string "listen" alias (insert_string "id" (new_id route_id) m))) route.

Definition prefixed (alias route_id : string) : string := alias +:+ "-" +:+ route_id.

(** [rewrite_factory_routes] and [rewrite_fx_routes]: a target that names the preset is
    renamed, any other is left alone. *)
Definition rewrite_own_routes (preset alias path : string) (root : Yaml) : Result Yaml LoadError :=
  edit_routes preset path (try_imap 0 (fun _ => rename_route preset alias path (prefixed alias) (fun m =>
    match map_get (YString "target") m with
    | Some (YMapping target) =>
      if bool_decide (get_str "provider" target = Some preset)
      then Ok (map_insert (YString "target") (YMapping (insert_string "provider" alias target)) m) else Ok m
    | _ => Ok m
    end))) root.
Definition rewrite_factory_routes : string -> string -> Yaml -> Result Yaml LoadError := rewrite_own_routes "factory".
Definition rewrite_fx_routes : string -> string -> Yaml -> Result Yaml LoadError := rewrite_own_routes "fx".

(** The target of a route, which must be a mapping. *)
Definition edit_target (preset path : string) (f : Mapping -> Result Mapping LoadError) (m : Mapping)
  : Result Mapping LoadError :=
  let e := preset_error path (preset +:+ " preset target is invalid") in
  match map_get (YString "target") m with
  | None => Err e
  | Some target => let? target := edit_mapping e f target in Ok (map_insert (YString "target") target m)
  end.

Definition rewrite_media_routes (alias path : string) (root : Yaml) : Result Yaml LoadError :=
  edit_routes "media" path (try_imap 0 (fun _ => rename_route "media" alias path (prefixed alias)
    (edit_target "media" path (fun target =>
       if bool_decide (get_str "provider" target = Some "media")
       then Ok (insert_string "provider" alias target)
       else Err (preset_error path "media preset target provider is invalid"))))) root.

Definition rewrite_xai_routes (alias rest_alias websocket_alias path : string) (root : Yaml) : Result Yaml LoadError :=
  edit_routes "xai" path (try_imap 0 (fun _ => rename_route "xai" alias path (prefixed alias)
    (edit_target "xai" path (fun target =>
       let? provider := ok_or (get_str "provider" target) (preset_error path "xai preset target provider is missing") in
       if String.eqb provider "xai-rest" then Ok (insert_string "provider" rest_alias target)
       else if String.eqb provider "xai-websocket" then Ok (insert_string "provider" websocket_alias target)
       else Err (preset_error path "xai preset target provider is invalid"))))) root.

Definition rewrite_gateway_routes (alias websocket_alias path : string) (root : Yaml) : Result Yaml LoadError :=
  let renamed name e : Result string LoadError :=
    if String.eqb name "gateway" then Ok alias
    else if String.eqb name "gateway-websocket" then Ok websocket_alias
    else Err (preset_error path e) in
  edit_routes "gateway" path (try_imap 0 (fun _ => rename_route "gateway" alias path (prefixed alias)
    (edit_target "gateway" path (fun target =>
       let? provider := ok_or (get_str "provider" target)
                          (preset_error path "gateway preset target provider is missing") in
       let? provider := renamed provider "gateway preset target provider is invalid" in
       let target := insert_string "provider" provider target in
       match get_str "transport_upstream" target with
       | None => Ok target
       | Some transport =>
         let? transport := renamed transport "gateway preset transport_upstream is invalid" in
         Ok (insert_string "transport_upstream" transport target)
       end)))) root.

Definition rewrite_devin_routes (alias path : string) (root : Yaml) : Result Yaml LoadError :=
  edit_routes "devin" path (try_imap 0 (fun index =>
    rename_route "devin" alias path
      (fun route_id => if (index =? 0)%nat then prefixed alias "route" else prefixed alias route_id) (fun m =>
      match map_get (YString "target") m with
      | Some (YString name) =>
        if String.eqb name "upstream" then Ok (map_insert (YString "target") (YString alias) m) else Ok m
      | Some (YMapping target) =>
        if bool_decide (get_str "provider" target = Some "upstream")
        then Ok (map_insert (YString "target") (YMapping (insert_string "provider" alias target)) m) else Ok m
      | _ => Ok m
      end))) root.

(** * The surface of the gateway *)

Inductive GatewaySurface := Dialect (dialect : string) | Discovery (discovery : string).

Definition GATEWAY_ROUTE_SURFACE : list (string * GatewaySurface * string) :=
  [("models", Discovery "/v1/models", "models");
   ("chat-completions", Dialect "openai", "chat_completions");
   ("completions", Dialect "openai", "completions");
   ("embeddings", Dialect "openai", "embeddings");
   ("files-list", Dialect "openai", "files");
   ("files-create", Dialect "openai", "files");
   ("files-content", Dialect "openai", "files");
   ("files-resource", Dialect "openai", "files");
   ("batches-list", Dialect "openai", "batches");
   ("batches-create", Dialect "openai", "batches");
   ("batches-cancel", Dialect "openai", "batches");
   ("batches-resource", Dialect "openai", "batches");
   ("responses", Dialect "openai", "responses");
   ("responses-compact", Dialect "openai", "responses_compact");
   ("image-generations", Dialect "openai", "image_generations");
   ("image-edits", Dialect "openai", "image_edits");
   ("audio-transcriptions", Dialect "openai", "audio_transcriptions");
   ("video-creations", Dialect "openai", "video_creations");
   ("video-edits", Dialect "openai", "video_edits");
   ("video-extensions", Dialect "openai", "video_extensions");
   ("video-remixes", Dialect "openai", "video_remixes");
   ("video-retrieval", Dialect "openai", "video_retrieval");
   ("video-content", Dialect "openai", "video_content");
   ("video-deletions", Dialect "openai", "video_deletions");
   ("responses-websocket", Dialect "openai", "responses");
   ("realtime-client-secrets", Dialect "openai", "realtime_client_secrets");
   ("realtime-sessions", Dialect "openai", "realtime_sessions");
   ("realtime-transcription-sessions", Dialect "openai", "realtime_transcription_sessions");
   ("realtime-calls-accept", Dialect "openai", "realtime_calls");
   ("realtime-calls-reject", Dialect "openai", "realtime_calls");
   ("realtime-calls-refer", Dialect "openai", "realtime_calls");
   ("realtime-calls-hangup", Dialect "openai", "realtime_calls");
   ("realtime-websocket", Dialect "openai", "realtime");
   ("messages", Dialect "anthropic", "messages");
   ("messages-count-tokens", Dialect "anthropic", "messages");
   ("gemini-models", Discovery "/v1beta/models", "models");
   ("gemini-model-get", Discovery "/v1beta/models", "models");
   ("gemini-model-actions", Dialect "gemini", "generate_content");
   ("gemini-interactions-v1-create", Dialect "gemini", "interactions");
   ("gemini-interactions-v1-resources", Dialect "gemini", "interactions");
   ("gemini-interactions-v1-cancel", Dialect "gemini", "interactions");
   ("gemini-interactions-v1beta-create", Dialect "gemini", "interactions");
   ("gemini-interactions-v1beta-resources", Dialect "gemini", "interactions");
   ("gemini-interactions-v1beta-cancel", Dialect "gemini", "interactions");
   ("gemini-interactions-v1beta2-create", Dialect "gemini", "interactions");
   ("gemini-interactions-v1beta2-resources", Dialect "gemini", "interactions");
   ("gemini-interactions-v1beta2-cancel", Dialect "gemini", "interactions")].

Definition route_id_of (route : Yaml) : option string := m ← as_mapping route; get_str "id" m.

(** Whether the provider serves a route: an error is recorded and the route stays. *)
Definition serves_route (integration : Integration) (route : Yaml) : Result bool string :=
  let? id := ok_or (route_id_of route) "gateway preset route ID is missing" in
  let? (surface, family) :=
    ok_or (e ← List.find (fun e => String.eqb e.1.1 id) GATEWAY_ROUTE_SURFACE; Some (e.1.2, e.2))
      "gateway preset route is not classified" in
  let serves_surface :=
    match surface with
    | Dialect dialect => String.eqb dialect (in_request_dialect integration)
    | Discovery discovery => bool_decide (in_discovery_path integration = Some discovery)
    end in
  Ok (serves_surface && existsb (String.eqb family) (in_endpoint_families integration)).

Definition stays (r : Result bool string) : bool := match r with Ok b => b | Err _ => true end.
Definition last_failure (l : list (Result bool string)) : option string :=
  last (omap (fun r => match r with Ok _ => None | Err e => Some e end) l).

Definition retain_supported_gateway_routes (provider_id path : string) (root : Yaml) : Result Yaml LoadError :=
  let? integration := ok_or (provider_integration provider_id)
    (preset_error path ("gateway preset provider `" +:+ provider_id
                        +:+ "` is not a provider Pooler ships an endpoint for")) in
  edit_routes "gateway" path (fun routes =>
    let retained := List.filter (fun route => stays (serves_route integration route)) routes in
    match last_failure (map (serves_route integration) routes) with
    | Some message => Err (preset_error path message)
    | None =>
      match retained with
      | [] => Err (preset_error path ("gateway preset provider `" +:+ provider_id
                                      +:+ "` documents no mountable endpoint family"))
      | _ => Ok retained
      end
    end) root.

(** [iter_mut().find(..)] and a change of the item found. *)
Fixpoint edit_found (p : Yaml -> bool) (f : Yaml -> Result Yaml LoadError) (l : list Yaml) : Result (list Yaml) LoadError :=
  match l with
  | [] => Ok []
  | v :: l => if p v then let? v := f v in Ok (v :: l) else let? l := edit_found p f l in Ok (v :: l)
  end.

Definition set_codecs (section decoder encoder path : string) (route : Mapping) : Result Mapping LoadError :=
  let e := preset_error path "gateway Responses codecs are invalid" in
  match map_get (YString section) route with
  | None => Err e
  | Some v =>
    let? v := edit_mapping e (fun m => Ok (insert_string "encoder" encoder (insert_string "decoder" decoder m))) v in
    Ok (map_insert (YString section) v route)
  end.

Definition configure_gateway_responses_codecs (provider_id path : string) (root : Yaml) : Result Yaml LoadError :=
  edit_routes "gateway" path (edit_found (fun route => bool_decide (route_id_of route = Some "responses")) (fun route =>
    if String.eqb provider_id "openai" then Ok route
    else if negb (String.eqb provider_id "xai")
    then Err (preset_error path ("gateway preset provider `" +:+ provider_id
                +:+ "` does not support Pooler's semantic Responses WebSocket transport"))
    else
      edit_mapping (preset_error path "gateway preset route is invalid") (fun m =>
        let? m := set_codecs "ingress" "decode.xai.responses" "encode.xai.responses" path m in
        set_codecs "response" "decode.xai.responses.events" "encode.xai.responses.events" path m) route)) root.

(** * The presets *)

Definition alias_or (import : ImportSpec) (preset : string) : string := default preset (is_alias import).

Definition expand_cursor_preset (import : ImportSpec) (path : string) : Result Yaml LoadError :=
  let alias := alias_or import "cursor" in
  let? _ := check_alias alias path in
  let? _ := check_parameters import path ["bind"; "reasoning_effort"; "model_prefix"; "upstream_url"; "secret"] in
  let? preset := builtin_preset "cursor" path in
  let? preset := rename_named_key "listeners" "listener" alias path preset in
  let? preset := rename_named_key "upstreams" "upstream" alias path preset in
  let? preset := first_route_mut path (fun m =>
    edit_target "cursor" path (fun target => Ok (insert_string "provider" alias target))
      (insert_string "listen" alias (insert_string "id" (prefixed alias "route") m))) preset in
  let? preset := set_parameter import "bind" "listeners" alias "bind" "cursor" path preset in
  let? preset := set_parameter import "upstream_url" "upstreams" alias "url" "cursor" path preset in
  let? preset := when_parameter import "secret" (fun value =>
    set_secret alias "cursor" path (string_value value path "cursor")) preset in
  let? preset := when_parameter import "reasoning_effort" (fun value root =>
    let? s := string_value value path "cursor" in set_cursor_transform_parameter "value" s path root) preset in
  when_parameter import "model_prefix" (fun value root =>
    let? s := string_value value path "cursor" in set_cursor_transform_parameter "prefix" s path root) preset.

(** The body of the factory, fx and media presets, after their checks. *)
Definition expand_single (preset alias path : string) (import : ImportSpec)
    (rewrite : Yaml -> Result Yaml LoadError) : Result Yaml LoadError :=
  let? root := builtin_preset preset path in
  let? root := rename_named_key "listeners" preset alias path root in
  let? root := rename_named_key "upstreams" preset alias path root in
  let? root := rewrite root in
  let? root := set_parameter import "bind" "listeners" alias "bind" preset path root in
  let? root := set_parameter import "upstream_url" "upstreams" alias "url" preset path root in
  when_parameter import "secret" (fun value => set_or_add_secret alias preset path (string_value value path preset)) root.

Definition expand_checked (preset : string) (import : ImportSpec) (path : string) (known : list string)
    (k : string -> Result Yaml LoadError) : Result Yaml LoadError :=
  let? _ := check_parameters import path known in
  let alias := alias_or import preset in
  let? _ := check_alias alias path in
  k alias.

Definition SINGLE_PARAMETERS : list string := ["bind"; "upstream_url"; "secret"].

Definition expand_factory_preset (import : ImportSpec) (path : string) : Result Yaml LoadError :=
  expand_checked "factory" import path SINGLE_PARAMETERS (fun alias =>
    expand_single "factory" alias path import (rewrite_factory_routes alias path)).
Definition expand_fx_preset (import : ImportSpec) (path : string) : Result Yaml LoadError :=
  expand_checked "fx" import path SINGLE_PARAMETERS (fun alias =>
    expand_single "fx" alias path import (rewrite_fx_routes alias path)).
Definition expand_media_preset (import : ImportSpec) (path : string) : Result Yaml LoadError :=
  expand_checked "media" import path SINGLE_PARAMETERS (fun alias =>
    expand_single "media" alias path import (rewrite_media_routes alias path)).

Definition expand_gateway_preset (import : ImportSpec) (path : string) : Result Yaml LoadError :=
  expand_checked "gateway" import path ["bind"; "provider"; "upstream_url"; "websocket_url"; "secret"] (fun alias =>
    let? preset := builtin_preset "gateway" path in
    let? provider_id :=
      match is_parameters import !! "provider" with
      | Some value => string_value value path "gateway"
      | None => Ok "openai"
      end in
    let? preset := retain_supported_gateway_routes provider_id path preset in
    let? preset := configure_gateway_responses_codecs provider_id path preset in
    let websocket_alias := alias +:+ "-websocket" in
    let? preset := rename_named_key "listeners" "gateway" alias path preset in
    let? preset := rename_named_key "upstreams" "gateway-websocket" websocket_alias path preset in
    let? preset := rename_named_key "upstreams" "gateway" alias path preset in
    let? preset := rewrite_gateway_routes alias websocket_alias path preset in
    let? preset := set_parameter import "bind" "listeners" alias "bind" "gateway" path preset in
    let? preset := when_parameter import "provider" (fun value root =>
      let? provider := string_value value path "gateway" in
      let? root := set_named_field "upstreams" alias "known_provider" provider path root in
      set_named_field "upstreams" websocket_alias "known_provider" provider path root) preset in
    let? preset := set_parameter import "upstream_url" "upstreams" alias "url" "gateway" path preset in
    let? preset := set_parameter import "websocket_url" "upstreams" websocket_alias "url" "gateway" path preset in
    when_parameter import "secret" (fun value root =>
      let? secret := string_value value path "gateway" in
      let? root := set_secret alias "gateway" path (Ok secret) root in
      set_secret websocket_alias "gateway" path (Ok secret) root) preset).

Definition expand_xai_preset (import : ImportSpec) (path : string) : Result Yaml LoadError :=
  expand_checked "xai" import path ["bind"; "rest_url"; "websocket_url"; "secret"] (fun alias =>
    let? preset := builtin_preset "xai" path in
    let rest_alias := alias +:+ "-rest" in
    let websocket_alias := alias +:+ "-websocket" in
    let? preset := rename_named_key "listeners" "xai" alias path preset in
    let? preset := rename_named_key "upstreams" "xai-rest" rest_alias path preset in
    let? preset := rename_named_key "upstreams" "xai-websocket" websocket_alias path preset in
    let? preset := rewrite_xai_routes alias rest_alias websocket_alias path preset in
    let? preset := set_parameter import "bind" "listeners" alias "bind" "xai" path preset in
    let? preset := set_parameter import "rest_url" "upstreams" rest_alias "url" "xai" path preset in
    let? preset := set_parameter import "websocket_url" "upstreams" websocket_alias "url" "xai" path preset in
    when_parameter import "secret" (fun value root =>
      let? secret := string_value value path "xai" in
      let? root := set_secret rest_alias "xai" path (Ok secret) root in
      set_secret websocket_alias "xai" path (Ok secret) root) preset).

Definition expand_devin_preset (import : ImportSpec) (path : string) : Result Yaml LoadError :=
  let? _ := check_parameters import path SINGLE_PARAMETERS in
  let? preset := builtin_preset "devin" path in
  let alias := alias_or import "devin" in
  let? _ := check_alias alias path in
  let? preset := rename_named_key "listeners" "listener" alias path preset in
  let? preset := rename_named_key "upstreams" "upstream" alias path preset in
  let? preset := rewrite_devin_routes alias path preset in
  let? preset := first_route_mut path (fun m =>
    edit_target "devin" path (fun target => Ok (insert_string "provider" alias target))
      (insert_string "listen" alias (insert_string "id" (prefixed alias "route") m))) preset in
  let? preset := set_parameter import "bind" "listeners" alias "bind" "devin" path preset in
  let? preset := set_parameter import "upstream_url" "upstreams" alias "url" "devin" path preset in
  when_parameter import "secret" (fun value =>
    set_secret alias "devin" path (string_value value path "devin")) preset.

Definition SUPPORTED_PRESETS : list string := ["cursor"; "devin"; "factory"; "fx"; "gateway"; "media"; "xai"].

(** The arms of the match of [expand_preset]. *)
Definition preset_arms : list (string * (ImportSpec -> string -> Result Yaml LoadError)) :=
  [("cursor", expand_cursor_preset); ("devin", expand_devin_preset); ("factory", expand_factory_preset);
   ("fx", expand_fx_preset); ("gateway", expand_gateway_preset); ("media", expand_media_preset);
   ("xai", expand_xai_preset)].

Definition expand_preset (import : ImportSpec) (path : string) : Result Yaml LoadError :=
  match name ← is_preset import; List.find (fun e => String.eqb e.1 name) preset_arms with
  | Some (_, expand) => expand import path
  | None =>
    Err (preset_error path "unknown preset; expected cursor, devin, factory, fx, gateway, media, or xai")
  end.
End presets.
