(* ===== verification/PresetFacts.v ===== *)
(** What the expansion of a preset does to its built-in document: no key comes twice,
    and every route is moved under the alias. *)
From S2P Require Import Prelude Str Loader LoaderFacts Presets.

Open Scope N_scope.

(** Splits a chain of fallible steps. *)
Ltac steps H := repeat (let x := fresh "x" in let E := fresh "E" in apply result_bind_Ok in H as (x & E & H)).

(** * Changes keep the keys of mappings distinct *)

(** A change that keeps distinct keys where it succeeds. *)
Definition keeps_distinct (f : Yaml -> Result Yaml LoadError) : Prop :=
  forall v w, distinct_keys v -> f v = Ok w -> distinct_keys w.
Definition keeps_mapping (f : Mapping -> Result Mapping LoadError) : Prop :=
  forall m m', distinct_keys (YMapping m) -> f m = Ok m' -> distinct_keys (YMapping m').
Definition keeps_list (f : list Yaml -> Result (list Yaml) LoadError) : Prop :=
  forall l l', Forall distinct_keys l -> f l = Ok l' -> Forall distinct_keys l'.

Lemma keeps_edit_at p e f : keeps_distinct f -> keeps_distinct (edit_at p e f).
Proof.
  intros Hf. induction p as [|[k|] p IH]; [done|..]; intros v w Hv; simpl.
  - destruct (as_mapping v) as [m|] eqn:Em; [|done]. destruct (map_get (YString k) m) as [u|] eqn:G; [|done].
    intros (u' & Hu & [= <-])%result_bind_Ok. pose proof (distinct_as_mapping _ _ Hv Em) as Hm.
    apply distinct_retag, distinct_insert; [done|]. eapply IH, Hu. by eapply distinct_get.
  - destruct (as_sequence v) as [[|u l]|] eqn:El; try done. intros (u' & Hu & [= <-])%result_bind_Ok.
    apply (distinct_as_sequence _ _ Hv), Forall_cons in El as [Hu0 Hl].
    apply distinct_retag, distinct_sequence. constructor; [|done]. by eapply IH, Hu.
Qed.

Lemma keeps_edit_mapping e f : keeps_mapping f -> keeps_distinct (edit_mapping e f).
Proof.
  intros Hf v w Hv. unfold edit_mapping. intros (m & Hm & (m' & Hm' & [= <-])%result_bind_Ok)%result_bind_Ok.
  destruct (as_mapping v) eqn:Em; simplify_eq/=. eapply distinct_retag, Hf, Hm'. by eapply distinct_as_mapping.
Qed.

Lemma keeps_edit_sequence e f : keeps_list f -> keeps_distinct (edit_sequence e f).
Proof.
  intros Hf v w Hv. unfold edit_sequence. intros (l & Hl & (l' & Hl' & [= <-])%result_bind_Ok)%result_bind_Ok.
  destruct (as_sequence v) eqn:El; simplify_eq/=.
  eapply distinct_retag, distinct_sequence, Hf, Hl'. by eapply distinct_as_sequence.
Qed.

Lemma keeps_imap n f : (forall n, keeps_distinct (f n)) -> keeps_list (try_imap n f).
Proof.
  intros Hf l. revert n. induction l as [|v l IH]; intros n l' Hl; simpl; [by intros [= <-]|].
  apply Forall_cons in Hl as [Hv Hl]. intros (w & Hw & (l1 & Hl1 & [= <-])%result_bind_Ok)%result_bind_Ok.
  constructor; [by eapply Hf|by eapply IH].
Qed.

Lemma keeps_found p f : keeps_distinct f -> keeps_list (edit_found p f).
Proof.
  intros Hf l. induction l as [|v l IH]; intros l' Hl; simpl; [by intros [= <-]|].
  apply Forall_cons in Hl as [Hv Hl]. case_match; intros (w & Hw & [= <-])%result_bind_Ok; constructor; eauto.
Qed.

Lemma distinct_insert_string field s m : distinct_keys (YMapping m) -> distinct_keys (YMapping (insert_string field s m)).
Proof. intros Hm. by apply distinct_insert. Qed.

(** A change of what one key holds. *)
Lemma keeps_under k v w m : distinct_keys (YMapping m) -> map_get k m = Some v ->
  (distinct_keys v -> distinct_keys w) -> distinct_keys (YMapping (map_insert k w m)).
Proof. intros Hm Hg Hw. apply distinct_insert; [done|]. eapply Hw, distinct_get; eauto. Qed.

Section distinct.
Context `{MappingRemove, ConfigSyntax}.
Hypothesis parse_distinct : forall text v, yaml_parse text = Ok v -> distinct_keys v.

Lemma keeps_rename section old new path : keeps_distinct (rename_named_key section old new path).
Proof.
  apply keeps_edit_at, keeps_edit_mapping. intros m m' Hm (v & Hv & [= <-])%result_bind_Ok.
  destruct (map_get (YString old) m) eqn:G; simplify_eq/=.
  apply distinct_insert; [by apply distinct_remove|by eapply distinct_get].
Qed.

Lemma keeps_declaration section id path f : keeps_mapping f -> keeps_distinct (named_declaration_mut section id path f).
Proof. intros Hf. by apply keeps_edit_at, keeps_edit_mapping. Qed.

Lemma keeps_field section id field value path : keeps_distinct (set_named_field section id field value path).
Proof. apply keeps_declaration. intros m m' Hm [= <-]. by apply distinct_insert_string. Qed.

Lemma keeps_first path f : keeps_mapping f -> keeps_distinct (first_route_mut path f).
Proof. intros Hf. by apply keeps_edit_at, keeps_edit_mapping. Qed.

Lemma keeps_when import key f : (forall value, keeps_distinct (f value)) -> keeps_distinct (when_parameter import key f).
Proof. intros Hf v w Hv. unfold when_parameter. case_match; [by eapply Hf|by intros [= <-]]. Qed.

Lemma keeps_parameter import key section id field preset path :
  keeps_distinct (set_parameter import key section id field preset path).
Proof.
  apply keeps_when. intros value v w Hv (s & _ & Hs)%result_bind_Ok. by eapply keeps_field.
Qed.

Lemma keeps_insert_secret e secret : keeps_distinct (edit_mapping e (fun a =>
  let? s := secret in Ok (insert_string "secret" s a))).
Proof. apply keeps_edit_mapping. intros m m' Hm (s & _ & [= <-])%result_bind_Ok. by apply distinct_insert_string. Qed.

Lemma keeps_secret upstream preset path secret : keeps_distinct (set_secret upstream preset path secret).
Proof.
  apply keeps_declaration. intros m m' Hm. case_match eqn:G; [|done].
  intros (a & Ha & [= <-])%result_bind_Ok. eapply keeps_under; [done..|]. intros Hy. by eapply keeps_insert_secret in Ha.
Qed.

Lemma keeps_or_add_secret upstream preset path secret : keeps_distinct (set_or_add_secret upstream preset path secret).
Proof.
  apply keeps_declaration. intros m m' Hm (a & Ha & [= <-])%result_bind_Ok. apply distinct_insert; [done|].
  eapply keeps_insert_secret, Ha. destruct (map_get _ m) eqn:G; simpl; [by eapply distinct_get|by repeat constructor].
Qed.

Lemma keeps_routes preset path f : keeps_list f -> keeps_distinct (edit_routes preset path f).
Proof. intros Hf. by apply keeps_edit_at, keeps_edit_sequence. Qed.

Lemma keeps_rename_route preset alias path new_id f : keeps_mapping f ->
  keeps_distinct (rename_route preset alias path new_id f).
Proof.
  intros Hf. apply keeps_edit_mapping. intros m m' Hm (id & _ & Hr)%result_bind_Ok.
  eapply Hf, Hr. by do 2 apply distinct_insert_string.
Qed.

Lemma keeps_target preset path f : keeps_mapping f -> keeps_mapping (edit_target preset path f).
Proof.
  intros Hf m m' Hm. unfold edit_target. case_match eqn:G; [|done]. intros (t & Ht & [= <-])%result_bind_Ok.
  eapply keeps_under; [done..|]. intros Hy. by eapply keeps_edit_mapping in Ht.
Qed.

Lemma keeps_own_target alias (b : Mapping -> bool) : keeps_mapping (fun m =>
  match map_get (YString "target") m with
  | Some (YMapping target) =>
    if b target then Ok (map_insert (YString "target") (YMapping (insert_string "provider" alias target)) m) else Ok m
  | _ => Ok m
  end).
Proof.
  intros m m' Hm. case_match eqn:G; [case_match; subst|]; try by intros [= <-].
  case_match; intros [= <-]; [|done]. eapply keeps_under; [done..|]. apply distinct_insert_string.
Qed.

Lemma keeps_retain provider path : keeps_distinct (retain_supported_gateway_routes provider path).
Proof.
  intros v w Hv (i & _ & Hr)%result_bind_Ok. eapply keeps_routes, Hr; [|done]. intros l l' Hl.
  case_match; [done|]. destruct (List.filter _ l) as [|x k] eqn:Ef; [done|]. intros [= <-]. rewrite <- Ef.
  apply Forall_forall. intros r [Hin%list_elem_of_In _]%list_elem_of_In%filter_In.
  by apply (proj1 (Forall_forall _ _) Hl).
Qed.

Lemma keeps_codecs section decoder encoder path : keeps_mapping (set_codecs section decoder encoder path).
Proof.
  intros m m' Hm. unfold set_codecs. case_match eqn:G; [|done]. intros (t & Ht & [= <-])%result_bind_Ok.
  eapply keeps_under; [done..|]. intros Hy. eapply keeps_edit_mapping, Ht; [|done].
  intros a a' Ha [= <-]. by do 2 apply distinct_insert_string.
Qed.

Lemma keeps_configure provider path : keeps_distinct (configure_gateway_responses_codecs provider path).
Proof.
  apply keeps_routes, keeps_found. intros v w Hv. case_match; [by intros [= <-]|]. case_match; [done|].
  apply keeps_edit_mapping; [|done]. intros m m' Hm (m1 & Hm1 & Hm2)%result_bind_Ok.
  eapply keeps_codecs, Hm2. by eapply keeps_codecs.
Qed.

Lemma keeps_own_routes preset alias path : keeps_distinct (rewrite_own_routes preset alias path).
Proof. apply keeps_routes, keeps_imap. intros _. apply keeps_rename_route, keeps_own_target. Qed.

Lemma keeps_media_routes alias path : keeps_distinct (rewrite_media_routes alias path).
Proof.
  apply keeps_routes, keeps_imap. intros _. apply keeps_rename_route, keeps_target. intros m m' Hm.
  case_match; intros [= <-]. by apply distinct_insert_string.
Qed.

Lemma keeps_xai_routes alias rest ws path : keeps_distinct (rewrite_xai_routes alias rest ws path).
Proof.
  apply keeps_routes, keeps_imap. intros _. apply keeps_rename_route, keeps_target. intros m m' Hm.
  intros (p & _ & Hr)%result_bind_Ok. repeat case_match; simplify_eq; by apply distinct_insert_string.
Qed.

Lemma keeps_gateway_routes alias ws path : keeps_distinct (rewrite_gateway_routes alias ws path).
Proof.
  apply keeps_routes, keeps_imap. intros _. apply keeps_rename_route, keeps_target. intros m m' Hm.
  intros (p & _ & (q & _ & Hr)%result_bind_Ok)%result_bind_Ok. cbv zeta in Hr. case_match.
  - apply result_bind_Ok in Hr as (t & _ & [= <-]). by do 2 apply distinct_insert_string.
  - injection Hr as <-. by apply distinct_insert_string.
Qed.

Lemma keeps_devin_routes alias path : keeps_distinct (rewrite_devin_routes alias path).
Proof.
  apply keeps_routes, keeps_imap. intros n. apply keeps_rename_route. intros m m' Hm.
  case_match eqn:G; [case_match|]; try (by intros [= <-]); case_match; intros [= <-]; try done.
  - by apply distinct_insert.
  - subst. eapply keeps_under; [done..|]. apply distinct_insert_string.
Qed.

Lemma keeps_first_target preset alias path : keeps_distinct (first_route_mut path (fun m =>
  edit_target preset path (fun target => Ok (insert_string "provider" alias target))
    (insert_string "listen" alias (insert_string "id" (prefixed alias "route") m)))).
Proof.
  apply keeps_first. intros m m' Hm Hr. eapply keeps_target, Hr; [|by do 2 apply distinct_insert_string].
  intros t t' Ht [= <-]. by apply distinct_insert_string.
Qed.

Lemma keeps_transform field value path : keeps_distinct (set_cursor_transform_parameter field value path).
Proof.
  apply keeps_first. intros m m' Hm. case_match eqn:G; [|done]. intros (t & Ht & [= <-])%result_bind_Ok.
  eapply keeps_under; [done..|]. intros Hy. eapply keeps_edit_at, Ht; [|done]. apply keeps_edit_mapping.
  intros a a' Ha [= <-]. by apply distinct_insert_string.
Qed.

(** Goes through the steps of an expansion from the last. *)
Ltac keeps :=
  repeat match goal with
  | |- keeps_distinct (when_parameter _ _ _) => apply keeps_when; intros ?
  | |- keeps_distinct (fun _ => result_bind _ _) => let Hr := fresh in intros ? ? ? Hr; steps Hr
  | E : ?f ?u = Ok ?v |- distinct_keys ?v =>
    apply (fun Hk : keeps_distinct f => fun Hu => Hk u v Hu E); [|clear E]
  | |- _ => first [apply keeps_rename|apply keeps_field|apply keeps_parameter|apply keeps_secret|apply keeps_or_add_secret
                  |apply keeps_retain|apply keeps_configure|apply keeps_own_routes|apply keeps_media_routes
                  |apply keeps_xai_routes|apply keeps_gateway_routes|apply keeps_devin_routes|apply keeps_first_target
                  |apply keeps_transform|assumption]
  end.

Lemma builtin_distinct name path v : builtin_preset name path = Ok v -> distinct_keys v.
Proof. intros Hv%map_err_Ok. by eapply parse_distinct. Qed.

Lemma preset_distinct import path v : expand_preset import path = Ok v -> distinct_keys v.
Proof.
  unfold expand_preset. destruct (is_preset import ≫= _) as [[name' expand]|] eqn:Ef; [|done]. intros Hr.
  assert (expand ∈ preset_arms.*2) as Hin.
  { apply bind_Some in Ef as (name & _ & [Hin _]%List.find_some). apply list_elem_of_In, in_map_iff. by exists (name', expand). }
  unfold preset_arms in Hin. simpl in Hin.
  repeat (apply elem_of_cons in Hin as [->|Hin]); [..|by apply elem_of_nil in Hin];
    unfold expand_cursor_preset, expand_devin_preset, expand_factory_preset, expand_fx_preset, expand_gateway_preset,
      expand_media_preset, expand_xai_preset, expand_checked in Hr; steps Hr;
    try match goal with E : builtin_preset _ _ = Ok _ |- _ => apply builtin_distinct in E end; keeps.
Qed.
End distinct.

(** * Routes under the alias *)

Lemma edit_at_root s p e f v w : edit_at (Key s :: p) e f v = Ok w ->
  exists u u', map_get (YString s) (root_of v) = Some u /\ edit_at p e f u = Ok u' /\
    root_of w = map_insert (YString s) u' (root_of v).
Proof.
  simpl. unfold root_of. destruct (as_mapping v) as [m|]; [|done]. destruct (map_get _ m) as [u|] eqn:G; [|done].
  intros (u' & Hu & [= <-])%result_bind_Ok. exists u, u'. simpl. rewrite as_mapping_retag. done.
Qed.

Lemma root_get_other s p e f v w s' : edit_at (Key s :: p) e f v = Ok w -> s' <> s ->
  map_get (YString s') (root_of w) = map_get (YString s') (root_of v).
Proof. intros (u & u' & _ & _ & ->)%edit_at_root Hs. rewrite map_get_insert, decide_False by congruence. done. Qed.

(** A route is under an alias: its id has the alias as a prefix, and it listens there. *)
Definition under_alias (alias : string) (route : Yaml) : Prop :=
  exists m id, as_mapping route = Some m /\ get_str "id" m = Some (prefixed alias id) /\ get_str "listen" m = Some alias.

(** The listener of the alias is declared, and something holds of the routes: that all
    are under it, or only the first. *)
Record aliased (P : list Yaml -> Prop) (alias : string) (v : Yaml) : Prop := {
  al_listener : is_Some (declared v "listeners" (YString alias));
  al_routes : P (listed v "routes");
}.
Definition all_under (alias : string) (l : list Yaml) : Prop := Forall (under_alias alias) l.
Definition first_under (alias : string) (l : list Yaml) : Prop := exists r l', l = r :: l' /\ under_alias alias r.

(** A change of one field of a declaration leaves the declarations where they are. *)
Lemma declared_kept s s' id p e f v w k : edit_at (Key s' :: Key id :: p) e f v = Ok w ->
  is_Some (declared v s k) -> is_Some (declared w s k).
Proof.
  intros Hw Hv. destruct (decide (s = s')) as [->|Hs].
  - apply edit_at_root in Hw as (u & u' & Hu & Hw & Hr). unfold declared, section_map in *. rewrite Hr, map_get_insert.
    rewrite decide_True by done. rewrite Hu in Hv. simpl in *. apply edit_at_root in Hw as (x & x' & Hx & _ & Hr').
    unfold root_of in Hr', Hx. destruct (as_mapping u); simpl in *; [|done]. rewrite Hr', map_get_insert. case_decide; eauto.
  - unfold declared, section_map. by rewrite (root_get_other _ _ _ _ _ _ _ Hw Hs).
Qed.

Section alias.
Context `{MappingRemove, ConfigSyntax}.

Lemma renamed_declared section old new path v w : rename_named_key section old new path v = Ok w ->
  is_Some (declared w section (YString new)).
Proof.
  intros (u & u' & Hu & Hw & Hr)%edit_at_root. simpl in Hw. unfold declared, section_map.
  rewrite Hr, map_get_insert, decide_True by done. unfold edit_mapping in Hw.
  apply result_bind_Ok in Hw as (m & _ & (m' & Hm & [= <-])%result_bind_Ok). simpl. rewrite as_mapping_retag. simpl.
  apply result_bind_Ok in Hm as (x & _ & [= <-]). rewrite map_get_insert, decide_True by done. eauto.
Qed.

Lemma aliased_field P alias section id path f v w : section <> "routes" ->
  named_declaration_mut section id path f v = Ok w -> aliased P alias v -> aliased P alias w.
Proof.
  intros Hs Hw [Hl Hr]. split.
  - by eapply declared_kept.
  - unfold listed, section_list. by rewrite (root_get_other _ _ _ _ _ _ "routes" Hw).
Qed.

Lemma aliased_when P alias import key f v w :
  (forall value w, f value v = Ok w -> aliased P alias v -> aliased P alias w) ->
  when_parameter import key f v = Ok w -> aliased P alias v -> aliased P alias w.
Proof. intros Hf. unfold when_parameter. case_match; [apply Hf|by intros [= <-]]. Qed.

Lemma aliased_parameter P alias import key section id field preset path v w : section <> "routes" ->
  set_parameter import key section id field preset path v = Ok w -> aliased P alias v -> aliased P alias w.
Proof.
  intros Hs. apply aliased_when. intros value u (s & _ & Hu)%result_bind_Ok. by eapply aliased_field.
Qed.

Lemma aliased_secret P alias upstream preset path secret v w :
  set_secret upstream preset path secret v = Ok w -> aliased P alias v -> aliased P alias w.
Proof. by apply aliased_field. Qed.
Lemma aliased_or_add_secret P alias upstream preset path secret v w :
  set_or_add_secret upstream preset path secret v = Ok w -> aliased P alias v -> aliased P alias w.
Proof. by apply aliased_field. Qed.

(** The last part of the rewriting of a route touches only its target. *)
Definition only_target (f : Mapping -> Result Mapping LoadError) : Prop :=
  forall m m' k, f m = Ok m' -> k <> YString "target" -> map_get k m' = map_get k m.

Lemma rename_route_alias preset alias path new_id f v w :
  (forall id, exists x, new_id id = prefixed alias x) -> only_target f ->
  rename_route preset alias path new_id f v = Ok w -> under_alias alias w.
Proof.
  intros Hn Hf. unfold rename_route, edit_mapping.
  intros (m & _ & (m' & (id & _ & Hr)%result_bind_Ok & [= <-])%result_bind_Ok)%result_bind_Ok.
  destruct (Hn id) as [x Hx]. exists m', x. rewrite as_mapping_retag. unfold get_str.
  rewrite !(Hf _ _ _ Hr) by done. unfold insert_string. rewrite !map_get_insert.
  rewrite decide_False, !decide_True by done. simpl. rewrite Hx. done.
Qed.

Lemma try_imap_Forall (P : Yaml -> Prop) f n l l' :
  (forall n v w, f n v = Ok w -> P w) -> try_imap n f l = Ok l' -> Forall P l'.
Proof.
  intros Hf. revert n l'. induction l as [|v l IH]; simpl; intros n l'; [by intros [= <-]|].
  intros (w & Hw & (l1 & Hl1 & [= <-])%result_bind_Ok)%result_bind_Ok. constructor; eauto.
Qed.

(** The loop over the routes brings a document under the alias. *)
Lemma aliased_routes preset alias path f v w :
  (forall n v w, f n v = Ok w -> under_alias alias w) -> is_Some (declared v "listeners" (YString alias)) ->
  edit_routes preset path (try_imap 0 f) v = Ok w -> aliased (all_under alias) alias w.
Proof.
  intros Hf Hl Hw. split.
  - unfold declared, section_map. by rewrite (root_get_other _ _ _ _ _ _ "listeners" Hw).
  - apply edit_at_root in Hw as (u & u' & _ & Hw & Hr). simpl in Hw. unfold edit_sequence in Hw.
    apply result_bind_Ok in Hw as (l & _ & (l' & Hl' & [= <-])%result_bind_Ok).
    unfold listed, section_list. rewrite Hr, map_get_insert, decide_True by done. simpl.
    rewrite as_sequence_retag. by eapply try_imap_Forall.
Qed.

Lemma only_edit_target preset path f : only_target (edit_target preset path f).
Proof.
  intros m m' k. unfold edit_target. case_match; [|done]. intros (t & _ & [= <-])%result_bind_Ok Hk.
  by rewrite map_get_insert, decide_False.
Qed.

Lemma only_own_target alias (b : Mapping -> bool) : only_target (fun m =>
  match map_get (YString "target") m with
  | Some (YMapping target) =>
    if b target then Ok (map_insert (YString "target") (YMapping (insert_string "provider" alias target)) m) else Ok m
  | _ => Ok m
  end).
Proof.
  intros m m' k Hr Hk. repeat case_match; simplify_eq; try done; by rewrite map_get_insert, decide_False.
Qed.

Lemma prefixed_prefixed alias id : exists x, prefixed alias id = prefixed alias x.
Proof. eauto. Qed.

Lemma aliased_own preset alias path v w : is_Some (declared v "listeners" (YString alias)) ->
  rewrite_own_routes preset alias path v = Ok w -> aliased (all_under alias) alias w.
Proof.
  intros Hl. apply aliased_routes; [|done]. intros _ r r'. apply rename_route_alias; [apply prefixed_prefixed|].
  apply only_own_target.
Qed.
Lemma aliased_media alias path v w : is_Some (declared v "listeners" (YString alias)) ->
  rewrite_media_routes alias path v = Ok w -> aliased (all_under alias) alias w.
Proof.
  intros Hl. apply aliased_routes; [|done]. intros _ r r'. apply rename_route_alias; [apply prefixed_prefixed|].
  apply only_edit_target.
Qed.
Lemma aliased_xai alias rest ws path v w : is_Some (declared v "listeners" (YString alias)) ->
  rewrite_xai_routes alias rest ws path v = Ok w -> aliased (all_under alias) alias w.
Proof.
  intros Hl. apply aliased_routes; [|done]. intros _ r r'. apply rename_route_alias; [apply prefixed_prefixed|].
  apply only_edit_target.
Qed.
Lemma aliased_gateway alias ws path v w : is_Some (declared v "listeners" (YString alias)) ->
  rewrite_gateway_routes alias ws path v = Ok w -> aliased (all_under alias) alias w.
Proof.
  intros Hl. apply aliased_routes; [|done]. intros _ r r'. apply rename_route_alias; [apply prefixed_prefixed|].
  apply only_edit_target.
Qed.
Lemma aliased_devin alias path v w : is_Some (declared v "listeners" (YString alias)) ->
  rewrite_devin_routes alias path v = Ok w -> aliased (all_under alias) alias w.
Proof.
  intros Hl. apply aliased_routes; [|done]. intros n r r'. apply rename_route_alias.
  - intros id. case_match; apply prefixed_prefixed.
  - intros m m' k Hr Hk. repeat case_match; simplify_eq; try done; by rewrite map_get_insert, decide_False.
Qed.

(** The first route is renamed and the others stay. *)
Lemma first_route_alias preset alias path v w :
  first_route_mut path (fun m =>
    edit_target preset path (fun target => Ok (insert_string "provider" alias target))
      (insert_string "listen" alias (insert_string "id" (prefixed alias "route") m))) v = Ok w ->
  exists r r' l, listed v "routes" = r :: l /\ listed w "routes" = r' :: l /\ under_alias alias r'.
Proof.
  intros (u & u' & Hu & Hw & Hr)%edit_at_root. simpl in Hw. unfold listed, section_list.
  rewrite Hr, Hu, map_get_insert, decide_True by done. simpl.
  destruct (as_sequence u) as [[|r l]|] eqn:Es; try done. apply result_bind_Ok in Hw as (r' & Hr' & [= <-]).
  exists r, r', l. rewrite as_sequence_retag. repeat split. unfold edit_mapping in Hr'.
  apply result_bind_Ok in Hr' as (m & _ & (m' & Hm & [= <-])%result_bind_Ok).
  exists m', "route". rewrite as_mapping_retag. unfold get_str.
  rewrite !(only_edit_target _ _ _ _ _ _ Hm) by done. unfold insert_string. rewrite !map_get_insert.
  by rewrite decide_False, !decide_True.
Qed.

Lemma listener_kept section old new path alias v w : section <> "listeners" ->
  rename_named_key section old new path v = Ok w ->
  is_Some (declared v "listeners" (YString alias)) -> is_Some (declared w "listeners" (YString alias)).
Proof. intros Hs Hw. unfold declared, section_map. by rewrite (root_get_other _ _ _ _ _ _ "listeners" Hw). Qed.

Lemma listener_kept_routes p e f alias v w : edit_at (Key "routes" :: p) e f v = Ok w ->
  is_Some (declared v "listeners" (YString alias)) -> is_Some (declared w "listeners" (YString alias)).
Proof. intros Hw. unfold declared, section_map. by rewrite (root_get_other _ _ _ _ _ _ "listeners" Hw). Qed.

Lemma aliased_first_route preset alias path v w :
  first_route_mut path (fun m =>
    edit_target preset path (fun target => Ok (insert_string "provider" alias target))
      (insert_string "listen" alias (insert_string "id" (prefixed alias "route") m))) v = Ok w ->
  (is_Some (declared v "listeners" (YString alias)) -> aliased (first_under alias) alias w) /\
  (aliased (all_under alias) alias v -> aliased (all_under alias) alias w).
Proof.
  intros Hw. pose proof (listener_kept_routes _ _ _ alias _ _ Hw) as Hl.
  destruct (first_route_alias _ _ _ _ _ Hw) as (r & r' & l & Ev & Ew & Hr). split.
  - intros Hv. split; [by apply Hl|]. exists r', l. done.
  - intros [Hv Ha]. split; [by apply Hl|]. unfold all_under in *. rewrite Ev in Ha. rewrite Ew.
    apply Forall_cons in Ha as [_ Ha]. by constructor.
Qed.

(** The parameters of the transform are in the request of the first route. *)
Lemma aliased_transform alias field value path v w : set_cursor_transform_parameter field value path v = Ok w ->
  aliased (first_under alias) alias v -> aliased (first_under alias) alias w.
Proof.
  intros Hw [Hl (r & l & Er & m & id & Hm & Hid & Hli)]. split; [by eapply listener_kept_routes|].
  apply edit_at_root in Hw as (u & u' & Hu & Hw & Hr). simpl in Hw. unfold listed, section_list in *.
  rewrite Hu in Er. simpl in Er. rewrite Hr, map_get_insert, decide_True by done. simpl.
  destruct (as_sequence u) as [[|r0 l0]|] eqn:Es; simplify_eq/=. apply result_bind_Ok in Hw as (r' & Hr' & [= <-]).
  exists r', l. rewrite as_sequence_retag. split; [done|]. unfold edit_mapping in Hr'. rewrite Hm in Hr'. simpl in Hr'.
  apply result_bind_Ok in Hr' as (m' & Hm' & [= <-]). destruct (map_get (YString "request") m); [|done].
  apply result_bind_Ok in Hm' as (q & _ & [= <-]). exists (map_insert (YString "request") q m), id.
  rewrite as_mapping_retag. unfold get_str. by rewrite !map_get_insert, !decide_False.
Qed.

(** Goes through the steps after the routes are rewritten, from the last. *)
Ltac aliased :=
  repeat match goal with
  | |- aliased _ _ _ -> aliased _ _ _ => intros ?
  | H : aliased ?P ?a ?v |- aliased ?P ?a ?v => exact H
  | E : set_parameter _ _ _ _ _ _ _ _ = Ok ?v |- aliased _ _ ?v => eapply aliased_parameter; [|exact E|]; [done|]
  | E : when_parameter _ _ _ _ = Ok ?v |- aliased _ _ ?v => 
    let E' := fresh "E" in eapply aliased_when; [|exact E|]; [intros ? ? E'; cbv beta in E'; steps E'|]
  | E : set_secret _ _ _ _ _ = Ok ?v |- aliased _ _ ?v => eapply aliased_secret; [exact E|]
  | E : set_or_add_secret _ _ _ _ _ = Ok ?v |- aliased _ _ ?v => eapply aliased_or_add_secret; [exact E|]
  | E : set_named_field _ _ _ _ _ _ = Ok ?v |- aliased _ _ ?v => eapply aliased_field; [|exact E|]; [done|]
  | E : set_cursor_transform_parameter _ _ _ _ = Ok ?v |- aliased _ _ ?v => eapply aliased_transform; [exact E|]
  | E : first_route_mut _ _ _ = Ok ?v |- aliased (first_under _) _ ?v => apply (proj1 (aliased_first_route _ _ _ _ _ E))
  | E : first_route_mut _ _ _ = Ok ?v |- aliased (all_under _) _ ?v =>
    apply (proj2 (aliased_first_route _ _ _ _ _ E))
  | E : rewrite_own_routes _ _ _ _ = Ok ?v |- aliased _ _ ?v => eapply aliased_own; [|exact E]
  | E : rewrite_factory_routes _ _ _ = Ok ?v |- aliased _ _ ?v => eapply aliased_own; [|exact E]
  | E : rewrite_fx_routes _ _ _ = Ok ?v |- aliased _ _ ?v => eapply aliased_own; [|exact E]
  | E : rewrite_media_routes _ _ _ = Ok ?v |- aliased _ _ ?v => eapply aliased_media; [|exact E]
  | E : rewrite_xai_routes _ _ _ _ _ = Ok ?v |- aliased _ _ ?v => eapply aliased_xai; [|exact E]
  | E : rewrite_gateway_routes _ _ _ _ = Ok ?v |- aliased _ _ ?v => eapply aliased_gateway; [|exact E]
  | E : rewrite_devin_routes _ _ _ = Ok ?v |- aliased _ _ ?v => eapply aliased_devin; [|exact E]
  | E : rename_named_key "listeners" _ _ _ _ = Ok ?v |- is_Some (declared ?v _ _) => by eapply renamed_declared
  | E : rename_named_key _ _ _ _ _ = Ok ?v |- is_Some (declared ?v _ _) => eapply listener_kept; [|exact E|]; [done|]
  end.

(** The table of presets has the arms it is said to have. *)
Lemma preset_arms_supported : preset_arms.*1 = SUPPORTED_PRESETS.
Proof. done. Qed.

(** An expanded preset declares its listener under the alias of the import, or the
    name of the preset without one, and puts its routes there: each route of the
    document gets an id with the alias as a prefix and listens on the alias, so that
    presets imported under different aliases do not take each other's routes; the cursor
    preset, whose document has one route, does it for the first. *)
Theorem preset_under_alias (import : ImportSpec) (path name : string) (v : Yaml) :
  is_preset import = Some name -> expand_preset import path = Ok v ->
  let alias := default name (is_alias import) in
  is_Some (declared v "listeners" (YString alias)) /\
  if String.eqb name "cursor" then exists r l, listed v "routes" = r :: l /\ under_alias alias r
  else Forall (under_alias alias) (listed v "routes").
Proof.
  intros Hn Hr alias. unfold expand_preset in Hr. rewrite Hn in Hr. unfold mbind, option_bind in Hr.
  destruct (List.find _ preset_arms) as [[name' expand]|] eqn:Ef; [|done].
  apply List.find_some in Ef as [Hin E%String.eqb_eq]. simpl in E. subst name'. apply list_elem_of_In in Hin.
  unfold preset_arms in Hin.
  repeat (apply elem_of_cons in Hin as [[= -> ->]|Hin]); [..|by apply elem_of_nil in Hin]; simpl;
    unfold expand_cursor_preset, expand_devin_preset, expand_factory_preset, expand_fx_preset, expand_gateway_preset,
      expand_media_preset, expand_xai_preset, expand_checked, alias_or in Hr; fold alias in Hr; steps Hr.
  1: assert (aliased (first_under alias) alias v) as [? ?] by aliased; done.
  all: assert (aliased (all_under alias) alias v) as [? ?]; [|done].
  all: aliased.
Qed.

(** * The routes a provider serves *)

Definition served (i : Integration) (route : Yaml) : Prop :=
  exists id surface family, route_id_of route = Some id /\ (id, surface, family) ∈ GATEWAY_ROUTE_SURFACE /\
    family ∈ in_endpoint_families i /\
    match surface with
    | Dialect d => in_request_dialect i = d
    | Discovery p => in_discovery_path i = Some p
    end.

Lemma gateway_surface_ids : NoDup GATEWAY_ROUTE_SURFACE.*1.*1.
Proof. apply (bool_decide_unpack _). vm_compute. exact I. Qed.

Lemma serves_route_spec i route : serves_route i route = Ok true -> served i route.
Proof.
  unfold serves_route. intros (id & Hid & (sf & Hf & Hr)%result_bind_Ok)%result_bind_Ok.
  destruct (route_id_of route) as [x|] eqn:Ex; [|done]. injection Hid as ->. destruct sf as [surface family].
  destruct (List.find _ _ ≫= _) as [[? ?]|] eqn:Ef; [|done]. injection Hf as -> ->.
  apply bind_Some in Ef as ([[id' surface'] family'] & [Hin E%String.eqb_eq]%List.find_some & [= -> ->]).
  simpl in E. subst id'. injection Hr as Hr. apply andb_true_iff in Hr as [Hs Hm].
  exists id, surface, family. split; [done|]. split; [by apply list_elem_of_In|]. split.
  - apply existsb_exists in Hm as (f & Hf & ->%String.eqb_eq). by apply list_elem_of_In.
  - destruct surface; [by apply String.eqb_eq in Hs|by apply bool_decide_eq_true in Hs].
Qed.

Lemma last_failure_None l : last_failure l = None -> Forall (fun r => exists b, r = Ok b) l.
Proof.
  unfold last_failure. intros Hl%last_None. induction l as [|[b|e] l IH]; simpl in Hl; constructor; eauto; done.
Qed.

(** A route is mounted only when the provider of the gateway documents its endpoint
    family and serves its surface, and some route is. *)
Lemma gateway_routes_served provider path root v : retain_supported_gateway_routes provider path root = Ok v ->
  exists i, provider_integration provider = Some i /\ listed v "routes" <> [] /\
    Forall (fun route => route ∈ listed root "routes" /\ served i route) (listed v "routes").
Proof.
  intros (i & Hi & Hr)%result_bind_Ok. exists i. destruct (provider_integration provider); simplify_eq/=. split; [done|].
  apply edit_at_root in Hr as (u & u' & Hu & Hw & Hr). simpl in Hw. unfold edit_sequence in Hw.
  apply result_bind_Ok in Hw as (l & Hl & (l' & Hl' & [= <-])%result_bind_Ok).
  unfold listed, section_list. rewrite Hr, Hu, map_get_insert, decide_True by done. simpl. rewrite as_sequence_retag.
  destruct (as_sequence u); simplify_eq/=. destruct (last_failure _) eqn:Elf; [done|].
  apply last_failure_None in Elf. destruct (List.filter _ l) as [|r k] eqn:Ef; [done|]. injection Hl' as <-.
  split; [done|]. rewrite <- Ef. apply Forall_forall. intros r' Hin. apply list_elem_of_In, filter_In in Hin as [Hin Hs].
  split; [by apply list_elem_of_In|]. apply serves_route_spec.
  apply (proj1 (List.Forall_forall _ _)) with (x := serves_route i r') in Elf as [b Eb]; [|by apply in_map].
  rewrite Eb in Hs |- *. simpl in Hs. by subst.
Qed.
End alias.

(** The fx preset, with one route, imported under the name [team]. *)
Definition fx_syntax : ConfigSyntax := {|
  yaml_parse := fun _ => Ok (YMapping
    [(YString "listeners", YMapping [(YString "fx", YMapping [])]);
     (YString "upstreams", YMapping [(YString "fx", YMapping [])]);
     (YString "routes", YSequence [YMapping [(YString "id", YString "models"); (YString "listen", YString "fx");
                                             (YString "target", YMapping [(YString "provider", YString "fx")])]])]);
  import_specs := fun _ => Ok [];
  parent_join := fun _ relative => relative;
  preset_text := fun name => name;
  provider_integration := fun _ => None;
|}.

Lemma preset_under_alias_witness :
  exists v, @expand_preset sample_remove fx_syntax (MkImport None None (Some "fx") (Some "team") ∅) "p" = Ok v /\
    Forall (under_alias "team") (listed v "routes") /\
    map route_id_of (listed v "routes") = [Some "team-models"].
Proof.
  eexists. split; [vm_compute; reflexivity|]. split; [|vm_compute; reflexivity].
  apply (@preset_under_alias sample_remove fx_syntax (MkImport None None (Some "fx") (Some "team") ∅) "p" "fx");
    vm_compute; reflexivity.
Defined.
