(* ===== verification/Resolve.v ===== *)
(** The resolution of a configuration file (crates/pooler-config/src/loader.rs): the
    checks on the files it reads, imports, presets and overlays, the label of a
    deserialisation error, and the loaded configuration with its dependencies.  The
    operating system and the YAML parser are parameters. *)
From S2P Require Import Prelude Str Bytes Watch Loader LoaderFacts Presets.

Open Scope N_scope.

Definition DEFAULT_MAX_IMPORT_DEPTH : nat := 16.

(** * Files *)

(** What the operating system tells of a file: whether it is a regular file, its
    length, owner and mode. *)
Record FileMeta := MkFileMeta { fm_is_file : bool; fm_len : N; fm_uid : N; fm_mode : N }.

(** An open file: its metadata and what reading it up to a number of bytes gives. *)
Record Handle := MkHandle { h_metadata : Result FileMeta string; h_read : Result bytes string }.

(** The file system while a configuration is loaded; [open] does not follow a link. *)
Record ConfigFs := MkConfigFs {
  cf_symlink_metadata : string -> Result FileMeta string;
  cf_canonicalize : string -> Result string string;
  cf_open : string -> Result Handle string;
  cf_euid : N;
}.

Inductive IoReason :=
| IoMessage (message : string)
| NotRegularFile
| TooLarge
| InsecureFile
| NotUtf8.

Inductive ConfigFailure :=
| Io (path : string) (reason : IoReason)
| Parse (source : string) (line column : N) (message : string)
| InvalidDocument (e : LoadError)
| InvalidField (source field message : string)
| UnsupportedVersion (source : string) (version : N)
| OutOfFuel.

Definition io {A} (path : string) (r : Result A string) : Result A ConfigFailure :=
  map_err (fun message => Io path (IoMessage message)) r.
Definition doc {A} (r : Result A LoadError) : Result A ConfigFailure := map_err InvalidDocument r.

Definition ensure (b : bool) {E} (e : E) : Result unit E := if b then Ok tt else Err e.

Section files.
Variable fs : ConfigFs.

Definition ensure_config_file (path : string) : Result unit ConfigFailure :=
  let? metadata := io path (cf_symlink_metadata fs path) in
  ensure (fm_is_file metadata) (Io path NotRegularFile).

(** The owner may read the file, and nobody else may write it (on Unix). *)
Definition validate_secure_metadata (path : string) (m : FileMeta) : Result unit ConfigFailure :=
  ensure (negb (negb (fm_uid m =? cf_euid fs) || (N.land (fm_mode m) 0x100 =? 0)
                || negb (N.land (fm_mode m) 0x12 =? 0)))
    (Io path InsecureFile).

Definition open_config_file (path : string) (secure : bool) : Result Handle ConfigFailure :=
  let? file := io path (cf_open fs path) in
  let? metadata := io path (h_metadata file) in
  let? _ := ensure (fm_is_file metadata) (Io path NotRegularFile) in
  let? _ := (if secure then validate_secure_metadata path metadata else Ok tt) in
  Ok file.

Definition read_config_file (path : string) (secure : bool) : Result string ConfigFailure :=
  let? _ := ensure_config_file path in
  let? file := open_config_file path secure in
  let? metadata := io path (h_metadata file) in
  let? _ := ensure (fm_is_file metadata) (Io path NotRegularFile) in
  let? _ := ensure (fm_len metadata <=? MAX_CONFIG_FILE_BYTES) (Io path TooLarge) in
  let? data := io path (h_read file) in
  let? _ := ensure (blen data <=? MAX_CONFIG_FILE_BYTES) (Io path TooLarge) in
  if utf8_valid data then Ok (of_bytes data) else Err (Io path NotUtf8).
End files.

(** * Imports *)

Section resolve.
Context `{MappingRemove, ConfigSyntax}.
Variable fs : ConfigFs.
Variable max_import_depth : nat.

Definition check_import (path : string) (import : ImportSpec) : Result unit LoadError :=
  let one o : N := if is_some (o : option string) then 1 else 0 in
  let? _ := ensure (one (is_file import) + one (is_overlay import) + one (is_preset import) =? 1)
              (MkLoadError path ImportNotExactlyOne) in
  ensure (negb (is_none (is_preset import)
                && (is_some (is_alias import) || negb (bool_decide (is_parameters import = ∅)))))
    (MkLoadError path ImportParametersWithoutPreset).

Fixpoint check_imports (path : string) (l : list ImportSpec) : Result unit LoadError :=
  match l with
  | [] => Ok tt
  | import :: l => let? _ := check_import path import in check_imports path l
  end.

(** The imports of a document and the document without them. *)
Definition take_imports (document : Yaml) (path : string) : Result (list ImportSpec * Yaml) LoadError :=
  let? m := ok_or (as_mapping document) (MkLoadError path RootNotMapping) in
  match map_get (YString "imports") m with
  | None => Ok ([], document)
  | Some value =>
    let? imports := map_err (fun e => MkLoadError path (InvalidImports e)) (import_specs value) in
    let? _ := check_imports path imports in
    Ok (imports, retag document (YMapping (map_remove (YString "imports") m)))
  end.

Definition parse_document (canonical text : string) : Result Yaml ConfigFailure :=
  map_err (fun e => Parse canonical e.1.1 e.1.2 e.2) (yaml_parse text).

Definition read_overlay (path : string) (stack : list string) : Result ResolvedDocument ConfigFailure :=
  let? _ := ensure_config_file fs path in
  let? canonical := io path (cf_canonicalize fs path) in
  if bool_decide (canonical ∈ stack) then Err (InvalidDocument (MkLoadError path OverlayCycle))
  else
    let? text := read_config_file fs canonical true in
    let? document := parse_document canonical text in
    let? (imports, document) := doc (take_imports document canonical) in
    match imports with
    | _ :: _ => Err (InvalidDocument (MkLoadError canonical OverlayNestedImports))
    | [] => Ok (MkResolved document (collect_origins document canonical) {[canonical]})
    end.

Definition preset_source (import : ImportSpec) (canonical : string) : string :=
  "preset:" +:+ default "unknown" (is_preset import) +:+ " (" +:+ canonical +:+ ")".

Definition resolve_preset (import : ImportSpec) (canonical : string) : Result ResolvedDocument ConfigFailure :=
  let? value := doc (expand_preset import canonical) in
  Ok (MkResolved value ((fun _ => preset_source import canonical) <$> collect_origins value canonical)
        {[canonical]}).

(** The loop over file and preset imports: [resolve_file] resolves an imported file. *)
Fixpoint merge_imports (resolve_file : string -> Result ResolvedDocument ConfigFailure) (canonical : string)
    (imports : list ImportSpec) (resolved : ResolvedDocument) : Result ResolvedDocument ConfigFailure :=
  match imports with
  | [] => Ok resolved
  | import :: imports =>
    let? (imported, additive) :=
      match is_file import with
      | Some file => let? r := resolve_file (parent_join canonical file) in Ok (r, false)
      | None => let? r := resolve_preset import canonical in Ok (r, true)
      end in
    let? resolved := doc (merge_resolved canonical additive resolved imported) in
    merge_imports resolve_file canonical imports resolved
  end.

(** The loop over overlays. *)
Fixpoint merge_overlays (stack : list string) (canonical : string) (overlays : list string)
    (resolved : ResolvedDocument) : Result ResolvedDocument ConfigFailure :=
  match overlays with
  | [] => Ok resolved
  | file :: overlays =>
    let? overlay := read_overlay (parent_join canonical file) stack in
    let? resolved := doc (merge_resolved canonical false resolved overlay) in
    merge_overlays stack canonical overlays resolved
  end.

(** [resolve_inner]: the depth of the stack bounds the recursion, and the fuel only
    shows it to the kernel. *)
Fixpoint resolve_inner (fuel : nat) (path : string) (stack : list string)
  : Result ResolvedDocument ConfigFailure :=
  match fuel with
  | O => Err OutOfFuel
  | S fuel =>
    if (max_import_depth <? length stack)%nat
    then Err (InvalidDocument (MkLoadError path ImportDepthExceeded))
    else
      let? _ := ensure_config_file fs path in
      let? canonical := io path (cf_canonicalize fs path) in
      if bool_decide (canonical ∈ stack)
      then Err (InvalidDocument (MkLoadError path (ImportCycle (stack ++ [canonical]))))
      else
        let secure := negb (length stack =? 0)%nat in
        let stack := stack ++ [canonical] in
        let? text := read_config_file fs canonical secure in
        let? document := parse_document canonical text in
        let? (imports, document) := doc (take_imports document canonical) in
        let? resolved := merge_imports (fun file => resolve_inner fuel file stack) canonical
                           (List.filter (fun i => is_none (is_overlay i)) imports)
                           (MkResolved (YMapping []) ∅ {[canonical]}) in
        let? resolved := doc (merge_resolved canonical false resolved
                                (MkResolved document (collect_origins document canonical) {[canonical]})) in
        merge_overlays stack canonical (omap is_overlay imports) resolved
  end.

Definition resolve_fuel : nat := S (S max_import_depth).
Definition resolve (path : string) : Result ResolvedDocument ConfigFailure := resolve_inner resolve_fuel path [].

(** * Loading *)

Definition CH_CLOSE_BRACKET : Ascii.ascii := Ascii.ascii_of_N 0x5D.

(** The declaration a field path of the deserialiser lies in: the longest key with the
    path in it, or the id of the item of a named list that the path gives by index. *)
Definition key_covers (path key : string) : bool := String.eqb path key || starts_with path (key +:+ ".").

Definition indexed_key (document : Yaml) (section rest : string) : option string :=
  '(index, _) ← str_split_once CH_CLOSE_BRACKET rest;
  index ← parse_usize index;
  root ← as_mapping document;
  value ← map_get (YString section) root;
  items ← as_sequence value;
  item ← items !! N.to_nat index;
  id ← result_ok (declaration_id "<resolved>" item);
  Some (origin_key section id).

Definition origin_key_for_path (path : string) (document : Yaml) (origins : gmap string string) : option string :=
  match max_by (fun a b => N.compare (str_len a) (str_len b))
          (List.filter (key_covers path) (btree_keys String.compare origins)) with
  | Some key => Some key
  | None =>
    match strip_prefix path "routes[" with
    | Some rest => indexed_key document "routes" rest
    | None => rest ← strip_prefix path "models["; indexed_key document "models" rest
    end
  end.

(** [serde]: the deserialisation of the configuration types, with the field path and the
    message of a failure; the printer of YAML values; and the field [version]. *)
Context {C : Type}.
Variable deserialize : string -> Result C (string * string).
Variable to_yaml : Yaml -> Result string string.
Variable version_of : C -> N.

Definition CONFIG_VERSION : N := 2.

Record Config := MkConfig { cfg_value : C; cfg_source : option (string * string); cfg_origins : gmap string string }.

Definition validate_version (config : C) (source : string) : Result unit ConfigFailure :=
  ensure (version_of config =? CONFIG_VERSION) (UnsupportedVersion source (version_of config)).

Definition parse_resolved (root rendered : string) (resolved : ResolvedDocument) : Result Config ConfigFailure :=
  let? config := map_err (fun e =>
      let source := default root
        (key ← origin_key_for_path e.1 (rd_value resolved) (rd_origins resolved); rd_origins resolved !! key) in
      InvalidField source e.1 e.2) (deserialize rendered) in
  let? _ := validate_version config root in
  Ok (MkConfig config (Some (root, rendered)) (rd_origins resolved)).

Definition render_value (value : Yaml) (path : string) : Result string ConfigFailure :=
  doc (map_err (fun e => MkLoadError path (RenderFailed e)) (to_yaml value)).

Definition render (path : string) : Result string ConfigFailure :=
  let? resolved := resolve path in render_value (rd_value resolved) path.

Definition load_tracked (path : string) : Result (LoadedConfig Config) ConfigFailure :=
  let? _ := ensure_config_file fs path in
  let? root := io path (cf_canonicalize fs path) in
  let? resolved := resolve root in
  let? rendered := render_value (rd_value resolved) root in
  let? config := parse_resolved root rendered resolved in
  Ok (MkLoaded config root (btree_elements String.compare (rd_dependencies resolved)) rendered).

(** [load]: a file without imports is parsed as it is by [from_yaml], so that the
    parser's coordinates are kept. *)
Variable from_yaml : string -> string -> Result Config ConfigFailure.

Definition has_imports (raw : string) : bool :=
  is_some_and (result_ok (yaml_parse raw))
    (fun value => is_some_and (as_mapping value) (map_has (YString "imports"))).

Definition load (path : string) : Result Config ConfigFailure :=
  let? raw := read_config_file fs path false in
  if negb (has_imports raw) then from_yaml path raw
  else
    let? resolved := resolve path in
    let? rendered := render_value (rd_value resolved) path in
    parse_resolved path rendered resolved.
End resolve.

(** * An example: a root with one import and one overlay, each file holding its name. *)

Definition sample_documents (text : string) : option Yaml :=
  list_to_map (M := gmap string Yaml)
    [("root", YMapping [(YString "imports", YString "both");
                        (YString "listeners", YMapping [(YString "main", YMapping [])])]);
     ("lib", YMapping [(YString "upstreams", YMapping [(YString "a", YMapping [(YString "url", YString "x")])])]);
     ("over", YMapping [(YString "upstreams",
                YMapping [(YString "a", YMapping [(YString "merge", YBool true); (YString "url", YString "y")])])])] !! text.

Definition sample_syntax : ConfigSyntax := {|
  yaml_parse := fun text => ok_or (sample_documents text) (1, 1, "invalid");
  import_specs := fun _ => Ok [MkImport (Some "lib") None None None ∅; MkImport None (Some "over") None None ∅];
  parent_join := fun _ relative => relative;
  preset_text := fun _ => "";
  provider_integration := fun _ => None;
|}.

Definition sample_meta : FileMeta := MkFileMeta true 4 0 0x180.
Definition sample_fs : ConfigFs :=
  MkConfigFs (fun _ => Ok sample_meta) Ok (fun p => Ok (MkHandle (Ok sample_meta) (Ok (bytes_of p)))) 0.

Definition sample_resolve : string -> Result ResolvedDocument ConfigFailure :=
  @resolve sample_remove sample_syntax sample_fs DEFAULT_MAX_IMPORT_DEPTH.
Definition sample_load_tracked : string -> Result (LoadedConfig Config) ConfigFailure :=
  @load_tracked sample_remove sample_syntax sample_fs DEFAULT_MAX_IMPORT_DEPTH N
    (fun _ => Ok 2) (fun _ => Ok "rendered") (fun v => v).

(** * What the resolution of a configuration file reads, and that it ends: the files it
      depends on are those its imports reach, none of them twice on a chain. *)

Lemma ensure_Ok {E} b (e : E) u : ensure b e = Ok u <-> b = true.
Proof. unfold ensure. destruct b, u; naive_solver. Qed.

(** The metadata a file that is not the root must have. *)
Definition secure_meta (fs : ConfigFs) (m : FileMeta) : Prop :=
  fm_is_file m = true /\ fm_uid m = cf_euid fs /\ N.land (fm_mode m) 0x100 <> 0 /\ N.land (fm_mode m) 0x12 = 0.

Definition secure_file (fs : ConfigFs) (p : string) : Prop :=
  exists h m, cf_open fs p = Ok h /\ h_metadata h = Ok m /\ secure_meta fs m /\ fm_len m <= MAX_CONFIG_FILE_BYTES.

Lemma read_secure fs p text : read_config_file fs p true = Ok text ->
  secure_file fs p /\ read_config_file fs p false = Ok text.
Proof.
  unfold read_config_file, open_config_file, validate_secure_metadata, io.
  intros (u & He & Hr)%result_bind_Ok. rewrite He. simpl.
  destruct (cf_open fs p) as [h|] eqn:Eo; simpl in *; [|done].
  destruct (h_metadata h) as [m|] eqn:Em; simpl in *; [|done].
  destruct (fm_is_file m) eqn:Ef; simpl in *; [|done].
  destruct (ensure _ _) eqn:Es in Hr; simpl in Hr; [|done]. rewrite Em in *. simpl in *. rewrite Ef in *. simpl in *.
  destruct (ensure _ _) eqn:El in Hr; simpl in Hr; [|done]. rewrite El. simpl. split; [|done].
  apply ensure_Ok in Es, El. exists h, m. unfold secure_meta. bool_props. naive_solver.
Qed.

Lemma read_plain fs p secure text : read_config_file fs p secure = Ok text -> read_config_file fs p false = Ok text.
Proof. destruct secure; [by intros [_ ?]%read_secure|done]. Qed.

Section facts.
Context `{MappingRemove, ConfigSyntax}.
Variable fs : ConfigFs.
Variable max_import_depth : nat.

(** * Termination *)

Definition fuelled {A} (r : Result A ConfigFailure) : Prop := r <> Err OutOfFuel.

Lemma fuelled_bind {A B} (r : Result A ConfigFailure) (k : A -> Result B ConfigFailure) :
  fuelled r -> (forall a, r = Ok a -> fuelled (k a)) -> fuelled (result_bind r k).
Proof. unfold fuelled. destruct r; simpl; naive_solver. Qed.
Lemma fuelled_Ok {A} (a : A) : fuelled (Ok a). Proof. done. Qed.
Lemma fuelled_io {A} p (r : Result A string) : fuelled (io p r). Proof. by destruct r. Qed.
Lemma fuelled_doc {A} (r : Result A LoadError) : fuelled (doc r). Proof. by destruct r. Qed.
Lemma fuelled_parse p t : fuelled (parse_document p t). Proof. unfold parse_document. by destruct (yaml_parse t). Qed.
Lemma fuelled_ensure b p reason : fuelled (ensure b (Io p reason)). Proof. by destruct b. Qed.

Ltac fuelled :=
  repeat first [apply fuelled_Ok|apply fuelled_io|apply fuelled_doc|apply fuelled_parse|apply fuelled_ensure
               |apply fuelled_bind; [|intros ? _]|done|case_match].

Lemma fuelled_read p secure : fuelled (read_config_file fs p secure).
Proof. unfold read_config_file, open_config_file, ensure_config_file, validate_secure_metadata. fuelled. Qed.

Lemma fuelled_overlay p stack : fuelled (read_overlay fs p stack).
Proof. unfold read_overlay, ensure_config_file. fuelled. Qed.

Lemma fuelled_imports rf c l r : (forall p, fuelled (rf p)) -> fuelled (merge_imports rf c l r).
Proof.
  intros Hf. revert r. induction l as [|i l IH]; intros r; simpl; [done|]. unfold resolve_preset.
  fuelled; auto.
Qed.

Lemma fuelled_overlays stack c l r : fuelled (merge_overlays fs stack c l r).
Proof.
  revert r. induction l as [|f l IH]; intros r; simpl; [done|]. fuelled; auto.
Qed.

Lemma fuelled_resolve fuel path stack :
  (length stack <= S max_import_depth)%nat -> (S max_import_depth < fuel + length stack)%nat ->
  fuelled (resolve_inner fs max_import_depth fuel path stack).
Proof.
  revert path stack. induction fuel as [|fuel IH]; intros path stack Hs Hf; [simpl in Hf; lia|]. simpl.
  destruct (Nat.ltb_spec max_import_depth (length stack)) as [|Hlt]; [done|].
  unfold ensure_config_file. fuelled; try apply fuelled_read; try apply fuelled_overlays.
  apply fuelled_imports. intros p. apply IH; rewrite length_app; simpl; lia.
Qed.

(** * Dependencies *)

(** The imports a file has, and the file one of them names. *)
Definition file_imports (c : string) : option (list ImportSpec) :=
  text ← result_ok (read_config_file fs c false);
  document ← result_ok (yaml_parse text);
  fst <$> result_ok (take_imports document c).
Definition import_target (c : string) (i : ImportSpec) : option string :=
  relative ← or_else (is_file i) (is_overlay i);
  result_ok (cf_canonicalize fs (parent_join c relative)).
Definition imports (c d : string) : Prop :=
  exists l i, file_imports c = Some l /\ i ∈ l /\ import_target c i = Some d.

Lemma doc_Ok {A} (r : Result A LoadError) a : doc r = Ok a <-> r = Ok a.
Proof. apply map_err_Ok. Qed.
Lemma io_Ok {A} p (r : Result A string) a : io p r = Ok a <-> r = Ok a.
Proof. apply map_err_Ok. Qed.

Lemma merge_resolved_deps path additive b i r : merge_resolved path additive b i = Ok r ->
  rd_dependencies r = rd_dependencies b ∪ rd_dependencies i.
Proof. unfold merge_resolved. by intros (v & _ & [= <-])%result_bind_Ok. Qed.

Ltac same_result :=
  simplify_eq; try match goal with H1 : ?x = Ok _, H2 : ?x = Ok _ |- _ => rewrite H1 in H2; injection H2 as <- end.

Lemma merge_imports_deps rf c l r0 r : merge_imports rf c l r0 = Ok r -> c ∈ rd_dependencies r0 ->
  (forall i f, i ∈ l -> is_file i = Some f -> exists r', rf (parent_join c f) = Ok r') /\
  forall p, p ∈ rd_dependencies r <-> p ∈ rd_dependencies r0 \/
    exists i f r', i ∈ l /\ is_file i = Some f /\ rf (parent_join c f) = Ok r' /\ p ∈ rd_dependencies r'.
Proof.
  revert r0. induction l as [|i l IH]; simpl; intros r0.
  - intros [= ->] Hc. split; [by intros ? ? ?%elem_of_nil|]. set_solver.
  - intros ([x additive] & Hx & (r1 & Hm%doc_Ok & Hr)%result_bind_Ok)%result_bind_Ok Hc.
    apply merge_resolved_deps in Hm. destruct (IH r1 Hr) as [Hf Hp]; [set_solver|].
    destruct (is_file i) as [f|] eqn:Ef; apply result_bind_Ok in Hx as (r' & Hx & [= <- <-]).
    + split.
      * intros i' f' [->|Hin]%elem_of_cons E; [simplify_eq; eauto|eauto].
      * intros p. rewrite Hp, Hm, elem_of_union. setoid_rewrite elem_of_cons. clear -Hx Ef.
        split; [intros [[?|?]|(i1 & f1 & r2 & ? & ? & ? & ?)]|intros [?|(i1 & f1 & r2 & [->|?] & ? & ? & ?)]];
          same_result; eauto 10.
    + unfold resolve_preset in Hx. apply result_bind_Ok in Hx as (v & _ & [= <-]). simpl in Hm.
      split; [intros i' f' [->|Hin]%elem_of_cons E; [by simplify_eq|eauto]|].
      intros p. rewrite Hp, Hm. rewrite elem_of_union, elem_of_singleton.
      setoid_rewrite elem_of_cons. clear -Hc Ef.
      split; [intros [[?| ->]|(i1 & f1 & r2 & ? & ? & ? & ?)]|intros [?|(i1 & f1 & r2 & [->|?] & ? & ? & ?)]];
        same_result; eauto 10.
Qed.

Lemma merge_overlays_deps stack c l r0 r : merge_overlays fs stack c l r0 = Ok r ->
  (forall f, f ∈ l -> exists r', read_overlay fs (parent_join c f) stack = Ok r') /\
  forall p, p ∈ rd_dependencies r <-> p ∈ rd_dependencies r0 \/
    exists f r', f ∈ l /\ read_overlay fs (parent_join c f) stack = Ok r' /\ p ∈ rd_dependencies r'.
Proof.
  revert r0. induction l as [|f l IH]; simpl; intros r0.
  - intros [= ->]. split; [by intros ? ?%elem_of_nil|]. set_solver.
  - intros (x & Hx & (r1 & Hm%doc_Ok & Hr)%result_bind_Ok)%result_bind_Ok.
    apply merge_resolved_deps in Hm. destruct (IH r1 Hr) as [Hf Hp]. split.
    + intros f' [->|Hin]%elem_of_cons; eauto.
    + intros p. rewrite Hp, Hm, elem_of_union. setoid_rewrite elem_of_cons. clear -Hx.
      split; [intros [[?|?]|(f1 & r2 & ? & ? & ?)]|intros [?|(f1 & r2 & [->|?] & ? & ?)]]; same_result; eauto 10.
Qed.

Lemma check_imports_Ok path l : check_imports path l = Ok tt -> Forall (fun i => check_import path i = Ok tt) l.
Proof.
  induction l as [|i l IH]; simpl; [constructor|]. intros ([] & Hi & Hl)%result_bind_Ok. constructor; auto.
Qed.

Lemma check_import_one path i : check_import path i = Ok tt ->
  (is_overlay i = None \/ is_file i = None).
Proof.
  unfold check_import. intros (u & Hu%ensure_Ok & _)%result_bind_Ok.
  destruct (is_file i), (is_overlay i), (is_preset i); simpl in Hu; auto; done.
Qed.

Lemma take_imports_one document path l d : take_imports document path = Ok (l, d) ->
  Forall (fun i => is_overlay i = None \/ is_file i = None) l.
Proof.
  unfold take_imports. intros (m & _ & Hr)%result_bind_Ok. case_match; [|by simplify_eq; constructor].
  apply result_bind_Ok in Hr as (l' & _ & ([] & Hc%check_imports_Ok & [= <- <-])%result_bind_Ok).
  eapply Forall_impl; [exact Hc|]. intros i. apply check_import_one.
Qed.

Lemma read_overlay_spec path stack r : read_overlay fs path stack = Ok r ->
  exists c, cf_canonicalize fs path = Ok c /\ c ∉ stack /\ rd_dependencies r = {[c]} /\
    file_imports c = Some [] /\ secure_file fs c.
Proof.
  unfold read_overlay. intros (u & _ & (c & Hc%io_Ok & Hr)%result_bind_Ok)%result_bind_Ok.
  case_bool_decide; [done|]. apply result_bind_Ok in Hr as (text & [Hs Ht]%read_secure & Hr).
  apply result_bind_Ok in Hr as (d & Hd%map_err_Ok & ([l d'] & Hl%doc_Ok & Hr)%result_bind_Ok).
  destruct l; [|done]. injection Hr as <-. exists c. repeat split; try done.
  unfold file_imports. rewrite Ht. simpl. rewrite Hd. simpl. by rewrite Hl.
Qed.

(** What holds of a file [d] resolved under a stack, with the set of dependencies. *)
Record resolved_under (stack : list string) (d : string) (deps : gset string) : Prop := {
  ru_deps : forall p, p ∈ deps <-> rtc imports d p;
  ru_stack : forall p, rtc imports d p -> p ∉ stack;
  ru_acyclic : forall p, rtc imports d p -> ~ tc imports p p;
  ru_secure : forall p, rtc imports d p -> stack <> [] \/ p <> d -> secure_file fs p;
}.

Lemma overlay_resolved path stack r : read_overlay fs path stack = Ok r ->
  exists d, cf_canonicalize fs path = Ok d /\ resolved_under stack d (rd_dependencies r).
Proof.
  intros (c & Hc & Hn & Hd & Hi & Hs)%read_overlay_spec. exists c. split; [done|].
  assert (forall p, ~ imports c p) as Hno.
  { intros p (l & i & Hl & Hin & _). rewrite Hi in Hl. injection Hl as <-. by apply elem_of_nil in Hin. }
  assert (forall p, rtc imports c p -> p = c) as Hr.
  { intros p Hp. inversion Hp; subst; [done|]. by edestruct Hno. }
  split.
  - intros p. rewrite Hd, elem_of_singleton. split; [by intros ->|]. apply Hr.
  - by intros p ->%Hr.
  - intros p ->%Hr Ht. inversion Ht; subst; by edestruct Hno.
  - by intros p ->%Hr _.
Qed.

(** From the children of a file to the file. *)
Lemma resolved_under_step stack c deps :
  c ∉ stack -> (stack <> [] -> secure_file fs c) ->
  (forall d, imports c d -> exists deps', resolved_under (stack ++ [c]) d deps' /\ deps' ⊆ deps) ->
  c ∈ deps ->
  (forall p, p ∈ deps -> p = c \/ exists d deps', imports c d /\ resolved_under (stack ++ [c]) d deps' /\ p ∈ deps') ->
  resolved_under stack c deps.
Proof.
  intros Hn Hs Hc Hin Hd.
  assert (forall p, rtc imports c p -> p = c \/ exists d deps', imports c d /\ rtc imports d p /\
    resolved_under (stack ++ [c]) d deps' /\ deps' ⊆ deps) as Hr.
  { intros p Hp. inversion Hp as [|? d ? Hcd Hdp]; subst; [by left|]. right.
    destruct (Hc d Hcd) as (deps' & Hu & Hsub). eauto 10. }
  split.
  - intros p. split.
    + intros [->|(d & deps' & Hcd & Hu & Hp)]%Hd; [done|]. apply rtc_l with d; [done|]. by apply (ru_deps _ _ _ Hu).
    + intros [->|(d & deps' & Hcd & Hdp & Hu & Hsub)]%Hr; [done|]. by apply Hsub, (ru_deps _ _ _ Hu).
  - intros p [->|(d & deps' & _ & Hdp & Hu & _)]%Hr; [done|]. pose proof (ru_stack _ _ _ Hu p Hdp). set_solver.
  - intros p [->|(d & deps' & _ & Hdp & Hu & _)]%Hr; [|by apply (ru_acyclic _ _ _ Hu)].
    intros Ht. assert (exists d, imports c d /\ rtc imports d c) as (d & Hcd & Hdc).
    { inversion Ht; subst; eauto using tc_rtc, rtc_refl. }
    destruct (Hc d Hcd) as (deps' & Hu & _). pose proof (ru_stack _ _ _ Hu c Hdc). set_solver.
  - intros p [->|(d & deps' & _ & Hdp & Hu & _)]%Hr [Hx|Hx]; try done; [by apply Hs|..];
      apply (ru_secure _ _ _ Hu p Hdp); left; by destruct stack.
Qed.

(** The two ways a file imports another. *)
Lemma imports_cases c l e : file_imports c = Some l -> Forall (fun i => is_overlay i = None \/ is_file i = None) l ->
  imports c e <->
  (exists f, f ∈ omap is_overlay l /\ cf_canonicalize fs (parent_join c f) = Ok e) \/
  (exists i f, i ∈ List.filter (fun i => is_none (is_overlay i)) l /\ is_file i = Some f /\
     cf_canonicalize fs (parent_join c f) = Ok e).
Proof.
  intros Hi Hone.
  assert (forall (r : Result string string), result_ok r = Some e <-> r = Ok e) as Hok by (intros []; naive_solver).
  split.
  - intros (l' & i & Hl' & Hin & Htg). rewrite Hi in Hl'. injection Hl' as <-. unfold import_target in Htg.
    destruct (is_overlay i) as [f|] eqn:Ev; [left|right].
    + destruct (proj1 (Forall_forall _ _) Hone i Hin) as [E|E]; [congruence|]. rewrite E in Htg. simpl in Htg.
      exists f. split; [apply list_elem_of_omap; eauto|by apply Hok].
    + destruct (is_file i) as [f|] eqn:Ef; simpl in Htg; [|done]. exists i, f. repeat split; [|done|by apply Hok].
      apply list_elem_of_In, filter_In. by rewrite <- list_elem_of_In, Ev.
  - intros [(f & (i & Hin & Ev)%list_elem_of_omap & He)|(i & f & Hfl & Ef & He)].
    + exists l, i. repeat split; try done. unfold import_target.
      destruct (proj1 (Forall_forall _ _) Hone i Hin) as [E|E]; [congruence|]. rewrite E, Ev. by apply Hok.
    + apply list_elem_of_In, filter_In in Hfl as [Hin%list_elem_of_In _]. exists l, i. repeat split; try done.
      unfold import_target. rewrite Ef. by apply Hok.
Qed.

Lemma resolve_inner_spec fuel path stack r : resolve_inner fs max_import_depth fuel path stack = Ok r ->
  exists c, cf_canonicalize fs path = Ok c /\ resolved_under stack c (rd_dependencies r).
Proof.
  revert path stack r. induction fuel as [|fuel IH]; intros path stack r; simpl; [done|].
  case_match; [done|]. intros (u & _ & (c & Hc%io_Ok & Hr)%result_bind_Ok)%result_bind_Ok.
  case_bool_decide as Hn; [done|]. exists c. split; [done|].
  apply result_bind_Ok in Hr as (text & Ht & (d & Hd%map_err_Ok & ([l d'] & Hl%doc_Ok & Hr)%result_bind_Ok)%result_bind_Ok).
  apply result_bind_Ok in Hr as (r1 & [Hf1 Hp1]%merge_imports_deps & Hr); [|simpl; set_solver].
  apply result_bind_Ok in Hr as (r2 & Hm%doc_Ok%merge_resolved_deps & [Hf2 Hp2]%merge_overlays_deps).
  simpl in Hm, Hp1. apply take_imports_one in Hl as Hone.
  assert (file_imports c = Some l) as Hi.
  { unfold file_imports. rewrite (read_plain _ _ _ _ Ht). simpl. rewrite Hd. simpl. by rewrite Hl. }
  apply resolved_under_step; [done| | | |].
  - intros Hne. destruct stack; [done|]. by apply read_secure in Ht as [? _].
  - intros e [(f & Hfo & He)|(i & f & Hfl & Ef & He)]%(imports_cases c l e Hi Hone).
    + destruct (Hf2 f Hfo) as [r' Hr']. destruct (overlay_resolved _ _ _ Hr') as (e' & He' & Hu).
      same_result. exists (rd_dependencies r'). split; [done|]. intros p Hp. apply Hp2. right. by exists f, r'.
    + destruct (Hf1 i f Hfl Ef) as [r' Hr']. destruct (IH _ _ _ Hr') as (e' & He' & Hu).
      same_result. exists (rd_dependencies r'). split; [done|]. intros p Hp.
      apply Hp2. left. rewrite Hm. apply elem_of_union_l, Hp1. right. by exists i, f, r'.
  - apply Hp2. left. rewrite Hm. set_solver.
  - intros p. rewrite Hp2, Hm, elem_of_union, Hp1, !elem_of_singleton.
    intros [[[->|(i & f & r' & Hfl & Ef & Hr' & Hp)]| ->]|(f & r' & Hfo & Hr' & Hp)]; [by left| |by left|]; right.
    + destruct (IH _ _ _ Hr') as (e & He & Hu). exists e, (rd_dependencies r'). split_and!; [|done|done].
      apply (imports_cases c l e Hi Hone). right. by exists i, f.
    + destruct (overlay_resolved _ _ _ Hr') as (e & He & Hu). exists e, (rd_dependencies r').
      split_and!; [|done|done]. apply (imports_cases c l e Hi Hone). left. by exists f.
Qed.

(** * Loading *)

Context {C : Type}.
Variable deserialize : string -> Result C (string * string).
Variable to_yaml : Yaml -> Result string string.
Variable version_of : C -> N.

Lemma fuelled_load path : fuelled (load_tracked fs max_import_depth deserialize to_yaml version_of path).
Proof.
  assert (forall root, fuelled (resolve fs max_import_depth root)) as Hr by (intros root; apply fuelled_resolve; simpl; lia).
  unfold load_tracked, ensure_config_file, render_value, parse_resolved, validate_version.
  apply fuelled_bind; [fuelled|intros _ _]. apply fuelled_bind; [fuelled|intros root _].
  apply fuelled_bind; [apply Hr|intros r _]. apply fuelled_bind; [fuelled|intros t _].
  fuelled; [by destruct (deserialize t)|unfold ensure; by case_match].
Qed.

(** [C21] Loading a configuration always ends: the bound on the import depth is reached
    before the fuel.  When it succeeds, the dependencies are listed once each and are
    exactly the files that imports and overlays reach from the root; no file reaches
    itself, and every file but the root belongs to the user, is no larger than the
    limit, and cannot be written by anyone else. *)
Theorem load_dependencies_exact (path : string) :
  load_tracked fs max_import_depth deserialize to_yaml version_of path <> Err OutOfFuel /\
  forall loaded, load_tracked fs max_import_depth deserialize to_yaml version_of path = Ok loaded ->
    exists c, cf_canonicalize fs (lc_root loaded) = Ok c /\ NoDup (lc_dependencies loaded) /\
      resolved_under [] c (list_to_set (lc_dependencies loaded)).
Proof.
  split; [apply fuelled_load|]. intros loaded. unfold load_tracked.
  intros (u & _ & (root & _ & (r & Hr & (t & _ & (cfg & _ & [= <-])%result_bind_Ok)%result_bind_Ok)%result_bind_Ok)%result_bind_Ok)%result_bind_Ok.
  simpl. apply resolve_inner_spec in Hr as (c & Hc & Hu). exists c. split; [done|].
  unfold btree_elements. split; [rewrite sort_by_perm; apply NoDup_elements|].
  assert (list_to_set (sort_by String.compare (elements (rd_dependencies r))) = rd_dependencies r) as ->; [|done].
  apply set_eq. intros p. by rewrite elem_of_list_to_set, sort_by_perm, elem_of_elements.
Qed.
End facts.

(** The dependencies of the example, and that its overlay was checked. *)
Lemma load_dependencies_exact_witness :
  exists loaded, sample_load_tracked "root" = Ok loaded /\ lc_dependencies loaded = ["lib"; "over"; "root"] /\
    secure_file sample_fs "over".
Proof.
  destruct (sample_load_tracked "root") as [loaded|e] eqn:E; [|vm_compute in E; discriminate E].
  exists loaded. split; [reflexivity|].
  assert (lc_dependencies loaded = ["lib"; "over"; "root"] /\ lc_root loaded = "root") as [Hd Hr].
  { vm_compute in E. injection E as <-. split; reflexivity. }
  split; [exact Hd|].
  destruct (proj2 (@load_dependencies_exact sample_remove sample_syntax sample_fs
    DEFAULT_MAX_IMPORT_DEPTH N (fun _ => Ok 2) (fun _ => Ok "rendered") (fun v => v) "root") _ E) as (c & Hc & _ & Hu).
  rewrite Hr in Hc. injection Hc as <-. rewrite Hd in Hu.
  apply (ru_secure _ _ _ _ Hu); [apply (ru_deps _ _ _ _ Hu); set_solver|right; discriminate].
Defined.
