(* ===== verification/ResolveOrigins.v ===== *)
(** The origins of declarations: every one kept by the resolution of a configuration
    names a declaration of the resolved document, and the file or preset it is from. *)
From S2P Require Import Prelude Str Bytes Watch Loader LoaderFacts Presets PresetFacts.
From S2P Require Import Resolve.

Open Scope N_scope.

(** * Keys *)

Lemma elem_flat_map {A B} (f : A -> list B) l y : y ∈ flat_map f l <-> exists x, x ∈ l /\ y ∈ f x.
Proof.
  rewrite list_elem_of_In, in_flat_map. setoid_rewrite <- list_elem_of_In. done.
Qed.

(** A key of a document: a section of its own, a declaration of a named map, or an
    item of a named list. *)
Inductive document_key (v : Yaml) : string -> Prop :=
| key_section s : s ∈ ["management"; "catalog"] -> has_section v s = true -> document_key v s
| key_declaration s k id : s ∈ NAMED_MAPS -> as_str k = Some id -> is_Some (declared v s k) ->
    document_key v (origin_key s id)
| key_item s id : s ∈ NAMED_SEQUENCES -> id ∈ omap item_id (listed v s) -> document_key v (origin_key s id).

Lemma is_Some_map_get k m : is_Some (map_get k m) <-> k ∈ m.*1.
Proof.
  destruct (decide (k ∈ m.*1)) as [Hk|Hk].
  - split; [done|intros _]. destruct (map_get k m) eqn:E; [eauto|]. by apply map_get_None in E.
  - pose proof Hk as E%map_get_None. rewrite E. split; [by intros [? ?]|done].
Qed.

Lemma declared_keys_spec path v k : k ∈ declared_keys path (root_of v) <-> document_key v k.
Proof.
  unfold declared_keys. rewrite !elem_of_app, !elem_flat_map. split.
  - intros [(s & Hs & Hk)|[(s & Hs & Hk)|(s & Hs & Hk)]].
    + destruct (map_has _ _) eqn:E; [|by apply elem_of_nil in Hk].
      apply list_elem_of_singleton in Hk as ->. by apply key_section.
    + apply list_elem_of_In, in_map_iff in Hk as (id & <- & Hk%list_elem_of_In).
      apply list_elem_of_omap in Hk as (k & Hk & Hid). apply (key_declaration v s k); [done|done|].
      by apply is_Some_map_get.
    + apply list_elem_of_In, in_map_iff in Hk as (id & <- & Hk%list_elem_of_In).
      apply key_item; [done|]. apply list_elem_of_omap in Hk as (d & Hd & Hid). apply list_elem_of_omap.
      exists d. split; [done|]. rewrite declaration_id_item in Hid. by destruct (item_id d).
  - intros [s Hs Hh|s k' id Hs Hk Hd|s id Hs Hin].
    + left. exists s. split; [done|]. unfold has_section in Hh. rewrite Hh. by apply list_elem_of_singleton.
    + right; left. exists s. split; [done|]. apply list_elem_of_In, in_map, list_elem_of_In, list_elem_of_omap.
      exists k'. split; [by apply is_Some_map_get|done].
    + right; right. exists s. split; [done|]. apply list_elem_of_In, in_map, list_elem_of_In.
      apply list_elem_of_omap in Hin as (d & Hd & Hid). apply list_elem_of_omap. exists d. split; [done|].
      rewrite declaration_id_item, Hid. done.
Qed.

(** * One section *)

(** Going through the declarations of a section leaves an origin under a key only if the
    last one with the key is no removal, or there is none and it was there. *)
Lemma fold_origins {A} (key : A -> option string) (removed : A -> bool) (incoming : gmap string string) l o k :
  is_Some (foldl (fun o e => match key e with
                             | None => o
                             | Some k => change_origin incoming k (removed e) o
                             end) o l !! k) ->
  (exists l1 e l2, l = l1 ++ e :: l2 /\ key e = Some k /\ removed e = false /\ forall e', e' ∈ l2 -> key e' <> Some k)
  \/ (is_Some (o !! k) /\ forall e, e ∈ l -> key e <> Some k).
Proof.
  induction l as [|e l IH] using rev_ind; [intros Hk; right; split; [done|by intros ? ?%elem_of_nil]|].
  rewrite foldl_snoc. simpl. intros Hk.
  destruct (decide (key e = Some k)) as [Ek|Ek].
  - left. exists l, e, []. repeat split; [done| |by intros ? ?%elem_of_nil]. rewrite Ek in Hk.
    unfold change_origin in Hk. destruct (removed e); [|done]. rewrite lookup_delete_eq in Hk. by destruct Hk.
  - assert (is_Some (foldl (fun o e => match key e with
               | None => o | Some k => change_origin incoming k (removed e) o end) o l !! k)) as Hk'.
    { destruct (key e) as [k'|]; [|done]. unfold change_origin in Hk. destruct (removed e).
      - by rewrite lookup_delete_ne in Hk by congruence.
      - case_match; [|done]. by rewrite lookup_insert_ne in Hk by congruence. }
    destruct (IH Hk') as [(l1 & e1 & l2 & -> & H1 & H2 & H3)|[H1 H2]].
    + left. exists l1, e1, (l2 ++ [e]). rewrite <- app_assoc. repeat split; [done..|].
      intros e' [?| ->%list_elem_of_singleton]%elem_of_app; auto.
    + right. split; [done|]. intros e' [?| ->%list_elem_of_singleton]%elem_of_app; auto.
Qed.

Lemma foldl_same {A B} (f g : A -> B -> A) a l : (forall a b, f a b = g a b) -> foldl f a l = foldl g a l.
Proof. intros Hfg. revert a. induction l as [|b l IH]; intros a; simpl; [done|]. by rewrite Hfg, IH. Qed.

Lemma fold_sections (f : gmap string string -> string -> gmap string string) (k : string) (P : Prop)
    (Q : string -> Prop) l o :
  (forall o s, s ∈ l -> is_Some (f o s !! k) -> P \/ (is_Some (o !! k) /\ Q s)) ->
  is_Some (foldl f o l !! k) -> P \/ (is_Some (o !! k) /\ forall s, s ∈ l -> Q s).
Proof.
  induction l as [|s l IH] using rev_ind; intros Hf Hk; [right; split; [done|by intros ? ?%elem_of_nil]|].
  rewrite foldl_snoc in Hk. destruct (Hf _ s ltac:(set_solver) Hk) as [?|[Ho Hq]]; [by left|].
  destruct IH as [?|[Hx Hy]]; [|done|by left|].
  - intros o' s' Hs. apply Hf. set_solver.
  - right. split; [done|]. intros s' [?| ->%list_elem_of_singleton]%elem_of_app; auto.
Qed.

Section merge.
Context `{MappingRemove} (path : string) (additive : bool) (incoming_origins : gmap string string).
Context (base incoming r : Yaml).
Hypothesis base_distinct : distinct_keys base.
Hypothesis incoming_distinct : distinct_keys incoming.
Hypothesis merged : merge_document path base incoming additive = Ok r.

Lemma roots : exists i b m, root_of incoming = i /\ root_of base = b /\ root_of r = m /\
  merge_sections path additive b i = Ok m /\ distinct_keys (YMapping i) /\ distinct_keys (YMapping b).
Proof.
  destruct (merge_document_spec _ _ _ _ _ merged) as (i & b & m & Ei & Eb & Er & Hm & _).
  exists i, b, m. unfold root_of. rewrite Ei, Eb, Er. split_and!; try done.
  - exact (distinct_as_mapping _ _ incoming_distinct Ei).
  - exact (distinct_as_mapping _ _ base_distinct Eb).
Qed.

Lemma declares_kept bare i b o : declares path bare i b o -> i = None -> o = b.
Proof. by destruct 1. Qed.

Lemma declares_there bare d b o : declares path bare (Some d) b o -> directive_is_true d "remove" = false -> is_Some o.
Proof.
  inversion 1 as [|? v m w Hs Hm Hb|? v w u Hs Hu|? v Hs]; subst; intros Hr; [|eauto..].
  apply strip_directives_spec in Hs as (_ & m' & ? & ? & Hm' & _ & -> & _ & _ & Hg). simpl in Hg.
  unfold directive_is_true in Hr. rewrite Hm' in Hr. simpl in Hr. by rewrite Hg in Hr.
Qed.

(** What was declared under a key of a section is still declared. *)
Definition map_persists (k s : string) : Prop :=
  forall id key, k = origin_key s id -> as_str key = Some id -> is_Some (declared base s key) -> is_Some (declared r s key).
Definition list_persists (k s : string) : Prop :=
  forall id, k = origin_key s id -> id ∈ omap item_id (listed base s) -> id ∈ omap item_id (listed r s).

Lemma change_map_key o s k : s ∈ NAMED_MAPS ->
  is_Some (change_map incoming_origins (root_of incoming) o s !! k) ->
  document_key r k \/ (is_Some (o !! k) /\ map_persists k s).
Proof.
  intros Hs Hk. destruct roots as (i & b & m & Ei & Eb & Er & Hm & Hdi & Hdb).
  assert (forall id, declares path bare_declaration (declared incoming s id) (declared base s id) (declared r s id)) as Hd.
  { intros id. unfold declared. rewrite Ei, Eb, Er. by apply (section_maps path additive). }
  unfold change_map in Hk.
  erewrite (foldl_same _ (fun o e => match origin_key s <$> as_str e.1 with
      | None => o | Some k => change_origin incoming_origins k (directive_is_true e.2 "remove") o end)) in Hk;
    [|by intros ? [? ?]; simpl; destruct (as_str _)].
  apply (fold_origins (fun e : Yaml * Yaml => origin_key s <$> as_str e.1)) in Hk
    as [(l1 & [key d] & l2 & El & Hkey & Hr & _)|[Ho Hn]].
  - left. simpl in *. destruct (as_str key) as [id|] eqn:Eid; [|done]. injection Hkey as <-.
    apply (key_declaration r s key); [done|done|]. specialize (Hd key).
    assert (declared incoming s key = Some d) as E.
    { unfold declared. rewrite El. apply map_get_elem; [|set_solver]. rewrite <- El, Ei.
      unfold section_map. destruct (map_get _ _) as [v|] eqn:Gv; simpl; [|constructor].
      destruct (as_mapping v) as [mv|] eqn:Em; simpl; [|constructor].
      apply distinct_mapping_get in Hdi as [_ Hdi].
      by destruct (distinct_as_mapping _ _ (Hdi _ _ Gv) Em). }
    rewrite E in Hd. by eapply declares_there.
  - right. split; [done|]. intros id key -> Hkey Hb. specialize (Hd key).
    rewrite (declares_kept _ _ _ _ Hd); [done|]. apply map_get_None. intros ([k' v] & E & Hin)%list_elem_of_fmap.
    simpl in E. subst k'. apply (Hn _ Hin). simpl. by rewrite Hkey.
Qed.

Lemma merge_items_ids t i t' : Forall distinct_keys i -> merge_items path t i = Ok t' ->
  (forall id, id ∈ omap item_id t -> (forall d, d ∈ i -> item_id d <> Some id) -> id ∈ omap item_id t') /\
  (forall l1 d l2 id, i = l1 ++ d :: l2 -> item_id d = Some id -> directive_is_true d "remove" = false ->
     (forall d', d' ∈ l2 -> item_id d' <> Some id) -> id ∈ omap item_id t').
Proof.
  revert t. induction i as [|d i IH]; simpl; intros t Hi.
  - intros [= ->]. split; [done|]. by intros [].
  - apply Forall_cons in Hi as [Hd Hi]. intros (t1 & Hm & Hr)%result_bind_Ok.
    destruct (IH t1 Hi Hr) as [Hk Hl]. split.
    + intros id Hin Hno. apply Hk; [|set_solver]. apply (proj1 (merge_item_ids path t d t1 id Hd Hm)); [|done].
      apply Hno. set_solver.
    + intros [|d0 l1] d' l2 id E Hid Hrm Hlast; simplify_eq/=; [|by eapply Hl].
      apply Hk; [|done]. by apply (proj2 (merge_item_ids path t d' t1 id Hd Hm)).
Qed.

Lemma change_list_key o s k : s ∈ NAMED_SEQUENCES ->
  is_Some (change_list path additive incoming_origins (root_of incoming) o s !! k) ->
  document_key r k \/ (is_Some (o !! k) /\ list_persists k s).
Proof.
  intros Hs Hk. destruct roots as (i & b & m & Ei & Eb & Er & Hm & Hdi & Hdb).
  pose proof (section_items path additive b i m s Hm ltac:(by destruct Hdi) Hs) as Hl.
  unfold list_persists, listed. unfold change_list in Hk. rewrite Ei in Hk. rewrite Eb, Er.
  unfold map_has in Hl. destruct (map_get (YString s) i) as [v|] eqn:Gi; simpl in *; [|right; by rewrite Hl].
  assert (section_list i s = default [] (as_sequence v)) as El by (unfold section_list; by rewrite Gi).
  destruct (as_sequence v) as [l|] eqn:Es; simpl in *.
  - rewrite El in Hl.
    erewrite (foldl_same _ (fun o d => match origin_key s <$> item_id d with
      | None => o | Some k => change_origin incoming_origins k (directive_is_true d "remove") o end)) in Hk;
      [|intros ? d'; rewrite declaration_id_item; by destruct (item_id d')].
    apply (fold_origins (fun d => origin_key s <$> item_id d)) in Hk as [(l1 & d & l2 & El' & Hkey & Hr & Hlast)|[Ho Hn]].
    + left. destruct (item_id d) as [id|] eqn:Eid; [|done]. injection Hkey as <-. apply key_item; [done|].
      unfold listed. rewrite Er. destruct (additive || existsb has_directive l).
      * apply merge_items_ids in Hl as [_ Hl]; [|rewrite <- El; by apply section_list_distinct].
        apply (Hl l1 d l2); try done. intros d' Hd' E. apply (Hlast d' Hd'). by rewrite E.
      * rewrite Hl, El'. apply list_elem_of_omap. exists d. set_solver.
    + rewrite <- negb_orb in Ho. destruct (additive || existsb has_directive l); simpl in Ho; right.
      * split; [done|]. intros id -> Hin. apply merge_items_ids in Hl as [Hl _];
          [|rewrite <- El; by apply section_list_distinct].
        apply Hl; [done|]. intros d Hd E. apply (Hn d Hd). by rewrite E.
      * destruct Ho as [x [Hx Hp]%map_lookup_filter_Some]. split; [eauto|]. intros id ->. exfalso. simpl in Hp.
        assert (starts_with (origin_key s id) (s +:+ ".") = true) as E; [|congruence].
        apply starts_with_spec. exists id. unfold origin_key. by rewrite str_app_assoc.
  - (* a section that is no list does not merge *)
    exfalso. pose proof (merge_sections_get path additive b i m ltac:(by destruct Hdi) Hm (YString s)) as Hg.
    rewrite Gi in Hg. destruct Hg as (u & Hu & _). unfold section_value in Hu.
    change (default "" (as_str (YString s))) with s in Hu.
    rewrite (sequence_not_map s Hs), (proj2 (member_spec _ _) Hs), Es in Hu. done.
Qed.

Lemma section_present s : s ∈ ["management"; "catalog"] ->
  has_section incoming s = true \/ has_section base s = true -> has_section r s = true.
Proof.
  intros Hs Hh. destruct roots as (i & b & m & Ei & Eb & Er & Hm & Hdi & Hdb).
  assert (merge_option path (map_get (YString s) i) (map_get (YString s) b) = Ok (map_get (YString s) m)) as Ho.
  { apply (section_others path additive); [done|by destruct Hdi|].
    repeat (apply elem_of_cons in Hs as [->|Hs]; [done|]). by apply elem_of_nil in Hs. }
  unfold has_section, map_has in *. rewrite Ei, Eb, Er in *.
  destruct (map_get _ m); [done|]. destruct (map_get _ i), (map_get _ b); simplify_eq/=; [|by destruct Hh].
  by apply result_bind_Ok in Ho as (? & _ & ?).
Qed.

(** Every origin left names a declaration of the merged document. *)
Lemma apply_origin_changes_keys o k : (forall k, is_Some (o !! k) -> document_key base k) ->
  is_Some (apply_origin_changes path additive o incoming incoming_origins !! k) -> document_key r k.
Proof.
  intros Hb. unfold apply_origin_changes.
  destruct (merge_document_spec _ _ _ _ _ merged) as (i & b & m & Ei & _). rewrite Ei.
  assert (i = root_of incoming) as -> by (unfold root_of; by rewrite Ei). intros Hk.
  apply (fold_sections _ k (document_key r k) (list_persists k)) in Hk as [?|[Hk Hl]];
    [done| |intros o' s; apply change_list_key].
  apply (fold_sections _ k (document_key r k) (map_persists k)) in Hk as [?|[Hk Hm]];
    [done| |intros o' s; apply change_map_key].
  apply (fold_sections _ k (document_key r k) (fun _ => True)) in Hk as [?|[Hk _]]; [done| |].
  - destruct (Hb k Hk) as [s Hs Hh|s key id Hs Hkey Hd|s id Hs Hin].
    + apply key_section; [done|]. apply section_present; auto.
    + apply (key_declaration _ _ key); [done|done|]. by apply (Hm s Hs id).
    + apply key_item; [done|]. by apply (Hl s Hs).
  - intros o' s Hs. case_match eqn:Hh; [|by right]. unfold change_origin. case_match; [|by right].
    destruct (decide (k = s)) as [->|Hne]; [|rewrite lookup_insert_ne by done; by right].
    left. apply key_section; [done|]. apply section_present; [done|by left].
Qed.
End merge.

(** * The resolution *)

Section resolution.
Context `{MappingRemove, ConfigSyntax}.
Variable fs : ConfigFs.
Variable max_import_depth : nat.
(** The parser makes mappings with distinct keys. *)
Hypothesis parse_distinct : forall text v, yaml_parse text = Ok v -> distinct_keys v.

(** The document of a file, without its imports. *)
Definition file_document (c : string) : option Yaml :=
  text ← result_ok (read_config_file fs c false);
  document ← result_ok (yaml_parse text);
  snd <$> result_ok (take_imports document c).

(** Where the declaration of a key is from: a file that declares it, or a preset that
    declares it and is imported by a file, under the preset's name. *)
Inductive origin_of (deps : gset string) (k : string) : string -> Prop :=
| origin_file c v : c ∈ deps -> file_document c = Some v -> document_key v k -> origin_of deps k c
| origin_preset c l i name v :
    c ∈ deps -> file_imports fs c = Some l -> i ∈ l -> is_preset i = Some name ->
    expand_preset i c = Ok v -> document_key v k ->
    origin_of deps k ("preset:" +:+ name +:+ " (" +:+ c +:+ ")").

Lemma origin_weaken deps deps' k o : origin_of deps k o -> deps ⊆ deps' -> origin_of deps' k o.
Proof. intros [c v|c l i name v] Hs; [eapply origin_file|eapply origin_preset]; eauto. Qed.

Lemma expand_preset_named i c v : expand_preset i c = Ok v -> exists name, is_preset i = Some name.
Proof. unfold expand_preset. destruct (is_preset i); [eauto|done]. Qed.

Record traced (r : ResolvedDocument) : Prop := {
  tr_distinct : distinct_keys (rd_value r);
  tr_keys : forall k, is_Some (rd_origins r !! k) -> document_key (rd_value r) k;
  tr_sources : forall k o, rd_origins r !! k = Some o -> origin_of (rd_dependencies r) k o;
}.

Lemma change_origin_source (P : string -> string -> Prop) inc k removed o :
  (forall k x, inc !! k = Some x -> P k x) -> (forall k x, o !! k = Some x -> P k x) ->
  forall k' x, change_origin inc k removed o !! k' = Some x -> P k' x.
Proof.
  intros Hi Ho k' x. unfold change_origin. destruct removed; [intros [_ Hx]%lookup_delete_Some; eauto|].
  case_match; [|eauto]. intros [[<- <-]|[_ Hx]]%lookup_insert_Some; eauto.
Qed.

Lemma foldl_keeps {A B} (P : A -> Prop) (f : A -> B -> A) a l :
  (forall a b, P a -> P (f a b)) -> P a -> P (foldl f a l).
Proof. intros Hf. revert a. induction l; simpl; auto. Qed.

Lemma apply_origin_sources (P : string -> string -> Prop) path additive o v inc :
  (forall k x, inc !! k = Some x -> P k x) -> (forall k x, o !! k = Some x -> P k x) ->
  forall k x, apply_origin_changes path additive o v inc !! k = Some x -> P k x.
Proof.
  intros Hi Ho. unfold apply_origin_changes. case_match; [|done].
  apply (foldl_keeps (fun o => forall k x, o !! k = Some x -> P k x)).
  { intros o' s Ho'. unfold change_list. case_match; [|done].
    apply (foldl_keeps (fun o => forall k x, o !! k = Some x -> P k x)).
    - intros o'' d Ho''. case_match; [|done]. by apply change_origin_source.
    - case_match; [|done]. intros k x [Hx _]%map_lookup_filter_Some. eauto. }
  apply (foldl_keeps (fun o => forall k x, o !! k = Some x -> P k x)).
  { intros o' s Ho'. unfold change_map. apply (foldl_keeps (fun o => forall k x, o !! k = Some x -> P k x)); [|done].
    intros o'' e Ho''. case_match; [|done]. by apply change_origin_source. }
  apply (foldl_keeps (fun o => forall k x, o !! k = Some x -> P k x)); [|done].
  intros o' s Ho'. case_match; [|done]. by apply change_origin_source.
Qed.

Lemma merge_resolved_traced path additive b i r : traced b -> distinct_keys (rd_value i) ->
  (forall k o, rd_origins i !! k = Some o -> origin_of (rd_dependencies i) k o) ->
  merge_resolved path additive b i = Ok r -> traced r.
Proof.
  intros [Hd Hk Hs] Hdi Hsi. unfold merge_resolved. intros (v & Hv & [= <-])%result_bind_Ok. split; simpl.
  - by eapply merge_document_distinct in Hv.
  - intros k. by apply (apply_origin_changes_keys path additive (rd_origins i) (rd_value b) (rd_value i)).
  - apply apply_origin_sources; intros k x Hx; (eapply origin_weaken; [eauto|set_solver]).
Qed.

Lemma collect_origins_source document c k o : collect_origins document c !! k = Some o -> o = c.
Proof.
  unfold collect_origins. case_match; [|by rewrite lookup_empty].
  revert k o. apply (foldl_keeps (fun m : gmap string string => forall k o, m !! k = Some o -> o = c)).
  - intros a b Ha k o [[_ <-]|[_ Hx]]%lookup_insert_Some; eauto.
  - intros k o. by rewrite lookup_empty.
Qed.

Lemma take_imports_distinct document path l d : distinct_keys document -> take_imports document path = Ok (l, d) ->
  distinct_keys d.
Proof.
  intros Hd. unfold take_imports. intros (m & Hm & Hr)%result_bind_Ok.
  destruct (as_mapping document) eqn:Em; simplify_eq/=. case_match; [|by simplify_eq].
  apply result_bind_Ok in Hr as (l' & _ & (? & _ & [= <- <-])%result_bind_Ok).
  apply distinct_retag, distinct_remove. by eapply distinct_as_mapping.
Qed.

Lemma collect_origins_key document c k o : collect_origins document c !! k = Some o -> document_key document k.
Proof.
  intros Hk. apply (declared_keys_spec c). revert Hk. unfold collect_origins, root_of.
  destruct (as_mapping document) as [root|]; [|by rewrite lookup_empty]. simpl.
  induction (declared_keys c root) as [|x l IH] using rev_ind; simpl; [by rewrite lookup_empty|].
  rewrite foldl_snoc, elem_of_app, list_elem_of_singleton.
  intros [[-> _]|[_ Hx]]%lookup_insert_Some; auto.
Qed.

Lemma read_document c b text d l v : read_config_file fs c b = Ok text -> yaml_parse text = Ok d ->
  take_imports d c = Ok (l, v) -> file_document c = Some v /\ file_imports fs c = Some l.
Proof.
  intros Ht Hd Hl. apply read_plain in Ht. unfold file_document, file_imports. rewrite Ht. simpl.
  rewrite Hd. simpl. by rewrite Hl.
Qed.

Lemma document_sources c v k o : file_document c = Some v ->
  collect_origins v c !! k = Some o -> origin_of {[c]} k o.
Proof.
  intros Hv Hk. pose proof (collect_origins_source _ _ _ _ Hk) as ->. eapply origin_file; [set_solver|done|].
  by eapply collect_origins_key.
Qed.

Lemma merge_imports_traced rf c all l r0 r : (forall p r', rf p = Ok r' -> traced r') -> traced r0 ->
  file_imports fs c = Some all -> l ⊆ all -> merge_imports rf c l r0 = Ok r -> traced r.
Proof.
  intros Hf Hr0 Hall. revert r0 Hr0. induction l as [|i l IH]; simpl; intros r0 Hr0 Hl; [by intros [= ->]|].
  intros ([x additive] & Hx & (r1 & Hm%doc_Ok & Hr)%result_bind_Ok)%result_bind_Ok.
  apply (IH r1); [|set_solver|done].
  destruct (is_file i) as [f|]; apply result_bind_Ok in Hx as (r' & Hx & [= <- <-]).
  - apply Hf in Hx as [Hd _ Hs]. by eapply merge_resolved_traced in Hm.
  - unfold resolve_preset in Hx. apply result_bind_Ok in Hx as (v & Hv%doc_Ok & [= <-]).
    eapply merge_resolved_traced in Hm; [done|done| |]; simpl; [by apply (preset_distinct parse_distinct i c)|].
    intros k o (o' & <- & Hk)%lookup_fmap_Some. destruct (expand_preset_named _ _ _ Hv) as [name En].
    unfold preset_source. rewrite En. simpl. apply (origin_preset _ _ c all i name v); [set_solver|done|set_solver|done|done|].
    by eapply collect_origins_key.
Qed.

Lemma read_overlay_traced path stack r : read_overlay fs path stack = Ok r ->
  distinct_keys (rd_value r) /\ forall k o, rd_origins r !! k = Some o -> origin_of (rd_dependencies r) k o.
Proof.
  unfold read_overlay. intros (u & _ & (c & _ & Hr)%result_bind_Ok)%result_bind_Ok. case_bool_decide; [done|].
  apply result_bind_Ok in Hr as (text & Ht & (d & Hd%map_err_Ok & ([l d'] & Hl%doc_Ok & Hr)%result_bind_Ok)%result_bind_Ok).
  destruct (read_document c _ _ _ _ _ Ht Hd Hl) as [Hv _].
  destruct l; simplify_eq/=. split; [|intros k o; by apply document_sources]. eapply take_imports_distinct; [|done].
  by eapply parse_distinct.
Qed.

Lemma merge_overlays_traced stack c l r0 r : traced r0 -> merge_overlays fs stack c l r0 = Ok r -> traced r.
Proof.
  revert r0. induction l as [|f l IH]; simpl; intros r0 Hr0; [by intros [= ->]|].
  intros (x & [Hd Hs]%read_overlay_traced & (r1 & Hm%doc_Ok & Hr)%result_bind_Ok)%result_bind_Ok.
  apply (IH r1); [|done]. by eapply merge_resolved_traced in Hm.
Qed.

Lemma resolve_inner_traced fuel path stack r :
  resolve_inner fs max_import_depth fuel path stack = Ok r -> traced r.
Proof.
  revert path stack r. induction fuel as [|fuel IH]; intros path stack r; simpl; [done|].
  case_match; [done|]. intros (u & _ & (c & _ & Hr)%result_bind_Ok)%result_bind_Ok.
  case_bool_decide; [done|].
  apply result_bind_Ok in Hr as (text & Ht & (d & Hd%map_err_Ok & ([l d'] & Hl%doc_Ok & Hr)%result_bind_Ok)%result_bind_Ok).
  destruct (read_document c _ _ _ _ _ Ht Hd Hl) as [Hv Hi].
  apply result_bind_Ok in Hr as (r1 & Hr1 & (r2 & Hr2%doc_Ok & Hr)%result_bind_Ok).
  eapply merge_overlays_traced; [|done]. eapply merge_resolved_traced in Hr2; [done| | |]; simpl.
  - eapply merge_imports_traced; [intros p r'; apply IH| |exact Hi| |exact Hr1].
    2: { intros i [Hin _]%list_elem_of_In%filter_In. by apply list_elem_of_In. }
    split; simpl.
    + by repeat constructor.
    + intros k. rewrite lookup_empty. by intros [? ?].
    + intros k o. by rewrite lookup_empty.
  - eapply take_imports_distinct; [|done]. by eapply parse_distinct.
  - intros k o. by apply document_sources.
Qed.

(** * Errors of the deserialiser *)

Context {C : Type}.
Variable deserialize : string -> Result C (string * string).
Variable version_of : C -> N.

Lemma parse_resolved_label root rendered r source field message :
  parse_resolved deserialize version_of root rendered r = Err (InvalidField source field message) ->
  source = root \/ exists key, origin_key_for_path field (rd_value r) (rd_origins r) = Some key /\
    rd_origins r !! key = Some source.
Proof.
  unfold parse_resolved, validate_version, ensure.
  destruct (deserialize rendered) as [c|[f m]]; simpl; [by case_match|].
  destruct (origin_key_for_path f _ _) as [key|] eqn:Ek; simpl; [|intros [= <- _ _]; by left].
  destruct (rd_origins r !! key) as [o|] eqn:Eo; simpl; intros [= <- <- <-]; [right|by left]. by exists key.
Qed.

(** [C22] In a resolved configuration every origin is kept under the key of a declaration
    that is in the resolved document, and is one of two things: a file the configuration
    depends on, whose own document declares that key, or [preset:name (file)] where the
    file is such a dependency, imports the preset of that name, and the preset as that
    import expands it declares the key.  An error of the deserialiser is attributed to
    the root, or to an origin kept under the key its path is resolved to. *)
Theorem origins_traced (path : string) (r : ResolvedDocument) :
  resolve fs max_import_depth path = Ok r ->
  (forall k o, rd_origins r !! k = Some o ->
     k ∈ declared_keys path (root_of (rd_value r)) /\ origin_of (rd_dependencies r) k o) /\
  forall root rendered source field message,
    parse_resolved deserialize version_of root rendered r = Err (InvalidField source field message) ->
    source = root \/
    exists k, origin_key_for_path field (rd_value r) (rd_origins r) = Some k /\
      origin_of (rd_dependencies r) k source.
Proof.
  intros [_ Hk Hs]%resolve_inner_traced. split.
  - intros k o Ho. split; [apply declared_keys_spec, Hk|]; eauto.
  - intros root rendered source field message [->|(key & Hp & Ho)]%parse_resolved_label; eauto.
Qed.
End resolution.

Lemma sample_documents_distinct text v : yaml_parse (ConfigSyntax := sample_syntax) text = Ok v -> distinct_keys v.
Proof.
  simpl. unfold sample_documents. destruct (_ !! text) as [w|] eqn:E; simpl; [|done]. intros [= ->].
  apply elem_of_list_to_map_2 in E.
  repeat (apply elem_of_cons in E as [[= -> ->]|E]; [decide_distinct|]). by apply elem_of_nil in E.
Qed.

(** The upstream of the example is the overlay's. *)
Lemma origins_traced_witness :
  exists r, sample_resolve "root" = Ok r /\ rd_origins r !! "upstreams.a" = Some "over" /\
    @origin_of sample_remove sample_syntax sample_fs (rd_dependencies r) "upstreams.a" "over".
Proof.
  destruct (sample_resolve "root") as [r|e] eqn:E; [|vm_compute in E; discriminate E].
  exists r. split; [reflexivity|].
  assert (rd_origins r !! "upstreams.a" = Some "over") as Ho by (vm_compute in E; injection E as <-; reflexivity).
  split; [exact Ho|].
  apply (proj1 (@origins_traced sample_remove sample_syntax sample_fs DEFAULT_MAX_IMPORT_DEPTH
    sample_documents_distinct N (fun _ => Ok 2) (fun v => v) "root" r E)
    "upstreams.a" "over" Ho).
Defined.
