(* ===== verification/Request.v ===== *)
(** The protocol-neutral request (crates/pooler-protocol/src/model.rs), and the binary32 numbers
    its sampling parameters are. *)
From S2P Require Import Prelude Str Bytes Json Extensions Events.

Open Scope N_scope.

(** * Floating point *)

(** A finite [f64] or [f32] is its IEEE 754 representation: sign, exponent and fraction.  The
    hidden bit is added to the exponent field, so that a carry out of the rounded significand
    is the next exponent. *)
Definition F32 : Type := N.
Definition F64_SIGN : N := 2 ^ 63.
Definition F32_SIGN : N := 2 ^ 31.
(** [f32::MAX as f64]. *)
Definition F32_MAX_AS_F64 : N := 0x47EFFFFFE0000000.
Definition f64_is_finite (b : N) : bool := (N.shiftr b 52) mod 2 ^ 11 <? 2047.

(** [n / 2^s], to the nearest, ties to even. *)
Definition round_shift (n s : N) : N :=
  let q := n / 2 ^ s in
  let r := 2 * (n mod 2 ^ s) in
  if r <? 2 ^ s then q else if 2 ^ s <? r then q + 1 else q + q mod 2.

(** [n as f64] for a [u64]. *)
Definition u64_to_f64 (n : N) : N :=
  if n =? 0 then 0
  else
    let k := N.log2 n in
    (k + 1022) * 2 ^ 52 + (if k <=? 52 then n * 2 ^ (52 - k) else round_shift n (k - 52)).
(** [Value::as_f64]. *)
Definition number_as_f64 (n : Number) : N :=
  match n with
  | PosInt n => u64_to_f64 n
  | NegInt z => F64_SIGN + u64_to_f64 (Z.abs_N z)
  | Float b => b
  end.
(** [x as f32] for a finite [f64] that is no larger than the largest [f32]. *)
Definition f64_to_f32 (b : N) : F32 :=
  let e := (N.shiftr b 52) mod 2 ^ 11 in
  let f := b mod 2 ^ 52 in
  let significand := if e =? 0 then f else 2 ^ 52 + f in
  let e := N.max e 1 in
  (if F64_SIGN <=? b then F32_SIGN else 0)
  + (if 897 <=? e then (e - 897) * 2 ^ 23 + round_shift significand 29
     else round_shift significand (29 + (897 - e))).
(** [x as f64] for a finite [f32]. *)
Definition f32_to_f64 (x : F32) : N :=
  let e := (N.shiftr x 23) mod 2 ^ 8 in
  let f := x mod 2 ^ 23 in
  (if F32_SIGN <=? x then F64_SIGN else 0)
  + (if negb (e =? 0) then (e + 896) * 2 ^ 52 + f * 2 ^ 29
     else if f =? 0 then 0
     else let k := N.log2 f in (k + 873) * 2 ^ 52 + f * 2 ^ (52 - k)).
(** [value.is_finite() && f32::MIN as f64 <= value && value <= f32::MAX as f64]. *)
Definition in_f32_range (b : N) : bool := f64_is_finite b && (b mod F64_SIGN <=? F32_MAX_AS_F64).

(** * Requests *)

Inductive Role := RoleSystem | RoleDeveloper | RoleUser | RoleAssistant | RoleTool.
#[export] Instance Role_eq_dec : EqDecision Role.
Proof. solve_decision. Defined.

Record TargetMetadata := MkTargetMetadata {
  tm_provider : option string; tm_model : option string; tm_endpoint : option string; tm_region : option string;
  tm_account : option string; tm_metadata : gmap string string; tm_extensions : Extensions }.

Record ToolCall := MkToolCall {
  tc_id : string; tc_name : string; tc_arguments : PreservedJson; tc_dependencies : list string; tc_extensions : Extensions }.
Definition tool_call_new (id name : string) (arguments : PreservedJson) : ToolCall := MkToolCall id name arguments [] [].

Inductive ContentPart :=
| PartText (text : string)
| PartImage (media_type : string) (source : MediaSource) (detail : option string)
| PartFile (name : option string) (media_type : string) (source : MediaSource)
| PartAudio (media_type : string) (source : MediaSource)
| PartReasoning (block : ReasoningBlock)
| PartToolCall (call : ToolCall)
| PartToolResult (result : ToolResult)
| PartProvider (namespace name : string) (data : PreservedJson)
with ToolResult :=
| MkToolResult (tool_call_id : string) (content : list ContentPart) (is_error : bool) (extensions : Extensions).

Record Message := MkMessage {
  ms_id : option string; ms_role : Role; ms_content : list ContentPart; ms_name : option string;
  ms_tool_call_id : option string; ms_metadata : gmap string string; ms_extensions : Extensions }.

Inductive InputItem :=
| ItemMessage (message : Message)
| ItemToolCall (call : ToolCall)
| ItemToolResult (result : ToolResult)
| ItemContent (content : ContentPart)
| ItemProvider (namespace name : string) (data : PreservedJson).

Inductive ReasoningEffort := EffortLow | EffortMedium | EffortHigh | EffortMax | EffortCustom (value : string).
Record ReasoningConfig := MkReasoningConfig {
  rc_effort : option ReasoningEffort; rc_include_summary : bool; rc_extensions : Extensions }.
Record ToolDefinition := MkToolDefinition {
  td_name : string; td_description : option string; td_parameters : option PreservedJson; td_strict : option bool;
  td_extensions : Extensions }.
Inductive ToolChoice := ChoiceAuto | ChoiceNone | ChoiceRequired | ChoiceTool (name : string).
Record SamplingParameters := MkSampling {
  sa_temperature : option F32; sa_top_p : option F32; sa_max_output_tokens : option N; sa_stop : list string;
  sa_seed : option N; sa_presence_penalty : option F32; sa_frequency_penalty : option F32; sa_extensions : Extensions }.
Definition sampling_default : SamplingParameters := MkSampling None None None [] None None None [].
Inductive ResponseFormat := FormatText | FormatJsonObject | FormatJsonSchema (name : string) (schema : PreservedJson) (strict : bool).
Record CacheHints := MkCacheHints {
  ch_allow_prompt_cache : bool; ch_prefer_cache_read : bool; ch_key : option string; ch_extensions : Extensions }.

Record SemanticRequest := MkRequest {
  rq_model : string; rq_target : option TargetMetadata; rq_input : list InputItem; rq_tools : list ToolDefinition;
  rq_tool_choice : option ToolChoice; rq_reasoning : option ReasoningConfig; rq_sampling : SamplingParameters;
  rq_response_format : option ResponseFormat; rq_cache : option CacheHints; rq_continuation_id : option string;
  rq_session_id : option string; rq_metadata : gmap string string; rq_extensions : Extensions }.

Inductive RequestValidationError := RvEmptyModel | RvEmptyToolName | RvDuplicateToolName (name : string).

(** The loop of [validate] over the tools, with the names seen so far. *)
Fixpoint validate_tools (names : list string) (tools : list ToolDefinition) : Result unit RequestValidationError :=
  match tools with
  | [] => Ok tt
  | tool :: tools =>
    if str_is_empty (trim (td_name tool)) then Err RvEmptyToolName
    else if existsb (String.eqb (td_name tool)) names then Err (RvDuplicateToolName (td_name tool))
    else validate_tools (names ++ [td_name tool]) tools
  end.
Definition request_validate (r : SemanticRequest) : Result unit RequestValidationError :=
  if str_is_empty (trim (rq_model r)) then Err RvEmptyModel else validate_tools [] (rq_tools r).

(** * Numbers that are read back *)

Definition f32_finite (x : F32) : Prop := x < 2 ^ 32 /\ (N.shiftr x 23) mod 2 ^ 8 < 255.

Example one_tenth : f64_to_f32 0x3FB999999999999A = 0x3DCCCCCD.
Proof. reflexivity. Qed.
Example smallest_subnormal : f32_to_f64 1 = 0x36A0000000000000 /\ f64_to_f32 0x36A0000000000000 = 1.
Proof. split; reflexivity. Qed.
Example large_integer : u64_to_f64 (2 ^ 53 + 3) = 0x4340000000000002.
Proof. reflexivity. Qed.
Example largest_f32 : f32_to_f64 0x7F7FFFFF = F32_MAX_AS_F64.
Proof. reflexivity. Qed.
Example negative_integer : number_as_f64 (NegInt (-2)) = 0xC000000000000000.
Proof. reflexivity. Qed.

(** The fields of a representation. *)
Lemma f64_fields s e f : s < 2 -> e < 2 ^ 11 -> f < 2 ^ 52 ->
  let b := s * 2 ^ 63 + e * 2 ^ 52 + f in
  (N.shiftr b 52) mod 2 ^ 11 = e /\ b mod 2 ^ 52 = f /\ (F64_SIGN <=? b) = (1 <=? s) /\ b mod F64_SIGN = e * 2 ^ 52 + f.
Proof.
  intros Hs He Hf b. rewrite N.shiftr_div_pow2.
  assert (Hb : b = (s * 2 ^ 11 + e) * 2 ^ 52 + f) by (unfold b; lia).
  assert (Hd : b / 2 ^ 52 = s * 2 ^ 11 + e) by (rewrite Hb, N.div_add_l, (N.div_small f) by lia; lia).
  split_and!.
  - rewrite Hd, N.add_comm, N.Div0.mod_add. by apply N.mod_small.
  - rewrite Hb, N.add_comm, N.Div0.mod_add. by apply N.mod_small.
  - unfold F64_SIGN, b. destruct (N.leb_spec 1 s), (N.leb_spec (2 ^ 63) (s * 2 ^ 63 + e * 2 ^ 52 + f)); lia.
  - unfold F64_SIGN. replace b with ((e * 2 ^ 52 + f) + s * 2 ^ 63) by (unfold b; lia). rewrite N.Div0.mod_add. apply N.mod_small. lia.
Qed.
Lemma f32_split x : x < 2 ^ 32 ->
  x = (if F32_SIGN <=? x then F32_SIGN else 0) + (N.shiftr x 23) mod 2 ^ 8 * 2 ^ 23 + x mod 2 ^ 23.
Proof.
  intros Hx. rewrite N.shiftr_div_pow2. pose proof (N.div_mod x (2 ^ 23)) as Hd. set (q := x / 2 ^ 23) in *. set (f := x mod 2 ^ 23) in *.
  assert (f < 2 ^ 23) by by apply N.mod_lt. assert (q < 2 ^ 9) by (apply N.Div0.div_lt_upper_bound; lia).
  pose proof (N.div_mod q (2 ^ 8)) as Hq. set (s := q / 2 ^ 8) in *. set (e := q mod 2 ^ 8) in *.
  assert (e < 2 ^ 8) by by apply N.mod_lt. assert (s < 2) by (apply N.Div0.div_lt_upper_bound; lia).
  unfold F32_SIGN. destruct (N.leb_spec (2 ^ 31) x); lia.
Qed.

Lemma round_exact n s : round_shift (n * 2 ^ s) s = n.
Proof.
  unfold round_shift. rewrite N.div_mul, N.Div0.mod_mul by (apply N.pow_nonzero; lia).
  pose proof (N.pow_nonzero 2 s ltac:(lia)). destruct (N.ltb_spec (2 * 0) (2 ^ s)); [done|lia].
Qed.
Lemma round_le n s c : n <= c * 2 ^ s -> round_shift n s <= c.
Proof.
  intros Hn. pose proof (N.pow_nonzero 2 s ltac:(lia)) as Hp. unfold round_shift.
  pose proof (N.div_mod n (2 ^ s) Hp) as Hd. pose proof (N.mod_lt n (2 ^ s) Hp) as Hm.
  set (q := n / 2 ^ s) in *. set (r := n mod 2 ^ s) in *. set (p := 2 ^ s) in *.
  assert (q <= c) by nia. destruct (decide (q = c)) as [-> |].
  - assert (r = 0) as -> by nia. destruct (N.ltb_spec (2 * 0) p); lia.
  - repeat case_match; try lia. pose proof (N.mod_lt q 2). lia.
Qed.

(** The [f64] of a finite [f32]: its fields. *)
Lemma widened x : f32_finite x ->
  exists e f, e < 1151 /\ f < 2 ^ 52 /\ f32_to_f64 x = (if F32_SIGN <=? x then 1 else 0) * 2 ^ 63 + e * 2 ^ 52 + f
    /\ (e * 2 ^ 52 + f <= F32_MAX_AS_F64)
    /\ x = (if F32_SIGN <=? x then F32_SIGN else 0)
           + (if 897 <=? N.max e 1 then (N.max e 1 - 897) * 2 ^ 23 + round_shift (if e =? 0 then f else 2 ^ 52 + f) 29
              else round_shift (if e =? 0 then f else 2 ^ 52 + f) (29 + (897 - N.max e 1))).
Proof.
  intros [Hx Hfin]. pose proof (f32_split x Hx) as Hsp. unfold f32_to_f64.
  set (e := (N.shiftr x 23) mod 2 ^ 8) in *. set (f := x mod 2 ^ 23) in *. assert (Hf : f < 2 ^ 23) by by apply N.mod_lt.
  set (sg := F32_SIGN <=? x) in *. clearbody e f sg. destruct (N.eqb_spec e 0) as [-> |He]; simpl negb; cbv iota.
  - destruct (N.eqb_spec f 0) as [-> |Hf0].
    + exists 0, 0. rewrite !N.max_r by lia. split_and!; [lia|lia|by destruct sg|done|]. rewrite Hsp at 1. by destruct sg.
    + pose proof (N.log2_spec f ltac:(lia)) as [Hlo Hhi]. set (k := N.log2 f) in *.
      assert (Hk : k < 23) by (apply (N.pow_lt_mono_r_iff 2); lia). rewrite N.pow_succ_r' in Hhi.
      assert (Hp : 2 ^ 52 = 2 ^ k * 2 ^ (52 - k)) by (rewrite <- N.pow_add_r; f_equal; lia).
      pose proof (N.pow_nonzero 2 (52 - k) ltac:(lia)) as Hnz. set (p := 2 ^ (52 - k)) in *.
      exists (k + 874), (f * p - 2 ^ 52). assert (2 ^ 52 <= f * p /\ f * p < 2 * 2 ^ 52) as [Ha Hb] by (rewrite Hp; split; nia).
      split_and!; [lia|lia|destruct sg; unfold F64_SIGN; lia|unfold F32_MAX_AS_F64; lia|].
      rewrite N.max_l by lia. destruct (N.leb_spec 897 (k + 874)); [lia|]. destruct (N.eqb_spec (k + 874) 0); [lia|].
      replace (2 ^ 52 + (f * p - 2 ^ 52)) with (f * p) by lia. replace (29 + (897 - (k + 874))) with (52 - k) by lia.
      unfold p. rewrite round_exact. rewrite Hsp at 1. lia.
  - exists (e + 896), (f * 2 ^ 29). split_and!; [lia|lia|destruct sg; unfold F64_SIGN; lia|unfold F32_MAX_AS_F64; lia|].
    rewrite N.max_l by lia. destruct (N.leb_spec 897 (e + 896)); [|lia]. destruct (N.eqb_spec (e + 896) 0); [lia|].
    replace (2 ^ 52 + f * 2 ^ 29) with ((2 ^ 23 + f) * 2 ^ 29) by lia. rewrite round_exact. rewrite Hsp at 1. lia.
Qed.

Lemma f32_roundtrip x : f32_finite x -> f64_to_f32 (f32_to_f64 x) = x /\ in_f32_range (f32_to_f64 x) = true.
Proof.
  intros Hx. destruct (widened x Hx) as (e & f & He & Hf & Hw & Hr & Hback). rewrite Hw.
  destruct (f64_fields (if F32_SIGN <=? x then 1 else 0) e f) as (H1 & H2 & H3 & H4); [by case_match|lia|done|].
  unfold f64_to_f32, in_f32_range, f64_is_finite. rewrite H1, H2, H3, H4. split.
  - symmetry. etransitivity; [exact Hback|]. by destruct (F32_SIGN <=? x).
  - apply andb_true_iff. rewrite N.ltb_lt, N.leb_le. split; [lia|done].
Qed.

(** What is read of a number in the range. *)
Lemma narrow_finite b : b < 2 ^ 64 -> in_f32_range b = true -> f32_finite (f64_to_f32 b).
Proof.
  intros Hb [Hfin Hr]%andb_true_iff. unfold f64_is_finite in Hfin. apply N.ltb_lt in Hfin. apply N.leb_le in Hr.
  assert (Hmag : forall q, q < 255 * 2 ^ 23 -> f32_finite ((if F64_SIGN <=? b then F32_SIGN else 0) + q)).
  { intros q Hq. unfold f32_finite, F32_SIGN. rewrite N.shiftr_div_pow2. split; [case_match; lia|].
    assert (Hd : ((if F64_SIGN <=? b then 2 ^ 31 else 0) + q) / 2 ^ 23 = (if F64_SIGN <=? b then 2 ^ 8 else 0) + q / 2 ^ 23).
    { case_match; [|done]. replace (2 ^ 31 + q) with (2 ^ 8 * 2 ^ 23 + q) by lia. by rewrite N.div_add_l. }
    rewrite Hd. assert (q / 2 ^ 23 < 255) by (apply N.Div0.div_lt_upper_bound; lia). case_match.
    - replace (2 ^ 8 + q / 2 ^ 23) with (q / 2 ^ 23 + 1 * 2 ^ 8) by lia. rewrite N.Div0.mod_add, N.mod_small; lia.
    - rewrite N.mod_small; lia. }
  unfold f64_to_f32. apply Hmag. rewrite N.shiftr_div_pow2 in *.
  set (e := b / 2 ^ 52 mod 2 ^ 11) in *. set (f := b mod 2 ^ 52). assert (Hf : f < 2 ^ 52) by by apply N.mod_lt.
  assert (Hmod : b mod F64_SIGN = e * 2 ^ 52 + f).
  { unfold e, f, F64_SIGN. replace (2 ^ 63) with (2 ^ 52 * 2 ^ 11) by done. rewrite N.Div0.mod_mul_r, N.add_comm, N.mul_comm. reflexivity. }
  rewrite Hmod in Hr. unfold F32_MAX_AS_F64 in Hr. assert (He : e <= 1150) by lia. clearbody e f.
  set (sig := if e =? 0 then f else 2 ^ 52 + f). assert (Hsig : sig < 2 * 2 ^ 52) by (unfold sig; destruct (e =? 0); lia).
  destruct (N.leb_spec 897 (N.max e 1)).
  - rewrite N.max_l by lia. destruct (decide (e = 1150)) as [-> |Hne].
    + assert (round_shift sig 29 <= 2 ^ 24 - 1) by (apply round_le; unfold sig; simpl; lia). lia.
    + assert (round_shift sig 29 <= 2 ^ 24) by (apply round_le; lia). lia.
  - assert (round_shift sig (29 + (897 - N.max e 1)) <= 2 ^ 24); [|lia]. apply round_le. rewrite N.pow_add_r.
    pose proof (N.pow_nonzero 2 (897 - N.max e 1) ltac:(lia)). nia.
Qed.

(** The representation of an integer. *)
Lemma u64_to_f64_bound n : n < 2 ^ 64 -> u64_to_f64 n < 2 ^ 63.
Proof.
  intros Hn. unfold u64_to_f64. destruct (N.eqb_spec n 0) as [|H0]; [lia|]. pose proof (N.log2_spec n ltac:(lia)) as [Hlo Hhi].
  set (k := N.log2 n) in *. rewrite N.pow_succ_r' in Hhi. assert (Hk : k < 64) by (apply (N.pow_lt_mono_r_iff 2); lia).
  assert ((if k <=? 52 then n * 2 ^ (52 - k) else round_shift n (k - 52)) <= 2 ^ 53); [|lia].
  destruct (N.leb_spec k 52).
  - assert (2 ^ 52 = 2 ^ k * 2 ^ (52 - k)) as Hp by (rewrite <- N.pow_add_r; f_equal; lia).
    replace (2 ^ 53) with (2 * 2 ^ 52) by done. rewrite Hp. nia.
  - apply round_le. assert (2 ^ 53 * 2 ^ (k - 52) = 2 * 2 ^ k) as ->; [|lia].
    rewrite <- N.pow_add_r. replace (53 + (k - 52)) with (N.succ k) by lia. by rewrite N.pow_succ_r'.
Qed.
