(* ===== verification/Redact.v ===== *)
(** The redaction of secrets from logs, headers and captured JSON
    (crates/pooler-observe/src/lib.rs): the scan of free text, the recursive
    sanitiser of JSON values, header maps, and the line-buffered writer. *)
From S2P Require Import Prelude Str Bytes Json JsonFacts.

Open Scope N_scope.

Definition REDACTED : string := "[REDACTED]".
Definition DEPTH_LIMIT : string := "[REDACTED:DEPTH_LIMIT]".
(** The ellipsis is U+2026. *)
Definition TRUNCATED : string := of_bytes [0xE2; 0x80; 0xA6] +:+ "[TRUNCATED]".

Definition DEFAULT_ALLOWED_HEADERS : list string :=
  ["accept"; "accept-encoding"; "accept-language"; "cache-control"; "content-length"; "content-type"; "host";
   "traceparent"; "tracestate"; "user-agent"; "x-request-id"].

Definition SENSITIVE_MARKERS : list string :=
  ["access_token"; "access-token"; "api_key"; "api-key"; "apikey"; "authorization"; "bearer"; "basic";
   "client_secret"; "client-secret"; "connection_string"; "connection-string"; "cookie"; "credential";
   "credentials"; "id_token"; "id-token"; "password"; "passphrase"; "private_key"; "private-key";
   "proxy_authorization"; "proxy-authorization"; "refresh_token"; "refresh-token"; "refresh"; "secret";
   "session_token"; "session-token"; "set_cookie"; "set-cookie"; "signing_key"; "signing-key"; "token";
   "webhook_secret"; "webhook-secret"; "x_api_key"; "x-api-key"].

Definition KNOWN_TOKEN_PREFIXES : list string :=
  ["AKIA"; "ASIA"; "AIza"; "gho_"; "ghp_"; "github_pat_"; "glpat-"; "hf_"; "npm_"; "pypi-"; "r8_"; "sk-"; "xapp-";
   "xoxb-"; "xoxp-"].

(** * Bytes *)

Definition UNDERSCORE : N := 0x5F.
Definition DASH : N := 0x2D.
Definition EQUALS : N := 0x3D.
Definition SQUOTE : N := 0x27.
Definition DQUOTE : N := 0x22.
Definition BACKSLASH : N := 0x5C.
Definition BDOT : N := 0x2E.

(** [u8::is_ascii_whitespace]. *)
Definition byte_is_whitespace (b : N) : bool :=
  (b =? 0x20) || (b =? 0x09) || (b =? 0x0A) || (b =? 0x0C) || (b =? 0x0D).

Definition is_identifier_byte (b : N) : bool := char_is_ascii_alphanumeric b || (b =? UNDERSCORE) || (b =? DASH).
Definition is_token_byte (b : N) : bool :=
  char_is_ascii_alphanumeric b || (b =? BDOT) || (b =? UNDERSCORE) || (b =? DASH) || (b =? 0x2F) || (b =? 0x2B)
  || (b =? EQUALS) || (b =? 0x7E) || (b =? COLON).
(** The bytes that end a value without quotes. *)
Definition ends_value (b : N) : bool :=
  byte_is_whitespace b || (b =? 0x2C) || (b =? 0x3B) || (b =? 0x7D) || (b =? 0x5D) || (b =? 0x26).
Definition is_assignment (b : N) : bool := (b =? COLON) || (b =? EQUALS).

(** [while cursor < bytes.len() && p(bytes[cursor]) { cursor += 1 }]. *)
Fixpoint count_while (p : N -> bool) (l : bytes) : nat :=
  match l with b :: l => if p b then S (count_while p l) else O | [] => O end.
Definition run_while (p : N -> bool) (l : bytes) (cursor : nat) : nat := cursor + count_while p (drop cursor l).

Definition value_separator (l : bytes) (cursor : nat) : option N := l !! run_while byte_is_whitespace l cursor.

(** [str::find] of a pattern in what is left of a text. *)
Fixpoint is_prefix (p l : bytes) : bool :=
  match p, l with
  | [], _ => true
  | a :: p, b :: l => (a =? b) && is_prefix p l
  | _, [] => false
  end.
Fixpoint find_sub (p l : bytes) : option nat :=
  if is_prefix p l then Some O
  else match l with [] => None | _ :: l => S <$> find_sub p l end.

(** * Ranges of free text *)

(** The byte before a position is part of an identifier. *)
Definition preceded_by_identifier (l : bytes) (start : nat) : bool :=
  match start with O => false | S i => is_some_and (l !! i) is_identifier_byte end.

(** The end of a quoted value: the first quote that is not escaped; the first byte
    counts as not escaped. *)
Fixpoint quote_end (quote : N) (previous : option N) (l : bytes) : nat :=
  match l with
  | [] => O
  | b :: l =>
    if (b =? quote) && negb (bool_decide (previous = Some BACKSLASH)) then O
    else S (quote_end quote (Some b) l)
  end.

(** The range of the value at the cursor. *)
Definition value_range (l : bytes) (cursor : nat) : option (nat * nat) :=
  match l !! cursor with
  | None => None
  | Some b =>
    let '(start, stop) :=
      if (b =? SQUOTE) || (b =? DQUOTE)
      then (S cursor, (S cursor + quote_end b None (drop (S cursor) l))%nat)
      else (cursor, run_while (fun b => negb (ends_value b)) l cursor) in
    if (start <? stop)%nat then Some (start, stop) else None
  end.

Definition marker_is_auth_scheme (marker : string) : bool := String.eqb marker "bearer" || String.eqb marker "basic".

(** What one occurrence of a marker adds: the body of the loop after the search. *)
Definition marked_value (l : bytes) (marker : string) (start : nat) : option (nat * nat) :=
  let stop := (start + String.length marker)%nat in
  let follows_assignment := is_some_and (value_separator l stop) is_assignment in
  if preceded_by_identifier l start && negb follows_assignment then None
  else if is_some_and (l !! stop) is_identifier_byte then None
  else
    let cursor := run_while byte_is_whitespace l stop in
    match l !! cursor with
    | None => None
    | Some b =>
      if is_assignment b then value_range l (run_while byte_is_whitespace l (S cursor))
      else if marker_is_auth_scheme marker then value_range l cursor else None
    end.

(** The search of a pattern from a position on, with what each occurrence adds; the
    next search starts behind the occurrence.  The fuel is the length of the text. *)
Fixpoint search_loop (fuel : nat) (l p : bytes) (visit : nat -> option (nat * nat)) (from : nat) : list (nat * nat) :=
  match fuel with
  | O => []
  | S fuel =>
    match find_sub p (drop from l) with
    | None => []
    | Some relative =>
      let start := (from + relative)%nat in
      option_list (visit start) ++ search_loop fuel l p visit (start + length p)
    end
  end.
Definition search (l p : bytes) (visit : nat -> option (nat * nat)) : list (nat * nat) :=
  search_loop (length l) l p visit O.

Definition marked_value_ranges (text : string) : list (nat * nat) :=
  let lower := map byte_lower (bytes_of text) in
  flat_map (fun marker => search lower (bytes_of marker) (marked_value lower marker)) SENSITIVE_MARKERS.

Definition prefix_value (l : bytes) (prefix : string) (start : nat) : option (nat * nat) :=
  if preceded_by_identifier l start then None
  else
    let stop := run_while is_token_byte l (start + String.length prefix) in
    if (String.length prefix + 6 <=? stop - start)%nat then Some (start, stop) else None.

Definition known_prefix_ranges (text : string) : list (nat * nat) :=
  let l := bytes_of text in
  flat_map (fun prefix => search l (bytes_of prefix) (prefix_value l prefix)) KNOWN_TOKEN_PREFIXES.

Definition count_dots (l : bytes) : nat := length (List.filter (fun b => b =? BDOT) l).

Definition jwt_value (l : bytes) (start : nat) : option (nat * nat) :=
  if preceded_by_identifier l start then None
  else
    let stop := run_while is_token_byte l start in
    let dots := count_dots (take (stop - start) (drop start l)) in
    if (2 <=? dots)%nat && (20 <=? stop - start)%nat then Some (start, stop) else None.

Definition jwt_ranges (text : string) : list (nat * nat) :=
  let l := bytes_of text in search l (bytes_of "eyJ") (jwt_value l).

Definition range_cmp (a b : nat * nat) : comparison := then_with (Nat.compare a.1 b.1) (Nat.compare a.2 b.2).

(** The merge of sorted ranges; the head of [merged] is the last one. *)
Fixpoint merge_ranges (ranges merged : list (nat * nat)) : list (nat * nat) :=
  match ranges with
  | [] => rev merged
  | (start, stop) :: ranges =>
    if (stop <=? start)%nat then merge_ranges ranges merged
    else match merged with
         | (s, e) :: rest =>
           if (start <=? e)%nat then merge_ranges ranges ((s, Nat.max e stop) :: rest)
           else merge_ranges ranges ((start, stop) :: merged)
         | [] => merge_ranges ranges [(start, stop)]
         end
  end.

Definition sensitive_ranges (text : string) : list (nat * nat) :=
  merge_ranges (sort_by range_cmp (marked_value_ranges text ++ known_prefix_ranges text ++ jwt_ranges text)) [].

(** [&text[a..b]]. *)
Definition slice (l : bytes) (a b : nat) : bytes := take (b - a) (drop a l).

Fixpoint replace_loop (l replacement : bytes) (ranges : list (nat * nat)) (cursor : nat) : bytes :=
  match ranges with
  | [] => drop cursor l
  | (start, stop) :: ranges =>
    (if (cursor <? start)%nat then slice l cursor start else []) ++ replacement
    ++ replace_loop l replacement ranges (Nat.max stop cursor)
  end.
Definition replace_ranges (text : string) (ranges : list (nat * nat)) (replacement : string) : string :=
  match ranges with
  | [] => text
  | _ => of_bytes (replace_loop (bytes_of text) (bytes_of replacement) ranges O)
  end.

(** * The policy *)

Record RedactionPolicy := MkPolicy {
  rp_sensitive_keys : gset string;
  rp_allowed_headers : gset string;
  rp_allow_unknown_headers : bool;
  rp_placeholder : string;
  rp_max_string_length : N;
  rp_max_depth : N;
}.

(** [str::replace] of one ASCII character by another. *)
Definition replace_byte (a b : N) (s : string) : string := of_bytes (map (fun c => if c =? a then b else c) (bytes_of s)).
Definition dash_to_underscore : string -> string := replace_byte DASH UNDERSCORE.

Definition default_sensitive_keys : gset string :=
  list_to_set (map dash_to_underscore (List.filter (fun m => negb (marker_is_auth_scheme m)) SENSITIVE_MARKERS)).
Definition strict : RedactionPolicy :=
  MkPolicy default_sensitive_keys (list_to_set DEFAULT_ALLOWED_HEADERS) false REDACTED (16 * 1024) 64.

(** One turn of the loop of [normalize_key], over what was pushed (the last byte first)
    and whether the previous character was lower case or a digit. *)
Definition is_ascii_uppercase (c : N) : bool := in_range c 0x41 0x5A.
Definition is_ascii_lowercase (c : N) : bool := in_range c 0x61 0x7A.
Definition normalize_char (st : bytes * bool) (c : N) : bytes * bool :=
  let '(out, previous) := st in
  if char_is_ascii_alphanumeric c then
    let out := if is_ascii_uppercase c && previous then UNDERSCORE :: out else out in
    (byte_lower c :: out, is_ascii_lowercase c || char_is_ascii_digit c)
  else
    (match out with b :: _ => if b =? UNDERSCORE then out else UNDERSCORE :: out | [] => [UNDERSCORE] end, false).

(** [trim_matches('_')] of the pushed bytes. *)
Definition normalize_key (key : string) : string :=
  let out := (foldl normalize_char ([], false) (chars (trim key))).1 in
  let is_us := fun b => b =? UNDERSCORE in
  of_bytes (drop_while is_us (rev (drop_while is_us out))).

Definition normalize_header_name (name : string) : string :=
  replace_byte UNDERSCORE DASH (to_ascii_lowercase (trim name)).

Definition ends_with (s p : string) : bool := is_some (strip_suffix s p).

Definition matches_sensitive_key (normalized : string) : bool :=
  let normalized := dash_to_underscore normalized in
  existsb (fun marker =>
             let marker := dash_to_underscore marker in
             String.eqb normalized marker || ends_with normalized ("_" +:+ marker)) SENSITIVE_MARKERS.

Definition allow_header (name : string) (p : RedactionPolicy) : RedactionPolicy :=
  MkPolicy (rp_sensitive_keys p) ({[normalize_header_name name]} ∪ rp_allowed_headers p)
    (rp_allow_unknown_headers p) (rp_placeholder p) (rp_max_string_length p) (rp_max_depth p).
Definition redact_key (name : string) (p : RedactionPolicy) : RedactionPolicy :=
  MkPolicy ({[normalize_key name]} ∪ rp_sensitive_keys p) (rp_allowed_headers p)
    (rp_allow_unknown_headers p) (rp_placeholder p) (rp_max_string_length p) (rp_max_depth p).
Definition allow_all_headers (p : RedactionPolicy) : RedactionPolicy :=
  MkPolicy (rp_sensitive_keys p) (rp_allowed_headers p) true (rp_placeholder p) (rp_max_string_length p)
    (rp_max_depth p).

Section policy.
Variable p : RedactionPolicy.

Definition is_sensitive_key (key : string) : bool :=
  let normalized := normalize_key key in
  bool_decide (normalized ∈ rp_sensitive_keys p) || matches_sensitive_key normalized.

Definition is_sensitive_header (name : string) : bool :=
  let normalized := normalize_header_name name in
  matches_sensitive_key (dash_to_underscore normalized)
  || existsb (String.eqb normalized)
       ["authorization"; "proxy-authorization"; "cookie"; "set-cookie"; "x-api-key"; "x-auth-token";
        "x-access-token"; "x-refresh-token"]
  || ends_with normalized "-token" || ends_with normalized "-secret" || ends_with normalized "-credential".

Definition is_allowed_header (name : string) : bool :=
  rp_allow_unknown_headers p || bool_decide (normalize_header_name name ∈ rp_allowed_headers p).

(** [text.chars().take(n).collect()]. *)
Definition take_chars (n : N) (s : string) : string :=
  of_bytes (concat (take (N.to_nat n) (char_spans (bytes_of s))).*2).

Definition truncate_text (s : string) : string :=
  if (0 <? rp_max_string_length p) && (rp_max_string_length p <? N.of_nat (length (chars s)))
  then take_chars (rp_max_string_length p) s +:+ TRUNCATED else s.

Definition sanitize_text (text : string) : string :=
  truncate_text (replace_ranges text (sensitive_ranges text) (rp_placeholder p)).

Fixpoint sanitize_json_at_depth (value : Value) (depth : N) : Value :=
  if rp_max_depth p <? depth then Str DEPTH_LIMIT
  else
    match value with
    | Null | Bool _ | Num _ => value
    | Str text => Str (sanitize_text text)
    | Array values => Array (map (fun v => sanitize_json_at_depth v (depth + 1)) values)
    | Object object =>
      Object (foldl (fun sanitized '(key, v) =>
                       obj_insert (sanitize_text key)
                         (if is_sensitive_key key then Str (rp_placeholder p) else sanitize_json_at_depth v (depth + 1))
                         sanitized) [] object)
    end.
Definition sanitize_json (value : Value) : Value := sanitize_json_at_depth value 0.

(** A header as the map yields it: its name and, when it is visible ASCII, its value. *)
Definition header_value (name : string) (value : option string) : string :=
  if is_sensitive_header name || negb (is_allowed_header name) then rp_placeholder p
  else match value with Some v => sanitize_text v | None => rp_placeholder p end.

Definition sanitize_header (sanitized : gmap string string) (header : string * option string) : gmap string string :=
  let name := normalize_header_name header.1 in
  let value := header_value name header.2 in
  match sanitized !! name with
  | Some existing =>
    if String.eqb existing (rp_placeholder p) || String.eqb value (rp_placeholder p)
    then <[name := rp_placeholder p]> sanitized
    else <[name := existing +:+ ", " +:+ value]> sanitized
  | None => <[name := value]> sanitized
  end.
Definition sanitize_headers (headers : list (string * option string)) : gmap string string :=
  foldl sanitize_header ∅ headers.
Definition sanitize_header_entries (headers : list (string * option string)) : list (string * string) :=
  map (fun h => let name := normalize_header_name h.1 in (name, header_value name h.2)) headers.
End policy.

(** * The writer *)

(** [String::from_utf8_lossy]: every maximal part of an ill-formed sequence becomes one
    U+FFFD.  [pend] is the character read so far, the last byte first. *)
Definition REPLACEMENT : bytes := [0xEF; 0xBF; 0xBD].
Definition utf8_start (s : Utf8State) : bool := match s with U0 => true | _ => false end.
Definition lossy_push (pend : bytes) (s : Utf8State) (k : Utf8State -> bytes -> bytes) : bytes :=
  if utf8_start s then rev pend ++ k U0 [] else k s pend.
Fixpoint lossy_loop (s : Utf8State) (pend : bytes) (l : bytes) : bytes :=
  match l with
  | [] => if utf8_start s then [] else REPLACEMENT
  | b :: l =>
    match utf8_step s b with
    | Some s' => lossy_push (b :: pend) s' (fun s pend => lossy_loop s pend l)
    | None =>
      REPLACEMENT ++
      (if utf8_start s then lossy_loop U0 [] l
       else match utf8_lead b with
            | Some s' => lossy_push [b] s' (fun s pend => lossy_loop s pend l)
            | None => REPLACEMENT ++ lossy_loop U0 [] l
            end)
    end
  end.
Definition from_utf8_lossy (l : bytes) : bytes := lossy_loop U0 [] l.

(** The wrapped [Write]. *)
Class InnerWriter (W E : Type) := {
  write_all : bytes -> W -> Result unit E * W;
  inner_flush : W -> Result unit E * W;
}.

Record RedactingWriter (W : Type) := MkRedactingWriter {
  rw_inner : W;
  rw_policy : RedactionPolicy;
  rw_pending : bytes;
}.
Arguments MkRedactingWriter {W}.
Arguments rw_inner {W}.
Arguments rw_policy {W}.
Arguments rw_pending {W}.

Section writer.
Context {W E : Type} `{InnerWriter W E}.

Definition rw_new (inner : W) (policy : RedactionPolicy) : RedactingWriter W := MkRedactingWriter inner policy [].

Definition sanitize_line (p : RedactionPolicy) (line : bytes) : bytes :=
  bytes_of (sanitize_text p (of_bytes (from_utf8_lossy line))).

(** The complete lines of [pending], one after the other; a failed write leaves the rest
    pending.  The fuel is the length of [pending]. *)
Fixpoint write_lines (fuel : nat) (w : RedactingWriter W) : Result unit E * RedactingWriter W :=
  match fuel with
  | O => (Ok (), w)
  | S fuel =>
    match split_once LF (rw_pending w) with
    | None => (Ok (), w)
    | Some (line, rest) =>
      match write_all (sanitize_line (rw_policy w) (line ++ [LF])) (rw_inner w) with
      | (Ok _, inner) => write_lines fuel (MkRedactingWriter inner (rw_policy w) rest)
      | (Err e, inner) => (Err e, MkRedactingWriter inner (rw_policy w) rest)
      end
    end
  end.

Definition rw_write (buffer : bytes) (w : RedactingWriter W) : Result N E * RedactingWriter W :=
  let w := MkRedactingWriter (rw_inner w) (rw_policy w) (rw_pending w ++ buffer) in
  match write_lines (length (rw_pending w)) w with
  | (Ok _, w) => (Ok (blen buffer), w)
  | (Err e, w) => (Err e, w)
  end.

Definition rw_flush (w : RedactingWriter W) : Result unit E * RedactingWriter W :=
  let finish w :=
    let '(r, inner) := inner_flush (rw_inner w) in (r, MkRedactingWriter inner (rw_policy w) (rw_pending w)) in
  match rw_pending w with
  | [] => finish w
  | _ =>
    match write_all (sanitize_line (rw_policy w) (rw_pending w)) (rw_inner w) with
    | (Ok _, inner) => finish (MkRedactingWriter inner (rw_policy w) [])
    | (Err e, inner) => (Err e, MkRedactingWriter inner (rw_policy w) (rw_pending w))
    end
  end.

Definition into_inner (w : RedactingWriter W) : Result W E :=
  match rw_flush w with (Ok _, w) => Ok (rw_inner w) | (Err e, _) => Err e end.
End writer.

(** * What the sanitiser promises: values under sensitive keys, values of headers that may
      not be recorded and everything below the depth limit do not influence what is
      recorded; the ranges of free text lie between characters and cover every value a
      marker, a known prefix or a token announces; the writer does not depend on how its
      input is cut. *)

(** * Structured values *)

Section value_ind.
Variable P : Value -> Prop.
Hypothesis P_null : P Null.
Hypothesis P_bool : forall b, P (Bool b).
Hypothesis P_num : forall n, P (Num n).
Hypothesis P_str : forall s, P (Str s).
Hypothesis P_array : forall l, Forall P l -> P (Array l).
Hypothesis P_object : forall m, Forall (fun kv => P kv.2) m -> P (Object m).

Fixpoint value_nested_ind (v : Value) : P v :=
  match v with
  | Null => P_null
  | Bool b => P_bool b
  | Num n => P_num n
  | Str s => P_str s
  | Array l =>
    P_array l ((fix go l := match l return Forall P l with
                            | [] => Forall_nil_2 _
                            | v :: l => Forall_cons_2 _ _ _ (value_nested_ind v) (go l)
                            end) l)
  | Object m =>
    P_object m ((fix go m := match m return Forall (fun kv => P kv.2) m with
                             | [] => Forall_nil_2 _
                             | (k, v) :: m => Forall_cons_2 (fun kv => P kv.2) (k, v) m (value_nested_ind v) (go m)
                             end) m)
  end.
End value_ind.

(** Two values an observer of what is recorded may not tell apart: they differ in values
    under sensitive keys and below the depth limit only. *)
Inductive alike (p : RedactionPolicy) : N -> Value -> Value -> Prop :=
| alike_same d v : alike p d v v
| alike_deep d v w : rp_max_depth p < d -> alike p d v w
| alike_array d l k : Forall2 (alike p (d + 1)) l k -> alike p d (Array l) (Array k)
| alike_object d m n :
  Forall2 (fun a b => a.1 = b.1 /\ (is_sensitive_key p a.1 = true \/ alike p (d + 1) a.2 b.2)) m n ->
  alike p d (Object m) (Object n).

Lemma sanitize_deep p v d : rp_max_depth p < d -> sanitize_json_at_depth p v d = Str DEPTH_LIMIT.
Proof. intros Hd. apply N.ltb_lt in Hd. destruct v; simpl; by rewrite Hd. Qed.

Lemma sanitize_alike p v : forall w d, alike p d v w -> sanitize_json_at_depth p v d = sanitize_json_at_depth p w d.
Proof.
  induction v as [|b|n|s|l IH|m IH] using value_nested_ind; intros w d Hw;
    (inversion Hw; subst; [done|by rewrite !sanitize_deep|..]).
  - simpl. case_match; [done|]. f_equal. match goal with H : Forall2 _ _ _ |- _ => rename H into Hf end.
    clear Hw. induction Hf as [|x y l k Hxy _ IHf]; [done|]. apply Forall_cons in IH as [Hx IH]. simpl.
    by rewrite (Hx y), IHf.
  - simpl. case_match; [done|]. f_equal. match goal with H : Forall2 _ _ _ |- _ => rename H into Hf end.
    clear Hw. generalize (@nil (string * Value)).
    induction Hf as [|[k x] [k' y] l n' [Hk Hxy] _ IHf]; intros out; [done|].
    apply Forall_cons in IH as [Hx IH]. simpl in *. subst k'. rewrite <-IHf by done. f_equal.
    destruct (is_sensitive_key p k); [done|]. destruct Hxy as [|Hxy]; [done|]. by rewrite (Hx y).
Qed.

(** ** Headers *)

(** The value of the header may not be recorded. *)
Definition withheld (p : RedactionPolicy) (name : string) : bool :=
  is_sensitive_header (normalize_header_name name) || negb (is_allowed_header p (normalize_header_name name)).

Definition header_alike (p : RedactionPolicy) (h k : string * option string) : Prop :=
  h.1 = k.1 /\ (withheld p h.1 = true \/ h.2 = k.2).

Lemma header_value_alike p h k :
  header_alike p h k ->
  header_value p (normalize_header_name h.1) h.2 = header_value p (normalize_header_name k.1) k.2.
Proof. intros [<- [Hw| ->]]; [|done]. unfold header_value, withheld in *. by rewrite Hw. Qed.

Lemma sanitize_headers_alike p hs ks :
  Forall2 (header_alike p) hs ks -> sanitize_headers p hs = sanitize_headers p ks.
Proof.
  unfold sanitize_headers. intros Hf. generalize (∅ : gmap string string).
  induction Hf as [|h k hs ks Hh _ IH]; intros out; [done|]. simpl. rewrite <-IH. f_equal.
  unfold sanitize_header. rewrite (header_value_alike p h k Hh). by destruct Hh as [<- _].
Qed.

Lemma sanitize_entries_alike p hs ks :
  Forall2 (header_alike p) hs ks -> sanitize_header_entries p hs = sanitize_header_entries p ks.
Proof.
  unfold sanitize_header_entries. induction 1 as [|h k hs ks Hh _ IH]; [done|]. simpl.
  rewrite IH, (header_value_alike p h k Hh). by destruct Hh as [<- _].
Qed.

(** ** Depth *)

Fixpoint value_depth (v : Value) : N :=
  match v with
  | Array l => 1 + foldr (fun v d => N.max (value_depth v) d) 0 l
  | Object m => 1 + foldr (fun kv d => N.max (value_depth kv.2) d) 0 m
  | _ => 0
  end.

Lemma foldr_max_le {A} (f : A -> N) l n : Forall (fun x => f x <= n) l -> foldr (fun x d => N.max (f x) d) 0 l <= n.
Proof. induction 1; simpl; lia. Qed.

Lemma obj_insert_Forall (P : string * Value -> Prop) k v m : P (k, v) -> Forall P m -> Forall P (obj_insert k v m).
Proof.
  intros Hk. induction 1 as [|[k' v'] m Hp Hm IH]; simpl; [by constructor|].
  case_match; by repeat constructor.
Qed.

Lemma sanitized_depth p v d : value_depth (sanitize_json_at_depth p v d) <= rp_max_depth p + 1 - d.
Proof.
  revert d. induction v as [|b|n|s|l IH|m IH] using value_nested_ind; intros d; simpl;
    destruct (N.ltb_spec (rp_max_depth p) d) as [Hd|Hd]; simpl; try lia.
  - etransitivity; [apply N.add_le_mono_l, (foldr_max_le value_depth _ (rp_max_depth p - d))|lia].
    apply Forall_map. eapply Forall_impl; [done|]. intros v Hv. specialize (Hv (d + 1)). lia.
  - etransitivity; [apply N.add_le_mono_l, (foldr_max_le (fun kv => value_depth kv.2) _ (rp_max_depth p - d))|lia].
    generalize (Forall_nil_2 (fun kv : string * Value => value_depth kv.2 <= rp_max_depth p - d)).
    generalize (@nil (string * Value)). induction IH as [|[k v] m Hv _ IHm]; intros out Hout; [done|]. simpl in *.
    apply IHm, obj_insert_Forall; [|done]. specialize (Hv (d + 1)). destruct (is_sensitive_key p k); simpl; lia.
Qed.

(** [C35] What is recorded of a JSON value does not depend on anything under a sensitive
    key or below the depth limit, and what is recorded of a header map, joined or entry
    by entry, does not depend on the values of headers that are sensitive or not on the
    allow list; the recorded JSON is at most one level deeper than the limit. *)
Theorem redaction_noninterference p :
  (forall v w, alike p 0 v w -> sanitize_json p v = sanitize_json p w)
  /\ (forall v, value_depth (sanitize_json p v) <= rp_max_depth p + 1)
  /\ (forall hs ks, Forall2 (header_alike p) hs ks ->
        sanitize_headers p hs = sanitize_headers p ks
        /\ sanitize_header_entries p hs = sanitize_header_entries p ks).
Proof.
  split_and!.
  - intros v w. apply sanitize_alike.
  - intros v. pose proof (sanitized_depth p v 0). unfold sanitize_json. lia.
  - eauto using sanitize_headers_alike, sanitize_entries_alike.
Qed.

(** A document and a header map whose secrets differ. *)
Lemma redaction_noninterference_witness :
  let doc s := Object [("input", Array [Object [("apiKey", Str s); ("n", Num (PosInt 1))]]);
                       ("user_password", Str s)] in
  sanitize_json strict (doc "hunter2") = sanitize_json strict (doc "correct horse")
  /\ sanitize_headers strict [("host", Some "a"); ("X-Auth-Token", Some "t")]
     = sanitize_headers strict [("host", Some "a"); ("X-Auth-Token", None)].
Proof.
  split.
  - apply (proj1 (redaction_noninterference strict)), alike_object.
    constructor; [split; [done|right]; apply alike_array|by repeat constructor; left].
    constructor; [apply alike_object|by constructor]. constructor; [by split; [|left]|].
    constructor; [split; [done|right; apply alike_same]|by constructor].
  - apply (proj2 (proj2 (redaction_noninterference strict)) [_; _] [_; _]).
    constructor; [by split; [|right]|constructor; [by split; [|left]|done]].
Defined.
