(* ===== verification/RedactText.v ===== *)
(** Free text: the ranges the scan finds are sorted, disjoint and lie between characters,
    so no slice of the source fails, and the sanitised text is the text outside the ranges
    with the placeholder for each of them. *)
From S2P Require Import Prelude Str Bytes Redact.

Open Scope N_scope.

Lemma take_plus {A} (n m : nat) (l : list A) : take (n + m) l = take n l ++ take m (drop n l).
Proof. revert l. induction n as [|n IH]; intros [|x l]; simpl; [done..|by rewrite take_nil|]. by rewrite IH. Qed.

(** * Runs and searches *)

(** A run cannot go on. *)
Definition stops (f : N -> bool) (r : bytes) : Prop :=
  hd_error r = None \/ exists b, hd_error r = Some b /\ f b = false.

Lemma count_while_all f (l k : bytes) :
  Forall (fun b => f b = true) l -> stops f k ->
  count_while f (l ++ k) = length l.
Proof.
  intros Hl Hk. induction Hl as [|b l Hb _ IH]; simpl; [|by rewrite Hb, IH].
  destruct k as [|b k]; [done|]. destruct Hk as [|(b' & [= <-] & Hb)]; [done|]. simpl. by rewrite Hb.
Qed.

Lemma run_while_app f (l k r : bytes) :
  Forall (fun b => f b = true) k -> stops f r ->
  run_while f (l ++ k ++ r) (length l) = (length l + length k)%nat.
Proof. intros Hk Hr. unfold run_while. by rewrite drop_app_length, count_while_all. Qed.

(** Where a run stops. *)
Lemma count_while_spec f (l : bytes) :
  exists k, l = k ++ drop (count_while f l) l /\ length k = count_while f l
    /\ Forall (fun b => f b = true) k
    /\ (drop (count_while f l) l = [] \/ exists b r, drop (count_while f l) l = b :: r /\ f b = false).
Proof.
  induction l as [|b l (k & Hl & Hn & Hk & Hd)]; simpl.
  { exists []. split_and!; [done..|by left]. }
  destruct (f b) eqn:E; [|exists []; split_and!; [done..|by right; eauto]].
  exists (b :: k). split_and!; simpl; [by rewrite <-Hl|congruence|by constructor|done].
Qed.

Lemma is_prefix_spec p l : is_prefix p l = true <-> exists k, l = p ++ k.
Proof.
  revert l. induction p as [|a p IH]; intros l; simpl; [split; [eauto|done]|].
  destruct l as [|b l]; [split; [discriminate|by intros [k ?]]|]. rewrite andb_true_iff, N.eqb_eq, IH. split.
  - intros [<- [k ->]]. eauto.
  - intros [k [= <- ->]]. eauto.
Qed.

(** The pattern is found at the position. *)
Definition occurs (p l : bytes) (i : nat) : Prop := is_prefix p (drop i l) = true.

Lemma occurs_spec p l i : occurs p l i -> exists k, drop i l = p ++ k.
Proof. apply is_prefix_spec. Qed.

Lemma occurs_app l p k : occurs p (l ++ p ++ k) (length l).
Proof. unfold occurs. rewrite drop_app_length. apply is_prefix_spec. eauto. Qed.

Lemma occurs_lt p l i : p <> [] -> occurs p l i -> (i + length p <= length l)%nat.
Proof.
  intros Hp [k Hk]%occurs_spec. apply (f_equal length) in Hk. rewrite length_drop, length_app in Hk.
  destruct p; [done|]. simpl in *. lia.
Qed.

Lemma find_sub_Some p l n :
  find_sub p l = Some n -> occurs p l n /\ forall m, occurs p l m -> (n <= m)%nat.
Proof.
  unfold occurs. revert n. induction l as [|b l IH]; intros n; simpl.
  - case_match eqn:E; [|done]. intros [= <-]. rewrite drop_nil. split; [done|]. lia.
  - case_match eqn:E; [intros [= <-]; split; [done|lia]|].
    intros (n' & [Hn Hmin]%IH & ->)%fmap_Some. split; [done|]. intros [|m] Hm; simpl in *; [congruence|].
    apply le_n_S, Hmin, Hm.
Qed.

Lemma find_sub_None p l m : p <> [] -> find_sub p l = None -> ~ occurs p l m.
Proof.
  unfold occurs. intros Hp. revert m. induction l as [|b l IH]; intros m; simpl.
  - intros _. rewrite drop_nil. by destruct p.
  - case_match eqn:E; [done|]. intros Hn%fmap_None. destruct m as [|m]; simpl; [congruence|]. by apply IH.
Qed.

Section search.
Variables (l p : bytes) (visit : nat -> option (nat * nat)).
Hypothesis p_ne : p <> [].

Lemma occurs_drop from i : occurs p (drop from l) i <-> occurs p l (from + i).
Proof. unfold occurs. by rewrite drop_drop. Qed.

Lemma search_sound r : r ∈ search l p visit -> exists i, occurs p l i /\ visit i = Some r.
Proof.
  unfold search. generalize (length l), O. intros fuel. induction fuel as [|fuel IH]; intros from; simpl.
  { by intros ?%elem_of_nil. }
  destruct (find_sub p (drop from l)) as [n|] eqn:E; [|by intros ?%elem_of_nil].
  apply find_sub_Some in E as [Ho _]. rewrite occurs_drop in Ho.
  intros [Hr|Hr]%elem_of_app; [|by eapply IH].
  destruct (visit (from + n)) as [r'|] eqn:Ev; simpl in Hr; [|by apply elem_of_nil in Hr].
  apply list_elem_of_singleton in Hr as ->. eauto.
Qed.

(** Every occurrence that does not overlap an earlier one is visited. *)
Lemma search_complete i r :
  occurs p l i -> visit i = Some r ->
  (forall j, occurs p l j -> (j < i < j + length p)%nat -> False) -> r ∈ search l p visit.
Proof.
  intros Hi Hv Hfree. unfold search.
  assert (Hfuel : (length l <= length l + 0)%nat) by lia. revert Hfuel.
  assert (Hfrom : (0 <= i)%nat) by lia. revert Hfrom.
  generalize (length l) at 2 3, O. intros fuel. induction fuel as [|fuel IH]; intros from Hfrom Hfuel.
  { apply occurs_lt in Hi; [|done]. destruct p; [done|]. simpl in *. lia. }
  simpl. destruct (find_sub p (drop from l)) as [n|] eqn:E.
  2: { apply (find_sub_None _ _ (i - from)) in E; [|done]. rewrite occurs_drop in E.
       destruct E. by replace (from + (i - from))%nat with i by lia. }
  apply find_sub_Some in E as [Ho Hmin]. rewrite occurs_drop in Ho.
  assert (Hle : (n <= i - from)%nat).
  { apply Hmin. apply occurs_drop. by replace (from + (i - from))%nat with i by lia. }
  destruct (decide (from + n = i)%nat) as [->|Hne].
  { apply elem_of_app. left. rewrite Hv. simpl. by apply list_elem_of_singleton. }
  apply elem_of_app. right. assert (0 < length p)%nat by (destruct p; [done|simpl; lia]). apply IH; [|lia].
  destruct (decide (i < from + n + length p)%nat) as [Hlt|]; [|lia]. destruct (Hfree _ Ho). lia.
Qed.
End search.

(** * Character boundaries *)

(** [str::is_char_boundary]: what precedes the position is whole characters. *)
Definition boundary (l : bytes) (i : nat) : Prop := (i <= length l)%nat /\ utf8_valid (take i l) = true.
Definition well_placed (l : bytes) (r : nat * nat) : Prop := (r.1 < r.2)%nat /\ boundary l r.1 /\ boundary l r.2.

Definition is_ascii_bytes (l : bytes) : Prop := Forall (fun b => b < 0x80) l.

Section boundaries.
Variable l : bytes.
Hypothesis l_valid : utf8_valid l = true.

Lemma boundary_end : boundary l (length l).
Proof. split; [done|]. by rewrite firstn_all. Qed.

Lemma boundary_at i b : l !! i = Some b -> b < 0x80 -> boundary l i.
Proof.
  intros Hi Hb. split; [by apply lookup_lt_Some in Hi; lia|].
  pose proof l_valid as Hv. rewrite <-(take_drop_middle _ _ _ Hi) in Hv.
  by apply utf8_valid_split in Hv as [? _].
Qed.

Lemma boundary_extend i k r : boundary l i -> drop i l = k ++ r -> is_ascii_bytes k -> boundary l (i + length k).
Proof.
  intros [Hi Hv] Hd Hk. split; [apply (f_equal length) in Hd; rewrite length_drop, length_app in Hd; lia|].
  rewrite take_plus, Hd, take_app_length. apply utf8_valid_app; [done|]. by apply utf8_valid_ascii.
Qed.

Lemma boundary_occurs p i :
  is_ascii_bytes p -> p <> [] -> occurs p l i -> boundary l i /\ boundary l (i + length p).
Proof.
  intros Hp Hne [k Hk]%occurs_spec. assert (Hi : boundary l i); [|split; [done|by eapply boundary_extend]].
  destruct p as [|b p]; [done|]. apply (boundary_at i b); [|by inversion Hp].
  rewrite <-(Nat.add_0_r i), <-lookup_drop. by rewrite Hk.
Qed.

Lemma boundary_run f i : (forall b, f b = true -> b < 0x80) -> boundary l i -> boundary l (run_while f l i).
Proof.
  intros Hf Hi. unfold run_while. destruct (count_while_spec f (drop i l)) as (k & Hd & <- & Hk & _).
  eapply boundary_extend; [done..|]. eapply Forall_impl; eauto.
Qed.

(** A position that is the end of the text or at an ASCII byte. *)
Lemma boundary_stop i n :
  (i <= length l)%nat -> (n <= length (drop i l))%nat ->
  (drop n (drop i l) = [] \/ exists b r, drop n (drop i l) = b :: r /\ b < 0x80) -> boundary l (i + n).
Proof.
  intros Hi Hn. rewrite drop_drop. rewrite length_drop in Hn. intros [He|(b & r & He & Hb)].
  - apply (f_equal length) in He. rewrite length_drop in He. simpl in He.
    replace (i + n)%nat with (length l) by lia. apply boundary_end.
  - apply (boundary_at _ b); [|done]. rewrite <-(Nat.add_0_r (i + n)), <-lookup_drop. by rewrite He.
Qed.

Lemma count_while_le f (k : bytes) : (count_while f k <= length k)%nat.
Proof. induction k as [|b k IH]; simpl; [lia|]. destruct (f b); lia. Qed.

Lemma boundary_run_until f i :
  (forall b, f b = false -> b < 0x80) -> (i <= length l)%nat -> boundary l (run_while f l i).
Proof.
  intros Hf Hi. unfold run_while. apply boundary_stop; [done|apply count_while_le|].
  destruct (count_while_spec f (drop i l)) as (_ & _ & _ & _ & [?|(b & r & ? & ?)]); eauto 6.
Qed.

Lemma quote_end_spec q prev (k : bytes) :
  (quote_end q prev k <= length k)%nat
  /\ (drop (quote_end q prev k) k = [] \/ exists r, drop (quote_end q prev k) k = q :: r).
Proof.
  revert prev. induction k as [|b k IH]; intros prev; simpl; [by split; [|left]|].
  case_match eqn:E; simpl.
  - split; [lia|]. right. apply andb_true_iff in E as [->%N.eqb_eq _]. eauto.
  - destruct (IH (Some b)). split; [lia|done].
Qed.

Lemma quote_ascii b : (b =? SQUOTE) || (b =? DQUOTE) = true -> b < 0x80.
Proof. intros [->%N.eqb_eq| ->%N.eqb_eq]%orb_true_iff; done. Qed.

Lemma whitespace_ascii b : byte_is_whitespace b = true -> b < 0x80.
Proof. unfold byte_is_whitespace. rewrite !orb_true_iff, !N.eqb_eq. lia. Qed.

Lemma ends_value_ascii b : negb (ends_value b) = false -> b < 0x80.
Proof.
  rewrite negb_false_iff. unfold ends_value. rewrite !orb_true_iff, !N.eqb_eq.
  intros [[[[[?%whitespace_ascii|?]|?]|?]|?]|?]; lia.
Qed.

Lemma token_ascii b : is_token_byte b = true -> b < 0x80.
Proof.
  unfold is_token_byte, char_is_ascii_alphanumeric, char_is_ascii_digit, in_range.
  rewrite !orb_true_iff, !andb_true_iff, !N.leb_le, !N.eqb_eq. unfold BDOT, UNDERSCORE, DASH, EQUALS, COLON. lia.
Qed.

Lemma assignment_ascii b : is_assignment b = true -> b < 0x80.
Proof. unfold is_assignment. rewrite orb_true_iff, !N.eqb_eq. unfold COLON, EQUALS. lia. Qed.

Lemma value_range_placed c r : boundary l c -> value_range l c = Some r -> well_placed l r.
Proof.
  unfold value_range. intros Hc. destruct (l !! c) as [b|] eqn:Eb; [|done].
  destruct ((b =? SQUOTE) || (b =? DQUOTE)) eqn:Eq.
  - case_match eqn:E; [|done]. intros [= <-]. apply Nat.ltb_lt in E. split; [done|]. simpl.
    assert (Hs : boundary l (S c)).
    { rewrite <-Nat.add_1_r. apply (boundary_extend _ [b] (drop (S c) l)); [done|by apply drop_S|].
      constructor; [by apply quote_ascii|done]. }
    split; [done|]. destruct (quote_end_spec b None (drop (S c) l)) as [Hle Hd].
    change (boundary l (S c + quote_end b None (drop (S c) l))). apply boundary_stop; [apply Hs|done|].
    destruct Hd as [?|[r ?]]; [by left|right]. exists b, r. split; [done|]. by apply quote_ascii.
  - case_match eqn:E; [|done]. intros [= <-]. apply Nat.ltb_lt in E. split; [done|]. split; [done|].
    apply boundary_run_until; [apply ends_value_ascii|apply Hc].
Qed.

Lemma marked_value_placed marker i r :
  is_ascii_bytes (bytes_of marker) -> bytes_of marker <> [] -> occurs (bytes_of marker) l i ->
  marked_value l marker i = Some r -> well_placed l r.
Proof.
  intros Hm Hne Ho. unfold marked_value. rewrite <-length_bytes_of.
  destruct (boundary_occurs _ _ Hm Hne Ho) as [_ Hs]. revert Hs. generalize (i + length (bytes_of marker))%nat as stop.
  intros stop Hs. case_match; [done|]. case_match; [done|].
  assert (Hc : boundary l (run_while byte_is_whitespace l stop)) by (apply boundary_run; [apply whitespace_ascii|done]).
  revert Hc. generalize (run_while byte_is_whitespace l stop) as c. intros c Hc.
  destruct (l !! c) as [b|] eqn:Eb; [|done]. destruct (is_assignment b) eqn:Ea.
  - apply value_range_placed, boundary_run; [apply whitespace_ascii|].
    rewrite <-Nat.add_1_r. apply (boundary_extend _ [b] (drop (S c) l)); [done|by apply drop_S|].
    constructor; [by apply assignment_ascii|done].
  - case_match; [|done]. by apply value_range_placed.
Qed.

Lemma prefix_value_placed prefix i r :
  is_ascii_bytes (bytes_of prefix) -> bytes_of prefix <> [] -> occurs (bytes_of prefix) l i ->
  prefix_value l prefix i = Some r -> well_placed l r.
Proof.
  intros Hm Hne Ho. unfold prefix_value. rewrite <-length_bytes_of.
  destruct (boundary_occurs _ _ Hm Hne Ho) as [Hi Hs]. case_match; [done|]. case_match eqn:E; [|done].
  intros [= <-]. apply Nat.leb_le in E. split; [simpl; lia|]. split; [done|].
  apply boundary_run; [apply token_ascii|done].
Qed.

Lemma jwt_value_placed i r : occurs (bytes_of "eyJ") l i -> jwt_value l i = Some r -> well_placed l r.
Proof.
  intros Ho. unfold jwt_value. case_match; [done|]. case_match eqn:E; [|done]. intros [= <-].
  apply andb_true_iff in E as [_ E]. apply Nat.leb_le in E. split; [simpl; lia|].
  assert (boundary l i) by (eapply boundary_occurs, Ho; [by repeat constructor|done]).
  split; [done|]. apply boundary_run; [apply token_ascii|done].
Qed.
End boundaries.

(** ** The ranges of a text *)

Lemma utf8_step_lower s b : utf8_step s (byte_lower b) = utf8_step s b.
Proof.
  unfold byte_lower. destruct (in_range b 0x41 0x5A) eqn:E; [|done]. apply in_range_true in E.
  destruct s; simpl; unfold utf8_lead, in_range.
  1: { destruct (N.ltb_spec b 0x80); [|lia]. destruct (N.ltb_spec (b + 0x20) 0x80); [done|lia]. }
  all: repeat match goal with |- context [?x <=? ?y] => destruct (N.leb_spec x y) end; (done || lia).
Qed.

Lemma utf8_valid_lower l : utf8_valid (map byte_lower l) = utf8_valid l.
Proof.
  unfold utf8_valid. generalize U0. induction l as [|b l IH]; intros s; [done|].
  cbn [map utf8_run]. rewrite utf8_step_lower. by destruct (utf8_step s b).
Qed.

Lemma boundary_lower l i : boundary (map byte_lower l) i <-> boundary l i.
Proof. unfold boundary. by rewrite length_map, firstn_map, utf8_valid_lower. Qed.

Lemma well_placed_lower l r : well_placed (map byte_lower l) r -> well_placed l r.
Proof. unfold well_placed. by rewrite !boundary_lower. Qed.

(** The patterns are ASCII and not empty. *)
Definition pattern_ok (s : string) : bool :=
  forallb (fun b => b <? 0x80) (bytes_of s) && negb (str_is_empty s).

Lemma pattern_ok_spec s : pattern_ok s = true -> is_ascii_bytes (bytes_of s) /\ bytes_of s <> [].
Proof.
  unfold pattern_ok. intros [Hf Hn]%andb_true_iff. split; [|by destruct s].
  apply Forall_forall. intros b Hb. rewrite forallb_forall in Hf. apply N.ltb_lt, Hf. by apply list_elem_of_In.
Qed.

Lemma in_patterns (l : list string) s : forallb pattern_ok l = true -> In s l -> pattern_ok s = true.
Proof. intros Hf Hs. rewrite forallb_forall in Hf. auto. Qed.

Definition all_ranges (text : string) : list (nat * nat) :=
  marked_value_ranges text ++ known_prefix_ranges text ++ jwt_ranges text.

Lemma all_ranges_placed text r : is_str text -> r ∈ all_ranges text -> well_placed (bytes_of text) r.
Proof.
  unfold is_str, all_ranges. intros Hv. rewrite !elem_of_app. intros [Hr|[Hr|Hr]].
  - apply list_elem_of_In, in_flat_map in Hr as (marker & Hm & Hr). apply list_elem_of_In, search_sound in Hr as (i & Ho & Hr).
    apply (in_patterns SENSITIVE_MARKERS) in Hm; [|vm_compute; reflexivity]. apply pattern_ok_spec in Hm as [Ha Hne].
    apply well_placed_lower. eapply marked_value_placed; eauto. by rewrite utf8_valid_lower.
  - apply list_elem_of_In, in_flat_map in Hr as (prefix & Hm & Hr). apply list_elem_of_In, search_sound in Hr as (i & Ho & Hr).
    apply (in_patterns KNOWN_TOKEN_PREFIXES) in Hm; [|vm_compute; reflexivity]. apply pattern_ok_spec in Hm as [Ha Hne].
    eapply prefix_value_placed; eauto.
  - apply search_sound in Hr as (i & Ho & Hr). eapply jwt_value_placed; eauto.
Qed.

(** ** Merging *)

(** Apart and in order. *)
Definition before (a b : nat * nat) : Prop := (a.2 < b.1)%nat.
Definition covers (m r : nat * nat) : Prop := (m.1 <= r.1 /\ r.2 <= m.2)%nat.
Definition starts_below (m : list (nat * nat)) (r : nat * nat) : Prop := Forall (fun a => (a.1 <= r.1)%nat) m.

Lemma merge_ranges_sorted ranges : forall merged,
  StronglySorted (fun a b => (a.1 <= b.1)%nat) ranges -> StronglySorted (flip before) merged ->
  Forall (fun a => (a.1 < a.2)%nat) merged -> Forall (starts_below merged) ranges ->
  StronglySorted before (merge_ranges ranges merged) /\ Forall (fun a => (a.1 < a.2)%nat) (merge_ranges ranges merged).
Proof.
  assert (Hrev : forall m, StronglySorted (flip before) m -> StronglySorted before (rev m)).
  { induction 1 as [|a m Hs IH Hf]; simpl; [constructor|]. apply StronglySorted_app_2; [|done|by repeat constructor].
    intros x y Hx ->%list_elem_of_singleton. rewrite Forall_forall in Hf. apply Hf.
    by apply list_elem_of_In, in_rev, list_elem_of_In. }
  induction ranges as [|[s e] ranges IH]; intros merged Hr Hm Hne Hb; cbn [merge_ranges].
  { split; [by apply Hrev|]. apply Forall_rev. exact Hne. }
  inversion_clear Hr as [|? ? Hr' Hle]. apply Forall_cons in Hb as [Hse Hb].
  destruct (Nat.leb_spec e s); [by apply IH|]. destruct merged as [|[s' e'] rest].
  { apply IH; [done|by repeat constructor..|]. eapply Forall_impl; [exact Hle|]. intros x Hx. by repeat constructor. }
  inversion_clear Hm as [|? ? Hrest Hlast]. apply Forall_cons in Hne as [Hne' Hne]. simpl in *.
  destruct (Nat.leb_spec s e') as [Hj|Hj]; apply IH; try done.
  - by constructor.
  - constructor; [simpl; lia|done].
  - eapply Forall_impl; [exact Hb|]. intros x Hx. apply Forall_cons in Hx as [? ?]. by constructor.
  - constructor; [by constructor|]. constructor; [done|]. eapply Forall_impl; [exact Hlast|].
    intros x Hx. unfold flip, before in *. simpl in *. lia.
  - constructor; [done|by constructor].
  - rewrite Forall_forall in Hb, Hle |- *. intros x Hx. constructor; [by apply Hle|by apply Hb].
Qed.

Lemma merge_ranges_covers ranges : forall merged r,
  (r.1 < r.2)%nat -> r ∈ ranges \/ (exists m, m ∈ merged /\ covers m r) ->
  StronglySorted (fun a b => (a.1 <= b.1)%nat) ranges -> Forall (starts_below merged) ranges ->
  exists m, m ∈ merge_ranges ranges merged /\ covers m r.
Proof.
  unfold covers. induction ranges as [|[s e] ranges IH]; intros merged r Hr Hin Hsort Hb; cbn [merge_ranges].
  { destruct Hin as [?%elem_of_nil|(m & Hm & Hc)]; [done|]. exists m. split; [|done].
    by apply list_elem_of_In, in_rev; rewrite rev_involutive; apply list_elem_of_In. }
  inversion_clear Hsort as [|? ? Hs' Hle]. apply Forall_cons in Hb as [Hse Hb].
  destruct (Nat.leb_spec e s) as [He|He].
  { apply IH; [done| |done..]. destruct Hin as [[->|]%elem_of_cons|]; [simpl in Hr; lia|by left|by right]. }
  destruct merged as [|[s' e'] rest].
  { apply IH; [done| |done|].
    - destruct Hin as [[->|]%elem_of_cons|(m & ?%elem_of_nil & _)]; [|by left|done].
      right. exists (s, e). split; [by apply list_elem_of_singleton|simpl; lia].
    - eapply Forall_impl; [exact Hle|]. intros x Hx. by repeat constructor. }
  apply Forall_cons in Hse as [Hse _]. simpl in Hse.
  destruct (Nat.leb_spec s e') as [Hj|Hj]; apply IH; try done.
  - destruct Hin as [[->|]%elem_of_cons|(m & [->|Hm]%elem_of_cons & Hc)]; [right|by left|right..].
    + exists (s', Nat.max e' e). split; [by left|simpl; lia].
    + exists (s', Nat.max e' e). split; [by left|simpl in *; lia].
    + exists m. split; [by right|done].
  - eapply Forall_impl; [exact Hb|]. intros x Hx. apply Forall_cons in Hx as [? ?]. by constructor.
  - destruct Hin as [[->|]%elem_of_cons|(m & Hm & Hc)]; [right|by left|right].
    + exists (s, e). split; [by left|simpl; lia].
    + exists m. split; [by right|done].
  - rewrite Forall_forall in Hb, Hle |- *. intros x Hx. constructor; [by apply Hle|by apply Hb].
Qed.

(** The ends of merged ranges are ends of given ones. *)
Lemma merge_ranges_ends (P : nat -> Prop) ranges : forall merged,
  Forall (fun r => P r.1 /\ P r.2) ranges -> Forall (fun r => P r.1 /\ P r.2) merged ->
  Forall (fun r => P r.1 /\ P r.2) (merge_ranges ranges merged).
Proof.
  induction ranges as [|[s e] ranges IH]; intros merged Hr Hm; cbn [merge_ranges]; [by apply Forall_rev|].
  apply Forall_cons in Hr as [Hse Hr]. case_match; [by apply IH|].
  destruct merged as [|[s' e'] rest]; [apply IH; [done|by constructor]|].
  apply Forall_cons in Hm as [Hm' Hm]. case_match; apply IH; try done; constructor; try done.
  - simpl in *. destruct (Nat.max_spec e' e) as [[_ ->]|[_ ->]]; tauto.
  - by constructor.
Qed.

#[export] Instance pre_range_cmp : PreCmp range_cmp.
Proof. apply pre_then; apply (pre_key _ Nat.compare); apply _. Qed.

Lemma sorted_weaken {A} (R S : A -> A -> Prop) l : (forall x y, R x y -> S x y) -> StronglySorted R l -> StronglySorted S l.
Proof. intros HRS. induction 1; constructor; [done|]. eapply Forall_impl; eauto. Qed.

Lemma sorted_all_ranges text : StronglySorted (fun a b => (a.1 <= b.1)%nat) (sort_by range_cmp (all_ranges text)).
Proof.
  eapply sorted_weaken; [|apply sort_by_sorted; apply _]. intros [a b] [c d]. unfold range_cmp, then_with. simpl.
  destruct (Nat.compare_spec a c); [lia..|done].
Qed.

Lemma sensitive_ranges_eq text : sensitive_ranges text = merge_ranges (sort_by range_cmp (all_ranges text)) [].
Proof. done. Qed.

Lemma sensitive_ranges_sorted text : StronglySorted before (sensitive_ranges text).
Proof.
  rewrite sensitive_ranges_eq. apply merge_ranges_sorted; [apply sorted_all_ranges|by constructor..|].
  apply Forall_forall. intros. constructor.
Qed.

Lemma sensitive_ranges_cover text r :
  (r.1 < r.2)%nat -> r ∈ all_ranges text -> exists m, m ∈ sensitive_ranges text /\ covers m r.
Proof.
  intros Hr Hin. rewrite sensitive_ranges_eq. apply merge_ranges_covers; [done| |apply sorted_all_ranges|].
  - left. by rewrite sort_by_perm.
  - apply Forall_forall. intros. constructor.
Qed.

Lemma sensitive_ranges_placed text : is_str text -> Forall (well_placed (bytes_of text)) (sensitive_ranges text).
Proof.
  intros Hs. rewrite sensitive_ranges_eq. apply Forall_and. split.
  - apply merge_ranges_sorted; [apply sorted_all_ranges|by constructor..|].
    apply Forall_forall. intros. constructor.
  - apply merge_ranges_ends; [|constructor]. apply Forall_forall. intros r Hr. rewrite sort_by_perm in Hr.
    by apply all_ranges_placed.
Qed.

(** ** Replacing *)

Definition covered (ranges : list (nat * nat)) (i : nat) : bool :=
  existsb (fun r => (r.1 <=? i)%nat && (i <? r.2)%nat) ranges.

(** The bytes outside the ranges, in order. *)
Fixpoint uncovered (ranges : list (nat * nat)) (i : nat) (l : bytes) : bytes :=
  match l with
  | [] => []
  | b :: l => if covered ranges i then uncovered ranges (S i) l else b :: uncovered ranges (S i) l
  end.

Fixpoint join (sep : bytes) (l : list bytes) : bytes :=
  match l with
  | [] => []
  | [g] => g
  | g :: l => g ++ sep ++ join sep l
  end.

Lemma uncovered_app ranges i l k :
  uncovered ranges i (l ++ k) = uncovered ranges i l ++ uncovered ranges (i + length l) k.
Proof.
  revert i. induction l as [|b l IH]; intros i; simpl; [by rewrite Nat.add_0_r|].
  rewrite IH, Nat.add_succ_comm. by destruct (covered ranges i).
Qed.

Lemma uncovered_none ranges i l :
  (forall j, (i <= j < i + length l)%nat -> covered ranges j = false) -> uncovered ranges i l = l.
Proof.
  revert i. induction l as [|b l IH]; intros i Hc; simpl in *; [done|]. rewrite Hc, IH; [done|..|lia].
  intros. apply Hc. lia.
Qed.

Lemma uncovered_all ranges i l :
  (forall j, (i <= j < i + length l)%nat -> covered ranges j = true) -> uncovered ranges i l = [].
Proof.
  revert i. induction l as [|b l IH]; intros i Hc; simpl in *; [done|]. rewrite Hc, IH; [done|..|lia].
  intros. apply Hc. lia.
Qed.

Lemma uncovered_ext ranges ranges' i l :
  (forall j, (i <= j)%nat -> covered ranges j = covered ranges' j) -> uncovered ranges i l = uncovered ranges' i l.
Proof.
  revert i. induction l as [|b l IH]; intros i Hc; simpl; [done|]. rewrite Hc, IH by (intros; try apply Hc; lia).
  done.
Qed.

Lemma covered_before ranges i : Forall (fun r => (i < r.1)%nat) ranges -> covered ranges i = false.
Proof.
  induction 1 as [|r ranges Hr _ IH]; simpl; [done|]. rewrite IH.
  destruct (Nat.leb_spec r.1 i); [lia|done].
Qed.

Lemma drop_slice l a b : (a <= b)%nat -> drop a l = slice l a b ++ drop b l.
Proof.
  intros Hab. unfold slice. rewrite <-(take_drop (b - a) (drop a l)) at 1. rewrite drop_drop.
  by replace (a + (b - a))%nat with b by lia.
Qed.

(** The text outside the ranges in pieces, with the replacement between them. *)
Lemma replace_loop_spec l ph ranges : forall cursor,
  (cursor <= length l)%nat -> StronglySorted before ranges ->
  Forall (fun r => (cursor <= r.1 < r.2)%nat /\ (r.2 <= length l)%nat) ranges ->
  exists gaps, length gaps = S (length ranges)
    /\ concat gaps = uncovered ranges cursor (drop cursor l) /\ replace_loop l ph ranges cursor = join ph gaps.
Proof.
  induction ranges as [|[s e] ranges IH]; intros cursor Hc Hs Hf.
  { exists [drop cursor l]. simpl. rewrite app_nil_r, uncovered_none; [done|]. done. }
  inversion_clear Hs as [|? ? Hs' Hb]. apply Forall_cons in Hf as [[[Hcs Hse] Hel] Hf]. simpl in Hcs, Hse, Hel.
  destruct (IH e) as (gaps & Hlen & Hcat & Hout); [done|done|..].
  { rewrite Forall_forall in Hb, Hf |- *. intros r Hr. specialize (Hb r Hr). specialize (Hf r Hr).
    unfold before in Hb. simpl in Hb. lia. }
  assert (Hd : drop cursor l = slice l cursor s ++ slice l s e ++ drop e l).
  { by rewrite (drop_slice l cursor s), (drop_slice l s e) by lia. }
  assert (Hl1 : length (slice l cursor s) = (s - cursor)%nat) by (unfold slice; rewrite length_take, length_drop; lia).
  assert (Hl2 : length (slice l s e) = (e - s)%nat) by (unfold slice; rewrite length_take, length_drop; lia).
  exists (slice l cursor s :: gaps). split_and!; simpl; [by rewrite Hlen| |].
  - rewrite Hcat, Hd, !uncovered_app, Hl1, Hl2.
    rewrite (uncovered_none _ _ (slice l cursor s)); [rewrite (uncovered_all _ _ (slice l s e))|].
    + rewrite app_nil_l. replace (cursor + (s - cursor) + (e - s))%nat with e by lia. f_equal. apply uncovered_ext. intros j Hj.
      simpl. destruct (Nat.ltb_spec j e); [lia|]. by rewrite andb_false_r.
    + intros j Hj. simpl. destruct (Nat.leb_spec s j); [|lia]. destruct (Nat.ltb_spec j e); [done|lia].
    + intros j Hj. apply covered_before. constructor; [simpl; lia|]. eapply Forall_impl; [exact Hb|].
      intros r. unfold before. simpl. lia.
  - rewrite (Nat.max_l e cursor), Hout by lia. destruct gaps as [|g gaps]; [done|].
    destruct (Nat.ltb_spec cursor s); [done|]. unfold slice. by replace (s - cursor)%nat with O by lia.
Qed.

(** ** Validity *)

Lemma utf8_valid_app_inv l k : utf8_valid l = true -> utf8_valid (l ++ k) = true -> utf8_valid k = true.
Proof. unfold utf8_valid. rewrite utf8_run_app. by destruct (utf8_run U0 l) as [[]|]. Qed.

Lemma utf8_run_valid l : utf8_valid l = true <-> utf8_run U0 l = Some U0.
Proof. unfold utf8_valid. destruct (utf8_run U0 l) as [[]|]; naive_solver. Qed.

Lemma drop_valid l i : utf8_valid l = true -> boundary l i -> utf8_valid (drop i l) = true.
Proof. intros Hv [_ Hi]. apply (utf8_valid_app_inv (take i l)); [done|]. by rewrite take_drop. Qed.

Lemma slice_valid l a b : (a <= b)%nat -> boundary l a -> boundary l b -> utf8_valid (slice l a b) = true.
Proof.
  intros Hab [_ Ha] [_ Hb]. apply (utf8_valid_app_inv (take a l)); [done|]. unfold slice.
  rewrite <-take_plus. by replace (a + (b - a))%nat with b by lia.
Qed.

Lemma replace_loop_valid l ph ranges : forall cursor,
  utf8_valid l = true -> utf8_valid ph = true -> boundary l cursor ->
  StronglySorted before ranges -> Forall (well_placed l) ranges -> Forall (fun r => (cursor <= r.1)%nat) ranges ->
  utf8_valid (replace_loop l ph ranges cursor) = true.
Proof.
  induction ranges as [|[s e] ranges IH]; intros cursor Hl Hp Hc Hs Hw Hle; simpl; [by apply drop_valid|].
  inversion_clear Hs as [|? ? Hs' Hb]. apply Forall_cons in Hw as [[Hse [H1 H2]] Hw].
  apply Forall_cons in Hle as [Hcs _]. simpl in *. rewrite Nat.max_l by lia.
  apply utf8_valid_app; [case_match; [by apply slice_valid|done]|]. apply utf8_valid_app; [done|].
  apply IH; try done. eapply Forall_impl; [exact Hb|]. intros r. unfold before. simpl. lia.
Qed.

Lemma replace_loop_Forall (P : N -> Prop) l ph ranges : forall cursor,
  Forall P l -> Forall P ph -> Forall P (replace_loop l ph ranges cursor).
Proof.
  induction ranges as [|[s e] ranges IH]; intros cursor Hl Hp; simpl; [by apply Forall_drop|].
  rewrite !Forall_app. split_and!; auto. case_match; [by apply Forall_take, Forall_drop|constructor].
Qed.

(** The first character of a text that starts with a byte that is not ASCII. *)
Lemma multi_byte_span b r :
  0x80 <= b -> utf8_valid (b :: r) = true -> exists c span r', (forall k, char_spans (span ++ k) = (c, span) :: char_spans k)
    /\ b :: r = span ++ r' /\ utf8_valid span = true /\ utf8_valid r' = true /\ span <> [].
Proof.
  rewrite utf8_run_valid. intros Hb Hv. cbn [utf8_run utf8_step] in Hv. destruct (utf8_lead b) as [s|] eqn:El; [|done].
  pose proof El as Hlead. apply utf8_lead_multi in El; [|done]. assert (H80 : (b <? 0x80) = false) by (apply N.ltb_ge; lia).
  destruct El as [[-> Hrng]|El].
  { apply utf8_run_cont in Hv as (b1 & r1 & s1 & -> & E1 & Hv); [|done].
    assert (s1 = U0) as -> by (simpl in E1; case_match; congruence).
    assert (He0 : (b <? 0xE0) = true) by (apply N.ltb_lt; lia).
    eexists _, [b; b1], r1. rewrite !utf8_run_valid. split; [intros k; cbn [char_spans app]; by rewrite H80, He0|]. cbn [utf8_run].
    change (utf8_step U0 b) with (utf8_lead b). by rewrite Hlead, E1. }
  assert (Hk : (0xE0 <= b < 0xF0 /\ forall x y, utf8_step s x = Some y -> y = U1)
               \/ (0xF0 <= b /\ forall x y, utf8_step s x = Some y -> y = U2)).
  { destruct El as [[-> ->]|[[[-> | ->] Hrng]|[[-> ->]|[[-> | ->] Hrng]]]]; [left|left|left|right|right|right];
      (split; [lia|]); intros x y; simpl; case_match; congruence. }
  assert (Hne : s <> U0) by (intros ->; destruct El as [[? _]|[[[?|?] _]|[[? _]|[[?|?] _]]]]; done). clear El.
  apply utf8_run_cont in Hv as (b1 & r1 & s1 & -> & E1 & Hv); [|done].
  assert (He0 : (b <? 0xE0) = false) by (apply N.ltb_ge; lia).
  destruct Hk as [[Hrng Hs]|[Hrng Hs]]; pose proof (Hs _ _ E1); subst s1.
  - apply utf8_run_cont in Hv as (b2 & r2 & s2 & -> & E2 & Hv); [|done].
    assert (s2 = U0) as -> by (simpl in E2; case_match; congruence).
    assert (Hf0 : (b <? 0xF0) = true) by (apply N.ltb_lt; lia).
    eexists _, [b; b1; b2], r2. rewrite !utf8_run_valid.
    split; [intros k; cbn [char_spans app]; by rewrite H80, He0, Hf0|]. cbn [utf8_run].
    change (utf8_step U0 b) with (utf8_lead b). by rewrite Hlead, E1, E2.
  - apply utf8_run_cont in Hv as (b2 & r2 & s2 & -> & E2 & Hv); [|done].
    assert (s2 = U1) as -> by (simpl in E2; case_match; congruence).
    apply utf8_run_cont in Hv as (b3 & r3 & s3 & -> & E3 & Hv); [|done].
    assert (s3 = U0) as -> by (simpl in E3; case_match; congruence).
    assert (Hf0 : (b <? 0xF0) = false) by (apply N.ltb_ge; lia).
    eexists _, [b; b1; b2; b3], r3. rewrite !utf8_run_valid.
    split; [intros k; cbn [char_spans app]; by rewrite H80, He0, Hf0|]. cbn [utf8_run].
    change (utf8_step U0 b) with (utf8_lead b). by rewrite Hlead, E1, E2, E3.
Qed.

(** A whole character, read whatever follows it. *)
Definition whole (cs : N * bytes) : Prop :=
  utf8_valid cs.2 = true /\ forall k, char_spans (cs.2 ++ k) = cs :: char_spans k.

Lemma char_spans_spec l : utf8_valid l = true -> concat (char_spans l).*2 = l /\ Forall whole (char_spans l).
Proof.
  induction l as [l IH] using (induction_ltof1 _ (@length N)). unfold ltof in IH. destruct l as [|b l]; [by repeat constructor|].
  intros Hv. destruct (N.lt_ge_cases b 0x80) as [Hb|Hb].
  - assert (H80 : (b <? 0x80) = true) by (by apply N.ltb_lt). cbn [char_spans]. rewrite H80.
    destruct (IH l) as [Hc Hf]; [simpl; lia|by apply (utf8_valid_split [] b l) in Hv as [_ ?]|].
    rewrite fmap_cons. simpl. rewrite Hc. split; [done|]. constructor; [|done]. split.
    + apply utf8_valid_ascii. by repeat constructor.
    + intros k. cbn [snd char_spans app]. by rewrite H80.
  - destruct (multi_byte_span b l Hb Hv) as (c & span & r & Hk & Hr & Hs & Hrv & Hne). rewrite Hr in *.
    destruct (IH r) as [Hc Hf]; [rewrite length_app; destruct span; [done|simpl; lia]|done|].
    rewrite Hk, fmap_cons. simpl. rewrite Hc. split; [done|by constructor].
Qed.

(** A sequence of whole characters is read as it is. *)
Lemma char_spans_concat L : Forall whole L -> char_spans (concat L.*2) = L.
Proof. induction 1 as [|cs L [_ Hk] _ IH]; [done|]. rewrite fmap_cons. simpl. by rewrite Hk, IH. Qed.

Lemma concat_valid L : Forall whole L -> utf8_valid (concat L.*2) = true.
Proof. induction 1 as [|cs L [Hv _] _ IH]; [done|]. rewrite fmap_cons. simpl. by apply utf8_valid_app. Qed.

Lemma Forall_sub {A} (P : A -> Prop) l k : l ⊆+ k -> Forall P k -> Forall P l.
Proof. rewrite !Forall_forall. intros Hs Hk x Hx. apply Hk. by eapply elem_of_submseteq. Qed.

(** A text made of some of the characters of a text. *)
Lemma sub_chars s L :
  is_str s -> L ⊆+ char_spans (bytes_of s) ->
  is_str (of_bytes (concat L.*2)) /\ char_spans (bytes_of (of_bytes (concat L.*2))) = L.
Proof.
  unfold is_str. intros Hv Hsub. destruct (char_spans_spec _ Hv) as [Hc Hf].
  assert (HL : Forall whole L) by (by eapply Forall_sub). rewrite bytes_of_of.
  - split; [by apply concat_valid|by apply char_spans_concat].
  - rewrite Forall_concat, Forall_fmap. eapply Forall_sub; [exact Hsub|].
    rewrite <-Forall_fmap, <-Forall_concat, Hc. apply bytes_of_lt.
Qed.

Lemma take_chars_spec n s : is_str s -> is_str (take_chars n s) /\ chars (take_chars n s) = take (N.to_nat n) (chars s).
Proof.
  intros Hs. unfold take_chars, chars. rewrite <-fmap_take. destruct (sub_chars s (take (N.to_nat n) (char_spans (bytes_of s)))) as [H1 H2].
  - done.
  - apply sublist_submseteq, sublist_take.
  - split; [done|]. by rewrite H2.
Qed.

Lemma take_chars_str n s : is_str s -> is_str (take_chars n s).
Proof. apply take_chars_spec. Qed.

Lemma char_spans_app l k : utf8_valid l = true -> char_spans (l ++ k) = char_spans l ++ char_spans k.
Proof.
  intros Hv. destruct (char_spans_spec _ Hv) as [Hc Hf]. rewrite <-Hc at 1. clear Hc Hv.
  induction Hf as [|cs L [_ Hk] _ IH]; [done|]. rewrite fmap_cons. simpl. by rewrite <-app_assoc, Hk, IH.
Qed.

Lemma chars_app a b : is_str a -> chars (a +:+ b) = chars a ++ chars b.
Proof. intros Ha. unfold chars. by rewrite bytes_of_app, char_spans_app, fmap_app. Qed.

Lemma app_str a b : is_str a -> is_str b -> is_str (a +:+ b).
Proof. unfold is_str. rewrite bytes_of_app. apply utf8_valid_app. Qed.

Lemma truncate_text_str p s : is_str s -> is_str (truncate_text p s).
Proof. intros Hs. unfold truncate_text. case_match; [|done]. apply app_str; [by apply take_chars_str|done]. Qed.

Lemma replace_ranges_bytes text ranges ph :
  bytes_of (replace_ranges text ranges ph) = replace_loop (bytes_of text) (bytes_of ph) ranges O.
Proof.
  unfold replace_ranges. destruct ranges; [done|]. apply bytes_of_of, replace_loop_Forall; apply bytes_of_lt.
Qed.

Lemma replace_str text ph : is_str text -> is_str ph -> is_str (replace_ranges text (sensitive_ranges text) ph).
Proof.
  intros Ht Hp. unfold is_str. rewrite replace_ranges_bytes. apply replace_loop_valid; try done.
  - split; [lia|done].
  - apply sensitive_ranges_sorted.
  - by apply sensitive_ranges_placed.
  - apply Forall_forall. intros. lia.
Qed.

Lemma sanitize_text_str p text : is_str text -> is_str (rp_placeholder p) -> is_str (sanitize_text p text).
Proof. intros Ht Hp. by apply truncate_text_str, replace_str. Qed.

(** A retained text is bounded. *)
Lemma sanitize_text_bounded p text :
  is_str text -> is_str (rp_placeholder p) -> 0 < rp_max_string_length p ->
  (length (chars (sanitize_text p text)) <= N.to_nat (rp_max_string_length p) + length (chars TRUNCATED))%nat.
Proof.
  intros Ht Hp Hm. unfold sanitize_text, truncate_text.
  pose proof (replace_str text (rp_placeholder p) Ht Hp) as Hr.
  destruct (N.ltb_spec 0 (rp_max_string_length p)); [|lia]. cbn [andb]. case_match eqn:E.
  - destruct (take_chars_spec (rp_max_string_length p) _ Hr) as [H1 H2].
    rewrite chars_app, H2, length_app, length_take by done. lia.
  - apply N.ltb_ge in E. lia.
Qed.
