(* ===== verification/RedactScan.v ===== *)
(** What the scan of free text finds: every value that is assigned to a marker, follows an
    authorization scheme, starts with a known prefix or is a signed token lies within the
    ranges that are replaced, and the result takes no byte from it. *)
From S2P Require Import Prelude Str Bytes Redact RedactText.

Open Scope N_scope.

Abbreviation all f l := (Forall (fun b => f b = true) l).

(** * Announced values *)

Definition is_quote (b : N) : bool := (b =? SQUOTE) || (b =? DQUOTE).

(** A value without quotes, up to the end of the text or a byte that ends it. *)
Definition plain_value (v rest : bytes) : Prop :=
  v <> [] /\ Forall (fun b => ends_value b = false) v /\ is_some_and (hd_error v) is_quote = false
  /\ stops (fun b => negb (ends_value b)) rest.
(** A value in quotes, up to the closing quote or the end of the text: a quote of the
    same kind within it follows a backslash, and the closing one does not. *)
Definition quoted_value (q : N) (v rest : bytes) : Prop :=
  is_quote q = true /\ v <> [] /\ (forall v1 v2, v = v1 ++ q :: v2 -> last v1 = Some BACKSLASH)
  /\ (rest = [] \/ hd_error rest = Some q /\ last v <> Some BACKSLASH).
Definition not_identifier_end (pre : bytes) : Prop := is_some_and (last pre) is_identifier_byte = false.

(** The values the documentation of the scan names, with their range: what is assigned to
    a marker, what follows an authorization scheme, keys with a known prefix, tokens. *)
Inductive announced (text : string) : nat * nat -> Prop :=
| ann_assigned marker pre ws1 sep ws2 v rest :
  marker ∈ SENSITIVE_MARKERS -> all byte_is_whitespace ws1 -> is_assignment sep = true -> all byte_is_whitespace ws2 ->
  map byte_lower (bytes_of text) = (pre ++ bytes_of marker ++ ws1 ++ sep :: ws2) ++ v ++ rest -> plain_value v rest ->
  announced text (let n := length (pre ++ bytes_of marker ++ ws1 ++ sep :: ws2) in (n, n + length v)%nat)
| ann_quoted marker pre ws1 sep ws2 q v rest :
  marker ∈ SENSITIVE_MARKERS -> all byte_is_whitespace ws1 -> is_assignment sep = true -> all byte_is_whitespace ws2 ->
  map byte_lower (bytes_of text) = (pre ++ bytes_of marker ++ ws1 ++ sep :: ws2) ++ q :: v ++ rest ->
  quoted_value q v rest ->
  announced text (let n := S (length (pre ++ bytes_of marker ++ ws1 ++ sep :: ws2)) in (n, n + length v)%nat)
| ann_scheme marker pre ws v rest :
  marker ∈ ["bearer"; "basic"] -> not_identifier_end pre -> all byte_is_whitespace ws -> ws <> [] ->
  map byte_lower (bytes_of text) = (pre ++ bytes_of marker ++ ws) ++ v ++ rest -> plain_value v rest ->
  is_some_and (hd_error v) is_assignment = false ->
  announced text (let n := length (pre ++ bytes_of marker ++ ws) in (n, n + length v)%nat)
| ann_scheme_quoted marker pre ws q v rest :
  marker ∈ ["bearer"; "basic"] -> not_identifier_end pre -> all byte_is_whitespace ws -> ws <> [] ->
  map byte_lower (bytes_of text) = (pre ++ bytes_of marker ++ ws) ++ q :: v ++ rest -> quoted_value q v rest ->
  announced text (let n := S (length (pre ++ bytes_of marker ++ ws)) in (n, n + length v)%nat)
| ann_prefix prefix pre v rest :
  prefix ∈ KNOWN_TOKEN_PREFIXES -> not_identifier_end pre ->
  bytes_of text = pre ++ bytes_of prefix ++ v ++ rest -> all is_token_byte v -> stops is_token_byte rest ->
  (6 <= length v)%nat -> announced text (length pre, (length pre + length (bytes_of prefix ++ v))%nat)
| ann_token pre v rest :
  not_identifier_end pre -> bytes_of text = pre ++ v ++ rest -> occurs (bytes_of "eyJ") v 0 ->
  all is_token_byte v -> stops is_token_byte rest -> (2 <= count_dots v)%nat -> (20 <= length v)%nat ->
  announced text (length pre, (length pre + length v)%nat).

(** ** The scan at an announced value *)

Lemma preceded_app pre k : not_identifier_end pre -> preceded_by_identifier (pre ++ k) (length pre) = false.
Proof.
  unfold not_identifier_end, preceded_by_identifier. destruct pre as [|x pre] using rev_ind; [done|].
  rewrite last_snoc, length_app, Nat.add_1_r. simpl. rewrite lookup_app_l by (rewrite length_app; simpl; lia).
  by rewrite lookup_app_r, Nat.sub_diag by lia.
Qed.

Lemma lookup_app_hd (l k : bytes) : (l ++ k) !! length l = hd_error k.
Proof. rewrite lookup_app_r, Nat.sub_diag by lia. by destruct k. Qed.

Lemma value_range_plain l v rest : plain_value v rest -> value_range (l ++ v ++ rest) (length l) = Some (length l, (length l + length v)%nat).
Proof.
  intros (Hne & Hv & Hq & Hr). unfold value_range. rewrite lookup_app_hd. destruct v as [|b v]; [done|]. simpl in Hq |- *.
  unfold is_quote in Hq. rewrite Hq. change (b :: v ++ rest) with ((b :: v) ++ rest). rewrite run_while_app.
  - simpl. destruct (Nat.ltb_spec (length l) (length l + S (length v))); [done|lia].
  - eapply Forall_impl; [exact Hv|]. by intros x ->.
  - done.
Qed.

Lemma quote_end_app q prev v rest :
  (forall v1 v2, v = v1 ++ q :: v2 -> from_option Some prev (last v1) = Some BACKSLASH) ->
  rest = [] \/ hd_error rest = Some q /\ from_option Some prev (last v) <> Some BACKSLASH ->
  quote_end q prev (v ++ rest) = length v.
Proof.
  revert prev. induction v as [|b v IH]; intros prev Hv Hr; simpl.
  - destruct rest as [|b rest]; [done|]. destruct Hr as [|[[= ->] Hp]]; [done|]. simpl in *.
    by rewrite N.eqb_refl, bool_decide_eq_false_2.
  - assert (forall v1, from_option Some prev (last (b :: v1)) = from_option Some (Some b) (last v1)) as Hl.
    { intros v1. rewrite last_cons. by destruct (last v1). }
    destruct (N.eqb_spec b q) as [->|Hb]; simpl.
    + pose proof (Hv [] v eq_refl) as Hp. simpl in Hp. rewrite bool_decide_eq_true_2 by done. simpl. rewrite IH; [done| |].
      * intros v1 v2 ->. rewrite <-Hl. by apply (Hv (q :: v1) v2).
      * by rewrite <-Hl.
    + rewrite IH; [done| |].
      * intros v1 v2 ->. rewrite <-Hl. by apply (Hv (b :: v1) v2).
      * by rewrite <-Hl.
Qed.

Lemma value_range_quoted l q v rest :
  quoted_value q v rest -> value_range (l ++ q :: v ++ rest) (length l) = Some (S (length l), (S (length l) + length v)%nat).
Proof.
  intros (Hq & Hne & Hv & Hr). unfold value_range. rewrite lookup_app_hd. simpl. unfold is_quote in Hq. rewrite Hq.
  replace (drop (S (length l)) (l ++ q :: v ++ rest)) with (v ++ rest).
  - rewrite quote_end_app; cycle 1.
    { intros v1 v2 E. rewrite (Hv v1 v2 E). done. }
    { destruct Hr as [|[? Hr]]; [by left|right]. split; [done|]. by destruct (last v). }
    destruct v; [done|]. simpl.
    destruct (Nat.ltb_spec (S (length l)) (S (length l + S (length v)))); [done|lia].
  - by rewrite <-Nat.add_1_r, <-drop_drop, drop_app_length.
Qed.

Lemma run_while_at f (l A B C : bytes) n :
  l = A ++ B ++ C -> n = length A -> all f B -> stops f C -> run_while f l n = length (A ++ B).
Proof. intros -> -> HB HC. rewrite run_while_app by done. by rewrite length_app. Qed.

Lemma lookup_at (l A C : bytes) n : l = A ++ C -> n = length A -> l !! n = hd_error C.
Proof. intros -> ->. apply lookup_app_hd. Qed.

Lemma whitespace_not_identifier b : byte_is_whitespace b = true -> is_identifier_byte b = false.
Proof. unfold byte_is_whitespace. rewrite !orb_true_iff, !N.eqb_eq. intros [[[[-> | ->] | ->] | ->] | ->]; done. Qed.

Lemma assignment_spec b : is_assignment b = true -> byte_is_whitespace b = false /\ is_identifier_byte b = false.
Proof. unfold is_assignment. rewrite orb_true_iff, !N.eqb_eq. by intros [->| ->]. Qed.

Ltac bytes_eq := subst; rewrite <-?app_assoc; simpl; rewrite <-?app_assoc; done.
Ltac len_eq := rewrite ?length_app, ?length_bytes_of; simpl; rewrite ?length_app, ?length_bytes_of; lia.

Section marked.
Variables (l pre : bytes) (marker : string).

Lemma marked_value_assigned ws1 sep ws2 V :
  l = pre ++ bytes_of marker ++ ws1 ++ sep :: ws2 ++ V ->
  all byte_is_whitespace ws1 -> is_assignment sep = true -> all byte_is_whitespace ws2 -> stops byte_is_whitespace V ->
  marked_value l marker (length pre) = value_range l (length (pre ++ bytes_of marker ++ ws1 ++ sep :: ws2)).
Proof.
  intros Hl H1 Hsep H2 HV. destruct (assignment_spec _ Hsep) as [Hws Hid]. unfold marked_value, value_separator.
  rewrite (run_while_at byte_is_whitespace l (pre ++ bytes_of marker) ws1 (sep :: ws2 ++ V));
    [|bytes_eq|len_eq|done|by right; eauto].
  rewrite (lookup_at l ((pre ++ bytes_of marker) ++ ws1) (sep :: ws2 ++ V)) by (bytes_eq || done). simpl.
  rewrite Hsep, andb_false_r.
  rewrite (lookup_at l (pre ++ bytes_of marker) (ws1 ++ sep :: ws2 ++ V)) by (bytes_eq || len_eq).
  replace (is_some_and (hd_error (ws1 ++ sep :: ws2 ++ V)) is_identifier_byte) with false.
  - rewrite (run_while_at byte_is_whitespace l (((pre ++ bytes_of marker) ++ ws1) ++ [sep]) ws2 V); [|bytes_eq|len_eq|done..].
    f_equal. len_eq.
  - destruct H1 as [|b ws1 Hb _]; simpl; [done|]. symmetry. by apply whitespace_not_identifier.
Qed.

Lemma marked_value_scheme ws V :
  l = pre ++ bytes_of marker ++ ws ++ V -> not_identifier_end pre -> marker_is_auth_scheme marker = true ->
  all byte_is_whitespace ws -> ws <> [] -> stops byte_is_whitespace V -> V <> [] ->
  is_some_and (hd_error V) is_assignment = false ->
  marked_value l marker (length pre) = value_range l (length (pre ++ bytes_of marker ++ ws)).
Proof.
  intros Hl Hpre Ha H1 Hne HV HVn Hsep. unfold marked_value, value_separator.
  rewrite Hl, preceded_app, <-Hl by done. simpl.
  rewrite (lookup_at l (pre ++ bytes_of marker) (ws ++ V)) by (bytes_eq || len_eq).
  rewrite (run_while_at byte_is_whitespace l (pre ++ bytes_of marker) ws V); [|bytes_eq|len_eq|done..].
  rewrite (lookup_at l ((pre ++ bytes_of marker) ++ ws) V) by (bytes_eq || done).
  destruct H1 as [|b ws Hb _]; [done|]. simpl. rewrite whitespace_not_identifier by done.
  destruct V as [|c V]; [done|]. simpl in *. rewrite Hsep, Ha. f_equal. len_eq.
Qed.
End marked.

(** ** Overlapping occurrences *)

Definition borderless (s : string) : bool :=
  forallb (fun k => negb (is_prefix (drop k (bytes_of s)) (bytes_of s))) (seq 1 (length (bytes_of s) - 1)).

Lemma overlap_border p l i j :
  occurs p l i -> occurs p l j -> (j < i < j + length p)%nat -> is_prefix (drop (i - j) p) p = true.
Proof.
  intros [k Hk]%occurs_spec [k' Hk']%occurs_spec Hij.
  assert (He : p ++ k = drop (i - j) p ++ k').
  { rewrite <-Hk. replace i with (j + (i - j))%nat at 1 by lia. rewrite <-drop_drop, Hk'.
    rewrite drop_app_le by lia. done. }
  apply is_prefix_spec. exists (drop (length (drop (i - j) p)) p).
  rewrite <-(take_drop (length (drop (i - j) p)) p) at 1. f_equal.
  apply (f_equal (take (length (drop (i - j) p)))) in He. rewrite take_app_length in He.
  rewrite take_app_le in He by (rewrite length_drop; lia). exact He.
Qed.

Lemma borderless_free s l i j :
  borderless s = true -> occurs (bytes_of s) l i -> occurs (bytes_of s) l j ->
  (j < i < j + length (bytes_of s))%nat -> False.
Proof.
  intros Hb Hi Hj Hij. unfold borderless in Hb. rewrite forallb_forall in Hb.
  specialize (Hb (i - j)%nat). rewrite (overlap_border _ _ _ _ Hi Hj Hij) in Hb.
  discriminate Hb. apply in_seq. lia.
Qed.

(** An occurrence within an earlier one follows a byte of the pattern. *)
Lemma identifier_free s l i j :
  Forall (fun b => is_identifier_byte b = true) (bytes_of s) -> occurs (bytes_of s) l j ->
  (j < i < j + length (bytes_of s))%nat -> preceded_by_identifier l i = true.
Proof.
  intros Hs [k Hk]%occurs_spec Hij. destruct i as [|i]; [lia|]. simpl.
  replace i with (j + (i - j))%nat by lia. rewrite <-lookup_drop, Hk, lookup_app_l by lia.
  destruct (lookup_lt_is_Some_2 (bytes_of s) (i - j)) as [b Hb]; [lia|]. rewrite Hb. simpl.
  exact (Forall_lookup_1 _ _ _ _ Hs Hb).
Qed.

Lemma markers_borderless marker : marker ∈ SENSITIVE_MARKERS -> borderless marker = true /\ bytes_of marker <> [].
Proof.
  intros Hm. assert (Hf : forallb (fun m => borderless m && pattern_ok m) SENSITIVE_MARKERS = true) by (vm_compute; reflexivity).
  rewrite forallb_forall in Hf. apply list_elem_of_In, Hf, andb_true_iff in Hm as [? [_ ?]%pattern_ok_spec]. done.
Qed.

Lemma prefixes_identifier prefix :
  prefix ∈ KNOWN_TOKEN_PREFIXES -> Forall (fun b => is_identifier_byte b = true) (bytes_of prefix) /\ bytes_of prefix <> [].
Proof.
  intros Hm. assert (Hf : forallb (fun m => forallb is_identifier_byte (bytes_of m) && pattern_ok m) KNOWN_TOKEN_PREFIXES = true)
    by (vm_compute; reflexivity).
  rewrite forallb_forall in Hf. apply list_elem_of_In, Hf, andb_true_iff in Hm as [Hi [_ ?]%pattern_ok_spec]. split; [|done].
  rewrite forallb_forall in Hi. apply Forall_forall. intros b Hb. by apply Hi, list_elem_of_In.
Qed.

(** ** Coverage *)

Lemma plain_stops v rest : plain_value v rest -> stops byte_is_whitespace (v ++ rest).
Proof.
  intros (Hne & Hv & _). destruct Hv as [|b v Hb _]; [done|]. right. exists b. split; [done|].
  unfold ends_value in Hb. by destruct (byte_is_whitespace b).
Qed.

Lemma quote_stops q r : is_quote q = true -> stops byte_is_whitespace (q :: r).
Proof.
  intros [->%N.eqb_eq| ->%N.eqb_eq]%orb_true_iff; right; eexists; by split; [reflexivity|].
Qed.

Lemma marked_in_ranges text marker i r :
  marker ∈ SENSITIVE_MARKERS -> occurs (bytes_of marker) (map byte_lower (bytes_of text)) i ->
  marked_value (map byte_lower (bytes_of text)) marker i = Some r -> r ∈ all_ranges text.
Proof.
  intros Hm Ho Hv. apply elem_of_app. left. apply list_elem_of_In, in_flat_map. exists marker.
  split; [by apply list_elem_of_In|]. apply list_elem_of_In. destruct (markers_borderless _ Hm).
  eapply search_complete; [done..|]. intros j Hj. by eapply borderless_free.
Qed.

Lemma announced_assigned text marker pre ws1 sep ws2 V r :
  marker ∈ SENSITIVE_MARKERS -> all byte_is_whitespace ws1 -> is_assignment sep = true -> all byte_is_whitespace ws2 ->
  map byte_lower (bytes_of text) = (pre ++ bytes_of marker ++ ws1 ++ sep :: ws2) ++ V -> stops byte_is_whitespace V ->
  value_range ((pre ++ bytes_of marker ++ ws1 ++ sep :: ws2) ++ V) (length (pre ++ bytes_of marker ++ ws1 ++ sep :: ws2)) = Some r ->
  r ∈ all_ranges text.
Proof.
  intros Hm H1 Hs H2 Hl HV Hr. rewrite <-Hl in Hr.
  assert (He : map byte_lower (bytes_of text) = pre ++ bytes_of marker ++ ws1 ++ sep :: ws2 ++ V) by (rewrite Hl; bytes_eq).
  apply (marked_in_ranges _ marker (length pre)); [done|rewrite He; apply occurs_app|].
  by rewrite (marked_value_assigned _ pre marker ws1 sep ws2 V).
Qed.

Lemma announced_scheme text marker pre ws V r :
  marker ∈ ["bearer"; "basic"] -> not_identifier_end pre -> all byte_is_whitespace ws -> ws <> [] ->
  map byte_lower (bytes_of text) = (pre ++ bytes_of marker ++ ws) ++ V -> stops byte_is_whitespace V -> V <> [] ->
  is_some_and (hd_error V) is_assignment = false ->
  value_range ((pre ++ bytes_of marker ++ ws) ++ V) (length (pre ++ bytes_of marker ++ ws)) = Some r ->
  r ∈ all_ranges text.
Proof.
  intros Hm Hpre Hws Hne Hl HV HVn Ha Hr. rewrite <-Hl in Hr.
  assert (He : map byte_lower (bytes_of text) = pre ++ bytes_of marker ++ ws ++ V) by (rewrite Hl; bytes_eq).
  assert (Hin : marker ∈ SENSITIVE_MARKERS /\ marker_is_auth_scheme marker = true).
  { apply elem_of_cons in Hm as [->| ->%list_elem_of_singleton]; (split; [|done]); apply list_elem_of_In; simpl; tauto. }
  destruct Hin as [Hin Hauth].
  apply (marked_in_ranges _ marker (length pre)); [done|rewrite He; apply occurs_app|].
  by rewrite (marked_value_scheme _ pre marker ws V).
Qed.

Lemma quote_not_assignment q r : is_quote q = true -> is_some_and (hd_error (q :: r)) is_assignment = false.
Proof. by intros [->%N.eqb_eq| ->%N.eqb_eq]%orb_true_iff. Qed.

Lemma announced_prefix text prefix pre v rest :
  prefix ∈ KNOWN_TOKEN_PREFIXES -> not_identifier_end pre -> bytes_of text = pre ++ bytes_of prefix ++ v ++ rest ->
  all is_token_byte v -> stops is_token_byte rest -> (6 <= length v)%nat ->
  (length pre, length pre + length (bytes_of prefix ++ v))%nat ∈ all_ranges text.
Proof.
  intros Hm Hpre Hl Hv Hr Hn. destruct (prefixes_identifier _ Hm) as [Hid Hne].
  assert (Hp : preceded_by_identifier (bytes_of text) (length pre) = false) by (rewrite Hl; by apply preceded_app).
  apply elem_of_app. right. apply elem_of_app. left. apply list_elem_of_In, in_flat_map. exists prefix.
  split; [by apply list_elem_of_In|]. apply list_elem_of_In. eapply (search_complete _ _ _ Hne (length pre)).
  - rewrite Hl. apply occurs_app.
  - unfold prefix_value. rewrite Hp.
    rewrite (run_while_at is_token_byte (bytes_of text) (pre ++ bytes_of prefix) v rest); [|rewrite Hl; bytes_eq|len_eq|done..].
    rewrite !length_app, <-length_bytes_of. destruct (Nat.leb_spec (length (bytes_of prefix) + 6)
      (length pre + length (bytes_of prefix) + length v - length pre)) as [_|]; [|lia]. do 2 f_equal. lia.
  - intros j Hj Hij. pose proof (identifier_free _ _ _ _ Hid Hj Hij). congruence.
Qed.

Lemma announced_token text pre v rest :
  not_identifier_end pre -> bytes_of text = pre ++ v ++ rest -> occurs (bytes_of "eyJ") v 0 ->
  all is_token_byte v -> stops is_token_byte rest -> (2 <= count_dots v)%nat -> (20 <= length v)%nat ->
  (length pre, length pre + length v)%nat ∈ all_ranges text.
Proof.
  intros Hpre Hl Ho Hv Hr Hd Hn. apply elem_of_app. right. apply elem_of_app. right.
  assert (Hne : bytes_of "eyJ" <> []) by done. eapply (search_complete _ _ _ Hne (length pre)).
  - apply occurs_spec in Ho as [k Hk]. rewrite drop_0 in Hk. rewrite Hl, Hk, <-app_assoc. apply occurs_app.
  - unfold jwt_value. rewrite Hl at 1. rewrite preceded_app by done.
    rewrite (run_while_at is_token_byte (bytes_of text) pre v rest) by done. rewrite length_app.
    replace (length pre + length v - length pre)%nat with (length v) by lia.
    rewrite Hl, drop_app_length, take_app_length.
    destruct (Nat.leb_spec 2 (count_dots v)); [|lia]. by destruct (Nat.leb_spec 20 (length v)); [|lia].
  - intros j Hj. eapply borderless_free; [done| |done]. rewrite Hl.
    apply occurs_spec in Ho as [k Hk]. rewrite drop_0 in Hk. rewrite Hk, <-app_assoc. apply occurs_app.
Qed.

Lemma announced_ranges text r : announced text r -> (r.1 < r.2)%nat /\ r ∈ all_ranges text.
Proof.
  assert (forall v rest : bytes, v <> [] -> forall n, (n < n + length v)%nat /\ v ++ rest <> []) as Hlen.
  { intros [|b v] rest Hv n; [done|]. simpl. split; [lia|done]. }
  intros Ha. destruct Ha as [marker pre ws1 sep ws2 v rest ? ? ? ? ? Hv|marker pre ws1 sep ws2 q v rest ? ? ? ? ? Hv
    |marker pre ws v rest ? ? ? ? ? Hv Has|marker pre ws q v rest ? ? ? ? ? Hv|prefix pre v rest|pre v rest]; simpl.
  - split; [by apply (Hlen v rest), Hv|].
    by eapply announced_assigned; [..|eapply plain_stops|apply value_range_plain].
  - split; [destruct (Hlen v rest (proj1 (proj2 Hv)) O); simpl in *; lia|].
    by eapply announced_assigned; [..|apply quote_stops, Hv|apply value_range_quoted].
  - pose proof (Hlen v rest (proj1 Hv) O) as [_ Hne]. split; [by apply (Hlen v rest), Hv|].
    eapply announced_scheme; [done|done|done|done|done| | | |by apply value_range_plain]; [by apply plain_stops|done|].
    destruct Hv as [Hv _]. by destruct v.
  - split; [destruct (Hlen v rest (proj1 (proj2 Hv)) O); simpl in *; lia|].
    eapply announced_scheme; [done|done|done|done|done| | | |by apply value_range_quoted]; [apply quote_stops, Hv|done|].
    apply quote_not_assignment, Hv.
  - split; [rewrite length_app; lia|]. by eapply announced_prefix.
  - split; [lia|]. by eapply announced_token.
Qed.

(** ** The output *)

Lemma uncovered_sublist ranges i l : uncovered ranges i l `sublist_of` l.
Proof. revert i. induction l as [|b l IH]; intros i; simpl; [constructor|]. by case_match; constructor. Qed.

Lemma slice_split l a b c : (a <= b <= c)%nat -> slice l a c = slice l a b ++ slice l b c.
Proof.
  intros H. unfold slice. replace (c - a)%nat with ((b - a) + (c - b))%nat by lia.
  rewrite <-take_take_drop, drop_drop. by replace (a + (b - a))%nat with b by lia.
Qed.

(** The replacement of one range stands between what is left of the text before it and
    the replacement of the ranges behind it. *)
Lemma replace_loop_at l ph A s e B cursor : StronglySorted before (A ++ (s, e) :: B) ->
  Forall (fun r => (cursor <= r.1 < r.2)%nat) (A ++ (s, e) :: B) ->
  exists gaps, gaps <> [] /\ replace_loop l ph (A ++ (s, e) :: B) cursor = join ph gaps ++ ph ++ replace_loop l ph B e
    /\ concat gaps `sublist_of` slice l cursor s.
Proof.
  revert cursor. induction A as [|[a b] A IH]; intros cursor Hs Hf; simpl in *.
  - apply Forall_cons in Hf as [Hc _]. simpl in Hc. exists [slice l cursor s]. split_and!; [done| |by simpl; rewrite app_nil_r].
    rewrite Nat.max_l by lia. simpl. destruct (Nat.ltb_spec cursor s); [done|]. unfold slice.
    by replace (s - cursor)%nat with O by lia.
  - apply Forall_cons in Hf as [Hc Hf]. simpl in Hc. inversion_clear Hs as [|? ? Hs' Hb].
    destruct (IH b Hs') as (gaps & Hne & Hout & Hsub).
    { rewrite Forall_forall in Hb, Hf |- *. intros r Hr. specialize (Hb r Hr). specialize (Hf r Hr).
      unfold before in Hb. simpl in Hb. lia. }
    assert (b < s)%nat as Hbs.
    { rewrite Forall_forall in Hb. specialize (Hb (s, e) ltac:(set_solver)). by unfold before in Hb. }
    exists (slice l cursor a :: gaps). split_and!; [done| |].
    + rewrite Nat.max_l, Hout by lia. destruct gaps as [|g gaps]; [done|]. simpl. rewrite <-!app_assoc.
      destruct (Nat.ltb_spec cursor a); [done|]. unfold slice. by replace (a - cursor)%nat with O by lia.
    + simpl. rewrite (slice_split l cursor a s), (slice_split l a b s) by lia. apply sublist_app; [done|].
      by apply sublist_inserts_l.
Qed.

Lemma replaced_around text ph r : is_str text -> (r.1 < r.2)%nat -> r ∈ all_ranges text ->
  exists gaps1 gaps2, replace_ranges text (sensitive_ranges text) ph =
      of_bytes (join (bytes_of ph) gaps1 ++ bytes_of ph ++ join (bytes_of ph) gaps2) /\
    concat gaps1 `sublist_of` take r.1 (bytes_of text) /\ concat gaps2 `sublist_of` drop r.2 (bytes_of text).
Proof.
  intros Ht Hlt Hin. destruct (sensitive_ranges_cover text r Hlt Hin) as ([s e] & Hm & Hc).
  pose proof (sensitive_ranges_sorted text) as Hs. pose proof (sensitive_ranges_placed text Ht) as Hw.
  apply list_elem_of_split in Hm as (A & B & E). rewrite E in *. unfold covers in Hc. simpl in Hc.
  destruct (replace_loop_at (bytes_of text) (bytes_of ph) A s e B O Hs) as (gaps1 & _ & Hout & Hsub1).
  { eapply Forall_impl; [exact Hw|]. intros m (? & _ & [? _]). lia. }
  apply Forall_app in Hw as [_ [(Hse & _ & [He _]) Hw]%Forall_cons]. simpl in Hse, He.
  apply StronglySorted_app_1_r in Hs. inversion_clear Hs as [|? ? Hs' Hb].
  destruct (replace_loop_spec (bytes_of text) (bytes_of ph) B e) as (gaps2 & _ & Hcat & Hout2); [done|done| |].
  { rewrite Forall_forall in Hb, Hw |- *. intros m Hm. specialize (Hb m Hm). destruct (Hw m Hm) as (? & _ & [? _]).
    unfold before in Hb. simpl in Hb. lia. }
  exists gaps1, gaps2. split_and!.
  - unfold replace_ranges. destruct (A ++ (s, e) :: B) eqn:EA; [by destruct A|]. rewrite <-Hout2, <-Hout. done.
  - etrans; [exact Hsub1|]. unfold slice. rewrite drop_0, Nat.sub_0_r.
    rewrite <-(Nat.min_l s r.1), <-take_take by lia. apply sublist_take.
  - rewrite Hcat. etrans; [apply uncovered_sublist|].
    replace e with (r.2 + (e - r.2))%nat by lia. rewrite <-drop_drop. apply sublist_drop.
Qed.

(** [C36] Every byte of a value that the text announces as a secret is replaced in the
    result: a value assigned to a marker (in either case, with white space around the
    separator, also as the end of a longer key) or behind an authorization scheme, plain
    up to a byte that ends it or in quotes up to the closing one, where quotes that follow
    a backslash are part of the value; a key with a known prefix; a signed token.  The
    sanitised text is the truncation of three parts: pieces of the text before the
    value, in order, with the placeholder between them; one placeholder; and pieces of
    the text behind the value in the same way.  None of them takes a byte of the value. *)
Theorem announced_values_redacted p text r :
  is_str text -> announced text r ->
  (r.1 < r.2)%nat /\
  exists before after,
    let placeholder := bytes_of (rp_placeholder p) in
    sanitize_text p text =
      truncate_text p (of_bytes (join placeholder before ++ placeholder ++ join placeholder after)) /\
    concat before `sublist_of` take r.1 (bytes_of text) /\ concat after `sublist_of` drop r.2 (bytes_of text).
Proof.
  intros Ht [Hlt Hin]%announced_ranges. split; [done|].
  destruct (replaced_around text (rp_placeholder p) r Ht Hlt Hin) as (gaps1 & gaps2 & E & H1 & H2).
  exists gaps1, gaps2. simpl. split; [|done]. unfold sanitize_text. by rewrite E.
Qed.

(** A quoted value with an escaped quote in it: all of it goes. *)
Definition quoted_text : string :=
  of_bytes (bytes_of "PASSWORD: " ++ DQUOTE :: bytes_of "ab" ++ BACKSLASH :: DQUOTE :: bytes_of "cd" ++ DQUOTE :: bytes_of ", x").

Lemma announced_values_redacted_witness :
  (exists before after,
    sanitize_text strict quoted_text = truncate_text strict (of_bytes (join (bytes_of "[REDACTED]") before
      ++ bytes_of "[REDACTED]" ++ join (bytes_of "[REDACTED]") after)) /\
    concat before `sublist_of` take 11 (bytes_of quoted_text) /\ concat after `sublist_of` drop 17 (bytes_of quoted_text)) /\
  sanitize_text strict quoted_text =
    of_bytes (bytes_of "PASSWORD: " ++ DQUOTE :: bytes_of "[REDACTED]" ++ DQUOTE :: bytes_of ", x").
Proof.
  split; [|vm_compute; reflexivity].
  apply (announced_values_redacted strict quoted_text (11, 17)%nat); [vm_compute; reflexivity|].
  apply (ann_quoted _ "password" [] [] COLON [SPACE] DQUOTE (bytes_of "ab" ++ BACKSLASH :: DQUOTE :: bytes_of "cd")
    (DQUOTE :: bytes_of ", x")).
  - by apply list_elem_of_In; simpl; tauto.
  - by repeat constructor.
  - done.
  - by repeat constructor.
  - vm_compute; reflexivity.
  - split_and!; [done|done| |right; done]. intros v1 v2 E.
    do 7 (destruct v1 as [|? v1]; simplify_eq/=; try done).
Defined.

(** [C37] For text and a placeholder that are UTF-8, the ranges found are apart, in order
    and between characters, so that no slice panics; what is left is exactly the bytes
    outside the ranges, in as many pieces as the placeholders between them require; and
    the result, truncated or not, is UTF-8 and no longer than the limit and its mark. *)
Theorem text_redaction_exact p text :
  is_str text -> is_str (rp_placeholder p) ->
  let ranges := sensitive_ranges text in
  let replaced := replace_ranges text ranges (rp_placeholder p) in
  StronglySorted before ranges /\ Forall (well_placed (bytes_of text)) ranges
  /\ (exists gaps, length gaps = S (length ranges) /\ concat gaps = uncovered ranges 0 (bytes_of text)
                   /\ bytes_of replaced = join (bytes_of (rp_placeholder p)) gaps)
  /\ is_str (sanitize_text p text)
  /\ (0 < rp_max_string_length p ->
      (length (chars (sanitize_text p text)) <= N.to_nat (rp_max_string_length p) + length (chars TRUNCATED))%nat).
Proof.
  intros Ht Hp ranges replaced. subst replaced. pose proof (sensitive_ranges_sorted text) as Hs.
  pose proof (sensitive_ranges_placed text Ht) as Hw. fold ranges in Hs, Hw. rewrite replace_ranges_bytes.
  split_and!; [done..| | |by apply sanitize_text_bounded].
  - destruct (replace_loop_spec (bytes_of text) (bytes_of (rp_placeholder p)) ranges 0) as (gaps & ? & ? & ?).
    + lia.
    + done.
    + eapply Forall_impl; [exact Hw|]. intros r (? & _ & [? _]). lia.
    + rewrite drop_0 in *. eauto.
  - by apply sanitize_text_str.
Qed.

(** A line with a bearer credential. *)
Lemma text_redaction_exact_witness :
  is_str (sanitize_text strict "Authorization: Bearer abc.def; next")
  /\ sanitize_text strict "Authorization: Bearer abc.def; next" = "Authorization: [REDACTED] [REDACTED]; next".
Proof.
  split; [|vm_compute; reflexivity].
  apply (text_redaction_exact strict "Authorization: Bearer abc.def; next"); vm_compute; reflexivity.
Defined.
