(* ===== verification/RedactWriter.v ===== *)
(** The redacting writer: what reaches the wrapped writer are the sanitised lines of the
    whole input, however the input is cut into writes, and each of them is UTF-8. *)
From S2P Require Import Prelude Str Bytes Redact RedactText.

Open Scope N_scope.

(** * Lossy decoding *)

(** [pend] is a character read up to the state. *)
Definition reading (s : Utf8State) (pend : bytes) : Prop := utf8_run U0 (rev pend) = Some s.

Lemma reading_step s pend b s' : reading s pend -> utf8_step s b = Some s' -> reading s' (b :: pend).
Proof. unfold reading. intros Hp Hs. simpl. by rewrite utf8_run_app, Hp; simpl; rewrite Hs. Qed.

Lemma utf8_start_spec s : utf8_start s = true -> s = U0.
Proof. by destruct s. Qed.

Lemma lossy_push_valid pend s k :
  reading s pend -> (forall s pend, reading s pend -> utf8_valid (k s pend) = true) -> utf8_valid (lossy_push pend s k) = true.
Proof.
  intros Hp Hk. unfold lossy_push. destruct (utf8_start s) eqn:E; [|by apply Hk]. apply utf8_start_spec in E as ->.
  apply utf8_valid_app; [by apply utf8_run_valid|]. by apply Hk.
Qed.

Lemma lossy_valid l : forall s pend, reading s pend -> utf8_valid (lossy_loop s pend l) = true.
Proof.
  induction l as [|b l IH]; intros s pend Hp; simpl; [by destruct s|].
  destruct (utf8_step s b) as [s'|] eqn:E.
  - apply lossy_push_valid; [by eapply reading_step|apply IH].
  - apply (utf8_valid_app REPLACEMENT); [done|]. case_match; [by apply IH|].
    destruct (utf8_lead b) as [s'|] eqn:El; [|apply (utf8_valid_app REPLACEMENT); [done|by apply IH]].
    apply lossy_push_valid; [|apply IH]. by apply (reading_step U0 []).
Qed.

(** Valid text is decoded to itself. *)
Lemma lossy_run l : forall s pend,
  reading s pend -> (s = U0 -> pend = []) -> utf8_run s l = Some U0 -> lossy_loop s pend l = rev pend ++ l.
Proof.
  induction l as [|b l IH]; intros s pend Hp He Hl; simpl in *.
  { injection Hl as ->. rewrite He by done. done. }
  destruct (utf8_step s b) as [s'|] eqn:E; [|done]. pose proof (reading_step _ _ _ _ Hp E) as Hp'.
  unfold lossy_push. destruct (utf8_start s') eqn:Es.
  - apply utf8_start_spec in Es as ->. rewrite IH by done. simpl. by rewrite <-app_assoc.
  - rewrite IH; [simpl; by rewrite <-app_assoc|done| |done]. intros ->. done.
Qed.

Lemma from_utf8_lossy_id l : utf8_valid l = true -> from_utf8_lossy l = l.
Proof. rewrite utf8_run_valid. intros Hl. by apply (lossy_run l U0 []). Qed.

Lemma lossy_push_Forall (P : N -> Prop) pend s k :
  Forall P pend -> (forall s pend, Forall P pend -> Forall P (k s pend)) -> Forall P (lossy_push pend s k).
Proof.
  intros Hp Hk. unfold lossy_push. case_match; [|by apply Hk]. apply Forall_app. split; [by apply Forall_rev|by apply Hk].
Qed.

Lemma lossy_Forall (P : N -> Prop) l : forall s pend,
  Forall P REPLACEMENT -> Forall P pend -> Forall P l -> Forall P (lossy_loop s pend l).
Proof.
  intros s pend Hr Hp Hl. revert s pend Hp. induction Hl as [|b l Hb _ IH]; intros s pend Hp; cbn [lossy_loop]; [by case_match|].
  case_match; [by apply lossy_push_Forall; [constructor|]|]. apply Forall_app. split; [done|].
  case_match; [by apply IH|]. case_match; [by apply lossy_push_Forall; [constructor|]|].
  apply Forall_app. split; [done|by apply IH].
Qed.

(** * Lines *)

(** The complete lines of a stream, with their line feeds, and what follows them. *)
Fixpoint complete_lines (l : bytes) : list bytes * bytes :=
  match l with
  | [] => ([], [])
  | b :: l =>
    let '(lines, rest) := complete_lines l in
    if b =? LF then ([LF] :: lines, rest)
    else match lines with
         | [] => ([], b :: rest)
         | line :: lines => ((b :: line) :: lines, rest)
         end
  end.

Lemma complete_lines_split l :
  complete_lines l = match split_once LF l with
                     | Some (line, rest) => ((line ++ [LF]) :: (complete_lines rest).1, (complete_lines rest).2)
                     | None => ([], l)
                     end.
Proof.
  induction l as [|b l IH]; [done|]. cbn [complete_lines split_once]. destruct (N.eqb_spec b LF) as [->|_].
  - by destruct (complete_lines l).
  - rewrite IH. by destruct (split_once LF l) as [[line rest]|].
Qed.

Lemma complete_lines_app l k :
  complete_lines (l ++ k) =
  ((complete_lines l).1 ++ (complete_lines ((complete_lines l).2 ++ k)).1, (complete_lines ((complete_lines l).2 ++ k)).2).
Proof.
  induction l as [|b l IH]; [by simpl; destruct (complete_lines k)|]. cbn [complete_lines app]. rewrite IH.
  destruct (complete_lines l) as [[|line lines] rest]; simpl.
  - destruct (b =? LF) eqn:E; simpl; [done|]. rewrite E. by destruct (complete_lines (rest ++ k)) as [[|??] ?].
  - by destruct (b =? LF).
Qed.

Lemma complete_lines_tail l : complete_lines (complete_lines l).2 = ([], (complete_lines l).2).
Proof.
  induction l as [|b l IH]; [done|]. cbn [complete_lines]. destruct (complete_lines l) as [lines rest]. simpl in IH.
  destruct (b =? LF) eqn:E; [done|]. destruct lines; [|done]. simpl. by rewrite IH, E.
Qed.

(** * The writer *)

Section writer.
Context {W E : Type} `{InnerWriter W E}.

(** Writes one after the other, up to the first that fails. *)
Fixpoint write_many (l : list bytes) (w : W) : Result unit E * W :=
  match l with
  | [] => (Ok (), w)
  | x :: l => match write_all x w with (Ok _, w) => write_many l w | (Err e, w) => (Err e, w) end
  end.

(** A caller that stops at the first error. *)
Fixpoint write_chunks (chunks : list bytes) (w : RedactingWriter W) : Result unit E * RedactingWriter W :=
  match chunks with
  | [] => (Ok (), w)
  | c :: chunks => match rw_write c w with (Ok _, w) => write_chunks chunks w | (Err e, w) => (Err e, w) end
  end.

Lemma write_many_app l k w :
  write_many (l ++ k) w = match write_many l w with (Ok _, w) => write_many k w | (Err e, w) => (Err e, w) end.
Proof. revert w. induction l as [|x l IH]; intros w; simpl; [done|]. destruct (write_all x w) as [[]]; auto. Qed.

(** What an operation of the writer did, against the writes it stands for. *)
Definition did (r : Result unit E * RedactingWriter W) (p : RedactionPolicy) (expected : Result unit E * W) (rest : bytes) : Prop :=
  r.1 = expected.1 /\ rw_inner r.2 = expected.2 /\ rw_policy r.2 = p /\ (r.1 = Ok () -> rw_pending r.2 = rest).

Lemma write_lines_did fuel : forall w,
  (length (rw_pending w) <= fuel)%nat ->
  did (write_lines fuel w) (rw_policy w)
    (write_many (map (sanitize_line (rw_policy w)) (complete_lines (rw_pending w)).1) (rw_inner w))
    (complete_lines (rw_pending w)).2.
Proof.
  induction fuel as [|fuel IH]; intros w Hf.
  { assert (rw_pending w = []) as -> by (destruct (rw_pending w); [done|simpl in Hf; lia]). split_and!; try done.
    simpl. by destruct (rw_pending w); [|simpl in Hf; lia]. }
  cbn [write_lines]. rewrite complete_lines_split. destruct (split_once LF (rw_pending w)) as [[line rest]|] eqn:Es; [|done].
  simpl. assert (Hl : (length rest < length (rw_pending w))%nat).
  { clear -Es. revert line Es. induction (rw_pending w) as [|b l IH]; intros line; simpl; [done|].
    case_match; [intros [= _ ->]; lia|]. destruct (split_once LF l) as [[x y]|]; [|done]. intros [= _ ->].
    specialize (IH _ eq_refl). lia. }
  destruct (write_all _ _) as [[[]|e] inner] eqn:Ew; simpl; [|done].
  apply (IH (MkRedactingWriter inner (rw_policy w) rest)). simpl. lia.
Qed.

Lemma rw_write_did buffer w :
  did (let '(r, w') := rw_write buffer w in (match r with Ok _ => Ok () | Err e => Err e end, w')) (rw_policy w)
    (write_many (map (sanitize_line (rw_policy w)) (complete_lines (rw_pending w ++ buffer)).1) (rw_inner w))
    (complete_lines (rw_pending w ++ buffer)).2.
Proof.
  unfold rw_write.
  pose proof (write_lines_did _ (MkRedactingWriter (rw_inner w) (rw_policy w) (rw_pending w ++ buffer)) (le_n _)) as Hd.
  simpl in *. by destruct (write_lines _ _) as [[[]|e] w'].
Qed.

Lemma write_chunks_did chunks : forall w,
  complete_lines (rw_pending w) = ([], rw_pending w) ->
  did (write_chunks chunks w) (rw_policy w)
    (write_many (map (sanitize_line (rw_policy w)) (complete_lines (rw_pending w ++ concat chunks)).1) (rw_inner w))
    (complete_lines (rw_pending w ++ concat chunks)).2.
Proof.
  induction chunks as [|c chunks IH]; intros w Hw; simpl; [by rewrite app_nil_r, Hw|].
  pose proof (rw_write_did c w) as Hd. rewrite app_assoc, complete_lines_app. simpl. rewrite map_app, write_many_app.
  destruct (rw_write c w) as [[n|e] w'], Hd as (H1 & H2 & H3 & H4); simpl in *;
    destruct (write_many _ (rw_inner w)) as [r inner]; simpl in *; subst r; [|done].
  specialize (IH w'). rewrite H3, H4, H2 in IH by done. apply IH, complete_lines_tail.
Qed.

(** The lines of a stream that ends: the last one may lack its line feed. *)
Definition all_lines (l : bytes) : list bytes :=
  let '(lines, tail) := complete_lines l in lines ++ match tail with [] => [] | _ => [tail] end.

(** Writes, then the flush, of the wrapped writer. *)
Definition write_and_flush (l : list bytes) (w : W) : Result W E :=
  match write_many l w with
  | (Ok _, w) => match inner_flush w with (Ok _, w) => Ok w | (Err e, _) => Err e end
  | (Err e, _) => Err e
  end.

Lemma into_inner_writes w :
  into_inner w = write_and_flush (map (sanitize_line (rw_policy w)) match rw_pending w with [] => [] | l => [l] end) (rw_inner w).
Proof.
  unfold into_inner, rw_flush, write_and_flush. destruct (rw_pending w) as [|b l] eqn:Ep; simpl.
  - by destruct (inner_flush _) as [[[]|e] i].
  - destruct (write_all _ _) as [[[]|e] i]; simpl; [|done]. by destruct (inner_flush _) as [[[]|e] i'].
Qed.

Lemma write_and_flush_app l k w :
  write_and_flush (l ++ k) w = match write_many l w with (Ok _, w) => write_and_flush k w | (Err e, _) => Err e end.
Proof. unfold write_and_flush. rewrite write_many_app. by destruct (write_many l w) as [[]]. Qed.

Lemma writer_is_lines inner p chunks :
  match write_chunks chunks (rw_new inner p) with (Ok _, w) => into_inner w | (Err e, _) => Err e end
  = write_and_flush (map (sanitize_line p) (all_lines (concat chunks))) inner.
Proof.
  pose proof (write_chunks_did chunks (rw_new inner p) eq_refl) as (H1 & H2 & H3 & H4). simpl in *.
  unfold all_lines. destruct (complete_lines (concat chunks)) as [lines tail]. simpl in *.
  rewrite map_app, write_and_flush_app. destruct (write_chunks _ _) as [[[]|e] w], (write_many _ _) as [r i]; simpl in *; subst; [|done].
  rewrite into_inner_writes, H4 by done. by destruct tail.
Qed.
End writer.

(** [C38] However its input is cut into writes, a redacting writer that is written to and
    unwrapped gives the wrapped writer the sanitised lines of the whole input, in order,
    up to the first write that fails, and then flushes it; what it writes is UTF-8 even
    when the input is not, and a line that is UTF-8 is sanitised as it is. *)
Theorem writer_sanitizes_lines {W E : Type} `{InnerWriter W E} (inner : W) p chunks :
  is_str (rp_placeholder p) ->
  match write_chunks chunks (rw_new inner p) with (Ok _, w) => into_inner w | (Err e, _) => Err e end
  = write_and_flush (map (sanitize_line p) (all_lines (concat chunks))) inner
  /\ (forall line, Forall (fun b => b < 256) line ->
        utf8_valid (sanitize_line p line) = true
        /\ (utf8_valid line = true -> sanitize_line p line = bytes_of (sanitize_text p (of_bytes line)))).
Proof.
  intros Hp. split; [apply writer_is_lines|]. intros line Hl. split.
  - apply sanitize_text_str; [|done]. unfold is_str. rewrite bytes_of_of; [by apply lossy_valid|].
    apply lossy_Forall; [by repeat constructor|done..].
  - intros Hv. unfold sanitize_line. by rewrite from_utf8_lossy_id.
Qed.

(** A writer into memory. *)
#[local] Instance memory_writer : InnerWriter bytes unit :=
  {| write_all x w := (Ok (), w ++ x); inner_flush w := (Ok (), w) |}.

(** A token cut by two writes. *)
Lemma writer_sanitizes_lines_witness :
  match write_chunks [bytes_of "token=ab"; bytes_of "cdef" ++ [LF]; bytes_of "x"] (rw_new [] strict) with
  | (Ok _, w) => into_inner w
  | (Err e, _) => Err e
  end = Ok (bytes_of "token=[REDACTED]" ++ [LF] ++ bytes_of "x").
Proof.
  rewrite (proj1 (writer_sanitizes_lines (E := unit) [] strict [bytes_of "token=ab"; bytes_of "cdef" ++ [LF]; bytes_of "x"]
    ltac:(vm_compute; reflexivity))).
  vm_compute. reflexivity.
Defined.

(** * What the scan of log lines misses *)

(** A text with double quotes written as single ones. *)
Definition dq (s : string) : string := replace_byte SQUOTE DQUOTE s.

(** A quoted key is not followed by a separator, so the fields of a JSON log line pass. *)
Example json_log_field_kept :
  sanitize_text strict (dq "{'level':'INFO','fields':{'password':'hunter2'}}")
  = dq "{'level':'INFO','fields':{'password':'hunter2'}}".
Proof. vm_compute. reflexivity. Qed.

(** A line over the limit loses its line feed. *)
Example truncated_line_unterminated :
  let p := MkPolicy ∅ ∅ false REDACTED 3 64 in
  sanitize_line p (bytes_of "abcdef" ++ [LF]) = bytes_of ("abc" +:+ TRUNCATED).
Proof. vm_compute. reflexivity. Qed.

(** Keys that differ only in case are treated differently. *)
Example sensitive_key_case :
  is_sensitive_key strict "password" = true /\ is_sensitive_key strict "passWord" = false
  /\ is_sensitive_key (redact_key "tenantId" strict) "tenantid" = false.
Proof. vm_compute. done. Qed.
