(* ===== verification/Metrics.v ===== *)
(** The in-process metrics registry (crates/pooler-observe/src/lib.rs): bounded series of
    counters, latency histograms, and the guard that follows one request. *)
From S2P Require Import Prelude Str Bytes Redact RedactText.

Open Scope N_scope.

(** * Labels *)

Definition DEFAULT_MAX_METRIC_SERIES : N := 1024.
Definition MAX_LABEL_LENGTH : N := 96.
Definition LATENCY_BUCKETS_MS : list N :=
  [1; 5; 10; 25; 50; 100; 250; 500; 1000; 2500; 5000; 10000; 30000; 60000].

(** [value.chars().filter(p).collect()]. *)
Definition filter_chars (p : N -> bool) (s : string) : string :=
  of_bytes (concat (List.filter (fun cs => p cs.1) (char_spans (bytes_of s))).*2).

Definition bounded_text (value : string) : string :=
  let result := filter_chars (fun c => negb (char_is_control c)) value in
  if MAX_LABEL_LENGTH <? N.of_nat (length (chars result)) then take_chars MAX_LABEL_LENGTH result else result.
Definition bounded_label (value : string) : string :=
  let value := bounded_text value in
  if str_is_empty value then "unknown" else value.

(** * Records *)

Inductive AttemptResult := ArSuccess | ArError | ArRetry | ArCancelled | ArQuota | ArCooldown | ArUnknown.
Definition attempt_result_str (r : AttemptResult) : string :=
  match r with
  | ArSuccess => "success"
  | ArError => "error"
  | ArRetry => "retry"
  | ArCancelled => "cancelled"
  | ArQuota => "quota"
  | ArCooldown => "cooldown"
  | ArUnknown => "unknown"
  end.

Inductive CompletionClass :=
| CcSuccess | CcDownstreamError | CcInvalidRequest | CcUnsupported | CcUpstreamError | CcIncompleteStream | CcCancelled
| CcInternalError | CcUnknown.
Definition completion_class_str (c : CompletionClass) : string :=
  match c with
  | CcSuccess => "success"
  | CcDownstreamError => "downstream_error"
  | CcInvalidRequest => "invalid_request"
  | CcUnsupported => "unsupported"
  | CcUpstreamError => "upstream_error"
  | CcIncompleteStream => "incomplete_stream"
  | CcCancelled => "cancelled"
  | CcInternalError => "internal_error"
  | CcUnknown => "unknown"
  end.

Record AttemptRecord := MkAttemptRecord {
  ar_route : string; ar_provider : string; ar_result : AttemptResult; ar_duration_ms : N }.
Record RoutingTelemetryRecord := MkRoutingTelemetryRecord {
  rt_route : string; rt_provider : string; rt_binding : string; rt_observed_at_ms : N; rt_sample_count : N;
  rt_rolling_window_ms : N; rt_stale_after_ms : N; rt_latency_ms : option N; rt_ttft_ms : option N;
  rt_throughput_per_second : option N }.
Record RetryRecord := MkRetryRecord {
  rr_route : string; rr_provider : string; rr_reason : string; rr_fallback : bool }.
Record CooldownRecord := MkCooldownRecord {
  cr_route : option string; cr_provider : option string; cr_scope : string; cr_outcome : string }.
Record QuotaRecord := MkQuotaRecord { qr_route : option string; qr_provider : string; qr_outcome : string }.
Record OAuthRefreshRecord := MkOAuthRefreshRecord { or_provider : string; or_outcome : string }.
Record Usage := MkUsage {
  us_input_tokens : option N; us_output_tokens : option N; us_reasoning_tokens : option N; us_cache_tokens : option N;
  us_image_units : option N; us_audio_units : option N; us_video_units : option N; us_service_tier : option string;
  us_total_tokens : option N; us_cost_in_usd_ticks : option N }.

(** The keys of the tables, field by field. *)
Definition StateKey : Type := string * option string * option string * option string * string.
Definition AttemptKey : Type := string * string * string.
Definition LatencyKey : Type := string * string.
Definition RetryKey : Type := string * string * string * bool.
Definition CompletionKey : Type := string * string.
Definition UsageKey : Type := string * option string * option string.
Definition DecisionKey : Type := string * option string * string.
Definition RoutingKey : Type := string * string * string.

Record RouteState := MkRouteState { rs_requests : N; rs_active : N; rs_completed : N }.
Definition route_state_default : RouteState := MkRouteState 0 0 0.

Record UsageMetric := MkUsageMetric {
  um_requests : N; um_input_tokens : N; um_output_tokens : N; um_total_tokens : N; um_cost_in_usd_ticks : N }.
Definition usage_metric_default : UsageMetric := MkUsageMetric 0 0 0 0 0.

(** * Histograms *)

Record Histogram := MkHistogram { h_count : N; h_sum_ms : N; h_max_ms : N; h_buckets : list N }.
Definition histogram_default : Histogram := MkHistogram 0 0 0 (replicate (length LATENCY_BUCKETS_MS + 1) 0).

Definition add64 (a b : N) : N := sat_add U64_MAX a b.
(** [buckets.iter_mut().skip(index)], each incremented. *)
Definition bump_from (index : nat) (buckets : list N) : list N :=
  take index buckets ++ map (fun bucket => add64 bucket 1) (drop index buckets).
Definition histogram_record (value_ms : N) (h : Histogram) : Histogram :=
  let index := default (length LATENCY_BUCKETS_MS) (position (fun bound => value_ms <=? bound) LATENCY_BUCKETS_MS) in
  MkHistogram (add64 (h_count h) 1) (add64 (h_sum_ms h) value_ms) (N.max (h_max_ms h) value_ms)
    (bump_from index (h_buckets h)).

(** * The registry *)

Record MetricsState := MkMetricsState {
  ms_routes : gmap string RouteState;
  ms_attempts : gmap AttemptKey N;
  ms_latencies : gmap LatencyKey Histogram;
  ms_completions : gmap CompletionKey N;
  ms_retries : gmap RetryKey N;
  ms_states : gmap StateKey N;
  ms_usage : gmap UsageKey UsageMetric;
  ms_decisions : gmap DecisionKey N;
  ms_routing_telemetry : gmap RoutingKey RoutingTelemetryRecord;
  ms_series : N;
  ms_dropped_series : N;
}.
Definition metrics_default : MetricsState := MkMetricsState ∅ ∅ ∅ ∅ ∅ ∅ ∅ ∅ ∅ 0 0.

Definition set_routes (f : gmap string RouteState -> gmap string RouteState) (s : MetricsState) : MetricsState :=
  MkMetricsState (f (ms_routes s)) (ms_attempts s) (ms_latencies s) (ms_completions s)
  (ms_retries s) (ms_states s) (ms_usage s) (ms_decisions s) (ms_routing_telemetry s) (ms_series s) (ms_dropped_series s).
Definition set_attempts (f : gmap AttemptKey N -> gmap AttemptKey N) (s : MetricsState) : MetricsState :=
  MkMetricsState (ms_routes s) (f (ms_attempts s)) (ms_latencies s) (ms_completions s)
  (ms_retries s) (ms_states s) (ms_usage s) (ms_decisions s) (ms_routing_telemetry s) (ms_series s) (ms_dropped_series s).
Definition set_latencies (f : gmap LatencyKey Histogram -> gmap LatencyKey Histogram) (s : MetricsState) : MetricsState :=
  MkMetricsState (ms_routes s) (ms_attempts s) (f (ms_latencies s)) (ms_completions s)
  (ms_retries s) (ms_states s) (ms_usage s) (ms_decisions s) (ms_routing_telemetry s) (ms_series s) (ms_dropped_series s).
Definition set_completions (f : gmap CompletionKey N -> gmap CompletionKey N) (s : MetricsState) : MetricsState :=
  MkMetricsState (ms_routes s) (ms_attempts s) (ms_latencies s) (f (ms_completions s))
  (ms_retries s) (ms_states s) (ms_usage s) (ms_decisions s) (ms_routing_telemetry s) (ms_series s) (ms_dropped_series s).
Definition set_retries (f : gmap RetryKey N -> gmap RetryKey N) (s : MetricsState) : MetricsState :=
  MkMetricsState (ms_routes s) (ms_attempts s) (ms_latencies s) (ms_completions s)
  (f (ms_retries s)) (ms_states s) (ms_usage s) (ms_decisions s) (ms_routing_telemetry s) (ms_series s) (ms_dropped_series s).
Definition set_states (f : gmap StateKey N -> gmap StateKey N) (s : MetricsState) : MetricsState :=
  MkMetricsState (ms_routes s) (ms_attempts s) (ms_latencies s) (ms_completions s)
  (ms_retries s) (f (ms_states s)) (ms_usage s) (ms_decisions s) (ms_routing_telemetry s) (ms_series s) (ms_dropped_series s).
Definition set_usage (f : gmap UsageKey UsageMetric -> gmap UsageKey UsageMetric) (s : MetricsState) : MetricsState :=
  MkMetricsState (ms_routes s) (ms_attempts s) (ms_latencies s) (ms_completions s)
  (ms_retries s) (ms_states s) (f (ms_usage s)) (ms_decisions s) (ms_routing_telemetry s) (ms_series s) (ms_dropped_series s).
Definition set_decisions (f : gmap DecisionKey N -> gmap DecisionKey N) (s : MetricsState) : MetricsState :=
  MkMetricsState (ms_routes s) (ms_attempts s) (ms_latencies s) (ms_completions s)
  (ms_retries s) (ms_states s) (ms_usage s) (f (ms_decisions s)) (ms_routing_telemetry s) (ms_series s) (ms_dropped_series s).
Definition set_routing_telemetry (f : gmap RoutingKey RoutingTelemetryRecord -> gmap RoutingKey RoutingTelemetryRecord) (s : MetricsState) : MetricsState :=
  MkMetricsState (ms_routes s) (ms_attempts s) (ms_latencies s) (ms_completions s)
  (ms_retries s) (ms_states s) (ms_usage s) (ms_decisions s) (f (ms_routing_telemetry s)) (ms_series s) (ms_dropped_series s).
Definition set_series (series dropped : N) (s : MetricsState) : MetricsState :=
  MkMetricsState (ms_routes s) (ms_attempts s) (ms_latencies s)
  (ms_completions s) (ms_retries s) (ms_states s) (ms_usage s) (ms_decisions s) (ms_routing_telemetry s) series dropped.

Definition reserve_series (exists_ : bool) (max_series : N) (s : MetricsState) : bool * MetricsState :=
  if exists_ then (true, s)
  else if N.max max_series 1 <=? ms_series s then (false, set_series (ms_series s) (add64 (ms_dropped_series s) 1) s)
  else (true, set_series (sat_add USIZE_MAX (ms_series s) 1) (ms_dropped_series s) s).

(** [map.entry(key).or_default()] changed by [f]. *)
Definition entry_or {K V} `{Countable K} (d : V) (k : K) (f : V -> V) (m : gmap K V) : gmap K V :=
  <[k := f (default d (m !! k))]> m.
Definition incr (n : N) : N := add64 n 1.

(** [if reserve_series(..) { *map.entry(key).or_default() += 1 }] and its like. *)
Definition reserved (exists_ : bool) (max_series : N) (update : MetricsState -> MetricsState) (s : MetricsState) : MetricsState :=
  let '(ok, s) := reserve_series exists_ max_series s in if ok then update s else s.

Section registry.
Variable max_series : N.

Definition record_latency_locked (route kind : string) (value_ms : N) (s : MetricsState) : MetricsState :=
  let key := (route, kind) in
  reserved (is_some (ms_latencies s !! key)) max_series
    (set_latencies (entry_or histogram_default key (histogram_record value_ms))) s.

Definition add_usage (u : Usage) (m : UsageMetric) : UsageMetric :=
  MkUsageMetric (incr (um_requests m)) (add64 (um_input_tokens m) (default 0 (us_input_tokens u)))
    (add64 (um_output_tokens m) (default 0 (us_output_tokens u)))
    (add64 (um_total_tokens m) (default 0 (us_total_tokens u)))
    (add64 (um_cost_in_usd_ticks m) (default 0 (us_cost_in_usd_ticks u))).
Definition record_usage_locked (route : string) (provider model : option string) (usage : Usage) (s : MetricsState)
  : MetricsState :=
  let key := (route, provider, model) in
  reserved (is_some (ms_usage s !! key)) max_series
    (set_usage (entry_or usage_metric_default key (add_usage usage))) s.

Definition record_attempt (r : AttemptRecord) (s : MetricsState) : MetricsState :=
  let route := bounded_label (ar_route r) in
  let provider := bounded_label (ar_provider r) in
  let key := (route, provider, attempt_result_str (ar_result r)) in
  let s := reserved (is_some (ms_attempts s !! key)) max_series (set_attempts (entry_or 0 key incr)) s in
  record_latency_locked route "attempt" (ar_duration_ms r) s.

Definition bound_routing (r : RoutingTelemetryRecord) : RoutingTelemetryRecord :=
  MkRoutingTelemetryRecord (bounded_label (rt_route r)) (bounded_label (rt_provider r)) (bounded_label (rt_binding r))
    (rt_observed_at_ms r) (N.max (rt_sample_count r) 1) (rt_rolling_window_ms r) (rt_stale_after_ms r)
    (rt_latency_ms r) (rt_ttft_ms r) (rt_throughput_per_second r).
Definition record_routing_telemetry (r : RoutingTelemetryRecord) (s : MetricsState) : MetricsState :=
  let r := bound_routing r in
  let key := (rt_route r, rt_provider r, rt_binding r) in
  reserved (is_some (ms_routing_telemetry s !! key)) max_series (set_routing_telemetry (<[key := r]>)) s.

Definition record_retry (r : RetryRecord) (s : MetricsState) : MetricsState :=
  let key := (bounded_label (rr_route r), bounded_label (rr_provider r), bounded_label (rr_reason r), rr_fallback r) in
  reserved (is_some (ms_retries s !! key)) max_series (set_retries (entry_or 0 key incr)) s.

Definition record_state (key : StateKey) (s : MetricsState) : MetricsState :=
  reserved (is_some (ms_states s !! key)) max_series (set_states (entry_or 0 key incr)) s.
Definition record_cooldown (r : CooldownRecord) : MetricsState -> MetricsState :=
  record_state ("cooldown", bounded_label <$> cr_route r, bounded_label <$> cr_provider r,
                Some (bounded_label (cr_scope r)), bounded_label (cr_outcome r)).
Definition record_quota (r : QuotaRecord) : MetricsState -> MetricsState :=
  record_state ("quota", bounded_label <$> qr_route r, Some (bounded_label (qr_provider r)), None,
                bounded_label (qr_outcome r)).
Definition record_oauth_refresh (r : OAuthRefreshRecord) : MetricsState -> MetricsState :=
  record_state ("oauth_refresh", None, Some (bounded_label (or_provider r)), None, bounded_label (or_outcome r)).

(** Of the decision the registry reads the route, the selected provider and the outcome. *)
Definition record_decision (route selected_provider outcome : option string) (s : MetricsState) : MetricsState :=
  let key := (bounded_label (default "unknown" route), bounded_label <$> selected_provider,
              bounded_label (default "selected" outcome)) in
  reserved (is_some (ms_decisions s !! key)) max_series (set_decisions (entry_or 0 key incr)) s.

Definition record_model_usage (route : string) (provider model : option string) (usage : Usage) : MetricsState -> MetricsState :=
  record_usage_locked (bounded_label route) (bounded_label <$> provider) (bounded_label <$> model) usage.
Definition record_usage (route : string) (provider : option string) (usage : Usage) : MetricsState -> MetricsState :=
  record_model_usage route provider None usage.

(** * The guard of one request *)

(** [started] is the instant in milliseconds. *)
Record RequestObservation := MkObservation {
  ob_route : string;
  ob_started : N;
  ob_headers_ms : option N;
  ob_first_event_ms : option N;
  ob_tracked : bool;
  ob_completed : bool;
}.

Definition begin_route (r : RouteState) : RouteState :=
  MkRouteState (incr (rs_requests r)) (incr (rs_active r)) (rs_completed r).
Definition begin_request (route : string) (now : N) (s : MetricsState) : RequestObservation * MetricsState :=
  let route := bounded_label route in
  let '(tracked, s) := reserve_series (is_some (ms_routes s !! route)) max_series s in
  let s := if tracked then set_routes (entry_or route_state_default route begin_route) s else s in
  (MkObservation route now None None tracked false, s).

Definition mark_headers (now : N) (o : RequestObservation) : RequestObservation :=
  if is_some (ob_headers_ms o) then o
  else MkObservation (ob_route o) (ob_started o) (Some (N.min U64_MAX (now - ob_started o))) (ob_first_event_ms o)
         (ob_tracked o) (ob_completed o).
Definition mark_first_event (now : N) (o : RequestObservation) : RequestObservation :=
  if is_some (ob_first_event_ms o) then o
  else MkObservation (ob_route o) (ob_started o) (ob_headers_ms o) (Some (N.min U64_MAX (now - ob_started o)))
         (ob_tracked o) (ob_completed o).

Definition finish_route (r : RouteState) : RouteState :=
  MkRouteState (rs_requests r) (rs_active r - 1) (incr (rs_completed r)).
Definition when_some {A} (o : option A) (f : A -> MetricsState -> MetricsState) (s : MetricsState) : MetricsState :=
  match o with Some a => f a s | None => s end.
Definition finish_request (o : RequestObservation) (end_to_end_ms : N) (class : CompletionClass) (usage : option Usage)
    (usage_provider usage_model : option string) (s : MetricsState) : MetricsState :=
  let route := ob_route o in
  let s := if ob_tracked o then set_routes (alter finish_route route) s else s in
  let key := (route, completion_class_str class) in
  let s := reserved (is_some (ms_completions s !! key)) max_series (set_completions (entry_or 0 key incr)) s in
  let s := record_latency_locked route "end_to_end" end_to_end_ms s in
  let s := when_some (ob_headers_ms o) (record_latency_locked route "headers") s in
  let s := when_some (ob_first_event_ms o) (record_latency_locked route "first_event") s in
  when_some usage (record_usage_locked route usage_provider usage_model) s.

Definition complete_for_target (class : CompletionClass) (usage : option Usage) (provider model : option string) (now : N)
    (o : RequestObservation) (s : MetricsState) : RequestObservation * MetricsState :=
  if ob_completed o then (o, s)
  else
    (MkObservation (ob_route o) (ob_started o) (ob_headers_ms o) (ob_first_event_ms o) (ob_tracked o) true,
     finish_request o (N.min U64_MAX (now - ob_started o)) class usage (bounded_label <$> provider) (bounded_label <$> model) s).
Definition complete (class : CompletionClass) (usage : option Usage) (now : N) (o : RequestObservation) (s : MetricsState)
  : RequestObservation * MetricsState := complete_for_target class usage None None now o s.
Definition drop_observation (now : N) (o : RequestObservation) (s : MetricsState) : MetricsState :=
  (complete CcCancelled None now o s).2.
End registry.

(** * The metrics registry in every history of its requests: the number of series is exact
      and bounded, the gauge of active requests counts the requests that are under way, and
      a histogram is the distribution of what was recorded in it. *)

(** * Labels *)

Lemma filter_submseteq {A} (p : A -> bool) l : List.filter p l ⊆+ l.
Proof. induction l as [|x l IH]; simpl; [done|]. case_match; [by constructor|by constructor]. Qed.

Lemma filter_chars_spec p s : is_str s -> is_str (filter_chars p s) /\ chars (filter_chars p s) = List.filter p (chars s).
Proof.
  intros Hs. unfold filter_chars, chars. destruct (sub_chars s _ Hs (filter_submseteq (fun cs => p cs.1) _)) as [H1 H2].
  split; [done|]. rewrite H2. clear. induction (char_spans (bytes_of s)) as [|cs L IH]; [done|]. simpl.
  destruct (p cs.1); [rewrite fmap_cons; by f_equal|done].
Qed.

Lemma bounded_text_spec s :
  is_str s -> is_str (bounded_text s)
  /\ chars (bounded_text s) = take (N.to_nat MAX_LABEL_LENGTH) (List.filter (fun c => negb (char_is_control c)) (chars s)).
Proof.
  intros Hs. destruct (filter_chars_spec (fun c => negb (char_is_control c)) s Hs) as [H1 H2].
  unfold bounded_text. destruct (N.ltb_spec MAX_LABEL_LENGTH (N.of_nat (length (chars (filter_chars (fun c => negb (char_is_control c)) s))))) as [Hl|Hl].
  - destruct (take_chars_spec MAX_LABEL_LENGTH _ H1) as [H3 H4]. split; [done|]. by rewrite H4, H2.
  - split; [done|]. rewrite H2 in *. rewrite take_ge; [done|lia].
Qed.

(** A label is a text of one to 96 characters, none of them a control character. *)
Lemma bounded_label_spec s :
  is_str s -> is_str (bounded_label s) /\ (0 < length (chars (bounded_label s)) <= 96)%nat
  /\ Forall (fun c => char_is_control c = false) (chars (bounded_label s)).
Proof.
  intros Hs. destruct (bounded_text_spec s Hs) as [H1 H2]. unfold bounded_label.
  destruct (str_is_empty (bounded_text s)) eqn:E; [vm_compute; split_and!; [done|lia..|repeat constructor]|].
  split; [done|]. split; [split|].
  - destruct (chars (bounded_text s)) eqn:Ec; [|simpl; lia]. exfalso. destruct (char_spans_spec _ H1) as [Hc _].
    unfold chars in Ec. apply fmap_nil_inv in Ec. rewrite Ec in Hc. by destruct (bounded_text s).
  - rewrite H2, length_take. change (N.to_nat MAX_LABEL_LENGTH) with 96%nat. lia.
  - rewrite H2. apply Forall_take, Forall_forall. intros c Hc%list_elem_of_In.
    apply filter_In in Hc as [_ Hc]. by apply negb_true_iff.
Qed.

(** * Histograms *)

Definition at_most (bound : N) (vs : list N) : N := N.of_nat (length (List.filter (fun v => v <=? bound) vs)).
Definition total_of (vs : list N) : N := foldr N.add 0 vs.
Definition sat64 (n : N) : N := N.min U64_MAX n.

(** The cumulative distribution of the values, each counter saturating. *)
Definition distribution (vs : list N) : Histogram :=
  MkHistogram (sat64 (N.of_nat (length vs))) (sat64 (total_of vs)) (foldr N.max 0 vs)
    (map (fun bound => sat64 (at_most bound vs)) LATENCY_BUCKETS_MS ++ [sat64 (N.of_nat (length vs))]).

Lemma add64_sat a b : add64 (sat64 a) b = sat64 (a + b).
Proof. unfold add64, sat64, sat_add. lia. Qed.

Lemma at_most_cons bound v vs : at_most bound (v :: vs) = (if v <=? bound then 1 else 0) + at_most bound vs.
Proof. unfold at_most. simpl. destruct (v <=? bound); simpl; lia. Qed.

Lemma bump_all g bounds v vs :
  Forall (fun b => v <= b) bounds ->
  map (fun n => add64 n 1) (map (fun bound => sat64 (at_most bound vs)) bounds ++ [sat64 g])
  = map (fun bound => sat64 (at_most bound (v :: vs))) bounds ++ [sat64 (g + 1)].
Proof.
  induction 1 as [|b bounds Hb _ IH]; cbn [map app]; [by rewrite add64_sat|]. rewrite IH, add64_sat, at_most_cons.
  destruct (N.leb_spec v b); [|lia]. by rewrite N.add_comm.
Qed.

Lemma bump_distribution g bounds v vs :
  StronglySorted N.lt bounds ->
  bump_from (default (length bounds) (position (fun bound => v <=? bound) bounds))
    (map (fun bound => sat64 (at_most bound vs)) bounds ++ [sat64 g])
  = map (fun bound => sat64 (at_most bound (v :: vs))) bounds ++ [sat64 (g + 1)].
Proof.
  unfold bump_from. induction 1 as [|b bounds Hs IH Hb]; [by simpl; rewrite add64_sat|].
  cbn [position]. destruct (N.leb_spec v b) as [Hv|Hv].
  - simpl default. rewrite take_0, drop_0, app_nil_l. apply (bump_all g (b :: bounds)). constructor; [done|].
    eapply Forall_impl; [exact Hb|]. intros x. lia.
  - assert (Hd : default (length (b :: bounds)) (S <$> position (fun bound => v <=? bound) bounds)
                 = S (default (length bounds) (position (fun bound => v <=? bound) bounds)))
      by (by destruct (position _ _)).
    cbn [fmap option_fmap option_map] in Hd.
    replace (match position (fun bound => v <=? bound) bounds with Some n => Some (S n) | None => None end)
      with (S <$> position (fun bound => v <=? bound) bounds) by (by destruct (position _ _)).
    setoid_rewrite Hd. cbn [map app take drop]. rewrite at_most_cons. destruct (N.leb_spec v b); [lia|].
    f_equal. exact IH.
Qed.

Lemma histogram_record_distribution v vs : histogram_record v (distribution vs) = distribution (v :: vs).
Proof.
  unfold histogram_record, distribution. cbn [h_count h_sum_ms h_max_ms h_buckets].
  rewrite bump_distribution by (repeat constructor). f_equal; rewrite ?add64_sat.
  - f_equal. simpl length. lia.
  - f_equal. simpl. lia.
  - simpl. lia.
  - do 2 f_equal. f_equal. simpl length. lia.
Qed.

Lemma histogram_default_distribution : histogram_default = distribution [].
Proof. reflexivity. Qed.

(** * Series *)

Definition total_series (s : MetricsState) : N :=
  N.of_nat (size (ms_routes s) + size (ms_attempts s) + size (ms_latencies s) + size (ms_completions s)
            + size (ms_retries s) + size (ms_states s) + size (ms_usage s) + size (ms_decisions s)
            + size (ms_routing_telemetry s)).

(** What was measured, the latest first, and the values measured under a key. *)
Abbreviation Measured := (list (LatencyKey * N)).
Definition values_of (k : LatencyKey) (log : Measured) : list N := (List.filter (fun e => beq e.1 k) log).*2.

Definition full (max_series : N) (s : MetricsState) : Prop := N.max max_series 1 <= ms_series s.

(** A histogram is the distribution of all the values measured under its key, and a key
    without one had none, unless the limit was reached. *)
Definition latency_exact (max_series : N) (s : MetricsState) (log : Measured) (k : LatencyKey) : Prop :=
  match ms_latencies s !! k with
  | Some h => h = distribution (values_of k log)
  | None => values_of k log = [] \/ full max_series s
  end.

Record registry_ok (max_series : N) (s : MetricsState) (log : Measured) : Prop := {
  ok_series : ms_series s = total_series s;
  ok_bounded : ms_series s <= N.max max_series 1;
  ok_histograms : forall k, latency_exact max_series s log k;
}.

Lemma size_entry_or {K V} `{Countable K} (d : V) (k : K) f (m : gmap K V) :
  size (entry_or d k f m) = (if is_some (m !! k) then size m else S (size m))%nat.
Proof. unfold entry_or. rewrite map_size_insert. by destruct (m !! k). Qed.

Lemma size_insert_is_some {K V} `{Countable K} (k : K) v (m : gmap K V) :
  size (<[k := v]> m) = (if is_some (m !! k) then size m else S (size m))%nat.
Proof. rewrite map_size_insert. by destruct (m !! k). Qed.

Section facts.
Variable max_series : N.
Hypothesis max_usize : max_series <= USIZE_MAX.
Abbreviation full := (full max_series).

(** The state after a reservation: the update on a state with one more series if it
    adds one, or a full table with one more series dropped. *)
Lemma reserved_cases (ex : bool) update s :
  (exists series dropped, series = (if ex then ms_series s else ms_series s + 1) /\
     (ex = false -> ms_series s < N.max max_series 1) /\
     reserved ex max_series update s = update (set_series series dropped s)) \/
  (ex = false /\ full s /\ exists dropped, reserved ex max_series update s = set_series (ms_series s) dropped s).
Proof.
  unfold reserved, reserve_series, Metrics.full. destruct ex.
  - left. exists (ms_series s), (ms_dropped_series s). repeat split; [done|]. by destruct s.
  - destruct (N.leb_spec (N.max max_series 1) (ms_series s)) as [|Hlt]; [right; eauto|left].
    exists (ms_series s + 1), (ms_dropped_series s). repeat split; [done|].
    replace (sat_add USIZE_MAX (ms_series s) 1) with (ms_series s + 1); [done|].
    unfold sat_add, USIZE_MAX, U64_MAX in *. lia.
Qed.

(** A reservation counts the series its update adds, and nothing else. *)
Lemma reserved_ok (ex : bool) update s :
  (forall series dropped, let s' := update (set_series series dropped s) in
     ms_series s' = series /\ total_series s' = total_series s + (if ex then 0 else 1)
     /\ ms_latencies s' = ms_latencies s) ->
  (full s -> full (reserved ex max_series update s)) /\
  forall log, registry_ok max_series s log -> registry_ok max_series (reserved ex max_series update s) log.
Proof.
  intros Hu. destruct (reserved_cases ex update s) as [(series & dropped & E & Hlt & ->)|(-> & Hfull & dropped & ->)].
  - destruct (Hu series dropped) as (H1 & H2 & H3). unfold Metrics.full. split; [rewrite H1; destruct ex; lia|].
    intros log [Hs Hb Hh]. split; [destruct ex; lia|rewrite H1; destruct ex; [lia|specialize (Hlt eq_refl); lia]|].
    intros k. specialize (Hh k). unfold latency_exact, Metrics.full in *. rewrite H3, H1. destruct (ms_latencies s !! k); [done|].
    destruct Hh; [by left|right; destruct ex; lia].
  - split; [done|]. intros log [Hs Hb Hh]. by split.
Qed.

(** ** Operations that leave the routes alone *)

(** An operation that makes some measurements and leaves the routes alone. *)
Definition quiet (f : MetricsState -> MetricsState) (ms : Measured) : Prop :=
  forall s, ms_routes (f s) = ms_routes s /\ (full s -> full (f s)) /\
    forall log, registry_ok max_series s log -> registry_ok max_series (f s) (ms ++ log).

Lemma quiet_comp f g ms ms' : quiet f ms -> quiet g ms' -> quiet (fun s => g (f s)) (ms' ++ ms).
Proof.
  intros Hf Hg s. destruct (Hf s) as (H1 & H2 & H3), (Hg (f s)) as (H4 & H5 & H6). split_and!; [congruence|auto|].
  intros log Hs. rewrite <-app_assoc. auto.
Qed.

Lemma quiet_when {A} (o : option A) f ms :
  (forall a, quiet (f a) (ms a)) -> quiet (when_some o f) (from_option ms [] o).
Proof. intros Hf. destruct o; [apply Hf|]. by intros s. Qed.

Ltac total := unfold total_series; simpl; rewrite ?size_entry_or, ?size_insert_is_some; destruct (is_some _); lia.
Ltac quiet :=
  intros s; split;
  [ unfold reserved, reserve_series; repeat case_match; simplify_eq; done
  | apply reserved_ok; intros series dropped; simpl; split_and!; [done|total|done] ].

Lemma values_cons k k' v log : values_of k ((k', v) :: log) = if beq k' k then v :: values_of k log else values_of k log.
Proof. unfold values_of. simpl. by destruct (beq k' k). Qed.

Lemma latency_recorded s k' v log series dropped k :
  ms_series s <= series -> (forall k, latency_exact max_series s log k) ->
  (ms_latencies s !! k' = None -> ms_series s < N.max max_series 1) ->
  latency_exact max_series
    (set_latencies (entry_or histogram_default k' (histogram_record v)) (set_series series dropped s)) ((k', v) :: log) k.
Proof.
  intros Hle Hall Hlt. pose proof (Hall k) as Hk. pose proof (Hall k') as Hk'. unfold latency_exact, Metrics.full in *. simpl.
  rewrite values_cons. unfold entry_or. case_bool_decide as E.
  - subst k'. rewrite lookup_insert_eq. destruct (ms_latencies s !! k) as [h|]; simpl.
    + rewrite Hk'. apply histogram_record_distribution.
    + destruct Hk' as [->|Hf]; [apply (histogram_record_distribution v [])|]. specialize (Hlt eq_refl). lia.
  - rewrite lookup_insert_ne by done. destruct (ms_latencies s !! k); [done|]. destruct Hk; [by left|right; lia].
Qed.

Lemma quiet_latency route kind v : quiet (record_latency_locked max_series route kind v) [((route, kind), v)].
Proof.
  intros s. unfold record_latency_locked. set (update := set_latencies _).
  remember (is_some (ms_latencies s !! (route, kind))) as ex eqn:Hex.
  split; [unfold reserved, reserve_series; repeat case_match; simplify_eq; done|].
  destruct (reserved_cases ex update s) as [(series & dropped & E & Hlt & ->)|(Ex & Hfull & dropped & ->)].
  - unfold Metrics.full. split; [simpl; destruct ex; lia|]. intros log [Hs Hb Hh].
    split; simpl; [|destruct ex; [lia|specialize (Hlt eq_refl); lia]|].
    + unfold total_series in *. simpl. rewrite size_entry_or.
      match goal with |- context [is_some ?x] => replace (is_some x) with ex by done end. destruct ex; lia.
    + intros k. apply latency_recorded; [destruct ex; lia|done|]. intros Hn.
      apply Hlt. rewrite Hex. transitivity (is_some (@None Histogram)); [f_equal; exact Hn|done].
  - split; [done|]. intros log [Hs Hb Hh]. split; [done..|]. intros k. specialize (Hh k).
    unfold latency_exact, Metrics.full in *. simpl. rewrite values_cons.
    case_bool_decide as E; [|done]. subst k. subst ex. destruct (ms_latencies s !! _); [done|]. by right.
Qed.

Lemma quiet_usage route p m u : quiet (record_usage_locked max_series route p m u) [].
Proof. unfold record_usage_locked. quiet. Qed.
Lemma quiet_retry r : quiet (record_retry max_series r) [].
Proof. unfold record_retry. quiet. Qed.
Lemma quiet_state k : quiet (record_state max_series k) [].
Proof. unfold record_state. quiet. Qed.
Lemma quiet_decision r p o : quiet (record_decision max_series r p o) [].
Proof. unfold record_decision. quiet. Qed.
Lemma quiet_routing r : quiet (record_routing_telemetry max_series r) [].
Proof. unfold record_routing_telemetry. quiet. Qed.
Lemma quiet_completion k :
  quiet (fun s => reserved (is_some (ms_completions s !! k)) max_series (set_completions (entry_or 0 k incr)) s) [].
Proof. quiet. Qed.
Lemma quiet_attempts k :
  quiet (fun s => reserved (is_some (ms_attempts s !! k)) max_series (set_attempts (entry_or 0 k incr)) s) [].
Proof. quiet. Qed.
Lemma quiet_attempt r : quiet (record_attempt max_series r) [((bounded_label (ar_route r), "attempt"), ar_duration_ms r)].
Proof. exact (quiet_comp _ _ [] [_] (quiet_attempts _) (quiet_latency _ _ _)). Qed.

(** What completing a guard measures. *)
Definition completion_measures (o : RequestObservation) (end_to_end_ms : N) : Measured :=
  from_option (fun v => [((ob_route o, "first_event"), v)]) [] (ob_first_event_ms o)
  ++ from_option (fun v => [((ob_route o, "headers"), v)]) [] (ob_headers_ms o)
  ++ [((ob_route o, "end_to_end"), end_to_end_ms)].

Lemma finish_request_spec o e class u p m s :
  ms_routes (finish_request max_series o e class u p m s)
    = (if ob_tracked o then alter finish_route (ob_route o) (ms_routes s) else ms_routes s)
  /\ (full s -> full (finish_request max_series o e class u p m s))
  /\ forall log, registry_ok max_series s log ->
       registry_ok max_series (finish_request max_series o e class u p m s) (completion_measures o e ++ log).
Proof.
  pose proof (quiet_comp _ _ _ _ (quiet_comp _ _ _ _ (quiet_comp _ _ _ _ (quiet_comp _ _ _ _
      (quiet_completion (ob_route o, completion_class_str class)) (quiet_latency (ob_route o) "end_to_end" e))
      (quiet_when (ob_headers_ms o) _ _ (quiet_latency (ob_route o) "headers")))
      (quiet_when (ob_first_event_ms o) _ _ (quiet_latency (ob_route o) "first_event")))
      (quiet_when u _ (fun _ => []) (quiet_usage (ob_route o) p m))) as Hq.
  destruct (Hq (if ob_tracked o then set_routes (alter finish_route (ob_route o)) s else s)) as (H1 & H2 & H3).
  split; [etrans; [exact H1|by destruct (ob_tracked o)]|]. split.
  - intros Hf. apply H2. by destruct (ob_tracked o).
  - intros log Hs. replace (completion_measures o e ++ log) with
      ((from_option (fun _ => []) [] u ++ from_option (fun v => [((ob_route o, "first_event"), v)]) [] (ob_first_event_ms o)
       ++ from_option (fun v => [((ob_route o, "headers"), v)]) [] (ob_headers_ms o) ++ [((ob_route o, "end_to_end"), e)] ++ []) ++ log)
      by (unfold completion_measures; destruct u, (ob_first_event_ms o), (ob_headers_ms o); reflexivity).
    apply H3. destruct (ob_tracked o); [|done]. destruct Hs as [Hs Hb Hh]. split; [|done..].
    unfold total_series in *. simpl. rewrite size_alter. done.
Qed.

Lemma begin_request_spec route now s :
  let '(o, s') := begin_request max_series route now s in
  o = MkObservation (bounded_label route) now None None (ob_tracked o) false
  /\ ms_routes s' = (if ob_tracked o then entry_or route_state_default (ob_route o) begin_route (ms_routes s) else ms_routes s)
  /\ (ob_tracked o = false -> ms_routes s !! ob_route o = None /\ full s)
  /\ (ob_tracked o = true -> ms_routes s !! ob_route o = None -> ~ full s)
  /\ (full s -> full s')
  /\ (forall log, registry_ok max_series s log -> registry_ok max_series s' log).
Proof.
  unfold begin_request. set (update := set_routes (entry_or route_state_default (bounded_label route) begin_route)).
  set (ex := is_some (ms_routes s !! bounded_label route)).
  assert (Hok : (full s -> full (reserved ex max_series update s)) /\ forall log, registry_ok max_series s log ->
            registry_ok max_series (reserved ex max_series update s) log).
  { apply reserved_ok. intros series dropped. split_and!; [done|unfold ex; simpl; total|done]. }
  unfold reserved in Hok. destruct (reserve_series ex max_series s) as [ok s'] eqn:E. destruct Hok as [Hf Hok].
  assert (Hr : ms_routes s' = ms_routes s /\ (ok = false -> ms_routes s !! bounded_label route = None /\ full s)
               /\ (ok = true -> ms_routes s !! bounded_label route = None -> ~ full s)).
  { unfold reserve_series, Metrics.full in *. subst ex. destruct (ms_routes s !! bounded_label route); simpl in E; [by simplify_eq|].
    destruct (N.leb_spec (N.max max_series 1) (ms_series s)); injection E as <- <-; split_and!; try done. lia. }
  destruct Hr as (Hr1 & Hr2 & Hr3). simpl. split_and!; [done| |done|done|by destruct ok|by destruct ok].
  destruct ok; simpl; by rewrite Hr1.
Qed.

(** * Histories *)

(** The calls that record an event outside a request's guard, with what they measure. *)
Inductive recorder : (MetricsState -> MetricsState) -> Measured -> Prop :=
| rec_attempt r : recorder (record_attempt max_series r) [((bounded_label (ar_route r), "attempt"), ar_duration_ms r)]
| rec_routing r : recorder (record_routing_telemetry max_series r) []
| rec_retry r : recorder (record_retry max_series r) []
| rec_cooldown r : recorder (record_cooldown max_series r) []
| rec_quota r : recorder (record_quota max_series r) []
| rec_oauth r : recorder (record_oauth_refresh max_series r) []
| rec_decision r p o : recorder (record_decision max_series r p o) []
| rec_usage r p m u : recorder (record_model_usage max_series r p m u) [].

Lemma recorder_quiet f ms : recorder f ms -> quiet f ms.
Proof.
  destruct 1; auto using quiet_attempt, quiet_routing, quiet_retry, quiet_decision; try apply quiet_state.
  apply quiet_usage.
Qed.
End facts.

(** ** What happened *)

(** A request as an observer sees it, apart from the registry: its route, when it was
    begun, when headers and the first event were first reported, whether it is done. *)
Record Timeline := MkTimeline {
  tl_route : string; tl_begun : N; tl_headers : option N; tl_first_event : option N; tl_done : bool }.

(** The requests that have a guard, the route of every request begun, and everything
    that was measured. *)
Record History := MkHistory { hi_requests : gmap N Timeline; hi_begun : list string; hi_measured : Measured }.

Definition elapsed (since now : N) : N := N.min U64_MAX (now - since).
Definition saw_headers (now : N) (t : Timeline) : Timeline :=
  MkTimeline (tl_route t) (tl_begun t) (or_else (tl_headers t) (Some now)) (tl_first_event t) (tl_done t).
Definition saw_first_event (now : N) (t : Timeline) : Timeline :=
  MkTimeline (tl_route t) (tl_begun t) (tl_headers t) (or_else (tl_first_event t) (Some now)) (tl_done t).
Definition finished (t : Timeline) : Timeline :=
  MkTimeline (tl_route t) (tl_begun t) (tl_headers t) (tl_first_event t) true.

(** What the end of a request measures: how long it took, and when headers and the
    first event came, if they did; a request ends once. *)
Definition end_measures (now : N) (t : Timeline) : Measured :=
  let since x := elapsed (tl_begun t) x in
  if tl_done t then []
  else from_option (fun x => [((tl_route t, "first_event"), since x)]) [] (tl_first_event t)
       ++ from_option (fun x => [((tl_route t, "headers"), since x)]) [] (tl_headers t)
       ++ [((tl_route t, "end_to_end"), since now)].

Definition note_begin (id : N) (route : string) (now : N) (h : History) : History :=
  MkHistory (<[id := MkTimeline (bounded_label route) now None None false]> (hi_requests h))
    (bounded_label route :: hi_begun h) (hi_measured h).
Definition note_at (f : Timeline -> Timeline) (id : N) (h : History) : History :=
  MkHistory (alter f id (hi_requests h)) (hi_begun h) (hi_measured h).
Definition note_measures (ms : Measured) (h : History) : History :=
  MkHistory (hi_requests h) (hi_begun h) (ms ++ hi_measured h).
Definition note_end (id now : N) (h : History) : History :=
  note_measures (from_option (end_measures now) [] (hi_requests h !! id)) (note_at finished id h).
Definition note_drop (id now : N) (h : History) : History :=
  let h := note_end id now h in MkHistory (delete id (hi_requests h)) (hi_begun h) (hi_measured h).

(** A registry with the guards of the requests, and what happened. *)
Record Sys := MkSys { sy_state : MetricsState; sy_live : gmap N RequestObservation; sy_history : History }.

Inductive metrics_step (max_series : N) : Sys -> Sys -> Prop :=
| step_begin sys id route now o s' :
  sy_live sys !! id = None -> begin_request max_series route now (sy_state sys) = (o, s') ->
  metrics_step max_series sys (MkSys s' (<[id := o]> (sy_live sys)) (note_begin id route now (sy_history sys)))
| step_mark_headers sys id now o :
  sy_live sys !! id = Some o ->
  metrics_step max_series sys
    (MkSys (sy_state sys) (<[id := mark_headers now o]> (sy_live sys)) (note_at (saw_headers now) id (sy_history sys)))
| step_mark_first_event sys id now o :
  sy_live sys !! id = Some o ->
  metrics_step max_series sys
    (MkSys (sy_state sys) (<[id := mark_first_event now o]> (sy_live sys))
       (note_at (saw_first_event now) id (sy_history sys)))
| step_complete sys id class usage provider model now o o' s' :
  sy_live sys !! id = Some o ->
  complete_for_target max_series class usage provider model now o (sy_state sys) = (o', s') ->
  metrics_step max_series sys (MkSys s' (<[id := o']> (sy_live sys)) (note_end id now (sy_history sys)))
| step_drop sys id now o :
  sy_live sys !! id = Some o ->
  metrics_step max_series sys
    (MkSys (drop_observation max_series now o (sy_state sys)) (delete id (sy_live sys)) (note_drop id now (sy_history sys)))
| step_record sys f ms :
  recorder max_series f ms ->
  metrics_step max_series sys (MkSys (f (sy_state sys)) (sy_live sys) (note_measures ms (sy_history sys))).

Definition sys_new : Sys := MkSys metrics_default ∅ (MkHistory ∅ [] []).

(** ** The gauge of active requests *)

Definition open_on (r : string) (t : Timeline) : bool := negb (tl_done t) && String.eqb (tl_route t) r.
Definition under_way (r : string) (h : History) : N :=
  N.of_nat (size (filter (fun kv => open_on r kv.2 = true) (hi_requests h))).
Definition begun_on (r : string) (h : History) : N := N.of_nat (length (List.filter (String.eqb r) (hi_begun h))).
Definition b2N (b : bool) : N := if b then 1 else 0.

Lemma under_way_delete r id t h :
  hi_requests h !! id = Some t ->
  under_way r h = b2N (open_on r t) + under_way r (MkHistory (delete id (hi_requests h)) (hi_begun h) (hi_measured h)).
Proof.
  intros Hid. unfold under_way. simpl. rewrite <-(insert_delete_id (hi_requests h) id t Hid) at 1.
  destruct (open_on r t) eqn:E.
  - rewrite map_filter_insert_True by done. rewrite map_size_insert_None; [simpl; lia|].
    apply map_lookup_filter_None. left. by rewrite lookup_delete_eq.
  - rewrite map_filter_insert_not'; [simpl; lia|simpl; congruence|]. intros y. by rewrite lookup_delete_eq.
Qed.

Lemma under_way_begin r id route now h : hi_requests h !! id = None ->
  under_way r (note_begin id route now h) = b2N (String.eqb (bounded_label route) r) + under_way r h.
Proof.
  intros Hid. rewrite (under_way_delete r id (MkTimeline (bounded_label route) now None None false)) by apply lookup_insert_eq.
  unfold under_way. simpl. by rewrite delete_insert_id.
Qed.

Lemma under_way_update r id t f h : hi_requests h !! id = Some t ->
  under_way r (note_at f id h) + b2N (open_on r t) = b2N (open_on r (f t)) + under_way r h.
Proof.
  intros Hid. rewrite (under_way_delete r id (f t) (note_at f id h)) by (simpl; by rewrite lookup_alter_eq, Hid).
  rewrite (under_way_delete r id t h Hid). unfold under_way. simpl. rewrite delete_alter_eq. lia.
Qed.

(** ** The invariant *)

Section invariant.
Variable max_series : N.
Hypothesis max_usize : max_series <= USIZE_MAX.
Abbreviation full := (full max_series).

(** What the table says of a route.  If it has the route: how many requests were begun on
    it, how many of them are under way, and that the others are completed.  A route it
    lacks had no request, or the limit is reached. *)
Definition route_exact (s : MetricsState) (h : History) (r : string) : Prop :=
  match ms_routes s !! r with
  | Some st => rs_requests st = begun_on r h /\ rs_active st = under_way r h
               /\ rs_requests st = rs_active st + rs_completed st
  | None => begun_on r h = 0 \/ full s
  end.

(** A guard has what was seen of its request, and is tracked if the table has its route;
    if not, the limit is reached. *)
Record guard_ok (s : MetricsState) (o : RequestObservation) (t : Timeline) : Prop := {
  go_route : ob_route o = tl_route t;
  go_started : ob_started o = tl_begun t;
  go_headers : ob_headers_ms o = elapsed (tl_begun t) <$> tl_headers t;
  go_first_event : ob_first_event_ms o = elapsed (tl_begun t) <$> tl_first_event t;
  go_completed : ob_completed o = tl_done t;
  go_tracked : if ob_tracked o then is_Some (ms_routes s !! ob_route o) else ms_routes s !! ob_route o = None /\ full s;
}.

Record sys_ok (sys : Sys) : Prop := {
  so_registry : registry_ok max_series (sy_state sys) (hi_measured (sy_history sys));
  so_routes : forall r, route_exact (sy_state sys) (sy_history sys) r;
  so_begun : forall r, under_way r (sy_history sys) <= begun_on r (sy_history sys);
  so_guards : forall id, option_Forall2 (guard_ok (sy_state sys)) (sy_live sys !! id) (hi_requests (sy_history sys) !! id);
}.

Lemma begun_bound r h : begun_on r h <= N.of_nat (length (hi_begun h)).
Proof. unfold begun_on. pose proof (List.filter_length_le (String.eqb r) (hi_begun h)). lia. Qed.

Lemma begun_begin r id route now h :
  begun_on r (note_begin id route now h) = b2N (String.eqb (bounded_label route) r) + begun_on r h.
Proof. unfold begun_on. simpl. rewrite String.eqb_sym. destruct (String.eqb (bounded_label route) r); simpl; lia. Qed.

Lemma route_keep s s' h h' r : ms_routes s' !! r = ms_routes s !! r -> (full s -> full s') ->
  begun_on r h' = begun_on r h -> under_way r h' = under_way r h -> route_exact s h r -> route_exact s' h' r.
Proof. unfold route_exact. intros -> Hf -> ->. case_match; [done|]. intros [?|?]; auto. Qed.

Lemma guard_keep s s' o t : (forall r, is_Some (ms_routes s' !! r) <-> is_Some (ms_routes s !! r)) -> (full s -> full s') ->
  guard_ok s o t -> guard_ok s' o t.
Proof.
  intros Hk Hf [? ? ? ? ? Ht]. split; try done. specialize (Hk (ob_route o)). destruct (ob_tracked o); [by apply Hk|].
  destruct Ht as [Hn ?]. split; [|auto]. destruct (ms_routes s' !! ob_route o); [|done].
  rewrite Hn in Hk. destruct (proj1 Hk); eauto. done.
Qed.

Lemma guards_insert (s : MetricsState) (live : gmap N RequestObservation) (requests : gmap N Timeline) id o t :
  (forall id, option_Forall2 (guard_ok s) (live !! id) (requests !! id)) -> guard_ok s o t ->
  forall id', option_Forall2 (guard_ok s) (<[id := o]> live !! id') (<[id := t]> requests !! id').
Proof.
  intros Hg Ho id'. destruct (decide (id = id')) as [->|]; [rewrite !lookup_insert_eq; by constructor|].
  by rewrite !lookup_insert_ne.
Qed.

Lemma alter_insert_id {V} (f : V -> V) (m : gmap N V) id t : m !! id = Some t -> alter f id m = <[id := f t]> m.
Proof.
  intros Ht. apply map_eq. intros i. destruct (decide (id = i)) as [->|].
  - by rewrite lookup_alter_eq, lookup_insert_eq, Ht.
  - by rewrite lookup_alter_ne, lookup_insert_ne.
Qed.

Lemma guard_of sys id o : sys_ok sys -> sy_live sys !! id = Some o ->
  exists t, hi_requests (sy_history sys) !! id = Some t /\ guard_ok (sy_state sys) o t.
Proof.
  intros [_ _ _ Hg] Hid. specialize (Hg id). rewrite Hid in Hg. inversion Hg; subst. eauto.
Qed.

(** ** Progress *)

Lemma mark_ok sys id o o' f : sys_ok sys -> sy_live sys !! id = Some o ->
  (forall t, guard_ok (sy_state sys) o t -> guard_ok (sy_state sys) o' (f t)) ->
  (forall t r, open_on r (f t) = open_on r t) ->
  sys_ok (MkSys (sy_state sys) (<[id := o']> (sy_live sys)) (note_at f id (sy_history sys))).
Proof.
  intros Hok Hid Hf Ho. destruct (guard_of _ _ _ Hok Hid) as (t & Ht & Hg). destruct Hok as [Hr Hx Hb Hgs].
  assert (forall r, under_way r (note_at f id (sy_history sys)) = under_way r (sy_history sys)) as Hu.
  { intros r. pose proof (under_way_update r id t f _ Ht) as E. rewrite Ho in E. lia. }
  split; simpl; [done| | |].
  - intros r. by eapply route_keep; [| | | |apply Hx].
  - intros r. rewrite Hu. apply Hb.
  - rewrite (alter_insert_id _ _ _ t Ht). apply guards_insert; auto.
Qed.

Lemma mark_headers_ok s o t now : guard_ok s o t -> guard_ok s (mark_headers now o) (saw_headers now t).
Proof.
  intros [H1 H2 H3 H4 H5 H6]. unfold mark_headers. rewrite H3.
  destruct (tl_headers t) as [x|] eqn:E; simpl; split; simpl; try done; rewrite ?E; simpl; try done; by rewrite H2.
Qed.

Lemma mark_first_event_ok s o t now : guard_ok s o t -> guard_ok s (mark_first_event now o) (saw_first_event now t).
Proof.
  intros [H1 H2 H3 H4 H5 H6]. unfold mark_first_event. rewrite H4.
  destruct (tl_first_event t) as [x|] eqn:E; simpl; split; simpl; try done; rewrite ?E; simpl; try done; by rewrite H2.
Qed.

(** ** The begin of a request *)

Lemma begin_ok sys id route now o s' : sys_ok sys -> sy_live sys !! id = None ->
  begin_request max_series route now (sy_state sys) = (o, s') ->
  N.of_nat (length (hi_begun (sy_history sys))) + 1 <= U64_MAX ->
  sys_ok (MkSys s' (<[id := o]> (sy_live sys)) (note_begin id route now (sy_history sys))).
Proof.
  intros [Hr Hx Hb Hg] Hid Hs Hn. destruct sys as [s live h]. simpl in *.
  pose proof (begin_request_spec max_series max_usize route now s) as Hspec. rewrite Hs in Hspec.
  destruct Hspec as (Eo & Hroutes & Hun & Htr & Hf & Hok).
  assert (hi_requests h !! id = None) as Ht by (specialize (Hg id); rewrite Hid in Hg; by inversion Hg).
  assert (ob_route o = bounded_label route) as Er by (by rewrite Eo). rewrite Er in *.
  split; simpl; [by apply Hok| | |].
  - intros r. pose proof (Hx r) as Hxr. pose proof (Hb r) as Hbr. pose proof (begun_bound r h) as Hbb.
    unfold route_exact in *. rewrite begun_begin, (under_way_begin r id route now h Ht), Hroutes.
    destruct (String.eqb_spec (bounded_label route) r) as [<-|Hne]; simpl.
    + destruct (ob_tracked o); [|destruct (Hun eq_refl) as [-> ?]; auto].
      unfold entry_or. rewrite lookup_insert_eq. unfold begin_route, incr, add64, sat_add. simpl.
      destruct (ms_routes s !! bounded_label route) as [[q a c]|]; simpl in *; [lia|].
      destruct Hxr as [E|Hfull]; [unfold U64_MAX in *; lia|by destruct (Htr eq_refl eq_refl)].
    + replace ((if ob_tracked o then entry_or route_state_default (bounded_label route) begin_route (ms_routes s)
                else ms_routes s) !! r) with (ms_routes s !! r)
        by (destruct (ob_tracked o); unfold entry_or; rewrite ?lookup_insert_ne by done; done).
      destruct (ms_routes s !! r); [done|]. destruct Hxr; auto.
  - intros r. rewrite begun_begin, (under_way_begin r id route now h Ht). specialize (Hb r). lia.
  - apply guards_insert.
    + intros id'. specialize (Hg id'). destruct Hg as [o1 t1 Hg|]; constructor.
      destruct Hg as [? ? ? ? ? Ht1]. split; try done. rewrite Hroutes. unfold entry_or.
      destruct (ob_tracked o); [|destruct (ob_tracked o1); [done|split; [apply Ht1|apply Hf, Ht1]]].
      destruct (decide (bounded_label route = ob_route o1)) as [E|Hne].
      * rewrite E in *. rewrite lookup_insert_eq. destruct (ob_tracked o1); [eauto|]. destruct Ht1 as [Hnone Hfull].
        by destruct (Htr eq_refl Hnone).
      * rewrite lookup_insert_ne by done. destruct (ob_tracked o1); [done|]. split; [apply Ht1|apply Hf, Ht1].
    + split; rewrite Eo; simpl; try done. rewrite Hroutes. unfold entry_or.
      destruct (ob_tracked o); [rewrite lookup_insert_eq; eauto|]. destruct (Hun eq_refl). auto.
Qed.

(** ** The end of a request *)

Lemma completion_end_measures s o t now : guard_ok s o t -> ob_completed o = false ->
  completion_measures o (N.min U64_MAX (now - ob_started o)) = end_measures now t.
Proof.
  intros [H1 H2 H3 H4 H5 _] Hc. unfold completion_measures, end_measures. rewrite <-H5, Hc, H1, H2, H3, H4.
  by destruct (tl_headers t), (tl_first_event t).
Qed.

Lemma finish_route_exact s h r o t id :
  ob_route o = tl_route t -> tl_done t = false -> hi_requests h !! id = Some t ->
  (if ob_tracked o then is_Some (ms_routes s !! ob_route o) else ms_routes s !! ob_route o = None /\ full s) ->
  begun_on r h <= U64_MAX -> route_exact s h r ->
  match (if ob_tracked o then alter finish_route (ob_route o) (ms_routes s) else ms_routes s) !! r with
  | Some st => rs_requests st = begun_on r h /\ rs_active st = under_way r (note_at finished id h)
               /\ rs_requests st = rs_active st + rs_completed st
  | None => begun_on r h = 0 \/ full s
  end.
Proof.
  intros Er Hd Ht Htr Hn Hx. pose proof (under_way_update r id t finished h Ht) as Hu.
  unfold open_on in Hu. simpl in Hu. rewrite Hd in Hu. simpl in Hu. unfold route_exact in Hx.
  destruct (String.eqb_spec (tl_route t) r) as [<-|Hne]; simpl in Hu.
  - rewrite Er in *. destruct (ob_tracked o).
    + rewrite lookup_alter_eq. destruct Htr as [[q a c] E]. rewrite E in *. simpl in *.
      unfold incr, add64, sat_add. lia.
    + destruct Htr as [-> ?]. auto.
  - replace ((if ob_tracked o then alter finish_route (ob_route o) (ms_routes s) else ms_routes s) !! r)
      with (ms_routes s !! r) by (destruct (ob_tracked o); rewrite ?lookup_alter_ne by congruence; done).
    destruct (ms_routes s !! r); [|done]. destruct Hx as (? & ? & ?). split_and!; lia.
Qed.

Lemma complete_ok sys id class usage provider model now o o' s' : sys_ok sys -> sy_live sys !! id = Some o ->
  complete_for_target max_series class usage provider model now o (sy_state sys) = (o', s') ->
  N.of_nat (length (hi_begun (sy_history sys))) <= U64_MAX ->
  sys_ok (MkSys s' (<[id := o']> (sy_live sys)) (note_end id now (sy_history sys))).
Proof.
  intros Hok Hid Hc Hn. destruct (guard_of _ _ _ Hok Hid) as (t & Ht & Hg).
  unfold complete_for_target in Hc. destruct (ob_completed o) eqn:Ec.
  - injection Hc as <- <-. pose proof (go_completed _ _ _ Hg) as Hd. rewrite Ec in Hd.
    assert (note_end id now (sy_history sys) = note_at finished id (sy_history sys)) as ->.
    { unfold note_end, end_measures. rewrite Ht. simpl. rewrite <-Hd. by destruct (note_at _ _ _). }
    assert (finished t = t) as Ef by (destruct t; simpl in *; by subst).
    destruct Hok as [Hr Hx Hb Hgs].
    assert (note_at finished id (sy_history sys) = sy_history sys) as ->.
    { unfold note_at. rewrite (alter_insert_id _ _ _ t Ht), Ef, insert_id by done. by destruct (sy_history sys). }
    by split; simpl; rewrite ?insert_id.
  - injection Hc as <- <-. destruct sys as [s live h]. simpl in *. destruct Hok as [Hr Hx Hb Hgs]. simpl in *.
    destruct (finish_request_spec max_series max_usize o (N.min U64_MAX (now - ob_started o)) class usage
      (bounded_label <$> provider) (bounded_label <$> model) s) as (H1 & H2 & H3).
    rewrite (completion_end_measures _ _ _ _ Hg Ec) in H3. set (s' := finish_request _ _ _ _ _ _ _ _) in *.
    pose proof (go_completed _ _ _ Hg) as Hd. rewrite Ec in Hd.
    unfold note_end. rewrite Ht. simpl.
    split; simpl; [by apply H3| | |].
    + intros r. unfold route_exact. rewrite H1. pose proof (begun_bound r h).
      pose proof (finish_route_exact s h r o t id (go_route _ _ _ Hg) (eq_sym Hd) Ht (go_tracked _ _ _ Hg)
        ltac:(lia) (Hx r)) as He.
      change (begun_on r (note_measures (end_measures now t) (note_at finished id h))) with (begun_on r h).
      change (under_way r (note_measures (end_measures now t) (note_at finished id h)))
        with (under_way r (note_at finished id h)).
      destruct (_ !! r); [done|]. destruct He; auto.
    + intros r. change (under_way r (note_measures (end_measures now t) (note_at finished id h)))
        with (under_way r (note_at finished id h)).
      change (begun_on r (note_measures (end_measures now t) (note_at finished id h))) with (begun_on r h).
      pose proof (under_way_update r id t finished h Ht) as Hu. specialize (Hb r).
      change (open_on r (finished t)) with false in Hu. simpl in Hu. lia.
    + assert (forall r, is_Some (ms_routes s' !! r) <-> is_Some (ms_routes s !! r)) as Hk.
      { intros r. rewrite H1. destruct (ob_tracked o); [|done]. by rewrite lookup_alter_is_Some. }
      rewrite (alter_insert_id _ _ _ t Ht). apply guards_insert.
      * intros id'. destruct (Hgs id'); constructor. by eapply guard_keep.
      * eapply guard_keep; [exact Hk|exact H2|]. destruct Hg. by split.
Qed.

Lemma drop_ok sys id now o : sys_ok sys -> sy_live sys !! id = Some o ->
  N.of_nat (length (hi_begun (sy_history sys))) <= U64_MAX ->
  sys_ok (MkSys (drop_observation max_series now o (sy_state sys)) (delete id (sy_live sys)) (note_drop id now (sy_history sys))).
Proof.
  intros Hok Hid Hn. unfold drop_observation, complete.
  destruct (complete_for_target _ _ _ _ _ _ _ _) as [o' s'] eqn:Hc.
  destruct (guard_of _ _ _ Hok Hid) as (t & Ht & _).
  destruct (complete_ok _ _ _ _ _ _ _ _ _ _ Hok Hid Hc Hn) as [Hr Hx Hb Hg]. simpl in *.
  assert (forall r, under_way r (note_end id now (sy_history sys)) = under_way r (note_drop id now (sy_history sys))) as Hu.
  { intros r. rewrite (under_way_delete r id (finished t)); [done|]. simpl. by rewrite lookup_alter_eq, Ht. }
  split; simpl; [done| | |].
  - intros r. by eapply route_keep; [| | | |apply Hx].
  - intros r. rewrite <-Hu. apply Hb.
  - intros id'. specialize (Hg id'). simpl in Hg. destruct (decide (id = id')) as [->|].
    + rewrite !lookup_delete_eq. constructor.
    + rewrite !lookup_delete_ne by done. by rewrite lookup_insert_ne in Hg.
Qed.

Lemma metrics_step_ok sys sys' : metrics_step max_series sys sys' ->
  N.of_nat (length (hi_begun (sy_history sys'))) <= U64_MAX -> sys_ok sys -> sys_ok sys'.
Proof.
  destruct 1 as [sys id route now o s' Hid Hb|sys id now o Hid|sys id now o Hid|
    sys id class usage provider model now o o' s' Hid Hc|sys id now o Hid|sys f ms Hf]; simpl; intros Hn Hok.
  - apply begin_ok; [done..|]. simpl in Hn. lia.
  - eapply mark_ok; [done..|intros t; apply mark_headers_ok|done].
  - eapply mark_ok; [done..|intros t; apply mark_first_event_ok|done].
  - by eapply complete_ok.
  - by apply drop_ok.
  - pose proof (recorder_quiet max_series max_usize f ms Hf (sy_state sys)) as (H1 & H2 & H3).
    destruct Hok as [Hr Hx Hb Hg]. split; simpl; [by apply H3| |done|].
    + intros r. eapply route_keep; [by rewrite H1|done|done|done|apply Hx].
    + intros id. destruct (Hg id); constructor. eapply guard_keep; [by rewrite H1|done|done].
Qed.

Lemma metrics_begun_mono sys sys' : metrics_step max_series sys sys' ->
  (length (hi_begun (sy_history sys)) <= length (hi_begun (sy_history sys')))%nat.
Proof. destruct 1; simpl; lia. Qed.
End invariant.

(** [C39] In every history of requests that begin, report their progress, complete and are
    dropped, in any interleaving with the recorded events, the number of series is the sum
    of the sizes of the tables and never above the limit.  A route that is in the table
    (by its bounded label) has exactly the requests begun on it, its gauge is the number of guards on it that are
    neither completed nor dropped, and all its other requests are completed.  A histogram
    is the cumulative distribution of every value measured under its route and kind: the
    durations of the attempts, and for each request that ended, once, the time to the end
    and to the first report of its headers and of its first event.  A route or histogram
    that is not in the table has no request or value, unless the limit of series is
    reached.  Fewer than 2^64 requests must have begun. *)
Theorem metrics_accounting max_series sys :
  max_series <= USIZE_MAX -> rtc (metrics_step max_series) sys_new sys ->
  N.of_nat (length (hi_begun (sy_history sys))) <= U64_MAX ->
  ms_series (sy_state sys) = total_series (sy_state sys) /\ total_series (sy_state sys) <= N.max max_series 1
  /\ (forall r, route_exact max_series (sy_state sys) (sy_history sys) r)
  /\ (forall k, latency_exact max_series (sy_state sys) (hi_measured (sy_history sys)) k).
Proof.
  intros Hm Hr Hn. assert (sys_ok max_series sys) as [[H1 H2 H3] H4 _ _]; [|split_and!; [done|lia|done..]].
  revert sys Hr Hn. apply (rtc_ind_r (fun sys => _ -> sys_ok max_series sys)).
  - intros _. split; [split; [done|change (0 <= N.max max_series 1); lia|by left]|by left|done|]. intros id. constructor.
  - intros sys sys' Hr Hs IH Hn. pose proof (metrics_begun_mono _ Hm _ _ Hs).
    eapply metrics_step_ok; [done..|]. apply IH. lia.
Qed.

(** Two requests, one of which reports its headers and is dropped. *)
Definition first_request := begin_request 16 "chat" 5 metrics_default.
Definition second_request := begin_request 16 "chat" 7 first_request.2.
Definition one_under_way : Sys :=
  MkSys first_request.2 (<[1 := first_request.1]> ∅) (note_begin 1 "chat" 5 (sy_history sys_new)).
Definition two_under_way : Sys :=
  MkSys second_request.2 (<[2 := second_request.1]> (sy_live one_under_way)) (note_begin 2 "chat" 7 (sy_history one_under_way)).
Definition headers_seen : Sys :=
  MkSys second_request.2 (<[1 := mark_headers 8 first_request.1]> (sy_live two_under_way))
    (note_at (saw_headers 8) 1 (sy_history two_under_way)).
Definition two_requests : Sys :=
  MkSys (drop_observation 16 9 (mark_headers 8 first_request.1) second_request.2)
    (delete 1 (sy_live headers_seen)) (note_drop 1 9 (sy_history headers_seen)).

Lemma two_requests_reached : rtc (metrics_step 16) sys_new two_requests.
Proof.
  apply (rtc_l _ _ one_under_way); [exact (step_begin 16 sys_new 1 "chat" 5 _ _ eq_refl eq_refl)|].
  apply (rtc_l _ _ two_under_way); [exact (step_begin 16 one_under_way 2 "chat" 7 _ _ eq_refl eq_refl)|].
  apply (rtc_l _ _ headers_seen); [exact (step_mark_headers 16 two_under_way 1 8 first_request.1 eq_refl)|].
  apply rtc_once. exact (step_drop 16 headers_seen 1 9 _ eq_refl).
Qed.

Lemma metrics_accounting_witness :
  (forall r, route_exact 16 (sy_state two_requests) (sy_history two_requests) r)
  /\ ms_routes (sy_state two_requests) !! "chat" = Some (MkRouteState 2 1 1)
  /\ ms_latencies (sy_state two_requests) !! ("chat", "headers") = Some (distribution [3])
  /\ ms_latencies (sy_state two_requests) !! ("chat", "end_to_end") = Some (distribution [4]).
Proof.
  split_and!; [|vm_compute; reflexivity..].
  apply (metrics_accounting 16 two_requests); [vm_compute; congruence|apply two_requests_reached|vm_compute; congruence].
Defined.
