(* ===== verification/Exposition.v ===== *)
(** The snapshot of the metrics registry and its Prometheus text
    (crates/pooler-observe/src/lib.rs). *)
From stdpp Require Import pretty.
From S2P Require Import Prelude Str Bytes Redact RedactText Metrics.

Open Scope N_scope.

(** * The snapshot *)

Record RouteMetric := MkRouteMetric { rm_route : string; rm_requests : N; rm_active : N; rm_completed : N }.
Record AttemptMetric := MkAttemptMetric { am_route : string; am_provider : string; am_result : string; am_count : N }.
Record LatencyBucket := MkLatencyBucket { lb_le_ms : option N; lb_count : N }.
Record HistogramSnapshot := MkHistogramSnapshot {
  hs_count : N; hs_sum_ms : N; hs_max_ms : N; hs_buckets : list LatencyBucket }.
Record LatencyMetric := MkLatencyMetric { lm_route : string; lm_kind : string; lm_histogram : HistogramSnapshot }.
Record CompletionMetric := MkCompletionMetric { cm_route : string; cm_class : string; cm_count : N }.
Record RetryMetric := MkRetryMetric {
  tm_route : string; tm_provider : string; tm_reason : string; tm_fallback : bool; tm_count : N }.
Record StateMetric := MkStateMetric {
  sm_kind : string; sm_route : option string; sm_provider : option string; sm_scope : option string; sm_outcome : string;
  sm_count : N }.
Record UsageMetricSnapshot := MkUsageMetricSnapshot {
  us_route : string; us_provider : option string; us_model : option string; us_metric : UsageMetric }.
Record DecisionMetric := MkDecisionMetric {
  dm_route : string; dm_provider : option string; dm_outcome : string; dm_count : N }.
Record MetricsSnapshot := MkMetricsSnapshot {
  sn_routes : list RouteMetric;
  sn_attempts : list AttemptMetric;
  sn_latencies : list LatencyMetric;
  sn_completions : list CompletionMetric;
  sn_retries : list RetryMetric;
  sn_states : list StateMetric;
  sn_usage : list UsageMetricSnapshot;
  sn_decisions : list DecisionMetric;
  sn_routing_telemetry : list RoutingTelemetryRecord;
  sn_dropped_series : N;
}.

(** The derived orders of the keys. *)
Definition str2_cmp (a b : string * string) : comparison := then_with (String.compare a.1 b.1) (String.compare a.2 b.2).
Definition str3_cmp (a b : string * string * string) : comparison := then_with (str2_cmp a.1 b.1) (String.compare a.2 b.2).
Definition ostr_cmp : option string -> option string -> comparison := option_cmp String.compare.
Definition retry_key_cmp (a b : RetryKey) : comparison := then_with (str3_cmp a.1 b.1) (bool_cmp a.2 b.2).
Definition usage_key_cmp (a b : UsageKey) : comparison :=
  let '(r, p, m) := a in let '(r', p', m') := b in
  then_with (String.compare r r') (then_with (ostr_cmp p p') (ostr_cmp m m')).
Definition decision_key_cmp (a b : DecisionKey) : comparison :=
  let '(r, p, o) := a in let '(r', p', o') := b in
  then_with (String.compare r r') (then_with (ostr_cmp p p') (String.compare o o')).
Definition state_key_cmp (a b : StateKey) : comparison :=
  let '(k, r, p, s, o) := a in let '(k', r', p', s', o') := b in
  then_with (String.compare k k') (then_with (ostr_cmp r r') (then_with (ostr_cmp p p')
    (then_with (ostr_cmp s s') (String.compare o o')))).

Definition histogram_snapshot (h : Histogram) : HistogramSnapshot :=
  MkHistogramSnapshot (h_count h) (h_sum_ms h) (h_max_ms h)
    (imap (fun index count => MkLatencyBucket (LATENCY_BUCKETS_MS !! index) count) (h_buckets h)).

Definition metrics_snapshot (s : MetricsState) : MetricsSnapshot :=
  MkMetricsSnapshot
    (map (fun '(route, v) => MkRouteMetric route (rs_requests v) (rs_active v) (rs_completed v))
       (btree_list String.compare (ms_routes s)))
    (map (fun '(route, provider, result, count) => MkAttemptMetric route provider result count)
       (btree_list str3_cmp (ms_attempts s)))
    (map (fun '(route, kind, h) => MkLatencyMetric route kind (histogram_snapshot h))
       (btree_list str2_cmp (ms_latencies s)))
    (map (fun '(route, class, count) => MkCompletionMetric route class count)
       (btree_list str2_cmp (ms_completions s)))
    (map (fun '(route, provider, reason, fallback, count) => MkRetryMetric route provider reason fallback count)
       (btree_list retry_key_cmp (ms_retries s)))
    (map (fun '(kind, route, provider, scope, outcome, count) => MkStateMetric kind route provider scope outcome count)
       (btree_list state_key_cmp (ms_states s)))
    (map (fun '(route, provider, model, v) => MkUsageMetricSnapshot route provider model v)
       (btree_list usage_key_cmp (ms_usage s)))
    (map (fun '(route, provider, outcome, count) => MkDecisionMetric route provider outcome count)
       (btree_list decision_key_cmp (ms_decisions s)))
    (btree_values str3_cmp (ms_routing_telemetry s))
    (ms_dropped_series s).

(** * The text *)

Definition LBRACE : N := 0x7B.
Definition RBRACE : N := 0x7D.
Definition COMMA : N := 0x2C.

(** [str::replace] of an ASCII character. *)
Definition replace_char (c : N) (by_ : bytes) (l : bytes) : bytes :=
  flat_map (fun b => if b =? c then by_ else [b]) l.
Definition escape_prometheus_label (value : bytes) : bytes :=
  replace_char DQUOTE [BACKSLASH; DQUOTE]
    (replace_char LF [BACKSLASH; 0x6E] (replace_char BACKSLASH [BACKSLASH; BACKSLASH] value)).

(** [slice.join(",")]. *)
Fixpoint join_comma (l : list bytes) : bytes :=
  match l with
  | [] => []
  | [x] => x
  | x :: l => x ++ COMMA :: join_comma l
  end.
Definition label (pair : string * string) : bytes :=
  bytes_of pair.1 ++ [EQUALS; DQUOTE] ++ escape_prometheus_label (bytes_of pair.2) ++ [DQUOTE].
Definition labels (pairs : list (string * string)) : bytes := join_comma (map label pairs).

Definition push_metric (name : string) (labels : bytes) (value : N) : bytes :=
  bytes_of name ++ (match labels with [] => [] | _ => LBRACE :: labels ++ [RBRACE] end)
  ++ [SPACE] ++ bytes_of (pretty value) ++ [LF].

Definition optional (name : string) (value : option string) : list (string * string) :=
  match value with Some v => [(name, v)] | None => [] end.
Definition bool_str (b : bool) : string := if b then "true" else "false".

Definition push_route (m : RouteMetric) : bytes :=
  let ls := labels [("route", rm_route m)] in
  push_metric "pooler_requests_total" ls (rm_requests m) ++ push_metric "pooler_active_requests" ls (rm_active m)
  ++ push_metric "pooler_completed_requests_total" ls (rm_completed m).
Definition push_attempt (m : AttemptMetric) : bytes :=
  push_metric "pooler_attempts_total"
    (labels [("route", am_route m); ("provider", am_provider m); ("result", am_result m)]) (am_count m).
Definition push_bucket (base : bytes) (bucket : LatencyBucket) : bytes :=
  let bound := match lb_le_ms bucket with Some v => pretty v | None => "+Inf" end in
  let le := bytes_of "le=" ++ [DQUOTE] ++ bytes_of bound ++ [DQUOTE] in
  push_metric "pooler_latency_milliseconds_bucket"
    (match base with [] => le | _ => base ++ COMMA :: le end) (lb_count bucket).
Definition push_latency (m : LatencyMetric) : bytes :=
  let base := labels [("route", lm_route m); ("kind", lm_kind m)] in
  flat_map (push_bucket base) (hs_buckets (lm_histogram m))
  ++ push_metric "pooler_latency_milliseconds_sum" base (hs_sum_ms (lm_histogram m))
  ++ push_metric "pooler_latency_milliseconds_count" base (hs_count (lm_histogram m)).
Definition push_completion (m : CompletionMetric) : bytes :=
  push_metric "pooler_completions_total" (labels [("route", cm_route m); ("class", cm_class m)]) (cm_count m).
Definition push_retry (m : RetryMetric) : bytes :=
  push_metric "pooler_retries_total"
    (labels [("route", tm_route m); ("provider", tm_provider m); ("reason", tm_reason m);
             ("fallback", bool_str (tm_fallback m))]) (tm_count m).
Definition push_state (m : StateMetric) : bytes :=
  push_metric "pooler_state_total"
    (labels ([("kind", sm_kind m); ("outcome", sm_outcome m)] ++ optional "route" (sm_route m)
             ++ optional "provider" (sm_provider m) ++ optional "scope" (sm_scope m))) (sm_count m).
Definition push_usage (m : UsageMetricSnapshot) : bytes :=
  let ls := labels ([("route", us_route m)] ++ optional "provider" (us_provider m) ++ optional "model" (us_model m)) in
  push_metric "pooler_usage_requests_total" ls (um_requests (us_metric m))
  ++ push_metric "pooler_usage_input_tokens_total" ls (um_input_tokens (us_metric m))
  ++ push_metric "pooler_usage_output_tokens_total" ls (um_output_tokens (us_metric m))
  ++ push_metric "pooler_usage_total_tokens_total" ls (um_total_tokens (us_metric m))
  ++ push_metric "pooler_usage_cost_usd_ticks_total" ls (um_cost_in_usd_ticks (us_metric m)).
Definition push_decision (m : DecisionMetric) : bytes :=
  push_metric "pooler_decisions_total"
    (labels ([("route", dm_route m); ("outcome", dm_outcome m)] ++ optional "provider" (dm_provider m))) (dm_count m).

Definition to_prometheus (s : MetricsSnapshot) : bytes :=
  flat_map push_route (sn_routes s) ++ flat_map push_attempt (sn_attempts s) ++ flat_map push_latency (sn_latencies s)
  ++ flat_map push_completion (sn_completions s) ++ flat_map push_retry (sn_retries s) ++ flat_map push_state (sn_states s)
  ++ flat_map push_usage (sn_usage s) ++ flat_map push_decision (sn_decisions s)
  ++ push_metric "pooler_metrics_dropped_series_total" [] (sn_dropped_series s).
Definition export_prometheus (s : MetricsState) : bytes := to_prometheus (metrics_snapshot s).

(** * The Prometheus text reads back: a reader of the exposition format gets exactly the
      samples of the registry, whatever the labels contain. *)

(** * A reader of the format *)

(** One line: the name, the labels and the digits of the value. *)
Definition Sample : Type := bytes * list (bytes * bytes) * bytes.

(** A quoted value behind its opening quote. *)
Fixpoint read_value (l : bytes) : option (bytes * bytes) :=
  match l with
  | [] => None
  | b :: l =>
    if b =? DQUOTE then Some ([], l)
    else if b =? BACKSLASH then
      match l with
      | [] => None
      | c :: l => (fun vr => ((if c =? 0x6E then LF else c) :: vr.1, vr.2)) <$> read_value l
      end
    else (fun vr => (b :: vr.1, vr.2)) <$> read_value l
  end.

Definition split_run (f : N -> bool) (l : bytes) : bytes * bytes := (take (count_while f l) l, drop (count_while f l) l).

Fixpoint read_labels (fuel : nat) (l : bytes) : option (list (bytes * bytes) * bytes) :=
  match fuel with
  | O => None
  | S fuel =>
    match split_run is_identifier_byte l with
    | (name, e :: q :: l) =>
      if (e =? EQUALS) && (q =? DQUOTE) then
        match read_value l with
        | Some (v, c :: l) =>
          if c =? COMMA then (fun x => ((name, v) :: x.1, x.2)) <$> read_labels fuel l
          else if c =? RBRACE then Some ([(name, v)], l) else None
        | _ => None
        end
      else None
    | _ => None
    end
  end.

Definition read_line (l : bytes) : option (Sample * bytes) :=
  let '(name, l) := split_run is_identifier_byte l in
  match l with
  | b :: l =>
    let labelled := if b =? LBRACE then read_labels (length l) l else Some ([], b :: l) in
    match labelled with
    | Some (pairs, s :: l) =>
      if s =? SPACE then (fun x => (name, pairs, x.1, x.2)) <$> split_once LF l else None
    | _ => None
    end
  | [] => None
  end.

Fixpoint read_text (fuel : nat) (l : bytes) : option (list Sample) :=
  match l with
  | [] => Some []
  | _ =>
    match fuel with
    | O => None
    | S fuel => match read_line l with Some (x, l) => (fun xs => x :: xs) <$> read_text fuel l | None => None end
    end
  end.

(** * The samples of a snapshot *)

Definition Named : Type := string * list (string * string) * string.
Definition sample (name : string) (pairs : list (string * string)) (value : N) : Named := (name, pairs, pretty value).

Definition route_samples (m : RouteMetric) : list Named :=
  let ls := [("route", rm_route m)] in
  [sample "pooler_requests_total" ls (rm_requests m); sample "pooler_active_requests" ls (rm_active m);
   sample "pooler_completed_requests_total" ls (rm_completed m)].
Definition attempt_samples (m : AttemptMetric) : list Named :=
  [sample "pooler_attempts_total" [("route", am_route m); ("provider", am_provider m); ("result", am_result m)] (am_count m)].
Definition bound_str (le : option N) : string := match le with Some v => pretty v | None => "+Inf" end.
Definition latency_samples (m : LatencyMetric) : list Named :=
  let base := [("route", lm_route m); ("kind", lm_kind m)] in
  map (fun b => sample "pooler_latency_milliseconds_bucket" (base ++ [("le", bound_str (lb_le_ms b))]) (lb_count b))
    (hs_buckets (lm_histogram m))
  ++ [sample "pooler_latency_milliseconds_sum" base (hs_sum_ms (lm_histogram m));
      sample "pooler_latency_milliseconds_count" base (hs_count (lm_histogram m))].
Definition completion_samples (m : CompletionMetric) : list Named :=
  [sample "pooler_completions_total" [("route", cm_route m); ("class", cm_class m)] (cm_count m)].
Definition retry_samples (m : RetryMetric) : list Named :=
  [sample "pooler_retries_total" [("route", tm_route m); ("provider", tm_provider m); ("reason", tm_reason m);
                                  ("fallback", bool_str (tm_fallback m))] (tm_count m)].
Definition state_samples (m : StateMetric) : list Named :=
  [sample "pooler_state_total"
     ([("kind", sm_kind m); ("outcome", sm_outcome m)] ++ optional "route" (sm_route m)
      ++ optional "provider" (sm_provider m) ++ optional "scope" (sm_scope m)) (sm_count m)].
Definition usage_samples (m : UsageMetricSnapshot) : list Named :=
  let ls := [("route", us_route m)] ++ optional "provider" (us_provider m) ++ optional "model" (us_model m) in
  [sample "pooler_usage_requests_total" ls (um_requests (us_metric m));
   sample "pooler_usage_input_tokens_total" ls (um_input_tokens (us_metric m));
   sample "pooler_usage_output_tokens_total" ls (um_output_tokens (us_metric m));
   sample "pooler_usage_total_tokens_total" ls (um_total_tokens (us_metric m));
   sample "pooler_usage_cost_usd_ticks_total" ls (um_cost_in_usd_ticks (us_metric m))].
Definition decision_samples (m : DecisionMetric) : list Named :=
  [sample "pooler_decisions_total"
     ([("route", dm_route m); ("outcome", dm_outcome m)] ++ optional "provider" (dm_provider m)) (dm_count m)].

Definition samples (s : MetricsSnapshot) : list Named :=
  flat_map route_samples (sn_routes s) ++ flat_map attempt_samples (sn_attempts s)
  ++ flat_map latency_samples (sn_latencies s) ++ flat_map completion_samples (sn_completions s)
  ++ flat_map retry_samples (sn_retries s) ++ flat_map state_samples (sn_states s)
  ++ flat_map usage_samples (sn_usage s) ++ flat_map decision_samples (sn_decisions s)
  ++ [sample "pooler_metrics_dropped_series_total" [] (sn_dropped_series s)].

Definition as_sample (x : Named) : Sample :=
  let '(name, pairs, value) := x in
  (bytes_of name, map (fun p => (bytes_of p.1, bytes_of p.2)) pairs, bytes_of value).
Definition render (x : Named) : bytes :=
  let '(name, pairs, value) := x in
  bytes_of name ++ (match labels pairs with [] => [] | ls => LBRACE :: ls ++ [RBRACE] end)
  ++ [SPACE] ++ bytes_of value ++ [LF].

(** * Escaping *)

Definition escape_byte (b : N) : bytes :=
  if b =? BACKSLASH then [BACKSLASH; BACKSLASH]
  else if b =? LF then [BACKSLASH; 0x6E]
  else if b =? DQUOTE then [BACKSLASH; DQUOTE] else [b].

Lemma escape_cons b v : escape_prometheus_label (b :: v) = escape_byte b ++ escape_prometheus_label v.
Proof.
  unfold escape_prometheus_label, replace_char, escape_byte. cbn [flat_map]. rewrite !flat_map_app. f_equal.
  destruct (N.eqb_spec b BACKSLASH) as [->|H1]; [done|]. destruct (N.eqb_spec b LF) as [->|H2]; [done|].
  cbn [flat_map]. rewrite app_nil_r. destruct (N.eqb_spec b LF) as [->|_]; [done|]. cbn [flat_map].
  rewrite app_nil_r. by destruct (b =? DQUOTE).
Qed.

Lemma read_escape v rest : read_value (escape_prometheus_label v ++ DQUOTE :: rest) = Some (v, rest).
Proof.
  induction v as [|b v IH]; [done|]. rewrite escape_cons, <-app_assoc. unfold escape_byte.
  destruct (N.eqb_spec b BACKSLASH) as [->|H1]; [simpl; by rewrite IH|].
  destruct (N.eqb_spec b LF) as [->|H2]; [simpl; by rewrite IH|].
  destruct (N.eqb_spec b DQUOTE) as [->|H3]; [simpl; by rewrite IH|]. simpl.
  apply N.eqb_neq in H1, H3. by rewrite H3, H1, IH.
Qed.

(** A text without special bytes is its own escape. *)
Lemma escape_plain v : Forall (fun b => escape_byte b = [b]) v -> escape_prometheus_label v = v.
Proof. induction 1 as [|b v Hb _ IH]; [done|]. by rewrite escape_cons, Hb, IH. Qed.

(** * Digits *)

Definition is_digit (b : N) : Prop := 0x30 <= b <= 0x39.

Lemma pretty_char_digit x : is_digit (Ascii.N_of_ascii (pretty_N_char x)).
Proof. unfold is_digit, pretty_N_char. repeat case_match; vm_compute; split; congruence. Qed.

Lemma pretty_go_digits x : forall s, Forall is_digit (bytes_of s) -> Forall is_digit (bytes_of (pretty_N_go x s)).
Proof.
  induction (N.lt_wf_0 x) as [x _ IH]. intros s Hs. destruct (decide (0 < x)) as [Hx|Hx].
  - rewrite pretty_N_go_step by done. apply IH; [by apply N.div_lt|]. constructor; [apply pretty_char_digit|done].
  - assert (x = 0) as -> by lia. by rewrite pretty_N_go_0.
Qed.

Lemma pretty_digits (n : N) : Forall is_digit (bytes_of (pretty n)).
Proof.
  unfold pretty, pretty_N. case_decide; [|by apply pretty_go_digits; constructor].
  constructor; [split; vm_compute; congruence|constructor].
Qed.

Lemma digits_plain v : Forall is_digit v -> has_byte LF v = false /\ Forall (fun b => escape_byte b = [b]) v.
Proof.
  unfold is_digit. induction 1 as [|b v Hb _ [IH1 IH2]]; [done|]. simpl. rewrite IH1.
  destruct (N.eqb_spec b LF) as [->|Hl]; [unfold LF in Hb; lia|]. split; [done|]. constructor; [|done]. unfold escape_byte.
  destruct (N.eqb_spec b BACKSLASH) as [->|]; [unfold BACKSLASH in Hb; lia|].
  destruct (N.eqb_spec b LF) as [->|]; [done|].
  destruct (N.eqb_spec b DQUOTE) as [->|]; [unfold DQUOTE in Hb; lia|done].
Qed.

(** * Reading what was written *)

Definition clean (name : string) : bool := forallb is_identifier_byte (bytes_of name).
Definition clean_sample (x : Named) : Prop :=
  clean x.1.1 = true /\ Forall (fun p => clean p.1 = true) x.1.2 /\ has_byte LF (bytes_of x.2) = false.

Lemma split_run_clean name b rest :
  clean name = true -> is_identifier_byte b = false ->
  split_run is_identifier_byte (bytes_of name ++ b :: rest) = (bytes_of name, b :: rest).
Proof.
  intros Hn Hb. unfold split_run. rewrite count_while_all.
  - by rewrite take_app_length, drop_app_length.
  - apply Forall_forall. intros x Hx. unfold clean in Hn. rewrite forallb_forall in Hn. by apply Hn, list_elem_of_In.
  - right. eauto.
Qed.

Lemma label_app p rest :
  label p ++ rest = bytes_of p.1 ++ EQUALS :: DQUOTE :: escape_prometheus_label (bytes_of p.2) ++ DQUOTE :: rest.
Proof. unfold label. by rewrite <-!app_assoc. Qed.

Lemma read_labels_spec pairs : forall fuel rest,
  pairs <> [] -> Forall (fun p => clean p.1 = true) pairs -> (length pairs <= fuel)%nat ->
  read_labels fuel (labels pairs ++ RBRACE :: rest)
  = Some (map (fun p => (bytes_of p.1, bytes_of p.2)) pairs, rest).
Proof.
  induction pairs as [|p pairs IH]; intros fuel rest Hne Hc Hf; [done|]. apply Forall_cons in Hc as [Hp Hc].
  destruct fuel as [|fuel]; [simpl in Hf; lia|]. cbn [read_labels]. unfold labels in *. destruct pairs as [|q pairs].
  - cbn [map join_comma]. rewrite label_app, split_run_clean by done. simpl. by rewrite read_escape.
  - cbn [map join_comma] in *. rewrite <-app_assoc, label_app, split_run_clean by done. simpl. rewrite read_escape. simpl.
    rewrite IH; [done..|]. simpl in *. lia.
Qed.

Lemma length_labels pairs : (length pairs <= length (labels pairs))%nat.
Proof.
  unfold labels. induction pairs as [|p pairs IH]; [done|]. destruct pairs as [|q pairs]; cbn [map join_comma] in *.
  - unfold label. rewrite !length_app. simpl. lia.
  - rewrite length_app. simpl in *. lia.
Qed.

Lemma no_labels pairs : labels pairs = [] -> pairs = [].
Proof. intros Hl. pose proof (length_labels pairs) as H. rewrite Hl in H. destruct pairs; [done|simpl in H; lia]. Qed.

Lemma read_line_spec x rest : clean_sample x -> read_line (render x ++ rest) = Some (as_sample x, rest).
Proof.
  destruct x as [[name pairs] value]. intros (Hn & Hp & Hv). simpl in Hn, Hp, Hv. unfold read_line, render, as_sample.
  destruct (labels pairs) as [|b ls] eqn:El.
  - apply no_labels in El as ->. rewrite app_nil_l, <-!app_assoc. cbn [app]. rewrite split_run_clean by done. simpl.
    by rewrite split_once_app.
  - assert (pairs <> []) by (by intros ->). rewrite <-El in *. clear El.
    replace ((bytes_of name ++ (LBRACE :: labels pairs ++ [RBRACE]) ++ [SPACE] ++ bytes_of value ++ [LF]) ++ rest)
      with (bytes_of name ++ LBRACE :: labels pairs ++ RBRACE :: SPACE :: bytes_of value ++ LF :: rest)
      by (rewrite <-!app_assoc; simpl; rewrite <-!app_assoc; done).
    rewrite split_run_clean by done. simpl N.eqb. cbn iota. rewrite read_labels_spec; [|done..|].
    + simpl. by rewrite split_once_app.
    + rewrite length_app. pose proof (length_labels pairs). lia.
Qed.

Lemma render_length x : (0 < length (render x))%nat.
Proof. destruct x as [[name pairs] value]. simpl. rewrite !length_app. simpl. lia. Qed.

Lemma read_text_spec xs : forall fuel,
  Forall clean_sample xs -> (length (flat_map render xs) <= fuel)%nat ->
  read_text fuel (flat_map render xs) = Some (map as_sample xs).
Proof.
  induction xs as [|x xs IH]; intros fuel Hc Hf; [by destruct fuel|]. apply Forall_cons in Hc as [Hx Hc].
  simpl in Hf. rewrite length_app in Hf. pose proof (render_length x) as Hr.
  destruct fuel as [|fuel]; [lia|]. cbn [flat_map]. destruct (render x ++ flat_map render xs) eqn:E.
  { apply app_nil in E as [E _]. rewrite E in Hr. simpl in Hr. lia. }
  rewrite <-E. cbn [read_text]. rewrite E. rewrite <-E, read_line_spec by done. rewrite IH; [done..|lia].
Qed.

(** * The text of a snapshot *)

Lemma push_metric_render name pairs value : push_metric name (labels pairs) value = render (sample name pairs value).
Proof. unfold push_metric, render, sample. by destruct (labels pairs). Qed.

Lemma flat_map_flat_map {A B C} (f : B -> list C) (g : A -> list B) l :
  flat_map f (flat_map g l) = flat_map (fun x => flat_map f (g x)) l.
Proof. induction l as [|x l IH]; simpl; [done|]. by rewrite flat_map_app, IH. Qed.

(** The bounds of the buckets need no escape. *)
Definition plain_bound (b : LatencyBucket) : Prop := Forall (fun c => escape_byte c = [c]) (bytes_of (bound_str (lb_le_ms b))).

Lemma bound_plain b : plain_bound b.
Proof.
  unfold plain_bound. destruct (lb_le_ms b); simpl; [apply digits_plain, pretty_digits|]. by repeat constructor.
Qed.

Lemma push_bucket_render route kind b :
  push_bucket (labels [("route", route); ("kind", kind)]) b
  = render (sample "pooler_latency_milliseconds_bucket" ([("route", route); ("kind", kind)] ++ [("le", bound_str (lb_le_ms b))])
              (lb_count b)).
Proof.
  rewrite <-push_metric_render. unfold push_bucket. f_equal.
  assert (Hle : label ("le", bound_str (lb_le_ms b)) = bytes_of "le=" ++ [DQUOTE] ++ bytes_of (bound_str (lb_le_ms b)) ++ [DQUOTE]).
  { unfold label. cbn [fst snd]. rewrite escape_plain by apply bound_plain. done. }
  unfold labels. cbn [map join_comma app]. rewrite Hle. unfold bound_str. rewrite <-app_assoc. done.
Qed.

Lemma flat_map_ext {A B} (f g : A -> list B) l : (forall x, f x = g x) -> flat_map f l = flat_map g l.
Proof. intros Hf. induction l; simpl; [done|]. by rewrite Hf, IHl. Qed.

Lemma push_latency_render m : push_latency m = flat_map render (latency_samples m).
Proof.
  unfold push_latency, latency_samples. rewrite flat_map_app. cbn [flat_map]. rewrite app_nil_r, !push_metric_render. f_equal.
  induction (hs_buckets (lm_histogram m)) as [|b bs IH]; [done|]. cbn [map flat_map]. by rewrite IH, push_bucket_render.
Qed.

Ltac one_metric := intros; cbn [flat_map]; rewrite <-!push_metric_render, ?app_nil_r; done.

Lemma to_prometheus_render s : to_prometheus s = flat_map render (samples s).
Proof.
  unfold to_prometheus, samples. rewrite !flat_map_app, !flat_map_flat_map.
  apply (f_equal2 app); [apply flat_map_ext; unfold route_samples; one_metric|].
  apply (f_equal2 app); [apply flat_map_ext; unfold attempt_samples; one_metric|].
  apply (f_equal2 app); [apply flat_map_ext, push_latency_render|].
  apply (f_equal2 app); [apply flat_map_ext; unfold completion_samples; one_metric|].
  apply (f_equal2 app); [apply flat_map_ext; unfold retry_samples; one_metric|].
  apply (f_equal2 app); [apply flat_map_ext; unfold state_samples; one_metric|].
  apply (f_equal2 app); [apply flat_map_ext; unfold usage_samples; one_metric|].
  apply (f_equal2 app); [apply flat_map_ext; unfold decision_samples; one_metric|].
  cbn [flat_map]. by rewrite app_nil_r.
Qed.

Lemma sample_clean name pairs value :
  clean name = true -> Forall (fun p => clean p.1 = true) pairs -> clean_sample (sample name pairs value).
Proof. intros Hn Hp. split_and!; [done..|]. apply digits_plain, pretty_digits. Qed.

Lemma optional_clean name v : clean name = true -> Forall (fun p => clean p.1 = true) (optional name v).
Proof. intros Hn. destruct v; by repeat constructor. Qed.


Lemma Forall_flat_map {A B} (P : B -> Prop) (f : A -> list B) l : (forall x, Forall P (f x)) -> Forall P (flat_map f l).
Proof. intros Hf. induction l; simpl; [constructor|]. by apply Forall_app_2. Qed.

Lemma samples_clean s : Forall clean_sample (samples s).
Proof.
  unfold samples. repeat apply Forall_app_2; try (apply Forall_flat_map; intros m).
  all: try solve [repeat first [apply Forall_cons_2 | apply Forall_nil_2 | apply sample_clean; [reflexivity|]
    | apply Forall_app_2 | apply optional_clean | reflexivity]].
  unfold latency_samples. apply Forall_app_2.
  - apply Forall_map, Forall_forall. intros b _. apply sample_clean; [done|]. by repeat constructor.
  - by repeat (constructor; [apply sample_clean; [done|by repeat constructor]|]).
Qed.

(** The Prometheus text of a registry reads back: a reader of the format that undoes
    the escapes gets, line by line, the samples of the snapshot with their names, labels
    and values, whatever bytes the labels contain; no label can forge a line, a label or a
    value. *)
Theorem exposition_roundtrip s :
  read_text (length (export_prometheus s)) (export_prometheus s) = Some (map as_sample (samples (metrics_snapshot s))).
Proof.
  unfold export_prometheus. rewrite to_prometheus_render. apply read_text_spec; [apply samples_clean|done].
Qed.

(** A route whose name holds a quote and a backslash. *)
Example exposition_hostile_label :
  let hostile := of_bytes [DQUOTE; RBRACE; BACKSLASH; LF] in
  let s := MkMetricsState {[hostile := MkRouteState 7 1 6]} ∅ ∅ ∅ ∅ ∅ ∅ ∅ ∅ 1 0 in
  (fun xs => (length xs, head xs)) <$> read_text (length (export_prometheus s)) (export_prometheus s)
  = Some (4%nat, Some (bytes_of "pooler_requests_total", [(bytes_of "route", bytes_of hostile)], bytes_of "7")).
Proof. vm_compute. reflexivity. Qed.
