(* ===== verification/Decisions.v ===== *)
(** The record of a selection as the store keeps it and as it is observed
    (DecisionRecord of crates/pooler-store/src/lib.rs and of
    crates/pooler-observe/src/lib.rs), and that the two conversions agree. *)
From S2P Require Import Prelude Str CoreId Binding Explain Store Metrics.
From Stdlib Require Import SpecFloat.

Open Scope N_scope.

(** * The stored record *)

(** [score.round() as i64] of a finite number: to the nearest integer, halves away from
    zero, saturating. *)
Definition round_magnitude (m : positive) (e : Z) : Z :=
  if (0 <=? e)%Z then (Zpos m * 2 ^ e)%Z else ((2 * Zpos m + 2 ^ (- e)) / 2 ^ (- e + 1))%Z.
Definition score_as_integer (score : f64) : Z :=
  match score with
  | S754_finite s m e => clamp_i64 (if s then - round_magnitude m e else round_magnitude m e)%Z
  | _ => 0%Z
  end.

Definition filter_reason (reason : FilterReason) : string :=
  match reason with
  | ModelMismatch => "model_mismatch"
  | ProviderNotAllowed => "provider_not_allowed"
  | ProviderDenied => "provider_denied"
  | TargetNotAllowed => "target_not_allowed"
  | TargetDenied => "target_denied"
  | FallbackDisabled => "fallback_disabled"
  | MissingCapability value => "missing_capability:" +:+ value
  | CodecUnavailable value => "codec_unavailable:" +:+ value
  | MissingParameter value => "missing_parameter:" +:+ value
  | UnknownParameters => "unknown_parameters"
  | MissingContext => "missing_context"
  | UnknownContext => "unknown_context"
  | MissingQuantization value => "missing_quantization:" +:+ value
  | UnknownQuantization => "unknown_quantization"
  | PrivacyMismatch => "privacy_mismatch"
  | UnknownPrivacy => "unknown_privacy"
  | ZdrRequired => "zdr_required"
  | UnknownZdr => "unknown_zdr"
  | DataPolicyMismatch => "data_policy_mismatch"
  | UnknownDataPolicy => "unknown_data_policy"
  | RegionMismatch => "region_mismatch"
  | UnknownRegion => "unknown_region"
  | PriceExceeded => "price_exceeded"
  | UnknownPrice => "unknown_price"
  | StaleTelemetry => "stale_telemetry"
  | UnknownTelemetry => "unknown_telemetry"
  | CredentialUnavailable => "credential_unavailable"
  | CredentialCooldown => "credential_cooldown"
  | CredentialModelCooldown => "credential_model_cooldown"
  | ModelCooldown => "model_cooldown"
  | ProviderCooldown => "provider_cooldown"
  | ProviderModelCooldown => "provider_model_cooldown"
  | RouteCooldown => "route_cooldown"
  | ConcurrencyLimit => "concurrency_limit"
  | RoutePolicy => "route_policy"
  | Explain.SessionAffinity => "session_affinity"
  | LossPolicy_ => "loss_policy"
  | QuotaExhausted => "quota_exhausted"
  | Disabled_ => "disabled"
  end%string.

Definition decision_reason (reasons : list FilterReason) : option string :=
  match reasons with [] => None | _ => Some (String.concat "," (map filter_reason reasons)) end.

Definition selection_reason (selection : SelectionExplanation) : option string :=
  match se_affinity selection with
  | NotRequested => None
  | NoMatch _ => Some "affinity_no_match"
  | Matched _ _ => Some "affinity_matched"
  | Rebound _ _ _ => Some "affinity_rebound"
  | Unavailable _ _ => Some "affinity_unavailable"
  end.

Definition stored_candidate (c : CandidateExplanation) : DecisionCandidate :=
  MkDecisionCandidate (provider_str (st_provider (ce_target c)))
    (Some (pseudonym_str (st_credential_pseudonym (ce_target c))))
    (match ce_score c with Some s => score_as_integer s | None => 0%Z end)
    (candidate_is_eligible c) (decision_reason (ce_filter_reasons c)).

Definition decision_from_selection (selection : SelectionExplanation) (request_id route_id : string) (recorded_at : N)
  : DecisionRecord :=
  let selected := se_selected selection in
  MkDecisionRecord 0 request_id route_id (model_str (mar_requested (se_model_alias_resolution selection)))
    (map stored_candidate (se_candidates selection))
    ((fun t => provider_str (st_provider t)) <$> selected)
    ((fun t => pseudonym_str (st_credential_pseudonym t)) <$> selected)
    ((fun t => model_str (st_model t)) <$> selected)
    (selected ≫= fun t => target_str <$> st_target_id t)
    (selected ≫= st_priority)
    (se_attempt selection) (generation_value (se_configuration_generation selection))
    (selection_reason selection) recorded_at.

(** * The observed record *)

Record CandidateRecord := MkCandidateRecord {
  oc_provider : string; oc_credential_pseudonym : option string; oc_score : option f64; oc_eligible : bool;
  oc_filter_reasons : list string }.

Record AffinityRecord := MkAffinityRecord {
  oa_key_pseudonym : option string; oa_previous_provider : option string; oa_selected_provider : option string;
  oa_rebound : bool; oa_reason : option string }.

(** The fields a conversion sets; the others keep their defaults ([None] and empty maps). *)
Record ObservedDecision := MkObserved {
  od_timestamp_ms : N;
  od_request_id : option string;
  od_route : option string;
  od_model : option string;
  od_provider : option string;
  od_credential_pseudonym : option string;
  od_attempt : N;
  od_candidates : list CandidateRecord;
  od_selected_provider : option string;
  od_selected_model : option string;
  od_model_alias : option string;
  od_affinity : option AffinityRecord;
  od_config_generation : option N;
  od_outcome : option string;
}.

Definition observe_filter_reason (reason : FilterReason) : string :=
  match reason with
  | ModelMismatch => "model_mismatch"
  | ProviderNotAllowed => "provider_not_allowed"
  | ProviderDenied => "provider_denied"
  | TargetNotAllowed => "target_not_allowed"
  | TargetDenied => "target_denied"
  | FallbackDisabled => "fallback_disabled"
  | MissingCapability value => "missing_capability:" +:+ value
  | CodecUnavailable value => "codec_unavailable:" +:+ value
  | MissingParameter value => "missing_parameter:" +:+ value
  | UnknownParameters => "unknown_parameters"
  | MissingContext => "missing_context"
  | UnknownContext => "unknown_context"
  | MissingQuantization value => "missing_quantization:" +:+ value
  | UnknownQuantization => "unknown_quantization"
  | PrivacyMismatch => "privacy_mismatch"
  | UnknownPrivacy => "unknown_privacy"
  | ZdrRequired => "zdr_required"
  | UnknownZdr => "unknown_zdr"
  | DataPolicyMismatch => "data_policy_mismatch"
  | UnknownDataPolicy => "unknown_data_policy"
  | RegionMismatch => "region_mismatch"
  | UnknownRegion => "unknown_region"
  | PriceExceeded => "price_exceeded"
  | UnknownPrice => "unknown_price"
  | StaleTelemetry => "stale_telemetry"
  | UnknownTelemetry => "unknown_telemetry"
  | CredentialUnavailable => "credential_unavailable"
  | CredentialCooldown => "credential_cooldown"
  | CredentialModelCooldown => "credential_model_cooldown"
  | ModelCooldown => "model_cooldown"
  | ProviderCooldown => "provider_cooldown"
  | ProviderModelCooldown => "provider_model_cooldown"
  | RouteCooldown => "route_cooldown"
  | ConcurrencyLimit => "concurrency_limit"
  | RoutePolicy => "route_policy"
  | Explain.SessionAffinity => "session_affinity"
  | LossPolicy_ => "loss_policy"
  | QuotaExhausted => "quota_exhausted"
  | Disabled_ => "disabled"
  end%string.

Definition observe_affinity (affinity : AffinityDecision) : option AffinityRecord :=
  match affinity with
  | NotRequested => None
  | NoMatch key => Some (MkAffinityRecord (Some key) None None false (Some "no_match"))
  | Matched key target =>
    Some (MkAffinityRecord (Some key) None (Some (provider_str (st_provider target))) false (Some "matched"))
  | Rebound key previous target =>
    Some (MkAffinityRecord (Some key) (Some (provider_str previous)) (Some (provider_str (st_provider target))) true
            (Some "rebound"))
  | Unavailable key target =>
    Some (MkAffinityRecord (Some key) None (Some (provider_str (st_provider target))) false (Some "unavailable"))
  end.

(** [build] stamps a record without a time. *)
Definition stamp (now timestamp_ms : N) : N := if timestamp_ms =? 0 then now else timestamp_ms.

Definition of_candidate (c : CandidateExplanation) : CandidateRecord :=
  MkCandidateRecord (provider_str (st_provider (ce_target c)))
    (Some (pseudonym_str (st_credential_pseudonym (ce_target c)))) (ce_score c) (candidate_is_eligible c)
    (map observe_filter_reason (ce_filter_reasons c)).

Definition of_selection (now : N) (selection : SelectionExplanation) : ObservedDecision :=
  let selected := se_selected selection in
  let alias := se_model_alias_resolution selection in
  MkObserved (stamp now 0) None None (Some (model_str (mar_requested alias)))
    ((fun t => provider_str (st_provider t)) <$> selected)
    ((fun t => pseudonym_str (st_credential_pseudonym t)) <$> selected)
    (se_attempt selection) (map of_candidate (se_candidates selection))
    ((fun t => provider_str (st_provider t)) <$> selected)
    ((fun t => model_str (st_model t)) <$> selected)
    (if mar_alias_used alias then Some (model_str (mar_resolved alias)) else None)
    (observe_affinity (se_affinity selection))
    (Some (generation_value (se_configuration_generation selection))) None.

(** [score as i32], which wraps, and [f64::from] of it. *)
Definition wrap_i32 (z : Z) : Z := ((z + 2 ^ 31) mod 2 ^ 32 - 2 ^ 31)%Z.
Definition f64_of_i32 (z : Z) : f64 := binary_normalize 53 1024 z 0 false.

Definition of_stored_candidate (c : DecisionCandidate) : CandidateRecord :=
  MkCandidateRecord (dc_provider_id c) (dc_credential_id c) (Some (f64_of_i32 (wrap_i32 (dc_score c)))) (dc_eligible c)
    (match dc_reason c with Some r => [r] | None => [] end).

Definition of_stored (now : N) (stored : DecisionRecord) : ObservedDecision :=
  MkObserved (stamp now (dr_recorded_at stored)) (Some (dr_request_id stored)) (Some (dr_route_id stored))
    (Some (dr_model stored)) (dr_selected_provider stored) (dr_selected_credential stored) (dr_attempt stored)
    (map of_stored_candidate (dr_candidates stored)) (dr_selected_provider stored) (dr_upstream_model stored) None None
    (Some (dr_configuration_generation stored)) (Some (default "selected"%string (dr_reason stored))).

(** * The two paths agree *)

(** One candidate, but for its score: the stored reasons are the observed ones in one text. *)
Definition same_candidate (stored direct : CandidateRecord) : Prop :=
  oc_provider stored = oc_provider direct /\ oc_credential_pseudonym stored = oc_credential_pseudonym direct
  /\ oc_eligible stored = oc_eligible direct
  /\ oc_filter_reasons stored = (if oc_eligible direct then [] else [String.concat "," (oc_filter_reasons direct)]).

Lemma candidates_agree c : same_candidate (of_stored_candidate (stored_candidate c)) (of_candidate c).
Proof.
  unfold same_candidate. simpl. unfold candidate_is_eligible, decision_reason.
  split_and!; [done..|]. by destruct (ce_filter_reasons c).
Qed.

(** Observing a selection directly and observing what the store keeps of it give the
    same decision: model, provider, credential, attempt, configuration generation, and the
    same candidates in the same order with the same eligibility and reasons, the stored
    ones joined in one text; the stored path alone names the request, the route and the
    outcome. *)
Theorem decision_paths_agree now selection request_id route_id recorded_at :
  let direct := of_selection now selection in
  let stored := of_stored now (decision_from_selection selection request_id route_id recorded_at) in
  od_model stored = od_model direct /\ od_provider stored = od_provider direct
  /\ od_credential_pseudonym stored = od_credential_pseudonym direct
  /\ od_selected_provider stored = od_selected_provider direct
  /\ od_selected_model stored = od_selected_model direct
  /\ od_attempt stored = od_attempt direct /\ od_config_generation stored = od_config_generation direct
  /\ Forall2 same_candidate (od_candidates stored) (od_candidates direct)
  /\ od_request_id stored = Some request_id /\ od_route stored = Some route_id
  /\ od_outcome stored = Some (default "selected"%string (selection_reason selection)).
Proof.
  simpl. split_and!; try done. induction (se_candidates selection); simpl; constructor; [apply candidates_agree|done].
Qed.

(** A score that needs more than 32 bits changes its sign on the way through the store. *)
Example stored_score_wraps :
  score_as_integer (f64_of_N 3000000000) = 3000000000%Z
  /\ oc_score (of_stored_candidate (MkDecisionCandidate "p" None 3000000000 true None)) = Some (f64_of_i32 (-1294967296)).
Proof. split; vm_compute; reflexivity. Qed.

(** Halves round away from zero. *)
Example score_rounds :
  score_as_integer (f64_div (f64_of_N 5) (f64_of_N 2)) = 3%Z
  /\ score_as_integer (SFopp (f64_div (f64_of_N 5) (f64_of_N 2))) = (-3)%Z.
Proof. split; vm_compute; reflexivity. Qed.
