(* ===== verification/Management.v ===== *)
(** The control-plane state of the management API without a persistent store
    (crates/pooler-server/src/management_state.rs, the branches where [sqlite] is [None],
    and the control-plane records of crates/pooler-store/src/lib.rs): browser sessions,
    configuration drafts, audit and reload histories, and OAuth flows.  A cookie and an
    OAuth state are kept as their SHA-256 digest ([Digest]). *)
From stdpp Require Import pretty.
From S2P Require Import Prelude Str Bytes Store.

Open Scope N_scope.

Definition MAX_EPHEMERAL_SESSIONS : N := 1024.
Definition MAX_EPHEMERAL_DRAFTS : N := 1024.
Definition MAX_EPHEMERAL_AUDIT : N := 16384.
Definition MAX_EPHEMERAL_RELOADS : N := 4096.
Definition MAX_EPHEMERAL_OAUTH : N := 1024.

(** * Records *)

Record ManagementSessionRecord := MkSession {
  ss_session_id : string; ss_actor_id : string; ss_revision : N; ss_created_at : N; ss_expires_at : N;
  ss_revoked_at : option N }.
Definition session_new (session_id actor_id : string) (created_at expires_at : N) : ManagementSessionRecord :=
  MkSession session_id actor_id 0 created_at expires_at None.
Definition session_active_at (s : ManagementSessionRecord) (now : N) : bool :=
  is_none (ss_revoked_at s) && (now <? ss_expires_at s).

Record DraftRecord := MkDraft {
  dt_draft_id : N; dt_owner_id : string; dt_kind : string; dt_etag : string; dt_base_generation : N; dt_revision : N;
  dt_payload : bytes; dt_created_at : N; dt_updated_at : N; dt_expires_at : N }.
Definition draft_new (owner_id kind : string) (base_generation : N) (payload : bytes) (created_at expires_at : N) : DraftRecord :=
  MkDraft 0 owner_id kind "" base_generation 0 payload created_at created_at expires_at.
Definition draft_active_at (d : DraftRecord) (now : N) : bool := now <? dt_expires_at d.

Record AuditRecord := MkAudit {
  au_id : N; au_owner_id : option string; au_action : string; au_resource : string; au_outcome : string;
  au_generation : N; au_error_code : option string; au_recorded_at : N }.
Definition audit_new (owner_id : option string) (action resource outcome : string) (generation recorded_at : N) : AuditRecord :=
  MkAudit 0 owner_id action resource outcome generation None recorded_at.
Definition with_audit_id (id : N) (a : AuditRecord) : AuditRecord :=
  MkAudit id (au_owner_id a) (au_action a) (au_resource a) (au_outcome a) (au_generation a) (au_error_code a) (au_recorded_at a).

Record ReloadRecord := MkReload {
  rl_id : N; rl_owner_id : option string; rl_kind : string; rl_generation : N; rl_completed_generation : option N;
  rl_status : string; rl_etag : option string; rl_error_code : option string; rl_started_at : N;
  rl_completed_at : option N; rl_revision : N }.

Definition reload_new (owner_id : option string) (generation : N) (status : string) (started_at : N) : ReloadRecord :=
  MkReload 0 owner_id "configuration" generation None status None None started_at None 0.
Definition with_kind (kind : string) (r : ReloadRecord) : ReloadRecord :=
  MkReload (rl_id r) (rl_owner_id r) kind (rl_generation r) (rl_completed_generation r) (rl_status r) (rl_etag r)
    (rl_error_code r) (rl_started_at r) (rl_completed_at r) (rl_revision r).

Inductive OAuthFlowStatus := OfPending | OfCompleted | OfFailed | OfCancelled.
#[export] Instance OAuthFlowStatus_eq_dec : EqDecision OAuthFlowStatus. Proof. solve_decision. Defined.
Definition oauth_status_str (s : OAuthFlowStatus) : string :=
  match s with
  | OfPending => "pending" | OfCompleted => "completed" | OfFailed => "failed" | OfCancelled => "cancelled"
  end.
Definition oauth_status_parse (value : string) : Result OAuthFlowStatus () :=
  if String.eqb value "pending" then Ok OfPending
  else if String.eqb value "completed" then Ok OfCompleted
  else if String.eqb value "failed" then Ok OfFailed
  else if String.eqb value "cancelled" then Ok OfCancelled
  else Err ().
Definition oauth_status_active (s : OAuthFlowStatus) : bool := match s with OfPending => true | _ => false end.

Record OAuthFlowRecord := MkFlow {
  of_flow_id : string; of_owner_id : string; of_provider_id : string; of_account_id : string; of_flow_kind : string;
  of_status : OAuthFlowStatus; of_revision : N; of_created_at : N; of_expires_at : N; of_state_consumed_at : option N;
  of_completed_at : option N; of_error_code : option string }.
Definition flow_new (flow_id owner_id provider_id account_id flow_kind : string) (created_at expires_at : N) : OAuthFlowRecord :=
  MkFlow flow_id owner_id provider_id account_id flow_kind OfPending 0 created_at expires_at None None None.
Definition flow_active_at (f : OAuthFlowRecord) (now : N) : bool := oauth_status_active (of_status f) && (now <? of_expires_at f).

(** * State *)

Record EphemeralOAuth := MkEphemeralOAuth { eo_record : OAuthFlowRecord; eo_state_hash : bytes; eo_pkce : option bytes }.

Record EphemeralState := MkEphemeral {
  es_sessions : gmap string (ManagementSessionRecord * bytes);
  es_drafts : gmap N DraftRecord;
  es_audit : list AuditRecord;
  es_reloads : list ReloadRecord;
  es_oauth : gmap string EphemeralOAuth;
}.
Definition ephemeral_default : EphemeralState := MkEphemeral ∅ ∅ [] [] ∅.
Definition with_sessions m s := MkEphemeral m (es_drafts s) (es_audit s) (es_reloads s) (es_oauth s).
Definition with_drafts m s := MkEphemeral (es_sessions s) m (es_audit s) (es_reloads s) (es_oauth s).
Definition with_audit l s := MkEphemeral (es_sessions s) (es_drafts s) l (es_reloads s) (es_oauth s).
Definition with_reloads l s := MkEphemeral (es_sessions s) (es_drafts s) (es_audit s) l (es_oauth s).
Definition with_oauth m s := MkEphemeral (es_sessions s) (es_drafts s) (es_audit s) (es_reloads s) m.

Definition sat_succ (n : N) : N := sat_add U64_MAX n 1.

(** [map.values().find(p)] of a [BTreeMap]. *)
Definition find_value {V} (p : V -> bool) (m : gmap string V) : option (string * V) :=
  List.find (fun kv => p kv.2) (btree_list String.compare m).

Section management.
Context `{Digest}.

(** ** Sessions *)

Definition create_session (record : ManagementSessionRecord) (cookie_secret : bytes) (s : EphemeralState)
  : StoreResult ManagementSessionRecord * EphemeralState :=
  let cookie_hash := sha256 cookie_secret in
  let sessions := retain (fun _ e => session_active_at e.1 (ss_created_at record)) (es_sessions s) in
  let s := with_sessions sessions s in
  if MAX_EPHEMERAL_SESSIONS <=? N.of_nat (size sessions) then (Err ManagementCapacity, s)
  else if map_any (fun _ e => beq (ss_session_id e.1) (ss_session_id record) || beq e.2 cookie_hash) sessions
  then (Err ManagementSessionAlreadyExists, s)
  else
    let created := MkSession (ss_session_id record) (ss_actor_id record) 1 (ss_created_at record) (ss_expires_at record)
                     (ss_revoked_at record) in
    (Ok created, with_sessions (<[ss_session_id created := (created, cookie_hash)]> sessions) s).

Definition session_by_cookie (cookie_secret : bytes) (now : N) (s : EphemeralState) : StoreResult (option ManagementSessionRecord) :=
  let hash := sha256 cookie_secret in
  Ok ((fun kv => kv.2.1) <$> find_value (fun e => session_active_at e.1 now && beq e.2 hash) (es_sessions s)).

Definition revoke_session (session_id : string) (expected_revision revoked_at : N) (s : EphemeralState)
  : StoreResult ManagementSessionRecord * EphemeralState :=
  match es_sessions s !! session_id with
  | None => (Err OwnerMismatch, s)
  | Some (session, hash) =>
    if negb (ss_revision session =? expected_revision) then (Err ManagementRevisionConflict, s)
    else
      let session := MkSession (ss_session_id session) (ss_actor_id session) (sat_succ (ss_revision session))
                       (ss_created_at session) (ss_expires_at session) (Some revoked_at) in
      (Ok session, with_sessions (<[session_id := (session, hash)]> (es_sessions s)) s)
  end.

(** ** Drafts *)

Definition draft_etag (id : N) (payload : bytes) : string := "ephemeral-" +:+ pretty id +:+ "-" +:+ pretty (blen payload).
Definition next_draft_id (drafts : gmap N DraftRecord) : N :=
  sat_succ (default 0 (last (btree_keys N.compare drafts))).

Definition create_draft (draft : DraftRecord) (s : EphemeralState) : StoreResult DraftRecord * EphemeralState :=
  if MAX_EPHEMERAL_DRAFTS <=? N.of_nat (size (es_drafts s)) then (Err ManagementCapacity, s)
  else
    let id := next_draft_id (es_drafts s) in
    let draft := MkDraft id (dt_owner_id draft) (dt_kind draft) (draft_etag id (dt_payload draft)) (dt_base_generation draft) 1
                   (dt_payload draft) (dt_created_at draft) (dt_updated_at draft) (dt_expires_at draft) in
    (Ok draft, with_drafts (<[id := draft]> (es_drafts s)) s).

Definition update_draft (draft_id : N) (owner_id : string) (expected_revision : N) (expected_etag : string) (payload : bytes)
    (updated_at : N) (s : EphemeralState) : StoreResult DraftRecord * EphemeralState :=
  match es_drafts s !! draft_id with
  | None => (Err RecordExpired, s)
  | Some current =>
    if negb (String.eqb (dt_owner_id current) owner_id) then (Err OwnerMismatch, s)
    else if negb (dt_revision current =? expected_revision) || negb (String.eqb (dt_etag current) expected_etag)
    then (Err ManagementRevisionConflict, s)
    else if negb (draft_active_at current updated_at) then (Err RecordExpired, s)
    else
      let next := MkDraft (dt_draft_id current) (dt_owner_id current) (dt_kind current) (draft_etag draft_id payload)
                    (dt_base_generation current) (sat_succ (dt_revision current)) payload (dt_created_at current) updated_at
                    (dt_expires_at current) in
      (Ok next, with_drafts (<[draft_id := next]> (es_drafts s)) s)
  end.

Definition draft (draft_id : N) (owner_id : string) (now : N) (s : EphemeralState) : StoreResult (option DraftRecord) :=
  match es_drafts s !! draft_id with
  | Some d =>
    if negb (String.eqb (dt_owner_id d) owner_id) then Err OwnerMismatch
    else if negb (draft_active_at d now) then Err RecordExpired else Ok (Some d)
  | None => Ok None
  end.

Definition remove_draft (draft_id : N) (owner_id : string) (s : EphemeralState) : StoreResult bool * EphemeralState :=
  match es_drafts s !! draft_id with
  | Some d =>
    if negb (String.eqb (dt_owner_id d) owner_id) then (Err OwnerMismatch, s)
    else (Ok true, with_drafts (delete draft_id (es_drafts s)) s)
  | None => (Ok false, s)
  end.

(** ** Histories *)

(** [while deque.len() > max { deque.pop_front(); }]. *)
Definition keep_newest {A} (max : N) (l : list A) : list A := drop (length l - N.to_nat max) l.

Definition append_audit (record : AuditRecord) (s : EphemeralState) : StoreResult AuditRecord * EphemeralState :=
  let record := with_audit_id (sat_succ (default 0 (au_id <$> last (es_audit s)))) record in
  (Ok record, with_audit (keep_newest MAX_EPHEMERAL_AUDIT (es_audit s ++ [record])) s).
Definition audit (s : EphemeralState) : StoreResult (list AuditRecord) := Ok (es_audit s).

Definition append_reload (r : ReloadRecord) (s : EphemeralState) : StoreResult ReloadRecord * EphemeralState :=
  let r := MkReload (sat_succ (default 0 (rl_id <$> last (es_reloads s)))) (rl_owner_id r) (rl_kind r) (rl_generation r)
             (rl_completed_generation r) (rl_status r) (rl_etag r) (rl_error_code r) (rl_started_at r) (rl_completed_at r) 1 in
  (Ok r, with_reloads (keep_newest MAX_EPHEMERAL_RELOADS (es_reloads s ++ [r])) s).

Definition complete_reload (status : string) (error_code : option string) (completed_at completed_generation : option N)
    (r : ReloadRecord) : ReloadRecord :=
  MkReload (rl_id r) (rl_owner_id r) (rl_kind r) (rl_generation r) completed_generation status (rl_etag r) error_code
    (rl_started_at r) completed_at (sat_succ (rl_revision r)).
Definition update_reload (record_id expected_revision : N) (status : string) (error_code : option string)
    (completed_at completed_generation : option N) (s : EphemeralState) : StoreResult ReloadRecord * EphemeralState :=
  match list_find (fun r => rl_id r = record_id) (es_reloads s) with
  | None => (Err ManagementRevisionConflict, s)
  | Some (i, current) =>
    if negb (rl_revision current =? expected_revision) then (Err ManagementRevisionConflict, s)
    else
      let current := complete_reload status error_code completed_at completed_generation current in
      (Ok current, with_reloads (<[i := current]> (es_reloads s)) s)
  end.
Definition reloads (s : EphemeralState) : StoreResult (list ReloadRecord) := Ok (es_reloads s).

(** ** OAuth flows *)

Definition begin_oauth (record : OAuthFlowRecord) (state_value : bytes) (pkce : option bytes) (s : EphemeralState)
  : StoreResult OAuthFlowRecord * EphemeralState :=
  let hash := sha256 state_value in
  if (MAX_EPHEMERAL_OAUTH <=? N.of_nat (size (es_oauth s)))
     || map_any (fun _ f => beq (of_status (eo_record f)) OfPending
                            && beq (of_provider_id (eo_record f)) (of_provider_id record)
                            && beq (of_account_id (eo_record f)) (of_account_id record)) (es_oauth s)
     || map_any (fun _ f => beq (eo_state_hash f) hash) (es_oauth s)
  then (Err OAuthFlowAlreadyExists, s)
  else
    let record := MkFlow (of_flow_id record) (of_owner_id record) (of_provider_id record) (of_account_id record)
                    (of_flow_kind record) (of_status record) 1 (of_created_at record) (of_expires_at record)
                    (of_state_consumed_at record) (of_completed_at record) (of_error_code record) in
    (Ok record, with_oauth (<[of_flow_id record := MkEphemeralOAuth record hash pkce]> (es_oauth s)) s).

(** The flow a state value opens: not consumed, pending and not expired. *)
Definition opens (hash : bytes) (now : N) (f : EphemeralOAuth) : bool :=
  beq (eo_state_hash f) hash && is_none (of_state_consumed_at (eo_record f)) && flow_active_at (eo_record f) now.
Definition consume_record (now : N) (f : OAuthFlowRecord) : OAuthFlowRecord :=
  MkFlow (of_flow_id f) (of_owner_id f) (of_provider_id f) (of_account_id f) (of_flow_kind f) (of_status f)
    (sat_succ (of_revision f)) (of_created_at f) (of_expires_at f) (Some now) (of_completed_at f) (of_error_code f).
Definition consume_oauth (state_value : bytes) (now : N) (s : EphemeralState)
  : StoreResult (option OAuthFlowRecord) * EphemeralState :=
  match find_value (opens (sha256 state_value) now) (es_oauth s) with
  | None => (Ok None, s)
  | Some (id, f) =>
    let record := consume_record now (eo_record f) in
    (Ok (Some record), with_oauth (<[id := MkEphemeralOAuth record (eo_state_hash f) (eo_pkce f)]> (es_oauth s)) s)
  end.
Definition oauth_by_state (state_value : bytes) (now : N) (s : EphemeralState) : StoreResult (option OAuthFlowRecord) :=
  Ok ((fun kv => eo_record kv.2) <$> find_value (opens (sha256 state_value) now) (es_oauth s)).
Definition oauth_pkce (flow_id : string) (s : EphemeralState) : StoreResult (option bytes) :=
  Ok (es_oauth s !! flow_id ≫= eo_pkce).

Definition update_flow (status : OAuthFlowStatus) (error_code : option string) (completed_at : option N) (f : OAuthFlowRecord)
  : OAuthFlowRecord :=
  MkFlow (of_flow_id f) (of_owner_id f) (of_provider_id f) (of_account_id f) (of_flow_kind f) status
    (sat_succ (of_revision f)) (of_created_at f) (of_expires_at f) (of_state_consumed_at f) completed_at error_code.
Definition update_oauth (flow_id owner_id : string) (expected_revision : N) (status : OAuthFlowStatus) (error_code : option string)
    (completed_at : option N) (s : EphemeralState) : StoreResult OAuthFlowRecord * EphemeralState :=
  match es_oauth s !! flow_id with
  | None => (Err OAuthFlowNotFound, s)
  | Some f =>
    if negb (String.eqb (of_owner_id (eo_record f)) owner_id) then (Err OwnerMismatch, s)
    else if negb (of_revision (eo_record f) =? expected_revision) then (Err ManagementRevisionConflict, s)
    else
      let record := update_flow status error_code completed_at (eo_record f) in
      (Ok record, with_oauth (<[flow_id := MkEphemeralOAuth record (eo_state_hash f) (eo_pkce f)]> (es_oauth s)) s)
  end.
Definition oauth (flow_id : string) (s : EphemeralState) : StoreResult (option OAuthFlowRecord) :=
  Ok (eo_record <$> es_oauth s !! flow_id).
Definition oauth_for_owner (owner_id : string) (s : EphemeralState) : StoreResult (list OAuthFlowRecord) :=
  Ok (List.filter (fun r => String.eqb (of_owner_id r) owner_id) (map eo_record (btree_values String.compare (es_oauth s)))).
End management.

(** * The control-plane state in every history of its operations: the tables are bounded and
      keyed by what they hold, no two sessions share a cookie and no two flows a state, an
      OAuth state is consumed at most once, and a revoked session stays revoked. *)

Section facts.
Context `{Digest}.

(** * Histories *)

Inductive Op :=
| OpCreateSession (record : ManagementSessionRecord) (cookie : bytes)
| OpRevokeSession (session_id : string) (expected_revision revoked_at : N)
| OpCreateDraft (record : Management.DraftRecord)
| OpUpdateDraft (id : N) (owner : string) (revision : N) (etag : string) (payload : bytes) (updated_at : N)
| OpRemoveDraft (id : N) (owner : string)
| OpAppendAudit (record : AuditRecord)
| OpAppendReload (record : ReloadRecord)
| OpUpdateReload (id revision : N) (status : string) (error : option string) (completed_at generation : option N)
| OpBeginOAuth (record : OAuthFlowRecord) (state_value : bytes) (pkce : option bytes)
| OpConsumeOAuth (state_value : bytes) (now : N)
| OpUpdateOAuth (flow_id owner : string) (revision : N) (status : OAuthFlowStatus) (error : option string)
    (completed_at : option N).

Definition apply_op (op : Op) (s : EphemeralState) : EphemeralState :=
  match op with
  | OpCreateSession r c => (create_session r c s).2
  | OpRevokeSession id e t => (revoke_session id e t s).2
  | OpCreateDraft d => (create_draft d s).2
  | OpUpdateDraft id o r e p t => (update_draft id o r e p t s).2
  | OpRemoveDraft id o => (remove_draft id o s).2
  | OpAppendAudit r => (append_audit r s).2
  | OpAppendReload r => (append_reload r s).2
  | OpUpdateReload id r st e c g => (update_reload id r st e c g s).2
  | OpBeginOAuth r v p => (begin_oauth r v p s).2
  | OpConsumeOAuth v now => (consume_oauth v now s).2
  | OpUpdateOAuth id o r st e c => (update_oauth id o r st e c s).2
  end.
Definition run (ops : list Op) (s : EphemeralState) : EphemeralState := foldl (fun s op => apply_op op s) s ops.

(** * Searches *)

Lemma find_value_Some {V} (p : V -> bool) (m : gmap string V) k v :
  find_value p m = Some (k, v) -> m !! k = Some v /\ p v = true.
Proof.
  unfold find_value. intros [Hin Hp]%find_some. split; [|done]. by apply (elem_of_btree_list String.compare), list_elem_of_In.
Qed.

Lemma find_value_None {V} (p : V -> bool) (m : gmap string V) k v :
  find_value p m = None -> m !! k = Some v -> p v = false.
Proof.
  unfold find_value. intros Hn Hk. apply (find_none _ _ Hn (k, v)). by apply list_elem_of_In, elem_of_btree_list.
Qed.

(** * The invariant *)

Record state_ok (s : EphemeralState) : Prop := {
  ok_sessions : N.of_nat (size (es_sessions s)) <= MAX_EPHEMERAL_SESSIONS;
  ok_drafts : N.of_nat (size (es_drafts s)) <= MAX_EPHEMERAL_DRAFTS;
  ok_audit : N.of_nat (length (es_audit s)) <= MAX_EPHEMERAL_AUDIT;
  ok_reloads : N.of_nat (length (es_reloads s)) <= MAX_EPHEMERAL_RELOADS;
  ok_oauth : N.of_nat (size (es_oauth s)) <= MAX_EPHEMERAL_OAUTH;
  ok_session_keys : map_Forall (fun k e => ss_session_id e.1 = k) (es_sessions s);
  ok_draft_keys : map_Forall (fun k d => dt_draft_id d = k) (es_drafts s);
  ok_flow_keys : map_Forall (fun k f => of_flow_id (eo_record f) = k) (es_oauth s);
  ok_cookies : forall k k' e e', es_sessions s !! k = Some e -> es_sessions s !! k' = Some e' -> e.2 = e'.2 -> k = k';
  ok_states : forall k k' f f', es_oauth s !! k = Some f -> es_oauth s !! k' = Some f' ->
    eo_state_hash f = eo_state_hash f' -> k = k';
}.

Lemma state_ok_default : state_ok ephemeral_default.
Proof. split; try done; simpl; intros; by rewrite lookup_empty in *. Qed.

Lemma keep_newest_length {A} max (l : list A) : N.of_nat (length (keep_newest max l)) <= max.
Proof. unfold keep_newest. rewrite length_drop. lia. Qed.

(** A table that is updated in place or grows below its limit stays within it. *)
Lemma size_insert_le {K V} `{Countable K} (m : gmap K V) k v max :
  N.of_nat (size m) < max \/ (is_Some (m !! k) /\ N.of_nat (size m) <= max) -> N.of_nat (size (<[k := v]> m)) <= max.
Proof. rewrite map_size_insert. intros [Hs|[[v' ->] Hs]]; simpl; [|done]. destruct (m !! k); simpl; lia. Qed.

(** A value that replaces another under its key, or is new, keeps a field unique. *)
Lemma unique_insert {K V F} `{Countable K} (f : V -> F) (m : gmap K V) k v :
  (forall i j x y, m !! i = Some x -> m !! j = Some y -> f x = f y -> i = j) ->
  (forall i x, i <> k -> m !! i = Some x -> f x <> f v) ->
  forall i j x y, <[k := v]> m !! i = Some x -> <[k := v]> m !! j = Some y -> f x = f y -> i = j.
Proof.
  intros Hm Hv i j x y. rewrite !lookup_insert. repeat case_decide; subst; intros; simplify_eq; try done.
  - by destruct (Hv j y).
  - by destruct (Hv i x).
  - by eapply Hm.
Qed.

Lemma ok_with_sessions s m :
  state_ok s -> N.of_nat (size m) <= MAX_EPHEMERAL_SESSIONS -> map_Forall (fun k e => ss_session_id e.1 = k) m ->
  (forall k k' e e', m !! k = Some e -> m !! k' = Some e' -> e.2 = e'.2 -> k = k') -> state_ok (with_sessions m s).
Proof. intros []. by split. Qed.
Lemma ok_with_drafts s m :
  state_ok s -> N.of_nat (size m) <= MAX_EPHEMERAL_DRAFTS -> map_Forall (fun k d => dt_draft_id d = k) m ->
  state_ok (with_drafts m s).
Proof. intros []. by split. Qed.
Lemma ok_with_oauth s m :
  state_ok s -> N.of_nat (size m) <= MAX_EPHEMERAL_OAUTH -> map_Forall (fun k f => of_flow_id (eo_record f) = k) m ->
  (forall k k' f f', m !! k = Some f -> m !! k' = Some f' -> eo_state_hash f = eo_state_hash f' -> k = k') ->
  state_ok (with_oauth m s).
Proof. intros []. by split. Qed.

Lemma retain_ok p s : state_ok s -> state_ok (with_sessions (retain p (es_sessions s)) s).
Proof.
  intros Hok. apply ok_with_sessions; [done|..].
  - pose proof (size_retain p (es_sessions s)). pose proof (ok_sessions s Hok). lia.
  - intros k e [He _]%lookup_retain_Some. by apply (ok_session_keys s Hok).
  - intros k k' e e' [He _]%lookup_retain_Some [He' _]%lookup_retain_Some. by apply (ok_cookies s Hok).
Qed.

Lemma create_session_ok r c s : state_ok s -> state_ok (create_session r c s).2.
Proof.
  intros Hok%(retain_ok (fun _ e => session_active_at e.1 (ss_created_at r))). unfold create_session. revert Hok.
  generalize (retain (fun _ e => session_active_at e.1 (ss_created_at r)) (es_sessions s)) as m. intros m Hok.
  destruct (N.leb_spec MAX_EPHEMERAL_SESSIONS (N.of_nat (size m))) as [|Hs]; [done|].
  destruct (map_any _ m) eqn:Ea; [done|]. rewrite map_any_false in Ea. simpl.
  apply (ok_with_sessions (with_sessions m s)); [done|..].
  - apply size_insert_le. by left.
  - apply map_Forall_insert_2; [done|]. apply (ok_session_keys _ Hok).
  - apply (unique_insert snd); [apply (ok_cookies _ Hok)|]. intros i x _ Hx Heq. specialize (Ea i x Hx).
    apply orb_false_iff in Ea as [_ Ea]. apply bool_decide_eq_false in Ea. done.
Qed.

Lemma revoke_session_ok id e t s : state_ok s -> state_ok (revoke_session id e t s).2.
Proof.
  intros Hok. unfold revoke_session. destruct (es_sessions s !! id) as [[r h]|] eqn:E; [|done].
  case_match; [done|]. simpl. apply ok_with_sessions; [done|..].
  - apply size_insert_le. right. split; [by rewrite E|apply (ok_sessions s Hok)].
  - apply map_Forall_insert_2; [apply (ok_session_keys s Hok _ _ E)|apply (ok_session_keys s Hok)].
  - apply (unique_insert snd); [apply (ok_cookies s Hok)|]. intros i x Hi Hx Heq.
    destruct Hi. by apply (ok_cookies s Hok i id x (r, h)).
Qed.

Lemma drafts_ok s :
  state_ok s ->
  (forall d, state_ok (create_draft d s).2) /\ (forall id o r e p t, state_ok (update_draft id o r e p t s).2)
  /\ (forall id o, state_ok (remove_draft id o s).2).
Proof.
  intros Hok. split_and!.
  - intros d. unfold create_draft. destruct (N.leb_spec MAX_EPHEMERAL_DRAFTS (N.of_nat (size (es_drafts s)))); [done|]. simpl.
    apply ok_with_drafts; [done|apply size_insert_le; by left|].
    apply map_Forall_insert_2; [done|apply (ok_draft_keys s Hok)].
  - intros id o r e p t. unfold update_draft. destruct (es_drafts s !! id) as [d|] eqn:E; [|done].
    repeat (case_match; [done|]). simpl. apply ok_with_drafts; [done|..].
    + apply size_insert_le. right. split; [by rewrite E|apply (ok_drafts s Hok)].
    + apply map_Forall_insert_2; [apply (ok_draft_keys s Hok _ _ E)|apply (ok_draft_keys s Hok)].
  - intros id o. unfold remove_draft. destruct (es_drafts s !! id) as [d|] eqn:E; [|done]. case_match; [done|]. simpl.
    apply ok_with_drafts; [done|..].
    + rewrite map_size_delete, E. simpl. pose proof (ok_drafts s Hok). lia.
    + apply map_Forall_delete, (ok_draft_keys s Hok).
Qed.

Lemma histories_ok s :
  state_ok s ->
  (forall r, state_ok (append_audit r s).2) /\ (forall r, state_ok (append_reload r s).2)
  /\ (forall id r st e c g, state_ok (update_reload id r st e c g s).2).
Proof.
  intros Hok. split_and!; intros.
  - destruct Hok. split; try done. apply keep_newest_length.
  - destruct Hok. split; try done. apply keep_newest_length.
  - unfold update_reload. destruct (list_find _ _) as [[i c']|]; [|done]. case_match; [done|].
    destruct Hok. split; try done. simpl. by rewrite length_insert.
Qed.

(** A flow that is replaced by one with its key and state. *)
Lemma replace_flow_ok id f r s :
  state_ok s -> es_oauth s !! id = Some f -> of_flow_id r = of_flow_id (eo_record f) ->
  state_ok (with_oauth (<[id := MkEphemeralOAuth r (eo_state_hash f) (eo_pkce f)]> (es_oauth s)) s).
Proof.
  intros Hok E Hr. apply ok_with_oauth; [done|..].
  - apply size_insert_le. right. split; [by rewrite E|apply (ok_oauth s Hok)].
  - apply map_Forall_insert_2; [simpl; rewrite Hr; apply (ok_flow_keys s Hok _ _ E)|apply (ok_flow_keys s Hok)].
  - apply (unique_insert eo_state_hash); [apply (ok_states s Hok)|]. intros i x Hi Hx Heq.
    destruct Hi. by apply (ok_states s Hok i id x f).
Qed.

Lemma begin_oauth_ok r v p s : state_ok s -> state_ok (begin_oauth r v p s).2.
Proof.
  intros Hok. unfold begin_oauth.
  case_match eqn:E; [done|]. apply orb_false_iff in E as [[E0%N.leb_gt _]%orb_false_iff E2]. simpl.
  rewrite map_any_false in E2. apply ok_with_oauth; [done|..].
  - apply size_insert_le. by left.
  - apply map_Forall_insert_2; [done|apply (ok_flow_keys s Hok)].
  - apply (unique_insert eo_state_hash); [apply (ok_states s Hok)|]. intros i x _ Hx Heq.
    specialize (E2 i x Hx). by apply bool_decide_eq_false in E2.
Qed.

Lemma apply_op_ok op s : state_ok s -> state_ok (apply_op op s).
Proof.
  intros Hok. pose proof (drafts_ok s Hok) as (Hd1 & Hd2 & Hd3). pose proof (histories_ok s Hok) as (Hh1 & Hh2 & Hh3).
  destruct op; cbn [apply_op]; auto using create_session_ok, revoke_session_ok, begin_oauth_ok.
  - unfold consume_oauth. destruct (find_value _ _) as [[id f]|] eqn:E; [|done].
    apply find_value_Some in E as [E _]. by apply replace_flow_ok.
  - unfold update_oauth. destruct (es_oauth s !! flow_id) as [f|] eqn:E; [|done]. repeat (case_match; [done|]).
    by apply replace_flow_ok.
Qed.

Lemma run_ok ops s : state_ok s -> state_ok (run ops s).
Proof. revert s. induction ops as [|op ops IH]; intros s Hok; [done|]. by apply IH, apply_op_ok. Qed.

(** In every history of the control plane each table stays within its limit and is
    keyed by the identifier of what it holds, no two sessions have the digest of the same
    cookie, and no two OAuth flows that of the same state. *)
Theorem management_tables_ok ops : state_ok (run ops ephemeral_default).
Proof. apply run_ok, state_ok_default. Qed.

(** * OAuth states *)

Definition is_consumed (r : StoreResult (option OAuthFlowRecord)) : bool := match r with Ok (Some _) => true | _ => false end.

(** How often a state with the digest is consumed along a history. *)
Fixpoint consumptions (h : bytes) (ops : list Op) (s : EphemeralState) : N :=
  match ops with
  | [] => 0
  | op :: ops =>
    match op with
    | OpConsumeOAuth v now => if beq (sha256 v) h && is_consumed (consume_oauth v now s).1 then 1 else 0
    | _ => 0
    end + consumptions h ops (apply_op op s)
  end.

(** Every flow begins under an identifier of its own. *)
Fixpoint fresh_flows (ops : list Op) (s : EphemeralState) : Prop :=
  match ops with
  | [] => True
  | op :: ops =>
    match op with OpBeginOAuth r _ _ => es_oauth s !! of_flow_id r = None | _ => True end /\ fresh_flows ops (apply_op op s)
  end.

Definition spent (h : bytes) (s : EphemeralState) : Prop :=
  exists id f, es_oauth s !! id = Some f /\ eo_state_hash f = h /\ is_some (of_state_consumed_at (eo_record f)) = true.

Lemma consume_oauth_Some v now s r :
  (consume_oauth v now s).1 = Ok (Some r) ->
  exists id f, es_oauth s !! id = Some f /\ opens (sha256 v) now f = true /\ r = consume_record now (eo_record f)
    /\ es_oauth (consume_oauth v now s).2 = <[id := MkEphemeralOAuth r (eo_state_hash f) (eo_pkce f)]> (es_oauth s).
Proof.
  unfold consume_oauth. destruct (find_value _ _) as [[id f]|] eqn:E; simpl; [|done]. intros [= <-].
  apply find_value_Some in E as [E Ho]. eauto 7.
Qed.

Lemma opens_spec h now f :
  opens h now f = true <-> eo_state_hash f = h /\ of_state_consumed_at (eo_record f) = None
    /\ of_status (eo_record f) = OfPending /\ now < of_expires_at (eo_record f).
Proof.
  unfold opens, flow_active_at, is_none. rewrite !andb_true_iff, bool_decide_eq_true, N.ltb_lt.
  destruct (of_state_consumed_at (eo_record f)), (of_status (eo_record f)); simpl; intuition congruence.
Qed.

Lemma spent_no_consume h v now s : state_ok s -> spent h s -> sha256 v = h -> (consume_oauth v now s).1 = Ok None.
Proof.
  intros Hok (id & f & Hf & Hh & Hc) Hv. unfold consume_oauth. destruct (find_value _ _) as [[id' f']|] eqn:E; [|done].
  apply find_value_Some in E as [E (Hh' & Hc' & _)%opens_spec].
  assert (id' = id) as -> by (apply (ok_states s Hok _ _ _ _ E Hf); congruence). simplify_eq. by rewrite Hc' in Hc.
Qed.

(** A spent state stays spent. *)
Lemma spent_insert h id f f' s :
  es_oauth s !! id = Some f -> eo_state_hash f' = eo_state_hash f ->
  (is_some (of_state_consumed_at (eo_record f)) = true -> is_some (of_state_consumed_at (eo_record f')) = true) ->
  spent h s -> spent h (with_oauth (<[id := f']> (es_oauth s)) s).
Proof.
  intros E Hh Hc (id' & g & Hg & Hgh & Hgc). destruct (decide (id' = id)) as [->|Hne].
  - simplify_eq. exists id, f'. simpl. rewrite lookup_insert_eq. auto.
  - exists id', g. simpl. by rewrite lookup_insert_ne.
Qed.

Lemma oauth_frame op s :
  match op with
  | OpBeginOAuth _ _ _ | OpConsumeOAuth _ _ | OpUpdateOAuth _ _ _ _ _ _ => True
  | _ => es_oauth (apply_op op s) = es_oauth s
  end.
Proof.
  destruct op; try done; cbn [apply_op];
    unfold create_session, revoke_session, create_draft, update_draft, remove_draft, update_reload; repeat case_match; done.
Qed.

Lemma spent_step h op s :
  match op with OpBeginOAuth r _ _ => es_oauth s !! of_flow_id r = None | _ => True end -> spent h s -> spent h (apply_op op s).
Proof.
  intros Hfresh Hs. pose proof (oauth_frame op s) as Hfr.
  destruct op; try (unfold spent in *; by rewrite Hfr); cbn [apply_op].
  - unfold begin_oauth. case_match; [done|]. destruct Hs as (id & f & Hf & Hh & Hc). exists id, f. simpl.
    rewrite lookup_insert_ne; [done|]. intros He. simpl in He. rewrite He in Hfresh. congruence.
  - unfold consume_oauth. destruct (find_value _ _) as [[id f]|] eqn:E; [|done]. apply find_value_Some in E as [E _].
    by apply (spent_insert h id f).
  - unfold update_oauth. destruct (es_oauth s !! flow_id) as [f|] eqn:E; [|done]. repeat (case_match; [done|]).
    by apply (spent_insert h flow_id f).
Qed.

Lemma spent_consumptions h ops : forall s, state_ok s -> fresh_flows ops s -> spent h s -> consumptions h ops s = 0.
Proof.
  induction ops as [|op ops IH]; intros s Hok Hf Hs; [done|]. destruct Hf as [Hop Hf]. cbn [consumptions].
  rewrite IH by eauto using apply_op_ok, spent_step. destruct op; try done.
  destruct (bool_decide_reflect (sha256 state_value = h)) as [Hv|]; [|done].
  by rewrite (spent_no_consume h _ _ s).
Qed.

Lemma consumptions_le h ops : forall s, state_ok s -> fresh_flows ops s -> consumptions h ops s <= 1.
Proof.
  induction ops as [|op ops IH]; intros s Hok Hf; [done|]. destruct Hf as [Hop Hf]. cbn [consumptions].
  specialize (IH (apply_op op s) (apply_op_ok op s Hok) Hf). destruct op; try done.
  destruct (bool_decide_reflect (sha256 state_value = h)) as [Hv|]; [|done]. cbn [andb].
  destruct (is_consumed _) eqn:Ec; [|done]. rewrite spent_consumptions; [done|by apply apply_op_ok|done|].
  cbn [apply_op]. destruct (consume_oauth state_value now s).1 as [[r|]|] eqn:E; try done.
  apply consume_oauth_Some in E as (id & f & Hf' & Ho & -> & Hs). apply opens_spec in Ho as (Hh & _).
  exists id, (MkEphemeralOAuth (consume_record now (eo_record f)) (eo_state_hash f) (eo_pkce f)). rewrite Hs, lookup_insert_eq.
  split_and!; [done|simpl; congruence|done].
Qed.

(** [C40] An OAuth state is used at most once: along any history of the control plane in
    which every flow begins under its own identifier, states of one digest are consumed at
    most once; and what a state opens is a flow begun with it that is pending, not expired
    and not consumed before. *)
Theorem oauth_state_single_use ops h :
  fresh_flows ops ephemeral_default ->
  consumptions h ops ephemeral_default <= 1
  /\ (forall v now s r, (consume_oauth v now s).1 = Ok (Some r) -> exists id f,
        es_oauth s !! id = Some f /\ eo_state_hash f = sha256 v /\ of_state_consumed_at (eo_record f) = None
        /\ of_status (eo_record f) = OfPending /\ now < of_expires_at (eo_record f) /\ r = consume_record now (eo_record f)).
Proof.
  intros Hf. split; [apply consumptions_le; [apply state_ok_default|done]|].
  intros v now s r (id & g & Hg & Ho & -> & _)%consume_oauth_Some. apply opens_spec in Ho as (? & ? & ? & ?).
  exists id, g. split_and!; done.
Qed.

(** * Sessions *)

(** Every session with the digest is revoked. *)
Definition revoked (h : bytes) (s : EphemeralState) : Prop :=
  map_Forall (fun _ e => e.2 = h -> is_some (ss_revoked_at e.1) = true) (es_sessions s).
Definition no_create (h : bytes) (op : Op) : Prop :=
  match op with OpCreateSession _ c => sha256 c <> h | _ => True end.

Lemma sessions_frame op s :
  match op with
  | OpCreateSession _ _ | OpRevokeSession _ _ _ => True
  | _ => es_sessions (apply_op op s) = es_sessions s
  end.
Proof.
  destruct op; try done; cbn [apply_op];
    unfold create_draft, update_draft, remove_draft, update_reload, begin_oauth, consume_oauth, update_oauth; repeat case_match; done.
Qed.

Lemma revoked_step h op s : no_create h op -> revoked h s -> revoked h (apply_op op s).
Proof.
  intros Hn Hr. pose proof (sessions_frame op s) as Hfr. destruct op; try (unfold revoked in *; by rewrite Hfr); cbn [apply_op].
  - unfold create_session.
    assert (Hret : forall p, map_Forall (fun _ e => e.2 = h -> is_some (ss_revoked_at e.1) = true) (retain p (es_sessions s))).
    { intros p k e [He _]%lookup_retain_Some. by apply (Hr k). }
    repeat (case_match; [apply Hret|]). apply map_Forall_insert_2; [done|apply Hret].
  - unfold revoke_session. destruct (es_sessions s !! session_id) as [[r h']|] eqn:E; [|done]. case_match; [done|].
    by apply map_Forall_insert_2.
Qed.

Lemma revoked_run h ops : forall s, Forall (no_create h) ops -> revoked h s -> revoked h (run ops s).
Proof.
  induction ops as [|op ops IH]; intros s Hn Hr; [done|]. apply Forall_cons in Hn as [Hn1 Hn2].
  by apply IH, revoked_step.
Qed.

(** A revoked session stays revoked: after any history, once a session is revoked, its
    cookie authenticates nobody, at any time and after any further operations, unless a
    session is created anew for a cookie with its digest. *)
Theorem revoked_session_final before session_id revision revoked_at r s cookie after now :
  revoke_session session_id revision revoked_at (run before ephemeral_default) = (Ok r, s) ->
  (snd <$> es_sessions s !! session_id) = Some (sha256 cookie) ->
  Forall (no_create (sha256 cookie)) after ->
  session_by_cookie cookie now (run after s) = Ok None.
Proof.
  intros Hrev Hcookie Hafter. pose proof (run_ok before _ state_ok_default) as Hok0. revert Hrev.
  pose proof (revoke_session_ok session_id revision revoked_at _ Hok0) as Hok. unfold revoke_session in *.
  destruct (es_sessions (run before ephemeral_default) !! session_id) as [[x h]|] eqn:E; [|done]. case_match; [done|].
  intros [= <- <-]. simpl in Hcookie, Hok. rewrite lookup_insert_eq in Hcookie. injection Hcookie as ->.
  assert (Hr : revoked (sha256 cookie) (run after (with_sessions (<[session_id := (MkSession (ss_session_id x) (ss_actor_id x)
    (sat_succ (ss_revision x)) (ss_created_at x) (ss_expires_at x) (Some revoked_at), sha256 cookie)]>
    (es_sessions (run before ephemeral_default))) (run before ephemeral_default)))).
  { apply revoked_run; [done|]. intros k e He Hh. destruct (decide (k = session_id)) as [->|Hne].
    - simpl in He. rewrite lookup_insert_eq in He. by injection He as <-.
    - destruct Hne. apply (ok_cookies _ Hok k session_id e _ He (lookup_insert_eq _ _ _) Hh). }
  unfold session_by_cookie. destruct (find_value _ _) as [[k e]|] eqn:Ef; [|done].
  apply find_value_Some in Ef as [Hk Hp]. apply andb_true_iff in Hp as [Hact Hh%bool_decide_eq_true].
  specialize (Hr k e Hk Hh). unfold session_active_at, is_none in Hact. by rewrite Hr in Hact.
Qed.
End facts.

(** * Examples *)

(** Digests that keep their input. *)
#[local] Instance plain_digest : Digest := fun l => l.

Definition login (id state : string) (created : N) : Op :=
  OpBeginOAuth (flow_new id "owner" "provider" "account" "browser" created (created + 100)) (bytes_of state) None.

(** A state that is presented twice. *)
Lemma oauth_state_single_use_witness :
  consumptions (bytes_of "s") [login "f" "s" 1; OpConsumeOAuth (bytes_of "s") 2; OpConsumeOAuth (bytes_of "s") 3]
    ephemeral_default <= 1.
Proof. apply oauth_state_single_use. vm_compute. done. Defined.

(** A session that is revoked and then presented. *)
Lemma revoked_session_final_witness :
  let created := [OpCreateSession (session_new "s" "actor" 10 100) (bytes_of "cookie")] in
  session_by_cookie (bytes_of "cookie") 30 (run [OpRemoveDraft 1 "o"] (revoke_session "s" 1 21 (run created ephemeral_default)).2)
  = Ok None.
Proof.
  simpl. eapply (revoked_session_final [OpCreateSession (session_new "s" "actor" 10 100) (bytes_of "cookie")] "s" 1 21
    _ _ (bytes_of "cookie") [OpRemoveDraft 1 "o"] 30); [reflexivity|vm_compute; reflexivity|by repeat constructor].
Defined.

(** An abandoned login blocks its account: the flow expired at 101, and none can begin at 1000. *)
Example expired_flow_blocks :
  let s := run [login "f" "s" 1] ephemeral_default in
  (begin_oauth (flow_new "g" "owner" "provider" "account" "browser" 1000 1100) (bytes_of "t") None s).1
  = Err OAuthFlowAlreadyExists.
Proof. vm_compute. reflexivity. Qed.

(** A stale editor of a removed draft changes the draft that took over its number. *)
Example draft_number_reused :
  let d payload := draft_new "owner" "config" 1 (bytes_of payload) 1 100 in
  let s := run [OpCreateDraft (d "aaa"); OpRemoveDraft 1 "owner"; OpCreateDraft (d "bbb")] ephemeral_default in
  exists e, (create_draft (d "aaa") ephemeral_default).1 = Ok e
    /\ is_some_and (match (update_draft (dt_draft_id e) "owner" (dt_revision e) (dt_etag e) (bytes_of "ccc") 2 s).1 with
                    | Ok x => Some x | Err _ => None end) (fun x => beq (dt_payload x) (bytes_of "ccc")) = true.
Proof. eexists. split; [reflexivity|vm_compute; reflexivity]. Qed.
