(* ===== verification/Codec.v ===== *)
(** What the codecs of the provider dialects share: computations on a state that fail, and the
    members of JSON values.

    A method on [&mut self] is a computation of the monad [St]: it returns its result and the
    state it leaves, after an error as well.  A [json!] literal is [json_object], the map its
    insertions build. *)
From S2P Require Import Prelude Str Bytes Json.

Open Scope N_scope.

(** * Computations on a state *)

Definition St (S E A : Type) : Type := S -> Result A E * S.
Definition st_ret {S E A} (a : A) : St S E A := fun s => (Ok a, s).
Definition st_lift {S E A} (r : Result A E) : St S E A := fun s => (r, s).
Definition st_get {S E} : St S E S := fun s => (Ok s, s).
Definition st_modify {S E} (f : S -> S) : St S E unit := fun s => (Ok tt, f s).
Definition st_bind {S E A B} (m : St S E A) (k : A -> St S E B) : St S E B :=
  fun s => match m s with (Ok a, s') => k a s' | (Err e, s') => (Err e, s') end.
(** A computation on a part of the state. *)
Definition st_zoom {S T E A} (get : S -> T) (put : T -> S -> S) (m : St T E A) : St S E A :=
  fun s => let '(r, t) := m (get s) in (r, put t s).

Notation "'let*' x ':=' m 'in' k" := (st_bind m (fun x => k))
  (at level 10, x pattern, m at level 100, k at level 200) : pooler_scope.

(** * Values *)

Definition as_object (v : Value) : option (list (string * Value)) := match v with Object m => Some m | _ => None end.
Definition as_string (v : Value) : option string := match v with Str s => Some s | _ => None end.
Definition as_u64 (v : Value) : option N := match v with Num (PosInt n) => Some n | _ => None end.
Definition is_null (v : Value) : bool := match v with Null => true | _ => false end.
Definition number (n : N) : Value := Num (PosInt n).
Definition json_members (members : list (string * Value)) : list (string * Value) :=
  foldl (fun m kv => obj_insert kv.1 kv.2 m) [] members.
Definition json_object (members : list (string * Value)) : Value := Object (json_members members).

