(* ===== verification/SerdeModel.v ===== *)
(** What the theorems on codecs assume of serde_json, and a serializer that has it: the
    hypotheses of [SerdeExact] and [SerdeReads] can hold.  The serializer is not the JSON
    syntax, which is not part of the sources. *)
From stdpp Require Import countable.
From S2P Require Import Prelude Str Bytes Json JsonFacts Redact Request Codec.

Open Scope N_scope.

(** * What is assumed *)

(** Map keys in their order, machine integers in their range, floating point numbers of
    some kind, Rust strings, and no deeper nesting than [depth]. *)
Definition number_exact (floats : N -> bool) (n : Number) : bool :=
  match n with
  | PosInt n => n <=? U64_MAX
  | NegInt z => (I64_MIN <=? z)%Z && (z <? 0)%Z
  | Float b => floats b
  end.
Fixpoint sorted_keys (m : list (string * Value)) : bool :=
  match m with
  | (k, _) :: ((k', _) :: _) as m' => match String.compare k k' with Lt => sorted_keys m' | _ => false end
  | _ => true
  end.
Fixpoint exact_with (floats : N -> bool) (depth : nat) (v : Value) {struct v} : bool :=
  match v with
  | Null | Bool _ => true
  | Num n => number_exact floats n
  | Str s => utf8_valid (bytes_of s)
  | Array l => match depth with O => false | S depth => forallb (exact_with floats depth) l end
  | Object m =>
    match depth with
    | O => false
    | S depth => sorted_keys m && forallb (fun kv => utf8_valid (bytes_of kv.1) && exact_with floats depth kv.2) m
    end
  end.

Lemma exact_mono {fl} n : forall v, exact_with fl n v = true -> exact_with fl (S n) v = true.
Proof.
  induction n as [|n IH]; intros [| | | |l|m]; try done; cbn [exact_with].
  - rewrite !forallb_forall. intros Hl x Hx. apply IH. by apply Hl.
  - rewrite !andb_true_iff, !forallb_forall. intros [Hk Hm]. split; [done|]. intros x Hx. specialize (Hm x Hx). bool_props.
    split; [apply Hm|]. apply IH. apply Hm.
Qed.

Lemma exact_le {fl} n k v : (n <= k)%nat -> exact_with fl n v = true -> exact_with fl k v = true.
Proof. induction 1; [done|]. intros Hv. by apply exact_mono, IHle. Qed.

(** The nesting serde_json accepts. *)
Definition MAX_DEPTH : nat := 127.

(** Values without floating point numbers. *)
Abbreviation exact := (exact_with (fun _ => false)).

(** What a value is read back from: some UTF-8 in one line. *)
Definition written `{SerdeJson} (v : Value) : Prop :=
  exists b, to_vec v = Ok b /\ from_slice b = Ok v /\ utf8_valid b = true /\ Forall (fun c => c < 256 /\ c <> CR /\ c <> LF) b /\ b <> [].

(** [to_vec] writes some UTF-8 in one line, and [from_slice] reads it back. *)
Class SerdeExact `{SerdeJson} : Prop := {
  exact_roundtrip : forall v, exact MAX_DEPTH v = true ->
    exists b, to_vec v = Ok b /\ from_slice b = Ok v /\ utf8_valid b = true /\ Forall (fun c => c < 256 /\ c <> CR /\ c <> LF) b /\ b <> [];
}.

(** serde_json writes a floating point number exactly, and without its feature
    [float_roundtrip] may read what it wrote as a neighbour of it.  These are the ones it
    does not change. *)
Definition reads_back `{SerdeJson} (b : N) : bool :=
  match to_vec (Num (Float b)) with
  | Ok bytes => match from_slice bytes with Ok (Num (Float b')) => b' =? b | _ => false end
  | Err _ => false
  end.

(** All floating point numbers of a value are of some kind. *)
Fixpoint all_floats (floats : N -> bool) (v : Value) : bool :=
  match v with
  | Num (Float b) => floats b
  | Array l => forallb (all_floats floats) l
  | Object m => forallb (fun kv => all_floats floats kv.2) m
  | _ => true
  end.
Definition floats_read_back `{SerdeJson} (v : Value) : bool := all_floats reads_back v.

(** A floating point number is a finite one of 64 bits. *)
Definition finite_float (b : N) : bool := (b <? 2 ^ 64) && f64_is_finite b.

(** Values that the parser can return: [from_slice] returns no others, and a value whose
    floating point numbers are read back is read back. *)
Class SerdeReads `{SerdeJson} : Prop := {
  reads_roundtrip : forall v, exact_with reads_back MAX_DEPTH v = true -> written v;
  parsed_exact : forall b v, from_slice b = Ok v -> exact_with finite_float MAX_DEPTH v = true;
}.

Lemma exact_floats fl fl' : forall v depth,
  exact_with fl' depth v = true -> all_floats fl v = true -> exact_with fl depth v = true.
Proof.
  induction v as [|[]|[]|s|l IH|m IH] using value_nested_ind; intros depth; try done; destruct depth as [|depth]; try done;
    cbn [exact_with all_floats].
  - rewrite !forallb_forall. intros Hx Hf v Hv. rewrite Forall_forall in IH.
    apply IH; [by apply list_elem_of_In|by apply Hx|by apply Hf].
  - rewrite !andb_true_iff, !forallb_forall. intros [Hs Hx] Hf. split; [done|]. intros kv Hkv.
    rewrite Forall_forall in IH. specialize (Hx kv Hkv). bool_props. split; [apply Hx|].
    apply IH; [by apply list_elem_of_In|apply Hx|by apply (Hf kv)].
Qed.

(** * A serializer *)

Definition Leaf : Type := string + (N + Z).
Fixpoint value_tree (v : Value) : gen_tree Leaf :=
  match v with
  | Null => GenNode 0 []
  | Bool b => GenNode (if b then 2 else 1) []
  | Num (PosInt n) => GenNode 3 [GenLeaf (inr (inl n))]
  | Num (NegInt z) => GenNode 4 [GenLeaf (inr (inr z))]
  | Num (Float n) => GenNode 5 [GenLeaf (inr (inl n))]
  | Str s => GenNode 6 [GenLeaf (inl s)]
  | Array l => GenNode 7 (map value_tree l)
  | Object m => GenNode 8 (map (fun kv => GenNode 9 [GenLeaf (inl kv.1); value_tree kv.2]) m)
  end.
Fixpoint tree_value (t : gen_tree Leaf) : Value :=
  match t with
  | GenNode 1 [] => Bool false
  | GenNode 2 [] => Bool true
  | GenNode 3 [GenLeaf (inr (inl n))] => Num (PosInt n)
  | GenNode 4 [GenLeaf (inr (inr z))] => Num (NegInt z)
  | GenNode 5 [GenLeaf (inr (inl n))] => Num (Float n)
  | GenNode 6 [GenLeaf (inl s)] => Str s
  | GenNode 7 l => Array (map tree_value l)
  | GenNode 8 l => Object (map (fun t => match t with
                                         | GenNode 9 [GenLeaf (inl k); v] => (k, tree_value v)
                                         | _ => (EmptyString, Null)
                                         end) l)
  | _ => Null
  end.
Lemma tree_value_tree v : tree_value (value_tree v) = v.
Proof.
  induction v as [|[]|[]|s|l IH|m IH] using value_nested_ind; try done; simpl; f_equal; rewrite map_map.
  - induction IH as [|x l Hx _ IHl]; [done|]. simpl. by rewrite Hx, IHl.
  - induction IH as [|[k x] l Hx _ IHl]; [done|]. simpl in *. by rewrite Hx, IHl.
Qed.

Fixpoint write_bits (p : positive) : bytes :=
  match p with xH => [] | xO p => 0x30 :: write_bits p | xI p => 0x31 :: write_bits p end.
Fixpoint read_bits (l : bytes) : positive :=
  match l with [] => xH | b :: l => if b =? 0x31 then xI (read_bits l) else xO (read_bits l) end.
Lemma read_write_bits p : read_bits (write_bits p) = p.
Proof. induction p as [p IH|p IH|]; simpl; by rewrite ?IH. Qed.
Lemma write_bits_digits p : Forall (fun b => b = 0x30 \/ b = 0x31) (write_bits p).
Proof. induction p; simpl; auto. Qed.

Definition bits_json : SerdeJson := {|
  to_vec v := Ok (0x31 :: write_bits (encode (value_tree v)));
  from_slice b := match b with
                  | [] => Err "end of input"
                  | _ :: b => match decode (read_bits b) with
                              | Some t => let v := tree_value t in
                                          if exact_with finite_float MAX_DEPTH v then Ok v else Err "not a value"
                              | None => Err "not a value"
                              end
                  end;
|}.

Lemma digits_valid l : Forall (fun b => b = 0x30 \/ b = 0x31) l -> utf8_valid l = true.
Proof. induction 1 as [|b l [-> | ->] _ IH]; done. Qed.

Lemma bits_json_reads v b :
  exact_with finite_float MAX_DEPTH v = true -> @to_vec bits_json v = Ok b -> @from_slice bits_json b = Ok v.
Proof. intros Hv [= <-]. cbn [from_slice bits_json]. by rewrite read_write_bits, decode_encode, tree_value_tree, Hv. Qed.
Lemma bits_json_total : @SerdeJsonSpec bits_json.
Proof. constructor. intros v. by eexists. Qed.
Lemma bits_json_written v : exact_with finite_float MAX_DEPTH v = true -> @written bits_json v.
Proof.
  intros Hv. eexists. split; [done|]. pose proof (write_bits_digits (encode (value_tree v))) as Hd. split_and!; [| | |done].
  - by apply bits_json_reads.
  - apply digits_valid. by constructor; [right|].
  - constructor; [done|]. eapply Forall_impl; [exact Hd|]. by intros b [-> | ->].
Qed.
Lemma exact_weaken (fl fl' : N -> bool) : (forall b, fl b = true -> fl' b = true) ->
  forall v depth, exact_with fl depth v = true -> exact_with fl' depth v = true.
Proof.
  intros Hw v depth Hx. apply (exact_floats _ fl); [done|]. revert depth Hx.
  induction v as [|[]|[]|s|l IH|m IH] using value_nested_ind; intros depth; try done; [by apply Hw|..];
    destruct depth as [|depth]; try done; cbn [exact_with all_floats].
  - rewrite !forallb_forall. intros Hx v Hv. rewrite Forall_forall in IH.
    apply (IH v (proj2 (list_elem_of_In _ _) Hv) depth). by apply Hx.
  - rewrite andb_true_iff, !forallb_forall. intros [_ Hx] kv Hkv. rewrite Forall_forall in IH.
    specialize (Hx kv Hkv). apply andb_true_iff in Hx as [_ Hx]. by apply (IH kv (proj2 (list_elem_of_In _ _) Hkv) depth).
Qed.
Lemma bits_json_exact : @SerdeExact bits_json.
Proof. constructor. intros v Hv. apply bits_json_written. by eapply exact_weaken, Hv. Qed.
Lemma bits_json_float b : @reads_back bits_json b = true -> finite_float b = true.
Proof.
  unfold reads_back. cbn [to_vec from_slice bits_json]. rewrite read_write_bits, decode_encode, tree_value_tree.
  cbn [exact_with number_exact]. by destruct (finite_float b).
Qed.
Lemma bits_json_reads_back : @SerdeReads bits_json.
Proof.
  constructor.
  - intros v Hv. apply bits_json_written. eapply exact_weaken, Hv. apply bits_json_float.
  - intros b v. cbn [from_slice bits_json]. destruct b as [|? b]; [done|]. destruct (decode (read_bits b)) as [t|]; [|done].
    destruct (exact_with finite_float MAX_DEPTH (tree_value t)) eqn:E; [|done]. by intros [= <-].
Qed.

(** * Objects that are read back *)

Lemma obj_get_insert_if k u v m : obj_get u (obj_insert k v m) = if beq u k then Some v else obj_get u m.
Proof.
  destruct (decide (u = k)) as [-> |Hne]; [by rewrite obj_get_insert, bool_decide_eq_true_2|].
  by rewrite obj_get_insert_ne, bool_decide_eq_false_2.
Qed.

Definition key_lt (a b : string) : Prop := String.compare a b = Lt.
Lemma key_lt_trans : Transitive key_lt.
Proof. intros a b c Hab Hbc. apply (pre_lt_trans String.compare a b c Hab). by rewrite Hbc. Qed.

Lemma sorted_keys_spec m : sorted_keys m = true <-> StronglySorted key_lt m.*1.
Proof.
  split.
  - intros Hs. apply Sorted.Sorted_StronglySorted; [apply key_lt_trans|]. induction m as [|[k v] [|[k' v'] m] IH]; [constructor|repeat constructor|].
    cbn [sorted_keys] in Hs. destruct (String.compare k k') eqn:E; try done. constructor; [by apply IH|by constructor].
  - induction m as [|[k v] [|[k' v'] m] IH]; [done..|]. intros [Hs Hf]%Sorted.StronglySorted_inv. cbn [sorted_keys].
    apply Forall_cons in Hf as [Hlt _]. unfold key_lt in Hlt. simpl in Hlt. rewrite Hlt. by apply IH.
Qed.

Lemma sorted_keys_nodup m : sorted_keys m = true -> NoDup m.*1.
Proof.
  rewrite sorted_keys_spec. induction 1 as [|k l _ IH Hf]; constructor; [|done]. intros Hk. rewrite Forall_forall in Hf.
  specialize (Hf k Hk). unfold key_lt in Hf. by rewrite (pre_refl String.compare) in Hf.
Qed.

Lemma insert_keys_above k v m x : key_lt x k -> Forall (key_lt x) m.*1 -> Forall (key_lt x) (obj_insert k v m).*1.
Proof.
  intros Hk. induction m as [|[k' v'] m IH]; simpl; [by repeat constructor|]. intros [Hx Hm]%Forall_cons.
  destruct (String.compare k k'); simpl; auto.
Qed.

Lemma sorted_insert k v m : sorted_keys m = true -> sorted_keys (obj_insert k v m) = true.
Proof.
  rewrite !sorted_keys_spec. induction m as [|[k' v'] m IH]; simpl; [by repeat constructor|].
  intros [Hs Hf]%Sorted.StronglySorted_inv. destruct (String.compare k k') eqn:E; simpl.
  - apply String.compare_eq_iff in E as ->. by constructor.
  - constructor; [by constructor|]. constructor; [done|]. eapply Forall_impl; [exact Hf|]. intros y Hy. by eapply key_lt_trans.
  - constructor; [by apply IH|]. apply insert_keys_above; [|done]. unfold key_lt. rewrite String.compare_antisym. by rewrite E.
Qed.

(** Members that are read back, one level below [depth]. *)
Section members.
Context {fl : N -> bool}.
Definition member_exact (depth : nat) (kv : string * Value) : bool := utf8_valid (bytes_of kv.1) && exact_with fl depth kv.2.
Lemma insert_exact depth k v m :
  utf8_valid (bytes_of k) = true -> exact_with fl depth v = true -> forallb (member_exact depth) m = true ->
  forallb (member_exact depth) (obj_insert k v m) = true.
Proof.
  intros Hk Hv. induction m as [|[k' v'] m IH]; simpl; unfold member_exact at 1; simpl; [by rewrite Hk, Hv|].
  intros [Hx Hm]%andb_true_iff. destruct (String.compare k k'); simpl; unfold member_exact at 1; simpl.
  - by rewrite Hk, Hv, Hm.
  - rewrite Hk, Hv. simpl. unfold member_exact at 1. simpl. by rewrite Hx, Hm.
  - by rewrite Hx, IH.
Qed.

Definition members_exact (depth : nat) (m : list (string * Value)) : Prop :=
  sorted_keys m = true /\ forallb (member_exact depth) m = true.
Lemma members_insert depth k v m :
  is_str k -> exact_with fl depth v = true -> members_exact depth m -> members_exact depth (obj_insert k v m).
Proof. intros Hk Hv [Hs Hm]. split; [by apply sorted_insert|by apply insert_exact]. Qed.
Lemma members_nil depth : members_exact depth [].
Proof. done. Qed.
Lemma object_exact depth m : members_exact depth m -> exact_with fl (S depth) (Object m) = true.
Proof. intros [Hs Hm]. cbn [exact_with]. rewrite Hs. exact Hm. Qed.
Lemma json_members_exact depth l :
  Forall (fun kv => is_str kv.1 /\ exact_with fl depth kv.2 = true) l -> members_exact depth (json_members l).
Proof.
  unfold json_members. intros Hl. assert (Hnil := members_nil depth). revert Hnil. generalize (@nil (string * Value)) as m.
  induction Hl as [|[k v] l [Hk Hv] _ IH]; intros m Hm; [done|]. simpl. by apply IH, members_insert.
Qed.
End members.
Arguments member_exact : clear implicits.
Arguments members_exact : clear implicits.

Lemma below_none k m : Forall (key_lt k) m.*1 -> obj_get k m = None.
Proof.
  induction m as [|[k' v] m IH]; [done|]. simpl. intros [Hlt Hm]%Forall_cons. rewrite bool_decide_eq_false_2; [by apply IH|].
  intros ->. unfold key_lt in Hlt. by rewrite (pre_refl String.compare) in Hlt.
Qed.

Lemma sorted_cons k v m : sorted_keys ((k, v) :: m) = true -> sorted_keys m = true /\ Forall (key_lt k) m.*1.
Proof. rewrite !sorted_keys_spec. by intros [? ?]%Sorted.StronglySorted_inv. Qed.

(** Maps with the same members are equal. *)
Lemma sorted_ext m : forall n, sorted_keys m = true -> sorted_keys n = true -> (forall k, obj_get k m = obj_get k n) -> m = n.
Proof.
  induction m as [|[k v] m IH]; intros [|[j w] n] Hm Hn Hk.
  - done.
  - specialize (Hk j). simpl in Hk. by rewrite bool_decide_eq_true_2 in Hk.
  - specialize (Hk k). simpl in Hk. by rewrite bool_decide_eq_true_2 in Hk.
  - apply sorted_cons in Hm as [Hm Hkm], Hn as [Hn Hjn].
    assert (k = j) as ->.
    { destruct (String.compare k j) eqn:E; [by apply String.compare_eq_iff| |].
      - specialize (Hk k). simpl in Hk. rewrite bool_decide_eq_true_2 in Hk by done.
        rewrite bool_decide_eq_false_2 in Hk by (intros ->; by rewrite (pre_refl String.compare) in E).
        rewrite below_none in Hk; [done|]. eapply Forall_impl; [exact Hjn|]. intros y Hy. by eapply key_lt_trans.
      - assert (E' : key_lt j k) by (unfold key_lt; rewrite String.compare_antisym, E; done).
        specialize (Hk j). simpl in Hk. rewrite (bool_decide_eq_true_2 (j = j)) in Hk by done.
        rewrite bool_decide_eq_false_2 in Hk by (intros ->; by rewrite (pre_refl String.compare) in E).
        rewrite below_none in Hk; [done|]. eapply Forall_impl; [exact Hkm|]. intros y Hy. by eapply key_lt_trans. }
    pose proof (Hk j) as Hv. simpl in Hv. rewrite bool_decide_eq_true_2 in Hv by done. injection Hv as ->.
    f_equal. apply IH; [done..|]. intros i. specialize (Hk i). simpl in Hk. case_bool_decide; [subst; by rewrite !below_none|done].
Qed.

(** Removing a member of a map. *)
Lemma obj_get_remove k u m : sorted_keys m = true -> obj_get u (obj_remove k m) = if beq u k then None else obj_get u m.
Proof.
  induction m as [|[k' v] m IH]; [simpl; by case_bool_decide|]. intros [Hm Hk]%sorted_cons. simpl. destruct (decide (k = k')) as [-> |Hne].
  - rewrite (bool_decide_eq_true_2 (k' = k')) by done. case_bool_decide; [subst; by apply below_none|done].
  - rewrite (bool_decide_eq_false_2 (k = k')) by done. simpl. rewrite IH by done.
    destruct (decide (u = k')) as [-> |Hne'].
    + rewrite (bool_decide_eq_true_2 (k' = k')), (bool_decide_eq_false_2 (k' = k)) by congruence. done.
    + by rewrite (bool_decide_eq_false_2 (u = k')).
Qed.
Lemma sorted_remove k m : sorted_keys m = true -> sorted_keys (obj_remove k m) = true.
Proof.
  rewrite !sorted_keys_spec. induction m as [|[k' v] m IH]; simpl; [done|]. intros [Hs Hf]%Sorted.StronglySorted_inv.
  case_bool_decide; [done|]. simpl. constructor; [by apply IH|]. apply Forall_forall. intros x Hx. rewrite Forall_forall in Hf. apply Hf.
  clear -Hx. induction m as [|[j w] m IHm]; [done|]. simpl in *. case_bool_decide; [by right|].
  apply elem_of_cons in Hx as [-> |Hx]; [by left|right; by apply IHm].
Qed.

(** A map of strings in its order. *)
Lemma btree_list_map {V} (m : gmap string V) : list_to_map (btree_list String.compare m) = m.
Proof.
  unfold btree_list. rewrite (list_to_map_proper _ (map_to_list m)); [apply list_to_map_to_list| |apply sort_by_perm].
  rewrite sort_by_perm. apply NoDup_fst_map_to_list.
Qed.
Lemma btree_list_nodup {V} (m : gmap string V) : NoDup (btree_list String.compare m).*1.
Proof. unfold btree_list. rewrite sort_by_perm. apply NoDup_fst_map_to_list. Qed.

(** Members inserted one after the other. *)
Lemma obj_get_key k m v : obj_get k m = Some v -> k ∈ m.*1.
Proof. induction m as [|[j x] m IH]; simpl; [done|]. case_bool_decide; [subst; by left|]. intros Hk. right. by apply IH. Qed.
Lemma obj_get_absent k m : obj_get k m = None -> k ∉ m.*1.
Proof.
  induction m as [|[j x] m IH]; simpl; [intros _; apply not_elem_of_nil|]. case_bool_decide; [done|]. intros Hk. apply not_elem_of_cons. auto.
Qed.
Lemma obj_get_inserted l : forall m u, NoDup l.*1 ->
  obj_get u (foldl (fun m kv => obj_insert kv.1 kv.2 m) m l) = match obj_get u l with Some v => Some v | None => obj_get u m end.
Proof.
  induction l as [|[k v] l IH]; intros m u; [done|]. simpl. intros [Hk Hl]%NoDup_cons. rewrite IH, obj_get_insert_if by done.
  case_bool_decide as E; [|done]. subst u. destruct (obj_get k l) as [w|] eqn:Ew; [|done]. by apply obj_get_key in Ew.
Qed.
Lemma sorted_inserted l : forall m, sorted_keys m = true -> sorted_keys (foldl (fun m kv => obj_insert kv.1 kv.2 m) m l) = true.
Proof. induction l as [|kv l IH]; intros m Hm; [done|]. simpl. by apply IH, sorted_insert. Qed.
