(* ===== verification/Anthropic.v ===== *)
(** The Anthropic Messages stream (crates/adapter-anthropic/src/stream.rs): the decoder from
    named server-sent events to semantic events, and the encoder back.

    The methods are computations of [St]; serde_json is the parameter [SerdeJson]. *)
From stdpp Require Import pretty.
From S2P Require Import Prelude Str CoreError Bytes Sse Json Extensions Events Redact Codec.

Open Scope N_scope.

Inductive AnthropicStreamError :=
| AsJson (message : string)
| AsSse (e : SseError)
| AsMissingField (field : string)
| AsInvalidShape (field expected : string)
| AsInvalidState (message : string)
| AsPreservedJson (e : PreservedJsonError)
| AsExtension (e : ExtensionError)
| AsConversion (e : ConversionError).

Definition ANTHROPIC_EVENT_MEDIA_TYPE : string := "application/vnd.anthropic.event+json".

Definition required_index (object : list (string * Value)) (field : string) : Result N AnthropicStreamError :=
  let? v := ok_or (obj_get "index" object) (AsMissingField field) in
  ok_or (as_u64 v) (AsInvalidShape field "an unsigned integer").
Definition required_string (object : list (string * Value)) (key field : string) : Result string AnthropicStreamError :=
  let? v := ok_or (obj_get key object) (AsMissingField field) in
  ok_or (as_string v) (AsInvalidShape field "a string").
Definition optional_string (object : list (string * Value)) (key field : string)
  : Result (option string) AnthropicStreamError :=
  match opt_filter (obj_get key object) (fun v => negb (is_null v)) with
  | None => Ok None
  | Some v => let? s := ok_or (as_string v) (AsInvalidShape field "a string") in Ok (Some s)
  end.
Definition optional_u64 (object : list (string * Value)) (key field : string) : Result (option N) AnthropicStreamError :=
  match opt_filter (obj_get key object) (fun v => negb (is_null v)) with
  | None => Ok None
  | Some v => let? n := ok_or (as_u64 v) (AsInvalidShape (field +:+ "." +:+ key) "an unsigned integer") in Ok (Some n)
  end.
(** [get(key).and_then(Value::as_object).ok_or_else(..)]. *)
Definition required_object (object : list (string * Value)) (key field : string)
  : Result (list (string * Value)) AnthropicStreamError :=
  ok_or (obj_get key object ≫= as_object) (AsInvalidShape field "an object").

Definition block_id (kind : string) (index : N) : string := "anthropic-" +:+ kind +:+ "-" +:+ pretty index.

Definition decode_finish_reason (reason : string) : FinishReason :=
  if String.eqb reason "end_turn" || String.eqb reason "stop_sequence" then FinishStop
  else if String.eqb reason "max_tokens" || String.eqb reason "model_context_window_exceeded" then FinishLength
  else if String.eqb reason "tool_use" then FinishToolCall
  else if String.eqb reason "refusal" then FinishContentFilter
  else FinishOther reason.
Definition encode_finish_reason (reason : FinishReason) : string :=
  match reason with
  | FinishStop => "end_turn" | FinishLength => "max_tokens" | FinishToolCall => "tool_use"
  | FinishContentFilter => "refusal" | FinishError => "error" | FinishOther reason => reason
  end.

(** ** Usage *)

Definition usage_default : Usage := MkUsage 0 0 None None None ∅.
Definition set_input n u := MkUsage n (output_tokens u) (reasoning_tokens u) (cached_input_tokens u) (total_tokens u) (usage_details u).
Definition set_output n u := MkUsage (input_tokens u) n (reasoning_tokens u) (cached_input_tokens u) (total_tokens u) (usage_details u).
Definition set_cached n u := MkUsage (input_tokens u) (output_tokens u) (reasoning_tokens u) n (total_tokens u) (usage_details u).
Definition set_total n u := MkUsage (input_tokens u) (output_tokens u) (reasoning_tokens u) (cached_input_tokens u) n (usage_details u).
Definition set_detail k n u := MkUsage (input_tokens u) (output_tokens u) (reasoning_tokens u) (cached_input_tokens u) (total_tokens u)
  (<[k := n]> (usage_details u)).

(** [update_usage_field] with [set] for [&mut target]. *)
Definition update_usage_field (object : list (string * Value)) (name field : string) (set : N -> Usage -> Usage)
  : St Usage AnthropicStreamError unit :=
  let* value := st_lift (optional_u64 object name field) in
  match value with Some n => st_modify (set n) | None => st_ret tt end.
Definition USAGE_FIELDS : list string :=
  ["input_tokens"; "output_tokens"; "cache_read_input_tokens"; "cache_creation_input_tokens"].
Definition merge_detail (u : Usage) (member : string * Value) : Usage :=
  if existsb (String.eqb member.1) USAGE_FIELDS then u
  else match as_u64 member.2 with Some n => set_detail member.1 n u | None => u end.
Definition merge_usage (value : Value) (field : string) : St Usage AnthropicStreamError unit :=
  let* object := st_lift (ok_or (as_object value) (AsInvalidShape field "an object")) in
  let* _ := update_usage_field object "input_tokens" field set_input in
  let* _ := update_usage_field object "output_tokens" field set_output in
  let* _ := update_usage_field object "cache_read_input_tokens" field
              (fun n u => set_detail "cache_read_input_tokens" n (set_cached (Some n) u)) in
  let* _ := update_usage_field object "cache_creation_input_tokens" field (set_detail "cache_creation_input_tokens") in
  let* _ := st_modify (fun u => foldl merge_detail u object) in
  st_modify (fun u => set_total (Some (sat_add U64_MAX (input_tokens u) (output_tokens u))) u).

(** [object.entry(name).or_insert_with(..)]. *)
Definition entry_or_insert (m : list (string * Value)) (detail : string * N) : list (string * Value) :=
  match obj_get detail.1 m with Some _ => m | None => obj_insert detail.1 (number detail.2) m end.
Definition encode_usage (u : Usage) : Value :=
  let object := json_members [("input_tokens", number (input_tokens u)); ("output_tokens", number (output_tokens u))] in
  let object := match cached_input_tokens u with
                | Some cached => obj_insert "cache_read_input_tokens" (number cached) object
                | None => object
                end in
  Object (foldl entry_or_insert object (btree_list String.compare (usage_details u))).
Definition has_usage (u : Usage) : bool :=
  negb (input_tokens u =? 0) || negb (output_tokens u =? 0) || is_some (cached_input_tokens u)
  || negb (beq (usage_details u) ∅).

(** * The decoder *)

Inductive DecodedBlock :=
| DbText (id : string)
| DbReasoning (id text : string) (signature : bytes) (encrypted_content : option bytes)
| DbTool (id : string)
| DbOpaque.

Record AnthropicEventDecoder := MkDecoder {
  de_sequence : N; de_blocks : gmap N DecodedBlock; de_usage : Usage; de_response_started : bool;
  de_completion_seen : bool; de_terminal : bool }.
Definition decoder_new : AnthropicEventDecoder := MkDecoder 0 ∅ usage_default false false false.
Definition set_sequence n d := MkDecoder n (de_blocks d) (de_usage d) (de_response_started d) (de_completion_seen d) (de_terminal d).
Definition set_blocks m d := MkDecoder (de_sequence d) m (de_usage d) (de_response_started d) (de_completion_seen d) (de_terminal d).
Definition set_usage u d := MkDecoder (de_sequence d) (de_blocks d) u (de_response_started d) (de_completion_seen d) (de_terminal d).
Definition set_started d := MkDecoder (de_sequence d) (de_blocks d) (de_usage d) true (de_completion_seen d) (de_terminal d).
Definition set_completed d := MkDecoder (de_sequence d) (de_blocks d) (de_usage d) (de_response_started d) true (de_terminal d).
Definition set_terminal d := MkDecoder (de_sequence d) (de_blocks d) (de_usage d) (de_response_started d) (de_completion_seen d) true.

Definition Dec (A : Type) : Type := St AnthropicEventDecoder AnthropicStreamError A.
Definition invalid_state {S A} (message : string) : St S AnthropicStreamError A := st_lift (Err (AsInvalidState message)).
Definition insert_block (index : N) (b : DecodedBlock) : Dec unit := st_modify (fun d => set_blocks (<[index := b]> (de_blocks d)) d).

(** [event] and [event_with_block]. *)
Definition event (kind : StreamEventKind) : Dec StreamEvent :=
  fun d => (Ok (event_new (de_sequence d) kind), set_sequence (sat_add U64_MAX (de_sequence d) 1) d).
Definition event_with_block (kind : StreamEventKind) (id : string) : Dec StreamEvent :=
  let* e := event kind in st_ret (with_block_id e id).
(** [Ok(vec![..])]. *)
Definition one (m : Dec StreamEvent) : Dec (list StreamEvent) := let* e := m in st_ret [e].
Definition two (m n : Dec StreamEvent) : Dec (list StreamEvent) := let* e := m in let* f := n in st_ret [e; f].

Section codec.
Context `{SerdeJson}.

Definition opaque_event (raw : Value) : Dec (list StreamEvent) :=
  let* data := st_lift (map_err AsJson (to_vec raw)) in one (event (OpaqueEvent ANTHROPIC_EVENT_MEDIA_TYPE data)).

Definition decode_message_start (object : list (string * Value)) : Dec (list StreamEvent) :=
  let* d := st_get in
  if de_response_started d then invalid_state "message_start appeared twice"
  else
    let* message := st_lift (required_object object "message" "message_start.message") in
    let* response_id := st_lift (optional_string message "id" "message_start.message.id") in
    let* model := st_lift (optional_string message "model" "message_start.message.model") in
    let* _ := match obj_get "usage" message with
              | Some usage => st_zoom de_usage set_usage (merge_usage usage "message_start.message.usage")
              | None => st_ret tt
              end in
    let* _ := st_modify set_started in
    let* e := event (ResponseStart response_id model) in
    let* d := st_get in
    if has_usage (de_usage d) then let* f := event (UsageEvent (de_usage d)) in st_ret [e; f] else st_ret [e].

Definition decode_text_start (index : N) (block : list (string * Value)) : Dec (list StreamEvent) :=
  let id := block_id "text" index in
  let* _ := insert_block index (DbText id) in
  let* e := event_with_block TextStart id in
  let* text := st_lift (optional_string block "text" "content_block_start.content_block.text") in
  match opt_filter text (fun t => negb (str_is_empty t)) with
  | Some t => let* f := event_with_block (TextDelta t) id in st_ret [e; f]
  | None => st_ret [e]
  end.
Definition decode_thinking_start (index : N) (block : list (string * Value)) : Dec (list StreamEvent) :=
  let id := block_id "thinking" index in
  let* text := st_lift (optional_string block "thinking" "content_block_start.content_block.thinking") in
  let text := default "" text in
  let* signature := st_lift (optional_string block "signature" "content_block_start.content_block.signature") in
  let* encrypted := st_lift (optional_string block "data" "content_block_start.content_block.data") in
  let* _ := insert_block index (DbReasoning id text (bytes_of (default "" signature)) (bytes_of <$> encrypted)) in
  let* e := event_with_block ReasoningStart id in
  if str_is_empty text then st_ret [e]
  else let* f := event_with_block (ReasoningDelta text) id in st_ret [e; f].
Definition decode_tool_start (index : N) (block : list (string * Value)) : Dec (list StreamEvent) :=
  let* id := st_lift (required_string block "id" "content_block_start.content_block.id") in
  let* name := st_lift (required_string block "name" "content_block_start.content_block.name") in
  let* _ := insert_block index (DbTool id) in
  let* e := event (ToolCallStart id name) in
  match opt_filter (obj_get "input" block) (fun v => is_none_or (as_object v) (fun o => negb (list_is_empty o))) with
  | Some input =>
    let* arguments := st_lift (map_err AsJson (to_vec input)) in
    let* f := event (ToolCallDelta id (of_bytes arguments)) in st_ret [e; f]
  | None => st_ret [e]
  end.
Definition decode_block_start (object : list (string * Value)) : Dec (list StreamEvent) :=
  let* index := st_lift (required_index object "content_block_start.index") in
  let* d := st_get in
  if is_some (de_blocks d !! index) then invalid_state ("content block " +:+ pretty index +:+ " started twice")
  else
    let* block := st_lift (required_object object "content_block" "content_block_start.content_block") in
    let* kind := st_lift (required_string block "type" "content_block_start.content_block.type") in
    if String.eqb kind "text" then decode_text_start index block
    else if String.eqb kind "thinking" || String.eqb kind "redacted_thinking" then decode_thinking_start index block
    else if String.eqb kind "tool_use" then decode_tool_start index block
    else let* _ := insert_block index DbOpaque in opaque_event (Object object).

Definition decode_block_delta (object : list (string * Value)) (raw : Value) : Dec (list StreamEvent) :=
  let* index := st_lift (required_index object "content_block_delta.index") in
  let* delta := st_lift (required_object object "delta" "content_block_delta.delta") in
  let* kind := st_lift (required_string delta "type" "content_block_delta.delta.type") in
  let* d := st_get in
  let otherwise :=
    if String.eqb kind "citations_delta" then opaque_event raw
    else match de_blocks d !! index with
         | None => invalid_state ("delta referenced unknown content block " +:+ pretty index)
         | Some _ => invalid_state ("delta `" +:+ kind +:+ "` does not match content block " +:+ pretty index)
         end in
  match de_blocks d !! index with
  | Some (DbText id) =>
    if String.eqb kind "text_delta" then
      let* text := st_lift (required_string delta "text" "content_block_delta.delta.text") in
      one (event_with_block (TextDelta text) id)
    else otherwise
  | Some (DbReasoning id text signature encrypted) =>
    if String.eqb kind "thinking_delta" then
      let* fragment := st_lift (required_string delta "thinking" "content_block_delta.delta.thinking") in
      let* _ := insert_block index (DbReasoning id (text +:+ fragment) signature encrypted) in
      one (event_with_block (ReasoningDelta fragment) id)
    else if String.eqb kind "signature_delta" then
      let* fragment := st_lift (required_string delta "signature" "content_block_delta.delta.signature") in
      let* _ := insert_block index (DbReasoning id text (signature ++ bytes_of fragment) encrypted) in
      st_ret []
    else otherwise
  | Some (DbTool id) =>
    if String.eqb kind "input_json_delta" then
      let* arguments := st_lift (required_string delta "partial_json" "content_block_delta.delta.partial_json") in
      one (event (ToolCallDelta id arguments))
    else otherwise
  | Some DbOpaque => opaque_event raw
  | None => otherwise
  end.

Definition decode_block_stop (object : list (string * Value)) : Dec (list StreamEvent) :=
  let* index := st_lift (required_index object "content_block_stop.index") in
  let* d := st_get in
  match de_blocks d !! index with
  | None => invalid_state ("stop referenced unknown content block " +:+ pretty index)
  | Some block =>
    let* _ := st_modify (set_blocks (delete index (de_blocks d))) in
    match block with
    | DbText id => one (event_with_block TextEnd id)
    | DbReasoning id text signature encrypted =>
      let reasoning := MkReasoningBlock None (if str_is_empty text then None else Some text) None encrypted
                         (if is_empty_bytes signature then None else Some signature) [] in
      one (event_with_block (ReasoningEnd (Some reasoning)) id)
    | DbTool id => one (event (ToolCallEnd id))
    | DbOpaque => opaque_event (Object object)
    end
  end.

Definition decode_message_delta (object : list (string * Value)) : Dec (list StreamEvent) :=
  let* _ := match obj_get "usage" object with
            | Some usage => st_zoom de_usage set_usage (merge_usage usage "message_delta.usage")
            | None => st_ret tt
            end in
  let stop_reason := (delta ← obj_get "delta" object; delta ← as_object delta; obj_get "stop_reason" delta) in
  match opt_filter stop_reason (fun v => negb (is_null v)) with
  | Some reason =>
    let* reason := st_lift (ok_or (as_string reason) (AsInvalidShape "message_delta.delta.stop_reason" "a string")) in
    let* _ := st_modify set_completed in
    let* d := st_get in
    one (event (Completion (decode_finish_reason reason) (Some (de_usage d))))
  | None =>
    if is_some (obj_get "usage" object) then let* d := st_get in one (event (UsageEvent (de_usage d)))
    else st_ret []
  end.

Definition decode_message_stop : Dec (list StreamEvent) :=
  let* d := st_get in
  if negb (Nat.eqb (size (de_blocks d)) 0) then invalid_state "message_stop appeared with open content blocks"
  else
    let* _ := st_modify set_terminal in
    if de_completion_seen d then st_ret []
    else one (event (Completion (FinishOther "message_stop") (Some (de_usage d)))).

Definition decode_error (object : list (string * Value)) : Dec (list StreamEvent) :=
  let* error := st_lift (required_object object "error" "error.error") in
  let* code := st_lift (required_string error "type" "error.error.type") in
  let* message := st_lift (required_string error "message" "error.error.message") in
  let retryable := existsb (String.eqb code) ["api_error"; "overloaded_error"; "rate_limit_error"] in
  let* details := st_lift (map_err AsPreservedJson (pj_from_value (Object error))) in
  let* _ := st_modify set_terminal in
  one (event (Failure (MkStreamError code message retryable (Some details)))).

Definition decode_value (kind : string) (object : list (string * Value)) (raw : Value) : Dec (list StreamEvent) :=
  if String.eqb kind "message_start" then decode_message_start object
  else if String.eqb kind "content_block_start" then decode_block_start object
  else if String.eqb kind "content_block_delta" then decode_block_delta object raw
  else if String.eqb kind "content_block_stop" then decode_block_stop object
  else if String.eqb kind "message_delta" then decode_message_delta object
  else if String.eqb kind "message_stop" then decode_message_stop
  else if String.eqb kind "error" then decode_error object
  else if String.eqb kind "ping" then st_ret []
  else opaque_event raw.

Definition decode_sse_event (e : SseEvent) : Dec (list StreamEvent) :=
  let* d := st_get in
  if de_terminal d then invalid_state "event appeared after stream termination"
  else
    let* value := st_lift (map_err AsJson (from_slice (sse_data e))) in
    let* object := st_lift (ok_or (as_object value) (AsInvalidShape "event" "an object")) in
    let* kind := st_lift (required_string object "type" "event.type") in
    match opt_filter (sse_event e) (fun name => negb (beq (of_bytes name) kind)) with
    | Some name => invalid_state ("SSE event `" +:+ of_bytes name +:+ "` carried `" +:+ kind +:+ "` data")
    | None => decode_value kind object value
    end.
Definition decode_data (data : bytes) : Dec (list StreamEvent) :=
  if utf8_valid data then decode_sse_event (sse_event_new data) else invalid_state "event data was not UTF-8".

(** * The encoder *)

Inductive EncodedBlockKind := EkText | EkReasoning | EkTool.
#[local] Instance EncodedBlockKind_eq_dec : EqDecision EncodedBlockKind. Proof. solve_decision. Defined.
Record EncodedBlock := MkEncodedBlock { eb_index : N; eb_kind : EncodedBlockKind }.

Record AnthropicEventEncoder := MkEncoder {
  en_next_index : N; en_blocks : gmap string EncodedBlock; en_pending_usage : option Usage;
  en_response_started : bool; en_terminal : bool }.
Definition encoder_new : AnthropicEventEncoder := MkEncoder 0 ∅ None false false.
Definition Enc (A : Type) : Type := St AnthropicEventEncoder AnthropicStreamError A.
Definition put_blocks m e := MkEncoder (en_next_index e) m (en_pending_usage e) (en_response_started e) (en_terminal e).
Definition put_pending u e := MkEncoder (en_next_index e) (en_blocks e) u (en_response_started e) (en_terminal e).
Definition put_started e := MkEncoder (en_next_index e) (en_blocks e) (en_pending_usage e) true (en_terminal e).
Definition put_terminal e := MkEncoder (en_next_index e) (en_blocks e) (en_pending_usage e) (en_response_started e) true.
(** [let index = self.next_index; self.next_index = self.next_index.saturating_add(1);]. *)
Definition take_index : Enc N :=
  fun e => (Ok (en_next_index e), MkEncoder (sat_add U64_MAX (en_next_index e) 1) (en_blocks e) (en_pending_usage e)
                                    (en_response_started e) (en_terminal e)).

Definition enc_start_block (id : string) (kind : EncodedBlockKind) : Enc N :=
  let* e := st_get in
  if str_is_empty id || is_some (en_blocks e !! id)
  then invalid_state ("content block `" +:+ id +:+ "` has an invalid or duplicate ID")
  else
    let* index := take_index in
    let* _ := st_modify (fun e => put_blocks (<[id := MkEncodedBlock index kind]> (en_blocks e)) e) in
    st_ret index.
Definition named_block_index (id : string) (kind : EncodedBlockKind) : Enc N :=
  let* e := st_get in
  match en_blocks e !! id with
  | None => invalid_state ("content block `" +:+ id +:+ "` is not open")
  | Some b => if beq (eb_kind b) kind then st_ret (eb_index b)
              else invalid_state ("content block `" +:+ id +:+ "` has the wrong kind")
  end.
Definition end_named_block (id : string) (kind : EncodedBlockKind) : Enc N :=
  let* e := st_get in
  match en_blocks e !! id with
  | None => invalid_state ("content block `" +:+ id +:+ "` is not open")
  | Some b =>
    let* _ := st_modify (put_blocks (delete id (en_blocks e))) in
    if beq (eb_kind b) kind then st_ret (eb_index b)
    else invalid_state ("content block `" +:+ id +:+ "` has the wrong kind")
  end.
Definition required_block_id (e : StreamEvent) (kind : string) : Enc string :=
  st_lift (ok_or (effective_block_id e) (AsInvalidState (kind +:+ " requires a stable block ID"))).
Definition block_index (e : StreamEvent) (kind : EncodedBlockKind) : Enc N :=
  let* id := required_block_id e "content block" in named_block_index id kind.
Definition enc_end_block (e : StreamEvent) (kind : EncodedBlockKind) : Enc N :=
  let* id := required_block_id e "content block end" in end_named_block id kind.

Definition owned_event_name (name : string) : Result string AnthropicStreamError :=
  if existsb (String.eqb name) ["message_start"; "content_block_start"; "content_block_delta"; "content_block_stop";
                                "message_delta"; "message_stop"; "ping"; "error"]
  then Ok name else Err (AsInvalidState ("unsupported opaque Anthropic event name `" +:+ name +:+ "`")).

(** The records the encoder writes. *)
Definition block_start (index : N) (content_block : list (string * Value)) : string * Value :=
  ("content_block_start", json_object [("type", Str "content_block_start"); ("index", number index);
                                       ("content_block", json_object content_block)]).
Definition block_delta (index : N) (delta : list (string * Value)) : string * Value :=
  ("content_block_delta", json_object [("type", Str "content_block_delta"); ("index", number index);
                                       ("delta", json_object delta)]).
Definition block_stop (index : N) : string * Value :=
  ("content_block_stop", json_object [("type", Str "content_block_stop"); ("index", number index)]).
Definition text_block : list (string * Value) := [("type", Str "text"); ("text", Str "")].
Definition message_start (response_id model : option string) (usage : Usage) : string * Value :=
  ("message_start", json_object
     [("type", Str "message_start");
      ("message", json_object
         [("id", Str (default "msg_pooler" response_id)); ("type", Str "message"); ("role", Str "assistant");
          ("content", Array []); ("model", Str (default "pooler-model" model)); ("stop_reason", Null);
          ("stop_sequence", Null); ("usage", encode_usage usage)])]).
Definition message_delta (reason : FinishReason) (usage : Usage) : string * Value :=
  ("message_delta", json_object
     [("type", Str "message_delta");
      ("delta", json_object [("stop_reason", Str (encode_finish_reason reason)); ("stop_sequence", Null)]);
      ("usage", encode_usage usage)]).
Definition error_record (error : StreamError) : string * Value :=
  let details := default [] (se_details error ≫= fun d => as_object (pj_value d)) in
  ("error", json_object [("type", Str "error");
     ("error", Object (obj_insert "message" (Str (se_message error)) (obj_insert "type" (Str (se_code error)) details)))]).

(** [encode_values]: the records, and the report with what the event adds. *)
Definition encode_values (e : StreamEvent) (report : ConversionReport) : Enc (list (string * Value) * ConversionReport) :=
  match ev_kind e with
  | ResponseStart response_id model =>
    let* s := st_get in
    if en_response_started s then invalid_state "semantic response started twice"
    else
      let* _ := st_modify put_started in
      st_ret ([message_start response_id model (default usage_default (en_pending_usage s))], report)
  | Metadata _ => st_ret ([], drop_optional report "event.metadata" "Anthropic SSE has no general metadata event")
  | TextStart =>
    let* id := required_block_id e "text start" in
    let* index := enc_start_block id EkText in st_ret ([block_start index text_block], report)
  | TextDelta text =>
    let* index := block_index e EkText in
    st_ret ([block_delta index [("type", Str "text_delta"); ("text", Str text)]], report)
  | TextEnd => let* index := enc_end_block e EkText in st_ret ([block_stop index], report)
  | ReasoningStart =>
    let* id := required_block_id e "reasoning start" in
    let* index := enc_start_block id EkReasoning in
    st_ret ([block_start index [("type", Str "thinking"); ("thinking", Str ""); ("signature", Str "")]], report)
  | ReasoningDelta text =>
    let* index := block_index e EkReasoning in
    st_ret ([block_delta index [("type", Str "thinking_delta"); ("thinking", Str text)]], report)
  | ReasoningEnd reasoning =>
    let* index := enc_end_block e EkReasoning in
    let signature := match reasoning ≫= rb_signature with
                     | Some signature => [block_delta index [("type", Str "signature_delta");
                                            ("signature", Str (of_bytes (from_utf8_lossy signature)))]]
                     | None => []
                     end in
    let report := if is_some (reasoning ≫= rb_encrypted_content)
                  then drop_optional report "reasoning.encrypted_content" "redacted thinking must be known at content-block start"
                  else report in
    st_ret (signature ++ [block_stop index], report)
  | ToolCallStart id name =>
    let* index := enc_start_block id EkTool in
    st_ret ([block_start index [("type", Str "tool_use"); ("id", Str id); ("name", Str name); ("input", Object [])]], report)
  | ToolCallDelta id arguments =>
    let* index := named_block_index id EkTool in
    st_ret ([block_delta index [("type", Str "input_json_delta"); ("partial_json", Str arguments)]], report)
  | ToolCallEnd id => let* index := end_named_block id EkTool in st_ret ([block_stop index], report)
  | Media _ _ => st_ret ([], unsupported_required report "event.media" "Anthropic Messages has no streamed media-output block")
  | UsageEvent usage =>
    let* _ := st_modify (put_pending (Some usage)) in
    st_ret ([], preserve_capability report "usage.deferred_until_message_delta")
  | Refusal text =>
    let* index := take_index in
    st_ret ([block_start index text_block; block_delta index [("type", Str "text_delta"); ("text", Str text)]; block_stop index],
            degrade_field report "event.refusal" "Anthropic represents refusal output as text")
  | WarningEvent _ => st_ret ([], drop_optional report "event.warning" "Anthropic SSE has no compatibility-warning event")
  | Completion finish_reason usage =>
    let* s := st_get in
    if negb (Nat.eqb (size (en_blocks s)) 0) then invalid_state "completion appeared with open content blocks"
    else
      let usage := default usage_default (or_else usage (en_pending_usage s)) in
      let* _ := st_modify put_terminal in
      st_ret ([message_delta finish_reason usage; ("message_stop", json_object [("type", Str "message_stop")])], report)
  | Failure error => let* _ := st_modify put_terminal in st_ret ([error_record error], report)
  | OpaqueEvent media_type data =>
    if String.eqb media_type ANTHROPIC_EVENT_MEDIA_TYPE then
      let* value := st_lift (map_err AsJson (from_slice data)) in
      let* name := st_lift (ok_or (o ← as_object value; v ← obj_get "type" o; as_string v) (AsInvalidShape "opaque.type" "a string")) in
      let* name := st_lift (owned_event_name name) in
      st_ret ([(name, value)], preserve_capability report "anthropic.messages.opaque_event")
    else st_ret ([], unsupported_required report "event.opaque" "opaque event did not originate from Anthropic Messages")
  end.

Definition encode_record (limits : SseLimits) (record : string * Value) : Result bytes AnthropicStreamError :=
  let? data := map_err AsJson (to_vec record.2) in
  map_err AsSse (sse_encode limits (sse_with_event (sse_event_new data) (bytes_of record.1))).
Fixpoint encode_records (limits : SseLimits) (records : list (string * Value)) : Result bytes AnthropicStreamError :=
  match records with
  | [] => Ok []
  | r :: records =>
    let? b := encode_record limits r in let? rest := encode_records limits records in Ok (b ++ rest)
  end.
Definition encode_event_with_limits (e : StreamEvent) (policy : LossPolicy) (limits : SseLimits) : Enc (bytes * ConversionReport) :=
  let* s := st_get in
  if en_terminal s then invalid_state "semantic event appeared after stream termination"
  else
    let* (values, report) := encode_values e report_default in
    let report := if list_is_empty (ev_extensions e) then report
                  else drop_optional report "event.extensions" "semantic event extensions have no Anthropic SSE representation" in
    let* _ := st_lift (map_err AsConversion (report_validate report policy)) in
    let* body := st_lift (encode_records limits values) in
    st_ret (body, report).
Definition encode_event (e : StreamEvent) (policy : LossPolicy) : Enc (bytes * ConversionReport) :=
  encode_event_with_limits e policy sse_limits_default.
End codec.
