(* ===== verification/AnthropicFacts.v ===== *)
(** The Anthropic decoder emits well-formed semantic streams: what the validator of events.rs
    refuses does not come out of it. *)
From stdpp Require Import pretty.
From S2P Require Import Prelude Str Bytes Sse Json Extensions Events Redact Codec SerdeModel Anthropic.

Open Scope N_scope.

(** * What a record does to the decoder *)

Definition block_ident (b : DecodedBlock) : option string :=
  match b with DbText id | DbReasoning id _ _ _ | DbTool id => Some id | DbOpaque => None end.
Definition idents (d : AnthropicEventDecoder) : gmap N (option string) := block_ident <$> de_blocks d.

(** An event that concerns no block and does not start the response. *)
Definition plain (k : StreamEventKind) : bool := is_none (block_action k) && negb (is_response_start k).

(** The numbered events of a list of kinds with their block identifiers. *)
Fixpoint numbered (sequence : N) (l : list (option string * StreamEventKind)) : list StreamEvent :=
  match l with
  | [] => []
  | (id, k) :: l => MkStreamEvent sequence id k [] :: numbered (sat_add U64_MAX sequence 1) l
  end.

(** What one event does to the identifiers of the open blocks. *)
Inductive effect (started : bool) (m : gmap N (option string)) : option string * StreamEventKind -> bool -> gmap N (option string) -> Prop :=
| eff_plain id k : plain k = true -> effect started m (id, k) started m
| eff_response r md : started = false -> effect started m (None, ResponseStart r md) true m
| eff_text_start i : m !! i = None ->
    effect started m (Some (block_id "text" i), TextStart) started (<[i := Some (block_id "text" i)]> m)
| eff_reasoning_start i : m !! i = None ->
    effect started m (Some (block_id "thinking" i), ReasoningStart) started (<[i := Some (block_id "thinking" i)]> m)
| eff_tool_start i id name : m !! i = None ->
    effect started m (None, ToolCallStart id name) started (<[i := Some id]> m)
| eff_opaque_start i id k : plain k = true -> m !! i = None -> effect started m (id, k) started (<[i := None]> m)
| eff_delta i id k : m !! i = Some (Some id) -> block_action k = Some BlockContinue -> effect started m (Some id, k) started m
| eff_tool_delta i id arguments : m !! i = Some (Some id) -> effect started m (None, ToolCallDelta id arguments) started m
| eff_end i id k : m !! i = Some (Some id) -> block_action k = Some BlockEnd -> effect started m (Some id, k) started (delete i m)
| eff_tool_end i id : m !! i = Some (Some id) -> effect started m (None, ToolCallEnd id) started (delete i m)
| eff_opaque_end i id k : m !! i = Some None -> plain k = true -> effect started m (id, k) started (delete i m).

Inductive effects : bool -> gmap N (option string) -> list (option string * StreamEventKind) -> bool -> gmap N (option string) -> Prop :=
| effs_nil started m : effects started m [] started m
| effs_cons started m e started' m' l started'' m'' :
    effect started m e started' m' -> effects started' m' l started'' m'' -> effects started m (e :: l) started'' m''.

(** The decoder has seen the end of the response. *)
Definition ended (d : AnthropicEventDecoder) : bool := de_completion_seen d || de_terminal d.

(** A record that is decoded. *)
Definition decodes (d : AnthropicEventDecoder) (es : list StreamEvent) (d' : AnthropicEventDecoder) : Prop :=
  exists l, es = numbered (de_sequence d) l
    /\ de_sequence d' = foldl (fun s _ => sat_add U64_MAX s 1) (de_sequence d) l
    /\ ended d' = existsb (fun e => event_is_terminal e.2) l || ended d
    /\ effects (de_response_started d) (idents d) l (de_response_started d') (idents d').

Create HintDb anthropic.
#[export] Hint Constructors effect effects : anthropic.

Lemma idents_insert d i b : block_ident <$> <[i := b]> (de_blocks d) = <[i := block_ident b]> (idents d).
Proof. apply fmap_insert. Qed.

(** A block that keeps its identifier. *)
Lemma idents_update d i b b' :
  de_blocks d !! i = Some b -> block_ident b' = block_ident b -> block_ident <$> <[i := b']> (de_blocks d) = idents d.
Proof.
  intros Hb He. rewrite fmap_insert, He. apply insert_id. unfold idents. by rewrite lookup_fmap, Hb.
Qed.

Lemma idents_lookup d i b : de_blocks d !! i = Some b -> idents d !! i = Some (block_ident b).
Proof. intros Hb. unfold idents. by rewrite lookup_fmap, Hb. Qed.

Lemma idents_none d i : is_some (de_blocks d !! i) = false -> idents d !! i = None.
Proof. intros Hb. unfold idents. rewrite lookup_fmap. by destruct (de_blocks d !! i). Qed.

Lemma idents_delete d i : block_ident <$> delete i (de_blocks d) = delete i (idents d).
Proof. apply fmap_delete. Qed.

Section codec.
Context `{SerdeJson}.

Ltac st_unfold := cbv [st_bind st_ret st_lift st_get st_modify one two invalid_state insert_block event event_with_block opaque_event st_zoom].

Lemma merge_usage_zoom v f d r d' :
  st_zoom de_usage set_usage (merge_usage v f) d = (r, d') ->
  exists u, d' = set_usage u d.
Proof. unfold st_zoom. destruct (merge_usage v f (de_usage d)) as [r' u]. intros [= _ <-]. eauto. Qed.

Lemma opaque_decodes raw d es d' :
  opaque_event raw d = (Ok es, d') ->
  exists b, es = numbered (de_sequence d) [(None, OpaqueEvent ANTHROPIC_EVENT_MEDIA_TYPE b)]
         /\ d' = set_sequence (sat_add U64_MAX (de_sequence d) 1) d.
Proof.
  st_unfold. destruct (to_vec raw) as [b|]; simpl; [|done]. intros [= <- <-]. by exists b.
Qed.

Lemma message_start_decodes object d es d' : decode_message_start object d = (Ok es, d') -> decodes d es d'.
Proof.
  unfold decode_message_start. cbv [st_bind st_ret st_lift st_get st_modify invalid_state event].
  destruct (de_response_started d) eqn:Es; [done|].
  destruct (required_object _ _ _) as [message|]; [|done].
  destruct (optional_string message "id" _) as [rid|]; [|done].
  destruct (optional_string message "model" _) as [model|]; [|done].
  assert (Hrest : forall u, (let d := set_usage u d in
    (if has_usage u
     then fun s => (Ok [event_new (de_sequence d) (ResponseStart rid model); event_new (de_sequence s) (UsageEvent u)],
                    set_sequence (sat_add U64_MAX (de_sequence s) 1) s)
     else fun s => (Ok [event_new (de_sequence d) (ResponseStart rid model)], s))
      (set_sequence (sat_add U64_MAX (de_sequence d) 1) (set_started d)) = (Ok es : Result _ AnthropicStreamError, d')) -> decodes d es d').
  { intros u. simpl. destruct (has_usage u); intros [= <- <-]; [eexists [(_, _); (_, _)]|eexists [(_, _)]]; unfold decodes;
      (split_and!; [reflexivity|reflexivity|reflexivity|]); rewrite Es; eauto 10 with anthropic. }
  destruct (obj_get "usage" message) as [usage|].
  - destruct (st_zoom _ _ _ d) as [[[]|] s] eqn:Ez; [|done].
    apply merge_usage_zoom in Ez as [u ->]. intros Hd. apply (Hrest u). simpl in *. by destruct (has_usage u).
  - intros Hd. apply (Hrest (de_usage d)). simpl in *. by destruct (has_usage (de_usage d)).
Qed.

(** [decodes] from the events, when the new identifiers are known. *)
Lemma decodes_intro l d es d' m :
  es = numbered (de_sequence d) l -> de_sequence d' = foldl (fun s _ => sat_add U64_MAX s 1) (de_sequence d) l ->
  ended d' = existsb (fun e => event_is_terminal e.2) l || ended d ->
  idents d' = m -> effects (de_response_started d) (idents d) l (de_response_started d') m -> decodes d es d'.
Proof. intros ? ? ? <- ?. by exists l. Qed.

Lemma block_start_decodes object d es d' : decode_block_start object d = (Ok es, d') -> decodes d es d'.
Proof.
  unfold decode_block_start. cbv [st_bind st_ret st_lift st_get invalid_state].
  destruct (required_index _ _) as [i|]; [|done]. destruct (is_some (de_blocks d !! i)) eqn:Ei; [done|].
  apply idents_none in Ei. destruct (required_object _ _ _) as [block|]; [|done].
  destruct (required_string block "type" _) as [kind|]; [|done].
  case_match; [|case_match; [|case_match]].
  - unfold decode_text_start. st_unfold. destruct (optional_string _ _ _) as [text|]; [|done].
    destruct (opt_filter text _) as [t|]; intros [= <- <-].
    + eapply (decodes_intro [(Some (block_id "text" i), TextStart); (Some (block_id "text" i), TextDelta t)]);
        [done..|apply idents_insert|]. econstructor; [by apply eff_text_start|]. econstructor; [|constructor].
      apply (eff_delta _ _ i); [by rewrite lookup_insert_eq|done].
    + eapply (decodes_intro [(_, _)]); [done..|apply idents_insert|]. econstructor; [by apply eff_text_start|constructor].
  - unfold decode_thinking_start. st_unfold. destruct (optional_string _ "thinking" _) as [text|]; [|done].
    destruct (optional_string _ "signature" _) as [signature|]; [|done]. destruct (optional_string _ "data" _) as [data|]; [|done].
    case_match; intros [= <- <-].
    + eapply (decodes_intro [(_, _)]); [done..|apply idents_insert|]. econstructor; [by apply eff_reasoning_start|constructor].
    + eapply (decodes_intro [(_, _); (_, _)]); [done..|apply idents_insert|].
      econstructor; [by apply eff_reasoning_start|]. econstructor; [|constructor].
      apply (eff_delta _ _ i); [by rewrite lookup_insert_eq|done].
  - unfold decode_tool_start. st_unfold. destruct (required_string _ "id" _) as [id|]; [|done].
    destruct (required_string _ "name" _) as [name|]; [|done].
    destruct (opt_filter _ _) as [input|]; [destruct (to_vec input); simpl; [|done]|]; intros [= <- <-].
    + eapply (decodes_intro [(_, _); (_, _)]); [done..|apply idents_insert|].
      econstructor; [by apply (eff_tool_start _ _ i)|]. econstructor; [|constructor]. apply (eff_tool_delta _ _ i). by rewrite lookup_insert_eq.
    + eapply (decodes_intro [(_, _)]); [done..|apply idents_insert|]. econstructor; [by apply (eff_tool_start _ _ i)|constructor].
  - unfold insert_block, st_modify. intros (b & -> & ->)%opaque_decodes.
    eapply (decodes_intro [(_, _)]); [done..|apply idents_insert|]. econstructor; [by apply eff_opaque_start|constructor].
Qed.

Lemma opaque_decodes' raw d es d' : opaque_event raw d = (Ok es, d') -> decodes d es d'.
Proof.
  intros (b & -> & ->)%opaque_decodes. eapply (decodes_intro [(_, _)]); [done..|]. econstructor; [by apply eff_plain|constructor].
Qed.

Lemma block_delta_decodes object raw d es d' : decode_block_delta object raw d = (Ok es, d') -> decodes d es d'.
Proof.
  unfold decode_block_delta. cbv [st_bind st_ret st_lift st_get].
  destruct (required_index _ _) as [i|]; [|done]. destruct (required_object _ _ _) as [delta|]; [|done].
  destruct (required_string delta "type" _) as [kind|]; [|done].
  assert (Ho : forall m, (if String.eqb kind "citations_delta" then opaque_event raw
    else match de_blocks d !! i with
         | None => invalid_state ("delta referenced unknown content block " +:+ pretty i)
         | Some _ => invalid_state m
         end) d = (Ok es, d') -> decodes d es d').
  { intros m. case_match; [apply opaque_decodes'|]. by case_match. }
  destruct (de_blocks d !! i) as [[id|id text signature encrypted|id|]|] eqn:Ei;
    [destruct (String.eqb kind "text_delta"); [|apply Ho]
    |destruct (String.eqb kind "thinking_delta"); [|destruct (String.eqb kind "signature_delta"); [|apply Ho]]
    |destruct (String.eqb kind "input_json_delta"); [|apply Ho]|apply opaque_decodes'|apply (Ho "")].
  - destruct (required_string _ _ _); [|done]. st_unfold. intros [= <- <-].
    eapply (decodes_intro [(_, _)]); [done..|]. econstructor; [|constructor]. by apply (eff_delta _ _ i); [apply (idents_lookup _ _ _ Ei)|].
  - destruct (required_string _ _ _); [|done]. st_unfold. intros [= <- <-].
    eapply (decodes_intro [(_, _)]); [done..|by apply (idents_update d i _ _ Ei)|].
    econstructor; [|constructor]. by apply (eff_delta _ _ i); [apply (idents_lookup _ _ _ Ei)|].
  - destruct (required_string _ _ _); [|done]. st_unfold. intros [= <- <-].
    eapply (decodes_intro []); [done..|by apply (idents_update d i _ _ Ei)|]. constructor.
  - destruct (required_string _ _ _); [|done]. st_unfold. intros [= <- <-].
    eapply (decodes_intro [(_, _)]); [done..|]. econstructor; [|constructor]. apply (eff_tool_delta _ _ i), (idents_lookup _ _ _ Ei).
Qed.

Lemma block_stop_decodes object d es d' : decode_block_stop object d = (Ok es, d') -> decodes d es d'.
Proof.
  unfold decode_block_stop. cbv [st_bind st_ret st_lift st_get st_modify].
  destruct (required_index _ _) as [i|]; [|done]. destruct (de_blocks d !! i) as [b|] eqn:Ei; [|done].
  apply idents_lookup in Ei as Hi. destruct b as [id|id text signature encrypted|id|].
  4: { intros (b & -> & ->)%opaque_decodes. eapply (decodes_intro [(_, _)]); [done..|apply idents_delete|].
       econstructor; [by apply eff_opaque_end|constructor]. }
  all: st_unfold; intros [= <- <-]; eapply (decodes_intro [(_, _)]); [done..|apply idents_delete|].
  all: econstructor; [|constructor]; first [by apply eff_tool_end|by apply eff_end].
Qed.

Lemma message_delta_decodes object d es d' : decode_message_delta object d = (Ok es, d') -> decodes d es d'.
Proof.
  unfold decode_message_delta. cbv [st_bind st_ret st_lift st_get st_modify one event].
  set (reason := opt_filter _ _).
  assert (Hc : forall u r, (Ok [event_new (de_sequence d) (Completion r (Some u))] : Result _ AnthropicStreamError,
    set_sequence (sat_add U64_MAX (de_sequence d) 1) (set_completed (set_usage u d))) = (Ok es, d') -> decodes d es d').
  { intros u r [= <- <-]. eapply (decodes_intro [(None, _)]); try done. econstructor; [by apply eff_plain|constructor]. }
  assert (Hu : forall u, (Ok [event_new (de_sequence d) (UsageEvent u)] : Result _ AnthropicStreamError,
    set_sequence (sat_add U64_MAX (de_sequence d) 1) (set_usage u d)) = (Ok es, d') -> decodes d es d').
  { intros u [= <- <-]. eapply (decodes_intro [(None, _)]); try done. econstructor; [by apply eff_plain|constructor]. }
  destruct (obj_get "usage" object) as [usage|]; simpl.
  - destruct (st_zoom _ _ _ d) as [[[]|] s] eqn:Ez; [|done]. apply merge_usage_zoom in Ez as [u ->].
    destruct reason as [r|]; [destruct (ok_or _ _); [|done]|]; [apply (Hc u)|apply (Hu u)].
  - destruct reason as [r|]; [destruct (ok_or _ _); [|done]|]; [apply (Hc (de_usage d))|].
    intros [= <- <-]. eapply (decodes_intro []); [done..|constructor].
Qed.

Lemma message_stop_decodes d es d' : decode_message_stop d = (Ok es, d') -> decodes d es d'.
Proof.
  unfold decode_message_stop. cbv [st_bind st_ret st_lift st_get st_modify one event]. case_match; [done|].
  case_match eqn:Ec; intros [= <- <-].
  { eapply (decodes_intro []); [done|done| |done|constructor]. unfold ended. simpl. by rewrite Ec, orb_true_r. }
  eapply (decodes_intro [(_, _)]); [done|done|by unfold ended; simpl; rewrite orb_true_r|done|].
  econstructor; [by apply eff_plain|constructor].
Qed.

Lemma error_decodes object d es d' : decode_error object d = (Ok es, d') -> decodes d es d'.
Proof.
  unfold decode_error. cbv [st_bind st_ret st_lift st_get st_modify one event].
  destruct (required_object _ _ _) as [error|]; [|done]. destruct (required_string _ "type" _); [|done].
  destruct (required_string _ "message" _); [|done]. destruct (pj_from_value _); simpl; [|done]. intros [= <- <-].
  eapply (decodes_intro [(_, _)]); [done|done|by unfold ended; simpl; rewrite orb_true_r|done|].
  econstructor; [by apply eff_plain|constructor].
Qed.

Lemma value_decodes kind object raw d es d' : decode_value kind object raw d = (Ok es, d') -> decodes d es d'.
Proof.
  unfold decode_value. repeat case_match; eauto using message_start_decodes, block_start_decodes, block_delta_decodes,
    block_stop_decodes, message_delta_decodes, message_stop_decodes, error_decodes, opaque_decodes'.
  intros [= <- <-]. eapply (decodes_intro []); [done..|constructor].
Qed.

Lemma sse_event_decodes e d es d' : decode_sse_event e d = (Ok es, d') -> decodes d es d'.
Proof.
  unfold decode_sse_event. cbv [st_bind st_lift st_get]. case_match; [done|]. destruct (map_err _ _); [|done].
  destruct (ok_or _ _); [|done]. destruct (required_string _ _ _); [|done]. case_match; [done|]. apply value_decodes.
Qed.
End codec.

(** * The validator follows the decoder *)

(** An identifier a provider gives to a tool call: not empty, and not one of the decoder's own. *)
Definition tool_name (id : string) : Prop := str_is_empty id = false /\ starts_with id "anthropic-" = false.

(** The events up to the first that ends the stream. *)
Fixpoint until_terminal (events : list StreamEvent) : list StreamEvent :=
  match events with
  | [] => []
  | e :: events => e :: if event_is_terminal (ev_kind e) then [] else until_terminal events
  end.

Record tracks (used : list string) (sequence : N) (started : bool) (m : gmap N (option string)) (v : StreamValidator) : Prop := {
  tr_sequence : forall p, sv_last_sequence v = Some p -> p < sequence;
  tr_started : sv_response_started v = started;
  tr_nodup : NoDup (sv_open_blocks v);
  tr_open : forall id, id ∈ sv_open_blocks v <-> exists i, m !! i = Some (Some id);
  tr_named : forall i id, m !! i = Some (Some id) -> id = block_id "text" i \/ id = block_id "thinking" i \/ id ∈ used;
  tr_inj : forall i j id, m !! i = Some (Some id) -> m !! j = Some (Some id) -> i = j;
}.

Lemma block_id_inj k i j : block_id k i = block_id k j -> i = j.
Proof. unfold block_id. intros E. repeat (apply (inj (String.append _)) in E). by apply (inj pretty) in E. Qed.

Lemma block_id_kinds i j : block_id "text" i <> block_id "thinking" j.
Proof. by unfold block_id. Qed.

Lemma tool_not_block id k i : tool_name id -> k = "text" \/ k = "thinking" -> id <> block_id k i.
Proof. intros [_ Hp] [-> | ->] ->; by apply (f_equal negb) in Hp. Qed.

Lemma accept_next used sequence started m v id k open :
  tracks used sequence started m v -> sv_terminal v = false -> (is_response_start k = true -> started = false) ->
  match block_action k with
  | Some a => apply_action (sv_open_blocks v) (MkStreamEvent sequence id k []) a
  | None => Ok (sv_open_blocks v)
  end = Ok open ->
  accept v (MkStreamEvent sequence id k [])
  = (Ok tt, MkStreamValidator (Some sequence) (started || is_response_start k) (event_is_terminal k) open).
Proof.
  intros [Hq <- _ _ _ _] Ht Hs Ho. by apply (accept_ok v (MkStreamEvent sequence id k []) open).
Qed.

(** The state of the validator after an accepted event. *)
Lemma tracks_after used used' sequence started m v started' m' t open :
  tracks used sequence started m v -> (forall id, id ∈ used -> id ∈ used') -> NoDup open ->
  (forall id, id ∈ open <-> exists i, m' !! i = Some (Some id)) ->
  (forall i id, m' !! i = Some (Some id) -> m !! i = Some (Some id)
     \/ (id = block_id "text" i \/ id = block_id "thinking" i \/ id ∈ used') /\ id ∉ sv_open_blocks v) ->
  (forall i j id, m' !! i = Some (Some id) -> m !! i <> Some (Some id) -> m' !! j = Some (Some id) -> m !! j <> Some (Some id) -> i = j) ->
  tracks used' (sequence + 1) started' m' (MkStreamValidator (Some sequence) started' t open).
Proof.
  intros [Hq Hs Hn Ho Hd Hi] Hsub Hnd Hop Hnew Huniq. constructor; simpl; [intros ? [= <-]; lia|done..| |].
  - intros i id Hid. destruct (Hnew i id Hid) as [Hm|[? _]]; [|done]. destruct (Hd i id Hm) as [? | [? | ?]]; eauto.
  - intros i j id Hid Hjd.
    destruct (Hnew i id Hid) as [Hmi|[_ Hx]], (Hnew j id Hjd) as [Hmj|[_ Hy]].
    + by eapply Hi.
    + exfalso. apply Hy, Ho. eauto.
    + exfalso. apply Hx, Ho. eauto.
    + apply (Huniq i j id); [done| |done|]; intros E; [apply Hx|apply Hy]; apply Ho; eauto.
Qed.

Lemma tracks_open used used' sequence started m v i id started' t :
  tracks used sequence started m v -> (forall id, id ∈ used -> id ∈ used') -> m !! i = None -> id ∉ sv_open_blocks v ->
  id = block_id "text" i \/ id = block_id "thinking" i \/ id ∈ used' ->
  tracks used' (sequence + 1) started' (<[i := Some id]> m) (MkStreamValidator (Some sequence) started' t (sv_open_blocks v ++ [id])).
Proof.
  intros Ht Hsub Hi Hnew Hid. eapply tracks_after; [done|done|..].
  - apply NoDup_app. split_and!; [apply Ht| |apply NoDup_singleton]. by intros x Hx ->%list_elem_of_singleton.
  - intros x. rewrite elem_of_app, list_elem_of_singleton, (tr_open _ _ _ _ _ Ht). split.
    + intros [[j Hj]| ->]; [exists j; by rewrite lookup_insert_ne by congruence|exists i; by rewrite lookup_insert_eq].
    + intros [j [[-> [= ->]]|[Hne Hj]]%lookup_insert_Some]; [by right|left; eauto].
  - intros j x [[<- [= <-]]|[Hne Hj]]%lookup_insert_Some; [by right|by left].
  - intros j k x [[<- [= <-]]|[? Hj]]%lookup_insert_Some Hn [[<- _]|[? Hk]]%lookup_insert_Some Hn'; done.
Qed.

Lemma tracks_close used sequence started m v i id t x :
  tracks used sequence started m v -> m !! i = Some (Some id) -> sv_open_blocks v !! x = Some id ->
  tracks used (sequence + 1) started (delete i m) (MkStreamValidator (Some sequence) started t (delete x (sv_open_blocks v))).
Proof.
  intros Ht Hi Hx. pose proof (tr_nodup _ _ _ _ _ Ht) as Hn. pose proof (delete_Permutation _ _ _ Hx) as Hp.
  rewrite Hp in Hn. apply NoDup_cons in Hn as [Hnot Hn].
  eapply tracks_after; [done|done|done|..].
  - intros y. split.
    + intros Hy. assert (y ∈ sv_open_blocks v) as [j Hj]%(tr_open _ _ _ _ _ Ht) by (rewrite Hp; by right).
      exists j. rewrite lookup_delete_ne; [done|]. intros <-. by assert (y = id) as -> by congruence.
    + intros [j [Hne Hj]%lookup_delete_Some]. assert (y ∈ sv_open_blocks v) as Hy by (apply (tr_open _ _ _ _ _ Ht); eauto).
      rewrite Hp in Hy. apply elem_of_cons in Hy as [-> |]; [|done]. by destruct Hne; eapply tr_inj.
  - intros j y [_ Hj]%lookup_delete_Some. by left.
  - intros j k y [_ Hj]%lookup_delete_Some Hn'. done.
Qed.

Lemma tracks_same used sequence started m m' v started' t :
  tracks used sequence started m v -> (forall i id, m' !! i = Some (Some id) <-> m !! i = Some (Some id)) ->
  tracks used (sequence + 1) started' m' (MkStreamValidator (Some sequence) started' t (sv_open_blocks v)).
Proof.
  intros Ht Hm. eapply tracks_after; [done|done|apply Ht|..].
  - intros id. rewrite (tr_open _ _ _ _ _ Ht). by setoid_rewrite Hm.
  - intros i id Hi%Hm. by left.
  - intros i j id Hi%Hm Hn. done.
Qed.

Lemma fresh_block used sequence started m v i k :
  tracks used sequence started m v -> Forall tool_name used -> m !! i = None -> k = "text" \/ k = "thinking" ->
  block_id k i ∉ sv_open_blocks v.
Proof.
  intros Ht Hu Hi Hk [j Hj]%(tr_open _ _ _ _ _ Ht). rewrite Forall_forall in Hu.
  destruct (tr_named _ _ _ _ _ Ht _ _ Hj) as [E|[E|E]].
  - destruct Hk as [-> | ->]; [apply block_id_inj in E as ->; by rewrite Hi in Hj|by apply eq_sym, block_id_kinds in E].
  - destruct Hk as [-> | ->]; [by apply block_id_kinds in E|apply block_id_inj in E as ->; by rewrite Hi in Hj].
  - by apply (tool_not_block _ k i (Hu _ E) Hk).
Qed.

Lemma fresh_tool used sequence started m v id :
  tracks used sequence started m v -> NoDup (used ++ [id]) -> tool_name id -> id ∉ sv_open_blocks v.
Proof.
  intros Ht (_ & Hd & _)%NoDup_app Hid [j Hj]%(tr_open _ _ _ _ _ Ht).
  destruct (tr_named _ _ _ _ _ Ht _ _ Hj) as [E|[E|E]].
  - by apply (tool_not_block _ "text" j Hid (or_introl eq_refl)) in E.
  - by apply (tool_not_block _ "thinking" j Hid (or_intror eq_refl)) in E.
  - by apply (Hd id E), list_elem_of_singleton.
Qed.

(** The event is accepted, and the validator still follows. *)
Definition accepted (used : list string) (sequence : N) (v : StreamValidator) (id : option string) (k : StreamEventKind)
    (started' : bool) (m' : gmap N (option string)) : Prop :=
  exists v', accept v (MkStreamEvent sequence id k []) = (Ok tt, v') /\ sv_terminal v' = event_is_terminal k
    /\ tracks (used ++ started_tool k) (sequence + 1) started' m' v'.

Section accepted.
Context (used : list string) (sequence : N) (started : bool) (m : gmap N (option string)) (v : StreamValidator).
Context (Ht : tracks used sequence started m v) (Hterm : sv_terminal v = false).

Lemma plain_accepted id k m' :
  (forall i id, m' !! i = Some (Some id) <-> m !! i = Some (Some id)) -> plain k = true ->
  accepted used sequence v id k started m'.
Proof.
  intros Hm [Ha Hr]%andb_true_iff. eexists. split; [eapply accept_next; [done..| |]|split; [done|]].
  - intros E. by rewrite E in Hr.
  - by destruct (block_action k).
  - assert (started_tool k = []) as -> by by destruct k. rewrite app_nil_r. destruct (is_response_start k); [done|].
    rewrite orb_false_r. by eapply tracks_same.
Qed.

Lemma open_accepted id k i name :
  m !! i = None -> is_response_start k = false -> str_is_empty name = false -> name ∉ sv_open_blocks v ->
  match block_action k with
  | Some a => apply_action (sv_open_blocks v) (MkStreamEvent sequence id k []) a
  | None => Ok (sv_open_blocks v)
  end = start_block (sv_open_blocks v) name ->
  name = block_id "text" i \/ name = block_id "thinking" i \/ name ∈ used ++ started_tool k ->
  accepted used sequence v id k started (<[i := Some name]> m).
Proof.
  intros Hi Hr He Hnew Ha Hname. rewrite start_block_fresh in Ha by done.
  eexists. split; [by eapply accept_next; [done..|rewrite Hr| ]|split; [done|]]. simpl. rewrite Hr, orb_false_r.
  eapply tracks_open; [done| |done..]. intros x. rewrite elem_of_app. by left.
Qed.

Lemma continue_accepted id k i name :
  m !! i = Some (Some name) -> is_response_start k = false -> started_tool k = [] ->
  match block_action k with
  | Some a => apply_action (sv_open_blocks v) (MkStreamEvent sequence id k []) a
  | None => Ok (sv_open_blocks v)
  end = continue_block (sv_open_blocks v) name ->
  accepted used sequence v id k started m.
Proof.
  intros Hi Hr Hs Ha. assert (Hin : name ∈ sv_open_blocks v) by (apply (tr_open _ _ _ _ _ Ht); eauto).
  rewrite continue_block_open in Ha by done. eexists. split; [by eapply accept_next; [done..|rewrite Hr|]|split; [done|]].
  simpl. rewrite Hr, orb_false_r, Hs, app_nil_r. by eapply tracks_same.
Qed.

Lemma close_accepted id k i name :
  m !! i = Some (Some name) -> is_response_start k = false -> started_tool k = [] ->
  match block_action k with
  | Some a => apply_action (sv_open_blocks v) (MkStreamEvent sequence id k []) a
  | None => Ok (sv_open_blocks v)
  end = end_block (sv_open_blocks v) name ->
  accepted used sequence v id k started (delete i m).
Proof.
  intros Hi Hr Hs Ha. assert (Hin : name ∈ sv_open_blocks v) by (apply (tr_open _ _ _ _ _ Ht); eauto).
  destruct (end_block_open _ _ Hin) as (x & Hx & Hend). rewrite Hend in Ha.
  eexists. split; [by eapply accept_next; [done..|rewrite Hr|]|split; [done|]].
  simpl. rewrite Hr, orb_false_r, Hs, app_nil_r. by eapply tracks_close.
Qed.

End accepted.

Lemma effect_accepted used sequence started m v id k started' m' :
  tracks used sequence started m v -> sv_terminal v = false ->
  effect started m (id, k) started' m' -> NoDup (used ++ started_tool k) -> Forall tool_name (used ++ started_tool k) ->
  accepted used sequence v id k started' m'.
Proof.
  intros Ht Hterm He Hnd Hok. pose proof Hok as [Hused Htool]%Forall_app.
  inversion He as [? ? Hp|? ? ->|i Hi|i Hi|i name ? Hi|i ? ? Hp Hi|i name ? Hi Ha|i name ? Hi|i name ? Hi Ha|i name Hi|i ? ? Hi Hp]; subst.
  - by eapply plain_accepted.
  - eexists. split; [by eapply accept_next|split; [done|]]. simpl. rewrite app_nil_r. by eapply tracks_same.
  - eapply open_accepted; [done..|by eapply fresh_block; eauto|done|by left].
  - eapply open_accepted; [done..|by eapply fresh_block; eauto|done|by right; left].
  - apply Forall_cons in Htool as [Hname _]. eapply open_accepted; [done..|apply Hname|by eapply fresh_tool|done|].
    right; right. rewrite elem_of_app. right. by apply list_elem_of_singleton.
  - eapply plain_accepted; [done..| |done]. intros j x. rewrite lookup_insert_Some. split; [by intros [[_ [=]]|[_ ?]]|].
    intros Hj. right. split; [congruence|done].
  - eapply continue_accepted; [done..|by destruct k|by destruct k|]. by rewrite Ha.
  - by eapply continue_accepted.
  - eapply close_accepted; [done..|by destruct k|by destruct k|]. by rewrite Ha.
  - by eapply close_accepted.
  - eapply plain_accepted; [done..| |done]. intros j x. rewrite lookup_delete_Some. split; [by intros [_ ?]|].
    intros Hj. split; [congruence|done].
Qed.

(** * Streams *)

Definition tools_of (l : list (option string * StreamEventKind)) : list string := concat (map (fun e => started_tool e.2) l).

Lemma tool_ids_numbered sequence l : tool_ids (numbered sequence l) = tools_of l.
Proof. revert sequence. induction l as [|[id k] l IH]; intros sequence; [done|]. unfold tool_ids, tools_of in *. simpl. by rewrite IH. Qed.

Lemma effects_accepted started m l started' m' :
  effects started m l started' m' -> forall used sequence v,
  tracks used sequence started m v -> sv_terminal v = false -> sequence + N.of_nat (length l) <= U64_MAX ->
  NoDup (used ++ tools_of l) -> Forall tool_name (used ++ tools_of l) ->
  exists v', accept_all v (until_terminal (numbered sequence l)) = Ok v'
    /\ sv_terminal v' = existsb (fun e => event_is_terminal e.2) l
    /\ (sv_terminal v' = false -> until_terminal (numbered sequence l) = numbered sequence l
          /\ tracks (used ++ tools_of l) (sequence + N.of_nat (length l)) started' m' v').
Proof.
  induction 1 as [started m|started m [id k] started1 m1 l started2 m2 He _ IH]; intros used sequence v Ht Hv Hb Hnd Hok.
  - exists v. split_and!; [done..|]. intros _. split; [done|]. unfold tools_of. simpl. by rewrite app_nil_r, N.add_0_r.
  - unfold tools_of in Hnd, Hok. simpl in Hnd, Hok, Hb. rewrite app_assoc in Hnd, Hok. fold (tools_of l) in Hnd, Hok.
    destruct (effect_accepted _ _ _ _ _ _ _ _ _ Ht Hv He) as (v1 & Ha & Hterm & Ht1);
      [by apply NoDup_app in Hnd as (? & _)|by apply Forall_app in Hok as [? _]|].
    simpl. rewrite Ha. destruct (event_is_terminal k) eqn:Ek; simpl; [exists v1; split_and!; [done..|congruence]|].
    assert (sat_add U64_MAX sequence 1 = sequence + 1) as Hs by (unfold sat_add; lia). rewrite Hs.
    destruct (IH _ _ _ Ht1 Hterm) as (v2 & Ha2 & Ht2 & Hrest); [lia|done..|].
    exists v2. split_and!; [done..|]. intros Hf. destruct (Hrest Hf) as [-> Htr]. split; [done|].
    unfold tools_of in *. cbn [map concat length]. rewrite app_assoc.
    by replace (sequence + N.of_nat (S (length l))) with (sequence + 1 + N.of_nat (length l)) by lia.
Qed.

Lemma numbered_length sequence l : length (numbered sequence l) = length l.
Proof. revert sequence. induction l as [|[id k] l IH]; intros sequence; [done|]. simpl. by rewrite IH. Qed.

Definition ends (es : list StreamEvent) : bool := existsb (fun e => event_is_terminal (ev_kind e)) es.
Lemma ends_numbered sequence l : ends (numbered sequence l) = existsb (fun e => event_is_terminal e.2) l.
Proof. revert sequence. induction l as [|[id k] l IH]; intros sequence; [done|]. unfold ends in *. simpl. by rewrite IH. Qed.

Lemma ends_app es fs : ends (es ++ fs) = ends es || ends fs.
Proof. apply existsb_app. Qed.

Lemma until_terminal_app es fs : until_terminal (es ++ fs) = if ends es then until_terminal es else es ++ until_terminal fs.
Proof.
  unfold ends. induction es as [|e es IH]; [done|]. simpl. destruct (event_is_terminal (ev_kind e)); [done|]. simpl. rewrite IH.
  by destruct (existsb _ es).
Qed.

Section stream.
Context `{SerdeJson}.

(** The events a stream of records is decoded to, up to the first record that is refused, and the
    decoder before it. *)
Fixpoint decode_until (records : list SseEvent) (d : AnthropicEventDecoder) : list StreamEvent * AnthropicEventDecoder :=
  match records with
  | [] => ([], d)
  | r :: records =>
    match decode_sse_event r d with
    | (Ok es, d') => let '(more, d'') := decode_until records d' in (es ++ more, d'')
    | (Err _, _) => ([], d)
    end
  end.

Lemma decode_until_valid records : forall d events d' used v,
  decode_until records d = (events, d') -> tracks used (de_sequence d) (de_response_started d) (idents d) v ->
  sv_terminal v = false -> ended d = false -> de_sequence d + N.of_nat (length events) <= U64_MAX ->
  NoDup (used ++ tool_ids events) -> Forall tool_name (used ++ tool_ids events) ->
  exists v', accept_all v (until_terminal events) = Ok v' /\ sv_terminal v' = ends events
    /\ (ended d' = true -> ends events = true)
    /\ (sv_terminal v' = false -> forall id, id ∈ sv_open_blocks v' <-> exists i, idents d' !! i = Some (Some id)).
Proof.
  induction records as [|r records IH]; intros d events d' used v Hd Ht Hv He Hb Hnd Hok; simpl in Hd.
  { injection Hd as <- <-. exists v. split_and!; [done..|congruence|]. intros _. apply Ht. }
  destruct (decode_sse_event r d) as [[es|] d1] eqn:E1.
  2: { injection Hd as <- <-. exists v. split_and!; [done..|congruence|]. intros _. apply Ht. }
  destruct (decode_until records d1) as [more d2] eqn:E2. injection Hd as <- <-.
  apply sse_event_decodes in E1 as (l & -> & Hseq & Hend & Heff).
  unfold tool_ids in Hnd, Hok. rewrite map_app, concat_app, app_assoc in Hnd, Hok.
  fold (tool_ids (numbered (de_sequence d) l)) in Hnd, Hok. fold (tool_ids more) in Hnd, Hok. rewrite tool_ids_numbered in Hnd, Hok.
  rewrite length_app, numbered_length in Hb.
  destruct (effects_accepted _ _ _ _ _ Heff _ _ _ Ht Hv) as (v1 & Ha & Hterm & Hrest);
    [lia|by apply NoDup_app in Hnd as (? & _)|by apply Forall_app in Hok as [? _]|].
  rewrite until_terminal_app, ends_app, ends_numbered. destruct (existsb _ l) eqn:El; simpl; [exists v1; split_and!; [done..|congruence]|].
  destruct (Hrest Hterm) as [Hall Htr]. rewrite Hall in Ha.
  assert (Hs1 : de_sequence d1 = de_sequence d + N.of_nat (length l)).
  { rewrite Hseq. clear -Hb. revert Hb. generalize (de_sequence d) as s. induction l as [|e l IH]; intros s Hb; simpl in *; [lia|].
    rewrite IH; unfold sat_add; lia. }
  rewrite <- Hs1 in Htr. rewrite He, orb_false_r in Hend.
  destruct (IH _ _ _ _ _ E2 Htr Hterm Hend) as (v2 & Ha2 & Ht2 & Hen & Hop); [rewrite Hs1; lia|done..|].
  exists v2. rewrite accept_all_app, Ha. simpl. done.
Qed.

Lemma tracks_default : tracks [] 0 false ∅ validator_default.
Proof.
  constructor; simpl; [done|done|constructor|..].
  - intros id. split; [by intros ?%elem_of_nil|by intros [i Hi]].
  - intros i id Hi. done.
  - intros i j id Hi. done.
Qed.

(** [C26] The Anthropic decoder emits well-formed streams: whatever records the provider
    sends, as long as it gives every tool call a name of its own, the events up to the end of
    the response pass the stream validator (increasing numbers, one response start, deltas and
    ends only for open blocks, no block opened twice); when the decoder reports the stream
    finished, one of them completed or failed it; and before that the blocks the validator
    knows to be open are those the decoder has. *)
Theorem decoder_stream_valid records events d :
  decode_until records decoder_new = (events, d) ->
  NoDup (tool_ids events) -> Forall tool_name (tool_ids events) -> N.of_nat (length events) <= U64_MAX ->
  exists v, accept_all validator_default (until_terminal events) = Ok v /\ sv_terminal v = ends events
    /\ (de_terminal d = true -> ends events = true)
    /\ (sv_terminal v = false -> forall id,
          id ∈ sv_open_blocks v <-> exists i b, de_blocks d !! i = Some b /\ block_ident b = Some id).
Proof.
  intros Hd Hnd Hok Hb.
  destruct (decode_until_valid records _ _ _ [] validator_default Hd) as (v & Ha & Ht & He & Ho);
    [apply tracks_default|done..|]. exists v. split_and!; [done..| |].
  - intros Hterm. apply He. unfold ended. by rewrite Hterm, orb_true_r.
  - intros Hf id. rewrite (Ho Hf). unfold idents. split.
    + intros [i (b & Hb' & Hi)%lookup_fmap_Some]. eauto.
    + intros (i & b & Hi & Hb'). exists i. rewrite lookup_fmap, Hi. simpl. by rewrite Hb'.
Qed.
End stream.

(** A provider that streams a text and a tool call. *)
Definition example_records : list SseEvent :=
  map (fun v => match @to_vec bits_json v with Ok b => sse_event_new b | Err _ => sse_event_new [] end)
    [json_object [("type", Str "message_start"); ("message", json_object [("id", Str "msg_1"); ("usage", json_object [("input_tokens", number 9)])])];
     json_object [("type", Str "content_block_start"); ("index", number 0); ("content_block", json_object [("type", Str "text")])];
     json_object [("type", Str "ping")];
     json_object [("type", Str "content_block_delta"); ("index", number 0); ("delta", json_object [("type", Str "text_delta"); ("text", Str "hello")])];
     json_object [("type", Str "content_block_start"); ("index", number 1);
                  ("content_block", json_object [("type", Str "tool_use"); ("id", Str "toolu_1"); ("name", Str "Read"); ("input", Object [])])];
     json_object [("type", Str "content_block_stop"); ("index", number 1)];
     json_object [("type", Str "content_block_stop"); ("index", number 0)];
     json_object [("type", Str "message_delta"); ("delta", json_object [("stop_reason", Str "tool_use")])];
     json_object [("type", Str "message_stop")]].
Definition example_decoded := @decode_until bits_json example_records decoder_new.

(** Eight events, the last of which completes the response. *)
Lemma decoder_stream_valid_witness :
  length example_decoded.1 = 8%nat /\ exists v, accept_all validator_default (until_terminal example_decoded.1) = Ok v /\ sv_terminal v = true.
Proof.
  split; [vm_compute; reflexivity|].
  destruct (@decoder_stream_valid bits_json example_records example_decoded.1 example_decoded.2) as (v & Ha & Ht & _).
  - unfold example_decoded. by destruct (decode_until _ _).
  - apply (bool_decide_unpack _). vm_compute. exact I.
  - vm_compute. repeat constructor.
  - vm_compute. discriminate.
  - exists v. split; [exact Ha|]. rewrite Ht. vm_compute. reflexivity.
Defined.

(** A second stop reason is a second completion, which the validator refuses. *)
Example second_completion_refused :
  let stop := match @to_vec bits_json (json_object [("type", Str "message_delta"); ("delta", json_object [("stop_reason", Str "end_turn")])]) with
              | Ok b => sse_event_new b | Err _ => sse_event_new [] end in
  let events := (@decode_until bits_json [stop; stop] decoder_new).1 in
  length events = 2%nat /\ accept_all validator_default events = Err AfterTerminal.
Proof. vm_compute. split; reflexivity. Qed.
