(* ===== verification/AnthropicUsage.v ===== *)
(** The objects the Anthropic encoder writes: looking a member up, the order of the keys,
    and what the decoder understands of an encoded usage. *)
From S2P Require Import Prelude Str Bytes Sse Json JsonFacts Extensions Events Redact Codec SerdeModel Anthropic.

Open Scope N_scope.

(** The detail counters of a usage, as members. *)
Lemma entries_get l : forall m k, NoDup l.*1 ->
  obj_get k (foldl entry_or_insert m l)
  = or_else (obj_get k m) (number <$> (list_to_map l : gmap string N) !! k).
Proof.
  induction l as [|[j n] l IH]; intros m k Hd; simpl in *.
  - rewrite lookup_empty. by destruct (obj_get k m).
  - apply NoDup_cons in Hd as [Hj Hd]. rewrite IH by done. unfold entry_or_insert. simpl.
    destruct (obj_get j m) as [v|] eqn:Ej.
    + destruct (decide (k = j)) as [-> |Hne]; [by rewrite Ej|by rewrite lookup_insert_ne].
    + rewrite obj_get_insert_if. destruct (decide (k = j)) as [-> |Hne].
      * by rewrite bool_decide_eq_true_2, lookup_insert_eq, Ej.
      * by rewrite bool_decide_eq_false_2, lookup_insert_ne.
Qed.

(** * Usage *)

(** The counters of the type [u64], the names Rust strings. *)
Definition usage_typed (u : Usage) : Prop :=
  input_tokens u <= U64_MAX /\ output_tokens u <= U64_MAX
  /\ (forall n, cached_input_tokens u = Some n -> n <= U64_MAX)
  /\ (forall k n, usage_details u !! k = Some n -> is_str k /\ n <= U64_MAX).

(** What an encoded usage says: its details, with the cached tokens among them. *)
Definition told_details (w : Usage) : gmap string N :=
  delete "input_tokens" (delete "output_tokens"
    match cached_input_tokens w with
    | Some cached => <["cache_read_input_tokens" := cached]> (usage_details w)
    | None => usage_details w
    end).
(** The usage a reader has that knew [u] and is told [w]. *)
Definition usage_told (u w : Usage) : Usage :=
  MkUsage (input_tokens w) (output_tokens w) (reasoning_tokens u)
    (or_else (told_details w !! "cache_read_input_tokens") (cached_input_tokens u))
    (Some (sat_add U64_MAX (input_tokens w) (output_tokens w))) (told_details w ∪ usage_details u).

Definition usage_members (w : Usage) : list (string * Value) := match encode_usage w with Object m => m | _ => [] end.

Lemma usage_member_get w k :
  obj_get k (usage_members w)
  = if beq k "input_tokens" then Some (number (input_tokens w))
    else if beq k "output_tokens" then Some (number (output_tokens w))
    else number <$> told_details w !! k.
Proof.
  unfold usage_members, encode_usage, told_details. rewrite entries_get by apply btree_list_nodup. rewrite btree_list_map.
  repeat case_bool_decide; subst; [by destruct (cached_input_tokens w)..|]. rewrite !lookup_delete_ne by done.
  assert (Hk : obj_get k (json_members [("input_tokens", number (input_tokens w)); ("output_tokens", number (output_tokens w))]) = None).
  { simpl. by rewrite !bool_decide_eq_false_2. }
  destruct (cached_input_tokens w) as [c|]; [|by rewrite Hk]. rewrite obj_get_insert_if.
  case_bool_decide; [subst; by rewrite lookup_insert_eq|]. rewrite Hk. simpl. by rewrite lookup_insert_ne.
Qed.

Lemma entries_exact {fl} depth l : forall m, members_exact fl depth m -> Forall (fun d => is_str d.1 /\ d.2 <= U64_MAX) l ->
  members_exact fl depth (foldl entry_or_insert m l).
Proof.
  induction l as [|[k n] l IH]; intros m Hm Hl; [done|]. apply Forall_cons in Hl as [[Hk Hn] Hl]. simpl. apply IH; [|done].
  unfold entry_or_insert. simpl. destruct (obj_get k m); [done|]. apply members_insert; [done| |done]. by apply N.leb_le.
Qed.

Lemma usage_members_exact {fl} depth w : usage_typed w -> members_exact fl depth (usage_members w).
Proof.
  intros (Hi & Ho & Hc & Hd). unfold usage_members, encode_usage. apply entries_exact.
  - assert (Hb : members_exact fl depth (json_members [("input_tokens", number (input_tokens w)); ("output_tokens", number (output_tokens w))])).
    { apply json_members_exact. repeat constructor; by apply N.leb_le. }
    destruct (cached_input_tokens w); [|done]. apply members_insert; [done| |done]. apply N.leb_le. by apply Hc.
  - apply Forall_forall. intros [k n] Hin%elem_of_btree_list. by apply Hd.
Qed.

Lemma encode_usage_exact {fl} depth w : usage_typed w -> exact_with fl (S depth) (encode_usage w) = true.
Proof. intros Hw. by apply object_exact, (usage_members_exact depth w). Qed.

(** The loop over the members that are not named. *)
Lemma merge_details_get m : forall u k, NoDup m.*1 ->
  usage_details (foldl merge_detail u m) !! k
  = if existsb (String.eqb k) USAGE_FIELDS then usage_details u !! k
    else or_else (obj_get k m ≫= as_u64) (usage_details u !! k).
Proof.
  induction m as [|[j v] m IH]; intros u k Hd; simpl foldl.
  - simpl. by destruct (_ || _).
  - apply NoDup_cons in Hd as [Hj Hd]. simpl in Hj. rewrite IH by done. cbn [obj_get].
    assert (Hnone : obj_get j m = None).
    { clear -Hj. induction m as [|[i w] m IH]; [done|]. simpl in *. apply not_elem_of_cons in Hj as [Hne Hj].
      rewrite bool_decide_eq_false_2; auto. }
    unfold merge_detail. cbn [fst snd]. destruct (existsb (String.eqb k) USAGE_FIELDS) eqn:Ek.
    + destruct (existsb (String.eqb j) USAGE_FIELDS) eqn:Ej; [done|]. destruct (as_u64 v); [|done]. simpl.
      rewrite lookup_insert_ne; [done|]. intros ->. congruence.
    + case_bool_decide as Hkj.
      * subst j. rewrite Ek, Hnone. simpl. destruct (as_u64 v); [|done]. simpl. by rewrite lookup_insert_eq.
      * destruct (existsb (String.eqb j) USAGE_FIELDS); [done|]. destruct (as_u64 v); [|done]. simpl. by rewrite lookup_insert_ne.
Qed.

Lemma optional_told w k f n :
  obj_get k (usage_members w) = number <$> n -> optional_u64 (usage_members w) k f = Ok n.
Proof. unfold optional_u64. intros ->. by destruct n. Qed.

Lemma merge_details_fields m : forall u,
  let r := foldl merge_detail u m in
  input_tokens r = input_tokens u /\ output_tokens r = output_tokens u /\ reasoning_tokens r = reasoning_tokens u
  /\ cached_input_tokens r = cached_input_tokens u.
Proof.
  induction m as [|[k v] m IH]; intros u; [done|]. simpl. destruct (IH (merge_detail u (k, v))) as (-> & -> & -> & ->).
  unfold merge_detail. simpl. destruct (_ || _); [done|]. by destruct (as_u64 v).
Qed.

(** An update of a usage by an optional counter. *)
Definition told (n : option N) (set : N -> Usage -> Usage) (u : Usage) : Usage := match n with Some n => set n u | None => u end.

Lemma update_told w name f set n u :
  obj_get name (usage_members w) = number <$> n ->
  update_usage_field (usage_members w) name f set u = (Ok tt, told n set u).
Proof.
  intros Hn. unfold update_usage_field. cbv [st_bind st_lift st_modify st_ret]. rewrite (optional_told w name f n Hn). by destruct n.
Qed.

Lemma usage_ext a b :
  input_tokens a = input_tokens b -> output_tokens a = output_tokens b -> reasoning_tokens a = reasoning_tokens b ->
  cached_input_tokens a = cached_input_tokens b -> total_tokens a = total_tokens b -> usage_details a = usage_details b -> a = b.
Proof. destruct a, b. simpl. intros. by subst. Qed.

(** The usage after the four members with names of their own. *)
Definition named_told (w u : Usage) : Usage :=
  told (told_details w !! "cache_creation_input_tokens") (set_detail "cache_creation_input_tokens")
    (told (told_details w !! "cache_read_input_tokens") (fun n u => set_detail "cache_read_input_tokens" n (set_cached (Some n) u))
       (told (Some (output_tokens w)) set_output (told (Some (input_tokens w)) set_input u))).

Lemma named_told_fields w u :
  input_tokens (named_told w u) = input_tokens w /\ output_tokens (named_told w u) = output_tokens w
  /\ reasoning_tokens (named_told w u) = reasoning_tokens u
  /\ cached_input_tokens (named_told w u) = or_else (told_details w !! "cache_read_input_tokens") (cached_input_tokens u).
Proof. unfold named_told. by destruct (told_details w !! "cache_read_input_tokens"), (told_details w !! "cache_creation_input_tokens"). Qed.

Lemma named_told_details w u k :
  usage_details (named_told w u) !! k
  = if existsb (String.eqb k) ["cache_read_input_tokens"; "cache_creation_input_tokens"]
    then or_else (told_details w !! k) (usage_details u !! k) else usage_details u !! k.
Proof.
  unfold named_told. cbn [existsb].
  destruct (String.eqb_spec k "cache_read_input_tokens") as [-> |];
    [|destruct (String.eqb_spec k "cache_creation_input_tokens") as [-> |]];
    destruct (told_details w !! "cache_read_input_tokens"), (told_details w !! "cache_creation_input_tokens"); simpl;
    rewrite ?lookup_insert_eq, ?lookup_insert_ne by done; rewrite ?lookup_insert_eq, ?lookup_insert_ne by done; done.
Qed.

Lemma told_details_plain w : told_details w !! "input_tokens" = None /\ told_details w !! "output_tokens" = None.
Proof. unfold told_details. split; [apply lookup_delete_eq|]. rewrite lookup_delete_ne by done. apply lookup_delete_eq. Qed.

Lemma details_told w u k : usage_typed w ->
  usage_details (foldl merge_detail (named_told w u) (usage_members w)) !! k = (told_details w ∪ usage_details u) !! k.
Proof.
  intros Hw. destruct (told_details_plain w) as [Hi Ho].
  rewrite merge_details_get by (apply sorted_keys_nodup, (usage_members_exact (fl := finite_float) 1 w Hw)).
  rewrite lookup_union, usage_member_get, named_told_details. cbn [existsb USAGE_FIELDS].
  destruct (String.eqb_spec k "input_tokens") as [-> |Hne1]; [rewrite Hi; by destruct (usage_details u !! _)|].
  destruct (String.eqb_spec k "output_tokens") as [-> |]; [rewrite Ho; by destruct (usage_details u !! _)|].
  rewrite !bool_decide_eq_false_2 by done. generalize (told_details w !! k) as a, (usage_details u !! k) as b. intros a b.
  by destruct (String.eqb k "cache_read_input_tokens"), (String.eqb k "cache_creation_input_tokens"), a, b.
Qed.

Lemma merge_told w f u : usage_typed w -> merge_usage (encode_usage w) f u = (Ok tt, usage_told u w).
Proof.
  intros Hw. change (encode_usage w) with (Object (usage_members w)). unfold merge_usage. cbv [st_bind st_lift st_modify as_object ok_or].
  rewrite (update_told w "input_tokens" f _ (Some (input_tokens w))) by (rewrite usage_member_get; done).
  rewrite (update_told w "output_tokens" f _ (Some (output_tokens w))) by (rewrite usage_member_get; done).
  rewrite (update_told w "cache_read_input_tokens" f _ (told_details w !! "cache_read_input_tokens")) by (rewrite usage_member_get; done).
  rewrite (update_told w "cache_creation_input_tokens" f _ (told_details w !! "cache_creation_input_tokens")) by (rewrite usage_member_get; done).
  fold (named_told w u). destruct (named_told_fields w u) as (H1 & H2 & H3 & H4).
  destruct (merge_details_fields (usage_members w) (named_told w u)) as (F1 & F2 & F3 & F4). f_equal.
  apply usage_ext; cbn [set_total usage_told input_tokens output_tokens reasoning_tokens cached_input_tokens total_tokens usage_details];
    [congruence|congruence|congruence|by rewrite F4, H4|by rewrite F1, F2, H1, H2|]. apply map_eq. intros k. by apply details_told.
Qed.
