(* ===== verification/AnthropicRoundtrip.v ===== *)
(** The Anthropic encoder and decoder composed: what a client reads of the stream the gateway
    writes. *)
From stdpp Require Import pretty.
From S2P Require Import Prelude Str CoreError Bytes Sse Json JsonFacts Extensions Events Redact RedactWriter Codec SerdeModel Anthropic AnthropicFacts AnthropicUsage.

Open Scope N_scope.

(** * One record *)

Definition record_members (r : string * Value) : list (string * Value) := match r.2 with Object m => m | _ => [] end.
Definition advance (n : N) (d : AnthropicEventDecoder) : AnthropicEventDecoder := set_sequence n d.

Section records.
Context `{SerdeJson}.

Definition decode_record (r : string * Value) : Dec (list StreamEvent) := decode_value r.1 (record_members r) r.2.

(** The record is decoded to the numbered events and leaves the decoder as [f] does. *)
Definition yields (r : string * Value) (d : AnthropicEventDecoder) (l : list (option string * StreamEventKind))
    (f : AnthropicEventDecoder -> AnthropicEventDecoder) : Prop :=
  decode_record r d = (Ok (numbered (de_sequence d) l), set_sequence (foldl (fun s _ => sat_add U64_MAX s 1) (de_sequence d) l) (f d)).

(** The guards of the three block records, passed. *)
Lemma block_start_at o i b kind d :
  required_index o "content_block_start.index" = Ok i -> de_blocks d !! i = None ->
  required_object o "content_block" "content_block_start.content_block" = Ok b ->
  required_string b "type" "content_block_start.content_block.type" = Ok kind ->
  decode_block_start o d
  = (if String.eqb kind "text" then decode_text_start i b
     else if String.eqb kind "thinking" || String.eqb kind "redacted_thinking" then decode_thinking_start i b
     else if String.eqb kind "tool_use" then decode_tool_start i b
     else let* _ := insert_block i DbOpaque in opaque_event (Object o)) d.
Proof. intros Hi Hn Hb Hk. unfold decode_block_start. cbv [st_bind st_lift st_get]. by rewrite Hi, Hn, Hb, Hk. Qed.

Lemma read_text_start i d : de_blocks d !! i = None ->
  yields (block_start i text_block) d [(Some (block_id "text" i), TextStart)]
    (fun d => set_blocks (<[i := DbText (block_id "text" i)]> (de_blocks d)) d).
Proof. intros Hi. exact (block_start_at (record_members (block_start i text_block)) i (json_members text_block) "text" d eq_refl Hi eq_refl eq_refl). Qed.

Definition thinking_block : list (string * Value) := [("type", Str "thinking"); ("thinking", Str ""); ("signature", Str "")].
Lemma read_reasoning_start i d : de_blocks d !! i = None ->
  yields (block_start i thinking_block) d [(Some (block_id "thinking" i), ReasoningStart)]
    (fun d => set_blocks (<[i := DbReasoning (block_id "thinking" i) "" [] None]> (de_blocks d)) d).
Proof. intros Hi. exact (block_start_at (record_members (block_start i thinking_block)) i (json_members thinking_block) "thinking" d eq_refl Hi eq_refl eq_refl). Qed.

Definition tool_block (id name : string) : list (string * Value) :=
  [("type", Str "tool_use"); ("id", Str id); ("name", Str name); ("input", Object [])].
Lemma read_tool_start i id name d : de_blocks d !! i = None ->
  yields (block_start i (tool_block id name)) d [(None, ToolCallStart id name)]
    (fun d => set_blocks (<[i := DbTool id]> (de_blocks d)) d).
Proof. intros Hi. exact (block_start_at (record_members (block_start i (tool_block id name))) i (json_members (tool_block id name)) "tool_use" d eq_refl Hi eq_refl eq_refl). Qed.

Lemma block_delta_at o raw i delta kind b d :
  required_index o "content_block_delta.index" = Ok i ->
  required_object o "delta" "content_block_delta.delta" = Ok delta ->
  required_string delta "type" "content_block_delta.delta.type" = Ok kind -> de_blocks d !! i = Some b ->
  match b with
  | DbText id => forall text, kind = "text_delta" ->
      required_string delta "text" "content_block_delta.delta.text" = Ok text ->
      decode_block_delta o raw d = one (event_with_block (TextDelta text) id) d
  | DbReasoning id text signature encrypted =>
      (forall fragment, kind = "thinking_delta" ->
         required_string delta "thinking" "content_block_delta.delta.thinking" = Ok fragment ->
         decode_block_delta o raw d
         = (let* _ := insert_block i (DbReasoning id (text +:+ fragment) signature encrypted) in
            one (event_with_block (ReasoningDelta fragment) id)) d)
      /\ (forall fragment, kind = "signature_delta" ->
         required_string delta "signature" "content_block_delta.delta.signature" = Ok fragment ->
         decode_block_delta o raw d
         = (let* _ := insert_block i (DbReasoning id text (signature ++ bytes_of fragment) encrypted) in st_ret []) d)
  | DbTool id => forall arguments, kind = "input_json_delta" ->
      required_string delta "partial_json" "content_block_delta.delta.partial_json" = Ok arguments ->
      decode_block_delta o raw d = one (event (ToolCallDelta id arguments)) d
  | DbOpaque => True
  end.
Proof.
  intros Hi Hd Hk Hb. unfold decode_block_delta. cbv [st_bind st_lift st_get]. rewrite Hi, Hd, Hk, Hb.
  destruct b; [intros x -> ->; done|split; intros x -> ->; done|intros x -> ->; done|done].
Qed.

Lemma read_text_delta i id text d : de_blocks d !! i = Some (DbText id) ->
  yields (block_delta i [("type", Str "text_delta"); ("text", Str text)]) d [(Some id, TextDelta text)] (fun d => d).
Proof. intros Hi. exact (block_delta_at (record_members (block_delta i [("type", Str "text_delta"); ("text", Str text)])) (block_delta i [("type", Str "text_delta"); ("text", Str text)]).2 i
  (json_members [("type", Str "text_delta"); ("text", Str text)]) "text_delta" _ d eq_refl eq_refl eq_refl Hi text eq_refl eq_refl). Qed.
Lemma read_reasoning_delta i id text signature encrypted fragment d :
  de_blocks d !! i = Some (DbReasoning id text signature encrypted) ->
  yields (block_delta i [("type", Str "thinking_delta"); ("thinking", Str fragment)]) d [(Some id, ReasoningDelta fragment)]
    (fun d => set_blocks (<[i := DbReasoning id (text +:+ fragment) signature encrypted]> (de_blocks d)) d).
Proof. intros Hi. exact (proj1 (block_delta_at (record_members (block_delta i [("type", Str "thinking_delta"); ("thinking", Str fragment)])) (block_delta i [("type", Str "thinking_delta"); ("thinking", Str fragment)]).2 i
  (json_members [("type", Str "thinking_delta"); ("thinking", Str fragment)]) "thinking_delta" _ d eq_refl eq_refl eq_refl Hi) fragment eq_refl eq_refl). Qed.
Lemma read_signature_delta i id text signature encrypted fragment d :
  de_blocks d !! i = Some (DbReasoning id text signature encrypted) ->
  yields (block_delta i [("type", Str "signature_delta"); ("signature", Str fragment)]) d []
    (fun d => set_blocks (<[i := DbReasoning id text (signature ++ bytes_of fragment) encrypted]> (de_blocks d)) d).
Proof. intros Hi. exact (proj2 (block_delta_at (record_members (block_delta i [("type", Str "signature_delta"); ("signature", Str fragment)])) (block_delta i [("type", Str "signature_delta"); ("signature", Str fragment)]).2 i
  (json_members [("type", Str "signature_delta"); ("signature", Str fragment)]) "signature_delta" _ d eq_refl eq_refl eq_refl Hi) fragment eq_refl eq_refl). Qed.
Lemma read_tool_delta i id arguments d : de_blocks d !! i = Some (DbTool id) ->
  yields (block_delta i [("type", Str "input_json_delta"); ("partial_json", Str arguments)]) d [(None, ToolCallDelta id arguments)] (fun d => d).
Proof. intros Hi. exact (block_delta_at (record_members (block_delta i [("type", Str "input_json_delta"); ("partial_json", Str arguments)])) (block_delta i [("type", Str "input_json_delta"); ("partial_json", Str arguments)]).2 i
  (json_members [("type", Str "input_json_delta"); ("partial_json", Str arguments)]) "input_json_delta" _ d eq_refl eq_refl eq_refl Hi arguments eq_refl eq_refl). Qed.

(** What the end of a block says. *)
Definition block_end (b : DecodedBlock) : option (option string * StreamEventKind) :=
  match b with
  | DbText id => Some (Some id, TextEnd)
  | DbReasoning id text signature encrypted =>
    Some (Some id, ReasoningEnd (Some (MkReasoningBlock None (if str_is_empty text then None else Some text) None encrypted
                                         (if is_empty_bytes signature then None else Some signature) [])))
  | DbTool id => Some (None, ToolCallEnd id)
  | DbOpaque => None
  end.
Lemma read_block_stop i b e d : de_blocks d !! i = Some b -> block_end b = Some e ->
  yields (block_stop i) d [e] (fun d => set_blocks (delete i (de_blocks d)) d).
Proof.
  intros Hi He. unfold yields. transitivity (decode_block_stop (record_members (block_stop i)) d); [done|].
  unfold decode_block_stop. cbv [st_bind st_lift st_get st_modify].
  change (required_index (record_members (block_stop i)) "content_block_stop.index") with (Ok i : Result N AnthropicStreamError).
  cbv beta iota. rewrite Hi. destruct b; try discriminate He; injection He as <-; done.
Qed.

Lemma message_start_at o message rid model v u d :
  de_response_started d = false -> required_object o "message" "message_start.message" = Ok message ->
  optional_string message "id" "message_start.message.id" = Ok rid ->
  optional_string message "model" "message_start.message.model" = Ok model -> obj_get "usage" message = Some v ->
  merge_usage v "message_start.message.usage" (de_usage d) = (Ok tt, u) ->
  let l := (None, ResponseStart rid model) :: if has_usage u then [(None, UsageEvent u)] else [] in
  decode_message_start o d
  = (Ok (numbered (de_sequence d) l), set_sequence (foldl (fun s _ => sat_add U64_MAX s 1) (de_sequence d) l) (set_started (set_usage u d))).
Proof.
  intros Hs Ho Hr Hm Hv Hu. unfold decode_message_start. cbv [st_bind st_lift st_get st_modify].
  rewrite Hs, Ho, Hr, Hm, Hv. unfold st_zoom. rewrite Hu. simpl. by destruct (has_usage u).
Qed.

(** The message of a [message_start] record. *)
Definition start_message (r m : option string) (w : Usage) : list (string * Value) :=
  json_members
    [("id", Str (default "msg_pooler" r)); ("type", Str "message"); ("role", Str "assistant");
     ("content", Array []); ("model", Str (default "pooler-model" m)); ("stop_reason", Null);
     ("stop_sequence", Null); ("usage", encode_usage w)].
Lemma read_message_start r m w d : usage_typed w -> de_response_started d = false ->
  let u := usage_told (de_usage d) w in
  yields (message_start r m w) d
    ((None, ResponseStart (Some (default "msg_pooler" r)) (Some (default "pooler-model" m)))
     :: if has_usage u then [(None, UsageEvent u)] else [])
    (fun d => set_started (set_usage u d)).
Proof.
  intros Hw Hs u.
  exact (message_start_at (record_members (message_start r m w)) (start_message r m w) _ _ (encode_usage w) u d Hs eq_refl eq_refl eq_refl eq_refl
           (merge_told w _ _ Hw)).
Qed.

Lemma read_message_delta reason w d : usage_typed w ->
  let u := usage_told (de_usage d) w in
  yields (message_delta reason w) d [(None, Completion (decode_finish_reason (encode_finish_reason reason)) (Some u))]
    (fun d => set_completed (set_usage u d)).
Proof.
  intros Hw u. unfold yields. transitivity (decode_message_delta (record_members (message_delta reason w)) d); [done|].
  unfold decode_message_delta. cbv [st_bind st_lift st_get st_modify].
  change (obj_get "usage" (record_members (message_delta reason w))) with (Some (encode_usage w)). cbv beta iota.
  unfold st_zoom. by rewrite (merge_told w _ _ Hw).
Qed.

Definition stop_record : string * Value := ("message_stop", json_object [("type", Str "message_stop")]).
Lemma read_message_stop d : de_blocks d = ∅ -> de_completion_seen d = true -> yields stop_record d [] set_terminal.
Proof.
  intros Hb Hc. unfold yields. transitivity (decode_message_stop d); [done|]. unfold decode_message_stop.
  cbv [st_bind st_lift st_get st_modify]. by rewrite Hb, map_size_empty, Hc.
Qed.

(** The error a client sees. *)
Definition error_object (e : StreamError) : list (string * Value) :=
  obj_insert "message" (Str (se_message e))
    (obj_insert "type" (Str (se_code e)) (default [] (se_details e ≫= fun d => as_object (pj_value d)))).
Definition error_told (e : StreamError) (b : bytes) : StreamError :=
  MkStreamError (se_code e) (se_message e)
    (existsb (String.eqb (se_code e)) ["api_error"; "overloaded_error"; "rate_limit_error"])
    (Some (MkPreservedJson b (Object (error_object e)) false)).
Lemma read_error e b d : to_vec (Object (error_object e)) = Ok b ->
  yields (error_record e) d [(None, Failure (error_told e b))] set_terminal.
Proof.
  intros Hb. unfold yields. transitivity (decode_error (record_members (error_record e)) d); [done|]. unfold decode_error.
  cbv [st_bind st_lift st_get st_modify].
  change (required_object (record_members (error_record e)) "error" "error.error") with (Ok (error_object e) : Result _ AnthropicStreamError).
  cbv beta iota. unfold required_string, error_object at 1 2. rewrite obj_get_insert_ne, !obj_get_insert by done. simpl.
  unfold pj_from_value. by rewrite Hb.
Qed.

(** * What is heard of a stream *)

(** The blocks in the order they are opened, the reasoning so far, and the usage. *)
Record Hearing := MkHearing {
  hs_next : N; hs_blocks : gmap string N; hs_text : gmap N string; hs_usage : Usage; hs_pending : option Usage }.
Definition hearing_new : Hearing := MkHearing 0 ∅ ∅ usage_default None.
Definition opened (id : string) (h : Hearing) : Hearing :=
  MkHearing (hs_next h + 1) (<[id := hs_next h]> (hs_blocks h)) (<[hs_next h := EmptyString]> (hs_text h)) (hs_usage h) (hs_pending h).
Definition closed (id : string) (h : Hearing) : Hearing :=
  MkHearing (hs_next h) (delete id (hs_blocks h)) (hs_text h) (hs_usage h) (hs_pending h).
Definition thought (i : N) (text : string) (h : Hearing) : Hearing :=
  MkHearing (hs_next h) (hs_blocks h) (<[i := default "" (hs_text h !! i) +:+ text]> (hs_text h)) (hs_usage h) (hs_pending h).
Definition told_usage (u : Usage) (h : Hearing) : Hearing := MkHearing (hs_next h) (hs_blocks h) (hs_text h) u (hs_pending h).
Definition pending (u : Usage) (h : Hearing) : Hearing := MkHearing (hs_next h) (hs_blocks h) (hs_text h) (hs_usage h) (Some u).
Definition skipped (h : Hearing) : Hearing := MkHearing (hs_next h + 1) (hs_blocks h) (hs_text h) (hs_usage h) (hs_pending h).

(** The signature of a reasoning block arrives as text. *)
Definition heard_signature (r : option ReasoningBlock) : bytes :=
  match r ≫= rb_signature with Some s => bytes_of (of_bytes (from_utf8_lossy s)) | None => [] end.

Definition hear (h : Hearing) (e : StreamEvent) : Hearing * list (option string * StreamEventKind) :=
  let id := default "" (effective_block_id e) in
  let block kind := Some (block_id kind (default 0 (hs_blocks h !! id))) in
  match ev_kind e with
  | ResponseStart r m =>
    let u := usage_told (hs_usage h) (default usage_default (hs_pending h)) in
    (told_usage u h, (None, ResponseStart (Some (default "msg_pooler" r)) (Some (default "pooler-model" m)))
                     :: if has_usage u then [(None, UsageEvent u)] else [])
  | TextStart => (opened id h, [(Some (block_id "text" (hs_next h)), TextStart)])
  | TextDelta text => (h, [(block "text", TextDelta text)])
  | TextEnd => (closed id h, [(block "text", TextEnd)])
  | ReasoningStart => (opened id h, [(Some (block_id "thinking" (hs_next h)), ReasoningStart)])
  | ReasoningDelta text => (thought (default 0 (hs_blocks h !! id)) text h, [(block "thinking", ReasoningDelta text)])
  | ReasoningEnd r =>
    (closed id h,
     match block_end (DbReasoning (default "" (block "thinking")) (default "" (hs_text h !! default 0 (hs_blocks h !! id)))
                        (heard_signature r) None) with Some e => [e] | None => [] end)
  | ToolCallStart id name => (opened id h, [(None, ToolCallStart id name)])
  | ToolCallDelta id arguments => (h, [(None, ToolCallDelta id arguments)])
  | ToolCallEnd id => (closed id h, [(None, ToolCallEnd id)])
  | UsageEvent u => (pending u h, [])
  | Refusal text =>
    let b := Some (block_id "text" (hs_next h)) in (skipped h, [(b, TextStart); (b, TextDelta text); (b, TextEnd)])
  | Completion reason usage =>
    let u := usage_told (hs_usage h) (default usage_default (or_else usage (hs_pending h))) in
    (told_usage u h, [(None, Completion (decode_finish_reason (encode_finish_reason reason)) (Some u))])
  | Failure error =>
    (h, [(None, Failure (error_told error match to_vec (Object (error_object error)) with Ok b => b | Err _ => [] end))])
  | Metadata _ | Media _ _ | WarningEvent _ | OpaqueEvent _ _ => (h, [])
  end.

(** * The encoder, the hearing and the decoder *)

Definition image (h : Hearing) (id : string) (b : EncodedBlock) : DecodedBlock :=
  match eb_kind b with
  | EkText => DbText (block_id "text" (eb_index b))
  | EkReasoning => DbReasoning (block_id "thinking" (eb_index b)) (default "" (hs_text h !! eb_index b)) [] None
  | EkTool => DbTool id
  end.

Record sim (s : AnthropicEventEncoder) (h : Hearing) (d : AnthropicEventDecoder) : Prop := {
  si_terminal : de_terminal d = en_terminal s;
  si_started : de_response_started d = en_response_started s;
  si_next : hs_next h = en_next_index s;
  si_blocks : hs_blocks h = eb_index <$> en_blocks s;
  si_pending : hs_pending h = en_pending_usage s;
  si_typed : forall u, en_pending_usage s = Some u -> usage_typed u;
  si_usage : hs_usage h = de_usage d;
  si_decoded : forall i b, de_blocks d !! i = Some b <->
    exists id eb, en_blocks s !! id = Some eb /\ eb_index eb = i /\ b = image h id eb;
  si_bound : forall id eb, en_blocks s !! id = Some eb -> eb_index eb < en_next_index s;
  si_inj : forall id id' eb eb', en_blocks s !! id = Some eb -> en_blocks s !! id' = Some eb' -> eb_index eb = eb_index eb' -> id = id';
}.

Lemma sim_new : sim encoder_new hearing_new decoder_new.
Proof.
  constructor; try done.
  intros i b. split; [by intros ?|]. by intros (id & eb & ? & _).
Qed.

Lemma sim_fresh s h d : sim s h d -> de_blocks d !! en_next_index s = None.
Proof.
  intros Hs. destruct (de_blocks d !! en_next_index s) as [b|] eqn:E; [|done].
  apply (si_decoded _ _ _ Hs) in E as (id & eb & Hid & Hi & _). apply (si_bound _ _ _ Hs) in Hid. lia.
Qed.

Lemma sim_sequence s h d n : sim s h d -> sim s h (set_sequence n d).
Proof. intros []. by constructor. Qed.

(** A block that was opened, and one that was closed. *)
Lemma sim_open s h d id kind : sim s h d -> en_blocks s !! id = None -> en_next_index s < U64_MAX ->
  sim (MkEncoder (sat_add U64_MAX (en_next_index s) 1) (<[id := MkEncodedBlock (en_next_index s) kind]> (en_blocks s)) (en_pending_usage s)
         (en_response_started s) (en_terminal s))
    (opened id h)
    (set_blocks (<[en_next_index s := image (opened id h) id (MkEncodedBlock (en_next_index s) kind)]> (de_blocks d)) d).
Proof.
  intros Hs Hid Hn. pose proof (sim_fresh _ _ _ Hs) as Hf. destruct Hs as [? ? Hnext Hb ? ? ? Hd Hbound Hinj].
  assert (Hsat : sat_add U64_MAX (en_next_index s) 1 = en_next_index s + 1) by (unfold sat_add; lia).
  assert (Himg : forall x eb, en_blocks s !! x = Some eb -> image (opened id h) x eb = image h x eb).
  { intros x eb Hx%Hbound. unfold image. destruct (eb_kind eb); [done| |done]. simpl. rewrite lookup_insert_ne; [done|lia]. }
  constructor; cbn [de_terminal de_response_started de_blocks de_usage set_blocks en_next_index en_blocks en_pending_usage en_response_started
    en_terminal opened hs_next hs_blocks hs_usage hs_pending]; try done.
  - rewrite Hsat. lia.
  - by rewrite fmap_insert, <- Hb, Hnext.
  - intros i b. rewrite lookup_insert_Some. split.
    + intros [[<- <-]|[Hne (x & eb & Hx & Hi & ->)%Hd]].
      * exists id, (MkEncodedBlock (en_next_index s) kind). by rewrite lookup_insert_eq.
      * exists x, eb. rewrite lookup_insert_ne by congruence. split_and!; [done..|]. symmetry. by apply Himg.
    + intros (x & eb & [[<- <-]|[Hne Hx]]%lookup_insert_Some & <- & ->); [by left|]. right.
      split; [apply Hbound in Hx; lia|]. apply Hd. exists x, eb. split_and!; [done..|]. by apply Himg.
  - intros x eb [[<- <-]|[_ Hx%Hbound]]%lookup_insert_Some; simpl; lia.
  - intros x y eb eb' [[<- <-]|[? Hx]]%lookup_insert_Some [[<- <-]|[? Hy]]%lookup_insert_Some; simpl; intros E; [done|..].
    + apply Hbound in Hy. lia.
    + apply Hbound in Hx. lia.
    + by eapply Hinj.
Qed.

Lemma sim_close s h d id eb : sim s h d -> en_blocks s !! id = Some eb ->
  sim (put_blocks (delete id (en_blocks s)) s) (closed id h) (set_blocks (delete (eb_index eb) (de_blocks d)) d).
Proof.
  intros [? ? Hnext Hb ? ? ? Hd Hbound Hinj] Hid.
  constructor; cbn [de_terminal de_response_started de_blocks de_usage set_blocks put_blocks en_next_index en_blocks en_pending_usage
    en_response_started en_terminal closed hs_next hs_blocks hs_usage hs_pending]; try done.
  - by rewrite fmap_delete, <- Hb.
  - intros i b. rewrite lookup_delete_Some. split.
    + intros [Hne (x & eb' & Hx & Hi & ->)%Hd]. exists x, eb'. split_and!; [|done..]. apply lookup_delete_Some. split; [congruence|done].
    + intros (x & eb' & [Hne Hx]%lookup_delete_Some & Hi & ->). split; [|apply Hd; eauto]. intros E. apply Hne. eapply Hinj; eauto. congruence.
  - intros x eb' [_ Hx]%lookup_delete_Some. by eapply Hbound.
  - intros x y eb1 eb2 [_ Hx]%lookup_delete_Some [_ Hy]%lookup_delete_Some. by eapply Hinj.
Qed.

Lemma sim_thought s h d id eb text : sim s h d -> en_blocks s !! id = Some eb -> eb_kind eb = EkReasoning ->
  sim s (thought (eb_index eb) text h)
    (set_blocks (<[eb_index eb := image (thought (eb_index eb) text h) id eb]> (de_blocks d)) d).
Proof.
  intros [? ? Hnext Hb ? ? ? Hd Hbound Hinj] Hid Hk. constructor; try done.
  cbn [set_blocks de_blocks]. intros i b. rewrite lookup_insert_Some.
  assert (Himg : forall x eb', en_blocks s !! x = Some eb' -> x <> id -> image (thought (eb_index eb) text h) x eb' = image h x eb').
  { intros x eb' Hx Hne. unfold image. destruct (eb_kind eb'); [done| |done]. simpl. rewrite lookup_insert_ne; [done|].
    intros E. apply Hne. eapply Hinj; eauto. }
  split.
  - intros [[<- <-]|[Hne (x & eb' & Hx & Hi & ->)%Hd]]; [by exists id, eb|]. exists x, eb'. split_and!; [done..|]. symmetry.
    apply Himg; [done|]. intros ->. by simplify_eq.
  - intros (x & eb' & Hx & <- & ->). destruct (decide (x = id)) as [-> |Hne]; [by simplify_eq; left|].
    right. split; [intros E; apply Hne; eapply Hinj; eauto|]. apply Hd. exists x, eb'. split_and!; [done..|]. by apply Himg.
Qed.

(** * The records of one event *)

Definition bump (s : N) (l : list (option string * StreamEventKind)) : N := foldl (fun s _ => sat_add U64_MAX s 1) s l.

Fixpoint read_records (rs : list (string * Value)) : Dec (list StreamEvent) :=
  match rs with
  | [] => st_ret []
  | r :: rs =>
    let* d := st_get in
    if de_terminal d then invalid_state "event appeared after stream termination"
    else let* es := decode_record r in let* fs := read_records rs in st_ret (es ++ fs)
  end.

Definition hears (rs : list (string * Value)) (d : AnthropicEventDecoder) (l : list (option string * StreamEventKind))
    (d' : AnthropicEventDecoder) : Prop :=
  read_records rs d = (Ok (numbered (de_sequence d) l), set_sequence (bump (de_sequence d) l) d').

Lemma numbered_app s l k : numbered s (l ++ k) = numbered s l ++ numbered (bump s l) k.
Proof. revert s. induction l as [|[id e] l IH]; intros s; [done|]. simpl. by rewrite IH. Qed.
Lemma bump_app s l k : bump s (l ++ k) = bump (bump s l) k.
Proof. apply foldl_app. Qed.

Lemma hears_nil d : hears [] d [] d.
Proof. unfold hears. by destruct d. Qed.
Lemma hears_cons r rs d l f k d' :
  yields r d l f -> de_terminal d = false -> hears rs (set_sequence (bump (de_sequence d) l) (f d)) k d' -> hears (r :: rs) d (l ++ k) d'.
Proof.
  unfold yields, hears. intros Hy Ht Hh. cbn [read_records]. cbv [st_bind st_get st_ret]. rewrite Ht, Hy.
  fold (bump (de_sequence d) l). rewrite Hh, numbered_app, bump_app. done.
Qed.
Lemma hears_one r d l f d' :
  yields r d l f -> de_terminal d = false -> (forall n, set_sequence n (f d) = set_sequence n d') -> hears [r] d l d'.
Proof.
  intros Hy Ht He. rewrite <- (app_nil_r l). eapply hears_cons; [done..|]. unfold hears. simpl. unfold st_ret. by rewrite He.
Qed.

Lemma start_inv id kind s i s' : enc_start_block id kind s = (Ok i, s') ->
  en_blocks s !! id = None /\ i = en_next_index s
  /\ s' = MkEncoder (sat_add U64_MAX (en_next_index s) 1) (<[id := MkEncodedBlock (en_next_index s) kind]> (en_blocks s))
            (en_pending_usage s) (en_response_started s) (en_terminal s).
Proof.
  unfold enc_start_block. cbv [st_bind st_get take_index st_modify st_ret]. destruct (_ || _) eqn:E; [done|].
  apply orb_false_iff in E as [_ E]. intros [= <- <-]. split; [|done]. by destruct (en_blocks s !! id).
Qed.
Lemma named_inv id kind s i s' : named_block_index id kind s = (Ok i, s') ->
  s' = s /\ exists eb, en_blocks s !! id = Some eb /\ eb_kind eb = kind /\ i = eb_index eb.
Proof.
  unfold named_block_index. cbv [st_bind st_get st_ret]. destruct (en_blocks s !! id) as [eb|]; [|done].
  case_bool_decide; [|done]. intros [= <- <-]. eauto.
Qed.
Lemma end_inv id kind s i s' : end_named_block id kind s = (Ok i, s') ->
  exists eb, en_blocks s !! id = Some eb /\ eb_kind eb = kind /\ i = eb_index eb /\ s' = put_blocks (delete id (en_blocks s)) s.
Proof.
  unfold end_named_block. cbv [st_bind st_get st_ret st_modify]. destruct (en_blocks s !! id) as [eb|]; [|done].
  case_bool_decide; [|done]. intros [= <- <-]. eauto.
Qed.
Lemma block_id_inv e kind s id s' : required_block_id e kind s = (Ok id, s') -> s' = s /\ effective_block_id e = Some id.
Proof. unfold required_block_id, st_lift. destruct (effective_block_id e); simpl; [|done]. by intros [= <- <-]. Qed.

(** The fields of an event have the values of their types, the details of a failure are
    read back, and opaque events are not of this dialect. *)
Definition event_typed (e : StreamEvent) : Prop :=
  match ev_kind e with
  | ResponseStart r m => (forall x, r = Some x \/ m = Some x -> is_str x)
  | TextDelta text | ReasoningDelta text | Refusal text => is_str text
  | ReasoningEnd r => forall s, r ≫= rb_signature = Some s -> Forall (fun b => b < 256) s
  | ToolCallStart id name => is_str id /\ is_str name
  | ToolCallDelta id arguments => is_str arguments
  | UsageEvent u => usage_typed u
  | Completion reason usage => is_str (encode_finish_reason reason) /\ forall u, usage = Some u -> usage_typed u
  | Failure error => is_str (se_code error) /\ is_str (se_message error)
      /\ members_exact reads_back 125 (default [] (se_details error ≫= fun d => as_object (pj_value d)))
  | OpaqueEvent media_type _ => media_type <> ANTHROPIC_EVENT_MEDIA_TYPE
  | Metadata _ | TextStart | TextEnd | ReasoningStart | ToolCallEnd _ | Media _ _ | WarningEvent _ => True
  end.

(** The hearing knows the number of an open block. *)
Lemma sim_number s h d id eb : sim s h d -> en_blocks s !! id = Some eb -> default 0 (hs_blocks h !! id) = eb_index eb.
Proof. intros Hs Hid. by rewrite (si_blocks _ _ _ Hs), lookup_fmap, Hid. Qed.
Lemma sim_block s h d id eb : sim s h d -> en_blocks s !! id = Some eb -> de_blocks d !! eb_index eb = Some (image h id eb).
Proof. intros Hs Hid. apply (si_decoded _ _ _ Hs). eauto. Qed.

(** A step of the three: the records of the event say what is heard of it. *)
Definition heard (s' : AnthropicEventEncoder) (values : list (string * Value)) (h : Hearing) (e : StreamEvent) (d : AnthropicEventDecoder) : Prop :=
  exists d', hears values d (hear h e).2 d' /\ sim s' (hear h e).1 d'.

Section step.
Context (s : AnthropicEventEncoder) (h : Hearing) (d : AnthropicEventDecoder) (e : StreamEvent).
Context (Hs : sim s h d) (Ht : en_terminal s = false).

Lemma alive : de_terminal d = false.
Proof. by rewrite (si_terminal _ _ _ Hs). Qed.

Lemma heard_start k i s' r l f id :
  enc_start_block id k s = (Ok i, s') -> en_next_index s < U64_MAX -> yields r d l f ->
  (forall d, f d = set_blocks (<[i := image (opened id h) id (MkEncodedBlock i k)]> (de_blocks d)) d) ->
  hear h e = (opened id h, l) -> heard s' [r] h e d.
Proof.
  intros (Hid & -> & ->)%start_inv Hn Hy Hf Hh. exists (f d). rewrite Hh. split.
  - eapply hears_one; [done|apply alive|done].
  - rewrite Hf. by apply sim_open.
Qed.

Lemma heard_nothing s' h' : sim s' h' d -> hear h e = (h', []) -> heard s' [] h e d.
Proof. intros Hs' Hh. exists d. rewrite Hh. split; [apply hears_nil|done]. Qed.

Lemma heard_delta id eb r l f h' :
  en_blocks s !! id = Some eb -> yields r d l f -> sim s h' (f d) -> hear h e = (h', l) -> heard s [r] h e d.
Proof. intros Hid Hy Hs' Hh. exists (f d). rewrite Hh. split; [|done]. eapply hears_one; [done|apply alive|done]. Qed.

Lemma heard_end id eb ev :
  en_blocks s !! id = Some eb -> block_end (image h id eb) = Some ev -> hear h e = (closed id h, [ev]) ->
  heard (put_blocks (delete id (en_blocks s)) s) [block_stop (eb_index eb)] h e d.
Proof.
  intros Hid He Hh. eexists. rewrite Hh. split.
  - eapply hears_one; [|apply alive|done]. eapply read_block_stop; [by eapply sim_block|done].
  - by apply sim_close.
Qed.
End step.

Section event.
Context (s : AnthropicEventEncoder) (h : Hearing) (d : AnthropicEventDecoder) (e : StreamEvent).
Context (Hs : sim s h d) (Ht : en_terminal s = false) (Hn : en_next_index s < U64_MAX).

(** The computation of the encoder, one step at a time. *)
Ltac next E := match goal with
  | |- context [st_bind ?m ?k ?s] => unfold st_bind at 1; let x := fresh "x" in destruct (m s) as [[x|] ?] eqn:E; [|by intros ?]
  end.

Lemma starts_heard report values report' s' : 
  match ev_kind e with TextStart | ReasoningStart | ToolCallStart _ _ => True | _ => False end ->
  encode_values e report s = (Ok (values, report'), s') -> heard s' values h e d.
Proof.
  intros Hk. unfold encode_values. destruct (ev_kind e) as [| | | | | | | |id name| | | | | | | | |] eqn:Ek; try done.
  - next E1. apply block_id_inv in E1 as [-> Hid]. next E2. intros [= <- _ <-]. pose proof E2 as (_ & -> & _)%start_inv.
    eapply heard_start; [done..|by eapply read_text_start, sim_fresh|done|]. unfold hear. by rewrite Ek, Hid, (si_next _ _ _ Hs).
  - next E1. apply block_id_inv in E1 as [-> Hid]. next E2. intros [= <- _ <-]. pose proof E2 as (_ & -> & _)%start_inv.
    eapply heard_start; [done..|by eapply read_reasoning_start, sim_fresh| |].
    + intros d'. unfold image. simpl. by rewrite (si_next _ _ _ Hs), lookup_insert_eq.
    + unfold hear. by rewrite Ek, Hid, (si_next _ _ _ Hs).
  - next E2. intros [= <- _ <-]. pose proof E2 as (_ & -> & _)%start_inv.
    eapply heard_start; [done..|by eapply read_tool_start, sim_fresh|done|]. unfold hear. by rewrite Ek.
Qed.

Lemma deltas_heard report values report' s' : 
  match ev_kind e with TextDelta _ | ReasoningDelta _ | ToolCallDelta _ _ => True | _ => False end ->
  encode_values e report s = (Ok (values, report'), s') -> heard s' values h e d.
Proof.
  intros Hk. unfold encode_values. destruct (ev_kind e) as [| | |text| | |text| | |id arguments| | | | | | | |] eqn:Ek; try done.
  - next E2. intros [= <- _ <-]. revert E2. unfold block_index. next E1. apply block_id_inv in E1 as [-> Hid].
    intros [-> (eb & Hb & Hkind & ->)]%named_inv. pose proof (sim_block _ _ _ _ _ Hs Hb) as Hd. unfold image in Hd. rewrite Hkind in Hd.
    eapply heard_delta; [done|done|done|by apply read_text_delta|done|]. unfold hear. rewrite Ek, Hid. simpl. by rewrite (sim_number _ _ _ _ _ Hs Hb).
  - next E2. intros [= <- _ <-]. revert E2. unfold block_index. next E1. apply block_id_inv in E1 as [-> Hid].
    intros [-> (eb & Hb & Hkind & ->)]%named_inv. pose proof (sim_block _ _ _ _ _ Hs Hb) as Hd. unfold image in Hd. rewrite Hkind in Hd.
    eapply (heard_delta _ _ _ _ Hs Ht _ eb _ _ _ (thought (eb_index eb) text h)); [done|by eapply read_reasoning_delta| |].
    + pose proof (sim_thought _ _ _ _ _ text Hs Hb Hkind) as Hth. unfold image in Hth. rewrite Hkind in Hth. simpl in Hth.
      by rewrite lookup_insert_eq in Hth.
    + unfold hear. by rewrite Ek, Hid; simpl; rewrite (sim_number _ _ _ _ _ Hs Hb).
  - next E2. intros [= <- _ <-]. apply named_inv in E2 as [-> (eb & Hb & Hkind & ->)].
    pose proof (sim_block _ _ _ _ _ Hs Hb) as Hd. unfold image in Hd. rewrite Hkind in Hd.
    eapply heard_delta; [done|done|done|by apply read_tool_delta|done|]. unfold hear. by rewrite Ek.
Qed.

Lemma ends_heard report values report' s' : 
  match ev_kind e with TextEnd | ToolCallEnd _ => True | _ => False end ->
  encode_values e report s = (Ok (values, report'), s') -> heard s' values h e d.
Proof.
  intros Hk. unfold encode_values. destruct (ev_kind e) as [| | | | | | | | | |id| | | | | | |] eqn:Ek; try done.
  - next E2. intros [= <- _ <-]. revert E2. unfold enc_end_block. next E1. apply block_id_inv in E1 as [-> Hid].
    intros (eb & Hb & Hkind & -> & ->)%end_inv. eapply heard_end; [done|done|done| |].
    + unfold image. by rewrite Hkind.
    + unfold hear. rewrite Ek, Hid. simpl. by rewrite (sim_number _ _ _ _ _ Hs Hb).
  - next E2. intros [= <- _ <-]. apply end_inv in E2 as (eb & Hb & Hkind & -> & ->). eapply heard_end; [done|done|done| |].
    + unfold image. by rewrite Hkind.
    + unfold hear. by rewrite Ek.
Qed.

Lemma set_blocks_twice m n d' : set_blocks m (set_blocks n d') = set_blocks m d'.
Proof. done. Qed.

Lemma reasoning_end_heard report values report' s' r :
  ev_kind e = ReasoningEnd r -> encode_values e report s = (Ok (values, report'), s') -> heard s' values h e d.
Proof.
  intros Ek. unfold encode_values. rewrite Ek. next E2. intros [= <- _ <-]. revert E2. unfold enc_end_block. next E1.
  apply block_id_inv in E1 as [-> Hid]. intros (eb & Hb & Hkind & -> & ->)%end_inv.
  pose proof (sim_block _ _ _ _ _ Hs Hb) as Hd. unfold image in Hd. rewrite Hkind in Hd.
  pose proof (alive _ _ _ Hs Ht) as Ha. eexists. unfold hear. rewrite Ek, Hid. simpl. rewrite (sim_number _ _ _ _ _ Hs Hb).
  unfold heard_signature. split; [|by apply (sim_close _ _ _ _ _ Hs Hb)].
  destruct (r ≫= rb_signature) as [signature|]; simpl.
  - refine (hears_cons _ _ _ [] _ _ _ (read_signature_delta _ _ _ _ _ _ _ Hd) Ha _).
    eapply hears_one; [|done|].
    + eapply read_block_stop; [cbn [set_sequence set_blocks de_blocks]; by rewrite lookup_insert_eq|]. done.
    + intros n. cbn [set_sequence set_blocks de_blocks]. by rewrite delete_insert_eq.
  - eapply hears_one; [|done|done]. eapply read_block_stop; [done|]. done.
Qed.

Lemma refusal_heard report values report' s' text :
  ev_kind e = Refusal text -> encode_values e report s = (Ok (values, report'), s') -> heard s' values h e d.
Proof.
  intros Ek. unfold encode_values. rewrite Ek. cbv [st_bind take_index st_ret]. intros [= <- _ <-].
  pose proof (sim_fresh _ _ _ Hs) as Hf. pose proof (alive _ _ _ Hs Ht) as Ha. exists d. unfold hear. rewrite Ek, (si_next _ _ _ Hs). split.
  - refine (hears_cons _ _ _ [_] _ _ _ (read_text_start _ _ Hf) Ha _).
    refine (hears_cons _ _ _ [_] _ _ _ (read_text_delta _ _ text _ _) _ _); [cbn [set_sequence set_blocks de_blocks]; by rewrite lookup_insert_eq|done|].
    eapply hears_one; [|done|].
    + eapply read_block_stop; [cbn [set_sequence set_blocks de_blocks]; by rewrite lookup_insert_eq|]. done.
    + intros n. cbn [set_sequence set_blocks de_blocks]. rewrite delete_insert_id by done. by destruct d.
  - destruct Hs as [? ? Hnext Hb ? ? ? Hd Hbound Hinj].
    assert (sat_add U64_MAX (en_next_index s) 1 = en_next_index s + 1) as Hsat by (unfold sat_add; lia).
    constructor; try done; cbn [fst skipped hs_next en_next_index en_blocks]; rewrite ?Hsat, ?Hnext; [done|]. intros id eb Hid%Hbound. lia.
Qed.

Lemma usage_default_typed : usage_typed usage_default.
Proof. by split_and!. Qed.

Lemma pending_typed usage : (forall u, usage = Some u -> usage_typed u) ->
  usage_typed (default usage_default (or_else usage (en_pending_usage s))).
Proof.
  intros Hu. pose proof (si_typed _ _ _ Hs) as Hp. destruct usage as [u|]; simpl; [by apply Hu|].
  destruct (en_pending_usage s); [by apply Hp|apply usage_default_typed].
Qed.

Lemma response_heard report values report' s' r m :
  ev_kind e = ResponseStart r m -> encode_values e report s = (Ok (values, report'), s') -> heard s' values h e d.
Proof.
  intros Ek. unfold encode_values. rewrite Ek. cbv [st_bind st_get st_modify st_ret]. destruct (en_response_started s) eqn:Es; [done|].
  intros [= <- _ <-]. eexists. unfold hear. rewrite Ek, (si_usage _ _ _ Hs), (si_pending _ _ _ Hs). cbn [fst snd]. split.
  - eapply hears_one; [|by apply (alive _ _ _ Hs)|done]. apply read_message_start; [|by rewrite (si_started _ _ _ Hs)].
    by apply (pending_typed None).
  - destruct Hs. by constructor.
Qed.

Lemma completion_heard report values report' s' reason usage :
  ev_kind e = Completion reason usage -> (forall u, usage = Some u -> usage_typed u) ->
  encode_values e report s = (Ok (values, report'), s') -> heard s' values h e d.
Proof.
  intros Ek Hu. unfold encode_values. rewrite Ek. cbv [st_bind st_get st_modify st_ret].
  destruct (Nat.eqb_spec (size (en_blocks s)) 0) as [Hz|]; [|done]. apply map_size_empty_inv in Hz. simpl. intros [= <- _ <-].
  pose proof (alive _ _ _ Hs Ht) as Ha. eexists. unfold hear. rewrite Ek, (si_usage _ _ _ Hs), (si_pending _ _ _ Hs). cbn [fst snd]. split.
  - refine (hears_cons _ _ _ [_] _ [] _ (read_message_delta reason _ d (pending_typed usage Hu)) Ha _).
    eapply hears_one; [|done|done]. apply read_message_stop; [|done]. cbn [set_sequence set_completed set_usage de_blocks].
    apply map_empty. intros i. destruct (de_blocks d !! i) as [b|] eqn:E; [|done].
    apply (si_decoded _ _ _ Hs) in E as (id & eb & Hid & _). by rewrite Hz in Hid.
  - destruct Hs. by constructor.
Qed.

Lemma failure_heard `{!SerdeReads} report values report' s' error :
  ev_kind e = Failure error -> exact_with reads_back 127 (Object (error_object error)) = true ->
  encode_values e report s = (Ok (values, report'), s') -> heard s' values h e d.
Proof.
  intros Ek He. unfold encode_values. rewrite Ek. cbv [st_bind st_modify st_ret]. intros [= <- _ <-].
  destruct (reads_roundtrip _ He) as (b & Hb & _). eexists. unfold hear. rewrite Ek, Hb. cbn [fst snd]. split.
  - eapply hears_one; [|by apply (alive _ _ _ Hs)|done]. by apply read_error.
  - destruct Hs. by constructor.
Qed.

Lemma error_object_exact {fl} error depth :
  is_str (se_code error) -> is_str (se_message error) ->
  members_exact fl depth (default [] (se_details error ≫= fun d => as_object (pj_value d))) ->
  members_exact fl depth (error_object error).
Proof. intros Hc Hm Hd. unfold error_object. by repeat apply members_insert. Qed.

(** One event: what the encoder writes of it is heard. *)
Lemma encode_heard `{!SerdeReads} report values report' s' :
  event_typed e -> encode_values e report s = (Ok (values, report'), s') -> heard s' values h e d.
Proof.
  intros He Henc. unfold event_typed in He. destruct (ev_kind e) eqn:Ek.
  all: try (eapply starts_heard; [by rewrite Ek|exact Henc]); try (eapply deltas_heard; [by rewrite Ek|exact Henc]);
    try (eapply ends_heard; [by rewrite Ek|exact Henc]).
  all: eauto using response_heard, reasoning_end_heard, refusal_heard.
  all: try (eapply completion_heard; [exact Ek|apply He|exact Henc]).
  all: try (destruct He as (Hc & Hm & Hd); eapply failure_heard; [exact Ek| |exact Henc];
    apply exact_mono, object_exact; by apply error_object_exact).
  all: unfold encode_values in Henc; rewrite Ek in Henc; cbv [st_bind st_modify st_ret] in Henc.
  all: try (injection Henc as <- _ <-; eapply heard_nothing; [|by unfold hear; rewrite Ek]; done).
  - injection Henc as <- _ <-. eapply heard_nothing; [|by unfold hear; rewrite Ek]. destruct Hs. constructor; try done.
    by intros ? [= <-].
  - destruct (String.eqb_spec media_type ANTHROPIC_EVENT_MEDIA_TYPE); [done|]. injection Henc as <- _ <-.
    eapply heard_nothing; [|by unfold hear; rewrite Ek]. done.
Qed.
End event.

(** * Bytes *)

(** A record that serde_json reads back and that is named after its type. *)
Definition record_ok (r : string * Value) : Prop :=
  str_is_empty r.1 = false /\ is_str r.1 /\ r.2 = Object (record_members r)
  /\ obj_get "type" (record_members r) = Some (Str r.1) /\ exact_with reads_back MAX_DEPTH r.2 = true.

Lemma block_start_ok i b : i <= U64_MAX -> Forall (fun kv => is_str kv.1 /\ exact_with reads_back 125 kv.2 = true) b -> record_ok (block_start i b).
Proof.
  intros Hi Hb. split_and!; [done..|]. apply (object_exact 126), json_members_exact. repeat constructor; try done; [by apply N.leb_le|].
  by apply (object_exact 125), json_members_exact.
Qed.
Lemma block_delta_ok i b : i <= U64_MAX -> Forall (fun kv => is_str kv.1 /\ exact_with reads_back 125 kv.2 = true) b -> record_ok (block_delta i b).
Proof.
  intros Hi Hb. split_and!; [done..|]. apply (object_exact 126), json_members_exact. repeat constructor; try done; [by apply N.leb_le|].
  by apply (object_exact 125), json_members_exact.
Qed.
Lemma block_stop_ok i : i <= U64_MAX -> record_ok (block_stop i).
Proof.
  intros Hi. split_and!; [done..|]. apply (object_exact 126), json_members_exact. repeat constructor; try done. by apply N.leb_le.
Qed.
Lemma message_start_ok r m w : (forall x, r = Some x \/ m = Some x -> is_str x) -> usage_typed w -> record_ok (message_start r m w).
Proof.
  intros Hs Hw. split_and!; [done..|]. apply (object_exact 126), json_members_exact. repeat constructor; try done.
  apply (object_exact 125), json_members_exact. repeat constructor; try done; cbn [snd].
  - destruct r; [apply Hs; by left|done].
  - destruct m; [apply Hs; by right|done].
  - by apply (encode_usage_exact 124).
Qed.
Lemma message_delta_ok reason w : is_str (encode_finish_reason reason) -> usage_typed w -> record_ok (message_delta reason w).
Proof.
  intros Hs Hw. split_and!; [done..|]. apply (object_exact 126), json_members_exact. repeat constructor; try done; cbn [snd].
  - apply (object_exact 125), json_members_exact. by repeat constructor.
  - by apply (encode_usage_exact 125).
Qed.
Lemma error_record_ok error : members_exact reads_back 125 (error_object error) -> record_ok (error_record error).
Proof.
  intros He. split_and!; [done..|]. apply (object_exact 126), json_members_exact. repeat constructor; try done. by apply (object_exact 125).
Qed.
Lemma lossy_str s : Forall (fun b => b < 256) s -> is_str (of_bytes (from_utf8_lossy s)).
Proof.
  intros Hs. unfold is_str. rewrite bytes_of_of; [by apply lossy_valid|]. apply lossy_Forall; [by repeat constructor|done..].
Qed.


Section exact.
Context (s : AnthropicEventEncoder) (h : Hearing) (d : AnthropicEventDecoder) (e : StreamEvent).
Context (Hs : sim s h d) (Hn : en_next_index s < U64_MAX).

Ltac next E := match goal with
  | |- context [st_bind ?m ?k ?s] => unfold st_bind at 1; let x := fresh "x" in destruct (m s) as [[x|] ?] eqn:E; [|by intros ?]
  end.

(** The number of a block is a [u64]. *)
Lemma index_bound id eb : en_blocks s !! id = Some eb -> eb_index eb <= U64_MAX.
Proof. intros Hb%(si_bound _ _ _ Hs). lia. Qed.

Lemma block_index_bound kind i s' : block_index e kind s = (Ok i, s') -> i <= U64_MAX.
Proof.
  unfold block_index. next E1. apply block_id_inv in E1 as [-> _]. intros [_ (eb & Hb & _ & ->)]%named_inv. by eapply index_bound.
Qed.
Lemma end_block_bound kind i s' : enc_end_block e kind s = (Ok i, s') -> i <= U64_MAX.
Proof.
  unfold enc_end_block. next E1. apply block_id_inv in E1 as [-> _]. intros (eb & Hb & _ & -> & _)%end_inv. by eapply index_bound.
Qed.

Lemma encode_exact report values report' s' :
  event_typed e -> encode_values e report s = (Ok (values, report'), s') -> Forall record_ok values.
Proof.
  intros He. unfold event_typed in He. unfold encode_values. destruct (ev_kind e) eqn:Ek.
  - cbv [st_bind st_get st_modify st_ret]. case_match; [done|]. intros [= <- _ _]. constructor; [|done].
    apply message_start_ok; [done|]. by apply (pending_typed s h d Hs None).
  - intros [= <- _ _]. done.
  - next E1. apply block_id_inv in E1 as [-> _]. next E2. intros [= <- _ _]. apply start_inv in E2 as (_ & -> & _).
    constructor; [|done]. apply block_start_ok; [lia|]. by repeat constructor.
  - next E1. intros [= <- _ _]. apply block_index_bound in E1. constructor; [|done]. apply block_delta_ok; [done|]. by repeat constructor.
  - next E1. intros [= <- _ _]. apply end_block_bound in E1. constructor; [|done]. by apply block_stop_ok.
  - next E1. apply block_id_inv in E1 as [-> _]. next E2. intros [= <- _ _]. apply start_inv in E2 as (_ & -> & _).
    constructor; [|done]. apply block_start_ok; [lia|]. by repeat constructor.
  - next E1. intros [= <- _ _]. apply block_index_bound in E1. constructor; [|done]. apply block_delta_ok; [done|]. by repeat constructor.
  - next E1. intros [= <- _ _]. apply end_block_bound in E1. apply Forall_app. split; [|by constructor; [apply block_stop_ok|]].
    destruct (reasoning ≫= rb_signature) as [signature|]; [|done]. constructor; [|done]. apply block_delta_ok; [done|].
    repeat constructor; try done. by apply lossy_str, He.
  - next E2. intros [= <- _ _]. apply start_inv in E2 as (_ & -> & _). constructor; [|done]. apply block_start_ok; [lia|].
    destruct He. by repeat constructor.
  - next E1. intros [= <- _ _]. apply named_inv in E1 as [_ (eb & Hb & _ & ->)]. constructor; [|done].
    apply block_delta_ok; [by eapply index_bound|]. by repeat constructor.
  - next E1. intros [= <- _ _]. apply end_inv in E1 as (eb & Hb & _ & -> & _). constructor; [|done].
    apply block_stop_ok. by eapply index_bound.
  - intros [= <- _ _]. done.
  - cbv [st_bind st_modify st_ret]. intros [= <- _ _]. done.
  - cbv [st_bind take_index st_ret]. intros [= <- _ _]. repeat constructor;
      [apply block_start_ok; [lia|by repeat constructor]|apply block_delta_ok; [lia|by repeat constructor]|apply block_stop_ok; lia].
  - intros [= <- _ _]. done.
  - cbv [st_bind st_get st_modify st_ret]. case_match; [done|]. intros [= <- _ _]. repeat constructor; try done.
    apply message_delta_ok; [apply He|]. apply (pending_typed s h d Hs usage). apply He.
  - cbv [st_bind st_modify st_ret]. intros [= <- _ _]. constructor; [|done]. destruct He as (Hc & Hm & Hd).
    by apply error_record_ok, error_object_exact.
  - destruct (String.eqb_spec media_type ANTHROPIC_EVENT_MEDIA_TYPE); [done|]. intros [= <- _ _]. done.
Qed.
End exact.

(** The server-sent event of a record, as it is parsed. *)
Definition record_event (r : string * Value) : SseEvent :=
  MkSseEvent (Some (bytes_of r.1)) match to_vec r.2 with Ok b => b | Err _ => [] end None.

Lemma plain_newlines l : Forall (fun c => c < 256 /\ c <> CR /\ c <> LF) l -> normalize_newlines l = l.
Proof.
  induction 1 as [|c l [_ [Hc _]] _ IH]; [done|]. simpl. destruct (N.eqb_spec c CR); [done|]. by rewrite IH.
Qed.

Section bytes.
Context `{!SerdeReads}.

Lemma record_event_ok r : record_ok r -> event_utf8 (record_event r) /\ decoded None (record_event r) = record_event r
  /\ forall d, decode_sse_event (record_event r) d = if de_terminal d then (Err (AsInvalidState "event appeared after stream termination"), d) else decode_record r d.
Proof.
  intros (Hne & Hstr & Ho & Hty & Hx). destruct (reads_roundtrip _ Hx) as (b & Hb & Hr & Hu & Hp & _). unfold record_event. rewrite Hb. split_and!.
  - split_and!; [done|by intros n [= <-]|done].
  - unfold decoded. simpl. rewrite plain_newlines by done. destruct r as [[|c n] v]; done.
  - intros d. unfold decode_sse_event. cbv [st_bind st_get st_lift]. destruct (de_terminal d); [done|]. cbn [sse_data sse_event].
    rewrite Hr. cbn [map_err]. rewrite Ho. cbn [as_object ok_or]. unfold required_string. rewrite Hty. cbn [ok_or result_bind as_string].
    cbn [opt_filter]. rewrite of_bytes_of, bool_decide_eq_true_2 by done. simpl. unfold decode_record. by rewrite <- Ho.
Qed.

Fixpoint decode_all (records : list SseEvent) : Dec (list StreamEvent) :=
  match records with
  | [] => st_ret []
  | r :: records => let* es := decode_sse_event r in let* fs := decode_all records in st_ret (es ++ fs)
  end.

Lemma decode_all_app a b d : decode_all (a ++ b) d = (let* es := decode_all a in let* fs := decode_all b in st_ret (es ++ fs)) d.
Proof.
  revert d. induction a as [|r a IH]; intros d; simpl.
  - cbv [st_bind st_ret]. by destruct (decode_all b d) as [[]].
  - cbv [st_bind st_ret] in *. destruct (decode_sse_event r d) as [[es|] d1]; [|done]. rewrite IH.
    destruct (decode_all a d1) as [[fs|] d2]; [|done]. destruct (decode_all b d2) as [[gs|] d3]; [|done]. by rewrite app_assoc.
Qed.

Lemma records_decode rs d : Forall record_ok rs -> decode_all (map record_event rs) d = read_records rs d.
Proof.
  intros Hr. revert d. induction Hr as [|r rs Hok _ IH]; intros d; [done|]. simpl. cbv [st_bind st_get].
  destruct (record_event_ok r Hok) as (_ & _ & ->). destruct (de_terminal d); [done|].
  destruct (decode_record r d) as [[es|] d1]; [|done]. cbv [st_bind]. by rewrite IH.
Qed.

Lemma records_stream limits rs body : Forall record_ok rs -> encode_records limits rs = Ok body ->
  encode_stream limits (map record_event rs) = Ok body.
Proof.
  intros Hr. revert body. induction Hr as [|r rs Hok _ IH]; intros body; [by intros [= <-]|]. simpl. unfold encode_record.
  destruct Hok as (_ & _ & _ & _ & Hx). destruct (reads_roundtrip _ Hx) as (b & Hb & _). unfold record_event at 1. rewrite Hb. simpl.
  unfold sse_with_event, sse_event_new. simpl. destruct (sse_encode limits _) as [o1|]; simpl; [|done].
  destruct (encode_records limits rs) as [o2|]; [|done]. rewrite (IH o2 eq_refl). by intros [= <-].
Qed.

Lemma records_decoded rs : Forall record_ok rs -> decoded_stream None (map record_event rs) = map record_event rs.
Proof.
  induction 1 as [|r rs Hok _ IH]; [done|]. cbn [map decoded_stream]. change (next_id None (record_event r)) with (@None bytes).
  destruct (record_event_ok r Hok) as (_ & -> & _). by rewrite IH.
Qed.

Lemma encode_stream_app limits a b x y :
  encode_stream limits a = Ok x -> encode_stream limits b = Ok y -> encode_stream limits (a ++ b) = Ok (x ++ y).
Proof.
  revert x. induction a as [|e a IH]; intros x; simpl; [by intros [= <-]|].
  destruct (sse_encode limits e) as [o|]; simpl; [|done]. destruct (encode_stream limits a) as [z|]; simpl; [|done].
  intros [= <-] Hb. rewrite (IH z eq_refl Hb). simpl. by rewrite app_assoc.
Qed.

(** * Streams *)

Context (policy : LossPolicy) (limits : SseLimits).

Fixpoint encode_all (events : list StreamEvent) : Enc bytes :=
  match events with
  | [] => st_ret []
  | e :: events =>
    let* (body, _) := encode_event_with_limits e policy limits in let* rest := encode_all events in st_ret (body ++ rest)
  end.

Fixpoint hear_all (h : Hearing) (events : list StreamEvent) : list (option string * StreamEventKind) :=
  match events with [] => [] | e :: events => (hear h e).2 ++ hear_all (hear h e).1 events end.

Lemma hear_next h e : hs_next (hear h e).1 <= hs_next h + 1.
Proof. unfold hear. destruct (ev_kind e); simpl; lia. Qed.

Lemma event_inv e s body report s' : encode_event_with_limits e policy limits s = (Ok (body, report), s') ->
  en_terminal s = false /\ exists values report', encode_values e report_default s = (Ok (values, report'), s')
    /\ encode_records limits values = Ok body.
Proof.
  unfold encode_event_with_limits. cbv [st_bind st_get st_lift st_ret]. destruct (en_terminal s); [done|].
  destruct (encode_values e report_default s) as [[[values report']|] s1]; [|done]. destruct (map_err _ _); [|done].
  destruct (encode_records limits values) as [b|] eqn:E; [|done]. intros [= <- _ <-]. split; [done|]. eauto.
Qed.

Lemma encode_all_heard events : forall s h d out s',
  sim s h d -> Forall event_typed events -> en_next_index s + N.of_nat (length events) <= U64_MAX ->
  encode_all events s = (Ok out, s') ->
  exists rs d', Forall record_ok rs /\ encode_stream limits (map record_event rs) = Ok out
    /\ decode_all (map record_event rs) d = (Ok (numbered (de_sequence d) (hear_all h events)), d')
    /\ de_terminal d' = en_terminal s'.
Proof.
  induction events as [|e events IH]; intros s h d out s' Hs Hty Hb Henc.
  - injection Henc as <- <-. exists [], d. split_and!; [done..|apply Hs].
  - apply Forall_cons in Hty as [He Hty]. cbn [length] in Hb. cbn [encode_all] in Henc. unfold st_bind at 1 in Henc.
    destruct (encode_event_with_limits e policy limits s) as [[[body report]|] s1] eqn:E1; [|done].
    cbv [st_bind st_ret] in Henc. destruct (encode_all events s1) as [[rest|] s2] eqn:E2; [|done]. injection Henc as <- <-.
    apply event_inv in E1 as (Ht & values & report' & Hv & Hrec). assert (Hn : en_next_index s < U64_MAX) by lia.
    pose proof (encode_exact s h d e Hs Hn _ _ _ _ He Hv) as Hok.
    destruct (encode_heard s h d e Hs Ht Hn _ _ _ _ He Hv) as (d1 & Hh & Hs1).
    destruct (IH s1 (hear h e).1 (set_sequence (bump (de_sequence d) (hear h e).2) d1) rest s2) as (rs & d2 & Hrs & Hst & Hd & Hterm);
      [by apply sim_sequence|done| |done|].
    { pose proof (hear_next h e) as Hnx. rewrite (si_next _ _ _ Hs1), (si_next _ _ _ Hs) in Hnx. lia. }
    exists (values ++ rs), d2. rewrite map_app. split_and!; [by apply Forall_app|by apply encode_stream_app; [apply records_stream|]| |done].
    rewrite decode_all_app. cbv [st_bind st_ret]. rewrite records_decode by done. unfold hears in Hh. rewrite Hh, Hd.
    cbn [hear_all]. by rewrite numbered_app.
Qed.

(** [C24] What a client reads of an Anthropic stream is what the gateway meant.  Take events
    whose fields are values of their Rust types, none of them an opaque event of this dialect
    (the encoder passes these through as they are), where the details of a failure are nested
    at most 125 deep and hold only floating point numbers that serde_json reads back as it
    wrote them.  When the encoder accepts such a sequence under some loss policy, a client that
    parses the bytes, cut in any way, and decodes the records gets the events of [hear]: texts,
    reasoning, tool calls and errors word for word, blocks numbered in the order they were
    opened, a refusal as a text, the usage with the completion, and nothing for what the
    dialect lacks; no record of it is refused, and the client's decoder is finished exactly
    when the encoder is. *)
Theorem anthropic_stream_roundtrip events out s chunks :
  encode_all events encoder_new = (Ok out, s) -> Forall event_typed events ->
  N.of_nat (length events) <= U64_MAX -> concat chunks = out ->
  exists records p d, feed_chunks (sse_parser_with_limits limits) chunks = Ok (records, p) /\ sse_finish p = Ok ([], p)
    /\ decode_all records decoder_new = (Ok (numbered 0 (hear_all hearing_new events)), d) /\ de_terminal d = en_terminal s.
Proof.
  intros Henc Hty Hb Hc.
  destruct (encode_all_heard events encoder_new hearing_new decoder_new out s sim_new Hty Hb Henc) as (rs & d & Hok & Hst & Hd & Ht).
  destruct (encode_stream_reads limits None (map record_event rs) out) as [id Hid]; [|done|].
  { apply Forall_map. eapply Forall_impl; [exact Hok|]. intros r Hr. apply (record_event_ok r Hr). }
  rewrite records_decoded in Hid by done. exists (map record_event rs), (between limits None [] false id []), d.
  split_and!; [|done..]. rewrite feed_chunks_concat, Hc by done. exact Hid.
Qed.
End bytes.
End records.

(** A stream with a text, a tool call and a completion. *)
Definition spoken : list StreamEvent :=
  [event_new 0 (ResponseStart (Some "msg_1") None);
   event_new 1 (UsageEvent (usage_new 9 0));
   with_block_id (event_new 2 TextStart) "answer";
   with_block_id (event_new 3 (TextDelta "hello")) "answer";
   event_new 4 (ToolCallStart "toolu_1" "Read");
   event_new 5 (ToolCallDelta "toolu_1" "{}");
   with_block_id (event_new 6 TextEnd) "answer";
   event_new 7 (ToolCallEnd "toolu_1");
   event_new 8 (Completion FinishToolCall (Some (usage_new 9 11)))].
Definition wide : SseLimits := MkSseLimits 1048576 1048576.
Definition spoken_run : Result bytes AnthropicStreamError * AnthropicEventEncoder := @encode_all bits_json Reject wide spoken encoder_new.
Definition ok_bytes (r : Result bytes AnthropicStreamError) : bytes := match r with Ok b => b | Err _ => [] end.
Definition spoken_bytes : bytes := ok_bytes (fst spoken_run).

Lemma run_returns {S} (r : Result bytes AnthropicStreamError * S) :
  match fst r with Ok _ => true | Err _ => false end = true -> r = (Ok (ok_bytes (fst r)), snd r).
Proof. by destruct r as [[]]. Qed.

(** A client hears the eight events in order, whatever the encoder's own names of the blocks. *)
Lemma anthropic_stream_roundtrip_witness :
  exists records p d, feed_chunks (sse_parser_with_limits wide) [spoken_bytes] = Ok (records, p) /\ sse_finish p = Ok ([], p)
    /\ @decode_all bits_json records decoder_new = (Ok (numbered 0 (@hear_all bits_json hearing_new spoken)), d)
    /\ de_terminal d = en_terminal (snd spoken_run).
Proof.
  apply (@anthropic_stream_roundtrip bits_json bits_json_reads_back Reject wide spoken spoken_bytes
           (snd spoken_run) [spoken_bytes]).
  - fold spoken_run. unfold spoken_bytes. apply (run_returns spoken_run). vm_compute. reflexivity.
  - assert (Hu : forall i o, i <= U64_MAX -> o <= U64_MAX -> usage_typed (usage_new i o)) by (intros; by split_and!).
    repeat (apply Forall_cons; split); [..|by apply Forall_nil]; unfold event_typed; cbn [ev_kind event_new with_block_id]; try done.
    + by intros x [[= <-]|[=]].
    + split; [done|]. intros u [= <-]. by apply Hu.
  - vm_compute. discriminate.
  - apply app_nil_r.
Defined.

Example spoken_finished : en_terminal (snd spoken_run) = true.
Proof. vm_compute. reflexivity. Qed.

Example spoken_heard :
  map snd (@hear_all bits_json hearing_new (drop 2 spoken))
  = [TextStart; TextDelta "hello"; ToolCallStart "toolu_1" "Read"; ToolCallDelta "toolu_1" "{}"; TextEnd; ToolCallEnd "toolu_1";
     Completion FinishToolCall (Some (usage_told usage_default (usage_new 9 11)))].
Proof. vm_compute. reflexivity. Qed.

(** The encoder drops the reasoning tokens of a usage without a word in its report. *)
Example reasoning_tokens_unreported :
  let u := MkUsage 9 11 (Some 5) None (Some 20) ∅ in
  match (@encode_event bits_json (event_new 0 (Completion FinishStop (Some u))) Reject encoder_new).1 with
  | Ok (_, report) => report = report_default
  | Err _ => False
  end /\ reasoning_tokens (usage_told usage_default u) = None.
Proof. vm_compute. split; reflexivity. Qed.
