(* ===== verification/AnthropicUnary.v ===== *)
(** Unary Anthropic messages (crates/adapter-anthropic/src/stream.rs): a message as the
    semantic events of its stream, and the message such events make.  The vectors that the
    functions fill are values that they return. *)
From stdpp Require Import pretty.
From S2P Require Import Prelude Str CoreError Bytes Sse Json JsonFacts Extensions Events Redact RedactWriter Codec SerdeModel Anthropic AnthropicUsage.

Open Scope N_scope.

Definition ANTHROPIC_CONTENT_MEDIA_TYPE : string := "application/vnd.anthropic.content+json".
Definition UNARY_TEMPLATE_EXTENSION : string := "anthropic.messages.unary_template".

Definition as_array (v : Value) : option (list Value) := match v with Array l => Some l | _ => None end.
(** [Value::get] with a key. *)
Definition value_get (key : string) (v : Value) : option Value := o ← as_object v; obj_get key o.

(** [Value == Value]; zeros of both signs are equal. *)
Definition number_eqb (a b : Number) : bool :=
  match a, b with
  | PosInt n, PosInt m => n =? m
  | NegInt n, NegInt m => (n =? m)%Z
  | Float n, Float m => (n =? m) || ((N.land n 0x7FFFFFFFFFFFFFFF =? 0) && (N.land m 0x7FFFFFFFFFFFFFFF =? 0))
  | _, _ => false
  end.
Fixpoint value_eqb (v w : Value) {struct v} : bool :=
  match v, w with
  | Null, Null => true
  | Bool a, Bool b => Bool.eqb a b
  | Num a, Num b => number_eqb a b
  | Str a, Str b => String.eqb a b
  | Array l, Array k =>
    (fix go l k := match l, k with
                   | [], [] => true
                   | x :: l, y :: k => value_eqb x y && go l k
                   | _, _ => false
                   end) l k
  | Object m, Object n =>
    (fix go m n := match m, n with
                   | [], [] => true
                   | (a, x) :: m, (b, y) :: n => String.eqb a b && value_eqb x y && go m n
                   | _, _ => false
                   end) m n
  | _, _ => false
  end.
Definition opt_value_eqb (a b : option Value) : bool :=
  match a, b with Some v, Some w => value_eqb v w | None, None => true | _, _ => false end.

(** * Decoding *)

Record DecodedAnthropicMessage := MkDecodedMessage { dm_events : list StreamEvent; dm_report : ConversionReport }.

Definition push_unary_event (events : list StreamEvent) (kind : StreamEventKind) (block_id : option string) : list StreamEvent :=
  let e := event_new (N.min U64_MAX (N.of_nat (length events))) kind in
  events ++ [match block_id with Some id => with_block_id e id | None => e end].

Section codec.
Context `{SerdeJson}.

Definition content_path (index : N) (suffix : string) : string := "message.content[" +:+ pretty index +:+ "]" +:+ suffix.

Definition decode_unary_text (object : list (string * Value)) (index : N) (events : list StreamEvent)
  : Result (list StreamEvent) AnthropicStreamError :=
  let id := block_id "text" index in
  let events := push_unary_event events TextStart (Some id) in
  let? text := required_string object "text" (content_path index ".text") in
  let events := if str_is_empty text then events else push_unary_event events (TextDelta text) (Some id) in
  Ok (push_unary_event events TextEnd (Some id)).
Definition decode_unary_thinking (object : list (string * Value)) (index : N) (events : list StreamEvent)
  : Result (list StreamEvent) AnthropicStreamError :=
  let id := block_id "thinking" index in
  let events := push_unary_event events ReasoningStart (Some id) in
  let? text := optional_string object "thinking" (content_path index ".thinking") in
  let text := default "" text in
  let events := if str_is_empty text then events else push_unary_event events (ReasoningDelta text) (Some id) in
  let? signature := optional_string object "signature" (content_path index ".signature") in
  let? data := optional_string object "data" (content_path index ".data") in
  let reasoning := MkReasoningBlock None (if str_is_empty text then None else Some text) None (bytes_of <$> data)
                     (bytes_of <$> signature) [] in
  Ok (push_unary_event events (ReasoningEnd (Some reasoning)) (Some id)).
Definition decode_unary_tool (object : list (string * Value)) (index : N) (events : list StreamEvent)
  : Result (list StreamEvent) AnthropicStreamError :=
  let? id := required_string object "id" (content_path index ".id") in
  let? name := required_string object "name" (content_path index ".name") in
  let events := push_unary_event events (ToolCallStart id name) None in
  let? input := ok_or (obj_get "input" object) (AsMissingField (content_path index ".input")) in
  let? arguments := map_err AsJson (to_vec input) in
  let events := push_unary_event events (ToolCallDelta id (of_bytes arguments)) None in
  Ok (push_unary_event events (ToolCallEnd id) None).
Definition decode_unary_content (value : Value) (index : N) (events : list StreamEvent) (report : ConversionReport)
  : Result (list StreamEvent * ConversionReport) AnthropicStreamError :=
  let? object := ok_or (as_object value) (AsInvalidShape (content_path index "") "an object") in
  let? kind := required_string object "type" (content_path index ".type") in
  if String.eqb kind "text" then let? events := decode_unary_text object index events in Ok (events, report)
  else if String.eqb kind "thinking" || String.eqb kind "redacted_thinking"
  then let? events := decode_unary_thinking object index events in Ok (events, report)
  else if String.eqb kind "tool_use" then let? events := decode_unary_tool object index events in Ok (events, report)
  else
    let report := preserve_capability report ("anthropic.messages.content." +:+ kind) in
    let? data := map_err AsJson (to_vec value) in
    Ok (push_unary_event events (OpaqueEvent ANTHROPIC_CONTENT_MEDIA_TYPE data) None, report).
(** [for (index, block) in content.iter().enumerate()]. *)
Fixpoint decode_unary_blocks (content : list Value) (index : N) (events : list StreamEvent) (report : ConversionReport)
  : Result (list StreamEvent * ConversionReport) AnthropicStreamError :=
  match content with
  | [] => Ok (events, report)
  | block :: content =>
    let? (events, report) := decode_unary_content block index events report in
    decode_unary_blocks content (index + 1) events report
  end.

Definition decode_unary_error (object : list (string * Value)) : Result DecodedAnthropicMessage AnthropicStreamError :=
  let? error := required_object object "error" "error.error" in
  let? code := required_string error "type" "error.error.type" in
  let? message := required_string error "message" "error.error.message" in
  let retryable := existsb (String.eqb code) ["api_error"; "overloaded_error"; "rate_limit_error"] in
  let? details := map_err AsPreservedJson (pj_from_value (Object error)) in
  Ok (MkDecodedMessage [event_new 0 (Failure (MkStreamError code message retryable (Some details)))] report_default).

Definition type_is (object : list (string * Value)) (key kind : string) : bool :=
  beq (v ← obj_get key object; as_string v) (Some kind).

(** The template kept with the first event. *)
Definition unary_template (value : Value) : Result OpaqueExtension AnthropicStreamError :=
  let? data := map_err AsJson (to_vec value) in
  let? template := map_err AsExtension (opaque_new "anthropic.messages" "unary_template" data) in
  let? template := map_err AsExtension (with_media_type template "application/json") in
  Ok (with_replay_policy template ReplayNever).

Definition decode_unary_message (input : bytes) : Result DecodedAnthropicMessage AnthropicStreamError :=
  let? value := map_err AsJson (from_slice input) in
  let? object := ok_or (as_object value) (AsInvalidShape "message" "an object") in
  if type_is object "type" "error" then decode_unary_error object
  else if negb (type_is object "type" "message") then Err (AsInvalidState "unary response type must be `message`")
  else if negb (type_is object "role" "assistant") then Err (AsInvalidState "unary message role must be `assistant`")
  else
    let? response_id := required_string object "id" "message.id" in
    let? model := required_string object "model" "message.model" in
    let start := event_new 0 (ResponseStart (Some response_id) (Some model)) in
    let? template := unary_template value in
    let report := preserve_extension report_default (opaque_key template) in
    let start := MkStreamEvent (ev_sequence start) (ev_block_id start) (ev_kind start) (ext_insert (ev_extensions start) template).2 in
    let? content := ok_or (obj_get "content" object ≫= as_array) (AsInvalidShape "message.content" "an array") in
    let? (events, report) := decode_unary_blocks content 0 [start] report in
    let? usage := ok_or (obj_get "usage" object) (AsMissingField "message.usage") in
    let? usage := match merge_usage usage "message.usage" usage_default with (Ok _, u) => Ok u | (Err e, _) => Err e end in
    let stop_reason := match v ← obj_get "stop_reason" object; as_string v with
                       | Some reason => decode_finish_reason reason
                       | None => FinishOther "none"
                       end in
    Ok (MkDecodedMessage (push_unary_event events (Completion stop_reason (Some usage)) None) report).

(** * Encoding *)

Record EncodedAnthropicMessage := MkEncodedMessage { em_body : bytes; em_report : ConversionReport }.

Inductive UnaryBlock :=
| UbText (id text : string)
| UbReasoning (id text : string)
| UbTool (id name arguments : string).
Definition unary_block_id (b : UnaryBlock) : string :=
  match b with UbText id _ | UbReasoning id _ | UbTool id _ _ => id end.

Definition start_unary_block (blocks : list UnaryBlock) (block : UnaryBlock) : Result (list UnaryBlock) AnthropicStreamError :=
  let id := unary_block_id block in
  if existsb (fun b => beq (unary_block_id b) id) blocks
  then Err (AsInvalidState ("unary content block `" +:+ id +:+ "` started twice"))
  else Ok (blocks ++ [block]).
(** [unary_block_mut]: the position of the block and the block. *)
Definition unary_block_mut (blocks : list UnaryBlock) (id : string) : Result (nat * UnaryBlock) AnthropicStreamError :=
  ok_or (list_find (fun b => unary_block_id b = id) blocks)
    (AsInvalidState ("unary content block `" +:+ id +:+ "` is not open")).
Definition end_unary_block (blocks : list UnaryBlock) (id : string) : Result (UnaryBlock * list UnaryBlock) AnthropicStreamError :=
  let? (index, block) := ok_or (list_find (fun b => unary_block_id b = id) blocks)
                           (AsInvalidState ("unary content block `" +:+ id +:+ "` is not open")) in
  Ok (block, delete index blocks).
Definition wrong_unary_block (id : string) : AnthropicStreamError :=
  AsInvalidState ("unary content block `" +:+ id +:+ "` has the wrong kind").

Definition report_unary_extensions (e : StreamEvent) (allow_template : bool) (report : ConversionReport) : ConversionReport :=
  foldl (fun report kv =>
           if allow_template && String.eqb (extension_key_as_str kv.1) UNARY_TEMPLATE_EXTENSION then report
           else drop_optional report ("event.extensions." +:+ extension_key_as_str kv.1)
                  "event extension has no unary Anthropic representation") report (ev_extensions e).

(** [entry(key).or_insert_with(..)] for every member of [original]. *)
Definition fill_members (value original : list (string * Value)) : list (string * Value) :=
  foldl (fun m kv => match obj_get kv.1 m with Some _ => m | None => obj_insert kv.1 kv.2 m end) value original.
Definition merge_content_template (value original : Value) : Value :=
  match as_object value, as_object original with
  | Some v, Some o => if opt_value_eqb (obj_get "type" v) (obj_get "type" o) then Object (fill_members v o) else value
  | _, _ => value
  end.
(** [content.iter_mut().zip(template)]: the values beyond the template stay. *)
Fixpoint merge_contents (content template : list Value) : list Value :=
  match content, template with
  | v :: content, o :: template => merge_content_template v o :: merge_contents content template
  | content, _ => content
  end.
Definition merge_unary_content_templates (content : list Value) (template : option Value) : list Value :=
  match t ← template; c ← value_get "content" t; as_array c with
  | Some t => merge_contents content t
  | None => content
  end.
Definition merge_unary_usage_template (usage : Value) (template : option Value) : Value :=
  match as_object usage with
  | None => usage
  | Some u =>
    match t ← template; w ← value_get "usage" t; as_object w with
    | Some original => Object (fill_members u original)
    | None => Object u
    end
  end.

(** The variables of the loop over the events. *)
Record UnaryState := MkUnaryState {
  us_report : ConversionReport; us_template : option Value; us_response_id : option string; us_model : option string;
  us_blocks : list UnaryBlock; us_content : list Value; us_usage : option Usage; us_finish_reason : option FinishReason }.
Definition unary_new : UnaryState := MkUnaryState report_default None None None [] [] None None.
Definition us_set_report r u := MkUnaryState r (us_template u) (us_response_id u) (us_model u) (us_blocks u) (us_content u) (us_usage u) (us_finish_reason u).
Definition us_set_blocks b u := MkUnaryState (us_report u) (us_template u) (us_response_id u) (us_model u) b (us_content u) (us_usage u) (us_finish_reason u).
Definition us_push v u := MkUnaryState (us_report u) (us_template u) (us_response_id u) (us_model u) (us_blocks u) (us_content u ++ [v]) (us_usage u) (us_finish_reason u).
Definition us_set_usage w u := MkUnaryState (us_report u) (us_template u) (us_response_id u) (us_model u) (us_blocks u) (us_content u) w (us_finish_reason u).
Definition us_finish r u := MkUnaryState (us_report u) (us_template u) (us_response_id u) (us_model u) (us_blocks u) (us_content u) (us_usage u) (Some r).

(** One turn of the loop: the next state, or the return of an error message. *)
Inductive UnaryFlow := UfContinue (u : UnaryState) | UfReturn (m : EncodedAnthropicMessage).
Definition unary_id (e : StreamEvent) (kind : string) : Result string AnthropicStreamError :=
  ok_or (effective_block_id e) (AsInvalidState (kind +:+ " requires a stable block ID")).

Definition encode_unary_start (e : StreamEvent) (response_id model : option string) (u : UnaryState) : Result UnaryState AnthropicStreamError :=
  let u := MkUnaryState (us_report u) (us_template u) response_id model (us_blocks u) (us_content u) (us_usage u) (us_finish_reason u) in
  let? u := match ext_get_str (ev_extensions e) UNARY_TEMPLATE_EXTENSION with
            | Some extension =>
              let? template := map_err AsJson (from_slice (oe_bytes extension)) in
              Ok (MkUnaryState (preserve_extension (us_report u) (opaque_key extension)) (Some template) (us_response_id u) (us_model u)
                    (us_blocks u) (us_content u) (us_usage u) (us_finish_reason u))
            | None => Ok u
            end in
  Ok (us_set_report (report_unary_extensions e true (us_report u)) u).
Definition thinking_content (collected : string) (reasoning : option ReasoningBlock) : Value :=
  match reasoning ≫= rb_encrypted_content with
  | Some encrypted =>
    json_object [("type", Str "redacted_thinking"); ("data", Str (of_bytes (from_utf8_lossy encrypted)))]
  | None =>
    let text := if str_is_empty collected then default "" (reasoning ≫= rb_text) else collected in
    let block := json_members [("type", Str "thinking"); ("thinking", Str text)] in
    Object match reasoning ≫= rb_signature with
           | Some signature => obj_insert "signature" (Str (of_bytes (from_utf8_lossy signature))) block
           | None => block
           end
  end.
Definition tool_content (id name arguments : string) : Result Value AnthropicStreamError :=
  let? input := if str_is_empty arguments then Ok (Object []) else map_err AsJson (from_slice (bytes_of arguments)) in
  Ok (json_object [("type", Str "tool_use"); ("id", Str id); ("name", Str name); ("input", input)]).

Definition encode_unary_event (policy : LossPolicy) (e : StreamEvent) (u : UnaryState) : Result UnaryFlow AnthropicStreamError :=
  match ev_kind e with
  | ResponseStart response_id model => let? u := encode_unary_start e response_id model u in Ok (UfContinue u)
  | TextStart =>
    let? id := unary_id e "unary text start" in
    let? blocks := start_unary_block (us_blocks u) (UbText id "") in Ok (UfContinue (us_set_blocks blocks u))
  | TextDelta text =>
    let? id := unary_id e "unary text delta" in
    let? (i, block) := unary_block_mut (us_blocks u) id in
    match block with
    | UbText id' value => Ok (UfContinue (us_set_blocks (<[i := UbText id' (value +:+ text)]> (us_blocks u)) u))
    | _ => Err (wrong_unary_block id)
    end
  | TextEnd =>
    let? id := unary_id e "unary text end" in
    let? (block, blocks) := end_unary_block (us_blocks u) id in
    match block with
    | UbText _ text => Ok (UfContinue (us_push (json_object [("type", Str "text"); ("text", Str text)]) (us_set_blocks blocks u)))
    | _ => Err (wrong_unary_block id)
    end
  | ReasoningStart =>
    let? id := unary_id e "unary reasoning start" in
    let? blocks := start_unary_block (us_blocks u) (UbReasoning id "") in Ok (UfContinue (us_set_blocks blocks u))
  | ReasoningDelta text =>
    let? id := unary_id e "unary reasoning delta" in
    let? (i, block) := unary_block_mut (us_blocks u) id in
    match block with
    | UbReasoning id' value => Ok (UfContinue (us_set_blocks (<[i := UbReasoning id' (value +:+ text)]> (us_blocks u)) u))
    | _ => Err (wrong_unary_block id)
    end
  | ReasoningEnd reasoning =>
    let? id := unary_id e "unary reasoning end" in
    let? (block, blocks) := end_unary_block (us_blocks u) id in
    match block with
    | UbReasoning _ collected => Ok (UfContinue (us_push (thinking_content collected reasoning) (us_set_blocks blocks u)))
    | _ => Err (wrong_unary_block id)
    end
  | ToolCallStart id name =>
    let? blocks := start_unary_block (us_blocks u) (UbTool id name "") in Ok (UfContinue (us_set_blocks blocks u))
  | ToolCallDelta id arguments =>
    let? (i, block) := unary_block_mut (us_blocks u) id in
    match block with
    | UbTool id' name value => Ok (UfContinue (us_set_blocks (<[i := UbTool id' name (value +:+ arguments)]> (us_blocks u)) u))
    | _ => Err (wrong_unary_block id)
    end
  | ToolCallEnd id =>
    let? (block, blocks) := end_unary_block (us_blocks u) id in
    match block with
    | UbTool _ name arguments =>
      let? content := tool_content id name arguments in Ok (UfContinue (us_push content (us_set_blocks blocks u)))
    | _ => Err (wrong_unary_block id)
    end
  | UsageEvent usage => Ok (UfContinue (us_set_usage (Some usage) u))
  | Completion reason usage => Ok (UfContinue (us_finish reason (us_set_usage (or_else usage (us_usage u)) u)))
  | Failure error =>
    let details := default [] (se_details error ≫= fun d => as_object (pj_value d)) in
    let error_value := obj_insert "message" (Str (se_message error)) (obj_insert "type" (Str (se_code error)) details) in
    let? _ := map_err AsConversion (report_validate (us_report u) policy) in
    let? body := map_err AsJson (to_vec (json_object [("type", Str "error"); ("error", Object error_value)])) in
    Ok (UfReturn (MkEncodedMessage body (us_report u)))
  | OpaqueEvent media_type data =>
    if String.eqb media_type ANTHROPIC_CONTENT_MEDIA_TYPE
    then let? value := map_err AsJson (from_slice data) in Ok (UfContinue (us_push value u))
    else Ok (UfContinue (us_set_report (unsupported_required (us_report u) "unary.event"
               "semantic event has no unary Anthropic message representation") u))
  | Metadata _ | WarningEvent _ =>
    Ok (UfContinue (us_set_report (drop_optional (us_report u) "unary.event"
          "semantic event has no unary Anthropic message representation") u))
  | Refusal text =>
    Ok (UfContinue (us_push (json_object [("type", Str "text"); ("text", Str text)])
          (us_set_report (degrade_field (us_report u) "unary.refusal" "Anthropic represents refusal output as text content") u)))
  | Media _ _ =>
    Ok (UfContinue (us_set_report (unsupported_required (us_report u) "unary.event"
          "semantic event has no unary Anthropic message representation") u))
  end.

Fixpoint encode_unary_events (policy : LossPolicy) (events : list StreamEvent) (u : UnaryState) : Result UnaryFlow AnthropicStreamError :=
  match events with
  | [] => Ok (UfContinue u)
  | e :: events =>
    let? flow := encode_unary_event policy e u in
    match flow with UfContinue u => encode_unary_events policy events u | UfReturn m => Ok (UfReturn m) end
  end.

(** The message after the loop. *)
Definition unary_object (u : UnaryState) (finish_reason : FinishReason) : list (string * Value) :=
  let usage := default usage_default (us_usage u) in
  let object := default [] (us_template u ≫= as_object) in
  let content := merge_unary_content_templates (us_content u) (us_template u) in
  let object := obj_insert "id" (Str (default "msg_pooler" (us_response_id u))) object in
  let object := obj_insert "type" (Str "message") object in
  let object := obj_insert "role" (Str "assistant") object in
  let object := obj_insert "model" (Str (default "pooler-model" (us_model u))) object in
  let object := obj_insert "content" (Array content) object in
  let stop_reason := match finish_reason with
                     | FinishOther reason => if String.eqb reason "none" then Null else Str (encode_finish_reason finish_reason)
                     | _ => Str (encode_finish_reason finish_reason)
                     end in
  let object := obj_insert "stop_reason" stop_reason object in
  let object := match obj_get "stop_sequence" object with Some _ => object | None => obj_insert "stop_sequence" Null object end in
  obj_insert "usage" (merge_unary_usage_template (encode_usage usage) (us_template u)) object.

Definition encode_unary_message (events : list StreamEvent) (policy : LossPolicy) : Result EncodedAnthropicMessage AnthropicStreamError :=
  let? flow := encode_unary_events policy events unary_new in
  match flow with
  | UfReturn m => Ok m
  | UfContinue u =>
    if negb (list_is_empty (us_blocks u)) then Err (AsInvalidState "unary response ended with open content blocks")
    else
      let? finish_reason := ok_or (us_finish_reason u) (AsInvalidState "unary response has no completion event") in
      let object := unary_object u finish_reason in
      let? _ := map_err AsConversion (report_validate (us_report u) policy) in
      let? body := map_err AsJson (to_vec (Object object)) in
      Ok (MkEncodedMessage body (us_report u))
  end.
End codec.

(** * A unary Anthropic message passes through the semantic events unchanged. *)

(** * Objects *)

Lemma insert_same k v m : sorted_keys m = true -> obj_get k m = Some v -> obj_insert k v m = m.
Proof.
  intros Hs Hk. apply sorted_ext; [by apply sorted_insert|done|]. intros j. rewrite obj_get_insert_if. case_bool_decide; [by subst|done].
Qed.

Lemma fill_get o : forall m k, obj_get k (fill_members m o) = or_else (obj_get k m) (obj_get k o).
Proof.
  unfold fill_members. induction o as [|[j v] o IH]; intros m k; simpl; [by destruct (obj_get k m)|]. rewrite IH.
  destruct (obj_get j m) as [w|] eqn:Ej.
  - destruct (obj_get k m) eqn:Ek; [done|]. simpl. case_bool_decide; [congruence|done].
  - rewrite obj_get_insert_if. case_bool_decide; [subst; by rewrite Ej|]. by destruct (obj_get k m).
Qed.
Lemma fill_sorted o : forall m, sorted_keys m = true -> sorted_keys (fill_members m o) = true.
Proof.
  unfold fill_members. induction o as [|[j v] o IH]; intros m Hm; simpl; [done|]. apply IH. destruct (obj_get j m); [done|].
  by apply sorted_insert.
Qed.
(** Filling a part of a map up from the map gives the map. *)
Lemma fill_part m o : sorted_keys m = true -> sorted_keys o = true -> (forall k v, obj_get k m = Some v -> obj_get k o = Some v) ->
  fill_members m o = o.
Proof.
  intros Hm Ho Hk. apply sorted_ext; [by apply fill_sorted|done|]. intros k. rewrite fill_get.
  destruct (obj_get k m) eqn:E; [symmetry; by apply Hk|done].
Qed.

Lemma number_eqb_refl n : number_eqb n n = true.
Proof. destruct n; simpl; [apply N.eqb_refl|apply Z.eqb_refl|by rewrite N.eqb_refl]. Qed.
Lemma value_eqb_refl v : value_eqb v v = true.
Proof.
  induction v as [|b|n|s|l IH|m IH] using value_nested_ind; simpl; [done|by destruct b|apply number_eqb_refl|apply String.eqb_refl| |].
  - induction IH as [|x l Hx _ IHl]; [done|]. by rewrite Hx, IHl.
  - induction IH as [|[k x] l Hx _ IHl]; [done|]. simpl in Hx. by rewrite String.eqb_refl, Hx, IHl.
Qed.
Lemma opt_value_eqb_refl o : opt_value_eqb o o = true.
Proof. destruct o; [apply value_eqb_refl|done]. Qed.

(** * Usage *)

(** A counter that may be missing or null. *)
Definition count_member (o : list (string * Value)) (k : string) : Prop :=
  obj_get k o = None \/ obj_get k o = Some Null \/ exists n, obj_get k o = Some (number n).
Definition usage_complete (o : list (string * Value)) : Prop :=
  (exists n, obj_get "input_tokens" o = Some (number n)) /\ (exists n, obj_get "output_tokens" o = Some (number n))
  /\ count_member o "cache_read_input_tokens" /\ count_member o "cache_creation_input_tokens".

Lemma count_optional o k f : count_member o k -> exists n, optional_u64 o k f = Ok n /\ forall x, n = Some x -> obj_get k o = Some (number x).
Proof.
  unfold optional_u64. intros [-> |[-> |[n ->]]]; [by exists None..|]. exists (Some n). by split; [|intros x [= <-]].
Qed.

(** What a usage holds came from the object that was merged. *)
Record usage_of (o : list (string * Value)) (u : Usage) : Prop := {
  uo_input : obj_get "input_tokens" o = Some (number (input_tokens u));
  uo_output : obj_get "output_tokens" o = Some (number (output_tokens u));
  uo_cached : forall n, cached_input_tokens u = Some n -> obj_get "cache_read_input_tokens" o = Some (number n);
  uo_details : forall k n, usage_details u !! k = Some n -> obj_get k o = Some (number n);
}.

Lemma loop_details o l : forall u k n, Forall (fun kv => obj_get kv.1 o = Some kv.2) l ->
  usage_details (foldl merge_detail u l) !! k = Some n -> usage_details u !! k = Some n \/ obj_get k o = Some (number n).
Proof.
  induction l as [|[j v] l IH]; intros u k n Hl Hk; [by left|]. apply Forall_cons in Hl as [Hj Hl]. simpl in Hj, Hk.
  destruct (IH _ _ _ Hl Hk) as [Hd|]; [|by right]. unfold merge_detail in Hd. cbn [fst snd] in Hd. destruct (existsb _ _); [by left|].
  destruct (as_u64 v) as [x|] eqn:Ev; [|by left]. simpl in Hd. apply lookup_insert_Some in Hd as [[<- <-]|[_ ?]]; [|by left].
  right. rewrite Hj. by destruct v as [| |[]| | |]; simplify_eq/=.
Qed.

Lemma members_found m : sorted_keys m = true -> Forall (fun kv => obj_get kv.1 m = Some kv.2) m.
Proof.
  induction m as [|[k v] m IH]; [done|]. intros [Hs Hb]%sorted_cons. constructor; [simpl; by rewrite bool_decide_eq_true_2|].
  specialize (IH Hs). rewrite Forall_forall in IH |- *. intros [j w] Hj. simpl. rewrite bool_decide_eq_false_2; [by apply (IH (j, w))|].
  intros ->. rewrite Forall_forall in Hb. specialize (Hb k (list_elem_of_fmap_2 fst _ _ Hj)). unfold key_lt in Hb.
  by rewrite (pre_refl String.compare) in Hb.
Qed.

Lemma of_detail o u k n : usage_of o u -> obj_get k o = Some (number n) -> usage_of o (set_detail k n u).
Proof.
  intros [? ? ? Hd] Hk. constructor; try done. simpl. intros j x [[<- <-]|[_ Hj]]%lookup_insert_Some; [done|by apply Hd].
Qed.
Lemma of_cached o u n : usage_of o u -> obj_get "cache_read_input_tokens" o = Some (number n) -> usage_of o (set_cached (Some n) u).
Proof. intros [] Hk. constructor; try done. simpl. by intros x [= <-]. Qed.

Lemma update_optional o name f set n u : optional_u64 o name f = Ok n -> update_usage_field o name f set u = (Ok tt, told n set u).
Proof. intros Hn. unfold update_usage_field. cbv [st_bind st_lift st_modify st_ret]. rewrite Hn. by destruct n. Qed.

Lemma merge_usage_of o f : sorted_keys o = true -> usage_complete o ->
  exists u, merge_usage (Object o) f usage_default = (Ok tt, u) /\ usage_of o u.
Proof.
  intros Hs ([i Hi] & [n Hn] & Hr & Hc). unfold merge_usage. cbv [st_bind st_lift st_modify as_object ok_or].
  destruct (count_optional o "cache_read_input_tokens" f Hr) as (r & Er & Hr').
  destruct (count_optional o "cache_creation_input_tokens" f Hc) as (c & Ec & Hc').
  rewrite (update_optional o "input_tokens" f _ (Some i)) by (unfold optional_u64; by rewrite Hi).
  rewrite (update_optional o "output_tokens" f _ (Some n)) by (unfold optional_u64; by rewrite Hn).
  rewrite (update_optional _ _ _ _ _ _ Er), (update_optional _ _ _ _ _ _ Ec).
  set (u0 := told (Some n) set_output _). set (u1 := told r _ u0). set (u2 := told c _ u1).
  assert (H0 : usage_of o u0) by by constructor.
  assert (H1 : usage_of o u1) by (subst u1; destruct r as [x|]; [apply of_detail; [apply of_cached|]|]; auto).
  assert (H2 : usage_of o u2) by (subst u2; destruct c as [x|]; [apply of_detail|]; auto).
  eexists. split; [reflexivity|]. destruct (merge_details_fields o u2) as (F1 & F2 & _ & F4). destruct H2 as [Ui Uo Uc Ud].
  constructor; cbn [set_total input_tokens output_tokens cached_input_tokens usage_details].
  - by rewrite F1.
  - by rewrite F2.
  - rewrite F4. apply Uc.
  - intros k x Hk. destruct (loop_details o o u2 k x (members_found o Hs) Hk) as [Hd|]; [by apply Ud|done].
Qed.

(** The usage that is written back. *)
Lemma usage_template o u v : sorted_keys o = true -> usage_typed u -> usage_of o u -> value_get "usage" v = Some (Object o) ->
  merge_unary_usage_template (encode_usage u) (Some v) = Object o.
Proof.
  intros Hs Ht [Hi Hn Hc Hd] Hv. change (encode_usage u) with (Object (usage_members u)). unfold merge_unary_usage_template.
  cbn [as_object mbind option_bind]. rewrite Hv. cbn [mbind option_bind as_object]. f_equal. clear v Hv.
  apply fill_part; [apply (usage_members_exact (fl := finite_float) 1 u Ht)|done|]. intros k v. rewrite usage_member_get.
  case_bool_decide; [by intros [= <-]; subst|]. case_bool_decide; [by intros [= <-]; subst|].
  intros (n & Hk & ->)%fmap_Some. unfold told_details in Hk. rewrite !lookup_delete_ne in Hk by done.
  destruct (cached_input_tokens u) as [c|] eqn:Ec; [|by apply Hd].
  apply lookup_insert_Some in Hk as [[<- <-]|[_ Hk]]; [by apply Hc|by apply Hd].
Qed.

(** * Content blocks *)

Definition within (m o : list (string * Value)) : Prop := forall k v, obj_get k m = Some v -> obj_get k o = Some v.
Lemma within_insert k v m o : within m o -> obj_get k o = Some v -> within (obj_insert k v m) o.
Proof. intros Hm Hk j w. rewrite obj_get_insert_if. case_bool_decide; [subst; by intros [= <-]|apply Hm]. Qed.
Lemma within_members l o : Forall (fun kv => obj_get kv.1 o = Some kv.2) l -> within (json_members l) o.
Proof.
  unfold json_members. assert (Hnil : within [] o) by done. revert Hnil. generalize (@nil (string * Value)) as m.
  induction l as [|[k v] l IH]; intros m Hm Hl; [done|]. apply Forall_cons in Hl as [Hk Hl]. simpl. apply IH; [by apply within_insert|done].
Qed.
Lemma json_members_sorted l : sorted_keys (json_members l) = true.
Proof.
  unfold json_members. assert (Hnil : sorted_keys [] = true) by done. revert Hnil. generalize (@nil (string * Value)) as m.
  induction l as [|[k v] l IH]; intros m Hm; [done|]. simpl. by apply IH, sorted_insert.
Qed.

Lemma template_fill m o : sorted_keys m = true -> sorted_keys o = true -> within m o -> obj_get "type" m = obj_get "type" o ->
  merge_content_template (Object m) (Object o) = Object o.
Proof.
  intros Hm Ho Hw Ht. unfold merge_content_template. cbn [as_object]. rewrite Ht, opt_value_eqb_refl. f_equal. by apply fill_part.
Qed.

Definition text_member (o : list (string * Value)) (k : string) : Prop := exists s, obj_get k o = Some (Str s).
Definition opt_text_member (o : list (string * Value)) (k : string) : Prop :=
  obj_get k o = None \/ obj_get k o = Some Null \/ text_member o k.
Definition no_member (o : list (string * Value)) (k : string) : Prop := obj_get k o = None \/ obj_get k o = Some Null.

(** A content block as the API documents it. *)
Definition block_complete (v : Value) : Prop :=
  exists o kind, v = Object o /\ obj_get "type" o = Some (Str kind)
  /\ (kind = "text" -> text_member o "text")
  /\ (kind = "thinking" -> text_member o "thinking" /\ opt_text_member o "signature" /\ no_member o "data")
  /\ (kind = "redacted_thinking" -> opt_text_member o "thinking" /\ opt_text_member o "signature" /\ text_member o "data")
  /\ (kind = "tool_use" -> text_member o "id" /\ text_member o "name" /\ exists input, obj_get "input" o = Some input).

Lemma optional_text o k f : opt_text_member o k ->
  exists s, optional_string o k f = Ok s /\ forall x, s = Some x -> obj_get k o = Some (Str x).
Proof.
  unfold optional_string. intros [-> |[-> |[s ->]]]; [by exists None..|]. exists (Some s). by split; [|intros x [= <-]].
Qed.
Lemma member_str {fl} depth o k s : exact_with fl (S depth) (Object o) = true -> obj_get k o = Some (Str s) -> is_str s.
Proof.
  cbn [exact_with]. intros [_ Hm]%andb_true_iff Hk. rewrite forallb_forall in Hm. induction o as [|[j v] o IH]; [done|].
  simpl in Hk. case_bool_decide.
  - injection Hk as ->. specialize (Hm (j, Str s) (or_introl eq_refl)). by apply andb_true_iff in Hm as [_ ?].
  - apply IH; [|done]. intros x Hx. apply Hm. by right.
Qed.
Lemma member_exact_of {fl} depth o k v : exact_with fl (S depth) (Object o) = true -> obj_get k o = Some v -> exact_with fl depth v = true.
Proof.
  cbn [exact_with]. intros [_ Hm]%andb_true_iff Hk. rewrite forallb_forall in Hm. induction o as [|[j w] o IH]; [done|].
  simpl in Hk. case_bool_decide.
  - injection Hk as ->. specialize (Hm (j, v) (or_introl eq_refl)). by apply andb_true_iff in Hm as [_ ?].
  - apply IH; [|done]. intros x Hx. apply Hm. by right.
Qed.
Lemma object_sorted {fl} depth o : exact_with fl depth (Object o) = true -> sorted_keys o = true.
Proof. destruct depth; [done|]. cbn [exact_with]. by intros [? _]%andb_true_iff. Qed.

Section blocks.
Context `{SerdeJson} `{!SerdeReads} (policy : LossPolicy).

(** The events of a block are encoded to a content that the template makes the block again. *)
Definition passes (v : Value) (es : list StreamEvent) : Prop :=
  exists c, merge_content_template c v = v
    /\ forall u rest, us_blocks u = [] -> encode_unary_events policy (es ++ rest) u = encode_unary_events policy rest (us_push c u).

Lemma find_open (b : UnaryBlock) id : unary_block_id b = id -> list_find (fun b => unary_block_id b = id) [b] = Some (0%nat, b).
Proof. intros Hb. cbn [list_find]. by rewrite decide_True. Qed.

Lemma open_none (u : UnaryState) c : us_blocks u = [] -> us_push c (us_set_blocks [] u) = us_push c u.
Proof. intros Hu. destruct u. simpl in *. by subst. Qed.

Definition ev (sequence : N) (id : option string) (k : StreamEventKind) : StreamEvent := MkStreamEvent sequence id k [].

Lemma text_passes o text id q1 q2 q3 :
  sorted_keys o = true -> obj_get "type" o = Some (Str "text") -> obj_get "text" o = Some (Str text) ->
  passes (Object o) (ev q1 (Some id) TextStart :: (if str_is_empty text then [] else [ev q2 (Some id) (TextDelta text)]) ++ [ev q3 (Some id) TextEnd]).
Proof.
  intros Hs Ht Hx. exists (json_object [("type", Str "text"); ("text", Str text)]). split.
  - apply template_fill; [apply json_members_sorted|done| |by rewrite Ht]. apply within_members. by repeat constructor.
  - intros u rest Hu. destruct u as [report template rid model blocks content usage finish]. simpl in Hu. subst blocks.
    destruct text as [|c text]; cbn [str_is_empty app encode_unary_events]; unfold encode_unary_event, ev, unary_block_mut, end_unary_block; simpl;
      repeat (rewrite decide_True by done; simpl); reflexivity.
Qed.

Lemma thinking_passes o text signature data id q1 q2 q3 :
  sorted_keys o = true ->
  (forall s, signature = Some s -> is_str s /\ obj_get "signature" o = Some (Str s)) ->
  match data with
  | Some d => is_str d /\ obj_get "type" o = Some (Str "redacted_thinking") /\ obj_get "data" o = Some (Str d)
  | None => obj_get "type" o = Some (Str "thinking") /\ obj_get "thinking" o = Some (Str text)
  end ->
  let reasoning := MkReasoningBlock None (if str_is_empty text then None else Some text) None (bytes_of <$> data) (bytes_of <$> signature) [] in
  passes (Object o) (ev q1 (Some id) ReasoningStart :: (if str_is_empty text then [] else [ev q2 (Some id) (ReasoningDelta text)])
                     ++ [ev q3 (Some id) (ReasoningEnd (Some reasoning))]).
Proof.
  intros Hs Hsig Hdata reasoning. exists (thinking_content text (Some reasoning)). split.
  - unfold thinking_content. subst reasoning. cbn [mbind option_bind rb_encrypted_content rb_text rb_signature].
    destruct data as [d|]; cbn [fmap option_fmap option_map].
    + destruct Hdata as (Hstr & Ht & Hd). rewrite from_utf8_lossy_id, of_bytes_of by done.
      apply template_fill; [apply json_members_sorted|done| |by rewrite Ht]. apply within_members. by repeat constructor.
    + destruct Hdata as [Ht Hx]. replace (if str_is_empty text then default "" (if str_is_empty text then None else Some text) else text)
        with text by by destruct text.
      destruct signature as [s|]; cbn [fmap option_fmap option_map].
      * destruct (Hsig s eq_refl) as [Hstr Hg]. rewrite from_utf8_lossy_id, of_bytes_of by done.
        apply template_fill; [by apply sorted_insert, (json_members_sorted [("type", Str "thinking"); ("thinking", Str text)])|done| |by rewrite Ht].
        apply within_insert; [|done]. apply (within_members [("type", Str "thinking"); ("thinking", Str text)]). by repeat constructor.
      * apply template_fill; [apply (json_members_sorted [("type", Str "thinking"); ("thinking", Str text)])|done| |by rewrite Ht].
        apply (within_members [("type", Str "thinking"); ("thinking", Str text)]). by repeat constructor.
  - intros u rest Hu. destruct u as [report template rid model blocks content usage finish]. simpl in Hu. subst blocks.
    destruct text as [|c text]; cbn [str_is_empty app encode_unary_events]; unfold encode_unary_event, ev, unary_block_mut, end_unary_block; simpl;
      repeat (rewrite decide_True by done; simpl); reflexivity.
Qed.

Lemma tool_passes o id name input arguments q1 q2 q3 :
  sorted_keys o = true -> obj_get "type" o = Some (Str "tool_use") -> obj_get "id" o = Some (Str id) ->
  obj_get "name" o = Some (Str name) -> obj_get "input" o = Some input -> exact_with reads_back MAX_DEPTH input = true -> to_vec input = Ok arguments ->
  passes (Object o) [ev q1 None (ToolCallStart id name); ev q2 None (ToolCallDelta id (of_bytes arguments)); ev q3 None (ToolCallEnd id)].
Proof.
  intros Hs Ht Hi Hn Hin Hx Hv. destruct (reads_roundtrip _ Hx) as (b & Hb & Hr & _ & Hc & Hne). rewrite Hv in Hb. injection Hb as <-.
  exists (json_object [("type", Str "tool_use"); ("id", Str id); ("name", Str name); ("input", input)]). split.
  - apply template_fill; [apply json_members_sorted|done| |by rewrite Ht]. apply within_members. by repeat constructor.
  - intros u rest Hu. destruct u as [report template rid model blocks content usage finish]. simpl in Hu. subst blocks.
    assert (Htool : tool_content id name (of_bytes arguments)
      = Ok (json_object [("type", Str "tool_use"); ("id", Str id); ("name", Str name); ("input", input)])).
    { unfold tool_content. rewrite bytes_of_of, Hr by (eapply Forall_impl; [exact Hc|]; by intros ? [? _]). by destruct arguments. }
    cbn [app encode_unary_events]. unfold encode_unary_event, ev, unary_block_mut, end_unary_block. cbn -[tool_content].
    repeat (rewrite decide_True by done; cbn -[tool_content]). change ("" +:+ of_bytes arguments) with (of_bytes arguments).
    rewrite Htool. reflexivity.
Qed.

Lemma opaque_passes v b q : exact_with reads_back MAX_DEPTH v = true -> to_vec v = Ok b ->
  (forall o, v = Object o -> sorted_keys o = true) ->
  passes v [ev q None (OpaqueEvent ANTHROPIC_CONTENT_MEDIA_TYPE b)].
Proof.
  intros Hx Hv Ho. destruct (reads_roundtrip _ Hx) as (b' & Hb & Hr & _). rewrite Hv in Hb. injection Hb as <-.
  exists v. split.
  - destruct v as [| | | | |o]; try done. specialize (Ho o eq_refl). apply template_fill; [done|done| |done]. by intros k w.
  - intros u rest _. cbn [app encode_unary_events]. unfold encode_unary_event, ev. simpl. by rewrite Hr.
Qed.

(** ** Decoding a block *)

Lemma required_text o k f s : obj_get k o = Some (Str s) -> required_string o k f = Ok s.
Proof. unfold required_string. by intros ->. Qed.

Lemma push_text events (text : string) k id :
  (if str_is_empty text then events else push_unary_event events k id)
  = events ++ if str_is_empty text then [] else [match id with
      | Some id => with_block_id (event_new (N.min U64_MAX (N.of_nat (length events))) k) id
      | None => event_new (N.min U64_MAX (N.of_nat (length events))) k end].
Proof. destruct (str_is_empty text); simpl; [by rewrite app_nil_r|done]. Qed.

(** The events a decoder adds, which pass. *)
Definition adds (v : Value) (events : list StreamEvent) (r : Result (list StreamEvent) AnthropicStreamError) : Prop :=
  exists es, r = Ok (events ++ es) /\ passes v es.

Section block.
Context (o : list (string * Value)) (index : N) (events : list StreamEvent) (Hx : exact_with reads_back 125 (Object o) = true).
Let Hs : sorted_keys o = true := object_sorted _ _ Hx.

Lemma text_decodes : obj_get "type" o = Some (Str "text") -> text_member o "text" ->
  adds (Object o) events (decode_unary_text o index events).
Proof.
  intros Ht [text Hg]. unfold decode_unary_text, adds. rewrite (required_text _ _ _ _ Hg). cbn [result_bind].
  rewrite push_text. unfold push_unary_event. rewrite <- !app_assoc. eexists. split; [reflexivity|]. by apply text_passes.
Qed.

Lemma thinking_decodes : obj_get "type" o = Some (Str "thinking") -> text_member o "thinking" -> opt_text_member o "signature" ->
  no_member o "data" -> adds (Object o) events (decode_unary_thinking o index events).
Proof.
  intros Ht [text Hg] Hsig Hdata. unfold decode_unary_thinking, adds.
  destruct (optional_text o "signature" (content_path index ".signature") Hsig) as (s & Es & Hs').
  assert (Ed : optional_string o "data" (content_path index ".data") = Ok None) by (unfold optional_string; destruct Hdata as [-> | ->]; done).
  unfold optional_string at 1. rewrite Hg. cbn [opt_filter is_null negb as_string ok_or result_bind default]. rewrite Es, Ed. cbn [result_bind].
  rewrite push_text. unfold push_unary_event. rewrite <- !app_assoc. eexists. split; [reflexivity|].
  apply (thinking_passes _ _ s None); [done| |done]. intros x ->. pose proof (Hs' x eq_refl) as Hy. split; [by eapply member_str|done].
Qed.

Lemma redacted_decodes : obj_get "type" o = Some (Str "redacted_thinking") -> opt_text_member o "thinking" -> opt_text_member o "signature" ->
  text_member o "data" -> adds (Object o) events (decode_unary_thinking o index events).
Proof.
  intros Ht Hth Hsig [data Hg]. unfold decode_unary_thinking, adds.
  destruct (optional_text o "signature" (content_path index ".signature") Hsig) as (s & Es & Hs').
  destruct (optional_text o "thinking" (content_path index ".thinking") Hth) as (th & Eth & _).
  assert (Ed : optional_string o "data" (content_path index ".data") = Ok (Some data)) by (unfold optional_string; by rewrite Hg).
  rewrite Eth, Es, Ed. cbn [result_bind]. rewrite push_text. unfold push_unary_event. rewrite <- !app_assoc. eexists.
  split; [reflexivity|]. apply (thinking_passes _ _ s (Some data)); [done| |split_and!; [by eapply member_str|done..]].
  intros x ->. pose proof (Hs' x eq_refl) as Hy. split; [by eapply member_str|done].
Qed.

Lemma tool_decodes input : obj_get "type" o = Some (Str "tool_use") -> text_member o "id" -> text_member o "name" ->
  obj_get "input" o = Some input -> adds (Object o) events (decode_unary_tool o index events).
Proof.
  intros Ht [id Hi] [name Hn] Hin. unfold decode_unary_tool, adds.
  rewrite (required_text _ _ _ _ Hi), (required_text _ _ _ _ Hn). cbn [result_bind]. rewrite Hin. cbn [ok_or result_bind].
  assert (Hxi : exact_with reads_back MAX_DEPTH input = true) by (apply (exact_le 124); [unfold MAX_DEPTH; lia|by eapply member_exact_of]).
  destruct (reads_roundtrip _ Hxi) as (b & Hb & _). rewrite Hb. cbn [map_err result_bind].
  unfold push_unary_event. rewrite <- !app_assoc. eexists. split; [reflexivity|]. by eapply tool_passes.
Qed.
End block.

Lemma block_decodes v index events report :
  block_complete v -> exact_with reads_back 125 v = true ->
  exists es report', decode_unary_content v index events report = Ok (events ++ es, report') /\ passes v es.
Proof.
  intros (o & kind & -> & Ht & Htext & Hthink & Hred & Htool) Hx. pose proof (object_sorted _ _ Hx) as Hs.
  unfold decode_unary_content. cbn [as_object ok_or result_bind]. rewrite (required_text _ _ _ _ Ht). cbn [result_bind].
  assert (Hadd : forall r, adds (Object o) events r ->
    exists es report', (let? events := r in Ok (events, report)) = Ok (events ++ es, report') /\ passes (Object o) es).
  { intros r (es & -> & Hp). by exists es, report. }
  destruct (String.eqb_spec kind "text") as [-> |]; [by apply Hadd, text_decodes; auto|].
  destruct (String.eqb_spec kind "thinking") as [-> |];
    [destruct (Hthink eq_refl) as (? & ? & ?); by apply Hadd, thinking_decodes|].
  destruct (String.eqb_spec kind "redacted_thinking") as [-> |];
    [destruct (Hred eq_refl) as (? & ? & ?); by apply Hadd, redacted_decodes|]. cbn [orb].
  destruct (String.eqb_spec kind "tool_use") as [-> |]; [destruct (Htool eq_refl) as (? & ? & [? ?]); by eapply Hadd, tool_decodes|].
  assert (Hxv : exact_with reads_back MAX_DEPTH (Object o) = true) by (apply (exact_le 125); [unfold MAX_DEPTH; lia|done]).
  destruct (reads_roundtrip _ Hxv) as (b & Hb & _). rewrite Hb. cbn [map_err result_bind]. unfold push_unary_event. do 2 eexists.
  split; [reflexivity|]. eapply opaque_passes; [done..|]. by intros ? [= <-].
Qed.

Lemma blocks_decode content : forall index events report,
  Forall block_complete content -> Forall (fun v => exact_with reads_back 125 v = true) content ->
  exists es report' cs, decode_unary_blocks content index events report = Ok (events ++ es, report')
    /\ merge_contents cs content = content
    /\ forall u rest, us_blocks u = [] ->
         encode_unary_events policy (es ++ rest) u = encode_unary_events policy rest (foldl (fun u c => us_push c u) u cs).
Proof.
  induction content as [|v content IH]; intros index events report Hc Hx; cbn [decode_unary_blocks].
  - exists [], report, []. by rewrite app_nil_r.
  - apply Forall_cons in Hc as [Hv Hc], Hx as [Hxv Hx].
    destruct (block_decodes v index events report Hv Hxv) as (es & report1 & -> & c & Hm & Hrun). cbn [result_bind].
    destruct (IH (index + 1) (events ++ es) report1 Hc Hx) as (es' & report2 & cs & -> & Hms & Hruns).
    exists (es ++ es'), report2, (c :: cs). rewrite app_assoc. split_and!; [done|cbn [merge_contents]; by rewrite Hm, Hms|].
    intros u rest Hu. rewrite <- app_assoc, Hrun, Hruns by (by destruct u). done.
Qed.
End blocks.

(** * Messages *)

(** A message as the API documents it. *)
Record message_complete (o : list (string * Value)) : Prop := {
  mc_type : obj_get "type" o = Some (Str "message");
  mc_role : obj_get "role" o = Some (Str "assistant");
  mc_id : text_member o "id";
  mc_model : text_member o "model";
  mc_content : exists blocks, obj_get "content" o = Some (Array blocks) /\ Forall block_complete blocks;
  mc_usage : exists w, obj_get "usage" o = Some (Object w) /\ usage_complete w;
  mc_stop_reason : obj_get "stop_reason" o = Some Null
    \/ exists r, obj_get "stop_reason" o = Some (Str r);
  mc_stop_sequence : is_Some (obj_get "stop_sequence" o);
}.

Lemma member_key_str {fl} depth o k v : exact_with fl (S depth) (Object o) = true -> obj_get k o = Some v -> is_str k.
Proof.
  cbn [exact_with]. intros [_ Hm]%andb_true_iff Hk. rewrite forallb_forall in Hm. induction o as [|[j w] o IH]; [done|].
  simpl in Hk. case_bool_decide.
  - subst. specialize (Hm (j, w) (or_introl eq_refl)). by apply andb_true_iff in Hm as [? _].
  - apply IH; [|done]. intros x Hx. apply Hm. by right.
Qed.

Lemma usage_of_typed {fl} depth w u : exact_with fl (S depth) (Object w) = true -> usage_of w u -> usage_typed u.
Proof.
  intros Hx [Hi Ho Hc Hd]. assert (Hn : forall k n, obj_get k w = Some (number n) -> n <= U64_MAX).
  { intros k n Hk. apply (member_exact_of _ _ _ _ Hx) in Hk. by apply N.leb_le in Hk. }
  split_and!; [by eapply Hn|by eapply Hn|intros n Hn'; by eapply Hn, Hc|].
  intros k n Hk%Hd. split; [by eapply member_key_str|by eapply Hn].
Qed.

Lemma array_exact {fl} depth l : exact_with fl (S depth) (Array l) = true -> Forall (fun v => exact_with fl depth v = true) l.
Proof. cbn [exact_with]. rewrite forallb_forall, Forall_forall. intros Hl v Hv. apply Hl. by apply list_elem_of_In. Qed.

(** The stop reason that is read and written. *)
Definition stop_value (reason : FinishReason) : Value :=
  match reason with
  | FinishOther r => if String.eqb r "none" then Null else Str (encode_finish_reason reason)
  | _ => Str (encode_finish_reason reason)
  end.

(** The stop reasons that share a semantic reason with another one are told as that one. *)
Definition stop_told (v : Value) : Value :=
  match v with
  | Str r => if String.eqb r "stop_sequence" then Str "end_turn"
             else if String.eqb r "model_context_window_exceeded" then Str "max_tokens"
             else if String.eqb r "none" then Null else Str r
  | v => v
  end.
Lemma stop_reason_told r : stop_value (decode_finish_reason r) = stop_told (Str r).
Proof.
  unfold decode_finish_reason, stop_told.
  destruct (String.eqb_spec r "end_turn") as [-> |]; [done|]. destruct (String.eqb_spec r "stop_sequence") as [-> |]; [done|]. cbn [orb].
  destruct (String.eqb_spec r "max_tokens") as [-> |]; [done|].
  destruct (String.eqb_spec r "model_context_window_exceeded") as [-> |]; [done|]. cbn [orb].
  destruct (String.eqb_spec r "tool_use") as [-> |]; [done|]. destruct (String.eqb_spec r "refusal") as [-> |]; [done|].
  simpl. by destruct (String.eqb_spec r "none").
Qed.

Lemma pushed u cs : foldl (fun u c => us_push c u) u cs
  = MkUnaryState (us_report u) (us_template u) (us_response_id u) (us_model u) (us_blocks u) (us_content u ++ cs) (us_usage u) (us_finish_reason u).
Proof.
  revert u. induction cs as [|c cs IH]; intros u; simpl; [by destruct u; rewrite app_nil_r|]. rewrite IH. simpl. by rewrite <- app_assoc.
Qed.

(** The members of the message are written where they were, and the stop reason anew. *)
Lemma unary_object_same o u id model blocks w reason :
  sorted_keys o = true -> us_template u = Some (Object o) -> us_response_id u = Some id -> us_model u = Some model ->
  obj_get "type" o = Some (Str "message") -> obj_get "role" o = Some (Str "assistant") ->
  obj_get "id" o = Some (Str id) -> obj_get "model" o = Some (Str model) -> obj_get "content" o = Some (Array blocks) ->
  merge_contents (us_content u) blocks = blocks -> obj_get "usage" o = Some (Object w) ->
  merge_unary_usage_template (encode_usage (default usage_default (us_usage u))) (Some (Object o)) = Object w ->
  is_Some (obj_get "stop_sequence" o) -> unary_object u reason = obj_insert "stop_reason" (stop_value reason) o.
Proof.
  intros Hs Ht Hid Hmodel Htype Hrole Hi Hm Hc Hmerge Hw Husage [q Hq]. unfold unary_object. rewrite Ht, Hid, Hmodel.
  cbn [mbind option_bind as_object default Datatypes.id]. fold (stop_value reason).
  rewrite (insert_same "id") by done. rewrite (insert_same "type") by done. rewrite (insert_same "role") by done.
  rewrite (insert_same "model") by done.
  replace (merge_unary_content_templates (us_content u) (Some (Object o))) with blocks.
  2: { unfold merge_unary_content_templates, value_get. cbn [mbind option_bind as_object]. rewrite Hc. cbn [mbind option_bind as_array]. done. }
  rewrite (insert_same "content") by done. rewrite obj_get_insert_ne, Hq, Husage by done.
  apply insert_same; [by apply sorted_insert|]. by rewrite obj_get_insert_ne.
Qed.

Section message.
Context `{SerdeJson} `{!SerdeReads}.

Lemma template_made v b : to_vec v = Ok b -> unary_template v = Ok (MkOpaqueExtension "anthropic.messages" "unary_template" "application/json" ReplayNever b).
Proof. intros Hb. unfold unary_template. by rewrite Hb. Qed.

(** The first event restores the template. *)
Lemma start_restores v b id model q : from_slice b = Ok v ->
  let template := MkOpaqueExtension "anthropic.messages" "unary_template" "application/json" ReplayNever b in
  exists report, is_lossless report = true /\
    encode_unary_start (MkStreamEvent q None (ResponseStart (Some id) (Some model)) (ext_insert [] template).2) (Some id) (Some model) unary_new
    = Ok (MkUnaryState report (Some v) (Some id) (Some model) [] [] None None).
Proof. intros Hv template. eexists. split; [|unfold encode_unary_start; simpl; rewrite Hv; reflexivity]. reflexivity. Qed.

Lemma lossless_valid report : is_lossless report = true -> report_validate report Reject = Ok tt.
Proof.
  unfold is_lossless, report_validate. intros [[Hd Ho]%andb_true_iff Hu]%andb_true_iff.
  destruct (cr_degraded_fields report); [|done]. destruct (cr_dropped_optional_fields report); [|done].
  by destruct (cr_unsupported_required_fields report).
Qed.

(** The loop over the events of a message. *)
Lemma events_encode e es cs u0 id model reason usage q :
  ev_kind e = ResponseStart id model -> encode_unary_start e id model unary_new = Ok u0 -> us_blocks u0 = [] ->
  (forall u rest, us_blocks u = [] ->
     encode_unary_events Reject (es ++ rest) u = encode_unary_events Reject rest (foldl (fun u c => us_push c u) u cs)) ->
  encode_unary_events Reject (([e] ++ es) ++ [event_new q (Completion reason (Some usage))]) unary_new
  = Ok (UfContinue (us_finish reason (us_set_usage (Some usage) (foldl (fun u c => us_push c u) u0 cs)))).
Proof.
  intros Hk Hu0 Hb Hrun. cbn [app encode_unary_events]. unfold encode_unary_event at 1. rewrite Hk, Hu0. cbn [result_bind].
  by rewrite Hrun.
Qed.

(** [C25] A unary message passes through the gateway: a message of the documented shape,
    whatever fields and content blocks the provider added, is decoded to semantic events, and
    encoding these events under the strictest policy reports no loss and gives the very same
    JSON value back, except for its stop reason where that shares a semantic reason with
    another one: stop_sequence is told as end_turn, model_context_window_exceeded as
    max_tokens, and none as null.  Every floating point number in the message must be one that
    serde_json reads back as it wrote it; of the parser it is assumed that it returns only
    values nested no deeper than its limit. *)
Theorem unary_message_roundtrip o input :
  from_slice input = Ok (Object o) -> floats_read_back (Object o) = true -> message_complete o ->
  exists m body report stop, decode_unary_message input = Ok m
    /\ encode_unary_message (dm_events m) Reject = Ok (MkEncodedMessage body report)
    /\ is_lossless report = true /\ obj_get "stop_reason" o = Some stop
    /\ from_slice body = Ok (Object (obj_insert "stop_reason" (stop_told stop) o)).
Proof.
  intros Hin Hfl [Htype Hrole [id Hid] [model Hmodel] (blocks & Hc & Hbc) (w & Hw & Hwc) Hstop Hseq].
  assert (Hx : exact_with reads_back MAX_DEPTH (Object o) = true) by (eapply exact_floats; [by eapply parsed_exact|done]).
  pose proof (object_sorted _ _ Hx) as Hs. destruct (reads_roundtrip _ Hx) as (b & Hb & Hr & _).
  assert (Hxb : Forall (fun v => exact_with reads_back 125 v = true) blocks) by by apply array_exact, (member_exact_of 126 o "content").
  assert (Hxw : exact_with reads_back 126 (Object w) = true) by by apply (member_exact_of 126 o "usage").
  destruct (merge_usage_of w "message.usage" (object_sorted _ _ Hxw) Hwc) as (u & Hu & Hof).
  unfold decode_unary_message. rewrite Hin. cbn [map_err result_bind as_object ok_or]. unfold type_is. rewrite Htype, Hrole.
  cbn [mbind option_bind as_string]. rewrite !bool_decide_eq_false_2, !bool_decide_eq_true_2 by done. cbn [negb].
  rewrite (required_text _ _ _ _ Hid), (required_text _ _ _ _ Hmodel), (template_made _ _ Hb). cbn [result_bind]. rewrite Hc.
  cbn [mbind option_bind as_array ok_or result_bind].
  match goal with |- context [decode_unary_blocks blocks 0 [?s] ?r] =>
    destruct (blocks_decode Reject blocks 0 [s] r Hbc Hxb) as (es & report1 & cs & -> & Hmerge & Hrun); set (start := s) end.
  cbn [result_bind]. rewrite Hw. cbn [ok_or result_bind]. rewrite Hu. cbn [result_bind].
  set (reason := match _ with Some r => decode_finish_reason r | None => _ end).
  assert (exists stop, obj_get "stop_reason" o = Some stop /\ stop_value reason = stop_told stop /\ exact_with reads_back 126 (stop_told stop) = true)
    as (stop & Hget & Hreason & Hxs).
  { subst reason. destruct Hstop as [-> |[r Hr']]; [by exists Null|]. exists (Str r). rewrite Hr'. cbn [mbind option_bind as_string].
    rewrite stop_reason_told. split_and!; [done..|]. pose proof (member_str _ _ _ _ Hx Hr') as Hstr. unfold stop_told.
    repeat case_match; done. }
  assert (Hx' : exact_with reads_back MAX_DEPTH (Object (obj_insert "stop_reason" (stop_told stop) o)) = true).
  { apply (object_exact 126), members_insert; [done..|]. cbn [exact_with MAX_DEPTH] in Hx. by apply andb_true_iff in Hx. }
  destruct (reads_roundtrip _ Hx') as (b' & Hb' & Hr' & _).
  destruct (start_restores (Object o) b id model 0 Hr) as (report & Hl & Hst).
  eexists _, b', _, stop. split; [reflexivity|]. cbn [dm_events]. unfold encode_unary_message, push_unary_event. cbn [length].
  erewrite (events_encode start es cs); [|done|exact Hst|done|exact Hrun]. cbn [result_bind]. rewrite pushed. cbn [us_finish us_set_usage us_blocks
    us_report us_finish_reason us_content us_template us_response_id us_model list_is_empty negb ok_or result_bind app].
  rewrite (unary_object_same o _ id model blocks w reason); try done.
  - rewrite (lossless_valid report Hl). cbn [map_err result_bind]. rewrite Hreason, Hb'. cbn [map_err result_bind]. done.
  - cbn [us_usage default Datatypes.id]. eapply usage_template; [exact (object_sorted _ _ Hxw)|exact (usage_of_typed _ _ _ Hxw Hof)|done|].
    unfold value_get. cbn [mbind option_bind as_object]. done.
Qed.
End message.

(** A message with a text, a tool call, a block of another kind and fields of its own. *)
Definition example_message (stop_reason : Value) : list (string * Value) :=
  json_members
    [("id", Str "msg_1"); ("type", Str "message"); ("role", Str "assistant"); ("model", Str "claude"); ("stop_reason", stop_reason);
     ("stop_sequence", Null); ("container", json_object [("id", Str "c"); ("share", Num (Float 0x3FE0000000000000))]);
     ("usage", json_object [("input_tokens", number 9); ("output_tokens", number 4); ("service_tier", Str "standard");
                            ("cache_read_input_tokens", Null)]);
     ("content", Array [json_object [("type", Str "text"); ("text", Str "hi"); ("citations", Array [])];
                        json_object [("type", Str "tool_use"); ("id", Str "t1"); ("name", Str "Read"); ("input", json_object [("path", Str "a")])];
                        json_object [("type", Str "server_tool_use"); ("id", Str "s1")]])].
Definition example_input (stop_reason : Value) : bytes :=
  match @to_vec bits_json (Object (example_message stop_reason)) with Ok b => b | Err _ => [] end.

Lemma unary_message_roundtrip_witness :
  exists m body report stop, @decode_unary_message bits_json (example_input (Str "tool_use")) = Ok m
    /\ @encode_unary_message bits_json (dm_events m) Reject = Ok (MkEncodedMessage body report)
    /\ is_lossless report = true /\ obj_get "stop_reason" (example_message (Str "tool_use")) = Some stop
    /\ @from_slice bits_json body = Ok (Object (obj_insert "stop_reason" (stop_told stop) (example_message (Str "tool_use")))).
Proof.
  apply (@unary_message_roundtrip bits_json bits_json_reads_back (example_message (Str "tool_use")) (example_input (Str "tool_use"))).
  - vm_compute. reflexivity.
  - vm_compute. reflexivity.
  - constructor; try done; try (by eexists).
    + eexists. split; [reflexivity|]. repeat constructor; eexists _, _; (split; [reflexivity|split; [reflexivity|]]);
        (split_and!; [intros E; try discriminate E..]).
      * by eexists.
      * split_and!; by eexists.
    + eexists. split; [reflexivity|]. split_and!; [by eexists..|by right; left|by left].
    + right. eexists. reflexivity.
Defined.

(** A message that stopped at a stop sequence comes out as one that ended its turn. *)
Example stop_sequence_changed :
  match @decode_unary_message bits_json (example_input (Str "stop_sequence")) with
  | Ok m => match @encode_unary_message bits_json (dm_events m) Reject with
            | Ok e => match @from_slice bits_json (em_body e) with Ok v => value_get "stop_reason" v | Err _ => None end
            | Err _ => None
            end
  | Err _ => None
  end = Some (Str "end_turn").
Proof. vm_compute. reflexivity. Qed.
