(* ===== verification/OpenAiChat.v ===== *)
(** The OpenAI Chat Completions stream (crates/pooler-protocol/src/openai_chat.rs): the decoder
    from JSON chunks to semantic events, and the encoder back.

    The methods are computations of [St]; serde_json is the parameter [SerdeJson]. *)
From stdpp Require Import pretty.
From S2P Require Import Prelude Str CoreError Bytes Json Extensions Events Request Codec.

Open Scope N_scope.

(** [REASONING_DELTA_FIELDS], in the order they are tried. *)
Definition REASONING_DELTA_FIELDS : list string := ["reasoning_content"; "reasoning"; "reasoning_text"].
Definition TEXT_BLOCK_ID : string := "text".
Definition REASONING_BLOCK_ID : string := "reasoning".
Definition DEFAULT_RESPONSE_ID : string := "pooler-response".
(** Of openai_responses.rs. *)
Definition OPENAI_RESPONSES_BUILTIN_EVENT_MEDIA_TYPE : string :=
  "application/vnd.openai.responses.builtin-output-event+json".

Inductive OpenAiChatError :=
| ChInvalidJson (message : string)
| ChMissingField (field : string)
| ChInvalidShape (field expected : string)
| ChInvalidValue (field message : string)
| ChConflictingFields (first second : string)
| ChRequestValidation (e : RequestValidationError)
| ChPreservedJson (e : PreservedJsonError)
| ChConversion (e : ConversionError)
| ChInvalidStream (message : string)
| ChUnsupportedEvent (message : string)
| ChInvalidExtension (key : string).

Definition chat_required_string (object : list (string * Value)) (key field : string) : Result string OpenAiChatError :=
  let? v := ok_or (obj_get key object) (ChMissingField field) in
  ok_or (as_string v) (ChInvalidShape field "a string").
Definition chat_optional_string (object : list (string * Value)) (key field : string)
  : Result (option string) OpenAiChatError :=
  match obj_get key object with
  | None => Ok None
  | Some v => let? s := ok_or (as_string v) (ChInvalidShape field "a string") in Ok (Some s)
  end.

Definition chat_parse_finish_reason (value : string) : FinishReason :=
  if String.eqb value "stop" then FinishStop
  else if String.eqb value "length" then FinishLength
  else if String.eqb value "tool_calls" || String.eqb value "function_call" then FinishToolCall
  else if String.eqb value "content_filter" then FinishContentFilter
  else FinishOther value.
Definition chat_encode_finish_reason (reason : FinishReason) : string :=
  match reason with
  | FinishStop => "stop" | FinishLength => "length" | FinishToolCall => "tool_calls"
  | FinishContentFilter => "content_filter" | FinishError => "error" | FinishOther value => value
  end.

(** ** Usage *)

Definition chat_usage_count (object : list (string * Value)) (field : string) : Result (option N) OpenAiChatError :=
  match obj_get field object with
  | None => Ok None
  | Some v => let? n := ok_or (as_u64 v) (ChInvalidShape ("usage." +:+ field) "an unsigned integer") in Ok (Some n)
  end.
Definition chat_parse_usage (value : Value) : Result Usage OpenAiChatError :=
  let? object := ok_or (as_object value) (ChInvalidShape "usage" "an object") in
  let? input := chat_usage_count object "prompt_tokens" in
  let? output := chat_usage_count object "completion_tokens" in
  let? total := chat_usage_count object "total_tokens" in
  let? reasoning := match obj_get "completion_tokens_details" object ≫= as_object with
                    | Some details => chat_usage_count details "reasoning_tokens"
                    | None => Ok None
                    end in
  let? cached := match obj_get "prompt_tokens_details" object ≫= as_object with
                 | Some details => chat_usage_count details "cached_tokens"
                 | None => Ok None
                 end in
  Ok (MkUsage (default 0 input) (default 0 output) reasoning cached total ∅).
Definition chat_encode_usage (u : Usage) : Value :=
  let total := default (sat_add U64_MAX (input_tokens u) (output_tokens u)) (total_tokens u) in
  let value := json_members [("prompt_tokens", number (input_tokens u)); ("completion_tokens", number (output_tokens u));
                             ("total_tokens", number total)] in
  let value := match reasoning_tokens u with
               | Some n => obj_insert "completion_tokens_details" (json_object [("reasoning_tokens", number n)]) value
               | None => value
               end in
  Object match cached_input_tokens u with
         | Some n => obj_insert "prompt_tokens_details" (json_object [("cached_tokens", number n)]) value
         | None => value
         end.

(** * The decoder *)

(** A [DecodedToolCall] is its identifier. *)
Record OpenAiChatEventDecoder := MkChatDecoder {
  cd_next_sequence : N; cd_response_id : option string; cd_model : option string; cd_response_started : bool;
  cd_text_open : bool; cd_reasoning_open : bool; cd_tools : gmap N string; cd_pending_finish : option FinishReason;
  cd_pending_usage : option Usage; cd_completed : bool }.
Definition chat_decoder_new : OpenAiChatEventDecoder := MkChatDecoder 0 None None false false false ∅ None None false.

Definition cd_set_sequence n d := MkChatDecoder n (cd_response_id d) (cd_model d) (cd_response_started d) (cd_text_open d)
  (cd_reasoning_open d) (cd_tools d) (cd_pending_finish d) (cd_pending_usage d) (cd_completed d).
Definition cd_set_id i d := MkChatDecoder (cd_next_sequence d) i (cd_model d) (cd_response_started d) (cd_text_open d)
  (cd_reasoning_open d) (cd_tools d) (cd_pending_finish d) (cd_pending_usage d) (cd_completed d).
Definition cd_set_model m d := MkChatDecoder (cd_next_sequence d) (cd_response_id d) m (cd_response_started d) (cd_text_open d)
  (cd_reasoning_open d) (cd_tools d) (cd_pending_finish d) (cd_pending_usage d) (cd_completed d).
Definition cd_set_started d := MkChatDecoder (cd_next_sequence d) (cd_response_id d) (cd_model d) true (cd_text_open d)
  (cd_reasoning_open d) (cd_tools d) (cd_pending_finish d) (cd_pending_usage d) (cd_completed d).
Definition cd_set_text b d := MkChatDecoder (cd_next_sequence d) (cd_response_id d) (cd_model d) (cd_response_started d) b
  (cd_reasoning_open d) (cd_tools d) (cd_pending_finish d) (cd_pending_usage d) (cd_completed d).
Definition cd_set_reasoning b d := MkChatDecoder (cd_next_sequence d) (cd_response_id d) (cd_model d) (cd_response_started d) (cd_text_open d)
  b (cd_tools d) (cd_pending_finish d) (cd_pending_usage d) (cd_completed d).
Definition cd_set_tools m d := MkChatDecoder (cd_next_sequence d) (cd_response_id d) (cd_model d) (cd_response_started d) (cd_text_open d)
  (cd_reasoning_open d) m (cd_pending_finish d) (cd_pending_usage d) (cd_completed d).
Definition cd_set_finish f d := MkChatDecoder (cd_next_sequence d) (cd_response_id d) (cd_model d) (cd_response_started d) (cd_text_open d)
  (cd_reasoning_open d) (cd_tools d) f (cd_pending_usage d) (cd_completed d).
Definition cd_set_usage u d := MkChatDecoder (cd_next_sequence d) (cd_response_id d) (cd_model d) (cd_response_started d) (cd_text_open d)
  (cd_reasoning_open d) (cd_tools d) (cd_pending_finish d) u (cd_completed d).
Definition cd_set_completed d := MkChatDecoder (cd_next_sequence d) (cd_response_id d) (cd_model d) (cd_response_started d) (cd_text_open d)
  (cd_reasoning_open d) (cd_tools d) (cd_pending_finish d) (cd_pending_usage d) true.

Definition ChatDec (A : Type) : Type := St OpenAiChatEventDecoder OpenAiChatError A.
Definition chat_invalid {A} (message : string) : ChatDec A := st_lift (Err (ChInvalidStream message)).
Definition chat_shape {A} (o : option A) (field expected : string) : ChatDec A := st_lift (ok_or o (ChInvalidShape field expected)).

(** [event]: the number is taken before it is used. *)
Definition chat_event (kind : StreamEventKind) (block_id : option string) : ChatDec (list StreamEvent) :=
  fun d => let sequence := sat_add U64_MAX (cd_next_sequence d) 1 in
           (Ok [MkStreamEvent sequence block_id kind []], cd_set_sequence sequence d).
(** [events.push(..)] and [events.extend(..)]: the events of one computation before those of the next. *)
Definition chat_then (m n : ChatDec (list StreamEvent)) : ChatDec (list StreamEvent) :=
  let* es := m in let* fs := n in st_ret (es ++ fs).
Definition chat_none : ChatDec (list StreamEvent) := st_ret [].
Definition chat_when (b : bool) (m : ChatDec (list StreamEvent)) : ChatDec (list StreamEvent) := if b then m else chat_none.

Definition chat_complete_pending : ChatDec (list StreamEvent) :=
  let* d := st_get in
  match cd_pending_finish d with
  | None => chat_none
  | Some finish_reason =>
    let* _ := st_modify (fun d => cd_set_completed (cd_set_usage None (cd_set_finish None d))) in
    chat_event (Completion finish_reason (cd_pending_usage d)) None
  end.

Definition chat_decode_error (value : Value) : ChatDec (list StreamEvent) :=
  let* object := chat_shape (as_object value) "error" "an object" in
  let* message := st_lift (chat_required_string object "message" "error.message") in
  let code := default "openai_error"
                (or_else (obj_get "code" object ≫= as_string) (obj_get "type" object ≫= as_string)) in
  let* _ := st_modify cd_set_completed in
  chat_event (Failure (MkStreamError code message false None)) None.

Definition tool_field (position : N) (rest : string) : string :=
  "choices[0].delta.tool_calls[" +:+ pretty position +:+ "]" +:+ rest.
Definition chat_tool_delta (id arguments : string) : ChatDec (list StreamEvent) :=
  chat_when (negb (str_is_empty arguments)) (chat_event (ToolCallDelta id arguments) (Some id)).
(** One iteration of the loop of [decode_tool_calls]. *)
Definition chat_decode_tool_call (position : N) (value : Value) : ChatDec (list StreamEvent) :=
  let* object := chat_shape (as_object value) (tool_field position "") "an object" in
  let index := default position (obj_get "index" object ≫= as_u64) in
  let* function := chat_shape (obj_get "function" object ≫= as_object) (tool_field position ".function") "an object" in
  let* _ := match opt_filter (obj_get "type" object ≫= as_string) (fun kind => negb (String.eqb kind "function")) with
            | Some kind => chat_invalid ("unsupported tool call type `" +:+ kind +:+ "`")
            | None => st_ret tt
            end in
  let* arguments := match obj_get "arguments" function with
                    | Some v => chat_shape (as_string v) (tool_field position ".function.arguments") "a string"
                    | None => st_ret EmptyString
                    end in
  let* d := st_get in
  match cd_tools d !! index with
  | None =>
    let* id := st_lift (ok_or (obj_get "id" object ≫= as_string)
                 (ChInvalidStream ("tool call " +:+ pretty index +:+ " started without an ID"))) in
    let* name := st_lift (ok_or (obj_get "name" function ≫= as_string)
                   (ChInvalidStream ("tool call " +:+ pretty index +:+ " started without a name"))) in
    let* _ := st_modify (fun d => cd_set_tools (<[index := id]> (cd_tools d)) d) in
    chat_then (chat_event (ToolCallStart id name) (Some id)) (chat_tool_delta id arguments)
  | Some existing_id =>
    if is_some (opt_filter (obj_get "id" object ≫= as_string) (fun id => negb (String.eqb id existing_id)))
    then chat_invalid ("tool call " +:+ pretty index +:+ " changed IDs")
    else chat_tool_delta existing_id arguments
  end.
Fixpoint chat_tool_calls_from (position : N) (calls : list Value) : ChatDec (list StreamEvent) :=
  match calls with
  | [] => chat_none
  | value :: calls => chat_then (chat_decode_tool_call position value) (chat_tool_calls_from (position + 1) calls)
  end.
Definition chat_decode_tool_calls (value : Value) : ChatDec (list StreamEvent) :=
  match value with
  | Array calls => chat_tool_calls_from 0 calls
  | _ => st_lift (Err (ChInvalidShape "choices[0].delta.tool_calls" "an array"))
  end.

Definition chat_end_reasoning : ChatDec (list StreamEvent) :=
  let* d := st_get in
  chat_when (cd_reasoning_open d)
    (let* es := chat_event (ReasoningEnd None) (Some REASONING_BLOCK_ID) in
     let* _ := st_modify (cd_set_reasoning false) in st_ret es).
Definition chat_end_text : ChatDec (list StreamEvent) :=
  let* d := st_get in
  chat_when (cd_text_open d)
    (let* es := chat_event TextEnd (Some TEXT_BLOCK_ID) in
     let* _ := st_modify (cd_set_text false) in st_ret es).
Fixpoint chat_end_tools (tools : list (N * string)) : ChatDec (list StreamEvent) :=
  match tools with
  | [] => chat_none
  | (_, id) :: tools => chat_then (chat_event (ToolCallEnd id) (Some id)) (chat_end_tools tools)
  end.
Definition chat_close_blocks : ChatDec (list StreamEvent) :=
  chat_then chat_end_reasoning
    (chat_then chat_end_text
       (let* d := st_get in
        let* _ := st_modify (cd_set_tools ∅) in
        chat_end_tools (btree_list N.compare (cd_tools d)))).

(** [REASONING_DELTA_FIELDS.iter().find_map(..)]. *)
Fixpoint reasoning_field (fields : list string) (delta : list (string * Value)) : option (string * Value) :=
  match fields with
  | [] => None
  | field :: fields =>
    match opt_filter (obj_get field delta) (fun v => negb (is_null v)) with
    | Some v => Some (field, v)
    | None => reasoning_field fields delta
    end
  end.
Definition chat_decode_reasoning (delta : list (string * Value)) : ChatDec (list StreamEvent) :=
  match reasoning_field REASONING_DELTA_FIELDS delta with
  | None => chat_none
  | Some (field, v) =>
    let* reasoning := chat_shape (as_string v) ("choices[0].delta." +:+ field) "a string or null" in
    chat_when (negb (str_is_empty reasoning))
      (let* d := st_get in
       chat_then
         (chat_when (negb (cd_reasoning_open d))
            (let* es := chat_event ReasoningStart (Some REASONING_BLOCK_ID) in
             let* _ := st_modify (cd_set_reasoning true) in st_ret es))
         (chat_event (ReasoningDelta reasoning) (Some REASONING_BLOCK_ID)))
  end.
Definition chat_decode_content (delta : list (string * Value)) : ChatDec (list StreamEvent) :=
  match opt_filter (obj_get "content" delta) (fun v => negb (is_null v)) with
  | None => chat_none
  | Some v =>
    let* content := chat_shape (as_string v) "choices[0].delta.content" "a string or null" in
    chat_when (negb (str_is_empty content))
      (chat_then chat_end_reasoning
         (let* d := st_get in
          chat_then
            (chat_when (negb (cd_text_open d))
               (let* es := chat_event TextStart (Some TEXT_BLOCK_ID) in
                let* _ := st_modify (cd_set_text true) in st_ret es))
            (chat_event (TextDelta content) (Some TEXT_BLOCK_ID))))
  end.
Definition chat_decode_refusal (delta : list (string * Value)) : ChatDec (list StreamEvent) :=
  match opt_filter (obj_get "refusal" delta) (fun v => negb (is_null v)) with
  | None => chat_none
  | Some v =>
    let* refusal := chat_shape (as_string v) "choices[0].delta.refusal" "a string or null" in
    chat_when (negb (str_is_empty refusal)) (chat_event (Refusal refusal) None)
  end.
Definition chat_decode_finish (object : list (string * Value)) : ChatDec (list StreamEvent) :=
  match opt_filter (obj_get "finish_reason" object) (fun v => negb (is_null v)) with
  | None => chat_none
  | Some v =>
    let* finish_reason := chat_shape (as_string v) "choices[0].finish_reason" "a string or null" in
    let* d := st_get in
    if is_some (cd_pending_finish d) then chat_invalid "finish_reason appeared more than once"
    else
      let* es := chat_close_blocks in
      let* _ := st_modify (cd_set_finish (Some (chat_parse_finish_reason finish_reason))) in
      st_ret es
  end.
Definition chat_check_index (object : list (string * Value)) : ChatDec unit :=
  match obj_get "index" object with
  | None => st_ret tt
  | Some v =>
    let* index := chat_shape (as_u64 v) "choices[0].index" "an unsigned integer" in
    if index =? 0 then st_ret tt else chat_invalid "semantic events support only choice index zero"
  end.
Definition chat_check_role (delta : list (string * Value)) : ChatDec unit :=
  match obj_get "role" delta with
  | None => st_ret tt
  | Some v =>
    let* role := chat_shape (as_string v) "choices[0].delta.role" "a string" in
    if String.eqb role "assistant" then st_ret tt
    else chat_invalid ("unsupported assistant delta role `" +:+ role +:+ "`")
  end.
Definition chat_decode_choice (value : Value) : ChatDec (list StreamEvent) :=
  let* object := chat_shape (as_object value) "choices[0]" "an object" in
  let* _ := chat_check_index object in
  let* delta := chat_shape (obj_get "delta" object ≫= as_object) "choices[0].delta" "an object" in
  let* _ := chat_check_role delta in
  chat_then (chat_decode_reasoning delta)
    (chat_then (chat_decode_content delta)
       (chat_then (chat_decode_refusal delta)
          (chat_then
             (match obj_get "tool_calls" delta with Some v => chat_decode_tool_calls v | None => chat_none end)
             (chat_decode_finish object)))).

(** The identity of the response is learned from the first chunk that names it. *)
Definition chat_learn_id (id : option string) : ChatDec unit :=
  let* d := st_get in
  match id, cd_response_id d with
  | None, _ => st_ret tt
  | Some id, Some previous => if String.eqb previous id then st_ret tt else chat_invalid "response ID changed within one stream"
  | Some id, None => st_modify (cd_set_id (Some id))
  end.
Definition chat_learn_model (model : option string) : ChatDec unit :=
  let* d := st_get in
  match model, cd_model d with
  | None, _ => st_ret tt
  | Some model, Some previous => if String.eqb previous model then st_ret tt else chat_invalid "model changed within one stream"
  | Some model, None => st_modify (cd_set_model (Some model))
  end.
Definition chat_begin_response : ChatDec (list StreamEvent) :=
  let* d := st_get in
  chat_when (negb (cd_response_started d))
    (let* es := chat_event (ResponseStart (cd_response_id d) (cd_model d)) None in
     let* _ := st_modify cd_set_started in st_ret es).
Definition chat_fingerprint (object : list (string * Value)) : ChatDec (list StreamEvent) :=
  match obj_get "system_fingerprint" object ≫= as_string with
  | Some fingerprint => chat_event (Metadata {["system_fingerprint" := fingerprint]}) None
  | None => chat_none
  end.
Definition chat_usage (object : list (string * Value)) : Result (option Usage) OpenAiChatError :=
  match opt_filter (obj_get "usage" object) (fun v => negb (is_null v)) with
  | None => Ok None
  | Some v => let? u := chat_parse_usage v in Ok (Some u)
  end.
Definition chat_choices (object : list (string * Value)) : Result (list Value) OpenAiChatError :=
  match obj_get "choices" object with
  | None => Ok []
  | Some (Array choices) => Ok choices
  | Some _ => Err (ChInvalidShape "choices" "an array")
  end.
Definition chat_record_usage (usage : option Usage) : ChatDec (list StreamEvent) :=
  match usage with
  | None => chat_none
  | Some usage =>
    let* _ := st_modify (cd_set_usage (Some usage)) in
    let* d := st_get in
    if is_some (cd_pending_finish d) then chat_complete_pending else chat_event (UsageEvent usage) None
  end.

Section codec.
Context `{SerdeJson}.

Definition chat_decode_object (object : list (string * Value)) : ChatDec (list StreamEvent) :=
  let* id := st_lift (chat_optional_string object "id" "id") in
  let* model := st_lift (chat_optional_string object "model" "model") in
  let* _ := chat_learn_id id in
  let* _ := chat_learn_model model in
  chat_then chat_begin_response
    (chat_then (chat_fingerprint object)
       (let* usage := st_lift (chat_usage object) in
        let* choices := st_lift (chat_choices object) in
        let* d := st_get in
        if (1 <? length choices)%nat then chat_invalid "semantic events support one completion choice"
        else if is_some (cd_pending_finish d) && negb (list_is_empty choices)
        then chat_invalid "chunk appeared after finish_reason and before [DONE]"
        else chat_then (match choices with choice :: _ => chat_decode_choice choice | [] => chat_none end)
               (chat_record_usage usage))).
Definition chat_decode_chunk (input : bytes) : ChatDec (list StreamEvent) :=
  let* d := st_get in
  if cd_completed d then chat_invalid "chunk appeared after completion"
  else
    let* value := st_lift (map_err ChInvalidJson (from_slice input)) in
    let* object := chat_shape (as_object value) "chunk" "an object" in
    match obj_get "error" object with
    | Some error => chat_decode_error error
    | None => chat_decode_object object
    end.
Definition chat_finish : ChatDec (list StreamEvent) :=
  let* d := st_get in
  if cd_completed d then chat_none
  else if is_none (cd_pending_finish d) then chat_invalid "stream ended without a finish_reason"
  else chat_complete_pending.
Definition DONE : bytes := bytes_of "[DONE]".
Definition chat_decode_data (data : bytes) : ChatDec (list StreamEvent) :=
  if beq data DONE then chat_finish else chat_decode_chunk data.

(** * The encoder *)

Record OpenAiChatEventEncoder := MkChatEncoder {
  cn_response_id : string; cn_model : string; cn_response_started : bool; cn_completed : bool;
  cn_tool_indices : gmap string N; cn_next_tool_index : N }.
Definition chat_encoder_new : OpenAiChatEventEncoder := MkChatEncoder DEFAULT_RESPONSE_ID "" false false ∅ 0.
Definition cn_set_identity i m e := MkChatEncoder i m (cn_response_started e) (cn_completed e) (cn_tool_indices e) (cn_next_tool_index e).
Definition cn_set_started e := MkChatEncoder (cn_response_id e) (cn_model e) true (cn_completed e) (cn_tool_indices e) (cn_next_tool_index e).
Definition cn_set_completed e := MkChatEncoder (cn_response_id e) (cn_model e) (cn_response_started e) true (cn_tool_indices e) (cn_next_tool_index e).
Definition ChatEnc (A : Type) : Type := St OpenAiChatEventEncoder OpenAiChatError A.
Definition chat_unsupported {A} (message : string) : ChatEnc A := st_lift (Err (ChUnsupportedEvent message)).

Record EncodedChatChunk := MkEncodedChatChunk { ec_body : bytes; ec_report : ConversionReport }.

Definition chat_base_chunk (e : OpenAiChatEventEncoder) : list (string * Value) :=
  json_members [("id", Str (cn_response_id e)); ("object", Str "chat.completion.chunk"); ("created", number 0);
                ("model", Str (cn_model e))].
(** [self.next_tool_index += 1] stays in [usize]: there is one step for each identifier. *)
Definition chat_tool_index (id : string) : ChatEnc N :=
  fun e => match cn_tool_indices e !! id with
           | Some index => (Ok index, e)
           | None => let index := cn_next_tool_index e in
                     (Ok index, MkChatEncoder (cn_response_id e) (cn_model e) (cn_response_started e) (cn_completed e)
                                  (<[id := index]> (cn_tool_indices e)) (index + 1))
           end.
Definition chat_choice (delta finish_reason : Value) : Value :=
  json_object [("index", number 0); ("delta", delta); ("finish_reason", finish_reason)].

Definition chat_chunk (body : Value) (report : ConversionReport) : ChatEnc (option EncodedChatChunk) :=
  let* body := st_lift (map_err ChInvalidJson (to_vec body)) in st_ret (Some (MkEncodedChatChunk body report)).
Definition chat_validate (report : ConversionReport) (policy : LossPolicy) : ChatEnc unit :=
  st_lift (map_err ChConversion (report_validate report policy)).
(** The end of [encode_event]. *)
Definition chat_emit (object : list (string * Value)) (choices : list Value) (usage : option Value)
    (report : ConversionReport) (policy : LossPolicy) : ChatEnc (option EncodedChatChunk) :=
  let* _ := chat_validate report policy in
  if list_is_empty choices && is_none usage then st_ret None
  else
    let object := if list_is_empty choices then object else obj_insert "choices" (Array choices) object in
    let object := match usage with Some u => obj_insert "usage" u object | None => object end in
    chat_chunk (Object object) report.

Definition chat_encode_event (event : StreamEvent) (policy : LossPolicy) : ChatEnc (option EncodedChatChunk) :=
  let* e := st_get in
  if cn_completed e then chat_unsupported "event appeared after completion"
  else
    let object := chat_base_chunk e in
    let emit choices := chat_emit object choices None report_default policy in
    let lossy report := chat_emit object [] None report policy in
    match ev_kind event with
    | ResponseStart response_id model =>
      if cn_response_started e then chat_unsupported "response start appeared more than once"
      else
        let e' := cn_set_identity (default (cn_response_id e) response_id) (default (cn_model e) model) e in
        let* _ := st_modify (fun _ => cn_set_started e') in
        chat_emit (chat_base_chunk e') [chat_choice (json_object [("role", Str "assistant")]) Null] None report_default policy
    | TextDelta text => emit [chat_choice (json_object [("content", Str text)]) Null]
    | ToolCallStart id name =>
      let* index := chat_tool_index id in
      emit [chat_choice (json_object [("tool_calls", Array [json_object
              [("index", number index); ("id", Str id); ("type", Str "function");
               ("function", json_object [("name", Str name)])]])]) Null]
    | ToolCallDelta id arguments =>
      let* index := st_lift (ok_or (cn_tool_indices e !! id)
                      (ChUnsupportedEvent ("tool call `" +:+ id +:+ "` has no start event"))) in
      emit [chat_choice (json_object [("tool_calls", Array [json_object
              [("index", number index); ("function", json_object [("arguments", Str arguments)])]])]) Null]
    | Refusal text => emit [chat_choice (json_object [("refusal", Str text)]) Null]
    | UsageEvent usage =>
      chat_emit (obj_insert "choices" (Array []) object) [] (Some (chat_encode_usage usage)) report_default policy
    | Completion finish_reason usage =>
      let* _ := st_modify cn_set_completed in
      chat_emit object [chat_choice (Object []) (Str (chat_encode_finish_reason finish_reason))]
        (chat_encode_usage <$> usage) report_default policy
    | Failure error =>
      let body := json_object [("error", json_object [("message", Str (se_message error)); ("type", Str (se_code error))])] in
      let report := apply_rule report_default "openai.chat.error" in
      let* _ := chat_validate report policy in
      chat_chunk body report
    | ReasoningStart | ReasoningDelta _ | ReasoningEnd _ =>
      lossy (drop_optional report_default "reasoning" "OpenAI Chat has no standard reasoning stream field")
    | TextStart | TextEnd | ToolCallEnd _ => st_ret None
    | OpaqueEvent media_type _ =>
      if String.eqb media_type OPENAI_RESPONSES_BUILTIN_EVENT_MEDIA_TYPE
      then lossy (unsupported_required report_default "event"
                    "OpenAI Responses built-in output cannot be represented as an OpenAI Chat event")
      else lossy (drop_optional report_default "event" "OpenAI Chat has no representation for this event")
    | Metadata _ | Media _ _ | WarningEvent _ =>
      lossy (drop_optional report_default "event" "OpenAI Chat has no representation for this event")
    end.
End codec.
