(* ===== verification/OpenAiChatRequest.v ===== *)
(** The OpenAI Chat Completions request (crates/pooler-protocol/src/openai_chat.rs): decoding a
    JSON body to the protocol-neutral request and encoding it back, with the accounting of what
    is lost.

    A function on [&mut ConversionReport] is a computation of [St] on the report; a function that
    takes fields out of [&mut Map] returns the map that is left.  serde_json is the parameter
    [SerdeJson]. *)
From stdpp Require Import pretty.
From S2P Require Import Prelude Str CoreError Bytes Json Extensions Events Dialect Request Redact Codec OpenAiChat.

Open Scope N_scope.

Definition UNKNOWN_FIELDS_NAMESPACE : string := "openai.chat".
Definition UNKNOWN_FIELDS_NAME : string := "unknown_request_fields".
Definition OPENAI_CHAT_UNKNOWN_FIELDS_EXTENSION : string := "openai.chat.unknown_request_fields".

Definition Rep (A : Type) : Type := St ConversionReport OpenAiChatError A.
Definition rep_shape {A} (o : option A) (field expected : string) : Rep A := st_lift (ok_or o (ChInvalidShape field expected)).
Definition as_array (v : Value) : option (list Value) := match v with Array l => Some l | _ => None end.
Definition as_bool (v : Value) : option bool := match v with Bool b => Some b | _ => None end.
Definition indexed (field : string) (index : N) : string := field +:+ "[" +:+ pretty index +:+ "]".

(** [iter().enumerate().map(..).collect()]. *)
Fixpoint st_map_from {S E A B} (f : N -> A -> St S E B) (index : N) (l : list A) : St S E (list B) :=
  match l with
  | [] => st_ret []
  | a :: l => let* b := f index a in let* rest := st_map_from f (index + 1) l in st_ret (b :: rest)
  end.

Definition report_unknown_fields (object : list (string * Value)) (known : list string) (field : string) : Rep unit :=
  st_modify (fun r => foldl (fun r kv =>
    if existsb (String.eqb kv.1) known then r
    else drop_optional r (field +:+ "." +:+ kv.1) "OpenAI Chat field is not represented by the semantic model") r object).

Definition optional_bool (object : list (string * Value)) (key field : string) : Result (option bool) OpenAiChatError :=
  match obj_get key object with
  | None => Ok None
  | Some v => let? b := ok_or (as_bool v) (ChInvalidShape field "a boolean") in Ok (Some b)
  end.

(** ** Fields that are taken out *)

Definition take_string (object : list (string * Value)) (key : string) : Result (option string * list (string * Value)) OpenAiChatError :=
  match obj_get key object with
  | None => Ok (None, obj_remove key object)
  | Some v => let? s := ok_or (as_string v) (ChInvalidShape key "a string") in Ok (Some s, obj_remove key object)
  end.
Definition as_number (v : Value) : option Number := match v with Num n => Some n | _ => None end.
Definition take_f32 (object : list (string * Value)) (key : string) : Result (option F32 * list (string * Value)) OpenAiChatError :=
  match obj_get key object with
  | None => Ok (None, obj_remove key object)
  | Some v =>
    let? n := ok_or (as_number v) (ChInvalidShape key "a number") in
    let value := number_as_f64 n in
    if in_f32_range value then Ok (Some (f64_to_f32 value), obj_remove key object)
    else Err (ChInvalidValue key "number is outside the supported range")
  end.
Definition take_u64 (object : list (string * Value)) (key : string) : Result (option N * list (string * Value)) OpenAiChatError :=
  match obj_get key object with
  | None => Ok (None, obj_remove key object)
  | Some v => let? n := ok_or (as_u64 v) (ChInvalidShape key "an unsigned integer") in Ok (Some n, obj_remove key object)
  end.
Definition as_u32 (v : Value) (field : string) : Result N OpenAiChatError :=
  let? n := ok_or (as_u64 v) (ChInvalidShape field "an unsigned integer") in
  if n <=? U32_MAX then Ok n else Err (ChInvalidValue field "number is too large").

(** * Decoding *)

(** The [Display] of a [PreservedJsonError]. *)
Definition preserved_message (e : PreservedJsonError) : string :=
  match e with
  | InvalidJson message => "invalid JSON: " +:+ message
  | PreservedPointerNotFound pointer => "JSON pointer `" +:+ pointer +:+ "` was not found"
  | PreservedNotContainer pointer => "JSON pointer `" +:+ pointer +:+ "` does not select an object or array"
  | CannotRemoveRoot => "the root JSON value cannot be removed"
  end.

Section decode.
Context `{SerdeJson}.

Definition part_object (object : list (string * Value)) (key field : string) : Rep (list (string * Value)) :=
  rep_shape (obj_get key object ≫= as_object) (field +:+ "." +:+ key) "an object".
Definition provider_part (name : string) (value : Value) : Rep ContentPart :=
  let* data := st_lift (map_err ChPreservedJson (pj_from_value value)) in
  st_ret (PartProvider UNKNOWN_FIELDS_NAMESPACE name data).

Definition parse_image (object : list (string * Value)) (field : string) : Rep ContentPart :=
  let* _ := report_unknown_fields object ["type"; "image_url"] field in
  let* image := part_object object "image_url" field in
  let* _ := report_unknown_fields image ["url"; "detail"] (field +:+ ".image_url") in
  let* url := st_lift (chat_required_string image "url" (field +:+ ".image_url.url")) in
  let* detail := st_lift (chat_optional_string image "detail" (field +:+ ".image_url.detail")) in
  st_ret (PartImage "image/*" (MediaUri url) detail).
Definition parse_audio (object : list (string * Value)) (field : string) : Rep ContentPart :=
  let* _ := report_unknown_fields object ["type"; "input_audio"] field in
  let* audio := part_object object "input_audio" field in
  let* _ := report_unknown_fields audio ["format"; "data"] (field +:+ ".input_audio") in
  let* format := st_lift (chat_required_string audio "format" (field +:+ ".input_audio.format")) in
  let* data := st_lift (chat_required_string audio "data" (field +:+ ".input_audio.data")) in
  st_ret (PartAudio ("audio/" +:+ format) (MediaUri ("data:audio/" +:+ format +:+ ";base64," +:+ data))).
Definition parse_file (object : list (string * Value)) (field : string) : Rep ContentPart :=
  let* _ := report_unknown_fields object ["type"; "file"] field in
  let* file := part_object object "file" field in
  let* _ := report_unknown_fields file ["file_id"; "file_data"; "filename"] (field +:+ ".file") in
  let* source := st_lift (ok_or (or_else (obj_get "file_id" file) (obj_get "file_data" file) ≫= as_string)
                   (ChMissingField (field +:+ ".file.file_id or file_data"))) in
  let* name := st_lift (chat_optional_string file "filename" (field +:+ ".file.filename")) in
  st_ret (PartFile name "application/octet-stream" (MediaUri source)).
Definition parse_content_part (value : Value) (field : string) : Rep ContentPart :=
  let* object := rep_shape (as_object value) field "an object" in
  let* kind := st_lift (chat_required_string object "type" (field +:+ ".type")) in
  if String.eqb kind "text" then
    let* _ := report_unknown_fields object ["type"; "text"] field in
    let* text := st_lift (chat_required_string object "text" field) in st_ret (PartText text)
  else if String.eqb kind "image_url" then parse_image object field
  else if String.eqb kind "input_audio" then parse_audio object field
  else if String.eqb kind "file" then parse_file object field
  else if String.eqb kind "refusal" then provider_part "refusal" value
  else
    let* _ := st_modify (fun r => preserve_capability r ("openai.chat.content." +:+ kind)) in
    provider_part kind value.
Definition parse_content (value : Value) (field : string) : Rep (list ContentPart) :=
  match value with
  | Null => st_ret []
  | Str text => st_ret [PartText text]
  | _ =>
    let* parts := rep_shape (as_array value) field "a string, null, or an array" in
    st_map_from (fun index part => parse_content_part part (indexed field index)) 0 parts
  end.

Definition parse_tool_call (value : Value) (field : string) : Rep ToolCall :=
  let* object := rep_shape (as_object value) field "an object" in
  let* _ := report_unknown_fields object ["id"; "type"; "function"] field in
  let* id := st_lift (chat_required_string object "id" (field +:+ ".id")) in
  let* function := part_object object "function" field in
  let* _ := report_unknown_fields function ["name"; "arguments"] (field +:+ ".function") in
  let* name := st_lift (chat_required_string function "name" (field +:+ ".function.name")) in
  let* arguments := st_lift (chat_required_string function "arguments" (field +:+ ".function.arguments")) in
  match pj_from_bytes (bytes_of arguments) with
  | Ok arguments => st_ret (tool_call_new id name arguments)
  | Err error => st_lift (Err (ChInvalidValue (field +:+ ".function.arguments") (preserved_message error)))
  end.

Definition parse_plain (object : list (string * Value)) (role : Role) (content : list ContentPart) (field : string) : Rep InputItem :=
  let* _ := report_unknown_fields object ["role"; "content"; "id"; "name"] field in
  let* id := st_lift (chat_optional_string object "id" (field +:+ ".id")) in
  let* name := st_lift (chat_optional_string object "name" (field +:+ ".name")) in
  st_ret (ItemMessage (MkMessage id role content name None ∅ [])).
Definition parse_assistant (object : list (string * Value)) (content : list ContentPart) (field : string) : Rep InputItem :=
  let* calls := match obj_get "tool_calls" object with
                | None => st_ret []
                | Some v =>
                  let* calls := rep_shape (as_array v) (field +:+ ".tool_calls") "an array" in
                  st_map_from (fun index call => parse_tool_call call (indexed (field +:+ ".tool_calls") index)) 0 calls
                end in
  let* _ := report_unknown_fields object ["role"; "content"; "id"; "name"; "tool_calls"] field in
  let* id := st_lift (chat_optional_string object "id" (field +:+ ".id")) in
  let* name := st_lift (chat_optional_string object "name" (field +:+ ".name")) in
  st_ret (ItemMessage (MkMessage id RoleAssistant (content ++ map PartToolCall calls) name None ∅ [])).
Definition parse_tool_message (object : list (string * Value)) (content : list ContentPart) (field : string) : Rep InputItem :=
  let* _ := report_unknown_fields object ["role"; "content"; "tool_call_id"] field in
  let* id := st_lift (chat_required_string object "tool_call_id" (field +:+ ".tool_call_id")) in
  st_ret (ItemToolResult (MkToolResult id content false [])).
Definition parse_message (index : N) (value : Value) : Rep InputItem :=
  let field := indexed "messages" index in
  let* object := rep_shape (as_object value) field "an object" in
  let* role := st_lift (chat_required_string object "role" (field +:+ ".role")) in
  let* content := parse_content (default Null (obj_get "content" object)) (field +:+ ".content") in
  if String.eqb role "system" then parse_plain object RoleSystem content field
  else if String.eqb role "developer" then parse_plain object RoleDeveloper content field
  else if String.eqb role "user" then parse_plain object RoleUser content field
  else if String.eqb role "assistant" then parse_assistant object content field
  else if String.eqb role "tool" then parse_tool_message object content field
  else st_lift (Err (ChInvalidValue (field +:+ ".role") ("unsupported role `" +:+ role +:+ "`"))).

Definition parse_tool (index : N) (tool : Value) : Rep ToolDefinition :=
  let field := indexed "tools" index in
  let* object := rep_shape (as_object tool) field "an object" in
  let* _ := report_unknown_fields object ["type"; "function"] field in
  let* tool_type := st_lift (chat_optional_string object "type" (field +:+ ".type")) in
  if is_some (opt_filter tool_type (fun kind => negb (String.eqb kind "function")))
  then st_lift (Err (ChInvalidValue (field +:+ ".type") "only function tools are supported"))
  else
    let* function := part_object object "function" field in
    let* _ := report_unknown_fields function ["name"; "parameters"; "description"; "strict"] (field +:+ ".function") in
    let* name := st_lift (chat_required_string function "name" (field +:+ ".function.name")) in
    let* parameters := match obj_get "parameters" function with
                       | None => st_ret None
                       | Some v => let* p := st_lift (map_err ChPreservedJson (pj_from_value v)) in st_ret (Some p)
                       end in
    let* description := st_lift (chat_optional_string function "description" (field +:+ ".function.description")) in
    let* strict := st_lift (optional_bool function "strict" (field +:+ ".function.strict")) in
    st_ret (MkToolDefinition name description parameters strict []).
Definition parse_tools (value : Value) : Rep (list ToolDefinition) :=
  let* tools := rep_shape (as_array value) "tools" "an array" in st_map_from parse_tool 0 tools.

Definition parse_tool_choice (value : Value) : Rep ToolChoice :=
  match value with
  | Str choice =>
    if String.eqb choice "auto" then st_ret ChoiceAuto
    else if String.eqb choice "none" then st_ret ChoiceNone
    else if String.eqb choice "required" then st_ret ChoiceRequired
    else st_lift (Err (ChInvalidValue "tool_choice" "expected auto, none, or required"))
  | _ =>
    let* object := rep_shape (as_object value) "tool_choice" "a string or object" in
    let* _ := report_unknown_fields object ["type"; "function"] "tool_choice" in
    let* kind := st_lift (chat_optional_string object "type" "tool_choice.type") in
    if negb (beq kind (Some "function"))
    then st_lift (Err (ChInvalidValue "tool_choice.type" "only function tool choices are supported"))
    else
      let* function := part_object object "function" "tool_choice" in
      let* _ := report_unknown_fields function ["name"] "tool_choice.function" in
      let* name := st_lift (chat_required_string function "name" "tool_choice.function.name") in
      st_ret (ChoiceTool name)
  end.

(** The sampling parameters and the fields that are left. *)
Definition parse_max_tokens (object : list (string * Value)) : Result (option N * list (string * Value)) OpenAiChatError :=
  let? max_tokens := match obj_get "max_tokens" object with
                     | None => Ok None
                     | Some v => let? n := as_u32 v "max_tokens" in Ok (Some n)
                     end in
  let object := obj_remove "max_tokens" object in
  match obj_get "max_completion_tokens" object with
  | None => Ok (max_tokens, obj_remove "max_completion_tokens" object)
  | Some v =>
    if is_some max_tokens then Err (ChConflictingFields "max_tokens" "max_completion_tokens")
    else let? n := as_u32 v "max_completion_tokens" in Ok (Some n, obj_remove "max_completion_tokens" object)
  end.
Fixpoint stop_strings (index : N) (l : list Value) : Result (list string) OpenAiChatError :=
  match l with
  | [] => Ok []
  | v :: l =>
    let? s := ok_or (as_string v) (ChInvalidShape (indexed "stop" index) "a string") in
    let? rest := stop_strings (index + 1) l in Ok (s :: rest)
  end.
Definition parse_stop (object : list (string * Value)) : Result (list string * list (string * Value)) OpenAiChatError :=
  match obj_get "stop" object with
  | None => Ok ([], obj_remove "stop" object)
  | Some (Str s) => Ok ([s], obj_remove "stop" object)
  | Some v =>
    let? l := ok_or (as_array v) (ChInvalidShape "stop" "a string or array of strings") in
    let? stop := stop_strings 0 l in Ok (stop, obj_remove "stop" object)
  end.
Definition parse_sampling (object : list (string * Value)) : Result (SamplingParameters * list (string * Value)) OpenAiChatError :=
  let? (temperature, object) := take_f32 object "temperature" in
  let? (top_p, object) := take_f32 object "top_p" in
  let? (max_tokens, object) := parse_max_tokens object in
  let? (stop, object) := parse_stop object in
  let? (seed, object) := take_u64 object "seed" in
  let? (presence, object) := take_f32 object "presence_penalty" in
  let? (frequency, object) := take_f32 object "frequency_penalty" in
  Ok (MkSampling temperature top_p max_tokens stop seed presence frequency [], object).

Definition parse_json_schema (format : list (string * Value)) : Rep ResponseFormat :=
  let* schema := part_object format "json_schema" "response_format" in
  let* _ := report_unknown_fields schema ["name"; "schema"; "strict"] "response_format.json_schema" in
  let* name := st_lift (chat_required_string schema "name" "response_format.json_schema.name") in
  let* document := match obj_get "schema" schema with
                   | None => st_lift (Err (ChMissingField "response_format.json_schema.schema"))
                   | Some v => st_lift (map_err ChPreservedJson (pj_from_value v))
                   end in
  let* strict := st_lift (optional_bool schema "strict" "response_format.json_schema.strict") in
  st_ret (FormatJsonSchema name document (default false strict)).
Definition parse_response_format (value : option Value) : Rep (option ResponseFormat) :=
  match value with
  | None => st_ret None
  | Some value =>
    let* format := rep_shape (as_object value) "response_format" "an object" in
    let* _ := report_unknown_fields format ["type"; "json_schema"] "response_format" in
    let* kind := st_lift (chat_required_string format "type" "response_format.type") in
    if String.eqb kind "text" then st_ret (Some FormatText)
    else if String.eqb kind "json_object" then st_ret (Some FormatJsonObject)
    else if String.eqb kind "json_schema" then let* f := parse_json_schema format in st_ret (Some f)
    else st_lift (Err (ChInvalidValue "response_format.type" ("unsupported type `" +:+ kind +:+ "`")))
  end.

Definition parse_effort (value : string) : ReasoningEffort :=
  if String.eqb value "low" then EffortLow
  else if String.eqb value "medium" then EffortMedium
  else if String.eqb value "high" then EffortHigh
  else if String.eqb value "max" then EffortMax
  else EffortCustom value.
Definition parse_reasoning (value : option Value) : Result (option ReasoningConfig) OpenAiChatError :=
  match value with
  | None => Ok None
  | Some v =>
    let? s := ok_or (as_string v) (ChInvalidShape "reasoning_effort" "a string") in
    Ok (Some (MkReasoningConfig (Some (parse_effort s)) false []))
  end.

Fixpoint metadata_strings (members : list (string * Value)) : Result (gmap string string) OpenAiChatError :=
  match members with
  | [] => Ok ∅
  | (key, v) :: members =>
    let? s := ok_or (as_string v) (ChInvalidShape ("metadata." +:+ key) "a string") in
    let? rest := metadata_strings members in Ok (<[key := s]> rest)
  end.
Definition parse_metadata (value : option Value) : Result (gmap string string) OpenAiChatError :=
  match value with
  | None => Ok ∅
  | Some v =>
    let? members := ok_or (as_object v) (ChInvalidShape "metadata" "an object") in metadata_strings members
  end.

Definition invalid_unknown {A} : Result A OpenAiChatError := Err (ChInvalidExtension OPENAI_CHAT_UNKNOWN_FIELDS_EXTENSION).
Definition unknown_extension (b : bytes) : Result OpaqueExtension OpenAiChatError :=
  match opaque_new UNKNOWN_FIELDS_NAMESPACE UNKNOWN_FIELDS_NAME b with
  | Err _ => invalid_unknown
  | Ok e => match with_media_type e "application/json" with Err _ => invalid_unknown | Ok e => Ok e end
  end.
Definition preserve_unknown_fields (fields : list (string * Value)) : Rep Extensions :=
  if list_is_empty fields then st_ret []
  else
    let* b := st_lift (map_err ChInvalidJson (to_vec (Object fields))) in
    let* extension := st_lift (unknown_extension b) in
    let* _ := st_modify (fun r => preserve_extension r (opaque_key extension)) in
    st_ret (ext_insert [] extension).2.

Definition parse_n (value : option Value) : Rep unit :=
  match value with
  | None => st_ret tt
  | Some v =>
    let* count := rep_shape (as_u64 v) "n" "an unsigned integer" in
    if count =? 1 then st_ret tt
    else st_modify (fun r => unsupported_required r "n" "the semantic event model represents one completion choice")
  end.

(** The body of [decode_chat_request_with_report] after the JSON is parsed. *)
Definition decode_chat_value (value : Value) : Rep SemanticRequest :=
  let* object := rep_shape (as_object value) "request" "an object" in
  let* (model, object) := st_lift (take_string object "model") in
  let* model := st_lift (ok_or model (ChMissingField "model")) in
  if str_is_empty (trim model) then st_lift (Err (ChInvalidValue "model" "must not be empty"))
  else
    let* messages := st_lift (ok_or (obj_get "messages" object) (ChMissingField "messages")) in
    let object := obj_remove "messages" object in
    let* messages := rep_shape (as_array messages) "messages" "an array" in
    let* input := st_map_from parse_message 0 messages in
    let* tools := match obj_get "tools" object with Some v => parse_tools v | None => st_ret [] end in
    let object := obj_remove "tools" object in
    let* choice := match obj_get "tool_choice" object with
                   | Some v => let* c := parse_tool_choice v in st_ret (Some c)
                   | None => st_ret None
                   end in
    let object := obj_remove "tool_choice" object in
    let* (sampling, object) := st_lift (parse_sampling object) in
    let* format := parse_response_format (obj_get "response_format" object) in
    let object := obj_remove "response_format" object in
    let* reasoning := st_lift (parse_reasoning (obj_get "reasoning_effort" object)) in
    let object := obj_remove "reasoning_effort" object in
    let* metadata := st_lift (parse_metadata (obj_get "metadata" object)) in
    let object := obj_remove "metadata" object in
    let* _ := parse_n (obj_get "n" object) in
    let object := obj_remove "n" object in
    let* extensions := preserve_unknown_fields object in
    let request := MkRequest model None input tools choice reasoning sampling format None None None metadata extensions in
    let* _ := st_lift (map_err ChRequestValidation (request_validate request)) in
    st_ret request.
Definition decode_chat_request_with_report (input : bytes) : Result (SemanticRequest * ConversionReport) OpenAiChatError :=
  let? value := map_err ChInvalidJson (from_slice input) in
  match decode_chat_value value report_default with
  | (Ok request, report) => Ok (request, report)
  | (Err e, _) => Err e
  end.
Definition decode_chat_request (input : bytes) : Result SemanticRequest OpenAiChatError :=
  let? (request, report) := decode_chat_request_with_report input in
  let? _ := map_err ChConversion (report_validate report Reject) in
  Ok request.
End decode.

(** * Encoding *)

(** [str::split_once] and [str::trim_start_matches] with a string. *)
Fixpoint split_once_str (sep s : string) : option (string * string) :=
  match strip_prefix s sep with
  | Some rest => Some (EmptyString, rest)
  | None =>
    match s with
    | EmptyString => None
    | String c s => match split_once_str sep s with Some (x, y) => Some (String c x, y) | None => None end
    end
  end.
Fixpoint trim_start_loop (fuel : nat) (p s : string) : string :=
  match fuel with
  | O => s
  | S fuel => match strip_prefix s p with Some rest => trim_start_loop fuel p rest | None => s end
  end.
Definition trim_start_matches (p s : string) : string := trim_start_loop (String.length s) p s.

Definition BASE64_ALPHABET : bytes := bytes_of "ABCDEFGHIJKLMNOPQRSTUVWXYZabcdefghijklmnopqrstuvwxyz0123456789+/".
Definition base64_char (i : N) : N := nth (N.to_nat i) BASE64_ALPHABET 0.
Definition BASE64_PAD : N := 0x3D.
Fixpoint base64_loop (fuel : nat) (b : bytes) : bytes :=
  match fuel, b with
  | O, _ | _, [] => []
  | S fuel, [x] => [base64_char (x / 4); base64_char (x mod 4 * 16); BASE64_PAD; BASE64_PAD]
  | S fuel, [x; y] => [base64_char (x / 4); base64_char (x mod 4 * 16 + y / 16); base64_char (y mod 16 * 4); BASE64_PAD]
  | S fuel, x :: y :: z :: b =>
    [base64_char (x / 4); base64_char (x mod 4 * 16 + y / 16); base64_char (y mod 16 * 4 + z / 64); base64_char (z mod 64)]
    ++ base64_loop fuel b
  end.
Definition encode_base64 (b : bytes) : string := of_bytes (base64_loop (length b) b).

Definition encode_media_source (media_type : string) (source : MediaSource) : string :=
  match source with
  | MediaUri uri => uri
  | MediaInline b => "data:" +:+ media_type +:+ ";base64," +:+ encode_base64 b
  end.
Definition report_unrepresentable_extensions (field : string) (extensions : Extensions) : Rep unit :=
  if list_is_empty extensions then st_ret tt
  else st_modify (fun r => unsupported_required r field "OpenAI Chat has no representation for this provider-specific state").
Definition rep_when (b : bool) (f : ConversionReport -> ConversionReport) : Rep unit := if b then st_modify f else st_ret tt.

Section encode.
Context `{SerdeJson}.

Definition text_part (text : string) : Value := json_object [("type", Str "text"); ("text", Str text)].
Definition insert_some (key : string) (value : option Value) (object : list (string * Value)) : list (string * Value) :=
  match value with Some v => obj_insert key v object | None => object end.

Definition encode_file (name : option string) (source : MediaSource) : Rep Value :=
  let* file := match source with
               | MediaUri uri =>
                 st_ret (if starts_with uri "data:" then [("file_data", Str uri)] else [("file_id", Str uri)])
               | MediaInline _ =>
                 let* _ := st_modify (fun r => unsupported_required r "input.file" "inline files need a provider file ID or data URI") in
                 st_ret []
               end in
  st_ret (json_object [("type", Str "file"); ("file", Object (insert_some "filename" (Str <$> name) file))]).
Definition audio_uri (uri : string) : option (string * string) :=
  strip_prefix uri "data:audio/" ≫= split_once_str ";base64,".
Definition encode_audio (media_type : string) (source : MediaSource) : Rep Value :=
  let* (format, data) := match source with
                         | MediaUri uri =>
                           if starts_with uri "data:audio/" then
                             st_lift (ok_or (audio_uri uri) (ChInvalidValue "input_audio" "audio data URI must use ;base64"))
                           else
                             let* _ := st_modify (fun r => unsupported_required r "input.audio"
                                         "OpenAI Chat audio input requires a base64 data URI") in
                             st_ret (trim_start_matches "audio/" media_type, uri)
                         | MediaInline b => st_ret (trim_start_matches "audio/" media_type, encode_base64 b)
                         end in
  st_ret (json_object [("type", Str "input_audio"); ("input_audio", json_object [("format", Str format); ("data", Str data)])]).
Definition encode_content_part (part : ContentPart) : Rep Value :=
  match part with
  | PartText text => st_ret (text_part text)
  | PartImage media_type source detail =>
    st_ret (json_object [("type", Str "image_url");
                         ("image_url", Object (insert_some "detail" (Str <$> detail) [("url", Str (encode_media_source media_type source))]))])
  | PartFile name _ source => encode_file name source
  | PartAudio media_type source => encode_audio media_type source
  | PartReasoning _ =>
    let* _ := st_modify (fun r => drop_optional r "message.reasoning" "OpenAI Chat has no standard reasoning input part") in
    st_ret (text_part "")
  | PartToolCall _ | PartToolResult _ => st_lift (Err (ChUnsupportedEvent "tool content must be encoded by its message owner"))
  | PartProvider namespace name data =>
    if String.eqb namespace UNKNOWN_FIELDS_NAMESPACE then
      let* _ := st_modify (fun r => preserve_capability r ("openai.chat.content." +:+ name)) in st_ret (pj_value data)
    else
      let* _ := st_modify (fun r => unsupported_required r ("content.provider." +:+ namespace +:+ "." +:+ name)
                  "provider content has no OpenAI Chat representation") in
      st_ret (text_part "")
  end.

(** The current bytes of a document; the [expect] of [bytes] does not fail on a [Value]. *)
Definition document_string (doc : PreservedJson) : string := of_bytes (from_utf8_lossy (default [] (pj_bytes doc))).
Definition encode_tool_call (call : ToolCall) : Rep Value :=
  let* _ := rep_when (negb (list_is_empty (tc_dependencies call)))
              (fun r => unsupported_required r "tool_call.dependencies" "OpenAI Chat has no tool-call dependency representation") in
  let* _ := report_unrepresentable_extensions "tool_call.extensions" (tc_extensions call) in
  st_ret (json_object [("id", Str (tc_id call)); ("type", Str "function");
                       ("function", json_object [("name", Str (tc_name call)); ("arguments", Str (document_string (tc_arguments call)))])]).

(** The text of the only part, when it is one. *)
Definition only_text (content : list Value) : option Value :=
  match content with
  | [Object part] =>
    match obj_get "type" part with
    | Some (Str kind) => if String.eqb kind "text" then obj_get "text" part else None
    | _ => None
    end
  | _ => None
  end.
Definition json_message (role : string) (content : list Value) (name id : option string) : list (string * Value) :=
  let content := match content with [] => Null | _ => default (Array content) (only_text content) end in
  insert_some "id" (Str <$> id) (insert_some "name" (Str <$> name) (json_members [("role", Str role); ("content", content)])).

Definition encode_tool_result_message (result : ToolResult) : Rep Value :=
  let 'MkToolResult tool_call_id content is_error extensions := result in
  let* _ := report_unrepresentable_extensions "tool_result.extensions" extensions in
  let* _ := rep_when is_error (fun r => drop_optional r "tool_result.is_error" "OpenAI Chat has no standard tool-result error flag") in
  let* content := match content with
                  | [PartText text] => st_ret (Str text)
                  | _ => let* parts := st_map_from (fun _ part => encode_content_part part) 0 content in st_ret (Array parts)
                  end in
  st_ret (Object (obj_insert "content" content (obj_insert "tool_call_id" (Str tool_call_id) (json_message "tool" [] None None)))).

(** The parts of a message and its tool calls, in one pass. *)
Fixpoint encode_parts (parts : list ContentPart) : Rep (list Value * list Value) :=
  match parts with
  | [] => st_ret ([], [])
  | part :: parts =>
    match part with
    | PartToolCall call =>
      let* v := encode_tool_call call in let* (content, calls) := encode_parts parts in st_ret (content, v :: calls)
    | PartToolResult _ =>
      let* _ := st_modify (fun r => unsupported_required r "message.content.tool_result"
                  "tool results must be standalone tool messages in OpenAI Chat") in
      encode_parts parts
    | _ =>
      let* v := encode_content_part part in let* (content, calls) := encode_parts parts in st_ret (v :: content, calls)
    end
  end.
Definition role_name (role : Role) : string :=
  match role with
  | RoleSystem => "system" | RoleDeveloper => "developer" | RoleUser => "user" | RoleAssistant => "assistant" | RoleTool => "tool"
  end.
Definition encode_message (message : Message) : Rep Value :=
  let* _ := rep_when (negb (beq (ms_metadata message) ∅))
              (fun r => drop_optional r "message.metadata" "OpenAI Chat has no per-message metadata field") in
  let* _ := report_unrepresentable_extensions "message.extensions" (ms_extensions message) in
  let* _ := rep_when (negb (beq (ms_role message) RoleTool) && is_some (ms_tool_call_id message))
              (fun r => unsupported_required r "message.tool_call_id" "OpenAI Chat only accepts tool_call_id on tool messages") in
  if beq (ms_role message) RoleTool then
    let* id := st_lift (ok_or (ms_tool_call_id message)
                 (ChInvalidValue "message.tool_call_id" "tool messages require an invocation ID")) in
    encode_tool_result_message (MkToolResult id (ms_content message) false [])
  else
    let* (content, calls) := encode_parts (ms_content message) in
    let object := json_message (role_name (ms_role message)) content (ms_name message) (ms_id message) in
    st_ret (Object (if list_is_empty calls then object else obj_insert "tool_calls" (Array calls) object)).
Definition encode_tool_call_message (call : ToolCall) : Rep Value :=
  let* v := encode_tool_call call in
  st_ret (Object (obj_insert "tool_calls" (Array [v]) (json_message "assistant" [] None None))).
Definition encode_input_item (item : InputItem) : Rep Value :=
  match item with
  | ItemMessage message => encode_message message
  | ItemToolCall call => encode_tool_call_message call
  | ItemToolResult result => encode_tool_result_message result
  | ItemContent content =>
    let* v := encode_content_part content in st_ret (Object (json_message "user" [v] None None))
  | ItemProvider namespace name _ =>
    let* _ := st_modify (fun r => unsupported_required r ("input.provider." +:+ namespace +:+ "." +:+ name)
                "OpenAI Chat has no generic provider item representation") in
    st_ret (Object (json_message "user" [] None None))
  end.

Definition encode_tool_definition (definition : ToolDefinition) : Rep Value :=
  let* _ := report_unrepresentable_extensions "tool_definition.extensions" (td_extensions definition) in
  st_ret (json_object [("type", Str "function");
    ("function", Object (insert_some "strict" (Bool <$> td_strict definition)
       (insert_some "parameters" (pj_value <$> td_parameters definition)
          (insert_some "description" (Str <$> td_description definition) [("name", Str (td_name definition))]))))]).
Definition encode_tool_choice (choice : ToolChoice) : Value :=
  match choice with
  | ChoiceAuto => Str "auto" | ChoiceNone => Str "none" | ChoiceRequired => Str "required"
  | ChoiceTool name => json_object [("type", Str "function"); ("function", json_object [("name", Str name)])]
  end.
(** [json!(value)] of an [f32]. *)
Definition f32_number (x : F32) : Value := Num (Float (f32_to_f64 x)).
Definition encode_stop (stop : list string) : option Value :=
  match stop with [] => None | [s] => Some (Str s) | _ => Some (Array (map Str stop)) end.
Definition encode_sampling (sampling : SamplingParameters) (dialect : ModelDialect) (object : list (string * Value))
  : Rep (list (string * Value)) :=
  let* _ := report_unrepresentable_extensions "sampling.extensions" (sa_extensions sampling) in
  let accepted := is_accepted (temperature dialect) in
  let* _ := rep_when (is_some (sa_temperature sampling) && negb accepted)
              (fun r => drop_optional r "sampling.temperature" "the target model rejects the temperature parameter") in
  let object := if accepted then insert_some "temperature" (f32_number <$> sa_temperature sampling) object else object in
  let object := insert_some "top_p" (f32_number <$> sa_top_p sampling) object in
  let object := insert_some "max_tokens" (number <$> sa_max_output_tokens sampling) object in
  let object := insert_some "stop" (encode_stop (sa_stop sampling)) object in
  let object := insert_some "seed" (number <$> sa_seed sampling) object in
  let object := insert_some "presence_penalty" (f32_number <$> sa_presence_penalty sampling) object in
  st_ret (insert_some "frequency_penalty" (f32_number <$> sa_frequency_penalty sampling) object).
Definition encode_response_format (format : ResponseFormat) : Value :=
  match format with
  | FormatText => json_object [("type", Str "text")]
  | FormatJsonObject => json_object [("type", Str "json_object")]
  | FormatJsonSchema name schema strict =>
    json_object [("type", Str "json_schema");
                 ("json_schema", json_object [("name", Str name); ("schema", pj_value schema); ("strict", Bool strict)])]
  end.
Definition reasoning_effort_name (effort : ReasoningEffort) : string :=
  match effort with
  | EffortLow => "low" | EffortMedium => "medium" | EffortHigh => "high" | EffortMax => "max" | EffortCustom value => value
  end.
Definition encode_reasoning (reasoning : option ReasoningConfig) (object : list (string * Value)) : Rep (list (string * Value)) :=
  match reasoning with
  | None => st_ret object
  | Some config =>
    let object := insert_some "reasoning_effort" ((fun e => Str (reasoning_effort_name e)) <$> rc_effort config) object in
    let* _ := rep_when (rc_include_summary config)
                (fun r => drop_optional r "reasoning.include_summary" "OpenAI Chat has no standard reasoning summary control") in
    let* _ := report_unrepresentable_extensions "reasoning.extensions" (rc_extensions config) in
    st_ret object
  end.

(** One preserved field: the canonical one wins. *)
Definition merge_field (key : string) (st : list (string * Value) * bool * ConversionReport) (member : string * Value)
  : list (string * Value) * bool * ConversionReport :=
  let '(object, inserted, report) := st in
  if is_some (obj_get member.1 object)
  then (object, inserted, drop_optional report (key +:+ "." +:+ member.1)
                            ("canonical field `" +:+ member.1 +:+ "` wins over preserved field"))
  else (obj_insert member.1 member.2 object, true, report).
Definition merge_fields (key : string) (fields object : list (string * Value)) : Rep (list (string * Value)) :=
  fun report =>
    let '(object, inserted, report) := foldl (merge_field key) (object, false, report) fields in
    (Ok object, if inserted then preserve_capability report key else report).
Fixpoint merge_unknown_fields (extensions : Extensions) (object : list (string * Value)) : Rep (list (string * Value)) :=
  match extensions with
  | [] => st_ret object
  | (key, extension) :: extensions =>
    if negb (String.eqb (extension_key_as_str key) OPENAI_CHAT_UNKNOWN_FIELDS_EXTENSION) then
      let* _ := st_modify (fun r => unsupported_required r ("extension." +:+ extension_key_as_str key)
                  "OpenAI Chat cannot serialize this semantic extension") in
      merge_unknown_fields extensions object
    else
      let* value := st_lift (map_err ChInvalidJson (from_slice (oe_bytes extension))) in
      let* fields := st_lift (ok_or (as_object value) (ChInvalidExtension (extension_key_as_str key))) in
      let* object := merge_fields (extension_key_as_str key) fields object in
      merge_unknown_fields extensions object
  end.

Definition encode_metadata (metadata : gmap string string) : option Value :=
  if beq metadata ∅ then None
  else Some (Object (foldl (fun m kv => obj_insert kv.1 (Str kv.2) m) [] (btree_list String.compare metadata))).

(** The object of [encode_chat_request_with_dialect]. *)
Definition encode_chat_object (request : SemanticRequest) (dialect : ModelDialect) : Rep (list (string * Value)) :=
  let object := [("model", Str (rq_model request))] in
  let* messages := st_map_from (fun _ item => encode_input_item item) 0 (rq_input request) in
  let* _ := rep_when (list_is_empty messages) (fun r => unsupported_required r "input" "OpenAI Chat requires at least one message") in
  let object := obj_insert "messages" (Array messages) object in
  let* object := match rq_tools request with
                 | [] => st_ret object
                 | tools => let* tools := st_map_from (fun _ tool => encode_tool_definition tool) 0 tools in
                            st_ret (obj_insert "tools" (Array tools) object)
                 end in
  let object := insert_some "tool_choice" (encode_tool_choice <$> rq_tool_choice request) object in
  let* _ := rep_when (is_some (rq_target request))
              (fun r => drop_optional r "target" "routing target metadata is not part of an OpenAI Chat request") in
  let* _ := rep_when (is_some (rq_continuation_id request))
              (fun r => drop_optional r "continuation_id" "OpenAI Chat has no portable continuation field") in
  let* _ := rep_when (is_some (rq_session_id request))
              (fun r => drop_optional r "session_id" "OpenAI Chat has no portable session field") in
  let* object := encode_sampling (rq_sampling request) dialect object in
  let object := insert_some "response_format" (encode_response_format <$> rq_response_format request) object in
  let* object := encode_reasoning (rq_reasoning request) object in
  let object := insert_some "metadata" (encode_metadata (rq_metadata request)) object in
  let* _ := rep_when (is_some (rq_cache request)) (fun r => drop_optional r "cache" "OpenAI Chat has no portable prompt-cache control") in
  merge_unknown_fields (rq_extensions request) object.
Definition encode_chat_request_with_dialect (request : SemanticRequest) (policy : LossPolicy) (dialect : ModelDialect)
  : Result (bytes * ConversionReport) OpenAiChatError :=
  let? _ := map_err ChRequestValidation (request_validate request) in
  match encode_chat_object request dialect report_default with
  | (Err e, _) => Err e
  | (Ok object, report) =>
    let? _ := map_err ChConversion (report_validate report policy) in
    let? body := map_err ChInvalidJson (to_vec (Object object)) in
    Ok (body, report)
  end.
Definition encode_chat_request (request : SemanticRequest) (policy : LossPolicy) : Result (bytes * ConversionReport) OpenAiChatError :=
  encode_chat_request_with_dialect request policy DIALECT_DEFAULT.
End encode.

Example base64_ends : encode_base64 (bytes_of "Man") = "TWFu" /\ encode_base64 (bytes_of "Ma") = "TWE=" /\ encode_base64 (bytes_of "M") = "TQ==".
Proof. vm_compute. split_and!; reflexivity. Qed.
