(* ===== verification/OpenAiChatFacts.v ===== *)
(** The OpenAI Chat decoder emits well-formed semantic streams: what the validator of events.rs
    refuses does not come out of it, and a completed response has no block left open. *)
From stdpp Require Import pretty.
From S2P Require Import Prelude Str CoreError Bytes Json Extensions Events Codec SerdeModel OpenAiChat.

Open Scope N_scope.

(** * The validator follows the decoder *)

(** The blocks the decoder has open. *)
Definition chat_blocks (d : OpenAiChatEventDecoder) : list string :=
  (if cd_reasoning_open d then [REASONING_BLOCK_ID] else []) ++ (if cd_text_open d then [TEXT_BLOCK_ID] else [])
  ++ (map_to_list (cd_tools d)).*2.

(** The identifier of a tool call: not empty, and not one of the decoder's own. *)
Definition chat_tool_name (id : string) : Prop := str_is_empty id = false /\ id <> TEXT_BLOCK_ID /\ id <> REASONING_BLOCK_ID.

(** [extra] are blocks the validator has open and the decoder has forgotten. *)
Record follows (used extra : list string) (d : OpenAiChatEventDecoder) (v : StreamValidator) : Prop := {
  fl_sequence : forall p, sv_last_sequence v = Some p -> p <= cd_next_sequence d;
  fl_started : sv_response_started v = cd_response_started d;
  fl_terminal : sv_terminal v = cd_completed d;
  fl_open : sv_open_blocks v ≡ₚ extra ++ chat_blocks d;
  fl_tools : forall i id, cd_tools d !! i = Some id -> id ∈ used;
  fl_finish : is_some (cd_pending_finish d) = true -> chat_blocks d = [];
}.

Definition is_failure (e : StreamEvent) : bool := match ev_kind e with Failure _ => true | _ => false end.

(** From a state of [P], the events of a computation are accepted one after the other, and the
    state afterwards is of [Q]; [may_end] when it can end the stream. *)
Definition emits (P : OpenAiChatEventDecoder -> Prop) (may_end : bool) (m : ChatDec (list StreamEvent))
    (Q : OpenAiChatEventDecoder -> Prop) : Prop := forall d es d' used v,
  m d = (Ok es, d') -> P d -> cd_completed d = false -> follows used [] d v ->
  cd_next_sequence d + N.of_nat (length es) <= U64_MAX -> NoDup (used ++ tool_ids es) -> Forall chat_tool_name (used ++ tool_ids es) ->
  exists v', accept_all v es = Ok v' /\ follows (used ++ tool_ids es) [] d' v' /\ Q d'
    /\ cd_next_sequence d' = cd_next_sequence d + N.of_nat (length es)
    /\ (may_end = false -> cd_completed d' = false)
    /\ (cd_completed d' = true -> existsb is_failure es = false -> chat_blocks d' = []).

Lemma tool_ids_app es fs : tool_ids (es ++ fs) = tool_ids es ++ tool_ids fs.
Proof. unfold tool_ids. by rewrite map_app, concat_app. Qed.

Section rules.
Context (P Q R : OpenAiChatEventDecoder -> Prop) (b : bool).

Lemma emits_none : (forall d, P d -> Q d) -> emits P b chat_none Q.
Proof.
  intros HPQ d es d' used v [= <- <-] HP Hc Hf _ _ _. exists v. unfold tool_ids. simpl. rewrite app_nil_r, N.add_0_r.
  split_and!; auto. congruence.
Qed.

Lemma emits_then m n : emits P false m Q -> emits Q b n R -> emits P b (chat_then m n) R.
Proof.
  intros Hm Hn d es d' used v He HP Hc Hf Hb Hnd Hok. unfold chat_then, st_bind, st_ret in He.
  destruct (m d) as [[es1|] d1] eqn:E1; [|done]. destruct (n d1) as [[es2|] d2] eqn:E2; [|done]. injection He as <- <-.
  rewrite tool_ids_app, app_assoc in Hnd, Hok |- *. rewrite length_app in Hb |- *.
  destruct (Hm _ _ _ _ _ E1 HP Hc Hf) as (v1 & Ha1 & Hf1 & HQ & Hs1 & Hc1 & _);
    [lia|by apply NoDup_app in Hnd as (? & _)|by apply Forall_app in Hok as [? _]|].
  destruct (Hn _ _ _ _ _ E2 HQ (Hc1 eq_refl) Hf1) as (v2 & Ha2 & Hf2 & HR & Hs2 & Hc2 & Hd2); [lia|done..|].
  exists v2. rewrite accept_all_app, Ha1. split_and!; [done..|lia|done|]. intros Hcd. rewrite existsb_app, orb_false_iff. intros [_ ?]. auto.
Qed.

Lemma emits_when c m : (c = false -> forall d, P d -> Q d) -> (c = true -> emits P b m Q) -> emits P b (chat_when c m) Q.
Proof. destruct c; intros Hn Hm; [by apply Hm|apply emits_none; auto]. Qed.

(** A computation that looks, or checks, before it emits. *)
Lemma emits_lift {A} (r : Result A OpenAiChatError) k : (forall a, r = Ok a -> emits P b (k a) Q) -> emits P b (st_bind (st_lift r) k) Q.
Proof. intros Hk d es d' used v He. unfold st_bind, st_lift in He. destruct r as [a|]; [exact (Hk a eq_refl d es d' used v He)|done]. Qed.
Lemma emits_check (m : ChatDec unit) k :
  (forall d r d', m d = (r, d') -> d' = d) -> emits P b k Q -> emits P b (st_bind m (fun _ => k)) Q.
Proof.
  intros Hm Hk d es d' used v He. unfold st_bind in He. destruct (m d) as [[[]|] d1] eqn:E; [|done].
  apply Hm in E as ->. exact (Hk d es d' used v He).
Qed.
Lemma emits_get k : (forall d0, P d0 -> emits (fun d => d = d0) b (k d0) Q) -> emits P b (st_bind st_get k) Q.
Proof. intros Hk d es d' used v He HP. by eapply Hk. Qed.
Lemma emits_invalid message : emits P b (chat_invalid message) Q.
Proof. by intros d es d' used v. Qed.
End rules.

Lemma emits_weaken P P' b m Q : (forall d, P' d -> P d) -> emits P b m Q -> emits P' b m Q.
Proof. intros HP Hm d es d' used v He HP'. eapply Hm; eauto. Qed.

Lemma emits_may_end P m Q : emits P false m Q -> emits P true m Q.
Proof.
  intros Hm d es d' used v He HP Hc Hf Hb Hnd Hok.
  destruct (Hm _ _ _ _ _ He HP Hc Hf Hb Hnd Hok) as (v' & ? & ? & ? & ? & ? & ?). eauto 10.
Qed.
Lemma emits_strengthen P b m Q Q' : (forall d, Q d -> Q' d) -> emits P b m Q -> emits P b m Q'.
Proof.
  intros HQ Hm d es d' used v He HP Hc Hf Hb Hnd Hok.
  destruct (Hm _ _ _ _ _ He HP Hc Hf Hb Hnd Hok) as (v' & ? & ? & ? & ?). eauto 10.
Qed.

(** * One event *)

Section step.
Context (used extra : list string) (d : OpenAiChatEventDecoder) (v : StreamValidator).
Context (Hf : follows used extra d v) (Hc : cd_completed d = false) (Hb : cd_next_sequence d + 1 <= U64_MAX).

Lemma chat_step k id extra' d' open :
  (is_response_start k = true -> cd_response_started d = false) ->
  match block_action k with
  | Some a => apply_action (sv_open_blocks v) (MkStreamEvent (cd_next_sequence d + 1) id k []) a
  | None => Ok (sv_open_blocks v)
  end = Ok open ->
  cd_next_sequence d' = cd_next_sequence d + 1 -> cd_response_started d' = cd_response_started d || is_response_start k ->
  cd_completed d' = event_is_terminal k -> open ≡ₚ extra' ++ chat_blocks d' ->
  (forall i x, cd_tools d' !! i = Some x -> x ∈ used ++ started_tool k) ->
  (is_some (cd_pending_finish d') = true -> chat_blocks d' = []) ->
  exists v', accept v (MkStreamEvent (cd_next_sequence d + 1) id k []) = (Ok tt, v') /\ follows (used ++ started_tool k) extra' d' v'.
Proof.
  intros Hr Ho Hs Hst Hcd Hop Ht Hp. destruct Hf as [Fq Fs Ft Fo Ftl Ff].
  eexists. split; [apply (accept_ok _ _ open); simpl; [congruence| |by rewrite Fs|done]|].
  - intros p Hp'. specialize (Fq p Hp'). lia.
  - constructor; simpl; [intros p [= <-]; lia|by rewrite Hst, Fs|done..].
Qed.

Lemma chat_step_plain k id :
  block_action k = None -> is_response_start k = false -> event_is_terminal k = false ->
  exists v', accept v (MkStreamEvent (cd_next_sequence d + 1) id k []) = (Ok tt, v')
    /\ follows used extra (cd_set_sequence (cd_next_sequence d + 1) d) v'.
Proof.
  intros Ha Hr Ht. assert (started_tool k = []) as Hn by by destruct k.
  destruct (chat_step k id extra (cd_set_sequence (cd_next_sequence d + 1) d) (sv_open_blocks v)) as (v' & Hv & Hfv);
    rewrite ?Ha, ?Hr, ?Ht, ?Hn, ?app_nil_r, ?orb_false_r; try done; try apply Hf.
  exists v'. by rewrite Hn, app_nil_r in Hfv.
Qed.

(** A block of the decoder goes on. *)
Lemma chat_step_continue k id name :
  match block_action k with
  | Some a => apply_action (sv_open_blocks v) (MkStreamEvent (cd_next_sequence d + 1) id k []) a
  | None => Ok (sv_open_blocks v)
  end = continue_block (sv_open_blocks v) name ->
  started_tool k = [] -> is_response_start k = false -> event_is_terminal k = false -> name ∈ chat_blocks d ->
  exists v', accept v (MkStreamEvent (cd_next_sequence d + 1) id k []) = (Ok tt, v')
    /\ follows used extra (cd_set_sequence (cd_next_sequence d + 1) d) v'.
Proof.
  intros Ha Hn Hr Ht Hin. rewrite continue_block_open in Ha by (rewrite (fl_open _ _ _ _ Hf); apply elem_of_app; by right).
  destruct (chat_step k id extra (cd_set_sequence (cd_next_sequence d + 1) d) (sv_open_blocks v)) as (v' & Hv & Hfv);
    rewrite ?Hr, ?Ht, ?Hn, ?app_nil_r, ?orb_false_r; try done; try apply Hf.
  exists v'. by rewrite Hn, app_nil_r in Hfv.
Qed.

(** A block ends: the validator forgets it. *)
Lemma chat_step_end k id name extra' d' :
  match block_action k with
  | Some a => apply_action (sv_open_blocks v) (MkStreamEvent (cd_next_sequence d + 1) id k []) a
  | None => Ok (sv_open_blocks v)
  end = end_block (sv_open_blocks v) name ->
  started_tool k = [] -> is_response_start k = false -> event_is_terminal k = false ->
  extra ++ chat_blocks d ≡ₚ name :: extra' ++ chat_blocks d' ->
  cd_next_sequence d' = cd_next_sequence d + 1 -> cd_response_started d' = cd_response_started d -> cd_completed d' = false ->
  (forall i x, cd_tools d' !! i = Some x -> cd_tools d !! i = Some x) ->
  (is_some (cd_pending_finish d') = true -> chat_blocks d' = []) ->
  exists v', accept v (MkStreamEvent (cd_next_sequence d + 1) id k []) = (Ok tt, v') /\ follows used extra' d' v'.
Proof.
  intros Ha Hn Hr Ht Hp Hs Hst Hcd Htl Hpf.
  assert (Hin : name ∈ sv_open_blocks v) by (rewrite (fl_open _ _ _ _ Hf), Hp; by left).
  destruct (end_block_open _ _ Hin) as (x & Hx & Hend). rewrite Hend in Ha.
  assert (delete x (sv_open_blocks v) ≡ₚ extra' ++ chat_blocks d').
  { apply (Permutation_cons_inv (a := name)). rewrite <- Hp, <- (fl_open _ _ _ _ Hf). symmetry. by apply delete_Permutation. }
  destruct (chat_step k id extra' d' (delete x (sv_open_blocks v))) as (v' & Hv & Hfv);
    rewrite ?Hr, ?Ht, ?Hn, ?app_nil_r, ?orb_false_r; try done.
  - intros i y Hy%Htl. by apply (fl_tools _ _ _ _ Hf i).
  - exists v'. by rewrite Hn, app_nil_r in Hfv.
Qed.

(** A block starts: the validator did not have it. *)
Lemma chat_step_start k id name d' :
  match block_action k with
  | Some a => apply_action (sv_open_blocks v) (MkStreamEvent (cd_next_sequence d + 1) id k []) a
  | None => Ok (sv_open_blocks v)
  end = start_block (sv_open_blocks v) name ->
  is_response_start k = false -> event_is_terminal k = false -> str_is_empty name = false -> name ∉ extra ++ chat_blocks d ->
  chat_blocks d' ≡ₚ name :: chat_blocks d ->
  cd_next_sequence d' = cd_next_sequence d + 1 -> cd_response_started d' = cd_response_started d -> cd_completed d' = false ->
  (forall i x, cd_tools d' !! i = Some x -> x ∈ used ++ started_tool k) -> cd_pending_finish d' = None ->
  exists v', accept v (MkStreamEvent (cd_next_sequence d + 1) id k []) = (Ok tt, v') /\ follows (used ++ started_tool k) extra d' v'.
Proof.
  intros Ha Hr Ht He Hnew Hp Hs Hst Hcd Htl Hpf.
  rewrite start_block_fresh in Ha by (rewrite ?(fl_open _ _ _ _ Hf); done).
  apply (chat_step k id extra d' (sv_open_blocks v ++ [name])); rewrite ?Hr, ?Ht, ?orb_false_r; try done.
  - rewrite Hp, (fl_open _ _ _ _ Hf). solve_Permutation.
  - by rewrite Hpf.
Qed.
End step.

(** A computation that emits one event. *)
Lemma accepted_one used d d' v v' id k (may_end : bool) (Q : Prop) :
  accept v (MkStreamEvent (cd_next_sequence d + 1) id k []) = (Ok tt, v') -> follows (used ++ started_tool k) [] d' v' -> Q ->
  cd_next_sequence d' = cd_next_sequence d + 1 -> (may_end = false -> cd_completed d' = false) ->
  (cd_completed d' = true -> is_failure (MkStreamEvent 0 id k []) = false -> chat_blocks d' = []) ->
  let es := [MkStreamEvent (cd_next_sequence d + 1) id k []] in
  exists v', accept_all v es = Ok v' /\ follows (used ++ tool_ids es) [] d' v' /\ Q
    /\ cd_next_sequence d' = cd_next_sequence d + N.of_nat (length es)
    /\ (may_end = false -> cd_completed d' = false) /\ (cd_completed d' = true -> existsb is_failure es = false -> chat_blocks d' = []).
Proof.
  intros Ha Hf HQ Hs Hc Hd es. exists v'. unfold tool_ids. simpl. rewrite Ha, app_nil_r. split_and!; [done..|]. by rewrite orb_false_r.
Qed.

Lemma sat_next n : n + 1 <= U64_MAX -> sat_add U64_MAX n 1 = n + 1.
Proof. unfold sat_add. lia. Qed.

(** * The parts of a chunk *)

Definition unfinished (d : OpenAiChatEventDecoder) : Prop := cd_pending_finish d = None.
Ltac chat_unfold :=
  cbv [st_bind st_ret st_lift st_get st_modify chat_event chat_shape chat_none].

Lemma end_reasoning_emits P : (forall d n, P d -> P (cd_set_reasoning false (cd_set_sequence n d))) ->
  emits P false chat_end_reasoning (fun d => P d /\ cd_reasoning_open d = false).
Proof.
  intros Hp. apply emits_get. intros d0 HP. apply emits_when; [intros Hr ? ->; done|]. intros Hr d es d' used v He -> Hc Hf Hb _ _.
  revert He Hb. chat_unfold. intros [= <- <-] Hb. simpl in Hb. rewrite sat_next by done.
  destruct (chat_step_end used [] d0 v Hf Hc Hb (ReasoningEnd None) (Some REASONING_BLOCK_ID) REASONING_BLOCK_ID []
              (cd_set_reasoning false (cd_set_sequence (cd_next_sequence d0 + 1) d0))) as (v' & Hv & Hfv); try done.
  - unfold chat_blocks. simpl. by rewrite Hr.
  - intros Hpf. pose proof (fl_finish _ _ _ _ Hf Hpf) as Hn. unfold chat_blocks in Hn. by rewrite Hr in Hn.
  - eapply (accepted_one _ d0); [exact Hv|by rewrite app_nil_r|split; [by apply Hp|done]|done..|simpl; congruence].
Qed.

Lemma end_text_emits P : (forall d n, P d -> P (cd_set_text false (cd_set_sequence n d))) ->
  emits P false chat_end_text (fun d => P d /\ cd_text_open d = false).
Proof.
  intros Hp. apply emits_get. intros d0 HP. apply emits_when; [intros Hr ? ->; done|]. intros Hr d es d' used v He -> Hc Hf Hb _ _.
  revert He Hb. chat_unfold. intros [= <- <-] Hb. simpl in Hb. rewrite sat_next by done.
  destruct (chat_step_end used [] d0 v Hf Hc Hb TextEnd (Some TEXT_BLOCK_ID) TEXT_BLOCK_ID []
              (cd_set_text false (cd_set_sequence (cd_next_sequence d0 + 1) d0))) as (v' & Hv & Hfv); try done.
  - unfold chat_blocks. simpl. rewrite Hr. solve_Permutation.
  - intros Hpf. pose proof (fl_finish _ _ _ _ Hf Hpf) as Hn. unfold chat_blocks in Hn. rewrite Hr in Hn. by destruct (cd_reasoning_open d0).
  - eapply (accepted_one _ d0); [exact Hv|by rewrite app_nil_r|split; [by apply Hp|done]|done..|simpl; congruence].
Qed.

(** The decoder's own blocks are not tool calls. *)
Lemma not_a_tool used d v id :
  follows used [] d v -> Forall chat_tool_name used -> id = TEXT_BLOCK_ID \/ id = REASONING_BLOCK_ID -> id ∉ (map_to_list (cd_tools d)).*2.
Proof.
  intros Hf Hu Hid ([i x] & -> & Hin%elem_of_map_to_list)%list_elem_of_fmap. apply (fl_tools _ _ _ _ Hf) in Hin.
  rewrite Forall_forall in Hu. destruct (Hu _ Hin) as (_ & ? & ?). by destruct Hid.
Qed.

Lemma start_reasoning_emits d0 : unfinished d0 -> cd_reasoning_open d0 = false ->
  emits (fun d => d = d0) false
    (let* es := chat_event ReasoningStart (Some REASONING_BLOCK_ID) in let* _ := st_modify (cd_set_reasoning true) in st_ret es)
    (fun d => unfinished d /\ cd_reasoning_open d = true).
Proof.
  intros Hu Hr d es d' used v He -> Hc Hf Hb Hnd Hok.
  revert He Hb. chat_unfold. intros [= <- <-] Hb. simpl in Hb. rewrite sat_next by done. simpl in Hok. rewrite app_nil_r in Hok.
  destruct (chat_step_start used [] d0 v Hf Hc Hb ReasoningStart (Some REASONING_BLOCK_ID) REASONING_BLOCK_ID
              (cd_set_reasoning true (cd_set_sequence (cd_next_sequence d0 + 1) d0))) as (v' & Hv & Hfv); try done.
  - unfold chat_blocks. rewrite Hr. pose proof (not_a_tool _ _ _ REASONING_BLOCK_ID Hf Hok (or_intror eq_refl)) as Hn.
    destruct (cd_text_open d0); set_solver.
  - unfold chat_blocks. simpl. by rewrite Hr.
  - intros i x Hx. rewrite elem_of_app. left. by apply (fl_tools _ _ _ _ Hf i).
  - eapply (accepted_one _ d0); [exact Hv|exact Hfv|done..|simpl; congruence].
Qed.

Lemma start_text_emits d0 : unfinished d0 -> cd_text_open d0 = false ->
  emits (fun d => d = d0) false
    (let* es := chat_event TextStart (Some TEXT_BLOCK_ID) in let* _ := st_modify (cd_set_text true) in st_ret es)
    (fun d => unfinished d /\ cd_text_open d = true).
Proof.
  intros Hu Hr d es d' used v He -> Hc Hf Hb Hnd Hok.
  revert He Hb. chat_unfold. intros [= <- <-] Hb. simpl in Hb. rewrite sat_next by done. simpl in Hok. rewrite app_nil_r in Hok.
  destruct (chat_step_start used [] d0 v Hf Hc Hb TextStart (Some TEXT_BLOCK_ID) TEXT_BLOCK_ID
              (cd_set_text true (cd_set_sequence (cd_next_sequence d0 + 1) d0))) as (v' & Hv & Hfv); try done.
  - unfold chat_blocks. rewrite Hr. pose proof (not_a_tool _ _ _ TEXT_BLOCK_ID Hf Hok (or_introl eq_refl)) as Hn.
    destruct (cd_reasoning_open d0); set_solver.
  - unfold chat_blocks. simpl. rewrite Hr. simpl. solve_Permutation.
  - intros i x Hx. rewrite elem_of_app. left. by apply (fl_tools _ _ _ _ Hf i).
  - eapply (accepted_one _ d0); [exact Hv|exact Hfv|done..|simpl; congruence].
Qed.

(** A fragment of an open block, and an event of no block. *)
Lemma continue_emits (P : OpenAiChatEventDecoder -> Prop) k id :
  (forall d n, P d -> P (cd_set_sequence n d)) -> (forall d, P d -> id ∈ chat_blocks d) ->
  block_action k = Some BlockContinue \/ block_action k = Some (ContinueWithId id) ->
  emits P false (chat_event k (Some id)) P.
Proof.
  intros HP Hin Ha d es d' used v He Hd Hc Hf Hb Hnd Hok.
  revert He Hb. chat_unfold. intros [= <- <-] Hb. simpl in Hb. rewrite sat_next by done.
  assert (started_tool k = []) as Hn by (destruct Ha, k; done).
  edestruct (chat_step_continue used [] d v Hf Hc Hb k (Some id) id) as (v' & Hv & Hfv); [..|by apply Hin|];
    [|done|by destruct Ha, k|by destruct Ha, k|].
  - destruct Ha as [Ha|Ha]; by rewrite Ha.
  - eapply (accepted_one _ d); [exact Hv| |..]; rewrite ?Hn, ?app_nil_r; simpl; eauto. congruence.
Qed.
Lemma plain_emits (P : OpenAiChatEventDecoder -> Prop) k :
  (forall d n, P d -> P (cd_set_sequence n d)) -> block_action k = None -> is_response_start k = false -> event_is_terminal k = false ->
  emits P false (chat_event k None) P.
Proof.
  intros HP Ha Hr Ht d es d' used v He Hd Hc Hf Hb Hnd Hok.
  revert He Hb. chat_unfold. intros [= <- <-] Hb. simpl in Hb. rewrite sat_next by done.
  assert (started_tool k = []) as Hn by by destruct k.
  edestruct (chat_step_plain used [] d v Hf Hc Hb k None) as (v' & Hv & Hfv); [done..|].
  eapply (accepted_one _ d); [exact Hv| |..]; rewrite ?Hn, ?app_nil_r; simpl; eauto. congruence.
Qed.

Lemma reasoning_in_blocks d : cd_reasoning_open d = true -> REASONING_BLOCK_ID ∈ chat_blocks d.
Proof. intros Hr. unfold chat_blocks. rewrite Hr. set_solver. Qed.
Lemma text_in_blocks d : cd_text_open d = true -> TEXT_BLOCK_ID ∈ chat_blocks d.
Proof. intros Hr. unfold chat_blocks. rewrite Hr. set_solver. Qed.

Lemma reasoning_emits delta : emits unfinished false (chat_decode_reasoning delta) unfinished.
Proof.
  unfold chat_decode_reasoning. destruct (reasoning_field _ _) as [[field v]|]; [|by apply emits_none].
  apply emits_lift. intros reasoning _. apply emits_when; [done|]. intros _. apply emits_get. intros d0 Hu.
  apply (emits_then _ (fun d => unfinished d /\ cd_reasoning_open d = true)).
  - apply emits_when; [intros Hr ? ->; by apply negb_false_iff in Hr|]. intros Hr%negb_true_iff. by apply start_reasoning_emits.
  - eapply emits_strengthen; [|eapply continue_emits; [|intros d [_ Hr]; by apply reasoning_in_blocks|by left]]; [by intros d [? _]|done].
Qed.

Lemma content_emits delta : emits unfinished false (chat_decode_content delta) unfinished.
Proof.
  unfold chat_decode_content. case_match; [|by apply emits_none].
  apply emits_lift. intros content _. apply emits_when; [done|]. intros _.
  apply (emits_then _ (fun d => unfinished d /\ cd_reasoning_open d = false)); [by apply end_reasoning_emits|].
  apply emits_get. intros d0 [Hu _].
  apply (emits_then _ (fun d => unfinished d /\ cd_text_open d = true)).
  - apply emits_when; [intros Hr ? ->; by apply negb_false_iff in Hr|]. intros Hr%negb_true_iff. by apply start_text_emits.
  - eapply emits_strengthen; [|eapply continue_emits; [|intros d [_ Hr]; by apply text_in_blocks|by left]]; [by intros d [? _]|done].
Qed.

Lemma refusal_emits delta : emits unfinished false (chat_decode_refusal delta) unfinished.
Proof.
  unfold chat_decode_refusal. case_match; [|by apply emits_none]. apply emits_lift. intros refusal _.
  apply emits_when; [done|]. intros _. by apply plain_emits.
Qed.

(** ** Tool calls *)

Lemma emits_ext P b m n Q : (forall d, m d = n d) -> emits P b n Q -> emits P b m Q.
Proof. intros He Hn d es d' used v Hm. rewrite He in Hm. by eapply Hn. Qed.

Lemma tool_in_blocks d i id : cd_tools d !! i = Some id -> id ∈ chat_blocks d.
Proof.
  intros Hi. unfold chat_blocks. rewrite !elem_of_app, list_elem_of_fmap. right; right. exists (i, id). by rewrite elem_of_map_to_list.
Qed.

Lemma tool_delta_emits i id arguments :
  emits (fun d => unfinished d /\ cd_tools d !! i = Some id) false (chat_tool_delta id arguments) unfinished.
Proof.
  apply emits_when; [by intros _ d [? _]|]. intros _.
  eapply emits_strengthen; [|eapply continue_emits; [|intros d [_ Hi]; by eapply tool_in_blocks|by right]]; [by intros d [? _]|done].
Qed.

Lemma start_tool_emits d0 i id name : unfinished d0 -> cd_tools d0 !! i = None ->
  emits (fun d => d = d0) false
    (let* _ := st_modify (fun d => cd_set_tools (<[i := id]> (cd_tools d)) d) in chat_event (ToolCallStart id name) (Some id))
    (fun d => unfinished d /\ cd_tools d !! i = Some id).
Proof.
  intros Hu Hi d es d' used v He -> Hc Hf Hb Hnd Hok.
  revert He Hb. chat_unfold. simpl. intros [= <- <-] Hb. simpl in Hb. rewrite sat_next by done.
  unfold tool_ids in Hnd, Hok. simpl in Hnd, Hok. apply Forall_app in Hok as [Hused [(Hne & Ht & Hr) _]%Forall_cons].
  apply NoDup_app in Hnd as (_ & Hnew & _).
  assert (Hmap : (map_to_list (<[i := id]> (cd_tools d0))).*2 ≡ₚ id :: (map_to_list (cd_tools d0)).*2) by by rewrite map_to_list_insert.
  destruct (chat_step_start used [] d0 v Hf Hc Hb (ToolCallStart id name) (Some id) id
              (cd_set_sequence (cd_next_sequence d0 + 1) (cd_set_tools (<[i := id]> (cd_tools d0)) d0))) as (v' & Hv & Hfv); try done.
  - unfold chat_blocks. simpl. rewrite !elem_of_app, list_elem_of_fmap. intros [Hx|[Hx|([j x] & -> & Hj%elem_of_map_to_list)]].
    + destruct (cd_reasoning_open d0); [by apply list_elem_of_singleton in Hx|by apply elem_of_nil in Hx].
    + destruct (cd_text_open d0); [by apply list_elem_of_singleton in Hx|by apply elem_of_nil in Hx].
    + apply (Hnew x); [by apply (fl_tools _ _ _ _ Hf j)|by left].
  - unfold chat_blocks. simpl. rewrite Hmap. solve_Permutation.
  - simpl. intros j x. rewrite elem_of_app, list_elem_of_singleton. intros [[_ ->]|[_ Hj]]%lookup_insert_Some; [by right|left].
    by apply (fl_tools _ _ _ _ Hf j).
  - eapply (accepted_one _ d0); [exact Hv|exact Hfv|simpl; split; [done|by rewrite lookup_insert_eq]|done..|simpl; congruence].
Qed.

Lemma tool_call_emits position value : emits unfinished false (chat_decode_tool_call position value) unfinished.
Proof.
  unfold chat_decode_tool_call. apply emits_lift. intros object _. apply emits_lift. intros function _.
  apply emits_check; [intros d r d'; case_match; by intros [= _ <-]|].
  assert (Hargs : forall arguments, emits unfinished false
    (let* d := st_get in
     let index := default position (obj_get "index" object ≫= as_u64) in
     match cd_tools d !! index with
     | None =>
       let* id := st_lift (ok_or (obj_get "id" object ≫= as_string)
                    (ChInvalidStream ("tool call " +:+ pretty index +:+ " started without an ID"))) in
       let* name := st_lift (ok_or (obj_get "name" function ≫= as_string)
                      (ChInvalidStream ("tool call " +:+ pretty index +:+ " started without a name"))) in
       let* _ := st_modify (fun d => cd_set_tools (<[index := id]> (cd_tools d)) d) in
       chat_then (chat_event (ToolCallStart id name) (Some id)) (chat_tool_delta id arguments)
     | Some existing_id =>
       if is_some (opt_filter (obj_get "id" object ≫= as_string) (fun id => negb (String.eqb id existing_id)))
       then chat_invalid ("tool call " +:+ pretty index +:+ " changed IDs")
       else chat_tool_delta existing_id arguments
     end) unfinished).
  { intros arguments. apply emits_get. intros d0 Hu. cbv zeta. generalize (default position (obj_get "index" object ≫= as_u64)) as i. intros i.
    destruct (cd_tools d0 !! i) as [existing|] eqn:Ei.
    - case_match; [apply emits_invalid|]. eapply emits_weaken; [|apply (tool_delta_emits i)]. by intros d ->.
    - apply emits_lift. intros id _. apply emits_lift. intros name _.
      eapply emits_ext; [|eapply emits_then; [by apply (start_tool_emits d0 i id name)|apply tool_delta_emits]]. done. }
  destruct (obj_get "arguments" function) as [v|]; [apply emits_lift; intros arguments _; apply Hargs|apply (Hargs EmptyString)].
Qed.

Lemma tool_calls_emits value : emits unfinished false (chat_decode_tool_calls value) unfinished.
Proof.
  destruct value as [| | | |calls|]; try by intros d es d' used v. simpl. generalize 0 as position.
  induction calls as [|value calls IH]; intros position; simpl; [by apply emits_none|].
  eapply emits_then; [apply tool_call_emits|apply IH].
Qed.

(** ** The end of the choice *)

(** The ends of the tool calls the decoder has forgotten. *)
Lemma end_tools_accepted tools : forall d es d' used v,
  chat_end_tools tools d = (Ok es, d') -> cd_completed d = false -> follows used tools.*2 d v ->
  cd_next_sequence d + N.of_nat (length es) <= U64_MAX ->
  exists v', accept_all v es = Ok v' /\ follows used [] d' v' /\ tool_ids es = []
    /\ d' = cd_set_sequence (cd_next_sequence d + N.of_nat (length es)) d.
Proof.
  induction tools as [|[i id] tools IH]; intros d es d' used v He Hc Hf Hb.
  { injection He as <- <-. exists v. split_and!; [done..|]. simpl. rewrite N.add_0_r. by destruct d. }
  simpl in He. unfold chat_then, st_bind, chat_event, st_ret in He.
  destruct (chat_end_tools tools _) as [[es1|] d1] eqn:E1; [|done]. injection He as <- <-.
  rewrite length_cons in Hb. rewrite sat_next in E1 |- * by lia.
  edestruct (chat_step_end used ((i, id) :: tools).*2 d v Hf Hc) as (v1 & Hv1 & Hf1).
  12: { destruct (IH _ _ _ used v1 E1) as (v' & Ha & Hf' & Ht & ->); [done|exact Hf1|simpl; lia|].
        exists v'. cbn [accept_all app]. rewrite Hv1. split_and!; [done..|]. simpl. unfold cd_set_sequence. simpl. f_equal. lia. }
  all: try done; try lia. apply (fl_finish _ _ _ _ Hf).
Qed.

Lemma close_blocks_emits : emits unfinished false chat_close_blocks (fun d => unfinished d /\ chat_blocks d = []).
Proof.
  eapply emits_then; [by apply end_reasoning_emits|]. eapply emits_then; [by apply end_text_emits|].
  intros d es d' used v He [[Hu Hr] Ht] Hc Hf Hb _ _. unfold st_bind, st_get, st_modify in He.
  assert (Hp : (btree_list N.compare (cd_tools d)).*2 ≡ₚ chat_blocks d).
  { unfold chat_blocks. rewrite Hr, Ht. simpl. unfold btree_list. by rewrite sort_by_perm. }
  destruct (end_tools_accepted _ _ _ _ used v He) as (v' & Ha & Hf' & -> & ->); [done| |done|].
  - destruct Hf as [Fq Fs Ft Fo Ftl Ff]. constructor; try done.
    + rewrite Fo, Hp. unfold chat_blocks at 3. simpl. by rewrite Hr, Ht, map_to_list_empty, app_nil_r.
    + unfold unfinished in Hu. simpl. by rewrite Hu.
  - assert (chat_blocks (cd_set_sequence (cd_next_sequence (cd_set_tools ∅ d) + N.of_nat (length es)) (cd_set_tools ∅ d)) = []).
    { unfold chat_blocks. simpl. by rewrite Hr, Ht, map_to_list_empty. }
    exists v'. rewrite app_nil_r. by split_and!.
Qed.

Lemma finish_emits object : emits unfinished false (chat_decode_finish object) (fun _ => True).
Proof.
  unfold chat_decode_finish. case_match; [|by apply emits_none]. apply emits_lift. intros reason _.
  apply emits_get. intros d0 Hu. case_match; [apply emits_invalid|]. intros d es d' used w He -> Hc Hf Hb Hnd Hok.
  unfold st_bind, st_modify, st_ret in He. destruct (chat_close_blocks d0) as [[es1|] d1] eqn:E1; [|done]. injection He as <- <-.
  destruct (close_blocks_emits _ _ _ _ _ E1 Hu Hc Hf Hb Hnd Hok) as (v' & Ha & [] & [_ Hn] & Hs & Hcd & _).
  exists v'. split_and!; [done| |done..]. by constructor.
Qed.

Lemma choice_emits value : emits unfinished false (chat_decode_choice value) (fun _ => True).
Proof.
  unfold chat_decode_choice. apply emits_lift. intros object _.
  apply emits_check; [intros d r d'; unfold chat_check_index; chat_unfold; repeat case_match; by intros [= _ <-]|].
  apply emits_lift. intros delta _.
  apply emits_check; [intros d r d'; unfold chat_check_role; chat_unfold; repeat case_match; by intros [= _ <-]|].
  repeat (eapply emits_then; [eauto using reasoning_emits, content_emits, refusal_emits|]).
  - destruct (obj_get "tool_calls" delta); [apply tool_calls_emits|by apply emits_none].
  - apply finish_emits.
Qed.

(** * A chunk *)

Lemma begin_response_emits P : (forall d n, P d -> P (cd_set_started (cd_set_sequence n d))) -> emits P false chat_begin_response P.
Proof.
  intros Hp. apply emits_get. intros d0 HP. apply emits_when; [by intros _ ? ->|]. intros Hr%negb_true_iff d es d' used v He -> Hc Hf Hb Hnd Hok.
  revert He Hb. chat_unfold. intros [= <- <-] Hb. simpl in Hb. rewrite sat_next by done.
  destruct (chat_step used [] d0 v Hf Hc Hb (ResponseStart (cd_response_id d0) (cd_model d0)) None []
              (cd_set_started (cd_set_sequence (cd_next_sequence d0 + 1) d0)) (sv_open_blocks v)) as (v' & Hv & Hfv); try done.
  - simpl. by rewrite orb_true_r.
  - apply Hf.
  - intros i x Hx. rewrite elem_of_app. left. by apply (fl_tools _ _ _ _ Hf i).
  - apply (fl_finish _ _ _ _ Hf).
  - eapply (accepted_one _ d0); [exact Hv|exact Hfv|by apply Hp|done..|simpl; congruence].
Qed.

(** The event that ends the stream. *)
Lemma terminal_emits (P : OpenAiChatEventDecoder -> Prop) k f :
  event_is_terminal k = true ->
  (forall d, P d -> cd_next_sequence (f d) = cd_next_sequence d /\ cd_response_started (f d) = cd_response_started d
     /\ cd_completed (f d) = true /\ chat_blocks (f d) = chat_blocks d /\ cd_tools (f d) = cd_tools d
     /\ (is_some (cd_pending_finish (f d)) = true -> is_some (cd_pending_finish d) = true)) ->
  ((exists e, k = Failure e) \/ forall d, P d -> is_some (cd_pending_finish d) = true) ->
  emits P true (let* _ := st_modify f in chat_event k None) (fun _ => True).
Proof.
  intros Hk Hf' Hwhy d es d' used v He HP Hc Hf Hb Hnd Hok. destruct (Hf' d HP) as (Hs & Hst & Hcd & Hbl & Htl & Hpf).
  revert He Hb. chat_unfold. rewrite Hs. intros [= <- <-] Hb. simpl in Hb. rewrite sat_next by done.
  assert (Hn : block_action k = None /\ is_response_start k = false /\ started_tool k = []) by by destruct k. destruct Hn as (Hn & Hr & Hto).
  destruct (chat_step used [] d v Hf Hc Hb k None [] (cd_set_sequence (cd_next_sequence d + 1) (f d)) (sv_open_blocks v)) as (v' & Hv & Hfv);
    rewrite ?Hn, ?Hr, ?Hto, ?orb_false_r, ?app_nil_r; try done.
  - simpl. congruence.
  - transitivity (chat_blocks d); [apply Hf|]. by rewrite <- Hbl.
  - simpl. rewrite Htl. apply (fl_tools _ _ _ _ Hf).
  - intros Hx. transitivity (chat_blocks (f d)); [done|]. rewrite Hbl. by apply (fl_finish _ _ _ _ Hf), Hpf.
  - eapply (accepted_one _ d); [exact Hv|exact Hfv|done..|]. intros _ Hnf. transitivity (chat_blocks (f d)); [done|]. rewrite Hbl.
    destruct Hwhy as [[e ->]|Hwhy]; [done|]. by apply (fl_finish _ _ _ _ Hf), Hwhy.
Qed.

Lemma complete_pending_emits : emits (fun d => is_some (cd_pending_finish d) = true) true chat_complete_pending (fun _ => True).
Proof.
  apply emits_get. intros d0 Hp. destruct (cd_pending_finish d0) as [reason|] eqn:Er; [|done].
  apply terminal_emits; [done|by intros d ->|right; intros d ->]. by rewrite Er.
Qed.

Lemma error_emits value : emits (fun _ => True) true (chat_decode_error value) (fun _ => True).
Proof.
  apply emits_lift. intros object _. apply emits_lift. intros message _. apply terminal_emits; [done|done|left; eauto].
Qed.

(** What the validator can see of the decoder. *)
Definition view (d : OpenAiChatEventDecoder) :=
  (cd_next_sequence d, cd_response_started d, cd_completed d, cd_reasoning_open d, cd_text_open d, cd_tools d, cd_pending_finish d).
Lemma emits_silent (P P' : OpenAiChatEventDecoder -> Prop) b (m : ChatDec unit) k Q :
  (forall d r d', m d = (r, d') -> view d' = view d) -> (forall d d', view d' = view d -> P d -> P' d') ->
  emits P' b k Q -> emits P b (st_bind m (fun _ => k)) Q.
Proof.
  intros Hm HP Hk d es d' used v He Hd Hc Hf Hb Hnd Hok. unfold st_bind in He. destruct (m d) as [[[]|] d1] eqn:E; [|done].
  apply Hm in E. specialize (HP d d1 E Hd). injection E as Eq Es Ec Er Et Etl Ep. rewrite <- Eq in Hb |- *.
  eapply Hk; [done|done|congruence| |done|done|done]. destruct Hf as [Fq Fs Ft Fo Ftl Ff].
  assert (chat_blocks d1 = chat_blocks d) as Hbl by (unfold chat_blocks; by rewrite Er, Et, Etl).
  by constructor; rewrite ?Eq, ?Es, ?Ec, ?Etl, ?Ep, ?Hbl.
Qed.

Lemma record_usage_emits usage : emits (fun _ => True) true (chat_record_usage usage) (fun _ => True).
Proof.
  destruct usage as [usage|]; [|by apply emits_none].
  apply (emits_silent _ (fun _ => True)); [by intros d r d' [= _ <-]|done|]. apply emits_get. intros d0 _.
  case_match; [eapply emits_weaken; [|apply complete_pending_emits]; by intros d ->|].
  eapply emits_weaken; [|eapply emits_may_end, plain_emits]; done.
Qed.

Section chunks.
Context `{SerdeJson}.

Lemma learn_id_silent id d r d' : chat_learn_id id d = (r, d') -> view d' = view d.
Proof. unfold chat_learn_id. chat_unfold. repeat case_match; by intros [= _ <-]. Qed.
Lemma learn_model_silent model d r d' : chat_learn_model model d = (r, d') -> view d' = view d.
Proof. unfold chat_learn_model. chat_unfold. repeat case_match; by intros [= _ <-]. Qed.

Lemma object_emits object : emits (fun _ => True) true (chat_decode_object object) (fun _ => True).
Proof.
  apply emits_lift. intros id _. apply emits_lift. intros model _.
  apply (emits_silent _ (fun _ => True)); [apply learn_id_silent|done|].
  apply (emits_silent _ (fun _ => True)); [apply learn_model_silent|done|].
  eapply emits_then; [by apply begin_response_emits|]. eapply emits_then.
  { instantiate (1 := fun _ => True). unfold chat_fingerprint. case_match; [by apply plain_emits|by apply emits_none]. }
  apply emits_lift. intros usage _. apply emits_lift. intros choices _. apply emits_get. intros d0 _.
  case_match; [apply emits_invalid|]. case_match eqn:Ef; [apply emits_invalid|].
  eapply emits_then; [|apply record_usage_emits]. destruct choices as [|choice rest]; [by apply emits_none|].
  eapply emits_weaken; [|apply choice_emits]. intros d ->. unfold unfinished. by destruct (cd_pending_finish d0).
Qed.

Lemma data_emits data : emits (fun _ => True) true (chat_decode_data data) (fun _ => True).
Proof.
  unfold chat_decode_data. case_match.
  - apply emits_get. intros d0 _. case_match; [by apply emits_none|]. case_match eqn:Ef; [apply emits_invalid|].
    eapply emits_weaken; [|apply complete_pending_emits]. intros d ->. by destruct (cd_pending_finish d0).
  - apply emits_get. intros d0 _. case_match; [apply emits_invalid|]. apply emits_lift. intros value _. apply emits_lift. intros object _.
    case_match; (eapply emits_weaken; [|first [apply error_emits|apply object_emits]]; done).
Qed.

(** The events a stream of payloads is decoded to, up to the first that is refused, and the
    decoder before it. *)
Fixpoint chat_decode_until (payloads : list bytes) (d : OpenAiChatEventDecoder) : list StreamEvent * OpenAiChatEventDecoder :=
  match payloads with
  | [] => ([], d)
  | data :: payloads =>
    match chat_decode_data data d with
    | (Ok es, d') => let '(more, d'') := chat_decode_until payloads d' in (es ++ more, d'')
    | (Err _, _) => ([], d)
    end
  end.

(** After the end only the sentinel is accepted, and it says nothing. *)
Lemma completed_silent data d es d' : cd_completed d = true -> chat_decode_data data d = (Ok es, d') -> es = [] /\ d' = d.
Proof.
  intros Hc. unfold chat_decode_data. case_match; unfold chat_finish, chat_decode_chunk; chat_unfold; rewrite Hc; [by intros [= <- <-]|done].
Qed.

Lemma decode_until_follows payloads : forall d events d' used v,
  chat_decode_until payloads d = (events, d') -> follows used [] d v ->
  cd_next_sequence d + N.of_nat (length events) <= U64_MAX ->
  NoDup (used ++ tool_ids events) -> Forall chat_tool_name (used ++ tool_ids events) ->
  exists v', accept_all v events = Ok v' /\ follows (used ++ tool_ids events) [] d' v'
    /\ (cd_completed d = false -> cd_completed d' = true -> existsb is_failure events = false -> chat_blocks d' = []).
Proof.
  induction payloads as [|data payloads IH]; intros d events d' used v He Hf Hb Hnd Hok; simpl in He.
  { injection He as <- <-. exists v. unfold tool_ids. simpl. rewrite app_nil_r. split_and!; [done..|congruence]. }
  destruct (chat_decode_data data d) as [[es|] d1] eqn:E1.
  2: { injection He as <- <-. exists v. unfold tool_ids. simpl. rewrite app_nil_r. split_and!; [done..|congruence]. }
  destruct (chat_decode_until payloads d1) as [more d2] eqn:E2. injection He as <- <-.
  destruct (cd_completed d) eqn:Hc.
  { apply completed_silent in E1 as [-> ->]; [|done]. destruct (IH _ _ _ _ _ E2 Hf Hb Hnd Hok) as (v' & Ha & Hf' & _). by exists v'. }
  rewrite tool_ids_app, app_assoc in Hnd, Hok |- *. rewrite length_app in Hb.
  destruct (data_emits data _ _ _ _ _ E1 I Hc Hf) as (v1 & Ha1 & Hf1 & _ & Hs1 & _ & Hd1);
    [lia|by apply NoDup_app in Hnd as (? & _)|by apply Forall_app in Hok as [? _]|].
  destruct (IH _ _ _ _ _ E2 Hf1) as (v2 & Ha2 & Hf2 & Hd2); [lia|done..|].
  exists v2. rewrite accept_all_app, Ha1, existsb_app. split_and!; [done..|]. intros _ Hcd [Hn1 Hn2]%orb_false_iff.
  destruct (cd_completed d1) eqn:Hc1; [|by apply Hd2].
  assert (d2 = d1) as ->; [|by apply Hd1]. clear -E2 Hc1. revert E2. revert more. induction payloads as [|data' payloads IH]; intros more; simpl; [by intros [= _ <-]|].
  destruct (chat_decode_data data' d1) as [[es|] d3] eqn:E; [|by intros [= _ <-]]. apply completed_silent in E as [-> ->]; [|done].
  destruct (chat_decode_until payloads d1) as [m d4] eqn:E4. intros [= _ <-]. by eapply IH.
Qed.

(** [C28] The OpenAI Chat decoder emits well-formed streams: whatever payloads the provider
    sends, as long as it gives every tool call a name of its own, all events of the stream pass
    the stream validator (increasing numbers, one response start, deltas and ends only for open
    blocks, no block opened twice, nothing after the end); the validator has seen the end
    exactly when the decoder has; the blocks it knows to be open are those the decoder has; and
    a response that ended without a failure has none. *)
Theorem chat_decoder_stream_valid payloads events d :
  chat_decode_until payloads chat_decoder_new = (events, d) ->
  NoDup (tool_ids events) -> Forall chat_tool_name (tool_ids events) -> N.of_nat (length events) <= U64_MAX ->
  exists v, accept_all validator_default events = Ok v /\ sv_terminal v = cd_completed d
    /\ sv_open_blocks v ≡ₚ chat_blocks d
    /\ (sv_terminal v = true -> existsb is_failure events = false -> is_drained v = true).
Proof.
  intros He Hnd Hok Hb.
  destruct (decode_until_follows payloads _ _ _ [] validator_default He) as (v & Ha & Hf & Hd); [|done..|].
  - constructor; try done.
  - exists v. split_and!; [done|apply Hf|apply Hf|]. intros Ht Hn. unfold is_drained.
    assert (sv_open_blocks v ≡ₚ []) as Hp.
    { rewrite (fl_open _ _ _ _ Hf). simpl. rewrite Hd; [done|done| |done]. by rewrite <- (fl_terminal _ _ _ _ Hf). }
    by apply Permutation_nil_r in Hp as ->.
Qed.
End chunks.

(** A provider that streams reasoning, a text and a tool call. *)
Definition chat_payload (v : Value) : bytes := match @to_vec bits_json v with Ok b => b | Err _ => [] end.
Definition chat_delta (delta : list (string * Value)) (reason : Value) : Value :=
  json_object [("id", Str "chatcmpl-1"); ("choices", Array [json_object [("index", number 0); ("delta", json_object delta); ("finish_reason", reason)]])].
Definition chat_example : list bytes :=
  map chat_payload
    [chat_delta [("role", Str "assistant"); ("content", Str "")] Null;
     chat_delta [("reasoning", Str "let me look")] Null;
     chat_delta [("content", Str "hello"); ("refusal", Null)] Null;
     chat_delta [("tool_calls", Array [json_object [("index", number 0); ("id", Str "call-1"); ("type", Str "function");
        ("function", json_object [("name", Str "lookup"); ("arguments", Str "")])]])] Null;
     chat_delta [("tool_calls", Array [json_object [("index", number 0); ("function", json_object [("arguments", Str "{}")])]])] Null;
     chat_delta [] (Str "tool_calls");
     json_object [("id", Str "chatcmpl-1"); ("choices", Array []); ("usage", json_object [("prompt_tokens", number 9); ("completion_tokens", number 4)])]]
  ++ [DONE].
Definition chat_example_decoded := @chat_decode_until bits_json chat_example chat_decoder_new.

(** Eleven events; the last completes the response, and every block is closed. *)
Lemma chat_decoder_stream_valid_witness :
  length chat_example_decoded.1 = 11%nat
  /\ exists v, accept_all validator_default chat_example_decoded.1 = Ok v /\ sv_terminal v = true /\ is_drained v = true.
Proof.
  split; [vm_compute; reflexivity|].
  destruct (@chat_decoder_stream_valid bits_json chat_example chat_example_decoded.1 chat_example_decoded.2) as (v & Ha & Ht & _ & Hd).
  - unfold chat_example_decoded. by destruct (chat_decode_until _ _).
  - apply (bool_decide_unpack _). vm_compute. exact I.
  - vm_compute. repeat constructor; discriminate.
  - vm_compute. discriminate.
  - assert (sv_terminal v = true) as Hv by (rewrite Ht; vm_compute; reflexivity).
    exists v. split; [exact Ha|]. split; [exact Hv|]. apply Hd; [exact Hv|]. vm_compute. reflexivity.
Defined.

(** Two calls of one name are two starts of one block, which the validator refuses. *)
Example repeated_tool_refused :
  let call i := json_object [("index", number i); ("id", Str "call-1"); ("function", json_object [("name", Str "lookup")])] in
  let events := (@chat_decode_until bits_json [chat_payload (chat_delta [("tool_calls", Array [call 0; call 1])] Null)] chat_decoder_new).1 in
  length events = 3%nat /\ accept_all validator_default events = Err (DuplicateBlock "call-1").
Proof. vm_compute. split; reflexivity. Qed.
