(* ===== verification/OpenAiChatRoundtrip.v ===== *)
(** The OpenAI Chat encoder and decoder composed: what a client understands of the chunks the
    gateway writes. *)
From stdpp Require Import pretty.
From S2P Require Import Prelude Str CoreError Bytes Json JsonFacts Extensions Events Redact RedactWriter Codec SerdeModel OpenAiChat OpenAiChatFacts.

Open Scope N_scope.

(** * What a stream says *)

(** The text, the refusal, the tool calls (identifier, name and arguments) in the order they
    are started, the last usage, and how the response ended: with a reason, or with the code
    and the message of an error. *)
Record Transcript := MkTranscript {
  ts_identity : option (string * string); ts_text : string; ts_refusal : string; ts_tools : list (string * string * string);
  ts_usage : option Usage; ts_end : option (FinishReason + string * string) }.
Definition transcript_new : Transcript := MkTranscript None "" "" [] None None.
Definition add_arguments (id arguments : string) (tool : string * string * string) : string * string * string :=
  if String.eqb tool.1.1 id then (tool.1, tool.2 +:+ arguments) else tool.
Definition say (t : Transcript) (k : StreamEventKind) : Transcript :=
  let 'MkTranscript i x r l u e := t in
  match k with
  | ResponseStart id model => MkTranscript (Some (default DEFAULT_RESPONSE_ID id, default "" model)) x r l u e
  | TextDelta text => MkTranscript i (x +:+ text) r l u e
  | Refusal text => MkTranscript i x (r +:+ text) l u e
  | ToolCallStart id name => MkTranscript i x r (l ++ [(id, name, "")]) u e
  | ToolCallDelta id arguments => MkTranscript i x r (map (add_arguments id arguments) l) u e
  | UsageEvent usage => MkTranscript i x r l (Some usage) e
  | Completion reason usage => MkTranscript i x r l (or_else usage u) (Some (inl reason))
  | Failure error => MkTranscript i x r l u (Some (inr (se_code error, se_message error)))
  | _ => t
  end.
Definition say_all (t : Transcript) (es : list StreamEvent) : Transcript := foldl say t (map ev_kind es).

(** What the dialect keeps of a usage and of a reason to finish. *)
Definition usage_said (u : Usage) : Usage :=
  MkUsage (input_tokens u) (output_tokens u) (reasoning_tokens u) (cached_input_tokens u)
    (Some (default (sat_add U64_MAX (input_tokens u) (output_tokens u)) (total_tokens u))) ∅.
Definition reason_said (r : FinishReason) : FinishReason := chat_parse_finish_reason (chat_encode_finish_reason r).
Definition end_said (e : FinishReason + string * string) : FinishReason + string * string :=
  match e with inl r => inl (reason_said r) | inr x => inr x end.
Definition said (t : Transcript) : Transcript :=
  MkTranscript (ts_identity t) (ts_text t) (ts_refusal t) (ts_tools t) (usage_said <$> ts_usage t) (end_said <$> ts_end t).

Lemma str_empty s : str_is_empty s = true -> s = "".
Proof. by destruct s. Qed.
Lemma say_all_app t es fs : say_all t (es ++ fs) = say_all (say_all t es) fs.
Proof. unfold say_all. by rewrite map_app, foldl_app. Qed.

(** Saying nothing. *)
Lemma say_empty_text t : say t (TextDelta "") = t.
Proof. destruct t. simpl. by rewrite str_app_nil_r. Qed.
Lemma say_empty_refusal t : say t (Refusal "") = t.
Proof. destruct t. simpl. by rewrite str_app_nil_r. Qed.
Lemma say_no_arguments t id : say t (ToolCallDelta id "") = t.
Proof.
  destruct t as [i x r l u e]. simpl. f_equal. induction l as [|[[a b] c] l IH]; [done|]. simpl. rewrite IH. f_equal.
  unfold add_arguments. simpl. by destruct (String.eqb a id); rewrite ?str_app_nil_r.
Qed.

(** * One chunk, in a response that has started *)

(** The decoder of a response of identity [i] and model [m]. *)
Definition running (n : N) (i m : string) (text : bool) (tools : gmap N string) (u : option Usage) : OpenAiChatEventDecoder :=
  MkChatDecoder n (Some i) (Some m) true text false tools None u false.

(** The object [v] is decoded to events that say [k], and leaves the decoder as [d']. *)
Definition understood (object : list (string * Value)) (d : OpenAiChatEventDecoder) (k : StreamEventKind) (d' : OpenAiChatEventDecoder) : Prop :=
  exists es, chat_decode_object object d = (Ok es, d') /\ forall t, say_all t es = say t k.

Definition base (i m : string) : list (string * Value) :=
  json_members [("id", Str i); ("object", Str "chat.completion.chunk"); ("created", number 0); ("model", Str m)].
Definition with_choice (i m : string) (delta reason : Value) : list (string * Value) :=
  obj_insert "choices" (Array [chat_choice delta reason]) (base i m).

(** The computation whose events are all there are. *)
Lemma then_first m d : chat_then m chat_none d = m d.
Proof. cbv [chat_then chat_none st_bind st_ret]. destruct (m d) as [[es|] d']; [|done]. by rewrite app_nil_r. Qed.

(** The parts of a chunk that has only one. *)
Lemma choice_reads delta d : obj_get "role" delta = None -> chat_decode_choice (chat_choice (Object delta) Null) d
  = chat_then (chat_decode_reasoning delta)
      (chat_then (chat_decode_content delta)
         (chat_then (chat_decode_refusal delta)
            (match obj_get "tool_calls" delta with Some v => chat_decode_tool_calls v | None => chat_none end))) d.
Proof.
  intros Hr. transitivity (chat_then (chat_decode_reasoning delta)
      (chat_then (chat_decode_content delta)
         (chat_then (chat_decode_refusal delta)
            (chat_then (match obj_get "tool_calls" delta with Some v => chat_decode_tool_calls v | None => chat_none end) chat_none))) d).
  - unfold chat_decode_choice. cbv [st_bind chat_shape st_lift ok_or chat_check_role]. simpl. rewrite Hr. done.
  - cbv [chat_then st_bind]. destruct (chat_decode_reasoning delta d) as [[es1|] d1]; [|done].
    destruct (chat_decode_content delta d1) as [[es2|] d2]; [|done]. destruct (chat_decode_refusal delta d2) as [[es3|] d3]; [|done].
    destruct (match obj_get "tool_calls" delta with Some v => chat_decode_tool_calls v | None => chat_none end d3) as [[es4|] d4]; [|done].
    cbv [chat_none st_ret]. by rewrite app_nil_r.
Qed.

Lemma tool_call_reads object function index arguments position d :
  obj_get "index" object = Some (number index) -> obj_get "function" object = Some (Object function) ->
  (obj_get "type" object = None \/ obj_get "type" object = Some (Str "function")) ->
  (obj_get "arguments" function = None /\ arguments = EmptyString \/ obj_get "arguments" function = Some (Str arguments)) ->
  chat_decode_tool_call position (Object object) d
  = match cd_tools d !! index with
    | None =>
      let* id := st_lift (ok_or (obj_get "id" object ≫= as_string)
                   (ChInvalidStream ("tool call " +:+ pretty index +:+ " started without an ID"))) in
      let* name := st_lift (ok_or (obj_get "name" function ≫= as_string)
                     (ChInvalidStream ("tool call " +:+ pretty index +:+ " started without a name"))) in
      let* _ := st_modify (fun d => cd_set_tools (<[index := id]> (cd_tools d)) d) in
      chat_then (chat_event (ToolCallStart id name) (Some id)) (chat_tool_delta id arguments)
    | Some existing_id =>
      if is_some (opt_filter (obj_get "id" object ≫= as_string) (fun id => negb (String.eqb id existing_id)))
      then chat_invalid ("tool call " +:+ pretty index +:+ " changed IDs")
      else chat_tool_delta existing_id arguments
    end d.
Proof.
  intros Hi Hf Ht Ha. unfold chat_decode_tool_call, st_bind at 1 2 3 4 5, chat_shape, st_lift, st_get. cbn [as_object ok_or].
  rewrite Hi, Hf. cbn [mbind option_bind as_u64 as_object number default ok_or].
  destruct Ht as [-> | ->]; cbn [mbind option_bind as_string opt_filter String.eqb negb]; destruct Ha as [[-> ->]| ->]; done.
Qed.

Section chunks.
Context (n : N) (i m : string) (text : bool) (tools : gmap N string) (u : option Usage).
Let d := running n i m text tools u.

Lemma object_reads object choices usage :
  obj_get "id" object = Some (Str i) -> obj_get "model" object = Some (Str m) -> obj_get "system_fingerprint" object = None ->
  chat_usage object = Ok usage -> chat_choices object = Ok choices -> (length choices <= 1)%nat ->
  chat_decode_object object d
  = chat_then (match choices with choice :: _ => chat_decode_choice choice | [] => chat_none end) (chat_record_usage usage) d.
Proof.
  intros Hi Hm Hf Hu Hc Hl. unfold chat_decode_object, chat_then at 1 2, chat_fingerprint, chat_optional_string.
  rewrite Hi, Hm, Hf, Hu, Hc. cbn [as_string ok_or result_bind]. unfold d, running.
  cbv [st_bind st_lift chat_learn_id chat_learn_model st_get cd_response_id cd_model]. rewrite String.eqb_refl.
  cbn. rewrite String.eqb_refl. cbn.
  destruct choices as [|c [|c' rest]]; [| |simpl in Hl; lia]; cbn [length]; by destruct (chat_then _ _ _) as [[es|] d1].
Qed.

Lemma choice_object_reads delta reason : chat_decode_object (with_choice i m delta reason) d = chat_decode_choice (chat_choice delta reason) d.
Proof. rewrite (object_reads _ [chat_choice delta reason] None); [apply then_first|done..]. Qed.

(** A chunk with one part of the delta. *)
Lemma only_content s : chat_decode_object (with_choice i m (json_object [("content", Str s)]) Null) d = chat_decode_content [("content", Str s)] d.
Proof.
  rewrite choice_object_reads. change (json_object [("content", Str s)]) with (Object [("content", Str s)]). rewrite choice_reads by done.
  change (chat_decode_reasoning [("content", Str s)]) with chat_none. change (chat_decode_refusal [("content", Str s)]) with chat_none. change (obj_get "tool_calls" [("content", Str s)]) with (@None Value).
  cbv [chat_then chat_none st_bind st_ret]. destruct (chat_decode_content [("content", Str s)] d) as [[es|] d']; [|done]. by rewrite !app_nil_r.
Qed.
Lemma only_refusal s : chat_decode_object (with_choice i m (json_object [("refusal", Str s)]) Null) d = chat_decode_refusal [("refusal", Str s)] d.
Proof.
  rewrite choice_object_reads. change (json_object [("refusal", Str s)]) with (Object [("refusal", Str s)]). rewrite choice_reads by done.
  change (chat_decode_reasoning [("refusal", Str s)]) with chat_none. change (chat_decode_content [("refusal", Str s)]) with chat_none. change (obj_get "tool_calls" [("refusal", Str s)]) with (@None Value).
  cbv [chat_then chat_none st_bind st_ret]. destruct (chat_decode_refusal [("refusal", Str s)] d) as [[es|] d']; [|done]. by rewrite !app_nil_r.
Qed.
Lemma only_tool call : chat_decode_object (with_choice i m (json_object [("tool_calls", Array [call])]) Null) d = chat_decode_tool_call 0 call d.
Proof.
  rewrite choice_object_reads. change (json_object [("tool_calls", Array [call])]) with (Object [("tool_calls", Array [call])]). rewrite choice_reads by done.
  change (chat_decode_reasoning [("tool_calls", Array [call])]) with chat_none. change (chat_decode_content [("tool_calls", Array [call])]) with chat_none. change (chat_decode_refusal [("tool_calls", Array [call])]) with chat_none. change (obj_get "tool_calls" [("tool_calls", Array [call])]) with (Some (Array [call])).
  cbv beta iota. change (chat_decode_tool_calls (Array [call])) with (chat_then (chat_decode_tool_call 0 call) chat_none).
  cbv [chat_then chat_none st_bind st_ret]. destruct (chat_decode_tool_call 0 call d) as [[es|] d']; [|done]. by rewrite !app_nil_r.
Qed.

Lemma understood_text s : exists n' text',
  understood (with_choice i m (json_object [("content", Str s)]) Null) d (TextDelta s) (running n' i m text' tools u).
Proof.
  unfold understood. rewrite only_content. destruct (str_is_empty s) eqn:Es.
  - apply str_empty in Es as ->. exists n, text, []. split; [done|intros t; by rewrite say_empty_text].
  - unfold d, running, chat_decode_content. change (obj_get "content" [("content", Str s)]) with (Some (Str s)).
    destruct text; [exists (sat_add U64_MAX n 1), true|exists (sat_add U64_MAX (sat_add U64_MAX n 1) 1), true];
      eexists; (split; [cbn; rewrite Es; reflexivity|]); intros t; by destruct t.
Qed.

Lemma understood_refusal s : exists n',
  understood (with_choice i m (json_object [("refusal", Str s)]) Null) d (Refusal s) (running n' i m text tools u).
Proof.
  unfold understood. rewrite only_refusal. destruct (str_is_empty s) eqn:Es.
  - apply str_empty in Es as ->. exists n, []. split; [done|intros t; by rewrite say_empty_refusal].
  - unfold d, running, chat_decode_refusal. change (obj_get "refusal" [("refusal", Str s)]) with (Some (Str s)). exists (sat_add U64_MAX n 1). eexists. split; [cbn; rewrite Es; reflexivity|intros t; by destruct t].
Qed.

Definition tool_started (index : N) (id name : string) : Value :=
  json_object [("index", number index); ("id", Str id); ("type", Str "function"); ("function", json_object [("name", Str name)])].
Definition tool_continued (index : N) (arguments : string) : Value :=
  json_object [("index", number index); ("function", json_object [("arguments", Str arguments)])].

Lemma understood_tool_start index id name : tools !! index = None -> exists n',
  understood (with_choice i m (json_object [("tool_calls", Array [tool_started index id name])]) Null) d (ToolCallStart id name)
    (running n' i m text (<[index := id]> tools) u).
Proof.
  intros Hi. unfold understood. rewrite only_tool. exists (sat_add U64_MAX n 1), [MkStreamEvent (sat_add U64_MAX n 1) (Some id) (ToolCallStart id name) []].
  split; [|intros t; by destruct t]. unfold tool_started, json_object.
  rewrite (tool_call_reads _ [("name", Str name)] index ""); [|done|done|by right|by left].
  unfold d at 1, running at 1. cbn [cd_tools]. by rewrite Hi.
Qed.

Lemma understood_tool_delta index id arguments : tools !! index = Some id -> exists n',
  understood (with_choice i m (json_object [("tool_calls", Array [tool_continued index arguments])]) Null) d (ToolCallDelta id arguments)
    (running n' i m text tools u).
Proof.
  intros Hi. unfold understood. rewrite only_tool. unfold tool_continued, json_object.
  rewrite (tool_call_reads _ [("arguments", Str arguments)] index arguments); [|done|done|by left|by right].
  unfold d at 1, running at 1. cbn [cd_tools]. rewrite Hi.
  unfold chat_tool_delta. destruct (str_is_empty arguments) eqn:Es.
  - apply str_empty in Es as ->. exists n, []. split; [done|intros t; by rewrite say_no_arguments].
  - exists (sat_add U64_MAX n 1), [MkStreamEvent (sat_add U64_MAX n 1) (Some id) (ToolCallDelta id arguments) []].
    split; [done|intros t; by destruct t].
Qed.

(** The usage that is read is the one that was written. *)
Lemma usage_reads w : chat_parse_usage (chat_encode_usage w) = Ok (usage_said w).
Proof. destruct w as [a b [r|] [c|] [t|] dt]; reflexivity. Qed.

Lemma usage_member o w : obj_get "usage" o = Some (chat_encode_usage w) -> chat_usage o = Ok (Some (usage_said w)).
Proof.
  intros Ho. unfold chat_usage. rewrite Ho. change (opt_filter _ _) with (Some (chat_encode_usage w)). cbv beta iota. by rewrite usage_reads.
Qed.

Definition with_usage (i m : string) (w : Usage) : list (string * Value) :=
  obj_insert "usage" (chat_encode_usage w) (obj_insert "choices" (Array []) (base i m)).
Lemma understood_usage w : exists n',
  understood (with_usage i m w) d (UsageEvent (usage_said w)) (running n' i m text tools (Some (usage_said w))).
Proof.
  unfold understood. exists (sat_add U64_MAX n 1), [MkStreamEvent (sat_add U64_MAX n 1) None (UsageEvent (usage_said w)) []].
  split; [|intros t; by destruct t]. rewrite (object_reads _ [] (Some (usage_said w))); [done|done|done|done|by apply usage_member|done|simpl; lia].
Qed.

(** The end of the choice closes the blocks and says nothing. *)
Definition closing (n : N) (reason : option FinishReason) : OpenAiChatEventDecoder :=
  MkChatDecoder n (Some i) (Some m) true false false ∅ reason u false.
Lemma end_tools_reads l : forall d, exists es n', chat_end_tools l d = (Ok es, cd_set_sequence n' d) /\ forall t, say_all t es = t.
Proof.
  induction l as [|[j id] l IH]; intros d'; [exists [], (cd_next_sequence d'); by destruct d'|].
  destruct (IH (cd_set_sequence (sat_add U64_MAX (cd_next_sequence d') 1) d')) as (es & n' & He & Hs).
  cbn [chat_end_tools]. cbv [chat_then st_bind chat_event st_ret]. rewrite He. eexists _, n'. split; [done|]. intros t. unfold say_all. simpl.
  unfold say_all in Hs. rewrite Hs. by destruct t.
Qed.
Lemma close_reads : exists es n', chat_close_blocks d = (Ok es, closing n' None) /\ forall t, say_all t es = t.
Proof.
  unfold chat_close_blocks, d, running. destruct text.
  - destruct (end_tools_reads (btree_list N.compare tools) (closing (sat_add U64_MAX n 1) None)) as (es & n' & He & Hs).
    eexists (MkStreamEvent (sat_add U64_MAX n 1) (Some TEXT_BLOCK_ID) TextEnd [] :: es), n'. split; [|intros t; specialize (Hs t); by destruct t].
    unfold closing in *. cbv [chat_then chat_end_reasoning chat_end_text st_bind st_get chat_when cd_reasoning_open cd_text_open chat_none st_ret chat_event st_modify].
    cbn. unfold cd_set_tools. cbn. rewrite He. done.
  - destruct (end_tools_reads (btree_list N.compare tools) (closing n None)) as (es & n' & He & Hs).
    exists es, n'. split; [|done]. unfold closing in *.
    cbv [chat_then chat_end_reasoning chat_end_text st_bind st_get chat_when cd_reasoning_open cd_text_open chat_none st_ret chat_event st_modify].
    cbn. unfold cd_set_tools. cbn. rewrite He. done.
Qed.

Lemma finish_choice_reads reason : exists es n',
  chat_decode_choice (chat_choice (Object []) (Str (chat_encode_finish_reason reason))) d = (Ok es, closing n' (Some (reason_said reason)))
  /\ forall t, say_all t es = t.
Proof.
  destruct close_reads as (es & n' & He & Hs). exists es, n'. split; [|done].
  set (r := chat_encode_finish_reason reason).
  transitivity (chat_then chat_none (chat_then chat_none (chat_then chat_none (chat_then chat_none
    (let* es := chat_close_blocks in let* _ := st_modify (cd_set_finish (Some (chat_parse_finish_reason r))) in st_ret es)))) d); [done|].
  cbv [chat_then chat_none st_bind st_ret]. rewrite He. done.
Qed.

(** The end of a response, with its usage and without. *)
Definition finished (n : N) : OpenAiChatEventDecoder := MkChatDecoder n (Some i) (Some m) true false false ∅ None None true.
Lemma understood_completion reason w : exists n',
  understood (obj_insert "usage" (chat_encode_usage w) (with_choice i m (Object []) (Str (chat_encode_finish_reason reason)))) d
    (Completion (reason_said reason) (Some (usage_said w))) (finished n').
Proof.
  destruct (finish_choice_reads reason) as (es & n' & He & Hs).
  exists (sat_add U64_MAX n' 1), (es ++ [MkStreamEvent (sat_add U64_MAX n' 1) None (Completion (reason_said reason) (Some (usage_said w))) []]).
  split; [|intros t; rewrite say_all_app, Hs; by destruct t].
  rewrite (object_reads _ [chat_choice (Object []) (Str (chat_encode_finish_reason reason))] (Some (usage_said w))); [|done|done|done|by apply usage_member|done|simpl; lia].
  unfold chat_then, st_bind at 1. rewrite He. done.
Qed.
Lemma understood_finish reason : exists es n',
  chat_decode_object (with_choice i m (Object []) (Str (chat_encode_finish_reason reason))) d = (Ok es, closing n' (Some (reason_said reason)))
  /\ (forall t, say_all t es = t)
  /\ chat_finish (closing n' (Some (reason_said reason)))
      = (Ok [MkStreamEvent (sat_add U64_MAX n' 1) None (Completion (reason_said reason) u) []], finished (sat_add U64_MAX n' 1)).
Proof.
  destruct (finish_choice_reads reason) as (es & n' & He & Hs). exists es, n'. by rewrite choice_object_reads.
Qed.
End chunks.

(** The first chunk. *)
Lemma first_reads i m :
  chat_decode_object (with_choice i m (json_object [("role", Str "assistant")]) Null) chat_decoder_new
  = (Ok [MkStreamEvent 1 None (ResponseStart (Some i) (Some m)) []], running 1 i m false ∅ None).
Proof. reflexivity. Qed.

(** * What is kept of an event *)

Definition kind_said (k : StreamEventKind) : StreamEventKind :=
  match k with
  | UsageEvent u => UsageEvent (usage_said u)
  | Completion reason u => Completion (reason_said reason) (usage_said <$> u)
  | _ => k
  end.
Lemma said_say t k : said (say t k) = say (said t) (kind_said k).
Proof. destruct t as [i x r l u e], k; try done. unfold said. simpl. f_equal. by destruct usage. Qed.

(** The events are those the Rust types can hold: strings are UTF-8 and counters [u64]. *)
Definition chat_usage_typed (u : Usage) : Prop :=
  input_tokens u <= U64_MAX /\ output_tokens u <= U64_MAX /\ default 0 (reasoning_tokens u) <= U64_MAX
  /\ default 0 (cached_input_tokens u) <= U64_MAX /\ default 0 (total_tokens u) <= U64_MAX.
Definition chat_event_typed (e : StreamEvent) : Prop :=
  match ev_kind e with
  | ResponseStart id model => is_str (default "" id) /\ is_str (default "" model)
  | TextDelta s | Refusal s => is_str s
  | ToolCallStart id name => is_str id /\ is_str name
  | ToolCallDelta id arguments => is_str id /\ is_str arguments
  | UsageEvent u => chat_usage_typed u
  | Completion reason u => is_str (chat_encode_finish_reason reason) /\ forall w, u = Some w -> chat_usage_typed w
  | Failure error => is_str (se_code error) /\ is_str (se_message error)
  | _ => True
  end.

Lemma number_le depth n : n <= U64_MAX -> exact depth (number n) = true.
Proof. intros Hn. unfold number. destruct depth; simpl; by apply N.leb_le. Qed.
Lemma str_exact depth s : is_str s -> exact depth (Str s) = true.
Proof. intros Hs. by destruct depth. Qed.
Lemma json_exact depth l : Forall (fun kv => is_str kv.1 /\ exact depth kv.2 = true) l -> exact (S depth) (json_object l) = true.
Proof. intros Hl. by apply object_exact, json_members_exact. Qed.
Lemma one_exact depth v : exact depth v = true -> exact (S depth) (Array [v]) = true.
Proof. intros Hv. cbn [exact forallb]. by rewrite Hv. Qed.

Create HintDb chat.
#[local] Hint Resolve number_le str_exact json_exact one_exact object_exact members_insert json_members_exact : chat.
Ltac exact_members := repeat first [by apply Forall_nil|apply Forall_cons; split; [split; [done|cbn [snd]]|]].

Lemma base_exact depth i m : is_str i -> is_str m -> members_exact (fun _ => false) depth (base i m).
Proof. intros Hi Hm. apply json_members_exact. exact_members; auto with chat. Qed.
Lemma choice_exact depth i m delta reason : is_str i -> is_str m ->
  exact depth delta = true -> exact depth reason = true -> members_exact (fun _ => false) (S (S depth)) (with_choice i m delta reason).
Proof.
  intros Hi Hm Hd Hr. apply members_insert; [done| |by apply base_exact]. apply one_exact, json_exact. exact_members; auto with chat.
Qed.
Lemma chat_usage_exact depth w : chat_usage_typed w -> exact (S (S depth)) (chat_encode_usage w) = true.
Proof.
  intros (Hi & Ho & Hr & Hc & Ht). unfold chat_encode_usage. apply object_exact.
  assert (Hb : members_exact (fun _ => false) (S depth) (json_members [("prompt_tokens", number (input_tokens w)); ("completion_tokens", number (output_tokens w));
    ("total_tokens", number (default (sat_add U64_MAX (input_tokens w) (output_tokens w)) (total_tokens w)))])).
  { apply json_members_exact. exact_members; apply number_le; try done. destruct (total_tokens w); [done|]. simpl. unfold sat_add. lia. }
  destruct (reasoning_tokens w), (cached_input_tokens w); simpl in Hr, Hc; repeat (apply members_insert; [done|apply json_exact; exact_members; by apply number_le|]); done.
Qed.

(** * Bytes *)

Section bytes.
Context `{SerdeExact}.
(** The sentinel is not JSON. *)
Context (Hdone : forall v, from_slice DONE <> Ok v).

Definition carries (c : EncodedChatChunk) (v : Value) : Prop := from_slice (ec_body c) = Ok v /\ ec_body c <> DONE.

Lemma chunk_carries v report e r e' : exact MAX_DEPTH v = true -> chat_chunk v report e = (Ok r, e') ->
  e' = e /\ exists c, r = Some c /\ carries c v.
Proof.
  intros Hv. destruct (exact_roundtrip v Hv) as (b & Hb & Hr & _). unfold chat_chunk. cbv [st_bind st_lift st_ret]. rewrite Hb.
  intros [= <- <-]. split; [done|]. eexists. split; [done|]. split; [done|]. simpl. intros ->. by apply (Hdone v).
Qed.

Lemma emit_carries object choice usage report policy e r e' :
  chat_emit object [choice] usage report policy e = (Ok r, e') ->
  members_exact (fun _ => false) 126 (match usage with Some u => obj_insert "usage" u (obj_insert "choices" (Array [choice]) object)
                     | None => obj_insert "choices" (Array [choice]) object end) ->
  e' = e /\ exists c, r = Some c
    /\ carries c (Object match usage with Some u => obj_insert "usage" u (obj_insert "choices" (Array [choice]) object)
                         | None => obj_insert "choices" (Array [choice]) object end).
Proof.
  unfold chat_emit, chat_validate. unfold st_bind at 1, st_lift. destruct (map_err _ _); [|done]. cbn [list_is_empty andb].
  intros He Hx. eapply chunk_carries; [|exact He]. by apply object_exact.
Qed.

Lemma data_carried c o d : carries c (Object o) -> cd_completed d = false ->
  chat_decode_data (ec_body c) d = match obj_get "error" o with Some error => chat_decode_error error d | None => chat_decode_object o d end.
Proof.
  intros [Hr Hd] Hc. unfold chat_decode_data. rewrite bool_decide_eq_false_2 by done. unfold chat_decode_chunk.
  cbv [st_bind st_get st_lift chat_shape]. rewrite Hc, Hr. cbn [map_err as_object ok_or]. by destruct (obj_get "error" o).
Qed.

Fixpoint chat_decode_all (payloads : list bytes) : ChatDec (list StreamEvent) :=
  match payloads with
  | [] => chat_none
  | data :: payloads => chat_then (chat_decode_data data) (chat_decode_all payloads)
  end.
Definition bodies (c : option EncodedChatChunk) : list bytes := match c with Some c => [ec_body c] | None => [] end.
Fixpoint chat_encode_all (policy : LossPolicy) (events : list StreamEvent) : ChatEnc (list bytes) :=
  match events with
  | [] => st_ret []
  | e :: events =>
    let* c := chat_encode_event e policy in let* rest := chat_encode_all policy events in st_ret (bodies c ++ rest)
  end.

Lemma decode_all_next data payloads d es d' : chat_decode_data data d = (Ok es, d') ->
  chat_decode_all (data :: payloads) d
  = match chat_decode_all payloads d' with (Ok fs, d'') => (Ok (es ++ fs), d'') | (Err e, d'') => (Err e, d'') end.
Proof. intros He. cbn [chat_decode_all]. unfold chat_then, st_bind. by rewrite He. Qed.

(** * The decoder follows the encoder *)

Record speaks (e : OpenAiChatEventEncoder) (d : OpenAiChatEventDecoder) (used : list string) (t : Transcript) : Prop := {
  sp_state : exists n text tools, d = running n (cn_response_id e) (cn_model e) text tools (ts_usage t)
    /\ (forall id i, cn_tool_indices e !! id = Some i <-> tools !! i = Some id)
    /\ (forall i id, tools !! i = Some id -> i < cn_next_tool_index e);
  sp_identity : is_str (cn_response_id e) /\ is_str (cn_model e);
  sp_started : cn_response_started e = true;
  sp_completed : cn_completed e = false;
  sp_used : forall id i, cn_tool_indices e !! id = Some i -> id ∈ used;
  sp_bound : cn_next_tool_index e <= N.of_nat (length used);
}.

(** A chunk that says [k]. *)
Lemma chunk_said c o d k e' d' used t :
  carries c (Object o) -> cd_completed d = false -> obj_get "error" o = None -> understood o d k d' -> speaks e' d' used (say t k) ->
  exists es d', chat_decode_all (bodies (Some c)) d = (Ok es, d') /\ say_all t es = say t k /\ speaks e' d' used (say t k).
Proof.
  intros Hc Hd Ho (es & He & Hs) Hsp. exists es, d'. split_and!; [|done..].
  change (bodies (Some c)) with [ec_body c]. rewrite (decode_all_next _ [] d es d'); [|by rewrite (data_carried _ _ _ Hc Hd), Ho]. cbn. by rewrite app_nil_r.
Qed.
(** An event for which nothing is sent. *)
Lemma nothing_said d k e used t : say t k = t -> speaks e d used t ->
  exists es d', chat_decode_all (bodies None) d = (Ok es, d') /\ say_all t es = say t k /\ speaks e d' used (say t k).
Proof. intros Hk Hs. exists [], d. by rewrite Hk. Qed.
Lemma lossy_silent object report policy e r e' : chat_emit object [] None report policy e = (Ok r, e') -> r = None /\ e' = e.
Proof. unfold chat_emit, chat_validate, st_bind, st_lift. destruct (map_err _ _); [|done]. by intros [= <- <-]. Qed.

Section step.
Context (e : OpenAiChatEventEncoder) (d : OpenAiChatEventDecoder) (used : list string) (t : Transcript) (policy : LossPolicy).
Context (Hsp : speaks e d used t).

Lemma speaks_running : cd_completed d = false.
Proof. by destruct (sp_state _ _ _ _ Hsp) as (n & x & tools & -> & _). Qed.

Lemma text_step s r e' : is_str s ->
  chat_emit (chat_base_chunk e) [chat_choice (json_object [("content", Str s)]) Null] None report_default policy e = (Ok r, e') ->
  exists es d', chat_decode_all (bodies r) d = (Ok es, d') /\ say_all t es = say t (TextDelta s) /\ speaks e' d' used (say t (TextDelta s)).
Proof.
  intros Hs He. destruct Hsp as [(n & x & tools & Hd & Htools) [Hi Hm] Hst Hc Hu Hb].
  apply emit_carries in He as (-> & c & -> & Hca); [|apply choice_exact; auto; apply json_exact; exact_members; auto with chat].
  destruct (understood_text n (cn_response_id e) (cn_model e) x tools (ts_usage t) s) as (n' & x' & Hun). subst d.
  eapply chunk_said; [exact Hca|done|done|exact Hun|]. constructor; try done. exists n', x', tools. split; [|done]. by destruct t.
Qed.
Lemma refusal_step s r e' : is_str s ->
  chat_emit (chat_base_chunk e) [chat_choice (json_object [("refusal", Str s)]) Null] None report_default policy e = (Ok r, e') ->
  exists es d', chat_decode_all (bodies r) d = (Ok es, d') /\ say_all t es = say t (Refusal s) /\ speaks e' d' used (say t (Refusal s)).
Proof.
  intros Hs He. destruct Hsp as [(n & x & tools & Hd & Htools) [Hi Hm] Hst Hc Hu Hb].
  apply emit_carries in He as (-> & c & -> & Hca); [|apply choice_exact; auto; apply json_exact; exact_members; auto with chat].
  destruct (understood_refusal n (cn_response_id e) (cn_model e) x tools (ts_usage t) s) as (n' & Hun). subst d.
  eapply chunk_said; [exact Hca|done|done|exact Hun|]. constructor; try done. exists n', x, tools. split; [|done]. by destruct t.
Qed.
Lemma tool_delta_step index id s r e' : is_str s -> cn_tool_indices e !! id = Some index -> N.of_nat (length used) <= U64_MAX ->
  chat_emit (chat_base_chunk e) [chat_choice (json_object [("tool_calls", Array [tool_continued index s])]) Null] None report_default policy e = (Ok r, e') ->
  exists es d', chat_decode_all (bodies r) d = (Ok es, d') /\ say_all t es = say t (ToolCallDelta id s)
    /\ speaks e' d' used (say t (ToolCallDelta id s)).
Proof.
  intros Hs Hix Hlen He. destruct Hsp as [(n & x & tools & Hd & Htools & Hnext) [Hi Hm] Hst Hc Hu Hb].
  pose proof Hix as Hix'. apply Htools in Hix'. pose proof (Hnext _ _ Hix') as Hlt.
  apply emit_carries in He as (-> & c & -> & Hca).
  2: { apply choice_exact; auto. apply json_exact. exact_members. apply one_exact, json_exact. exact_members; [apply number_le; lia|].
       apply json_exact. exact_members. auto with chat. }
  destruct (understood_tool_delta n (cn_response_id e) (cn_model e) x tools (ts_usage t) index id s Hix') as (n' & Hun). subst d.
  eapply chunk_said; [exact Hca|done|done|exact Hun|]. constructor; try done. exists n', x, tools. split; [|done]. by destruct t.
Qed.
Lemma tool_start_step index e1 id name r e' : is_str id -> is_str name -> id ∉ used -> N.of_nat (length used) < U64_MAX ->
  chat_tool_index id e = (Ok index, e1) ->
  chat_emit (chat_base_chunk e) [chat_choice (json_object [("tool_calls", Array [tool_started index id name])]) Null] None report_default policy e1 = (Ok r, e') ->
  exists es d', chat_decode_all (bodies r) d = (Ok es, d') /\ say_all t es = say t (ToolCallStart id name)
    /\ speaks e' d' (used ++ [id]) (say t (ToolCallStart id name)).
Proof.
  intros Hs Hname Hnew Hlen Hix He. destruct Hsp as [(n & x & tools & Hd & Htools & Hnext) [Hi Hm] Hst Hc Hu Hb].
  unfold chat_tool_index in Hix. destruct (cn_tool_indices e !! id) as [j|] eqn:Ej; [by apply Hu in Ej|]. injection Hix as <- <-.
  apply emit_carries in He as (-> & c & -> & Hca).
  2: { apply choice_exact; auto. apply json_exact. exact_members. apply one_exact, json_exact. exact_members; auto with chat; [apply number_le; lia|].
       apply json_exact. exact_members. auto with chat. }
  assert (Hfree : tools !! cn_next_tool_index e = None).
  { destruct (tools !! cn_next_tool_index e) eqn:E; [|done]. apply Hnext in E. lia. }
  destruct (understood_tool_start n (cn_response_id e) (cn_model e) x tools (ts_usage t) (cn_next_tool_index e) id name Hfree) as (n' & Hun). subst d.
  eapply chunk_said; [exact Hca|done|done|exact Hun|]. constructor; simpl; try done.
  - exists n', x, (<[cn_next_tool_index e := id]> tools). split; [by destruct t|]. split.
    + intros y j. rewrite !lookup_insert_Some. split.
      * intros [[-> ->]|[Hne Hy]]; [by left|]. right. split; [|by apply Htools]. intros <-. apply Htools, Hnext in Hy. lia.
      * intros [[<- ->]|[Hne Hj]]; [by left|]. right. split; [|by apply Htools]. intros <-. apply Htools in Hj. congruence.
    + intros j y [[<- _]|[_ Hj]]%lookup_insert_Some; [lia|]. apply Hnext in Hj. lia.
  - intros y j. rewrite elem_of_app, list_elem_of_singleton. intros [[<- _]|[_ Hy]]%lookup_insert_Some; [by right|left]. by apply (Hu y j).
  - rewrite length_app. simpl. lia.
Qed.
Lemma usage_step w r e' : chat_usage_typed w ->
  chat_emit (obj_insert "choices" (Array []) (chat_base_chunk e)) [] (Some (chat_encode_usage w)) report_default policy e = (Ok r, e') ->
  exists es d', chat_decode_all (bodies r) d = (Ok es, d') /\ say_all t es = say t (UsageEvent (usage_said w))
    /\ speaks e' d' used (say t (UsageEvent (usage_said w))).
Proof.
  intros Hw. destruct Hsp as [(n & x & tools & Hd & Htools) [Hi Hm] Hst Hc Hu Hb].
  unfold chat_emit, chat_validate. unfold st_bind at 1, st_lift. destruct (map_err _ _); [|done]. cbn [list_is_empty andb is_none].
  intros He. apply chunk_carries in He as (-> & c & -> & Hca).
  2: { apply (object_exact 126), members_insert; [done|by apply chat_usage_exact|]. apply members_insert; [done..|]. by apply base_exact. }
  destruct (understood_usage n (cn_response_id e) (cn_model e) x tools (ts_usage t) w) as (n' & Hun). subst d.
  eapply chunk_said; [exact Hca|done|done|exact Hun|]. constructor; try done. exists n', x, tools. split; [|done]. by destruct t.
Qed.

Lemma event_step event r e' :
  event_is_terminal (ev_kind event) = false -> chat_event_typed event -> NoDup (used ++ started_tool (ev_kind event)) ->
  N.of_nat (length used) < U64_MAX -> chat_encode_event event policy e = (Ok r, e') ->
  exists es d', chat_decode_all (bodies r) d = (Ok es, d') /\ say_all t es = say t (kind_said (ev_kind event))
    /\ speaks e' d' (used ++ started_tool (ev_kind event)) (say t (kind_said (ev_kind event))).
Proof.
  intros Ht Hty Hnd Hlen. unfold chat_encode_event. unfold st_bind at 1, st_get. rewrite (sp_completed _ _ _ _ Hsp).
  unfold chat_event_typed in Hty.
  destruct (ev_kind event) eqn:Ek; cbn [started_tool kind_said]; rewrite ?app_nil_r; try done.
  all: try (rewrite (sp_started _ _ _ _ Hsp); done).
  all: try (intros He; repeat case_match; apply lossy_silent in He as [-> ->]; apply nothing_said; [by destruct t|done]).
  all: try (intros [= <- <-]; apply nothing_said; [by destruct t|done]).
  - by apply text_step.
  - unfold st_bind. destruct (chat_tool_index id e) as [[index|] e1] eqn:Ei; [|done]. apply NoDup_app in Hnd as (_ & Hnew & _).
    apply tool_start_step; try done; try apply Hty. intros Hin. by apply (Hnew id Hin), list_elem_of_singleton.
  - unfold st_bind, st_lift. destruct (cn_tool_indices e !! id) as [index|] eqn:Ei; simpl; [|done].
    apply tool_delta_step; [apply Hty|done|lia].
  - by apply usage_step.
  - by apply refusal_step.
  - intros He. destruct (String.eqb _ _); apply lossy_silent in He as [-> ->]; (apply nothing_said; [by destruct t|done]).
Qed.

(** The event that ends the response, and the sentinel. *)
Lemma completion_step reason usage r e' : is_str (chat_encode_finish_reason reason) -> (forall w, usage = Some w -> chat_usage_typed w) ->
  chat_emit (chat_base_chunk e) [chat_choice (Object []) (Str (chat_encode_finish_reason reason))] (chat_encode_usage <$> usage)
    report_default policy (cn_set_completed e) = (Ok r, e') ->
  exists es d', chat_decode_all (bodies r ++ [DONE]) d = (Ok es, d') /\ say_all t es = say t (kind_said (Completion reason usage))
    /\ cd_completed d' = true.
Proof.
  intros Hr Hw He. destruct Hsp as [(n & x & tools & -> & Htools) [Hi Hm] Hst Hc Hu Hb].
  apply emit_carries in He as (-> & c & -> & Hca).
  2: { assert (members_exact (fun _ => false) 126 (with_choice (cn_response_id e) (cn_model e) (Object []) (Str (chat_encode_finish_reason reason))))
         by (apply choice_exact; auto with chat).
       destruct usage as [w|]; [|done]. apply members_insert; [done| |done]. by apply chat_usage_exact, Hw. }
  destruct usage as [w|]; simpl fmap in Hca; cbv iota in Hca.
  - destruct (understood_completion n (cn_response_id e) (cn_model e) x tools (ts_usage t) reason w) as (n' & es & He & Hs).
    exists (es ++ []), (finished (cn_response_id e) (cn_model e) n'). split_and!; [|by rewrite app_nil_r|done].
    change (bodies (Some c) ++ [DONE]) with [ec_body c; DONE].
    rewrite (decode_all_next _ [DONE] _ es (finished (cn_response_id e) (cn_model e) n')); [done|].
    rewrite (data_carried _ _ _ Hca) by done. exact He.
  - destruct (understood_finish n (cn_response_id e) (cn_model e) x tools (ts_usage t) reason) as (es & n' & He & Hs & Hfin).
    exists (es ++ [MkStreamEvent (sat_add U64_MAX n' 1) None (Completion (reason_said reason) (ts_usage t)) []]),
      (finished (cn_response_id e) (cn_model e) (sat_add U64_MAX n' 1)). split_and!; [| |done].
    + change (bodies (Some c) ++ [DONE]) with [ec_body c; DONE].
      rewrite (decode_all_next _ [DONE] _ es (closing (cn_response_id e) (cn_model e) (ts_usage t) n' (Some (reason_said reason))));
        [|rewrite (data_carried _ _ _ Hca) by done; exact He].
      cbn [chat_decode_all]. unfold chat_then, st_bind, chat_decode_data at 1. rewrite bool_decide_eq_true_2 by done. rewrite Hfin. done.
    + rewrite say_all_app, Hs. destruct t as [a b f g h k]. simpl. by destruct h.
Qed.
Lemma failure_step error r e' : is_str (se_code error) -> is_str (se_message error) ->
  chat_encode_event (MkStreamEvent 0 None (Failure error) []) policy e = (Ok r, e') ->
  exists es d', chat_decode_all (bodies r ++ [DONE]) d = (Ok es, d') /\ say_all t es = say t (Failure error) /\ cd_completed d' = true.
Proof.
  intros Hcode Hmsg. unfold chat_encode_event. unfold st_bind at 1, st_get. rewrite (sp_completed _ _ _ _ Hsp). cbn [ev_kind].
  unfold chat_validate. unfold st_bind at 1, st_lift. destruct (map_err _ _); [|done]. intros He.
  apply chunk_carries in He as (-> & c & -> & Hca).
  2: { apply (json_exact 126). exact_members. apply json_exact. exact_members; auto with chat. }
  set (f := Failure (MkStreamError (se_code error) (se_message error) false None)).
  exists [MkStreamEvent (sat_add U64_MAX (cd_next_sequence d) 1) None f []],
    (cd_set_sequence (sat_add U64_MAX (cd_next_sequence d) 1) (cd_set_completed d)). split_and!; [|by destruct t|].
  - change (bodies (Some c) ++ [DONE]) with [ec_body c; DONE].
    rewrite (decode_all_next _ [DONE] _ [MkStreamEvent (sat_add U64_MAX (cd_next_sequence d) 1) None f []]
               (cd_set_sequence (sat_add U64_MAX (cd_next_sequence d) 1) (cd_set_completed d))); [reflexivity|].
    rewrite (data_carried _ _ _ Hca speaks_running). done.
  - done.
Qed.
End step.

Lemma stream_said policy events : forall e d used t v out e' v',
  speaks e d used t -> chat_encode_all policy events e = (Ok out, e') ->
  accept_all v events = Ok v' -> sv_terminal v = false -> sv_terminal v' = true ->
  NoDup (used ++ tool_ids events) -> Forall chat_event_typed events -> N.of_nat (length used + length events) <= U64_MAX ->
  exists es d', chat_decode_all (out ++ [DONE]) d = (Ok es, d') /\ cd_completed d' = true
    /\ say_all t es = foldl say t (map (fun e => kind_said (ev_kind e)) events).
Proof.
  induction events as [|event events IH]; intros e d used t v out e' v' Hsp Henc Hacc Hv Hv' Hnd Hty Hlen.
  { injection Hacc as ->. congruence. }
  apply Forall_cons in Hty as [Hev Hty]. cbn [chat_encode_all] in Henc. unfold st_bind at 1 in Henc.
  destruct (chat_encode_event event policy e) as [[r|] e1] eqn:E1; [|done]. unfold st_bind, st_ret in Henc.
  destruct (chat_encode_all policy events e1) as [[rest|] e2] eqn:E2; [|done]. injection Henc as <- <-.
  cbn [accept_all] in Hacc. destruct (accept v event) as [[[]|] v1] eqn:Ea; [|done].
  assert (Hv1 : sv_terminal v1 = event_is_terminal (ev_kind event)) by by eapply accept_terminal.
  destruct (event_is_terminal (ev_kind event)) eqn:Et.
  - assert (events = []) as ->.
    { destruct events as [|x events]; [done|]. cbn [accept_all] in Hacc. unfold accept in Hacc. by rewrite Hv1 in Hacc. }
    injection E2 as <- _. rewrite app_nil_r. unfold chat_event_typed in Hev. simpl. destruct (ev_kind event) eqn:Ek; try done.
    + destruct Hev as [Hr Hw]. unfold chat_encode_event in E1. unfold st_bind at 1, st_get in E1. rewrite (sp_completed _ _ _ _ Hsp), Ek in E1.
      destruct (completion_step e d used t policy Hsp finish_reason usage r e1 Hr Hw) as (es & d' & Hd & Hs & Hc); [exact E1|]. by exists es, d'.
    + destruct (failure_step e d used t policy Hsp error r e1) as (es & d' & Hd & Hs & Hc); [apply Hev|apply Hev| |by exists es, d'].
      unfold chat_encode_event in E1 |- *. by rewrite Ek in E1.
  - assert (Hids : tool_ids (event :: events) = started_tool (ev_kind event) ++ tool_ids events) by done.
    rewrite Hids, app_assoc in Hnd. cbn [length] in Hlen.
    destruct (event_step e d used t policy Hsp event r e1) as (es & d1 & Hd & Hs & Hsp1);
      [done|done|by apply NoDup_app in Hnd as (? & _)|lia|done|].
    destruct (IH e1 d1 (used ++ started_tool (ev_kind event)) (say t (kind_said (ev_kind event))) v1 rest e2 v') as (fs & d2 & Hd2 & Hc2 & Hs2); try done.
    { rewrite length_app. destruct (ev_kind event); simpl; lia. }
    exists (es ++ fs), d2. split_and!; [|done|by rewrite say_all_app, Hs, Hs2]. rewrite <- app_assoc.
    destruct r as [c|]; simpl in Hd |- *.
    + unfold chat_then, st_bind, chat_none, st_ret in *. destruct (chat_decode_data (ec_body c) d) as [[es1|] d3]; [|done].
      injection Hd as <- <-. rewrite Hd2, app_nil_r. done.
    + injection Hd as <- <-. exact Hd2.
Qed.

Lemma said_all l : forall t, said (foldl say t l) = foldl say (said t) (map kind_said l).
Proof. induction l as [|k l IH]; intros t; [done|]. simpl. by rewrite IH, said_say. Qed.

(** [C27] What a client understands of an OpenAI Chat stream is what the gateway meant: when the
    encoder accepts a well-formed sequence of semantic events that opens with its response start
    and ends, in which no tool call is started twice, a client that decodes the chunks and the
    sentinel gets a finished stream that says the same: the identity of the response, the text,
    the refusal, the tool calls in order with their names and arguments, the last usage and how
    the response ended, as far as the dialect names them.  No chunk is refused. *)
Theorem chat_stream_roundtrip policy sequence block response_id model extensions events out e v :
  let all := MkStreamEvent sequence block (ResponseStart response_id model) extensions :: events in
  chat_encode_all policy all chat_encoder_new = (Ok out, e) ->
  accept_all validator_default all = Ok v -> sv_terminal v = true -> NoDup (tool_ids all) ->
  Forall chat_event_typed all -> N.of_nat (length all) <= U64_MAX ->
  exists decoded d, chat_decode_all (out ++ [DONE]) chat_decoder_new = (Ok decoded, d) /\ cd_completed d = true
    /\ say_all transcript_new decoded = said (say_all transcript_new all).
Proof.
  intros all Henc Hacc Hv Hnd [Hfirst Hty]%Forall_cons Hlen. subst all. cbn [chat_encode_all] in Henc. unfold st_bind at 1 in Henc.
  set (i := default DEFAULT_RESPONSE_ID response_id). set (m := default "" model).
  set (e1 := cn_set_started (cn_set_identity i m chat_encoder_new)).
  assert (Hstr : is_str i /\ is_str m) by (destruct response_id, model; by destruct Hfirst).
  destruct (chat_encode_event _ policy chat_encoder_new) as [[r|] e2] eqn:E1; [|done].
  assert (Hem : chat_emit (chat_base_chunk (cn_set_identity i m chat_encoder_new)) [chat_choice (json_object [("role", Str "assistant")]) Null] None
    report_default policy e1 = (Ok r, e2)) by exact E1.
  apply emit_carries in Hem as (-> & c & -> & Hca); [|apply choice_exact; try apply Hstr; [|done]; apply json_exact; exact_members; auto with chat].
  unfold st_bind, st_ret in Henc. destruct (chat_encode_all policy events e1) as [[rest|] e3] eqn:E2; [|done]. injection Henc as <- <-.
  cbn [accept_all] in Hacc.
  destruct (stream_said policy events e1 (running 1 i m false ∅ None) [] (say transcript_new (ResponseStart (Some i) (Some m)))
              (MkStreamValidator (Some sequence) true false []) rest e3 v) as (es & d & Hd & Hc & Hs); try done.
  - constructor; try done. exists 1, false, ∅. split_and!; [done| |]; intros x y; simpl; by rewrite ?lookup_empty.
  - simpl in Hlen. cbn [length]. lia.
  - exists (MkStreamEvent 1 None (ResponseStart (Some i) (Some m)) [] :: es), d. split_and!; [|done|].
    + transitivity (chat_decode_all (ec_body c :: (rest ++ [DONE])) chat_decoder_new); [done|].
      rewrite (decode_all_next _ _ _ [MkStreamEvent 1 None (ResponseStart (Some i) (Some m)) []] (running 1 i m false ∅ None)); [by rewrite Hd|].
      rewrite (data_carried _ _ _ Hca) by done. apply first_reads.
    + change (say_all (say transcript_new (ResponseStart (Some i) (Some m))) es
              = said (foldl say transcript_new (ResponseStart response_id model :: map ev_kind events))).
      rewrite Hs, said_all. simpl. by rewrite map_map.
Qed.
End bytes.

(** A stream with reasoning, which the dialect drops, a text and a tool call. *)
Definition chat_spoken : list StreamEvent :=
  [with_block_id (event_new 1 ReasoningStart) "thought";
   with_block_id (event_new 2 (ReasoningDelta "hm")) "thought";
   with_block_id (event_new 3 (ReasoningEnd None)) "thought";
   with_block_id (event_new 4 TextStart) "answer";
   with_block_id (event_new 5 (TextDelta "hel")) "answer";
   with_block_id (event_new 6 (TextDelta "lo")) "answer";
   event_new 7 (ToolCallStart "call-1" "Read");
   event_new 8 (ToolCallDelta "call-1" "{}");
   event_new 9 (ToolCallEnd "call-1");
   with_block_id (event_new 10 TextEnd) "answer";
   event_new 11 (UsageEvent (usage_new 9 11));
   event_new 12 (Completion FinishToolCall None)].
Definition chat_all : list StreamEvent := MkStreamEvent 0 None (ResponseStart (Some "resp-1") (Some "model-a")) [] :: chat_spoken.
Definition chat_run : Result (list bytes) OpenAiChatError * OpenAiChatEventEncoder := @chat_encode_all bits_json Degrade chat_all chat_encoder_new.
Definition chat_out : list bytes := match chat_run.1 with Ok out => out | Err _ => [] end.

Lemma chat_run_returns : chat_run = (Ok chat_out, chat_run.2).
Proof. unfold chat_out. assert (match chat_run.1 with Ok _ => true | Err _ => false end = true) by (vm_compute; reflexivity). by destruct chat_run as [[]]. Qed.

(** The client reads the text in one piece, the call with its arguments and the usage. *)
Lemma chat_stream_roundtrip_witness :
  exists decoded d, @chat_decode_all bits_json (chat_out ++ [DONE]) chat_decoder_new = (Ok decoded, d) /\ cd_completed d = true
    /\ say_all transcript_new decoded
       = MkTranscript (Some ("resp-1", "model-a")) "hello" "" [("call-1", "Read", "{}")] (Some (usage_new 9 11)) (Some (inl FinishToolCall)).
Proof.
  destruct (@chat_stream_roundtrip bits_json bits_json_exact) with (policy := Degrade) (sequence := 0) (block := @None string)
    (response_id := Some "resp-1") (model := Some "model-a") (extensions := @nil (ExtensionKey * OpaqueExtension)) (events := chat_spoken)
    (out := chat_out) (e := chat_run.2) (v := MkStreamValidator (Some 12) true true []) as (decoded & d & Hd & Hc & Hs).
  - intros v. vm_compute. discriminate.
  - exact chat_run_returns.
  - vm_compute. reflexivity.
  - reflexivity.
  - apply (bool_decide_unpack _). vm_compute. exact I.
  - repeat (apply Forall_cons; split); [..|by apply Forall_nil];
      unfold chat_event_typed, chat_usage_typed; cbn; try done; split_and!; done.
  - vm_compute. discriminate.
  - exists decoded, d. split; [exact Hd|]. split; [exact Hc|]. rewrite Hs. vm_compute. reflexivity.
Defined.

(** The encoder does not notice a failure: events are encoded after it. *)
Example events_after_failure_encoded :
  let failed := event_new 0 (Failure (MkStreamError "overloaded" "try later" true None)) in
  match (@chat_encode_all bits_json Reject [failed; with_block_id (event_new 1 (TextDelta "more")) "answer"] chat_encoder_new).1 with
  | Ok [error; text] =>
    match @chat_decode_all bits_json [error; text] chat_decoder_new with
    | (Err (ChInvalidStream _), _) => True
    | _ => False
    end
  | _ => False
  end.
Proof. vm_compute. exact I. Qed.

(** The identity of a response that starts late changes within the stream, which the decoder refuses. *)
Example late_response_start_refused :
  let events := [event_new 0 (Refusal "no"); event_new 1 (ResponseStart (Some "resp-1") None)] in
  match (@chat_encode_all bits_json Reject events chat_encoder_new).1 with
  | Ok out => (@chat_decode_all bits_json out chat_decoder_new).1 = Err (ChInvalidStream "response ID changed within one stream")
  | Err _ => False
  end.
Proof. vm_compute. reflexivity. Qed.

(** The details of a usage have no field, and no entry in the report. *)
Example usage_details_unreported :
  let u := MkUsage 1 1 None None None {["audio_tokens" := 7]} in
  match (@chat_encode_event bits_json (event_new 0 (UsageEvent u)) Reject chat_encoder_new).1 with
  | Ok (Some c) => is_lossless (ec_report c) = true /\ chat_parse_usage (chat_encode_usage u) = Ok (MkUsage 1 1 None None (Some 2) ∅)
  | _ => False
  end.
Proof. vm_compute. split; reflexivity. Qed.
