(* ===== verification/OpenAiChatRequestFacts.v ===== *)
(** A request that was decoded from OpenAI Chat is encoded for OpenAI Chat without loss, and what
    was encoded is decoded to the same request. *)
From stdpp Require Import pretty.
From S2P Require Import Prelude Str CoreError Bytes Json JsonFacts Extensions Events Dialect Request Redact RedactWriter Codec SerdeModel OpenAiChat OpenAiChatRequest.

Open Scope N_scope.

(** * Computations on a report *)

(** The result of a computation on some report; its result on every report, with no loss added. *)
Definition yields {A} (m : Rep A) (a : A) : Prop := exists r r', m r = (Ok a, r').
Definition gives {A} (m : Rep A) (a : A) : Prop := forall r, exists r', m r = (Ok a, r') /\ (is_lossless r = true -> is_lossless r' = true).

Lemma yields_bind {A B} (m : Rep A) (k : A -> Rep B) b : yields (st_bind m k) b -> exists a, yields m a /\ yields (k a) b.
Proof.
  intros (r & r' & Hb). unfold st_bind in Hb. destruct (m r) as [[a|] r1] eqn:E; [|done]. exists a. split; [by exists r, r1|by exists r1, r'].
Qed.
Lemma yields_lift {A} (x : Result A OpenAiChatError) a : yields (st_lift x) a -> x = Ok a.
Proof. by intros (r & r' & [= -> _]). Qed.
Lemma yields_shape {A} (o : option A) f e a : yields (rep_shape o f e) a -> o = Some a.
Proof. intros Hs%yields_lift. by destruct o as [x|]; [injection Hs as ->|]. Qed.
Lemma yields_ret {A} (a b : A) : yields (st_ret a) b -> a = b.
Proof. by intros (r & r' & [= -> _]). Qed.

Lemma gives_ret {A} (a : A) : gives (st_ret a) a.
Proof. intros r. by exists r. Qed.
Lemma gives_bind {A B} (m : Rep A) (k : A -> Rep B) a b : gives m a -> gives (k a) b -> gives (st_bind m k) b.
Proof.
  intros Hm Hk r. destruct (Hm r) as (r1 & E1 & H1). destruct (Hk r1) as (r2 & E2 & H2). exists r2. unfold st_bind. rewrite E1. auto.
Qed.
Lemma gives_lift {A} (x : Result A OpenAiChatError) a : x = Ok a -> gives (st_lift x) a.
Proof. intros -> r. by exists r. Qed.
Lemma gives_shape {A} (o : option A) f e a : o = Some a -> gives (rep_shape o f e) a.
Proof. intros ->. by apply gives_lift. Qed.
Lemma gives_preserve c : gives (st_modify (fun r => preserve_capability r c)) tt.
Proof. intros r. eexists. split; [done|]. done. Qed.
Lemma gives_known object known field : forallb (fun kv => existsb (String.eqb kv.1) known) object = true ->
  gives (report_unknown_fields object known field) tt.
Proof.
  intros Hk r. eexists. split; [done|]. assert (foldl (fun r kv =>
    if existsb (String.eqb kv.1) known then r
    else drop_optional r (field +:+ "." +:+ kv.1) "OpenAI Chat field is not represented by the semantic model") r object = r) as ->; [|done].
  revert r. induction object as [|kv object IH]; intros r; [done|]. simpl in *. apply andb_true_iff in Hk as [-> Hk]. by apply IH.
Qed.
Lemma gives_no_extensions field : gives (report_unrepresentable_extensions field []) tt.
Proof. intros r. by exists r. Qed.
Lemma gives_when_false f : gives (rep_when false f) tt.
Proof. intros r. by exists r. Qed.

(** A list of items: what is encoded of each is read back. *)
Lemma gives_map {A B} (f : N -> A -> Rep B) l : forall index l', Forall2 (fun a b => forall i, gives (f i a) b) l l' -> gives (st_map_from f index l) l'.
Proof.
  induction l as [|a l IH]; intros index l' Hl; inversion Hl as [|? b ? l1 Ha Hr]; subst; [apply gives_ret|].
  cbn [st_map_from]. eapply gives_bind; [apply Ha|]. eapply gives_bind; [by apply IH|]. apply gives_ret.
Qed.
Lemma yields_map {A B} (f : N -> A -> Rep B) l : forall index l', yields (st_map_from f index l) l' ->
  Forall2 (fun a b => exists i, yields (f i a) b) l l'.
Proof.
  induction l as [|a l IH]; intros index l'; cbn [st_map_from]; [by intros <-%yields_ret|].
  intros (b & Hb & (rest & Hr & <-%yields_ret)%yields_bind)%yields_bind. constructor; [eauto|by eapply IH].
Qed.

Ltac yields_inv H :=
  repeat match type of H with
  | yields (st_bind _ _) _ => let x := fresh "x" in let Hx := fresh "Hx" in apply yields_bind in H as (x & Hx & H)
  | yields (st_ret _) _ => apply yields_ret in H
  end.

(** * Values of the Rust types *)

Definition rust_number (n : Number) : bool :=
  match n with
  | PosInt n => n <=? U64_MAX
  | NegInt z => (I64_MIN <=? z)%Z && (z <? 0)%Z
  | Float b => (b <? 2 ^ 64) && f64_is_finite b
  end.
Fixpoint rust_value (v : Value) : bool :=
  match v with
  | Null | Bool _ => true
  | Num n => rust_number n
  | Str s => utf8_valid (bytes_of s)
  | Array l => forallb rust_value l
  | Object m => sorted_keys m && forallb (fun kv => utf8_valid (bytes_of kv.1) && rust_value kv.2) m
  end.
(** What the parser returns. *)
Lemma exact_rust v : forall depth, exact_with finite_float depth v = true -> rust_value v = true.
Proof.
  induction v as [|[]|[]|s|l IH|m IH] using value_nested_ind; intros [|depth]; try done; cbn [exact_with rust_value].
  - rewrite !forallb_forall. intros Hx v Hv. rewrite Forall_forall in IH.
    apply (IH v (proj2 (list_elem_of_In _ _) Hv) depth). by apply Hx.
  - rewrite !andb_true_iff, !forallb_forall. intros [Hs Hx]. split; [done|]. intros kv Hkv. rewrite Forall_forall in IH.
    specialize (Hx kv Hkv). rewrite andb_true_iff in Hx |- *. split; [apply Hx|].
    apply (IH kv (proj2 (list_elem_of_In _ _) Hkv) depth), Hx.
Qed.
Lemma rust_get m k v : rust_value (Object m) = true -> obj_get k m = Some v -> rust_value v = true.
Proof.
  simpl. intros [_ Hm]%andb_true_iff. induction m as [|[j w] m IH]; simpl in *; [done|]. apply andb_true_iff in Hm as [[_ Hw]%andb_true_iff Hm].
  case_bool_decide; [by intros [= <-]|by apply IH].
Qed.
Lemma rust_elem l v : rust_value (Array l) = true -> v ∈ l -> rust_value v = true.
Proof. simpl. rewrite forallb_forall. intros Hl Hv. by apply Hl, list_elem_of_In. Qed.
Lemma rust_object v m : as_object v = Some m -> rust_value v = true -> rust_value (Object m) = true.
Proof. destruct v; try done. by intros [= ->]. Qed.

(** The members a decoder reads. *)
Lemma required_some o k f s : chat_required_string o k f = Ok s -> obj_get k o = Some (Str s).
Proof.
  unfold chat_required_string. destruct (obj_get k o) as [v|]; simpl; [|done]. destruct v; simpl; try done. by intros [= ->].
Qed.
Lemma optional_some o k f s : chat_optional_string o k f = Ok s -> obj_get k o = Str <$> s.
Proof.
  unfold chat_optional_string. destruct (obj_get k o) as [v|]; [|by intros [= <-]]. destruct v; simpl; try done. by intros [= <-].
Qed.
Lemma optional_bool_some o k f s : optional_bool o k f = Ok s -> obj_get k o = Bool <$> s.
Proof.
  unfold optional_bool. destruct (obj_get k o) as [v|]; [|by intros [= <-]]. destruct v; simpl; try done. by intros [= <-].
Qed.
Lemma optional_get o k f s : obj_get k o = Str <$> s -> chat_optional_string o k f = Ok s.
Proof. unfold chat_optional_string. intros ->. by destruct s. Qed.
Lemma optional_bool_get o k f s : obj_get k o = Bool <$> s -> optional_bool o k f = Ok s.
Proof. unfold optional_bool. intros ->. by destruct s. Qed.

(** * Parts of a message *)

Definition SEMICOLON : Ascii.ascii := Ascii.ascii_of_N 0x3B.
(** The media type of an audio part has no parameters, which the data URI could not tell from its own. *)
Definition plain_audio (part : ContentPart) : Prop :=
  match part with PartAudio media_type _ => contains_char media_type SEMICOLON = false | _ => True end.

Lemma strip_prefix_app p s : strip_prefix (p +:+ s) p = Some s.
Proof. by apply strip_prefix_spec. Qed.
Lemma split_base64 format data : contains_char format SEMICOLON = false ->
  split_once_str ";base64," (format +:+ ";base64," +:+ data) = Some (format, data).
Proof.
  induction format as [|c format IH]; intros Hf.
  - assert (Hp : strip_prefix (";base64," +:+ data) ";base64," = Some data) by apply strip_prefix_app.
    change (EmptyString +:+ ?s) with s. destruct (";base64," +:+ data) as [|c s]; [done|]. cbn [split_once_str]. by rewrite Hp.
  - simpl in Hf. apply orb_false_iff in Hf as [Hc Hf]. 
    change (String c format +:+ ?t) with (String c (format +:+ t)). cbn [split_once_str].
    destruct (strip_prefix _ _) as [rest|] eqn:E; [|by rewrite (IH Hf)].
    apply strip_prefix_spec in E. injection E as -> _. by rewrite Ascii.eqb_refl in Hc.
Qed.

Ltac gives_all :=
  repeat match goal with
  | |- gives (st_bind (st_lift _) _) _ => eapply gives_bind; [eapply gives_lift; reflexivity|]; cbv beta iota
  | |- gives (st_bind (rep_shape _ _ _) _) _ => eapply gives_bind; [eapply gives_shape; reflexivity|]
  | |- gives (st_bind (part_object _ _ _) _) _ => eapply gives_bind; [eapply gives_shape; reflexivity|]
  | |- gives (st_bind (report_unknown_fields _ _ _) _) _ => eapply gives_bind; [eapply gives_known; reflexivity|]
  | |- gives (st_bind (st_modify (fun r => preserve_capability r _)) _) _ => eapply gives_bind; [apply gives_preserve|]
  | |- gives (st_bind (report_unrepresentable_extensions _ []) _) _ => eapply gives_bind; [apply gives_no_extensions|]
  | |- gives (st_bind (rep_when false _) _) _ => eapply gives_bind; [apply gives_when_false|]
  | |- gives (st_bind (st_ret _) _) _ => eapply gives_bind; [apply gives_ret|]; cbv beta iota
  | |- gives (st_ret _) _ => apply gives_ret
  end.

Section facts.
Context `{SerdeJson}.

(** What was parsed is encoded so that it is parsed again. *)
Definition kept (part : ContentPart) (w : Value) : Prop :=
  gives (encode_content_part part) w /\ (forall field, gives (parse_content_part w field) part)
  /\ only_text [w] = match part with PartText t => Some (Str t) | _ => None end
  /\ match part with PartToolCall _ | PartToolResult _ => False | _ => True end.

Lemma text_kept t : kept (PartText t) (text_part t).
Proof. split_and!; [apply gives_ret| |done|done]. intros field. unfold parse_content_part. gives_all. cbn [String.eqb Ascii.eqb Bool.eqb]. gives_all. Qed.

Lemma image_kept url detail : exists w, kept (PartImage "image/*" (MediaUri url) detail) w.
Proof.
  eexists. split_and!; [apply gives_ret| |by destruct detail|done]. intros field. unfold parse_content_part.
  destruct detail; gives_all; cbn [String.eqb Ascii.eqb Bool.eqb]; unfold parse_image; gives_all.
Qed.

Lemma audio_kept format data : contains_char ("audio/" +:+ format) SEMICOLON = false ->
  exists w, kept (PartAudio ("audio/" +:+ format) (MediaUri ("data:audio/" +:+ format +:+ ";base64," +:+ data))) w.
Proof.
  intros Hf. rewrite contains_char_app in Hf. apply orb_false_iff in Hf as [_ Hf]. eexists. split_and!.
  - cbn [encode_content_part]. unfold encode_audio. rewrite (proj2 (starts_with_spec _ "data:audio/")) by eauto.
    assert (audio_uri ("data:audio/" +:+ format +:+ ";base64," +:+ data) = Some (format, data)) as ->.
    { unfold audio_uri. rewrite strip_prefix_app. cbn [mbind option_bind]. by apply split_base64. }
    gives_all.
  - intros field. unfold parse_content_part. gives_all. cbn [String.eqb Ascii.eqb Bool.eqb]. unfold parse_audio. gives_all.
  - done.
  - done.
Qed.

Lemma file_kept name source : exists w, kept (PartFile name "application/octet-stream" (MediaUri source)) w.
Proof.
  eexists. split_and!.
  - cbn [encode_content_part]. unfold encode_file. gives_all.
  - intros field. unfold parse_content_part. destruct (starts_with source "data:"), name; gives_all; cbn [String.eqb Ascii.eqb Bool.eqb];
      unfold parse_file; gives_all.
  - done.
  - done.
Qed.

(** A part that is preserved as it is. *)
Lemma provider_kept v kind data o field0 : as_object v = Some o -> chat_required_string o "type" field0 = Ok kind ->
  String.eqb kind "text" = false -> String.eqb kind "image_url" = false -> String.eqb kind "input_audio" = false -> String.eqb kind "file" = false ->
  map_err ChPreservedJson (pj_from_value v) = Ok data -> kept (PartProvider UNKNOWN_FIELDS_NAMESPACE kind data) v.
Proof.
  intros Ho Hkind%required_some H1 H2 H3 H4 Hd. assert (Hv : pj_value data = v).
  { unfold pj_from_value in Hd. by destruct (to_vec v); simplify_eq/=. }
  destruct v as [| | | | |m]; try done. injection Ho as ->. split_and!.
  - cbn [encode_content_part]. rewrite String.eqb_refl, Hv. gives_all.
  - intros field. unfold parse_content_part. gives_all. eapply gives_bind; [apply gives_lift|].
    { unfold chat_required_string. rewrite Hkind. reflexivity. }
    rewrite H1, H2, H3, H4. unfold provider_part. destruct (String.eqb_spec kind "refusal") as [-> |_]; gives_all;
      (eapply gives_bind; [by apply gives_lift|]); gives_all.
  - simpl. by rewrite Hkind, H1.
  - done.
Qed.

Lemma part_kept v field part : yields (parse_content_part v field) part -> plain_audio part -> exists w, kept part w.
Proof.
  unfold parse_content_part. intros Hp Ha. yields_inv Hp. apply yields_shape in Hx. apply yields_lift in Hx0.
  destruct (String.eqb x0 "text") eqn:E1; [|destruct (String.eqb x0 "image_url") eqn:E2; [|destruct (String.eqb x0 "input_audio") eqn:E3;
    [|destruct (String.eqb x0 "file") eqn:E4]]].
  - yields_inv Hp. subst part. eexists. apply text_kept.
  - unfold parse_image in Hp. yields_inv Hp. subst part. apply image_kept.
  - unfold parse_audio in Hp. yields_inv Hp. subst part. by apply audio_kept.
  - unfold parse_file in Hp. yields_inv Hp. subst part. apply file_kept.
  - exists v. destruct (String.eqb_spec x0 "refusal") as [-> |_]; unfold provider_part in Hp; yields_inv Hp; subst part.
    + apply yields_lift in Hx1. by eapply provider_kept.
    + apply yields_lift in Hx2. by eapply provider_kept.
Qed.

(** ** Contents *)

Lemma content_kept v field parts : yields (parse_content v field) parts -> Forall plain_audio parts -> exists ws, Forall2 kept parts ws.
Proof.
  intros Hc Ha. assert (Hparts : Forall (fun p => exists w, kept p w) parts).
  { destruct v; cbn [parse_content] in Hc; yields_inv Hc; subst.
    - constructor.
    - by apply yields_shape in Hx.
    - by apply yields_shape in Hx.
    - constructor; [|constructor]. eexists. apply text_kept.
    - apply yields_map in Hc. clear Hx. induction Hc as [|v part vs parts [i Hp] _ IH]; [constructor|]. apply Forall_cons in Ha as [Ha Has].
      constructor; [by eapply part_kept|by apply IH].
    - by apply yields_shape in Hx. }
  clear Hc Ha. induction Hparts as [|part parts [w Hw] _ [ws IH]]; [by exists []|]. exists (w :: ws). by constructor.
Qed.

Definition content_value (ws : list Value) : Value := match ws with [] => Null | _ => default (Array ws) (only_text ws) end.
Lemma array_reads parts ws field : Forall2 kept parts ws -> gives (parse_content (Array ws) field) parts.
Proof.
  intros Hk. cbn [parse_content]. gives_all. apply gives_map. apply Forall2_flip. eapply Forall2_impl; [exact Hk|].
  intros part w (_ & Hr & _) i. apply Hr.
Qed.
Lemma content_reads parts ws field : Forall2 kept parts ws -> gives (parse_content (content_value ws) field) parts.
Proof.
  intros Hk. destruct Hk as [|part w parts ws Hw Hk]; [apply gives_ret|]. destruct Hk as [|part' w' parts ws Hw' Hk].
  - unfold content_value. pose proof Hw as (_ & _ & Ho & _). rewrite Ho. destruct part; try apply gives_ret; (apply array_reads; constructor; [done|constructor]).
  - assert (content_value (w :: w' :: ws) = Array (w :: w' :: ws)) as -> by (simpl; by destruct w). apply array_reads. by constructor; [|constructor].
Qed.
Lemma encode_content parts ws : Forall2 kept parts ws -> gives (st_map_from (fun _ part => encode_content_part part) 0 parts) ws.
Proof. intros Hk. apply gives_map. eapply Forall2_impl; [exact Hk|]. by intros part w (He & _) _. Qed.

(** ** Tool calls *)

Definition call_kept (call : ToolCall) (w : Value) : Prop :=
  gives (encode_tool_call call) w /\ forall field, gives (parse_tool_call w field) call.
Lemma tool_call_kept v field call : yields (parse_tool_call v field) call -> rust_value v = true -> exists w, call_kept call w.
Proof.
  unfold parse_tool_call. intros Hp Hv. yields_inv Hp. apply yields_shape in Hx, Hx2. apply yields_lift, required_some in Hx5.
  apply bind_Some in Hx2 as (f & Hf & Hobj).
  assert (Hu : utf8_valid (bytes_of x5) = true).
  { apply (rust_get x2 "arguments" (Str x5)); [|done]. eapply rust_object; [exact Hobj|]. eapply rust_get; [|exact Hf]. by eapply rust_object. }
  destruct (pj_from_bytes (bytes_of x5)) as [doc|] eqn:E; [|by apply yields_lift in Hp]. apply yields_ret in Hp as <-.
  assert (Hd : document_string doc = x5).
  { unfold pj_from_bytes in E. destruct (from_slice (bytes_of x5)); [|done]. injection E as <-. unfold document_string. simpl.
    by rewrite from_utf8_lossy_id, of_bytes_of. }
  eexists. split.
  - unfold encode_tool_call, tool_call_new. cbn [tc_dependencies tc_extensions tc_id tc_name tc_arguments]. rewrite Hd. cbn [list_is_empty negb]. gives_all.
  - intros g. unfold parse_tool_call. gives_all. rewrite E. gives_all.
Qed.

Lemma encode_calls calls cs : Forall2 call_kept calls cs -> gives (encode_parts (map PartToolCall calls)) ([], cs).
Proof.
  induction 1 as [|call c calls cs [He _] _ IH]; [apply gives_ret|]. cbn [map encode_parts].
  eapply gives_bind; [exact He|]. eapply gives_bind; [exact IH|]. apply gives_ret.
Qed.
Lemma encode_parts_kept parts ws calls cs : Forall2 kept parts ws -> Forall2 call_kept calls cs ->
  gives (encode_parts (parts ++ map PartToolCall calls)) (ws, cs).
Proof.
  intros Hk Hc. induction Hk as [|part w parts ws (He & _ & _ & Hn) _ IH]; [by apply encode_calls|].
  destruct part; try done; cbn [app encode_parts]; (eapply gives_bind; [exact He|]); (eapply gives_bind; [exact IH|]); apply gives_ret.
Qed.

(** ** Messages *)

Definition plain_item (item : InputItem) : Prop :=
  match item with
  | ItemMessage message => Forall plain_audio (ms_content message)
  | ItemToolResult (MkToolResult _ content _ _) => Forall plain_audio content
  | _ => True
  end.
Definition item_kept (item : InputItem) (w : Value) : Prop :=
  gives (encode_input_item item) w /\ forall index, gives (parse_message index w) item.

Definition message_object (role : string) (ws cs : list Value) (name id : option string) : list (string * Value) :=
  if list_is_empty cs then json_message role ws name id else obj_insert "tool_calls" (Array cs) (json_message role ws name id).
Lemma message_members role ws cs name id :
  let o := message_object role ws cs name id in
  obj_get "role" o = Some (Str role) /\ obj_get "content" o = Some (content_value ws) /\ obj_get "id" o = Str <$> id
  /\ obj_get "name" o = Str <$> name /\ obj_get "tool_calls" o = (if list_is_empty cs then None else Some (Array cs))
  /\ forallb (fun kv => existsb (String.eqb kv.1) ["role"; "content"; "id"; "name"; "tool_calls"]) o = true
  /\ (cs = [] -> forallb (fun kv => existsb (String.eqb kv.1) ["role"; "content"; "id"; "name"]) o = true).
Proof. destruct cs, name, id; by split_and!. Qed.

Lemma gives_required o k f s : obj_get k o = Some (Str s) -> gives (st_lift (chat_required_string o k f)) s.
Proof. intros Hk. apply gives_lift. unfold chat_required_string. by rewrite Hk. Qed.
Lemma gives_optional o k f s : obj_get k o = Str <$> s -> gives (st_lift (chat_optional_string o k f)) s.
Proof. intros Hk. by apply gives_lift, optional_get. Qed.

Lemma encode_message_gives id role content name ws cs : role <> RoleTool -> gives (encode_parts content) (ws, cs) ->
  gives (encode_message (MkMessage id role content name None ∅ [])) (Object (message_object (role_name role) ws cs name id)).
Proof.
  intros Hr Hp. unfold encode_message. cbn [ms_metadata ms_extensions ms_role ms_tool_call_id ms_content ms_name ms_id is_some].
  rewrite (bool_decide_eq_true_2 (∅ = ∅)) by done. rewrite (bool_decide_eq_false_2 (role = RoleTool)) by done. cbn [negb andb]. gives_all.
  eapply gives_bind; [exact Hp|]. apply gives_ret.
Qed.

Lemma plain_kept role content id name ws : role ∈ [RoleSystem; RoleDeveloper; RoleUser] -> Forall2 kept content ws ->
  exists w, item_kept (ItemMessage (MkMessage id role content name None ∅ [])) w.
Proof.
  intros Hrole Hk. eexists. split.
  - apply encode_message_gives; [by intros ->; set_solver|]. rewrite <- (app_nil_r content). by apply (encode_parts_kept content ws [] []).
  - intros index. destruct (message_members (role_name role) ws [] name id) as (Hr & Hc & Hi & Hn & _ & _ & Hknown).
    set (o := message_object _ _ _ _ _) in *. clearbody o. unfold parse_message. gives_all. eapply gives_bind; [by apply gives_required|].
    rewrite Hc. eapply gives_bind; [by apply (content_reads content ws)|].
    assert (gives (parse_plain o role content (indexed "messages" index)) (ItemMessage (MkMessage id role content name None ∅ []))) as Hg.
    { unfold parse_plain. eapply gives_bind; [by apply gives_known, Hknown|]. eapply gives_bind; [by apply gives_optional|].
      eapply gives_bind; [by apply gives_optional|]. apply gives_ret. }
    destruct role; try exact Hg; set_solver.
Qed.

Lemma assistant_kept content calls id name ws cs : Forall2 kept content ws -> Forall2 call_kept calls cs ->
  exists w, item_kept (ItemMessage (MkMessage id RoleAssistant (content ++ map PartToolCall calls) name None ∅ [])) w.
Proof.
  intros Hk Hcs. eexists. split; [apply encode_message_gives; [done|by apply encode_parts_kept]|].
  intros index. destruct (message_members "assistant" ws cs name id) as (Hr & Hc & Hi & Hn & Ht & Hknown & _).
  change (role_name RoleAssistant) with "assistant". set (o := message_object _ _ _ _ _) in *. clearbody o.
  unfold parse_message. gives_all. eapply gives_bind; [by apply gives_required|].
  rewrite Hc. eapply gives_bind; [by apply (content_reads content ws)|]. cbn [String.eqb Ascii.eqb Bool.eqb]. unfold parse_assistant. rewrite Ht.
  eapply (gives_bind _ _ calls).
  { destruct Hcs as [|call c calls cs Hcall Hcs]; cbn [list_is_empty]; [apply gives_ret|]. gives_all. apply gives_map. apply Forall2_flip.
    eapply Forall2_impl; [by constructor|]. intros ? ? [_ Hg] i. apply Hg. }
  eapply gives_bind; [by apply gives_known|]. eapply gives_bind; [by apply gives_optional|].
  eapply gives_bind; [by apply gives_optional|]. apply gives_ret.
Qed.

Lemma tool_result_kept id content ws : Forall2 kept content ws -> exists w, item_kept (ItemToolResult (MkToolResult id content false [])) w.
Proof.
  intros Hk. assert (exists c, gives (match content with
                  | [PartText text] => st_ret (Str text)
                  | _ => let* parts := st_map_from (fun _ part => encode_content_part part) 0 content in st_ret (Array parts)
                  end) c /\ forall field, gives (parse_content c field) content) as (c & He & Hr).
  { assert (exists c, gives (let* parts := st_map_from (fun _ part => encode_content_part part) 0 content in st_ret (Array parts)) c
      /\ forall field, gives (parse_content c field) content) as Hall.
    { exists (Array ws). split; [eapply gives_bind; [by apply encode_content|apply gives_ret]|]. intros field. by apply array_reads. }
    destruct content as [|[] [|]]; try exact Hall. eexists. split; [apply gives_ret|]. intros field. apply gives_ret. }
  eexists. split.
  - cbn [encode_input_item encode_tool_result_message]. gives_all. eapply gives_bind; [exact He|apply gives_ret].
  - intros index. unfold parse_message. gives_all. eapply gives_bind; [apply Hr|]. cbn [String.eqb Ascii.eqb Bool.eqb].
    unfold parse_tool_message. gives_all.
Qed.

Lemma calls_kept object field calls : rust_value (Object object) = true ->
  yields (match obj_get "tool_calls" object with
          | None => st_ret []
          | Some v =>
            let* calls := rep_shape (as_array v) (field +:+ ".tool_calls") "an array" in
            st_map_from (fun index call => parse_tool_call call (indexed (field +:+ ".tool_calls") index)) 0 calls
          end) calls -> exists cs, Forall2 call_kept calls cs.
Proof.
  intros Hv Hc. destruct (obj_get "tool_calls" object) as [v|] eqn:Ev; [|apply yields_ret in Hc as <-; by exists []].
  apply (rust_get _ _ _ Hv) in Ev. yields_inv Hc. apply yields_shape in Hx. destruct v; try done. injection Hx as ->. apply yields_map in Hc.
  cbn [rust_value] in Ev. revert Ev. induction Hc as [|v call vs calls [i Hp] _ IH]; [by exists []|]. cbn [forallb].
  intros [Hr Hrs]%andb_true_iff. destruct (IH Hrs) as [cs Hcs]. destruct (tool_call_kept _ _ _ Hp Hr) as [w Hw]. exists (w :: cs). by constructor.
Qed.

Lemma message_kept index v item : yields (parse_message index v) item -> rust_value v = true -> plain_item item -> exists w, item_kept item w.
Proof.
  unfold parse_message. intros Hp Hv Ha. yields_inv Hp. apply yields_shape in Hx. pose proof (rust_object _ _ Hx Hv) as Ho.
  assert (Hplain : forall role, role ∈ [RoleSystem; RoleDeveloper; RoleUser] -> yields (parse_plain x role x1 (indexed "messages" index)) item ->
    exists w, item_kept item w).
  { intros role Hrole Hi. unfold parse_plain in Hi. yields_inv Hi. subst item. destruct (content_kept _ _ _ Hx1 Ha) as [ws Hk]. by eapply plain_kept. }
  destruct (String.eqb x0 "system"); [by apply (Hplain RoleSystem); [set_solver|]|].
  destruct (String.eqb x0 "developer"); [by apply (Hplain RoleDeveloper); [set_solver|]|].
  destruct (String.eqb x0 "user"); [by apply (Hplain RoleUser); [set_solver|]|]. destruct (String.eqb x0 "assistant").
  { unfold parse_assistant in Hp. yields_inv Hp. subst item. apply calls_kept in Hx2 as [cs Hcs]; [|done].
    apply Forall_app in Ha as [Ha _]. destruct (content_kept _ _ _ Hx1 Ha) as [ws Hk]. by eapply assistant_kept. }
  destruct (String.eqb x0 "tool"); [|by apply yields_lift in Hp]. unfold parse_tool_message in Hp. yields_inv Hp. subst item.
  destruct (content_kept _ _ _ Hx1 Ha) as [ws Hk]. by eapply tool_result_kept.
Qed.

(** ** Tools *)

Lemma kept_document v doc : map_err ChPreservedJson (pj_from_value v) = Ok doc -> pj_value doc = v.
Proof. unfold pj_from_value. intros Hd. by destruct (to_vec v); simplify_eq/=. Qed.

Definition tool_kept (tool : ToolDefinition) (w : Value) : Prop :=
  gives (encode_tool_definition tool) w /\ forall index, gives (parse_tool index w) tool.
Lemma tool_definition_kept index v tool : yields (parse_tool index v) tool -> exists w, tool_kept tool w.
Proof.
  unfold parse_tool. intros Hp. yields_inv Hp. destruct (is_some _); [by apply yields_lift in Hp|]. yields_inv Hp.
  assert (Hdoc : match x5 with Some doc => map_err ChPreservedJson (pj_from_value (pj_value doc)) = Ok doc | None => True end).
  { destruct (obj_get "parameters" x2) as [p|]; [|by apply yields_ret in Hx5 as <-]. yields_inv Hx5. subst x5.
    apply yields_lift in Hx8. by rewrite (kept_document _ _ Hx8). }
  subst tool. eexists. split.
  - unfold encode_tool_definition. cbn [td_extensions td_name td_description td_parameters td_strict]. gives_all.
  - intros i. unfold parse_tool. gives_all. cbn [opt_filter String.eqb Ascii.eqb Bool.eqb negb is_some].
    assert (Hm : let f := insert_some "strict" (Bool <$> x7) (insert_some "parameters" (pj_value <$> x5)
                   (insert_some "description" (Str <$> x6) [("name", Str x4)])) in
      obj_get "name" f = Some (Str x4) /\ obj_get "parameters" f = pj_value <$> x5 /\ obj_get "description" f = Str <$> x6
      /\ obj_get "strict" f = Bool <$> x7
      /\ forallb (fun kv => existsb (String.eqb kv.1) ["name"; "parameters"; "description"; "strict"]) f = true)
      by (destruct x5, x6, x7; by split_and!).
    gives_all. set (f := insert_some _ _ _) in *. clearbody f. destruct Hm as (Hn & Hpar & Hd & Hs & Hk).
    eapply gives_bind; [by apply gives_known|]. eapply gives_bind; [by apply gives_required|]. rewrite Hpar. eapply (gives_bind _ _ x5).
    { destruct x5 as [doc|]; simpl; [|apply gives_ret]. eapply gives_bind; [by apply gives_lift|apply gives_ret]. }
    eapply gives_bind; [by apply gives_optional|]. eapply gives_bind; [by apply gives_lift, optional_bool_get|apply gives_ret].
Qed.
Lemma tools_kept v tools : yields (parse_tools v) tools -> exists ws, Forall2 tool_kept tools ws.
Proof.
  unfold parse_tools. intros Hp. yields_inv Hp. apply yields_map in Hp. clear Hx.
  induction Hp as [|t tool ts tools [i Ht] _ [ws IH]]; [by exists []|]. apply tool_definition_kept in Ht as [w Hw]. exists (w :: ws). by constructor.
Qed.
Lemma tools_read tools ws : Forall2 tool_kept tools ws -> gives (parse_tools (Array ws)) tools.
Proof.
  intros Hk. unfold parse_tools. gives_all. apply gives_map, Forall2_flip. eapply Forall2_impl; [exact Hk|]. by intros tool w [_ Hr].
Qed.

Lemma choice_reads_back choice : gives (parse_tool_choice (encode_tool_choice choice)) choice.
Proof. destruct choice; apply gives_ret. Qed.

(** ** The format and the reasoning effort *)

Lemma format_kept value format : yields (parse_response_format value) format ->
  gives (parse_response_format (encode_response_format <$> format)) format.
Proof.
  destruct value as [v|]; cbn [parse_response_format]; intros Hp; [|apply yields_ret in Hp as <-; apply gives_ret].
  yields_inv Hp. destruct (String.eqb x1 "text"); [yields_inv Hp; subst; apply gives_ret|].
  destruct (String.eqb x1 "json_object"); [yields_inv Hp; subst; apply gives_ret|].
  destruct (String.eqb x1 "json_schema"); [|by apply yields_lift in Hp]. yields_inv Hp. subst. unfold parse_json_schema in Hx2. yields_inv Hx2.
  subst x2. destruct (obj_get "schema" x3) as [sv|]; [|by apply yields_lift in Hx6]. apply yields_lift in Hx6.
  pose proof (kept_document _ _ Hx6) as Hd. cbn [encode_response_format fmap option_fmap option_map parse_response_format]. unfold json_object. gives_all.
  cbn [String.eqb Ascii.eqb Bool.eqb]. eapply gives_bind; [|apply gives_ret].
  unfold parse_json_schema. gives_all. rewrite Hd. eapply gives_bind; [apply gives_lift, Hx6|]. gives_all.
Qed.
Lemma effort_kept value reasoning : parse_reasoning value = Ok reasoning ->
  reasoning = None \/ exists s, reasoning = Some (MkReasoningConfig (Some (parse_effort s)) false []).
Proof.
  destruct value as [v|]; cbn [parse_reasoning]; [|intros [= <-]; by left]. destruct v; try done. intros [= <-]. right. eauto.
Qed.
Lemma effort_name_reads s : parse_effort (reasoning_effort_name (parse_effort s)) = parse_effort s.
Proof.
  unfold parse_effort. destruct (String.eqb s "low") eqn:E1; [done|]. destruct (String.eqb s "medium") eqn:E2; [done|].
  destruct (String.eqb s "high") eqn:E3; [done|]. destruct (String.eqb s "max") eqn:E4; [done|]. simpl. by rewrite E1, E2, E3, E4.
Qed.

(** ** Numbers and the stop sequences *)

Definition opt_finite (x : option F32) : Prop := match x with Some x => f32_finite x | None => True end.
Lemma number_bound n : rust_number n = true -> number_as_f64 n < 2 ^ 64.
Proof.
  destruct n as [n|z|b]; cbn [rust_number number_as_f64].
  - rewrite N.leb_le. unfold U64_MAX. intros Hn. assert (u64_to_f64 n < 2 ^ 63) by (apply u64_to_f64_bound; lia). lia.
  - rewrite andb_true_iff, Z.leb_le, Z.ltb_lt. unfold I64_MIN, F64_SIGN. intros [Ha Hb].
    assert (u64_to_f64 (Z.abs_N z) < 2 ^ 63) by (apply u64_to_f64_bound; lia). lia.
  - rewrite andb_true_iff, N.ltb_lt. tauto.
Qed.
Lemma take_f32_inv m k x m' : rust_value (Object m) = true -> take_f32 m k = Ok (x, m') -> opt_finite x /\ m' = obj_remove k m.
Proof.
  unfold take_f32. intros Hr Ht. destruct (obj_get k m) as [v|] eqn:Ev; [|by injection Ht as <- <-]. apply (rust_get _ _ _ Hr) in Ev.
  destruct v; try done. cbn [as_number ok_or result_bind] in Ht. destruct (in_f32_range _) eqn:E; [|done]. injection Ht as <- <-. split; [|done].
  apply narrow_finite; [|done]. by apply number_bound.
Qed.
Lemma take_f32_get m k x : opt_finite x -> obj_get k m = f32_number <$> x -> take_f32 m k = Ok (x, obj_remove k m).
Proof.
  unfold take_f32. intros Hx ->. destruct x as [x|]; [|done]. cbn [fmap option_fmap option_map f32_number as_number ok_or result_bind number_as_f64].
  destruct (f32_roundtrip x Hx) as [-> ->]. done.
Qed.
Lemma take_u64_inv m k x m' : take_u64 m k = Ok (x, m') -> m' = obj_remove k m.
Proof. unfold take_u64. destruct (obj_get k m) as [v|]; [destruct (as_u64 v); [|done]|]; by intros [= _ <-]. Qed.
Lemma take_u64_get m k x : obj_get k m = number <$> x -> take_u64 m k = Ok (x, obj_remove k m).
Proof. unfold take_u64. intros ->. by destruct x. Qed.

Definition opt_u32 (x : option N) : Prop := match x with Some n => n <= U32_MAX | None => True end.
Lemma as_u32_inv v f n : as_u32 v f = Ok n -> n <= U32_MAX.
Proof. unfold as_u32. destruct (as_u64 v); simpl; [|done]. destruct (N.leb_spec n0 U32_MAX); [|done]. by intros [= <-]. Qed.
Lemma as_u32_number n f : n <= U32_MAX -> as_u32 (number n) f = Ok n.
Proof. intros Hn. unfold as_u32. simpl. by rewrite (proj2 (N.leb_le _ _) Hn). Qed.
Lemma max_tokens_inv m x m' : parse_max_tokens m = Ok (x, m') -> opt_u32 x /\ m' = obj_remove "max_completion_tokens" (obj_remove "max_tokens" m).
Proof.
  unfold parse_max_tokens. intros Hp. destruct (match obj_get "max_tokens" m with Some _ => _ | None => _ end) as [y|] eqn:Ey; [|done]. simpl in Hp.
  assert (Hy : opt_u32 y).
  { destruct (obj_get "max_tokens" m) as [v|]; [|by injection Ey as <-]. destruct (as_u32 v _) eqn:E; [|done]. injection Ey as <-. by apply as_u32_inv in E. }
  destruct (obj_get _ (obj_remove _ m)) as [v|]; [|by injection Hp as <- <-]. destruct (is_some y); [done|].
  destruct (as_u32 v _) eqn:E; [|done]. injection Hp as <- <-. by apply as_u32_inv in E.
Qed.
Lemma max_tokens_get m x : opt_u32 x -> obj_get "max_tokens" m = number <$> x -> obj_get "max_completion_tokens" (obj_remove "max_tokens" m) = None ->
  parse_max_tokens m = Ok (x, obj_remove "max_completion_tokens" (obj_remove "max_tokens" m)).
Proof. unfold parse_max_tokens. intros Hx -> ->. destruct x as [n|]; [|done]. cbn [fmap option_fmap option_map]. by rewrite as_u32_number. Qed.

Lemma stop_inv m x m' : parse_stop m = Ok (x, m') -> m' = obj_remove "stop" m.
Proof.
  unfold parse_stop. destruct (obj_get "stop" m) as [v|]; [|by intros [= _ <-]]. destruct v; try done; [by intros [= _ <-]|]. simpl.
  destruct (stop_strings 0 l); [|done]. by intros [= _ <-].
Qed.
Lemma stop_strings_read l : forall i, stop_strings i (map Str l) = Ok l.
Proof. induction l as [|s l IH]; intros i; [done|]. simpl. by rewrite IH. Qed.
Lemma stop_get m x : obj_get "stop" m = encode_stop x -> parse_stop m = Ok (x, obj_remove "stop" m).
Proof.
  unfold parse_stop. intros ->. destruct x as [|s [|t x]]; [done..|]. cbn [encode_stop as_array ok_or result_bind]. by rewrite stop_strings_read.
Qed.

(** ** Metadata *)

Lemma metadata_read members : forall g, (forall k, obj_get k members = Str <$> g !! k) -> NoDup members.*1 -> metadata_strings members = Ok g.
Proof.
  induction members as [|[k v] members IH]; intros g Hg Hn.
  - simpl. f_equal. symmetry. apply map_empty. intros k. specialize (Hg k). simpl in Hg. by destruct (g !! k).
  - simpl in Hn. apply NoDup_cons in Hn as [Hk Hn]. pose proof (Hg k) as Hv. simpl in Hv. rewrite bool_decide_eq_true_2 in Hv by done.
    destruct (g !! k) as [s|] eqn:Es; [|done]. injection Hv as ->. simpl. rewrite (IH (delete k g)); [|intros u|done].
    + simpl. f_equal. by apply insert_delete_id.
    + specialize (Hg u). simpl in Hg. destruct (decide (u = k)) as [-> |Hne].
      * rewrite lookup_delete_eq. destruct (obj_get k members) as [w|] eqn:Ew; [|done]. by apply obj_get_key in Ew.
      * rewrite lookup_delete_ne by done. by rewrite bool_decide_eq_false_2 in Hg.
Qed.
Lemma obj_get_strings (l : list (string * string)) k :
  obj_get k (map (fun kv => (kv.1, Str kv.2)) l) = Str <$> (list_to_map l : gmap string string) !! k.
Proof.
  induction l as [|[j s] l IH]; [done|]. simpl. case_bool_decide as E; [subst; by rewrite lookup_insert_eq|by rewrite lookup_insert_ne, IH].
Qed.
Lemma metadata_reads g : parse_metadata (encode_metadata g) = Ok g.
Proof.
  unfold encode_metadata. case_bool_decide as E; [by subst|]. cbn [parse_metadata as_object ok_or result_bind].
  assert (forall l m, foldl (fun m kv => obj_insert kv.1 (Str kv.2) m) m l =
    foldl (fun m kv => obj_insert kv.1 kv.2 m) m (map (fun kv : string * string => (kv.1, Str kv.2)) l)) as ->.
  { induction l as [|kv l IH]; intros m; [done|]. simpl. apply IH. }
  apply metadata_read; [intros k|apply sorted_keys_nodup; by apply sorted_inserted].
  rewrite obj_get_inserted.
  - rewrite obj_get_strings, btree_list_map. by destruct (g !! k).
  - rewrite <- list_fmap_compose. apply (btree_list_nodup g).
Qed.

(** ** Fields that are taken out and put in *)

Definition removes (ks : list string) (m : list (string * Value)) : list (string * Value) := foldl (fun m k => obj_remove k m) m ks.
Lemma sorted_removes ks : forall m, sorted_keys m = true -> sorted_keys (removes ks m) = true.
Proof. induction ks as [|k ks IH]; intros m Hm; [done|]. by apply IH, sorted_remove. Qed.
Lemma removes_get ks : forall m u, sorted_keys m = true -> obj_get u (removes ks m) = if existsb (String.eqb u) ks then None else obj_get u m.
Proof.
  induction ks as [|k ks IH]; intros m u Hm; [done|]. cbn [removes foldl existsb]. fold (removes ks (obj_remove k m)).
  rewrite IH, obj_get_remove by (try apply sorted_remove; done).
  destruct (String.eqb_spec u k) as [-> |Hne]; simpl; [rewrite bool_decide_eq_true_2 by done; by destruct (existsb _ ks)|].
  by rewrite bool_decide_eq_false_2.
Qed.

(** Members that may be absent. *)
Definition put_all (l : list (string * option Value)) (m : list (string * Value)) : list (string * Value) :=
  foldl (fun m kv => insert_some kv.1 kv.2 m) m l.
Lemma sorted_put_all l : forall m, sorted_keys m = true -> sorted_keys (put_all l m) = true.
Proof. induction l as [|[k [v|]] l IH]; intros m Hm; [done|by apply IH, sorted_insert|by apply IH]. Qed.
Fixpoint member (u : string) (l : list (string * option Value)) : option Value :=
  match l with [] => None | (k, v) :: l => if String.eqb u k then v else member u l end.
Lemma put_all_get l : forall m u, NoDup l.*1 -> obj_get u (put_all l m) = match member u l with Some v => Some v | None => obj_get u m end.
Proof.
  induction l as [|[k v] l IH]; intros m u; [done|]. cbn [fmap list_fmap]. intros [Hk Hl]%NoDup_cons. 
  change (put_all ((k, v) :: l) m) with (put_all l (insert_some k v m)). rewrite IH by done. cbn [member].
  assert (Hm : member k l = None).
  { clear -Hk. induction l as [|[j w] l IH]; simpl in *; [done|]. apply not_elem_of_cons in Hk as [Hne Hk].
    destruct (String.eqb_spec k j); [done|by apply IH]. }
  destruct (String.eqb_spec u k) as [-> |Hne].
  - rewrite Hm. destruct v; simpl; [by rewrite obj_get_insert|done].
  - destruct v; simpl; [|done]. by rewrite obj_get_insert_ne.
Qed.

(** ** Sampling *)

Definition SAMPLING_KEYS : list string :=
  ["temperature"; "top_p"; "max_tokens"; "max_completion_tokens"; "stop"; "seed"; "presence_penalty"; "frequency_penalty"].
Definition sampling_ok (s : SamplingParameters) : Prop :=
  opt_finite (sa_temperature s) /\ opt_finite (sa_top_p s) /\ opt_u32 (sa_max_output_tokens s) /\ opt_finite (sa_presence_penalty s)
  /\ opt_finite (sa_frequency_penalty s) /\ sa_extensions s = [].
Definition sampling_members (s : SamplingParameters) : list (string * option Value) :=
  [("temperature", f32_number <$> sa_temperature s); ("top_p", f32_number <$> sa_top_p s); ("max_tokens", number <$> sa_max_output_tokens s);
   ("stop", encode_stop (sa_stop s)); ("seed", number <$> sa_seed s); ("presence_penalty", f32_number <$> sa_presence_penalty s);
   ("frequency_penalty", f32_number <$> sa_frequency_penalty s)].

Lemma rust_remove k m : rust_value (Object m) = true -> rust_value (Object (obj_remove k m)) = true.
Proof.
  cbn [rust_value]. intros [Hs Hm]%andb_true_iff. apply andb_true_iff. split; [by apply sorted_remove|]. clear Hs.
  induction m as [|[j v] m IH]; [done|]. cbn [obj_remove forallb] in *. apply andb_true_iff in Hm as [Hj Hm].
  case_bool_decide; [done|]. cbn [forallb]. by rewrite Hj, IH.
Qed.
Lemma rust_removes ks : forall m, rust_value (Object m) = true -> rust_value (Object (removes ks m)) = true.
Proof. induction ks as [|k ks IH]; intros m Hm; [done|]. by apply IH, rust_remove. Qed.

Lemma sampling_inv m s m' : rust_value (Object m) = true -> parse_sampling m = Ok (s, m') -> sampling_ok s /\ m' = removes SAMPLING_KEYS m.
Proof.
  intros Hr Hp. unfold parse_sampling in Hp.
  apply result_bind_Ok in Hp as ([t m1] & H1 & Hp). apply take_f32_inv in H1 as [Ht ->]; [|done].
  apply result_bind_Ok in Hp as ([p m2] & H2 & Hp). apply take_f32_inv in H2 as [Htp ->]; [|by apply rust_remove].
  apply result_bind_Ok in Hp as ([x m3] & H3 & Hp). apply max_tokens_inv in H3 as [Hx ->].
  apply result_bind_Ok in Hp as ([st m4] & H4 & Hp). apply stop_inv in H4 as ->.
  apply result_bind_Ok in Hp as ([sd m5] & H5 & Hp). apply take_u64_inv in H5 as ->.
  apply result_bind_Ok in Hp as ([pp m6] & H6 & Hp). apply take_f32_inv in H6 as [Hpp ->]; [|by repeat apply rust_remove].
  apply result_bind_Ok in Hp as ([fp m7] & H7 & Hp). apply take_f32_inv in H7 as [Hfp ->]; [|by repeat apply rust_remove].
  injection Hp as <- <-. done.
Qed.

Lemma get_after ks m u x : sorted_keys m = true -> existsb (String.eqb u) ks = false -> obj_get u m = x -> obj_get u (removes ks m) = x.
Proof. intros Hm Hu <-. by rewrite removes_get, Hu. Qed.
Lemma sampling_get m s : sorted_keys m = true -> sampling_ok s -> Forall (fun kv => obj_get kv.1 m = kv.2) (sampling_members s) ->
  obj_get "max_completion_tokens" m = None -> parse_sampling m = Ok (s, removes SAMPLING_KEYS m).
Proof.
  intros Hm (Ht & Htp & Hx & Hpp & Hfp & He) Hg Hc. unfold sampling_members in Hg. rewrite !Forall_cons in Hg. cbn [fst snd] in Hg.
  destruct Hg as (Gt & Gtp & Gx & Gs & Gsd & Gpp & Gfp & _). unfold parse_sampling.
  rewrite (take_f32_get m _ _ Ht Gt). cbn [result_bind].
  rewrite (take_f32_get _ _ _ Htp) by by apply (get_after ["temperature"]). cbn [result_bind].
  rewrite (max_tokens_get _ _ Hx); [|by apply (get_after ["temperature"; "top_p"])|by apply (get_after ["temperature"; "top_p"; "max_tokens"])].
  cbn [result_bind]. rewrite (stop_get _ (sa_stop s)) by by apply (get_after ["temperature"; "top_p"; "max_tokens"; "max_completion_tokens"]).
  cbn [result_bind].
  rewrite (take_u64_get _ _ (sa_seed s)) by by apply (get_after ["temperature"; "top_p"; "max_tokens"; "max_completion_tokens"; "stop"]).
  cbn [result_bind].
  rewrite (take_f32_get _ _ _ Hpp) by by apply (get_after ["temperature"; "top_p"; "max_tokens"; "max_completion_tokens"; "stop"; "seed"]).
  cbn [result_bind].
  rewrite (take_f32_get _ _ _ Hfp) by by apply (get_after ["temperature"; "top_p"; "max_tokens"; "max_completion_tokens"; "stop"; "seed"; "presence_penalty"]).
  destruct s. cbn in He. by subst.
Qed.
Lemma sampling_gives s o : sa_extensions s = [] -> gives (encode_sampling s DIALECT_DEFAULT o) (put_all (sampling_members s) o).
Proof.
  intros He. unfold encode_sampling. rewrite He. cbn [is_accepted temperature DIALECT_DEFAULT negb]. rewrite andb_false_r. gives_all.
Qed.

(** ** Fields that are not known *)

Lemma merge_absent key fields : forall o ins rep, NoDup fields.*1 -> (forall k, k ∈ fields.*1 -> obj_get k o = None) ->
  exists ins', foldl (merge_field key) (o, ins, rep) fields = (foldl (fun m kv => obj_insert kv.1 kv.2 m) o fields, ins', rep).
Proof.
  induction fields as [|[k v] fields IH]; intros o ins rep; [by exists ins|]. cbn [fmap list_fmap fst]. intros [Hk Hn]%NoDup_cons Ha. cbn [foldl].
  unfold merge_field at 2. cbn [fst snd]. rewrite Ha by by left. cbn [is_some]. apply IH; [done|]. intros j Hj.
  rewrite obj_get_insert_ne by (by intros ->). apply Ha. by right.
Qed.
Lemma unknown_kept `{!SerdeReads} fields ext o : yields (preserve_unknown_fields fields) ext -> exact_with reads_back MAX_DEPTH (Object fields) = true ->
  (forall k, k ∈ fields.*1 -> obj_get k o = None) ->
  gives (merge_unknown_fields ext o) (foldl (fun m kv => obj_insert kv.1 kv.2 m) o fields) /\ gives (preserve_unknown_fields fields) ext.
Proof.
  unfold preserve_unknown_fields. intros Hp Hex Ha. destruct fields as [|f fields]; [apply yields_ret in Hp as <-; split; apply gives_ret|].
  cbn [list_is_empty] in *. set (fs := f :: fields) in *. clearbody fs. destruct (reads_roundtrip _ Hex) as (b & Hto & Hfrom & _).
  rewrite Hto in *. cbn [map_err] in *. set (e := MkOpaqueExtension "openai.chat" "unknown_request_fields" "application/json" ReplayNever b).
  change (unknown_extension b) with (Ok (E := OpenAiChatError) e) in *.
  assert (ext = [(MkExtensionKey "openai.chat" "unknown_request_fields", e)]) as ->.
  { yields_inv Hp. apply yields_lift in Hx as [= <-]. apply yields_lift in Hx0 as [= <-]. by subst. }
  split.
  - cbn [merge_unknown_fields]. change (negb _) with false. cbv iota. cbn [oe_bytes e]. rewrite Hfrom. gives_all.
    eapply gives_bind; [|apply gives_ret]. intros r. unfold merge_fields.
    destruct (merge_absent (extension_key_as_str (MkExtensionKey "openai.chat" "unknown_request_fields")) fs o false r) as [ins ->]; [|done|].
    + apply sorted_keys_nodup. cbn [exact_with MAX_DEPTH] in Hex. by apply andb_true_iff in Hex as [? _].
    + eexists. split; [done|]. by destruct ins.
  - gives_all. eapply gives_bind; [|apply gives_ret]. intros r. eexists. by split.
Qed.

(** * Requests *)

(** The fields of a request that are decoded; every other field is preserved as it is. *)
Definition CHAT_KEYS : list string :=
  ["model"; "messages"; "tools"; "tool_choice"] ++ SAMPLING_KEYS ++ ["response_format"; "reasoning_effort"; "metadata"; "n"].
Definition unknown_fields (m : list (string * Value)) : list (string * Value) := removes CHAT_KEYS m.

(** What a decoded request is. *)
Record decoded (fields : list (string * Value)) (r : SemanticRequest) : Prop := {
  dec_model : str_is_empty (trim (rq_model r)) = false;
  dec_input : Forall (fun item => plain_item item -> exists w, item_kept item w) (rq_input r);
  dec_tools : exists ws, Forall2 tool_kept (rq_tools r) ws;
  dec_sampling : sampling_ok (rq_sampling r);
  dec_format : gives (parse_response_format (encode_response_format <$> rq_response_format r)) (rq_response_format r);
  dec_reasoning : rq_reasoning r = None \/ exists s, rq_reasoning r = Some (MkReasoningConfig (Some (parse_effort s)) false []);
  dec_unknown : yields (preserve_unknown_fields fields) (rq_extensions r);
  dec_valid : request_validate r = Ok tt;
  dec_absent : rq_target r = None /\ rq_cache r = None /\ rq_continuation_id r = None /\ rq_session_id r = None;
}.

Lemma take_string_inv m k x m' : take_string m k = Ok (x, m') -> m' = obj_remove k m.
Proof. unfold take_string. destruct (obj_get k m) as [v|]; [destruct (as_string v); [|done]|]; by intros [= _ <-]. Qed.
Lemma messages_kept l input i : yields (st_map_from parse_message i l) input -> rust_value (Array l) = true ->
  Forall (fun item => plain_item item -> exists w, item_kept item w) input.
Proof.
  intros Hp%yields_map. cbn [rust_value]. induction Hp as [|v item l input [j Hi] _ IH]; [done|]. cbn [forallb]. intros [Hv Hl]%andb_true_iff.
  constructor; [intros Ha; by eapply message_kept|by apply IH].
Qed.
Lemma decode_inv m r : rust_value (Object m) = true -> yields (decode_chat_value (Object m)) r -> decoded (unknown_fields m) r.
Proof.
  intros Hr Hp. unfold decode_chat_value in Hp. apply yields_bind in Hp as (o & Ho & Hp). apply yields_shape in Ho. injection Ho as <-.
  apply yields_bind in Hp as ([model1 o] & Hm & Hp). apply yields_lift, take_string_inv in Hm as ->.
  apply yields_bind in Hp as (model & Hm & Hp). destruct (str_is_empty (trim model)) eqn:Emodel; [by apply yields_lift in Hp|].
  apply yields_bind in Hp as (mv & Hmv & Hp). apply yields_lift in Hmv. destruct (obj_get "messages" _) as [mv'|] eqn:Emv; [|done].
  injection Hmv as ->. apply (rust_get _ _ _ (rust_remove "model" m Hr)) in Emv.
  apply yields_bind in Hp as (ml & Hml & Hp). apply yields_shape in Hml. destruct mv; try done. injection Hml as ->.
  apply yields_bind in Hp as (input & Hinput & Hp). apply messages_kept in Hinput; [|done].
  apply yields_bind in Hp as (tools & Htools & Hp). apply yields_bind in Hp as (choice & _ & Hp).
  apply yields_bind in Hp as ([s o] & Hs & Hp). apply yields_lift, sampling_inv in Hs as [Hs ->];
    [|by apply (rust_removes ["model"; "messages"; "tools"; "tool_choice"])].
  apply yields_bind in Hp as (format & Hf & Hp). apply format_kept in Hf.
  apply yields_bind in Hp as (reasoning & He & Hp). apply yields_lift, effort_kept in He.
  apply yields_bind in Hp as (g & _ & Hp). apply yields_bind in Hp as ([] & _ & Hp). apply yields_bind in Hp as (ext & Hext & Hp).
  apply yields_bind in Hp as ([] & Hv & Hp). apply yields_lift in Hv. apply yields_ret in Hp as <-. constructor; try done.
  - destruct (obj_get "tools" _); [by eapply tools_kept|]. apply yields_ret in Htools as <-. by exists [].
  - cbn [rq_tools] in *. by destruct (request_validate _) as [[]|].
Qed.

(** The members of the encoded request, and the fields that were preserved. *)
Definition request_members (r : SemanticRequest) (ms ts : list Value) : list (string * option Value) :=
  [("model", Some (Str (rq_model r))); ("messages", Some (Array ms)); ("tools", match ts with [] => None | _ => Some (Array ts) end);
   ("tool_choice", encode_tool_choice <$> rq_tool_choice r)] ++ sampling_members (rq_sampling r) ++
  [("response_format", encode_response_format <$> rq_response_format r);
   ("reasoning_effort", (fun e => Str (reasoning_effort_name e)) <$> (rq_reasoning r ≫= rc_effort)); ("metadata", encode_metadata (rq_metadata r))].
Definition request_object (r : SemanticRequest) (ms ts : list Value) (fields : list (string * Value)) : list (string * Value) :=
  foldl (fun m kv => obj_insert kv.1 kv.2 m) (put_all (request_members r ms ts) []) fields.

Lemma request_members_nodup r ms ts : NoDup (request_members r ms ts).*1.
Proof. apply (bool_decide_eq_true_1 _). vm_compute. reflexivity. Qed.
Lemma member_unknown u r ms ts : existsb (String.eqb u) CHAT_KEYS = false -> member u (request_members r ms ts) = None.
Proof.
  intros Hu. assert (forall l, existsb (String.eqb u) l.*1 = false -> member u l = None) as Hl.
  { induction l as [|[k v] l IH]; [done|]. cbn [fmap list_fmap existsb member fst]. intros [-> Hr]%orb_false_iff. by apply IH. }
  apply Hl. cbn in *. rewrite !orb_false_iff in *. tauto.
Qed.

Section encoded.
Context `{!SerdeReads} (m : list (string * Value)) (r : SemanticRequest) (ms ts : list Value).
Hypothesis Hdec : decoded (unknown_fields m) r.
Hypothesis Hms : Forall2 item_kept (rq_input r) ms.
Hypothesis Hts : Forall2 tool_kept (rq_tools r) ts.
Hypothesis Hsome : rq_input r <> [].
Hypothesis Hm : sorted_keys m = true.
Hypothesis Hexact : exact_with reads_back MAX_DEPTH (Object (unknown_fields m)) = true.

Let o : list (string * Value) := request_object r ms ts (unknown_fields m).

Lemma unknown_sorted : sorted_keys (unknown_fields m) = true.
Proof. by apply sorted_removes. Qed.
Lemma request_object_sorted : sorted_keys o = true.
Proof. apply sorted_inserted. by apply sorted_put_all. Qed.
Lemma object_get u : obj_get u o = if existsb (String.eqb u) CHAT_KEYS then member u (request_members r ms ts) else obj_get u m.
Proof.
  unfold o, request_object. rewrite obj_get_inserted by apply sorted_keys_nodup, unknown_sorted.
  unfold unknown_fields. rewrite removes_get, put_all_get by (try apply request_members_nodup; done).
  destruct (existsb _ _) eqn:E; [by destruct (member _ _)|]. rewrite member_unknown by done. by destruct (obj_get u m).
Qed.
Lemma object_unknown : unknown_fields o = unknown_fields m.
Proof.
  apply sorted_ext; [apply sorted_removes, request_object_sorted|apply unknown_sorted|]. intros k. unfold unknown_fields.
  rewrite !removes_get by (try apply request_object_sorted; done). destruct (existsb _ _) eqn:E; [done|]. by rewrite object_get, E.
Qed.

Lemma unknown_both : gives (merge_unknown_fields (rq_extensions r) (put_all (request_members r ms ts) [])) o
  /\ gives (preserve_unknown_fields (unknown_fields m)) (rq_extensions r).
Proof.
  apply unknown_kept; [apply Hdec|done|]. intros k Hk. rewrite put_all_get by apply request_members_nodup. rewrite member_unknown; [done|].
  destruct (existsb _ _) eqn:E; [|done]. apply (obj_get_absent k) in Hk; [done|]. unfold unknown_fields. by rewrite removes_get, E.
Qed.

Lemma object_encoded : gives (encode_chat_object r DIALECT_DEFAULT) o.
Proof.
  destruct unknown_both as [Hmerge _]. destruct Hdec as [_ _ _ Hs _ Hreason _ _ (Ht & Hc & Hci & Hsi)].
  unfold encode_chat_object. rewrite Ht, Hc, Hci, Hsi. cbn [is_some].
  eapply gives_bind; [apply (gives_map _ _ _ ms); eapply Forall2_impl; [exact Hms|]; by intros item w [He _] _|].
  assert (list_is_empty ms = false) as -> by (destruct Hms; done). gives_all.
  eapply (gives_bind _ _ (put_all (firstn 3 (request_members r ms ts)) [])).
  { destruct Hts as [|tool t tools ts' Htool Htools]; [apply gives_ret|]. eapply gives_bind; [|apply gives_ret].
    apply gives_map. eapply Forall2_impl; [by constructor|]. by intros ? ? [He _] _. }
  gives_all. eapply gives_bind; [apply sampling_gives; apply Hs|].
  eapply (gives_bind _ _ (put_all (firstn 13 (request_members r ms ts)) [])); [|exact Hmerge].
  unfold encode_reasoning. unfold request_members. destruct Hreason as [-> |[s ->]]; cbn [rc_include_summary rc_extensions rc_effort]; gives_all.
Qed.

Lemma object_member ks u : existsb (String.eqb u) CHAT_KEYS = true -> existsb (String.eqb u) ks = false ->
  obj_get u (removes ks o) = member u (request_members r ms ts).
Proof. intros Hk Hu. apply get_after; [apply request_object_sorted|done|]. by rewrite object_get, Hk. Qed.

Lemma object_decoded : gives (decode_chat_value (Object o)) r.
Proof.
  destruct unknown_both as [_ Hunk]. rewrite <- object_unknown in Hunk.
  destruct Hdec as [Hmodel _ _ Hs Hf Hreason _ Hvalid (Ht & Hc & Hci & Hsi)]. unfold decode_chat_value. gives_all.
  eapply (gives_bind _ _ (Some (rq_model r), removes ["model"] o)).
  { apply gives_lift. unfold take_string. change (obj_get "model" o) with (obj_get "model" (removes [] o)). by rewrite object_member. }
  cbv beta iota. gives_all. rewrite Hmodel.
  rewrite (object_member ["model"] "messages") by done. gives_all.
  eapply (gives_bind _ _ (rq_input r)); [apply gives_map, Forall2_flip; eapply Forall2_impl; [exact Hms|]; by intros item w [_ Hr]|].
  eapply (gives_bind _ _ (rq_tools r)).
  { change (obj_remove "messages" _) with (removes ["model"; "messages"] o). rewrite (object_member ["model"; "messages"] "tools") by done.
    cbn [member request_members app String.eqb Ascii.eqb Bool.eqb]. destruct Hts; [apply gives_ret|]. apply tools_read. by constructor. }
  eapply (gives_bind _ _ (rq_tool_choice r)).
  { change (obj_remove "tools" _) with (removes ["model"; "messages"; "tools"] o). rewrite (object_member _ "tool_choice") by done.
    cbn [member request_members app String.eqb Ascii.eqb Bool.eqb]. destruct (rq_tool_choice r) as [c|]; [|apply gives_ret].
    eapply gives_bind; [apply choice_reads_back|apply gives_ret]. }
  set (o1 := removes ["model"; "messages"; "tools"; "tool_choice"] o).
  eapply (gives_bind _ _ (rq_sampling r, removes SAMPLING_KEYS o1)).
  { apply gives_lift, sampling_get; [apply sorted_removes, request_object_sorted|done| |].
    - unfold sampling_members. rewrite !Forall_cons. cbn [fst snd]. split_and!; [..|done]; by refine (object_member _ _ _ _).
    - by refine (object_member _ _ _ _). }
  cbv beta iota. eapply (gives_bind _ _ (rq_response_format r)).
  { change (removes SAMPLING_KEYS o1) with (removes (["model"; "messages"; "tools"; "tool_choice"] ++ SAMPLING_KEYS) o).
    by rewrite (object_member _ "response_format"). }
  eapply (gives_bind _ _ (rq_reasoning r)).
  { change (obj_remove "response_format" _) with (removes (["model"; "messages"; "tools"; "tool_choice"] ++ SAMPLING_KEYS ++ ["response_format"]) o).
    rewrite (object_member _ "reasoning_effort") by done. apply gives_lift. cbn [member request_members app String.eqb Ascii.eqb Bool.eqb sampling_members].
    destruct Hreason as [-> |[s ->]]; [done|]. simpl. by rewrite effort_name_reads. }
  eapply (gives_bind _ _ (rq_metadata r)).
  { change (obj_remove "reasoning_effort" _) with
      (removes (["model"; "messages"; "tools"; "tool_choice"] ++ SAMPLING_KEYS ++ ["response_format"; "reasoning_effort"]) o).
    rewrite (object_member _ "metadata") by done. apply gives_lift. apply metadata_reads. }
  eapply (gives_bind _ _ tt).
  { change (obj_remove "metadata" _) with
      (removes (["model"; "messages"; "tools"; "tool_choice"] ++ SAMPLING_KEYS ++ ["response_format"; "reasoning_effort"; "metadata"]) o).
    rewrite (object_member _ "n") by done. apply gives_ret. }
  eapply gives_bind; [exact Hunk|].
  assert (MkRequest (rq_model r) None (rq_input r) (rq_tools r) (rq_tool_choice r) (rq_reasoning r) (rq_sampling r) (rq_response_format r)
    None None None (rq_metadata r) (rq_extensions r) = r) as -> by (destruct r; cbn in *; congruence).
  rewrite Hvalid. gives_all.
Qed.
End encoded.

Lemma inputs_kept input : Forall (fun item => plain_item item -> exists w, item_kept item w) input -> Forall plain_item input ->
  exists ms, Forall2 item_kept input ms.
Proof.
  induction 1 as [|item input Hi _ IH]; [by exists []|]. intros [Ha Has]%Forall_cons. destruct (Hi Ha) as [w Hw], (IH Has) as [ms Hms].
  exists (w :: ms). by constructor.
Qed.

Lemma lossless_accepted report : is_lossless report = true -> report_validate report Reject = Ok tt.
Proof.
  unfold is_lossless, report_validate. rewrite !andb_true_iff. intros [[Hd Ho] Hu]. rewrite Hu.
  destruct (cr_degraded_fields report), (cr_dropped_optional_fields report); done.
Qed.

(** The fields that are preserved are read back when their floating point numbers are. *)
Lemma removes_exact fl depth ks : forall m,
  exact_with fl depth (Object m) = true -> exact_with fl depth (Object (removes ks m)) = true.
Proof.
  induction ks as [|k ks IH]; intros m Hm; [done|]. apply IH. destruct depth as [|depth]; [done|]. cbn [exact_with] in *.
  apply andb_true_iff in Hm as [Hs Hm]. rewrite sorted_remove by done. cbn [andb]. clear Hs.
  induction m as [|[j v] m IHm]; [done|]. cbn [obj_remove forallb] in *. apply andb_true_iff in Hm as [Hj Hm].
  case_bool_decide; [done|]. cbn [forallb]. by rewrite Hj, IHm.
Qed.

End facts.

(** * Examples *)

(** A request with a tool call and its result, a temperature and a field that is not known. *)
Definition sample_arguments : string := match @to_vec bits_json (Object []) with Ok b => of_bytes b | Err _ => "" end.
Definition sample_call : Value :=
  json_object [("id", Str "call-1"); ("type", Str "function"); ("function", json_object [("name", Str "Read"); ("arguments", Str sample_arguments)])].
Definition sample_body : list (string * Value) :=
  json_members
    [("model", Str "gpt-4o");
     ("messages", Array
        [json_object [("role", Str "system"); ("content", Str "be brief")];
         json_object [("role", Str "user"); ("content", Array
            [text_part "what is this"; json_object [("type", Str "image_url"); ("image_url", json_object [("url", Str "https://example.org/a.png")])]])];
         json_object [("role", Str "assistant"); ("content", Null); ("tool_calls", Array [sample_call])];
         json_object [("role", Str "tool"); ("tool_call_id", Str "call-1"); ("content", Str "a map")]]);
     ("tools", Array [json_object [("type", Str "function"); ("function", json_object [("name", Str "Read"); ("strict", Bool true)])]]);
     ("temperature", Num (Float 0x3FB999999999999A)); ("max_completion_tokens", number 256); ("reasoning_effort", Str "low");
     ("metadata", json_object [("team", Str "maps")]); ("store", Bool true); ("min_p", Num (Float 0x3FA999999999999A))].
Definition sample_input : bytes := match @to_vec bits_json (Object sample_body) with Ok b => b | Err _ => [] end.
Lemma sample_input_read : @from_slice bits_json sample_input = Ok (Object sample_body).
Proof. apply bits_json_reads; vm_compute; reflexivity. Qed.


Example sample_forwarded :
  match @decode_chat_request bits_json sample_input with
  | Ok r => match @encode_chat_request bits_json r Reject with
            | Ok (body, report) => @decode_chat_request bits_json body = Ok r /\ is_lossless report = true
            | Err _ => False
            end
  | Err _ => False
  end.
Proof. vm_compute. split; reflexivity. Qed.

(** A file part that has an identifier and data: the data is dropped, and nothing says so. *)
Example file_data_unreported :
  let part := json_object [("type", Str "file"); ("file", json_object [("file_id", Str "file-1"); ("file_data", Str "data:text/plain;base64,YQ==")])] in
  match @parse_content_part bits_json part "content" report_default with
  | (Ok (PartFile _ _ (MediaUri source)), report) => source = "file-1" /\ is_lossless report = true
  | _ => False
  end.
Proof. vm_compute. split; reflexivity. Qed.

(** A schema beside a format of another type is ignored, and nothing says so. *)
Example schema_unreported :
  let format := json_object [("type", Str "json_object"); ("json_schema", json_object [("name", Str "answer")])] in
  match @parse_response_format bits_json (Some format) report_default with
  | (Ok (Some FormatJsonObject), report) => is_lossless report = true
  | _ => False
  end.
Proof. vm_compute. reflexivity. Qed.

(** A request without messages is decoded, and cannot be encoded again. *)
Example empty_messages_refused :
  match @decode_chat_value bits_json (json_object [("model", Str "gpt-4o"); ("messages", Array [])]) report_default with
  | (Ok r, report) => is_lossless report = true
      /\ match @encode_chat_request bits_json r Degrade with Err (ChConversion _) => True | _ => False end
  | _ => False
  end.
Proof. vm_compute. split; [reflexivity|exact I]. Qed.
